(* ===== verification/_CoqProject ===== *)
-Q . S2P
Prelude.v
Crc32c.v
Vlq.v
Events.v
Runtime.v
EventNodes.v
RecordedQuery.v
EdgeQuery.v
LevelNodes.v
LogicGate.v
WordNodes.v
WordMatcher.v
PacketFramer.v
I2cDecoder.v
I2cBus.v
SpiDecoder.v
SpiProperties.v
TriggerSchema.v
TriggerProgram.v
TriggerProofs.v
WorkerQueue.v
WorkerQueueProofs.v
WorkerQueueProperties.v
GraphDocument.v
GraphWiring.v
GraphRouting.v
GraphGroups.v
GraphInvariant.v
GraphOperations.v
GraphAddition.v
GraphInsertion.v
GraphProperties.v
WordFormat.v
WordEncode.v
WordDecode.v
WordIntegrity.v
WordRecords.v
WordResume.v
WordWindow.v
WordGroups.v
WordGrouped.v
WordEmit.v
WordBlock.v
WordCodec.v
WordBuilder.v
WordRoundTrip.v
WordRange.v
DerivedIndex.v
DerivedIndexProofs.v
DerivedIndexProperties.v
WordPresence.v
WordPresenceIndex.v
WordPresenceProofs.v
WordPresenceRuns.v
WordPresenceProperties.v
AnnotationQuery.v
AnnotationSelection.v
AnnotationCollect.v
AnnotationExact.v
AnnotationProperties.v
AnnotationPresence.v
DecodedBlockCache.v
WordStore.v
WordStoreBlocks.v
WordStorePipeline.v
WordStoreInvariant.v
WordStoreAppend.v
WordStoreOperations.v
WordStoreProperties.v
CaptureBits.v
CaptureKernel.v
CaptureLeaf.v
CaptureCache.v
CaptureStorage.v
CaptureStorageProofs.v
CaptureBuild.v
CaptureBuildProofs.v
CaptureSampler.v
CaptureSamplerProofs.v
CaptureProperties.v
