(* ===== verification/Prelude.v ===== *)
(** * Verification of the DSL logic analyzer

    The program captures, decodes, transforms and stores the signals of a logic analyzer.  A graph
    of processing nodes runs over typed streams: sources send packed sample blocks, decoders turn
    them into words and packets, transforms merge events and levels, the derived words are stored
    as checksummed blocks, and captures are indexed so that a view finds their transitions.  This
    library models the parts of the program that carry its own logic as functions of Rocq and
    proves what they promise.  Paths below are relative to [crates/]; the comment in front of a
    definition names the lines it translates.

    ** Parts

    - Block codec of derived words ([signal_derived/src/derived_word_store/]).
      [Vlq] is [vlq.rs] and the error type of [errors.rs]; [WordFormat] is [format.rs];
      [WordEncode] and [WordDecode] are the two halves of [codec.rs], with the configuration of
      [config.rs].  [WordRecords], [WordGroups] and [WordGrouped] describe the
      bytes of each record layout and table as functions of the words and show that the decoder
      reads them; [WordEmit] shows that the encoder's loops write them; [WordBlock] assembles
      header, tables, padding and checksum; [WordCodec] composes these for whole blocks;
      [WordBuilder] relates the builder's incremental size counters to the words it holds;
      [WordRoundTrip] states the contract of builder, encoder and decoder together;
      [WordResume] shows, for any bytes, that decoding may start at a restart entry, [WordWindow]
      what the window query selects, [WordRange] its contract; and [WordIntegrity] that damaged
      blocks are refused.
    - Summary index of derived lanes ([signal_derived/src/derived_index.rs], with the folds of
      [derived_data_collector/]): [DerivedIndex] holds the fold interface as a class, its six
      instances, the append-only tiers and the chunked index; [DerivedIndexProofs] the laws of a
      fold as a class, with the lanes' instances, and the invariant of the tiers;
      [DerivedIndexProperties] the contract, for every fold that meets the laws.
    - Presence of derived words ([presence.rs] and [query.rs] of [derived_word_store/]):
      [WordPresence] computes the runs of a block, [WordPresenceIndex] the levels over them and
      the overview query; [WordPresenceRuns] shows that both ways to select the
      gaps of a block cut it in the same places, [WordPresenceProofs]
      what the levels, prefix sums and searches hold, and
      [WordPresenceProperties] the contract.
    - Queries of derived words ([query.rs] and the query methods of [store.rs]):
      [AnnotationQuery] selects blocks, collects words and derives annotations;
      [AnnotationPresence] is the overview from annotations.  [AnnotationSelection],
      [AnnotationCollect] and [AnnotationExact] show that what is left out does not matter;
      [AnnotationProperties] states it against two classes of what a query relies on when it
      reads a block: [BlockReader], whole blocks, for windows, and [LatestReader], less, for the
      latest word; [WordStoreProperties] shows when the store's own reader meets them.
    - Cache of decoded blocks ([cache.rs]): [DecodedBlockCache], with the list of recent
      blocks it refines.
    - Store of derived words ([store.rs], [state.rs]): [WordStore] is the writer, as computations
      that return, fail or wait for ever, and the reader of a block, with the rules of such
      computations; [WordStoreBlocks] where committed blocks are kept,
      [WordStorePipeline] the blocks under way, [WordStoreInvariant] and [WordStoreAppend] the
      writer's invariant and the rule that cuts words into blocks, [WordStoreOperations] the
      effect of each operation and [WordStoreProperties] the contract.  The repository answers
      each request with yes or no, the executor ends its tasks in the order of a schedule; both
      are arguments.
    - Checksum ([platform_artifacts/src/crc32c.rs]): [Crc32c].
    - Streams ([signal_runtime/src/receiver.rs], [sender.rs], [errors.rs]; payloads of
      [signal_capture/src/sample.rs] and [signal_derived/src/events.rs]): [Events], [Runtime].
      A receiving channel is the sequence of answers it gives when polled, a sending one the
      number of envelopes its receiver takes before it is dropped; both are arguments of every
      definition, so the theorems hold for every producer, batching and interleaving.
    - Transform nodes ([signal_transforms/src/]): [EventNodes] (event gate, event control),
      [LevelNodes] (set/reset latch, edge detector, event counter, buffering relay),
      [WordNodes] (field extractor), [WordMatcher] (matcher with scheduled configuration,
      manual rearm and pulses);
      [RecordedQuery] is [signal_capture/src/recorded_edge_query.rs], which the latch feeds.
      [EdgeQuery] is the interface of edge queries ([signal_capture/src/edge_query.rs]), what it
      promises as the class [Answers], and the query a gate composes of its inputs' queries
      ([logic_gate/edge_query.rs]); [LogicGate] is the gate ([logic_gate/gate.rs]).  Rates are
      64-bit floats, as binary64 numbers of the Standard Library's [SpecFloat].
      A node is the record of its fields with its ports among them; [work] is a function of that
      record and errors leave the mutations made so far, as behind [&mut self].
    - Protocol decoders ([logic_analyzer_protocol_decoders/src/]): [Events] holds
      [types/packet.rs]; [PacketFramer] is [packet_framer/framer.rs]; [I2cDecoder] is
      [i2c_decoder/decoder.rs], and [I2cBus] the waveforms it is proved to recover;
      [SpiDecoder] is [spi_decoder/decoder.rs], in its query mode and its stream mode, and
      [SpiProperties] shows what query mode sends.  The store of sampling points is a class.
    - Advanced triggers ([logic_analyzer_trigger/src/]): [TriggerSchema] is [condition.rs],
      [schema_error.rs] and the schema half of [program.rs]; [TriggerProgram] is its program half,
      with the [BTreeMap] both use; [TriggerProofs] holds the theorems.
    - Worker operations ([platform_runtime/src/worker_operation_queue.rs] and the executor of
      [work_executor.rs]): [WorkerQueue], with its invariant over histories in
      [WorkerQueueProofs] and its contract in [WorkerQueueProperties].
    - Node graph document ([node_graph_document/src/graph.rs] with its records):
      [GraphDocument] holds the data and the operations; [GraphWiring] the sources of inputs and
      the insertion and removal of inputs; [GraphRouting] the types that reroutes pass on;
      [GraphGroups] variadic groups as lists of labels and of sources;
      [GraphInvariant] the invariant and the steps that keep it; [GraphOperations],
      [GraphAddition] and [GraphInsertion] each operation's effect;
      [GraphProperties] its contract.
    - Waveform index of a capture ([signal_capture/src/capture_index_kernel.rs] and
      [signal_capture/src/waveform_index/]): [CaptureBits] is the arithmetic of words of
      sixty-four samples; [CaptureKernel] the kernel that summarises a block, with the bytes
      workers exchange; [CaptureLeaf] the leaf made of a summary ([builder.rs], [storage.rs]);
      [CaptureCache] the recency caches; [CaptureStorage] the writer and the reader of the
      artifacts of an index ([storage.rs]), with its facts in [CaptureStorageProofs];
      [CaptureBuild] the sequential, the parallel and the incremental build ([builder.rs],
      [reader.rs]), with [CaptureBuildProofs]; [CaptureSampler] the queries ([reader.rs],
      [query.rs], [resolution.rs], [exact.rs]), with [CaptureSamplerProofs];
      [CaptureProperties] the contract.  The repository of artifacts is a class of operations
      with a class of laws, which a repository in memory is shown to meet; the source of packed
      samples and the hash of cache keys are arguments.
    This file holds what they share: results with the question-mark notations, machine integers
    (64-bit wrap-around and saturation written out), little-endian bytes, slices and cursors,
    and the tactics [ints], [lens] and [bcase].

    ** What the theorems show

    - Round trips: a built block decodes to the words it was built from; headers, quantities,
      trigger edits and whole bus sessions survive their encodings.
    - Random access: a window query that decodes only from a restart entry on returns what a
      reference picks from the whole block.
    - Summaries: the tiers of the summary index hold the summaries of consecutive groups of
      entries, and a query answers with summaries of disjoint runs that hold the whole window.
    - Store: a finished store holds the words it was given, cut into blocks in one way whatever
      batches they come in and whatever order their blocks are encoded in; a live one shows a
      prefix of them as long as no call has failed; a session returns whatever is refused, and a
      failed one leaves what was committed readable.  For words at strictly increasing times,
      queries through the store that read only selected blocks answer as if they read all, outside
      the gaps their selection overlooks: the latest word whatever is cached, exact windows where
      blocks have durations or are cached.  The findings name what these conditions leave out.
    - Waveform index: the leaf of a block is exact over its samples and reads back from its
      bytes; every way to build an index, in whatever order workers answer, publishes the same
      artifacts; next transitions and values are those of the samples; a window hides no
      transition, whether it is scanned or projected from the summaries.
    - Refinement: every transform node, run to the end of its streams on arbitrary channels,
      sends what a specification without state or scheduling gives (the gate's level at any time
      is its operation on the inputs' levels, streamed or queried); the I²C decoder is the fold
      over its samples however they are cut into blocks; the packet framer partitions the words
      that pass its gate; the SPI decoder with chip select active high or low, asking queries in
      batches of any size, sends the words, annotations and transactions that are cut directly out
      of the levels of its lines; the word matcher reports every so many words that satisfy its
      predicate under the settings in force, armed and not held off; a query
      composed by a gate is itself a query of the gate's output; results of the worker queue come
      out once each in submission order.
    - Safety and errors: nothing received is lost or repeated; a damaged block is refused; a
      short burst of wrong bits is always detected; sending to dropped receivers is an error.
    - Liveness and termination: draining stops; while a worker lives, every accepted request is
      answered by a finite number of host reports.
    - Validation: a trigger program is accepted exactly when every stage, predicate, operand and
      count meets the schema, and the schema's default operands are of their type.
    - Node graph document: every sequence of edits returns and keeps the document whole, or
      reaches a connection that closes a loop of reroutes and does not return; a variadic group is
      a list of outputs that edits append to, replace in, insert in and delete from; types
      propagate along reroutes, and the recursion returns exactly when it reaches no loop.

    ** Fuel and bounds

    Loops over data recurse on the data.  A receiving loop takes the length of the channel's
    answers as its fuel, which one turn always consumes from; the loop that runs a node takes the
    number of turns as an argument, and the theorems state how many are enough and that the
    node has then finished.  Lengths and indices of data in memory are unbounded integers (a
    [usize] does not overflow on them); times, values, sequence numbers and table offsets keep
    their widths.  The search of the waveform index has as its fuel the samples in front of its
    limit, each turn passing at least one, and a search in a word its sixty-four bits; the
    parallel build ends with the jobs in flight, one of which every turn completes.  A search in
    an edge query has as its fuel the positions in front of its limit; the loop of the SPI
    decoder's query mode two turns per position, as each moves the clock position or the window.

    ** Not modelled

    Threads, watchdogs, the select over several channels and the overflow policies of shared
    senders: they are operations of the channel library, and the runtime that builds and runs
    graphs of nodes is built of them.  Of the decoders, the parallel one (jobs spread over
    threads), the UART one (bit positions added up in 64-bit floats) and the sigrok bridge (a
    foreign interface); of the SPI decoder's stream mode there is a definition and an example of
    how it differs, but no general theorem.  Of the transforms, the text formatter and the
    timeline marker, which keep no state beyond what they have yet to send.  Of the waveform index,
    activity and level ratios (64-bit floats), profiles and times; in front of it, the
    preparation of captures, a choice between asynchronous sources of the host.  The persisted
    form of the derived store and the artifact repositories themselves, whose contracts are the
    parameters of the two stores.  User interface, hosts, file formats and device drivers are
    input and output around these parts.  Texts of diagnostics, serialised forms and trait
    implementations that only convert are left out where the parts above have them. *)

From Stdlib Require Export ZArith Lia Bool Btauto Ascii String.
From Stdlib Require Export Sorting.Sorted.
From stdpp Require Export base tactics numbers option strings list.

#[global] Open Scope Z_scope.

(* The arithmetic procedures prove each goal again: no state is shared between compilations. *)
#[export] Unset Lia Cache.
#[export] Unset Nia Cache.

(** ** Results *)

(** Rust's [Result<A, E>]. *)
Inductive result (E A : Type) : Type :=
| Ok (a : A)
| Err (e : E).
Arguments Ok {E A} a.
Arguments Err {E A} e.

Declare Scope rust_scope.
Delimit Scope rust_scope with rust.
#[global] Open Scope rust_scope.

(** The question-mark operator on a pure computation. *)
Notation "'let?' x := m 'in' k" :=
  (match m with Ok x => k | Err e => Err e end)
  (at level 10, x pattern, m at level 100, k at level 200) : rust_scope.

(** The question-mark operator on a computation that also returns the state it leaves
    behind: on an error the mutations made so far persist, as they do behind [&mut self]. *)
Notation "'let!' x , s := m 'in' k" :=
  (match m with (Ok x, s) => k | (Err e, s) => (Err e, s) end)
  (at level 10, x pattern, s name, m at level 100, k at level 200)
  : rust_scope.

Definition ok_or {E A} (o : option A) (e : E) : result E A :=
  match o with Some a => Ok a | None => Err e end.

Definition is_ok {E A} (r : result E A) : bool :=
  match r with Ok _ => true | Err _ => false end.

#[export] Instance result_eq_dec {E A} `{EqDecision E, EqDecision A} : EqDecision (result E A).
Proof. solve_decision. Defined.

(** ** Machine integers: a [w]-bit unsigned value is a [Z] in [[0, 2^w)] *)

Definition u8_max : Z := 255.
Definition u32_max : Z := 4294967295.
Definition u64_max : Z := 18446744073709551615.
Definition i64_max : Z := 9223372036854775807.
Definition i64_min : Z := -9223372036854775808.

Definition u8 (z : Z) : Prop := 0 <= z < 256.
Definition u16 (z : Z) : Prop := 0 <= z < 65536.
Definition u32 (z : Z) : Prop := 0 <= z < 4294967296.
Definition u64 (z : Z) : Prop := 0 <= z < 18446744073709551616.
Definition i64 (z : Z) : Prop := i64_min <= z <= i64_max.

(** [+] and [-] of the release profile (no overflow checks): wrap-around. *)
Definition add64 (a b : Z) : Z := (a + b) mod 18446744073709551616.
Definition sub64 (a b : Z) : Z := (a - b) mod 18446744073709551616.
Definition mul64 (a b : Z) : Z := (a * b) mod 18446744073709551616.

(** [value as u32], also the wrap-around of 32-bit sums. *)
Definition as_u32 (z : Z) : Z := z mod 4294967296.

Definition saturating_add64 (a b : Z) : Z := Z.min (a + b) u64_max.
Definition saturating_sub64 (a b : Z) : Z := Z.max (a - b) 0.
Definition saturating_mul64 (a b : Z) : Z := Z.min (a * b) u64_max.

Definition checked_add64 (a b : Z) : option Z :=
  if a + b <=? u64_max then Some (a + b) else None.
Definition checked_sub64 (a b : Z) : option Z :=
  if b <=? a then Some (a - b) else None.
Definition checked_mul64 (a b : Z) : option Z :=
  if a * b <=? u64_max then Some (a * b) else None.

(** Wrap-around of a signed 64-bit result. *)
Definition wrap_i64 (z : Z) : Z :=
  (z - i64_min) mod 18446744073709551616 + i64_min.

Definition div_ceil (a b : Z) : Z := (a + b - 1) / b.

Definition b2z (b : bool) : Z := if b then 1 else 0.

Ltac unfold_ints :=
  unfold saturating_add64, saturating_sub64, saturating_mul64, u8, u16, u32, u64, i64,
    u8_max, u32_max, u64_max, i64_max, i64_min in *.

(** Arithmetic goals over machine integers. *)
Ltac ints := unfold_ints; try lia.

Lemma as_u32_range z : u32 (as_u32 z).
Proof. unfold as_u32. pose proof (Z.mod_pos_bound z 4294967296). ints. Qed.

Lemma as_u32_small z : 0 <= z <= u32_max -> as_u32 z = z.
Proof. intros Hz. unfold as_u32. apply Z.mod_small. ints. Qed.

Lemma add64_small a b : 0 <= a -> 0 <= b -> a + b <= u64_max -> add64 a b = a + b.
Proof. intros. unfold add64. apply Z.mod_small. ints. Qed.

Lemma sub64_small a b : u64 a -> 0 <= b <= a -> sub64 a b = a - b.
Proof. intros. unfold sub64. apply Z.mod_small. ints. Qed.

Lemma add64_range a b : u64 (add64 a b).
Proof. apply Z.mod_pos_bound. lia. Qed.

Lemma sub64_range a b : u64 (sub64 a b).
Proof. apply Z.mod_pos_bound. lia. Qed.

Lemma saturating_add64_range a b : 0 <= a -> 0 <= b -> u64 (saturating_add64 a b).
Proof. ints. Qed.

Lemma saturating_add64_small a b : a + b <= u64_max -> saturating_add64 a b = a + b.
Proof. apply Z.min_l. Qed.

Lemma saturating_sub64_small a b : b <= a -> saturating_sub64 a b = a - b.
Proof. intros. apply Z.max_l. lia. Qed.

Lemma wrap_i64_small z : i64 z -> wrap_i64 z = z.
Proof. intros. unfold wrap_i64. rewrite Z.mod_small; ints. Qed.

Lemma wrap_i64_turns z : exists k, wrap_i64 z = z + k * 18446744073709551616.
Proof.
  exists (- ((z - i64_min) / 18446744073709551616)). unfold wrap_i64.
  pose proof (Z.div_mod (z - i64_min) 18446744073709551616). lia.
Qed.

Lemma wrap_i64_turn z k : wrap_i64 (z + k * 18446744073709551616) = wrap_i64 z.
Proof.
  unfold wrap_i64. replace (z + _ - i64_min) with (z - i64_min + k * 18446744073709551616) by lia.
  by rewrite Z.mod_add.
Qed.

(** ** Byte sequences *)

Definition bytes_ok (l : list Z) : Prop := Forall u8 l.

(** [&l[i]] with a [Z] index; [None] is the out-of-range panic or the [get] miss. *)
Definition byte_at {A} (l : list A) (i : Z) : option A :=
  if i <? 0 then None else l !! Z.to_nat i.

Definition zlen {A} (l : list A) : Z := Z.of_nat (length l).

(** [l.get(a..b)]. *)
Definition slice {A} (l : list A) (a b : Z) : option (list A) :=
  if (0 <=? a) && (a <=? b) && (b <=? zlen l)
  then Some (take (Z.to_nat (b - a)) (drop (Z.to_nat a) l)) else None.

(** Little-endian bytes of the low [8 * n] bits. *)
Fixpoint to_le_bytes (n : nat) (z : Z) : list Z :=
  match n with
  | O => []
  | S n => z mod 256 :: to_le_bytes n (z / 256)
  end.

Fixpoint from_le_bytes (l : list Z) : Z :=
  match l with
  | [] => 0
  | b :: l => b + 256 * from_le_bytes l
  end.

Lemma length_to_le_bytes n z : length (to_le_bytes n z) = n.
Proof. revert z; induction n; simpl; auto. Qed.

Lemma to_le_bytes_ok n z : bytes_ok (to_le_bytes n z).
Proof.
  revert z; induction n as [|n IH]; intros z; simpl; constructor; [|apply IH].
  apply Z.mod_pos_bound. lia.
Qed.

Lemma from_to_le_bytes n z :
  0 <= z < 256 ^ Z.of_nat n -> from_le_bytes (to_le_bytes n z) = z.
Proof.
  revert z; induction n as [|n IH]; intros z Hz; cbn [to_le_bytes from_le_bytes].
  - change (256 ^ Z.of_nat 0) with 1 in Hz. lia.
  - rewrite IH.
    + pose proof (Z.div_mod z 256). lia.
    + rewrite Nat2Z.inj_succ, Z.pow_succ_r in Hz by lia.
      split; [apply Z.div_pos; lia | apply Z.div_lt_upper_bound; lia].
Qed.

Lemma from_le_bytes_range l :
  bytes_ok l -> 0 <= from_le_bytes l < 256 ^ zlen l.
Proof.
  unfold zlen. induction 1 as [|b l Hb _ IH]; cbn [from_le_bytes length].
  - change (256 ^ Z.of_nat 0) with 1. lia.
  - rewrite Nat2Z.inj_succ, Z.pow_succ_r by lia. unfold u8 in Hb. lia.
Qed.

Lemma from_le_bytes_app l1 l2 :
  from_le_bytes (l1 ++ l2) = from_le_bytes l1 + 256 ^ zlen l1 * from_le_bytes l2.
Proof.
  unfold zlen. induction l1 as [|b l1 IH]; cbn [app from_le_bytes length].
  - change (256 ^ Z.of_nat 0) with 1. lia.
  - rewrite IH, Nat2Z.inj_succ, Z.pow_succ_r by lia. lia.
Qed.

Lemma to_from_le_bytes l : bytes_ok l -> to_le_bytes (length l) (from_le_bytes l) = l.
Proof.
  induction 1 as [|b l Hb _ IH]; cbn [length from_le_bytes to_le_bytes]; [done|].
  unfold u8 in Hb.
  rewrite Z.mul_comm, Z.mod_add, Z.div_add, Z.mod_small, Z.div_small by lia.
  rewrite Z.add_0_l. congruence.
Qed.

Lemma bytes_ok_app l1 l2 : bytes_ok (l1 ++ l2) <-> bytes_ok l1 /\ bytes_ok l2.
Proof. apply Forall_app. Qed.

Lemma bytes_ok_cons b l : bytes_ok (b :: l) <-> u8 b /\ bytes_ok l.
Proof. apply Forall_cons. Qed.

Lemma bytes_ok_nil : bytes_ok [].
Proof. constructor. Qed.

Definition bytes_okb (l : list Z) : bool := forallb (fun b => (0 <=? b) && (b <? 256)) l.

Lemma bytes_okb_spec l : bytes_okb l = true -> bytes_ok l.
Proof.
  unfold bytes_okb. rewrite List.forallb_forall. intros H. apply List.Forall_forall. intros b Hb.
  apply H in Hb. rewrite andb_true_iff, Z.leb_le, Z.ltb_lt in Hb. done.
Qed.

Lemma zlen_nonneg {A} (l : list A) : 0 <= zlen l.
Proof. unfold zlen; lia. Qed.

Lemma zlen_app {A} (l1 l2 : list A) : zlen (l1 ++ l2) = zlen l1 + zlen l2.
Proof. unfold zlen. rewrite length_app. lia. Qed.

Lemma zlen_cons {A} (x : A) l : zlen (x :: l) = 1 + zlen l.
Proof. unfold zlen. simpl. lia. Qed.

Lemma zlen_to_le_bytes n z : zlen (to_le_bytes n z) = Z.of_nat n.
Proof. unfold zlen. by rewrite length_to_le_bytes. Qed.

(** A slice that is a segment of an explicit concatenation. *)
Lemma slice_segment {A} (pre mid post : list A) a b :
  a = zlen pre -> b = zlen pre + zlen mid -> slice (pre ++ mid ++ post) a b = Some mid.
Proof.
  intros -> ->. unfold slice, zlen. rewrite !length_app.
  rewrite !(proj2 (Z.leb_le _ _)) by lia. simpl. f_equal.
  rewrite Nat2Z.id, drop_app_length, Z.add_simpl_l, Nat2Z.id. apply take_app_length.
Qed.

Lemma slice_prefix {A} (pre post : list A) : slice (pre ++ post) 0 (zlen pre) = Some pre.
Proof. apply (slice_segment [] pre post); [done|]. unfold zlen; simpl; lia. Qed.

Lemma slice_suffix {A} (pre post l : list A) a b :
  l = pre ++ post -> a = zlen pre -> b = zlen l -> slice l a b = Some post.
Proof.
  intros -> -> ->. rewrite <- (app_nil_r post) at 1.
  apply slice_segment; [done|]. unfold zlen. rewrite !length_app. lia.
Qed.

(** [s] is what [l] holds from index [cursor] on. *)
Definition at_cursor {A} (l : list A) (cursor : Z) (s : list A) : Prop :=
  0 <= cursor <= zlen l /\ drop (Z.to_nat cursor) l = s.

Section at_cursor.
Context {A : Type}.
Implicit Types l s : list A.

Lemma at_cursor_intro pre s : at_cursor (pre ++ s) (zlen pre) s.
Proof.
  split; [rewrite zlen_app; pose proof (zlen_nonneg s); pose proof (zlen_nonneg pre); lia|].
  unfold zlen. rewrite Nat2Z.id. apply drop_app_length.
Qed.

Lemma at_cursor_inv l cursor s :
  at_cursor l cursor s -> exists pre, l = pre ++ s /\ cursor = zlen pre.
Proof.
  intros [Hc <-]. exists (take (Z.to_nat cursor) l). split.
  - symmetry. apply take_drop.
  - unfold zlen in *. rewrite length_take. lia.
Qed.

Lemma at_cursor_byte l cursor b s : at_cursor l cursor (b :: s) -> byte_at l cursor = Some b.
Proof.
  intros [Hc Hd]. unfold byte_at. destruct (Z.ltb_spec cursor 0); [lia|].
  rewrite <- (Nat.add_0_r (Z.to_nat cursor)), <- lookup_drop, Hd. done.
Qed.

Lemma at_cursor_end l cursor : at_cursor l cursor [] -> byte_at l cursor = None.
Proof.
  intros [Hc Hd]. unfold byte_at. destruct (Z.ltb_spec cursor 0); [lia|].
  rewrite <- (Nat.add_0_r (Z.to_nat cursor)), <- lookup_drop, Hd. done.
Qed.

Lemma at_cursor_app l cursor s1 s2 :
  at_cursor l cursor (s1 ++ s2) -> at_cursor l (cursor + zlen s1) s2.
Proof.
  intros (pre & -> & ->)%at_cursor_inv. rewrite app_assoc, <- zlen_app. apply at_cursor_intro.
Qed.

Lemma at_cursor_next l cursor b s : at_cursor l cursor (b :: s) -> at_cursor l (cursor + 1) s.
Proof. apply (at_cursor_app l cursor [b] s). Qed.

Lemma at_cursor_slice l cursor s1 s2 b :
  at_cursor l cursor (s1 ++ s2) -> b = cursor + zlen s1 -> slice l cursor b = Some s1.
Proof. intros (pre & -> & ->)%at_cursor_inv ->. by apply slice_segment. Qed.
End at_cursor.

(** ** Bits of byte sequences *)

Lemma land_bit a k : 0 <= k -> negb (Z.land a (Z.shiftl 1 k) =? 0) = Z.testbit a k.
Proof.
  intros Hk. destruct (Z.testbit a k) eqn:Ha.
  - apply negb_true_iff, Z.eqb_neq. intros H.
    assert (Hb : Z.testbit (Z.land a (Z.shiftl 1 k)) k = false) by (rewrite H; apply Z.bits_0).
    rewrite Z.land_spec, Ha, Z.shiftl_spec, Z.sub_diag in Hb by lia. done.
  - apply negb_false_iff, Z.eqb_eq, Z.bits_inj'. intros n Hn.
    rewrite Z.land_spec, Z.bits_0, Z.shiftl_1_l, Z.pow2_bits_eqb by lia.
    destruct (Z.eqb_spec k n) as [<-|]; [by rewrite Ha|apply andb_false_r].
Qed.

Lemma testbit_u8 b i : u8 b -> 8 <= i -> Z.testbit b i = false.
Proof.
  intros Hb Hi. unfold u8 in Hb. destruct (Z.eq_dec b 0) as [->|]; [apply Z.bits_0|].
  apply Z.bits_above_log2; [lia|]. apply Z.log2_lt_pow2; [lia|].
  apply Z.lt_le_trans with (2 ^ 8); [lia|]. apply Z.pow_le_mono_r; lia.
Qed.

Lemma testbit_from_le_bytes l k :
  bytes_ok l -> 0 <= k ->
  Z.testbit (from_le_bytes l) k =
    match l !! Z.to_nat (k / 8) with Some b => Z.testbit b (k mod 8) | None => false end.
Proof.
  revert k. induction l as [|b l IH]; intros k Hl Hk; [apply Z.bits_0|].
  apply bytes_ok_cons in Hl as [Hb Hl]. cbn [from_le_bytes]. unfold u8 in Hb.
  destruct (Z.lt_ge_cases k 8).
  - rewrite Z.div_small, Z.mod_small by lia.
    rewrite <- (Z.mod_pow2_bits_low (b + _) 8) by lia. change (2 ^ 8) with 256.
    rewrite (Z.mul_comm 256), Z.mod_add, Z.mod_small by lia. done.
  - replace k with (k - 8 + 8) at 1 by lia. rewrite <- Z.div_pow2_bits by lia.
    replace ((b + 256 * from_le_bytes l) / 2 ^ 8) with (from_le_bytes l)
      by (change (2 ^ 8) with 256; apply Z.div_unique with b; lia).
    rewrite IH by (done || lia).
    assert (Hk8 : k / 8 = (k - 8) / 8 + 1 /\ k mod 8 = (k - 8) mod 8).
    { replace k with (k - 8 + 1 * 8) at 1 3 by lia. by rewrite Z.div_add, Z.mod_add by lia. }
    destruct Hk8 as [-> ->]. rewrite Z2Nat.inj_add by (try apply Z.div_pos; lia). by rewrite Nat.add_comm.
Qed.

Lemma bytes_ok_reverse l : bytes_ok l -> bytes_ok (reverse l).
Proof. apply Forall_reverse. Qed.

Lemma testbit_u64 z k : u64 z -> 64 <= k -> Z.testbit z k = false.
Proof.
  intros Hz Hk. rewrite <- (Z.mod_small z (2 ^ 64)) by ints. apply Z.mod_pow2_bits_high. lia.
Qed.

(** ** Automation shared by the components *)

Create HintDb ints.
#[export] Hint Resolve add64_range sub64_range saturating_add64_range to_le_bytes_ok : ints.
#[export] Hint Resolve zlen_nonneg bytes_ok_nil : ints.
Create Rewrite HintDb lens.
#[export] Hint Rewrite @zlen_app @zlen_cons zlen_to_le_bytes @length_app length_to_le_bytes : lens.

Ltac lens := autorewrite with lens in *; unfold zlen in *; simpl length in *; try lia.

(** Case analysis on the boolean comparisons of a goal, with the facts they decide. *)
Ltac bcase :=
  repeat match goal with
  | |- context [?a <=? ?b] => destruct (Z.leb_spec a b)
  | |- context [?a <? ?b] => destruct (Z.ltb_spec a b)
  | |- context [?a =? ?b] => destruct (Z.eqb_spec a b)
  end; simpl.

(** ** Lists ordered by a key *)

Section Ascending.
Context {A : Type} (key : A -> Z).
Implicit Types (l : list A).

Definition ascending l : Prop := StronglySorted (fun a b => key a <= key b) l.

Fixpoint ascendingb l : bool :=
  match l with
  | [] => true
  | x :: l => forallb (fun y => key x <=? key y) l && ascendingb l
  end.

Lemma ascendingb_spec l : ascendingb l = true -> ascending l.
Proof.
  induction l as [|x l IH]; [constructor|]. cbn [ascendingb]. rewrite andb_true_iff, forallb_forall.
  intros [H1 H2]. constructor; [by apply IH|]. apply List.Forall_forall.
  intros y Hy. by apply Z.leb_le, H1.
Qed.

Lemma ascending_cons x l :
  ascending (x :: l) <-> (forall y, In y l -> key x <= key y) /\ ascending l.
Proof.
  split.
  - intros H. apply StronglySorted_inv in H as [H1 H2].
    rewrite List.Forall_forall in H2. done.
  - intros [H1 H2]. constructor; [done|]. by apply List.Forall_forall.
Qed.

Lemma ascending_nil : ascending [].
Proof. constructor. Qed.
End Ascending.

#[export] Hint Resolve ascending_nil : core.
