(* ===== verification/Crc32c.v ===== *)
(** CRC-32C of [crates/platform_artifacts/src/crc32c.rs]: the table-driven checksum
    (slicing by eight), proved equal to the bit-serial definition of the polynomial, and the
    integrity guarantees the block and record formats rely on. *)

From S2P Require Import Prelude.

(** [crates/platform_artifacts/src/crc32c.rs:3-3] POLYNOMIAL *)
Definition POLYNOMIAL : Z := 0x82f63b78.

(** One turn of the inner [while bit < 8] loop.
    [crates/platform_artifacts/src/crc32c.rs:12-16] tables (inner loop body) *)
Definition crc_bit (crc : Z) : Z :=
  if Z.odd crc then Z.lxor (Z.shiftr crc 1) POLYNOMIAL else Z.shiftr crc 1.

(** [crates/platform_artifacts/src/crc32c.rs:7-21] tables (first table) *)
Definition table0 : list Z := map (fun index => Nat.iter 8 crc_bit (Z.of_nat index)) (seq 0 256).

(** [result[table][index]] from [result[table - 1]].
    [crates/platform_artifacts/src/crc32c.rs:22-31] tables (derived tables) *)
Definition next_table (previous_table : list Z) : list Z :=
  map (fun previous =>
         Z.lxor (default 0 (byte_at table0 (Z.land previous 0xff))) (Z.shiftr previous 8))
      previous_table.

Fixpoint derived_tables (n : nat) (table : list Z) : list (list Z) :=
  match n with
  | O => [table]
  | S n => table :: derived_tables n (next_table table)
  end.

(** [crates/platform_artifacts/src/crc32c.rs:35-35] TABLES *)
Definition TABLES : list (list Z) := derived_tables 7 table0.

(** [TABLES[k][i as usize]]; the index is masked to a byte at every call. *)
Definition lookup_table (k : nat) (i : Z) : Z :=
  default 0 (t ← TABLES !! k; byte_at t i).

(** Body of the loop over eight-byte chunks.
    [crates/platform_artifacts/src/crc32c.rs:40-50] update (chunk) *)
Definition update_chunk (crc : Z) (chunk : list Z) : Z :=
  let byte i := default 0 (chunk !! i) in
  let crc := Z.lxor crc (from_le_bytes (take 4 chunk)) in
  Z.lxor (lookup_table 7 (Z.land crc 0xff))
  (Z.lxor (lookup_table 6 (Z.land (Z.shiftr crc 8) 0xff))
  (Z.lxor (lookup_table 5 (Z.land (Z.shiftr crc 16) 0xff))
  (Z.lxor (lookup_table 4 (Z.shiftr crc 24))
  (Z.lxor (lookup_table 3 (byte 4%nat))
  (Z.lxor (lookup_table 2 (byte 5%nat))
  (Z.lxor (lookup_table 1 (byte 6%nat)) (lookup_table 0 (byte 7%nat)))))))).

(** Body of the loop over the remaining bytes.
    [crates/platform_artifacts/src/crc32c.rs:51-53] update (remainder) *)
Definition update_byte (crc byte : Z) : Z :=
  Z.lxor (lookup_table 0 (Z.land (Z.lxor crc byte) 0xff)) (Z.shiftr crc 8).

(** [as_chunks::<8>]: the whole chunks first, then the remainder.
    [crates/platform_artifacts/src/crc32c.rs:37-55] update *)
Fixpoint update (crc : Z) (bytes : list Z) : Z :=
  match bytes with
  | b0 :: b1 :: b2 :: b3 :: b4 :: b5 :: b6 :: b7 :: rest =>
      update (update_chunk crc [b0; b1; b2; b3; b4; b5; b6; b7]) rest
  | remainder => fold_left update_byte remainder crc
  end.

(** [!crc] on 32 bits. *)
Definition not32 (crc : Z) : Z := Z.lxor crc u32_max.

(** [crates/platform_artifacts/src/crc32c.rs:57-64] checksum_parts *)
Definition checksum_parts (parts : list (list Z)) : Z :=
  not32 (fold_left update parts (not32 0)).

(** [None] is the out-of-range slice panic.
    [crates/platform_artifacts/src/crc32c.rs:66-72] block_checksum *)
Definition block_checksum (bytes : list Z) (checksum_offset : Z) : option Z :=
  head ← slice bytes 0 checksum_offset;
  tail ← slice bytes (checksum_offset + 4) (zlen bytes);
  Some (not32 (update (update (update (not32 0) head) [0; 0; 0; 0]) tail)).

Example crc_check : checksum_parts [[0x31;0x32;0x33;0x34;0x35;0x36;0x37;0x38;0x39]] = 0xe3069283.
Proof. vm_compute. reflexivity. Qed.

(** ** The bit-serial reference *)

(** [n] shift-register turns. *)
Definition shift_register (n : nat) (crc : Z) : Z := Nat.iter n crc_bit crc.

Definition serial_byte (crc byte : Z) : Z := shift_register 8 (Z.lxor crc byte).

Definition serial (crc : Z) (bytes : list Z) : Z := fold_left serial_byte bytes crc.

(** ** Linearity of the shift register *)

Lemma crc_bit_lxor a b : crc_bit (Z.lxor a b) = Z.lxor (crc_bit a) (crc_bit b).
Proof.
  unfold crc_bit. rewrite <- !Z.bit0_odd, Z.lxor_spec, !Z.bit0_odd, Z.shiftr_lxor.
  apply Z.bits_inj'; intros n Hn.
  destruct (Z.odd a), (Z.odd b); simpl; rewrite ?Z.lxor_spec; btauto.
Qed.

Lemma shift_register_lxor n a b :
  shift_register n (Z.lxor a b) = Z.lxor (shift_register n a) (shift_register n b).
Proof.
  unfold shift_register. induction n as [|n IH]; simpl; [done|].
  by rewrite IH, crc_bit_lxor.
Qed.

Lemma shift_register_add n m a :
  shift_register (n + m) a = shift_register n (shift_register m a).
Proof. apply Nat.iter_add. Qed.

Lemma crc_bit_double a : crc_bit (2 * a) = a.
Proof.
  unfold crc_bit. rewrite Z.odd_mul. simpl.
  rewrite Z.shiftr_div_pow2 by lia. rewrite Z.mul_comm. apply Z.div_mul. lia.
Qed.

Lemma shift_register_shiftl n a : shift_register n (Z.shiftl a (Z.of_nat n)) = a.
Proof.
  rewrite Z.shiftl_mul_pow2 by lia. revert a.
  induction n as [|n IH]; intros a; [apply Z.mul_1_r|].
  unfold shift_register. rewrite Nat.iter_succ_r. fold (shift_register n).
  rewrite Nat2Z.inj_succ, Z.pow_succ_r by lia.
  replace (a * (2 * 2 ^ Z.of_nat n)) with (2 * (a * 2 ^ Z.of_nat n)) by lia.
  rewrite crc_bit_double. apply IH.
Qed.

Lemma byte_split b r : u8 b -> b + 256 * r = Z.lxor b (Z.shiftl r 8).
Proof.
  intros Hb. rewrite <- Z.add_nocarry_lxor.
  - rewrite Z.shiftl_mul_pow2 by lia. lia.
  - apply Z.bits_inj'; intros n Hn. rewrite Z.land_spec, Z.bits_0.
    destruct (Z.ltb_spec n 8).
    + rewrite Z.shiftl_spec_low by lia. apply andb_false_r.
    + rewrite Z.bits_above_log2; [done|unfold u8 in Hb; lia|].
      destruct (Z.eq_dec b 0) as [->|]; [simpl; lia|].
      apply Z.log2_lt_pow2; [|apply Z.lt_le_trans with (2 ^ 8); [unfold u8 in Hb; lia|]];
        unfold u8 in Hb; try lia. apply Z.pow_le_mono_r; lia.
Qed.

(** Peeling the low byte off a register: its high part has moved down eight places. *)
Lemma shift_register_byte n b r : u8 b ->
  shift_register (8 + n) (b + 256 * r) =
  Z.lxor (shift_register (8 + n) b) (shift_register n r).
Proof.
  intros Hb. rewrite byte_split, shift_register_lxor by done. f_equal.
  rewrite Nat.add_comm, shift_register_add. by rewrite (shift_register_shiftl 8).
Qed.

(** Eight turns of the register, as the byte-wise table step computes them. *)
Lemma shift_register_eight c :
  shift_register 8 c = Z.lxor (shift_register 8 (Z.land c 255)) (Z.shiftr c 8).
Proof.
  change 255 with (Z.ones 8). rewrite Z.land_ones, Z.shiftr_div_pow2 by lia.
  change (2 ^ 8) with 256.
  rewrite (Z.div_mod c 256) at 1 by lia. rewrite Z.add_comm.
  apply (shift_register_byte 0). apply Z.mod_pos_bound. lia.
Qed.

(** ** The tables hold the register turns of their index *)

Definition tables_agree : bool :=
  let tables := TABLES in
  forallb (fun k => forallb (fun i =>
    default 0 (t ← tables !! k; byte_at t (Z.of_nat i)) =?
    shift_register (8 * S k) (Z.of_nat i)) (seq 0 256)) (seq 0 8).

Lemma tables_agree_true : tables_agree = true.
Proof. vm_compute. reflexivity. Qed.

#[local] Opaque TABLES.

Lemma lookup_table_spec k i : (k < 8)%nat -> u8 i ->
  lookup_table k i = shift_register (8 * S k) i.
Proof.
  intros Hk Hi. pose proof tables_agree_true as Hall. unfold tables_agree in Hall.
  cbv zeta in Hall. rewrite forallb_forall in Hall.
  specialize (Hall k ltac:(apply in_seq; lia)). rewrite forallb_forall in Hall.
  specialize (Hall (Z.to_nat i) ltac:(apply in_seq; ints)).
  rewrite Z2Nat.id in Hall by ints. apply Z.eqb_eq in Hall. exact Hall.
Qed.

Lemma land_255_u8 a : u8 (Z.land a 255).
Proof. change 255 with (Z.ones 8). rewrite Z.land_ones by lia. apply Z.mod_pos_bound. lia. Qed.
#[export] Hint Resolve land_255_u8 : ints.

Lemma u8_shiftr b : u8 b -> Z.shiftr b 8 = 0.
Proof. intros. rewrite Z.shiftr_div_pow2 by lia. apply Z.div_small. ints. Qed.

Lemma update_byte_serial crc byte : u8 byte -> update_byte crc byte = serial_byte crc byte.
Proof.
  intros Hb. unfold update_byte, serial_byte.
  rewrite lookup_table_spec by eauto with ints lia.
  rewrite (shift_register_eight (Z.lxor crc byte)), Z.shiftr_lxor, (u8_shiftr byte Hb).
  by rewrite Z.lxor_0_r.
Qed.

Lemma word_bytes x : u32 x ->
  x = Z.land x 255 + 256 * (Z.land (Z.shiftr x 8) 255 +
        256 * (Z.land (Z.shiftr x 16) 255 + 256 * Z.shiftr x 24)).
Proof.
  intros Hx. change 255 with (Z.ones 8).
  rewrite !Z.land_ones, !Z.shiftr_div_pow2 by lia.
  change (2 ^ 8) with 256. change (2 ^ 16) with (256 * 256).
  change (2 ^ 24) with (256 * 256 * 256).
  rewrite <- !Z.div_div by lia.
  pose proof (Z.div_mod x 256). pose proof (Z.div_mod (x / 256) 256).
  pose proof (Z.div_mod (x / 256 / 256) 256). lia.
Qed.

Lemma lxor_u32 a b : u32 a -> u32 b -> u32 (Z.lxor a b).
Proof.
  unfold u32. intros Ha Hb. assert (0 <= Z.lxor a b) as H0 by (apply Z.lxor_nonneg; lia).
  split; [done|]. destruct (Z.eq_dec (Z.lxor a b) 0) as [->|Hn]; [lia|].
  change 4294967296 with (2 ^ 32). apply Z.log2_lt_pow2; [lia|].
  pose proof (Z.log2_lxor a b ltac:(lia) ltac:(lia)).
  assert (forall z, 0 <= z < 4294967296 -> Z.log2 z < 32) as Hlog; [|].
  { intros z Hz. destruct (Z.eq_dec z 0) as [->|]; [simpl; lia|].
    apply Z.log2_lt_pow2; [lia|]. change (2 ^ 32) with 4294967296. lia. }
  pose proof (Hlog a Ha). pose proof (Hlog b Hb). lia.
Qed.

Lemma u8_u32 a : u8 a -> u32 a.
Proof. ints. Qed.
#[export] Hint Resolve lxor_u32 u8_u32 : ints.

Lemma crc_bit_u32 a : u32 a -> u32 (crc_bit a).
Proof.
  intros Ha. assert (u32 (Z.shiftr a 1)).
  { rewrite Z.shiftr_div_pow2 by lia. change (2 ^ 1) with 2.
    pose proof (Z.div_mod a 2). pose proof (Z.mod_pos_bound a 2). ints. }
  unfold crc_bit. destruct (Z.odd a); [apply lxor_u32|]; auto. unfold POLYNOMIAL. ints.
Qed.

Lemma shift_register_u32 n a : u32 a -> u32 (shift_register n a).
Proof.
  intros Ha. unfold shift_register.
  induction n as [|n IH]; simpl; auto using crc_bit_u32.
Qed.
#[export] Hint Resolve crc_bit_u32 shift_register_u32 : ints.

Lemma serial_byte_u32 crc byte : u32 crc -> u8 byte -> u32 (serial_byte crc byte).
Proof. unfold serial_byte. eauto with ints. Qed.
#[export] Hint Resolve serial_byte_u32 : ints.

Lemma serial_u32 crc bytes : u32 crc -> bytes_ok bytes -> u32 (serial crc bytes).
Proof.
  intros Hc Hb. revert crc Hc. unfold serial.
  induction Hb as [|b bytes Hb _ IH]; simpl; eauto with ints.
Qed.

Lemma from_le_bytes_u32 b0 b1 b2 b3 :
  u8 b0 -> u8 b1 -> u8 b2 -> u8 b3 -> u32 (from_le_bytes [b0; b1; b2; b3]).
Proof. unfold u8, u32; simpl; lia. Qed.

#[local] Opaque shift_register.

(** Thirty-two turns consume a little-endian word exactly as four byte positions. *)
Lemma shift_register_word n b0 b1 b2 r : u8 b0 -> u8 b1 -> u8 b2 ->
  shift_register (8 + (8 + (8 + n))) (b0 + 256 * (b1 + 256 * (b2 + 256 * r))) =
  Z.lxor (shift_register (8 + (8 + (8 + n))) b0)
  (Z.lxor (shift_register (8 + (8 + n)) b1)
  (Z.lxor (shift_register (8 + n) b2) (shift_register n r))).
Proof. intros. by rewrite !shift_register_byte. Qed.

Lemma update_chunk_serial crc b0 b1 b2 b3 b4 b5 b6 b7 :
  u32 crc -> bytes_ok [b0; b1; b2; b3; b4; b5; b6; b7] ->
  update_chunk crc [b0; b1; b2; b3; b4; b5; b6; b7] =
  serial crc [b0; b1; b2; b3; b4; b5; b6; b7].
Proof.
  intros Hc Hb. unfold bytes_ok in Hb. decompose_Forall_hyps.
  pose proof (from_le_bytes_u32 b0 b1 b2 b3 ltac:(done) ltac:(done) ltac:(done) ltac:(done)) as Hw.
  set (x := Z.lxor crc (from_le_bytes [b0; b1; b2; b3])).
  assert (u32 x) as Hx by (subst x; eauto with ints).
  assert (u8 (Z.shiftr x 24)) as Hx3.
  { rewrite Z.shiftr_div_pow2 by lia. change (2 ^ 24) with 16777216. unfold u32 in Hx.
    split; [apply Z.div_pos; lia | apply Z.div_lt_upper_bound; lia]. }
  pose proof (shift_register_word 40 _ _ _ (Z.shiftr x 24)
    (land_255_u8 x) (land_255_u8 (Z.shiftr x 8)) (land_255_u8 (Z.shiftr x 16))) as Htables.
  rewrite <- (word_bytes x Hx) in Htables.
  pose proof (shift_register_lxor (8 + (8 + (8 + 40))) crc (from_le_bytes [b0; b1; b2; b3])) as Hserial.
  fold x in Hserial. unfold from_le_bytes in Hserial.
  rewrite Z.mul_0_r, Z.add_0_r in Hserial.
  rewrite (shift_register_word 40 b0 b1 b2 b3) in Hserial by done.
  unfold update_chunk. change (take 4 _) with [b0; b1; b2; b3]. fold x. simpl default.
  rewrite !lookup_table_spec by (auto with ints; lia).
  unfold serial, serial_byte. simpl fold_left.
  rewrite !shift_register_lxor, <- !shift_register_add. simpl plus in *. simpl Nat.mul.
  rewrite Hserial in Htables. clear Hserial.
  match type of Htables with _ = ?group => match goal with |- Z.lxor ?a0 (Z.lxor ?a1
    (Z.lxor ?a2 (Z.lxor ?a3 ?rest))) = _ =>
    transitivity (Z.lxor group rest); [rewrite !Z.lxor_assoc; reflexivity|] end end.
  rewrite <- Htables, !Z.lxor_assoc. reflexivity.
Qed.

Lemma fold_update_byte_serial crc bytes :
  bytes_ok bytes -> fold_left update_byte bytes crc = serial crc bytes.
Proof.
  intros Hb. revert crc. unfold serial.
  induction Hb as [|b bytes Hb _ IH]; intros crc; simpl; [done|].
  by rewrite update_byte_serial, IH.
Qed.

Lemma serial_app crc l1 l2 : serial crc (l1 ++ l2) = serial (serial crc l1) l2.
Proof. apply fold_left_app. Qed.

Lemma update_serial_strong n : forall crc bytes,
  (length bytes <= n)%nat -> u32 crc -> bytes_ok bytes -> update crc bytes = serial crc bytes.
Proof.
  induction n as [n IH] using lt_wf_ind. intros crc bytes Hn Hc Hb.
  do 8 (destruct bytes as [|? bytes]; [by apply fold_update_byte_serial|]).
  cbn [update]. unfold bytes_ok in Hb. decompose_Forall_hyps.
  match goal with |- context [update_chunk ?c ?l] => set (chunk := l) end.
  assert (bytes_ok chunk) by (subst chunk; rewrite !bytes_ok_cons; auto 10 with ints).
  subst chunk. rewrite update_chunk_serial by done.
  rewrite (IH (length bytes)); [|simpl in *; lia|done|by apply serial_u32|done].
  by rewrite <- serial_app.
Qed.

Lemma update_serial crc bytes :
  u32 crc -> bytes_ok bytes -> update crc bytes = serial crc bytes.
Proof. by apply (update_serial_strong (length bytes)). Qed.

(** A run of bytes enters the register as one little-endian number. *)
Lemma serial_register bytes : forall crc, bytes_ok bytes ->
  serial crc bytes =
  shift_register (8 * length bytes) (Z.lxor crc (from_le_bytes bytes)).
Proof.
  induction bytes as [|b bytes IH]; intros crc Hb.
  - simpl. by rewrite Z.lxor_0_r.
  - apply bytes_ok_cons in Hb as [Hb Hbs]. cbn [serial fold_left]. fold (serial (serial_byte crc b) bytes).
    rewrite IH by done. cbn [from_le_bytes length]. rewrite byte_split by done.
    unfold serial_byte. replace (8 * S (length bytes))%nat with (8 * length bytes + 8)%nat by lia.
    rewrite shift_register_add, <- Z.lxor_assoc, (shift_register_lxor 8 (Z.lxor crc b)).
    by rewrite (shift_register_shiftl 8).
Qed.

Lemma crc_bit_inj0 a : u32 a -> crc_bit a = 0 -> a = 0.
Proof.
  intros Ha. unfold crc_bit. rewrite Z.shiftr_div_pow2 by lia. change (2 ^ 1) with 2.
  pose proof (Z.div_mod a 2 ltac:(lia)) as Hd. rewrite Zmod_odd in Hd.
  destruct (Z.odd a); intros H0.
  - apply Z.lxor_eq in H0. unfold POLYNOMIAL in H0. ints.
  - lia.
Qed.

Lemma lxor_inj_r a b c : Z.lxor a c = Z.lxor b c -> a = b.
Proof.
  intros H. apply (f_equal (fun x => Z.lxor x c)) in H.
  by rewrite !Z.lxor_assoc, Z.lxor_nilpotent, !Z.lxor_0_r in H.
Qed.

#[local] Transparent shift_register.

(** The register never forgets a difference. *)
Lemma shift_register_inj n a b :
  u32 a -> u32 b -> shift_register n a = shift_register n b -> a = b.
Proof.
  intros Ha Hb H.
  assert (shift_register n (Z.lxor a b) = 0) as H0.
  { rewrite shift_register_lxor, H. apply Z.lxor_nilpotent. }
  apply Z.lxor_eq. assert (u32 (Z.lxor a b)) as Hx by auto with ints.
  clear H. revert H0 Hx. generalize (Z.lxor a b) as x. intros x Hn Hx.
  induction n as [|n IH]; [done|]. apply IH.
  apply crc_bit_inj0; [by apply shift_register_u32|done].
Qed.

#[local] Opaque shift_register.

Lemma serial_inj_crc c1 c2 bytes :
  u32 c1 -> u32 c2 -> bytes_ok bytes -> serial c1 bytes = serial c2 bytes -> c1 = c2.
Proof.
  intros H1 H2 Hb. rewrite !serial_register by done.
  rewrite !(shift_register_lxor _ _ (from_le_bytes bytes)). intros H.
  apply lxor_inj_r in H. eauto using shift_register_inj.
Qed.

Lemma u32_le_bytes bytes : bytes_ok bytes -> (length bytes <= 4)%nat -> u32 (from_le_bytes bytes).
Proof.
  intros Hb Hl. pose proof (from_le_bytes_range bytes Hb) as Hr.
  enough (256 ^ zlen bytes <= 256 ^ 4) by (unfold u32; change (256 ^ 4) with 4294967296 in *; lia).
  apply Z.pow_le_mono_r; unfold zlen; lia.
Qed.

Lemma serial_inj_bytes crc l1 l2 : u32 crc -> bytes_ok l1 -> bytes_ok l2 ->
  length l1 = length l2 -> (length l1 <= 4)%nat -> serial crc l1 = serial crc l2 -> l1 = l2.
Proof.
  intros Hc H1 H2 Hlen H4. rewrite !serial_register by done. rewrite Hlen. intros H.
  assert (u32 (from_le_bytes l1) /\ u32 (from_le_bytes l2)) as [? ?]
    by (split; apply u32_le_bytes; done || lia).
  apply shift_register_inj in H; auto with ints.
  rewrite !(Z.lxor_comm crc) in H. apply lxor_inj_r in H.
  by rewrite <- (to_from_le_bytes l1), <- (to_from_le_bytes l2), Hlen, H by done.
Qed.

Lemma not32_u32 c : u32 c -> u32 (not32 c).
Proof. intros. apply lxor_u32; [done|]. ints. Qed.

Lemma not32_0_u32 : u32 (not32 0).
Proof. apply not32_u32. ints. Qed.
#[export] Hint Resolve not32_u32 not32_0_u32 : ints.

Lemma fold_update_serial parts : forall crc, u32 crc -> Forall bytes_ok parts ->
  fold_left update parts crc = serial crc (mjoin parts).
Proof.
  induction parts as [|p parts IH]; intros crc Hc Hp; [done|].
  apply Forall_cons in Hp as [Hp Hps]. cbn [fold_left].
  rewrite update_serial by done. rewrite IH by (auto using serial_u32).
  change (mjoin (p :: parts)) with (p ++ mjoin parts). by rewrite serial_app.
Qed.

Lemma checksum_serial bytes :
  bytes_ok bytes -> checksum_parts [bytes] = not32 (serial (not32 0) bytes).
Proof. intros. unfold checksum_parts. simpl. by rewrite update_serial by auto with ints. Qed.

(** ** Properties *)

(** C39. The table-driven loop (slicing by eight with the tail byte by byte) computes the
    bit-serial CRC-32C of the input, for every register value and every input length. *)
Theorem update_matches_bit_serial crc bytes :
  u32 crc -> bytes_ok bytes -> update crc bytes = serial crc bytes.
Proof. apply update_serial. Qed.

Lemma update_matches_bit_serial_witness :
  update 0 [1; 2; 3; 4; 5; 6; 7; 8; 9] = serial 0 [1; 2; 3; 4; 5; 6; 7; 8; 9].
Proof.
  apply (update_matches_bit_serial 0 [1; 2; 3; 4; 5; 6; 7; 8; 9]).
  - ints.
  - rewrite !bytes_ok_cons. repeat split; ints. apply bytes_ok_nil.
Defined.

(** A checksum over several slices is the checksum of their concatenation, wherever the
    eight-byte chunk boundaries of the individual slices fall. *)
Theorem checksum_parts_concat parts :
  Forall bytes_ok parts -> checksum_parts parts = checksum_parts [mjoin parts].
Proof.
  intros H. unfold checksum_parts.
  rewrite !fold_update_serial; auto with ints.
  - simpl. by rewrite app_nil_r.
  - constructor; [|done]. by apply Forall_join.
Qed.

Lemma checksum_parts_concat_witness :
  checksum_parts [[1; 2; 3]; [4; 5; 6; 7; 8; 9]] = checksum_parts [[1; 2; 3; 4; 5; 6; 7; 8; 9]].
Proof.
  apply (checksum_parts_concat [[1; 2; 3]; [4; 5; 6; 7; 8; 9]]).
  repeat constructor; ints.
Defined.

Lemma checksum_burst pre burst burst' post :
  bytes_ok pre -> bytes_ok burst -> bytes_ok burst' -> bytes_ok post ->
  length burst = length burst' -> (length burst <= 4)%nat -> burst <> burst' ->
  checksum_parts [pre ++ burst ++ post] <> checksum_parts [pre ++ burst' ++ post].
Proof.
  intros Hpre Hb Hb' Hpost Hlen H4 Hne Heq.
  rewrite !checksum_serial in Heq by (rewrite !bytes_ok_app; auto).
  unfold not32 in Heq. apply lxor_inj_r in Heq. rewrite !serial_app in Heq.
  apply serial_inj_crc in Heq; auto using serial_u32 with ints.
  apply serial_inj_bytes in Heq; auto using serial_u32 with ints.
Qed.

(** Corruption confined to at most four consecutive bytes always changes the checksum. *)
Theorem checksum_detects_short_bursts pre burst burst' post :
  bytes_ok pre -> bytes_ok burst -> bytes_ok burst' -> bytes_ok post ->
  length burst = length burst' -> (length burst <= 4)%nat -> burst <> burst' ->
  checksum_parts [pre ++ burst ++ post] <> checksum_parts [pre ++ burst' ++ post].
Proof. apply checksum_burst. Qed.

Lemma checksum_detects_short_bursts_witness :
  checksum_parts [[9] ++ [1; 2] ++ [7]] <> checksum_parts [[9] ++ [1; 3] ++ [7]].
Proof.
  apply (checksum_detects_short_bursts [9] [1; 2] [1; 3] [7]);
    try (repeat constructor; ints); done || (simpl; lia).
Defined.

Lemma block_checksum_field head field tail :
  bytes_ok head -> bytes_ok field -> bytes_ok tail -> length field = 4%nat ->
  block_checksum (head ++ field ++ tail) (zlen head) =
  Some (checksum_parts [head ++ [0; 0; 0; 0] ++ tail]).
Proof.
  intros Hh Hf Ht Hl. unfold block_checksum.
  rewrite slice_prefix, (slice_suffix (head ++ field) tail)
    by (rewrite ?app_assoc; auto; lens). cbn [mbind option_bind].
  assert (bytes_ok [0; 0; 0; 0]) by (repeat constructor; ints).
  rewrite checksum_serial by (rewrite !bytes_ok_app; auto).
  rewrite !serial_app, (update_serial (not32 0) head), (update_serial _ [0; 0; 0; 0]),
    (update_serial _ tail) by auto using serial_u32 with ints.
  done.
Qed.

(** [block_checksum] is the checksum of the block with its stored checksum field read as
    zero; in particular it does not depend on that field. *)
Theorem block_checksum_ignores_field head field tail :
  bytes_ok head -> bytes_ok field -> bytes_ok tail -> length field = 4%nat ->
  block_checksum (head ++ field ++ tail) (zlen head) =
  Some (checksum_parts [head ++ [0; 0; 0; 0] ++ tail]).
Proof. apply block_checksum_field. Qed.

Lemma block_checksum_ignores_field_witness :
  block_checksum ([1; 2] ++ [3; 4; 5; 6] ++ [7]) (zlen [1; 2]) =
  Some (checksum_parts [[1; 2] ++ [0; 0; 0; 0] ++ [7]]).
Proof.
  apply (block_checksum_ignores_field [1; 2] [3; 4; 5; 6] [7]);
    try (repeat constructor; ints); done.
Defined.
