(* ===== verification/Vlq.v ===== *)
(** Unsigned variable-length quantities of
    [crates/signal_derived/src/derived_word_store/vlq.rs]: the little-endian base-128 encoding
    of the record, duration and payload tables, its decoder with a cursor, and the length
    predictor the block builder budgets with.  Also the codec's error type. *)

From S2P Require Import Prelude.

(** Message arguments that only describe the input are kept; texts of [InvalidFormat] are the
    literals of the call sites.
    [crates/signal_derived/src/derived_word_store/errors.rs:2-36] CodecError *)
Inductive CodecError :=
| EmptyBlock
| OutOfOrder (index previous_timestamp_ns timestamp_ns : Z)
| InvalidRestartInterval
| InvalidConfiguration (message : string)
| TooManyWords (count : Z)
| Truncated
| VlqOverflow
| InvalidFormat (message : string)
| ChecksumMismatch (expected actual : Z).

Abbreviation CodecResult A := (result CodecError A).

(** The [loop]: one byte per turn.  Ten turns exhaust every [u64]. *)
Fixpoint encode_loop (fuel : nat) (value : Z) : list Z :=
  match fuel with
  | O => []
  | S fuel =>
      let byte := Z.land value 0x7f in
      let value := Z.shiftr value 7 in
      if value =? 0 then [byte] else Z.lor byte 0x80 :: encode_loop fuel value
  end.

(** The bytes appended to [output].
    [crates/signal_derived/src/derived_word_store/vlq.rs:3-16] encode_u64 *)
Definition encode_u64 (value : Z) : list Z := encode_loop 10 value.

Fixpoint decode_loop (turns : nat) (byte_index : Z) (input : list Z) (cursor value : Z)
  : CodecResult (Z * Z) :=
  match turns with
  | O => Err VlqOverflow
  | S turns =>
      let? byte := ok_or (byte_at input cursor) Truncated in
      let cursor := cursor + 1 in
      if (byte_index =? 9) && (1 <? byte) then Err VlqOverflow
      else
        let value := Z.lor value (Z.shiftl (Z.land byte 0x7f) (byte_index * 7)) in
        if Z.land byte 0x80 =? 0 then Ok (value, cursor)
        else decode_loop turns (byte_index + 1) input cursor value
  end.

(** The value and the advanced cursor (no caller reads the cursor after an error).
    [crates/signal_derived/src/derived_word_store/vlq.rs:18-33] decode_u64 *)
Definition decode_u64 (input : list Z) (cursor : Z) : CodecResult (Z * Z) :=
  decode_loop 10 0 input cursor 0.

(** [u64::BITS - value.leading_zeros()] is the position of the highest set bit, plus one.
    [crates/signal_derived/src/derived_word_store/vlq.rs:35-42] encoded_len *)
Definition encoded_len (value : Z) : Z :=
  let significant_bits := if value =? 0 then 1 else Z.log2 value + 1 in
  div_ceil significant_bits 7.

(** ** Encoding *)

Lemma land_shiftl_disjoint acc d n : 0 <= n -> 0 <= acc < 2 ^ n -> Z.land acc (Z.shiftl d n) = 0.
Proof.
  intros Hn Hacc. destruct (Z.eq_dec acc 0) as [->|]; [apply Z.land_0_l|].
  apply Z.bits_inj'; intros k Hk. rewrite Z.land_spec, Z.bits_0.
  destruct (Z.ltb_spec k n).
  - rewrite Z.shiftl_spec_low by lia. apply andb_false_r.
  - rewrite (Z.bits_above_log2 acc), andb_false_l; [done|lia|].
    apply Z.lt_le_trans with n; [apply Z.log2_lt_pow2|]; lia.
Qed.

Lemma land_7f v : 0 <= v -> Z.land v 127 = v mod 128.
Proof. intros. change 127 with (Z.ones 7). by rewrite Z.land_ones by lia. Qed.

Lemma shiftr_7 v : Z.shiftr v 7 = v / 128.
Proof. by rewrite Z.shiftr_div_pow2 by lia. Qed.

Lemma lor_80 b : 0 <= b < 128 -> Z.lor b 128 = b + 128.
Proof.
  intros Hb. symmetry. apply Z.add_nocarry_lor. by apply (land_shiftl_disjoint b 1 7).
Qed.

(** The encoding in arithmetic form. *)
Lemma encode_loop_eq fuel v : 0 <= v ->
  encode_loop (S fuel) v =
  if v <? 128 then [v] else v mod 128 + 128 :: encode_loop fuel (v / 128).
Proof.
  intros Hv. cbn [encode_loop]. rewrite land_7f, shiftr_7 by done.
  pose proof (Z.mod_pos_bound v 128). pose proof (Z.div_mod v 128).
  destruct (Z.ltb_spec v 128).
  - rewrite Z.div_small, Z.mod_small by lia. done.
  - rewrite (proj2 (Z.eqb_neq _ _)), lor_80; [done|lia|].
    assert (1 <= v / 128) by (apply Z.div_le_lower_bound; lia). lia.
Qed.

Lemma encode_loop_ok fuel v : 0 <= v -> bytes_ok (encode_loop fuel v).
Proof.
  revert v; induction fuel as [|fuel IH]; intros v Hv; [constructor|].
  rewrite encode_loop_eq by done. pose proof (Z.mod_pos_bound v 128).
  destruct (Z.ltb_spec v 128); repeat constructor; try (unfold u8; lia).
  apply IH. apply Z.div_pos; lia.
Qed.

Lemma encode_u64_ok v : 0 <= v -> bytes_ok (encode_u64 v).
Proof. apply encode_loop_ok. Qed.
#[export] Hint Resolve encode_u64_ok : ints.

Lemma length_encode_loop fuel v : 0 <= v < 128 ^ Z.of_nat fuel -> (0 < fuel)%nat ->
  zlen (encode_loop fuel v) = encoded_len v.
Proof.
  revert v; induction fuel as [|fuel IH]; intros v Hv Hf; [lia|].
  rewrite encode_loop_eq by lia. unfold encoded_len, div_ceil in *.
  rewrite Nat2Z.inj_succ, Z.pow_succ_r in Hv by lia.
  destruct (Z.ltb_spec v 128).
  - change (zlen [v]) with 1. destruct (Z.eqb_spec v 0); [done|].
    pose proof (Z.log2_nonneg v). assert (Z.log2 v < 7) by (apply Z.log2_lt_pow2; lia).
    apply (Z.div_unique _ _ _ (Z.log2 v)); lia.
  - assert (1 <= v / 128) by (apply Z.div_le_lower_bound; lia).
    assert (v / 128 < 128 ^ Z.of_nat fuel) by (apply Z.div_lt_upper_bound; lia).
    assert (0 < fuel)%nat by (destruct fuel; [change (128 ^ Z.of_nat 0) with 1 in *|]; lia).
    rewrite zlen_cons, IH by lia.
    rewrite (proj2 (Z.eqb_neq v 0)), (proj2 (Z.eqb_neq (v / 128) 0)) by lia.
    assert (Z.log2 v = Z.log2 (v / 128) + 7) as ->.
    { rewrite <- shiftr_7, Z.log2_shiftr by lia.
      assert (7 <= Z.log2 v) by (apply Z.log2_le_pow2; lia). lia. }
    replace (Z.log2 (v / 128) + 7 + 1 + 7 - 1) with (Z.log2 (v / 128) + 1 + 7 - 1 + 1 * 7) by lia.
    rewrite Z.div_add by lia. lia.
Qed.

Lemma zlen_encode_u64 v : u64 v -> zlen (encode_u64 v) = encoded_len v.
Proof. intros. apply length_encode_loop; [|lia]. change (128 ^ Z.of_nat 10) with (2 ^ 70). ints. Qed.

Lemma encoded_len_range v : u64 v -> 1 <= encoded_len v <= 10.
Proof.
  intros Hv. unfold encoded_len, div_ceil.
  destruct (Z.eqb_spec v 0); [by vm_compute|]. pose proof (Z.log2_nonneg v).
  assert (Z.log2 v < 64) by (apply Z.log2_lt_pow2; ints).
  split; [apply Z.div_le_lower_bound | apply Z.div_le_upper_bound]; lia.
Qed.

(** ** Decoding *)

Lemma vlq_digit acc d idx : 0 <= idx -> 0 <= acc < 128 ^ idx -> 0 <= d < 128 ->
  Z.lor acc (Z.shiftl d (idx * 7)) = acc + d * 128 ^ idx.
Proof.
  intros Hi Hacc Hd. assert (2 ^ (idx * 7) = 128 ^ idx) as Hpow.
  { change 128 with (2 ^ 7). rewrite <- Z.pow_mul_r by lia. f_equal. lia. }
  rewrite <- Hpow in *. rewrite <- Z.shiftl_mul_pow2 by lia.
  symmetry. apply Z.add_nocarry_lor. apply land_shiftl_disjoint; lia.
Qed.

Lemma land_128_small v : 0 <= v < 128 -> Z.land v 128 = 0.
Proof. intros. by apply (land_shiftl_disjoint v 1 7). Qed.

Lemma land_128_big v : 128 <= v < 256 -> Z.land v 128 = 128.
Proof.
  intros Hv. replace v with (Z.lor (v - 128) 128) by (rewrite lor_80; lia).
  rewrite Z.land_lor_distr_l, land_128_small by lia. done.
Qed.


(** The accumulator holds the digits read so far; the encoding of [v] that starts at the
    cursor supplies the rest. *)
Lemma decode_encode_loop turns : forall byte_index input cursor acc v rest,
  byte_index + Z.of_nat turns = 10 -> 0 <= byte_index ->
  0 <= acc < 128 ^ byte_index -> 0 <= v -> v * 128 ^ byte_index < 2 ^ 64 -> (0 < turns)%nat ->
  at_cursor input cursor (encode_loop turns v ++ rest) ->
  decode_loop turns byte_index input cursor acc =
  Ok (acc + v * 128 ^ byte_index, cursor + zlen (encode_loop turns v)).
Proof.
  induction turns as [|turns IH]; intros idx input cursor acc v rest Hidx Hidx0 Hacc Hv Hmax Ht Hat;
    [lia|].
  rewrite encode_loop_eq in Hat |- * by done. cbn [decode_loop].
  destruct (Z.ltb_spec v 128) as [Hsmall|Hbig].
  - rewrite (at_cursor_byte _ _ _ _ Hat). cbn [ok_or].
    assert ((idx =? 9) && (1 <? v) = false) as ->.
    { destruct (Z.eqb_spec idx 9) as [->|]; [|done]. simpl.
      change (128 ^ 9) with (2 ^ 63) in Hmax. destruct (Z.ltb_spec 1 v); [lia|done]. }
    rewrite land_7f, (Z.mod_small v 128), vlq_digit by lia.
    assert (Z.land v 128 = 0) as -> by (by apply land_128_small). done.
  - pose proof (Z.mod_pos_bound v 128). rewrite <- app_comm_cons in Hat.
    rewrite (at_cursor_byte _ _ _ _ Hat). cbn [ok_or].
    assert (idx < 9) as Hidx9.
    { destruct (Z.lt_ge_cases idx 9); [done|]. assert (idx = 9) as -> by lia.
      change (128 ^ 9) with (2 ^ 63) in Hmax. lia. }
    rewrite (proj2 (Z.eqb_neq idx 9)) by lia. cbn [andb].
    rewrite land_7f by lia.
    replace ((v mod 128 + 128) mod 128) with (v mod 128)
      by (rewrite <- (Z.mul_1_l 128) at 3; rewrite Z.mod_add, Z.mod_mod by lia; done).
    rewrite vlq_digit by lia.
    rewrite land_128_big by lia. cbn [Z.eqb].
    pose proof (Z.div_mod v 128 ltac:(lia)).
    assert (128 ^ (idx + 1) = 128 * 128 ^ idx) as Hs
      by (rewrite Z.add_1_r, Z.pow_succ_r by lia; done).
    erewrite IH with (v := v / 128) (rest := rest).
    + f_equal. f_equal; [rewrite Hs; nia|]. rewrite zlen_cons. lia.
    + lia.
    + lia.
    + rewrite Hs. nia.
    + apply Z.div_pos; lia.
    + rewrite Hs. nia.
    + lia.
    + by apply at_cursor_next in Hat.
Qed.

Lemma decode_encode_u64 input cursor v rest : u64 v ->
  at_cursor input cursor (encode_u64 v ++ rest) ->
  decode_u64 input cursor = Ok (v, cursor + zlen (encode_u64 v)).
Proof.
  intros Hv Hat. unfold decode_u64.
  rewrite (decode_encode_loop 10 0 input cursor 0 v rest); try done; try ints.
  by rewrite Z.mul_1_r.
Qed.

Lemma byte_at_Some {A} (l : list A) i b : byte_at l i = Some b -> 0 <= i < zlen l.
Proof.
  unfold byte_at, zlen. destruct (Z.ltb_spec i 0); [done|]. intros Hl%lookup_lt_Some. lia.
Qed.

Lemma byte_at_u8 l i b : bytes_ok l -> byte_at l i = Some b -> u8 b.
Proof.
  unfold byte_at. intros Hl. destruct (i <? 0); [done|]. intros Hi.
  by eapply (Forall_lookup_1 _ l) in Hi.
Qed.

Lemma decode_loop_bounds turns : forall byte_index input cursor acc v cursor',
  byte_index + Z.of_nat turns = 10 -> 0 <= byte_index -> bytes_ok input ->
  0 <= acc < 128 ^ byte_index ->
  decode_loop turns byte_index input cursor acc = Ok (v, cursor') ->
  u64 v /\ cursor < cursor' <= cursor + Z.of_nat turns /\ cursor' <= zlen input.
Proof.
  induction turns as [|turns IH]; intros idx input cursor acc v cursor' Hidx Hidx0 Hin Hacc; [done|].
  cbn [decode_loop]. destruct (byte_at input cursor) as [byte|] eqn:Hb; [|done]. cbn [ok_or].
  pose proof (byte_at_Some _ _ _ Hb). apply byte_at_u8 in Hb; [|done].
  destruct ((idx =? 9) && (1 <? byte)) eqn:H9; [done|]. rewrite land_7f by (unfold u8 in Hb; lia).
  pose proof (Z.mod_pos_bound byte 128 ltac:(lia)) as Hm.
  assert (Z.lor acc (Z.shiftl (byte mod 128) (idx * 7)) = acc + byte mod 128 * 128 ^ idx) as ->.
  { rewrite vlq_digit by lia. done. }
  assert (128 ^ (idx + 1) = 128 * 128 ^ idx) as Hs
    by (rewrite Z.add_1_r, Z.pow_succ_r by lia; done).
  destruct (Z.eqb_spec (Z.land byte 128) 0).
  - intros [= <- <-]. split; [|lia]. unfold u64. split; [nia|].
    destruct (Z.eqb_spec idx 9) as [->|].
    + simpl in H9. apply Z.ltb_ge in H9. rewrite Z.mod_small by (unfold u8 in Hb; lia).
      change (128 ^ 9) with (2 ^ 63) in *. unfold u8 in Hb. lia.
    + assert (128 ^ (idx + 1) <= 128 ^ 9) by (apply Z.pow_le_mono_r; lia).
      change (128 ^ 9) with (2 ^ 63) in *. nia.
  - intros Hd. apply IH in Hd as (? & ? & ?); [split; [done|lia]|lia|lia|done|rewrite Hs; nia].
Qed.

Lemma decode_truncated turns : forall byte_index input cursor acc v s t,
  byte_index + Z.of_nat turns = 10 -> 0 <= byte_index -> 0 <= v ->
  v * 128 ^ byte_index < 2 ^ 64 ->
  encode_loop turns v = s ++ t -> t <> [] -> at_cursor input cursor s ->
  decode_loop turns byte_index input cursor acc = Err Truncated.
Proof.
  induction turns as [|turns IH]; intros idx input cursor acc v s t Hidx Hidx0 Hv Hmax He Ht Hat.
  { by destruct s, t. }
  destruct s as [|b s].
  { cbn [decode_loop]. by rewrite (at_cursor_end _ _ Hat). }
  rewrite encode_loop_eq in He by done. pose proof (Z.mod_pos_bound v 128 ltac:(lia)).
  pose proof (Z.div_mod v 128 ltac:(lia)).
  destruct (Z.ltb_spec v 128) as [Hsmall|Hbig].
  { injection He as -> He. by destruct s, t. }
  injection He as <- He.
  assert (0 < 128 ^ idx) by (apply Z.pow_pos_nonneg; lia).
  assert (idx < 9).
  { destruct (Z.lt_ge_cases idx 9); [done|]. assert (idx = 9) as -> by lia.
    change (128 ^ 9) with (2 ^ 63) in Hmax. lia. }
  cbn [decode_loop]. rewrite (at_cursor_byte _ _ _ _ Hat). cbn [ok_or].
  rewrite (proj2 (Z.eqb_neq idx 9)) by lia. cbn [andb].
  rewrite land_128_big by lia. cbn [Z.eqb].
  assert (v / 128 * 128 ^ (idx + 1) < 2 ^ 64)
    by (rewrite Z.add_1_r, Z.pow_succ_r by lia; nia).
  eapply (IH _ _ _ _ (v / 128) s t); try done; try lia. by apply at_cursor_next in Hat.
Qed.

(** ** Properties *)

(** Decoding at the start of an encoded [u64] returns it and leaves the cursor exactly
    after its bytes, whatever precedes or follows them in the buffer. *)
Theorem vlq_roundtrip pre v post : u64 v ->
  decode_u64 (pre ++ encode_u64 v ++ post) (zlen pre) =
  Ok (v, zlen pre + zlen (encode_u64 v)).
Proof. intros Hv. eapply decode_encode_u64; [done|]. apply at_cursor_intro. Qed.

Lemma vlq_roundtrip_witness :
  decode_u64 ([7] ++ encode_u64 18446744073709551615 ++ [1]) (zlen [7]) =
  Ok (18446744073709551615, zlen [7] + zlen (encode_u64 18446744073709551615)).
Proof. apply (vlq_roundtrip [7] 18446744073709551615 [1]). ints. Defined.

(** The predicted length is the number of bytes written, between one and ten. *)
Theorem vlq_encoded_len v : u64 v ->
  zlen (encode_u64 v) = encoded_len v /\ 1 <= encoded_len v <= 10.
Proof. intros Hv. split; [by apply zlen_encode_u64|by apply encoded_len_range]. Qed.

Lemma vlq_encoded_len_witness :
  zlen (encode_u64 300) = encoded_len 300 /\ 1 <= encoded_len 300 <= 10.
Proof. apply (vlq_encoded_len 300). ints. Defined.

(** Whatever the bytes, a successful decode yields a value that fits 64 bits and a cursor
    that advanced by one to ten bytes without leaving the buffer. *)
Theorem vlq_decode_bounds input cursor v cursor' : bytes_ok input ->
  decode_u64 input cursor = Ok (v, cursor') ->
  u64 v /\ cursor < cursor' <= cursor + 10 /\ cursor' <= zlen input.
Proof. intros Hin Hd. apply decode_loop_bounds in Hd; try done. Qed.

Lemma vlq_decode_bounds_witness : u64 128 /\ 0 < 2 <= 0 + 10 /\ 2 <= zlen [128; 1].
Proof. apply (vlq_decode_bounds [128; 1] 0 128 2); [repeat constructor; ints|reflexivity]. Defined.

(** A buffer that ends inside an encoding is reported as truncated. *)
Theorem vlq_truncated pre v s t : u64 v -> encode_u64 v = s ++ t -> t <> [] ->
  decode_u64 (pre ++ s) (zlen pre) = Err Truncated.
Proof.
  intros Hv He Ht. eapply (decode_truncated 10 0 _ _ 0 v s t); try done; try ints.
  apply at_cursor_intro.
Qed.

Lemma vlq_truncated_witness : decode_u64 ([5] ++ [172]) (zlen [5]) = Err Truncated.
Proof. apply (vlq_truncated [5] 300 [172] [2]); [ints|reflexivity|done]. Defined.
