(* ===== verification/Events.v ===== *)
(** The payloads that flow between processing nodes: [crates/signal_capture/src/sample.rs]
    (logic levels and packed sample blocks) and [crates/signal_derived/src/events.rs] (events,
    decoded words, stepped levels).  Strings of Rust are [string]s of UTF-8 bytes, except the
    text payload of a word, which the block codec handles as bytes. *)

From S2P Require Import Prelude.

(** [crates/signal_capture/src/sample.rs:15-20] Sample *)
Record Sample := mkSample { level : bool; start_time_ns : Z }.

(** [crates/signal_derived/src/events.rs:62-66] TimestampEvent *)
Record TimestampEvent := mkEvent { event_ns : Z }.

(** [crates/signal_derived/src/events.rs:73-76] TimelineMarker *)
Record TimelineMarker := mkMarker { marker_ns : Z }.

(** [Text] holds the UTF-8 bytes of the label.
    [crates/signal_derived/src/events.rs:100-106] WordPayload *)
Inductive WordPayload :=
| Bytes (bytes : list Z)
| Text (utf8 : list Z).

(** [crates/signal_derived/src/events.rs:113-126] Word *)
Record Word := mkWord {
  value : Z;
  payload : option WordPayload;
  timestamp_ns : Z;
  duration_ns : Z
}.

(** [crates/signal_derived/src/events.rs:228-233] NumberSample *)
Record NumberSample := mkNumber { number : Z; number_start_ns : Z }.

(** [crates/signal_derived/src/events.rs:247-252] TextSample *)
Record TextSample := mkText { text : string; text_start_ns : Z }.

#[export] Instance Sample_eq_dec : EqDecision Sample.
Proof. solve_decision. Defined.
#[export] Instance TimestampEvent_eq_dec : EqDecision TimestampEvent.
Proof. solve_decision. Defined.
#[export] Instance WordPayload_eq_dec : EqDecision WordPayload.
Proof. solve_decision. Defined.
#[export] Instance Word_eq_dec : EqDecision Word.
Proof. solve_decision. Defined.

(** [crates/signal_derived/src/events.rs:129-137] Word::new *)
Definition Word_new (value timestamp_ns : Z) : Word := mkWord value None timestamp_ns 0.

(** [crates/signal_derived/src/events.rs:139-147] Word::spanning *)
Definition spanning (value timestamp_ns duration_ns : Z) : Word :=
  mkWord value None timestamp_ns duration_ns.

(** [crates/signal_derived/src/events.rs:154-167] Word::bytes_with_tag *)
Definition bytes_with_tag (tag : Z) (value : list Z) (timestamp_ns duration_ns : Z) : Word :=
  mkWord tag (Some (Bytes value)) timestamp_ns duration_ns.

(** [crates/signal_derived/src/events.rs:200-203] Word::is_numeric *)
Definition is_numeric (w : Word) : bool :=
  match payload w with None => true | Some _ => false end.

(** [crates/signal_derived/src/events.rs:205-208] Word::end_ns *)
Definition end_ns (w : Word) : Z := add64 (timestamp_ns w) (duration_ns w).

(** [crates/signal_derived/src/events.rs:18-21] MAX_ANNOTATION_NS *)
Definition MAX_ANNOTATION_NS : Z := 100000000.

(** [crates/signal_derived/src/events.rs:46-59] instantaneous_word_end_ns_with_limit *)
Definition instantaneous_word_end_ns_with_limit
    (previous_start_ns : option Z) (start_ns next_start_ns max_span_ns : Z) : Z :=
  let gap_ns := saturating_sub64 next_start_ns start_ns in
  let interval := match previous_start_ns with
    | Some previous =>
        let interval := saturating_sub64 start_ns previous in
        if 0 <? interval then Some interval else None
    | None => None
    end in
  let inferred_limit_ns := Z.min (default max_span_ns interval) max_span_ns in
  saturating_add64 start_ns (Z.min gap_ns inferred_limit_ns).

(** [crates/signal_derived/src/events.rs:23-44] instantaneous_word_end_ns *)
Definition instantaneous_word_end_ns
    (previous_start_ns : option Z) (start_ns next_start_ns : Z) : Z :=
  instantaneous_word_end_ns_with_limit previous_start_ns start_ns next_start_ns
    MAX_ANNOTATION_NS.

(** The packed bytes are the [Deref] view of [BlockData].
    [crates/signal_capture/src/sample.rs:61-70] SampleBlock *)
Record SampleBlock := mkBlock {
  data : list Z;
  start_position : Z;
  num_samples : Z;
  timestamp_step : Z
}.

(** [None] is the out-of-bounds index panic.
    [crates/signal_capture/src/sample.rs:93-98] SampleBlock::get_bit *)
Definition get_bit (b : SampleBlock) (position : Z) : option bool :=
  let local := sub64 position (start_position b) in
  let byte_index := local / 8 in
  let bit_offset := local mod 8 in
  byte ← byte_at (data b) byte_index;
  Some (Z.land (Z.shiftr byte bit_offset) 1 =? 1).

(** [crates/signal_capture/src/sample.rs:102-104] SampleBlock::position_to_timestamp *)
Definition position_to_timestamp (b : SampleBlock) (position : Z) : Z :=
  mul64 position (timestamp_step b).

(** [crates/signal_capture/src/sample.rs:108-110] SampleBlock::end_position *)
Definition end_position (b : SampleBlock) : Z := add64 (start_position b) (num_samples b).

(** [BlockData::slice] on the byte view.
    [crates/signal_capture/src/sample.rs:119-132] SampleBlock::sub_block *)
Definition sub_block (b : SampleBlock) (sample_offset count : Z) : option SampleBlock :=
  sample_end ← checked_add64 sample_offset count;
  if negb (sample_offset mod 8 =? 0) || (num_samples b <? sample_end) then None
  else
    let byte_offset := sample_offset / 8 in
    let byte_len := div_ceil count 8 in
    bytes ← slice (data b) byte_offset (byte_offset + byte_len);
    start ← checked_add64 (start_position b) sample_offset;
    Some (mkBlock bytes start count (timestamp_step b)).

(** Every sample of the block lies in its packed data, and the positions do not overflow. *)
Definition block_ok (b : SampleBlock) : Prop :=
  bytes_ok (data b) /\ 0 <= start_position b /\ 0 <= num_samples b /\
  start_position b + num_samples b <= u64_max /\
  num_samples b <= 8 * zlen (data b).

(** ** Properties *)

Lemma byte_at_slice (l s : list Z) a b i :
  slice l a b = Some s -> 0 <= i -> byte_at s i = if i <? b - a then byte_at l (a + i) else None.
Proof.
  unfold slice. destruct (_ && _) eqn:Hc; [|done]. intros [= <-] Hi.
  rewrite !andb_true_iff, !Z.leb_le in Hc. unfold byte_at.
  rewrite (proj2 (Z.ltb_ge i 0)), (proj2 (Z.ltb_ge (a + i) 0)) by lia.
  destruct (Z.ltb_spec i (b - a)).
  - rewrite lookup_take_lt by lia. rewrite lookup_drop. f_equal. lia.
  - apply lookup_take_ge. lia.
Qed.

(** A byte-aligned sub-block reads the same bit as its parent at every position it covers. *)
Theorem sub_block_get_bit b offset count sub position :
  block_ok b -> 0 <= offset -> 0 <= count ->
  sub_block b offset count = Some sub ->
  start_position b + offset <= position < start_position b + offset + count ->
  get_bit sub position = get_bit b position.
Proof.
  intros (Hb & Hs0 & Hn0 & Hsn & Hlen) Ho Hc Hsub Hp. unfold sub_block, checked_add64 in Hsub.
  destruct (Z.leb_spec (offset + count) u64_max); [|done]. cbn [mbind option_bind] in Hsub.
  destruct (Z.eqb_spec (offset mod 8) 0) as [Ho8|]; [|done].
  destruct (Z.ltb_spec (num_samples b) (offset + count)); [done|]. cbn [negb orb] in Hsub.
  destruct (slice _ _ _) as [bytes|] eqn:Hslice; [|done]. cbn [mbind option_bind] in Hsub.
  destruct (Z.leb_spec (start_position b + offset) u64_max); [|done]. injection Hsub as <-.
  unfold get_bit. cbn [data start_position].
  rewrite !sub64_small by ints.
  set (local := position - (start_position b + offset)).
  replace (position - start_position b) with (local + offset / 8 * 8)
    by (pose proof (Z.div_mod offset 8); lia).
  rewrite Z.mod_add, Z.div_add by lia.
  rewrite (byte_at_slice _ _ _ _ (local / 8) Hslice) by (apply Z.div_pos; lia).
  rewrite (Z.add_comm (local / 8)).
  destruct (Z.ltb_spec (local / 8) (offset / 8 + div_ceil count 8 - offset / 8)); [done|].
  exfalso. unfold div_ceil in *.
  assert (local / 8 < (count + 8 - 1) / 8); [|lia].
  apply Z.div_lt_upper_bound; [lia|].
  pose proof (Z.div_mod (count + 8 - 1) 8). pose proof (Z.mod_pos_bound (count + 8 - 1) 8). lia.
Qed.

Lemma sub_block_get_bit_witness :
  get_bit (mkBlock [60; 240] 108 12 20) 110 = get_bit (mkBlock [165; 60; 240] 100 24 20) 110.
Proof.
  apply (sub_block_get_bit (mkBlock [165; 60; 240] 100 24 20) 8 12 _ 110);
    [|lia|lia|reflexivity|simpl; lia].
  split; [repeat constructor; ints|]. unfold zlen. simpl length. cbn [start_position num_samples].
  ints.
Defined.

(** ** The structured values of packets, [crates/logic_analyzer_protocol_decoders/src/types/packet.rs] *)

(** A float is its 64 bits; a mapping lists its entries in key order; a string of Rust is the
    list of its UTF-8 bytes in [PString] and [PBytes] alike.
    [crates/logic_analyzer_protocol_decoders/src/types/packet.rs:4-25] ProtocolValue *)
Inductive ProtocolValue :=
| PNull
| PBool (b : bool)
| PInteger (z : Z)
| PFloat (bits : Z)
| PString (utf8 : list Z)
| PBytes (bytes : list Z)
| PList (values : list ProtocolValue)
| PTuple (values : list ProtocolValue)
| PMapping (entries : list (string * ProtocolValue)).

(** The protocol identity is a literal of the decoder.
    [crates/logic_analyzer_protocol_decoders/src/types/packet.rs:27-42] ProtocolPacket *)
Record ProtocolPacket := mkPacket {
  start_sample : Z;
  end_sample : Z;
  packet_start_ns : Z;
  packet_end_ns : Z;
  protocol_id : string;
  packet_value : ProtocolValue
}.

(** The bytes of an ASCII literal. *)
Fixpoint ascii_bytes (s : string) : list Z :=
  match s with
  | EmptyString => []
  | String c s => Z.of_N (N_of_ascii c) :: ascii_bytes s
  end.
