(* ===== verification/Runtime.v ===== *)
(** Typed stream endpoints of [crates/signal_runtime]: the receiver with its putback buffer
    ([receiver.rs]), the broadcast sender over static destinations ([sender.rs]), and the input
    lane that the merging nodes build from a port, a head and an end-of-stream flag.

    The channels themselves are crossbeam's.  A receiving endpoint is given to the model as the
    sequence of what it answers when it is polled ([Channel]); a sending endpoint is given by
    the number of envelopes its receiver accepts before it is dropped ([Destination]).  Both
    are arguments of every definition here, so the theorems hold for every producer, every
    batching and every interleaving. *)

From S2P Require Import Prelude Events.

(** [NodeSource] carries a boxed error and occurs in no modelled node.  The text of a send
    error is crossbeam's and is left out.
    [crates/signal_runtime/src/errors.rs:254-276] WorkError *)
Inductive WorkError :=
| RecvError
| SendError
| NodeError (message : string)
| Shutdown.

(** [crates/signal_runtime/src/errors.rs:330-331] WorkResult *)
Definition WorkResult (A : Type) : Type := result WorkError A.

#[export] Instance WorkError_eq_dec : EqDecision WorkError.
Proof. solve_decision. Defined.

(** [crates/signal_runtime/src/sender.rs:32-40] ChannelMessage *)
Inductive ChannelMessage (T : Type) :=
| SampleMsg (item : T)
| Batch (items : list T)
| EndOfStream.
Arguments SampleMsg {T} item.
Arguments Batch {T} items.
Arguments EndOfStream {T}.

(** One poll of crossbeam's receiver: an envelope, or an empty queue whose producers are still
    connected.  After the last poll the queue is empty and disconnected. *)
Inductive Poll (T : Type) :=
| Arrive (message : ChannelMessage T)
| Idle.
Arguments Arrive {T} message.
Arguments Idle {T}.

Definition Channel (T : Type) : Type := list (Poll T).

(** Errors of the non-blocking receives. *)
Inductive TryRecvError := Empty | Disconnected.

(** Errors of the receive with a deadline. *)
Inductive RecvTimeoutError := Timeout | TimeoutDisconnected.

(** The watchdog handle only observes and is left out.
    [crates/signal_runtime/src/receiver.rs:34-39] Receiver *)
Record Receiver (T : Type) := mkReceiver {
  receiver : Channel T;
  buffer : list T;
  eos : bool
}.
Arguments mkReceiver {T} receiver buffer eos.
Arguments receiver {T} r : rename.
Arguments buffer {T} r : rename.
Arguments eos {T} r : rename.

Section Receiver.
Context {T : Type}.
Implicit Types (r : Receiver T) (c : Channel T).

(** A blocking [receiver.recv()] waits through idle polls.  The loop that unwraps envelopes;
    the putback buffer is empty when it runs, so a batch leaves exactly its tail there.
    [crates/signal_runtime/src/receiver.rs:104-122] Receiver::recv (loop) *)
Fixpoint recv_loop c : WorkResult T * Receiver T :=
  match c with
  | [] => (Err Shutdown, mkReceiver [] [] false)
  | Idle :: c => recv_loop c
  | Arrive (SampleMsg item) :: c => (Ok item, mkReceiver c [] false)
  | Arrive (Batch items) :: c =>
      match items with
      | first :: items => (Ok first, mkReceiver c items false)
      | [] => recv_loop c
      end
  | Arrive EndOfStream :: c => (Err Shutdown, mkReceiver c [] true)
  end.

(** [crates/signal_runtime/src/receiver.rs:92-123] Receiver::recv *)
Definition recv r : WorkResult T * Receiver T :=
  if eos r then (Err Shutdown, r)
  else
    match buffer r with
    | item :: buf => (Ok item, mkReceiver (receiver r) buf false)
    | [] => recv_loop (receiver r)
    end.

(** The buffer is empty when the loop runs.
    [crates/signal_runtime/src/receiver.rs:138-162] Receiver::peek (loop) *)
Fixpoint peek_loop c : WorkResult T * Receiver T :=
  match c with
  | [] => (Err Shutdown, mkReceiver [] [] false)
  | Idle :: c => peek_loop c
  | Arrive (SampleMsg item) :: c => (Ok item, mkReceiver c [item] false)
  | Arrive (Batch items) :: c =>
      match items with
      | first :: _ => (Ok first, mkReceiver c items false)
      | [] => peek_loop c
      end
  | Arrive EndOfStream :: c => (Err Shutdown, mkReceiver c [] true)
  end.

(** [crates/signal_runtime/src/receiver.rs:129-165] Receiver::peek *)
Definition peek r : WorkResult T * Receiver T :=
  if eos r then (Err Shutdown, r)
  else
    match buffer r with
    | item :: _ => (Ok item, r)
    | [] => peek_loop (receiver r)
    end.

Fixpoint try_recv_loop c : result TryRecvError T * Receiver T :=
  match c with
  | [] => (Err Disconnected, mkReceiver [] [] false)
  | Idle :: c => (Err Empty, mkReceiver c [] false)
  | Arrive (SampleMsg item) :: c => (Ok item, mkReceiver c [] false)
  | Arrive (Batch items) :: c =>
      match items with
      | first :: items => (Ok first, mkReceiver c items false)
      | [] => try_recv_loop c
      end
  | Arrive EndOfStream :: c => (Err Disconnected, mkReceiver c [] true)
  end.

(** [crates/signal_runtime/src/receiver.rs:169-193] Receiver::try_recv *)
Definition try_recv r : result TryRecvError T * Receiver T :=
  if eos r then (Err Disconnected, r)
  else
    match buffer r with
    | item :: buf => (Ok item, mkReceiver (receiver r) buf false)
    | [] => try_recv_loop (receiver r)
    end.

(** The second [while received < limit]: appends to [output] what the polls deliver.
    [crates/signal_runtime/src/receiver.rs:227-250] Receiver::try_recv_many (loop) *)
Fixpoint try_recv_many_loop c (buf output : list T) (limit : nat) : list T * Receiver T :=
  match limit with
  | O => (output, mkReceiver c buf false)
  | S _ =>
      match c with
      | [] => (output, mkReceiver [] buf true)
      | Idle :: c => (output, mkReceiver c buf false)
      | Arrive (SampleMsg item) :: c => try_recv_many_loop c buf (output ++ [item]) (limit - 1)
      | Arrive (Batch items) :: c =>
          let count := Nat.min limit (length items) in
          try_recv_many_loop c (buf ++ drop count items) (output ++ take count items)
            (limit - count)
      | Arrive EndOfStream :: c => (output, mkReceiver c buf true)
      end
  end.

(** The appended items stand for the growth of the caller's vector.
    [crates/signal_runtime/src/receiver.rs:202-259] Receiver::try_recv_many *)
Definition try_recv_many r (limit : nat) : result TryRecvError nat * list T * Receiver T :=
  match limit with
  | O => (Ok O, [], r)
  | S _ =>
      let output := take limit (buffer r) in
      let received := length output in
      let r := mkReceiver (receiver r) (drop limit (buffer r)) (eos r) in
      if eos r then
        (if Nat.eqb received 0 then Err Disconnected else Ok received, output, r)
      else
        let '(output, r) :=
          try_recv_many_loop (receiver r) (buffer r) output (limit - received) in
        let received := length output in
        (if Nat.ltb 0 received then Ok received
         else if eos r then Err Disconnected else Err Empty, output, r)
  end.

Fixpoint recv_batch_loop c : WorkResult (list T) * Receiver T :=
  match c with
  | [] => (Err Shutdown, mkReceiver [] [] true)
  | Idle :: c => recv_batch_loop c
  | Arrive (SampleMsg item) :: c => (Ok [item], mkReceiver c [] false)
  | Arrive (Batch items) :: c =>
      match items with
      | _ :: _ => (Ok items, mkReceiver c [] false)
      | [] => recv_batch_loop c
      end
  | Arrive EndOfStream :: c => (Err Shutdown, mkReceiver c [] true)
  end.

(** [crates/signal_runtime/src/receiver.rs:264-290] Receiver::recv_batch *)
Definition recv_batch r : WorkResult (list T) * Receiver T :=
  if eos r then (Err Shutdown, r)
  else
    match buffer r with
    | _ :: _ => (Ok (buffer r), mkReceiver (receiver r) [] false)
    | [] => recv_batch_loop (receiver r)
    end.

Fixpoint try_recv_batch_loop c : result TryRecvError (list T) * Receiver T :=
  match c with
  | [] => (Err Disconnected, mkReceiver [] [] false)
  | Idle :: c => (Err Empty, mkReceiver c [] false)
  | Arrive (SampleMsg item) :: c => (Ok [item], mkReceiver c [] false)
  | Arrive (Batch items) :: c =>
      match items with
      | _ :: _ => (Ok items, mkReceiver c [] false)
      | [] => try_recv_batch_loop c
      end
  | Arrive EndOfStream :: c => (Err Disconnected, mkReceiver c [] true)
  end.

(** [crates/signal_runtime/src/receiver.rs:294-316] Receiver::try_recv_batch *)
Definition try_recv_batch r : result TryRecvError (list T) * Receiver T :=
  if eos r then (Err Disconnected, r)
  else
    match buffer r with
    | _ :: _ => (Ok (buffer r), mkReceiver (receiver r) [] false)
    | [] => try_recv_batch_loop (receiver r)
    end.

(** An idle poll is one that lasts until the deadline. *)
Fixpoint recv_timeout_loop c : result RecvTimeoutError T * Receiver T :=
  match c with
  | [] => (Err TimeoutDisconnected, mkReceiver [] [] false)
  | Idle :: c => (Err Timeout, mkReceiver c [] false)
  | Arrive (SampleMsg item) :: c => (Ok item, mkReceiver c [] false)
  | Arrive (Batch items) :: c =>
      match items with
      | first :: items => (Ok first, mkReceiver c items false)
      | [] => recv_timeout_loop c
      end
  | Arrive EndOfStream :: c => (Err TimeoutDisconnected, mkReceiver c [] true)
  end.

(** [crates/signal_runtime/src/receiver.rs:323-351] Receiver::recv_timeout *)
Definition recv_timeout r : result RecvTimeoutError T * Receiver T :=
  if eos r then (Err TimeoutDisconnected, r)
  else
    match buffer r with
    | item :: buf => (Ok item, mkReceiver (receiver r) buf false)
    | [] => recv_timeout_loop (receiver r)
    end.

(** [crates/signal_runtime/src/receiver.rs:359-361] Receiver::put_back *)
Definition put_back r (item : T) : Receiver T :=
  mkReceiver (receiver r) (item :: buffer r) (eos r).

(** [crates/signal_runtime/src/receiver.rs:364-366] Receiver::has_buffered *)
Definition has_buffered r : bool := match buffer r with [] => false | _ :: _ => true end.

(** [crates/signal_runtime/src/receiver.rs:369-371] Receiver::is_shutdown *)
Definition is_shutdown r : bool := eos r.

(** Items a channel still carries, before or after an end-of-stream marker: the measure of the
    loops that consume items. *)
Definition poll_items (p : Poll T) : list T :=
  match p with
  | Arrive (SampleMsg item) => [item]
  | Arrive (Batch items) => items
  | Arrive EndOfStream | Idle => []
  end.

Definition weight r : nat := length (buffer r) + length (concat (map poll_items (receiver r))).

Fixpoint drain_before_loop (fuel : nat) (start_time_fn : T -> Z) r (before : Z)
  : WorkResult unit * Receiver T :=
  match fuel with
  | O => (Err Shutdown, r)
  | S fuel =>
      let! current, r := recv r in
      let! next, r := peek r in
      if start_time_fn next <=? before then drain_before_loop fuel start_time_fn r before
      else (Ok tt, put_back r current)
  end.

(** Every turn of the loop consumes an item, so [weight] plus one turns are enough.
    [crates/signal_runtime/src/receiver.rs:386-406] Receiver::drain_before *)
Definition drain_before (start_time_fn : T -> Z) r (before : Z) : WorkResult unit * Receiver T :=
  drain_before_loop (S (weight r)) start_time_fn r before.

(** ** What a receiver will deliver *)

(** The items of a channel up to its end of stream. *)
Fixpoint channel_items c : list T :=
  match c with
  | [] => []
  | Idle :: c => channel_items c
  | Arrive (SampleMsg item) :: c => item :: channel_items c
  | Arrive (Batch items) :: c => items ++ channel_items c
  | Arrive EndOfStream :: _ => []
  end.

Definition items r : list T := if eos r then [] else buffer r ++ channel_items (receiver r).

Lemma recv_loop_spec c :
  match recv_loop c with
  | (Ok item, r) => channel_items c = item :: items r
  | (Err e, r) => e = Shutdown /\ channel_items c = [] /\ items r = []
  end.
Proof. induction c as [|[[item|[|first rest]|]|] c IH]; simpl; auto. Qed.

Lemma recv_spec r :
  match recv r with
  | (Ok item, r') => items r = item :: items r'
  | (Err e, r') => e = Shutdown /\ items r = [] /\ items r' = []
  end.
Proof.
  unfold recv. destruct r as [c [|item buf] [|]]; simpl; auto.
  pose proof (recv_loop_spec c) as H. by destruct (recv_loop c) as [[|] ?].
Qed.
End Receiver.

(** ** The sending endpoint *)

(** One static destination: the envelopes its queue has accepted, oldest first, and how many
    more it takes before its receiver is dropped ([None]: it outlives the sender).
    [crates/signal_runtime/src/sender.rs:368-371] Destination *)
Record Destination (T : Type) := mkDestination {
  accepted : list (ChannelMessage T);
  remaining : option nat
}.
Arguments mkDestination {T} accepted remaining.
Arguments accepted {T} d : rename.
Arguments remaining {T} d : rename.

(** A sender over static destinations; the live subscriber list is not modelled.
    [crates/signal_runtime/src/sender.rs:360-366] Sender *)
Record Sender (T : Type) := mkSender { destinations : list (Destination T) }.
Arguments mkSender {T} destinations.
Arguments destinations {T} s : rename.

Section Sender.
Context {T : Type}.
Implicit Types (s : Sender T) (d : Destination T).

(** crossbeam's blocking [tx.send]: [false] when the receiver is gone. *)
Definition tx_send d (message : ChannelMessage T) : bool * Destination T :=
  match remaining d with
  | Some O => (false, d)
  | Some (S n) => (true, mkDestination (accepted d ++ [message]) (Some n))
  | None => (true, mkDestination (accepted d ++ [message]) None)
  end.

(** The broadcast loop: whether any destination accepted, and the destinations it leaves.
    [crates/signal_runtime/src/sender.rs:523-533] Sender::send (loop) *)
Fixpoint broadcast (ds : list (Destination T)) (message : ChannelMessage T)
  : bool * list (Destination T) :=
  match ds with
  | [] => (false, [])
  | d :: ds =>
      let '(success, d) := tx_send d message in
      let '(any_success, ds) := broadcast ds message in
      (success || any_success, d :: ds)
  end.

(** [crates/signal_runtime/src/sender.rs:504-541] Sender::send *)
Definition send s (value : T) : WorkResult unit * Sender T :=
  match destinations s with
  | [] => (Ok tt, s)
  | _ :: _ =>
      let '(any_success, ds) := broadcast (destinations s) (SampleMsg value) in
      (if any_success then Ok tt else Err SendError, mkSender ds)
  end.

(** [crates/signal_runtime/src/sender.rs:549-590] Sender::send_batch *)
Definition send_batch s (values : list T) : WorkResult unit * Sender T :=
  match values, destinations s with
  | [], _ | _, [] => (Ok tt, s)
  | _ :: _, _ :: _ =>
      let '(any_success, ds) := broadcast (destinations s) (Batch values) in
      (if any_success then Ok tt else Err SendError, mkSender ds)
  end.

(** [crates/signal_runtime/src/sender.rs:605-610] Sender::close *)
Definition close s : Sender T :=
  mkSender (map (fun d => snd (tx_send d EndOfStream)) (destinations s)).

(** The items in the queue of destination number [i]. *)
Definition message_items (m : ChannelMessage T) : list T := poll_items (Arrive m).

Definition delivered (i : nat) s : list T :=
  match destinations s !! i with
  | Some d => concat (map message_items (accepted d))
  | None => []
  end.

(** Destination number [i] exists and its receiver outlives the sender. *)
Definition attached (i : nat) s : Prop :=
  exists d, destinations s !! i = Some d /\ remaining d = None.

Lemma broadcast_lookup ds message i d :
  ds !! i = Some d -> remaining d = None ->
  exists ds', broadcast ds message = (true, ds') /\
    ds' !! i = Some (mkDestination (accepted d ++ [message]) None).
Proof.
  revert i. induction ds as [|d0 ds IH]; intros [|i] Hi Hr; simpl in *; try done.
  - injection Hi as ->. unfold tx_send. rewrite Hr.
    destruct (broadcast ds message) as [b ds']. by exists (mkDestination (accepted d ++ [message]) None :: ds').
  - destruct (IH i Hi Hr) as (ds' & -> & Hds'). destruct (tx_send d0 message) as [b d0'].
    exists (d0' :: ds'). split; [f_equal; apply orb_true_r|done].
Qed.

Lemma send_attached i s v :
  attached i s ->
  exists s', send s v = (Ok tt, s') /\ attached i s' /\ delivered i s' = delivered i s ++ [v].
Proof.
  intros (d & Hd & Hr). unfold send, delivered.
  destruct (broadcast_lookup _ (SampleMsg v) _ _ Hd Hr) as (ds' & Hb & Hds').
  destruct s as [[|d0 ds]]; [done|]. cbn [destinations] in *. rewrite Hb.
  exists (mkSender ds'). split; [done|]. split; [by eexists|].
  cbn [destinations]. rewrite Hds', Hd. cbn [accepted].
  rewrite map_app, concat_app. done.
Qed.

Lemma send_batch_attached i s vs :
  attached i s ->
  exists s', send_batch s vs = (Ok tt, s') /\ attached i s' /\
    delivered i s' = delivered i s ++ vs.
Proof.
  intros (d & Hd & Hr). unfold send_batch, delivered. destruct vs as [|v vs].
  { exists s. split; [done|]. split; [by exists d|]. by rewrite app_nil_r. }
  destruct (broadcast_lookup _ (Batch (v :: vs)) _ _ Hd Hr) as (ds' & Hb & Hds').
  destruct s as [[|d0 ds]]; [done|]. cbn [destinations] in *. rewrite Hb.
  exists (mkSender ds'). split; [done|]. split; [by eexists|].
  cbn [destinations]. rewrite Hds', Hd. cbn [accepted].
  rewrite map_app, concat_app. cbn. by rewrite app_nil_r.
Qed.
End Sender.

(** ** Input lanes and the node loop *)

(** An input port with the head and end-of-stream flag that a merging node keeps for it;
    [lane_port] is [None] when [port.get] fails (unconnected port or other payload type). *)
Record Lane (T : Type) := mkLane {
  lane_port : option (Receiver T);
  head : option T;
  lane_eos : bool
}.
Arguments mkLane {T} lane_port head lane_eos.
Arguments lane_port {T} l : rename.
Arguments head {T} l : rename.
Arguments lane_eos {T} l : rename.

Section Lane.
Context {T : Type}.
Implicit Types (l : Lane T).

Definition fresh_lane (port : option (Receiver T)) : Lane T := mkLane port None false.

(** The block the merging nodes repeat for each input.
    [crates/signal_transforms/src/event_gate/gate.rs:63-73] fill_heads (one input) *)
Definition fill (missing : string) l : WorkResult unit * Lane T :=
  match head l with
  | Some _ => (Ok tt, l)
  | None =>
      if lane_eos l then (Ok tt, l)
      else
        match lane_port l with
        | None => (Err (NodeError missing), l)
        | Some port =>
            match recv port with
            | (Ok item, port) => (Ok tt, mkLane (Some port) (Some item) false)
            | (Err Shutdown, port) => (Ok tt, mkLane (Some port) None true)
            | (Err error, port) => (Err error, mkLane (Some port) None false)
            end
        end
  end.

(** [head.take()] *)
Definition drop_head l : Lane T := mkLane (lane_port l) None (lane_eos l).

(** What the lane still has to hand to its node. *)
Definition pending l : list T :=
  match head l with Some item => [item] | None => [] end ++
  (if lane_eos l then [] else from_option items [] (lane_port l)).

(** The port is connected, and once the stream has ended nothing is pending. *)
Definition connected l : Prop := is_Some (lane_port l).

(** The lane after a fill: a head exactly when something is pending. *)
Definition filled l : Prop :=
  match pending l with
  | [] => head l = None /\ lane_eos l = true
  | item :: _ => head l = Some item
  end.

Lemma fill_spec missing l :
  connected l ->
  exists l', fill missing l = (Ok tt, l') /\ connected l' /\ pending l' = pending l /\ filled l'.
Proof.
  intros [port Hp]. destruct l as [p h e]. simpl in Hp. subst p. unfold fill. cbn.
  destruct h as [h|]; [eexists; split; [done|split; [by eexists|done]]|].
  destruct e; [eexists; split; [done|split; [by eexists|done]]|].
  pose proof (recv_spec port) as H. destruct (recv port) as [[item|er] port'].
  - eexists; split; [done|]. split; [by eexists|]. unfold filled, pending. cbn. by rewrite H.
  - destruct H as (-> & H1 & H2). eexists; split; [done|]. split; [by eexists|].
    unfold filled, pending. cbn. by rewrite H1.
Qed.

Lemma pending_drop_head l item rest :
  head l = Some item -> pending l = item :: rest -> pending (drop_head l) = rest.
Proof. unfold pending. intros ->. cbn. congruence. Qed.

Lemma filled_cases l :
  filled l ->
  (pending l = [] /\ lane_eos l = true /\ head l = None) \/
  (exists item rest, pending l = item :: rest /\ head l = Some item /\
    pending (drop_head l) = rest).
Proof.
  unfold filled. intros H. destruct (pending l) as [|item rest] eqn:Hp; [left; tauto|].
  right. exists item, rest. eauto using pending_drop_head.
Qed.

(** A filled lane of an ordered stream either starts with an item due by [bound] or has none. *)
Lemma filled_before (key : T -> Z) l bound :
  filled l -> ascending key (pending l) ->
  (exists item rest, pending l = item :: rest /\ head l = Some item /\
    pending (drop_head l) = rest /\ key item <= bound) \/
  ((forall item, In item (pending l) -> bound < key item) /\
   match head l with Some item => key item <=? bound | None => false end = false).
Proof.
  intros Hf Hs. destruct (filled_cases l Hf) as [(Hp & _ & Hh)|(item & rest & Hp & Hh & Hd)].
  { right. rewrite Hp, Hh. by split. }
  rewrite Hp in Hs. apply ascending_cons in Hs as [Hle _]. rewrite Hh.
  destruct (Z.leb_spec (key item) bound); [left; eauto 6|right].
  split; [|done]. rewrite Hp. intros x [<-|Hx]; [done|]. specialize (Hle x Hx). lia.
Qed.

Lemma connected_drop_head l : connected l -> connected (drop_head l).
Proof. done. Qed.

Lemma pending_fresh port : pending (fresh_lane (Some port)) = items port.
Proof. done. Qed.
End Lane.

(** ** Output ports *)

Section Emit.
Context {T : Type}.

(** [outputs.get(i).and_then(|port| port.get())] and a send on the sender it returns; [None]
    for a port that does not carry this payload type. *)
Definition emit (missing : string) (port : option (Sender T)) (value : T)
  : WorkResult unit * option (Sender T) :=
  match port with
  | None => (Err (NodeError missing), None)
  | Some s => let '(res, s) := send s value in (res, Some s)
  end.

Definition emit_batch (missing : string) (port : option (Sender T)) (values : list T)
  : WorkResult unit * option (Sender T) :=
  match port with
  | None => (Err (NodeError missing), None)
  | Some s => let '(res, s) := send_batch s values in (res, Some s)
  end.

(** Destination number [i] of the port outlives the node. *)
Definition plugged (i : nat) (port : option (Sender T)) : Prop :=
  match port with Some s => attached i s | None => False end.

(** The items queued for destination number [i]. *)
Definition sent (i : nat) (port : option (Sender T)) : list T :=
  match port with Some s => delivered i s | None => [] end.

Lemma emit_plugged i missing port v :
  plugged i port ->
  exists port', emit missing port v = (Ok tt, port') /\ plugged i port' /\
    sent i port' = sent i port ++ [v].
Proof.
  destruct port as [s|]; [|done]. intros H.
  destruct (send_attached i s v H) as (s' & Hs & H1 & H2). exists (Some s').
  unfold emit. by rewrite Hs.
Qed.

Lemma emit_batch_plugged i missing port vs :
  plugged i port ->
  exists port', emit_batch missing port vs = (Ok tt, port') /\ plugged i port' /\
    sent i port' = sent i port ++ vs.
Proof.
  destruct port as [s|]; [|done]. intros H.
  destruct (send_batch_attached i s vs H) as (s' & Hs & H1 & H2). exists (Some s').
  unfold emit_batch. by rewrite Hs.
Qed.
End Emit.

(** An operation on one field of a node's state. *)
Definition zoom {S A R : Type} (get : S -> A) (set : A -> S -> S) (f : A -> R * A) (s : S)
  : R * S :=
  let '(res, a) := f (get s) in (res, set a s).

(** A single destination that outlives the node, for concrete runs. *)
Definition open_port {T : Type} : option (Sender T) :=
  Some (mkSender [mkDestination [] None]).

Definition fresh_receiver {T : Type} (c : Channel T) : Receiver T := mkReceiver c [] false.

(** A connected lane whose channel delivers the given items one by one. *)
Definition lane_of {T : Type} (l : list T) : Lane T :=
  fresh_lane (Some (fresh_receiver (map (fun x => Arrive (SampleMsg x)) l))).

#[global] Arguments fill {T} missing l : simpl never.
#[global] Arguments drop_head {T} l : simpl never.
#[global] Arguments pending {T} l : simpl never.
#[global] Arguments emit {T} missing port value : simpl never.
#[global] Arguments sent {T} i port : simpl never.
#[global] Arguments recv {T} r : simpl never.

(** "Fill this lane": replaces the fill by its specification and forgets the lane's past. *)
Ltac fill_lane H :=
  match goal with
  | |- context [fill ?m ?l] =>
      let l' := fresh "lane" in let Hc := fresh "Hc" in let Hp := fresh "Hp" in
      let Hf := fresh "Hf" in
      destruct (fill_spec m l H) as (l' & -> & Hc & Hp & Hf)
  end.

(** The loop of a regular node: [work] until it fails, counting the items it reports; the stop
    signal is not raised.  [None]: out of fuel.
    [crates/signal_runtime/src/scheduler.rs:127-144] start_node (work loop) *)
Fixpoint run {S : Type} (fuel : nat) (work : S -> WorkResult Z * S) (s : S) (items_produced : Z)
  : option (WorkError * Z * S) :=
  match fuel with
  | O => None
  | S fuel =>
      match work s with
      | (Ok produced, s) => run fuel work s (items_produced + produced)
      | (Err e, s) => Some (e, items_produced, s)
      end
  end.

(** The contract by which a node that merges streams is proved: every successful step consumes
    some input ([measure]) and keeps the output so far followed by the output still due;
    the only error is the shutdown that ends the inputs.  [result] reads the part of the state
    the contract speaks about. *)
Class Drains {S O : Type} (work : S -> WorkResult Z * S) (inv : S -> Prop)
    (measure : S -> nat) (output due : S -> list O) := {
  drains_step s :
    inv s ->
    match work s with
    | (Ok _, s') =>
        inv s' /\ (measure s' < measure s)%nat /\
        exists emitted, output s' = output s ++ emitted /\ due s = emitted ++ due s'
    | (Err e, s') => e = Shutdown /\ inv s' /\ output s' = output s ++ due s
    end
}.

Lemma run_drains {S O : Type} (work : S -> WorkResult Z * S) inv measure (output due : S -> list O)
    {Drains0 : Drains work inv measure output due} fuel s items_produced :
  inv s -> (measure s < fuel)%nat ->
  exists n s', run fuel work s items_produced = Some (Shutdown, n, s') /\
    output s' = output s ++ due s /\ inv s'.
Proof.
  revert s items_produced. induction fuel as [|fuel IH]; intros s n Hs Hf; [lia|]. simpl.
  pose proof (drains_step s Hs) as H. destruct (work s) as [[k|e] s1].
  - destruct H as (Hs1 & Hm & em & Ho & Hd).
    destruct (IH s1 (n + k) Hs1 ltac:(lia)) as (m & s' & Hr & Hs' & Hi).
    exists m, s'. rewrite Hr, Hs', Ho, Hd. split; [done|]. by rewrite app_assoc.
  - destruct H as (-> & Hi & Ho). by exists n, s1.
Qed.

(** Runs a node to its end with the contract it satisfies. *)
Lemma run_output {S O : Type} (work : S -> WorkResult Z * S) inv measure (output due : S -> list O)
    `{!Drains work inv measure output due} fuel s items_produced :
  inv s -> (measure s < fuel)%nat ->
  exists n s', run fuel work s items_produced = Some (Shutdown, n, s') /\
    output s' = output s ++ due s.
Proof.
  intros Hs Hf. destruct (run_drains work inv measure output due fuel s items_produced Hs Hf)
    as (n & s' & ? & ? & _). eauto.
Qed.

Ltac drain inst := apply (@run_output _ _ _ _ _ _ _ inst).

(** ** Properties of the receiver *)

(** The receiving operations of an endpoint, by the limit of a bulk receive where it has one. *)
Inductive ReceiveOp := Recv | Peek | TryRecv | TryRecvMany (limit : nat) | RecvBatch
  | TryRecvBatch | RecvTimeout.

Section Properties.
Context {T : Type}.
Implicit Types (r : Receiver T).

(** What one operation hands to its caller, and the receiver it leaves; a peek hands over
    nothing. *)
Definition perform (op : ReceiveOp) r : list T * Receiver T :=
  let one {E} (res : result E T * Receiver T) :=
    (match fst res with Ok item => [item] | Err _ => [] end, snd res) in
  let many {E} (res : result E (list T) * Receiver T) :=
    (match fst res with Ok items => items | Err _ => [] end, snd res) in
  match op with
  | Recv => one (recv r)
  | Peek => ([], snd (peek r))
  | TryRecv => one (try_recv r)
  | TryRecvMany limit => let '(_, output, r) := try_recv_many r limit in (output, r)
  | RecvBatch => many (recv_batch r)
  | TryRecvBatch => many (try_recv_batch r)
  | RecvTimeout => one (recv_timeout r)
  end.

Fixpoint perform_all (ops : list ReceiveOp) r : list T * Receiver T :=
  match ops with
  | [] => ([], r)
  | op :: ops =>
      let '(first, r) := perform op r in
      let '(rest, r) := perform_all ops r in
      (first ++ rest, r)
  end.

(** Nothing is buffered behind a cached end of stream. *)
Definition settled r : Prop := eos r = true -> buffer r = [].

Lemma try_recv_many_loop_spec c buf output limit :
  (limit = O \/ buf = []) ->
  let '(output', r') := try_recv_many_loop c buf output limit in
  settled r' /\ output ++ buf ++ channel_items c = output' ++ items r'.
Proof.
  revert buf output limit.
  induction c as [|[[item|its|]|] c IH]; intros buf output limit H; destruct limit as [|limit];
    cbn [try_recv_many_loop channel_items]; try (by split);
    (destruct H as [| ->]; [done|]); try (by split).
  - specialize (IH [] (output ++ [item]) (S limit - 1)%nat (or_intror eq_refl)).
    destruct (try_recv_many_loop _ _ _ _) as [o r']. destruct IH as [IH1 IH2]. split; [done|].
    rewrite <- IH2, <- !app_assoc. done.
  - specialize (IH (drop (S limit `min` length its) its) (output ++ take (S limit `min` length its) its)
      (S limit - S limit `min` length its)%nat).
    destruct (try_recv_many_loop _ _ _ _) as [o r']. destruct IH as [IH1 IH2].
    { destruct (Nat.le_gt_cases (S limit) (length its)); [left; lia|].
      right. apply drop_ge. lia. }
    split; [done|]. rewrite <- IH2, <- !app_assoc. cbn. f_equal. rewrite app_assoc, take_drop. done.
Qed.

Lemma perform_spec op r :
  settled r -> settled (snd (perform op r)) /\ items r = fst (perform op r) ++ items (snd (perform op r)).
Proof.
  destruct r as [c buf [|]]; intros Hs.
  - unfold settled in Hs. simpl in Hs. rewrite (Hs eq_refl).
    destruct op as [| | |[|n]| | |]; by split.
  - clear Hs. destruct op as [| | |limit| | |].
    4: { unfold perform, try_recv_many. destruct limit as [|limit]; [by split|]. cbn [buffer receiver eos].
      pose proof (try_recv_many_loop_spec c (drop (S limit) buf) (take (S limit) buf)
        (S limit - length (take (S limit) buf))) as H.
      destruct (try_recv_many_loop _ _ _ _) as [o r']. cbn [fst snd]. destruct H as [H1 H2].
      { rewrite length_take. destruct (Nat.le_gt_cases (S limit) (length buf)); [left; lia|].
        right. apply drop_ge. lia. }
      split; [done|]. unfold items at 1. cbn. by rewrite <- H2, app_assoc, take_drop. }
    all: destruct buf as [|b buf]; [|by split; unfold items; cbn; rewrite ?app_nil_r].
    all: unfold perform, recv, peek, try_recv, recv_batch, try_recv_batch, recv_timeout, items at 1;
      cbn [buffer receiver eos app];
      induction c as [|[[item|[|first rest]|]|] c IH]; cbn; auto using app_nil_r; by split.
Qed.

(** C38. Whatever mixture of blocking, bounded, bulk and peeking receives a consumer uses, and
    however the producer groups items into envelopes, the items handed out followed by the items
    still due are the items that were due: none is lost, repeated or reordered. *)
Theorem receive_conserves ops r :
  settled r ->
  settled (snd (perform_all ops r)) /\
  items r = fst (perform_all ops r) ++ items (snd (perform_all ops r)).
Proof.
  revert r. induction ops as [|op ops IH]; intros r Hs; [by split|]. cbn [perform_all].
  destruct (perform op r) as [o1 r1] eqn:Hop.
  pose proof (perform_spec op r Hs) as [H1 H2]. rewrite Hop in H1, H2. cbn in H1, H2.
  destruct (IH r1 H1) as [H3 H4]. destruct (perform_all ops r1) as [o2 r2]. cbn in *.
  split; [done|]. by rewrite H2, H4, app_assoc.
Qed.

(** A blocking receive fails only at the end: it returns the next due item if there is one,
    and otherwise the shutdown error. *)
Theorem recv_total r :
  match items r with
  | item :: due => exists r', recv r = (Ok item, r') /\ items r' = due
  | [] => exists r', recv r = (Err Shutdown, r') /\ items r' = []
  end.
Proof.
  pose proof (recv_spec r) as H. destruct (recv r) as [[item|e] r'].
  - rewrite H. by exists r'.
  - destruct H as (-> & -> & ?). by exists r'.
Qed.

(** An item put back is the next item due, except on a receiver that has seen the end of its
    stream, where it is never delivered. *)
Theorem put_back_due r item :
  items (put_back r item) = if is_shutdown r then [] else item :: items r.
Proof. destruct r as [c buf [|]]; done. Qed.

(** What [drain_before] leaves: the longest suffix whose second item starts after the bound. *)
Fixpoint drained (start_time_fn : T -> Z) (before : Z) (due : list T) : option (list T) :=
  match due with
  | current :: (next :: _) as rest =>
      if start_time_fn next <=? before then drained start_time_fn before rest else Some due
  | _ => None
  end.

Lemma peek_spec r :
  match peek r with
  | (Ok item, r') => (exists due, items r' = item :: due) /\ items r' = items r /\ eos r' = false /\
      (weight r' <= weight r)%nat
  | (Err e, r') => e = Shutdown /\ items r = [] /\ items r' = []
  end.
Proof.
  destruct r as [c [|b buf] [|]]; [by split| |by split|].
  - unfold peek, items, weight. cbn.
    induction c as [|[[item|[|first rest]|]|] c IH]; cbn; auto.
    + split; [by eexists|]. auto.
    + split; [by eexists|]. split; [done|]. split; [done|]. rewrite length_app. lia.
  - split; [by eexists|]. auto.
Qed.

Lemma recv_weight r item r' : recv r = (Ok item, r') -> (weight r' < weight r)%nat.
Proof.
  destruct r as [c [|b buf] [|]]; try done.
  - unfold recv, weight. cbn. induction c as [|[[i|[|first rest]|]|] c IH]; cbn; try done.
    + intros [= <- <-]. cbn. lia.
    + intros [= <- <-]. cbn. rewrite length_app. lia.
  - intros [= <- <-]. unfold weight. cbn. lia.
Qed.

Lemma drain_before_loop_spec fuel start_time_fn r before :
  (weight r < fuel)%nat ->
  let '(res, r') := drain_before_loop fuel start_time_fn r before in
  match drained start_time_fn before (items r) with
  | Some due => res = Ok tt /\ items r' = due
  | None => res = Err Shutdown /\ items r' = []
  end.
Proof.
  revert r. induction fuel as [|fuel IH]; intros r Hf; [lia|]. cbn [drain_before_loop].
  pose proof (recv_spec r) as H. pose proof (recv_weight r) as Hw.
  destruct (recv r) as [[current|e] r1].
  2: { destruct H as (-> & -> & H). by split. }
  specialize (Hw _ _ eq_refl). pose proof (peek_spec r1) as Hp. rewrite H.
  destruct (peek r1) as [[next|e] r2].
  - destruct Hp as ([due Hd] & Hi & He & Hw2). rewrite <- Hi, Hd.
    specialize (IH r2 ltac:(lia)). rewrite Hd in IH.
    change (drained start_time_fn before (current :: next :: due)) with
      (if start_time_fn next <=? before then drained start_time_fn before (next :: due)
       else Some (current :: next :: due)).
    destruct (_ <=? _); [done|]. split; [done|]. rewrite <- Hd.
    unfold put_back, items. cbn. by rewrite He.
  - destruct Hp as (-> & -> & H2). by split.
Qed.

(** Draining up to a bound always terminates: it leaves exactly the items from the last one
    that starts at or before the bound (or the first item, if none does) when a later item
    follows it; when the stream ends first it reports the shutdown and nothing is left, so the
    item that was still valid at the bound is dropped with the rest. *)
Theorem drain_before_drained start_time_fn r before :
  let '(res, r') := drain_before start_time_fn r before in
  match drained start_time_fn before (items r) with
  | Some due => res = Ok tt /\ items r' = due
  | None => res = Err Shutdown /\ items r' = []
  end.
Proof. apply drain_before_loop_spec. lia. Qed.
End Properties.

Lemma receive_conserves_witness :
  let r := mkReceiver [Arrive (Batch [1; 2; 3]); Idle; Arrive (SampleMsg 4); Arrive EndOfStream]
    [] false in
  fst (perform_all [Recv; Peek; TryRecvMany 1; TryRecv; TryRecv; RecvBatch; Recv] r)
    = [1; 2; 3; 4] /\
  items r = fst (perform_all [Recv; Peek; TryRecvMany 1; TryRecv] r)
    ++ items (snd (perform_all [Recv; Peek; TryRecvMany 1; TryRecv] r)).
Proof.
  split; [reflexivity|].
  apply (receive_conserves [Recv; Peek; TryRecvMany 1; TryRecv]); intros H; discriminate H.
Defined.

(** ** Properties of the sender *)

Section SenderProperties.
Context {T : Type}.

(** A send fails exactly when there are destinations and every receiver has been dropped;
    otherwise every destination whose receiver is alive has the item appended to its queue. *)
Theorem send_broadcasts (s : Sender T) (v : T) :
  let '(res, s') := send s v in
  (res = Err SendError <->
    destinations s <> [] /\ Forall (fun d => remaining d = Some O) (destinations s)) /\
  destinations s' = map (fun d => if decide (remaining d = Some O) then d
    else mkDestination (accepted d ++ [SampleMsg v]) (pred <$> remaining d)) (destinations s).
Proof.
  assert (H : forall ds : list (Destination T), broadcast ds (SampleMsg v) =
    (negb (forallb (fun d => bool_decide (remaining d = Some O)) ds),
     map (fun d => if decide (remaining d = Some O) then d
       else mkDestination (accepted d ++ [SampleMsg v]) (pred <$> remaining d)) ds)).
  { induction ds as [|d ds IH]; [done|]. cbn [broadcast forallb map]. rewrite IH.
    unfold tx_send. destruct d as [a [[|n]|]]; cbn; done. }
  unfold send. destruct s as [[|d ds]]; cbn [destinations].
  { split; [|done]. split; [done|]. by intros []. }
  rewrite H. cbn [destinations]. split; [|done].
  rewrite <- (bool_decide_spec (Forall _ _)), Is_true_true.
  replace (bool_decide _) with (forallb (fun d => bool_decide (remaining d = Some O)) (d :: ds)).
  - destruct (forallb _ _); cbn; split; intros; try done; by destruct H0.
  - generalize (d :: ds). clear. intros l. apply Bool.eq_iff_eq_true.
    rewrite forallb_forall, bool_decide_eq_true, Forall_forall.
    setoid_rewrite bool_decide_eq_true. setoid_rewrite list_elem_of_In. done.
Qed.
End SenderProperties.
