(* ===== verification/EventNodes.v ===== *)
(** The nodes of [crates/signal_transforms] that merge an event stream with a level or with
    re-arming events: the event gate and the event control.

    Each node is the record of its fields, with its ports among them (an input buffer and its
    port are a [Lane] or a [Receiver]), and its [work] is a function of that record.  The
    theorems run the node's loop to its end on arbitrary channels and compare the queue of an
    output's destination with a specification that mentions no state and no scheduling. *)

From S2P Require Import Prelude Events Runtime.

(** ** Levels over time *)

Definition bool_level_at (initial : bool) (samples : list Sample) (t : Z) : bool :=
  fold_left (fun l s => if start_time_ns s <=? t then level s else l) samples initial.

Lemma bool_level_at_later initial samples t :
  (forall s, In s samples -> t < start_time_ns s) -> bool_level_at initial samples t = initial.
Proof.
  unfold bool_level_at. revert initial. induction samples as [|s l IH]; intros initial H; [done|].
  cbn [fold_left]. rewrite (proj2 (Z.leb_gt _ _)) by (apply H; by left).
  apply IH. intros s' Hs'. apply H. by right.
Qed.

Lemma bool_level_at_cons initial s samples t :
  bool_level_at initial (s :: samples) t =
    bool_level_at (if start_time_ns s <=? t then level s else initial) samples t.
Proof. done. Qed.

(** ** Event gate *)

(** [crates/signal_transforms/src/event_gate/gate.rs:12-16] GatePolarity *)
Inductive GatePolarity := ActiveHigh | ActiveLow.

(** [crates/signal_transforms/src/event_gate/gate.rs:18-28] EventGate *)
Record EventGate := mkEventGate {
  polarity : GatePolarity;
  gate_level : bool;
  gated_events : Lane TimestampEvent;
  gates : Lane Sample;
  gated_output : option (Sender TimestampEvent)
}.

Definition set_gate_level b g :=
  mkEventGate (polarity g) b (gated_events g) (gates g) (gated_output g).
Definition set_gated_events l g :=
  mkEventGate (polarity g) (gate_level g) l (gates g) (gated_output g).
Definition set_gates l g :=
  mkEventGate (polarity g) (gate_level g) (gated_events g) l (gated_output g).
Definition set_gated_output o g :=
  mkEventGate (polarity g) (gate_level g) (gated_events g) (gates g) o.

(** [crates/signal_transforms/src/event_gate/gate.rs:31-47] EventGate::new *)
Definition EventGate_new (p : GatePolarity) events gates output : EventGate :=
  mkEventGate p false (fresh_lane events) (fresh_lane gates) output.

(** [crates/signal_transforms/src/event_gate/gate.rs:55-60] EventGate::active *)
Definition gate_active (p : GatePolarity) (gate_level : bool) : bool :=
  match p with ActiveHigh => gate_level | ActiveLow => negb gate_level end.

(** [crates/signal_transforms/src/event_gate/gate.rs:62-86] EventGate::fill_heads *)
Definition gate_fill_heads (g : EventGate) : WorkResult unit * EventGate :=
  let! _, g := zoom gated_events set_gated_events (fill "Missing events input") g in
  zoom gates set_gates (fill "Missing gate input") g.

(** [crates/signal_transforms/src/event_gate/gate.rs:125-150] EventGate::work *)
Definition gate_work (g : EventGate) : WorkResult Z * EventGate :=
  let! _, g := gate_fill_heads g in
  match head (gated_events g), lane_eos (gated_events g) with
  | None, true => (Err Shutdown, g)
  | event_head, _ =>
      let gate_precedes_event := match head (gates g) with
        | Some gate =>
            match event_head with
            | Some event => start_time_ns gate <=? event_ns event
            | None => true
            end
        | None => false
        end in
      match gate_precedes_event, head (gates g), event_head with
      | true, Some gate, _ =>
          (Ok 0, set_gate_level (level gate) (set_gates (drop_head (gates g)) g))
      | _, _, None => (Err (NodeError "event head was selected"), g)
      | _, _, Some event =>
          let g := set_gated_events (drop_head (gated_events g)) g in
          if negb (gate_active (polarity g) (gate_level g)) then (Ok 0, g)
          else
            let! _, g := zoom gated_output set_gated_output
                           (fun o => emit "Missing events output" o event) g in
            (Ok 1, g)
      end
  end.

(** The events that happen while the gate is open, the gate's level at an instant being the one
    set last at or before it. *)
Definition gate_due (p : GatePolarity) (initial : bool) (events : list TimestampEvent)
    (gates : list Sample) : list TimestampEvent :=
  List.filter (fun e => gate_active p (bool_level_at initial gates (event_ns e))) events.

#[local] Arguments gate_due : simpl never.

Lemma gate_due_gate p l events g gs :
  (forall e, In e events -> start_time_ns g <= event_ns e) ->
  gate_due p l events (g :: gs) = gate_due p (level g) events gs.
Proof.
  intros H. apply filter_ext_in. intros e He.
  by rewrite bool_level_at_cons, (proj2 (Z.leb_le _ _)) by auto.
Qed.

Lemma gate_due_event p l e es gs :
  (forall g, In g gs -> event_ns e < start_time_ns g) ->
  gate_due p l (e :: es) gs = (if gate_active p l then [e] else []) ++ gate_due p l es gs.
Proof.
  intros H. unfold gate_due at 1. cbn [List.filter]. rewrite bool_level_at_later by done.
  by destruct (gate_active p l).
Qed.

Definition gate_inv (i : nat) (g : EventGate) : Prop :=
  connected (gated_events g) /\ connected (gates g) /\ plugged i (gated_output g) /\
  ascending event_ns (pending (gated_events g)) /\ ascending start_time_ns (pending (gates g)).

#[export] Instance gate_drains i :
  Drains gate_work (gate_inv i)
    (fun g => length (pending (gated_events g)) + length (pending (gates g)))%nat
    (fun g => sent i (gated_output g))
    (fun g => gate_due (polarity g) (gate_level g) (pending (gated_events g)) (pending (gates g))).
Proof.
  constructor. intros [p l ev ga out] (He & Hg & Ho & Hse & Hsg).
  unfold gate_work, gate_fill_heads, zoom. cbn in *.
  fill_lane He. cbn. fill_lane Hg. cbn. rewrite <- Hp, <- Hp0 in *. clear Hp Hp0 He Hg.
  apply filled_cases in Hf as [(Hn & -> & Hh)|(e & es & Hn & Hh & Hd)]; rewrite Hn in *.
  { rewrite Hh. split_and!; [done| |by rewrite app_nil_r]. unfold gate_inv. cbn. by rewrite Hn. }
  rewrite Hh. apply ascending_cons in Hse as [Hle Hse].
  destruct (filled_before start_time_ns lane0 (event_ns e) Hf0 Hsg)
    as [(g & gs & Hn0 & Hh0 & Hd0 & Hlt)|[Hlater Hno]].
  - rewrite Hh0, (proj2 (Z.leb_le _ _) Hlt). rewrite Hn0 in *. cbn. rewrite Hd0, Hn.
    apply ascending_cons in Hsg as [_ Hsg].
    split; [|split; [cbn; lia|]].
    { unfold gate_inv. cbn. rewrite Hd0, Hn. split_and!; try done. by apply ascending_cons. }
    exists []. rewrite app_nil_r. split; [done|]. apply gate_due_gate.
    intros x [<-|Hx]; [done|]. specialize (Hle x Hx). lia.
  - rewrite Hno, gate_due_event by done. destruct (gate_active p l); cbn.
    + destruct (emit_plugged i "Missing events output" out e Ho) as (o' & -> & Ho' & Hs).
      cbn. rewrite ?Hd. rewrite Hs. split; [|split; [lia|by exists [e]]].
      unfold gate_inv. cbn. by rewrite Hd.
    + rewrite Hd. split; [|split; [lia|exists []; by rewrite app_nil_r]].
      unfold gate_inv. cbn. by rewrite Hd.
Qed.

(** An event gate fed by any batching and interleaving of two time-ordered streams runs to
    the end of its events and passes on exactly the events that fall while the gate level, the
    last one set at or before the event, is active. *)
Theorem event_gate_filters i p ev ga out fuel :
  ascending event_ns (items ev) -> ascending start_time_ns (items ga) -> plugged i out ->
  (length (items ev) + length (items ga) < fuel)%nat ->
  exists n g', run fuel gate_work (EventGate_new p (Some ev) (Some ga) out) 0
    = Some (Shutdown, n, g') /\
  sent i (gated_output g') = sent i out ++
    List.filter (fun e => gate_active p (bool_level_at false (items ga) (event_ns e))) (items ev).
Proof.
  intros He Hg Ho Hf.
  drain (gate_drains i).
  - repeat split; try done; by eexists.
  - done.
Qed.

Lemma event_gate_filters_witness :
  exists n g', run 20 gate_work (EventGate_new ActiveHigh
      (Some (fresh_receiver [Arrive (Batch [mkEvent 5; mkEvent 10]); Idle; Arrive (SampleMsg (mkEvent 30))]))
      (Some (fresh_receiver [Arrive (SampleMsg (mkSample true 10)); Arrive (SampleMsg (mkSample false 20))]))
      open_port) 0 = Some (Shutdown, n, g') /\ sent 0 (gated_output g') = [mkEvent 10].
Proof.
  apply (event_gate_filters 0 ActiveHigh).
  - apply ascendingb_spec. reflexivity.
  - apply ascendingb_spec. reflexivity.
  - by eexists.
  - simpl. lia.
Defined.

(** ** Event control *)

(** [crates/signal_transforms/src/event_control/controller.rs:11-24] EventControl *)
Record EventControl := mkEventControl {
  delay_ns : Z;
  holdoff_ns : Z;
  manual_rearm : bool;
  armed : bool;
  next_allowed_ns : Z;
  control_events : Lane TimestampEvent;
  rearms : Lane TimestampEvent;
  control_output : option (Sender TimestampEvent)
}.

Definition set_armed b c :=
  mkEventControl (delay_ns c) (holdoff_ns c) (manual_rearm c) b (next_allowed_ns c)
    (control_events c) (rearms c) (control_output c).
Definition set_next_allowed_ns t c :=
  mkEventControl (delay_ns c) (holdoff_ns c) (manual_rearm c) (armed c) t
    (control_events c) (rearms c) (control_output c).
Definition set_control_events l c :=
  mkEventControl (delay_ns c) (holdoff_ns c) (manual_rearm c) (armed c) (next_allowed_ns c)
    l (rearms c) (control_output c).
Definition set_rearms l c :=
  mkEventControl (delay_ns c) (holdoff_ns c) (manual_rearm c) (armed c) (next_allowed_ns c)
    (control_events c) l (control_output c).
Definition set_control_output o c :=
  mkEventControl (delay_ns c) (holdoff_ns c) (manual_rearm c) (armed c) (next_allowed_ns c)
    (control_events c) (rearms c) o.

(** [crates/signal_transforms/src/event_control/controller.rs:33-48] EventControl::new *)
Definition EventControl_new (delay_ns holdoff_ns : Z) (manual_rearm : bool) events rearm output
  : EventControl :=
  mkEventControl delay_ns holdoff_ns manual_rearm true 0 (fresh_lane events) (fresh_lane rearm)
    output.

(** [crates/signal_transforms/src/event_control/controller.rs:56-80] EventControl::fill_heads *)
Definition control_fill_heads (c : EventControl) : WorkResult unit * EventControl :=
  let! _, c := zoom control_events set_control_events (fill "Missing events input") c in
  if manual_rearm c then zoom rearms set_rearms (fill "Missing rearm input") c else (Ok tt, c).

(** The second half of [work]: the event head has been selected.
    [crates/signal_transforms/src/event_control/controller.rs:136-153] EventControl::work (event) *)
Definition control_take (event : TimestampEvent) (c : EventControl) : WorkResult Z * EventControl :=
  let c := set_control_events (drop_head (control_events c)) c in
  let allowed := (next_allowed_ns c <=? event_ns event) && (negb (manual_rearm c) || armed c) in
  if negb allowed then (Ok 0, c)
  else
    let c := set_next_allowed_ns (saturating_add64 (event_ns event) (holdoff_ns c)) c in
    let c := if manual_rearm c then set_armed false c else c in
    let! _, c := zoom control_output set_control_output
      (fun o => emit "Missing events output" o
                  (mkEvent (saturating_add64 (event_ns event) (delay_ns c)))) c in
    (Ok 1, c).

(** [crates/signal_transforms/src/event_control/controller.rs:119-154] EventControl::work *)
Definition control_work (c : EventControl) : WorkResult Z * EventControl :=
  let! _, c := control_fill_heads c in
  match head (control_events c), lane_eos (control_events c) with
  | None, true => (Err Shutdown, c)
  | event_head, _ =>
      let rearm_precedes_event := manual_rearm c &&
        match head (rearms c) with
        | Some rearm =>
            match event_head with
            | Some event => event_ns rearm <=? event_ns event
            | None => true
            end
        | None => false
        end in
      if rearm_precedes_event then
        (Ok 0, set_armed true (set_rearms (drop_head (rearms c)) c))
      else
        match event_head with
        | None => (Err (NodeError "event head was selected"), c)
        | Some event => control_take event c
        end
  end.

(** The events let through: the first event, and every later one that is at least the hold-off
    after the last one let through and, with manual rearm, has a rearm after that one and no
    later than itself. *)
Fixpoint accepted_events (holdoff : Z) (manual : bool) (rearm : list TimestampEvent)
    (last : option Z) (events : list TimestampEvent) : list TimestampEvent :=
  match events with
  | [] => []
  | e :: events =>
      let allowed := match last with
        | None => true
        | Some p => (saturating_add64 p holdoff <=? event_ns e) &&
            (negb manual || existsb (fun r => (p <? event_ns r) && (event_ns r <=? event_ns e)) rearm)
        end in
      if allowed then e :: accepted_events holdoff manual rearm (Some (event_ns e)) events
      else accepted_events holdoff manual rearm last events
  end.

(** The same from a state of the node: the rearms not yet applied, and the armed flag. *)
Fixpoint control_due (delay holdoff : Z) (manual armed : bool) (next_allowed : Z)
    (rearm events : list TimestampEvent) : list TimestampEvent :=
  match events with
  | [] => []
  | e :: events =>
      let armed' := armed || existsb (fun r => event_ns r <=? event_ns e) rearm in
      if (next_allowed <=? event_ns e) && (negb manual || armed') then
        mkEvent (saturating_add64 (event_ns e) delay) ::
          control_due delay holdoff manual false (saturating_add64 (event_ns e) holdoff)
            (List.filter (fun r => event_ns e <? event_ns r) rearm) events
      else control_due delay holdoff manual armed next_allowed rearm events
  end.
#[local] Arguments control_due : simpl never.

Lemma control_due_rearm delay holdoff armed next_allowed r rearm events :
  (forall e, In e events -> event_ns r <= event_ns e) ->
  control_due delay holdoff true armed next_allowed (r :: rearm) events =
  control_due delay holdoff true true next_allowed rearm events.
Proof.
  revert next_allowed. induction events as [|e events IH]; intros next_allowed H; [done|].
  unfold control_due at 1 2. fold control_due. cbn [existsb List.filter].
  specialize (H e (or_introl eq_refl)) as He.
  rewrite (proj2 (Z.leb_le _ _) He), (proj2 (Z.ltb_ge _ _) He), orb_true_r.
  cbn [orb negb andb]. rewrite IH; [done|]. intros x Hx. apply H. by right.
Qed.

Lemma existsb_all_false {A} (f : A -> bool) l : (forall x, In x l -> f x = false) -> existsb f l = false.
Proof.
  induction l as [|x l IH]; [done|]. intros H. cbn. rewrite H by (by left).
  apply IH. intros y Hy. apply H. by right.
Qed.

Lemma filter_all_true {A} (f : A -> bool) l : (forall x, In x l -> f x = true) -> List.filter f l = l.
Proof. intros H. apply forallb_filter_id. by apply forallb_forall. Qed.

(** Without manual rearm neither the flag nor the rearms matter. *)
Lemma control_due_any delay holdoff a1 a2 next_allowed r1 r2 events :
  control_due delay holdoff false a1 next_allowed r1 events =
  control_due delay holdoff false a2 next_allowed r2 events.
Proof.
  revert a1 a2 next_allowed r1 r2. induction events as [|e events IH]; intros; [done|].
  unfold control_due. fold control_due. cbn [negb orb]. destruct (_ && _); [f_equal|]; auto.
Qed.

Lemma control_due_event delay holdoff manual armed next_allowed rearm e events :
  (manual = true -> forall r, In r rearm -> event_ns e < event_ns r) ->
  control_due delay holdoff manual armed next_allowed rearm (e :: events) =
    if (next_allowed <=? event_ns e) && (negb manual || armed) then
      mkEvent (saturating_add64 (event_ns e) delay) ::
        control_due delay holdoff manual false (saturating_add64 (event_ns e) holdoff) rearm events
    else control_due delay holdoff manual armed next_allowed rearm events.
Proof.
  intros H. unfold control_due at 1. fold control_due. destruct manual.
  - rewrite existsb_all_false, orb_false_r.
    + rewrite filter_all_true; [done|]. intros r Hr. by apply Z.ltb_lt, H.
    + intros r Hr. by apply Z.leb_gt, H.
  - cbn [negb orb]. destruct (_ && _); [|done]. f_equal.
    apply control_due_any.
Qed.

Lemma existsb_filter {A} (f g : A -> bool) l :
  existsb f (List.filter g l) = existsb (fun x => g x && f x) l.
Proof. induction l as [|x l IH]; [done|]. cbn. destruct (g x); cbn; by rewrite IH. Qed.

Lemma filter_filter_later p q (l : list TimestampEvent) :
  p <= q ->
  List.filter (fun r => q <? event_ns r) (List.filter (fun r => p <? event_ns r) l) =
  List.filter (fun r => q <? event_ns r) l.
Proof.
  intros H. induction l as [|r l IH]; [done|]. cbn.
  destruct (Z.ltb_spec p (event_ns r)); cbn; [by rewrite IH|].
  by rewrite (proj2 (Z.ltb_ge _ _)) by lia.
Qed.

Lemma control_due_accepted_from delay holdoff manual rearm p events :
  ascending event_ns (mkEvent p :: events) ->
  control_due delay holdoff manual false (saturating_add64 p holdoff)
    (List.filter (fun r => p <? event_ns r) rearm) events =
  map (fun e => mkEvent (saturating_add64 (event_ns e) delay))
    (accepted_events holdoff manual rearm (Some p) events).
Proof.
  revert p. induction events as [|e events IH]; intros p Hs; [done|].
  apply ascending_cons in Hs as [Hp Hs]. unfold control_due. fold control_due.
  cbn [accepted_events orb]. rewrite existsb_filter.
  destruct (_ && _) eqn:Hallowed.
  - cbn [map]. f_equal. rewrite filter_filter_later; [|apply (Hp e); by left]. apply IH.
    by destruct e.
  - apply IH. apply ascending_cons in Hs as [_ Hs]. apply ascending_cons. split; [|done].
    intros y Hy. apply Hp. by right.
Qed.

Lemma control_due_accepted delay holdoff manual rearm events :
  ascending event_ns events -> (forall e, In e events -> 0 <= event_ns e) ->
  control_due delay holdoff manual true 0 rearm events =
  map (fun e => mkEvent (saturating_add64 (event_ns e) delay))
    (accepted_events holdoff manual rearm None events).
Proof.
  destruct events as [|e events]; [done|]. intros Hs H0. unfold control_due. fold control_due.
  cbn [accepted_events orb]. rewrite (proj2 (Z.leb_le _ _)), orb_true_r by (apply H0; by left).
  cbn. f_equal. apply control_due_accepted_from. by destruct e.
Qed.

Definition control_inv (i : nat) (c : EventControl) : Prop :=
  connected (control_events c) /\ (manual_rearm c = true -> connected (rearms c)) /\
  plugged i (control_output c) /\ ascending event_ns (pending (control_events c)) /\
  ascending event_ns (pending (rearms c)).

Lemma control_take_spec i c e es :
  control_inv i c -> head (control_events c) = Some e -> pending (control_events c) = e :: es ->
  (manual_rearm c = true -> forall r, In r (pending (rearms c)) -> event_ns e < event_ns r) ->
  let '(res, c') := control_take e c in
  is_ok res = true /\ control_inv i c' /\ pending (control_events c') = es /\
  rearms c' = rearms c /\
  exists emitted, sent i (control_output c') = sent i (control_output c) ++ emitted /\
    control_due (delay_ns c) (holdoff_ns c) (manual_rearm c) (armed c) (next_allowed_ns c)
      (pending (rearms c)) (e :: es) = emitted ++
    control_due (delay_ns c') (holdoff_ns c') (manual_rearm c') (armed c') (next_allowed_ns c')
      (pending (rearms c')) es.
Proof.
  destruct c as [d h m a n ev re out]. intros (He & Hr & Ho & Hse & Hsr) Hh Hn Hlater.
  cbn in *. assert (Hd : pending (drop_head ev) = es) by eauto using pending_drop_head.
  rewrite Hn in Hse. apply ascending_cons in Hse as [_ Hse].
  rewrite (control_due_event _ _ _ _ _ _ _ _ Hlater). unfold control_take. cbn.
  destruct (_ && _) eqn:Hallowed; cbn.
  - destruct (emit_plugged i "Missing events output" out
      (mkEvent (saturating_add64 (event_ns e) d)) Ho) as (o' & He' & Ho' & Hs).
    unfold zoom. destruct m; cbn; rewrite He'; cbn;
      (split; [done|]; split; [unfold control_inv; cbn; by rewrite Hd|]; split; [done|];
       split; [done|]; exists [mkEvent (saturating_add64 (event_ns e) d)]; split; [done|]).
    + done.
    + cbn. f_equal. apply control_due_any.
  - split; [done|]. split; [unfold control_inv; cbn; by rewrite Hd|]. split; [done|].
    split; [done|]. exists []. by rewrite app_nil_r.
Qed.

Lemma control_take_manual e c res c' :
  control_take e c = (res, c') -> manual_rearm c' = manual_rearm c.
Proof.
  unfold control_take, zoom. destruct c as [d h m a n ev re out]. cbn. destruct (_ && _); cbn.
  - destruct m; cbn; destruct (emit _ _ _) as [[|] ?]; intros [= <- <-]; done.
  - by intros [= <- <-].
Qed.

#[local] Arguments control_take : simpl never.

(** The filled state: its fields other than the lanes are unchanged. *)
Lemma control_fill_spec i c :
  control_inv i c ->
  exists ev re, control_fill_heads c = (Ok tt, set_rearms re (set_control_events ev c)) /\
    connected ev /\ filled ev /\ pending ev = pending (control_events c) /\
    pending re = pending (rearms c) /\
    if manual_rearm c then connected re /\ filled re else re = rearms c.
Proof.
  destruct c as [d h m a n ev re out]. intros (He & Hr & Ho & Hse & Hsr).
  unfold control_fill_heads, zoom. cbn in *. fill_lane He. cbn. destruct m; cbn.
  - fill_lane (Hr eq_refl). cbn. eauto 10.
  - exists lane, re. eauto 10.
Qed.

#[export] Instance control_drains i :
  Drains control_work (control_inv i)
    (fun c => length (pending (control_events c))
       + if manual_rearm c then length (pending (rearms c)) else 0)%nat
    (fun c => sent i (control_output c))
    (fun c => control_due (delay_ns c) (holdoff_ns c) (manual_rearm c) (armed c)
      (next_allowed_ns c) (pending (rearms c)) (pending (control_events c))).
Proof.
  constructor. intros c Hinv. pose proof (control_fill_spec i c Hinv) as (ev & re & Hfill & Hc & Hf & Hp & Hq & Hre).
  unfold control_work. rewrite Hfill. clear Hfill.
  destruct c as [d h m a n ev0 re0 out]. destruct Hinv as (He & Hr & Ho & Hse & Hsr). cbn in *.
  rewrite <- Hp, <- Hq in *.
  set (c := mkEventControl d h m a n ev re out).
  assert (Hinv : control_inv i c).
  { split_and!; cbn; try done. intros Hm. subst m. by destruct Hre. }
  apply filled_cases in Hf as [(Hn & -> & Hh)|(e & es & Hn & Hh & Hd)].
  { rewrite Hh, Hn. split_and!; [done..|by rewrite app_nil_r]. }
  rewrite Hh.
  assert (Hcases : (m = true /\ exists r rs, pending re = r :: rs /\ head re = Some r /\
      pending (drop_head re) = rs /\ event_ns r <= event_ns e) \/
    ((m = true -> forall r, In r (pending re) -> event_ns e < event_ns r) /\
     (m && match head re with Some r => event_ns r <=? event_ns e | None => false end) = false)).
  { destruct m; [|by right]. destruct Hre as [_ Hre].
    destruct (filled_before event_ns re (event_ns e) Hre Hsr) as [?|[? ?]]; [left; eauto|right; eauto]. }
  destruct Hcases as [(-> & r & rs & Hnr & Hhr & Hdr & Hle)|[Hlater Hno]].
  - rewrite Hhr, (proj2 (Z.leb_le _ _) Hle). cbn. rewrite Hdr, Hnr, Hn.
    split; [|split; [cbn; lia|exists []; rewrite app_nil_r; split; [done|]]].
    + unfold control_inv. cbn. rewrite Hdr, Hn in *. split_and!; try done; [by destruct Hre|].
      rewrite Hnr in Hsr. by apply ascending_cons in Hsr as [_ Hsr].
    + apply control_due_rearm. rewrite Hn in Hse. apply ascending_cons in Hse as [Hle' _].
      intros x [<-|Hx]; [done|]. specialize (Hle' x Hx). lia.
  - rewrite Hno. pose proof (control_take_spec i c e es Hinv Hh Hn Hlater) as H.
    change (set_rearms _ _) with c. destruct (control_take e c) as [[k|er] c'] eqn:Htake; [|by destruct H].
    destruct H as (_ & H1 & H2 & H3 & em & H4 & H5). split; [done|].
    rewrite H2. cbn in H4, H5. rewrite Hn. split; [|by exists em]. rewrite H3.
    rewrite (control_take_manual e c _ c' Htake). cbn. destruct m; lia.
Qed.

(** C31. Event control lets through the first event and then every event that comes no earlier
    than the hold-off after the last one let through and, with manual rearm, follows a rearm
    that came after that one and no later than the event itself; each is delayed by the
    configured delay, saturating at the end of the timeline. *)
Theorem event_control_policy i delay holdoff manual ev re out fuel :
  ascending event_ns (items ev) -> ascending event_ns (items re) ->
  (forall e, In e (items ev) -> 0 <= event_ns e) -> plugged i out ->
  (length (items ev) + length (items re) < fuel)%nat ->
  exists n c', run fuel control_work
      (EventControl_new delay holdoff manual (Some ev) (Some re) out) 0 = Some (Shutdown, n, c') /\
    sent i (control_output c') = sent i out ++
      map (fun e => mkEvent (saturating_add64 (event_ns e) delay))
        (accepted_events holdoff manual (items re) None (items ev)).
Proof.
  intros He Hr H0 Ho Hf. rewrite <- control_due_accepted by done.
  drain (control_drains i).
  - repeat split; try done; by eexists.
  - cbn. rewrite !pending_fresh. destruct manual; lia.
Qed.

Lemma event_control_policy_witness :
  exists n c', run 20 control_work (EventControl_new 5 10 true
      (Some (fresh_receiver [Arrive (Batch [mkEvent 100; mkEvent 120; mkEvent 130]);
                             Arrive (SampleMsg (mkEvent 135))]))
      (Some (fresh_receiver [Arrive (SampleMsg (mkEvent 125))])) open_port) 0
    = Some (Shutdown, n, c') /\
  sent 0 (control_output c') = [mkEvent 105; mkEvent 135].
Proof.
  apply (event_control_policy 0).
  - apply ascendingb_spec. reflexivity.
  - apply ascendingb_spec. reflexivity.
  - intros e [<-|[<-|[<-|[<-|[]]]]]; simpl; lia.
  - by eexists.
  - simpl. lia.
Defined.
