(* ===== verification/RecordedQuery.v ===== *)
(** [crates/signal_capture/src/recorded_edge_query.rs]: a level whose transitions are appended
    while a node runs and that readers query at any position. *)

From S2P Require Import Prelude Events.

(** [crates/signal_capture/src/capture/contracts.rs:46-52] CaptureTransition *)
Record CaptureTransition := mkTransition { sample : Z; edge_value : bool }.

#[export] Instance CaptureTransition_eq_dec : EqDecision CaptureTransition.
Proof. solve_decision. Defined.

(** The shared vector behind the lock.
    [crates/signal_capture/src/recorded_edge_query.rs:12-15] RecordedEdgeQuery *)
Definition RecordedEdgeQuery : Type := list CaptureTransition.

(** [slice::partition_point]: on a slice whose matching elements come first, their number. *)
Fixpoint partition_point (p : CaptureTransition -> bool) (l : list CaptureTransition) : nat :=
  match l with
  | [] => O
  | e :: l => if p e then S (partition_point p l) else O
  end.

(** [crates/signal_capture/src/recorded_edge_query.rs:18-29] RecordedEdgeQuery::new *)
Definition RecordedEdgeQuery_new (initial : bool) : RecordedEdgeQuery := [mkTransition 0 initial].

(** [crates/signal_capture/src/recorded_edge_query.rs:31-43] RecordedEdgeQuery::record *)
Definition record (transitions : list CaptureTransition) (timestamp_ns : Z) (value : bool)
  : list CaptureTransition :=
  let keep := partition_point (fun edge => sample edge <? timestamp_ns) transitions in
  let transitions := take keep transitions in
  if match last transitions with Some edge => Bool.eqb (edge_value edge) value | None => false end
  then transitions
  else transitions ++ [mkTransition timestamp_ns value].

(** [None] is the out-of-bounds panic.
    [crates/signal_capture/src/recorded_edge_query.rs:59-63] RecordedEdgeQuery::value_at *)
Definition value_at (transitions : list CaptureTransition) (position : Z) : option bool :=
  let index := partition_point (fun edge => sample edge <=? position) transitions in
  edge_value <$> transitions !! (index - 1)%nat.

(** [crates/signal_capture/src/recorded_edge_query.rs:65-72] RecordedEdgeQuery::next_edge *)
Definition next_edge (transitions : list CaptureTransition) (position limit : Z)
  : option CaptureTransition :=
  let index := partition_point (fun edge => sample edge <=? position) transitions in
  match transitions !! index with
  | Some edge => if sample edge <? limit then Some edge else None
  | None => None
  end.

(** Strictly increasing positions from zero, each transition changing the level. *)
Fixpoint increasing (bound : Z) (l : list CaptureTransition) : Prop :=
  match l with [] => True | e :: l => bound < sample e /\ increasing (sample e) l end.

Fixpoint alternating (level : bool) (l : list CaptureTransition) : Prop :=
  match l with [] => True | e :: l => edge_value e = negb level /\ alternating (edge_value e) l end.

Definition query_ok (l : list CaptureTransition) : Prop :=
  match l with
  | [] => False
  | e :: l => sample e = 0 /\ increasing 0 l /\ alternating (edge_value e) l
  end.

(** The level after the transitions of [l] up to a position. *)
Fixpoint level_from (level : bool) (l : list CaptureTransition) (position : Z) : bool :=
  match l with
  | [] => level
  | e :: l => level_from (if sample e <=? position then edge_value e else level) l position
  end.

Lemma increasing_weaken b b' l : b' <= b -> increasing b l -> increasing b' l.
Proof. destruct l as [|e l]; [done|]. simpl. intros ? [? ?]. split; [lia|done]. Qed.

Lemma level_from_later bound level l position :
  increasing bound l -> position <= bound -> level_from level l position = level.
Proof.
  revert bound level. induction l as [|e l IH]; intros bound level Hi Hp; [done|].
  destruct Hi as [Hb Hi]. simpl. rewrite (proj2 (Z.leb_gt _ _)) by lia.
  apply (IH (sample e)); [done|lia].
Qed.

Lemma value_at_level e l position :
  increasing (sample e) l ->
  edge_value <$> (e :: l) !! partition_point (fun edge => sample edge <=? position) l
    = Some (level_from (edge_value e) l position).
Proof.
  revert e. induction l as [|e' l IH]; intros e Hi; [done|]. destruct Hi as [Hb Hi].
  cbn [partition_point level_from]. destruct (Z.leb_spec (sample e') position).
  - apply IH. done.
  - rewrite (level_from_later (sample e')); [done..|lia].
Qed.

(** Inside the recorded range a query reads the level of the last transition at or before it. *)
Lemma value_at_ok l position :
  query_ok l -> 0 <= position ->
  exists e rest, l = e :: rest /\ value_at l position = Some (level_from (edge_value e) rest position).
Proof.
  destruct l as [|e rest]; [done|]. intros (H0 & Hi & _) Hp. exists e, rest. split; [done|].
  unfold value_at. cbn [partition_point]. rewrite (proj2 (Z.leb_le _ _)) by lia.
  rewrite Nat.sub_succ, Nat.sub_0_r. apply value_at_level. by rewrite H0.
Qed.

(** What [record] does after the first transition. *)
Fixpoint record_from (level : bool) (l : list CaptureTransition) (t : Z) (value : bool)
  : list CaptureTransition :=
  match l with
  | [] => if Bool.eqb level value then [] else [mkTransition t value]
  | e :: l =>
      if sample e <? t then e :: record_from (edge_value e) l t value
      else if Bool.eqb level value then [] else [mkTransition t value]
  end.

Lemma record_cons e l t value :
  sample e < t -> record (e :: l) t value = e :: record_from (edge_value e) l t value.
Proof.
  revert e. induction l as [|e' l IH]; intros e Ht.
  - unfold record. cbn [partition_point]. rewrite (proj2 (Z.ltb_lt _ _)) by lia. cbn.
    by destruct (Bool.eqb _ _).
  - unfold record in *. cbn [partition_point record_from].
    rewrite (proj2 (Z.ltb_lt (sample e) t)) by lia.
    destruct (Z.ltb_spec (sample e') t) as [H|H].
    + specialize (IH e' H). cbn [partition_point] in IH.
      rewrite (proj2 (Z.ltb_lt _ _)) in IH by done. rewrite firstn_cons in IH |- *.
      rewrite firstn_cons. rewrite <- IH. cbn [last].
      match goal with |- context [if ?b then _ else _] => destruct b end; done.
    + cbn. by destruct (Bool.eqb _ _).
Qed.

Lemma record_at_zero e l t value :
  sample e = 0 -> t <= 0 -> record (e :: l) t value = [mkTransition t value].
Proof.
  intros H0 Ht. unfold record. cbn [partition_point].
  by rewrite (proj2 (Z.ltb_ge _ _)) by lia.
Qed.

Lemma record_from_increasing bound level l t value :
  bound < t -> increasing bound l -> increasing bound (record_from level l t value).
Proof.
  revert bound level. induction l as [|e l IH]; intros bound level Hb Hi; simpl.
  - by destruct (Bool.eqb level value).
  - destruct Hi as [Hi1 Hi2]. destruct (Z.ltb_spec (sample e) t).
    + split; [done|by apply IH].
    + by destruct (Bool.eqb level value).
Qed.

Lemma record_from_alternating level l t value :
  alternating level l -> alternating level (record_from level l t value).
Proof.
  revert level. induction l as [|e l IH]; intros level Ha; simpl.
  - destruct level, value; simpl; auto.
  - destruct Ha as [Ha1 Ha2]. destruct (sample e <? t).
    + split; [done|by apply IH].
    + destruct level, value; simpl; auto.
Qed.

Lemma level_record_from bound level l t value position :
  increasing bound l ->
  level_from level (record_from level l t value) position =
    if position <? t then level_from level l position else value.
Proof.
  revert bound level. induction l as [|e l IH]; intros bound level Hi; cbn [record_from].
  - destruct (Bool.eqb level value) eqn:He.
    + apply eqb_prop in He as ->. simpl. by destruct (_ <? _).
    + simpl. rewrite Z.leb_antisym. by destruct (_ <? _).
  - destruct Hi as [Hi1 Hi2]. destruct (Z.ltb_spec (sample e) t).
    + cbn [level_from]. rewrite Z.leb_antisym.
      destruct (Z.ltb_spec position (sample e)); cbn [negb].
      * rewrite (proj2 (Z.ltb_lt position t)) by lia.
        rewrite !(level_from_later (sample e)); auto using record_from_increasing; lia.
      * by apply (IH (sample e)).
    + destruct (Z.ltb_spec position t).
      * cbn [level_from]. rewrite (proj2 (Z.leb_gt _ _)) by lia.
        rewrite (level_from_later (sample e) level l) by (done || lia).
        destruct (Bool.eqb _ _); [done|]. simpl. by rewrite (proj2 (Z.leb_gt _ _)) by lia.
      * destruct (Bool.eqb level value) eqn:He; [by apply eqb_prop in He as ->|].
        simpl. by rewrite (proj2 (Z.leb_le _ _)) by lia.
Qed.

Lemma record_level l t value position :
  query_ok l -> 0 <= t -> 0 <= position ->
  query_ok (record l t value) /\
  value_at (record l t value) position = if position <? t then value_at l position else Some value.
Proof.
  intros Hok Ht Hp. destruct l as [|e l]; [done|]. destruct Hok as (H0 & Hi & Ha).
  assert (Hl : value_at (e :: l) position = Some (level_from (edge_value e) l position)).
  { destruct (value_at_ok (e :: l) position) as (? & ? & [= <- <-] & ->); by repeat split. }
  destruct (Z.eq_dec t 0) as [->|Ht0].
  - rewrite record_at_zero by lia. rewrite (proj2 (Z.ltb_ge _ _)) by lia. split; [done|].
    unfold value_at. cbn. by rewrite (proj2 (Z.leb_le _ _)) by lia.
  - rewrite record_cons by lia.
    assert (Hok : query_ok (e :: record_from (edge_value e) l t value)).
    { split_and!; [done|apply record_from_increasing; [lia|done]|by apply record_from_alternating]. }
    split; [done|]. rewrite Hl.
    destruct (value_at_ok _ position Hok Hp) as (? & ? & [= <- <-] & ->).
    rewrite (level_record_from 0) by done. by destruct (_ <? _).
Qed.

(** Recording keeps the transitions strictly ordered from position zero and alternating,
    and sets the level from the recorded instant on without touching the earlier history. *)
Theorem record_replaces_future l t value position :
  query_ok l -> 0 <= t -> 0 <= position ->
  query_ok (record l t value) /\
  value_at (record l t value) position = if position <? t then value_at l position else Some value.
Proof. apply record_level. Qed.

Lemma record_replaces_future_witness :
  let q := record (record (RecordedEdgeQuery_new false) 20 true) 40 false in
  value_at (record q 30 false) 35 = Some false /\ value_at (record q 30 false) 25 = Some true.
Proof.
  split.
  - apply (record_replaces_future
      (record (record (RecordedEdgeQuery_new false) 20 true) 40 false) 30 false 35); cbn; auto with lia.
  - reflexivity.
Defined.

Lemma next_edge_from e l position :
  increasing (sample e) l -> alternating (edge_value e) l ->
  match (e :: l) !! S (partition_point (fun edge => sample edge <=? position) l) with
  | Some edge => position < sample edge /\
      edge_value edge = negb (level_from (edge_value e) l position) /\
      level_from (edge_value e) l (sample edge) = edge_value edge /\
      (forall p, position <= p < sample edge ->
        level_from (edge_value e) l p = level_from (edge_value e) l position)
  | None => forall p, position <= p ->
      level_from (edge_value e) l p = level_from (edge_value e) l position
  end.
Proof.
  revert e. induction l as [|e' l IH]; intros e Hi Ha; [done|].
  destruct Hi as [Hi1 Hi2], Ha as [Ha1 Ha2]. cbn [partition_point].
  destruct (Z.leb_spec (sample e') position) as [H|H].
  - specialize (IH e' Hi2 Ha2). cbn [level_from]. rewrite (proj2 (Z.leb_le _ _) H).
    change ((e :: e' :: l) !! S (S ?n)) with ((e' :: l) !! S n).
    destruct ((e' :: l) !! _) as [edge|] eqn:Hedge.
    + destruct IH as (H1 & H2 & H3 & H4). rewrite (proj2 (Z.leb_le _ (sample edge))) by lia.
      split_and!; try done. intros p Hp. rewrite (proj2 (Z.leb_le _ p)) by lia. by apply H4.
    + intros p Hp. rewrite (proj2 (Z.leb_le _ p)) by lia. by apply IH.
  - cbn. rewrite Z.leb_refl. rewrite (proj2 (Z.leb_gt _ _)) by lia.
    rewrite !(level_from_later (sample e')) by (done || lia).
    split_and!; try done. intros p Hp. rewrite (proj2 (Z.leb_gt _ p)) by lia.
    apply (level_from_later (sample e')); [done|lia].
Qed.

(** The next edge after a position is the first place before the limit where the level
    differs from the level at the position; without one the level is constant up to the limit. *)
Theorem next_edge_first_change l position limit :
  query_ok l -> 0 <= position ->
  match next_edge l position limit with
  | Some edge => position < sample edge < limit /\
      value_at l (sample edge) = Some (edge_value edge) /\
      value_at l position = Some (negb (edge_value edge)) /\
      (forall p, position <= p < sample edge -> value_at l p = value_at l position)
  | None => forall p, position <= p < limit -> value_at l p = value_at l position
  end.
Proof.
  intros Hok Hp. destruct l as [|e l]; [done|].
  assert (Hv : forall p, 0 <= p -> value_at (e :: l) p = Some (level_from (edge_value e) l p)).
  { intros p H. destruct (value_at_ok (e :: l) p Hok H) as (? & ? & [= <- <-] & ->). done. }
  destruct Hok as (H0 & Hi & Ha). rewrite <- H0 in Hi.
  pose proof (next_edge_from e l position Hi Ha) as H. unfold next_edge. cbn [partition_point].
  rewrite (proj2 (Z.leb_le _ _)) by lia. destruct ((e :: l) !! _) as [edge|].
  - destruct H as (H1 & H2 & H3 & H4). destruct (Z.ltb_spec (sample edge) limit).
    + split; [lia|]. rewrite !Hv, H2, negb_involutive by lia.
      split; [by rewrite H3, H2|]. split; [done|]. intros p Hpp. rewrite Hv by lia.
      f_equal. by apply H4.
    + intros p Hpp. rewrite !Hv by lia. f_equal. apply H4. lia.
  - intros p Hpp. rewrite !Hv by lia. f_equal. apply H. lia.
Qed.

Lemma next_edge_first_change_witness :
  let q := record (record (RecordedEdgeQuery_new false) 20 true) 40 false in
  next_edge q 25 100 = Some (mkTransition 40 false) /\ value_at q 25 = Some (negb false).
Proof.
  split; [reflexivity|].
  apply (next_edge_first_change
    (record (record (RecordedEdgeQuery_new false) 20 true) 40 false) 25 100); cbn; auto with lia.
Defined.
