(* ===== verification/EdgeQuery.v ===== *)
(** Random access to the edges of a binary channel: the interface of
    [crates/signal_capture/src/edge_query.rs] with its default methods, and the query that a logic
    gate composes of its inputs' queries, [crates/signal_transforms/src/logic_gate/edge_query.rs].

    A query is the record of its methods, with the text of an error as its error; it does not
    change while it is used.  Sample rates are 64-bit floats: their operations are those of the
    binary64 specification of the standard library. *)

From Stdlib Require Import SpecFloat.
From S2P Require Import Prelude Events RecordedQuery.

#[local] Open Scope Z_scope.

(** ** 64-bit floats *)

Definition f64 : Type := spec_float.

(** [z as f64], and a literal: rounded to the nearest, ties to even. *)
Definition f64_of_Z (z : Z) : f64 := binary_normalize 53 1024 z 0 false.

Definition f64_mul (x y : f64) : f64 := SFmul 53 1024 x y.
Definition f64_div (x y : f64) : f64 := SFdiv 53 1024 x y.

(** [2^e] times [m], rounded down or up to an integer. *)
Definition floor_scaled (m e : Z) : Z := Z.shiftl m e.
Definition ceil_scaled (m e : Z) : Z := - Z.shiftl (- m) e.

(** The integral value of a finite float under a rounding of [m * 2^e]; [None]: not finite. *)
Definition rounded (round : Z -> Z -> Z) (x : f64) : option Z :=
  match x with
  | S754_zero _ => Some 0
  | S754_finite s m e => Some (round (if s then Z.neg m else Z.pos m) e)
  | S754_infinity _ | S754_nan => None
  end.

(** [x as u64]: towards zero, saturating, zero for NaN. *)
Definition f64_as_u64 (x : f64) : Z :=
  match x with
  | S754_infinity s => if s then 0 else u64_max
  | S754_finite s m e => if s then 0 else Z.min (floor_scaled (Z.pos m) e) u64_max
  | S754_zero _ | S754_nan => 0
  end.

(** A float at or above [2^64] is not below [u64::MAX as f64].
    [crates/signal_transforms/src/logic_gate/edge_query.rs:144-153] saturating_u64 *)
Definition saturating_u64 (value : f64) (round : Z -> Z -> Z) : Z :=
  match rounded round value with
  | None => u64_max
  | Some value =>
      if 18446744073709551616 <=? value then u64_max else if value <=? 0 then 0 else value
  end.

(** [crates/signal_transforms/src/logic_gate/edge_query.rs:136-138] scale_floor *)
Definition scale_floor (position : Z) (target_rate source_rate : f64) : Z :=
  saturating_u64 (f64_div (f64_mul (f64_of_Z position) target_rate) source_rate) floor_scaled.

(** [crates/signal_transforms/src/logic_gate/edge_query.rs:140-142] scale_ceil *)
Definition scale_ceil (position : Z) (target_rate source_rate : f64) : Z :=
  saturating_u64 (f64_div (f64_mul (f64_of_Z position) target_rate) source_rate) ceil_scaled.

(** ** The interface *)

Definition QueryResult (A : Type) : Type := result string A.

(** The required methods; the sample period and the density hints are left out.
    [crates/signal_capture/src/edge_query.rs:92-129] EdgeQuery *)
Record EdgeQuery := mkQuery {
  samplerate_hz : f64;
  total_samples : Z;
  query_value_at : Z -> QueryResult bool;
  query_next_edge : Z -> Z -> QueryResult (option CaptureTransition)
}.

(** Every turn of the loop pushes a transition: [missing] is how many the caller still wants.
    [crates/signal_capture/src/edge_query.rs:138-159] EdgeQuery::next_edges *)
Fixpoint next_edges (q : EdgeQuery) (cursor limit : Z) (missing : nat)
  : QueryResult (list CaptureTransition) :=
  match missing with
  | O => Ok []
  | S missing =>
      let? edge := query_next_edge q cursor limit in
      match edge with
      | None => Ok []
      | Some transition =>
          let? output := next_edges q (sample transition) limit missing in
          Ok (transition :: output)
      end
  end.

(** [crates/signal_capture/src/edge_query.rs:166-173] EdgeQuery::values_at *)
Fixpoint values_at (q : EdgeQuery) (positions : list Z) : QueryResult (list bool) :=
  match positions with
  | [] => Ok []
  | position :: positions =>
      let? value := query_value_at q position in
      let? output := values_at q positions in
      Ok (value :: output)
  end.

(** The loop of [next_edge_with_value]; [None] at the outside: it does not end.
    [crates/signal_capture/src/edge_query.rs:184-191] EdgeQuery::next_edge_with_value (loop) *)
Fixpoint edge_with_value_loop (fuel : nat) (q : EdgeQuery) (value : bool) (pos limit : Z)
  : option (QueryResult (option CaptureTransition)) :=
  match fuel with
  | O => None
  | S fuel =>
      match query_next_edge q pos limit with
      | Err e => Some (Err e)
      | Ok None => Some (Ok None)
      | Ok (Some transition) =>
          if Bool.eqb (edge_value transition) value then Some (Ok (Some transition))
          else edge_with_value_loop fuel q value (sample transition) limit
      end
  end.

(** As many turns as there are positions in front of the limit.
    [crates/signal_capture/src/edge_query.rs:178-192] EdgeQuery::next_edge_with_value *)
Definition next_edge_with_value (q : EdgeQuery) (position : Z) (value : bool) (limit : Z)
  : option (QueryResult (option CaptureTransition)) :=
  edge_with_value_loop (S (Z.to_nat (limit - position))) q value position limit.

(** An empty list of transitions, which [new] and [record] never leave, would panic.
    [crates/signal_capture/src/recorded_edge_query.rs:46-73] EdgeQuery for RecordedEdgeQuery *)
Definition recorded_query (transitions : RecordedEdgeQuery) : EdgeQuery :=
  mkQuery (f64_of_Z 1000000000) u64_max
    (fun position => ok_or (value_at transitions position) "index out of bounds"%string)
    (fun position limit => Ok (next_edge transitions position limit)).

(** Nanoseconds per sample, as every consumer of a query computes them.
    [crates/signal_transforms/src/logic_gate/gate.rs:239-239] LogicGate::work (timestamp_step) *)
Definition timestamp_step (q : EdgeQuery) : Z :=
  f64_as_u64 (f64_div (f64_of_Z 1000000000) (samplerate_hz q)).

(** ** The query of a gate *)

(** [crates/signal_transforms/src/logic_gate/gate.rs:18-28] GateOp *)
Inductive GateOp := Not | And | Nand | Or | Nor | Xor | Xnor.

(** A gate has at least one input, so [levels[0]] exists; the parity is that of the number of
    high levels.
    [crates/signal_transforms/src/logic_gate/gate.rs:31-41] GateOp::combine *)
Definition combine (op : GateOp) (levels : list bool) : bool :=
  match op with
  | Not => negb (hd false levels)
  | And => forallb id levels
  | Nand => negb (forallb id levels)
  | Or => existsb id levels
  | Nor => negb (existsb id levels)
  | Xor => Nat.odd (length (List.filter id levels))
  | Xnor => Nat.even (length (List.filter id levels))
  end.

(** [crates/signal_transforms/src/logic_gate/edge_query.rs:9-14] LogicGateEdgeQuery *)
Record LogicGateEdgeQuery := mkGateQuery {
  gate_op : GateOp;
  gate_query_inputs : list EdgeQuery;
  gate_samplerate_hz : f64;
  gate_total_samples : Z
}.

(** [Iterator::min] of a non-empty list. *)
Fixpoint minimum (x : Z) (l : list Z) : Z :=
  match l with [] => x | y :: l => minimum (Z.min x y) l end.

(** [crates/signal_transforms/src/logic_gate/edge_query.rs:17-31] LogicGateEdgeQuery::new *)
Definition LogicGateEdgeQuery_new (op : GateOp) (inputs : list EdgeQuery)
  : option LogicGateEdgeQuery :=
  match inputs with
  | [] => None
  | first :: rest =>
      let rate := samplerate_hz first in
      let total q := scale_floor (total_samples q) rate (samplerate_hz q) in
      Some (mkGateQuery op inputs rate (minimum (total first) (map total rest)))
  end.

Section Operations.
Variable g : LogicGateEdgeQuery.

(** [collect] stops at the first error. *)
Fixpoint collect {A} (l : list (QueryResult A)) : QueryResult (list A) :=
  match l with
  | [] => Ok []
  | r :: l => let? x := r in let? xs := collect l in Ok (x :: xs)
  end.

(** [crates/signal_transforms/src/logic_gate/edge_query.rs:33-44] LogicGateEdgeQuery::input_levels *)
Definition input_levels (position : Z) : QueryResult (list bool) :=
  collect (map (fun input =>
    query_value_at input (scale_floor position (samplerate_hz input) (gate_samplerate_hz g)))
    (gate_query_inputs g)).

(** [crates/signal_transforms/src/logic_gate/edge_query.rs:46-48] LogicGateEdgeQuery::combined_value *)
Definition combined_value (position : Z) : QueryResult bool :=
  let? levels := input_levels position in
  Ok (combine (gate_op g) levels).

(** The indices whose level satisfies [p]. *)
Fixpoint indices_from (p : bool -> bool) (index : nat) (levels : list bool) : list nat :=
  match levels with
  | [] => []
  | l :: levels => (if p l then [index] else []) ++ indices_from p (S index) levels
  end.

(** [crates/signal_transforms/src/logic_gate/edge_query.rs:50-65] LogicGateEdgeQuery::inputs_that_can_change_output *)
Definition inputs_that_can_change_output (levels : list bool) : list nat :=
  let all := indices_from (fun _ => true) 0 levels in
  match gate_op g with
  | And | Nand => if negb (forallb id levels) then indices_from negb 0 levels else all
  | Or | Nor => if existsb id levels then indices_from id 0 levels else all
  | Not | Xor | Xnor => all
  end.

(** The loop over the edges of an input; [None] at the outside: it does not end.
    [crates/signal_transforms/src/logic_gate/edge_query.rs:76-86] LogicGateEdgeQuery::next_input_position (loop) *)
Fixpoint input_position_loop (fuel : nat) (input : EdgeQuery)
    (input_position input_limit position limit : Z) : option (QueryResult (option Z)) :=
  match fuel with
  | O => None
  | S fuel =>
      match query_next_edge input input_position input_limit with
      | Err e => Some (Err e)
      | Ok None => Some (Ok None)
      | Ok (Some edge) =>
          let output_position :=
            scale_ceil (sample edge) (gate_samplerate_hz g) (samplerate_hz input) in
          if (position <? output_position) && (output_position <? limit)
          then Some (Ok (Some output_position))
          else input_position_loop fuel input (sample edge) input_limit position limit
      end
  end.

(** [crates/signal_transforms/src/logic_gate/edge_query.rs:67-87] LogicGateEdgeQuery::next_input_position *)
Definition next_input_position (input : EdgeQuery) (position limit : Z)
  : option (QueryResult (option Z)) :=
  let input_position := scale_floor position (samplerate_hz input) (gate_samplerate_hz g) in
  let input_limit :=
    Z.min (scale_ceil limit (samplerate_hz input) (gate_samplerate_hz g)) (total_samples input) in
  input_position_loop (S (Z.to_nat (input_limit - input_position))) input input_position
    input_limit position limit.

(** The earliest position at which one of the given inputs changes: errors come first, then
    [flatten] and [min].  An index is one of a level, so the input exists.
    [crates/signal_transforms/src/logic_gate/edge_query.rs:112-119] LogicGateEdgeQuery::next_edge (next) *)
Fixpoint next_positions (indices : list nat) (position limit : Z)
  : option (QueryResult (list Z)) :=
  match indices with
  | [] => Some (Ok [])
  | index :: indices =>
      match gate_query_inputs g !! index with
      | None => Some (Err "index out of bounds"%string)
      | Some input =>
          match next_input_position input position limit with
          | None => None
          | Some (Err e) => Some (Err e)
          | Some (Ok found) =>
              match next_positions indices position limit with
              | Some (Ok rest) => Some (Ok (match found with Some x => x :: rest | None => rest end))
              | other => other
              end
          end
      end
  end.

(** [crates/signal_transforms/src/logic_gate/edge_query.rs:108-132] LogicGateEdgeQuery::next_edge (loop) *)
Fixpoint gate_edge_loop (fuel : nat) (cursor limit : Z)
  : option (QueryResult (option CaptureTransition)) :=
  match fuel with
  | O => None
  | S fuel =>
      if negb (cursor <? limit) then Some (Ok None)
      else
        match input_levels cursor with
        | Err e => Some (Err e)
        | Ok levels =>
            match next_positions (inputs_that_can_change_output levels) cursor limit with
            | None => None
            | Some (Err e) => Some (Err e)
            | Some (Ok []) => Some (Ok None)
            | Some (Ok (first :: rest)) =>
                let next := minimum first rest in
                match combined_value next with
                | Err e => Some (Err e)
                | Ok next_value =>
                    if negb (Bool.eqb next_value (combine (gate_op g) levels))
                    then Some (Ok (Some (mkTransition next next_value)))
                    else gate_edge_loop fuel next limit
                end
            end
        end
  end.

(** [crates/signal_transforms/src/logic_gate/edge_query.rs:107-133] LogicGateEdgeQuery::next_edge *)
Definition gate_next_edge (position limit : Z) : option (QueryResult (option CaptureTransition)) :=
  gate_edge_loop (S (Z.to_nat (limit - position))) position limit.
End Operations.

(** The composed query as a query; a search that does not end is an error here, which the
    theorems exclude.
    [crates/signal_transforms/src/logic_gate/edge_query.rs:90-134] EdgeQuery for LogicGateEdgeQuery *)
Definition gate_query (g : LogicGateEdgeQuery) : EdgeQuery :=
  mkQuery (gate_samplerate_hz g) (gate_total_samples g) (combined_value g)
    (fun position limit =>
      from_option id (Err "diverges"%string) (gate_next_edge g position limit)).

(** ** What a query promises *)

(** The answer [r] to a search from [p] to [limit]: the first position behind [p] where the level
    differs, with the level there; or none, and then the level is constant in front of [limit]. *)
Definition first_change (level : Z -> bool) (p limit : Z) (r : option CaptureTransition) : Prop :=
  match r with
  | Some e => p < sample e < limit /\ edge_value e = level (sample e) /\
      edge_value e <> level p /\ (forall x, p <= x < sample e -> level x = level p)
  | None => forall x, p <= x < limit -> level x = level p
  end.

(** The contract of an edge query: it answers from a level over positions. *)
Class Answers (q : EdgeQuery) (level : Z -> bool) : Prop := {
  answers_value p : 0 <= p < total_samples q -> query_value_at q p = Ok (level p);
  answers_edge p limit : 0 <= p -> limit <= total_samples q ->
    exists r, query_next_edge q p limit = Ok r /\ first_change level p limit r
}.

#[export] Instance recorded_query_answers l :
  query_ok l -> Answers (recorded_query l) (fun p => from_option id false (value_at l p)).
Proof.
  intros Hok.
  assert (Hv : forall p, 0 <= p -> exists v, value_at l p = Some v).
  { intros p Hp. destruct (value_at_ok l p Hok Hp) as (e & rest & _ & ->). eauto. }
  constructor; cbn.
  - intros p Hp. destruct (Hv p) as [v ->]; [lia|done].
  - intros p limit Hp _. eexists. split; [done|].
    pose proof (next_edge_first_change l p limit Hok Hp) as H.
    destruct (next_edge l p limit) as [e|]; cbn.
    + destruct H as (H1 & H2 & H3 & H4). rewrite H2, H3. cbn. split; [lia|].
      split; [done|]. split; [by destruct (edge_value e)|]. intros x Hx. by rewrite H4, H3.
    + intros x Hx. by rewrite H.
Qed.

(** [next_edge_with_value] returns, with the first change to the value asked for if there is one:
    in front of it no position behind the first change has that value. *)
Lemma next_edge_with_value_spec q level position value limit `{!Answers q level} :
  0 <= position -> limit <= total_samples q ->
  exists r, next_edge_with_value q position value limit = Some (Ok r) /\
    match r with
    | Some e => position < sample e < limit /\ edge_value e = value /\ level (sample e) = value /\
        (forall x, position < x < sample e -> level x = value -> level (x - 1) = value)
    | None => forall x, position < x < limit -> level x = value -> level (x - 1) = value
    end.
Proof.
  intros Hp Hl. unfold next_edge_with_value.
  remember (S (Z.to_nat (limit - position))) as fuel eqn:Hf.
  assert (Hfuel : (Z.to_nat (limit - position) < fuel)%nat) by lia. clear Hf.
  revert position Hp Hfuel. induction fuel as [|fuel IH]; intros position Hp Hfuel; [lia|].
  cbn [edge_with_value_loop]. destruct (answers_edge position limit Hp Hl) as (r & -> & Hr).
  destruct r as [e|]; cbn in Hr.
  2: { exists None. split; [done|]. intros x Hx Hv. rewrite <- Hv. rewrite (Hr x), (Hr (x - 1)) by lia. done. }
  destruct Hr as (He & Hval & Hne & Hc). destruct (Bool.eqb (edge_value e) value) eqn:Heq.
  - apply eqb_prop in Heq. exists (Some e). split; [done|]. split; [lia|]. split; [done|].
    split; [congruence|]. intros x Hx Hv. rewrite <- Hv. rewrite (Hc x), (Hc (x - 1)) by lia. done.
  - apply eqb_false_iff in Heq. destruct (IH (sample e)) as (r & -> & Hr); [lia..|].
    exists r. split; [done|].
    assert (Hfront : forall x, position < x <= sample e -> level x = value ->
      level (x - 1) = value).
    { intros x Hx Hv. destruct (Z.eq_dec x (sample e)) as [->|]; [congruence|].
      rewrite <- Hv. rewrite (Hc x), (Hc (x - 1)) by lia. done. }
    destruct r as [e'|].
    + destruct Hr as (H1 & H2 & H3 & H4). split; [lia|]. split; [done|]. split; [done|].
      intros x Hx Hv. destruct (Z.le_gt_cases x (sample e)); [apply Hfront|apply H4]; lia || done.
    + intros x Hx Hv. destruct (Z.le_gt_cases x (sample e)); [apply Hfront|apply Hr]; lia || done.
Qed.

(** *** The transitions of a level *)

(** The positions behind [p] and in front of [limit]. *)
Definition positions (p limit : Z) : list Z :=
  map (fun i => p + 1 + Z.of_nat i) (seq 0 (Z.to_nat (limit - p - 1))).

Definition changes_at (level : Z -> bool) (x : Z) : bool := negb (Bool.eqb (level x) (level (x - 1))).

Definition transitions_in (level : Z -> bool) (p limit : Z) : list CaptureTransition :=
  map (fun x => mkTransition x (level x)) (List.filter (changes_at level) (positions p limit)).

Lemma positions_In p limit x : In x (positions p limit) <-> p < x < limit.
Proof.
  unfold positions. rewrite in_map_iff. setoid_rewrite in_seq. split.
  - intros (i & <- & Hi). lia.
  - intros Hx. exists (Z.to_nat (x - p - 1)). lia.
Qed.

Lemma positions_nil p limit : limit <= p + 1 -> positions p limit = [].
Proof. intros H. unfold positions. by replace (Z.to_nat _) with O by lia. Qed.

Lemma seq_from k n : seq k n = map (fun i => (k + i)%nat) (seq 0 n).
Proof.
  induction k as [|k IH]; [by rewrite map_id|]. rewrite <- seq_shift, IH, map_map. done.
Qed.

Lemma positions_split p x limit :
  p < x < limit -> positions p limit = positions p x ++ x :: positions x limit.
Proof.
  intros H. unfold positions.
  replace (Z.to_nat (limit - p - 1)) with (Z.to_nat (x - p - 1) + S (Z.to_nat (limit - x - 1)))%nat by lia.
  rewrite seq_app, map_app. f_equal. cbn [seq map]. f_equal; [lia|].
  rewrite seq_from, map_map. apply map_ext. intros i. lia.
Qed.

Lemma filter_changes_none level p limit :
  (forall x, p <= x < limit -> level x = level p) ->
  List.filter (changes_at level) (positions p limit) = [].
Proof.
  intros H. destruct (List.filter _ _) as [|x l] eqn:Hf; [done|]. exfalso.
  assert (Hin : In x (List.filter (changes_at level) (positions p limit))) by (rewrite Hf; by left).
  apply filter_In in Hin as [Hx%positions_In Hc]. unfold changes_at in Hc.
  rewrite (H x), (H (x - 1)) in Hc by lia. by rewrite Bool.eqb_reflx in Hc.
Qed.

Lemma transitions_in_step level p limit r :
  first_change level p limit r ->
  transitions_in level p limit =
    match r with Some e => e :: transitions_in level (sample e) limit | None => [] end.
Proof.
  unfold transitions_in. destruct r as [[x v]|]; cbn.
  - intros (Hx & -> & Hne & Hc). rewrite (positions_split p x) by done.
    rewrite List.filter_app, filter_changes_none by done. cbn.
    replace (changes_at level x) with true; [done|]. unfold changes_at. rewrite (Hc (x - 1)) by lia.
    destruct (Bool.eqb _ _) eqn:He; [|done]. by apply eqb_prop in He.
  - intros Hc. by rewrite filter_changes_none.
Qed.

(** The default [next_edges] gives the first transitions of the level. *)
Lemma next_edges_spec q level p limit n `{!Answers q level} :
  0 <= p -> limit <= total_samples q ->
  next_edges q p limit n = Ok (take n (transitions_in level p limit)).
Proof.
  intros Hp Hl. revert p Hp. induction n as [|n IH]; intros p Hp; [done|]. cbn [next_edges].
  destruct (answers_edge p limit Hp Hl) as (r & -> & Hr).
  rewrite (transitions_in_step _ _ _ _ Hr). destruct r as [e|]; [|done].
  rewrite IH by (cbn in Hr; lia). done.
Qed.

Lemma values_at_spec q level ps `{!Answers q level} :
  (forall p, In p ps -> 0 <= p < total_samples q) -> values_at q ps = Ok (map level ps).
Proof.
  intros H. induction ps as [|p ps IH]; [done|]. cbn [values_at map].
  rewrite answers_value by (apply H; by left). by rewrite IH by (intros x Hx; apply H; by right).
Qed.

(** ** Scaled inputs *)

(** An input of a gate with its level, and the ratio [up / down] of its rate to the gate's. *)
Record View := mkView { view_query : EdgeQuery; view_level : Z -> bool; up : Z; down : Z }.

(** The level of the input at a position of the gate. *)
Definition viewed (v : View) (p : Z) : bool := view_level v (p * up v / down v).

(** The input answers its queries, it lasts for [total] positions of the gate, whose rate is
    [rate], and over them the float arithmetic of the two scalings is exact. *)
Record InTime (rate : f64) (total : Z) (v : View) : Prop := {
  time_answers : Answers (view_query v) (view_level v);
  time_up : 0 < up v;
  time_down : 0 < down v;
  time_lasts : total * up v <= total_samples (view_query v) * down v;
  time_floor p : 0 <= p <= total ->
    scale_floor p (samplerate_hz (view_query v)) rate = p * up v / down v;
  time_ceil p : 0 <= p <= total ->
    scale_ceil p (samplerate_hz (view_query v)) rate = div_ceil (p * up v) (down v);
  time_back e : 0 <= e <= div_ceil (total * up v) (down v) ->
    scale_ceil e rate (samplerate_hz (view_query v)) = div_ceil (e * down v) (up v)
}.

(** Rounding down and up are adjoint. *)
Lemma div_ceil_below a b p : 0 < b -> div_ceil a b <= p <-> a <= p * b.
Proof.
  intros Hb. unfold div_ceil. split; intros H.
  - pose proof (Z.mul_succ_div_gt (a + b - 1) b Hb). nia.
  - apply Z.lt_succ_r, Z.div_lt_upper_bound; lia.
Qed.

Lemma le_div a b p : 0 < b -> p <= a / b <-> p * b <= a.
Proof.
  intros Hb. split; intros H.
  - pose proof (Z.mul_div_le a b Hb). nia.
  - apply Z.div_le_lower_bound; lia.
Qed.

Section Scaled.
Context (g : LogicGateEdgeQuery) (v : View).
Hypothesis Ht : InTime (gate_samplerate_hz g) (gate_total_samples g) v.

Lemma viewed_before e p y : p * up v / down v < e -> y < div_ceil (e * down v) (up v) ->
  p <= y -> p * up v / down v <= y * up v / down v < e.
Proof.
  destruct Ht as [_ Hu Hd _ _ _ _]. intros He Hy Hpy. split.
  - apply Z.div_le_mono; nia.
  - apply Z.nle_gt. rewrite le_div by done. pose proof (div_ceil_below (e * down v) (up v) y Hu). lia.
Qed.

(** Behind the limit nothing is returned. *)
Lemma input_loop_behind fuel ip il position limit :
  0 <= ip -> il <= total_samples (view_query v) ->
  il <= div_ceil (gate_total_samples g * up v) (down v) ->
  limit <= div_ceil (ip * down v) (up v) -> (Z.to_nat (il - ip) < fuel)%nat ->
  input_position_loop g fuel (view_query v) ip il position limit = Some (Ok None).
Proof.
  destruct Ht as [Ha Hu Hd _ _ _ Hb].
  revert ip. induction fuel as [|fuel IH]; intros ip Hip Hil Hcap Hlim Hf; [lia|].
  cbn [input_position_loop]. destruct (answers_edge ip il Hip Hil) as (r & -> & Hr).
  destruct r as [e|]; [|done]. destruct Hr as [He _]. rewrite Hb by lia.
  assert (limit <= div_ceil (sample e * down v) (up v)).
  { etrans; [exact Hlim|]. apply Z.div_le_mono; nia. }
  rewrite (proj2 (Z.ltb_ge _ limit)) by done. rewrite andb_false_r. apply IH; lia || done.
Qed.

Lemma next_input_position_spec position limit :
  0 <= position < limit -> limit <= gate_total_samples g ->
  exists r, next_input_position g (view_query v) position limit = Some (Ok r) /\
    match r with
    | Some x => position < x < limit /\
        (forall y, position <= y < x -> viewed v y = viewed v position)
    | None => forall y, position <= y < limit -> viewed v y = viewed v position
    end.
Proof.
  pose proof Ht as [Ha Hu Hd Hlast Hfl Hce Hb]. intros Hp Hl. unfold next_input_position.
  rewrite Hfl, Hce by lia.
  set (ip := position * up v / down v). set (il := Z.min _ _).
  assert (Hip : 0 <= ip) by (apply Z.div_pos; nia).
  assert (Hil : il <= total_samples (view_query v)) by (unfold il; lia).
  assert (Hcap : il <= div_ceil (gate_total_samples g * up v) (down v)).
  { unfold il. transitivity (div_ceil (limit * up v) (down v)); [lia|]. apply Z.div_le_mono; nia. }
  cbn [input_position_loop]. destruct (answers_edge ip il Hip Hil) as (r & -> & Hr).
  destruct r as [e|]; cbn in Hr.
  - destruct Hr as (He & _ & _ & Hc). rewrite Hb by lia.
    assert (Hbehind : position < div_ceil (sample e * down v) (up v)).
    { apply Z.nle_gt. rewrite div_ceil_below by done. intros H. rewrite <- le_div in H by done.
      fold ip in H. lia. }
    rewrite (proj2 (Z.ltb_lt _ _) Hbehind). cbn [andb].
    destruct (Z.ltb_spec (div_ceil (sample e * down v) (up v)) limit) as [Hlt|Hge].
    + eexists. split; [done|]. split; [lia|]. intros y Hy. apply Hc.
      apply viewed_before; lia.
    + exists None. split; [apply input_loop_behind; lia|]. intros y Hy. apply Hc.
      apply viewed_before; lia.
  - exists None. split; [done|]. intros y Hy. apply Hr. split; [apply Z.div_le_mono; nia|].
    unfold il. apply Z.min_glb_lt.
    + apply Z.nle_gt. rewrite div_ceil_below by done.
      pose proof (Z.mul_succ_div_gt (y * up v) (down v) Hd).
      pose proof (Z.mul_div_le (y * up v) (down v) Hd). nia.
    + apply Z.div_lt_upper_bound; nia.
Qed.
End Scaled.

(** ** Levels that can matter *)

Lemma indices_from_In p i n levels :
  In i (indices_from p n levels) <-> exists j l, i = (n + j)%nat /\ levels !! j = Some l /\ p l = true.
Proof.
  revert n. induction levels as [|l levels IH]; intros n; cbn [indices_from].
  { split; [done|]. by intros (j & l & _ & H & _). }
  rewrite in_app_iff, IH. split.
  - intros [H|(j & x & -> & H & Hp)].
    + destruct (p l) eqn:Hp; [|done]. destruct H as [<-|[]]. exists O, l. split_and!; [lia|done..].
    + exists (S j), x. split_and!; [lia|done..].
  - intros ([|j] & x & -> & H & Hp); [injection H as ->; rewrite Hp; left; left; lia|].
    right. exists j, x. split_and!; [lia|done..].
Qed.

Lemma forallb_false_lookup l i : l !! i = Some false -> forallb id l = false.
Proof.
  intros H. apply not_true_iff_false. rewrite forallb_forall. intros Hall.
  specialize (Hall false). apply list_elem_of_lookup_2, list_elem_of_In, Hall in H. done.
Qed.

Lemma existsb_true_lookup l i : l !! i = Some true -> existsb id l = true.
Proof.
  intros H. apply existsb_exists. exists true. split; [|done].
  by apply list_elem_of_lookup_2, list_elem_of_In in H.
Qed.

(** The output depends on no other input than those listed, as long as these keep their level. *)
Lemma unlisted_inputs_idle g ls ls' :
  length ls' = length ls ->
  (forall i, In i (inputs_that_can_change_output g ls) -> ls' !! i = ls !! i) ->
  combine (gate_op g) ls' = combine (gate_op g) ls.
Proof.
  intros Hlen Hsame.
  assert (Hall : (forall i, In i (indices_from (fun _ => true) 0 ls) -> ls' !! i = ls !! i) -> ls' = ls).
  { intros H. apply list_eq. intros i. destruct (ls !! i) as [l|] eqn:Hl.
    - rewrite H; [done|]. apply indices_from_In. by exists i, l.
    - apply lookup_ge_None in Hl. apply lookup_ge_None. lia. }
  assert (Hlow : forallb id ls = false ->
    (forall i, In i (indices_from negb 0 ls) -> ls' !! i = ls !! i) -> forallb id ls' = false).
  { intros Hf H. apply not_true_iff_false in Hf. rewrite forallb_forall in Hf.
    destruct (existsb negb ls) eqn:He.
    - apply existsb_exists in He as ([] & Hin & [=]).
      apply list_elem_of_In, list_elem_of_lookup in Hin as [i Hi].
      apply (forallb_false_lookup _ i). rewrite H; [done|]. apply indices_from_In. by exists i, false.
    - destruct Hf. intros [] Hx; [done|]. apply not_true_iff_false in He. destruct He.
      apply existsb_exists. by exists false. }
  assert (Hhigh : existsb id ls = true ->
    (forall i, In i (indices_from id 0 ls) -> ls' !! i = ls !! i) -> existsb id ls' = true).
  { intros Hf H. apply existsb_exists in Hf as ([] & Hin & [=]).
    apply list_elem_of_In, list_elem_of_lookup in Hin as [i Hi].
    apply (existsb_true_lookup _ i). rewrite H; [done|]. apply indices_from_In. by exists i, true. }
  unfold inputs_that_can_change_output in Hsame. unfold combine. destruct (gate_op g).
  1, 6, 7: by rewrite (Hall Hsame).
  1, 2: destruct (forallb id ls) eqn:Hf; cbn in Hsame;
    [by rewrite (Hall Hsame), Hf|by rewrite (Hlow eq_refl Hsame)].
  all: destruct (existsb id ls) eqn:Hf; cbn in Hsame;
    [by rewrite (Hhigh eq_refl Hsame)|by rewrite (Hall Hsame), Hf].
Qed.

Lemma minimum_spec x l : In (minimum x l) (x :: l) /\ (forall y, In y (x :: l) -> minimum x l <= y).
Proof.
  revert x. induction l as [|z l IH]; intros x; cbn [minimum]; [split; [by left|]; by intros y [<-|[]]|].
  destruct (IH (Z.min x z)) as [H1 H2]. split.
  - destruct H1 as [H|H]; [|by right; right]. rewrite <- H. destruct (Z.min_spec x z) as [[_ ->]|[_ ->]];
      [by left|right; by left].
  - intros y Hy. assert (Hm := H2 (Z.min x z) (or_introl eq_refl)).
    destruct Hy as [<-|[<-|Hy]]; [lia..|]. apply H2. by right.
Qed.

(** ** The composed query *)

Section Composed.
Context (g : LogicGateEdgeQuery) (views : list View).
Hypothesis Hinputs : gate_query_inputs g = map view_query views.
Hypothesis Hviews : Forall (InTime (gate_samplerate_hz g) (gate_total_samples g)) views.

(** The levels of the inputs, and the output, at a position of the gate. *)
Definition levels_at (p : Z) : list bool := map (fun v => viewed v p) views.
Definition gate_level_at (p : Z) : bool := combine (gate_op g) (levels_at p).

Lemma input_levels_spec p :
  0 <= p < gate_total_samples g -> input_levels g p = Ok (levels_at p).
Proof.
  intros Hp. unfold input_levels, levels_at. rewrite Hinputs. clear Hinputs.
  induction Hviews as [|v vs [Ha Hu Hd Hlast Hfl _ _] Hvs IH]; [done|]. cbn [map collect].
  rewrite Hfl by lia. rewrite answers_value; [by rewrite IH|].
  split; [apply Z.div_pos; nia|apply Z.div_lt_upper_bound; nia].
Qed.

Lemma next_positions_spec indices p limit :
  (forall i, In i indices -> (i < length views)%nat) ->
  0 <= p < limit -> limit <= gate_total_samples g ->
  exists xs, next_positions g indices p limit = Some (Ok xs) /\
    (forall x, In x xs -> p < x < limit) /\
    (forall y i, p <= y < limit -> (forall x, In x xs -> y < x) -> In i indices ->
      levels_at y !! i = levels_at p !! i).
Proof.
  intros Hi Hp Hl. induction indices as [|i indices IH]; cbn [next_positions].
  { exists []. split; [done|]. split; [done|]. intros y i _ _ []. }
  destruct IH as (xs & -> & Hxs & Hsame); [intros j Hj; apply Hi; by right|].
  destruct (lookup_lt_is_Some_2 views i) as [v Hv]; [apply Hi; by left|].
  rewrite Hinputs, list_lookup_fmap, Hv. cbn [fmap option_fmap option_map].
  pose proof (proj1 (Forall_lookup _ _) Hviews i v Hv) as Ht.
  destruct (next_input_position_spec g v Ht p limit Hp Hl) as (r & -> & Hr).
  assert (Hat : forall y, levels_at y !! i = Some (viewed v y)).
  { intros y. unfold levels_at. by rewrite list_lookup_fmap, Hv. }
  destruct r as [x|].
  - destruct Hr as [Hx Hc]. exists (x :: xs). split; [done|]. split.
    + intros z [<-|Hz]; [lia|by apply Hxs].
    + intros y j Hy Hb [<-|Hj].
      * rewrite !Hat. f_equal. apply Hc. split; [lia|]. apply Hb. by left.
      * apply Hsame; [done| |done]. intros z Hz. apply Hb. by right.
  - exists xs. split; [done|]. split; [done|]. intros y j Hy Hb [<-|Hj]; [|by apply Hsame].
    rewrite !Hat. f_equal. by apply Hr.
Qed.

Lemma inputs_listed levels i :
  In i (inputs_that_can_change_output g levels) -> (i < length levels)%nat.
Proof.
  assert (H : forall p, In i (indices_from p 0 levels) -> (i < length levels)%nat).
  { intros p (j & l & -> & Hl & _)%indices_from_In. by apply lookup_lt_Some in Hl. }
  unfold inputs_that_can_change_output. destruct (gate_op g); try apply H;
    by case_match; apply H.
Qed.

Lemma gate_edge_loop_spec fuel p limit :
  0 <= p -> limit <= gate_total_samples g -> (Z.to_nat (limit - p) < fuel)%nat ->
  exists r, gate_edge_loop g fuel p limit = Some (Ok r) /\ first_change gate_level_at p limit r.
Proof.
  revert p. induction fuel as [|fuel IH]; intros p Hp Hl Hf; [lia|]. cbn [gate_edge_loop].
  destruct (Z.ltb_spec p limit) as [Hlt|Hge]; cbn [negb].
  2: { exists None. split; [done|]. intros x Hx. lia. }
  rewrite input_levels_spec by lia.
  destruct (next_positions_spec (inputs_that_can_change_output g (levels_at p)) p limit)
    as (xs & -> & Hxs & Hsame); [|lia..|].
  { intros i Hi%inputs_listed. unfold levels_at in Hi. by rewrite length_map in Hi. }
  assert (Hconst : forall y, p <= y < limit -> (forall x, In x xs -> y < x) ->
    gate_level_at y = gate_level_at p).
  { intros y Hy Hb. apply unlisted_inputs_idle.
    - unfold levels_at. by rewrite !length_map.
    - intros i Hi. by apply Hsame. }
  destruct xs as [|x0 xs].
  { exists None. split; [done|]. intros y Hy. by apply Hconst. }
  destruct (minimum_spec x0 xs) as [Hin Hmin]. set (next := minimum x0 xs) in *.
  specialize (Hxs next Hin). unfold combined_value. rewrite input_levels_spec by lia.
  fold (gate_level_at next) (gate_level_at p).
  assert (Hfront : forall y, p <= y < next -> gate_level_at y = gate_level_at p).
  { intros y Hy. apply Hconst; [lia|]. intros x Hx. specialize (Hmin x Hx). lia. }
  destruct (Bool.eqb (gate_level_at next) (gate_level_at p)) eqn:He; cbn [negb].
  - apply eqb_prop in He. destruct (IH next) as (r & -> & Hr); [lia..|]. exists r. split; [done|].
    assert (Hto : forall y, p <= y <= next -> gate_level_at y = gate_level_at p).
    { intros y Hy. destruct (Z.eq_dec y next) as [->|]; [done|]. apply Hfront. lia. }
    destruct r as [e|]; cbn in *.
    + destruct Hr as (H1 & H2 & H3 & H4). rewrite He in H3, H4. split; [lia|]. split; [done|].
      split; [done|]. intros y Hy. destruct (Z.le_gt_cases y next); [apply Hto|apply H4]; lia.
    + intros y Hy. destruct (Z.le_gt_cases y next); [apply Hto; lia|]. rewrite <- He. apply Hr. lia.
  - apply eqb_false_iff in He. eexists. split; [done|]. cbn. split; [lia|]. by split.
Qed.

#[export] Instance gate_query_is_query : Answers (gate_query g) gate_level_at.
Proof.
  constructor; cbn [gate_query total_samples query_value_at query_next_edge].
  - intros p Hp. unfold combined_value. by rewrite input_levels_spec.
  - intros p limit Hp Hl. unfold gate_next_edge.
    destruct (gate_edge_loop_spec (S (Z.to_nat (limit - p))) p limit) as (r & -> & Hr); [lia..|].
    by exists r.
Qed.
End Composed.

(** C12. The query a gate composes of its inputs' queries is an edge query of the gate's output:
    it reads at every position the operation applied to the levels of the inputs there, and its
    search returns the first position where that changes, whatever edges of the inputs cancel or
    cannot matter, and returns none only if there is none.  The inputs may have different rates,
    and be composed themselves; float arithmetic has to scale their positions exactly. *)
Theorem gate_query_answers op inputs g views :
  LogicGateEdgeQuery_new op inputs = Some g ->
  inputs = map view_query views ->
  Forall (InTime (gate_samplerate_hz g) (gate_total_samples g)) views ->
  Answers (gate_query g) (fun p => combine op (map (fun v => viewed v p) views)).
Proof.
  intros Hnew -> Hv. pose proof Hnew as Hg. unfold LogicGateEdgeQuery_new in Hg.
  destruct (map view_query views) as [|first rest] eqn:Hm; [done|].
  assert (Hop : gate_op g = op) by (by injection Hg as <-).
  assert (Hin : gate_query_inputs g = map view_query views) by (injection Hg as <-; by rewrite Hm).
  rewrite <- Hop. by apply gate_query_is_query.
Qed.

(** *** Deciding the premise *)

Definition all_upto (n : Z) (p : Z -> bool) : bool :=
  forallb (fun i => p (Z.of_nat i)) (seq 0 (S (Z.to_nat n))).

Lemma all_upto_spec n p : all_upto n p = true -> forall i, 0 <= i <= n -> p i = true.
Proof.
  unfold all_upto. rewrite forallb_forall. intros H i Hi. rewrite <- (Z2Nat.id i) by lia.
  apply H, in_seq. lia.
Qed.

Definition in_timeb (rate : f64) (total : Z) (v : View) : bool :=
  let rate' := samplerate_hz (view_query v) in
  (0 <? up v) && (0 <? down v) && (total * up v <=? total_samples (view_query v) * down v) &&
  all_upto total (fun p => (scale_floor p rate' rate =? p * up v / down v) &&
    (scale_ceil p rate' rate =? div_ceil (p * up v) (down v))) &&
  all_upto (div_ceil (total * up v) (down v))
    (fun e => scale_ceil e rate rate' =? div_ceil (e * down v) (up v)).

Lemma in_timeb_spec rate total v :
  Answers (view_query v) (view_level v) -> in_timeb rate total v = true -> InTime rate total v.
Proof.
  intros Ha. unfold in_timeb.
  rewrite !andb_true_iff, !Z.ltb_lt, Z.leb_le. intros [[[[Hu Hd] Hl] Hf] Hb].
  pose proof (all_upto_spec _ _ Hf) as Hf'. pose proof (all_upto_spec _ _ Hb) as Hb'.
  constructor; try done.
  - intros p Hp. specialize (Hf' p Hp). rewrite andb_true_iff, !Z.eqb_eq in Hf'. apply Hf'.
  - intros p Hp. specialize (Hf' p Hp). rewrite andb_true_iff, !Z.eqb_eq in Hf'. apply Hf'.
  - intros e He. apply Z.eqb_eq. by apply Hb'.
Qed.

(** A channel of ten samples at 50 MHz and a level recorded by a node, at 1 GHz. *)
Definition raw_transitions : list CaptureTransition :=
  [mkTransition 0 false; mkTransition 1 true; mkTransition 4 false].

Definition raw_query : EdgeQuery :=
  mkQuery (f64_of_Z 50000000) 10
    (query_value_at (recorded_query raw_transitions)) (query_next_edge (recorded_query raw_transitions)).

Definition control_transitions : RecordedEdgeQuery :=
  record (record (RecordedEdgeQuery_new false) 40 true) 60 false.

Lemma gate_query_answers_witness :
  exists g, LogicGateEdgeQuery_new And [raw_query; recorded_query control_transitions] = Some g /\
    query_next_edge (gate_query g) 0 10 = Ok (Some (mkTransition 2 true)) /\
    query_next_edge (gate_query g) 2 10 = Ok (Some (mkTransition 3 false)) /\
    Answers (gate_query g) (fun p =>
      forallb id [from_option id false (value_at raw_transitions (p * 1 / 1));
                  from_option id false (value_at control_transitions (p * 20 / 1))]).
Proof.
  eexists. split; [reflexivity|]. split; [vm_compute; reflexivity|].
  split; [vm_compute; reflexivity|].
  assert (Hr : Answers (recorded_query raw_transitions) (fun p => from_option id false (value_at raw_transitions p))).
  { apply recorded_query_answers. cbn. auto with lia. }
  apply (gate_query_answers And [raw_query; recorded_query control_transitions] _
    [mkView raw_query (fun p => from_option id false (value_at raw_transitions p)) 1 1;
     mkView (recorded_query control_transitions)
       (fun p => from_option id false (value_at control_transitions p)) 20 1]);
    [reflexivity|reflexivity|].
  constructor; [|constructor; [|constructor]]; apply in_timeb_spec; try (vm_compute; reflexivity).
  - assert (Hn : total_samples raw_query <= total_samples (recorded_query raw_transitions))
      by (vm_compute; discriminate).
    constructor; [intros p [Hp Hl]|intros p limit Hp Hl]; cbn [view_query] in Hl; apply Hr; lia.
  - apply recorded_query_answers. vm_compute. auto.
Defined.

(** Between equal rates the float arithmetic is not the identity on large positions: of two equal
    levels recorded at 1 GHz that rise at 4612449605 ns and fall 100 ns later the conjunction, as
    the composed query tells it, rises when they fall and never falls. *)
Lemma equal_rates_lose_edges :
  let level :=
    record (record (RecordedEdgeQuery_new false) 4612449605 true) 4612449705 false in
  exists g, LogicGateEdgeQuery_new And [recorded_query level; recorded_query level] = Some g /\
    next_edges (recorded_query level) 4612449600 4612449800 3 =
      Ok [mkTransition 4612449605 true; mkTransition 4612449705 false] /\
    next_edges (gate_query g) 4612449600 4612449800 3 = Ok [mkTransition 4612449705 true].
Proof. eexists. split; [reflexivity|]. split; vm_compute; reflexivity. Qed.
