(* ===== verification/LevelNodes.v ===== *)
(** The nodes of [crates/signal_transforms] that produce or consume levels: the set/reset latch
    with its recorded query, the edge detector and the event counter; and the buffering relay. *)

From S2P Require Import Prelude Events Runtime EventNodes RecordedQuery.

(** ** Set/reset latch *)

(** The two heads and end-of-stream flags, with the two input buffers, are the two lanes.
    [crates/signal_transforms/src/sr_latch/latch.rs:23-34] SrLatch *)
Record SrLatch := mkSrLatch {
  initial : bool;
  state : bool;
  started : bool;
  last_emit_ts : Z;
  set_lane : Lane TimestampEvent;
  reset_lane : Lane TimestampEvent;
  edge_query : RecordedEdgeQuery;
  q_output : option (Sender Sample)
}.

Definition set_q_output o l := mkSrLatch (initial l) (state l) (started l) (last_emit_ts l)
  (set_lane l) (reset_lane l) (edge_query l) o.
Definition set_set_lane x l := mkSrLatch (initial l) (state l) (started l) (last_emit_ts l)
  x (reset_lane l) (edge_query l) (q_output l).
Definition set_reset_lane x l := mkSrLatch (initial l) (state l) (started l) (last_emit_ts l)
  (set_lane l) x (edge_query l) (q_output l).
Definition set_started l := mkSrLatch (initial l) (initial l) true (last_emit_ts l)
  (set_lane l) (reset_lane l) (edge_query l) (q_output l).
Definition set_latched new_state ts l := mkSrLatch (initial l) new_state (started l) ts
  (set_lane l) (reset_lane l) (record (edge_query l) ts new_state) (q_output l).

(** [crates/signal_transforms/src/sr_latch/latch.rs:37-54] SrLatch::new *)
Definition SrLatch_new (initial : bool) set reset output : SrLatch :=
  mkSrLatch initial initial false 0 (fresh_lane set) (fresh_lane reset)
    (RecordedEdgeQuery_new initial) output.

(** Both ports are looked up before either is received from.
    [crates/signal_transforms/src/sr_latch/latch.rs:138-147] SrLatch::work (heads) *)
Definition latch_fill (l : SrLatch) : WorkResult unit * SrLatch :=
  match lane_port (set_lane l), lane_port (reset_lane l) with
  | Some _, Some _ =>
      let! _, l := zoom set_lane set_set_lane (fill "Missing set/reset input") l in
      zoom reset_lane set_reset_lane (fill "Missing set/reset input") l
  | _, _ => (Err (NodeError "Missing set/reset input"), l)
  end.

(** The index and event of the smallest (timestamp, index) among the heads.
    [crates/signal_transforms/src/sr_latch/latch.rs:151-159] SrLatch::work (next) *)
Definition latch_next (l : SrLatch) : option (bool * TimestampEvent) :=
  match head (set_lane l), head (reset_lane l) with
  | Some s, Some r => if event_ns s <=? event_ns r then Some (true, s) else Some (false, r)
  | Some s, None => Some (true, s)
  | None, Some r => Some (false, r)
  | None, None => None
  end.

(** [heads[index] = None]; [true] is the set input, index 0.
    [crates/signal_transforms/src/sr_latch/latch.rs:160-160] SrLatch::work (take) *)
Definition latch_take (new_state : bool) (l : SrLatch) : SrLatch :=
  if new_state then set_set_lane (drop_head (set_lane l)) l
  else set_reset_lane (drop_head (reset_lane l)) l.

(** [crates/signal_transforms/src/sr_latch/latch.rs:162-182] SrLatch::work (apply) *)
Definition latch_apply (new_state : bool) (event : TimestampEvent) (l : SrLatch)
  : WorkResult Z * SrLatch :=
  if Bool.eqb new_state (state l) then (Ok 0, l)
  else
    let ts := event_ns event in
    let ts := if ts <? last_emit_ts l then last_emit_ts l else ts in
    let l := set_latched new_state ts l in
    let! _, l := zoom q_output set_q_output
      (fun o => emit "Missing q output" o (mkSample (state l) ts)) l in
    (Ok 1, l).

(** [crates/signal_transforms/src/sr_latch/latch.rs:119-123] SrLatch::work (start) *)
Definition latch_start (l : SrLatch) : WorkResult unit * SrLatch :=
  if started l then (Ok tt, l)
  else
    let l := set_started l in
    zoom q_output set_q_output (fun o => emit "Missing q output" o (mkSample (state l) 0)) l.

(** [crates/signal_transforms/src/sr_latch/latch.rs:113-183] SrLatch::work *)
Definition latch_work (l : SrLatch) : WorkResult Z * SrLatch :=
  match q_output l with
  | None => (Err (NodeError "Missing q output"), l)
  | Some _ =>
      let! _, l := latch_start l in
      let! _, l := latch_fill l in
      match latch_next l with
      | None => (Err Shutdown, l)
      | Some (new_state, event) => latch_apply new_state event (latch_take new_state l)
      end
  end.

(** *** What the latch means *)

(** The time of the last event at or before [t], of a time-ordered stream. *)
Fixpoint last_at (events : list TimestampEvent) (t : Z) : option Z :=
  match events with
  | [] => None
  | e :: events =>
      match last_at events t with
      | Some a => Some a
      | None => if event_ns e <=? t then Some (event_ns e) else None
      end
  end.

(** Set when the last set is later than the last reset; a tie is a reset. *)
Definition latch_at (initial : bool) (sets resets : list TimestampEvent) (t : Z) : bool :=
  match last_at sets t, last_at resets t with
  | None, None => initial
  | Some _, None => true
  | None, Some _ => false
  | Some a, Some b => b <? a
  end.

(** The merge of the two inputs, sets first at ties. *)
Fixpoint merge_events (sets : list TimestampEvent) : list TimestampEvent -> list (bool * Z) :=
  fix merge_resets resets :=
    match sets, resets with
    | [], _ => map (fun r => (false, event_ns r)) resets
    | _, [] => map (fun s => (true, event_ns s)) sets
    | s :: sets', r :: resets' =>
        if event_ns s <=? event_ns r then (true, event_ns s) :: merge_events sets' resets
        else (false, event_ns r) :: merge_resets resets'
    end.

(** The transitions of a merged stream. *)
Fixpoint transitions (state : bool) (merged : list (bool * Z)) : list Sample :=
  match merged with
  | [] => []
  | (new_state, t) :: merged =>
      if Bool.eqb new_state state then transitions state merged
      else mkSample new_state t :: transitions new_state merged
  end.

Definition merged_level (state : bool) (merged : list (bool * Z)) (t : Z) : bool :=
  fold_left (fun l '(s, u) => if u <=? t then s else l) merged state.

Lemma transitions_In state merged s :
  In s (transitions state merged) -> In (level s, start_time_ns s) merged.
Proof.
  revert state. induction merged as [|[b u] merged IH]; intros state; [done|]. simpl.
  destruct (Bool.eqb b state); [right; eauto|]. intros [<-|H]; [by left|right; eauto].
Qed.

Lemma merged_level_later state merged t :
  (forall x, In x merged -> t < snd x) -> merged_level state merged t = state.
Proof.
  unfold merged_level. revert state. induction merged as [|[b u] merged IH]; intros state H; [done|].
  cbn [fold_left]. rewrite (proj2 (Z.leb_gt _ _)) by (apply (H (b, u)); by left).
  apply IH. intros x Hx. apply H. by right.
Qed.

Lemma transitions_level state merged t :
  ascending snd merged ->
  bool_level_at state (transitions state merged) t = merged_level state merged t.
Proof.
  revert state. induction merged as [|[b u] merged IH]; intros state Hs; [done|].
  apply ascending_cons in Hs as [Hle Hs]. cbn [transitions].
  unfold merged_level. cbn [fold_left]. fold (merged_level (if u <=? t then b else state) merged t).
  destruct (Bool.eqb b state) eqn:He.
  - apply eqb_prop in He as ->. rewrite IH by done. by destruct (u <=? t).
  - rewrite bool_level_at_cons. cbn [start_time_ns level].
    destruct (Z.leb_spec u t); [by apply IH|].
    rewrite bool_level_at_later, merged_level_later; [done| |].
    + intros x Hx. specialize (Hle x Hx). simpl in Hle. lia.
    + intros x Hx. apply transitions_In in Hx. specialize (Hle _ Hx). simpl in Hle. lia.
Qed.

Lemma last_at_In events t a :
  last_at events t = Some a -> exists e, In e events /\ event_ns e = a.
Proof.
  induction events as [|e events IH]; [done|]. simpl.
  destruct (last_at events t) as [b|].
  - intros [= ->]. destruct (IH eq_refl) as (x & ? & ?). eauto.
  - destruct (_ <=? _); [|done]. intros [= <-]. eauto.
Qed.

Lemma last_at_ge events t a b :
  (forall e, In e events -> b <= event_ns e) -> last_at events t = Some a -> b <= a.
Proof. intros H Ha. apply last_at_In in Ha as (e & He & <-). auto. Qed.

Lemma merge_events_nil_l resets : merge_events [] resets = map (fun r => (false, event_ns r)) resets.
Proof. by destruct resets. Qed.

Lemma merge_events_nil_r sets : merge_events sets [] = map (fun s => (true, event_ns s)) sets.
Proof. by destruct sets. Qed.

Lemma merge_events_cons s sets r resets :
  merge_events (s :: sets) (r :: resets) =
    if event_ns s <=? event_ns r then (true, event_ns s) :: merge_events sets (r :: resets)
    else (false, event_ns r) :: merge_events (s :: sets) resets.
Proof. done. Qed.

Lemma latch_at_set initial s sets resets t :
  (forall e, In e resets -> event_ns s <= event_ns e) ->
  latch_at (if event_ns s <=? t then true else initial) sets resets t =
  latch_at initial (s :: sets) resets t.
Proof.
  intros H. unfold latch_at. cbn [last_at]. destruct (last_at sets t) as [a|]; [done|].
  destruct (event_ns s <=? t); [|done]. destruct (last_at resets t) as [b|] eqn:Hb; [|done].
  apply (last_at_ge _ _ _ _ H) in Hb. by rewrite (proj2 (Z.ltb_ge _ _)) by lia.
Qed.

Lemma latch_at_reset initial r sets resets t :
  (forall e, In e sets -> event_ns r < event_ns e) ->
  latch_at (if event_ns r <=? t then false else initial) sets resets t =
  latch_at initial sets (r :: resets) t.
Proof.
  intros H. unfold latch_at. cbn [last_at]. destruct (last_at resets t) as [b|]; [done|].
  destruct (event_ns r <=? t); [|done]. destruct (last_at sets t) as [a|] eqn:Ha; [|done].
  apply (last_at_ge _ _ _ (event_ns r + 1)) in Ha; [|intros e He; specialize (H e He); lia].
  by rewrite (proj2 (Z.ltb_lt _ _)) by lia.
Qed.

Lemma latch_at_merge initial sets resets t :
  ascending event_ns sets -> ascending event_ns resets ->
  merged_level initial (merge_events sets resets) t = latch_at initial sets resets t.
Proof.
  revert initial resets. induction sets as [|s sets IHs]; intros initial resets Hs Hr.
  { revert initial. induction resets as [|r resets IHr]; intros initial; [done|].
    apply ascending_cons in Hr as [Hle Hr]. rewrite <- latch_at_reset by done.
    rewrite <- (IHr Hr). by rewrite !merge_events_nil_l. }
  revert initial. induction resets as [|r resets IHr]; intros initial.
  { apply ascending_cons in Hs as [Hle Hs]. rewrite <- latch_at_set by done.
    rewrite <- IHs by done. by rewrite !merge_events_nil_r. }
  pose proof Hs as [Hles Hss]%ascending_cons. pose proof Hr as [Hler Hrr]%ascending_cons.
  rewrite merge_events_cons. destruct (Z.leb_spec (event_ns s) (event_ns r)) as [H|H].
  - rewrite <- latch_at_set; [by rewrite <- IHs|].
    intros e [<-|He]; [done|]. specialize (Hler e He). lia.
  - rewrite <- latch_at_reset; [by rewrite <- (IHr Hrr)|].
    intros e [<-|He]; [done|]. specialize (Hles e He). lia.
Qed.

Lemma merge_events_In sets resets x :
  In x (merge_events sets resets) ->
  exists e, event_ns e = snd x /\ (In e sets \/ In e resets).
Proof.
  revert resets. induction sets as [|s sets IHs]; intros resets.
  { rewrite merge_events_nil_l. intros H. apply in_map_iff in H as (e & <- & He). eauto. }
  induction resets as [|r resets IHr].
  { rewrite merge_events_nil_r. intros H. apply in_map_iff in H as (e & <- & He). eauto. }
  rewrite merge_events_cons. destruct (_ <=? _); intros [<-|H].
  - exists s. simpl. auto.
  - apply IHs in H as (e & ? & [?|?]); exists e; simpl in *; auto.
  - exists r. simpl. auto.
  - apply IHr in H as (e & ? & [?|?]); exists e; simpl in *; auto.
Qed.

Lemma merge_events_ascending sets resets :
  ascending event_ns sets -> ascending event_ns resets ->
  ascending snd (merge_events sets resets).
Proof.
  revert resets. induction sets as [|s sets IHs]; intros resets Hs Hr.
  { rewrite merge_events_nil_l. induction resets as [|r resets IHr]; [done|].
    apply ascending_cons in Hr as [Hle Hr]. apply ascending_cons. split; [|by apply IHr].
    intros y Hy. apply in_map_iff in Hy as (e & <- & He). by apply Hle. }
  pose proof Hs as [Hles Hss]%ascending_cons.
  induction resets as [|r resets IHr].
  { specialize (IHs [] Hss Hr). rewrite merge_events_nil_r in *. apply ascending_cons.
    split; [|done]. intros y Hy. apply in_map_iff in Hy as (e & <- & He). by apply Hles. }
  pose proof Hr as [Hler Hrr]%ascending_cons.
  rewrite merge_events_cons. destruct (Z.leb_spec (event_ns s) (event_ns r)) as [H|H];
    apply ascending_cons; (split; [|by auto]); intros y Hy;
    apply merge_events_In in Hy as (e & <- & [He|He]); cbn [snd].
  - by apply Hles.
  - destruct He as [<-|He]; [done|]. specialize (Hler e He). lia.
  - destruct He as [<-|He]; [lia|]. specialize (Hles e He). lia.
  - by apply Hler.
Qed.

#[local] Arguments merge_events : simpl never.
#[local] Arguments transitions : simpl never.
#[local] Arguments record : simpl never.

Definition latch_merged (l : SrLatch) : list (bool * Z) :=
  merge_events (pending (set_lane l)) (pending (reset_lane l)).

Definition latch_due (l : SrLatch) : list Sample :=
  if started l then transitions (state l) (latch_merged l)
  else mkSample (initial l) 0 :: transitions (initial l) (latch_merged l).

(** The inputs are ordered and not earlier than the last transition; the recorded query answers
    what the samples sent since [base] say. *)
Definition latch_inv (i : nat) (base : list Sample) (init : bool) (l : SrLatch) : Prop :=
  initial l = init /\
  connected (set_lane l) /\ connected (reset_lane l) /\ plugged i (q_output l) /\
  ascending event_ns (pending (set_lane l)) /\ ascending event_ns (pending (reset_lane l)) /\
  (forall e, In e (pending (set_lane l)) -> last_emit_ts l <= event_ns e) /\
  (forall e, In e (pending (reset_lane l)) -> last_emit_ts l <= event_ns e) /\
  0 <= last_emit_ts l /\ query_ok (edge_query l) /\
  exists emitted, sent i (q_output l) = base ++ emitted /\
    (started l = false -> emitted = []) /\
    forall t, 0 <= t -> value_at (edge_query l) t = Some (bool_level_at init emitted t).

Lemma bool_level_at_snoc initial l s t :
  bool_level_at initial (l ++ [s]) t =
    if start_time_ns s <=? t then level s else bool_level_at initial l t.
Proof. unfold bool_level_at. by rewrite fold_left_app. Qed.

Lemma latch_fill_spec i base init l :
  latch_inv i base init l ->
  exists s r, latch_fill l = (Ok tt, set_reset_lane r (set_set_lane s l)) /\
    latch_inv i base init (set_reset_lane r (set_set_lane s l)) /\
    filled s /\ filled r /\ pending s = pending (set_lane l) /\ pending r = pending (reset_lane l).
Proof.
  destruct l as [i0 st0 go last s r q o]. intros (Hi & Hs & Hr & Hrest). unfold latch_fill. cbn in *.
  pose proof Hs as [ps Hps]. pose proof Hr as [pr Hpr].
  rewrite Hps, Hpr. unfold zoom. cbn. fill_lane Hs. cbn. fill_lane Hr. cbn.
  exists lane, lane0. split; [done|]. unfold latch_inv. cbn. rewrite Hp, Hp0. eauto 10.
Qed.

Lemma latch_apply_spec i base init new_state event l :
  latch_inv i base init l -> started l = true -> last_emit_ts l <= event_ns event ->
  (forall e, In e (pending (set_lane l)) -> event_ns event <= event_ns e) ->
  (forall e, In e (pending (reset_lane l)) -> event_ns event <= event_ns e) ->
  exists k l' emitted, latch_apply new_state event l = (Ok k, l') /\ latch_inv i base init l' /\
    set_lane l' = set_lane l /\ reset_lane l' = reset_lane l /\ started l' = true /\
    sent i (q_output l') = sent i (q_output l) ++ emitted /\
    forall merged, transitions (state l) ((new_state, event_ns event) :: merged) =
      emitted ++ transitions (state l') merged.
Proof.
  destruct l as [i0 st0 go last s r q o]. cbn. intros Hinv -> Hlast Hls Hlr.
  unfold latch_apply. unfold transitions at 1. fold transitions. cbn.
  destruct (Bool.eqb new_state st0) eqn:Heq.
  { eexists 0, _, (@nil Sample). split; [done|]. split; [done|]. by rewrite app_nil_r. }
  destruct Hinv as (Hi & Hs & Hr & Ho & Has & Har & H1 & H2 & H0 & Hq & em & Hem & _ & Hqe). cbn in *.
  destruct (emit_plugged i "Missing q output" o (mkSample new_state (event_ns event)) Ho)
    as (o' & He' & Ho' & Hsent).
  eexists 1, _, [mkSample new_state (event_ns event)]. unfold zoom. cbn.
  rewrite (proj2 (Z.ltb_ge _ _) Hlast), He'. cbn.
  split; [done|]. split; [|done].
  pose proof (fun p => record_level q (event_ns event) new_state p Hq ltac:(lia)) as Hrec.
  unfold latch_inv. cbn. split_and!; try done; [lia|apply (Hrec 0); lia|].
  exists (em ++ [mkSample new_state (event_ns event)]).
  rewrite Hsent, Hem, app_assoc. split; [done|]. split; [done|]. intros t Ht.
  destruct (Hrec t Ht) as [_ ->]. rewrite bool_level_at_snoc, Hqe, Z.leb_antisym by done.
  cbn. by destruct (_ <? _).
Qed.

Lemma latch_start_spec i base init l :
  latch_inv i base init l ->
  exists l' emitted,
    latch_start l = (Ok tt, l') /\
    latch_inv i base init l' /\ started l' = true /\
    set_lane l' = set_lane l /\ reset_lane l' = reset_lane l /\
    sent i (q_output l') = sent i (q_output l) ++ emitted /\
    latch_due l = emitted ++ transitions (state l') (latch_merged l').
Proof.
  intros Hinv. unfold latch_start. destruct l as [i0 st0 [|] last s r q o]; cbn.
  { eexists _, (@nil Sample). split; [done|]. by rewrite app_nil_r. }
  destruct Hinv as (Hi & Hs & Hr & Ho & Has & Har & H1 & H2 & H0 & Hq & em & Hem & Hno & Hqe). cbn in *.
  unfold zoom. cbn.
  destruct (emit_plugged i "Missing q output" o (mkSample i0 0) Ho) as (o' & -> & Ho' & Hsent).
  eexists _, [mkSample i0 0]. split; [done|]. split; [|by cbn].
  unfold latch_inv. cbn. split_and!; try done. exists (em ++ [mkSample i0 0]).
  rewrite Hsent, Hem, app_assoc. split; [done|]. split; [done|]. intros t Ht. rewrite Hqe by done.
  rewrite Hno by done. cbn. subst i0. by destruct (_ <=? _).
Qed.

Lemma latch_inv_take i base init (new_state : bool) l s r :
  latch_inv i base init l ->
  pending (if new_state then set_lane l else reset_lane l) = s :: r ->
  pending (drop_head (if new_state then set_lane l else reset_lane l)) = r ->
  latch_inv i base init (latch_take new_state l).
Proof.
  destruct l as [i0 st0 go last sl rl q o]. intros (Hi & Hs & Hr & Ho & Has & Har & H1 & H2 & Hrest).
  unfold latch_take, latch_inv. destruct new_state; cbn in *; intros Hp ->; rewrite Hp in *.
  - apply ascending_cons in Has as [_ Has]. split_and!; try apply Hrest; try done.
    intros e He. apply H1. by right.
  - apply ascending_cons in Har as [_ Har]. split_and!; try apply Hrest; try done.
    intros e He. apply H2. by right.
Qed.

(** The chosen event is the first of the merge, and no event still pending precedes it. *)
Lemma latch_next_spec i base init l :
  latch_inv i base init l -> filled (set_lane l) -> filled (reset_lane l) ->
  match latch_next l with
  | None => latch_merged l = []
  | Some (new_state, e) =>
      latch_inv i base init (latch_take new_state l) /\ last_emit_ts l <= event_ns e /\
      latch_merged l = (new_state, event_ns e) :: latch_merged (latch_take new_state l) /\
      (length (pending (set_lane (latch_take new_state l))) +
       length (pending (reset_lane (latch_take new_state l))) <
       length (pending (set_lane l)) + length (pending (reset_lane l)))%nat /\
      (forall x, In x (pending (set_lane (latch_take new_state l))) -> event_ns e <= event_ns x) /\
      (forall x, In x (pending (reset_lane (latch_take new_state l))) -> event_ns e <= event_ns x)
  end.
Proof.
  intros Hinv Hfs Hfr. pose proof (fun s r => latch_inv_take i base init true l s r Hinv) as Ht.
  pose proof (fun s r => latch_inv_take i base init false l s r Hinv) as Hf. cbn in Ht, Hf.
  destruct Hinv as (_ & _ & _ & _ & Has & Har & H1 & H2 & _).
  unfold latch_next, latch_merged, latch_take in *.
  destruct (filled_cases _ Hfs) as [(Hs & _ & Hhs)|(s & ss & Hs & Hhs & Hds)];
  destruct (filled_cases _ Hfr) as [(Hr & _ & Hhr)|(r & rr & Hr & Hhr & Hdr)];
    rewrite Hhs, Hhr, Hs, Hr in *; try (apply ascending_cons in Has as [Hles Has]);
    try (apply ascending_cons in Har as [Hler Har]); cbn.
  - done.
  - rewrite Hs, Hdr in *. split_and!; try done; [eauto|apply H2; by left| |cbn; lia].
    by rewrite !merge_events_nil_l.
  - rewrite Hr, Hds in *. split_and!; try done; [eauto|apply H1; by left| |cbn; lia].
    by rewrite !merge_events_nil_r.
  - rewrite merge_events_cons. destruct (Z.leb_spec (event_ns s) (event_ns r)) as [H|H]; cbn.
    + rewrite Hr, Hds in *. split_and!; try done; [eauto|apply H1; by left|cbn; lia|].
      intros x [<-|Hx]; [done|]. specialize (Hler x Hx). lia.
    + rewrite Hs, Hdr in *. split_and!; try done; [eauto|apply H2; by left|cbn; lia|].
      intros x [<-|Hx]; [lia|]. specialize (Hles x Hx). lia.
Qed.

#[export] Instance latch_drains i base init :
  Drains latch_work (latch_inv i base init)
    (fun l => length (pending (set_lane l)) + length (pending (reset_lane l)))%nat
    (fun l => sent i (q_output l)) latch_due.
Proof.
  constructor. intros l0 Hinv. unfold latch_work.
  assert (Hport : is_Some (q_output l0)).
  { destruct Hinv as (_ & _ & _ & Ho & _). destruct (q_output l0); [by eexists|done]. }
  destruct Hport as [p Hport]. rewrite Hport.
  destruct (latch_start_spec i base init l0 Hinv) as (l1 & em1 & -> & Hinv1 & Hgo & <- & <- & Ho1 & Hdue).
  destruct (latch_fill_spec i base init l1 Hinv1) as (s & r & -> & Hinv2 & Hfs & Hfr & Hs & Hr).
  unfold latch_merged in Hdue. rewrite Hdue. rewrite <- Hs, <- Hr.
  set (l2 := set_reset_lane r (set_set_lane s l1)) in *.
  change (merge_events (pending s) (pending r)) with (latch_merged l2).
  pose proof (latch_next_spec i base init l2 Hinv2 Hfs Hfr) as Hnext.
  destruct (latch_next l2) as [[b e]|].
  - destruct Hnext as (Hinv3 & Hlast & -> & Hlt & Hss & Hrr).
    destruct (latch_apply_spec i base init b e (latch_take b l2)) as
      (k & l' & em2 & -> & Hinv' & Hsl & Hrl & Hgo' & Ho' & Htr); try done; [by destruct b..|].
    rewrite Hsl, Hrl. split; [done|]. split; [exact Hlt|]. exists (em1 ++ em2). split.
    + rewrite Ho'. replace (q_output (latch_take b l2)) with (q_output l1) by by destruct b.
      by rewrite Ho1, app_assoc, Hport.
    + unfold latch_due. rewrite Hgo', <- app_assoc. f_equal.
      replace (latch_merged l') with (latch_merged (latch_take b l2))
        by (unfold latch_merged; by rewrite Hsl, Hrl).
      rewrite <- Htr. by destruct b.
  - rewrite Hnext. split; [done|]. split; [done|]. rewrite <- Hport.
    change (transitions (state l1) []) with (@nil Sample). by rewrite app_nil_r.
Qed.

(** C37. The set/reset latch sends its initial level and then a level at every change, so that
    at every instant the output level is set exactly when the last set is later than the last
    reset (a tie resets), and the recorded query answers with that same level. *)
Theorem sr_latch_level i init set reset out fuel :
  ascending event_ns (items set) -> ascending event_ns (items reset) ->
  (forall e, In e (items set ++ items reset) -> 0 <= event_ns e) -> plugged i out ->
  (length (items set) + length (items reset) < fuel)%nat ->
  exists n l' samples,
    run fuel latch_work (SrLatch_new init (Some set) (Some reset) out) 0 = Some (Shutdown, n, l') /\
    sent i (q_output l') = sent i out ++ mkSample init 0 :: samples /\
    forall t, 0 <= t ->
      bool_level_at init (mkSample init 0 :: samples) t = latch_at init (items set) (items reset) t /\
      value_at (edge_query l') t = Some (latch_at init (items set) (items reset) t).
Proof.
  intros Hs Hr H0 Ho Hf.
  destruct (run_drains latch_work _ _ _ _ (Drains0 := latch_drains i (sent i out) init) fuel
    (SrLatch_new init (Some set) (Some reset) out) 0) as (n & l' & Hrun & Hout & Hinv); [|done|].
  - unfold latch_inv. cbn. rewrite !pending_fresh.
    split_and!; try done; [by eexists|by eexists|..].
    1,2: intros e He; apply H0, in_or_app; auto.
    exists []. rewrite app_nil_r. split; [done|]. split; [done|]. intros t Ht. unfold value_at. cbn.
    by rewrite (proj2 (Z.leb_le _ _) Ht).
  - exists n, l', (transitions init (merge_events (items set) (items reset))).
    split; [done|]. split; [done|].
    assert (Hl : forall t, bool_level_at init
      (mkSample init 0 :: transitions init (merge_events (items set) (items reset))) t =
      latch_at init (items set) (items reset) t).
    { intros t. rewrite bool_level_at_cons. replace (if _ <=? t then _ else init) with init
        by (cbn; by destruct (_ <=? _)).
      rewrite transitions_level by by apply merge_events_ascending. by apply latch_at_merge. }
    intros t Ht. split; [apply Hl|].
    destruct Hinv as (_ & _ & _ & _ & _ & _ & _ & _ & _ & _ & em & Hem & _ & Hq).
    rewrite Hout in Hem. apply app_inv_head in Hem. cbn in Hem. rewrite Hq by done. f_equal.
    rewrite <- Hem. apply Hl.
Qed.

Lemma sr_latch_level_witness :
  exists n l' samples,
    run 20 latch_work (SrLatch_new false
      (Some (fresh_receiver [Arrive (Batch [mkEvent 10; mkEvent 30])]))
      (Some (fresh_receiver [Arrive (SampleMsg (mkEvent 20)); Idle; Arrive (SampleMsg (mkEvent 30))]))
      open_port) 0 = Some (Shutdown, n, l') /\
    sent 0 (q_output l') = mkSample false 0 :: samples /\
    forall t, 0 <= t ->
      bool_level_at false (mkSample false 0 :: samples) t =
        latch_at false [mkEvent 10; mkEvent 30] [mkEvent 20; mkEvent 30] t /\
      value_at (edge_query l') t = Some (latch_at false [mkEvent 10; mkEvent 30] [mkEvent 20; mkEvent 30] t).
Proof.
  apply (sr_latch_level 0 false
    (fresh_receiver [Arrive (Batch [mkEvent 10; mkEvent 30])])
    (fresh_receiver [Arrive (SampleMsg (mkEvent 20)); Idle; Arrive (SampleMsg (mkEvent 30))])
    open_port 20).
  - apply ascendingb_spec. reflexivity.
  - apply ascendingb_spec. reflexivity.
  - intros e [<-|[<-|[<-|[<-|[]]]]]; simpl; lia.
  - by eexists.
  - simpl. lia.
Defined.

(** ** Edge detector *)

(** [crates/signal_transforms/src/edge_detector/detector.rs:12-17] EdgeMode *)
Inductive EdgeMode := Rising | Falling | Both.

(** [crates/signal_transforms/src/edge_detector/detector.rs:19-27] EdgeDetector *)
Record EdgeDetector := mkEdgeDetector {
  mode : EdgeMode;
  debounce_ns : Z;
  minimum_pulse_width_ns : Z;
  previous : option Sample;
  last_emitted_ns : option Z;
  signal : option (Receiver Sample);
  event_output : option (Sender TimestampEvent)
}.

Definition set_previous p d := mkEdgeDetector (mode d) (debounce_ns d) (minimum_pulse_width_ns d)
  p (last_emitted_ns d) (signal d) (event_output d).
Definition set_last_emitted_ns t d := mkEdgeDetector (mode d) (debounce_ns d)
  (minimum_pulse_width_ns d) (previous d) t (signal d) (event_output d).
Definition set_signal r d := mkEdgeDetector (mode d) (debounce_ns d) (minimum_pulse_width_ns d)
  (previous d) (last_emitted_ns d) r (event_output d).
Definition set_event_output o d := mkEdgeDetector (mode d) (debounce_ns d)
  (minimum_pulse_width_ns d) (previous d) (last_emitted_ns d) (signal d) o.

(** [crates/signal_transforms/src/edge_detector/detector.rs:30-46] EdgeDetector::new *)
Definition EdgeDetector_new (mode : EdgeMode) (debounce_ns minimum_pulse_width_ns : Z) signal output
  : EdgeDetector :=
  mkEdgeDetector mode debounce_ns minimum_pulse_width_ns None None signal output.

(** [crates/signal_transforms/src/edge_detector/detector.rs:54-59] EdgeDetector::selected *)
Definition selected (mode : EdgeMode) (value : bool) : bool :=
  match mode, value with
  | Rising, true | Falling, false | Both, _ => true
  | _, _ => false
  end.

(** [crates/signal_transforms/src/edge_detector/detector.rs:109-131] EdgeDetector::work (sample) *)
Definition edge_sample (s : Sample) (d : EdgeDetector) : WorkResult Z * EdgeDetector :=
  match previous d with
  | None => (Ok 0, set_previous (Some s) d)
  | Some prev =>
      if Bool.eqb (level s) (level prev) then (Ok 0, d)
      else
        let d := set_previous (Some s) d in
        let preceding_width_ns := saturating_sub64 (start_time_ns s) (start_time_ns prev) in
        let debounce_elapsed := match last_emitted_ns d with
          | None => true
          | Some last => debounce_ns d <=? saturating_sub64 (start_time_ns s) last
          end in
        if negb (selected (mode d) (level s)) || (preceding_width_ns <? minimum_pulse_width_ns d)
           || negb debounce_elapsed
        then (Ok 0, d)
        else
          let d := set_last_emitted_ns (Some (start_time_ns s)) d in
          let! _, d := zoom event_output set_event_output
            (fun o => emit "Missing event output" o (mkEvent (start_time_ns s))) d in
          (Ok 1, d)
  end.

(** [crates/signal_transforms/src/edge_detector/detector.rs:99-132] EdgeDetector::work *)
Definition edge_work (d : EdgeDetector) : WorkResult Z * EdgeDetector :=
  match signal d, event_output d with
  | None, _ => (Err (NodeError "Missing signal input"), d)
  | Some _, None => (Err (NodeError "Missing event output"), d)
  | Some input, Some _ =>
      let '(res, input) := recv input in
      let d := set_signal (Some input) d in
      match res with
      | Err e => (Err e, d)
      | Ok s => edge_sample s d
      end
  end.

(** The level changes of a stream after [prev], each with the width of the pulse it ends. *)
Fixpoint level_changes (prev : Sample) (samples : list Sample) : list (Sample * Z) :=
  match samples with
  | [] => []
  | s :: samples =>
      if Bool.eqb (level s) (level prev) then level_changes prev samples
      else (s, saturating_sub64 (start_time_ns s) (start_time_ns prev)) :: level_changes s samples
  end.

(** The instants at least [debounce] after the last one kept. *)
Fixpoint debounced (debounce : Z) (last : option Z) (times : list Z) : list Z :=
  match times with
  | [] => []
  | t :: times =>
      if match last with None => true | Some l => debounce <=? saturating_sub64 t l end
      then t :: debounced debounce (Some t) times
      else debounced debounce last times
  end.

Definition wide_edges (m : EdgeMode) (width : Z) (changes : list (Sample * Z)) : list Z :=
  map (fun c => start_time_ns (fst c))
    (List.filter (fun c => selected m (level (fst c)) && (width <=? snd c)) changes).

Definition stream_changes (samples : list Sample) : list (Sample * Z) :=
  match samples with [] => [] | first :: samples => level_changes first samples end.

Definition edge_due (d : EdgeDetector) : list TimestampEvent :=
  let samples := from_option items [] (signal d) in
  let changes := match previous d with
    | None => stream_changes samples
    | Some prev => level_changes prev samples
    end in
  map mkEvent (debounced (debounce_ns d) (last_emitted_ns d)
    (wide_edges (mode d) (minimum_pulse_width_ns d) changes)).

Definition edge_inv (i : nat) (d : EdgeDetector) : Prop :=
  is_Some (signal d) /\ plugged i (event_output d).

#[export] Instance edge_drains i :
  Drains edge_work (edge_inv i) (fun d => length (from_option items [] (signal d)))
    (fun d => sent i (event_output d)) edge_due.
Proof.
  constructor. intros [m deb width prev last sig out] [[r Hr] Ho]. cbn in *. subst sig.
  destruct out as [out|]; [|done]. unfold edge_work. cbn.
  pose proof (recv_spec r) as H. destruct (recv r) as [[s|e] r'].
  2: { destruct H as (-> & H1 & H2). cbn. split; [done|]. split; [by split|].
       unfold edge_due. cbn. rewrite H1. by destruct prev; rewrite app_nil_r. }
  unfold edge_sample, edge_due, edge_inv. cbn [signal previous debounce_ns last_emitted_ns mode
    minimum_pulse_width_ns from_option]. rewrite H. cbn.
  destruct prev as [prev|]; cbn.
  2: { split; [by split|]. split; [lia|]. exists []. by rewrite app_nil_r. }
  destruct (Bool.eqb (level s) (level prev)); cbn.
  { split; [by split|]. split; [lia|]. exists []. by rewrite app_nil_r. }
  unfold wide_edges at 1. cbn.
  destruct (selected m (level s)) eqn:Hsel; cbn.
  2: { split; [by split|]. split; [lia|]. exists []. by rewrite app_nil_r. }
  rewrite (Z.leb_antisym _ width). destruct (_ <? width); cbn.
  { split; [by split|]. split; [lia|]. exists []. by rewrite app_nil_r. }
  destruct (match last with None => _ | Some _ => _ end); cbn.
  - destruct (emit_plugged i "Missing event output" (Some out) (mkEvent (start_time_ns s)) Ho)
      as (o' & He & Ho' & Hs).
    unfold zoom. cbn. rewrite He. cbn. split; [by split|]. split; [lia|].
    by exists [mkEvent (start_time_ns s)].
  - split; [by split|]. split; [lia|]. exists []. by rewrite app_nil_r.
Qed.

(** The edge detector reports the selected level changes that end a pulse of at least the
    minimum width, keeping of those the first and each one at least the debounce time after the
    last one kept. *)
Theorem edge_detector_events i m debounce width sig out fuel :
  plugged i out -> (length (items sig) < fuel)%nat ->
  exists n d', run fuel edge_work (EdgeDetector_new m debounce width (Some sig) out) 0
      = Some (Shutdown, n, d') /\
    sent i (event_output d') = sent i out ++
      map mkEvent (debounced debounce None (wide_edges m width (stream_changes (items sig)))).
Proof.
  intros Ho Hf. drain (edge_drains i); [|done]. split; [by eexists|done].
Qed.

Lemma edge_detector_events_witness :
  exists n d', run 20 edge_work (EdgeDetector_new Rising 10 0 (Some (fresh_receiver
      [Arrive (Batch [mkSample false 0; mkSample true 5; mkSample false 7; mkSample true 9]);
       Arrive (Batch [mkSample false 10; mkSample true 15])])) open_port) 0
    = Some (Shutdown, n, d') /\
  sent 0 (event_output d') = [mkEvent 5; mkEvent 15].
Proof. apply (edge_detector_events 0 Rising 10 0); [by eexists|simpl; lia]. Defined.

(** ** Event counter *)

(** [crates/signal_transforms/src/event_counter/counter.rs:17-24] EventCounter *)
Record EventCounter := mkEventCounter {
  start : Z;
  step : Z;
  count : Z;
  counter_started : bool;
  counted : option (Receiver TimestampEvent);
  count_output : option (Sender NumberSample)
}.

Definition set_count c x := mkEventCounter (start x) (step x) c (counter_started x) (counted x) (count_output x).
Definition set_counter_started x := mkEventCounter (start x) (step x) (count x) true (counted x) (count_output x).
Definition set_counted r x := mkEventCounter (start x) (step x) (count x) (counter_started x) r (count_output x).
Definition set_count_output o x := mkEventCounter (start x) (step x) (count x) (counter_started x) (counted x) o.

(** [crates/signal_transforms/src/event_counter/counter.rs:32-41] EventCounter::new *)
Definition EventCounter_new (start step : Z) events output : EventCounter :=
  mkEventCounter start step 0 false events output.

(** [crates/signal_transforms/src/event_counter/counter.rs:79-103] EventCounter::work *)
Definition counter_work (c : EventCounter) : WorkResult Z * EventCounter :=
  match counted c, count_output c with
  | None, _ => (Err (NodeError "Missing event input"), c)
  | Some _, None => (Err (NodeError "Missing count output"), c)
  | Some input, Some _ =>
      let! _, c :=
        (if counter_started c then (Ok tt, c)
         else zoom count_output set_count_output
           (fun o => emit "Missing count output" o (mkNumber (start c) 0)) (set_counter_started c)) in
      let '(res, input) := recv input in
      let c := set_counted (Some input) c in
      match res with
      | Err e => (Err e, c)
      | Ok event =>
          let c := set_count (wrap_i64 (count c + 1)) c in
          let value := wrap_i64 (start c + wrap_i64 (count c * step c)) in
          let! _, c := zoom count_output set_count_output
            (fun o => emit "Missing count output" o (mkNumber value (event_ns event))) c in
          (Ok 1, c)
      end
  end.

(** The count after the events numbered from [n + 1], in 64-bit arithmetic. *)
Fixpoint counts (start step n : Z) (events : list TimestampEvent) : list NumberSample :=
  match events with
  | [] => []
  | e :: events =>
      mkNumber (wrap_i64 (start + (n + 1) * step)) (event_ns e) :: counts start step (n + 1) events
  end.

Lemma counter_value start step c n :
  c = wrap_i64 n ->
  wrap_i64 (start + wrap_i64 (c * step)) = wrap_i64 (start + n * step).
Proof.
  intros ->. destruct (wrap_i64_turns n) as [k Hk]. rewrite Hk.
  destruct (wrap_i64_turns ((n + k * 18446744073709551616) * step)) as [k' Hk']. rewrite Hk'.
  replace (start + _) with (start + n * step + (k * step + k') * 18446744073709551616) by lia.
  apply wrap_i64_turn.
Qed.

Lemma counter_next c n : c = wrap_i64 n -> wrap_i64 (c + 1) = wrap_i64 (n + 1).
Proof.
  intros ->. destruct (wrap_i64_turns n) as [k ->].
  replace (_ + 1) with (n + 1 + k * 18446744073709551616) by lia. apply wrap_i64_turn.
Qed.

Lemma counter_step i n c r events :
  counted c = Some r -> plugged i (count_output c) -> count c = wrap_i64 n ->
  items r = events ->
  let due := (if counter_started c then [] else [mkNumber (start c) 0]) ++
    counts (start c) (step c) n events in
  match counter_work c with
  | (Ok _, c') => exists r' e rest emitted, counted c' = Some r' /\ plugged i (count_output c') /\
      count c' = wrap_i64 (n + 1) /\ start c' = start c /\ step c' = step c /\
      counter_started c' = true /\ events = e :: rest /\ items r' = rest /\
      sent i (count_output c') = sent i (count_output c) ++ emitted /\
      due = emitted ++ counts (start c) (step c) (n + 1) rest
  | (Err e, c') => e = Shutdown /\ events = [] /\
      sent i (count_output c') = sent i (count_output c) ++ due
  end.
Proof.
  destruct c as [st sp c go inp out]. cbn. intros -> Ho Hc Hev. unfold counter_work. cbn.
  destruct out as [out|]; [|done].
  assert (Hstart : exists o1, (if go then (Ok tt, mkEventCounter st sp c go (Some r) (Some out))
      else zoom count_output set_count_output
        (fun o => emit "Missing count output" o (mkNumber st 0))
        (set_counter_started (mkEventCounter st sp c go (Some r) (Some out)))) =
      (@Ok WorkError _ tt, mkEventCounter st sp c true (Some r) o1) /\ plugged i o1 /\
      sent i o1 = sent i (Some out) ++ if go then [] else [mkNumber st 0]).
  { destruct go; [exists (Some out); by rewrite app_nil_r|].
    destruct (emit_plugged i "Missing count output" (Some out) (mkNumber st 0) Ho) as (o1 & He & H1 & H2).
    exists o1. unfold zoom. cbn. by rewrite He. }
  destruct Hstart as (o1 & -> & Ho1 & Hs1). pose proof (recv_spec r) as H.
  destruct (recv r) as [[e|e] r']; cbn.
  - rewrite (counter_value _ _ _ (n + 1)) by by apply counter_next.
    destruct (emit_plugged i "Missing count output" o1
      (mkNumber (wrap_i64 (st + (n + 1) * sp)) (event_ns e)) Ho1) as (o2 & He & Ho2 & Hs2).
    unfold zoom. cbn. rewrite He. cbn.
    exists r', e, (items r'). eexists. split_and!; try done; [by apply counter_next|congruence| |].
    + by rewrite Hs2, Hs1, <- app_assoc.
    + rewrite <- Hev, H. cbn. by rewrite <- app_assoc.
  - destruct H as (-> & H & _). rewrite <- Hev, H. split; [done|]. split; [done|].
    by rewrite Hs1, app_nil_r.
Qed.

Lemma counter_run i fuel : forall n c r events acc,
  counted c = Some r -> plugged i (count_output c) -> count c = wrap_i64 n ->
  items r = events -> (length events < fuel)%nat ->
  exists m c', run fuel counter_work c acc = Some (Shutdown, m, c') /\
    sent i (count_output c') = sent i (count_output c) ++
      (if counter_started c then [] else [mkNumber (start c) 0]) ++
      counts (start c) (step c) n events.
Proof.
  induction fuel as [|fuel IH]; intros n c r events acc Hr Ho Hc Hev Hf; [lia|]. cbn [run].
  pose proof (counter_step i n c r events Hr Ho Hc Hev) as H.
  destruct (counter_work c) as [[k|e] c'].
  - destruct H as (r' & e & rest & em & Hr' & Ho' & Hc' & Hst & Hsp & Hgo & -> & Hi & Hs & Hd).
    destruct (IH (n + 1) c' r' rest (acc + k) Hr' Ho' Hc' Hi) as (m & c'' & Hrun & Hout).
    { cbn in Hf. lia. }
    exists m, c''. split; [done|]. rewrite Hout, Hs, Hd, Hgo, Hst, Hsp. by rewrite <- app_assoc.
  - destruct H as (-> & -> & Hs). by exists acc, c'.
Qed.

(** The event counter sends its start value at time zero and after the n-th event the value
    [start + n * step], wrapped to 64 bits, at the time of that event. *)
Theorem event_counter_counts i start step ev out fuel :
  plugged i out -> (length (items ev) < fuel)%nat ->
  exists n c', run fuel counter_work (EventCounter_new start step (Some ev) out) 0
      = Some (Shutdown, n, c') /\
    sent i (count_output c') = sent i out ++ mkNumber start 0 :: counts start step 0 (items ev).
Proof. intros Ho Hf. by apply (counter_run i fuel 0 (EventCounter_new start step (Some ev) out) ev). Qed.

Lemma event_counter_counts_witness :
  exists n c', run 20 counter_work (EventCounter_new 9223372036854775806 1
      (Some (fresh_receiver [Arrive (Batch [mkEvent 7; mkEvent 8])])) open_port) 0
    = Some (Shutdown, n, c') /\
  sent 0 (count_output c') =
    [mkNumber 9223372036854775806 0; mkNumber 9223372036854775807 7;
     mkNumber (-9223372036854775808) 8].
Proof.
  apply (event_counter_counts 0 9223372036854775806 1
    (fresh_receiver [Arrive (Batch [mkEvent 7; mkEvent 8])])); [by eexists|simpl; lia].
Defined.

(** ** Buffer *)

(** [crates/signal_transforms/src/buffer/relay.rs:19-22] BufferNode *)
Record BufferNode (T : Type) := mkBufferNode {
  relay_in : option (Receiver T);
  relay_out : option (Sender T)
}.
Arguments mkBufferNode {T} relay_in relay_out.
Arguments relay_in {T} b : rename.
Arguments relay_out {T} b : rename.

(** [crates/signal_transforms/src/buffer/relay.rs:25-25] BATCH_SIZE *)
Definition RELAY_BATCH_SIZE : Z := 65536.

(** [crates/signal_transforms/src/buffer/relay.rs:60-77] BufferNode::work *)
Definition relay_work {T} (b : BufferNode T) : WorkResult Z * BufferNode T :=
  match relay_in b, relay_out b with
  | None, _ => (Err (NodeError "Missing buffer input"), b)
  | Some _, None => (Err (NodeError "Missing buffer output"), b)
  | Some input, Some out =>
      let '(res, input) := recv input in
      match res with
      | Err e => (Err e, mkBufferNode (Some input) (Some out))
      | Ok first =>
          let '(_, more, input) := try_recv_many input (Z.to_nat (RELAY_BATCH_SIZE - 1)) in
          let batch := first :: more in
          let '(res, out) := send_batch out batch in
          (match res with Ok _ => Ok (zlen batch) | Err e => Err e end,
           mkBufferNode (Some input) (Some out))
      end
  end.

#[local] Opaque RELAY_BATCH_SIZE.

#[export] Instance relay_drains {T} i :
  Drains (@relay_work T)
    (fun b => (exists r, relay_in b = Some r /\ settled r) /\ plugged i (relay_out b))
    (fun b => length (from_option items [] (relay_in b)))
    (fun b => sent i (relay_out b)) (fun b => from_option items [] (relay_in b)).
Proof.
  constructor. intros [inp out] [(r & Hr & Hs) Ho]. cbn in *. subst inp.
  destruct out as [out|]; [|done]. unfold relay_work. cbn [relay_in relay_out].
  pose proof (recv_spec r) as H. pose proof (perform_spec Recv r Hs) as [Hs1 _]. cbn in Hs1.
  destruct (recv r) as [[first|e] r1]; cbn in Hs1.
  - pose proof (perform_spec (TryRecvMany (Z.to_nat (RELAY_BATCH_SIZE - 1))) r1 Hs1) as [Hs2 Hi2].
    unfold perform in Hs2, Hi2. destruct (try_recv_many _ _) as [[k more] r2]. cbn in Hs2, Hi2.
    destruct (send_batch_attached i out (first :: more) Ho) as (out' & -> & Ho' & Hsent).
    cbn. rewrite H, Hi2. split; [by split; [exists r2|]|].
    split; [cbn; rewrite length_app; lia|]. by exists (first :: more).
  - destruct H as (-> & H & H'). cbn. rewrite H. split; [done|].
    split; [by split; [exists r1|]|]. by rewrite app_nil_r.
Qed.

(** The buffer node relays every item of its input, in order and unchanged, however its
    input was enveloped. *)
Theorem buffer_relays {T} i (r : Receiver T) out fuel :
  settled r -> plugged i out -> (length (items r) < fuel)%nat ->
  exists n b', run fuel relay_work (mkBufferNode (Some r) out) 0 = Some (Shutdown, n, b') /\
    sent i (relay_out b') = sent i out ++ items r.
Proof. intros Hs Ho Hf. drain (relay_drains (T := T) i); [|done]. split; [by eexists|done]. Qed.

Lemma buffer_relays_witness :
  exists n b', run 9 relay_work (mkBufferNode (Some (fresh_receiver
      [Arrive (Batch [1; 2]); Idle; Arrive (SampleMsg 3); Arrive EndOfStream])) open_port) 0
    = Some (Shutdown, n, b') /\ sent 0 (relay_out b') = [1; 2; 3].
Proof.
  apply (buffer_relays 0 (fresh_receiver
    [Arrive (Batch [1; 2]); Idle; Arrive (SampleMsg 3); Arrive EndOfStream]));
    [intros H; discriminate H|by eexists|simpl; lia].
Defined.
