(* ===== verification/LogicGate.v ===== *)
(** [crates/signal_transforms/src/logic_gate/gate.rs]: a boolean gate over levels, which merges its
    inputs in the order of their times.

    An input is streamed, or answered by an edge query; the theorem says that either way, and
    whatever the mixture, the gate sends the changes of its operation on the inputs' levels. *)

From Stdlib Require Import SpecFloat.
From stdpp Require Import pretty.
From S2P Require Import Prelude Events Runtime EventNodes RecordedQuery EdgeQuery.

#[local] Open Scope Z_scope.

(** ** Merging by time *)

Section Merge.
Context {T : Type} (key : T -> Z).

(** The first pending item with the least key, by [min_by_key] on key and index; [index] is
    that of the first head.
    [crates/signal_transforms/src/logic_gate/gate.rs:266-271] LogicGate::work (next) *)
Fixpoint earliest_from (index : nat) (heads : list (option T)) : option (nat * T) :=
  match heads with
  | [] => None
  | None :: heads => earliest_from (S index) heads
  | Some x :: heads =>
      match earliest_from (S index) heads with
      | Some (j, y) => if key x <=? key y then Some (index, x) else Some (j, y)
      | None => Some (index, x)
      end
  end.

Definition earliest (heads : list (option T)) : option (nat * T) := earliest_from 0 heads.

(** The items of several streams in the order of the merge, each with its stream. *)
Fixpoint merged (fuel : nat) (streams : list (list T)) : list (nat * T) :=
  match fuel with
  | O => []
  | S fuel =>
      match earliest (map hd_error streams) with
      | None => []
      | Some (i, x) => (i, x) :: merged fuel (alter tl i streams)
      end
  end.

Definition total (streams : list (list T)) : nat := length (concat streams).

Lemma earliest_from_spec n streams :
  Forall (ascending key) streams ->
  match earliest_from n (map hd_error streams) with
  | Some (i, x) => exists j rest, i = (n + j)%nat /\ streams !! j = Some (x :: rest) /\
      Forall (fun s => forall y, In y s -> key x <= key y) streams
  | None => Forall (fun s => s = []) streams
  end.
Proof.
  revert n. induction streams as [|s streams IH]; intros n Hs; [constructor|].
  apply Forall_cons in Hs as [Has Hs]. specialize (IH (S n) Hs). cbn [map earliest_from].
  destruct s as [|x rest]; cbn [hd_error].
  { destruct (earliest_from (S n) _) as [[i y]|]; [|by constructor].
    destruct IH as (j & rest & -> & Hj & Hle). exists (S j), rest. split; [lia|]. split; [done|].
    constructor; [by intros z []|done]. }
  apply ascending_cons in Has as [Hx _].
  assert (Hself : forall y, In y (x :: rest) -> key x <= key y) by (intros y [<-|Hy]; [done|auto]).
  destruct (earliest_from (S n) _) as [[i y]|].
  - destruct IH as (j & rest' & -> & Hj & Hle). destruct (Z.leb_spec (key x) (key y)) as [Hc|Hc].
    + exists O, rest. split; [lia|]. split; [done|]. constructor; [done|].
      apply (Forall_impl _ _ _ Hle). intros s H z Hz. specialize (H z Hz). lia.
    + exists (S j), rest'. split; [lia|]. split; [done|]. constructor; [|done].
      intros z Hz. specialize (Hself z Hz). lia.
  - exists O, rest. split; [lia|]. split; [done|]. constructor; [done|].
    apply (Forall_impl _ _ _ IH). by intros s ->.
Qed.

Lemma earliest_spec streams :
  Forall (ascending key) streams ->
  match earliest (map hd_error streams) with
  | Some (i, x) => exists rest, streams !! i = Some (x :: rest) /\
      Forall (fun s => forall y, In y s -> key x <= key y) streams
  | None => Forall (fun s => s = []) streams
  end.
Proof.
  intros Hs. pose proof (earliest_from_spec 0 streams Hs) as H. unfold earliest.
  destruct (earliest_from 0 _) as [[i x]|]; [|done]. destruct H as (j & rest & -> & H). eauto.
Qed.

Lemma total_alter streams i x rest :
  streams !! i = Some (x :: rest) -> total streams = S (total (alter tl i streams)).
Proof.
  unfold total. revert i. induction streams as [|s streams IH]; intros [|i] H; try done.
  - injection H as ->. done.
  - cbn in *. rewrite !length_app, (IH i H). lia.
Qed.

Lemma ascending_tl s : ascending key s -> ascending key (tl s).
Proof. destruct s; [done|]. by intros [_ H]%ascending_cons. Qed.

Lemma alter_tl_Forall (P : list T -> Prop) i streams :
  (forall s, P s -> P (tl s)) -> Forall P streams -> Forall P (alter tl i streams).
Proof. intros Htl H. apply Forall_alter; auto. Qed.
End Merge.

(** ** The gate *)

(** An input's head and end-of-stream flag (in its lane), its query if the connection has one,
    and the position of the transition fetched last. *)
Record GateInput := mkGateInput {
  stream : Lane Sample;
  queried : option EdgeQuery;
  query_cursor : option Z
}.

Definition set_stream l i := mkGateInput l (queried i) (query_cursor i).
Definition streamed_input (r : Receiver Sample) : GateInput := mkGateInput (fresh_lane (Some r)) None None.
Definition queried_input (q : EdgeQuery) : GateInput := mkGateInput (fresh_lane None) (Some q) None.

(** [crates/signal_transforms/src/logic_gate/gate.rs:72-90] LogicGate *)
Record LogicGate := mkLogicGate {
  logic_op : GateOp;
  levels : list bool;
  logic_started : bool;
  last_out : bool;
  last_out_ts : Z;
  logic_inputs : list GateInput;
  logic_output : option (Sender Sample)
}.

Definition set_logic_inputs x g := mkLogicGate (logic_op g) (levels g) (logic_started g) (last_out g)
  (last_out_ts g) x (logic_output g).
Definition set_logic_output o g := mkLogicGate (logic_op g) (levels g) (logic_started g) (last_out g)
  (last_out_ts g) (logic_inputs g) o.
Definition set_levels x g := mkLogicGate (logic_op g) x (logic_started g) (last_out g)
  (last_out_ts g) (logic_inputs g) (logic_output g).
Definition set_last_out b ts g := mkLogicGate (logic_op g) (levels g) true b ts
  (logic_inputs g) (logic_output g).

(** The two assertions panic.
    [crates/signal_transforms/src/logic_gate/gate.rs:98-116] LogicGate::new *)
Definition LogicGate_new (op : GateOp) (inputs : list GateInput) (output : option (Sender Sample))
  : option LogicGate :=
  let num_inputs := length inputs in
  if (1 <=? num_inputs)%nat && (match op with Not => (num_inputs =? 1)%nat | _ => true end)
  then Some (mkLogicGate op (replicate num_inputs false) false false 0 inputs output)
  else None.

(** [crates/signal_transforms/src/logic_gate/gate.rs:198-202] LogicGate::work (start) *)
Definition logic_start (g : LogicGate) : WorkResult unit * LogicGate :=
  if logic_started g then (Ok tt, g)
  else
    let g := set_last_out (combine (logic_op g) (levels g)) (last_out_ts g) g in
    zoom logic_output set_logic_output
      (fun o => emit "Missing gate output" o (mkSample (last_out g) 0)) g.

(** The index of the first streamed input without a port.
    [crates/signal_transforms/src/logic_gate/gate.rs:210-221] LogicGate::work (receivers) *)
Fixpoint missing_input (index : nat) (inputs : list GateInput) : option nat :=
  match inputs with
  | [] => None
  | i :: inputs =>
      match queried i, lane_port (stream i) with
      | None, None => Some index
      | _, _ => missing_input (S index) inputs
      end
  end.

(** [crates/signal_transforms/src/logic_gate/gate.rs:240-246] LogicGate::work (query head) *)
Definition query_head (q : EdgeQuery) (cursor : option Z) : QueryResult (option (Z * bool)) :=
  match cursor with
  | None => let? value := query_value_at q 0 in Ok (Some (0, value))
  | Some position =>
      let? edge := query_next_edge q position (total_samples q) in
      Ok ((fun t => (sample t, edge_value t)) <$> edge)
  end.

Definition missing_text (index : nat) : string := "Missing gate input " +:+ pretty index.

(** The turn of the loop for one input.
    [crates/signal_transforms/src/logic_gate/gate.rs:231-263] LogicGate::work (heads) *)
Definition logic_fill_input (index : nat) (i : GateInput) : WorkResult unit * GateInput :=
  match queried i with
  | None => zoom stream set_stream (fill (missing_text index)) i
  | Some q =>
      match head (stream i), lane_eos (stream i) with
      | None, false =>
          match query_head q (query_cursor i) with
          | Err e => (Err (NodeError e), i)
          | Ok (Some (position, value)) =>
              (Ok tt, mkGateInput
                (mkLane (lane_port (stream i))
                  (Some (mkSample value (saturating_mul64 position (timestamp_step q)))) false)
                (Some q) (Some position))
          | Ok None => (Ok tt, set_stream (mkLane (lane_port (stream i)) None true) i)
          end
      | _, _ => (Ok tt, i)
      end
  end.

Fixpoint logic_fill (index : nat) (inputs : list GateInput) : WorkResult unit * list GateInput :=
  match inputs with
  | [] => (Ok tt, [])
  | i :: inputs =>
      match logic_fill_input index i with
      | (Err e, i) => (Err e, i :: inputs)
      | (Ok _, i) => let '(res, inputs) := logic_fill (S index) inputs in (res, i :: inputs)
      end
  end.

(** [crates/signal_transforms/src/logic_gate/gate.rs:275-294] LogicGate::work (apply) *)
Definition logic_apply (index : nat) (edge : Sample) (g : LogicGate) : WorkResult Z * LogicGate :=
  let g := set_logic_inputs
    (alter (fun i => set_stream (drop_head (stream i)) i) index (logic_inputs g)) g in
  let g := set_levels (<[index := level edge]> (levels g)) g in
  let out := combine (logic_op g) (levels g) in
  if Bool.eqb out (last_out g) then (Ok 0, g)
  else
    let ts := start_time_ns edge in
    let ts := if ts <? last_out_ts g then last_out_ts g else ts in
    let g := set_last_out out ts g in
    let! _, g := zoom logic_output set_logic_output
      (fun o => emit "Missing gate output" o (mkSample out ts)) g in
    (Ok 1, g).

(** [crates/signal_transforms/src/logic_gate/gate.rs:192-295] LogicGate::work *)
Definition logic_work (g : LogicGate) : WorkResult Z * LogicGate :=
  match logic_output g with
  | None => (Err (NodeError "Missing gate output"), g)
  | Some _ =>
      let! _, g := logic_start g in
      match missing_input 0 (logic_inputs g) with
      | Some index => (Err (NodeError (missing_text index)), g)
      | None =>
          let! _, g := zoom logic_inputs set_logic_inputs (logic_fill 0) g in
          match earliest start_time_ns (map (fun i => head (stream i)) (logic_inputs g)) with
          | None => (Err Shutdown, g)
          | Some (index, edge) => logic_apply index edge g
          end
      end
  end.

(** ** What an input delivers *)

#[local] Arguments bool_level_at : simpl never.

(** The transitions of a query behind a position. *)
Definition edges_of (q : EdgeQuery) (position : Z) : list CaptureTransition :=
  match next_edges q position (total_samples q) (Z.to_nat (total_samples q - position)) with
  | Ok edges => edges
  | Err _ => []
  end.

Definition to_sample (q : EdgeQuery) (e : CaptureTransition) : Sample :=
  mkSample (edge_value e) (saturating_mul64 (sample e) (timestamp_step q)).

(** What a query delivers from its cursor on: its level at position 0, then its transitions. *)
Definition query_future (q : EdgeQuery) (cursor : option Z) : list Sample :=
  match cursor with
  | None =>
      match query_value_at q 0 with
      | Ok value => map (to_sample q) (mkTransition 0 value :: edges_of q 0)
      | Err _ => []
      end
  | Some position => map (to_sample q) (edges_of q position)
  end.

Definition input_pending (i : GateInput) : list Sample :=
  match queried i with
  | None => pending (stream i)
  | Some q => option_list (head (stream i)) ++
      (if lane_eos (stream i) then [] else query_future q (query_cursor i))
  end.

Definition input_ok (i : GateInput) : Prop :=
  match queried i with
  | None => connected (stream i)
  | Some q => (exists level, Answers q level) /\ 0 < total_samples q /\
      (forall p, query_cursor i = Some p -> 0 <= p)
  end.

Section Query.
Context (q : EdgeQuery) (level : Z -> bool) {Hq : Answers q level}.

(** More room than there are positions changes nothing. *)
Lemma next_edges_enough n m p :
  0 <= p -> (Z.to_nat (total_samples q - p) <= n)%nat -> (Z.to_nat (total_samples q - p) <= m)%nat ->
  exists edges, next_edges q p (total_samples q) n = Ok edges /\
    next_edges q p (total_samples q) m = Ok edges.
Proof.
  revert m p. induction n as [|n IH]; intros m p Hp Hn Hm.
  - destruct m as [|m]; cbn [next_edges]; [by exists []|].
    destruct (answers_edge p (total_samples q) Hp (Z.le_refl _)) as (r & -> & Hr).
    destruct r as [e|]; [|by exists []]. destruct Hr as [He _]. lia.
  - cbn [next_edges]. destruct (answers_edge p (total_samples q) Hp (Z.le_refl _)) as (r & Hnext & Hr).
    rewrite Hnext. destruct r as [e|].
    2: { exists []. split; [done|]. destruct m as [|m]; [done|]. cbn. by rewrite Hnext. }
    destruct Hr as [He _]. destruct m as [|m]; [lia|]. cbn [next_edges]. rewrite Hnext.
    destruct (IH m (sample e)) as (edges & -> & ->); [lia..|]. by exists (e :: edges).
Qed.

Lemma edges_of_next p :
  0 <= p ->
  exists r, query_next_edge q p (total_samples q) = Ok r /\
    first_change level p (total_samples q) r /\
    edges_of q p = match r with Some e => e :: edges_of q (sample e) | None => [] end.
Proof.
  intros Hp. destruct (answers_edge p (total_samples q) Hp (Z.le_refl _)) as (r & Hnext & Hr).
  exists r. split; [done|]. split; [done|]. unfold edges_of.
  destruct (next_edges_enough (Z.to_nat (total_samples q - p)) (S (Z.to_nat (total_samples q - p))) p)
    as (edges & -> & He); [lia..|].
  cbn [next_edges] in He. rewrite Hnext in He. destruct r as [e|]; [|by injection He as <-].
  destruct Hr as [Hs _].
  destruct (next_edges_enough (Z.to_nat (total_samples q - p))
    (Z.to_nat (total_samples q - sample e)) (sample e)) as (es & H1 & ->); [lia..|].
  rewrite H1 in He. by injection He as <-.
Qed.

(** Induction over the transitions behind a position. *)
Lemma edges_of_ind (P : Z -> list CaptureTransition -> Prop) :
  (forall p, 0 <= p -> (forall x, p <= x < total_samples q -> level x = level p) -> P p []) ->
  (forall p e es, 0 <= p < sample e -> sample e < total_samples q ->
    edge_value e = level (sample e) -> (forall x, p <= x < sample e -> level x = level p) ->
    es = edges_of q (sample e) -> P (sample e) es -> P p (e :: es)) ->
  forall p, 0 <= p -> P p (edges_of q p).
Proof.
  intros Hnil Hcons p Hp. remember (Z.to_nat (total_samples q - p)) as n eqn:Hn.
  revert p Hp Hn. induction (lt_wf n) as [n _ IH]. intros p Hp Hn.
  destruct (edges_of_next p Hp) as (r & _ & Hr & ->). destruct r as [e|]; cbn in Hr; [|by apply Hnil].
  destruct Hr as (He & Hv & _ & Hc). apply Hcons; try done; [lia..|].
  apply (IH (Z.to_nat (total_samples q - sample e))); lia.
Qed.

Lemma edges_of_behind p e : 0 <= p -> In e (edges_of q p) -> p < sample e.
Proof.
  intros Hp. revert p Hp. apply (edges_of_ind (fun p es => In e es -> p < sample e)).
  - by intros p _ _ [].
  - intros p x es Hx _ _ _ _ IH [<-|H]; [lia|]. specialize (IH H). lia.
Qed.

Hypothesis Hstep : 0 < timestamp_step q.

Lemma time_mono a b : a <= b -> saturating_mul64 a (timestamp_step q) <= saturating_mul64 b (timestamp_step q).
Proof. intros H. unfold saturating_mul64. assert (a * timestamp_step q <= b * timestamp_step q) by nia. lia. Qed.

Lemma edges_of_ascending p : 0 <= p -> ascending start_time_ns (map (to_sample q) (edges_of q p)).
Proof.
  apply (edges_of_ind (fun p es => ascending start_time_ns (map (to_sample q) es))).
  - intros. apply ascending_nil.
  - intros x e es Hx _ _ _ -> IH. cbn [map]. apply ascending_cons. split; [|done].
    intros y (e' & <- & He')%in_map_iff. apply time_mono. apply edges_of_behind in He'; lia.
Qed.

(** In front of the last instant, a time lies at or behind a position's time exactly when its
    position does. *)
Lemma time_of_position a t :
  t < u64_max -> (saturating_mul64 a (timestamp_step q) <=? t) = (a <=? t / timestamp_step q).
Proof.
  intros Ht. apply Bool.eq_iff_eq_true. rewrite !Z.leb_le, le_div by done.
  unfold saturating_mul64. lia.
Qed.

Lemma edges_of_level t p :
  0 <= p -> t < u64_max -> p <= t / timestamp_step q < total_samples q ->
  bool_level_at (level p) (map (to_sample q) (edges_of q p)) t = level (t / timestamp_step q).
Proof.
  intros Hp Ht. revert p Hp. apply (edges_of_ind (fun p es => p <= t / timestamp_step q < total_samples q ->
    bool_level_at (level p) (map (to_sample q) es) t = level (t / timestamp_step q))).
  - intros p Hp Hc Hx. cbn. symmetry. by apply Hc.
  - intros p e es Hp He Hv Hc Hes IH Hx. cbn [map]. rewrite bool_level_at_cons.
    cbn [to_sample start_time_ns Events.level]. rewrite time_of_position by done.
    destruct (Z.leb_spec (sample e) (t / timestamp_step q)) as [Hle|Hlt].
    + rewrite Hv. apply IH. lia.
    + rewrite (Hc (t / timestamp_step q)) by lia. apply bool_level_at_later. subst es.
      intros s (e' & <- & He')%in_map_iff. apply edges_of_behind in He'; [|lia].
      cbn. apply Z.nle_gt. rewrite <- Z.leb_le, time_of_position, Z.leb_le by done. lia.
Qed.

Lemma queried_input_level t :
  0 < total_samples q -> 0 <= t < u64_max -> t / timestamp_step q < total_samples q ->
  bool_level_at false (input_pending (queried_input q)) t = level (t / timestamp_step q).
Proof.
  intros Hn Ht Hx. unfold input_pending. cbn [queried_input queried stream fresh_lane head lane_eos
    query_cursor query_future].
  rewrite answers_value by lia. cbn [map]. cbn [option_list option_rect app]. rewrite bool_level_at_cons.
  change (start_time_ns (to_sample q (mkTransition 0 (level 0)))) with 0.
  rewrite (proj2 (Z.leb_le 0 t)) by lia. cbn. apply edges_of_level; [done|lia|].
  split; [apply Z.div_pos; lia|done].
Qed.

Lemma queried_input_ascending :
  0 < total_samples q -> ascending start_time_ns (input_pending (queried_input q)).
Proof.
  intros Hn. unfold input_pending. cbn [queried_input queried stream fresh_lane head lane_eos
    query_cursor query_future].
  rewrite answers_value by lia. cbn [map]. cbn [option_list option_rect app]. apply ascending_cons. split; [|by apply edges_of_ascending].
  intros y (e & <- & He)%in_map_iff. apply time_mono. cbn. apply edges_of_behind in He; lia.
Qed.
End Query.

(** ** One turn *)

Definition drop_input (i : GateInput) : GateInput := set_stream (drop_head (stream i)) i.

Definition input_filled (i : GateInput) : Prop :=
  head (stream i) = hd_error (input_pending i) /\ input_pending (drop_input i) = tl (input_pending i).

Lemma logic_fill_input_spec index i :
  input_ok i ->
  exists i', logic_fill_input index i = (Ok tt, i') /\ input_ok i' /\
    input_pending i' = input_pending i /\ input_filled i'.
Proof.
  destruct i as [l [q|] cursor]; unfold input_ok, input_filled, logic_fill_input, drop_input, input_pending;
    cbn [queried stream query_cursor set_stream].
  2: { intros Hc. unfold zoom. cbn [stream]. fill_lane Hc. eexists. split; [done|]. cbn.
       split; [done|]. split; [done|]. apply filled_cases in Hf as [(H1 & _ & H2)|(x & rest & H1 & H2 & H3)].
       - rewrite H1, H2. split; [done|]. unfold pending, drop_head in *. cbn.
         by rewrite H2 in H1.
       - by rewrite H1, H2, H3. }
  intros ([level Hq] & Htot & Hcur). destruct l as [port [h|] fin]; cbn.
  { eexists. split; [done|]. split; [by split; [exists level|]|]. by split. }
  destruct fin; cbn.
  { eexists. split; [done|]. split; [by split; [exists level|]|]. by split. }
  destruct cursor as [p|]; cbn [query_head query_future].
  - destruct (edges_of_next q level p (Hcur p eq_refl)) as (r & -> & Hr & ->). destruct r as [e|]; cbn.
    + eexists. split; [done|]. split; [split; [by exists level|]|by split].
      split; [done|]. intros x [= <-]. destruct Hr as [He _]. specialize (Hcur p eq_refl). lia.
    + eexists. split; [done|]. split; [by split; [exists level|]|by split].
  - rewrite answers_value by lia. cbn. eexists. split; [done|].
    split; [split; [by exists level|]|by split]. split; [done|]. by intros x [= <-].
Qed.

Lemma logic_fill_spec index ins :
  Forall input_ok ins ->
  exists ins', logic_fill index ins = (Ok tt, ins') /\ Forall input_ok ins' /\
    map input_pending ins' = map input_pending ins /\ Forall input_filled ins'.
Proof.
  intros H. revert index. induction H as [|i ins Hi Hins IH]; intros index; cbn [logic_fill].
  { by exists []. }
  destruct (logic_fill_input_spec index i Hi) as (i' & -> & H1 & H2 & H3).
  destruct (IH (S index)) as (ins' & -> & H4 & H5 & H6). exists (i' :: ins').
  split; [done|]. split; [by constructor|]. split; [cbn; congruence|by constructor].
Qed.

Lemma missing_input_none index ins : Forall input_ok ins -> missing_input index ins = None.
Proof.
  intros H. revert index. induction H as [|[l [q|] c] ins Hi Hins IH]; intros index; cbn; auto.
  destruct Hi as [port Hp]. cbn in Hp. by rewrite Hp.
Qed.

Lemma filled_heads ins :
  Forall input_filled ins -> map (fun i => head (stream i)) ins = map hd_error (map input_pending ins).
Proof. induction 1 as [|i ins [Hi _] _ IH]; [done|]. cbn. by rewrite Hi, IH. Qed.

Lemma drop_inputs n ins :
  Forall input_filled ins ->
  map input_pending (alter drop_input n ins) = alter tl n (map input_pending ins).
Proof.
  intros H. revert n. induction H as [|i ins [_ Hi] _ IH]; intros [|n]; [done..| |].
  - cbn. by rewrite Hi.
  - cbn in *. by rewrite IH.
Qed.

Lemma drop_input_ok i : input_ok i -> input_ok (drop_input i).
Proof. by destruct i as [l [q|] c]. Qed.

(** ** The output *)

(** The changes of the operation along a merged stream. *)
Fixpoint gate_changes (op : GateOp) (ls : list bool) (edges : list (nat * Sample)) : list Sample :=
  match edges with
  | [] => []
  | (i, s) :: edges =>
      let ls' := <[i := level s]> ls in
      (if Bool.eqb (combine op ls') (combine op ls) then []
       else [mkSample (combine op ls') (start_time_ns s)]) ++ gate_changes op ls' edges
  end.

(** A stream of levels each of which differs from the one in front of it. *)
Fixpoint changing (before : bool) (samples : list Sample) : Prop :=
  match samples with
  | [] => True
  | s :: samples => level s <> before /\ changing (level s) samples
  end.

Definition times_from (bound : Z) (streams : list (list Sample)) : Prop :=
  Forall (fun s => forall x, In x s -> bound <= start_time_ns x) streams.

Lemma times_from_alter bound i x rest streams :
  streams !! i = Some (x :: rest) -> times_from bound streams -> times_from bound (alter tl i streams).
Proof.
  intros _. apply alter_tl_Forall. intros [|y s] H z Hz; [done|]. apply H. by right.
Qed.

(** The levels of the streams at a time, from the levels in front of them. *)
Definition levels_of (t : Z) (ls : list bool) (streams : list (list Sample)) : list bool :=
  zip_with (fun l s => bool_level_at l s t) ls streams.

Lemma levels_of_later t ls streams :
  length ls = length streams -> times_from (t + 1) streams -> levels_of t ls streams = ls.
Proof.
  intros Hlen H. unfold levels_of. revert ls Hlen. induction H as [|s streams Hs _ IH]; intros [|l ls] Hlen;
    try done. cbn in *. f_equal; [|apply IH; lia]. apply bool_level_at_later. intros x Hx.
  specialize (Hs x Hx). lia.
Qed.

Lemma levels_of_edge t i s rest ls streams :
  length ls = length streams -> streams !! i = Some (s :: rest) -> start_time_ns s <= t ->
  levels_of t (<[i := level s]> ls) (alter tl i streams) = levels_of t ls streams.
Proof.
  intros Hlen Hi Ht. unfold levels_of. revert i ls Hi Hlen.
  induction streams as [|s0 streams IH]; intros [|i] [|l ls] Hi Hlen; try done.
  - injection Hi as ->. cbn. by rewrite bool_level_at_cons, (proj2 (Z.leb_le _ _) Ht).
  - cbn in *. f_equal. apply IH; [done|lia].
Qed.

Lemma times_from_empty bound (streams : list (list Sample)) :
  Forall (fun s => s = []) streams -> times_from bound streams.
Proof. intros H. apply (Forall_impl _ _ _ H). by intros s -> x. Qed.

Lemma total_zero {T} (streams : list (list T)) : (total streams <= 0)%nat -> Forall (fun s => s = []) streams.
Proof.
  unfold total. induction streams as [|s streams IH]; intros H; [done|]. cbn in H.
  rewrite length_app in H. constructor; [destruct s; [done|cbn in H; lia]|apply IH; lia].
Qed.

(** The merge of ordered streams from [bound] on has changes from [bound] on, in order; at any
    time the last one up to it gives the operation on the streams' levels. *)
Lemma gate_changes_spec op n ls streams bound :
  length ls = length streams -> Forall (ascending start_time_ns) streams ->
  (total streams <= n)%nat -> times_from bound streams ->
  let out := gate_changes op ls (merged start_time_ns n streams) in
  changing (combine op ls) out /\ ascending start_time_ns out /\
  (forall s, In s out -> bound <= start_time_ns s) /\
  (forall t, bool_level_at (combine op ls) out t = combine op (levels_of t ls streams)).
Proof.
  assert (Hdone : forall ls streams, length ls = length streams -> Forall (fun s => s = []) streams ->
    changing (combine op ls) [] /\ ascending start_time_ns [] /\
    (forall s, In s [] -> bound <= start_time_ns s) /\
    (forall t, bool_level_at (combine op ls) [] t = combine op (levels_of t ls streams))).
  { intros ls' streams' Hlen H. split; [done|]. split; [apply ascending_nil|]. split; [done|]. intros t.
    by rewrite levels_of_later by auto using times_from_empty. }
  revert ls streams bound Hdone. induction n as [|n IH]; intros ls streams bound Hdone Hlen Hs Hn Hb.
  { apply Hdone; auto using total_zero. }
  cbn [merged]. pose proof (earliest_spec start_time_ns streams Hs) as He.
  destruct (earliest _ _) as [[i s]|]; [|by apply Hdone].
  destruct He as (rest & Hi & Hle). cbn [gate_changes]. set (ls' := <[i := level s]> ls).
  assert (Hbs : bound <= start_time_ns s) by (apply (proj1 (Forall_lookup _ _) Hb _ _ Hi); by left).
  destruct (IH ls' (alter tl i streams) (start_time_ns s)) as (H1 & H2 & H3 & H4).
  { intros x y Hxy Hy. destruct (Hdone x y Hxy Hy) as (D1 & D2 & _ & D4). by split_and!. }
  { unfold ls'. by rewrite length_insert, length_alter. }
  { by apply alter_tl_Forall; [apply ascending_tl|]. }
  { rewrite (total_alter _ _ _ _ Hi) in Hn. lia. } { by apply (times_from_alter _ _ s rest). }
  set (rest' := gate_changes op ls' _) in *.
  assert (Hlevel : forall t, bool_level_at (if start_time_ns s <=? t then combine op ls' else combine op ls)
    rest' t = combine op (levels_of t ls streams)).
  { intros t. destruct (Z.leb_spec (start_time_ns s) t) as [Ht|Ht].
    - rewrite H4. unfold ls'. by rewrite (levels_of_edge _ _ _ rest).
    - rewrite bool_level_at_later by (intros x Hx; specialize (H3 x Hx); lia).
      rewrite levels_of_later; [done..|]. apply (Forall_impl _ _ _ Hle).
      intros x H y Hy. specialize (H y Hy). lia. }
  destruct (Bool.eqb (combine op ls') (combine op ls)) eqn:Heq; cbn [app].
  - apply eqb_prop in Heq. rewrite Heq in H1. split; [done|]. split; [done|].
    split; [intros x Hx; specialize (H3 x Hx); lia|]. intros t. rewrite <- Hlevel, Heq.
    by destruct (_ <=? _).
  - apply eqb_false_iff in Heq. split; [by split|]. split; [apply ascending_cons; by split|].
    split; [intros x [<-|Hx]; [done|specialize (H3 x Hx); lia]|]. intros t.
    by rewrite bool_level_at_cons, <- Hlevel.
Qed.

(** ** Running the gate *)

Definition pendings (g : LogicGate) : list (list Sample) := map input_pending (logic_inputs g).

Definition logic_due (g : LogicGate) : list Sample :=
  (if logic_started g then [] else [mkSample (combine (logic_op g) (levels g)) 0]) ++
  gate_changes (logic_op g) (levels g) (merged start_time_ns (total (pendings g)) (pendings g)).

Definition logic_inv (i : nat) (g : LogicGate) : Prop :=
  plugged i (logic_output g) /\ length (levels g) = length (logic_inputs g) /\
  Forall input_ok (logic_inputs g) /\ Forall (ascending start_time_ns) (pendings g) /\
  times_from (last_out_ts g) (pendings g) /\
  (logic_started g = true -> last_out g = combine (logic_op g) (levels g)).

Lemma logic_start_spec i g :
  logic_inv i g ->
  exists g' emitted, logic_start g = (Ok tt, g') /\ logic_inv i g' /\ logic_started g' = true /\
    logic_inputs g' = logic_inputs g /\ sent i (logic_output g') = sent i (logic_output g) ++ emitted /\
    logic_due g = emitted ++ logic_due g'.
Proof.
  intros Hinv. unfold logic_start. destruct g as [op ls [] lo ts ins o]; cbn [logic_started].
  { eexists _, []. split; [done|]. by rewrite app_nil_r. }
  destruct Hinv as (Ho & Hrest). cbn in Ho. unfold zoom, set_last_out. cbn.
  destruct (emit_plugged i "Missing gate output" o (mkSample (combine op ls) 0) Ho) as (o' & -> & Ho' & Hs).
  eexists _, [_]. split; [done|]. split; [|split; [done|]; split; [done|]; by split].
  destruct Hrest as (H1 & H2 & H3 & H4 & _). by split_and!.
Qed.

Lemma logic_apply_spec i g index edge rest :
  logic_inv i g -> logic_started g = true -> Forall input_filled (logic_inputs g) ->
  pendings g !! index = Some (edge :: rest) ->
  times_from (start_time_ns edge) (pendings g) ->
  exists k g' emitted, logic_apply index edge g = (Ok k, g') /\ logic_inv i g' /\
    logic_started g' = true /\ logic_op g' = logic_op g /\
    levels g' = <[index := level edge]> (levels g) /\
    pendings g' = alter tl index (pendings g) /\
    sent i (logic_output g') = sent i (logic_output g) ++ emitted /\
    emitted = (if Bool.eqb (combine (logic_op g) (<[index := level edge]> (levels g)))
                 (combine (logic_op g) (levels g)) then []
               else [mkSample (combine (logic_op g) (<[index := level edge]> (levels g)))
                      (start_time_ns edge)]).
Proof.
  destruct g as [op ls st lo ts ins o]. intros (Ho & Hlen & Hok & Has & Ht & Hlast) Hst Hf Hi Hle.
  cbn in *. specialize (Hlast Hst). subst st lo. unfold logic_apply. cbn.
  fold drop_input. pose proof (drop_inputs index ins Hf) as Hd.
  set (ls' := <[index := level edge]> ls) in *.
  assert (Hlen' : length ls' = length (alter drop_input index ins)).
  { unfold ls'. by rewrite length_insert, length_alter. }
  assert (Hok' : Forall input_ok (alter drop_input index ins)).
  { apply Forall_alter; [done|]. intros x _. apply drop_input_ok. }
  assert (Has' : Forall (ascending start_time_ns) (alter tl index (map input_pending ins))).
  { by apply alter_tl_Forall; [apply ascending_tl|]. }
  assert (Hts : ts <= start_time_ns edge).
  { apply (proj1 (Forall_lookup _ _) Ht _ _ Hi). by left. }
  destruct (Bool.eqb (combine op ls') (combine op ls)) eqn:Heq.
  - eexists 0, _, []. split; [done|]. unfold logic_inv, pendings. cbn. rewrite app_nil_r, Hd.
    split; [|done]. split_and!; try done; [by apply (times_from_alter _ _ edge rest)|].
    intros _. by apply eqb_prop in Heq.
  - rewrite (proj2 (Z.ltb_ge _ _) Hts).
    destruct (emit_plugged i "Missing gate output" o (mkSample (combine op ls') (start_time_ns edge)) Ho)
      as (o' & He & Ho' & Hs).
    eexists 1, _, [_]. unfold zoom. cbn. rewrite He. cbn. split; [done|].
    unfold logic_inv, pendings. cbn. rewrite Hd. split; [|by split_and!].
    split_and!; try done. by apply (times_from_alter _ _ edge rest).
Qed.

#[export] Instance logic_drains i :
  Drains logic_work (logic_inv i) (fun g => total (pendings g)) (fun g => sent i (logic_output g)) logic_due.
Proof.
  constructor. intros g Hinv. unfold logic_work.
  destruct (logic_output g) as [out|] eqn:Hout; [|by destruct Hinv as [Ho _]; rewrite Hout in Ho].
  destruct (logic_start_spec i g Hinv) as (g1 & em1 & -> & Hinv1 & Hst & Hins1 & Hs1 & Hd1).
  rewrite Hout in Hs1. pose proof Hinv1 as (Ho & Hlen & Hok & Has & Ht & Hlast).
  rewrite missing_input_none by done. unfold zoom.
  destruct (logic_fill_spec 0 _ Hok) as (ins & -> & Hok2 & Hp2 & Hf2).
  set (g2 := set_logic_inputs ins g1). cbn [logic_inputs set_logic_inputs].
  assert (Hpend : pendings g2 = pendings g1) by done.
  assert (Hinv2 : logic_inv i g2).
  { unfold logic_inv. rewrite Hpend. destruct g1; cbn in *. split_and!; try done.
    by rewrite Hlen, <- (length_map input_pending), <- Hp2, length_map. }
  assert (Hd2 : logic_due g2 = logic_due g1) by (unfold logic_due; rewrite Hpend; by destruct g1).
  assert (Hs2 : sent i (logic_output g2) = sent i (logic_output g1)) by by destruct g1.
  assert (Hp1 : pendings g1 = pendings g) by (unfold pendings; by rewrite Hins1).
  replace (map _ (logic_inputs g2)) with (map hd_error (pendings g2))
    by (symmetry; by apply filled_heads).
  rewrite Hpend. pose proof (earliest_spec start_time_ns _ Has) as He.
  assert (Hdue : logic_due g2 = gate_changes (logic_op g2) (levels g2)
    (merged start_time_ns (total (pendings g1)) (pendings g1))).
  { unfold logic_due. rewrite Hpend. replace (logic_started g2) with true by by destruct g1. done. }
  destruct (earliest _ _) as [[index edge]|] eqn:Hear.
  - destruct He as (rest & Hi & Hle). rewrite <- Hpend in Hi, Hle.
    destruct (logic_apply_spec i g2 index edge rest Hinv2 (ltac:(by destruct g1)) Hf2 Hi Hle)
      as (k & g3 & em3 & -> & Hinv3 & Hst3 & Hop3 & Hl3 & Hp3 & Hs3 & Hem).
    assert (Htotal : total (pendings g1) = S (total (pendings g3))).
    { rewrite Hp3, <- Hpend. by apply (total_alter _ _ edge rest). }
    split; [done|]. split; [rewrite <- Hp1; lia|]. exists (em1 ++ em3).
    rewrite Hs3, Hs2, Hs1, Hd1, <- Hd2, Hdue, Htotal, !app_assoc. split; [done|].
    cbn [merged]. rewrite Hear. cbn [gate_changes]. rewrite <- !app_assoc, <- Hem. do 2 f_equal.
    unfold logic_due. rewrite Hst3, Hop3, Hl3, Hp3, <- Hpend. done.
  - split; [done|]. split; [done|]. rewrite Hs2, Hs1, Hd1, <- Hd2, Hdue. f_equal.
    destruct (total (pendings g1)); cbn [merged]; [|rewrite Hear]; by rewrite app_nil_r.
Qed.

(** ** The contract *)

(** An input whose stream is in order, or whose query answers and has a time per sample. *)
Inductive ready : GateInput -> Prop :=
| ready_stream r : ascending start_time_ns (items r) ->
    (forall s, In s (items r) -> 0 <= start_time_ns s) -> ready (streamed_input r)
| ready_query q level : Answers q level -> 0 < total_samples q -> 0 < timestamp_step q ->
    ready (queried_input q).

(** The level of an input at a time: the last one of its stream, low in front of the first one,
    or that of its query at the position of the time, if the query lasts so long. *)
Inductive reads (t : Z) : GateInput -> bool -> Prop :=
| reads_stream r : reads t (streamed_input r) (bool_level_at false (items r) t)
| reads_query q level : Answers q level -> t / timestamp_step q < total_samples q ->
    reads t (queried_input q) (level (t / timestamp_step q)).

Lemma ready_input i :
  ready i -> input_ok i /\ ascending start_time_ns (input_pending i) /\
  (forall s, In s (input_pending i) -> 0 <= start_time_ns s).
Proof.
  intros [r Ha Hp|q level Hq Hn Hs]; [by split; [by eexists|]|].
  pose proof (queried_input_ascending q level Hs Hn) as Ha.
  split; [split; [by exists level|done]|]. split; [done|].
  unfold input_pending in *. cbn in *. rewrite answers_value in * by lia. cbn in *.
  apply ascending_cons in Ha as [Ha _]. intros s [<-|Hin]; [done|by apply Ha].
Qed.

Lemma reads_level t inputs bs :
  0 <= t < u64_max -> Forall ready inputs -> Forall2 (reads t) inputs bs ->
  levels_of t (replicate (length inputs) false) (map input_pending inputs) = bs.
Proof.
  intros Ht Hr H. unfold levels_of. induction H as [|i b inputs bs Hb _ IH]; [done|].
  apply Forall_cons in Hr as [Hi Hr]. cbn. rewrite IH by done. f_equal.
  destruct Hb as [r|q level Hq Hx]; [done|].
  remember (queried_input q) as i eqn:Heq. destruct Hi as [|q' level' Hq' Hn Hs]; [done|].
  injection Heq as ->. by apply queried_input_level.
Qed.

(** C13. A logic gate fed by any mixture of streams, however enveloped and interleaved, and of
    edge queries runs to the end of its inputs.  It sends its output for low inputs at time zero,
    then only changes, in the order of their times; at any time the last one sent is the
    operation applied to the levels of the inputs at that time. *)
Theorem logic_gate_level i op inputs out g fuel :
  LogicGate_new op inputs out = Some g -> Forall ready inputs -> plugged i out ->
  (total (map input_pending inputs) < fuel)%nat ->
  let low := combine op (replicate (length inputs) false) in
  exists n g' changes, run fuel logic_work g 0 = Some (Shutdown, n, g') /\
    sent i (logic_output g') = sent i out ++ mkSample low 0 :: changes /\
    changing low changes /\ ascending start_time_ns changes /\
    (forall t bs, 0 <= t < u64_max -> Forall2 (reads t) inputs bs ->
      bool_level_at low changes t = combine op bs).
Proof.
  intros Hnew Hr Ho Hf low. unfold LogicGate_new in Hnew. destruct (_ && _); [|done].
  injection Hnew as <-.
  set (g := mkLogicGate op (replicate (length inputs) false) false false 0 inputs out).
  assert (Hready : Forall input_ok inputs /\ Forall (ascending start_time_ns) (pendings g) /\
    times_from 0 (pendings g)).
  { unfold pendings, times_from. cbn. rewrite !Forall_map. split_and!;
      apply (Forall_impl _ _ _ Hr); intros x Hx; by destruct (ready_input x Hx) as (? & ? & ?). }
  destruct Hready as (H1 & H2 & H3).
  assert (Hlen : length (replicate (length inputs) false) = length inputs) by apply length_replicate.
  destruct (run_drains _ _ _ _ _ (Drains0 := logic_drains i) fuel g 0) as (n & g' & Hrun & Hs & _).
  { split_and!; done. } { done. }
  destruct (gate_changes_spec op (total (pendings g)) (replicate (length inputs) false) (pendings g) 0)
    as (C1 & C2 & _ & C4); [by unfold pendings; rewrite length_map|done|lia|done|].
  exists n, g', (gate_changes op (replicate (length inputs) false)
    (merged start_time_ns (total (pendings g)) (pendings g))).
  split; [done|]. split; [by rewrite Hs|]. split; [done|]. split; [done|].
  intros t bs Ht Hbs. unfold low. rewrite C4. f_equal. by apply reads_level.
Qed.

(** A channel of a hundred samples at 1 GHz, high but for positions 20 to 59. *)
Definition sample_level : RecordedEdgeQuery :=
  record (record (RecordedEdgeQuery_new true) 20 false) 60 true.

Definition sample_query : EdgeQuery :=
  mkQuery (f64_of_Z 1000000000) 100
    (query_value_at (recorded_query sample_level)) (query_next_edge (recorded_query sample_level)).

Definition sample_stream : Receiver Sample :=
  fresh_receiver [Arrive (Batch [mkSample true 10; mkSample false 40]); Idle;
    Arrive (SampleMsg (mkSample true 50))].

Lemma sample_query_answers :
  Answers sample_query (fun p => from_option id false (value_at sample_level p)).
Proof.
  assert (Hok : query_ok sample_level) by (cbn; auto with lia).
  pose proof (recorded_query_answers sample_level Hok) as Ha.
  assert (Hn : total_samples sample_query <= total_samples (recorded_query sample_level))
    by (vm_compute; discriminate).
  constructor; [intros p [Hp Hl]|intros p limit Hp Hl]; apply Ha; lia.
Qed.

Lemma logic_gate_level_witness :
  exists g, LogicGate_new And [queried_input sample_query; streamed_input sample_stream] open_port
      = Some g /\
    exists n g' changes, run 20 logic_work g 0 = Some (Shutdown, n, g') /\
      sent 0 (logic_output g') = mkSample false 0 :: changes /\
      changes = [mkSample true 10; mkSample false 20; mkSample true 60] /\
      bool_level_at false changes 70 = true.
Proof.
  eexists. split; [reflexivity|].
  destruct (logic_gate_level 0 And [queried_input sample_query; streamed_input sample_stream]
    open_port _ 20 eq_refl) as (n & g' & changes & Hrun & Hs & _ & _ & Hl).
  - constructor; [apply (ready_query _ _ sample_query_answers); vm_compute; reflexivity|].
    constructor; [|constructor]. apply ready_stream; [apply ascendingb_spec; reflexivity|].
    intros s [<-|[<-|[<-|[]]]]; cbn; lia.
  - by eexists.
  - vm_compute. lia.
  - exists n, g', changes. split; [exact Hrun|]. split; [exact Hs|]. split.
    + vm_compute in Hrun. injection Hrun as <- <-. vm_compute in Hs. by injection Hs as <-.
    + apply (Hl 70 [from_option id false (value_at sample_level (70 / timestamp_step sample_query));
        bool_level_at false (items sample_stream) 70]); [unfold u64_max; lia|].
      constructor; [|constructor; [constructor|constructor]].
      apply (reads_query 70 _ _ sample_query_answers). vm_compute. reflexivity.
Defined.
