(* ===== verification/WordNodes.v ===== *)
(** The nodes of [crates/signal_transforms] that transform words one by one: the word field
    extractor.  The matcher is in [WordMatcher]. *)

From S2P Require Import Prelude Events Runtime EventNodes.

(** ** Word field extractor *)

(** A shift by a bit number within a byte or a 64-bit value.
    [crates/signal_transforms/src/word_field_extractor/extractor.rs:46-60] WordFieldExtractor::source_bit *)
Definition source_bit (w : Word) (bit : Z) : bool :=
  match payload w with
  | Some (Bytes bytes) =>
      let byte_from_end := bit / 8 in
      if zlen bytes <=? byte_from_end then false
      else
        match byte_at bytes (zlen bytes - 1 - byte_from_end) with
        | Some byte => negb (Z.land byte (Z.shiftl 1 (bit mod 8)) =? 0)
        | None => false
        end
  | Some (Text _) | None => (bit <? 64) && negb (Z.land (value w) (Z.shiftl 1 bit) =? 0)
  end.

(** [usize] is 64 bits wide.
    [crates/signal_transforms/src/word_field_extractor/extractor.rs:62-70] WordFieldExtractor::low_value *)
Definition low_value (first_bit bit_count : Z) (w : Word) : Z :=
  fold_left (fun value output_bit =>
      if source_bit w (saturating_add64 first_bit (Z.of_nat output_bit))
      then Z.lor value (Z.shiftl 1 (Z.of_nat output_bit)) else value)
    (seq 0 (Z.to_nat (Z.min bit_count 64))) 0.

(** [crates/signal_transforms/src/word_field_extractor/extractor.rs:72-82] WordFieldExtractor::extracted_bytes *)
Definition extracted_bytes (first_bit bit_count : Z) (w : Word) : list Z :=
  let length := Z.to_nat (div_ceil bit_count 8) in
  fold_left (fun bytes output_bit =>
      if source_bit w (saturating_add64 first_bit (Z.of_nat output_bit)) then
        let byte_from_end := (output_bit / 8)%nat in
        alter (fun byte => Z.lor byte (Z.shiftl 1 (Z.of_nat (output_bit mod 8))))
          (length - 1 - byte_from_end)%nat bytes
      else bytes)
    (seq 0 (Z.to_nat bit_count)) (replicate length 0).

(** [crates/signal_transforms/src/word_field_extractor/extractor.rs:84-96] WordFieldExtractor::extract *)
Definition extract (first_bit bit_count : Z) (w : Word) : Word :=
  let value := low_value first_bit bit_count w in
  if bit_count <=? 64 then spanning value (timestamp_ns w) (duration_ns w)
  else bytes_with_tag value (extracted_bytes first_bit bit_count w) (timestamp_ns w) (duration_ns w).

(** [crates/signal_transforms/src/word_field_extractor/extractor.rs:18-23] WordFieldExtractor *)
Record WordFieldExtractor := mkExtractor {
  first_bit : Z;
  bit_count : Z;
  extractor_words : option (Receiver Word);
  field_output : option (Sender Word)
}.

(** [crates/signal_transforms/src/word_field_extractor/extractor.rs:31-38] WordFieldExtractor::new *)
Definition WordFieldExtractor_new (first_bit bit_count : Z) words output : WordFieldExtractor :=
  mkExtractor first_bit (Z.max bit_count 1) words output.

(** [crates/signal_transforms/src/word_field_extractor/extractor.rs:123-137] WordFieldExtractor::work *)
Definition extractor_work (x : WordFieldExtractor) : WorkResult Z * WordFieldExtractor :=
  match extractor_words x, field_output x with
  | None, _ => (Err (NodeError "Missing words input"), x)
  | Some _, None => (Err (NodeError "Missing field output"), x)
  | Some input, Some output =>
      let '(res, input) := recv input in
      match res with
      | Err e => (Err e, mkExtractor (first_bit x) (bit_count x) (Some input) (Some output))
      | Ok w =>
          let '(res, output) := send output (extract (first_bit x) (bit_count x) w) in
          (match res with Ok _ => Ok 1 | Err e => Err e end,
           mkExtractor (first_bit x) (bit_count x) (Some input) (Some output))
      end
  end.

(** The number a word stands for: its bytes as a big-endian number, or its value. *)
Definition be_value (bytes : list Z) : Z := from_le_bytes (reverse bytes).

Definition word_number (w : Word) : Z :=
  match payload w with Some (Bytes bytes) => be_value bytes | _ => value w end.

Definition word_ok (w : Word) : Prop :=
  u64 (value w) /\ match payload w with Some (Bytes bytes) => bytes_ok bytes | _ => True end.

Lemma source_bit_testbit w k :
  word_ok w -> 0 <= k -> source_bit w k = Z.testbit (word_number w) k.
Proof.
  intros [Hv Hp] Hk. unfold source_bit, word_number.
  assert (Hval : (k <? 64) && negb (Z.land (value w) (Z.shiftl 1 k) =? 0) = Z.testbit (value w) k).
  { rewrite land_bit by done. destruct (Z.ltb_spec k 64); [done|]. by rewrite testbit_u64. }
  destruct (payload w) as [[bytes|]|]; [|done..].
  unfold be_value. rewrite testbit_from_le_bytes by (done || by apply bytes_ok_reverse).
  assert (0 <= k / 8) by (apply Z.div_pos; lia). unfold zlen.
  destruct (Z.leb_spec (Z.of_nat (length bytes)) (k / 8)).
  - rewrite lookup_ge_None_2; [done|]. rewrite length_reverse. lia.
  - rewrite reverse_lookup by lia. unfold byte_at. rewrite (proj2 (Z.ltb_ge _ _)) by lia.
    replace (Z.to_nat (Z.of_nat (length bytes) - 1 - k / 8))
      with (length bytes - S (Z.to_nat (k / 8)))%nat by lia.
    destruct (bytes !! _) as [b|]; [|done]. apply land_bit. apply Z.mod_pos_bound. lia.
Qed.

(** Setting bits one at a time in a number. *)
Lemma fold_set_bits (P : nat -> bool) n k :
  0 <= k ->
  Z.testbit (fold_left (fun v j => if P j then Z.lor v (Z.shiftl 1 (Z.of_nat j)) else v)
    (seq 0 n) 0) k = (k <? Z.of_nat n) && P (Z.to_nat k).
Proof.
  intros Hk. induction n as [|n IH].
  - rewrite (proj2 (Z.ltb_ge _ _)) by lia. apply Z.bits_0.
  - rewrite seq_S, fold_left_app. cbn [fold_left Nat.add].
    assert (Hbit : Z.testbit (Z.shiftl 1 (Z.of_nat n)) k = (Z.of_nat n =? k)).
    { by rewrite Z.shiftl_1_l, Z.pow2_bits_eqb by lia. }
    destruct (decide (k = Z.of_nat n)) as [->|Hne].
    + rewrite Nat2Z.id in *. rewrite Z.ltb_irrefl in IH. rewrite (proj2 (Z.ltb_lt _ _)) by lia.
      destruct (P n); [|done]. by rewrite Z.lor_spec, Hbit, Z.eqb_refl, orb_true_r.
    + replace (k <? Z.of_nat (S n)) with (k <? Z.of_nat n)
        by (apply Bool.eq_iff_eq_true; rewrite !Z.ltb_lt; lia).
      rewrite <- IH. destruct (P n); [|done]. rewrite Z.lor_spec, Hbit.
      by rewrite (proj2 (Z.eqb_neq _ _)), orb_false_r by lia.
Qed.

(** The bits of a big-endian byte array after setting those of the first [n] that [P] selects. *)
Definition array_bits (P : nat -> bool) (n len : nat) (bytes : list Z) : Prop :=
  length bytes = len /\
  forall i, (i < len)%nat -> exists b, bytes !! (len - 1 - i)%nat = Some b /\ u8 b /\
    forall t, (t < 8)%nat -> Z.testbit b (Z.of_nat t) = Nat.ltb (8 * i + t) n && P (8 * i + t)%nat.

Lemma u8_set_bit b t : u8 b -> (t < 8)%nat -> u8 (Z.lor b (Z.shiftl 1 (Z.of_nat t))).
Proof.
  intros Hb Ht. unfold u8 in *.
  assert (0 <= Z.lor b (Z.shiftl 1 (Z.of_nat t))).
  { apply Z.lor_nonneg. split; [lia|]. apply Z.shiftl_nonneg. lia. }
  split; [done|]. change 256 with (2 ^ 8).
  rewrite <- (Z.mod_small b (2 ^ 8)) by done.
  rewrite Z.shiftl_1_l, <- (Z.mod_small (2 ^ Z.of_nat t) (2 ^ 8)).
  - rewrite <- !Z.land_ones, <- Z.land_lor_distr_l, Z.land_ones by lia. by apply Z.mod_pos_bound.
  - split; [lia|]. apply Z.pow_lt_mono_r; lia.
Qed.

Lemma array_bits_step P n len bytes :
  (n < 8 * len)%nat -> array_bits P n len bytes ->
  array_bits P (S n) len
    (if P n then alter (fun b => Z.lor b (Z.shiftl 1 (Z.of_nat (n mod 8)))) (len - 1 - n / 8)%nat bytes
     else bytes).
Proof.
  intros Hn [Hlen Hbits]. pose proof (Nat.div_mod n 8 ltac:(lia)) as Hdm.
  pose proof (Nat.mod_upper_bound n 8 ltac:(lia)) as Hmod.
  assert (Hq : (n / 8 < len)%nat) by (apply Nat.Div0.div_lt_upper_bound; lia).
  split; [by destruct (P n); rewrite ?length_alter|].
  intros i Hi. destruct (Hbits i Hi) as (b & Hb & Hu & Ht).
  destruct (decide (i = n / 8)%nat) as [->|Hne].
  - destruct (P n) eqn:HP.
    + exists (Z.lor b (Z.shiftl 1 (Z.of_nat (n mod 8)))). rewrite list_lookup_alter_eq, Hb.
      split; [done|]. split; [by apply u8_set_bit|]. intros t Htl.
      rewrite Z.lor_spec, (Ht t Htl), Z.shiftl_1_l, Z.pow2_bits_eqb by lia.
      destruct (Z.eqb_spec (Z.of_nat (n mod 8)) (Z.of_nat t)).
      * replace (8 * (n / 8) + t)%nat with n by lia. rewrite HP, orb_true_r.
        by rewrite (proj2 (Nat.ltb_lt n (S n))) by lia.
      * rewrite orb_false_r. f_equal. apply Bool.eq_iff_eq_true. rewrite !Nat.ltb_lt. lia.
    + exists b. split; [done|]. split; [done|]. intros t Htl. rewrite (Ht t Htl).
      destruct (decide (8 * (n / 8) + t = n)%nat) as [->|]; [by rewrite HP, !andb_false_r|].
      f_equal. apply Bool.eq_iff_eq_true. rewrite !Nat.ltb_lt. lia.
  - exists b. split; [destruct (P n); [rewrite list_lookup_alter_ne by lia|]; done|].
    split; [done|]. intros t Htl. rewrite (Ht t Htl). f_equal.
    apply Bool.eq_iff_eq_true. rewrite !Nat.ltb_lt. lia.
Qed.

Lemma array_bits_fold P n len :
  (n <= 8 * len)%nat ->
  array_bits P n len (fold_left (fun bytes j =>
      if P j then alter (fun b => Z.lor b (Z.shiftl 1 (Z.of_nat (j mod 8)))) (len - 1 - j / 8)%nat bytes
      else bytes) (seq 0 n) (replicate len 0)).
Proof.
  induction n as [|n IH]; intros Hn.
  - cbn [seq fold_left]. split; [apply length_replicate|]. intros i Hi. exists 0.
    rewrite lookup_replicate_2 by lia. split; [done|]. split; [unfold u8; lia|].
    intros t _. apply Z.bits_0.
  - rewrite seq_S, fold_left_app. cbn [fold_left Nat.add]. apply array_bits_step; [lia|]. apply IH. lia.
Qed.

Lemma array_bits_value P n len bytes k :
  array_bits P n len bytes -> (n <= 8 * len)%nat -> 0 <= k ->
  bytes_ok bytes /\ Z.testbit (be_value bytes) k = (k <? Z.of_nat n) && P (Z.to_nat k).
Proof.
  intros [Hlen Hbits] Hn Hk.
  assert (Hok : bytes_ok bytes).
  { apply Forall_lookup. intros i b Hb. pose proof (lookup_lt_Some _ _ _ Hb).
    destruct (Hbits (len - 1 - i)%nat ltac:(lia)) as (b' & Hb' & Hu & _).
    replace (len - 1 - (len - 1 - i))%nat with i in Hb' by lia. congruence. }
  split; [done|]. unfold be_value.
  rewrite testbit_from_le_bytes by (done || by apply bytes_ok_reverse).
  assert (0 <= k / 8) by (apply Z.div_pos; lia).
  pose proof (Z.div_mod k 8 ltac:(lia)). pose proof (Z.mod_pos_bound k 8 ltac:(lia)).
  destruct (decide (Z.to_nat (k / 8) < len)%nat) as [Hi|Hi].
  - rewrite reverse_lookup by lia. destruct (Hbits _ Hi) as (b & Hb & _ & Ht).
    replace (length bytes - S (Z.to_nat (k / 8)))%nat with (len - 1 - Z.to_nat (k / 8))%nat by lia.
    rewrite Hb. specialize (Ht (Z.to_nat (k mod 8)) ltac:(lia)).
    rewrite Z2Nat.id in Ht by lia. rewrite Ht.
    replace (8 * Z.to_nat (k / 8) + Z.to_nat (k mod 8))%nat with (Z.to_nat k) by lia. f_equal.
    apply Bool.eq_iff_eq_true. rewrite Nat.ltb_lt, Z.ltb_lt. lia.
  - rewrite lookup_ge_None_2 by (rewrite length_reverse; lia).
    by rewrite (proj2 (Z.ltb_ge _ _)) by lia.
Qed.

(** Field extraction is a right shift and a mask: the emitted value is the low 64 bits of
    the field of the number the word stands for (its bytes read big-endian, or its value), and a
    field wider than 64 bits is the whole field as big-endian bytes; the time span is kept. *)
Theorem extract_shift_mask first count w :
  word_ok w -> 0 <= first -> 1 <= count -> first + count <= u64_max ->
  let field := Z.shiftr (word_number w) first mod 2 ^ count in
  value (extract first count w) = field mod 2 ^ 64 /\
  match payload (extract first count w) with
  | None => count <= 64
  | Some (Bytes bytes) => 64 < count /\ bytes_ok bytes /\ zlen bytes = div_ceil count 8 /\
      be_value bytes = field
  | Some (Text _) => False
  end /\
  timestamp_ns (extract first count w) = timestamp_ns w /\
  duration_ns (extract first count w) = duration_ns w.
Proof.
  intros Hw Hf Hc Hfc. cbv zeta.
  assert (Hsat : forall j, (j < Z.to_nat count)%nat ->
    source_bit w (saturating_add64 first (Z.of_nat j)) = Z.testbit (word_number w) (first + Z.of_nat j)).
  { intros j Hj. unfold saturating_add64. rewrite Z.min_l by lia. apply source_bit_testbit; [done|lia]. }
  assert (Hlow : low_value first count w = (Z.shiftr (word_number w) first mod 2 ^ count) mod 2 ^ 64).
  { apply Z.bits_inj'. intros k Hk. unfold low_value. rewrite fold_set_bits by done.
    rewrite Z.testbit_mod_pow2, Z.testbit_mod_pow2, Z.shiftr_spec by lia.
    destruct (Z.ltb_spec k 64), (Z.ltb_spec k count), (Z.ltb_spec k (Z.of_nat (Z.to_nat (Z.min count 64))));
      try lia; try done.
    cbn [andb]. rewrite Hsat by lia. rewrite Z2Nat.id by lia. f_equal. lia. }
  unfold extract. destruct (Z.leb_spec count 64) as [H|H]; [by split_and!|].
  unfold bytes_with_tag. cbn [value payload timestamp_ns duration_ns].
  set (len := Z.to_nat (div_ceil count 8)).
  assert (Hlen : (Z.to_nat count <= 8 * len)%nat).
  { unfold len, div_ceil. pose proof (Z.div_mod (count + 8 - 1) 8).
    pose proof (Z.mod_pos_bound (count + 8 - 1) 8). lia. }
  pose proof (array_bits_fold (fun j => source_bit w (saturating_add64 first (Z.of_nat j)))
    (Z.to_nat count) len Hlen) as Hbits.
  change (fold_left _ _ _) with (extracted_bytes first count w) in Hbits.
  split; [done|]. split; [|done]. split; [done|].
  split; [by apply (array_bits_value _ _ _ _ 0 Hbits Hlen)|].
  split.
  { destruct Hbits as [Hl _]. unfold zlen. rewrite Hl. unfold len, div_ceil.
    apply Z2Nat.id, Z.div_pos; lia. }
  apply Z.bits_inj'. intros k Hk. destruct (array_bits_value _ _ _ _ k Hbits Hlen Hk) as [_ ->].
  rewrite Z.testbit_mod_pow2, Z.shiftr_spec by lia.
  rewrite Z2Nat.id by lia. destruct (Z.ltb_spec k count); [|done]. cbn [andb].
  rewrite Hsat by lia. rewrite Z2Nat.id by lia. f_equal. lia.
Qed.

Lemma extract_shift_mask_witness :
  value (extract 4 12 (bytes_with_tag 7 [18; 52; 86; 120; 154; 188; 222; 240; 15] 10 5))
    = (Z.shiftr (be_value [18; 52; 86; 120; 154; 188; 222; 240; 15]) 4 mod 2 ^ 12) mod 2 ^ 64.
Proof.
  apply (extract_shift_mask 4 12 (bytes_with_tag 7 [18; 52; 86; 120; 154; 188; 222; 240; 15] 10 5));
    [|lia|lia|unfold u64_max; lia].
  split; [simpl; ints|]. simpl. repeat constructor; ints.
Defined.
