(* ===== verification/WordMatcher.v ===== *)
(** The word matcher of [crates/signal_transforms/src/word_matcher/matcher.rs]: its predicates,
    its configuration (immediate and scheduled at a point of the timeline) and its [work]. *)

From stdpp Require sorting.
From S2P Require Import Prelude Events Runtime EventNodes.

(** ** Predicates *)

(** [crates/signal_transforms/src/word_matcher/matcher.rs:18-26] MatchOp *)
Inductive MatchOp := Eq | Ne | Lt | Le | Gt | Ge.

(** [crates/signal_transforms/src/word_matcher/matcher.rs:29-38] MatchOp::matches *)
Definition matches (op : MatchOp) (word pattern : Z) : bool :=
  match op with
  | Eq => word =? pattern
  | Ne => negb (word =? pattern)
  | Lt => word <? pattern
  | Le => word <=? pattern
  | Gt => pattern <? word
  | Ge => pattern <=? word
  end.

(** [crates/signal_transforms/src/word_matcher/matcher.rs:44-54] MatchOp::parse *)
Definition MatchOp_parse (name : string) : option MatchOp :=
  if (name =? "eq")%string then Some Eq
  else if (name =? "ne")%string then Some Ne
  else if (name =? "lt")%string then Some Lt
  else if (name =? "le")%string then Some Le
  else if (name =? "gt")%string then Some Gt
  else if (name =? "ge")%string then Some Ge
  else None.

(** [crates/signal_transforms/src/word_matcher/matcher.rs:62-66] MatchTimestamp *)
Inductive MatchTimestamp := MatchStart | MatchEnd.

(** [crates/signal_transforms/src/word_matcher/matcher.rs:70-76] MatchTimestamp::parse *)
Definition MatchTimestamp_parse (name : string) : option MatchTimestamp :=
  if (name =? "start")%string then Some MatchStart
  else if (name =? "end")%string then Some MatchEnd
  else None.

(** [crates/signal_transforms/src/word_matcher/matcher.rs:81-86] PredicateMode *)
Inductive PredicateMode := Compare | InclusiveRange | InSet.

(** [crates/signal_transforms/src/word_matcher/matcher.rs:90-97] PredicateMode::parse *)
Definition PredicateMode_parse (name : string) : option PredicateMode :=
  if (name =? "compare")%string then Some Compare
  else if (name =? "range")%string then Some InclusiveRange
  else if (name =? "set")%string then Some InSet
  else None.

(** [crates/signal_transforms/src/word_matcher/matcher.rs:139-151] MatcherSettings *)
Record MatcherSettings := mkSettings {
  pattern : Z;
  mask : Z;
  op : MatchOp;
  match_timestamp : MatchTimestamp;
  predicate_mode : PredicateMode;
  range_min : Z;
  range_max : Z;
  set_values : list Z;
  match_count : Z;
  holdoff : Z
}.

(** [#[derive(Default)]]
    [crates/signal_transforms/src/word_matcher/matcher.rs:139-151] MatcherSettings::default *)
Definition default_settings : MatcherSettings :=
  mkSettings 0 0 Eq MatchEnd Compare 0 0 [] 0 0.

(** [crates/signal_transforms/src/word_matcher/matcher.rs:359-373] WordMatcher::predicate_matches *)
Definition predicate_matches (s : MatcherSettings) (value : Z) : bool :=
  let value := Z.land value (mask s) in
  match predicate_mode s with
  | Compare => matches (op s) value (Z.land (pattern s) (mask s))
  | InclusiveRange =>
      let minimum := Z.land (range_min s) (mask s) in
      let maximum := Z.land (range_max s) (mask s) in
      (minimum <=? maximum) && ((minimum <=? value) && (value <=? maximum))
  | InSet => existsb (fun candidate => Z.land candidate (mask s) =? value) (set_values s)
  end.

(** ** Parsing a set of values *)

Definition code (c : ascii) : Z := Z.of_nat (nat_of_ascii c).

(** White space outside ASCII is not recognised. *)
Definition is_whitespace (c : ascii) : bool := (code c =? 32) || ((9 <=? code c) && (code c <=? 13)).

Fixpoint trim_start (s : list ascii) : list ascii :=
  match s with
  | c :: s' => if is_whitespace c then trim_start s' else s
  | [] => []
  end.

Definition trim (s : list ascii) : list ascii := reverse (trim_start (reverse (trim_start s))).

Fixpoint split_comma (s : list ascii) : list (list ascii) :=
  match s with
  | [] => [[]]
  | c :: s =>
      if Ascii.eqb c ","%char then [] :: split_comma s
      else match split_comma s with part :: parts => (c :: part) :: parts | [] => [[c]] end
  end.

Definition digit (radix : Z) (c : ascii) : option Z :=
  let d := if (48 <=? code c) && (code c <=? 57) then Some (code c - 48)
    else if (97 <=? code c) && (code c <=? 122) then Some (code c - 87)
    else if (65 <=? code c) && (code c <=? 90) then Some (code c - 55)
    else None in
  match d with Some d => if d <? radix then Some d else None | None => None end.

Fixpoint parse_digits (radix acc : Z) (s : list ascii) : option Z :=
  match s with
  | [] => Some acc
  | c :: s =>
      d ← digit radix c;
      let acc := acc * radix + d in
      if acc <=? u64_max then parse_digits radix acc s else None
  end.

(** [u64::from_str_radix]: one leading plus sign is accepted. *)
Definition from_str_radix (radix : Z) (s : list ascii) : option Z :=
  match s with
  | [] => None
  | c :: rest =>
      if Ascii.eqb c "+"%char
      then match rest with [] => None | _ => parse_digits radix 0 rest end
      else parse_digits radix 0 s
  end.

(** One member of the set.
    [crates/signal_transforms/src/word_matcher/matcher.rs:407-413] parse_set_values (value) *)
Definition parse_set_value (value : list ascii) : option Z :=
  match value with
  | "0"%char :: "x"%char :: hex | "0"%char :: "X"%char :: hex => from_str_radix 16 hex
  | _ => from_str_radix 10 value
  end.

(** [crates/signal_transforms/src/word_matcher/matcher.rs:402-415] parse_set_values *)
Definition parse_set_values (values : string) : option (list Z) :=
  mapM parse_set_value
    (List.filter (fun value => negb (Nat.eqb (length value) 0))
      (map trim (split_comma (list_ascii_of_string values)))).

(** ** Configuration *)

(** [crates/signal_runtime/src/node.rs:24-34] ConfigValue *)
Inductive ConfigValue := U64 (n : Z) | I64 (n : Z) | CBool (b : bool) | CText (s : string).

(** A [HashMap]: distinct keys, in the unspecified order of its iteration.
    [crates/signal_runtime/src/node.rs:36-38] NodeConfig *)
Definition NodeConfig : Type := list (string * ConfigValue).

Inductive SettingsField := FPattern | FMask | FOp | FTriggerAt | FPredicate | FRangeMin | FRangeMax
  | FSet | FMatchCount | FHoldoff.

Definition field_of_key (key : string) : option SettingsField :=
  if (key =? "pattern")%string then Some FPattern
  else if (key =? "mask")%string then Some FMask
  else if (key =? "op")%string then Some FOp
  else if (key =? "trigger_at")%string then Some FTriggerAt
  else if (key =? "predicate")%string then Some FPredicate
  else if (key =? "range_min")%string then Some FRangeMin
  else if (key =? "range_max")%string then Some FRangeMax
  else if (key =? "set")%string then Some FSet
  else if (key =? "match_count")%string then Some FMatchCount
  else if (key =? "holdoff_ns")%string then Some FHoldoff
  else None.

(** The arms of the match on a key and its value; [None] is [Err(())].
    [crates/signal_transforms/src/word_matcher/matcher.rs:298-320] configured_settings (entry) *)
Definition update_field (field : SettingsField) (v : ConfigValue) (s : MatcherSettings)
  : option MatcherSettings :=
  let '(mkSettings p m o t pm lo hi vs n h) := s in
  match field, v with
  | FPattern, U64 p => Some (mkSettings p m o t pm lo hi vs n h)
  | FMask, U64 m => Some (mkSettings p m o t pm lo hi vs n h)
  | FOp, CText name => o ← MatchOp_parse name; Some (mkSettings p m o t pm lo hi vs n h)
  | FTriggerAt, CText at_ => t ← MatchTimestamp_parse at_; Some (mkSettings p m o t pm lo hi vs n h)
  | FPredicate, CText name => pm ← PredicateMode_parse name; Some (mkSettings p m o t pm lo hi vs n h)
  | FRangeMin, U64 lo => Some (mkSettings p m o t pm lo hi vs n h)
  | FRangeMax, U64 hi => Some (mkSettings p m o t pm lo hi vs n h)
  | FSet, CText values => vs ← parse_set_values values; Some (mkSettings p m o t pm lo hi vs n h)
  | FMatchCount, U64 n => if 0 <? n then Some (mkSettings p m o t pm lo hi vs n h) else None
  | FHoldoff, U64 h => Some (mkSettings p m o t pm lo hi vs n h)
  | _, _ => None
  end.

Definition update_entry (key : string) (v : ConfigValue) (s : MatcherSettings)
  : option MatcherSettings :=
  field ← field_of_key key; update_field field v s.

(** [crates/signal_transforms/src/word_matcher/matcher.rs:293-323] WordMatcher::configured_settings *)
Fixpoint configured_settings (s : MatcherSettings) (config : NodeConfig) : option MatcherSettings :=
  match config with
  | [] => Some s
  | (key, v) :: config => s ← update_entry key v s; configured_settings s config
  end.

(** [crates/signal_runtime/src/node.rs:46-52] ConfigurationBoundary *)
Record ConfigurationBoundary := mkBoundary { sample_index : Z; boundary_ns : Z }.

Inductive ConfigOutcome := Applied | NeedsRestart.

Definition Schedule : Type := list (ConfigurationBoundary * NodeConfig).

(** [crates/signal_transforms/src/word_matcher/matcher.rs:158-178] schedule_config *)
Definition schedule_config (scheduled : Schedule) (config : NodeConfig)
    (boundary : ConfigurationBoundary) : ConfigOutcome * Schedule :=
  match configured_settings default_settings config with
  | None => (NeedsRestart, scheduled)
  | Some _ =>
      if match last scheduled with
         | Some (prev, _) => boundary_ns boundary <? boundary_ns prev
         | None => false
         end
      then (NeedsRestart, scheduled)
      else (Applied, scheduled ++ [(boundary, config)])
  end.

(** ** Properties of the configuration *)

#[local] Arguments parse_set_values : simpl never.
#[local] Arguments MatchOp_parse : simpl never.
#[local] Arguments MatchTimestamp_parse : simpl never.
#[local] Arguments PredicateMode_parse : simpl never.

Lemma field_of_key_inj k1 k2 f : field_of_key k1 = Some f -> field_of_key k2 = Some f -> k1 = k2.
Proof.
  unfold field_of_key. intros H1 H2.
  repeat match type of H1 with
  | (if (?k =? ?n)%string then _ else _) = _ => destruct (String.eqb_spec k n); [subst k|]
  end; simplify_eq;
  repeat match type of H2 with
  | (if (?k =? ?n)%string then _ else _) = _ => destruct (String.eqb_spec k n); [subst k|]
  end; simplify_eq; done.
Qed.

(** Updates of two fields commute, rejections included. *)
Lemma update_field_comm f1 f2 v1 v2 s :
  f1 <> f2 ->
  (s ← update_field f1 v1 s; update_field f2 v2 s) = (s ← update_field f2 v2 s; update_field f1 v1 s).
Proof.
  intros Hne. destruct s as [p m o t pm lo hi vs n h].
  destruct f1, f2; try congruence; destruct v1, v2; try done; simpl;
    repeat (match goal with
      | |- context [MatchOp_parse ?x] => destruct (MatchOp_parse x) eqn:?
      | |- context [MatchTimestamp_parse ?x] => destruct (MatchTimestamp_parse x) eqn:?
      | |- context [PredicateMode_parse ?x] => destruct (PredicateMode_parse x) eqn:?
      | |- context [parse_set_values ?x] => destruct (parse_set_values x) eqn:?
      | |- context [if ?b then _ else _] => destruct b eqn:?
      end; simpl); congruence.
Qed.

Lemma update_entry_comm k1 k2 v1 v2 s :
  k1 <> k2 ->
  (s ← update_entry k1 v1 s; update_entry k2 v2 s) = (s ← update_entry k2 v2 s; update_entry k1 v1 s).
Proof.
  intros Hne. unfold update_entry.
  destruct (field_of_key k1) as [f1|] eqn:H1, (field_of_key k2) as [f2|] eqn:H2; simpl; try done.
  - apply update_field_comm. intros ->. by apply Hne, (field_of_key_inj _ _ f2).
  - by destruct (update_field f1 v1 s).
  - by destruct (update_field f2 v2 s).
Qed.

(** Whether an entry is accepted does not depend on the settings it updates. *)
Lemma update_entry_accepts k v s s' : is_Some (update_entry k v s) -> is_Some (update_entry k v s').
Proof.
  unfold update_entry. destruct (field_of_key k) as [f|]; [|done]. simpl.
  destruct s, s'. destruct f, v; simpl; try done; intros [x Hx];
    repeat (match type of Hx with
      | context [MatchOp_parse ?x] => destruct (MatchOp_parse x)
      | context [MatchTimestamp_parse ?x] => destruct (MatchTimestamp_parse x)
      | context [PredicateMode_parse ?x] => destruct (PredicateMode_parse x)
      | context [parse_set_values ?x] => destruct (parse_set_values x)
      | context [if ?b then _ else _] => destruct b
      end; simpl in * ); simplify_eq; by eexists.
Qed.

Lemma configured_settings_accepts config s s' :
  is_Some (configured_settings s config) -> is_Some (configured_settings s' config).
Proof.
  revert s s'. induction config as [|[k v] config IH]; intros s s'; [by eexists|]. simpl.
  intros [x Hx]. destruct (update_entry k v s) as [s1|] eqn:H1; [|done].
  destruct (update_entry_accepts k v s s') as [s2 H2]; [by eexists|]. rewrite H2. simpl in *.
  apply (IH s1). by eexists.
Qed.

(** The outcome of a matcher configuration does not depend on the order in which the hash map
    yields its entries. *)
Theorem configured_settings_order s config config' :
  Permutation config config' -> NoDup (map fst config) ->
  configured_settings s config = configured_settings s config'.
Proof.
  intros Hp. revert s. induction Hp as [|[k v] c c' Hp IH|[k1 v1] [k2 v2] c|c1 c2 c3 H1 IH1 H2 IH2];
    intros s Hnd; [done| | |].
  - simpl in *. apply NoDup_cons in Hnd as [_ Hnd]. destruct (update_entry k v s); [|done].
    simpl. by apply IH.
  - simpl in *. apply NoDup_cons in Hnd as [Hni _].
    assert (Hne : k2 <> k1) by (intros ->; apply Hni; by left).
    pose proof (update_entry_comm k2 k1 v2 v1 s Hne) as Hc.
    destruct (update_entry k2 v2 s) as [s1|] eqn:E1, (update_entry k1 v1 s) as [s2|] eqn:E2;
      simpl in *; try done.
    + by rewrite Hc.
    + by rewrite Hc.
    + by rewrite <- Hc.
  - rewrite IH1 by done. apply IH2. by rewrite <- H1.
Qed.

Lemma configured_settings_order_witness :
  configured_settings default_settings [("mask", U64 255); ("op", CText "ge"); ("set", CText "1, 0x2")]%string
  = configured_settings default_settings [("set", CText "1, 0x2"); ("op", CText "ge"); ("mask", U64 255)]%string.
Proof.
  apply configured_settings_order.
  - apply Permutation_rev.
  - refine (bool_decide_unpack _ _). exact I.
Defined.

(** ** The node *)

(** The ten fields that a configuration changes are grouped in [settings], which is what
    [settings()] and [apply_settings] copy; the match counter only feeds a log line.
    [crates/signal_transforms/src/word_matcher/matcher.rs:108-137] WordMatcher *)
Record WordMatcher := mkMatcher {
  settings : MatcherSettings;
  manual : bool;
  matcher_armed : bool;
  next_allowed : Z;
  eligible_matches : Z;
  pulse_ns : Z;
  words : Lane Word;
  rearm : Lane TimestampEvent;
  last_pulse_end : Z;
  matcher_started : bool;
  scheduled_settings : Schedule;
  match_output : option (Sender TimestampEvent);
  pulse_output : option (Sender Sample);
  word_output : option (Sender Word)
}.

Definition set_settings s sched x := mkMatcher s (manual x) (matcher_armed x) (next_allowed x)
  (eligible_matches x) (pulse_ns x) (words x) (rearm x) (last_pulse_end x) (matcher_started x)
  sched (match_output x) (pulse_output x) (word_output x).
Definition set_matcher_armed b x := mkMatcher (settings x) (manual x) b (next_allowed x)
  (eligible_matches x) (pulse_ns x) (words x) (rearm x) (last_pulse_end x) (matcher_started x)
  (scheduled_settings x) (match_output x) (pulse_output x) (word_output x).
Definition set_next_allowed t x := mkMatcher (settings x) (manual x) (matcher_armed x) t
  (eligible_matches x) (pulse_ns x) (words x) (rearm x) (last_pulse_end x) (matcher_started x)
  (scheduled_settings x) (match_output x) (pulse_output x) (word_output x).
Definition set_eligible n x := mkMatcher (settings x) (manual x) (matcher_armed x) (next_allowed x)
  n (pulse_ns x) (words x) (rearm x) (last_pulse_end x) (matcher_started x)
  (scheduled_settings x) (match_output x) (pulse_output x) (word_output x).
Definition set_words l x := mkMatcher (settings x) (manual x) (matcher_armed x) (next_allowed x)
  (eligible_matches x) (pulse_ns x) l (rearm x) (last_pulse_end x) (matcher_started x)
  (scheduled_settings x) (match_output x) (pulse_output x) (word_output x).
Definition set_rearm l x := mkMatcher (settings x) (manual x) (matcher_armed x) (next_allowed x)
  (eligible_matches x) (pulse_ns x) (words x) l (last_pulse_end x) (matcher_started x)
  (scheduled_settings x) (match_output x) (pulse_output x) (word_output x).
Definition set_last_pulse_end t x := mkMatcher (settings x) (manual x) (matcher_armed x)
  (next_allowed x) (eligible_matches x) (pulse_ns x) (words x) (rearm x) t (matcher_started x)
  (scheduled_settings x) (match_output x) (pulse_output x) (word_output x).
Definition set_matcher_started x := mkMatcher (settings x) (manual x) (matcher_armed x)
  (next_allowed x) (eligible_matches x) (pulse_ns x) (words x) (rearm x) (last_pulse_end x) true
  (scheduled_settings x) (match_output x) (pulse_output x) (word_output x).
Definition set_match_output o x := mkMatcher (settings x) (manual x) (matcher_armed x)
  (next_allowed x) (eligible_matches x) (pulse_ns x) (words x) (rearm x) (last_pulse_end x)
  (matcher_started x) (scheduled_settings x) o (pulse_output x) (word_output x).
Definition set_pulse_output o x := mkMatcher (settings x) (manual x) (matcher_armed x)
  (next_allowed x) (eligible_matches x) (pulse_ns x) (words x) (rearm x) (last_pulse_end x)
  (matcher_started x) (scheduled_settings x) (match_output x) o (word_output x).
Definition set_word_output o x := mkMatcher (settings x) (manual x) (matcher_armed x)
  (next_allowed x) (eligible_matches x) (pulse_ns x) (words x) (rearm x) (last_pulse_end x)
  (matcher_started x) (scheduled_settings x) (match_output x) (pulse_output x) o.

(** [crates/signal_transforms/src/word_matcher/matcher.rs:182-216] WordMatcher::new *)
Definition WordMatcher_new (p m : Z) words rearm match_out pulse_out word_out : WordMatcher :=
  mkMatcher (mkSettings p m Eq MatchEnd Compare 0 u64_max [] 1 0) false true 0 0 1000
    (fresh_lane words) (fresh_lane rearm) 0 false [] match_out pulse_out word_out.

(** [crates/signal_transforms/src/word_matcher/matcher.rs:325-336] WordMatcher::apply_settings *)
Definition apply_settings (s : MatcherSettings) : MatcherSettings :=
  mkSettings (pattern s) (mask s) (op s) (match_timestamp s) (predicate_mode s) (range_min s)
    (range_max s) (set_values s) (Z.max (match_count s) 1) (holdoff s).

(** [crates/signal_transforms/src/word_matcher/matcher.rs:440-446] WordMatcher::apply_config *)
Definition apply_config (config : NodeConfig) (x : WordMatcher) : ConfigOutcome * WordMatcher :=
  match configured_settings (settings x) config with
  | None => (NeedsRestart, x)
  | Some s => (Applied, set_settings (apply_settings s) (scheduled_settings x) x)
  end.

(** Configurations taken from the queue in turn, then applied in turn; [None] is the [expect] on a
    configuration that was not validated.
    [crates/signal_transforms/src/word_matcher/matcher.rs:338-357] WordMatcher::apply_scheduled_settings *)
Fixpoint apply_scheduled (s : MatcherSettings) (scheduled : Schedule) (timestamp_ns : Z)
  : option (MatcherSettings * Schedule) :=
  match scheduled with
  | (boundary, config) :: rest =>
      if boundary_ns boundary <=? timestamp_ns then
        s ← configured_settings s config;
        apply_scheduled (apply_settings s) rest timestamp_ns
      else Some (s, scheduled)
  | [] => Some (s, [])
  end.

(** A send on a port that may be unconnected. *)
Definition emit_if {T} (port : option (Sender T)) (v : T) : WorkResult unit * option (Sender T) :=
  match port with
  | None => (Ok tt, None)
  | Some _ => emit "" port v
  end.

(** The outputs of one match.
    [crates/signal_transforms/src/word_matcher/matcher.rs:530-547] WordMatcher::work (outputs) *)
Definition matcher_emit (ts : Z) (w : Word) (x : WordMatcher) : WorkResult Z * WordMatcher :=
  let! _, x := zoom match_output set_match_output (fun o => emit_if o (mkEvent ts)) x in
  let! _, x :=
    (match pulse_output x with
     | None => (Ok tt, x)
     | Some _ =>
         if last_pulse_end x <=? ts then
           let! _, x := zoom pulse_output set_pulse_output (fun o => emit_if o (mkSample true ts)) x in
           let! _, x := zoom pulse_output set_pulse_output
             (fun o => emit_if o (mkSample false (add64 ts (pulse_ns x)))) x in
           (Ok tt, set_last_pulse_end (add64 ts (pulse_ns x)) x)
         else (Ok tt, x)
     end) in
  let! _, x := zoom word_output set_word_output (fun o => emit_if o w) x in
  (Ok 1, x).

(** What happens to the selected word.
    [crates/signal_transforms/src/word_matcher/matcher.rs:505-550] WordMatcher::work (word) *)
Definition matcher_word (w : Word) (x : WordMatcher) : WorkResult Z * WordMatcher :=
  match apply_scheduled (settings x) (scheduled_settings x) (timestamp_ns w) with
  | None => (Err (NodeError "scheduled matcher configuration was validated before enqueue"), x)
  | Some (s, sched) =>
      let x := set_settings s sched x in
      if predicate_matches s (value w) then
        let ts := match match_timestamp s with
          | MatchStart => timestamp_ns w
          | MatchEnd => end_ns w
          end in
        if (ts <? next_allowed x) || (manual x && negb (matcher_armed x)) then (Ok 0, x)
        else
          let x := set_eligible (saturating_add64 (eligible_matches x) 1) x in
          if eligible_matches x <? match_count s then (Ok 0, x)
          else
            let x := set_eligible 0 x in
            let x := set_next_allowed (saturating_add64 ts (holdoff s)) x in
            let x := if manual x then set_matcher_armed false x else x in
            matcher_emit ts w x
      else (Ok 0, x)
  end.

(** [crates/signal_transforms/src/word_matcher/matcher.rs:375-399] WordMatcher::fill_heads *)
Definition matcher_fill_heads (x : WordMatcher) : WorkResult unit * WordMatcher :=
  let! _, x := zoom words set_words (fill "Missing words input") x in
  if manual x then zoom rearm set_rearm (fill "Missing rearm input") x else (Ok tt, x).

(** [crates/signal_transforms/src/word_matcher/matcher.rs:471-551] WordMatcher::work *)
Definition matcher_work (x : WordMatcher) : WorkResult Z * WordMatcher :=
  let! _, x := matcher_fill_heads x in
  match head (words x), lane_eos (words x) with
  | None, true => (Err Shutdown, x)
  | word_head, _ =>
      let rearm_precedes_word := manual x &&
        match head (rearm x) with
        | Some r =>
            match word_head with
            | Some w => event_ns r <=? timestamp_ns w
            | None => true
            end
        | None => false
        end in
      if rearm_precedes_word then
        (Ok 0, set_eligible 0 (set_matcher_armed true (set_rearm (drop_head (rearm x)) x)))
      else
        let! _, x :=
          (if matcher_started x then (Ok tt, x)
           else zoom pulse_output set_pulse_output (fun o => emit_if o (mkSample false 0))
                  (set_matcher_started x)) in
        match word_head with
        | None => (Err (NodeError "word head was selected"), x)
        | Some w => matcher_word w (set_words (drop_head (words x)) x)
        end
  end.

(** ** What the matcher reports, said without its code *)

Definition order_of (op : MatchOp) : Z -> Z -> Prop :=
  match op with
  | Eq => eq
  | Ne => fun a b => a <> b
  | Lt => Z.lt
  | Le => Z.le
  | Gt => Z.gt
  | Ge => Z.ge
  end.

(** A value satisfies the predicate, which compares values under the mask. *)
Definition satisfies (s : MatcherSettings) (v : Z) : Prop :=
  let masked v := Z.land v (mask s) in
  match predicate_mode s with
  | Compare => order_of (op s) (masked v) (masked (pattern s))
  | InclusiveRange => masked (range_min s) <= masked v <= masked (range_max s)
  | InSet => exists candidate, In candidate (set_values s) /\ masked candidate = masked v
  end.

Lemma predicate_matches_iff s v : predicate_matches s v = true <-> satisfies s v.
Proof.
  unfold predicate_matches, satisfies. cbv zeta. destruct (predicate_mode s).
  - destruct (op s); cbn; rewrite ?negb_true_iff, ?Z.eqb_eq, ?Z.eqb_neq, ?Z.ltb_lt, ?Z.leb_le; try done; lia.
  - rewrite !andb_true_iff, !Z.leb_le. lia.
  - rewrite existsb_exists. split; intros (x & Hx & H); exists x; (split; [done|]); lia.
Qed.

#[export] Instance satisfies_dec s v : Decision (satisfies s v).
Proof.
  refine (cast_if (decide (predicate_matches s v = true))); by rewrite <- predicate_matches_iff.
Defined.

(** The last number, and the last text that can be read, under a key. *)
Definition number (key : string) (config : NodeConfig) (n : Z) : Z :=
  fold_left (fun n e => match e with (k, U64 m) => if (k =? key)%string then m else n | _ => n end) config n.

Definition text {A} (read : string -> option A) (key : string) (config : NodeConfig) (a : A) : A :=
  fold_left (fun a e => match e with (k, CText t) => if (k =? key)%string then default a (read t) else a | _ => a end) config a.

Fixpoint named {A} (names : list (string * A)) (t : string) : option A :=
  match names with
  | [] => None
  | (name, a) :: names => if (t =? name)%string then Some a else named names t
  end.

(** The settings that a configuration leaves, field by field. *)
Definition changed (s : MatcherSettings) (config : NodeConfig) : MatcherSettings :=
  mkSettings (number "pattern" config (pattern s)) (number "mask" config (mask s))
    (text (named [("eq", Eq); ("ne", Ne); ("lt", Lt); ("le", Le); ("gt", Gt); ("ge", Ge)]%string) "op" config (op s))
    (text (named [("start", MatchStart); ("end", MatchEnd)]%string) "trigger_at" config (match_timestamp s))
    (text (named [("compare", Compare); ("range", InclusiveRange); ("set", InSet)]%string) "predicate" config (predicate_mode s))
    (number "range_min" config (range_min s)) (number "range_max" config (range_max s))
    (text parse_set_values "set" config (set_values s))
    (number "match_count" config (match_count s)) (number "holdoff_ns" config (holdoff s)).

Definition at_least_once (s : MatcherSettings) : MatcherSettings :=
  mkSettings (pattern s) (mask s) (op s) (match_timestamp s) (predicate_mode s) (range_min s) (range_max s)
    (set_values s) (Z.max 1 (match_count s)) (holdoff s).

(** The settings in force at a time: those before with the scheduled changes up to then. *)
Definition in_force (s : MatcherSettings) (sched : Schedule) (t : Z) : MatcherSettings :=
  fold_left (fun s entry => at_least_once (changed s (snd entry)))
    (List.filter (fun entry => boundary_ns (fst entry) <=? t) sched) s.

Definition later {A} (time : A -> Z) (t : Z) (l : list A) : list A := List.filter (fun x => t <? time x) l.

(** When a word is reported. *)
Definition report_ns (s : MatcherSettings) (w : Word) : Z :=
  match match_timestamp s with MatchStart => timestamp_ns w | MatchEnd => end_ns w end.

(** The reported words with their instants.  A rearm up to the start of a word arms the matcher and
    starts its count anew.  A word counts when it satisfies the predicate of the settings in force
    at its start, is not held off and, with manual rearm, finds the matcher armed; every
    [match_count]-th word that counts is reported, which disarms the matcher and starts the hold-off. *)
Fixpoint reports (manual : bool) (s : MatcherSettings) (sched : Schedule) (armed : bool) (eligible next : Z)
    (rearms : list TimestampEvent) (ws : list Word) : list (Z * Word) :=
  match ws with
  | [] => []
  | w :: ws =>
      let t := timestamp_ns w in
      let s := in_force s sched t in
      let sched := later (fun entry => boundary_ns (fst entry)) t sched in
      let rearmed := existsb (fun r => event_ns r <=? t) rearms in
      let rearms := later event_ns t rearms in
      let armed := armed || rearmed in
      let counted := if rearmed then 0 else eligible in
      if bool_decide (satisfies s (value w) /\ next <= report_ns s w /\ (manual = true -> armed = true)) then
        let counted := saturating_add64 counted 1 in
        if counted <? match_count s then reports manual s sched armed counted next rearms ws
        else (report_ns s w, w) ::
          reports manual s sched (armed && negb manual) 0 (saturating_add64 (report_ns s w) (holdoff s)) rearms ws
      else reports manual s sched armed counted next rearms ws
  end.

(** The pulses: one for each report that does not come before the end of the one before. *)
Fixpoint pulses (width free : Z) (hits : list Z) : list Sample :=
  match hits with
  | [] => []
  | ts :: hits =>
      if free <=? ts then mkSample true ts :: mkSample false (add64 ts width) :: pulses width (add64 ts width) hits
      else pulses width free hits
  end.

(** *** Configurations *)

Lemma update_entry_changed k v s s1 config :
  update_entry k v s = Some s1 -> changed s ((k, v) :: config) = changed s1 config.
Proof.
  unfold update_entry, field_of_key. destruct s as [p m o t pm lo hi vs n h].
  repeat match goal with |- context [(k =? ?name)%string] => destruct (String.eqb_spec k name) as [->|?] end;
    cbn [mbind option_bind]; [..|done]; destruct v; cbn [update_field]; try done; intros Hs;
    unfold MatchOp_parse, MatchTimestamp_parse, PredicateMode_parse in Hs; unfold changed, number, text; cbn in *.
  all: repeat match type of Hs with context [if ?b then _ else _] => destruct b; cbn in * end;
    try destruct (parse_set_values s); cbn in *; simplify_eq; done.
Qed.

Lemma configured_changed config : forall s s', configured_settings s config = Some s' -> s' = changed s config.
Proof.
  induction config as [|[k v] config IH]; intros s s'; cbn [configured_settings].
  { intros [= <-]. by destruct s. }
  destruct (update_entry k v s) as [s1|] eqn:Hu; [|done]. cbn [mbind option_bind]. intros H.
  by rewrite (IH s1 s' H), (update_entry_changed k v s s1 config Hu).
Qed.

(** Every queued configuration was validated, and they are queued by the times of their boundaries. *)
Definition schedule_ok (sched : Schedule) : Prop :=
  Forall (fun entry => is_Some (configured_settings default_settings (snd entry))) sched /\
  ascending (fun entry => boundary_ns (fst entry)) sched.

Lemma schedule_config_ok sched config boundary :
  schedule_ok sched -> schedule_ok (snd (schedule_config sched config boundary)).
Proof.
  intros [Hv Ha]. unfold schedule_config. destruct (configured_settings _ _) eqn:Hc; [|done].
  destruct (match last sched with Some (prev, _) => _ | None => _ end) eqn:Hlast; [done|]. cbn [snd]. split.
  - apply Forall_app. split; [done|]. constructor; [|done]. by eexists.
  - unfold ascending. apply sorting.StronglySorted_app. split; [|split; [done|repeat constructor]].
    intros x y Hx Hy. apply list_elem_of_singleton in Hy as ->. cbn. destruct (last sched) as [[prev c]|] eqn:Hl.
    + apply Z.ltb_ge in Hlast. apply last_Some in Hl as [l ->]. apply elem_of_app in Hx as [Hx|Hx%list_elem_of_singleton].
      * unfold ascending in Ha. apply sorting.StronglySorted_app in Ha as (Ha & _). specialize (Ha x (prev, c) Hx ltac:(by left)). cbn in *. lia.
      * by subst x.
    + apply last_None in Hl. subst sched. by apply elem_of_nil in Hx.
Qed.

Lemma later_all {A} (time : A -> Z) t l : (forall x, In x l -> t < time x) ->
  List.filter (fun x => time x <=? t) l = [] /\ later time t l = l.
Proof.
  unfold later. induction l as [|x l IH]; intros H; [done|]. cbn [List.filter].
  pose proof (H x (or_introl eq_refl)). destruct (IH ltac:(intros y Hy; apply H; by right)) as [H1 H2].
  rewrite (proj2 (Z.leb_gt _ _)), (proj2 (Z.ltb_lt _ _)), H1, H2 by lia. done.
Qed.

(** The queue is worked off up to the word's start. *)
Lemma apply_scheduled_in_force sched : forall s t, schedule_ok sched ->
  apply_scheduled s sched t = Some (in_force s sched t, later (fun entry => boundary_ns (fst entry)) t sched) /\
  schedule_ok (later (fun entry => boundary_ns (fst entry)) t sched).
Proof.
  induction sched as [|[b config] sched IH]; intros s t [Hv Ha]; [done|].
  pose proof Hv as Hv'. pose proof Ha as Ha'. apply Forall_cons in Hv' as [Hc Hv']. apply ascending_cons in Ha' as [Hle Ha'].
  unfold in_force, later. cbn [apply_scheduled List.filter fst snd]. destruct (Z.leb_spec (boundary_ns b) t) as [Hb|Hb].
  - destruct (configured_settings_accepts config _ s Hc) as [s1 H1]. rewrite H1. cbn [mbind option_bind fold_left snd].
    assert (Hs1 : apply_settings s1 = at_least_once (changed s config)).
    { rewrite <- (configured_changed _ _ _ H1). unfold apply_settings, at_least_once. by rewrite Z.max_comm. }
    rewrite Hs1, (proj2 (Z.ltb_ge _ _)) by done. by apply IH.
  - destruct (later_all (fun entry : ConfigurationBoundary * NodeConfig => boundary_ns (fst entry)) t sched) as [H1 H2].
    { intros x Hx. specialize (Hle x Hx). cbn in Hle. lia. }
    unfold later in H2. rewrite H1, H2, (proj2 (Z.ltb_lt _ _)) by done. done.
Qed.

(** *** The node *)

(** What goes to a port that may be unconnected. *)
Definition if_connected {A B} (port : option A) (l : list B) : list B := match port with Some _ => l | None => [] end.

Section Matcher.
Variables i j k : nat.

(** A port that is unconnected or has a destination that outlives the node. *)
Definition live {T} (n : nat) (port : option (Sender T)) : Prop :=
  match port with None => True | Some s => attached n s end.

Lemma emit_if_live {T} n (port : option (Sender T)) v :
  live n port -> exists port', emit_if port v = (Ok tt, port') /\ live n port' /\
    sent n port' = sent n port ++ if_connected port [v] /\
    forall A (l : list A), if_connected port' l = if_connected port l.
Proof.
  destruct port as [s|]; intros H; [|by exists None].
  destruct (emit_plugged n "" (Some s) v H) as (p' & Hp & H' & Hs). exists p'. split; [done|].
  destruct p' as [s'|]; [|done]. done.
Qed.

Lemma emit_if_plugged {T} n (port : option (Sender T)) v :
  plugged n port ->
  exists port', emit_if port v = (Ok tt, port') /\ plugged n port' /\ sent n port' = sent n port ++ [v].
Proof. destruct port as [s|]; [|done]. apply (emit_plugged n ""). Qed.

(** The rearms still to come, which matter with manual rearm only. *)
Definition rearms_due (x : WordMatcher) : list TimestampEvent := if manual x then pending (rearm x) else [].

Definition matcher_inv (x : WordMatcher) : Prop :=
  (manual x = true -> connected (rearm x) /\ ascending event_ns (pending (rearm x))) /\
  connected (words x) /\ plugged i (match_output x) /\ live k (pulse_output x) /\ plugged j (word_output x) /\
  schedule_ok (scheduled_settings x).

#[local] Arguments emit_if : simpl never.

(** The reports of a matcher in the state [x] for some words. *)
Definition reports_of (x : WordMatcher) (ws : list Word) : list (Z * Word) :=
  reports (manual x) (settings x) (scheduled_settings x) (matcher_armed x) (eligible_matches x) (next_allowed x)
    (rearms_due x) ws.

Definition pulses_of (x : WordMatcher) (hits : list (Z * Word)) : list Sample :=
  if_connected (pulse_output x) (pulses (pulse_ns x) (last_pulse_end x) (map fst hits)).

(** What one call sends: the reports, and the pulses for them. *)
Definition reported (x x' : WordMatcher) (hits : list (Z * Word)) : Prop :=
  sent i (match_output x') = sent i (match_output x) ++ map (fun h => mkEvent (fst h)) hits /\
  sent j (word_output x') = sent j (word_output x) ++ map snd hits /\
  exists shown, sent k (pulse_output x') = sent k (pulse_output x) ++ shown /\
    forall more, pulses_of x (hits ++ more) = shown ++ pulses_of x' more.

(** What the words leave as it is. *)
Definition same_inputs (x x' : WordMatcher) : Prop :=
  words x' = words x /\ rearm x' = rearm x /\ manual x' = manual x /\ matcher_started x' = matcher_started x.

Lemma reported_none x x' : match_output x' = match_output x -> word_output x' = word_output x ->
  pulse_output x' = pulse_output x -> pulse_ns x' = pulse_ns x -> last_pulse_end x' = last_pulse_end x -> reported x x' [].
Proof.
  intros H1 H2 H3 H4 H5. unfold reported, pulses_of. rewrite H1, H2, H3, H4, H5, !app_nil_r. split; [done|]. split; [done|].
  exists []. by rewrite app_nil_r.
Qed.

Lemma matcher_emit_spec ts w x :
  matcher_inv x ->
  exists x', matcher_emit ts w x = (Ok 1, x') /\ matcher_inv x' /\ reported x x' [(ts, w)] /\ same_inputs x x' /\
    settings x' = settings x /\ scheduled_settings x' = scheduled_settings x /\ matcher_armed x' = matcher_armed x /\
    eligible_matches x' = eligible_matches x /\ next_allowed x' = next_allowed x.
Proof.
  destruct x as [s m a n e p ws r lp st sc mo po wo]. intros (Hm & Hw & Hmo & Hpo & Hwo & Hs).
  cbn in *. unfold matcher_emit, zoom, reported, pulses_of, same_inputs, matcher_inv. cbn.
  destruct (emit_if_plugged i mo (mkEvent ts) Hmo) as (mo' & -> & Hmo' & Hsm). cbn.
  destruct (emit_if_plugged j wo w Hwo) as (wo' & Hewo & Hwo' & Hsw).
  destruct po as [po|].
  - destruct (lp <=? ts) eqn:Hfree; cbn.
    + destruct (emit_if_live k (Some po) (mkSample true ts) Hpo) as (po1 & -> & H1 & Hs1 & Hi1). cbn.
      destruct (emit_if_live k po1 (mkSample false (add64 ts p)) H1) as (po2 & -> & H2 & Hs2 & Hi2). cbn.
      rewrite Hewo. cbn. eexists. split; [done|]. cbn. split; [done|]. split; [|by split_and!].
      split; [done|]. split; [done|]. exists [mkSample true ts; mkSample false (add64 ts p)]. split.
      * rewrite Hs2, Hi1, Hs1. cbn. by rewrite <- app_assoc.
      * intros more. by rewrite Hi2, Hi1.
    + rewrite Hewo. cbn. eexists. split; [done|]. cbn. split; [done|]. split; [|by split_and!].
      split; [done|]. split; [done|]. exists []. by rewrite app_nil_r.
  - cbn. rewrite Hewo. cbn. eexists. split; [done|]. cbn. split; [done|]. split; [|by split_and!].
    split; [done|]. split; [done|]. by exists [].
Qed.

Lemma none_due {A} (time : A -> Z) t l : (forall x, In x l -> t < time x) ->
  existsb (fun x => time x <=? t) l = false /\ later time t l = l.
Proof.
  intros H. split; [|by apply later_all]. apply not_true_iff_false. rewrite existsb_exists. intros (x & Hx & Ht).
  specialize (H x Hx). lia.
Qed.

(** A word before every rearm still to come. *)
Lemma matcher_word_spec w x :
  matcher_inv x -> (forall r, In r (rearms_due x) -> timestamp_ns w < event_ns r) ->
  exists n x' hits, matcher_word w x = (Ok n, x') /\ matcher_inv x' /\ reported x x' hits /\ same_inputs x x' /\
    forall ws, reports_of x (w :: ws) = hits ++ reports_of x' ws.
Proof.
  intros Hinv Hno. unfold matcher_word, reports_of. cbn [reports].
  destruct (none_due event_ns (timestamp_ns w) (rearms_due x) Hno) as [Hnone Hlater]. rewrite Hnone, Hlater, orb_false_r.
  pose proof Hinv as (Hm & Hw & Hmo & Hpo & Hwo & Hsched).
  destruct (apply_scheduled_in_force (scheduled_settings x) (settings x) (timestamp_ns w) Hsched) as [-> Hsched'].
  set (s := in_force _ _ _). set (sched := later _ _ (scheduled_settings x)) in *.
  assert (Hinv1 : matcher_inv (set_settings s sched x)) by by split_and!.
  assert (Hquiet : forall e, reported x (set_eligible e (set_settings s sched x)) []) by (intros e; by apply reported_none).
  fold (report_ns s w).
  rewrite (bool_decide_ext _ (predicate_matches s (value w) = true /\ negb ((report_ns s w <? next_allowed x) || manual x && negb (matcher_armed x)) = true)).
  2: { rewrite predicate_matches_iff, negb_true_iff, orb_false_iff, andb_false_iff, negb_false_iff, Z.ltb_ge.
       destruct (manual x), (matcher_armed x); intuition congruence. }
  destruct (predicate_matches s (value w)) eqn:Hpred.
  2: { rewrite bool_decide_eq_false_2 by by intros [? _]. eexists 0, _, []. split; [done|]. split; [done|].
       split; [apply (Hquiet (eligible_matches x))|]. by split. }
  cbn [next_allowed set_settings manual matcher_armed].
  destruct ((report_ns s w <? next_allowed x) || manual x && negb (matcher_armed x)) eqn:Hheld.
  { rewrite bool_decide_eq_false_2 by by intros [_ ?]. eexists 0, _, []. split; [done|]. split; [done|].
    split; [apply (Hquiet (eligible_matches x))|]. by split. }
  rewrite bool_decide_eq_true_2 by done. cbn [eligible_matches set_eligible set_settings].
  destruct (_ <? match_count s) eqn:Hcount.
  { eexists 0, _, []. split; [done|]. split; [done|]. split; [apply Hquiet|]. by split. }
  set (x1 := set_next_allowed (saturating_add64 (report_ns s w) (holdoff s))
    (set_eligible 0 (set_eligible (saturating_add64 (eligible_matches x) 1) (set_settings s sched x)))).
  set (x2 := if manual x1 then set_matcher_armed false x1 else x1).
  assert (H2 : matcher_inv x2 /\ reported x x2 [] /\ same_inputs x x2 /\ settings x2 = s /\ scheduled_settings x2 = sched /\
    matcher_armed x2 = matcher_armed x && negb (manual x) /\ eligible_matches x2 = 0 /\
    next_allowed x2 = saturating_add64 (report_ns s w) (holdoff s) /\ pulse_output x2 = pulse_output x /\
    pulse_ns x2 = pulse_ns x /\ last_pulse_end x2 = last_pulse_end x /\ match_output x2 = match_output x /\ word_output x2 = word_output x).
  { assert (I1 : matcher_inv x1) by exact Hinv1. assert (I2 : matcher_inv (set_matcher_armed false x1)) by exact Hinv1.
    assert (Q1 : reported x x1 []) by by apply reported_none. assert (Q2 : reported x (set_matcher_armed false x1) []) by by apply reported_none.
    assert (J1 : same_inputs x x1) by done. assert (J2 : same_inputs x (set_matcher_armed false x1)) by done.
    unfold x2. change (manual x1) with (manual x). destruct (manual x); rewrite ?andb_false_r, ?andb_true_r; by split_and!. }
  destruct H2 as (Hinv2 & _ & (I1 & I2 & I3 & I4) & S1 & S2 & S3 & S4 & S5 & P1 & P2 & P3 & P4 & P5).
  destruct (matcher_emit_spec (report_ns s w) w x2 Hinv2) as (x' & He & Hinv' & (R1 & R2 & shown & R3 & R4) & (J1 & J2 & J3 & J4) & T1 & T2 & T3 & T4 & T5).
  exists 1, x', [(report_ns s w, w)]. split; [exact He|]. split; [done|]. split.
  { unfold reported, pulses_of in *. rewrite P1, P2, P3 in *. rewrite P4 in R1. rewrite P5 in R2. split; [done|]. split; [done|]. by exists shown. }
  split; [unfold same_inputs; by rewrite J1, J2, J3, J4|]. intros ws. cbn [app]. f_equal.
  unfold rearms_due. by rewrite T1, T2, T3, T4, T5, J2, J3, S1, S2, S3, S4, S5, I2, I3.
Qed.

Definition matcher_due (x : WordMatcher) : list (Z * Word) := reports_of x (pending (words x)).

(** Before the first word the pulse output goes low. *)
Definition start_due (x : WordMatcher) : list Sample :=
  if matcher_started x then [] else match pending (words x) with [] => [] | _ => if_connected (pulse_output x) [mkSample false 0] end.

Definition pulses_due (x : WordMatcher) : list Sample := start_due x ++ pulses_of x (matcher_due x).

Definition matcher_measure (x : WordMatcher) : nat := length (pending (words x)) + length (rearms_due x).

#[local] Arguments matcher_word : simpl never.

(** What one call sends of what is due on the three outputs. *)
Definition sends (x x' : WordMatcher) : Prop :=
  (exists hits, sent i (match_output x') = sent i (match_output x) ++ map (fun h => mkEvent (fst h)) hits /\
    sent j (word_output x') = sent j (word_output x) ++ map snd hits /\ matcher_due x = hits ++ matcher_due x') /\
  exists shown, sent k (pulse_output x') = sent k (pulse_output x) ++ shown /\ pulses_due x = shown ++ pulses_due x'.

(** A call that fills the lanes: what is due does not change, and the heads are there. *)
Lemma filled_matcher x : matcher_inv x -> exists x1, matcher_fill_heads x = (Ok tt, x1) /\ matcher_inv x1 /\
  filled (words x1) /\ (manual x1 = true -> filled (rearm x1)) /\
  pending (words x1) = pending (words x) /\ rearms_due x1 = rearms_due x /\ sends x x1.
Proof.
  intros Hinv. unfold matcher_fill_heads. unfold zoom at 1. pose proof Hinv as (Hm & Hc & Hmo & Hpo & Hwo & Hs).
  fill_lane Hc. cbn [manual set_words].
  assert (Hsends : forall x1, matcher_due x1 = matcher_due x -> pulses_due x1 = pulses_due x ->
    match_output x1 = match_output x -> word_output x1 = word_output x -> pulse_output x1 = pulse_output x -> sends x x1).
  { intros x1 H1 H2 H3 H4 H5. unfold sends. rewrite H1, H2, H3, H4, H5. split; exists []; by rewrite ?app_nil_r. }
  destruct (manual x) eqn:Hman.
  - destruct (Hm eq_refl) as [Hcr Har]. unfold zoom. cbn [rearm set_words].
    fill_lane Hcr. set (x1 := set_rearm lane0 (set_words lane x)). exists x1.
    assert (Hw : pending (words x1) = pending (words x)) by done.
    assert (Hr : rearms_due x1 = rearms_due x) by (unfold rearms_due; cbn; by rewrite Hman).
    split; [done|]. split; [split_and!; try done; intros _; cbn; by rewrite Hp0|]. split; [done|]. split; [done|].
    split; [done|]. split; [done|].
    assert (Hd : matcher_due x1 = matcher_due x) by (unfold matcher_due, reports_of; by rewrite Hw, Hr).
    apply Hsends; try done. unfold pulses_due, start_due, pulses_of. by rewrite Hw, Hd.
  - set (x1 := set_words lane x). exists x1. assert (Hw : pending (words x1) = pending (words x)) by done.
    assert (Hr : rearms_due x1 = rearms_due x) by done.
    split; [done|]. split; [split_and!; try done; cbn; by rewrite Hman|]. split; [done|]. split; [cbn; by rewrite Hman|].
    split; [done|]. split; [done|].
    assert (Hd : matcher_due x1 = matcher_due x) by (unfold matcher_due, reports_of; by rewrite Hw, Hr).
    apply Hsends; try done. unfold pulses_due, start_due, pulses_of. by rewrite Hw, Hd.
Qed.

Lemma sends_trans x y z : sends x y -> sends y z -> sends x z.
Proof.
  intros [(h1 & A1 & A2 & A3) (p1 & A4 & A5)] [(h2 & B1 & B2 & B3) (p2 & B4 & B5)]. split.
  - exists (h1 ++ h2). by rewrite B1, B2, A1, A2, A3, B3, !map_app, <- !app_assoc.
  - exists (p1 ++ p2). by rewrite B4, A4, A5, B5, <- !app_assoc.
Qed.

(** A rearm that comes no later than the next word. *)
Lemma rearm_step x r rs w ws : matcher_inv x -> manual x = true -> pending (rearm x) = r :: rs -> pending (drop_head (rearm x)) = rs ->
  pending (words x) = w :: ws -> event_ns r <= timestamp_ns w ->
  let x' := set_eligible 0 (set_matcher_armed true (set_rearm (drop_head (rearm x)) x)) in
  matcher_inv x' /\ (matcher_measure x' < matcher_measure x)%nat /\ sends x x'.
Proof.
  intros (Hm & Hc & Hmo & Hpo & Hwo & Hs) Hman Hr Hd Hw Hle x'. destruct (Hm Hman) as [Hcr Har].
  rewrite Hr in Har. apply ascending_cons in Har as [_ Har].
  assert (Hdue' : rearms_due x' = rs) by (unfold rearms_due; cbn; by rewrite Hman, Hd).
  assert (Hdue : rearms_due x = r :: rs) by (unfold rearms_due; by rewrite Hman).
  split; [|split].
  - split_and!; try done. intros _. cbn. split; [done|]. by rewrite Hd.
  - unfold matcher_measure. rewrite Hdue, Hdue'. cbn. lia.
  - assert (Heq : matcher_due x = matcher_due x').
    { assert (Hw' : pending (words x') = w :: ws) by exact Hw. unfold matcher_due, reports_of. rewrite Hw, Hw', Hdue, Hdue'.
      change (manual x') with (manual x). change (settings x') with (settings x). change (scheduled_settings x') with (scheduled_settings x).
      change (next_allowed x') with (next_allowed x). change (matcher_armed x') with true. change (eligible_matches x') with 0. cbn [reports].
      replace (later event_ns (timestamp_ns w) (r :: rs)) with (later event_ns (timestamp_ns w) rs)
        by (unfold later; cbn [List.filter]; by rewrite (proj2 (Z.ltb_ge _ _) Hle)).
      cbn [existsb]. rewrite (proj2 (Z.leb_le _ _) Hle). cbn [orb].
      rewrite !orb_true_r.
      by destruct (existsb (fun q => event_ns q <=? timestamp_ns w) rs). }
    split.
    + exists []. cbn. by rewrite !app_nil_r.
    + exists []. cbn. rewrite app_nil_r. split; [done|]. unfold pulses_due, start_due, pulses_of. by rewrite Heq.
Qed.

(** The next word, before every rearm. *)
Lemma word_step x w ws : matcher_inv x -> pending (words x) = w :: ws -> pending (drop_head (words x)) = ws ->
  (forall r, In r (rearms_due x) -> timestamp_ns w < event_ns r) ->
  match (let! _, x :=
      (if matcher_started x then (Ok tt, x)
       else zoom pulse_output set_pulse_output (fun o => emit_if o (mkSample false 0)) (set_matcher_started x)) in
    matcher_word w (set_words (drop_head (words x)) x)) with
  | (Ok _, x') => matcher_inv x' /\ (matcher_measure x' < matcher_measure x)%nat /\ sends x x'
  | (Err _, _) => False
  end.
Proof.
  intros Hinv Hw Hd Hno. pose proof Hinv as (Hm & Hc & Hmo & Hpo & Hwo & Hs).
  assert (Hstart : exists x1, (if matcher_started x then (Ok tt, x)
      else zoom pulse_output set_pulse_output (fun o => emit_if o (mkSample false 0)) (set_matcher_started x)) = (@Ok WorkError _ tt, x1) /\
      matcher_inv x1 /\ words x1 = words x /\ rearms_due x1 = rearms_due x /\ matcher_started x1 = true /\
      match_output x1 = match_output x /\ word_output x1 = word_output x /\
      (forall ws, reports_of x1 ws = reports_of x ws) /\
      sent k (pulse_output x1) = sent k (pulse_output x) ++ start_due x /\ forall hits, pulses_of x1 hits = pulses_of x hits).
  { unfold start_due. destruct (matcher_started x) eqn:Hst.
    - exists x. rewrite app_nil_r. by split_and!.
    - unfold zoom. cbn. destruct (emit_if_live k (pulse_output x) (mkSample false 0) Hpo) as (po & -> & H & Hsent & Hif).
      eexists. split; [done|]. split; [split_and!; done|]. do 6 (split; [done|]). cbn. rewrite Hw. split; [done|].
      intros hits. unfold pulses_of. cbn. by rewrite Hif. }
  destruct Hstart as (x1 & -> & Hinv1 & Hw1 & Hr1 & Hst1 & Hm1 & Hwo1 & Hrep1 & Hp1 & Hpul1).
  set (x2 := set_words (drop_head (words x1)) x1).
  assert (Hinv2 : matcher_inv x2) by (destruct Hinv1 as (? & ? & ? & ? & ? & ?); split_and!; done).
  destruct (matcher_word_spec w x2 Hinv2) as (n & x' & hits & He & Hinv' & (R1 & R2 & shown & R3 & R4) & (J1 & J2 & J3 & J4) & Hspec).
  { change (rearms_due x2) with (rearms_due x1). by rewrite Hr1. }
  rewrite He. split; [done|]. assert (Hws : pending (words x') = ws) by (rewrite J1; cbn; by rewrite Hw1).
  assert (Hrd : rearms_due x' = rearms_due x) by (unfold rearms_due in *; rewrite J2, J3; exact Hr1).
  assert (Hdue : matcher_due x = hits ++ matcher_due x').
  { unfold matcher_due. rewrite Hws, Hw, <- Hrep1. change (reports_of x1) with (reports_of x2). apply Hspec. }
  split; [unfold matcher_measure; rewrite Hws, Hrd, Hw; cbn; lia|]. split.
  - exists hits. rewrite R1, R2. cbn. by rewrite Hm1, Hwo1.
  - exists (start_due x ++ shown). rewrite R3. change (pulse_output x2) with (pulse_output x1). rewrite Hp1, app_assoc. split; [done|].
    unfold pulses_due. rewrite <- !app_assoc. f_equal. unfold start_due at 1. rewrite J4. cbn. rewrite Hst1. cbn.
    rewrite Hdue, <- Hpul1. change (pulses_of x1) with (pulses_of x2). by apply R4.
Qed.

Lemma matcher_step x :
  matcher_inv x ->
  match matcher_work x with
  | (Ok _, x') => matcher_inv x' /\ (matcher_measure x' < matcher_measure x)%nat /\ sends x x'
  | (Err e, x') => e = Shutdown /\ matcher_inv x' /\ sends x x' /\ pending (words x') = []
  end.
Proof.
  intros Hinv0. unfold matcher_work. destruct (filled_matcher x Hinv0) as (x1 & -> & Hinv & Hf & Hfr & Hw1 & Hr1 & Hs1).
  assert (Hmeasure : matcher_measure x1 = matcher_measure x) by (unfold matcher_measure; by rewrite Hw1, Hr1).
  apply filled_cases in Hf as [(Hn & -> & Hh)|(w & ws & Hn & Hh & Hd)]; rewrite Hh.
  { split; [done|]. split; [done|]. by split. }
  assert (Hcases : (manual x1 = true /\ exists r rs, pending (rearm x1) = r :: rs /\ head (rearm x1) = Some r /\
      pending (drop_head (rearm x1)) = rs /\ event_ns r <= timestamp_ns w) \/
    ((forall r, In r (rearms_due x1) -> timestamp_ns w < event_ns r) /\
     (manual x1 && match head (rearm x1) with Some r => event_ns r <=? timestamp_ns w | None => false end) = false)).
  { unfold rearms_due. destruct Hinv as (Hm & _). destruct (manual x1); [|right; by split; [intros r []|]].
    destruct (filled_before event_ns (rearm x1) (timestamp_ns w) (Hfr eq_refl) (proj2 (Hm eq_refl))) as [(r & rs & H)|[H1 H2]];
      [left; split; [done|by exists r, rs]|by right]. }
  rewrite <- Hmeasure. destruct Hcases as [(Hman & r & rs & H1 & H2 & H3 & H4)|[Hno Hhead]].
  - rewrite Hman, H2, (proj2 (Z.leb_le _ _) H4). cbn [andb].
    destruct (rearm_step x1 r rs w ws Hinv Hman H1 H3 Hn H4) as (H5 & H6 & H7). split; [done|]. split; [done|]. by apply sends_trans with x1.
  - rewrite Hhead. pose proof (word_step x1 w ws Hinv Hn Hd Hno) as Hstep.
    destruct (if matcher_started x1 then _ else _) as [[u|e] x2]; [|done].
    destruct (matcher_word w _) as [[n|e] x']; [|done]. destruct Hstep as (H1 & H2 & H3).
    split; [done|]. split; [done|]. by apply sends_trans with x1.
Qed.

(** The contract of a node, from what a call sends of what is due. *)
Section Contract.
Context {O : Type} (output due : WordMatcher -> list O).
Hypothesis sends_due : forall x x', sends x x' -> exists emitted, output x' = output x ++ emitted /\ due x = emitted ++ due x'.
Hypothesis end_due : forall x, pending (words x) = [] -> due x = [].

Lemma matcher_contract : Drains matcher_work matcher_inv matcher_measure output due.
Proof.
  constructor. intros x Hx. pose proof (matcher_step x Hx) as H. destruct (matcher_work x) as [[n|e] x'].
  - destruct H as (H1 & H2 & H3). split; [done|]. split; [done|]. by apply sends_due.
  - destruct H as (-> & H1 & H2 & H3). split; [done|]. split; [done|].
    destruct (sends_due x x' H2) as (emitted & -> & ->). by rewrite end_due, app_nil_r.
Qed.
End Contract.

Lemma nothing_due x : pending (words x) = [] -> matcher_due x = [] /\ pulses_due x = [].
Proof.
  intros H. unfold pulses_due, start_due, pulses_of, matcher_due. rewrite H. cbn. split; [done|].
  by destruct (matcher_started x), (pulse_output x).
Qed.

#[export] Instance matcher_drains_events :
  Drains matcher_work matcher_inv matcher_measure
    (fun x => sent i (match_output x)) (fun x => map (fun h => mkEvent (fst h)) (matcher_due x)).
Proof.
  apply matcher_contract; [|intros x Hx; by rewrite (proj1 (nothing_due x Hx))].
  intros x x' [(hits & H1 & _ & H3) _]. eexists. split; [exact H1|]. by rewrite H3, map_app.
Qed.

#[export] Instance matcher_drains_words :
  Drains matcher_work matcher_inv matcher_measure
    (fun x => sent j (word_output x)) (fun x => map snd (matcher_due x)).
Proof.
  apply matcher_contract; [|intros x Hx; by rewrite (proj1 (nothing_due x Hx))].
  intros x x' [(hits & _ & H2 & H3) _]. eexists. split; [exact H2|]. by rewrite H3, map_app.
Qed.

#[export] Instance matcher_drains_pulses :
  Drains matcher_work matcher_inv matcher_measure (fun x => sent k (pulse_output x)) pulses_due.
Proof.
  apply matcher_contract; [|intros x Hx; by rewrite (proj2 (nothing_due x Hx))].
  intros x x' [_ (shown & H1 & H2)]. by exists shown.
Qed.
End Matcher.

Section MatcherRun.
Variables i j k : nat.

(** C32. The matcher, with manual rearm or without, runs to the end of its words and reports, on its
    event and word outputs alike, the words [reports] selects: a rearm up to the start of a word
    arms the matcher and starts its count anew; a word counts when its masked value satisfies the
    predicate of the settings in force at its start, it is not held off and, with manual rearm, the
    matcher is armed; every [match_count]-th word that counts is reported. The pulse output, where
    connected, goes low before the first word and shows a pulse for each report that does not fall
    in the pulse before. Its inputs are connected, rearms come in time order, the receivers of its
    outputs outlive it, and the scheduled configurations are validated and queued by their
    boundaries, which [schedule_config] sees to. *)
Theorem word_matcher_reports x fuel :
  matcher_inv i j k x -> (matcher_measure x < fuel)%nat ->
  exists n x', run fuel matcher_work x 0 = Some (Shutdown, n, x') /\
    let hits := reports (manual x) (settings x) (scheduled_settings x) (matcher_armed x) (eligible_matches x)
      (next_allowed x) (if manual x then pending (rearm x) else []) (pending (words x)) in
    sent i (match_output x') = sent i (match_output x) ++ map (fun h => mkEvent (fst h)) hits /\
    sent j (word_output x') = sent j (word_output x) ++ map snd hits /\
    sent k (pulse_output x') = sent k (pulse_output x) ++ start_due x ++
      if_connected (pulse_output x) (pulses (pulse_ns x) (last_pulse_end x) (map fst hits)).
Proof.
  intros Hx Hf.
  destruct (run_drains _ _ _ _ _ (Drains0 := matcher_drains_events i j k) fuel x 0 Hx Hf) as (n & x' & Hrun & He & _).
  destruct (run_drains _ _ _ _ _ (Drains0 := matcher_drains_words i j k) fuel x 0 Hx Hf) as (n' & x'' & Hrun' & Hw & _).
  rewrite Hrun in Hrun'. injection Hrun' as <- <-.
  destruct (run_drains _ _ _ _ _ (Drains0 := matcher_drains_pulses i j k) fuel x 0 Hx Hf) as (n' & x'' & Hrun' & Hp & _).
  rewrite Hrun in Hrun'. injection Hrun' as <- <-. by exists n, x'.
Qed.
End MatcherRun.

(** With manual rearm, at least 16 under the mask 255, every second word: 17 is the second that
    counts and disarms, 20 at 30 ns is not armed for; the rearm at 40 ns starts the count anew. *)
Definition demo_matcher : WordMatcher :=
  let x := snd (apply_config [("match_count", U64 2); ("op", CText "ge")]%string
    (WordMatcher_new 16 255 (Some (fresh_receiver [Arrive (Batch
      [Word_new 20 5; Word_new 3 10; Word_new 17 15; Word_new 20 30; Word_new 20 40; Word_new 300 45; Word_new 21 50])]))
      (Some (fresh_receiver [Arrive (SampleMsg (mkEvent 40))])) open_port open_port open_port)) in
  mkMatcher (settings x) true true 0 0 1000 (words x) (rearm x) 0 false
    [(mkBoundary 0 41, [("predicate", CText "range"); ("range_min", U64 44); ("range_max", U64 44)]%string)]
    (match_output x) (pulse_output x) (word_output x).

Lemma word_matcher_reports_witness :
  exists n x', run 9 matcher_work demo_matcher 0 = Some (Shutdown, n, x') /\
    sent 0 (match_output x') = [mkEvent 15; mkEvent 45] /\ sent 0 (word_output x') = [Word_new 17 15; Word_new 300 45] /\
    sent 0 (pulse_output x') = [mkSample false 0; mkSample true 15; mkSample false 1015].
Proof.
  apply (word_matcher_reports 0 0 0).
  - split; [intros _; split; [by eexists|by repeat constructor]|]. split_and!; try done; try by eexists.
    split; [repeat constructor; by eexists|repeat constructor].
  - vm_compute. lia.
Defined.

(** With every match reported and no hold-off or manual rearm, nothing but the predicate selects. *)
Lemma reports_plain s armed ws next :
  match_count s = 1 -> holdoff s = 0 -> ascending (report_ns s) ws ->
  (forall w, In w ws -> next <= report_ns s w <= u64_max) ->
  reports false s [] armed 0 next [] ws =
    map (fun w => (report_ns s w, w)) (List.filter (fun w => bool_decide (satisfies s (value w))) ws).
Proof.
  intros Hc Hh. revert next armed. induction ws as [|w ws IH]; intros next armed Hs Hnext; [done|].
  apply ascending_cons in Hs as [Hle Hs]. cbn [reports existsb List.filter in_force fold_left later].
  pose proof (Hnext w (or_introl eq_refl)) as Hw. unfold in_force, later. cbn [List.filter fold_left].
  destruct (decide (satisfies s (value w))) as [Hsat|Hsat].
  - rewrite !bool_decide_eq_true_2 by (done || by (split; [done|split; [lia|done]])).
    rewrite Hc, Hh. cbn [map]. change (saturating_add64 0 1 <? 1) with false. cbn iota. f_equal. apply IH; [done|].
    intros w' Hw'. specialize (Hle w' Hw'). specialize (Hnext w' (or_intror Hw')). unfold saturating_add64. lia.
  - rewrite !bool_decide_eq_false_2 by (done || by intros [? _]). apply IH; [done|]. intros w' Hw'. apply Hnext. by right.
Qed.

(** With the default count and hold-off the matcher is a filter: it passes exactly the words
    whose masked value satisfies the predicate, when their report instants do not decrease. *)
Theorem word_matcher_filters i j k x fuel :
  matcher_inv i j k x -> manual x = false -> scheduled_settings x = [] -> eligible_matches x = 0 -> next_allowed x = 0 ->
  match_count (settings x) = 1 -> holdoff (settings x) = 0 ->
  ascending (report_ns (settings x)) (pending (words x)) ->
  (forall w, In w (pending (words x)) -> 0 <= report_ns (settings x) w <= u64_max) ->
  (length (pending (words x)) < fuel)%nat ->
  exists n x', run fuel matcher_work x 0 = Some (Shutdown, n, x') /\
    sent j (word_output x') = sent j (word_output x) ++
      List.filter (fun w => bool_decide (satisfies (settings x) (value w))) (pending (words x)).
Proof.
  intros Hx Hman Hs He Hn Hc Hh Has Hb Hf. assert (Hr : rearms_due x = []) by (unfold rearms_due; by rewrite Hman).
  destruct (run_drains _ _ _ _ _ (Drains0 := matcher_drains_words i j k) fuel x 0 Hx)
    as (n & x' & Hrun & Hw & _); [unfold matcher_measure; rewrite Hr; cbn; lia|].
  exists n, x'. split; [done|]. rewrite Hw. f_equal. unfold matcher_due, reports_of.
  rewrite Hman, Hs, He, Hn, Hr, reports_plain by done. rewrite map_map. cbn. apply map_id.
Qed.

Lemma word_matcher_filters_witness :
  let x := WordMatcher_new 16 240 (Some (fresh_receiver [Arrive (Batch
      [Word_new 20 5; Word_new 35 10; Word_new 273 15])])) None open_port None open_port in
  exists n x', run 9 matcher_work x 0 = Some (Shutdown, n, x') /\
    sent 0 (word_output x') = [Word_new 20 5; Word_new 273 15].
Proof.
  apply (word_matcher_filters 0 0 0); try done.
  - split; [done|]. split_and!; try done; first [by eexists|by repeat constructor].
  - apply ascendingb_spec. reflexivity.
  - intros w [<-|[<-|[<-|[]]]]; vm_compute; split; discriminate.
  - simpl. lia.
Defined.
