(* ===== verification/PacketFramer.v ===== *)
(** The packet framer of
    [crates/logic_analyzer_protocol_decoders/src/packet_framer/framer.rs]: it merges a word
    stream, boundary events and a gate level by time and groups the words into packets.

    The node's loop is proved against [frames], which reads the three streams as one sequence of
    events in time order (gate changes before boundaries before words at the same time), and
    [frames] is shown to partition the words that pass the gate. *)

From S2P Require Import Prelude Events Runtime EventNodes.

Definition PACKET_FRAME_PROTOCOL_ID : string := "org.logicconduit.packet-frame/v1".

(** [crates/logic_analyzer_protocol_decoders/src/packet_framer/framer.rs:16-20] GatePolarity *)
Inductive GatePolarity := ActiveHigh | ActiveLow.

(** The configured conditions, which no step changes. *)
Record Framing := mkFraming {
  fixed_word_count : option Z;
  delimiter : option (Z * bool);
  maximum_gap_ns : option Z;
  maximum_words : Z;
  boundary_enabled : bool;
  gate_polarity : option GatePolarity
}.

(** The configuration is grouped in [framing].
    [crates/logic_analyzer_protocol_decoders/src/packet_framer/framer.rs:30-50] PacketFramer *)
Record PacketFramer := mkFramer {
  framing : Framing;
  framer_level : bool;
  framed : list Word;
  framer_words : Lane Word;
  boundaries : Lane TimestampEvent;
  framer_gates : Lane Sample;
  finished : bool;
  packet_output : option (Sender ProtocolPacket)
}.

Definition set_framed ws f :=
  mkFramer (framing f) (framer_level f) ws (framer_words f) (boundaries f) (framer_gates f) (finished f) (packet_output f).
Definition set_framer_level b f :=
  mkFramer (framing f) b (framed f) (framer_words f) (boundaries f) (framer_gates f) (finished f) (packet_output f).
Definition set_framer_words l f :=
  mkFramer (framing f) (framer_level f) (framed f) l (boundaries f) (framer_gates f) (finished f) (packet_output f).
Definition set_boundaries l f :=
  mkFramer (framing f) (framer_level f) (framed f) (framer_words f) l (framer_gates f) (finished f) (packet_output f).
Definition set_framer_gates l f :=
  mkFramer (framing f) (framer_level f) (framed f) (framer_words f) (boundaries f) l (finished f) (packet_output f).
Definition set_finished f :=
  mkFramer (framing f) (framer_level f) (framed f) (framer_words f) (boundaries f) (framer_gates f) true (packet_output f).
Definition set_packet_output o f :=
  mkFramer (framing f) (framer_level f) (framed f) (framer_words f) (boundaries f) (framer_gates f) (finished f) o.

(** The defaults of [new].
    [crates/logic_analyzer_protocol_decoders/src/packet_framer/framer.rs:60-82] PacketFramer::new *)
Definition PacketFramer_new : Framing := mkFraming None None None 4096 false None.

(** [crates/logic_analyzer_protocol_decoders/src/packet_framer/framer.rs:94-97] PacketFramer::with_fixed_word_count *)
Definition with_fixed_word_count (count : option Z) (c : Framing) : Framing :=
  mkFraming (match count with Some n => if 0 <? n then Some n else None | None => None end)
    (delimiter c) (maximum_gap_ns c) (maximum_words c) (boundary_enabled c) (gate_polarity c).

(** [crates/logic_analyzer_protocol_decoders/src/packet_framer/framer.rs:100-103] PacketFramer::with_delimiter *)
Definition with_delimiter (value : option Z) (include : bool) (c : Framing) : Framing :=
  mkFraming (fixed_word_count c) (match value with Some v => Some (v, include) | None => None end)
    (maximum_gap_ns c) (maximum_words c) (boundary_enabled c) (gate_polarity c).

(** [crates/logic_analyzer_protocol_decoders/src/packet_framer/framer.rs:106-109] PacketFramer::with_maximum_gap_ns *)
Definition with_maximum_gap_ns (gap : option Z) (c : Framing) : Framing :=
  mkFraming (fixed_word_count c) (delimiter c)
    (match gap with Some g => if 0 <? g then Some g else None | None => None end)
    (maximum_words c) (boundary_enabled c) (gate_polarity c).

(** [crates/logic_analyzer_protocol_decoders/src/packet_framer/framer.rs:112-115] PacketFramer::with_maximum_words *)
Definition with_maximum_words (n : Z) (c : Framing) : Framing :=
  mkFraming (fixed_word_count c) (delimiter c) (maximum_gap_ns c) (Z.max n 1) (boundary_enabled c)
    (gate_polarity c).

(** [crates/logic_analyzer_protocol_decoders/src/packet_framer/framer.rs:118-121] PacketFramer::with_boundary_input *)
Definition with_boundary_input (enabled : bool) (c : Framing) : Framing :=
  mkFraming (fixed_word_count c) (delimiter c) (maximum_gap_ns c) (maximum_words c) enabled (gate_polarity c).

(** [crates/logic_analyzer_protocol_decoders/src/packet_framer/framer.rs:124-127] PacketFramer::with_gate_input *)
Definition with_gate_input (polarity : option GatePolarity) (c : Framing) : Framing :=
  mkFraming (fixed_word_count c) (delimiter c) (maximum_gap_ns c) (maximum_words c) (boundary_enabled c) polarity.

(** A framer with its ports, before its first step. *)
Definition fresh_framer (c : Framing) words boundary gate output : PacketFramer :=
  mkFramer c false [] (fresh_lane words) (fresh_lane boundary) (fresh_lane gate) false output.

(** [crates/logic_analyzer_protocol_decoders/src/packet_framer/framer.rs:129-135] PacketFramer::gate_active *)
Definition gate_active (c : Framing) (gate_level : bool) : bool :=
  match gate_polarity c with
  | None => true
  | Some ActiveHigh => gate_level
  | Some ActiveLow => negb gate_level
  end.

Definition is_some {A} (o : option A) : bool := match o with Some _ => true | None => false end.

(** [crates/logic_analyzer_protocol_decoders/src/packet_framer/framer.rs:137-174] PacketFramer::fill_heads *)
Definition framer_fill_heads (f : PacketFramer) : WorkResult unit * PacketFramer :=
  let! _, f := zoom framer_words set_framer_words (fill "Missing words input") f in
  let! _, f := (if boundary_enabled (framing f)
    then zoom boundaries set_boundaries (fill "Missing boundary input") f else (Ok tt, f)) in
  if is_some (gate_polarity (framing f))
  then zoom framer_gates set_framer_gates (fill "Missing gate input") f else (Ok tt, f).

(** The entries of the [BTreeMap] in key order.
    [crates/logic_analyzer_protocol_decoders/src/packet_framer/framer.rs:345-370] word_value *)
Definition word_value (w : Word) : ProtocolValue :=
  PMapping ([("end_time_ns"%string, PInteger (end_ns w))]
    ++ match payload w with
       | Some (Bytes bytes) => [("payload"%string, PBytes bytes)]
       | Some (Text text) => [("payload"%string, PString text)]
       | None => []
       end
    ++ [("start_time_ns"%string, PInteger (timestamp_ns w)); ("value"%string, PInteger (value w))]).

(** The packet of a non-empty group of words.
    [crates/logic_analyzer_protocol_decoders/src/packet_framer/framer.rs:178-192] PacketFramer::close_packet (packet) *)
Definition packet_of (words : list Word) : option ProtocolPacket :=
  match words, last words with
  | first :: _, Some final =>
      Some (mkPacket 0 0 (timestamp_ns first) (end_ns final) PACKET_FRAME_PROTOCOL_ID
              (PList (map word_value words)))
  | _, _ => None
  end.

(** The closed packet, if any, as a list, and the framer without its words.
    [crates/logic_analyzer_protocol_decoders/src/packet_framer/framer.rs:176-193] PacketFramer::close_packet *)
Definition close_packet (f : PacketFramer) : list ProtocolPacket * PacketFramer :=
  (option_list (packet_of (framed f)), set_framed [] f).

(** [crates/logic_analyzer_protocol_decoders/src/packet_framer/framer.rs:195-231] PacketFramer::process_word *)
Definition process_word (w : Word) (f : PacketFramer) : list ProtocolPacket * PacketFramer :=
  let c := framing f in
  if negb (gate_active c (framer_level f)) then ([], f)
  else
    let gap := match maximum_gap_ns c, last (framed f) with
      | Some maximum, Some previous => maximum <? saturating_sub64 (timestamp_ns w) (end_ns previous)
      | _, _ => false
      end in
    let '(packets, f) := if gap then close_packet f else ([], f) in
    let is_delimiter := match delimiter c with Some (d, _) => value w =? d | None => false end in
    let include_delimiter := match delimiter c with Some (_, include) => include | None => false end in
    if is_delimiter && negb include_delimiter then
      let '(more, f) := close_packet f in (packets ++ more, f)
    else
      let f := set_framed (framed f ++ [w]) f in
      let fixed_complete := match fixed_word_count c with
        | Some count => count <=? zlen (framed f)
        | None => false
        end in
      if is_delimiter || fixed_complete || (maximum_words c <=? zlen (framed f)) then
        let '(more, f) := close_packet f in (packets ++ more, f)
      else (packets, f).

(** The input whose head is due: the minimum of (time, kind) over the heads.
    [crates/logic_analyzer_protocol_decoders/src/packet_framer/framer.rs:234-244] PacketFramer::process_next_event (next) *)
Definition next_kind (f : PacketFramer) : option Z :=
  let gate := match head (framer_gates f) with Some g => [(start_time_ns g, 0)] | None => [] end in
  let boundary := match head (boundaries f) with Some b => [(event_ns b, 1)] | None => [] end in
  let word := match head (framer_words f) with Some w => [(timestamp_ns w, 2)] | None => [] end in
  let less (a b : Z * Z) := (fst a <? fst b) || ((fst a =? fst b) && (snd a <=? snd b)) in
  let min := fold_left (fun m x => match m with
    | Some m => Some (if less m x then m else x)
    | None => Some x
    end) (gate ++ boundary ++ word) None in
  match min with Some (_, kind) => Some kind | None => None end.

(** [crates/logic_analyzer_protocol_decoders/src/packet_framer/framer.rs:233-267] PacketFramer::process_next_event *)
Definition process_next_event (f : PacketFramer) : list ProtocolPacket * PacketFramer :=
  match next_kind f with
  | Some 0 =>
      let was_active := gate_active (framing f) (framer_level f) in
      let level := match head (framer_gates f) with Some g => level g | None => framer_level f end in
      let f := set_framer_level level (set_framer_gates (drop_head (framer_gates f)) f) in
      if was_active && negb (gate_active (framing f) (framer_level f)) then close_packet f else ([], f)
  | Some 1 => close_packet (set_boundaries (drop_head (boundaries f)) f)
  | Some _ =>
      match head (framer_words f) with
      | Some w => process_word w (set_framer_words (drop_head (framer_words f)) f)
      | None => ([], f)
      end
  | None => ([], f)
  end.

(** [crates/logic_analyzer_protocol_decoders/src/packet_framer/framer.rs:269-276] PacketFramer::all_inputs_finished *)
Definition all_inputs_finished (f : PacketFramer) : bool :=
  lane_eos (framer_words f)
  && (negb (boundary_enabled (framing f)) || lane_eos (boundaries f))
  && (negb (is_some (gate_polarity (framing f))) || lane_eos (framer_gates f))
  && negb (is_some (head (framer_words f))) && negb (is_some (head (boundaries f)))
  && negb (is_some (head (framer_gates f))).

(** The end of [work]: the flush when the inputs are finished, the send and the report.
    [crates/logic_analyzer_protocol_decoders/src/packet_framer/framer.rs:327-341] PacketFramer::work (end) *)
Definition work_end (packets : list ProtocolPacket) (f : PacketFramer) : WorkResult Z * PacketFramer :=
  let '(packets, f) :=
    if all_inputs_finished f then
      let '(more, f) := close_packet f in (packets ++ more, set_finished f)
    else (packets, f) in
  let count := zlen packets in
  let! _, f := (if 0 <? count
    then zoom packet_output set_packet_output (fun o => emit_batch "Missing packets output" o packets) f
    else (Ok tt, f)) in
  if (count =? 0) && finished f then (Err Shutdown, f) else (Ok count, f).

(** [crates/logic_analyzer_protocol_decoders/src/packet_framer/framer.rs:316-342] PacketFramer::work *)
Definition framer_work (f : PacketFramer) : WorkResult Z * PacketFramer :=
  if finished f then (Err Shutdown, f)
  else
    match packet_output f with
    | None => (Err (NodeError "Missing packets output"), f)
    | Some _ =>
        let! _, f := framer_fill_heads f in
        let '(packets, f) := process_next_event f in
        work_end packets f
    end.

(** ** The specification *)

Inductive FrameEvent :=
| GateChange (s : Sample)
| Boundary (e : TimestampEvent)
| WordIn (w : Word).

Definition event_time (e : FrameEvent) : Z :=
  match e with
  | GateChange s => start_time_ns s
  | Boundary e => event_ns e
  | WordIn w => timestamp_ns w
  end.

(** Stable insertion by time. *)
Fixpoint insert_event (e : FrameEvent) (l : list FrameEvent) : list FrameEvent :=
  match l with
  | [] => [e]
  | e' :: l' => if event_time e <=? event_time e' then e :: l else e' :: insert_event e l'
  end.

Definition by_time (l : list FrameEvent) : list FrameEvent := fold_right insert_event [] l.

Definition group_of (words : list Word) : list (list Word) :=
  match words with [] => [] | _ :: _ => [words] end.

Definition gap_before (c : Framing) (group : list Word) (w : Word) : bool :=
  match maximum_gap_ns c, last group with
  | Some maximum, Some previous => maximum <? saturating_sub64 (timestamp_ns w) (end_ns previous)
  | _, _ => false
  end.

Definition is_delimiter (c : Framing) (w : Word) : bool :=
  match delimiter c with Some (d, _) => value w =? d | None => false end.

(** A delimiter that belongs to no packet. *)
Definition dropped (c : Framing) (w : Word) : bool :=
  is_delimiter c w && negb (match delimiter c with Some (_, include) => include | None => false end).

(** The group is complete with its last word [w]. *)
Definition complete (c : Framing) (group : list Word) (w : Word) : bool :=
  is_delimiter c w
  || match fixed_word_count c with Some count => count <=? zlen group | None => false end
  || (maximum_words c <=? zlen group).

(** The groups of words the packets hold, from a gate level and a group in progress. *)
Fixpoint frames (c : Framing) (level : bool) (group : list Word) (events : list FrameEvent)
  : list (list Word) :=
  match events with
  | [] => group_of group
  | GateChange s :: events =>
      if gate_active c level && negb (gate_active c (Events.level s))
      then group_of group ++ frames c (Events.level s) [] events
      else frames c (Events.level s) group events
  | Boundary _ :: events => group_of group ++ frames c level [] events
  | WordIn w :: events =>
      if negb (gate_active c level) then frames c level group events
      else
        let closed := if gap_before c group w then group_of group else [] in
        let group := if gap_before c group w then [] else group in
        closed ++
        if dropped c w then group_of group ++ frames c level [] events
        else if complete c (group ++ [w]) w then (group ++ [w]) :: frames c level [] events
        else frames c level (group ++ [w]) events
  end.

Definition packets_of (groups : list (list Word)) : list ProtocolPacket :=
  concat (map (fun g => option_list (packet_of g)) groups).

Lemma packets_of_app l1 l2 : packets_of (l1 ++ l2) = packets_of l1 ++ packets_of l2.
Proof. unfold packets_of. by rewrite map_app, concat_app. Qed.

Lemma packets_of_group g : packets_of (group_of g) = option_list (packet_of g).
Proof. destruct g; [done|]. unfold packets_of. cbn. by rewrite app_nil_r. Qed.

(** ** Sorting *)

Lemma insert_event_In x e l : In x (insert_event e l) <-> x = e \/ In x l.
Proof.
  induction l as [|e' l IH]; cbn; [intuition congruence|].
  destruct (event_time e <=? event_time e'); cbn; rewrite ?IH; intuition congruence.
Qed.

Lemma by_time_In x l : In x (by_time l) <-> In x l.
Proof.
  induction l as [|e l IH]; [done|]. cbn. rewrite insert_event_In, IH. intuition congruence.
Qed.

(** An event due before all others comes first. *)
Lemma by_time_first l1 e l2 :
  (forall x, In x l1 -> event_time e < event_time x) ->
  (forall x, In x l2 -> event_time e <= event_time x) ->
  by_time (l1 ++ e :: l2) = e :: by_time (l1 ++ l2).
Proof.
  intros H1 H2. induction l1 as [|y l1 IH]; cbn [app by_time fold_right].
  - fold (by_time l2). destruct (by_time l2) as [|z l] eqn:Hl; [done|]. cbn.
    assert (Hz : In z l2) by (apply by_time_In; rewrite Hl; by left).
    by rewrite (proj2 (Z.leb_le _ _)) by (by apply H2).
  - fold (by_time (l1 ++ e :: l2)) (by_time (l1 ++ l2)). rewrite IH by (intros x Hx; apply H1; by right).
    cbn [insert_event]. by rewrite (proj2 (Z.leb_gt _ _)) by (apply H1; by left).
Qed.

(** ** One word *)

Lemma process_word_spec w f :
  let c := framing f in
  gate_active c (framer_level f) = true ->
  let group := if gap_before c (framed f) w then [] else framed f in
  let closed := if gap_before c (framed f) w then group_of (framed f) else [] in
  process_word w f =
    if dropped c w then (packets_of (closed ++ group_of group), set_framed [] f)
    else if complete c (group ++ [w]) w then (packets_of (closed ++ [group ++ [w]]), set_framed [] f)
    else (packets_of closed, set_framed (group ++ [w]) f).
Proof.
  intros c Ha group closed. unfold process_word. fold c. rewrite Ha. cbn [negb].
  fold (gap_before c (framed f) w). fold (is_delimiter c w). unfold group, closed. clear group closed.
  rewrite !packets_of_app. unfold dropped, complete, close_packet.
  destruct (gap_before c (framed f) w); cbn [set_framed framed].
  - rewrite packets_of_group. destruct (is_delimiter c w && negb _); [done|]. cbn [app].
    destruct (_ || _ || _); [|done]. unfold packets_of. cbn. by rewrite ?app_nil_r.
  - destruct (is_delimiter c w && negb _); [by rewrite packets_of_group|].
    destruct (_ || _ || _); [|done]. unfold packets_of. cbn. by rewrite ?app_nil_r.
Qed.

(** ** The node's loop *)

Definition gate_input (c : Framing) : bool := is_some (gate_polarity c).

(** What an input that may be disabled still has to hand over. *)
Definition pending_if {T} (enabled : bool) (l : Lane T) : list T := if enabled then pending l else [].

Definition connected_if {T} (enabled : bool) (l : Lane T) : Prop :=
  if enabled then connected l else head l = None.

Definition filled_if {T} (enabled : bool) (l : Lane T) : Prop := if enabled then filled l else True.

Definition merged (gates : list Sample) (bs : list TimestampEvent) (ws : list Word) : list FrameEvent :=
  by_time (map GateChange gates ++ map Boundary bs ++ map WordIn ws).

Definition gates_pending f := pending_if (gate_input (framing f)) (framer_gates f).
Definition boundaries_pending f := pending_if (boundary_enabled (framing f)) (boundaries f).
Definition words_pending f := pending (framer_words f).

(** The packets a framer still has to send. *)
Definition framer_due (f : PacketFramer) : list ProtocolPacket :=
  if finished f then []
  else packets_of (frames (framing f) (framer_level f) (framed f)
                     (merged (gates_pending f) (boundaries_pending f) (words_pending f))).

Definition output_of (i : nat) (f : PacketFramer) : list ProtocolPacket := sent i (packet_output f).

Definition framer_inv (i : nat) (f : PacketFramer) : Prop :=
  connected (framer_words f) /\ connected_if (boundary_enabled (framing f)) (boundaries f) /\
  connected_if (gate_input (framing f)) (framer_gates f) /\
  ascending timestamp_ns (words_pending f) /\ ascending event_ns (boundaries_pending f) /\
  ascending start_time_ns (gates_pending f) /\ plugged i (packet_output f).

Definition framer_measure (f : PacketFramer) : nat :=
  length (words_pending f) + length (boundaries_pending f) + length (gates_pending f)
  + (if finished f then 0 else 1).

Definition framer_filled (f : PacketFramer) : Prop :=
  filled (framer_words f) /\ filled_if (boundary_enabled (framing f)) (boundaries f) /\
  filled_if (gate_input (framing f)) (framer_gates f).

Lemma filled_if_cases {T} enabled (l : Lane T) :
  connected_if enabled l -> filled_if enabled l ->
  (pending_if enabled l = [] /\ (negb enabled || lane_eos l) = true /\ head l = None) \/
  (exists item rest, pending_if enabled l = item :: rest /\ head l = Some item /\
    pending_if enabled (drop_head l) = rest).
Proof.
  destruct enabled; cbn; [|by left]. intros _ H. destruct (filled_cases l H) as [(?&?&?)|?]; eauto.
Qed.

Lemma connected_if_drop_head {T} enabled (l : Lane T) :
  connected_if enabled l -> connected_if enabled (drop_head l).
Proof. by destruct enabled. Qed.

Lemma framer_fill_spec i f :
  framer_inv i f ->
  exists f', framer_fill_heads f = (Ok tt, f') /\ framer_inv i f' /\ framer_filled f' /\
    framer_due f' = framer_due f /\ framer_measure f' = framer_measure f /\
    packet_output f' = packet_output f /\ finished f' = finished f.
Proof.
  destruct f as [c lv gr lw lb lg fin out]. unfold framer_inv, words_pending, boundaries_pending, gates_pending.
  cbn [framing framer_words boundaries framer_gates packet_output]. intros (Hw & Hb & Hg & Aw & Ab & Ag & Ho).
  unfold framer_fill_heads, zoom.
  cbn [framing framer_words boundaries framer_gates set_framer_words set_boundaries set_framer_gates].
  destruct (fill_spec "Missing words input" lw Hw) as (lw' & -> & Hw' & Pw & Fw). fold (gate_input c).
  assert (Eb : exists lb', (if boundary_enabled c
      then fill "Missing boundary input" lb else (Ok tt, lb)) = (Ok tt, lb')
    /\ connected_if (boundary_enabled c) lb' /\ pending_if (boundary_enabled c) lb' = pending_if (boundary_enabled c) lb
    /\ filled_if (boundary_enabled c) lb').
  { destruct (boundary_enabled c); [by apply fill_spec|by exists lb]. }
  destruct Eb as (lb' & Eb & Hb' & Pb & Fb).
  assert (Eg : exists lg', (if gate_input c
      then fill "Missing gate input" lg else (Ok tt, lg)) = (Ok tt, lg')
    /\ connected_if (gate_input c) lg' /\ pending_if (gate_input c) lg' = pending_if (gate_input c) lg
    /\ filled_if (gate_input c) lg').
  { destruct (gate_input c); [by apply fill_spec|by exists lg]. }
  destruct Eg as (lg' & Eg & Hg' & Pg & Fg).
  exists (mkFramer c lv gr lw' lb' lg' fin out). split.
  { destruct (boundary_enabled c) eqn:Bc; cbn; rewrite Bc; cbn; [rewrite Eb|injection Eb as <-]; cbn;
      fold (gate_input c); (destruct (gate_input c); [rewrite Eg|injection Eg as <-]); done. }
  unfold framer_filled, framer_due, framer_measure, words_pending, boundaries_pending, gates_pending.
  cbn [framing framer_words boundaries framer_gates packet_output finished].
  rewrite Pw, Pb, Pg. done.
Qed.

(** *** Which event is due *)

Lemma after_ascending {T} (key : T -> Z) (x : T) (l : list T) (t : Z) :
  ascending key (x :: l) -> t <= key x -> forall y, In y (x :: l) -> t <= key y.
Proof.
  intros H Ht y. apply ascending_cons in H as [H _]. intros [<-|Hy]; [done|]. specialize (H y Hy). lia.
Qed.

(** Every pending item of a stream comes at or after [t] ([strict]: after). *)
Definition all_from {T} (key : T -> Z) (strict : bool) (t : Z) (l : list T) : Prop :=
  forall x, In x l -> if strict then t < key x else t <= key x.

Lemma all_from_intro {T} (key : T -> Z) (strict : bool) (t : Z) (l : list T) :
  ascending key l -> match l with x :: _ => if strict then t < key x else t <= key x | [] => True end ->
  all_from key strict t l.
Proof.
  destruct l as [|x l]; [by intros ? ? ?|]. intros Ha Hx y Hy.
  destruct strict; [enough (t + 1 <= key y) by lia|];
    apply (after_ascending key x l); try done; lia.
Qed.

Lemma merged_gate s gates bs ws :
  all_from start_time_ns false (start_time_ns s) gates -> all_from event_ns false (start_time_ns s) bs ->
  all_from timestamp_ns false (start_time_ns s) ws ->
  merged (s :: gates) bs ws = GateChange s :: merged gates bs ws.
Proof.
  intros Hg Hb Hw. unfold merged. cbn [map app]. apply (by_time_first []); [done|].
  intros x. rewrite !in_app_iff, !in_map_iff. cbn [event_time].
  intros [(y & <- & Hy)|[(y & <- & Hy)|(y & <- & Hy)]]; cbn; eauto.
Qed.

Lemma merged_boundary b gates bs ws :
  all_from start_time_ns true (event_ns b) gates -> all_from event_ns false (event_ns b) bs ->
  all_from timestamp_ns false (event_ns b) ws ->
  merged gates (b :: bs) ws = Boundary b :: merged gates bs ws.
Proof.
  intros Hg Hb Hw. unfold merged. cbn [map app]. apply by_time_first; intros x; cbn [event_time].
  - rewrite in_map_iff. intros (y & <- & Hy). by apply Hg.
  - rewrite in_app_iff, !in_map_iff. intros [(y & <- & Hy)|(y & <- & Hy)]; cbn; eauto.
Qed.

Lemma merged_word w gates bs ws :
  all_from start_time_ns true (timestamp_ns w) gates -> all_from event_ns true (timestamp_ns w) bs ->
  all_from timestamp_ns false (timestamp_ns w) ws ->
  merged gates bs (w :: ws) = WordIn w :: merged gates bs ws.
Proof.
  intros Hg Hb Hw. unfold merged. rewrite !app_assoc. cbn [map]. apply by_time_first; intros x; cbn [event_time].
  - rewrite in_app_iff, !in_map_iff. intros [(y & <- & Hy)|(y & <- & Hy)]; [by apply Hg|by apply Hb].
  - rewrite in_map_iff. intros (y & <- & Hy). by apply Hw.
Qed.

Lemma tail_from {T} (key : T -> Z) (x : T) (l : list T) : ascending key (x :: l) -> all_from key false (key x) l.
Proof. intros H. apply ascending_cons in H as [H _]. exact H. Qed.

(** Decides the comparisons of times innermost first. *)
Ltac compare_heads :=
  change (0 <=? 1) with true; change (0 <=? 2) with true; change (1 <=? 2) with true;
  repeat (cbn [andb orb fst snd]; match goal with
    | |- context [?a <? ?b] => lazymatch a with context [if _ then _ else _] => fail
        | _ => destruct (Z.ltb_spec a b) end
    | |- context [?a =? ?b] => lazymatch a with context [if _ then _ else _] => fail
        | _ => destruct (Z.eqb_spec a b) end
    end).

Ltac ordered := first [by apply tail_from | apply all_from_intro; [done|cbn; lia]].

Ltac select_event :=
  first
    [ left; do 2 eexists; do 4 (split; [done|]); apply merged_gate; ordered
    | right; left; do 2 eexists; do 4 (split; [done|]); apply merged_boundary; ordered
    | right; right; do 2 eexists; do 4 (split; [done|]); apply merged_word; ordered ].

(** The head the node selects is the first of the merged events. *)
Lemma next_kind_cases i f :
  framer_inv i f -> framer_filled f ->
  let gs := gates_pending f in let bs := boundaries_pending f in let ws := words_pending f in
  (merged gs bs ws = [] /\ next_kind f = None /\ all_inputs_finished f = true) \/
  (exists s rest, gs = s :: rest /\ head (framer_gates f) = Some s /\
    pending_if (gate_input (framing f)) (drop_head (framer_gates f)) = rest /\
    next_kind f = Some 0 /\ merged gs bs ws = GateChange s :: merged rest bs ws) \/
  (exists b rest, bs = b :: rest /\ head (boundaries f) = Some b /\
    pending_if (boundary_enabled (framing f)) (drop_head (boundaries f)) = rest /\
    next_kind f = Some 1 /\ merged gs bs ws = Boundary b :: merged gs rest ws) \/
  (exists w rest, ws = w :: rest /\ head (framer_words f) = Some w /\
    pending (drop_head (framer_words f)) = rest /\
    next_kind f = Some 2 /\ merged gs bs ws = WordIn w :: merged gs bs rest).
Proof.
  intros (Cw & Cb & Cg & Aw & Ab & Ag & Ho) (Fw & Fb & Fg). cbn zeta.
  unfold gates_pending, boundaries_pending, words_pending in *. unfold next_kind, all_inputs_finished.
  fold (gate_input (framing f)).
  destruct (filled_if_cases _ _ Cg Fg) as [(Pg & Eg & Hg)|(s & gs & Pg & Hg & Dg)];
  destruct (filled_if_cases _ _ Cb Fb) as [(Pb & Eb & Hb)|(b & bs & Pb & Hb & Db)];
  destruct (filled_cases _ Fw) as [(Pw & Ew & Hw)|(w & ws & Pw & Hw & Dw)];
  rewrite ?Pg, ?Pb, ?Pw in *; rewrite ?Hg, ?Hb, ?Hw; cbn [app fold_left fst snd].
  1: { left. rewrite ?Eg, ?Eb, ?Ew. done. }
  all: right; compare_heads; try lia; select_event.
Qed.

(** *** One step *)

(** Feeding [f] an event: what it closes and the state it leaves.  The two sides of the
    equation are what is due before and after. *)
Lemma process_word_due w events f :
  let '(packets, f') := process_word w f in
  packets_of (frames (framing f) (framer_level f) (framed f) (WordIn w :: events))
    = packets ++ packets_of (frames (framing f') (framer_level f') (framed f') events) /\
  exists ws, f' = set_framed ws f.
Proof.
  cbn [frames]. destruct (gate_active (framing f) (framer_level f)) eqn:Ha; cbn [negb].
  - rewrite process_word_spec by done.
    destruct (dropped _ _); [|destruct (complete _ _ _)]; cbn [set_framed framed framing framer_level];
      (split; [|by eexists]); rewrite !packets_of_app; [by rewrite app_assoc| |done].
    rewrite <- app_assoc. f_equal. by rewrite <- (packets_of_app [_]).
  - unfold process_word. rewrite Ha. split; [done|]. exists (framed f). by destruct f.
Qed.

Lemma close_packet_due level events f :
  let '(packets, f') := close_packet f in
  packets_of (group_of (framed f) ++ frames (framing f) level [] events)
    = packets ++ packets_of (frames (framing f') level (framed f') events) /\
  f' = set_framed [] f.
Proof. unfold close_packet. cbn. by rewrite packets_of_app, packets_of_group. Qed.

Lemma ascending_tail {T} (key : T -> Z) (x : T) (l : list T) : ascending key (x :: l) -> ascending key l.
Proof. intros H. apply ascending_cons in H as [_ H]. exact H. Qed.

(** What a step of the event loop owes to the steps that follow. *)
Definition event_step (i : nat) (f : PacketFramer) (packets : list ProtocolPacket) (f' : PacketFramer) : Prop :=
  framer_inv i f' /\ (framer_measure f' < framer_measure f)%nat /\ finished f' = false /\
  packet_output f' = packet_output f /\ framer_due f = packets ++ framer_due f'.

Ltac step_state :=
  unfold event_step, framer_inv, framer_measure, framer_due, gates_pending, boundaries_pending, words_pending in *;
  cbn [framing framer_level framed framer_words boundaries framer_gates finished packet_output
       set_framer_words set_boundaries set_framer_gates set_framer_level set_framed set_finished] in *.

Lemma process_next_event_spec i f :
  framer_inv i f -> framer_filled f -> finished f = false ->
  let '(packets, f') := process_next_event f in
  (packets = [] /\ f' = f /\ all_inputs_finished f = true /\
     framer_due f = packets_of (group_of (framed f))) \/
  event_step i f packets f'.
Proof.
  intros Hi Hf Hfin.
  destruct (next_kind_cases i f Hi Hf) as [(He & Hk & Hall)
    |[(s & rest & Hp & Hh & Hr & Hk & Hm)|[(b & rest & Hp & Hh & Hr & Hk & Hm)|(w & rest & Hp & Hh & Hr & Hk & Hm)]]];
    unfold process_next_event; rewrite Hk; cbn iota beta zeta.
  - left. unfold framer_due. by rewrite Hfin, He.
  - rewrite Hh. destruct f as [c lv gr lw lb lg fin out]. step_state. subst fin.
    rewrite Hm, Hp in *. destruct Hi as (?&?&?&?&?&Ag&?).
    assert (Hi' : connected_if (gate_input c) (drop_head lg)) by by apply connected_if_drop_head.
    apply ascending_tail in Ag. cbn [frames].
    destruct (gate_active c lv && negb (gate_active c (level s))); unfold close_packet; right; step_state; rewrite Hr;
      (split; [done|split; [cbn; lia|]]); do 2 (split; [done|]); [|done].
    by rewrite packets_of_app, packets_of_group.
  - unfold close_packet. right. destruct f as [c lv gr lw lb lg fin out]. step_state. subst fin.
    rewrite Hm, Hp in *. destruct Hi as (?&?&?&?&Ab&?&?).
    assert (Hi' : connected_if (boundary_enabled c) (drop_head lb)) by by apply connected_if_drop_head.
    apply ascending_tail in Ab. cbn [frames]. rewrite Hr.
    (split; [done|split; [cbn; lia|]]); do 2 (split; [done|]).
    by rewrite packets_of_app, packets_of_group.
  - rewrite Hh.
    pose proof (process_word_due w (merged (gates_pending f) (boundaries_pending f) rest)
      (set_framer_words (drop_head (framer_words f)) f)) as Hw.
    destruct (process_word _ _) as [packets f']. destruct Hw as [Hd (gr' & ->)]. right.
    destruct f as [c lv gr lw lb lg fin out]. step_state. subst fin. rewrite Hm, Hp in *.
    destruct Hi as (?&?&?&Aw&?&?&?). apply ascending_tail in Aw. rewrite Hr.
    (split; [done|split; [cbn; lia|]]); by do 2 (split; [done|]).
Qed.

(** With all inputs finished only the group in progress is due. *)
Lemma all_finished_due f :
  all_inputs_finished f = true -> finished f = false ->
  framer_due f = option_list (packet_of (framed f)).
Proof.
  assert (Hp : forall T b (l : Lane T), negb b || lane_eos l = true -> negb (is_some (head l)) = true ->
    pending_if b l = []).
  { intros T [] l; [|done]. cbn. unfold pending. destruct (head l); [done|]. by intros ->. }
  unfold all_inputs_finished. rewrite !andb_true_iff. intros [[[[[H1 H2] H3] H4] H5] H6] Hf.
  unfold framer_due, gates_pending, boundaries_pending. rewrite Hf.
  change (words_pending f) with (pending_if true (framer_words f)).
  rewrite !Hp by done. by rewrite <- packets_of_group.
Qed.

(** The end of [work]: flush when the inputs are finished, send, report. *)
Lemma work_end_spec i f packets f' :
  framer_inv i f' -> finished f' = false -> 
  (framer_measure f' <= framer_measure f)%nat ->
  (framer_measure f' = framer_measure f -> all_inputs_finished f' = true) ->
  output_of i f' = output_of i f -> framer_due f = packets ++ framer_due f' ->
  match work_end packets f' with
  | (Ok _, f'') => framer_inv i f'' /\ (framer_measure f'' < framer_measure f)%nat /\
      exists emitted, output_of i f'' = output_of i f ++ emitted /\ framer_due f = emitted ++ framer_due f''
  | (Err e, f'') => e = Shutdown /\ framer_inv i f'' /\ output_of i f'' = output_of i f ++ framer_due f
  end.
Proof.
  intros Hi Hfin Hm Hm' Ho Hd. unfold work_end.
  assert (H : exists packets' f'', (if all_inputs_finished f' then
      let '(more, f) := close_packet f' in (packets ++ more, set_finished f) else (packets, f')) = (packets', f'')
    /\ framer_inv i f'' /\ (framer_measure f'' < framer_measure f)%nat /\ output_of i f'' = output_of i f
    /\ framer_due f = packets' ++ framer_due f'').
  { destruct (all_inputs_finished f') eqn:Ha.
    - exists (packets ++ option_list (packet_of (framed f'))), (set_finished (set_framed [] f')).
      split; [done|]. split; [done|]. split.
      { clear -Hm Hfin. revert Hm. unfold framer_measure at 1 3. rewrite Hfin.
        change (finished (set_finished (set_framed [] f'))) with true. destruct f'.
        cbn [set_finished finished] in *. step_state. lia. }
      split; [done|]. rewrite Hd, (all_finished_due f') by done.
      by rewrite app_nil_r.
    - exists packets, f'. repeat split; try done; try apply Hi.
      destruct (Nat.eq_dec (framer_measure f') (framer_measure f)) as [E|]; [by apply Hm' in E|lia]. }
  destruct H as (packets' & f'' & -> & Hi' & Hlt & Ho' & Hd'). clear -Hi' Hlt Ho' Hd'.
  unfold output_of in *. destruct packets' as [|p l].
  - change (zlen (@nil ProtocolPacket)) with 0. change (0 <? 0) with false. change (0 =? 0) with true.
    cbv beta iota. cbn [andb]. destruct (finished f'') eqn:Hf.
    + unfold framer_due in Hd' at 2. rewrite Hf in Hd'. do 2 (split; [done|]).
      unfold output_of. by rewrite Hd', Ho', app_nil_r.
    + split; [done|]. split; [done|]. exists []. by rewrite app_nil_r.
  - assert (Hz : 0 < zlen (p :: l)) by (rewrite zlen_cons; pose proof (zlen_nonneg l); lia).
    rewrite (proj2 (Z.ltb_lt _ _) Hz), (proj2 (Z.eqb_neq _ _)) by lia. cbn [andb]. unfold zoom.
    destruct Hi' as (?&?&?&?&?&?&Hp).
    destruct (emit_batch_plugged i "Missing packets output" _ (p :: l) Hp) as (out & -> & Hpl & Hs).
    destruct f'' as [c lv gr lw lb lg fin out']. cbn in *. split; [done|]. split; [done|].
    exists (p :: l). rewrite Hs, Ho'. by rewrite Hd'.
Qed.

#[export] Instance framer_drains i :
  Drains framer_work (framer_inv i) framer_measure (output_of i) framer_due.
Proof.
  constructor. intros f Hi. unfold framer_work. destruct (finished f) eqn:Hfin.
  { split; [done|]. split; [done|]. unfold framer_due. rewrite Hfin. by rewrite app_nil_r. }
  assert (Hp : is_Some (packet_output f)).
  { destruct Hi as (?&?&?&?&?&?&Hp). destruct (packet_output f); [by eexists|done]. }
  destruct Hp as [out ->].
  destruct (framer_fill_spec i f Hi) as (f1 & -> & Hi1 & Hf1 & Hd1 & Hm1 & Ho1 & Hfin1).
  rewrite Hfin in Hfin1. pose proof (process_next_event_spec i f1 Hi1 Hf1 Hfin1) as H.
  destruct (process_next_event f1) as [packets f2].
  destruct H as [(-> & -> & Ha & Hdue)|(Hi2 & Hlt & Hfin2 & Ho2 & Hd2)];
    apply work_end_spec; try done; try lia; unfold output_of; try congruence.
Qed.

(** ** What the packets hold *)

(** Case analysis on the first of the merged events of three ordered streams. *)
Lemma merged_cases gs bs ws :
  ascending start_time_ns gs -> ascending event_ns bs -> ascending timestamp_ns ws ->
  (gs = [] /\ bs = [] /\ ws = []) \/
  (exists s rest, gs = s :: rest /\ merged gs bs ws = GateChange s :: merged rest bs ws /\
    all_from timestamp_ns false (start_time_ns s) ws) \/
  (exists b rest, bs = b :: rest /\ merged gs bs ws = Boundary b :: merged gs rest ws) \/
  (exists w rest, ws = w :: rest /\ merged gs bs ws = WordIn w :: merged gs bs rest /\
    all_from start_time_ns true (timestamp_ns w) gs).
Proof.
  intros Ag Ab Aw. destruct gs as [|s gs], bs as [|b bs], ws as [|w ws]; [by left|..]; right.
  all: try (set (ts := start_time_ns s); set (tb := event_ns b)); try (set (tw := timestamp_ns w)).
  all: let first_gate := (left; do 2 eexists; (split; [done|]); (split; [apply merged_gate; ordered|ordered])) in
    let first_boundary := (right; left; do 2 eexists; (split; [done|]); apply merged_boundary; ordered) in
    let first_word := (right; right; do 2 eexists; (split; [done|]); (split; [apply merged_word; ordered|ordered])) in
    first [first_gate | first_boundary | first_word
      | destruct (Z.ltb_spec (timestamp_ns w) (start_time_ns s)); [first_word|first_gate]
      | destruct (Z.ltb_spec (timestamp_ns w) (event_ns b)); [first_word|first_boundary]
      | destruct (Z.ltb_spec (event_ns b) (start_time_ns s));
          [destruct (Z.ltb_spec (timestamp_ns w) (event_ns b)); [first_word|first_boundary]
          |destruct (Z.ltb_spec (timestamp_ns w) (start_time_ns s)); [first_word|first_gate]]
      | destruct (Z.ltb_spec (event_ns b) (start_time_ns s)); [first_boundary|first_gate] ].
Qed.

(** The words that reach a packet: those the gate lets through, less excluded delimiters. *)
Definition packed_words (c : Framing) (initial : bool) (gates : list Sample) (ws : list Word) : list Word :=
  List.filter (fun w => gate_active c (bool_level_at initial gates (timestamp_ns w)) && negb (dropped c w)) ws.

Lemma concat_group_of ws : concat (group_of ws) = ws.
Proof. destruct ws; [done|]. cbn. by rewrite app_nil_r. Qed.

Lemma filter_gate c initial s gs ws :
  all_from timestamp_ns false (start_time_ns s) ws ->
  packed_words c initial (s :: gs) ws = packed_words c (level s) gs ws.
Proof.
  intros H. apply filter_ext_in. intros w Hw.
  by rewrite bool_level_at_cons, (proj2 (Z.leb_le _ _)) by exact (H w Hw).
Qed.

Lemma packed_words_cons c initial gs w ws :
  all_from start_time_ns true (timestamp_ns w) gs ->
  packed_words c initial gs (w :: ws) =
    (if gate_active c initial && negb (dropped c w) then [w] else []) ++ packed_words c initial gs ws.
Proof.
  intros H. unfold packed_words. cbn [List.filter]. rewrite bool_level_at_later by exact H.
  by destruct (_ && _).
Qed.

Lemma concat_frames c gs bs ws level group :
  ascending start_time_ns gs -> ascending event_ns bs -> ascending timestamp_ns ws ->
  concat (frames c level group (merged gs bs ws)) = group ++ packed_words c level gs ws.
Proof.
  remember (length gs + length bs + length ws)%nat as n eqn:Hn.
  revert gs bs ws level group Hn. induction n as [n IH] using lt_wf_ind. intros gs bs ws level group -> Ag Ab Aw.
  destruct (merged_cases gs bs ws Ag Ab Aw) as [(->&->&->)|[(s&r&->&->&Hs)|[(b&r&->&->)|(w&r&->&->&Hw)]]];
    cbn [frames].
  - cbn. by rewrite concat_group_of, app_nil_r.
  - rewrite filter_gate by done. apply ascending_tail in Ag.
    assert (E := fun group => IH (length r + length bs + length ws)%nat ltac:(cbn; lia) r bs ws (Events.level s) group eq_refl Ag Ab Aw).
    destruct (_ && _); [|apply E]. by rewrite concat_app, concat_group_of, E.
  - apply ascending_tail in Ab.
    by rewrite concat_app, concat_group_of, (IH (length gs + length r + length ws)%nat ltac:(cbn; lia) gs r ws level [] eq_refl).
  - rewrite packed_words_cons by done. apply ascending_tail in Aw.
    assert (E := fun group => IH (length gs + length bs + length r)%nat ltac:(cbn; lia) gs bs r level group eq_refl Ag Ab Aw).
    destruct (gate_active c level); cbn [negb andb]; [|apply E]. rewrite concat_app.
    assert (Eg : forall l, concat (if gap_before c group w then group_of group else []) ++
      (if gap_before c group w then [] else group) ++ l = group ++ l).
    { intros l. destruct (gap_before c group w); [by rewrite concat_group_of|done]. }
    destruct (dropped c w); cbn [negb]; [by rewrite concat_app, concat_group_of, E, Eg|].
    destruct (complete c _ w); [rewrite concat_cons|]; rewrite E, <- app_assoc; apply Eg.
Qed.

(** No word but the last is a delimiter, and no gap exceeds the configured one. *)
Fixpoint joined (c : Framing) (g : list Word) : bool :=
  match g with
  | a :: (b :: _) as rest => negb (is_delimiter c a) && negb (gap_before c [a] b) && joined c rest
  | _ => true
  end.

Definition group_limit (c : Framing) : Z :=
  match fixed_word_count c with Some count => Z.min count (maximum_words c) | None => maximum_words c end.

Definition packet_group (c : Framing) (g : list Word) : Prop :=
  g <> [] /\ zlen g <= group_limit c /\ joined c g = true.

(** A group still open to more words. *)
Definition open_group (c : Framing) (g : list Word) : Prop :=
  zlen g < group_limit c /\ joined c g = true /\
  match last g with Some w => is_delimiter c w = false | None => True end.

Lemma joined_snoc c g w :
  open_group c g -> gap_before c g w = false -> joined c (g ++ [w]) = true.
Proof.
  intros (_ & Hj & Hl). induction g as [|a g IH]; [done|]. destruct g as [|b g].
  - cbn in Hl |- *. intros Hg. by rewrite Hl, Hg.
  - intros Hg. cbn [app joined] in *. apply andb_true_iff in Hj as [-> Hj]. cbn [andb]. by apply IH.
Qed.

Lemma open_group_nil c : 0 < group_limit c -> open_group c [].
Proof. intros H. by repeat split. Qed.

Lemma group_of_packet c g : open_group c g -> Forall (packet_group c) (group_of g).
Proof.
  intros (H1 & H2 & _). destruct g; [constructor|]. repeat constructor; [done|lia|done].
Qed.

Lemma frames_packet_groups c level group events :
  0 < group_limit c -> open_group c group -> Forall (packet_group c) (frames c level group events).
Proof.
  intros H0. pose proof (open_group_nil c H0) as Hnil. revert level group.
  induction events as [|e events IH]; intros level group Hg; cbn [frames]; [by apply group_of_packet|].
  destruct e as [s|b|w].
  - destruct (_ && _); [apply Forall_app; split|]; eauto using group_of_packet.
  - apply Forall_app. eauto using group_of_packet.
  - destruct (negb _); [eauto|]. apply Forall_app. split.
    { destruct (gap_before _ _ _); [by apply group_of_packet|constructor]. }
    set (g := if gap_before c group w then [] else group).
    assert (Hg' : open_group c g) by (unfold g; by destruct (gap_before _ _ _)).
    assert (Hj : joined c (g ++ [w]) = true).
    { apply joined_snoc; [done|]. unfold g. destruct (gap_before c group w) eqn:E; [|done].
      unfold gap_before. by destruct (maximum_gap_ns c). }
    assert (Hz : zlen (g ++ [w]) <= group_limit c).
    { rewrite zlen_app. cbn. destruct Hg' as [Hz _]. unfold zlen in *. cbn. lia. }
    destruct (dropped c w); [apply Forall_app; split; eauto using group_of_packet|].
    destruct (complete c (g ++ [w]) w) eqn:Ec; [constructor|]; [|by apply IH|apply IH].
    + split; [|done]. by destruct g.
    + unfold complete in Ec. apply orb_false_iff in Ec as [[Ed Ef]%orb_false_iff Em].
      split; [|split; [done|by rewrite last_snoc]]. unfold group_limit.
      apply Z.leb_gt in Em. destruct (fixed_word_count c); [apply Z.leb_gt in Ef|]; lia.
Qed.

(** ** Properties *)

(** The items an input of the node will receive; a disabled input is never read. *)
Definition input_items {T} (enabled : bool) (port : option (Receiver T)) : list T :=
  if enabled then from_option items [] port else [].

(** The streams of the inputs are in time order and the inputs in use are connected. *)
Definition framer_inputs (c : Framing) (words : Receiver Word) boundary gate : Prop :=
  ascending timestamp_ns (items words) /\
  ascending event_ns (input_items (boundary_enabled c) boundary) /\
  ascending start_time_ns (input_items (gate_input c) gate) /\
  (boundary_enabled c = true -> is_Some boundary) /\ (gate_input c = true -> is_Some gate).

Lemma framer_run i c words boundary gate out fuel :
  framer_inputs c words boundary gate -> plugged i out ->
  (S (length (items words) + length (input_items (boundary_enabled c) boundary)
     + length (input_items (gate_input c) gate)) < fuel)%nat ->
  exists n f', run fuel framer_work (fresh_framer c (Some words) boundary gate out) 0
    = Some (Shutdown, n, f') /\
  sent i (packet_output f') = sent i out ++
    packets_of (frames c false []
      (merged (input_items (gate_input c) gate) (input_items (boundary_enabled c) boundary) (items words))).
Proof.
  intros (Hw & Hb & Hg & Eb & Eg) Ho Hf.
  assert (Hp : forall T (enabled : bool) (port : option (Receiver T)), (enabled = true -> is_Some port) ->
    connected_if enabled (fresh_lane port) /\ pending_if enabled (fresh_lane port) = input_items enabled port).
  { intros T [] port H; [|done]. destruct (H eq_refl) as [p ->]. split; [by eexists|done]. }
  destruct (Hp _ _ _ Eb) as [Cb Pb]. destruct (Hp _ _ _ Eg) as [Cg Pg]. clear Hp.
  assert (Hi : framer_inv i (fresh_framer c (Some words) boundary gate out)).
  { unfold framer_inv, gates_pending, boundaries_pending. cbn [fresh_framer framing framer_gates boundaries].
    rewrite Pb, Pg. do 6 (split; [done||by eexists|]). done. }
  destruct (run_drains framer_work (framer_inv i) framer_measure (output_of i) framer_due fuel
    (fresh_framer c (Some words) boundary gate out) 0 Hi) as (n & f' & Hr & Hs & _).
  - unfold framer_measure, gates_pending, boundaries_pending. cbn [fresh_framer framing framer_gates boundaries].
    rewrite Pb, Pg. cbn [finished]. change (words_pending (fresh_framer c (Some words) boundary gate out)) with (items words).
    clear -Hf. unfold fresh_framer. cbn [finished]. lia.
  - exists n, f'. split; [done|]. unfold output_of in Hs. rewrite Hs. unfold framer_due, gates_pending, boundaries_pending.
    cbn [fresh_framer framing framer_gates boundaries]. by rewrite Pb, Pg.
Qed.

(** C36. A packet framer fed time-ordered streams, batched and interleaved in any way, runs to the
    end of its inputs and sends exactly the packets of [frames]: its three inputs read as one
    sequence of events by time, gate changes before boundaries before words at the same time,
    grouped by the configured conditions, with the last open group flushed at the end. *)
Theorem packet_framer_frames i c words boundary gate out fuel :
  framer_inputs c words boundary gate -> plugged i out ->
  (S (length (items words) + length (input_items (boundary_enabled c) boundary)
     + length (input_items (gate_input c) gate)) < fuel)%nat ->
  exists n f', run fuel framer_work (fresh_framer c (Some words) boundary gate out) 0
    = Some (Shutdown, n, f') /\
  sent i (packet_output f') = sent i out ++
    packets_of (frames c false []
      (merged (input_items (gate_input c) gate) (input_items (boundary_enabled c) boundary) (items words))).
Proof. apply framer_run. Qed.

(** C14. The packets a framer sends hold, each in order and together without loss or repetition,
    the words that the gate lets through, less excluded delimiters.  No packet is empty or longer
    than the fixed word count or the maximum; only the last word of a packet may be a delimiter;
    and between two words of a packet no gap exceeds the configured one. *)
Theorem packet_framer_partition i c words boundary gate out fuel :
  framer_inputs c words boundary gate -> plugged i out -> 0 < group_limit c ->
  (S (length (items words) + length (input_items (boundary_enabled c) boundary)
     + length (input_items (gate_input c) gate)) < fuel)%nat ->
  exists n f' groups, run fuel framer_work (fresh_framer c (Some words) boundary gate out) 0
    = Some (Shutdown, n, f') /\
  sent i (packet_output f') = sent i out ++ packets_of groups /\
  concat groups = packed_words c false (input_items (gate_input c) gate) (items words) /\
  Forall (packet_group c) groups.
Proof.
  intros Hin Ho Hl Hf. destruct (framer_run i c words boundary gate out fuel Hin Ho Hf) as (n & f' & Hr & Hs).
  exists n, f', (frames c false []
      (merged (input_items (gate_input c) gate) (input_items (boundary_enabled c) boundary) (items words))).
  split; [done|]. split; [done|]. destruct Hin as (Hw & Hb & Hg & _). split.
  - by rewrite concat_frames.
  - by apply frames_packet_groups, open_group_nil.
Qed.

Definition demo_word (v t : Z) : Word := mkWord v None t 5.

Definition demo_framing : Framing :=
  with_gate_input (Some ActiveHigh) (with_delimiter (Some 0) true (with_boundary_input true
    (with_maximum_words 2 PacketFramer_new))).

Definition demo_words : Receiver Word :=
  fresh_receiver [Arrive (Batch [demo_word 1 10; demo_word 2 20; demo_word 3 30]); Idle;
    Arrive (SampleMsg (demo_word 0 40)); Arrive (SampleMsg (demo_word 5 50))].

Definition demo_boundary : Receiver TimestampEvent := fresh_receiver [Arrive (SampleMsg (mkEvent 35))].

Definition demo_gate : Receiver Sample :=
  fresh_receiver [Arrive (Batch [mkSample true 15; mkSample false 45])].

Example demo_framing_groups :
  frames demo_framing false [] (merged (items demo_gate) (items demo_boundary) (items demo_words)) =
    [[demo_word 2 20; demo_word 3 30]; [demo_word 0 40]].
Proof. reflexivity. Qed.

Lemma demo_inputs : framer_inputs demo_framing demo_words (Some demo_boundary) (Some demo_gate).
Proof.
  split; [by apply ascendingb_spec|]. split; [by apply ascendingb_spec|].
  split; [by apply ascendingb_spec|]. split; by eexists.
Qed.

Lemma packet_framer_frames_witness :
  exists n f', run 30 framer_work (fresh_framer demo_framing (Some demo_words) (Some demo_boundary) (Some demo_gate) open_port) 0
    = Some (Shutdown, n, f') /\ length (sent 0 (packet_output f')) = 2%nat.
Proof.
  destruct (packet_framer_frames 0 demo_framing demo_words (Some demo_boundary) (Some demo_gate) open_port 30)
    as (n & f' & Hr & Hs); [apply demo_inputs|by eexists|cbn; lia|].
  exists n, f'. split; [exact Hr|]. rewrite Hs. reflexivity.
Defined.

Lemma packet_framer_partition_witness :
  exists n f' groups, run 30 framer_work (fresh_framer demo_framing (Some demo_words) (Some demo_boundary) (Some demo_gate) open_port) 0
    = Some (Shutdown, n, f') /\ sent 0 (packet_output f') = packets_of groups /\
    concat groups = [demo_word 2 20; demo_word 3 30; demo_word 0 40].
Proof.
  destruct (packet_framer_partition 0 demo_framing demo_words (Some demo_boundary) (Some demo_gate) open_port 30)
    as (n & f' & g & Hr & Hs & Hc & _); [apply demo_inputs|by eexists|reflexivity|cbn; lia|].
  exists n, f', g. split; [exact Hr|]. split; [exact Hs|]. rewrite Hc. reflexivity.
Defined.
