(* ===== verification/I2cBus.v ===== *)
(** What a bus master and a device put on the wires, and that the I²C decoder recovers it. *)

From S2P Require Import Prelude Events Runtime I2cDecoder.

(** ** Waveforms *)

(** A transfer between a start condition and the next start or stop: the 7-bit address, the
    direction, whether the address was not acknowledged, and the bytes each with the same flag. *)
Record Transfer := mkTransfer {
  address : Z;
  reading : bool;
  address_nack : bool;
  transferred : list (Z * bool)
}.

Definition transfer_ok (t : Transfer) : Prop :=
  0 <= address t < 128 /\ Forall (fun '(byte, _) => u8 byte) (transferred t).

(** One clock period with the data line at [bit]. *)
Definition clock (bit : bool) : list (bool * bool) := [(false, bit); (true, bit)].

Definition byte_bits (byte : Z) : list bool := map (Z.testbit byte) [7; 6; 5; 4; 3; 2; 1; 0].

Definition byte_wave (byte : Z) : list (bool * bool) := concat (map clock (byte_bits byte)).

Definition acknowledged (byte : Z * bool) : list (bool * bool) := byte_wave (fst byte) ++ clock (snd byte).

Definition address_byte (t : Transfer) : Z := 2 * address t + b2z (reading t).

Definition transfer_wave (t : Transfer) : list (bool * bool) :=
  [(true, false)] ++ acknowledged (address_byte t, address_nack t) ++ concat (map acknowledged (transferred t)).

Definition restart_wave (t : Transfer) : list (bool * bool) := clock true ++ transfer_wave t.

Definition stop_wave : list (bool * bool) := [(false, false); (true, false); (true, true)].

(** An idle bus, a first transfer, further ones after repeated starts, and a stop. *)
Definition session_wave (first : Transfer) (rest : list Transfer) : list (bool * bool) :=
  [(true, true)] ++ transfer_wave first ++ concat (map restart_wave rest) ++ stop_wave.

(** ** What is decoded *)

(** The command and data of a packet; the bits of a byte are not a command. *)
Definition command_of (p : ProtocolPacket) : option (list Z * ProtocolValue) :=
  match packet_value p with
  | PList [PString command; data] => if bool_decide (command = ascii_bytes "BITS") then None else Some (command, data)
  | _ => None
  end.

Definition commands (e : Emitted) : list (list Z * ProtocolValue) := omap command_of (snd e).

Definition values (e : Emitted) : list Z := map value (fst e).

Definition control (name : string) : list Z * ProtocolValue := (ascii_bytes name, PNull).

Definition datum (name : string) (v : Z) : list Z * ProtocolValue := (ascii_bytes name, PInteger v).

Definition ack_command (nack : bool) : list Z * ProtocolValue := control (if nack then "NACK" else "ACK").

Definition transfer_commands (start : string) (t : Transfer) : list (list Z * ProtocolValue) :=
  [control start; datum (if reading t then "ADDRESS READ" else "ADDRESS WRITE") (address t);
   ack_command (address_nack t)]
  ++ concat (map (fun '(byte, nack) =>
       [datum (if reading t then "DATA READ" else "DATA WRITE") byte; ack_command nack]) (transferred t)).

Definition session_commands (first : Transfer) (rest : list Transfer) : list (list Z * ProtocolValue) :=
  transfer_commands "START" first ++ concat (map (transfer_commands "START REPEAT") rest) ++ [control "STOP"].

Definition transfer_values (t : Transfer) : list Z := address t :: map fst (transferred t).

(** ** Decoding a waveform *)

Lemma commands_app a b : commands (emit_app a b) = commands a ++ commands b.
Proof. apply omap_app. Qed.

Lemma values_app a b : values (emit_app a b) = values a ++ values b.
Proof. apply map_app. Qed.

(** The decoder turns the wave, wherever it is sampled, into the commands and values and leaves
    a state with the given property. *)
Definition recovers (wave : list (bool * bool)) (d : I2cDecoder)
    (cs : list (list Z * ProtocolValue)) (vs : list Z) (after : I2cDecoder -> Prop) : Prop :=
  forall samples, map levels samples = wave ->
  let '(e, d') := decode samples d in commands e = cs /\ values e = vs /\ after d'.

Lemma recovers_app w1 w2 d cs1 cs2 vs1 vs2 (mid after : I2cDecoder -> Prop) :
  recovers w1 d cs1 vs1 mid -> (forall d', mid d' -> recovers w2 d' cs2 vs2 after) ->
  recovers (w1 ++ w2) d (cs1 ++ cs2) (vs1 ++ vs2) after.
Proof.
  intros H1 H2 samples Hs. apply map_eq_app in Hs as (s1 & s2 & -> & <- & <-).
  rewrite decode_app. specialize (H1 s1 eq_refl). destruct (decode s1 d) as [e1 d1].
  destruct H1 as (<- & <- & Hd). specialize (H2 d1 Hd s2 eq_refl). destruct (decode s2 d1) as [e2 d2].
  destruct H2 as (<- & <- & Ha). by rewrite commands_app, values_app.
Qed.

Lemma recovers_nil d (after : I2cDecoder -> Prop) : after d -> recovers [] d [] [] after.
Proof. intros H samples Hs. by destruct samples. Qed.

Lemma recovers_cons l w d cs vs after (mid : I2cDecoder -> Prop) cs1 vs1 :
  (forall step position, exists e d', process_sample step position l d = Some (e, d') /\
     commands e = cs1 /\ values e = vs1 /\ mid d') ->
  (forall d', mid d' -> recovers w d' cs vs after) ->
  recovers (l :: w) d (cs1 ++ cs) (vs1 ++ vs) after.
Proof.
  intros H1 H2. apply (recovers_app [l] w d cs1 cs vs1 vs mid); [|done].
  intros [|s [|]] Hs; try done. injection Hs as <-. cbn [decode].
  destruct (H1 (step_ns s) (at_position s)) as (e & d' & He & Hc & Hv & Hm).
  rewrite decode_sample_spec in He. injection He as ->. by rewrite emit_app_nothing_r.
Qed.

(** *** The state within a transfer *)

(** The last levels sampled, whether an address is expected, the direction, the bits of the
    current byte and whether an acknowledgement is expected. *)
Definition on_bus (l : bool * bool) (pending : bool) (write : option bool) (bs : list bool) (ack : bool)
    (d : I2cDecoder) : Prop :=
  previous d = Some l /\ active d = true /\ repeated_start d = true /\ address_pending d = pending /\
  is_write d = write /\ map bit_value (bits d) = bs /\ awaiting_ack d = ack.

Definition bits_value (bs : list bool) : Z :=
  fold_left (fun v b => Z.lor (Z.shiftl v 1 mod 256) (b2z b)) bs 0.

Lemma byte_of_bits l : byte_of l = bits_value (map bit_value l).
Proof.
  unfold byte_of, bits_value. generalize 0. induction l as [|b l IH]; intros v; [done|]. cbn. apply IH.
Qed.

Lemma byte_bits_value v : u8 v -> bits_value (byte_bits v) = v.
Proof.
  intros Hv. assert (H : forallb (fun n => bits_value (byte_bits (Z.of_nat n)) =? Z.of_nat n) (seq 0 256) = true)
    by (vm_compute; reflexivity).
  rewrite forallb_forall in H. specialize (H (Z.to_nat v)). unfold u8 in Hv.
  rewrite Z2Nat.id in H by lia. apply Z.eqb_eq, H, in_seq. lia.
Qed.

Ltac bus_step H :=
  let d := fresh "d" in
  intros step position;
  match type of H with on_bus _ _ _ _ _ ?x => destruct x end;
  destruct H as (Hprev & Hact & Hrep & Hpend & Hwr & Hbits & Hack); cbn in Hprev, Hact, Hrep, Hpend, Hwr, Hbits, Hack;
  subst; unfold process_sample; cbn.

Lemma fall l pending write bs ack b d :
  on_bus l pending write bs ack d ->
  forall step position, exists e d', process_sample step position (false, b) d = Some (e, d') /\
    commands e = [] /\ values e = [] /\ on_bus (false, b) pending write bs ack d'.
Proof.
  intros H. destruct l as [c s]. bus_step H.
  destruct c, s, b; cbn; do 2 eexists; by repeat split.
Qed.

Lemma rise_bit pending write bs b d :
  on_bus (false, b) pending write bs false d -> (length bs < 7)%nat ->
  forall step position, exists e d', process_sample step position (true, b) d = Some (e, d') /\
    commands e = [] /\ values e = [] /\ on_bus (true, b) pending write (bs ++ [b]) false d'.
Proof.
  intros H Hl. bus_step H. rewrite length_map in Hl.
  assert (Hne : (length (bits ++ [mkBit b position]) =? 8)%nat = false).
  { apply Nat.eqb_neq. rewrite length_app. cbn. lia. }
  destruct b; cbn; rewrite Hne; cbn; do 2 eexists; split; try done; repeat split; cbn; by rewrite map_app.
Qed.

Lemma rise_ack pending write bs b d :
  on_bus (false, b) pending write bs true d ->
  forall step position, exists e d', process_sample step position (true, b) d = Some (e, d') /\
    commands e = [ack_command b] /\ values e = [] /\ on_bus (true, b) pending write [] false d'.
Proof. intros H. bus_step H. destruct b; cbn; do 2 eexists; by repeat split. Qed.

Definition byte_command (pending : bool) (write : option bool) (v : Z) : list Z * ProtocolValue :=
  if pending
  then datum (if negb (Z.land v 1 =? 0) then "ADDRESS READ" else "ADDRESS WRITE") (Z.shiftr v 1)
  else datum (if default true write then "DATA WRITE" else "DATA READ") v.

Definition byte_value (pending : bool) (v : Z) : Z := if pending then Z.shiftr v 1 else v.

Definition next_write (pending : bool) (write : option bool) (v : Z) : option bool :=
  if pending then Some (negb (negb (Z.land v 1 =? 0))) else write.

Lemma emit_byte_spec step d front bit :
  bits d = front ++ [bit] ->
  let v := byte_of (bits d) in
  exists e, emit_byte step d = Some (e, mkI2c (previous d) (active d) (repeated_start d) false
      (next_write (address_pending d) (is_write d) v) (bits d) true (i2c_finished d)) /\
    commands e = [byte_command (address_pending d) (is_write d) v] /\
    values e = [byte_value (address_pending d) v].
Proof.
  intros Hd v. unfold emit_byte. fold v. clearbody v.
  assert (Hh : is_Some (list.head (bits d))) by (rewrite Hd; by destruct front; eexists). destruct Hh as [h ->].
  assert (Hl : last (bits d) = Some bit) by (rewrite Hd; by rewrite last_snoc). rewrite Hl.
  cbn [mbind option_bind]. unfold byte_command, byte_value, next_write.
  destruct (address_pending d); eexists; (split; [reflexivity|]); unfold commands, values; cbn.
  - by destruct (negb (Z.land v 1 =? 0)).
  - by destruct (default true (is_write d)).
Qed.

(** The eighth bit of a byte. *)
Lemma rise_byte pending write bs b d :
  on_bus (false, b) pending write bs false d -> (length bs = 7)%nat ->
  let v := bits_value (bs ++ [b]) in
  forall step position, exists e d', process_sample step position (true, b) d = Some (e, d') /\
    commands e = [byte_command pending write v] /\ values e = [byte_value pending v] /\
    on_bus (true, b) false (next_write pending write v) (bs ++ [b]) true d'.
Proof.
  intros H Hl v step position. destruct H as (Hprev & Hact & Hrep & Hpend & Hwr & Hbits & Hack).
  unfold process_sample. rewrite Hprev, Hact, Hack. cbn [negb andb orb].
  rewrite <- Hbits, length_map in Hl.
  assert (Hne : (length (bits d ++ [mkBit b position]) =? 8)%nat = true).
  { apply Nat.eqb_eq. rewrite length_app. cbn. lia. }
  assert (Hbs : map bit_value (bits d ++ [mkBit b position]) = bs ++ [b]) by by rewrite map_app, Hbits.
  set (d8 := mkI2c (Some (false, b)) true (repeated_start d) (address_pending d) (is_write d)
    (bits d ++ [mkBit b position]) false (i2c_finished d)).
  destruct (emit_byte_spec step d8 (bits d) (mkBit b position) eq_refl) as (e & He & Hc & Hv).
  assert (Hval : byte_of (bits d8) = v) by (rewrite byte_of_bits; unfold v; cbn; by rewrite map_app, Hbits).
  rewrite Hval in *. cbn [d8 address_pending is_write] in *. rewrite Hpend, Hwr in *.
  replace (b && negb b) with false by by destruct b. replace (negb b && b) with false by by destruct b.
  cbn [bits andb]. change (bits d8) with (bits d ++ [mkBit b position]). rewrite Hne, He. cbn.
  do 2 eexists. split; [reflexivity|]. by repeat split.
Qed.

(** *** Bytes and transfers *)

Lemma recovers_step l w d cs vs (after mid : I2cDecoder -> Prop) :
  (forall step position, exists e d', process_sample step position l d = Some (e, d') /\
     commands e = [] /\ values e = [] /\ mid d') ->
  (forall d', mid d' -> recovers w d' cs vs after) ->
  recovers (l :: w) d cs vs after.
Proof. intros H1 H2. by apply (recovers_cons l w d cs vs after mid [] []). Qed.

Lemma recovers_last l d cs vs (after : I2cDecoder -> Prop) :
  (forall step position, exists e d', process_sample step position l d = Some (e, d') /\
     commands e = cs /\ values e = vs /\ after d') ->
  recovers [l] d cs vs after.
Proof.
  intros H. rewrite <- (app_nil_r cs), <- (app_nil_r vs). apply (recovers_cons l [] d [] [] after after); [done|].
  intros d' Hd'. by apply recovers_nil.
Qed.

Lemma recovers_weaken w d cs vs (after after' : I2cDecoder -> Prop) :
  recovers w d cs vs after -> (forall d', after d' -> after' d') -> recovers w d cs vs after'.
Proof.
  intros H Ha samples Hs. specialize (H samples Hs). destruct (decode samples d) as [e d'].
  destruct H as (? & ? & ?). auto.
Qed.

Lemma bits_recovered bl l pending write bs d :
  on_bus l pending write bs false d -> (length bs + length bl <= 7)%nat ->
  recovers (concat (map clock bl)) d [] [] (fun d' => exists l', on_bus l' pending write (bs ++ bl) false d').
Proof.
  revert l bs d. induction bl as [|b bl IH]; intros l bs d Hd Hl.
  - apply recovers_nil. exists l. by rewrite app_nil_r.
  - cbn [map concat]. eapply (recovers_app (clock b) _ d [] [] [] []).
    + eapply recovers_step; [by eapply fall|]. intros d1 Hd1. apply recovers_last.
      apply (rise_bit pending write bs b d1 Hd1). cbn in Hl. lia.
    + intros d2 Hd2. replace (bs ++ b :: bl) with ((bs ++ [b]) ++ bl) by by rewrite <- app_assoc.
      eapply IH; [exact Hd2|]. rewrite length_app. cbn in *. lia.
Qed.

Lemma byte_recovered v l pending write d :
  u8 v -> on_bus l pending write [] false d ->
  recovers (byte_wave v) d [byte_command pending write v] [byte_value pending v]
    (fun d' => exists l', on_bus l' false (next_write pending write v) (byte_bits v) true d').
Proof.
  intros Hv Hd. unfold byte_wave.
  assert (Hbits : byte_bits v = map (Z.testbit v) [7; 6; 5; 4; 3; 2; 1] ++ [Z.testbit v 0]) by done.
  rewrite Hbits, map_app, concat_app.
  eapply (recovers_app _ _ d [] [_] [] [_]); [by apply (bits_recovered _ l pending write [])|].
  intros d1 [l1 Hd1]. cbn [map concat clock]. eapply recovers_step; [by eapply fall|].
  intros d2 Hd2. apply recovers_last. intros step position.
  destruct (rise_byte pending write (map (Z.testbit v) [7; 6; 5; 4; 3; 2; 1]) (Z.testbit v 0) d2 Hd2 eq_refl step position) as (e & d3 & He & Hc & Hvs & Hb).
  cbv zeta in *. rewrite <- Hbits in Hc, Hvs, Hb. rewrite (byte_bits_value v Hv) in Hc, Hvs, Hb. exists e, d3. split; [done|]. split; [done|]. split; [done|].
  by eexists.
Qed.

Lemma acknowledged_recovered v nack l pending write d :
  u8 v -> on_bus l pending write [] false d ->
  recovers (acknowledged (v, nack)) d [byte_command pending write v; ack_command nack] [byte_value pending v]
    (on_bus (true, nack) false (next_write pending write v) [] false).
Proof.
  intros Hv Hd. eapply (recovers_app _ _ d [_] [_] [_] []); [by eapply byte_recovered|].
  intros d1 [l1 Hd1]. cbn [snd]. eapply recovers_step; [by eapply fall|]. intros d2 Hd2.
  apply recovers_last. by eapply rise_ack.
Qed.

(** Within a transfer, between two bytes. *)
Definition between_bytes (reads : bool) (d : I2cDecoder) : Prop :=
  exists l, on_bus l false (Some (negb reads)) [] false d.

Lemma data_recovered bytes reads d :
  Forall (fun '(byte, _) => u8 byte) bytes -> between_bytes reads d ->
  recovers (concat (map acknowledged bytes)) d
    (concat (map (fun '(byte, nack) =>
       [datum (if reads then "DATA READ" else "DATA WRITE") byte; ack_command nack]) bytes))
    (map fst bytes) (between_bytes reads).
Proof.
  intros Hb. revert d. induction Hb as [|[byte nack] bytes Hv Hb IH]; intros d [l Hd].
  { apply recovers_nil. by exists l. }
  cbn [map concat fst]. eapply (recovers_app _ _ d _ _ [byte] _); [|apply IH].
  pose proof (acknowledged_recovered byte nack l false _ d Hv Hd) as H.
  eapply recovers_weaken; [|by eexists]. unfold byte_command, byte_value in H. by destruct reads.
Qed.

Lemma address_byte_fields t :
  transfer_ok t -> u8 (address_byte t) /\ Z.shiftr (address_byte t) 1 = address t /\
  negb (Z.land (address_byte t) 1 =? 0) = reading t.
Proof.
  intros [Ha _]. unfold address_byte, u8. rewrite Z.shiftr_div_pow2 by lia. change (2 ^ 1) with 2.
  change 1 with (Z.ones 1) at 1. rewrite Z.land_ones by lia. change (2 ^ 1) with 2.
  assert (H : forall b, 2 * address t + b2z b = b2z b + address t * 2) by (intros; lia). rewrite H.
  rewrite Z.div_add, Z.mod_add by lia. destruct (reading t); cbn [b2z]; (split; [lia|]); split; [|reflexivity| |reflexivity]; [change (1 / 2) with 0|change (0 / 2) with 0]; lia.
Qed.

(** The bus idles high; [restart]: a transfer is under way. *)
Definition start_state (restart : bool) (d : I2cDecoder) : Prop :=
  previous d = Some (true, true) /\ active d || repeated_start d = restart.

Lemma transfer_recovered restart t d :
  transfer_ok t -> start_state restart d ->
  recovers (transfer_wave t) d (transfer_commands (if restart then "START REPEAT" else "START") t)
    (transfer_values t) (between_bytes (reading t)).
Proof.
  intros Ht [Hprev Hrep]. destruct (address_byte_fields t Ht) as (Hb & Haddr & Hread).
  set (start := (if restart then "START REPEAT" else "START")%string).
  apply (recovers_app _ _ d [control start] _ [] _ (on_bus (true, false) true None [] false)).
  - apply recovers_last. intros step position. unfold process_sample. rewrite Hprev, Hrep. cbn.
    do 2 eexists. split; [reflexivity|]. split; [by unfold start; destruct restart|]. by repeat split.
  - intros d1 Hd1. apply (recovers_app _ _ d1
      [datum (if reading t then "ADDRESS READ" else "ADDRESS WRITE") (address t); ack_command (address_nack t)] _
      [address t] _ (between_bytes (reading t))).
    + pose proof (acknowledged_recovered (address_byte t) (address_nack t) _ true _ d1 Hb Hd1) as H.
      unfold byte_command, byte_value, next_write in H. rewrite Haddr, Hread in H.
      eapply recovers_weaken; [exact H|]. by eexists.
    + intros d2 Hd2. apply data_recovered; [apply Ht|done].
Qed.

Lemma restart_recovered t reads d :
  transfer_ok t -> between_bytes reads d ->
  recovers (restart_wave t) d (transfer_commands "START REPEAT" t) (transfer_values t) (between_bytes (reading t)).
Proof.
  intros Ht [l Hd]. apply (recovers_app _ _ d [] _ [] _ (start_state true)).
  - eapply recovers_step; [by eapply fall|]. intros d1 Hd1. apply recovers_last. intros step position.
    destruct (rise_bit false (Some (negb reads)) [] true d1 Hd1 ltac:(cbn; lia) step position)
      as (e & d2 & He & Hc & Hv & Hb). exists e, d2. split; [done|]. split; [done|]. split; [done|].
    destruct Hb as (H1 & H2 & _). split; [done|]. by rewrite H2.
  - intros d1 Hd1. by apply (transfer_recovered true).
Qed.

Lemma restarts_recovered ts reads d :
  Forall transfer_ok ts -> between_bytes reads d ->
  recovers (concat (map restart_wave ts)) d (concat (map (transfer_commands "START REPEAT") ts))
    (concat (map transfer_values ts)) (fun d' => exists reads, between_bytes reads d').
Proof.
  intros Hts. revert reads d. induction Hts as [|t ts Ht Hts IH]; intros reads d Hd.
  { apply recovers_nil. by eexists. }
  cbn [map concat]. eapply recovers_app; [by eapply restart_recovered|]. intros d1 Hd1. by eapply IH.
Qed.

Lemma stop_recovered reads d :
  between_bytes reads d -> recovers stop_wave d [control "STOP"] []
    (fun d' => start_state false d' /\ bits d' = [] /\ awaiting_ack d' = false).
Proof.
  intros [l Hd]. eapply recovers_step; [by eapply fall|]. intros d1 Hd1.
  eapply recovers_step; [by apply rise_bit; [exact Hd1|cbn; lia]|]. intros d2 (Hp & Ha & _).
  apply recovers_last. intros step position. unfold process_sample. rewrite Hp, Ha. cbn.
  do 2 eexists. split; [reflexivity|]. by repeat split.
Qed.

(** C10. A decoder that starts on an idle bus recovers every session of transfers from its
    waveform, at any sample positions and time steps: the start, repeated start and stop
    conditions, each address with its direction, each byte with the direction of its transfer,
    and each acknowledgement, in order; its words are the addresses and bytes. *)
Theorem i2c_session_roundtrip first rest samples :
  Forall transfer_ok (first :: rest) -> map levels samples = session_wave first rest ->
  let decoded := fst (decode samples I2cDecoder_new) in
  commands decoded = session_commands first rest /\
  values decoded = concat (map transfer_values (first :: rest)).
Proof.
  intros Hok Hs decoded. apply Forall_cons in Hok as [Hf Hr].
  assert (H : recovers (session_wave first rest) I2cDecoder_new (session_commands first rest)
    (transfer_values first ++ concat (map transfer_values rest) ++ []) (fun _ => True)).
  { apply (recovers_step _ _ _ _ _ _ (start_state false)).
    { intros step position. do 2 eexists. split; [reflexivity|]. by repeat split. }
    intros d1 Hd1. eapply recovers_app; [by apply (transfer_recovered false)|].
    intros d2 Hd2. eapply recovers_app; [by eapply restarts_recovered|]. intros d3 [reads Hd3].
    eapply recovers_weaken; [by eapply stop_recovered|done]. }
  specialize (H samples Hs). unfold decoded. destruct (decode samples I2cDecoder_new) as [e d].
  destruct H as (Hc & Hv & _). split; [done|]. cbn [fst map concat]. by rewrite app_nil_r in Hv.
Qed.

Definition demo_first : Transfer := mkTransfer 80 false false [(18, false)].
Definition demo_second : Transfer := mkTransfer 80 true false [(171, true)].

Definition demo_samples : list BusSample :=
  imap (fun k l => mkBusSample 100 (Z.of_nat k) l) (session_wave demo_first [demo_second]).

Lemma i2c_session_roundtrip_witness :
  commands (fst (decode demo_samples I2cDecoder_new)) = session_commands demo_first [demo_second] /\
  values (fst (decode demo_samples I2cDecoder_new)) = [80; 18; 80; 171].
Proof.
  apply (i2c_session_roundtrip demo_first [demo_second] demo_samples).
  - repeat constructor; cbn; unfold u8; lia.
  - reflexivity.
Defined.
