(* ===== verification/SpiDecoder.v ===== *)
(** [crates/logic_analyzer_protocol_decoders/src/spi_decoder/decoder.rs]: the SPI decoder, with its
    two ways to work: from edge queries, in batches of bounded size between which the word under
    way is kept in the node, and from streamed levels, one chip-select window per turn.

    Sampling points go to a store of another component, an interface here. *)

From stdpp Require Import pretty.
From S2P Require Import Prelude Events Runtime RecordedQuery EdgeQuery.

#[local] Open Scope Z_scope.

(** ** Configuration *)

(** [crates/logic_analyzer_protocol_decoders/src/spi_decoder/decoder.rs:36-46] SpiMode *)
Inductive SpiMode := Mode0 | Mode1 | Mode2 | Mode3.

(** [crates/logic_analyzer_protocol_decoders/src/types/digital.rs:2-10] CsPolarity *)
Inductive CsPolarity := ActiveLow | ActiveHigh | Disabled.

(** [crates/logic_analyzer_protocol_decoders/src/types/digital.rs:14-20] BitOrder *)
Inductive BitOrder := MsbFirst | LsbFirst.

Record SpiConfig := mkSpiConfig {
  mode : SpiMode;
  bits_per_word : Z;
  has_mosi : bool;
  has_miso : bool;
  cs_polarity : CsPolarity;
  bit_order : BitOrder
}.

(** [crates/logic_analyzer_protocol_decoders/src/spi_decoder/decoder.rs:297-299] SpiDecoder::samples_on_rising *)
Definition samples_on_rising (c : SpiConfig) : bool :=
  match mode c with Mode0 | Mode3 => true | Mode1 | Mode2 => false end.

(** The wrapped difference, cut to 32 bits, is masked by the shift it is used in.
    [crates/logic_analyzer_protocol_decoders/src/spi_decoder/decoder.rs:519-524] SpiDecoder::work_indexed (bit_position) *)
Definition bit_position (c : SpiConfig) (bit_index : Z) : Z :=
  match bit_order c with
  | MsbFirst => as_u32 (sub64 (sub64 (bits_per_word c) 1) bit_index)
  | LsbFirst => as_u32 bit_index
  end.

(** [word |= 1 << position], the shift amount modulo the width. *)
Definition set_bit (word position : Z) : Z := Z.lor word (Z.shiftl 1 (position mod 64)).

(** ** Sampling points *)

(** [crates/signal_derived/src/sampling_points.rs:53-58] PackedSamplingPoint *)
Record PackedSamplingPoint := mkPoint {
  point_time_ns : Z;
  point_values : Z;
  value_count : Z;
  clock_high : bool
}.

(** At most two values are packed here.
    [crates/signal_derived/src/sampling_points.rs:90-103] PackedSamplingPoint::new *)
Definition PackedSamplingPoint_new (time_ns : Z) (clock_high : bool) (values value_count : Z)
  : PackedSamplingPoint :=
  mkPoint time_ns (if value_count =? 0 then 0 else Z.land values (Z.shiftl 1 value_count - 1))
    value_count clock_high.

(** The operations of a sampling-point store that the decoder uses; errors are their texts. *)
Class SamplingStore (P : Type) := {
  has_provider : P -> bool;
  record_packed_batch : list PackedSamplingPoint -> P -> result string unit * P;
  finish_points : P -> result string unit * P
}.

(** The values of a point: the lines there are, MOSI first.
    [crates/logic_analyzer_protocol_decoders/src/spi_decoder/decoder.rs:708-723] SpiDecoder::work_indexed (point) *)
Definition sampling_point (time_ns : Z) (clock_high : bool) (mosi miso : option bool)
  : PackedSamplingPoint :=
  let '(values, count) := match mosi with Some v => (b2z v, 1) | None => (0, 0) end in
  let '(values, count) := match miso with
    | Some v => (Z.lor values (Z.shiftl (b2z v) count), count + 1)
    | None => (values, count)
    end in
  PackedSamplingPoint_new time_ns clock_high values count.

(** ** Transactions and annotations *)

(** [crates/logic_analyzer_protocol_decoders/src/spi_decoder/decoder.rs:33-33] SPI_TRANSACTION_PROTOCOL_ID *)
Definition SPI_TRANSACTION_PROTOCOL_ID : string := "org.logicconduit.spi-transaction/v1".

(** [crates/logic_analyzer_protocol_decoders/src/spi_decoder/decoder.rs:103-115] SpiTransaction *)
Record SpiTransaction := mkTransaction {
  tx_start_sample : Z;
  tx_end_sample : Z;
  tx_start_time_ns : Z;
  tx_end_time_ns : Z;
  word_bits : Z;
  mosi_words : list Z;
  miso_words : list Z;
  tx_has_mosi : bool;
  tx_has_miso : bool;
  incomplete_bits : Z;
  cs_deasserted : bool
}.

(** [crates/logic_analyzer_protocol_decoders/src/spi_decoder/decoder.rs:117-171] spi_transaction_packet *)
Definition spi_transaction_packet (t : SpiTransaction) : ProtocolPacket :=
  let complete := (incomplete_bits t =? 0) && cs_deasserted t in
  let diagnostics :=
    (if 0 <? incomplete_bits t then
       [PString (ascii_bytes ("incomplete word: " +:+ pretty (incomplete_bits t) +:+ "/" +:+
          pretty (word_bits t) +:+ " bits"))] else []) ++
    (if cs_deasserted t then []
     else [PString (ascii_bytes "chip select remained active at end of capture")]) in
  let words (present : bool) values := if present then PList (map PInteger values) else PNull in
  mkPacket (tx_start_sample t) (tx_end_sample t) (tx_start_time_ns t) (tx_end_time_ns t)
    SPI_TRANSACTION_PROTOCOL_ID
    (PMapping [("complete"%string, PBool complete);
               ("diagnostics"%string, PList diagnostics);
               ("incomplete_bits"%string, PInteger (incomplete_bits t));
               ("miso"%string, words (tx_has_miso t) (miso_words t));
               ("mosi"%string, words (tx_has_mosi t) (mosi_words t));
               ("word_bits"%string, PInteger (word_bits t))]).

Section Cells.
Variable timestamps : list Z.

Definition stamp (index : nat) : Z := nth index timestamps 0.

(** [crates/logic_analyzer_protocol_decoders/src/spi_decoder/decoder.rs:182-190] spi_word_annotations (cell_start) *)
Definition cell_start (index : nat) : Z :=
  if (length timestamps =? 1)%nat then stamp 0
  else if (index =? 0)%nat then saturating_sub64 (stamp 0) (sub64 (stamp 1) (stamp 0) / 2)
  else add64 (stamp (index - 1)) (sub64 (stamp index) (stamp (index - 1)) / 2).

(** [crates/logic_analyzer_protocol_decoders/src/spi_decoder/decoder.rs:191-200] spi_word_annotations (cell_end) *)
Definition cell_end (index : nat) : Z :=
  if (length timestamps =? 1)%nat then saturating_add64 (stamp 0) 1
  else if (S index =? length timestamps)%nat then
    saturating_add64 (stamp index) (div_ceil (sub64 (stamp index) (stamp (index - 1))) 2)
  else add64 (stamp index) (sub64 (stamp (S index)) (stamp index) / 2).

Definition spanning_cells (value start end_ : Z) : Word :=
  spanning value start (Z.max (saturating_sub64 end_ start) 1).

(** The words of the bits and that of the whole word.
    [crates/logic_analyzer_protocol_decoders/src/spi_decoder/decoder.rs:173-220] spi_word_annotations *)
Definition spi_word_annotations (value : Z) (bit_values : list bool) : option (list Word * Word) :=
  if negb (length bit_values =? length timestamps)%nat || (length timestamps =? 0)%nat then None
  else
    Some (imap (fun index bit => spanning_cells (b2z bit) (cell_start index) (cell_end index))
            bit_values,
          spanning_cells value (cell_start 0) (cell_end (length timestamps - 1))).
End Cells.

(** ** Outputs *)

(** The three outputs of a direction: words, bits and framed data. *)
Record Line (A : Type) := mkLine { line_words : A; line_bits : A; line_data : A }.
Arguments mkLine {A} line_words line_bits line_data.
Arguments line_words {A} l : rename.
Arguments line_bits {A} l : rename.
Arguments line_data {A} l : rename.

Record Outputs := mkOutputs {
  mosi_ports : Line (option (Sender Word));
  miso_ports : Line (option (Sender Word));
  transaction_port : option (Sender ProtocolPacket)
}.

Definition set_mosi_words p o := mkOutputs (mkLine p (line_bits (mosi_ports o)) (line_data (mosi_ports o)))
  (miso_ports o) (transaction_port o).
Definition set_mosi_bits p o := mkOutputs (mkLine (line_words (mosi_ports o)) p (line_data (mosi_ports o)))
  (miso_ports o) (transaction_port o).
Definition set_mosi_data p o := mkOutputs (mkLine (line_words (mosi_ports o)) (line_bits (mosi_ports o)) p)
  (miso_ports o) (transaction_port o).
Definition set_miso_words p o := mkOutputs (mosi_ports o)
  (mkLine p (line_bits (miso_ports o)) (line_data (miso_ports o))) (transaction_port o).
Definition set_miso_bits p o := mkOutputs (mosi_ports o)
  (mkLine (line_words (miso_ports o)) p (line_data (miso_ports o))) (transaction_port o).
Definition set_miso_data p o := mkOutputs (mosi_ports o)
  (mkLine (line_words (miso_ports o)) (line_bits (miso_ports o)) p) (transaction_port o).
Definition set_transactions p o := mkOutputs (mosi_ports o) (miso_ports o) p.

Record Batches := mkBatches {
  mosi_batch : Line (list Word);
  miso_batch : Line (list Word);
  transaction_batch : list ProtocolPacket;
  words_emitted : Z
}.

Definition no_words : Line (list Word) := mkLine [] [] [].
Definition no_batches : Batches := mkBatches no_words no_words [] 0.

(** A batch for an output that the decoder has and that is connected. *)
Definition send_if {T} (present : bool) (values : list T) (port : option (Sender T))
  : WorkResult unit * option (Sender T) :=
  match present, port with
  | true, Some s => let '(res, s) := send_batch s values in (res, Some s)
  | _, _ => (Ok tt, port)
  end.

(** [crates/logic_analyzer_protocol_decoders/src/spi_decoder/decoder.rs:831-852] SpiDecoder::work_indexed (send) *)
Definition send_batches (c : SpiConfig) (b : Batches) (o : Outputs) : WorkResult unit * Outputs :=
  let! _, o := zoom (fun o => line_words (mosi_ports o)) set_mosi_words
    (send_if (has_mosi c) (line_words (mosi_batch b))) o in
  let! _, o := zoom (fun o => line_words (miso_ports o)) set_miso_words
    (send_if (has_miso c) (line_words (miso_batch b))) o in
  let! _, o := zoom (fun o => line_bits (mosi_ports o)) set_mosi_bits
    (send_if (has_mosi c) (line_bits (mosi_batch b))) o in
  let! _, o := zoom (fun o => line_data (mosi_ports o)) set_mosi_data
    (send_if (has_mosi c) (line_data (mosi_batch b))) o in
  let! _, o := zoom (fun o => line_bits (miso_ports o)) set_miso_bits
    (send_if (has_miso c) (line_bits (miso_batch b))) o in
  let! _, o := zoom (fun o => line_data (miso_ports o)) set_miso_data
    (send_if (has_miso c) (line_data (miso_batch b))) o in
  zoom transaction_port set_transactions (send_if true (transaction_batch b)) o.

(** ** The word under way *)

Record Assembly := mkAssembly {
  mosi_word : Z;
  miso_word : Z;
  bits_collected : Z;
  first_clock_edge : option Z;
  bit_timestamps : list Z;
  mosi_bits : list bool;
  miso_bits : list bool
}.

Definition no_bits : Assembly := mkAssembly 0 0 0 None [] [] [].

(** Whether bits are annotated: one of the two outputs is connected. *)
Definition annotates (has : bool) (ports : Line (option (Sender Word))) : bool :=
  has && (bool_decide (is_Some (line_bits ports)) || bool_decide (is_Some (line_data ports))).

(** One sampled bit; a value is [None] where the decoder has no such line.
    [crates/logic_analyzer_protocol_decoders/src/spi_decoder/decoder.rs:688-706] SpiDecoder::work_indexed (bit) *)
Definition add_bit (c : SpiConfig) (need_mosi need_miso : bool) (to_ns : Z -> Z) (clock_edge : Z)
    (mosi miso : option bool) (a : Assembly) : Assembly :=
  let position := bit_position c (bits_collected a) in
  let put word value := match value with Some true => set_bit word position | _ => word end in
  let push (need : bool) bits value := match value with
    | Some v => if need then bits ++ [v] else bits
    | None => bits
    end in
  mkAssembly (put (mosi_word a) mosi) (put (miso_word a) miso) (bits_collected a + 1)
    (match first_clock_edge a with Some first => Some first | None => Some clock_edge end)
    (if need_mosi || need_miso then bit_timestamps a ++ [to_ns clock_edge] else bit_timestamps a)
    (push need_mosi (mosi_bits a) mosi) (push need_miso (miso_bits a) miso).

(** The batches of one direction after a word.
    [crates/logic_analyzer_protocol_decoders/src/spi_decoder/decoder.rs:750-769] SpiDecoder::work_indexed (push) *)
Definition push_word (has : bool) (ports : Line (option (Sender Word))) (value timestamp duration : Z)
    (bits : list bool) (timestamps : list Z) (b : Line (list Word)) : Line (list Word) :=
  let words := if has && bool_decide (is_Some (line_words ports))
    then line_words b ++ [spanning value timestamp duration] else line_words b in
  match spi_word_annotations timestamps value bits with
  | Some (annotated, data) => mkLine words (line_bits b ++ annotated) (line_data b ++ [data])
  | None => mkLine words (line_bits b) (line_data b)
  end.

(** A complete word whose last bit was sampled at [clock_edge].
    [crates/logic_analyzer_protocol_decoders/src/spi_decoder/decoder.rs:737-777] SpiDecoder::work_indexed (word) *)
Definition complete_word (c : SpiConfig) (o : Outputs) (to_ns : Z -> Z) (clock_edge : Z) (a : Assembly)
    (b : Batches) : Batches :=
  let timestamp := to_ns (from_option id 0 (first_clock_edge a)) in
  let duration := saturating_sub64 (to_ns clock_edge) timestamp in
  mkBatches
    (push_word (has_mosi c) (mosi_ports o) (mosi_word a) timestamp duration (mosi_bits a)
       (bit_timestamps a) (mosi_batch b))
    (push_word (has_miso c) (miso_ports o) (miso_word a) timestamp duration (miso_bits a)
       (bit_timestamps a) (miso_batch b))
    (transaction_batch b) (words_emitted b + 1).

(** ** The node *)

(** A connection of an input: a stream, or an edge query. *)
Record SpiInput := mkInput { channel : option (Receiver Sample); edge_query : option EdgeQuery }.

(** What query mode keeps between turns. *)
Record QueryState := mkQueryState {
  query_cs_position : Z;
  query_window_end : option Z;
  query_clk_position : Z;
  assembly : Assembly;
  query_transaction_start : option Z;
  transaction_mosi_words : list Z;
  transaction_miso_words : list Z;
  query_window_deasserted : bool
}.

Section Decoder.
Context {P : Type} `{SamplingStore P}.

(** [crates/logic_analyzer_protocol_decoders/src/spi_decoder/decoder.rs:55-96] SpiDecoder *)
Record SpiDecoder := mkSpiDecoder {
  config : SpiConfig;
  prev_clk : bool;
  tx_count : Z;
  query_state : QueryState;
  sampling_points : option P;
  cs : SpiInput;
  clk : SpiInput;
  mosi : SpiInput;
  miso : SpiInput;
  outputs : Outputs
}.

Definition set_prev_clk b s := mkSpiDecoder (config s) b (tx_count s) (query_state s)
  (sampling_points s) (cs s) (clk s) (mosi s) (miso s) (outputs s).
Definition set_tx_count n s := mkSpiDecoder (config s) (prev_clk s) n (query_state s)
  (sampling_points s) (cs s) (clk s) (mosi s) (miso s) (outputs s).
Definition set_query_state q s := mkSpiDecoder (config s) (prev_clk s) (tx_count s) q
  (sampling_points s) (cs s) (clk s) (mosi s) (miso s) (outputs s).
Definition set_sampling_points p s := mkSpiDecoder (config s) (prev_clk s) (tx_count s)
  (query_state s) p (cs s) (clk s) (mosi s) (miso s) (outputs s).
Definition set_cs r s := mkSpiDecoder (config s) (prev_clk s) (tx_count s) (query_state s)
  (sampling_points s) (mkInput (Some r) (edge_query (cs s))) (clk s) (mosi s) (miso s) (outputs s).
Definition set_clk r s := mkSpiDecoder (config s) (prev_clk s) (tx_count s) (query_state s)
  (sampling_points s) (cs s) (mkInput (Some r) (edge_query (clk s))) (mosi s) (miso s) (outputs s).
Definition set_mosi r s := mkSpiDecoder (config s) (prev_clk s) (tx_count s) (query_state s)
  (sampling_points s) (cs s) (clk s) (mkInput (Some r) (edge_query (mosi s))) (miso s) (outputs s).
Definition set_miso r s := mkSpiDecoder (config s) (prev_clk s) (tx_count s) (query_state s)
  (sampling_points s) (cs s) (clk s) (mosi s) (mkInput (Some r) (edge_query (miso s))) (outputs s).
Definition set_outputs o s := mkSpiDecoder (config s) (prev_clk s) (tx_count s) (query_state s)
  (sampling_points s) (cs s) (clk s) (mosi s) (miso s) o.

(** [crates/logic_analyzer_protocol_decoders/src/spi_decoder/decoder.rs:241-276] SpiDecoder::with_cs_polarity *)
Definition SpiDecoder_new (c : SpiConfig) (points : option P) (cs clk mosi miso : SpiInput)
    (o : Outputs) : SpiDecoder :=
  mkSpiDecoder c false 0 (mkQueryState 0 None 0 no_bits None [] [] false) points cs clk mosi miso o.

(** A batch for the store, if there is one that has no provider.
    [crates/logic_analyzer_protocol_decoders/src/spi_decoder/decoder.rs:786-790] SpiDecoder::work_indexed (points) *)
Definition record_points (points : list PackedSamplingPoint) (s : SpiDecoder)
  : WorkResult unit * SpiDecoder :=
  match sampling_points s with
  | Some store =>
      if has_provider store then (Ok tt, s)
      else
        let '(res, store) := record_packed_batch points store in
        let s := set_sampling_points (Some store) s in
        match res with
        | Ok _ => (Ok tt, s)
        | Err e => (Err (NodeError ("could not cache SPI sampling points: " +:+ e)), s)
        end
  | None => (Ok tt, s)
  end.

(** ** Query mode *)

(** [crates/logic_analyzer_protocol_decoders/src/spi_decoder/decoder.rs:489-489] SpiDecoder::QUERY_SAMPLING_EDGES_PER_CALL *)
Definition QUERY_SAMPLING_EDGES_PER_CALL : Z := 65536.

(** [crates/logic_analyzer_protocol_decoders/src/spi_decoder/decoder.rs:512-515] SpiDecoder::work_indexed (levels) *)
Definition active_value (c : SpiConfig) : bool :=
  match cs_polarity c with ActiveLow => false | ActiveHigh | Disabled => true end.

(** Where the window is to be found: [inl] ends the capture.
    [crates/logic_analyzer_protocol_decoders/src/spi_decoder/decoder.rs:600-625] SpiDecoder::work_indexed (window) *)
Definition find_window (c : SpiConfig) (cs : EdgeQuery) (cs_position : Z)
  : option (QueryResult (option (Z * Z * bool))) :=
  let total := total_samples cs in
  if total <=? cs_position then Some (Ok None)
  else
    let close start :=
      match next_edge_with_value cs start (negb (active_value c)) total with
      | None => None
      | Some (Err e) => Some (Err e)
      | Some (Ok (Some edge)) => Some (Ok (Some (start, sample edge, true)))
      | Some (Ok None) =>
          Some (Ok (Some (start, total, match cs_polarity c with Disabled => true | _ => false end)))
      end in
    let search :=
      match next_edge_with_value cs cs_position (active_value c) total with
      | None => None
      | Some (Err e) => Some (Err e)
      | Some (Ok None) => Some (Ok None)
      | Some (Ok (Some edge)) => close (sample edge)
      end in
    if cs_position =? 0 then
      match query_value_at cs 0 with
      | Err e => Some (Err e)
      | Ok value => if Bool.eqb value (active_value c) then close 0 else search
      end
    else search.

(** [crates/logic_analyzer_protocol_decoders/src/spi_decoder/decoder.rs:627-632] SpiDecoder::work_indexed (open) *)
Definition open_window (start window_end : Z) (deasserted : bool) (q : QueryState) : QueryState :=
  mkQueryState (query_cs_position q) (Some window_end) start (assembly q) (Some start) [] [] deasserted.

(** The samples of a batch of clock edges: position of the sample, and the two values there.
    [crates/logic_analyzer_protocol_decoders/src/spi_decoder/decoder.rs:658-680] SpiDecoder::work_indexed (values) *)
Definition sample_positions (c : SpiConfig) (edges : list CaptureTransition) : list Z :=
  map (fun e => saturating_sub64 (sample e) 1)
    (List.filter (fun e => Bool.eqb (edge_value e) (samples_on_rising c)) edges).

Definition line_values (q : option EdgeQuery) (positions : list Z) : QueryResult (list (option bool)) :=
  match q with
  | None => Ok (map (fun _ => None) positions)
  | Some q => let? values := values_at q positions in Ok (map Some values)
  end.

(** The turn of the loop over samples, with the transaction's words.
    [crates/logic_analyzer_protocol_decoders/src/spi_decoder/decoder.rs:687-785] SpiDecoder::work_indexed (sample) *)
Definition take_sample (c : SpiConfig) (o : Outputs) (to_ns : Z -> Z) (x : Z * option bool * option bool)
    (qb : QueryState * Batches) : QueryState * Batches :=
  let '(position, m, s) := x in
  let '(q, b) := qb in
  let clock_edge := saturating_add64 position 1 in
  let a := add_bit c (annotates (has_mosi c) (mosi_ports o)) (annotates (has_miso c) (miso_ports o))
    to_ns clock_edge m s (assembly q) in
  if bits_collected a <? bits_per_word c then
    (mkQueryState (query_cs_position q) (query_window_end q) (query_clk_position q) a
       (query_transaction_start q) (transaction_mosi_words q) (transaction_miso_words q)
       (query_window_deasserted q), b)
  else
    (mkQueryState (query_cs_position q) (query_window_end q) (query_clk_position q) no_bits
       (query_transaction_start q)
       (if has_mosi c then transaction_mosi_words q ++ [mosi_word a] else transaction_mosi_words q)
       (if has_miso c then transaction_miso_words q ++ [miso_word a] else transaction_miso_words q)
       (query_window_deasserted q),
     complete_word c o to_ns clock_edge a b).

(** [crates/logic_analyzer_protocol_decoders/src/spi_decoder/decoder.rs:793-827] SpiDecoder::work_indexed (close) *)
Definition close_window (c : SpiConfig) (to_ns : Z -> Z) (start window_end : Z) (qb : QueryState * Batches)
  : QueryState * Batches :=
  let '(q, b) := qb in
  let packet := spi_transaction_packet (mkTransaction start window_end (to_ns start) (to_ns window_end)
    (bits_per_word c) (transaction_mosi_words q) (transaction_miso_words q) (has_mosi c) (has_miso c)
    (bits_collected (assembly q)) (query_window_deasserted q)) in
  (mkQueryState window_end None (query_clk_position q) no_bits None [] [] (query_window_deasserted q),
   mkBatches (mosi_batch b) (miso_batch b) (transaction_batch b ++ [packet]) (words_emitted b)).

Definition moved_clock (edges : list CaptureTransition) (q : QueryState) : QueryState :=
  match last edges with
  | Some edge => mkQueryState (query_cs_position q) (query_window_end q) (sample edge) (assembly q)
      (query_transaction_start q) (transaction_mosi_words q) (transaction_miso_words q)
      (query_window_deasserted q)
  | None => q
  end.

Section Indexed.
Variables (budget : Z) (cs_query clk_query : EdgeQuery) (mosi_query miso_query : option EdgeQuery).

Definition position_to_ns (position : Z) : Z :=
  saturating_mul64 position (timestamp_step cs_query).

Definition lift {A} (r : QueryResult A) : WorkResult A :=
  match r with Ok a => Ok a | Err e => Err (NodeError e) end.

Definition lift_with {A S} (r : QueryResult A) (s : S) : WorkResult A * S := (lift r, s).

(** One batch of clock edges inside the window; the number of samples, and the batches.
    [crates/logic_analyzer_protocol_decoders/src/spi_decoder/decoder.rs:642-828] SpiDecoder::work_indexed (batch) *)
Definition decode_batch (start window_end sampling_edges : Z) (b : Batches) (s : SpiDecoder)
  : WorkResult (Z * Batches) * SpiDecoder :=
  let c := config s in
  let max_raw_edges := Z.max (saturating_mul64 (budget - sampling_edges) 2) 2 in
  let! raw_edges, s := lift_with (next_edges clk_query (query_clk_position (query_state s)) window_end
    (Z.to_nat max_raw_edges)) s in
  let window_exhausted := zlen raw_edges <? max_raw_edges in
  let s := set_query_state (moved_clock raw_edges (query_state s)) s in
  let ps := sample_positions c raw_edges in
  let! mosi_values, s := lift_with (line_values mosi_query ps) s in
  let! miso_values, s := lift_with (line_values miso_query ps) s in
  let samples := zip (zip ps mosi_values) miso_values in
  let '(q, b) := fold_left (fun qb x => take_sample c (outputs s) position_to_ns x qb) samples
    (query_state s, b) in
  let! _, s := record_points (map (fun '(p, m, v) =>
      sampling_point (position_to_ns (saturating_add64 p 1)) (samples_on_rising c) m v) samples)
    (set_query_state q s) in
  let '(q, b) := if window_exhausted
    then close_window c position_to_ns start window_end (query_state s, b) else (query_state s, b) in
  (Ok (sampling_edges + zlen ps, b), set_query_state q s).

(** The loop; [true] when the capture is exhausted.  Every turn moves the clock position or the
    chip-select position, so as many turns as positions are enough; [None]: more.
    [crates/logic_analyzer_protocol_decoders/src/spi_decoder/decoder.rs:598-829] SpiDecoder::work_indexed (loop) *)
Fixpoint indexed_loop (fuel : nat) (sampling_edges : Z) (b : Batches) (s : SpiDecoder)
  : option (WorkResult (bool * Batches) * SpiDecoder) :=
  match fuel with
  | O => None
  | S fuel =>
      let decode start window_end s :=
        match decode_batch start window_end sampling_edges b s with
        | (Err e, s) => Some (Err e, s)
        | (Ok (sampling_edges, b), s) => indexed_loop fuel sampling_edges b s
        end in
      if negb (sampling_edges <? budget) then Some (Ok (false, b), s)
      else
        match query_window_end (query_state s) with
        | Some window_end =>
            match query_transaction_start (query_state s) with
            | Some start => decode start window_end s
            | None => Some (Err (NodeError "an open query window has a transaction start"), s)
            end
        | None =>
            match find_window (config s) cs_query (query_cs_position (query_state s)) with
            | None => None
            | Some (Err e) => Some (Err (NodeError e), s)
            | Some (Ok None) => Some (Ok (true, b), s)
            | Some (Ok (Some (start, window_end, deasserted))) =>
                decode start window_end
                  (set_query_state (open_window start window_end deasserted (query_state s)) s)
            end
        end
  end.

(** [crates/logic_analyzer_protocol_decoders/src/spi_decoder/decoder.rs:496-860] SpiDecoder::work_indexed *)
Definition work_indexed (s : SpiDecoder) : WorkResult Z * SpiDecoder :=
  match indexed_loop (S (S (2 * Z.to_nat (total_samples cs_query)))) 0 no_batches s with
  | None => (Err (NodeError "diverges"), s)
  | Some (Err e, s) => (Err e, s)
  | Some (Ok (capture_exhausted, b), s) =>
      let! _, s := zoom outputs set_outputs (send_batches (config s) b) s in
      let s := set_tx_count (add64 (tx_count s) (words_emitted b)) s in
      (if capture_exhausted then Err Shutdown
       else Ok (Z.max (words_emitted b) (zlen (transaction_batch b))), s)
  end.
End Indexed.

(** ** Stream mode *)

Definition cs_is_active (c : SpiConfig) (value : bool) : bool :=
  match cs_polarity c with ActiveLow => negb value | ActiveHigh => value | Disabled => true end.

(** Every turn of the receiving loops takes an item, so [weight] turns are enough.
    [crates/logic_analyzer_protocol_decoders/src/spi_decoder/decoder.rs:962-967] SpiDecoder::work_streamed (active) *)
Fixpoint wait_active (fuel : nat) (c : SpiConfig) (r : Receiver Sample)
  : WorkResult Sample * Receiver Sample :=
  match fuel with
  | O => (Err Shutdown, r)
  | S fuel =>
      let! edge, r := recv r in
      if cs_is_active c (level edge) then (Ok edge, r) else wait_active fuel c r
  end.

(** [crates/logic_analyzer_protocol_decoders/src/spi_decoder/decoder.rs:973-990] SpiDecoder::work_streamed (inactive) *)
Fixpoint wait_inactive (fuel : nat) (c : SpiConfig) (active_start terminal : Z) (r : Receiver Sample)
  : WorkResult (Z * bool) * Receiver Sample :=
  match fuel with
  | O => (Err Shutdown, r)
  | S fuel =>
      match recv r with
      | (Ok edge, r) =>
          if negb (cs_is_active c (level edge)) then (Ok (start_time_ns edge, true), r)
          else wait_inactive fuel c active_start (start_time_ns edge) r
      | (Err Shutdown, r) =>
          if active_start <? terminal then
            (Ok (terminal, match cs_polarity c with Disabled => true | _ => false end), r)
          else (Err Shutdown, r)
      | (Err e, r) => (Err e, r)
      end
  end.

(** [crates/logic_analyzer_protocol_decoders/src/spi_decoder/decoder.rs:312-350] SpiDecoder::value_at_time (loop) *)
Fixpoint value_at_time_loop (fuel : nat) (timestamp : Z) (r : Receiver Sample)
  : WorkResult (option bool) * Receiver Sample :=
  match fuel with
  | O => (Ok None, r)
  | S fuel =>
      match recv r with
      | (Err Shutdown, r) => (Ok None, r)
      | (Err e, r) => (Err e, r)
      | (Ok current, r) =>
          match peek r with
          | (Ok next, r) =>
              if (start_time_ns current <=? timestamp) && (timestamp <? start_time_ns next)
              then (Ok (Some (level current)), put_back r current)
              else value_at_time_loop fuel timestamp r
          | (Err Shutdown, r) =>
              if start_time_ns current <=? timestamp
              then (Ok (Some (level current)), put_back r current) else (Ok None, r)
          | (Err e, r) => (Err e, r)
          end
      end
  end.

(** [crates/logic_analyzer_protocol_decoders/src/spi_decoder/decoder.rs:308-351] SpiDecoder::value_at_time *)
Definition value_at_time (timestamp : Z) (r : Receiver Sample) : WorkResult (option bool) * Receiver Sample :=
  value_at_time_loop (S (weight r)) timestamp r.

(** The level of a data line at a sampling edge; its end stops the decoder. *)
Definition read_line (present : bool) (timestamp : Z) (line : option (Receiver Sample))
  : WorkResult (option bool) * option (Receiver Sample) :=
  match present, line with
  | true, Some r =>
      match value_at_time timestamp r with
      | (Ok None, r) => (Err Shutdown, Some r)
      | (Ok (Some v), r) => (Ok (Some v), Some r)
      | (Err e, r) => (Err e, Some r)
      end
  | _, _ => (Ok None, line)
  end.

(** What the collection of words works on: the receivers of the clock and of the data lines, the
    clock's level, the word under way, the batches, the transaction's words and the points. *)
Record Collection := mkCollection {
  clk_rx : Receiver Sample;
  mosi_rx : option (Receiver Sample);
  miso_rx : option (Receiver Sample);
  clk_level : bool;
  word : Assembly;
  batches : Batches;
  words_mosi : list Z;
  words_miso : list Z;
  points : list PackedSamplingPoint
}.

Definition set_clk_rx r x := mkCollection r (mosi_rx x) (miso_rx x) (clk_level x) (word x) (batches x)
  (words_mosi x) (words_miso x) (points x).
Definition set_mosi_rx r x := mkCollection (clk_rx x) r (miso_rx x) (clk_level x) (word x) (batches x)
  (words_mosi x) (words_miso x) (points x).
Definition set_miso_rx r x := mkCollection (clk_rx x) (mosi_rx x) r (clk_level x) (word x) (batches x)
  (words_mosi x) (words_miso x) (points x).
Definition set_clk_level b x := mkCollection (clk_rx x) (mosi_rx x) (miso_rx x) b (word x) (batches x)
  (words_mosi x) (words_miso x) (points x).

(** A sampling edge at [time] with its values; the word is complete when all its bits are there.
    [crates/logic_analyzer_protocol_decoders/src/spi_decoder/decoder.rs:1075-1187] SpiDecoder::work_streamed (sample) *)
Definition streamed_sample (c : SpiConfig) (o : Outputs) (time : Z) (high : bool) (m s : option bool)
    (x : Collection) : Collection :=
  let a := add_bit c (annotates (has_mosi c) (mosi_ports o)) (annotates (has_miso c) (miso_ports o))
    id time m s (word x) in
  let pts := points x ++ [sampling_point time high m s] in
  if bits_collected a <? bits_per_word c then
    mkCollection (clk_rx x) (mosi_rx x) (miso_rx x) (clk_level x) a (batches x) (words_mosi x)
      (words_miso x) pts
  else if bits_collected a =? bits_per_word c then
    mkCollection (clk_rx x) (mosi_rx x) (miso_rx x) (clk_level x) no_bits
      (complete_word c o id time a (batches x))
      (if has_mosi c then words_mosi x ++ [mosi_word a] else words_mosi x)
      (if has_miso c then words_miso x ++ [miso_word a] else words_miso x) pts
  else
    mkCollection (clk_rx x) (mosi_rx x) (miso_rx x) (clk_level x) no_bits (batches x)
      (words_mosi x) (words_miso x) pts.

(** The two nested loops over clock edges; the number of bits of an incomplete word.
    [crates/logic_analyzer_protocol_decoders/src/spi_decoder/decoder.rs:1024-1188] SpiDecoder::work_streamed (words) *)
Fixpoint collect_words (fuel : nat) (c : SpiConfig) (o : Outputs) (inactive_time : Z) (x : Collection)
  : WorkResult Z * Collection :=
  match fuel with
  | O => (Ok (bits_collected (word x)), x)
  | S fuel =>
      match recv (clk_rx x) with
      | (Err Shutdown, r) => (Ok (bits_collected (word x)), set_clk_rx r x)
      | (Err e, r) => (Err e, set_clk_rx r x)
      | (Ok edge, r) =>
          if inactive_time <=? start_time_ns edge then
            let n := bits_collected (word x) in
            (Ok (if (0 <? n) && (n <? bits_per_word c) then n else 0), set_clk_rx (put_back r edge) x)
          else
            let is_rising := negb (clk_level x) && level edge in
            let is_falling := clk_level x && negb (level edge) in
            let x := set_clk_level (level edge) (set_clk_rx r x) in
            if negb (if samples_on_rising c then is_rising else is_falling)
            then collect_words fuel c o inactive_time x
            else
              let sample_time := saturating_sub64 (start_time_ns edge) 1 in
              let! m, x := zoom mosi_rx set_mosi_rx (read_line (has_mosi c) sample_time) x in
              let! s, x := zoom miso_rx set_miso_rx (read_line (has_miso c) sample_time) x in
              collect_words fuel c o inactive_time
                (streamed_sample c o (start_time_ns edge) (level edge) m s x)
      end
  end.

(** Discards a data line's levels from before the window. *)
Definition drain_line (present : bool) (before : Z) (line : option (Receiver Sample))
  : WorkResult unit * option (Receiver Sample) :=
  match present, line with
  | true, Some r => let '(res, r) := drain_before start_time_ns r before in (res, Some r)
  | _, _ => (Ok tt, line)
  end.

Definition save_lines (x : Collection) (s : SpiDecoder) : SpiDecoder :=
  let s := set_clk (clk_rx x) s in
  let s := match mosi_rx x with Some r => set_mosi r s | None => s end in
  match miso_rx x with Some r => set_miso r s | None => s end.

(** After the window is known: the words and the transaction.
    [crates/logic_analyzer_protocol_decoders/src/spi_decoder/decoder.rs:998-1236] SpiDecoder::work_streamed (decode) *)
Definition decode_streamed (start inactive_time : Z) (deasserted : bool) (clk_r : Receiver Sample)
    (s : SpiDecoder) : WorkResult Z * SpiDecoder :=
  let c := config s in
  let x := mkCollection clk_r (channel (mosi s)) (channel (miso s)) (prev_clk s) no_bits no_batches
    [] [] [] in
  let '(drained, x) :=
    (let! _, x := zoom clk_rx set_clk_rx (fun r => drain_before start_time_ns r start) x in
     let! _, x := zoom mosi_rx set_mosi_rx (drain_line (has_mosi c) start) x in
     zoom miso_rx set_miso_rx (drain_line (has_miso c) start) x) in
  match drained with
  | Err e => (Err e, save_lines x s)
  | Ok _ =>
      let '(res, x) := collect_words (S (weight (clk_rx x))) c (outputs s) inactive_time x in
      let s := save_lines x s in
      match res with
      | Err e => (Err e, s)
      | Ok incomplete =>
          let! _, s := record_points (points x) s in
          let packet := spi_transaction_packet (mkTransaction 0 0 start inactive_time (bits_per_word c)
            (words_mosi x) (words_miso x) (has_mosi c) (has_miso c) incomplete deasserted) in
          let b := batches x in
          let! _, s := zoom outputs set_outputs (send_batches c (mkBatches (mosi_batch b) (miso_batch b) []
            (words_emitted b))) s in
          let! _, s := zoom outputs set_outputs (zoom transaction_port set_transactions (fun port =>
            match port with
            | Some p => let '(res, p) := send p packet in (res, Some p)
            | None => (Ok tt, None)
            end)) s in
          (Ok (Z.max (words_emitted b) 1),
           set_tx_count (add64 (tx_count s) (words_emitted b)) (set_prev_clk (clk_level x) s))
      end
  end.

Definition missing_line (present : bool) (i : SpiInput) : bool :=
  present && match channel i with None => true | Some _ => false end.

(** [crates/logic_analyzer_protocol_decoders/src/spi_decoder/decoder.rs:864-1236] SpiDecoder::work_streamed *)
Definition work_streamed (s : SpiDecoder) : WorkResult Z * SpiDecoder :=
  let c := config s in
  match channel (cs s), channel (clk s) with
  | None, _ => (Err (NodeError "Missing CS input"), s)
  | Some _, None => (Err (NodeError "Missing CLK input"), s)
  | Some cs_r, Some clk_r =>
      if missing_line (has_mosi c) (mosi s) then (Err (NodeError "Missing MOSI input"), s)
      else if missing_line (has_miso c) (miso s) then (Err (NodeError "Missing MISO input"), s)
      else
        match wait_active (S (weight cs_r)) c cs_r with
        | (Err e, r) => (Err e, set_cs r s)
        | (Ok edge, r) =>
            match wait_inactive (S (weight r)) c (start_time_ns edge) (start_time_ns edge) r with
            | (Err e, r) => (Err e, set_cs r s)
            | (Ok (inactive_time, deasserted), r) =>
                decode_streamed (start_time_ns edge) inactive_time deasserted clk_r (set_cs r s)
            end
        end
  end.

(** ** The node's work *)

(** Query mode needs a query on every input the decoder uses.
    [crates/logic_analyzer_protocol_decoders/src/spi_decoder/decoder.rs:446-482] SpiDecoder::work *)
Definition spi_work_with (budget : Z) (s : SpiDecoder) : WorkResult Z * SpiDecoder :=
  let c := config s in
  let mosi_query := if has_mosi c then edge_query (mosi s) else None in
  let miso_query := if has_miso c then edge_query (miso s) else None in
  match edge_query (cs s), edge_query (clk s) with
  | Some cs_query, Some clk_query =>
      if (negb (has_mosi c) || bool_decide (is_Some mosi_query)) &&
         (negb (has_miso c) || bool_decide (is_Some miso_query))
      then work_indexed budget cs_query clk_query mosi_query miso_query s
      else work_streamed s
  | _, _ => work_streamed s
  end.

(** The end finishes the store of sampling points.
    [crates/logic_analyzer_protocol_decoders/src/spi_decoder/decoder.rs:426-444] SpiDecoder::work_outcome *)
Definition spi_outcome_with (budget : Z) (s : SpiDecoder) : WorkResult Z * SpiDecoder :=
  match spi_work_with budget s with
  | (Err Shutdown, s) =>
      match sampling_points s with
      | Some store =>
          let '(res, store) := finish_points store in
          let s := set_sampling_points (Some store) s in
          match res with
          | Ok _ => (Err Shutdown, s)
          | Err e => (Err (NodeError ("could not finish the sampling-point cache: " +:+ e)), s)
          end
      | None => (Err Shutdown, s)
      end
  | other => other
  end.

Definition spi_outcome : SpiDecoder -> WorkResult Z * SpiDecoder :=
  spi_outcome_with QUERY_SAMPLING_EDGES_PER_CALL.
End Decoder.
Arguments SpiDecoder P : clear implicits.
