(* ===== verification/SpiProperties.v ===== *)
(** The SPI decoder in query mode recovers the words of every chip-select window, however its work
    is cut into batches. *)

From stdpp Require Import pretty.
From S2P Require Import Prelude Events Runtime RecordedQuery EdgeQuery SpiDecoder.

#[local] Open Scope Z_scope.

(** ** Groups of bits *)

Section Chunks.
Context {A : Type} (n : nat).

(** The complete groups of [n] behind a started one, and what is left over. *)
Fixpoint chunks (started l : list A) : list (list A) * list A :=
  match l with
  | [] => ([], started)
  | x :: l =>
      let started := started ++ [x] in
      if (length started <? n)%nat then chunks started l
      else let '(groups, rest) := chunks [] l in (started :: groups, rest)
  end.

Lemma chunks_app started l1 l2 :
  chunks started (l1 ++ l2) =
    let '(g1, r1) := chunks started l1 in
    let '(g2, r2) := chunks r1 l2 in (g1 ++ g2, r2).
Proof.
  revert started. induction l1 as [|x l1 IH]; intros started; cbn [app chunks].
  { by destruct (chunks started l2). }
  destruct (_ <? n)%nat; [apply IH|]. rewrite IH. destruct (chunks [] l1) as [g1 r1].
  by destruct (chunks r1 l2).
Qed.

(** The groups have [n] items each, fewer are left over, and nothing is lost. *)
Lemma edge_chunks_spec started l :
  (length started < n)%nat ->
  let '(groups, rest) := chunks started l in
  concat groups ++ rest = started ++ l /\ Forall (fun g => length g = n) groups /\ (length rest < n)%nat.
Proof.
  revert started. induction l as [|x l IH]; intros started Hs; cbn [chunks].
  { by rewrite app_nil_r. }
  assert (Hlen : length (started ++ [x]) = S (length started)) by (rewrite length_app; cbn; lia).
  destruct (Nat.ltb_spec (length (started ++ [x])) n) as [Hlt|Hge].
  - specialize (IH (started ++ [x]) Hlt). destruct (chunks _ l) as [g r].
    by rewrite <- app_assoc in IH.
  - assert (Hn : (0 < n)%nat) by lia. specialize (IH [] Hn). destruct (chunks [] l) as [g r]. destruct IH as (H1 & H2 & H3).
    split; [|split; [constructor; [lia|done]|done]]. cbn [concat]. cbn [app] in H1.
    by rewrite <- !app_assoc, H1.
Qed.
End Chunks.

(** ** Transitions of the chip select *)

(** The first element that satisfies [f], with what follows it. *)
Fixpoint find_split {A} (f : A -> bool) (l : list A) : option (A * list A) :=
  match l with
  | [] => None
  | x :: l => if f x then Some (x, l) else find_split f l
  end.

Lemma next_edge_with_value_split q level p v limit `{!Answers q level} :
  0 <= p -> limit <= total_samples q ->
  match find_split (fun e => Bool.eqb (edge_value e) v) (transitions_in level p limit) with
  | Some (e, rest) => next_edge_with_value q p v limit = Some (Ok (Some e)) /\
      p < sample e < limit /\ rest = transitions_in level (sample e) limit /\ level (sample e) = v
  | None => next_edge_with_value q p v limit = Some (Ok None)
  end.
Proof.
  intros Hp Hl. unfold next_edge_with_value.
  remember (S (Z.to_nat (limit - p))) as fuel eqn:Hf.
  assert (Hfuel : (Z.to_nat (limit - p) < fuel)%nat) by lia. clear Hf.
  revert p Hp Hfuel. induction fuel as [|fuel IH]; intros p Hp Hfuel; [lia|].
  cbn [edge_with_value_loop]. destruct (answers_edge p limit Hp Hl) as (r & -> & Hr).
  rewrite (transitions_in_step _ _ _ _ Hr). destruct r as [e|]; [|done]. cbn [find_split].
  destruct Hr as (He & Hval & _). destruct (Bool.eqb (edge_value e) v) eqn:Heq.
  - apply eqb_prop in Heq. split_and!; try done; [lia..|congruence].
  - specialize (IH (sample e) ltac:(lia) ltac:(lia)). destruct (find_split _ _) as [[e' rest]|]; [|done].
    destruct IH as (H1 & H2 & H3). split; [done|]. split; [lia|done].
Qed.

(** A batch of transitions that is full leaves those behind its last one. *)
Lemma transitions_in_drop level p limit m :
  match last (take m (transitions_in level p limit)) with
  | Some e => p < sample e < limit /\
      transitions_in level p limit = take m (transitions_in level p limit) ++
        (if (length (transitions_in level p limit) <? m)%nat then []
         else transitions_in level (sample e) limit)
  | None => (m = 0)%nat \/ transitions_in level p limit = []
  end.
Proof.
  remember (Z.to_nat (limit - p)) as d eqn:Hd. revert p m Hd.
  induction (lt_wf d) as [d _ IH]. intros p [|m] Hd; [by left|].
  destruct (transitions_in level p limit) as [|e es] eqn:Hes; [by right|]. cbn [take].
  assert (He : p < sample e < limit /\ es = transitions_in level (sample e) limit).
  { unfold transitions_in in Hes. clear IH.
    destruct (List.filter (changes_at level) (positions p limit)) as [|x xs] eqn:Hf; [done|].
    injection Hes as <- <-. cbn [sample].
    assert (Hx : p < x < limit).
    { apply positions_In. apply (proj1 (filter_In (changes_at level) x (positions p limit))).
      rewrite Hf. by left. }
    split; [done|]. unfold transitions_in. f_equal. rewrite (positions_split p x) in Hf by done.
    rewrite List.filter_app in Hf. cbn [List.filter] in Hf.
    destruct (List.filter (changes_at level) (positions p x)) as [|y ys] eqn:Hpre.
    - cbn in Hf. destruct (changes_at level x); [by injection Hf as <-|].
      assert (Hin : In x (List.filter (changes_at level) (positions x limit))) by (rewrite Hf; by left).
      apply filter_In in Hin as [Hin%positions_In _]. lia.
    - injection Hf as -> _.
      assert (Hin : In x (List.filter (changes_at level) (positions p x))) by (rewrite Hpre; by left).
      apply filter_In in Hin as [Hin%positions_In _]. lia. }
  destruct He as [He Hrest]. specialize (IH (Z.to_nat (limit - sample e)) ltac:(lia) (sample e) m eq_refl).
  rewrite <- Hrest in IH. cbn [length]. change (S (length es) <? S m)%nat with (length es <? m)%nat.
  destruct (take m es) as [|e1 l1] eqn:Htake.
  - cbn. split; [done|]. f_equal. destruct es as [|e2 es]; [by destruct m|].
    destruct m; [|done]. by rewrite <- Hrest.
  - change (last (e :: e1 :: l1)) with (last (e1 :: l1)). destruct (last (e1 :: l1)) as [e'|] eqn:Hlast.
    + destruct IH as [H1 H2]. split; [lia|]. change (e :: es = e :: ((e1 :: l1) ++
        (if (length es <? m)%nat then [] else transitions_in level (sample e') limit))). by f_equal.
    + by apply last_None in Hlast.
Qed.

(** The chip-select windows of a level's transitions: start, end, and whether the end is seen;
    [start] is that of a window already open. *)
Fixpoint windows_of (active : bool) (total : Z) (ends_seen : bool) (start : option Z)
    (es : list CaptureTransition) : list (Z * Z * bool) :=
  match es with
  | [] => match start with Some s => [(s, total, ends_seen)] | None => [] end
  | e :: es =>
      match start with
      | None =>
          if Bool.eqb (edge_value e) active then windows_of active total ends_seen (Some (sample e)) es
          else windows_of active total ends_seen None es
      | Some s =>
          if Bool.eqb (edge_value e) (negb active)
          then (s, sample e, true) :: windows_of active total ends_seen None es
          else windows_of active total ends_seen (Some s) es
      end
  end.

Lemma windows_of_closed active total seen es :
  windows_of active total seen None es =
    match find_split (fun e => Bool.eqb (edge_value e) active) es with
    | Some (e, rest) => windows_of active total seen (Some (sample e)) rest
    | None => []
    end.
Proof. induction es as [|e es IH]; [done|]. cbn. by destruct (Bool.eqb _ _). Qed.

Lemma windows_of_open active total seen s es :
  windows_of active total seen (Some s) es =
    match find_split (fun e => Bool.eqb (edge_value e) (negb active)) es with
    | Some (e, rest) => (s, sample e, true) :: windows_of active total seen None rest
    | None => [(s, total, seen)]
    end.
Proof. induction es as [|e es IH]; [done|]. cbn. by destruct (Bool.eqb _ _). Qed.

(** ** Batches *)

Definition line_app {A} (l1 l2 : Line (list A)) : Line (list A) :=
  mkLine (line_words l1 ++ line_words l2) (line_bits l1 ++ line_bits l2) (line_data l1 ++ line_data l2).

Definition batches_app (b1 b2 : Batches) : Batches :=
  mkBatches (line_app (mosi_batch b1) (mosi_batch b2)) (line_app (miso_batch b1) (miso_batch b2))
    (transaction_batch b1 ++ transaction_batch b2) (words_emitted b1 + words_emitted b2).

Lemma line_app_nil_r {A} (l : Line (list A)) : line_app l (mkLine [] [] []) = l.
Proof. destruct l. unfold line_app. cbn. by rewrite !app_nil_r. Qed.

Lemma line_app_assoc {A} (l1 l2 l3 : Line (list A)) :
  line_app l1 (line_app l2 l3) = line_app (line_app l1 l2) l3.
Proof. unfold line_app. cbn. by rewrite !app_assoc. Qed.

Lemma batches_app_nil_r b : batches_app b no_batches = b.
Proof.
  destruct b. unfold batches_app, no_batches, no_words. cbn.
  by rewrite !line_app_nil_r, app_nil_r, Z.add_0_r.
Qed.

Lemma batches_app_nil_l b : batches_app no_batches b = b.
Proof. by destruct b as [[] [] t n]. Qed.

Lemma batches_app_assoc b1 b2 b3 :
  batches_app b1 (batches_app b2 b3) = batches_app (batches_app b1 b2) b3.
Proof. unfold batches_app. cbn. by rewrite !line_app_assoc, app_assoc, Z.add_assoc. Qed.

Lemma batches_app_packets b ps :
  batches_app b (mkBatches no_words no_words ps 0) =
    mkBatches (mosi_batch b) (miso_batch b) (transaction_batch b ++ ps) (words_emitted b).
Proof. destruct b. unfold batches_app, no_words. cbn. by rewrite !line_app_nil_r, Z.add_0_r. Qed.

Lemma push_word_app has ports value timestamp duration bits timestamps b :
  push_word has ports value timestamp duration bits timestamps b =
    line_app b (push_word has ports value timestamp duration bits timestamps no_words).
Proof.
  unfold push_word, line_app. destruct (spi_word_annotations timestamps value bits) as [[an d]|];
    destruct (_ && _); cbn; by rewrite ?app_nil_r.
Qed.

Lemma complete_word_app c o f e a b :
  complete_word c o f e a b = batches_app b (complete_word c o f e a no_batches).
Proof.
  unfold complete_word, batches_app. cbn.
  rewrite (push_word_app (has_mosi c)), (push_word_app (has_miso c)), app_nil_r. done.
Qed.

(** The outputs of a decoder all of whose ports are connected. *)
Definition all_ports : Outputs :=
  mkOutputs (mkLine open_port open_port open_port) (mkLine open_port open_port open_port) open_port.

Definition connected_line (l : Line (option (Sender Word))) : Prop :=
  is_Some (line_words l) /\ is_Some (line_bits l) /\ is_Some (line_data l).

Definition connected_outputs (o : Outputs) : Prop :=
  connected_line (mosi_ports o) /\ connected_line (miso_ports o).

Lemma annotates_connected has l : connected_line l -> annotates has l = has.
Proof.
  intros (_ & H & _). unfold annotates. rewrite bool_decide_true by done. by destruct has.
Qed.

Lemma push_word_connected has l l' value timestamp duration bits timestamps b :
  connected_line l -> connected_line l' ->
  push_word has l value timestamp duration bits timestamps b =
  push_word has l' value timestamp duration bits timestamps b.
Proof. intros (H & _) (H' & _). unfold push_word. by rewrite !bool_decide_true. Qed.

Lemma all_ports_connected : connected_outputs all_ports.
Proof. by repeat split; eexists. Qed.

Lemma complete_word_connected c o f e a b :
  connected_outputs o -> complete_word c o f e a b = complete_word c all_ports f e a b.
Proof.
  intros [H1 H2]. destruct all_ports_connected as [H1' H2']. unfold complete_word.
  by rewrite (push_word_connected _ _ (mosi_ports all_ports)),
    (push_word_connected _ (miso_ports o) (miso_ports all_ports)).
Qed.

(** ** Samples and windows *)

Section Decode.
Context (c : SpiConfig) (step : Z) (lclk lmosi lmiso : Z -> bool).
Hypothesis Hbits : 1 <= bits_per_word c.

Definition word_size : nat := Z.to_nat (bits_per_word c).
Definition time (position : Z) : Z := saturating_mul64 position step.

(** A sample: the position in front of a clock edge, with the levels of the data lines there. *)
Abbreviation Taken := (Z * option bool * option bool)%type (only parsing).

Definition sample_at (position : Z) : Taken :=
  (position, if has_mosi c then Some (lmosi position) else None,
   if has_miso c then Some (lmiso position) else None).

(** The samples of a window, or of its part behind a position. *)
Definition samples_in (p window_end : Z) : list Taken :=
  map sample_at (sample_positions c (transitions_in lclk p window_end)).

Definition add_sample (a : Assembly) (x : Taken) : Assembly :=
  let '(p, m, s) := x in
  add_bit c (has_mosi c) (has_miso c) time (saturating_add64 p 1) m s a.

Definition assembled (group : list Taken) : Assembly := fold_left add_sample group no_bits.

Definition edge_of (x : Taken) : Z := saturating_add64 (fst (fst x)) 1.

(** What the last sample of a group sends. *)
Definition group_batches (group : list Taken) : Batches :=
  complete_word c all_ports time (from_option edge_of 0 (last group)) (assembled group) no_batches.

Definition groups_batches (groups : list (list Taken)) : Batches :=
  fold_right (fun g b => batches_app (group_batches g) b) no_batches groups.

Definition group_words (has : bool) (select : Assembly -> Z) (groups : list (list Taken)) : list Z :=
  if has then map (fun g => select (assembled g)) groups else [].

Lemma groups_batches_app g1 g2 :
  groups_batches (g1 ++ g2) = batches_app (groups_batches g1) (groups_batches g2).
Proof.
  unfold groups_batches. induction g1 as [|g g1 IH]; cbn; [by rewrite batches_app_nil_l|].
  by rewrite IH, batches_app_assoc.
Qed.

Lemma group_words_app has select g1 g2 :
  group_words has select (g1 ++ g2) = group_words has select g1 ++ group_words has select g2.
Proof. unfold group_words. destruct has; [apply map_app|done]. Qed.

Lemma assembled_collected group : bits_collected (assembled group) = zlen group.
Proof.
  unfold assembled, zlen. induction group as [|x group IH] using rev_ind; [done|].
  rewrite fold_left_app, length_app. destruct x as [[p m] s]. cbn. rewrite IH. lia.
Qed.

Definition set_words (q : QueryState) (rest : list Taken) (groups : list (list Taken)) : QueryState :=
  mkQueryState (query_cs_position q) (query_window_end q) (query_clk_position q) (assembled rest)
    (query_transaction_start q)
    (transaction_mosi_words q ++ group_words (has_mosi c) mosi_word groups)
    (transaction_miso_words q ++ group_words (has_miso c) miso_word groups)
    (query_window_deasserted q).

(** The loop over samples cuts them into groups and keeps what is left over as the word under way. *)
Lemma take_samples o xs : connected_outputs o -> forall g q b,
  (length g < word_size)%nat -> assembly q = assembled g ->
  fold_left (fun qb x => take_sample c o time x qb) xs (q, b) =
    let '(groups, rest) := chunks word_size g xs in
    (set_words q rest groups, batches_app b (groups_batches groups)).
Proof.
  intros Ho. induction xs as [|x xs IH]; intros g q b Hg Ha.
  { cbn. rewrite batches_app_nil_r. destruct q as [? ? ? a ? tm ts ?]. unfold set_words, group_words.
    cbn in *. subst a. by destruct (has_mosi c), (has_miso c); rewrite ?app_nil_r. }
  cbn [fold_left chunks]. destruct x as [[p m] s]. unfold take_sample at 2.
  destruct Ho as [Hm Hs]. rewrite !annotates_connected by done.
  assert (Hadd : add_bit c (has_mosi c) (has_miso c) time (saturating_add64 p 1) m s (assembly q)
    = assembled (g ++ [(p, m, s)])) by (rewrite Ha; unfold assembled; by rewrite fold_left_app).
  rewrite Hadd, assembled_collected.
  assert (Hlen : length (g ++ [(p, m, s)]) = S (length g)) by (rewrite length_app; cbn; lia).
  unfold zlen. rewrite Hlen. destruct (Nat.ltb_spec (S (length g)) word_size) as [Hlt|Hge].
  - rewrite (proj2 (Z.ltb_lt _ _)) by (unfold word_size in Hlt; lia).
    rewrite (IH (g ++ [(p, m, s)])) by (rewrite ?Hlen; done). by destruct (chunks word_size (g ++ [(p, m, s)]) xs).
  - rewrite (proj2 (Z.ltb_ge _ _)) by (unfold word_size in Hge; lia).
    rewrite (IH []) by (done || (unfold word_size; cbn; lia)).
    destruct (chunks word_size [] xs) as [groups rest]. f_equal.
    + unfold set_words, group_words. cbn. destruct (has_mosi c), (has_miso c); by rewrite <- ?app_assoc.
    + rewrite complete_word_connected, complete_word_app by done. rewrite <- batches_app_assoc.
      f_equal. unfold groups_batches at 2. cbn [fold_right]. f_equal.
      unfold group_batches. by rewrite last_snoc.
Qed.

(** What a window still sends, from a clock position, a word under way and the words so far. *)
Definition window_batches (start window_end : Z) (deasserted : bool) (p : Z) (g : list Taken)
    (tm ts : list Z) : Batches :=
  let '(groups, rest) := chunks word_size g (samples_in p window_end) in
  batches_app (groups_batches groups)
    (mkBatches no_words no_words
      [spi_transaction_packet (mkTransaction start window_end (time start) (time window_end)
        (bits_per_word c) (tm ++ group_words (has_mosi c) mosi_word groups)
        (ts ++ group_words (has_miso c) miso_word groups) (has_mosi c) (has_miso c) (zlen rest)
        deasserted)] 0).

Definition windows_batches (ws : list (Z * Z * bool)) : Batches :=
  fold_right (fun '(start, window_end, deasserted) b =>
    batches_app (window_batches start window_end deasserted start [] [] []) b) no_batches ws.
End Decode.

(** ** The decoder's run *)

(** A store of sampling points that takes every batch. *)
Class ReliableStore (P : Type) `{SamplingStore P} : Prop := {
  record_reliable b p : fst (record_packed_batch b p) = Ok tt;
  finish_reliable p : fst (finish_points p) = Ok tt
}.

(** The query of a data line: there is one exactly when the decoder has the line, it answers, and
    it is as long as the chip select's. *)
Definition line_ok (has : bool) (q : option EdgeQuery) (level : Z -> bool) (total : Z) : Prop :=
  if has then exists line, q = Some line /\ Answers line level /\ total <= total_samples line
  else q = None.

Lemma line_values_spec has q level total ps :
  line_ok has q level total -> (forall p, In p ps -> 0 <= p < total) ->
  line_values q ps = Ok (map (fun p => if has then Some (level p) else None) ps).
Proof.
  unfold line_ok, line_values. destruct has; [|by intros ->].
  intros (line & -> & Hq & Ht) Hps.
  rewrite (values_at_spec line level ps) by (intros p Hp; specialize (Hps p Hp); lia). cbn. by rewrite map_map.
Qed.

Section Run.
Context {P : Type} `{ReliableStore P}.
Context (c : SpiConfig) (cs clk : EdgeQuery) (qm qs : option EdgeQuery).
Context (lcs lclk lmosi lmiso : Z -> bool) {Hcs : Answers cs lcs} {Hclk : Answers clk lclk}.
Hypothesis Hbits : 1 <= bits_per_word c.
Hypothesis Htotal : 0 < total_samples cs < u64_max.
Hypothesis Hlong : total_samples cs <= total_samples clk.
Hypothesis Hmosi : line_ok (has_mosi c) qm lmosi (total_samples cs).
Hypothesis Hmiso : line_ok (has_miso c) qs lmiso (total_samples cs).

Abbreviation total := (total_samples cs).
Abbreviation step := (timestamp_step cs).
Abbreviation samples_in := (samples_in c lclk lmosi lmiso).
Abbreviation assembled := (assembled c step).
Abbreviation groups_batches := (groups_batches c step).
Abbreviation window_batches := (window_batches c step lclk lmosi lmiso).
Abbreviation windows_batches := (windows_batches c step lclk lmosi lmiso).
Abbreviation set_words := (set_words c step).

Definition transitions_of (p limit : Z) : list CaptureTransition := transitions_in lclk p limit.

Lemma transition_In p limit e : In e (transitions_in lclk p limit) -> p < sample e < limit.
Proof.
  unfold transitions_in. intros (x & <- & Hx)%in_map_iff. apply filter_In in Hx as [Hx _].
  by apply positions_In in Hx.
Qed.

Lemma sample_positions_In p limit es x :
  0 <= p -> limit <= total -> (forall e, In e es -> p < sample e < limit) ->
  In x (sample_positions c es) -> 0 <= x < total.
Proof.
  intros Hp Hl Hes Hx. unfold sample_positions in Hx. apply in_map_iff in Hx as (e & <- & He).
  apply filter_In in He as [He _]. specialize (Hes e He). rewrite saturating_sub64_small by lia. lia.
Qed.

Lemma sample_positions_app es1 es2 :
  sample_positions c (es1 ++ es2) = sample_positions c es1 ++ sample_positions c es2.
Proof. unfold sample_positions. by rewrite List.filter_app, map_app. Qed.

Lemma zip_samples (f g : Z -> option bool) ps :
  zip (zip ps (map f ps)) (map g ps) = map (fun p => (p, f p, g p)) ps.
Proof. induction ps as [|p ps IH]; [done|]. cbn. by rewrite <- IH. Qed.

(** The decoder between two turns: what differs is the query state, the store and the outputs. *)
Definition same_node (s s' : SpiDecoder P) : Prop :=
  config s' = config s /\ outputs s' = outputs s /\ tx_count s' = tx_count s /\
  prev_clk s' = prev_clk s /\ SpiDecoder.cs s' = SpiDecoder.cs s /\ SpiDecoder.clk s' = SpiDecoder.clk s /\
  mosi s' = mosi s /\ miso s' = miso s.

Lemma record_points_spec points s :
  exists s', record_points points s = (Ok tt, s') /\ same_node s s' /\ query_state s' = query_state s.
Proof.
  unfold record_points. destruct (sampling_points s) as [store|]; [|by exists s].
  destruct (has_provider store); [by exists s|].
  pose proof (record_reliable points store) as Hr. destruct (record_packed_batch points store) as [res st].
  cbn in Hr. subst res. eexists. split; [done|]. by repeat split.
Qed.

Lemma moved_clock_eq es q :
  moved_clock es q = mkQueryState (query_cs_position q) (query_window_end q)
    (match last es with Some e => sample e | None => query_clk_position q end) (assembly q)
    (query_transaction_start q) (transaction_mosi_words q) (transaction_miso_words q)
    (query_window_deasserted q).
Proof. unfold moved_clock. destruct (last es); [done|]. by destruct q. Qed.

(** A batch either closes its window, having sent what was left of it, or moves the clock on. *)
Lemma decode_batch_spec budget start window_end se b s k g :
  config s = c -> connected_outputs (outputs s) ->
  query_clk_position (query_state s) = k -> 0 <= k < window_end -> window_end <= total ->
  assembly (query_state s) = assembled g -> (length g < word_size c)%nat ->
  let q := query_state s in
  let due k g tm ts := window_batches start window_end (query_window_deasserted q) k g tm ts in
  exists sent s' n, decode_batch budget cs clk qm qs start window_end se b s =
      (Ok (n, batches_app b sent), s') /\ same_node s s' /\
    ((query_state s' = mkQueryState window_end None (query_clk_position (query_state s')) no_bits None [] []
        (query_window_deasserted q) /\ sent = due k g (transaction_mosi_words q) (transaction_miso_words q)) \/
     (exists k' g' groups, k < k' < window_end /\ (length g' < word_size c)%nat /\
        query_state s' = set_words (mkQueryState (query_cs_position q) (query_window_end q) k' (assembly q)
          (query_transaction_start q) (transaction_mosi_words q) (transaction_miso_words q)
          (query_window_deasserted q)) g' groups /\
        due k g (transaction_mosi_words q) (transaction_miso_words q) =
          batches_app sent (due k' g' (transaction_mosi_words (query_state s'))
            (transaction_miso_words (query_state s'))))).
Proof.
  intros Hc Ho Hk Hkw Hw Ha Hg q due. unfold decode_batch. rewrite Hc, Hk.
  set (max := Z.max _ 2).
  rewrite next_edges_spec with (level := lclk) by (done || lia). cbn [lift_with lift].
  set (es := transitions_in lclk k window_end). set (raw := take (Z.to_nat max) es).
  assert (Hraw : forall e, In e raw -> k < sample e < window_end).
  { intros e He. apply transition_In. fold es. rewrite <- (take_drop (Z.to_nat max) es).
    apply in_app_iff. by left. }
  assert (Hps : forall p, In p (sample_positions c raw) -> 0 <= p < total).
  { intros p. apply (sample_positions_In k window_end); [lia..|done]. }
  rewrite (line_values_spec (has_mosi c) qm lmosi total) by done. cbn [lift_with lift].
  rewrite (line_values_spec (has_miso c) qs lmiso total) by done. cbn [lift_with lift].
  rewrite zip_samples. fold (sample_at c lmosi lmiso).
  change (position_to_ns cs) with (time step).
  set (s0 := set_query_state (moved_clock raw (query_state s)) s).
  assert (Hs0 : connected_outputs (outputs s0) /\ assembly (query_state s0) = assembled g).
  { split; [done|]. cbn. unfold moved_clock. by destruct (last raw). }
  destruct Hs0 as [Ho0 Ha0].
  pose proof (moved_clock_eq raw (query_state s)) as Hq0. fold q in Hq0.
  change (moved_clock raw q) with (query_state s0) in Hq0.
  rewrite (take_samples c step Hbits _ _ Ho0 g) by done.
  destruct (chunks (word_size c) g (map _ (sample_positions c raw))) as [groups rest] eqn:Hch.
  destruct (record_points_spec (map (fun '(p, m, v) => sampling_point (time step (saturating_add64 p 1))
    (samples_on_rising c) m v) (map (sample_at c lmosi lmiso) (sample_positions c raw)))
    (set_query_state (set_words (query_state s0) rest groups) s0)) as (s1 & -> & Hn & Hq).
  assert (Hrest : (length rest < word_size c)%nat).
  { pose proof (edge_chunks_spec (word_size c) g (map (sample_at c lmosi lmiso) (sample_positions c raw)) Hg) as Hs.
    rewrite Hch in Hs. apply Hs. }
  cbn [query_state set_query_state] in Hq. rewrite Hq0 in Hq. rewrite Hq. clear Hq0.
  destruct (Z.ltb_spec (zlen raw) max) as [Hlt|Hge]; cbn [close_window].
  - assert (Hall : raw = es).
    { unfold raw. apply take_ge. unfold zlen, raw in Hlt. rewrite length_take in Hlt. lia. }
    exists (due k g (transaction_mosi_words q) (transaction_miso_words q)).
    eexists _, _. split.
    { unfold due, window_batches, samples_in. fold es. rewrite <- Hall, Hch.
      rewrite batches_app_assoc, batches_app_packets. unfold set_words. cbn. rewrite assembled_collected. reflexivity. }
    split; [exact Hn|by left].
  - exists (groups_batches groups).
    assert (Hfull : (Z.to_nat max <= length es)%nat).
    { unfold zlen, raw in Hge. rewrite length_take in Hge. lia. }
    pose proof (transitions_in_drop lclk k window_end (Z.to_nat max)) as Hdrop. fold es raw in Hdrop.
    destruct (last raw) as [e|] eqn:Hlast.
    2: { destruct Hdrop as [?|Hes]; [lia|]. rewrite Hes in Hfull. cbn in Hfull. lia. }
    destruct Hdrop as [He Hes]. rewrite (proj2 (Nat.ltb_ge _ _) Hfull) in Hes.
    eexists _, _. split; [done|]. split; [exact Hn|]. right.
    exists (sample e), rest, groups. split; [done|]. split; [done|].
    cbn [query_state set_query_state]. split; [done|].
    unfold due, window_batches, samples_in. fold es. rewrite Hes, sample_positions_app, map_app, chunks_app, Hch.
    cbn. destruct (chunks _ rest _) as [groups2 rest2].
    rewrite groups_batches_app, !group_words_app, <- !batches_app_assoc, !app_assoc. done.
Qed.
(** *** Windows *)

Definition ends_seen : bool := match cs_polarity c with Disabled => true | _ => false end.

Definition windows_from (start : option Z) (p : Z) : list (Z * Z * bool) :=
  windows_of (active_value c) total ends_seen start (transitions_in lcs p total).

(** The windows behind a position; one that is open from the beginning counts. *)
Definition windows_behind (p : Z) : list (Z * Z * bool) :=
  windows_from (if (p =? 0) && Bool.eqb (lcs 0) (active_value c) then Some 0 else None) p.

Lemma windows_from_open start :
  0 <= start < total ->
  exists e seen, start < e <= total /\
    windows_from (Some start) start = (start, e, seen) :: windows_from None e /\
    match next_edge_with_value cs start (negb (active_value c)) total with
    | None => False
    | Some (Err _) => False
    | Some (Ok (Some edge)) => e = sample edge /\ seen = true
    | Some (Ok None) => e = total /\ seen = ends_seen
    end.
Proof.
  intros Hs. unfold windows_from at 1. rewrite windows_of_open.
  pose proof (next_edge_with_value_split cs lcs start (negb (active_value c)) total ltac:(lia) (Z.le_refl _)) as H1.
  destruct (find_split _ _) as [[e rest]|].
  - destruct H1 as (-> & He & -> & _). exists (sample e), true. split; [lia|]. by split.
  - rewrite H1. exists total, ends_seen. split; [lia|]. split; [|done].
    unfold windows_from, transitions_in. by rewrite positions_nil by lia.
Qed.

Lemma find_window_spec p :
  0 <= p <= total ->
  exists r, find_window c cs p = Some (Ok r) /\
    match r with
    | None => windows_behind p = []
    | Some (start, window_end, deasserted) => p <= start < window_end /\ window_end <= total /\
        windows_behind p = (start, window_end, deasserted) :: windows_from None window_end
    end.
Proof.
  intros Hp. unfold find_window, windows_behind.
  destruct (Z.leb_spec total p) as [Hge|Hlt].
  { exists None. split; [done|]. rewrite (proj2 (Z.eqb_neq p 0)) by lia.
    unfold windows_from, transitions_in. by rewrite positions_nil by lia. }
  assert (Hclose : forall start, p <= start < total -> exists r,
    match next_edge_with_value cs start (negb (active_value c)) total with
    | None => None
    | Some (Err e) => Some (Err e)
    | Some (Ok (Some edge)) => Some (Ok (Some (start, sample edge, true)))
    | Some (Ok None) => Some (Ok (Some (start, total, match cs_polarity c with Disabled => true | _ => false end)))
    end = Some (@Ok string _ (Some r)) /\
    let '(st, window_end, deasserted) := r in st = start /\ start < window_end <= total /\
      windows_from (Some start) start = (start, window_end, deasserted) :: windows_from None window_end).
  { intros start Hs. destruct (windows_from_open start ltac:(lia)) as (e & seen & He & Hw & Hn).
    destruct (next_edge_with_value _ _ _ _) as [[[edge|]|]|]; try done; destruct Hn as [-> ->];
      eexists; (split; [done|]); by split. }
  assert (Hsearch : exists r,
    match next_edge_with_value cs p (active_value c) total with
    | None => None
    | Some (Err e) => Some (Err e)
    | Some (Ok None) => Some (Ok None)
    | Some (Ok (Some edge)) =>
        match next_edge_with_value cs (sample edge) (negb (active_value c)) total with
        | None => None
        | Some (Err e) => Some (Err e)
        | Some (Ok (Some edge')) => Some (Ok (Some (sample edge, sample edge', true)))
        | Some (Ok None) => Some (Ok (Some (sample edge, total,
            match cs_polarity c with Disabled => true | _ => false end)))
        end
    end = Some (@Ok string _ r) /\
    match r with
    | None => windows_from None p = []
    | Some (start, window_end, deasserted) => p <= start < window_end /\ window_end <= total /\
        windows_from None p = (start, window_end, deasserted) :: windows_from None window_end
    end).
  { pose proof (windows_of_closed (active_value c) total ends_seen (transitions_in lcs p total)) as Hw0.
    fold (windows_from None p) in Hw0. rewrite Hw0. clear Hw0.
    pose proof (next_edge_with_value_split cs lcs p (active_value c) total ltac:(lia) (Z.le_refl _)) as H1.
    destruct (find_split _ _) as [[e rest]|]; [|rewrite H1; by exists None].
    destruct H1 as (-> & He & -> & _).
    destruct (Hclose (sample e) ltac:(lia)) as ([[st we] d] & -> & -> & Hwe & Hw).
    exists (Some (sample e, we, d)). split; [done|]. split; [lia|]. split; [lia|]. exact Hw. }
  destruct (Z.eqb_spec p 0) as [->|Hne]; cbn [andb].
  - rewrite answers_value by lia. destruct (Bool.eqb (lcs 0) (active_value c)); [|exact Hsearch].
    destruct (Hclose 0 ltac:(lia)) as ([[st we] d] & -> & -> & Hwe & Hw).
    exists (Some (0, we, d)). split; [done|]. split; [lia|]. split; [lia|]. exact Hw.
  - exact Hsearch.
Qed.
(** *** The loop *)

(** What the decoder still sends from a query state. *)
Inductive left_over (q : QueryState) : Batches -> Prop :=
| left_closed : query_window_end q = None -> 0 <= query_cs_position q <= total ->
    assembly q = no_bits -> left_over q (windows_batches (windows_behind (query_cs_position q)))
| left_open start window_end g : query_window_end q = Some window_end ->
    query_transaction_start q = Some start -> 0 <= query_clk_position q < window_end ->
    window_end <= total -> (length g < word_size c)%nat -> assembly q = assembled g ->
    left_over q (batches_app
      (window_batches start window_end (query_window_deasserted q) (query_clk_position q) g
         (transaction_mosi_words q) (transaction_miso_words q))
      (windows_batches (windows_from None window_end))).

Definition distance (q : QueryState) : nat :=
  match query_window_end q with
  | None => S (2 * Z.to_nat (total - query_cs_position q))
  | Some _ => 2 * Z.to_nat (total - query_clk_position q)
  end.

Lemma windows_batches_cons start window_end d ws :
  windows_batches ((start, window_end, d) :: ws) =
    batches_app (window_batches start window_end d start [] [] []) (windows_batches ws).
Proof. done. Qed.

Lemma windows_behind_positive p : 0 < p -> windows_behind p = windows_from None p.
Proof. intros Hp. unfold windows_behind. by rewrite (proj2 (Z.eqb_neq _ _)) by lia. Qed.

Lemma same_node_trans s1 s2 s3 : same_node s1 s2 -> same_node s2 s3 -> same_node s1 s3.
Proof. unfold same_node. intros H1 H2. intuition congruence. Qed.

Lemma word_size_positive : (0 < word_size c)%nat.
Proof. unfold word_size. lia. Qed.

(** One batch inside an open window. *)
Lemma decode_step budget start window_end se b s g :
  config s = c -> connected_outputs (outputs s) -> let q := query_state s in
  query_window_end q = Some window_end -> query_transaction_start q = Some start ->
  0 <= query_clk_position q < window_end -> window_end <= total ->
  assembly q = assembled g -> (length g < word_size c)%nat ->
  exists sent s' n rest, decode_batch budget cs clk qm qs start window_end se b s =
      (Ok (n, batches_app b sent), s') /\ same_node s s' /\
    left_over (query_state s') rest /\ (distance (query_state s') < distance q)%nat /\
    batches_app (window_batches start window_end (query_window_deasserted q) (query_clk_position q) g
      (transaction_mosi_words q) (transaction_miso_words q))
      (windows_batches (windows_from None window_end)) = batches_app sent rest.
Proof.
  intros Hc Ho q Hwe Hst Hk Hw Ha Hg.
  destruct (decode_batch_spec budget start window_end se b s (query_clk_position q) g Hc Ho eq_refl Hk Hw Ha Hg)
    as (sent & s' & n & Hd & Hn & [[Hq Hs]|(k & g' & groups & Hkk & Hg' & Hq & Hdue)]).
  - exists sent, s', n, (windows_batches (windows_from None window_end)). split; [done|]. split; [done|].
    rewrite Hq. split; [|split].
    + rewrite <- windows_behind_positive by lia. apply left_closed; [done|cbn; lia|done].
    + unfold distance. rewrite Hwe. cbn [query_window_end query_cs_position]. lia.
    + by rewrite Hs.
  - eexists sent, s', n, _. split; [done|]. split; [done|]. split; [|split].
    + apply (left_open _ start window_end g'); rewrite ?Hq; cbn; try done. lia.
    + rewrite Hq. unfold distance. cbn. fold q. rewrite Hwe. unfold q in *. lia.
    + fold q in Hdue. rewrite Hdue, <- batches_app_assoc. rewrite Hq. cbn. done.
Qed.

Lemma indexed_loop_spec budget fuel : forall se b s due,
  config s = c -> connected_outputs (outputs s) -> left_over (query_state s) due ->
  (distance (query_state s) < fuel)%nat ->
  exists ended sent s' rest,
    indexed_loop budget cs clk qm qs fuel se b s = Some (Ok (ended, batches_app b sent), s') /\
    same_node s s' /\ left_over (query_state s') rest /\ due = batches_app sent rest /\
    (distance (query_state s') <= distance (query_state s))%nat /\
    (ended = true -> rest = no_batches) /\
    (ended = false -> se < budget -> (distance (query_state s') < distance (query_state s))%nat).
Proof.
  induction fuel as [|fuel IH]; intros se b s due Hc Ho Hdue Hf; [lia|]. cbn [indexed_loop].
  destruct (Z.ltb_spec se budget) as [Hse|Hse]; cbn [negb].
  2: { exists false, no_batches, s, due. rewrite batches_app_nil_r, batches_app_nil_l.
       split; [done|]. split; [by repeat split|]. repeat split; try done; lia. }
  assert (Hbatch : forall start window_end g s1, same_node s s1 ->
    query_window_end (query_state s1) = Some window_end ->
    query_transaction_start (query_state s1) = Some start ->
    0 <= query_clk_position (query_state s1) < window_end -> window_end <= total ->
    assembly (query_state s1) = assembled g -> (length g < word_size c)%nat ->
    (distance (query_state s1) <= distance (query_state s))%nat ->
    due = batches_app (window_batches start window_end (query_window_deasserted (query_state s1))
      (query_clk_position (query_state s1)) g (transaction_mosi_words (query_state s1))
      (transaction_miso_words (query_state s1))) (windows_batches (windows_from None window_end)) ->
    exists ended sent s' rest,
      match decode_batch budget cs clk qm qs start window_end se b s1 with
      | (Err e, s) => Some (Err e, s)
      | (Ok (sampling_edges, b), s) => indexed_loop budget cs clk qm qs fuel sampling_edges b s
      end = Some (Ok (ended, batches_app b sent), s') /\
      same_node s s' /\ left_over (query_state s') rest /\ due = batches_app sent rest /\
      (distance (query_state s') < distance (query_state s))%nat /\
      (ended = true -> rest = no_batches)).
  { intros start window_end g s1 Hn1 H1 H2 H3 H4 H5 H6 H7 Hd.
    destruct (decode_step budget start window_end se b s1 g) as (sent & s2 & n & rest & -> & Hn2 & Hl & Hdist & He);
      try done; [by destruct Hn1 as [-> _]|by destruct Hn1 as (_ & -> & _)|].
    assert (Hn : same_node s s2) by by apply (same_node_trans _ s1).
    destruct (IH n (batches_app b sent) s2 rest) as (ended & sent2 & s3 & rest2 & -> & Hn3 & Hl3 & Hr & Hd3 & He3 & _);
      [by destruct Hn as [-> _]|by destruct Hn as (_ & -> & _)|done|lia|].
    exists ended, (batches_app sent sent2), s3, rest2. rewrite batches_app_assoc. split; [done|].
    split; [by apply (same_node_trans _ s2)|]. split; [done|]. split; [|split; [lia|done]].
    by rewrite Hd, He, Hr, batches_app_assoc. }
  assert (Hweak : forall r, (exists ended sent s' rest, r = Some (Ok (ended, batches_app b sent), s') /\
      same_node s s' /\ left_over (query_state s') rest /\ due = batches_app sent rest /\
      (distance (query_state s') < distance (query_state s))%nat /\ (ended = true -> rest = no_batches)) ->
    exists ended sent s' rest, r = @Some (WorkResult (bool * Batches) * SpiDecoder P) (Ok (ended, batches_app b sent), s') /\
      same_node s s' /\ left_over (query_state s') rest /\ due = batches_app sent rest /\
      (distance (query_state s') <= distance (query_state s))%nat /\
      (ended = true -> rest = no_batches) /\
      (ended = false -> se < budget -> (distance (query_state s') < distance (query_state s))%nat)).
  { intros r (ended & sent & s' & rest & H1 & H2 & H3 & H4 & H5 & H6).
    exists ended, sent, s', rest. repeat (split; [done || lia|]). done. }
  destruct Hdue as [Hwe Hp Ha|start window_end g Hwe Hst Hk Hw Hg Ha].
  - rewrite Hwe, Hc. destruct (find_window_spec (query_cs_position (query_state s)) Hp) as (r & -> & Hr).
    destruct r as [[[start window_end] d]|].
    + destruct Hr as (H1 & H2 & H3). apply Hweak. apply (Hbatch start window_end []); try done; cbn.
      * lia.
      * apply word_size_positive.
      * unfold distance. rewrite Hwe. cbn. lia.
      * by rewrite H3, windows_batches_cons.
    + exists true, no_batches, s, no_batches. rewrite Hr, batches_app_nil_r.
      split; [done|]. split; [by repeat split|]. split; [|by repeat split].
      pose proof (left_closed _ Hwe Hp Ha) as Hl. by rewrite Hr in Hl.
  - rewrite Hwe, Hst. apply Hweak. by apply (Hbatch start window_end g).
Qed.
(** *** The node *)

(** Destination number [i] of every port outlives the node. *)
Definition plugged_line (i : nat) (l : Line (option (Sender Word))) : Prop :=
  plugged i (line_words l) /\ plugged i (line_bits l) /\ plugged i (line_data l).

Definition plugged_outputs (i : nat) (o : Outputs) : Prop :=
  plugged_line i (mosi_ports o) /\ plugged_line i (miso_ports o) /\ plugged i (transaction_port o).

Definition sent_line (i : nat) (l : Line (option (Sender Word))) : Line (list Word) :=
  mkLine (sent i (line_words l)) (sent i (line_bits l)) (sent i (line_data l)).

(** What the lines that the decoder has were sent, and the transactions. *)
Definition sent_after (has : bool) (before batch after : Line (list Word)) : Prop :=
  after = if has then line_app before batch else before.

Definition delivers (i : nat) (o o' : Outputs) (b : Batches) : Prop :=
  sent_after (has_mosi c) (sent_line i (mosi_ports o)) (mosi_batch b) (sent_line i (mosi_ports o')) /\
  sent_after (has_miso c) (sent_line i (miso_ports o)) (miso_batch b) (sent_line i (miso_ports o')) /\
  sent i (transaction_port o') = sent i (transaction_port o) ++ transaction_batch b.

Lemma send_if_spec {T} i present (values : list T) port :
  plugged i port ->
  exists port', send_if present values port = (Ok tt, port') /\ plugged i port' /\
    sent i port' = if present then sent i port ++ values else sent i port.
Proof.
  destruct port as [s|]; [|done]. intros Hp. unfold send_if. destruct present.
  - destruct (send_batch_attached i s values Hp) as (s' & -> & H1 & H2). by exists (Some s').
  - by exists (Some s).
Qed.

#[local] Arguments send_if : simpl never.

Lemma send_batches_spec i b o :
  plugged_outputs i o ->
  exists o', send_batches c b o = (Ok tt, o') /\ plugged_outputs i o' /\ delivers i o o' b.
Proof.
  destruct o as [[mw mb md] [sw sb sd] t]. intros ((H1 & H2 & H3) & (H4 & H5 & H6) & H7). cbn in *.
  unfold send_batches, zoom. cbn.
  destruct (send_if_spec i (has_mosi c) (line_words (mosi_batch b)) mw H1) as (mw' & -> & ? & E1). cbn.
  destruct (send_if_spec i (has_miso c) (line_words (miso_batch b)) sw H4) as (sw' & -> & ? & E2). cbn.
  destruct (send_if_spec i (has_mosi c) (line_bits (mosi_batch b)) mb H2) as (mb' & -> & ? & E3). cbn.
  destruct (send_if_spec i (has_mosi c) (line_data (mosi_batch b)) md H3) as (md' & -> & ? & E4). cbn.
  destruct (send_if_spec i (has_miso c) (line_bits (miso_batch b)) sb H5) as (sb' & -> & ? & E5). cbn.
  destruct (send_if_spec i (has_miso c) (line_data (miso_batch b)) sd H6) as (sd' & -> & ? & E6). cbn.
  destruct (send_if_spec i true (transaction_batch b) t H7) as (t' & -> & ? & E7). cbn.
  eexists. split; [done|]. split; [by repeat split|].
  unfold delivers, sent_after, sent_line, line_app. cbn. rewrite E1, E2, E3, E4, E5, E6, E7.
  by destruct (has_mosi c), (has_miso c).
Qed.

Lemma plugged_connected i o : plugged_outputs i o -> connected_outputs o.
Proof.
  assert (Hsome : forall T (p : option (Sender T)), plugged i p -> is_Some p) by by intros T [].
  intros ((H1 & H2 & H3) & (H4 & H5 & H6) & _). repeat split; eauto.
Qed.

Lemma delivers_app i o1 o2 o3 b1 b2 :
  delivers i o1 o2 b1 -> delivers i o2 o3 b2 -> delivers i o1 o3 (batches_app b1 b2).
Proof.
  unfold delivers, sent_after. intros (E1 & E2 & E3) (F1 & F2 & F3). rewrite F1, F2, F3, E1, E2, E3.
  destruct (has_mosi c), (has_miso c); cbn; by rewrite ?line_app_assoc, <- ?app_assoc.
Qed.

(** The decoder is connected to the queries of this section. *)
Definition spi_ready (i : nat) (s : SpiDecoder P) : Prop :=
  config s = c /\ plugged_outputs i (outputs s) /\
  edge_query (SpiDecoder.cs s) = Some cs /\ edge_query (SpiDecoder.clk s) = Some clk /\
  (if has_mosi c then edge_query (mosi s) = qm else True) /\
  (if has_miso c then edge_query (miso s) = qs else True).

Lemma spi_work_indexed budget i s :
  spi_ready i s -> spi_work_with budget s = work_indexed budget cs clk qm qs s.
Proof.
  intros (Hc & _ & H1 & H2 & H3 & H4). unfold spi_work_with. rewrite H1, H2, Hc.
  unfold line_ok in Hmosi, Hmiso. clear H1 H2.
  destruct (has_mosi c); [destruct Hmosi as (l1 & -> & _)|subst qm];
    (destruct (has_miso c); [destruct Hmiso as (l2 & -> & _)|subst qs]); by rewrite ?H3, ?H4.
Qed.

(** One call of the node's work: it sends a part of what is left, and moves on unless it ends. *)
Lemma work_indexed_spec budget i s due :
  0 < budget -> spi_ready i s -> left_over (query_state s) due ->
  (distance (query_state s) <= S (2 * Z.to_nat total))%nat ->
  exists res s' b rest, work_indexed budget cs clk qm qs s = (res, s') /\ spi_ready i s' /\
    left_over (query_state s') rest /\ due = batches_app b rest /\ delivers i (outputs s) (outputs s') b /\
    match res with
    | Ok _ => (distance (query_state s') < distance (query_state s))%nat
    | Err e => e = Shutdown /\ rest = no_batches
    end.
Proof.
  intros Hb (Hc & Ho & Hr) Hdue Hdist. unfold work_indexed.
  destruct (indexed_loop_spec budget (S (S (2 * Z.to_nat total))) 0 no_batches s due Hc
    (plugged_connected i _ Ho) Hdue ltac:(lia))
    as (ended & b & s1 & rest & -> & Hn & Hl & Hd & _ & Hend & Hlt).
  rewrite batches_app_nil_l. pose proof Hn as (Hc1 & Ho1 & _). rewrite Hc1, Hc. unfold zoom.
  destruct (send_batches_spec i b (outputs s1)) as (o' & -> & Ho' & Hs); [by rewrite Ho1|].
  rewrite Ho1 in Hs. eexists _, _, b, rest. split; [done|]. split.
  { destruct Hn as (N1 & N2 & N3 & N4 & N5 & N6 & N7 & N8). unfold spi_ready. cbn.
    rewrite N1, N5, N6, N7, N8. done. }
  split; [done|]. split; [done|]. split; [done|]. destruct ended; [by auto|].
  cbn. by apply Hlt.
Qed.

Lemma spi_run budget i fuel : forall s due n,
  0 < budget -> spi_ready i s -> left_over (query_state s) due ->
  (distance (query_state s) <= S (2 * Z.to_nat total))%nat -> (distance (query_state s) < fuel)%nat ->
  exists m s', run fuel (spi_outcome_with budget) s n = Some (Shutdown, m, s') /\
    delivers i (outputs s) (outputs s') due.
Proof.
  induction fuel as [|fuel IH]; intros s due n Hb Hs Hdue Hd Hf; [lia|]. cbn [run].
  destruct (work_indexed_spec budget i s due Hb Hs Hdue Hd)
    as (res & s1 & b & rest & Hw & Hs1 & Hl & Hdue' & Hdel & Hres).
  unfold spi_outcome_with. rewrite (spi_work_indexed budget i s Hs), Hw.
  destruct res as [k|e].
  - destruct (IH s1 rest (n + k)) as (m & s2 & Hrun & Hdel2); [done..|lia|lia|].
    exists m, s2. split; [exact Hrun|]. rewrite Hdue'. by apply (delivers_app i _ (outputs s1)).
  - destruct Hres as [-> ->]. rewrite batches_app_nil_r in Hdue'. subst b.
    destruct (sampling_points s1) as [store|]; [|by exists n, s1].
    pose proof (finish_reliable store) as Hfin. destruct (finish_points store) as [r st]. cbn in Hfin.
    subst r. eexists n, _. by split.
Qed.
End Run.

(** ** The words of a window *)

(** The value of bits received in a bit order. *)
Definition word_value (order : BitOrder) (bits : list bool) : Z :=
  match order with
  | MsbFirst => fold_left (fun w b => 2 * w + b2z b) bits 0
  | LsbFirst => fold_right (fun b w => b2z b + 2 * w) 0 bits
  end.

(** The bits put one after the other, from an index and a word on. *)
Fixpoint put_bits (c : SpiConfig) (index word : Z) (bits : list bool) : Z :=
  match bits with
  | [] => word
  | b :: bits => put_bits c (index + 1) (if b then set_bit word (bit_position c index) else word) bits
  end.

Lemma put_bits_app c index word bits1 bits2 :
  put_bits c index word (bits1 ++ bits2) = put_bits c (index + zlen bits1) (put_bits c index word bits1) bits2.
Proof.
  revert index word. induction bits1 as [|b bits1 IH]; intros index word; cbn [app put_bits].
  { unfold zlen. cbn. by rewrite Z.add_0_r. }
  rewrite IH, zlen_cons. f_equal. lia.
Qed.

(** A bit above or below all others is added. *)
Lemma lor_clear w k : 0 <= k -> Z.testbit w k = false -> Z.lor w (2 ^ k) = w + 2 ^ k.
Proof.
  intros Hk Hw.
  assert (Hland : Z.land w (2 ^ k) = 0).
  { apply Z.bits_inj'. intros i Hi. rewrite Z.land_spec, Z.bits_0, Z.pow2_bits_eqb by lia.
    destruct (Z.eqb_spec k i) as [<-|]; [by rewrite Hw|by rewrite andb_false_r]. }
  by rewrite <- Z.lxor_lor, Z.add_nocarry_lxor.
Qed.

Lemma lor_above w k : 0 <= k -> 0 <= w < 2 ^ k -> Z.lor w (2 ^ k) = w + 2 ^ k.
Proof.
  intros Hk Hw. apply lor_clear; [done|]. rewrite <- (Z.mod_small w (2 ^ k)) by done.
  apply Z.mod_pow2_bits_high. lia.
Qed.

Lemma lor_below w k : 0 <= k -> Z.lor (w * 2 ^ (k + 1)) (2 ^ k) = w * 2 ^ (k + 1) + 2 ^ k.
Proof. intros Hk. apply lor_clear; [done|]. apply Z.mul_pow2_bits_low. lia. Qed.

Lemma set_bit_small w k : 0 <= k < 64 -> set_bit w k = Z.lor w (2 ^ k).
Proof. intros Hk. unfold set_bit. by rewrite Z.mod_small, Z.shiftl_mul_pow2, Z.mul_1_l by lia. Qed.

Lemma lsb_range bits : 0 <= word_value LsbFirst bits < 2 ^ zlen bits.
Proof.
  induction bits as [|b bits IH]; [done|]. cbn [word_value fold_right] in *. rewrite zlen_cons, Z.pow_add_r by
    (pose proof (zlen_nonneg bits); lia). destruct b; cbn [b2z]; lia.
Qed.

Lemma lsb_snoc bits b :
  word_value LsbFirst (bits ++ [b]) = word_value LsbFirst bits + b2z b * 2 ^ zlen bits.
Proof.
  cbn [word_value]. induction bits as [|x bits IH]; cbn [app fold_right].
  { change (zlen (@nil bool)) with 0. change (2 ^ 0) with 1. lia. }
  rewrite IH, zlen_cons, Z.pow_add_r by (pose proof (zlen_nonneg bits); lia). lia.
Qed.

Lemma put_bits_value c bits :
  1 <= bits_per_word c <= 64 -> zlen bits <= bits_per_word c ->
  put_bits c 0 0 bits = match bit_order c with
    | MsbFirst => word_value MsbFirst bits * 2 ^ (bits_per_word c - zlen bits)
    | LsbFirst => word_value LsbFirst bits
    end.
Proof.
  intros Hc Hn. induction bits as [|b bits IH] using rev_ind; [by destruct (bit_order c)|].
  assert (Hlen : zlen (bits ++ [b]) = zlen bits + 1) by (rewrite zlen_app; unfold zlen; cbn; lia).
  pose proof (zlen_nonneg bits). rewrite Hlen in Hn. rewrite put_bits_app, IH, Hlen by lia. cbn [put_bits].
  rewrite Z.add_0_l. unfold bit_position. destruct (bit_order c).
  - cbn [word_value]. rewrite fold_left_app. cbn [fold_left].
    replace (bits_per_word c - zlen bits) with (bits_per_word c - (zlen bits + 1) + 1) by lia.
    set (k := bits_per_word c - (zlen bits + 1)). set (w := fold_left _ bits 0).
    destruct b; cbn [b2z].
    + rewrite (sub64_small (bits_per_word c) 1), sub64_small by (unfold u64; lia). rewrite as_u32_small by (unfold u32_max; lia).
      replace (bits_per_word c - 1 - zlen bits) with k by lia. rewrite set_bit_small by lia.
      rewrite lor_below by lia. rewrite Z.pow_add_r by lia. lia.
    + rewrite Z.pow_add_r by lia. lia.
  - rewrite lsb_snoc. destruct b; cbn [b2z]; [|lia].
    rewrite as_u32_small by (unfold u32_max; lia). rewrite set_bit_small by lia.
    rewrite lor_above by (lia || apply lsb_range). lia.
Qed.

Lemma put_bits_word c bits :
  1 <= bits_per_word c <= 64 -> zlen bits = bits_per_word c ->
  put_bits c 0 0 bits = word_value (bit_order c) bits.
Proof.
  intros Hc Hn. rewrite put_bits_value by lia. destruct (bit_order c); [|done].
  rewrite Hn, Z.sub_diag. lia.
Qed.

(** ** The reference *)

(** The idle level of the clock, and whether the lines are sampled at the trailing edge of a pulse. *)
Definition clock_idles_high (m : SpiMode) : bool :=
  match m with Mode0 | Mode1 => false | Mode2 | Mode3 => true end.
Definition samples_on_trailing (m : SpiMode) : bool :=
  match m with Mode0 | Mode2 => false | Mode1 | Mode3 => true end.

(** The clock's level behind a sampling edge: the trailing edge takes it back to idle. *)
Definition sampled_clock (m : SpiMode) : bool :=
  if samples_on_trailing m then clock_idles_high m else negb (clock_idles_high m).

Lemma sampled_clock_rising c : samples_on_rising c = sampled_clock (mode c).
Proof. unfold samples_on_rising. by destruct (mode c). Qed.

(** *** The cells of bits *)

(** Between the times of two bits their cells meet, in the middle. *)
Fixpoint midpoints (times : list Z) : list Z :=
  match times with
  | t :: ((t' :: _) as times) => (t + t') / 2 :: midpoints times
  | _ => []
  end.

(** Where the first cell begins and the last one ends: half an interval from the outer times, or
    one instant long if there is no interval. *)
Definition first_boundary (times : list Z) : Z :=
  match times with t :: t' :: _ => Z.max 0 (t - (t' - t) / 2) | [t] => t | [] => 0 end.
Definition last_boundary (times : list Z) : Z :=
  match reverse times with
  | t' :: t :: _ => Z.min u64_max (t' + (t' - t + 1) / 2)
  | [t] => Z.min u64_max (t + 1)
  | [] => 0
  end.

(** A cell lasts an instant at least. *)
Definition cell (value start end_ : Z) : Word := spanning value start (Z.max 1 (end_ - start)).

Fixpoint cells (values : list bool) (start : Z) (ends : list Z) : list Word :=
  match values, ends with
  | b :: values, end_ :: ends => cell (b2z b) start end_ :: cells values end_ ends
  | _, _ => []
  end.

(** The bits of a word with the cells around their times, and the word over all of them. *)
Definition annotated_bits (times : list Z) (bits : list bool) : list Word :=
  cells bits (first_boundary times) (midpoints times ++ [last_boundary times]).
Definition annotated_word (times : list Z) (value : Z) : Word :=
  cell value (first_boundary times) (last_boundary times).

Lemma cells_imap values start ends : length ends = length values ->
  cells values start ends = imap (fun i b => cell (b2z b) ((start :: ends) !!! i) (ends !!! i)) values.
Proof.
  revert start ends. induction values as [|b values IH]; intros start [|end_ ends] Hlen; [done..|].
  cbn [cells]. rewrite IH by (cbn in Hlen; lia). done.
Qed.

Lemma midpoints_length times : length (midpoints times) = (length times - 1)%nat.
Proof. induction times as [|t [|t' times] IH]; [done..|]. cbn [midpoints length] in *. lia. Qed.

Lemma midpoints_lookup times i : (S i < length times)%nat ->
  midpoints times !!! i = (nth i times 0 + nth (S i) times 0) / 2.
Proof.
  revert i. induction times as [|t [|t' times] IH]; intros i Hi; cbn [length] in Hi; [lia..|].
  destruct i as [|i]; [done|]. cbn [midpoints]. change ((?x :: ?l) !!! S i) with (l !!! i).
  rewrite IH by (cbn [length]; lia). done.
Qed.

(** Times in order, of 64 bits. *)
Definition stamps_ok (times : list Z) : Prop :=
  forall i, (i < length times)%nat -> u64 (nth i times 0) /\
    ((S i < length times)%nat -> nth i times 0 <= nth (S i) times 0).

(** Edges in order, none of them at the first position. *)
Definition edges_ok (edges : list Z) : Prop :=
  StronglySorted Z.lt edges /\ forall x, In x edges -> 1 <= x <= u64_max.

Lemma edges_app l1 l2 : edges_ok (l1 ++ l2) -> edges_ok l1 /\ edges_ok l2.
Proof.
  intros [Hs Hx]. induction l1 as [|x l1 IH]; [split; [split; [constructor|by intros x []]|done]|].
  apply StronglySorted_inv in Hs as [Hs Hall]. destruct IH as [[H1 H2] H3]; [done|by intros y Hy; apply Hx; right|].
  split; [|done]. split.
  - constructor; [done|]. rewrite List.Forall_forall in *. intros y Hy. apply Hall, in_app_iff. by left.
  - intros y [<-|Hy]; [apply Hx; by left|by apply H2].
Qed.

Lemma edges_concat groups rest : edges_ok (concat groups ++ rest) -> forall g, In g groups -> edges_ok g.
Proof.
  induction groups as [|g0 groups IH]; [done|]. cbn [concat]. rewrite <- app_assoc.
  intros [H0 Hrest]%edges_app g [<-|Hg]; [done|by apply IH].
Qed.

Lemma edges_filter (f : Z -> bool) l : StronglySorted Z.lt l -> StronglySorted Z.lt (List.filter f l).
Proof.
  induction 1 as [|x l Hs IH Hx]; [constructor|]. cbn. destruct (f x); [|done]. constructor; [done|].
  rewrite List.Forall_forall in *. intros y [Hy _]%filter_In. by apply Hx.
Qed.

Lemma positions_sorted p limit : StronglySorted Z.lt (positions p limit).
Proof.
  unfold positions. generalize (Z.to_nat (limit - p - 1)). intros n. generalize 0%nat.
  induction n as [|n IH]; intros k; [constructor|]. cbn [seq map]. constructor; [apply IH|].
  apply List.Forall_forall. intros y (i & <- & Hi)%in_map_iff. apply in_seq in Hi. lia.
Qed.

Lemma edges_stamps step edges : 0 <= step -> edges_ok edges -> stamps_ok (map (time step) edges).
Proof.
  intros Hstep [Hs Hx] i Hi. rewrite length_map in Hi. rewrite length_map.
  assert (Hnth : forall k, nth k (map (time step) edges) 0 = time step (nth k edges 0)).
  { intros k. rewrite <- (map_nth (time step)). done. }
  rewrite !Hnth. assert (Hin : forall k, (k < length edges)%nat -> 1 <= nth k edges 0 <= u64_max).
  { intros k Hk. by apply Hx, nth_In. }
  split; [specialize (Hin i Hi); unfold time, saturating_mul64, u64, u64_max in *; nia|].
  intros HSi. assert (Hlt : nth i edges 0 < nth (S i) edges 0).
  { clear -Hs HSi. revert i HSi. induction Hs as [|x l Hs IH Hall]; intros i HSi; [cbn in HSi; lia|].
    destruct i as [|i]; cbn [length] in HSi; [|apply (IH i); lia].
    rewrite List.Forall_forall in Hall. apply Hall. cbn. apply nth_In. lia. }
  pose proof (Hin i Hi). unfold time, saturating_mul64. nia.
Qed.

Lemma cell_spanning value start end_ : cell value start end_ = spanning_cells value start end_.
Proof. unfold cell, spanning_cells, saturating_sub64. f_equal. lia. Qed.

Section Stamps.
Context (times : list Z) (Hok : stamps_ok times) (Hne : times <> []).

Lemma half_between i : (S i < length times)%nat ->
  add64 (nth i times 0) (sub64 (nth (S i) times 0) (nth i times 0) / 2) =
    (nth i times 0 + nth (S i) times 0) / 2.
Proof.
  intros Hi. destruct (Hok i ltac:(lia)) as [H1 H2]. destruct (Hok (S i) ltac:(lia)) as [H3 _].
  specialize (H2 Hi). set (a := nth i times 0) in *. set (b := nth (S i) times 0) in *. unfold u64 in *.
  rewrite sub64_small by (unfold u64; lia).
  assert (0 <= (b - a) / 2) by (apply Z.div_pos; lia).
  assert ((b - a) / 2 <= b - a) by (apply Z.div_le_upper_bound; lia).
  rewrite add64_small by (unfold u64_max; lia).
  replace (a + b) with (b - a + a * 2) by lia. rewrite Z.div_add by lia. lia.
Qed.

Lemma first_boundary_eq : first_boundary times = cell_start times 0.
Proof.
  unfold first_boundary, cell_start, stamp. destruct times as [|t [|t' ts]]; [done|done|]. cbn [length nth Nat.eqb].
  destruct (Hok 0%nat) as [H1 H2]; [cbn; lia|]. destruct (Hok 1%nat) as [H3 _]; [cbn; lia|]. cbn [nth length] in *.
  specialize (H2 ltac:(lia)). rewrite sub64_small by (unfold u64 in *; lia). unfold saturating_sub64. lia.
Qed.

Lemma last_boundary_eq : last_boundary times = cell_end times (length times - 1).
Proof.
  unfold last_boundary, cell_end, stamp. pose proof Hok as Ho. clear Hok. revert Ho Hne.
  destruct times as [|t ts _] using rev_ind; [done|]. intros Ho _.
  destruct ts as [|t' ts _] using rev_ind.
  { cbn. unfold saturating_add64. lia. }
  rewrite <- app_assoc. cbn [app]. rewrite reverse_app. cbn [reverse rev_append app].
  assert (Hl : length (ts ++ [t'; t]) = S (S (length ts))) by (rewrite length_app; cbn; lia).
  rewrite Hl. replace (S (S (length ts)) - 1)%nat with (S (length ts)) by lia. cbn [Nat.eqb].
  rewrite Nat.eqb_refl. replace (S (length ts) - 1)%nat with (length ts) by lia.
  assert (Hn1 : nth (length ts) (ts ++ [t'; t]) 0 = t') by (rewrite app_nth2, Nat.sub_diag by lia; done).
  assert (Hn2 : nth (S (length ts)) (ts ++ [t'; t]) 0 = t).
  { rewrite app_nth2 by lia. replace (S (length ts) - length ts)%nat with 1%nat by lia. done. }
  rewrite <- app_assoc in Ho. cbn [app] in Ho. destruct (Ho (length ts)) as [H1 H2]; [lia|].
  destruct (Ho (S (length ts))) as [H3 _]; [lia|]. specialize (H2 ltac:(lia)). rewrite Hn1, Hn2 in *.
  rewrite sub64_small by (unfold u64 in *; lia). unfold saturating_add64, div_ceil.
  replace (t - t' + 2 - 1) with (t - t' + 1) by lia. lia.
Qed.

Lemma cells_meet i : (S i < length times)%nat ->
  cell_end times i = (nth i times 0 + nth (S i) times 0) / 2 /\ cell_start times (S i) = cell_end times i.
Proof.
  intros Hi. unfold cell_end, cell_start, stamp.
  rewrite (proj2 (Nat.eqb_neq (length times) 1)), (proj2 (Nat.eqb_neq (S i) (length times))) by lia.
  cbn [Nat.eqb]. replace (S i - 1)%nat with i by lia. split; [by apply half_between|done].
Qed.

Lemma annotations_reference value bits : length bits = length times ->
  spi_word_annotations times value bits = Some (annotated_bits times bits, annotated_word times value).
Proof.
  intros Hlen. assert (Hpos : (0 < length times)%nat) by (destruct times; [done|cbn; lia]).
  unfold spi_word_annotations. rewrite (proj2 (Nat.eqb_eq _ _) Hlen), (proj2 (Nat.eqb_neq (length times) 0)) by lia.
  cbn [negb orb]. f_equal. f_equal.
  - unfold annotated_bits. rewrite cells_imap by (rewrite length_app, midpoints_length; cbn; lia).
    apply imap_ext. intros i b Hi%lookup_lt_Some. rewrite cell_spanning.
    assert (Hmid : forall k, (S k < length times)%nat ->
      (midpoints times ++ [last_boundary times]) !!! k = cell_end times k).
    { intros k Hk. rewrite lookup_total_app_l by (rewrite midpoints_length; lia).
      rewrite midpoints_lookup by done. symmetry. by apply cells_meet. }
    f_equal.
    + destruct i as [|i]; [symmetry; apply first_boundary_eq|]. change ((?x :: ?l) !!! S i) with (l !!! i).
      rewrite Hmid by lia. apply cells_meet. lia.
    + destruct (Nat.eq_dec (S i) (length times)) as [He|He]; [|symmetry; apply Hmid; lia].
      rewrite lookup_total_app_r by (rewrite midpoints_length; lia). rewrite midpoints_length.
      replace (i - (length times - 1))%nat with 0%nat by lia. change ([?x] !!! 0%nat) with x.
      rewrite last_boundary_eq. replace i with (length times - 1)%nat by lia. done.
  - unfold annotated_word. by rewrite cell_spanning, first_boundary_eq, last_boundary_eq.
Qed.
End Stamps.

Section Reference.
Context (c : SpiConfig) (step : Z) (lclk lmosi lmiso : Z -> bool).

(** The clock edges of a window at which the lines are sampled. *)
Definition sampling_edges (start window_end : Z) : list Z :=
  List.filter (fun x => changes_at lclk x && Bool.eqb (lclk x) (sampled_clock (mode c)))
    (positions start window_end).

(** The clock edges of the complete words of a window, and those left over. *)
Definition word_edges (w : Z * Z * bool) : list (list Z) * list Z :=
  let '(start, window_end, _) := w in chunks (Z.to_nat (bits_per_word c)) [] (sampling_edges start window_end).

(** A line is read one sample in front of each edge. *)
Definition line_bits_at (level : Z -> bool) (edges : list Z) : list bool :=
  map (fun x => level (x - 1)) edges.

Definition line_value (level : Z -> bool) (edges : list Z) : Z :=
  word_value (bit_order c) (line_bits_at level edges).

(** A word lasts from its first edge to its last one; the cells of its bits lie around the edges. *)
Definition reference_word (level : Z -> bool) (edges : list Z) : Line (list Word) :=
  let first := time step (hd 0 edges) in
  let word := spanning (line_value level edges) first
    (saturating_sub64 (time step (List.last edges 0)) first) in
  let times := map (time step) edges in
  mkLine [word] (annotated_bits times (line_bits_at level edges)) [annotated_word times (line_value level edges)].

Definition reference_line (level : Z -> bool) (ws : list (Z * Z * bool)) : Line (list Word) :=
  fold_right (fun w l => line_app (fold_right (fun g l => line_app (reference_word level g) l) (mkLine [] [] [])
    (fst (word_edges w))) l) (mkLine [] [] []) ws.

Definition reference_packet (w : Z * Z * bool) : ProtocolPacket :=
  let '(start, window_end, deasserted) := w in
  let '(groups, rest) := word_edges w in
  let words (has : bool) level := if has
    then PList (map (fun g => PInteger (line_value level g)) groups) else PNull in
  mkPacket start window_end (time step start) (time step window_end) "org.logicconduit.spi-transaction/v1"
    (PMapping
      [("complete"%string, PBool (bool_decide (rest = []) && deasserted));
       ("diagnostics"%string, PList
         (map (fun text => PString (ascii_bytes text))
           ((if decide (rest = []) then [] else
              ["incomplete word: " +:+ pretty (zlen rest) +:+ "/" +:+ pretty (bits_per_word c) +:+ " bits"]) ++
            (if deasserted then [] else ["chip select remained active at end of capture"%string]))));
       ("incomplete_bits"%string, PInteger (zlen rest));
       ("miso"%string, words (has_miso c) lmiso);
       ("mosi"%string, words (has_mosi c) lmosi);
       ("word_bits"%string, PInteger (bits_per_word c))]).

Lemma reference_packet_eq start window_end deasserted :
  let w := (start, window_end, deasserted) in
  let words (has : bool) level := if has then map (line_value level) (fst (word_edges w)) else [] in
  reference_packet w = spi_transaction_packet (mkTransaction start window_end (time step start)
    (time step window_end) (bits_per_word c) (words (has_mosi c) lmosi) (words (has_miso c) lmiso)
    (has_mosi c) (has_miso c) (zlen (snd (word_edges w))) deasserted).
Proof.
  cbv zeta. unfold reference_packet. destruct (word_edges _) as [groups rest]. cbn [fst snd].
  unfold spi_transaction_packet. cbn [incomplete_bits cs_deasserted tx_start_sample tx_end_sample
    tx_start_time_ns tx_end_time_ns word_bits mosi_words miso_words tx_has_mosi tx_has_miso].
  assert (Hrest : rest = [] /\ zlen rest = 0 \/ rest <> [] /\ 0 < zlen rest).
  { destruct rest as [|x rest]; [by left|right]. split; [done|]. rewrite zlen_cons. pose proof (zlen_nonneg rest). lia. }
  destruct (has_mosi c), (has_miso c); rewrite ?map_map;
    (destruct Hrest as [[-> ->]|[Hne Hpos]];
     [|rewrite bool_decide_eq_false_2, decide_False by done; rewrite (proj2 (Z.ltb_lt _ _)), (proj2 (Z.eqb_neq _ _)) by lia]);
    by destruct deasserted.
Qed.

(** *** The batches of a window are those of the reference *)

Hypothesis Hbits : 1 <= bits_per_word c <= 64.

Abbreviation at_edge := (fun x => sample_at c lmosi lmiso (x - 1)).

Lemma sampling_edges_In start window_end x :
  In x (sampling_edges start window_end) -> start < x < window_end.
Proof. intros Hx. apply filter_In in Hx as [Hx _]. by apply positions_In. Qed.

Lemma samples_in_edges start window_end :
  0 <= start -> samples_in c lclk lmosi lmiso start window_end = map at_edge (sampling_edges start window_end).
Proof.
  intros Hs. unfold samples_in, sample_positions, sampling_edges, transitions_in. rewrite map_map.
  rewrite <- (map_map (fun x => x - 1) (sample_at c lmosi lmiso)). rewrite <- (map_map _ (sample_at c lmosi lmiso)).
  rewrite sampled_clock_rising. f_equal. assert (Hp : forall x, In x (positions start window_end) -> 1 <= x).
  { intros x Hx%positions_In. lia. }
  induction (positions start window_end) as [|x xs IH]; [done|].
  specialize (IH (fun y Hy => Hp y (or_intror Hy))). pose proof (Hp x (or_introl eq_refl)) as Hx. cbn.
  destruct (changes_at lclk x); cbn [andb map List.filter]; [|exact IH].
  cbn [edge_value]. destruct (Bool.eqb _ _); cbn [map]; [|exact IH].
  cbn [sample]. rewrite IH, saturating_sub64_small by lia. done.
Qed.

Lemma chunks_map {A B} (f : A -> B) n started l :
  chunks n (map f started) (map f l) =
    let '(groups, rest) := chunks n started l in (map (map f) groups, map f rest).
Proof.
  revert started. induction l as [|x l IH]; intros started; cbn [map chunks]; [done|].
  change [f x] with (map f [x]). rewrite <- map_app, length_map. destruct (_ <? n)%nat; [apply IH|].
  specialize (IH []). cbn [map] in IH. rewrite IH. by destruct (chunks n [] l).
Qed.

(** The word under way after some edges. *)
Lemma assembled_edges edges :
  (forall x, In x edges -> 1 <= x <= u64_max) ->
  let bits (has : bool) level := if has then line_bits_at level edges else [] in
  assembled c step (map at_edge edges) =
    mkAssembly (put_bits c 0 0 (bits (has_mosi c) lmosi)) (put_bits c 0 0 (bits (has_miso c) lmiso))
      (zlen edges) (hd_error edges)
      (if has_mosi c || has_miso c then map (time step) edges else [])
      (bits (has_mosi c) lmosi) (bits (has_miso c) lmiso).
Proof.
  intros Hx. induction edges as [|x edges IH] using rev_ind.
  { unfold assembled. cbn. by destruct (has_mosi c), (has_miso c). }
  unfold assembled in *. rewrite map_app, fold_left_app, IH by (intros y Hy; apply Hx, in_app_iff; by left).
  assert (Hxx : 1 <= x <= u64_max) by (apply Hx, in_app_iff; right; by left).
  cbn [map fold_left]. unfold add_sample, sample_at, add_bit, line_bits_at.
  replace (saturating_add64 (x - 1) 1) with x by (rewrite saturating_add64_small by lia; lia).
  cbn [bits_collected mosi_word miso_word first_clock_edge bit_timestamps mosi_bits miso_bits].
  rewrite !map_app, zlen_app. cbn [map].
  assert (Hhd : match hd_error edges with Some first => Some first | None => Some x end =
    hd_error (edges ++ [x])) by by destruct edges.
  rewrite Hhd. replace (zlen [x]) with 1 by done.
  assert (Hput : forall level, put_bits c 0 0 (map (fun x => level (x - 1)) edges ++ [level (x - 1)]) =
    (if level (x - 1) then set_bit (put_bits c 0 0 (map (fun x => level (x - 1)) edges))
       (bit_position c (zlen edges)) else put_bits c 0 0 (map (fun x => level (x - 1)) edges))).
  { intros level. rewrite put_bits_app. unfold zlen. by rewrite length_map. }
  destruct (has_mosi c), (has_miso c); cbn [orb]; by rewrite ?Hput.
Qed.

Lemma annotations_nil stamps value : spi_word_annotations stamps value [] = None.
Proof. unfold spi_word_annotations. by destruct stamps. Qed.

Hypothesis Hstep : 0 <= step.

Lemma reference_annotations level edges :
  zlen edges = bits_per_word c -> edges_ok edges ->
  spi_word_annotations (map (time step) edges) (word_value (bit_order c) (line_bits_at level edges))
      (line_bits_at level edges) =
    Some (annotated_bits (map (time step) edges) (line_bits_at level edges),
      annotated_word (map (time step) edges) (line_value level edges)).
Proof.
  intros Hn Hx. apply annotations_reference; [by apply edges_stamps|by destruct edges; [change (zlen []) with 0 in Hn; lia|]|].
  unfold line_bits_at. by rewrite !length_map.
Qed.

Lemma reference_group edges :
  zlen edges = bits_per_word c -> edges_ok edges ->
  group_batches c step (map at_edge edges) =
    mkBatches (if has_mosi c then reference_word lmosi edges else no_words)
      (if has_miso c then reference_word lmiso edges else no_words) [] 1.
Proof.
  intros Hn Hok. pose proof (proj2 Hok) as Hx. unfold group_batches, complete_word. rewrite assembled_edges by done.
  cbn [bits_collected mosi_word miso_word first_clock_edge bit_timestamps mosi_bits miso_bits
    mosi_batch miso_batch transaction_batch words_emitted no_batches].
  assert (Hfirst : from_option id 0 (hd_error edges) = hd 0 edges) by by destruct edges.
  assert (Hlast : from_option edge_of 0 (last (map at_edge edges)) = List.last edges 0).
  { destruct edges as [|x edges _] using rev_ind; [done|]. rewrite map_app. cbn [map]. rewrite last_snoc, List.last_last. cbn.
    assert (1 <= x <= u64_max) by (apply Hx, in_app_iff; right; by left).
    unfold edge_of, sample_at, saturating_add64. cbn [fst]. lia. }
  rewrite Hfirst, Hlast. rewrite Z.add_0_l. f_equal.
  - destruct (has_mosi c).
    + rewrite put_bits_word by (unfold zlen, line_bits_at in *; rewrite ?length_map; lia).
      unfold push_word, reference_word. cbn. by rewrite reference_annotations.
    + unfold push_word. cbn. by rewrite annotations_nil.
  - destruct (has_miso c).
    + rewrite put_bits_word by (unfold zlen, line_bits_at in *; rewrite ?length_map; lia).
      unfold push_word, reference_word. rewrite orb_true_r. cbn. by rewrite reference_annotations.
    + unfold push_word. cbn. by rewrite annotations_nil.
Qed.

(** The window's edges, cut into words, are the samples' groups. *)
Lemma reference_window start window_end deasserted :
  0 <= start -> window_end <= u64_max ->
  let w := (start, window_end, deasserted) in
  window_batches c step lclk lmosi lmiso start window_end deasserted start [] [] [] =
    batches_app (fold_right (fun g b => batches_app (mkBatches
        (if has_mosi c then reference_word lmosi g else no_words)
        (if has_miso c then reference_word lmiso g else no_words) [] 1) b) no_batches (fst (word_edges w)))
      (mkBatches no_words no_words [reference_packet w] 0).
Proof.
  intros Hs He w. unfold w. rewrite reference_packet_eq. unfold window_batches, word_edges. rewrite samples_in_edges by done.
  pose proof (chunks_map at_edge (word_size c) [] (sampling_edges start window_end)) as Hm. cbn [map] in Hm.
  rewrite Hm. unfold word_size, word_edges.
  pose proof (edge_chunks_spec (Z.to_nat (bits_per_word c)) [] (sampling_edges start window_end)) as Hc.
  destruct (chunks _ [] (sampling_edges start window_end)) as [groups rest]. cbn [fst].
  destruct Hc as (Hcat & Hlen & _); [cbn; lia|]. cbn [app] in Hcat.
  assert (Hgroups : Forall (fun g => zlen g = bits_per_word c /\ edges_ok g) groups).
  { apply List.Forall_forall. intros g Hg. rewrite List.Forall_forall in Hlen. split; [unfold zlen; rewrite Hlen by done; lia|].
    apply (edges_concat groups rest); [|done]. rewrite Hcat. split; [by apply edges_filter, positions_sorted|].
    intros x Hin%sampling_edges_In. lia. }
  f_equal.
  - unfold groups_batches. clear Hcat Hlen Hm.
    induction Hgroups as [|g groups [H1 H2] _ IH]; [done|]. cbn [map fold_right]. by rewrite IH, reference_group.
  - f_equal. f_equal. f_equal. unfold zlen. rewrite length_map. f_equal; cbn [app]; unfold group_words;
      [destruct (has_mosi c) eqn:Hm1|destruct (has_miso c) eqn:Hm1]; try done; rewrite map_map;
      apply map_ext_in; intros g Hg; rewrite List.Forall_forall in Hgroups;
      destruct (Hgroups g Hg) as [H1 [_ H2]]; rewrite assembled_edges by done; cbn; rewrite Hm1;
      rewrite put_bits_word; try done; unfold zlen, line_bits_at in *; rewrite length_map; lia.
Qed.

Lemma reference_windows ws :
  Forall (fun '(start, window_end, _) => 0 <= start /\ window_end <= u64_max) ws ->
  let b := windows_batches c step lclk lmosi lmiso ws in
  (has_mosi c = true -> mosi_batch b = reference_line lmosi ws) /\
  (has_miso c = true -> miso_batch b = reference_line lmiso ws) /\
  transaction_batch b = map reference_packet ws.
Proof.
  induction 1 as [|[[start window_end] d] ws [H1 H2] _ (IH1 & IH2 & IH3)]; [done|].
  unfold windows_batches, reference_line in *. cbn [fold_right map]. rewrite reference_window by done.
  set (groups := fst (word_edges _)).
  assert (Hb : let b := fold_right (fun g b => batches_app (mkBatches
        (if has_mosi c then reference_word lmosi g else no_words)
        (if has_miso c then reference_word lmiso g else no_words) [] 1) b) no_batches groups in
    (has_mosi c = true -> mosi_batch b = fold_right (fun g l => line_app (reference_word lmosi g) l) no_words groups) /\
    (has_miso c = true -> miso_batch b = fold_right (fun g l => line_app (reference_word lmiso g) l) no_words groups) /\
    transaction_batch b = []).
  { clear. induction groups as [|g groups (IH1 & IH2 & IH3)]; [done|]. cbn.
    split_and!; [intros Hm; by rewrite IH1, Hm|intros Hm; by rewrite IH2, Hm|done]. }
  destruct Hb as (B1 & B2 & B3). cbn [batches_app mosi_batch miso_batch transaction_batch].
  split_and!.
  - intros Hm. rewrite B1, IH1 by done. unfold no_words. by rewrite line_app_nil_r.
  - intros Hm. rewrite B2, IH2 by done. unfold no_words. by rewrite line_app_nil_r.
  - by rewrite B3, IH3.
Qed.
End Reference.

(** ** The contract *)

(** The level of the chip-select line that selects the chip. *)
Definition selects (c : SpiConfig) (level : bool) : bool :=
  match cs_polarity c with ActiveLow => negb level | ActiveHigh => level | Disabled => true end.

(** The longest stretches of selected positions: where one starts, the position behind its end,
    and whether the end lies in the capture; [start] is that of a stretch under way. *)
Fixpoint selected_stretches (selected : Z -> bool) (total : Z) (start : option Z) (positions : list Z)
  : list (Z * Z * bool) :=
  match positions with
  | [] => match start with Some s => [(s, total, false)] | None => [] end
  | x :: positions =>
      match start with
      | Some s =>
          if selected x then selected_stretches selected total start positions
          else (s, x, true) :: selected_stretches selected total None positions
      | None => selected_stretches selected total (if selected x then Some x else None) positions
      end
  end.

Definition chip_select_windows (c : SpiConfig) (lcs : Z -> bool) (total : Z) : list (Z * Z * bool) :=
  selected_stretches (fun x => selects c (lcs x)) total None (positions (-1) total).

Lemma stretches_of_transitions active total level n : forall p start,
  let xs := map (fun i => p + 1 + Z.of_nat i) (seq 0 n) in
  (bool_decide (is_Some start) = Bool.eqb (level p) active) ->
  selected_stretches (fun x => Bool.eqb (level x) active) total start xs =
    windows_of active total false start
      (map (fun x => mkTransition x (level x)) (List.filter (changes_at level) xs)).
Proof.
  induction n as [|n IH]; intros p start; cbv zeta; intros Hst; [by destruct start|].
  cbn [seq map]. rewrite Z.add_0_r. rewrite <- seq_shift, map_map.
  specialize (IH (p + 1)). cbv zeta in IH.
  rewrite (map_ext (fun i => p + 1 + Z.of_nat (S i)) (fun i => p + 1 + 1 + Z.of_nat i)) by (intros i; lia).
  cbn [selected_stretches List.filter]. unfold changes_at at 1. replace (p + 1 - 1) with p by lia.
  destruct start as [s|]; cbn in Hst.
  - destruct (level p), active, (level (p + 1)) eqn:Hx; try done; cbn; rewrite ?Hx; cbn;
      (by apply (IH (Some s))) || (f_equal; by apply (IH None)).
  - destruct (level p), active, (level (p + 1)) eqn:Hx; try done; cbn; rewrite ?Hx; cbn;
      (by apply (IH (Some (p + 1)))) || (by apply (IH None)).
Qed.

Lemma selects_active c : cs_polarity c <> Disabled -> forall b, selects c b = Bool.eqb b (active_value c).
Proof. intros Hd b. unfold selects, active_value. by destruct (cs_polarity c), b. Qed.

(** The stretches begin at the edges that the decoder finds. *)
Lemma windows_transitions c lcs total :
  cs_polarity c <> Disabled -> 0 < total ->
  chip_select_windows c lcs total = windows_of (active_value c) total (ends_seen c)
    (if Bool.eqb (lcs 0) (active_value c) then Some 0 else None) (transitions_in lcs 0 total).
Proof.
  intros Hd Ht. assert (Hseen : ends_seen c = false) by (unfold ends_seen; by destruct (cs_polarity c)).
  rewrite Hseen. unfold chip_select_windows. rewrite (positions_split (-1) 0) by lia.
  replace (positions (-1) 0) with (@nil Z) by done. cbn [app selected_stretches].
  assert (Hext : forall xs start, selected_stretches (fun x => selects c (lcs x)) total start xs =
    selected_stretches (fun x => Bool.eqb (lcs x) (active_value c)) total start xs).
  { induction xs as [|x xs IH]; intros start; [done|]. cbn. rewrite selects_active by done.
    destruct start; by rewrite !IH. }
  rewrite Hext, selects_active by done. unfold transitions_in, positions.
  apply (stretches_of_transitions (active_value c) total lcs _ 0). by destruct (Bool.eqb _ _).
Qed.

Lemma timestamp_step_nonneg q : 0 <= timestamp_step q.
Proof.
  unfold timestamp_step, f64_as_u64. destruct (f64_div _ _) as [| [|]| |[|] m e]; try (unfold u64_max; lia).
  unfold floor_scaled. pose proof (proj2 (Z.shiftl_nonneg (Z.pos m) e) ltac:(lia)). unfold u64_max. lia.
Qed.

Lemma windows_of_bounds active total seen start es :
  (forall s, start = Some s -> 0 <= s) -> (forall e, In e es -> 0 <= sample e <= total) ->
  Forall (fun '(s, e, _) => 0 <= s /\ e <= total) (windows_of active total seen start es).
Proof.
  revert start. induction es as [|e es IH]; intros start Hs He; cbn [windows_of].
  { destruct start as [s|]; [|done]. constructor; [|done]. split; [by apply Hs|lia]. }
  assert (Hes : forall x, In x es -> 0 <= sample x <= total) by (intros x Hx; apply He; by right).
  pose proof (He e (or_introl eq_refl)) as Hee.
  destruct start as [s|]; destruct (Bool.eqb _ _); try constructor; try (apply IH; [|done]);
    try (split; [by apply Hs|lia]); intros x [= <-]; try done; [by apply Hs|lia].
Qed.

(** C11. With a chip select that is active low or active high (not [Disabled]: lemma
    [disabled_chip_select_matters]) the decoder in query mode runs to the end of the capture and
    sends, whatever the size of its batches, for every longest stretch of positions at which the
    chip is selected and on every line it has: the words of the line's levels one sample in front
    of each clock edge in the stretch that the mode samples on, in groups of the word size and in
    the bit order, with their extent and their bits in cells that meet in the middle between edges;
    and one transaction with these words, the number of bits left over and whether the stretch
    ends in the capture. *)
Theorem spi_query_decodes {P : Type} `{ReliableStore P} budget i c points cs_input clk_input
    mosi_input miso_input o cs clk lcs lclk lmosi lmiso fuel :
  cs_polarity c <> Disabled ->
  edge_query cs_input = Some cs -> edge_query clk_input = Some clk ->
  Answers cs lcs -> Answers clk lclk ->
  line_ok (has_mosi c) (if has_mosi c then edge_query mosi_input else None) lmosi (total_samples cs) ->
  line_ok (has_miso c) (if has_miso c then edge_query miso_input else None) lmiso (total_samples cs) ->
  0 < total_samples cs < u64_max -> total_samples cs <= total_samples clk ->
  1 <= bits_per_word c <= 64 -> plugged_outputs i o -> 0 < budget ->
  (2 * Z.to_nat (total_samples cs) + 1 < fuel)%nat ->
  let ws := chip_select_windows c lcs (total_samples cs) in
  let line (has : bool) level before := if has
    then line_app before (reference_line c (timestamp_step cs) lclk level ws) else before in
  exists n s', run fuel (spi_outcome_with budget)
      (SpiDecoder_new c points cs_input clk_input mosi_input miso_input o) 0 = Some (Shutdown, n, s') /\
    sent_line i (mosi_ports (outputs s')) = line (has_mosi c) lmosi (sent_line i (mosi_ports o)) /\
    sent_line i (miso_ports (outputs s')) = line (has_miso c) lmiso (sent_line i (miso_ports o)) /\
    sent i (transaction_port (outputs s')) = sent i (transaction_port o) ++
      map (reference_packet c (timestamp_step cs) lclk lmosi lmiso) ws.
Proof.
  intros Hdis Hcs Hclk Hacs Haclk Hm Hs Ht Hlong Hbits Ho Hb Hf ws line.
  assert (Hws : ws = _) by exact (windows_transitions c lcs (total_samples cs) Hdis (proj1 Ht)).
  set (s := SpiDecoder_new c points cs_input clk_input mosi_input miso_input o).
  assert (Hready : spi_ready c cs clk (if has_mosi c then edge_query mosi_input else None)
    (if has_miso c then edge_query miso_input else None) i s).
  { split_and!; try done; cbn; [by destruct (has_mosi c)|by destruct (has_miso c)]. }
  assert (Hleft : left_over c cs lcs lclk lmosi lmiso (query_state s)
    (windows_batches c (timestamp_step cs) lclk lmosi lmiso ws)).
  { rewrite Hws. apply (left_closed c cs lcs lclk lmosi lmiso (query_state s)); [done|cbn; lia|done]. }
  assert (Hd : distance cs (query_state s) = S (2 * Z.to_nat (total_samples cs))).
  { unfold distance. cbn. rewrite Z.sub_0_r. lia. }
  assert (Hn : 1 <= bits_per_word c) by lia.
  destruct (spi_run c cs clk _ _ lcs lclk lmosi lmiso Hn Ht Hlong Hm Hs budget i fuel s _ 0
    Hb Hready Hleft) as (n & s' & Hrun & D1 & D2 & D3); [lia|lia|].
  exists n, s'. split; [exact Hrun|].
  destruct (reference_windows c (timestamp_step cs) lclk lmosi lmiso Hbits (timestamp_step_nonneg cs) ws)
    as (R1 & R2 & R3).
  { assert (Hall : Forall (fun '(start, e, _) => 0 <= start /\ e <= total_samples cs) ws).
    { rewrite Hws. apply windows_of_bounds.
      - intros x. by destruct (Bool.eqb _ _); intros [= <-].
      - intros e (x & <- & [Hx%positions_In _]%filter_In)%in_map_iff. cbn. lia. }
    apply (Forall_impl _ _ _ Hall). intros [[start e] d] [H1 H2]. lia. }
  rewrite R3 in D3. split_and!; [| |exact D3].
  - rewrite D1. unfold line. destruct (has_mosi c); [|done]. by rewrite R1.
  - rewrite D2. unfold line. destruct (has_miso c); [|done]. by rewrite R2.
Qed.

(** A capture of forty samples: the chip is selected from 10 to 30, the clock idles high, and the
    line is high up to 15. *)
Definition capture (l : list CaptureTransition) : EdgeQuery :=
  mkQuery (f64_of_Z 1000000000) 40 (query_value_at (recorded_query l)) (query_next_edge (recorded_query l)).

Definition capture_level (l : list CaptureTransition) (p : Z) : bool := from_option id false (value_at l p).

Lemma capture_answers l : query_ok l -> Answers (capture l) (capture_level l).
Proof.
  intros Hok. pose proof (recorded_query_answers l Hok) as Ha.
  assert (Hn : total_samples (capture l) <= total_samples (recorded_query l)) by (vm_compute; discriminate).
  constructor; [intros p [Hp Hl]|intros p limit Hp Hl]; apply Ha; lia.
Qed.

Definition cs_transitions := [mkTransition 0 true; mkTransition 10 false; mkTransition 30 true].
Definition clk_transitions := [mkTransition 0 true; mkTransition 12 false; mkTransition 14 true;
  mkTransition 16 false; mkTransition 18 true].
Definition mosi_transitions := [mkTransition 0 true; mkTransition 15 false].

(** A store that keeps every point. *)
#[export] Instance listed_points : SamplingStore (list PackedSamplingPoint) := {|
  has_provider _ := false;
  record_packed_batch batch points := (Ok tt, points ++ batch);
  finish_points points := (Ok tt, points)
|}.

#[export] Instance listed_points_reliable : ReliableStore (list PackedSamplingPoint).
Proof. by constructor. Qed.

Definition two_bits : SpiConfig := mkSpiConfig Mode3 2 true false ActiveLow MsbFirst.

Definition queried (l : list CaptureTransition) : SpiInput := mkInput None (Some (capture l)).

Lemma spi_query_decodes_witness :
  exists n s', run 90 (spi_outcome_with 1)
      (SpiDecoder_new two_bits (Some (@nil PackedSamplingPoint)) (queried cs_transitions)
        (queried clk_transitions) (queried mosi_transitions) (mkInput None None) all_ports) 0
      = Some (Shutdown, n, s') /\
    line_words (sent_line 0 (mosi_ports (outputs s'))) = [spanning 2 14 4] /\
    chip_select_windows two_bits (capture_level cs_transitions) 40 = [(10, 30, true)].
Proof.
  assert (H1 : query_ok cs_transitions) by (cbn; auto with lia).
  assert (H2 : query_ok clk_transitions) by (cbn; auto 10 with lia).
  assert (H3 : query_ok mosi_transitions) by (cbn; auto with lia).
  destruct (spi_query_decodes 1 0 two_bits (Some (@nil PackedSamplingPoint)) (queried cs_transitions)
    (queried clk_transitions) (queried mosi_transitions) (mkInput None None) all_ports
    (capture cs_transitions) (capture clk_transitions) (capture_level cs_transitions)
    (capture_level clk_transitions) (capture_level mosi_transitions) (fun _ => false) 90 ltac:(discriminate) eq_refl eq_refl
    (capture_answers _ H1) (capture_answers _ H2)) as (n & s' & Hrun & Hm & _).
  - exists (capture mosi_transitions). split; [reflexivity|]. split; [by apply capture_answers|].
    cbn. lia.
  - reflexivity.
  - cbn. unfold u64_max. lia.
  - cbn. lia.
  - cbn. lia.
  - by repeat split; eexists.
  - lia.
  - cbn. lia.
  - exists n, s'. split; [exact Hrun|]. rewrite Hm. split; vm_compute; reflexivity.
Defined.

(** [Disabled] is to ignore the chip select, but in query mode it takes high for selected: the word
    of the capture above is sent when the line is high throughout and lost when it rises at 15. *)
Definition any_chip : SpiConfig := mkSpiConfig Mode3 2 true false Disabled MsbFirst.

Lemma disabled_chip_select_matters :
  let decode cs :=
    match run 90 (spi_outcome_with 1) (SpiDecoder_new any_chip (Some (@nil PackedSamplingPoint)) (queried cs)
        (queried clk_transitions) (queried mosi_transitions) (mkInput None None) all_ports) 0 with
    | Some (Shutdown, _, s) => Some (line_words (sent_line 0 (mosi_ports (outputs s))))
    | _ => None
    end in
  decode [mkTransition 0 true] = Some [spanning 2 14 4] /\
  decode [mkTransition 0 false; mkTransition 15 true] = Some [].
Proof. split; vm_compute; reflexivity. Qed.

(** In stream mode the first window of a clock that idles high, sampled at rising edges, counts the
    clock's first level as an edge: the same capture, streamed, gives another word and a bit left
    over. *)
Definition streamed (l : list CaptureTransition) : SpiInput :=
  mkInput (Some (fresh_receiver
    (map (fun t => Arrive (SampleMsg (mkSample (edge_value t) (sample t)))) l))) None.

Lemma streamed_idle_level_is_a_bit :
  let decode cs clk mosi :=
    match run 90 spi_outcome (SpiDecoder_new two_bits (Some (@nil PackedSamplingPoint)) cs clk mosi
        (mkInput None None) all_ports) 0 with
    | Some (Shutdown, _, s) => Some (line_words (sent_line 0 (mosi_ports (outputs s))))
    | _ => None
    end in
  decode (queried cs_transitions) (queried clk_transitions) (queried mosi_transitions)
    = Some [spanning 2 14 4] /\
  decode (streamed cs_transitions) (streamed clk_transitions) (streamed mosi_transitions)
    = Some [spanning 3 0 14].
Proof. split; vm_compute; reflexivity. Qed.
