(* ===== verification/TriggerSchema.v ===== *)
(** The editor schemas of advanced triggers:
    [crates/logic_analyzer_trigger/src/condition.rs], [schema_error.rs] and the schema half of
    [program.rs].

    The constructors are modelled with their checks; [TriggerProgram] validates programs against
    the schemas they build. *)

From stdpp Require Export pretty.
From S2P Require Import Prelude.
#[local] Open Scope Z_scope.

(** ** Conditions *)

(** [crates/logic_analyzer_trigger/src/condition.rs:9-24] SimpleTriggerCondition *)
Inductive SimpleTriggerCondition := Ignore | Low | High | Rising | Falling | Either.

#[export] Instance SimpleTriggerCondition_eq_dec : EqDecision SimpleTriggerCondition.
Proof. solve_decision. Defined.

(** [crates/logic_analyzer_trigger/src/condition.rs:28-30] SimpleTriggerCondition::is_edge *)
Definition is_edge (c : SimpleTriggerCondition) : bool :=
  match c with Rising | Falling | Either => true | _ => false end.

(** [crates/logic_analyzer_trigger/src/condition.rs:37-49] SimpleTriggerCondition::matches *)
Definition matches (c : SimpleTriggerCondition) (previous : option bool) (current : bool) : bool :=
  match c with
  | Ignore => true
  | Low => negb current
  | High => current
  | Rising => match previous with Some false => current | _ => false end
  | Falling => match previous with Some true => negb current | _ => false end
  | Either => match previous with Some previous => xorb previous current | None => false end
  end.

(** ** Identities and labels *)

(** [crates/logic_analyzer_trigger/src/schema_error.rs:4-80] TriggerSchemaError *)
Inductive TriggerSchemaError :=
| EmptyIdentifier
| InvalidIdentifierCharacters (value : string)
| EmptyCountModes
| DuplicateCountModes
| InvalidCountRange
| EmptyChoiceLabel
| EmptyOperandLabel
| InvalidUnsignedOperandRange
| InvalidSignedOperandRange
| InvalidSignedOperandStep
| EmptyOperandChoices
| DuplicateOperandChoices
| UnknownDefaultChoice
| InvalidByteOperand
| EmptyPredicateLabel
| DuplicatePredicateOperands
| ZeroSchemaRevision
| ZeroSchemaLimits
| EmptyLogicOperators
| DuplicateLogicOperators
| ExplicitIgnoreCondition
| DuplicateDigitalConditions
| DuplicateRegisteredPredicates
| UnsupportedSimpleProgram.

(** [crates/logic_analyzer_trigger/src/program.rs:18-20] TriggerIdentifier *)
Definition TriggerIdentifier : Type := string.

(** [crates/signal_capture/src/channel_identity.rs:6-8] CaptureChannelId *)
Definition CaptureChannelId : Type := string.

(** [u8::is_ascii_alphanumeric], and the three punctuation characters. *)
Definition identifier_byte (c : ascii) : bool :=
  let n := Z.of_N (N_of_ascii c) in
  ((48 <=? n) && (n <=? 57)) || ((65 <=? n) && (n <=? 90)) || ((97 <=? n) && (n <=? 122))
  || (n =? 46) || (n =? 95) || (n =? 45).

Fixpoint all_bytes (p : ascii -> bool) (s : string) : bool :=
  match s with EmptyString => true | String c s => p c && all_bytes p s end.

(** [crates/logic_analyzer_trigger/src/program.rs:30-42] TriggerIdentifier::new *)
Definition TriggerIdentifier_new (value : string) : result TriggerSchemaError TriggerIdentifier :=
  match value with
  | EmptyString => Err EmptyIdentifier
  | _ => if all_bytes identifier_byte value then Ok value else Err (InvalidIdentifierCharacters value)
  end.

(** A label is the list of its code points. *)
Definition Label : Type := list Z.

(** [char::is_whitespace]. *)
Definition is_whitespace (c : Z) : bool :=
  ((9 <=? c) && (c <=? 13)) || (c =? 32) || (c =? 133) || (c =? 160) || (c =? 5760)
  || ((8192 <=? c) && (c <=? 8202)) || (c =? 8232) || (c =? 8233) || (c =? 8239) || (c =? 8287)
  || (c =? 12288).

(** [label.trim().is_empty()] *)
Definition blank (l : Label) : bool := forallb is_whitespace l.

(** [iter().collect::<HashSet<_>>().len() == len()] *)
Definition unique {A} `{EqDecision A} (l : list A) : bool := bool_decide (NoDup l).

(** [is_multiple_of] of an unsigned integer. *)
Definition is_multiple_of (a s : Z) : bool := if s =? 0 then a =? 0 else a mod s =? 0.

(** ** Operators and counts *)

(** [crates/logic_analyzer_trigger/src/program.rs:67-80] TriggerLogicOperator *)
Inductive TriggerLogicOperator := And | Or | Xor | Nand | Nor.

(** [crates/logic_analyzer_trigger/src/program.rs:83-90] TriggerCountMode *)
Inductive TriggerCountMode := Occurrences | Consecutive.

#[export] Instance TriggerLogicOperator_eq_dec : EqDecision TriggerLogicOperator.
Proof. solve_decision. Defined.
#[export] Instance TriggerCountMode_eq_dec : EqDecision TriggerCountMode.
Proof. solve_decision. Defined.

(** [crates/logic_analyzer_trigger/src/program.rs:93-99] TriggerCountCapabilities *)
Record TriggerCountCapabilities := mkCountCapabilities {
  modes : list TriggerCountMode;
  count_minimum : Z;
  count_maximum : Z;
  count_step : Z
}.

(** [crates/logic_analyzer_trigger/src/program.rs:106-127] TriggerCountCapabilities::new *)
Definition TriggerCountCapabilities_new (modes : list TriggerCountMode) (minimum maximum step : Z)
  : result TriggerSchemaError TriggerCountCapabilities :=
  match modes with
  | [] => Err EmptyCountModes
  | _ =>
      if negb (unique modes) then Err DuplicateCountModes
      else if (maximum <? minimum) || (step =? 0) then Err InvalidCountRange
      else Ok (mkCountCapabilities modes minimum maximum step)
  end.

(** ** Operands *)

(** [crates/logic_analyzer_trigger/src/program.rs:151-155] TriggerChoice *)
Record TriggerChoice := mkChoice { choice_id : TriggerIdentifier; choice_label : Label }.

(** [crates/logic_analyzer_trigger/src/program.rs:163-172] TriggerChoice::new *)
Definition TriggerChoice_new (id : TriggerIdentifier) (label : Label) : result TriggerSchemaError TriggerChoice :=
  if blank label then Err EmptyChoiceLabel else Ok (mkChoice id label).

(** [crates/logic_analyzer_trigger/src/program.rs:189-250] TriggerOperandKind *)
Inductive TriggerOperandKind :=
| BooleanKind (default : bool)
| UnsignedKind (minimum maximum step default : Z)
| SignedKind (minimum maximum step default : Z)
| DurationNsKind (minimum maximum step default : Z)
| ChoiceKind (choices : list TriggerChoice) (default : TriggerIdentifier)
| ChannelKind (default : option CaptureChannelId)
| BytesKind (minimum_length maximum_length : Z) (default : list Z).

(** [crates/logic_analyzer_trigger/src/program.rs:1163-1178] validate_unsigned_range *)
Definition validate_unsigned_range (minimum maximum step default : Z) : result TriggerSchemaError unit :=
  if (maximum <? minimum) || (step =? 0) || (default <? minimum) || (maximum <? default)
     || negb (is_multiple_of (default - minimum) step)
  then Err InvalidUnsignedOperandRange else Ok tt.

(** The offset is non-negative where it is computed, so the conversion to [u128] succeeds.
    [crates/logic_analyzer_trigger/src/program.rs:1180-1197] validate_signed_range *)
Definition validate_signed_range (minimum maximum step default : Z) : result TriggerSchemaError unit :=
  if (maximum <? minimum) || (step =? 0) || (default <? minimum) || (maximum <? default)
  then Err InvalidSignedOperandRange
  else if negb (is_multiple_of (default - minimum) step) then Err InvalidSignedOperandStep
  else Ok tt.

(** [crates/logic_analyzer_trigger/src/program.rs:253-301] TriggerOperandKind::validate_schema *)
Definition validate_schema (k : TriggerOperandKind) : result TriggerSchemaError unit :=
  match k with
  | BooleanKind _ | ChannelKind _ => Ok tt
  | UnsignedKind minimum maximum step default | DurationNsKind minimum maximum step default =>
      validate_unsigned_range minimum maximum step default
  | SignedKind minimum maximum step default => validate_signed_range minimum maximum step default
  | ChoiceKind choices default =>
      let ids := map choice_id choices in
      match choices with
      | [] => Err EmptyOperandChoices
      | _ =>
          if negb (unique ids) then Err DuplicateOperandChoices
          else if negb (bool_decide (default ∈ ids)) then Err UnknownDefaultChoice
          else Ok tt
      end
  | BytesKind minimum_length maximum_length default =>
      if (maximum_length <? minimum_length) || (zlen default <? minimum_length) || (maximum_length <? zlen default)
      then Err InvalidByteOperand else Ok tt
  end.

(** [crates/logic_analyzer_trigger/src/program.rs:305-310] TriggerOperandSchema *)
Record TriggerOperandSchema := mkOperandSchema {
  operand_id : TriggerIdentifier;
  operand_label : Label;
  kind : TriggerOperandKind
}.

(** [crates/logic_analyzer_trigger/src/program.rs:319-330] TriggerOperandSchema::new *)
Definition TriggerOperandSchema_new (id : TriggerIdentifier) (label : Label) (kind : TriggerOperandKind)
  : result TriggerSchemaError TriggerOperandSchema :=
  if blank label then Err EmptyOperandLabel
  else let? _ := validate_schema kind in Ok (mkOperandSchema id label kind).

(** ** Predicates and editor schemas *)

(** [crates/logic_analyzer_trigger/src/program.rs:349-354] RegisteredTriggerPredicateSchema *)
Record RegisteredTriggerPredicateSchema := mkPredicateSchema {
  predicate_id : TriggerIdentifier;
  predicate_label : Label;
  predicate_operands : list TriggerOperandSchema
}.

(** [crates/logic_analyzer_trigger/src/program.rs:363-386] RegisteredTriggerPredicateSchema::new *)
Definition RegisteredTriggerPredicateSchema_new (id : TriggerIdentifier) (label : Label)
    (operands : list TriggerOperandSchema) : result TriggerSchemaError RegisteredTriggerPredicateSchema :=
  if blank label then Err EmptyPredicateLabel
  else if negb (unique (map operand_id operands)) then Err DuplicatePredicateOperands
  else Ok (mkPredicateSchema id label operands).

(** [crates/logic_analyzer_trigger/src/program.rs:405-416] TriggerEditorSchema *)
Record TriggerEditorSchema := mkEditorSchema {
  schema_identity : TriggerIdentifier;
  revision : Z;
  maximum_stages : Z;
  maximum_predicates_per_stage : Z;
  logic_operators : list TriggerLogicOperator;
  digital_conditions : list SimpleTriggerCondition;
  stage_inversion : bool;
  count_capabilities : option TriggerCountCapabilities;
  registered_predicates : list RegisteredTriggerPredicateSchema
}.

(** [crates/logic_analyzer_trigger/src/program.rs:427-463] TriggerEditorSchema::new *)
Definition TriggerEditorSchema_new (id : TriggerIdentifier) (revision maximum_stages maximum_predicates_per_stage : Z)
    (logic_operators : list TriggerLogicOperator) : result TriggerSchemaError TriggerEditorSchema :=
  if revision =? 0 then Err ZeroSchemaRevision
  else if (maximum_stages =? 0) || (maximum_predicates_per_stage =? 0) then Err ZeroSchemaLimits
  else
    match logic_operators with
    | [] => Err EmptyLogicOperators
    | _ =>
        if negb (unique logic_operators) then Err DuplicateLogicOperators
        else Ok (mkEditorSchema id revision maximum_stages maximum_predicates_per_stage logic_operators
                   [] false None [])
    end.

(** [crates/logic_analyzer_trigger/src/program.rs:466-478] TriggerEditorSchema::with_digital_conditions *)
Definition with_digital_conditions (conditions : list SimpleTriggerCondition) (s : TriggerEditorSchema)
  : result TriggerSchemaError TriggerEditorSchema :=
  if bool_decide (Ignore ∈ conditions) then Err ExplicitIgnoreCondition
  else if negb (unique conditions) then Err DuplicateDigitalConditions
  else Ok (mkEditorSchema (schema_identity s) (revision s) (maximum_stages s) (maximum_predicates_per_stage s)
             (logic_operators s) conditions (stage_inversion s) (count_capabilities s) (registered_predicates s)).

(** [crates/logic_analyzer_trigger/src/program.rs:481-484] TriggerEditorSchema::with_stage_inversion *)
Definition with_stage_inversion (enabled : bool) (s : TriggerEditorSchema) : TriggerEditorSchema :=
  mkEditorSchema (schema_identity s) (revision s) (maximum_stages s) (maximum_predicates_per_stage s)
    (logic_operators s) (digital_conditions s) enabled (count_capabilities s) (registered_predicates s).

(** [crates/logic_analyzer_trigger/src/program.rs:487-490] TriggerEditorSchema::with_count *)
Definition with_count (count : TriggerCountCapabilities) (s : TriggerEditorSchema) : TriggerEditorSchema :=
  mkEditorSchema (schema_identity s) (revision s) (maximum_stages s) (maximum_predicates_per_stage s)
    (logic_operators s) (digital_conditions s) (stage_inversion s) (Some count) (registered_predicates s).

(** [crates/logic_analyzer_trigger/src/program.rs:493-508] TriggerEditorSchema::with_registered_predicates *)
Definition with_registered_predicates (predicates : list RegisteredTriggerPredicateSchema) (s : TriggerEditorSchema)
  : result TriggerSchemaError TriggerEditorSchema :=
  if negb (unique (map predicate_id predicates)) then Err DuplicateRegisteredPredicates
  else Ok (mkEditorSchema (schema_identity s) (revision s) (maximum_stages s) (maximum_predicates_per_stage s)
             (logic_operators s) (digital_conditions s) (stage_inversion s) (count_capabilities s) predicates).
