(* ===== verification/TriggerProgram.v ===== *)
(** Advanced-trigger programs, their validation against an editor schema, and the lane controls
    that edit the common digital form: the program half of
    [crates/logic_analyzer_trigger/src/program.rs].

    Messages of diagnostics are for presentation and left out; their paths and codes are kept. *)

From S2P Require Import Prelude TriggerSchema.

#[local] Open Scope Z_scope.

(** ** [BTreeMap] with string keys, as the list of its entries in key order.

    Rust compares strings by their bytes; [String.compare] does the same on the bytes a string
    literal stands for. *)

Definition key_lt (a b : string) : Prop := String.compare a b = Lt.

Lemma compare_refl a : String.compare a a = Eq.
Proof.
  induction a as [|c a IH]; [done|]. cbn. unfold Ascii.compare. by rewrite N.compare_refl, IH.
Qed.

Lemma key_lt_trans a b c : key_lt a b -> key_lt b c -> key_lt a c.
Proof.
  unfold key_lt. revert b c. induction a as [|x a IH]; intros [|y b] [|z c]; cbn; try done.
  unfold Ascii.compare. destruct (N.compare_spec (N_of_ascii x) (N_of_ascii y)) as [E1|E1|E1]; try done;
    destruct (N.compare_spec (N_of_ascii y) (N_of_ascii z)) as [E2|E2|E2]; try done; intros H1 H2.
  - rewrite E1, E2, N.compare_refl. by eapply IH.
  - rewrite E1. by rewrite (proj2 (N.compare_lt_iff _ _) E2).
  - rewrite <- E2. by rewrite (proj2 (N.compare_lt_iff _ _) E1).
  - by rewrite (proj2 (N.compare_lt_iff _ _) (N.lt_trans _ _ _ E1 E2)).
Qed.

Lemma key_lt_ne a b : key_lt a b -> a <> b.
Proof. unfold key_lt. intros H ->. by rewrite compare_refl in H. Qed.

Lemma key_lt_gt a b : String.compare a b = Gt -> key_lt b a.
Proof. unfold key_lt. intros H. rewrite String.compare_antisym, H. done. Qed.

Section StringMap.
Context {V : Type}.

Definition smap : Type := list (string * V).

(** [BTreeMap::get] *)
Fixpoint get (k : string) (m : smap) : option V :=
  match m with
  | [] => None
  | (k', v) :: m => if String.eqb k k' then Some v else get k m
  end.

(** [BTreeMap::insert], without the value it returns. *)
Fixpoint put (k : string) (v : V) (m : smap) : smap :=
  match m with
  | [] => [(k, v)]
  | (k', v') :: rest =>
      match String.compare k k' with
      | Lt => (k, v) :: m
      | Eq => (k, v) :: rest
      | Gt => (k', v') :: put k v rest
      end
  end.

(** [BTreeMap::remove] *)
Fixpoint remove (k : string) (m : smap) : smap :=
  match m with
  | [] => []
  | (k', v') :: m => if String.eqb k k' then m else (k', v') :: remove k m
  end.

Definition keys (m : smap) : list string := map fst m.

Definition smap_ok (m : smap) : Prop := StronglySorted key_lt (keys m).

Lemma smap_ok_cons k v m : smap_ok ((k, v) :: m) <-> (forall k', k' ∈ keys m -> key_lt k k') /\ smap_ok m.
Proof.
  unfold smap_ok. cbn. split.
  - intros [H1 H2]%StronglySorted_inv. rewrite List.Forall_forall in H2.
    split; [|done]. intros k' Hk. by apply H2, list_elem_of_In.
  - intros [H1 H2]. constructor; [done|]. apply List.Forall_forall. intros k' Hk. by apply H1, list_elem_of_In.
Qed.

Lemma get_put k k' v m : get k (put k' v m) = if String.eqb k k' then Some v else get k m.
Proof.
  induction m as [|[k2 v2] m IH]; cbn; [done|].
  destruct (String.compare k' k2) eqn:E; cbn.
  - apply String.compare_eq_iff in E as ->. by destruct (String.eqb k k2).
  - done.
  - rewrite IH. destruct (String.eqb_spec k k2) as [->|]; [|done].
    destruct (String.eqb_spec k2 k') as [->|]; [|done]. by rewrite compare_refl in E.
Qed.

Lemma keys_put k v m k' : k' ∈ keys (put k v m) <-> k' = k \/ k' ∈ keys m.
Proof.
  induction m as [|[k2 v2] m IH]; cbn; [by rewrite elem_of_cons|].
  destruct (String.compare k k2) eqn:E; cbn; rewrite ?elem_of_cons; [|done|rewrite IH; tauto].
  apply String.compare_eq_iff in E as ->. tauto.
Qed.

Lemma put_ok k v m : smap_ok m -> smap_ok (put k v m).
Proof.
  induction m as [|[k2 v2] m IH]; intros Hm; [repeat constructor|].
  pose proof Hm as [H1 H2]%smap_ok_cons. cbn. destruct (String.compare k k2) eqn:E.
  - apply String.compare_eq_iff in E as ->. by apply smap_ok_cons.
  - apply smap_ok_cons. split; [|done]. intros k' Hk. cbn in Hk. apply elem_of_cons in Hk as [->|Hk]; [done|].
    eapply key_lt_trans; [exact E|by apply H1].
  - apply smap_ok_cons. split; [|by apply IH]. intros k' [->|Hk]%keys_put; [by apply key_lt_gt|by apply H1].
Qed.

Lemma keys_remove k m k' : smap_ok m -> k' ∈ keys (remove k m) <-> k' <> k /\ k' ∈ keys m.
Proof.
  induction m as [|[k2 v2] m IH]; intros Hm; cbn; [rewrite elem_of_nil; tauto|].
  apply smap_ok_cons in Hm as [H1 H2]. destruct (String.eqb_spec k k2) as [->|Hne]; cbn.
  - rewrite elem_of_cons. split; [|tauto]. intros Hk. split; [|by right].
    apply H1, key_lt_ne in Hk. congruence.
  - rewrite !elem_of_cons, IH by done. split; [|tauto]. intros [->|[? ?]]; [|tauto]. split; [congruence|by left].
Qed.

Lemma remove_ok k m : smap_ok m -> smap_ok (remove k m).
Proof.
  induction m as [|[k2 v2] m IH]; intros Hm; cbn; [done|]. pose proof Hm as [H1 H2]%smap_ok_cons.
  destruct (String.eqb_spec k k2); [done|]. apply smap_ok_cons. split; [|by apply IH].
  intros k' [_ Hk]%keys_remove; [by apply H1|done].
Qed.

Lemma get_keys k m : get k m = None <-> k ∉ keys m.
Proof.
  induction m as [|[k2 v2] m IH]; cbn; [rewrite elem_of_nil; tauto|]. rewrite not_elem_of_cons.
  destruct (String.eqb_spec k k2) as [->|]; [split; [done|tauto]|]. rewrite IH. tauto.
Qed.

(** A key above all others goes last. *)
Lemma put_last k v m : (forall k', k' ∈ keys m -> key_lt k' k) -> put k v m = m ++ [(k, v)].
Proof.
  induction m as [|[k2 v2] m IH]; intros H; [done|]. cbn.
  assert (E : key_lt k2 k) by (apply H; by left). unfold key_lt in E.
  rewrite String.compare_antisym, E. cbn. f_equal. apply IH. intros k' Hk. apply H. by right.
Qed.
End StringMap.
Arguments smap V : clear implicits.

(** [crates/logic_analyzer_trigger/src/program.rs:15-16] TRIGGER_PROGRAM_FORMAT_VERSION *)
Definition TRIGGER_PROGRAM_FORMAT_VERSION : Z := 1.

(** ** Programs *)

(** [crates/logic_analyzer_trigger/src/program.rs:968-985] TriggerOperandValue *)
Inductive TriggerOperandValue :=
| BooleanValue (b : bool)
| UnsignedValue (z : Z)
| SignedValue (z : Z)
| DurationNsValue (z : Z)
| ChoiceValue (id : TriggerIdentifier)
| ChannelValue (channel : CaptureChannelId)
| BytesValue (bytes : list Z).

(** [crates/logic_analyzer_trigger/src/program.rs:949-966] TriggerPredicate *)
Inductive TriggerPredicate :=
| Digital (channel : CaptureChannelId) (condition : SimpleTriggerCondition)
| Registered (predicate : TriggerIdentifier) (operands : smap TriggerOperandValue).

(** [crates/logic_analyzer_trigger/src/program.rs:940-947] TriggerCount *)
Record TriggerCount := mkCount { mode : TriggerCountMode; count_value : Z }.

(** [crates/logic_analyzer_trigger/src/program.rs:928-938] TriggerStage *)
Record TriggerStage := mkStage {
  predicates : list TriggerPredicate;
  logic : TriggerLogicOperator;
  inverted : bool;
  count : option TriggerCount
}.

(** [crates/logic_analyzer_trigger/src/program.rs:863-873] TriggerProgram *)
Record TriggerProgram := mkProgram {
  format_version : Z;
  schema_id : TriggerIdentifier;
  schema_revision : Z;
  stages : list TriggerStage
}.

(** [crates/logic_analyzer_trigger/src/program.rs:914-925] TriggerProgram::new *)
Definition TriggerProgram_new (schema_id : TriggerIdentifier) (schema_revision : Z) (stages : list TriggerStage)
  : TriggerProgram :=
  mkProgram TRIGGER_PROGRAM_FORMAT_VERSION schema_id schema_revision stages.

(** [crates/logic_analyzer_trigger/src/program.rs:875-884] TriggerProgramForm *)
Inductive TriggerProgramForm :=
| FreeRun
| CommonDigital (conditions : smap SimpleTriggerCondition)
| Advanced.

(** ** Diagnostics *)

(** [crates/logic_analyzer_trigger/src/program.rs:1002-1026] TriggerValidationCode *)
Inductive TriggerValidationCode :=
| SchemaUnavailable
| FormatVersion
| SchemaIdentity
| SchemaRevision
| StageLimit
| PredicateLimit
| UnsupportedLogic
| UnsupportedInversion
| UnsupportedCount
| UnsupportedCountMode
| CountRange
| UnknownChannel
| DuplicateChannel
| UnsupportedDigitalCondition
| UnknownPredicate
| MissingOperand
| UnexpectedOperand
| OperandType
| OperandRange
| OperandStep
| UnknownChoice
| ByteLength.

(** [crates/logic_analyzer_trigger/src/program.rs:1028-1036] TriggerValidationDiagnostic *)
Record TriggerValidationDiagnostic := diagnostic { path : string; code : TriggerValidationCode }.

Abbreviation Diagnostics := (list TriggerValidationDiagnostic).

(** One diagnostic when the test fails. *)
Definition check (bad : bool) (path : string) (code : TriggerValidationCode) : Diagnostics :=
  if bad then [diagnostic path code] else [].

(** ** Operands *)

(** [crates/logic_analyzer_trigger/src/program.rs:1199-1220] validate_unsigned_value *)
Definition validate_unsigned_value (minimum maximum step value : Z) (path : string) : Diagnostics :=
  if (value <? minimum) || (maximum <? value) then [diagnostic path OperandRange]
  else check (negb (is_multiple_of (value - minimum) step)) path OperandStep.

(** [crates/logic_analyzer_trigger/src/program.rs:1222-1246] validate_signed_value *)
Definition validate_signed_value (minimum maximum step value : Z) (path : string) : Diagnostics :=
  if (value <? minimum) || (maximum <? value) then [diagnostic path OperandRange]
  else check (negb (is_multiple_of (value - minimum) step)) path OperandStep.

(** [crates/logic_analyzer_trigger/src/program.rs:1082-1161] validate_operand *)
Definition validate_operand (kind : TriggerOperandKind) (value : TriggerOperandValue) (path : string)
    (channels : list CaptureChannelId) : Diagnostics :=
  match kind, value with
  | BooleanKind _, BooleanValue _ => []
  | UnsignedKind minimum maximum step _, UnsignedValue value
  | DurationNsKind minimum maximum step _, DurationNsValue value =>
      validate_unsigned_value minimum maximum step value path
  | SignedKind minimum maximum step _, SignedValue value =>
      validate_signed_value minimum maximum step value path
  | ChoiceKind choices _, ChoiceValue value =>
      check (negb (existsb (fun choice => String.eqb (choice_id choice) value) choices)) path UnknownChoice
  | ChannelKind _, ChannelValue channel => check (negb (bool_decide (channel ∈ channels))) path UnknownChannel
  | BytesKind minimum_length maximum_length _, BytesValue value =>
      check ((zlen value <? minimum_length) || (maximum_length <? zlen value)) path ByteLength
  | _, _ => [diagnostic path OperandType]
  end.

(** ** Validation *)

(** [crates/logic_analyzer_trigger/src/program.rs:752-789] TriggerEditorSchema::validate_count *)
Definition validate_count (s : TriggerEditorSchema) (count : option TriggerCount) (stage_path : string) : Diagnostics :=
  match count with
  | None => []
  | Some count =>
      match count_capabilities s with
      | None => [diagnostic (stage_path +:+ ".count") UnsupportedCount]
      | Some capabilities =>
          check (negb (bool_decide (mode count ∈ modes capabilities))) (stage_path +:+ ".count.mode") UnsupportedCountMode
          ++ check ((count_value count <? count_minimum capabilities) || (count_maximum capabilities <? count_value count)
                    || negb (is_multiple_of (count_value count - count_minimum capabilities) (count_step capabilities)))
               (stage_path +:+ ".count.value") CountRange
      end
  end.

(** [crates/logic_analyzer_trigger/src/program.rs:791-860] TriggerEditorSchema::validate_predicate *)
Definition validate_predicate (s : TriggerEditorSchema) (p : TriggerPredicate) (path : string)
    (channels : list CaptureChannelId) : Diagnostics :=
  match p with
  | Digital channel condition =>
      check (negb (bool_decide (channel ∈ channels))) (path +:+ ".channel") UnknownChannel
      ++ check (bool_decide (condition = Ignore) || negb (bool_decide (condition ∈ digital_conditions s)))
           (path +:+ ".condition") UnsupportedDigitalCondition
  | Registered predicate operands =>
      match List.find (fun schema => String.eqb (predicate_id schema) predicate) (registered_predicates s) with
      | None => [diagnostic (path +:+ ".predicate") UnknownPredicate]
      | Some schema =>
          concat (map (fun operand =>
            match get (operand_id operand) operands with
            | Some value =>
                validate_operand (kind operand) value (path +:+ ".operands." +:+ operand_id operand) channels
            | None => [diagnostic (path +:+ ".operands." +:+ operand_id operand) MissingOperand]
            end) (predicate_operands schema))
          ++ concat (map (fun operand =>
               check (negb (existsb (fun schema => String.eqb (operand_id schema) operand) (predicate_operands schema)))
                 (path +:+ ".operands." +:+ operand) UnexpectedOperand) (keys operands))
      end
  end.

(** The predicates of a stage from number [index], with the digital channels seen so far.
    [crates/logic_analyzer_trigger/src/program.rs:731-743] TriggerEditorSchema::validate_program (predicates) *)
Fixpoint validate_predicates (s : TriggerEditorSchema) (stage_path : string) (index : nat) (seen : list CaptureChannelId)
    (ps : list TriggerPredicate) (channels : list CaptureChannelId) : Diagnostics :=
  match ps with
  | [] => []
  | p :: ps =>
      let path := stage_path +:+ ".predicates[" +:+ pretty index +:+ "]" in
      let '(duplicate, seen) := match p with
        | Digital channel _ => (bool_decide (channel ∈ seen), channel :: seen)
        | Registered _ _ => (false, seen)
        end in
      check duplicate (path +:+ ".channel") DuplicateChannel ++ validate_predicate s p path channels
      ++ validate_predicates s stage_path (S index) seen ps channels
  end.

(** [crates/logic_analyzer_trigger/src/program.rs:699-744] TriggerEditorSchema::validate_program (stage) *)
Definition validate_stage (s : TriggerEditorSchema) (index : nat) (stage : TriggerStage)
    (channels : list CaptureChannelId) : Diagnostics :=
  let stage_path := "program.stages[" +:+ pretty index +:+ "]" in
  check ((zlen (predicates stage) =? 0) || (maximum_predicates_per_stage s <? zlen (predicates stage)))
    (stage_path +:+ ".predicates") PredicateLimit
  ++ check (negb (bool_decide (logic stage ∈ logic_operators s))) (stage_path +:+ ".logic") UnsupportedLogic
  ++ check (inverted stage && negb (stage_inversion s)) (stage_path +:+ ".inverted") UnsupportedInversion
  ++ validate_count s (count stage) stage_path
  ++ validate_predicates s stage_path 0 [] (predicates stage) channels.

(** The diagnostics collected, in order.
    [crates/logic_analyzer_trigger/src/program.rs:654-750] TriggerEditorSchema::validate_program *)
Definition diagnostics_of (s : TriggerEditorSchema) (p : TriggerProgram) (channels : list CaptureChannelId) : Diagnostics :=
  check (negb (format_version p =? TRIGGER_PROGRAM_FORMAT_VERSION)) "program.format_version" FormatVersion
  ++ check (negb (String.eqb (schema_id p) (schema_identity s))) "program.schema_id" SchemaIdentity
  ++ check (negb (schema_revision p =? revision s)) "program.schema_revision" SchemaRevision
  ++ check ((zlen (stages p) =? 0) || (maximum_stages s <? zlen (stages p))) "program.stages" StageLimit
  ++ concat (imap (fun index stage => validate_stage s index stage channels) (stages p)).

(** The [Ok] program is the argument itself.
    [crates/logic_analyzer_trigger/src/program.rs:654-750] TriggerEditorSchema::validate_program *)
Definition validate_program (s : TriggerEditorSchema) (p : TriggerProgram) (channels : list CaptureChannelId)
  : result Diagnostics TriggerProgram :=
  match diagnostics_of s p channels with
  | [] => Ok p
  | diagnostics => Err diagnostics
  end.

(** [crates/logic_analyzer_trigger/src/program.rs:1071-1079] TriggerValidationErrors::schema_unavailable *)
Definition schema_unavailable : Diagnostics := [diagnostic "program.schema_id" SchemaUnavailable].

(** ** Common controls *)

(** [crates/logic_analyzer_trigger/src/program.rs:559-583] TriggerEditorSchema::simple_program *)
Definition simple_program (s : TriggerEditorSchema) (conditions : list (CaptureChannelId * SimpleTriggerCondition))
  : result TriggerSchemaError (option TriggerProgram) :=
  if negb (bool_decide (And ∈ logic_operators s)) then Err UnsupportedSimpleProgram
  else
    match map (fun '(channel, condition) => Digital channel condition)
            (List.filter (fun '(_, condition) => negb (bool_decide (condition = Ignore))) conditions) with
    | [] => Ok None
    | predicates =>
        Ok (Some (TriggerProgram_new (schema_identity s) (revision s) [mkStage predicates And false None]))
    end.

(** The loop of [program_form]; [None]: the stage is not of the common form.
    [crates/logic_analyzer_trigger/src/program.rs:604-612] TriggerEditorSchema::program_form (loop) *)
Fixpoint collect_conditions (ps : list TriggerPredicate) (conditions : smap SimpleTriggerCondition)
  : option (smap SimpleTriggerCondition) :=
  match ps with
  | [] => Some conditions
  | Digital channel condition :: ps =>
      match get channel conditions with
      | Some _ => None
      | None => collect_conditions ps (put channel condition conditions)
      end
  | Registered _ _ :: _ => None
  end.

(** [crates/logic_analyzer_trigger/src/program.rs:589-614] TriggerEditorSchema::program_form *)
Definition program_form (s : TriggerEditorSchema) (p : option TriggerProgram) (channels : list CaptureChannelId)
  : result Diagnostics TriggerProgramForm :=
  match p with
  | None => Ok FreeRun
  | Some p =>
      let? _ := validate_program s p channels in
      match stages p with
      | [stage] =>
          if negb (bool_decide (logic stage = And)) || inverted stage
             || (match count stage with Some _ => true | None => false end)
          then Ok Advanced
          else
            match collect_conditions (predicates stage) [] with
            | Some conditions => Ok (CommonDigital conditions)
            | None => Ok Advanced
            end
      | _ => Ok Advanced
      end
  end.

(** [crates/logic_analyzer_trigger/src/program.rs:886-905] TriggerProgramEditError *)
Inductive TriggerProgramEditError :=
| Validation (diagnostics : Diagnostics)
| AdvancedProgram
| UnknownEditChannel (channel : CaptureChannelId)
| SchemaError (error : TriggerSchemaError).

(** [crates/logic_analyzer_trigger/src/program.rs:617-644] TriggerEditorSchema::with_simple_condition *)
Definition with_simple_condition (s : TriggerEditorSchema) (p : option TriggerProgram)
    (channels : list CaptureChannelId) (channel : CaptureChannelId) (condition : SimpleTriggerCondition)
  : result TriggerProgramEditError (option TriggerProgram) :=
  if negb (bool_decide (channel ∈ channels)) then Err (UnknownEditChannel channel)
  else
    let edit (conditions : smap SimpleTriggerCondition) :=
      let conditions := if bool_decide (condition = Ignore) then remove channel conditions
                        else put channel condition conditions in
      match simple_program s conditions with
      | Err e => Err (SchemaError e)
      | Ok program =>
          let program := match program with
            | Some p => if zlen (stages p) =? 0 then None else Some p
            | None => None
            end in
          match program with
          | Some p => match validate_program s p channels with
              | Ok _ => Ok (Some p)
              | Err e => Err (Validation e)
              end
          | None => Ok None
          end
      end in
    match program_form s p channels with
    | Err e => Err (Validation e)
    | Ok Advanced => Err AdvancedProgram
    | Ok FreeRun => edit []
    | Ok (CommonDigital conditions) => edit conditions
    end.
