(* ===== verification/TriggerProofs.v ===== *)
(** What validation accepts, and that lane edits and the common form agree. *)

From S2P Require Import Prelude TriggerSchema TriggerProgram.
#[local] Open Scope Z_scope.

(** ** Schemas *)

(** The schemas the constructors build. *)
Inductive built : TriggerEditorSchema -> Prop :=
| built_new id revision stages per_stage operators s :
    TriggerEditorSchema_new id revision stages per_stage operators = Ok s -> built s
| built_conditions s conditions s' : built s -> with_digital_conditions conditions s = Ok s' -> built s'
| built_inversion s enabled : built s -> built (with_stage_inversion enabled s)
| built_count s count : built s -> built (with_count count s)
| built_predicates s predicates s' : built s -> with_registered_predicates predicates s = Ok s' -> built s'.

(** What the checks of the constructors establish. *)
Record schema_ok (s : TriggerEditorSchema) : Prop := {
  ok_revision : revision s <> 0;
  ok_stages : maximum_stages s <> 0;
  ok_predicates : maximum_predicates_per_stage s <> 0;
  ok_operators : (logic_operators s <> []) /\ NoDup (logic_operators s);
  ok_conditions : (Ignore ∉ digital_conditions s) /\ NoDup (digital_conditions s);
  ok_registered : NoDup (predicate_id <$> registered_predicates s)
}.

Lemma unique_spec {A} `{EqDecision A} (l : list A) : unique l = true <-> NoDup l.
Proof. apply bool_decide_eq_true. Qed.

Lemma schema_built_ok s : built s -> schema_ok s.
Proof.
  induction 1 as [id rev st per ops s H|s cs s' _ IH H|s e _ IH|s c _ IH|s ps s' _ IH H].
  - unfold TriggerEditorSchema_new in H. destruct (Z.eqb_spec rev 0); [done|].
    destruct (Z.eqb_spec st 0); [done|]. destruct (Z.eqb_spec per 0); [done|]. cbn [orb] in H.
    destruct ops as [|o ops]; [done|]. destruct (unique (o :: ops)) eqn:E; [|done]. apply unique_spec in E.
    injection H as <-. constructor; cbn; try done; [|constructor]. split; [apply not_elem_of_nil|constructor].
  - unfold with_digital_conditions in H. destruct (bool_decide (Ignore ∈ cs)) eqn:E; [done|].
    apply bool_decide_eq_false in E. destruct (unique cs) eqn:Eu; [|done]. apply unique_spec in Eu.
    injection H as <-. constructor; try apply IH. done.
  - constructor; apply IH.
  - constructor; apply IH.
  - unfold with_registered_predicates in H. destruct (unique (map predicate_id ps)) eqn:E; [|done].
    apply unique_spec in E. injection H as <-. constructor; try apply IH. exact E.
Qed.

(** ** What is accepted *)

Definition in_range (minimum maximum step value : Z) : Prop :=
  minimum <= value <= maximum /\ (step | value - minimum).

Definition operand_fits (kind : TriggerOperandKind) (value : TriggerOperandValue) (channels : list CaptureChannelId) : Prop :=
  match kind, value with
  | BooleanKind _, BooleanValue _ => True
  | UnsignedKind minimum maximum step _, UnsignedValue v
  | DurationNsKind minimum maximum step _, DurationNsValue v
  | SignedKind minimum maximum step _, SignedValue v => in_range minimum maximum step v
  | ChoiceKind choices _, ChoiceValue id => id ∈ (choice_id <$> choices)
  | ChannelKind _, ChannelValue channel => channel ∈ channels
  | BytesKind minimum maximum _, BytesValue bytes => minimum <= zlen bytes <= maximum
  | _, _ => False
  end.

Definition count_fits (s : TriggerEditorSchema) (c : TriggerCount) : Prop :=
  match count_capabilities s with
  | Some cap => mode c ∈ modes cap /\ in_range (count_minimum cap) (count_maximum cap) (count_step cap) (count_value c)
  | None => False
  end.

Definition predicate_fits (s : TriggerEditorSchema) (channels : list CaptureChannelId) (p : TriggerPredicate) : Prop :=
  match p with
  | Digital channel condition =>
      channel ∈ channels /\ condition <> Ignore /\ condition ∈ digital_conditions s
  | Registered id operands => exists schema, schema ∈ registered_predicates s /\ predicate_id schema = id /\
      (forall o, o ∈ predicate_operands schema ->
         exists v, get (operand_id o) operands = Some v /\ operand_fits (kind o) v channels) /\
      (forall k, k ∈ keys operands -> k ∈ (operand_id <$> predicate_operands schema))
  end.

Definition digital_channels (ps : list TriggerPredicate) : list CaptureChannelId :=
  omap (fun p => match p with Digital channel _ => Some channel | Registered _ _ => None end) ps.

Definition stage_fits (s : TriggerEditorSchema) (channels : list CaptureChannelId) (stage : TriggerStage) : Prop :=
  0 < zlen (predicates stage) <= maximum_predicates_per_stage s /\ logic stage ∈ logic_operators s /\
  (inverted stage = true -> stage_inversion s = true) /\
  match count stage with Some c => count_fits s c | None => True end /\
  NoDup (digital_channels (predicates stage)) /\ Forall (predicate_fits s channels) (predicates stage).

Definition program_fits (s : TriggerEditorSchema) (channels : list CaptureChannelId) (p : TriggerProgram) : Prop :=
  format_version p = TRIGGER_PROGRAM_FORMAT_VERSION /\ schema_id p = schema_identity s /\
  schema_revision p = revision s /\ 0 < zlen (stages p) <= maximum_stages s /\
  Forall (stage_fits s channels) (stages p).

(** ** Validation *)

Lemma check_nil b p c : check b p c = [] <-> b = false.
Proof. by destruct b. Qed.

Lemma app_nil_iff {A} (l1 l2 : list A) : l1 ++ l2 = [] <-> l1 = [] /\ l2 = [].
Proof. split; [apply app_eq_nil|by intros [-> ->]]. Qed.

Lemma concat_map_nil {A B} (f : A -> list B) l : concat (map f l) = [] <-> forall x, x ∈ l -> f x = [].
Proof.
  induction l as [|x l IH]; cbn; [split; [intros _ x; by rewrite elem_of_nil|done]|].
  rewrite app_nil_iff, IH. setoid_rewrite elem_of_cons. naive_solver.
Qed.

Lemma multiple_spec a s : is_multiple_of a s = true <-> (s | a).
Proof.
  unfold is_multiple_of. destruct (Z.eqb_spec s 0) as [->|Hs].
  - rewrite Z.eqb_eq. split; [intros ->; by exists 0|intros [k ->]; lia].
  - rewrite Z.eqb_eq. apply Z.mod_divide. done.
Qed.

Lemma in_range_spec minimum maximum step v :
  (v <? minimum) || (maximum <? v) || negb (is_multiple_of (v - minimum) step) = false <->
  in_range minimum maximum step v.
Proof.
  unfold in_range. rewrite !orb_false_iff, !Z.ltb_ge, negb_false_iff, multiple_spec. intuition lia.
Qed.

Lemma existsb_id {A} (f : A -> string) l k : existsb (fun x => String.eqb (f x) k) l = true <-> k ∈ (f <$> l).
Proof.
  rewrite existsb_exists, list_elem_of_fmap. setoid_rewrite String.eqb_eq. setoid_rewrite list_elem_of_In.
  naive_solver.
Qed.

Lemma validate_operand_spec kind v path channels :
  validate_operand kind v path channels = [] <-> operand_fits kind v channels.
Proof.
  assert (Hr : forall minimum maximum step v, (if (v <? minimum) || (maximum <? v) then [diagnostic path OperandRange]
      else check (negb (is_multiple_of (v - minimum) step)) path OperandStep) = [] <-> in_range minimum maximum step v).
  { intros. rewrite <- in_range_spec. destruct ((v0 <? minimum) || (maximum <? v0)); [done|apply check_nil]. }
  destruct kind, v; cbn; try done; try apply Hr.
  - rewrite check_nil, negb_false_iff. apply existsb_id.
  - rewrite check_nil, negb_false_iff. apply bool_decide_eq_true.
  - rewrite check_nil, orb_false_iff, !Z.ltb_ge. lia.
Qed.

Lemma find_unique (schemas : list RegisteredTriggerPredicateSchema) id schema :
  NoDup (predicate_id <$> schemas) -> schema ∈ schemas -> predicate_id schema = id ->
  List.find (fun x => String.eqb (predicate_id x) id) schemas = Some schema.
Proof.
  induction schemas as [|x l IH]; [by rewrite elem_of_nil|]. cbn. intros [Hx Hn]%NoDup_cons Hin Hid.
  destruct (String.eqb_spec (predicate_id x) id) as [E|E].
  - apply elem_of_cons in Hin as [->|Hin]; [done|]. exfalso. apply Hx. rewrite E, <- Hid. by apply list_elem_of_fmap_2.
  - apply elem_of_cons in Hin as [->|Hin]; [done|by apply IH].
Qed.

Lemma validate_predicate_spec s p path channels :
  schema_ok s -> validate_predicate s p path channels = [] <-> predicate_fits s channels p.
Proof.
  intros Hs. destruct p as [channel condition|id operands]; cbn [validate_predicate predicate_fits].
  - rewrite app_nil_iff, !check_nil, negb_false_iff, orb_false_iff, negb_false_iff, bool_decide_eq_false,
      !bool_decide_eq_true. tauto.
  - destruct (List.find _ _) as [schema|] eqn:E.
    + pose proof (find_some _ _ E) as [Hin Hid%String.eqb_eq]. apply list_elem_of_In in Hin.
      assert (Hu : (exists schema', schema' ∈ registered_predicates s /\ predicate_id schema' = id /\
          (forall o, o ∈ predicate_operands schema' -> exists v, get (operand_id o) operands = Some v /\ operand_fits (kind o) v channels) /\
          (forall k, k ∈ keys operands -> k ∈ (operand_id <$> predicate_operands schema'))) <->
        (forall o, o ∈ predicate_operands schema -> exists v, get (operand_id o) operands = Some v /\ operand_fits (kind o) v channels) /\
          (forall k, k ∈ keys operands -> k ∈ (operand_id <$> predicate_operands schema))).
      { split; [|by exists schema]. intros (schema' & Hin' & Hid' & H).
        rewrite (find_unique _ _ _ (ok_registered _ Hs) Hin' Hid') in E. by injection E as ->. }
      rewrite Hu, app_nil_iff, !concat_map_nil.
      split; intros [H1 H2]; split.
      * intros o Ho. specialize (H1 o Ho). destruct (get (operand_id o) operands) as [v|]; [|done].
        exists v. split; [done|]. by apply validate_operand_spec in H1.
      * intros k Hk. specialize (H2 k Hk). by apply check_nil, negb_false_iff, existsb_id in H2.
      * intros o Ho. destruct (H1 o Ho) as (v & -> & Hv). by apply validate_operand_spec.
      * intros k Hk. apply check_nil, negb_false_iff, existsb_id. by apply H2.
    + split; [done|]. intros (schema & Hin & Hid & _).
      by rewrite (find_unique _ _ _ (ok_registered _ Hs) Hin Hid) in E.
Qed.

Lemma validate_count_spec s c path :
  validate_count s c path = [] <-> match c with Some c => count_fits s c | None => True end.
Proof.
  destruct c as [c|]; [|done]. unfold validate_count, count_fits. destruct (count_capabilities s) as [cap|]; [|done].
  by rewrite app_nil_iff, !check_nil, negb_false_iff, in_range_spec, bool_decide_eq_true.
Qed.

Lemma validate_predicates_spec s path index seen ps channels :
  schema_ok s ->
  validate_predicates s path index seen ps channels = [] <->
    (forall c, c ∈ digital_channels ps -> c ∉ seen) /\ NoDup (digital_channels ps) /\
    Forall (predicate_fits s channels) ps.
Proof.
  intros Hs. revert index seen. induction ps as [|p ps IH]; intros index seen.
  - cbn. split; [|done]. intros _. split; [intros c; by rewrite elem_of_nil|]. split; constructor.
  - rewrite Forall_cons. destruct p as [channel condition|id operands]; cbn [validate_predicates].
    + rewrite !app_nil_iff, check_nil, bool_decide_eq_false, validate_predicate_spec, IH by done.
      change (digital_channels (Digital channel condition :: ps)) with (channel :: digital_channels ps).
      rewrite NoDup_cons. setoid_rewrite elem_of_cons. clear. split.
      * intros (H1 & H2 & H3 & H4 & H5). split; [intros c [->|Hc]; [done|naive_solver]|].
        split; [|done]. split; [|done]. intros Hc. naive_solver.
      * intros (H1 & [H2 H3] & H4 & H5). split; [naive_solver|]. split; [done|]. split; [|done].
        intros c Hc [->|Hc']; naive_solver.
    + rewrite !app_nil_iff, validate_predicate_spec, IH by done. cbn [check].
      change (digital_channels (Registered id operands :: ps)) with (digital_channels ps). tauto.
Qed.

Lemma validate_stage_spec s index stage channels :
  schema_ok s -> validate_stage s index stage channels = [] <-> stage_fits s channels stage.
Proof.
  intros Hs. unfold validate_stage, stage_fits.
  rewrite !app_nil_iff, !check_nil, orb_false_iff, Z.eqb_neq, Z.ltb_ge, negb_false_iff, bool_decide_eq_true,
    andb_false_iff, negb_false_iff, validate_count_spec, validate_predicates_spec by done.
  pose proof (zlen_nonneg (predicates stage)).
  assert (Hi : inverted stage = false \/ stage_inversion s = true <-> (inverted stage = true -> stage_inversion s = true))
    by (destruct (inverted stage), (stage_inversion s); intuition).
  assert (Hz : zlen (predicates stage) <> 0 /\ zlen (predicates stage) <= maximum_predicates_per_stage s <->
    0 < zlen (predicates stage) <= maximum_predicates_per_stage s) by lia.
  assert (Hn : forall c, c ∈ digital_channels (predicates stage) -> c ∉ @nil CaptureChannelId)
    by (intros; apply not_elem_of_nil).
  rewrite Hi, Hz. tauto.
Qed.

Lemma concat_imap_nil {A B} (f : nat -> A -> list B) (P : A -> Prop) l :
  (forall i x, f i x = [] <-> P x) -> concat (imap f l) = [] <-> Forall P l.
Proof.
  intros H. revert f H. induction l as [|x l IH]; intros f H; [done|].
  rewrite imap_cons, Forall_cons. cbn. rewrite app_nil_iff, H, IH; [done|]. intros i y. apply H.
Qed.

Lemma diagnostics_spec s p channels :
  schema_ok s -> diagnostics_of s p channels = [] <-> program_fits s channels p.
Proof.
  intros Hs. unfold diagnostics_of, program_fits.
  rewrite !app_nil_iff, !check_nil, !negb_false_iff, !Z.eqb_eq, String.eqb_eq, orb_false_iff, Z.eqb_neq, Z.ltb_ge.
  rewrite (concat_imap_nil _ (stage_fits s channels)) by (intros; by apply validate_stage_spec).
  pose proof (zlen_nonneg (stages p)). intuition lia.
Qed.

Lemma validate_program_spec s p channels :
  schema_ok s ->
  match validate_program s p channels with
  | Ok p' => p' = p /\ program_fits s channels p
  | Err diagnostics => diagnostics <> [] /\ ~ program_fits s channels p
  end.
Proof.
  intros Hs. pose proof (diagnostics_spec s p channels Hs) as H. unfold validate_program.
  destruct (diagnostics_of s p channels) as [|d ds]; [split; [done|by apply H]|].
  split; [done|]. intros Hp. by apply H in Hp.
Qed.

(** C15. Validation accepts exactly the programs that fit the schema: current format, identity and
    revision; a permitted number of stages, each with a permitted number of predicates, a
    supported operator, inversion and count; within a stage no channel tested twice, supported
    conditions on enabled channels, and registered predicates with exactly their operands, each
    value in the domain of its kind.  Whatever does not fit is reported with a diagnostic. *)
Theorem trigger_validation_exact s p channels :
  built s ->
  match validate_program s p channels with
  | Ok p' => p' = p /\ program_fits s channels p
  | Err diagnostics => diagnostics <> [] /\ ~ program_fits s channels p
  end.
Proof. intros Hb. by apply validate_program_spec, schema_built_ok. Qed.

(** ** Lane edits *)

Lemma collect_sorted (m : smap SimpleTriggerCondition) acc :
  smap_ok m -> (forall k k', k ∈ keys acc -> k' ∈ keys m -> key_lt k k') ->
  collect_conditions (map (fun '(channel, condition) => Digital channel condition) m) acc = Some (acc ++ m).
Proof.
  revert acc. induction m as [|[k c] m IH]; intros acc Hm Hlt; cbn [map collect_conditions].
  { by rewrite app_nil_r. }
  apply smap_ok_cons in Hm as [Hk Hm]. assert (Hbelow : forall k', k' ∈ keys acc -> key_lt k' k).
  { intros k' H. apply Hlt; [done|by left]. }
  assert (Hg : get k acc = None).
  { apply get_keys. intros H. by apply (key_lt_ne k k (Hbelow k H)). }
  rewrite Hg, put_last by done. rewrite IH; [by rewrite <- app_assoc|done|].
  intros k1 k2. unfold keys. rewrite map_app, elem_of_app. intros [H1|H1] H2.
  - apply Hlt; [done|by right].
  - cbn in H1. apply list_elem_of_singleton in H1 as ->. by apply Hk.
Qed.

Lemma collect_ok ps acc m :
  smap_ok acc -> collect_conditions ps acc = Some m ->
  smap_ok m /\ forall (P : CaptureChannelId -> SimpleTriggerCondition -> Prop),
    Forall (fun '(k, c) => P k c) acc -> Forall (fun p => match p with Digital k c => P k c | _ => True end) ps ->
    Forall (fun '(k, c) => P k c) m.
Proof.
  assert (Hput : forall (P : CaptureChannelId -> SimpleTriggerCondition -> Prop) k c m,
    P k c -> Forall (fun '(k, c) => P k c) m -> Forall (fun '(k, c) => P k c) (put k c m)).
  { intros P k c m' Hp. induction m' as [|[k' c'] m' IH]; intros Hm; cbn; [by repeat constructor|].
    apply Forall_cons in Hm as [Hk Hm]. destruct (String.compare k k'); constructor; try done; [by constructor|by apply IH]. }
  revert acc. induction ps as [|[k c|id ops] ps IH]; intros acc Ha; cbn [collect_conditions]; [|..|done].
  - intros [= <-]. split; [done|]. by intros P HP _.
  - destruct (get k acc); [done|]. intros H. destruct (IH _ (put_ok k c acc Ha) H) as [H1 H2].
    split; [done|]. intros P HP [Hk Hps]%Forall_cons. apply H2; [by apply Hput|done].
Qed.

(** The conditions a form stands for. *)
Definition conditions_of (f : TriggerProgramForm) : option (smap SimpleTriggerCondition) :=
  match f with
  | FreeRun => Some []
  | CommonDigital m => Some m
  | Advanced => None
  end.

Definition form_of (m : smap SimpleTriggerCondition) : TriggerProgramForm :=
  match m with [] => FreeRun | _ => CommonDigital m end.

Lemma program_form_conditions s p channels f m :
  schema_ok s -> program_form s p channels = Ok f -> conditions_of f = Some m ->
  smap_ok m /\ Forall (fun '(_, c) => c <> Ignore) m.
Proof.
  intros Hs. unfold program_form. destruct p as [p|]; [|intros [= <-] [= <-]; split; constructor].
  pose proof (validate_program_spec s p channels Hs) as Hv. destruct (validate_program s p channels); [|done].
  destruct Hv as (-> & _ & _ & _ & _ & Hst). destruct (stages p) as [|stage [|]]; try (by intros [= <-]).
  destruct (_ || _ || _); [by intros [= <-]|]. destruct (collect_conditions _ _) as [m'|] eqn:E; [|by intros [= <-]].
  intros [= <-] [= <-]. destruct (collect_ok _ [] m' ltac:(constructor) E) as [H1 H2]. split; [done|].
  apply (H2 (fun _ c => c <> Ignore)); [constructor|]. apply Forall_inv in Hst as (_ & _ & _ & _ & _ & Hp).
  eapply Forall_impl; [exact Hp|]. intros [k c|] Hf; [apply Hf|done].
Qed.

Lemma put_conditions (m : smap SimpleTriggerCondition) k c :
  c <> Ignore -> Forall (fun '(_, c) => c <> Ignore) m -> Forall (fun '(_, c) => c <> Ignore) (put k c m).
Proof.
  intros Hc Hm. induction Hm as [|[k' c'] m Hk Hm IH]; cbn; [by repeat constructor|].
  destruct (String.compare k k'); constructor; try done. by constructor.
Qed.

Lemma remove_conditions (m : smap SimpleTriggerCondition) k :
  Forall (fun '(_, c) => c <> Ignore) m -> Forall (fun '(_, c) => c <> Ignore) (remove k m).
Proof.
  intros Hm. induction Hm as [|[k' c'] m Hk Hm IH]; cbn; [constructor|]. destruct (String.eqb k k'); [done|by constructor].
Qed.

Lemma form_of_simple_program s channels m p :
  schema_ok s -> smap_ok m -> Forall (fun '(_, c) => c <> Ignore) m -> simple_program s m = Ok p ->
  match p with Some p => is_ok (validate_program s p channels) = true | None => True end ->
  program_form s p channels = Ok (form_of m) /\ (p = None <-> m = []) /\
  match p with Some p => length (stages p) = 1%nat | None => True end.
Proof.
  intros Hs Hm Hc. unfold simple_program. destruct (negb _); [done|].
  assert (Hf : List.filter (A := CaptureChannelId * SimpleTriggerCondition)
    (fun '(_, condition) => negb (bool_decide (condition = Ignore))) m = m).
  { clear Hm. induction Hc as [|[k c] m Hk Hc IH]; [done|]. cbn. by rewrite bool_decide_eq_false_2, IH. }
  rewrite Hf. destruct m as [|[k c] m]; [by intros [= <-]|].
  cbn [map]. intros [= <-] Hv. split; [|split; [split; done|done]].
  cbn [program_form]. destruct (validate_program _ _ _); [|done]. cbn [stages TriggerProgram_new].
  rewrite bool_decide_eq_true_2 by done. cbn [negb orb inverted count predicates].
  change (Digital k c :: _) with (map (fun '(channel, condition) => Digital channel condition) ((k, c) :: m)).
  rewrite (collect_sorted _ []); [done|done|]. intros k1 k2 H. by apply not_elem_of_nil in H.
Qed.

(** A lane edit that succeeds changes the condition of its channel and nothing else: read back,
    the program has the common form of the old conditions with the channel's replaced, or without
    it when the new condition is to ignore the channel; with no condition left it runs freely.
    Advanced programs are never replaced. *)
Theorem trigger_edit_roundtrip s p channels channel condition p' :
  built s -> with_simple_condition s p channels channel condition = Ok p' ->
  exists f m, program_form s p channels = Ok f /\ conditions_of f = Some m /\
    program_form s p' channels =
      Ok (form_of (if bool_decide (condition = Ignore) then remove channel m else put channel condition m)).
Proof.
  intros Hb H. apply schema_built_ok in Hb. unfold with_simple_condition in H. destruct (negb _); [done|].
  destruct (program_form s p channels) as [f|e] eqn:Ef; [|done]. exists f.
  assert (Hedit : exists m, conditions_of f = Some m).
  { destruct f; [by eexists|by eexists|done]. }
  destruct Hedit as [m Em]. exists m. split; [done|]. split; [done|].
  destruct (program_form_conditions s p channels f m Hb Ef Em) as [Hm Hc].
  set (m' := if bool_decide (condition = Ignore) then remove channel m else put channel condition m) in *.
  assert (Hm' : smap_ok m' /\ Forall (fun '(_, c) => c <> Ignore) m').
  { unfold m'. destruct (bool_decide (condition = Ignore)) eqn:E.
    - split; [by apply remove_ok|by apply remove_conditions].
    - apply bool_decide_eq_false in E. split; [by apply put_ok|by apply put_conditions]. }
  destruct Hm' as [Hm' Hc'].
  assert (He : match simple_program s m' with
    | Err e => Err (SchemaError e)
    | Ok program =>
        match (match program with Some p => if zlen (stages p) =? 0 then None else Some p | None => None end) with
        | Some p => match validate_program s p channels with Ok _ => Ok (Some p) | Err e => Err (Validation e) end
        | None => Ok None
        end
    end = Ok p').
  { destruct f; try done; injection Em as <-; exact H. }
  clear H. destruct (simple_program s m') as [program|e] eqn:Es; [|done].
  pose proof (form_of_simple_program s channels m' program Hb Hm' Hc' Es) as Hform.
  destruct program as [q|].
  - destruct (Z.eqb_spec (zlen (stages q)) 0) as [E|E].
    + exfalso. unfold simple_program in Es. destruct (negb _); [done|]. destruct (map _ _); [done|].
      by injection Es as <-.
    + destruct (validate_program s q channels) eqn:Ev; [|done]. injection He as <-. by apply Hform.
  - injection He as <-. by apply Hform.
Qed.

(** ** Defaults *)

Definition default_value (k : TriggerOperandKind) : option TriggerOperandValue :=
  match k with
  | BooleanKind b => Some (BooleanValue b)
  | UnsignedKind _ _ _ v => Some (UnsignedValue v)
  | SignedKind _ _ _ v => Some (SignedValue v)
  | DurationNsKind _ _ _ v => Some (DurationNsValue v)
  | ChoiceKind _ id => Some (ChoiceValue id)
  | ChannelKind channel => ChannelValue <$> channel
  | BytesKind _ _ bytes => Some (BytesValue bytes)
  end.

(** The default of an operand schema that passed its constructor is a value of the operand's
    own domain: it validates at any path, a default channel provided it is enabled. *)
Theorem operand_default_typed id label k o v path channels :
  TriggerOperandSchema_new id label k = Ok o -> default_value (kind o) = Some v ->
  (forall channel, v = ChannelValue channel -> channel ∈ channels) ->
  validate_operand (kind o) v path channels = [].
Proof.
  unfold TriggerOperandSchema_new. destruct (blank label); [done|].
  destruct (validate_schema k) as [u|] eqn:E; [|done]. intros [= <-] Hv Hc. cbn [kind] in *.
  apply validate_operand_spec.
  assert (Hu : forall minimum maximum step d, validate_unsigned_range minimum maximum step d = Ok u ->
    in_range minimum maximum step d).
  { unfold validate_unsigned_range. intros minimum maximum step d. rewrite <- in_range_spec.
    destruct (maximum <? minimum), (step =? 0), (d <? minimum), (maximum <? d), (negb _); done. }
  destruct k; cbn in Hv; try (injection Hv as <-); cbn in E; cbn; auto.
  - unfold validate_signed_range in E. apply in_range_spec.
    destruct (maximum <? minimum), (step =? 0), (default <? minimum), (maximum <? default), (negb _); done.
  - destruct choices as [|c l]; [done|]. destruct (negb (unique _)); [done|].
    destruct (bool_decide _) eqn:Ed; [|done]. by apply bool_decide_eq_true in Ed.
  - destruct default as [channel|]; [|done]. injection Hv as <-. by apply Hc.
  - destruct (Z.ltb_spec maximum_length minimum_length), (Z.ltb_spec (zlen default) minimum_length),
      (Z.ltb_spec maximum_length (zlen default)); try done; lia.
Qed.

(** ** Witnesses *)

Definition demo_serial : RegisteredTriggerPredicateSchema :=
  mkPredicateSchema "serial" [83] [mkOperandSchema "data" [68] (ChannelKind None);
    mkOperandSchema "value" [86] (UnsignedKind 0 255 2 0)].

Definition demo_schema : TriggerEditorSchema :=
  mkEditorSchema "demo" 3 2 2 [And; Or] [Low; High; Rising] true (Some (mkCountCapabilities [Consecutive] 1 9 2))
    [demo_serial].

Lemma demo_built : built demo_schema.
Proof.
  apply (built_predicates (mkEditorSchema "demo" 3 2 2 [And; Or] [Low; High; Rising] true
    (Some (mkCountCapabilities [Consecutive] 1 9 2)) []) [demo_serial]); [|reflexivity].
  apply (built_count (mkEditorSchema "demo" 3 2 2 [And; Or] [Low; High; Rising] true None [])).
  apply (built_inversion (mkEditorSchema "demo" 3 2 2 [And; Or] [Low; High; Rising] false None [])).
  apply (built_conditions (mkEditorSchema "demo" 3 2 2 [And; Or] [] false None []) [Low; High; Rising]); [|reflexivity].
  by apply (built_new "demo" 3 2 2 [And; Or]).
Qed.

Definition demo_program : TriggerProgram :=
  TriggerProgram_new "demo" 3 [mkStage [Digital "a" Rising;
    Registered "serial" [("data"%string, ChannelValue "b"); ("value"%string, UnsignedValue 4)]] Or true
    (Some (mkCount Consecutive 5))].

Lemma trigger_validation_exact_witness :
  built demo_schema /\ is_ok (validate_program demo_schema demo_program ["a"%string; "b"%string]) = true /\
  program_fits demo_schema ["a"%string; "b"%string] demo_program.
Proof.
  split; [apply demo_built|]. split; [vm_compute; reflexivity|].
  pose proof (trigger_validation_exact demo_schema demo_program ["a"%string; "b"%string] demo_built) as H.
  replace (validate_program demo_schema demo_program ["a"%string; "b"%string]) with
    (@Ok (list TriggerValidationDiagnostic) _ demo_program) in H by (vm_compute; reflexivity).
  exact (proj2 H).
Defined.

Definition lane_program : option TriggerProgram :=
  Some (TriggerProgram_new "demo" 3 [mkStage [Digital "b" High] And false None]).

Lemma trigger_edit_roundtrip_witness :
  exists p', with_simple_condition demo_schema lane_program ["a"%string; "b"%string] "a" Rising = Ok p' /\
  exists f m, program_form demo_schema lane_program ["a"%string; "b"%string] = Ok f /\ conditions_of f = Some m /\
    program_form demo_schema p' ["a"%string; "b"%string] = Ok (form_of (put "a" Rising m)).
Proof.
  eexists. split; [vm_compute; reflexivity|].
  apply (trigger_edit_roundtrip demo_schema lane_program ["a"%string; "b"%string] "a" Rising _ demo_built).
  vm_compute. reflexivity.
Defined.

Lemma operand_default_typed_witness :
  validate_operand (SignedKind (-10) 10 5 (-5)) (SignedValue (-5)) "path" [] = [].
Proof.
  apply (operand_default_typed "x" [88] (SignedKind (-10) 10 5 (-5)) (mkOperandSchema "x" [88] (SignedKind (-10) 10 5 (-5)))).
  - reflexivity.
  - reflexivity.
  - intros channel. discriminate.
Defined.
