(* ===== verification/WorkerQueue.v ===== *)
(** The bounded scheduler of finite worker operations and its cooperative fallback:
    [crates/platform_runtime/src/worker_operation_queue.rs] and the message types, kernel
    registry and fallback executor of [crates/platform_runtime/src/work_executor.rs].

    The queue is driven by the reports of a host; [QueueOp] lists them and [perform] is the
    method each one calls.  [WorkerQueueProofs] holds the invariant and the properties. *)

From stdpp Require Export gmap pretty.
From S2P Require Import Prelude.
#[local] Open Scope Z_scope.

(** ** Messages *)

(** The stable identifier of an operation.
    [crates/platform_runtime/src/work_executor.rs:20-21] WorkerOperation *)
Definition WorkerOperation : Type := string.

(** [crates/platform_runtime/src/work_executor.rs:44-54] WorkerRequest *)
Record WorkerRequest := mkRequest {
  sequence : Z;
  operation : WorkerOperation;
  request_payload : list Z
}.

#[export] Instance WorkerRequest_eq_dec : EqDecision WorkerRequest.
Proof. solve_decision. Defined.

(** [crates/platform_runtime/src/work_executor.rs:128-161] WorkerFailure *)
Inductive WorkerFailure :=
| OperationUnknown (operation : string)
| KernelFailure (message : string)
| HostFailure (message : string)
| ProtocolFailure (message : string)
| Cancelled
| Unavailable.

(** [crates/platform_runtime/src/work_executor.rs:57-90] WorkerMessage *)
Inductive WorkerMessage :=
| RunMessage (request : WorkerRequest)
| CancelMessage (sequence : Z)
| Progress (sequence completed : Z) (total : option Z)
| Complete (sequence : Z) (payload : list Z)
| Failed (sequence : Z) (error : WorkerFailure).

(** [crates/platform_runtime/src/worker_operation_queue.rs:8-38] WorkerQueueError *)
Inductive WorkerQueueError :=
| EmptyPool
| InsufficientCapacity (worker_count max_outstanding : nat)
| OperationNotRegistered (operation : string)
| NonMonotonicSequence (sequence previous : Z)
| Full.

(** ** The queue *)

(** [crates/platform_runtime/src/worker_operation_queue.rs:40-45] WorkerState *)
Record WorkerState := mkWorker {
  ready : bool;
  failed : bool;
  running : option Z
}.

(** [crates/platform_runtime/src/worker_operation_queue.rs:47-64] WorkerHostCommand *)
Inductive WorkerHostCommand :=
| Run (worker_index : nat) (request : WorkerRequest)
| CancelRun (worker_index : nat) (sequence : Z).

(** [crates/platform_runtime/src/worker_operation_queue.rs:72-82] WorkerOperationQueue *)
Record WorkerOperationQueue := mkQueue {
  workers : list WorkerState;
  queued : list WorkerRequest;
  submission_order : list Z;
  terminal : gmap Z WorkerMessage;
  delivered_messages : list WorkerMessage;
  cancelled : gset Z;
  max_outstanding : nat;
  last_submitted_sequence : option Z;
  operations : gset WorkerOperation
}.

Definition set_workers ws q :=
  mkQueue ws (queued q) (submission_order q) (terminal q) (delivered_messages q) (cancelled q)
    (max_outstanding q) (last_submitted_sequence q) (operations q).
Definition set_queued rs q :=
  mkQueue (workers q) rs (submission_order q) (terminal q) (delivered_messages q) (cancelled q)
    (max_outstanding q) (last_submitted_sequence q) (operations q).
Definition set_terminal t q :=
  mkQueue (workers q) (queued q) (submission_order q) t (delivered_messages q) (cancelled q)
    (max_outstanding q) (last_submitted_sequence q) (operations q).
Definition set_delivered ms q :=
  mkQueue (workers q) (queued q) (submission_order q) (terminal q) ms (cancelled q)
    (max_outstanding q) (last_submitted_sequence q) (operations q).
Definition set_cancelled c q :=
  mkQueue (workers q) (queued q) (submission_order q) (terminal q) (delivered_messages q) c
    (max_outstanding q) (last_submitted_sequence q) (operations q).

(** [crates/platform_runtime/src/worker_operation_queue.rs:91-116] WorkerOperationQueue::new *)
Definition WorkerOperationQueue_new (worker_count max_outstanding : nat) (ops : list WorkerOperation)
  : result WorkerQueueError WorkerOperationQueue :=
  if (worker_count =? 0)%nat then Err EmptyPool
  else if (max_outstanding <? worker_count)%nat
  then Err (InsufficientCapacity worker_count max_outstanding)
  else Ok (mkQueue (replicate worker_count (mkWorker false false None)) [] [] ∅ [] ∅
             max_outstanding None (list_to_set ops)).

(** [crates/platform_runtime/src/worker_operation_queue.rs:127-129] WorkerOperationQueue::available_parallelism *)
Definition available_parallelism (q : WorkerOperationQueue) : nat := length (workers q).

(** [crates/platform_runtime/src/worker_operation_queue.rs:132-134] WorkerOperationQueue::outstanding *)
Definition outstanding (q : WorkerOperationQueue) : nat := length (submission_order q).

(** [crates/platform_runtime/src/worker_operation_queue.rs:294-296] WorkerOperationQueue::contains_sequence *)
Definition contains_sequence (q : WorkerOperationQueue) (s : Z) : bool :=
  bool_decide (s ∈ submission_order q).

(** [None]: the [unreachable!] arm.
    [crates/platform_runtime/src/worker_operation_queue.rs:352-359] terminal_sequence *)
Definition terminal_sequence (m : WorkerMessage) : option Z :=
  match m with
  | Complete s _ | Failed s _ => Some s
  | _ => None
  end.

(** The loop of [release_ordered] over the submission order.
    [crates/platform_runtime/src/worker_operation_queue.rs:306-315] WorkerOperationQueue::release_ordered (loop) *)
Fixpoint release (order : list Z) (terminal : gmap Z WorkerMessage) (cancelled : gset Z)
    (delivered : list WorkerMessage) : list Z * gmap Z WorkerMessage * gset Z * list WorkerMessage :=
  match order with
  | [] => ([], terminal, cancelled, delivered)
  | s :: rest =>
      match terminal !! s with
      | None => (order, terminal, cancelled, delivered)
      | Some m => release rest (delete s terminal) (cancelled ∖ {[s]}) (delivered ++ [m])
      end
  end.

(** [crates/platform_runtime/src/worker_operation_queue.rs:306-315] WorkerOperationQueue::release_ordered *)
Definition release_ordered (q : WorkerOperationQueue) : WorkerOperationQueue :=
  let '(order, t, c, d) := release (submission_order q) (terminal q) (cancelled q) (delivered_messages q) in
  mkQueue (workers q) (queued q) order t d c (max_outstanding q) (last_submitted_sequence q) (operations q).

(** A message that is not terminal never gets here.
    [crates/platform_runtime/src/worker_operation_queue.rs:298-304] WorkerOperationQueue::record_terminal *)
Definition record_terminal (m : WorkerMessage) (q : WorkerOperationQueue) : WorkerOperationQueue :=
  match terminal_sequence m with
  | None => q
  | Some s =>
      let q := if contains_sequence q s && negb (bool_decide (is_Some (terminal q !! s)))
               then set_terminal (<[s := m]> (terminal q)) q else q in
      release_ordered q
  end.

(** The loop over the workers from slot [i]: the commands, the workers and the requests left.
    [crates/platform_runtime/src/worker_operation_queue.rs:317-333] WorkerOperationQueue::dispatch_ready_workers (loop) *)
Fixpoint dispatch (i : nat) (ws : list WorkerState) (rs : list WorkerRequest)
  : list WorkerHostCommand * list WorkerState * list WorkerRequest :=
  match ws with
  | [] => ([], [], rs)
  | w :: ws =>
      if negb (ready w) || failed w || bool_decide (is_Some (running w)) then
        let '(commands, ws, rs) := dispatch (S i) ws rs in (commands, w :: ws, rs)
      else
        match rs with
        | [] => ([], w :: ws, [])
        | r :: rs =>
            let '(commands, ws, rs) := dispatch (S i) ws rs in
            (Run i r :: commands, mkWorker (ready w) (failed w) (Some (sequence r)) :: ws, rs)
        end
  end.

(** [crates/platform_runtime/src/worker_operation_queue.rs:317-333] WorkerOperationQueue::dispatch_ready_workers *)
Definition dispatch_ready_workers (q : WorkerOperationQueue) : list WorkerHostCommand * WorkerOperationQueue :=
  let '(commands, ws, rs) := dispatch 0 (workers q) (queued q) in
  (commands, set_queued rs (set_workers ws q)).

(** The [while] loop pops the requests front to back.
    [crates/platform_runtime/src/worker_operation_queue.rs:335-349] WorkerOperationQueue::fail_pending_if_unavailable *)
Definition fail_pending_if_unavailable (q : WorkerOperationQueue) : WorkerOperationQueue :=
  if forallb failed (workers q) then
    let t := fold_left (fun t r => <[sequence r := Failed (sequence r) Unavailable]> t) (queued q) (terminal q) in
    release_ordered (set_queued [] (set_terminal t q))
  else q.

(** The request joins the order and the queue. *)
Definition accept (r : WorkerRequest) (q : WorkerOperationQueue) : WorkerOperationQueue :=
  mkQueue (workers q) (queued q ++ [r]) (submission_order q ++ [sequence r]) (terminal q)
    (delivered_messages q) (cancelled q) (max_outstanding q) (Some (sequence r)) (operations q).

(** [crates/platform_runtime/src/worker_operation_queue.rs:137-162] WorkerOperationQueue::submit *)
Definition submit (r : WorkerRequest) (q : WorkerOperationQueue)
  : result WorkerQueueError (list WorkerHostCommand) * WorkerOperationQueue :=
  let too_late := match last_submitted_sequence q with
    | Some previous => sequence r <=? previous
    | None => false
    end in
  if negb (bool_decide (operation r ∈ operations q)) then (Err (OperationNotRegistered (operation r)), q)
  else if too_late then
    (Err (NonMonotonicSequence (sequence r) (default 0 (last_submitted_sequence q))), q)
  else if (max_outstanding q <=? outstanding q)%nat then (Err Full, q)
  else let '(commands, q) := dispatch_ready_workers (accept r q) in (Ok commands, q).

(** [crates/platform_runtime/src/worker_operation_queue.rs:165-172] WorkerOperationQueue::worker_ready *)
Definition worker_ready (i : nat) (q : WorkerOperationQueue) : list WorkerHostCommand * WorkerOperationQueue :=
  let q := match workers q !! i with
    | Some w => if failed w then q else set_workers (<[i := mkWorker true (failed w) (running w)]> (workers q)) q
    | None => q
    end in
  dispatch_ready_workers q.

(** [crates/platform_runtime/src/worker_operation_queue.rs:180-188] WorkerOperationQueue::worker_progress *)
Definition worker_progress (s completed : Z) (total : option Z) (q : WorkerOperationQueue) : WorkerOperationQueue :=
  if contains_sequence q s && negb (bool_decide (s ∈ cancelled q))
  then set_delivered (delivered_messages q ++ [Progress s completed total]) q else q.

(** [crates/platform_runtime/src/worker_operation_queue.rs:239-256] WorkerOperationQueue::worker_failed *)
Definition worker_failed (i : nat) (error : WorkerFailure) (q : WorkerOperationQueue)
  : list WorkerHostCommand * WorkerOperationQueue :=
  match workers q !! i with
  | None => ([], q)
  | Some w =>
      let q := set_workers (<[i := mkWorker false true None]> (workers q)) q in
      let q := match running w with
        | Some s => if bool_decide (s ∈ cancelled q) then q else record_terminal (Failed s error) q
        | None => q
        end in
      dispatch_ready_workers (fail_pending_if_unavailable q)
  end.

Definition message_of (s : Z) (res : result WorkerFailure (list Z)) : WorkerMessage :=
  match res with
  | Ok payload => Complete s payload
  | Err error => Failed s error
  end.

(** [crates/platform_runtime/src/worker_operation_queue.rs:191-236] WorkerOperationQueue::worker_completed *)
Definition worker_completed (i : nat) (reported : option Z) (res : result WorkerFailure (list Z))
    (q : WorkerOperationQueue) : list WorkerHostCommand * WorkerOperationQueue :=
  match workers q !! i with
  | Some (mkWorker r f (Some running)) =>
      if match reported with Some s => negb (s =? running) | None => false end then
        worker_failed i (ProtocolFailure ("worker returned sequence " +:+ pretty (default 0 reported)
          +:+ " while running sequence " +:+ pretty running)) q
      else
        let q := set_workers (<[i := mkWorker r f None]> (workers q)) q in
        let q := if contains_sequence q running && negb (bool_decide (running ∈ cancelled q))
                 then record_terminal (message_of running res) q else q in
        dispatch_ready_workers q
  | _ =>
      worker_failed i (ProtocolFailure "worker returned a terminal message without an active request") q
  end.

(** [VecDeque::position] and [remove] of the request with this sequence. *)
Fixpoint remove_request (s : Z) (rs : list WorkerRequest) : list WorkerRequest :=
  match rs with
  | [] => []
  | r :: rs => if sequence r =? s then rs else r :: remove_request s rs
  end.

(** The workers running the sequence, from slot [i]. *)
Fixpoint cancel_commands (s : Z) (i : nat) (ws : list WorkerState) : list WorkerHostCommand :=
  match ws with
  | [] => []
  | w :: ws => (if bool_decide (running w = Some s) then [CancelRun i s] else []) ++ cancel_commands s (S i) ws
  end.

(** [crates/platform_runtime/src/worker_operation_queue.rs:259-287] WorkerOperationQueue::cancel *)
Definition cancel (s : Z) (q : WorkerOperationQueue) : bool * list WorkerHostCommand * WorkerOperationQueue :=
  if negb (contains_sequence q s) then (false, [], q)
  else
    let q := set_cancelled (cancelled q ∪ {[s]}) q in
    let q := set_queued (remove_request s (queued q)) q in
    let commands := cancel_commands s 0 (workers q) in
    let q := record_terminal (Failed s Cancelled) q in
    let '(more, q) := dispatch_ready_workers q in
    (true, commands ++ more, q).

(** [crates/platform_runtime/src/worker_operation_queue.rs:290-292] WorkerOperationQueue::drain_messages *)
Definition drain_messages (q : WorkerOperationQueue) : list WorkerMessage * WorkerOperationQueue :=
  (delivered_messages q, set_delivered [] q).

(** ** The cooperative fallback *)

(** [crates/platform_runtime/src/work_executor.rs:103-109] WorkerKernelError *)
Inductive WorkerKernelError := Execution (message : string).

Definition WorkerKernel : Type := list Z -> result WorkerKernelError (list Z).

(** [crates/platform_runtime/src/work_executor.rs:162-168] WorkerFailure::from *)
Definition failure_of (e : WorkerKernelError) : WorkerFailure :=
  match e with Execution message => KernelFailure message end.

(** [crates/platform_runtime/src/work_executor.rs:176-180] WorkerKernelRegistry *)
Definition WorkerKernelRegistry : Type := gmap WorkerOperation WorkerKernel.

(** The identifier has been validated.
    [crates/platform_runtime/src/work_executor.rs:362-376] WorkerKernelRegistry::register *)
Definition register (op : WorkerOperation) (k : WorkerKernel) (kernels : WorkerKernelRegistry)
  : option WorkerKernelRegistry :=
  match kernels !! op with Some _ => None | None => Some (<[op := k]> kernels) end.

(** [crates/platform_runtime/src/work_executor.rs:382-384] WorkerKernelRegistry::supports *)
Definition supports (op : WorkerOperation) (kernels : WorkerKernelRegistry) : bool :=
  bool_decide (is_Some (kernels !! op)).

(** [crates/platform_runtime/src/work_executor.rs:392-409] WorkerKernelRegistry::execute *)
Definition execute (kernels : WorkerKernelRegistry) (r : WorkerRequest) : WorkerMessage :=
  match kernels !! operation r with
  | None => Failed (sequence r) (OperationUnknown (operation r))
  | Some kernel =>
      match kernel (request_payload r) with
      | Ok payload => Complete (sequence r) payload
      | Err error => Failed (sequence r) (failure_of error)
      end
  end.

(** The capability's operations are those of the registry.
    [crates/platform_runtime/src/work_executor.rs:282-287] CooperativeWorkerOperationExecutor *)
Record CooperativeExecutor := mkCooperative {
  kernels : WorkerKernelRegistry;
  messages : list WorkerMessage;
  last_sequence : option Z
}.

(** [crates/platform_runtime/src/work_executor.rs:295-303] CooperativeWorkerOperationExecutor::new *)
Definition CooperativeExecutor_new (kernels : WorkerKernelRegistry) : CooperativeExecutor :=
  mkCooperative kernels [] None.

(** [crates/platform_runtime/src/work_executor.rs:311-340] CooperativeWorkerOperationExecutor::submit *)
Definition cooperative_submit (r : WorkerRequest) (x : CooperativeExecutor)
  : result WorkerQueueError unit * CooperativeExecutor :=
  let too_late := match last_sequence x with
    | Some previous => sequence r <=? previous
    | None => false
    end in
  if too_late then (Err (NonMonotonicSequence (sequence r) (default 0 (last_sequence x))), x)
  else if negb (supports (operation r) (kernels x)) then (Err (OperationNotRegistered (operation r)), x)
  else
    (Ok tt, mkCooperative (kernels x)
      (messages x ++ [Progress (sequence r) 0 (Some 1)] ++ [Progress (sequence r) 1 (Some 1)]
         ++ [execute (kernels x) r])
      (Some (sequence r))).

(** [crates/platform_runtime/src/work_executor.rs:346-348] CooperativeWorkerOperationExecutor::drain_messages *)
Definition cooperative_drain (x : CooperativeExecutor) : list WorkerMessage * CooperativeExecutor :=
  (messages x, mkCooperative (kernels x) [] (last_sequence x)).

(** ** Hosts *)

(** One call of a host or a client. *)
Inductive QueueOp :=
| Submit (request : WorkerRequest)
| Ready (worker_index : nat)
| ReportProgress (sequence completed : Z) (total : option Z)
| ReportCompleted (worker_index : nat) (reported : option Z) (res : result WorkerFailure (list Z))
| ReportFailed (worker_index : nat) (error : WorkerFailure)
| Cancel (sequence : Z)
| DrainMessages.

(** What a call hands out: commands to the host and messages to the client. *)
Definition perform (op : QueueOp) (q : WorkerOperationQueue)
  : list WorkerHostCommand * list WorkerMessage * WorkerOperationQueue :=
  match op with
  | Submit r => match submit r q with
      | (Ok commands, q) => (commands, [], q)
      | (Err _, q) => ([], [], q)
      end
  | Ready i => let '(commands, q) := worker_ready i q in (commands, [], q)
  | ReportProgress s c t => ([], [], worker_progress s c t q)
  | ReportCompleted i reported res => let '(commands, q) := worker_completed i reported res q in (commands, [], q)
  | ReportFailed i e => let '(commands, q) := worker_failed i e q in (commands, [], q)
  | Cancel s => let '(_, commands, q) := cancel s q in (commands, [], q)
  | DrainMessages => let '(ms, q) := drain_messages q in ([], ms, q)
  end.
