(* ===== verification/WorkerQueueProofs.v ===== *)
(** The invariant of the worker queue over any sequence of calls, with the history of what its
    client submitted and received and of what its host was told to run. *)

From S2P Require Import Prelude WorkerQueue.
#[local] Open Scope Z_scope.

(** ** Histories *)

Record History := mkHistory {
  accepted_requests : list WorkerRequest;
  issued : list WorkerHostCommand;
  received : list WorkerMessage
}.

Definition no_history : History := mkHistory [] [] [].

(** The request a call adds to the accepted ones. *)
Definition accepts (op : QueueOp) (q : WorkerOperationQueue) : list WorkerRequest :=
  match op with
  | Submit r => if is_ok (fst (submit r q)) then [r] else []
  | _ => []
  end.

Definition step (hq : History * WorkerOperationQueue) (op : QueueOp) : History * WorkerOperationQueue :=
  let '(h, q) := hq in
  let '(commands, ms, q') := perform op q in
  (mkHistory (accepted_requests h ++ accepts op q) (issued h ++ commands) (received h ++ ms), q').

Definition run_ops (ops : list QueueOp) (q : WorkerOperationQueue) : History * WorkerOperationQueue :=
  fold_left step ops (no_history, q).

(** The sequences of the terminal messages. *)
Definition terminals (ms : list WorkerMessage) : list Z := omap terminal_sequence ms.

Definition run_requests (commands : list WorkerHostCommand) : list WorkerRequest :=
  omap (fun c => match c with Run _ r => Some r | CancelRun _ _ => None end) commands.

(** ** The invariant *)

Definition running_on (ws : list WorkerState) (s : Z) : Prop := exists w, w ∈ ws /\ running w = Some s.

Section Invariant.
(** What is known of every terminal message recorded. *)
Variable P : WorkerMessage -> Prop.

Record wf (h : History) (q : WorkerOperationQueue) : Prop := {
  wf_order : (sequence <$> accepted_requests h)
    = terminals (received h ++ delivered_messages q) ++ submission_order q;
  wf_sorted : StronglySorted Z.lt (sequence <$> accepted_requests h);
  wf_last : last_submitted_sequence q = last (sequence <$> accepted_requests h);
  wf_runs : run_requests (issued h) ++ queued q `sublist_of` accepted_requests h;
  wf_queued r : r ∈ queued q -> sequence r ∈ submission_order q /\ terminal q !! sequence r = None;
  wf_terminal s m : terminal q !! s = Some m -> s ∈ submission_order q /\ terminal_sequence m = Some s /\ P m;
  wf_messages m : m ∈ received h ++ delivered_messages q -> is_Some (terminal_sequence m) -> P m;
  wf_cancelled s : s ∈ cancelled q -> is_Some (terminal q !! s);
  wf_running s : running_on (workers q) s -> s ∈ (sequence <$> run_requests (issued h));
  wf_failed w : w ∈ workers q -> failed w = true -> running w = None /\ ready w = false;
  wf_covered s : s ∈ submission_order q ->
    is_Some (terminal q !! s) \/ s ∈ (sequence <$> queued q) \/ running_on (workers q) s;
  wf_bounded : (outstanding q <= max_outstanding q)%nat
}.

(** Nothing releasable is held back. *)
Definition released (q : WorkerOperationQueue) : Prop :=
  forall s, head (submission_order q) = Some s -> terminal q !! s = None.

(** No worker idles while a request waits. *)
Definition conserving (q : WorkerOperationQueue) : Prop :=
  queued q = [] \/ forall w, w ∈ workers q -> ready w = true -> failed w = false -> is_Some (running w).

Lemma terminals_app l1 l2 : terminals (l1 ++ l2) = terminals l1 ++ terminals l2.
Proof. apply omap_app. Qed.

Lemma run_requests_app l1 l2 : run_requests (l1 ++ l2) = run_requests l1 ++ run_requests l2.
Proof. apply omap_app. Qed.

Lemma ascending_nodup (l : list Z) : StronglySorted Z.lt l -> NoDup l.
Proof.
  induction 1 as [|x l _ IH Hx]; constructor; [|done].
  intros Hin. rewrite List.Forall_forall in Hx. apply list_elem_of_In in Hin. specialize (Hx x Hin). lia.
Qed.

Lemma wf_accepted_nodup h q : wf h q -> NoDup (sequence <$> accepted_requests h).
Proof. intros H. apply ascending_nodup, H. Qed.

Lemma wf_order_nodup h q : wf h q -> NoDup (submission_order q).
Proof. intros H. pose proof (wf_accepted_nodup h q H) as Hn. rewrite (wf_order h q H), NoDup_app in Hn. tauto. Qed.

(** *** Releasing *)

Lemma release_spec order t c d :
  NoDup order -> (forall s m, t !! s = Some m -> terminal_sequence m = Some s) ->
  let '(order', t', c', d') := release order t c d in
  exists ms, d' = d ++ ms /\ order = terminals ms ++ order' /\
    (forall s, s ∈ terminals ms -> is_Some (t !! s)) /\
    (forall s m, t' !! s = Some m <-> t !! s = Some m /\ s ∉ terminals ms) /\
    (forall s, s ∈ c' <-> s ∈ c /\ s ∉ terminals ms) /\
    (forall m, m ∈ ms -> exists s, t !! s = Some m) /\
    (forall s, head order' = Some s -> t' !! s = None).
Proof.
  revert t c d. induction order as [|s order IH]; intros t c d Hn Hk; cbn [release].
  { exists []. rewrite app_nil_r. unfold terminals. cbn. split_and!; try done; intros *; rewrite ?elem_of_nil; tauto. }
  destruct (t !! s) as [m|] eqn:Ht.
  - apply NoDup_cons in Hn as [Hs Hn]. specialize (IH (delete s t) (c ∖ {[s]}) (d ++ [m]) Hn).
    destruct (release _ _ _ _) as [[[order' t'] c'] d'].
    destruct IH as (ms & -> & -> & H1 & H2 & H3 & H4 & H5).
    { intros s' m' [_ H]%lookup_delete_Some. by apply Hk. }
    exists (m :: ms). pose proof (Hk _ _ Ht) as Hm.
    assert (Hts : terminals (m :: ms) = s :: terminals ms) by (unfold terminals; cbn; by rewrite Hm).
    rewrite Hts, <- app_assoc. split; [done|]. split; [done|]. split; [|split; [|split; [|split; [|done]]]].
    + intros x [->|Hx]%elem_of_cons; [by eexists|]. apply H1 in Hx as [y Hy].
      apply lookup_delete_Some in Hy as [_ Hy]. by eexists.
    + intros x y. rewrite H2, lookup_delete_Some, not_elem_of_cons. intuition congruence.
    + intros x. rewrite H3, elem_of_difference, elem_of_singleton, not_elem_of_cons. tauto.
    + intros x [->|Hx]%elem_of_cons; [by eexists|]. apply H4 in Hx as [y Hy].
      apply lookup_delete_Some in Hy as [_ Hy]. by eexists.
  - exists []. rewrite app_nil_r. unfold terminals. cbn. split_and!; try done; intros *;
      rewrite ?elem_of_nil; first [tauto|congruence].
Qed.

Lemma wf_release h q : wf h q -> wf h (release_ordered q) /\ released (release_ordered q).
Proof.
  intros H. pose proof (wf_order_nodup h q H) as Hn.
  pose proof (release_spec (submission_order q) (terminal q) (cancelled q) (delivered_messages q) Hn
    (fun s m E => proj1 (proj2 (wf_terminal h q H s m E)))) as Hr. unfold release_ordered.
  destruct (release _ _ _ _) as [[[order t] c] d].
  destruct Hr as (ms & -> & Ho & H1 & H2 & H3 & H4 & H5). split; [|exact H5].
  assert (Hin : forall s, s ∈ submission_order q -> terminal q !! s = None -> s ∈ order /\ t !! s = None).
  { intros s Hs Hnone. rewrite Ho, elem_of_app in Hs. split.
    - destruct Hs as [Hs|]; [|done]. apply H1 in Hs as [m Hm]. congruence.
    - destruct (t !! s) eqn:E; [|done]. apply H2 in E as [E _]. congruence. }
  constructor; cbn; try apply H.
  - by rewrite (wf_order h q H), Ho, (app_assoc _ _ ms), (terminals_app _ ms), <- app_assoc.
  - intros r Hr. apply Hin; by apply (wf_queued h q H).
  - intros s m [Hm Hs]%H2. destruct (wf_terminal h q H s m Hm) as (Hi & Hk & Hp).
    rewrite Ho, elem_of_app in Hi. split; [|done]. tauto.
  - intros m. rewrite app_assoc, elem_of_app. intros [Hm|Hm]; [by apply (wf_messages h q H)|].
    intros _. apply H4 in Hm as [s Hm]. by apply (wf_terminal h q H s m).
  - intros s [Hs Hns]%H3. apply (wf_cancelled h q H) in Hs as [m Hm]. exists m. by apply H2.
  - intros s Hs. assert (Hs' : s ∈ submission_order q) by (rewrite Ho; apply elem_of_app; by right).
    destruct (wf_covered h q H s Hs') as [[m Hm]|]; [left|by right]. exists m. apply H2. split; [done|].
    rewrite Ho, NoDup_app in Hn. destruct Hn as (_ & Hn & _). intros Hin'. by apply (Hn s).
  - pose proof (wf_bounded h q H) as Hb. unfold outstanding in *. rewrite Ho, length_app in Hb. cbn. lia.
Qed.
(** *** Dispatching *)

Lemma dispatch_spec i ws rs :
  let '(commands, ws', rs') := dispatch i ws rs in
  rs = run_requests commands ++ rs' /\
  (rs' = [] \/ forall w, w ∈ ws' -> ready w = true -> failed w = false -> is_Some (running w)) /\
  (forall s, running_on ws' s <-> running_on ws s \/ s ∈ (sequence <$> run_requests commands)) /\
  (forall w, w ∈ ws' -> failed w = true -> w ∈ ws) /\
  failed <$> ws' = failed <$> ws /\
  (forall c, c ∈ commands -> exists j r w, c = Run (i + j) r /\
     ws !! j = Some w /\ ready w = true /\ failed w = false /\ running w = None).
Proof.
  assert (Hon : forall w ws s, running_on (w :: ws) s <-> running w = Some s \/ running_on ws s).
  { intros w l s. unfold running_on. setoid_rewrite elem_of_cons. naive_solver. }
  revert i rs. induction ws as [|w ws IH]; intros i rs; cbn [dispatch].
  { split_and!; try done; [right; intros w; rewrite elem_of_nil; tauto|cbn; intros s; rewrite elem_of_nil; tauto
      |intros c; rewrite elem_of_nil; tauto]. }
  destruct (negb (ready w) || failed w || _) eqn:E.
  - specialize (IH (S i) rs). destruct (dispatch (S i) ws rs) as [[cs ws'] rs'].
    destruct IH as (-> & H1 & H2 & H3 & H4 & H5). split_and!; try done.
    + destruct H1 as [|H1]; [by left|right]. intros w' [->|Hw]%elem_of_cons; [|by apply H1].
      intros Hr Hf. rewrite Hr, Hf in E. cbn in E. by apply bool_decide_eq_true in E.
    + intros s. rewrite !Hon, H2. tauto.
    + intros w'. rewrite !elem_of_cons. naive_solver.
    + cbn. by rewrite H4.
    + intros c Hc. destruct (H5 c Hc) as (j & r & w' & -> & Hj). exists (S j), r, w'.
      split; [f_equal; lia|done].
  - apply orb_false_iff in E as [[Er%negb_false_iff Ef]%orb_false_iff En%bool_decide_eq_false].
    rewrite <- eq_None_not_Some in En. destruct rs as [|r rs].
    + split_and!; try done; [by left|cbn; intros s; rewrite elem_of_nil; tauto|intros c; rewrite elem_of_nil; tauto].
    + specialize (IH (S i) rs). destruct (dispatch (S i) ws rs) as [[cs ws'] rs'].
      destruct IH as (-> & H1 & H2 & H3 & H4 & H5). split_and!; try done.
      * destruct H1 as [|H1]; [by left|right]. intros w' [->|Hw]%elem_of_cons; [by eexists|by apply H1].
      * intros s. rewrite !Hon, H2, En. cbn. rewrite elem_of_cons. naive_solver.
      * intros w'. rewrite !elem_of_cons. intros [->|Hw]; [cbn; congruence|]. eauto.
      * cbn. by rewrite H4.
      * intros c [->|Hc]%elem_of_cons; [exists O, r, w; rewrite Nat.add_0_r; eauto|].
        destruct (H5 c Hc) as (j & r' & w' & -> & Hj). exists (S j), r', w'. split; [f_equal; lia|done].
Qed.

(** The history after some commands have been handed out. *)
Definition issue (commands : list WorkerHostCommand) (h : History) : History :=
  mkHistory (accepted_requests h) (issued h ++ commands) (received h).

Lemma wf_dispatch h q :
  wf h q -> released q ->
  let '(commands, q') := dispatch_ready_workers q in
  wf (issue commands h) q' /\ released q' /\ conserving q'.
Proof.
  intros H Hrel. unfold dispatch_ready_workers. pose proof (dispatch_spec 0 (workers q) (queued q)) as Hd.
  destruct (dispatch _ _ _) as [[cs ws] rs]. destruct Hd as (Hq & H1 & H2 & H3 & _).
  split; [|by split]. constructor; cbn; try apply H.
  - rewrite run_requests_app, <- app_assoc, <- Hq. apply H.
  - intros r Hr. apply (wf_queued h q H). rewrite Hq. apply elem_of_app. by right.
  - intros s. rewrite H2, run_requests_app, fmap_app, elem_of_app. intros [Hs|]; [left|by right].
    by apply (wf_running h q H).
  - intros w Hw Hf. apply (wf_failed h q H); auto.
  - intros s Hs. rewrite H2. destruct (wf_covered h q H s Hs) as [|[Hs'|]]; [by left| |tauto].
    rewrite Hq, fmap_app, elem_of_app in Hs'. tauto.
Qed.
(** *** Settling requests *)

Lemma elem_of_list_insert {A} (l : list A) i x y : x ∈ <[i := y]> l -> x = y \/ x ∈ l.
Proof.
  intros [j Hj]%list_elem_of_lookup. destruct (decide (i = j)) as [->|Hne].
  - apply list_lookup_insert_Some in Hj as [(_ & <- & _)|(? & _)]; [by left|done].
  - rewrite list_lookup_insert_ne in Hj by done. right. by apply list_elem_of_lookup_2 in Hj.
Qed.

Lemma running_insert ws i w' s : running_on (<[i := w']> ws) s -> running w' = Some s \/ running_on ws s.
Proof. intros (w & [->|Hw]%elem_of_list_insert & Hr); [by left|right; by exists w]. Qed.

Lemma running_insert_other ws i w w' s :
  ws !! i = Some w -> running_on ws s -> running w = Some s \/ running_on (<[i := w']> ws) s.
Proof.
  intros Hi (w2 & [j Hj]%list_elem_of_lookup & Hr). destruct (decide (i = j)) as [->|Hne].
  - left. congruence.
  - right. exists w2. split; [|done]. apply list_elem_of_lookup. exists j. by rewrite list_lookup_insert_ne.
Qed.

(** Workers that only lose requests, requests that only leave the queue, and results for those
    that are no longer waiting or running. *)
Lemma wf_settle h q ws rs t c :
  wf h q ->
  (forall w, w ∈ ws -> failed w = true -> running w = None /\ ready w = false) ->
  (forall s, running_on ws s -> running_on (workers q) s) ->
  rs `sublist_of` queued q ->
  (forall s m, terminal q !! s = Some m -> t !! s = Some m) ->
  (forall s m, t !! s = Some m -> terminal q !! s = Some m \/
     (s ∈ submission_order q /\ terminal_sequence m = Some s /\ P m)) ->
  (forall r, r ∈ rs -> t !! sequence r = None) ->
  (forall s, s ∈ c -> is_Some (t !! s)) ->
  (forall s, s ∈ submission_order q -> t !! s = None -> s ∈ (sequence <$> rs) \/ running_on ws s) ->
  wf h (set_terminal t (set_cancelled c (set_queued rs (set_workers ws q)))).
Proof.
  intros H Hf Hrun Hrs Hold Hnew Hq Hc Hcov. constructor; cbn; try apply H; try done.
  - etrans; [|apply (wf_runs h q H)]. by apply sublist_app.
  - intros r Hr. split; [|by apply Hq]. apply (wf_queued h q H). by apply (elem_of_sublist rs).
  - intros s m Hm. destruct (Hnew s m Hm) as [Ho|]; [by apply (wf_terminal h q H)|done].
  - intros s Hs. apply (wf_running h q H). by apply Hrun.
  - intros s Hs. destruct (t !! s) eqn:E; [left; by eexists|right]. by apply Hcov.
Qed.

Lemma runs_nodup h q : wf h q -> NoDup (sequence <$> (run_requests (issued h) ++ queued q)).
Proof.
  intros H. apply (sublist_NoDup _ (sequence <$> accepted_requests h)); [by apply (wf_accepted_nodup h q)|].
  apply fmap_sublist, H.
Qed.

Lemma queued_not_running h q r s :
  wf h q -> r ∈ queued q -> running_on (workers q) s -> sequence r <> s.
Proof.
  intros H Hr Hs <-. pose proof (runs_nodup h q H) as Hn. rewrite fmap_app, NoDup_app in Hn.
  destruct Hn as (_ & Hn & _). apply (Hn (sequence r)).
  - by apply (wf_running h q H).
  - by apply list_elem_of_fmap_2.
Qed.

Lemma wf_id h q : wf h q -> wf h (set_terminal (terminal q) (set_cancelled (cancelled q) (set_queued (queued q) (set_workers (workers q) q)))).
Proof. by destruct q. Qed.

(** A worker whose fields change but not its request. *)
Lemma wf_worker h q i w w' :
  wf h q -> workers q !! i = Some w ->
  (failed w' = true -> running w' = None /\ ready w' = false) ->
  (running w' = running w \/
   running w' = None /\ forall s, running w = Some s -> s ∈ submission_order q -> is_Some (terminal q !! s)) ->
  wf h (set_workers (<[i := w']> (workers q)) q).
Proof.
  intros H Hi Hf Hr.
  enough (wf h (set_terminal (terminal q) (set_cancelled (cancelled q) (set_queued (queued q)
    (set_workers (<[i := w']> (workers q)) q))))) by (by destruct q).
  apply wf_settle; try done; try apply H; eauto.
  - intros x [->|Hx]%elem_of_list_insert; [done|by apply (wf_failed h q H)].
  - intros s [E|]%running_insert; [|done]. destruct Hr as [Hr|[Hr _]]; [|congruence].
    exists w. split; [by apply list_elem_of_lookup_2 in Hi|congruence].
  - intros s Hs Hn. destruct (wf_covered h q H s Hs) as [[? E]|[|Hon]]; [congruence|by left|right].
    destruct (running_insert_other _ _ _ w' _ Hi Hon) as [E|]; [|done].
    destruct Hr as [Hr|[_ Hr]]; [|destruct (Hr s E Hs); congruence].
    exists w'. split; [|congruence]. apply list_elem_of_lookup. exists i.
    apply list_lookup_insert_eq. by apply lookup_lt_Some in Hi.
Qed.
(** A worker gives up its request and, unless it was cancelled, the request gets a result. *)
Lemma wf_finish h q i w w' s m (record : bool) :
  wf h q -> released q -> workers q !! i = Some w -> running w = Some s -> running w' = None ->
  (failed w' = true -> ready w' = false) -> terminal_sequence m = Some s -> P m ->
  (record = false -> s ∈ submission_order q -> is_Some (terminal q !! s)) ->
  let q1 := set_workers (<[i := w']> (workers q)) q in
  let q2 := if record then record_terminal m q1 else q1 in
  wf h q2 /\ released q2.
Proof.
  intros H Hrel Hi Hw Hw' Hf Hm Hp Hrec q1 q2.
  assert (Hfree : (s ∈ submission_order q -> is_Some (terminal q !! s)) -> wf h q1).
  { intros Hs. apply (wf_worker h q i w); auto. right. split; [done|]. intros s' [= <-]%(eq_trans (eq_sym Hw)). done. }
  unfold q2. destruct record; [|split; [by auto|done]]. unfold record_terminal. rewrite Hm.
  assert (Hc : contains_sequence q1 s = contains_sequence q s) by done.
  rewrite Hc. change (terminal q1) with (terminal q).
  destruct (contains_sequence q s && _) eqn:E.
  - apply andb_true_iff in E as [Ein%bool_decide_eq_true En%negb_true_iff%bool_decide_eq_false].
    rewrite <- eq_None_not_Some in En. apply wf_release.
    enough (wf h (set_terminal (<[s := m]> (terminal q)) (set_cancelled (cancelled q) (set_queued (queued q) q1))))
      by (by destruct q).
    unfold q1. apply wf_settle; try done.
    + intros x [->|Hx]%elem_of_list_insert; [by auto|by apply (wf_failed h q H)].
    + intros s' [E|]%running_insert; [congruence|done].
    + intros s' m' E. rewrite lookup_insert_ne by congruence. done.
    + intros s' m' [[<- <-]|[_ E]]%lookup_insert_Some; [by right|by left].
    + intros r Hr. rewrite lookup_insert_ne; [by apply (wf_queued h q H)|].
      apply not_eq_sym, (queued_not_running h q); try done. exists w.
      split; [by apply list_elem_of_lookup_2 in Hi|done].
    + intros s' Hs'. destruct (decide (s = s')) as [->|]; [rewrite lookup_insert_eq; by eexists|].
      rewrite lookup_insert_ne by done. by apply (wf_cancelled h q H).
    + intros s' Hs' [E Hne]%lookup_insert_None. destruct (wf_covered h q H s' Hs') as [[? ?]|[|Hon]];
        [congruence|by left|right]. destruct (running_insert_other _ _ _ w' _ Hi Hon); [congruence|done].
  - apply wf_release, Hfree. intros Hs. unfold contains_sequence in E. rewrite bool_decide_eq_true_2 in E by done.
    by apply negb_false_iff, bool_decide_eq_true in E.
Qed.

Lemma fail_all_spec (rs : list WorkerRequest) (t : gmap Z WorkerMessage) :
  let t' := fold_left (fun t r => <[sequence r := Failed (sequence r) Unavailable]> t) rs t in
  (forall s, s ∉ (sequence <$> rs) -> t' !! s = t !! s) /\
  (forall s, s ∈ (sequence <$> rs) -> t' !! s = Some (Failed s Unavailable)).
Proof.
  revert t. induction rs as [|r rs IH]; intros t t'; [split; [done|cbn; intros s; by rewrite elem_of_nil]|].
  cbn in t'. destruct (IH (<[sequence r := Failed (sequence r) Unavailable]> t)) as [H1 H2]. split.
  - intros s Hs. cbn in Hs. rewrite not_elem_of_cons in Hs. destruct Hs as [Hne Hs].
    unfold t'. rewrite H1 by done. by apply lookup_insert_ne.
  - intros s Hs. destruct (decide (s ∈ (sequence <$> rs))) as [Hin|Hin]; [by apply H2|].
    cbn in Hs. apply elem_of_cons in Hs as [->|]; [|done]. unfold t'. rewrite H1 by done. apply lookup_insert_eq.
Qed.

Lemma wf_fail_pending h q :
  wf h q -> released q -> (forall s, P (Failed s Unavailable)) ->
  wf h (fail_pending_if_unavailable q) /\ released (fail_pending_if_unavailable q).
Proof.
  intros H Hrel HP. unfold fail_pending_if_unavailable. destruct (forallb _ _); [|done].
  destruct (fail_all_spec (queued q) (terminal q)) as [H1 H2].
  set (t := fold_left _ _ _) in *. apply wf_release.
  enough (wf h (set_terminal t (set_cancelled (cancelled q) (set_queued [] (set_workers (workers q) q)))))
    by (by destruct q).
  assert (Hold : forall s m, terminal q !! s = Some m -> t !! s = Some m).
  { intros s m Hm. rewrite H1; [done|]. intros (r & -> & Hr)%list_elem_of_fmap.
    apply (wf_queued h q H) in Hr as [_ Hr]. congruence. }
  apply wf_settle; try done.
  - apply (wf_failed h q H).
  - apply sublist_nil_l.
  - intros s m Hm. destruct (decide (s ∈ (sequence <$> queued q))) as [Hs|Hs].
    + right. rewrite H2 in Hm by done. injection Hm as <-. apply list_elem_of_fmap in Hs as (r & -> & Hr).
      split; [by apply (wf_queued h q H)|]. by split.
    + left. by rewrite H1 in Hm.
  - intros r. by rewrite elem_of_nil.
  - intros s Hs. apply (wf_cancelled h q H) in Hs as [m Hm]. exists m. by apply Hold.
  - intros s Hs Hn. destruct (wf_covered h q H s Hs) as [[m Hm]|[Hin|]]; [|by rewrite H2 in Hn|by right].
    apply Hold in Hm. congruence.
Qed.

Lemma remove_request_spec s rs :
  NoDup (sequence <$> rs) ->
  remove_request s rs `sublist_of` rs /\ (forall r, r ∈ remove_request s rs -> sequence r <> s) /\
  (forall r, r ∈ rs -> sequence r <> s -> r ∈ remove_request s rs).
Proof.
  induction rs as [|x rs IH]; [intros _; split; [done|]; split; intros r; rewrite elem_of_nil; tauto|].
  cbn. intros [Hx Hn]%NoDup_cons. destruct (IH Hn) as (H1 & H2 & H3).
  destruct (Z.eqb_spec (sequence x) s) as [<-|Hne].
  - split; [by apply sublist_cons|]. split.
    + intros r Hr E. apply Hx. rewrite <- E. by apply list_elem_of_fmap_2.
    + intros r. rewrite elem_of_cons. naive_solver.
  - split; [by apply sublist_skip|]. split; intros r; rewrite !elem_of_cons; naive_solver.
Qed.

Lemma wf_cancel h q s :
  wf h q -> s ∈ submission_order q -> P (Failed s Cancelled) ->
  let q' := record_terminal (Failed s Cancelled)
    (set_queued (remove_request s (queued q)) (set_cancelled (cancelled q ∪ {[s]}) q)) in
  wf h q' /\ released q'.
Proof.
  intros H Hs HP q'. unfold q', record_terminal. cbn [terminal_sequence].
  assert (Hn : NoDup (sequence <$> queued q)).
  { pose proof (runs_nodup h q H) as Hn. rewrite fmap_app, NoDup_app in Hn. tauto. }
  destruct (remove_request_spec s (queued q) Hn) as (R1 & R2 & R3).
  assert (Hset : forall t, (forall s' m, s' <> s -> t !! s' = Some m <-> terminal q !! s' = Some m) ->
    (t !! s = terminal q !! s /\ is_Some (t !! s) \/ terminal q !! s = None /\ t !! s = Some (Failed s Cancelled)) ->
    wf h (set_terminal t (set_queued (remove_request s (queued q)) (set_cancelled (cancelled q ∪ {[s]}) q)))).
  { intros t Hother Hhere.
    enough (wf h (set_terminal t (set_cancelled (cancelled q ∪ {[s]})
      (set_queued (remove_request s (queued q)) (set_workers (workers q) q))))) by (by destruct q).
    assert (Hsome : is_Some (t !! s)) by (destruct Hhere as [[_ ?]|[_ ->]]; [done|by eexists]).
    assert (Hold : forall s' m, terminal q !! s' = Some m -> t !! s' = Some m).
    { intros s' m Hm. destruct (decide (s' = s)) as [->|]; [|by apply Hother].
      destruct Hhere as [[-> _]|[E _]]; [done|congruence]. }
    apply wf_settle; try done.
    - apply (wf_failed h q H).
    - intros s' m Hm. destruct (decide (s' = s)) as [->|]; [|left; by apply Hother].
      destruct Hhere as [[E _]|[_ E]]; [left; congruence|right].
      rewrite E in Hm. injection Hm as <-. done.
    - intros r Hr. destruct (t !! sequence r) eqn:E; [|done].
      apply Hother in E; [|by apply R2]. assert (Hq : r ∈ queued q) by by apply (elem_of_sublist _ _ _ Hr R1).
      apply (wf_queued h q H) in Hq as [_ Hq]. congruence.
    - intros s' [Hc| ->%elem_of_singleton]%elem_of_union; [|done].
      apply (wf_cancelled h q H) in Hc as [m Hm]. exists m. by apply Hold.
    - intros s' Hs' E. assert (Hne : s' <> s) by (intros ->; destruct Hsome; congruence).
      destruct (wf_covered h q H s' Hs') as [[m Hm]|[(r & -> & Hr)%list_elem_of_fmap|]]; [|left|by right].
      + apply Hold in Hm. congruence.
      + apply list_elem_of_fmap_2. by apply R3. }
  match goal with |- context [if ?b then _ else _] => destruct b eqn:E end.
  - apply wf_release, Hset.
    + intros s' m Hne. by rewrite lookup_insert_ne.
    + right. rewrite lookup_insert_eq. split; [|done].
      apply andb_true_iff in E as [_ E%negb_true_iff%bool_decide_eq_false]. by apply eq_None_not_Some.
  - apply wf_release. enough (wf h (set_terminal (terminal q) (set_queued (remove_request s (queued q))
      (set_cancelled (cancelled q ∪ {[s]}) q)))) by (by destruct q).
    apply Hset; [done|]. left. split; [done|]. unfold contains_sequence in E. cbn in E.
    rewrite bool_decide_eq_true_2 in E by done. by apply negb_false_iff, bool_decide_eq_true in E.
Qed.
(** *** Calls *)

Lemma ascending_snoc (l : list Z) (y : Z) :
  StronglySorted Z.lt l -> (forall x, last l = Some x -> x < y) -> StronglySorted Z.lt (l ++ [y]).
Proof.
  induction 1 as [|x l Hl IH Hx]; intros Hy; [repeat constructor|]. cbn. constructor.
  - apply IH. intros z Hz. apply Hy. destruct l; [done|exact Hz].
  - apply Forall_app. split; [done|]. repeat constructor.
    destruct (last l) as [z|] eqn:E; [|apply last_None in E as ->; by apply Hy].
    assert (z < y) by (apply Hy; destruct l; [done|exact E]).
    rewrite Forall_forall in Hx. apply last_Some_elem_of in E. specialize (Hx z E). lia.
Qed.

Definition with_request (r : WorkerRequest) (h : History) : History :=
  mkHistory (accepted_requests h ++ [r]) (issued h) (received h).

Lemma wf_accept h q r :
  wf h q -> released q -> (forall s, last_submitted_sequence q = Some s -> s < sequence r) ->
  (outstanding q < max_outstanding q)%nat ->
  wf (with_request r h) (accept r q) /\ released (accept r q).
Proof.
  intros H Hrel Hlast Hroom.
  assert (Hs : StronglySorted Z.lt ((sequence <$> accepted_requests h) ++ [sequence r])).
  { apply ascending_snoc; [apply H|]. intros x Hx. apply Hlast. by rewrite (wf_last h q H). }
  assert (Hfresh : terminal q !! sequence r = None).
  { destruct (terminal q !! sequence r) eqn:E; [|done]. apply (wf_terminal h q H) in E as [Hin _].
    apply ascending_nodup in Hs. rewrite (wf_order h q H), !NoDup_app in Hs.
    destruct Hs as (_ & Hs & _). exfalso. apply (Hs (sequence r)); [apply elem_of_app; by right|by left]. }
  split.
  - constructor; cbn; try apply H.
    + by rewrite fmap_app, (wf_order h q H), <- app_assoc.
    + by rewrite fmap_app.
    + by rewrite fmap_last, last_snoc.
    + rewrite app_assoc. apply sublist_app; [apply H|done].
    + intros r' [Hr| ->%list_elem_of_singleton]%elem_of_app.
      * destruct (wf_queued h q H r' Hr). split; [apply elem_of_app; by left|done].
      * split; [apply elem_of_app; right; by left|done].
    + intros s m Hm. destruct (wf_terminal h q H s m Hm). split; [apply elem_of_app; by left|done].
    + intros s [Hin| ->%list_elem_of_singleton]%elem_of_app.
      * rewrite fmap_app, elem_of_app. destruct (wf_covered h q H s Hin) as [|[|]]; tauto.
      * right. left. rewrite fmap_app. apply elem_of_app. right. by left.
    + unfold outstanding in *. cbn. rewrite length_app. cbn. lia.
  - intros s. unfold accept. cbn. destruct (submission_order q) as [|s' l] eqn:E; cbn.
    + by intros [= <-].
    + intros [= <-]. apply Hrel. by rewrite E.
Qed.

Lemma wf_messages_moved h q d got :
  received h ++ delivered_messages q = got ++ d ->
  wf h q -> wf (mkHistory (accepted_requests h) (issued h) got) (set_delivered d q).
Proof.
  intros E H. constructor; cbn; try apply H; rewrite <- E; apply H.
Qed.

Lemma wf_progress h q s c t : wf h q -> wf h (worker_progress s c t q).
Proof.
  intros H. unfold worker_progress. destruct (_ && _); [|done].
  constructor; cbn; try apply H; rewrite app_assoc.
  - rewrite (wf_order h q H), (terminals_app _ [_]). cbn. by rewrite app_nil_r.
  - intros m [Hm| ->%list_elem_of_singleton]%elem_of_app; [by apply (wf_messages h q H)|by intros []].
Qed.

(** The results a call may record. *)
Definition allowed (op : QueueOp) (q : WorkerOperationQueue) : Prop :=
  match op with
  | ReportCompleted i reported res =>
      (exists w s, workers q !! i = Some w /\ running w = Some s /\
         match reported with Some s' => s' = s | None => True end /\ P (message_of s res)) \/
      (forall s m, terminal_sequence m = Some s -> P m)
  | ReportFailed _ _ | Cancel _ => forall s m, terminal_sequence m = Some s -> P m
  | _ => True
  end.

Lemma wf_worker_failed h q i e :
  wf h q -> released q -> conserving q -> (forall s m, terminal_sequence m = Some s -> P m) ->
  let '(commands, q') := worker_failed i e q in
  wf (issue commands h) q' /\ released q' /\ conserving q'.
Proof.
  intros H Hrel Hcons HP. unfold worker_failed. destruct (workers q !! i) as [w|] eqn:Hi.
  2: { unfold issue. rewrite app_nil_r. by destruct h. }
  match goal with |- context [fail_pending_if_unavailable ?q2] =>
    assert (Hq : wf h q2 /\ released q2) end.
  { destruct (running w) as [s|] eqn:Hr.
    - pose proof (wf_finish h q i w (mkWorker false true None) s (Failed s e)
        (negb (bool_decide (s ∈ cancelled q))) H Hrel Hi Hr eq_refl (fun _ => eq_refl) eq_refl) as Hf.
      cbn [cancelled set_workers]. destruct (bool_decide (s ∈ cancelled q)) eqn:Hc; cbn [negb] in Hf; apply Hf; try done.
      1,3: by apply (HP s).
      intros _ _. apply bool_decide_eq_true in Hc. by apply (wf_cancelled h q H).
    - split; [|done]. apply (wf_worker h q i w); [done|done|done|left; by rewrite Hr]. }
  destruct Hq as [Hq1 Hq2].
  destruct (wf_fail_pending h _ Hq1 Hq2 (fun s => HP s (Failed s Unavailable) eq_refl)) as [H1 H2].
  by apply wf_dispatch.
Qed.

Lemma wf_worker_completed h q i reported res :
  wf h q -> released q -> conserving q -> allowed (ReportCompleted i reported res) q ->
  let '(commands, q') := worker_completed i reported res q in
  wf (issue commands h) q' /\ released q' /\ conserving q'.
Proof.
  intros H Hrel Hcons Ha. unfold worker_completed.
  destruct (workers q !! i) as [[r f [s|]]|] eqn:Hi.
  2-3: apply wf_worker_failed; try done; destruct Ha as [(w & s & Hw & Hr & _)|Ha]; [|exact Ha];
    rewrite Hi in Hw; first [done|by injection Hw as <-].
  destruct (match reported with Some _ => _ | None => _ end) eqn:Hrep.
  - apply wf_worker_failed; try done. destruct Ha as [(w & s' & Hw & Hr & Hs & _)|Ha]; [|exact Ha].
    exfalso. rewrite Hi in Hw. injection Hw as <-. cbn in Hr. injection Hr as ->.
    destruct reported as [s''|]; [subst|done]. by rewrite Z.eqb_refl in Hrep.
  - assert (HP : P (message_of s res)).
    { destruct Ha as [(w & s' & Hw & Hr & _ & Hp)|Ha].
      - rewrite Hi in Hw. injection Hw as <-. cbn in Hr. by injection Hr as ->.
      - apply (Ha s). by destruct res. }
    enough (Hq : forall q2, q2 = (if contains_sequence q s && negb (bool_decide (s ∈ cancelled q))
      then record_terminal (message_of s res) (set_workers (<[i := mkWorker r f None]> (workers q)) q)
      else set_workers (<[i := mkWorker r f None]> (workers q)) q) -> wf h q2 /\ released q2)
      by (destruct (Hq _ eq_refl); by apply wf_dispatch).
    intros q2 ->.
    pose proof (wf_finish h q i (mkWorker r f (Some s)) (mkWorker r f None) s (message_of s res)
      (contains_sequence q s && negb (bool_decide (s ∈ cancelled q))) H Hrel Hi eq_refl eq_refl) as Hf.
    apply Hf; try done; [|by destruct res|].
    + cbn. intros ->. apply list_elem_of_lookup_2, (wf_failed h q H) in Hi as [? _]; done.
    + intros E Hin. unfold contains_sequence in E. rewrite bool_decide_eq_true_2 in E by done. cbn in E.
      apply negb_false_iff, bool_decide_eq_true in E. by apply (wf_cancelled h q H).
Qed.
Lemma wf_submit h q r :
  wf h q -> released q -> conserving q ->
  match submit r q with
  | (Ok commands, q') => wf (issue commands (with_request r h)) q' /\ released q' /\ conserving q'
  | (Err _, q') => q' = q
  end.
Proof.
  intros H Hrel Hcons. unfold submit. destruct (negb _); [done|].
  destruct (match last_submitted_sequence q with Some _ => _ | None => _ end) eqn:Hl; [done|].
  destruct (Nat.leb_spec (max_outstanding q) (outstanding q)); [done|].
  destruct (wf_accept h q r H Hrel) as [Ha Hr]; [|done|].
  { intros s Hs. rewrite Hs in Hl. by apply Z.leb_gt in Hl. }
  pose proof (wf_dispatch _ _ Ha Hr) as Hd. by destruct (dispatch_ready_workers _).
Qed.

Lemma wf_worker_ready h q i :
  wf h q -> released q ->
  let '(commands, q') := worker_ready i q in wf (issue commands h) q' /\ released q' /\ conserving q'.
Proof.
  intros H Hrel. unfold worker_ready. apply wf_dispatch; destruct (workers q !! i) as [w|] eqn:Hi; try done;
    destruct (failed w) eqn:Hf; try done.
  apply (wf_worker h q i w); try done. by left.
Qed.

Lemma wf_same_runs h h' q :
  accepted_requests h' = accepted_requests h -> received h' = received h ->
  run_requests (issued h') = run_requests (issued h) -> wf h q -> wf h' q.
Proof. intros E1 E2 E3 H. constructor; rewrite ?E1, ?E2, ?E3; apply H. Qed.

Lemma wf_cancel_call h q s :
  wf h q -> released q -> conserving q -> (forall s m, terminal_sequence m = Some s -> P m) ->
  let '(_, commands, q') := cancel s q in wf (issue commands h) q' /\ released q' /\ conserving q'.
Proof.
  intros H Hrel Hcons HP. unfold cancel. destruct (contains_sequence q s) eqn:Hc; cbn [negb].
  2: { unfold issue. rewrite app_nil_r. by destruct h. }
  apply bool_decide_eq_true in Hc.
  destruct (wf_cancel h q s H Hc (HP s (Failed s Cancelled) eq_refl)) as [H1 H2].
  change (queued (set_cancelled (cancelled q ∪ {[s]}) q)) with (queued q).
  change (workers (set_queued _ _)) with (workers q).
  set (q1 := record_terminal _ _) in *. pose proof (wf_dispatch _ _ H1 H2) as Hd.
  destruct (dispatch_ready_workers q1) as [more q2]. destruct Hd as [Hd Hd2]. split; [|done].
  assert (Hruns : forall i ws, run_requests (cancel_commands s i ws) = []).
  { intros i ws. revert i. induction ws as [|w ws IH]; intros i; [done|]. cbn [cancel_commands].
    rewrite run_requests_app, IH. by destruct (bool_decide _). }
  refine (wf_same_runs (issue more h) (issue (cancel_commands s 0 (workers q) ++ more) h) q2 eq_refl eq_refl _ Hd). unfold issue. cbn [issued].
  by rewrite !run_requests_app, Hruns.
Qed.

(** Every call keeps the invariant. *)
Lemma wf_step h q op :
  wf h q -> released q -> conserving q -> allowed op q ->
  let '(h', q') := step (h, q) op in wf h' q' /\ released q' /\ conserving q'.
Proof.
  intros H Hrel Hcons Ha.
  assert (Hnil : forall h, mkHistory (accepted_requests h ++ []) (issued h ++ []) (received h ++ []) = h).
  { intros []. cbn. by rewrite !app_nil_r. }
  destruct op as [r|i|s c t|i rep res|i e|s|]; cbn [step perform accepts].
  - pose proof (wf_submit h q r H Hrel Hcons) as Hs. destruct (submit r q) as [[cs|e] q']; cbn [is_ok fst].
    + by rewrite app_nil_r.
    + subst q'. by rewrite Hnil.
  - pose proof (wf_worker_ready h q i H Hrel) as Hs. destruct (worker_ready i q). by rewrite !app_nil_r.
  - rewrite Hnil. split; [by apply wf_progress|]. unfold worker_progress. by destruct (_ && _).
  - pose proof (wf_worker_completed h q i rep res H Hrel Hcons Ha) as Hs.
    destruct (worker_completed i rep res q). by rewrite !app_nil_r.
  - pose proof (wf_worker_failed h q i e H Hrel Hcons Ha) as Hs. destruct (worker_failed i e q). by rewrite !app_nil_r.
  - pose proof (wf_cancel_call h q s H Hrel Hcons Ha) as Hs. destruct (cancel s q) as [[? ?] ?]. by rewrite !app_nil_r.
  - cbn. rewrite !app_nil_r. split; [|done]. apply wf_messages_moved; [by rewrite app_nil_r|done].
Qed.

Lemma wf_new worker_count max ops q :
  WorkerOperationQueue_new worker_count max ops = Ok q ->
  wf no_history q /\ released q /\ conserving q.
Proof.
  unfold WorkerOperationQueue_new. destruct (_ =? _)%nat; [done|]. destruct (_ <? _)%nat; [done|].
  intros [= <-]. split; [|split; [done|by left]].
  assert (Hrep : forall w, w ∈ replicate worker_count (mkWorker false false None) -> w = mkWorker false false None).
  { intros w Hw. by apply elem_of_replicate in Hw as [-> _]. }
  constructor; cbn; try done; try (by constructor); try (intros *; rewrite elem_of_nil; tauto).
  - intros s (w & ->%Hrep & Hr). done.
  - by intros w ->%Hrep.
  - unfold outstanding. cbn. lia.
Qed.

(** Calls each of which is allowed in the state it meets. *)
Fixpoint all_allowed (ops : list QueueOp) (hq : History * WorkerOperationQueue) : Prop :=
  match ops with
  | [] => True
  | op :: ops => allowed op (snd hq) /\ all_allowed ops (step hq op)
  end.

Lemma wf_steps ops h q :
  wf h q -> released q -> conserving q -> all_allowed ops (h, q) ->
  let '(h', q') := fold_left step ops (h, q) in wf h' q' /\ released q' /\ conserving q'.
Proof.
  revert h q. induction ops as [|op ops IH]; intros h q H Hrel Hcons; [done|]. cbn [all_allowed fold_left].
  intros [Ha Hall]. pose proof (wf_step h q op H Hrel Hcons Ha) as Hs.
  destruct (step (h, q) op) as [h1 q1]. destruct Hs as (? & ? & ?). by apply IH.
Qed.
End Invariant.
