(* ===== verification/WorkerQueueProperties.v ===== *)
(** What the worker queue promises its clients and hosts: results once and in order, no request
    run twice, no waiting request beside an idle worker, progress while a worker lives, and the
    results of the cooperative fallback. *)

From S2P Require Import Prelude WorkerQueue WorkerQueueProofs.
#[local] Open Scope Z_scope.

(** Nothing is asked of the results. *)
Definition any_result (m : WorkerMessage) : Prop := True.

Lemma any_allowed op q : allowed any_result op q.
Proof. destruct op; cbn; unfold any_result; auto. Qed.

Lemma any_all_allowed ops hq : all_allowed any_result ops hq.
Proof. revert hq. induction ops as [|op ops IH]; intros hq; [done|]. split; [apply any_allowed|apply IH]. Qed.

Lemma run_ops_wf P worker_count max registered q0 ops :
  WorkerOperationQueue_new worker_count max registered = Ok q0 -> all_allowed P ops (no_history, q0) ->
  let '(h, q) := run_ops ops q0 in wf P h q /\ released q /\ conserving q.
Proof.
  intros Hnew Ha. destruct (wf_new P _ _ _ _ Hnew) as (H1 & H2 & H3). by apply wf_steps.
Qed.

(** C2. Whatever the order in which workers become ready, finish, fail or report nonsense and
    requests are submitted and cancelled, every accepted request has exactly one terminal message
    released or is still outstanding, terminal messages are released in submission order, and the
    outstanding requests never exceed the configured bound. *)
Theorem worker_results_ordered worker_count max registered q0 ops :
  WorkerOperationQueue_new worker_count max registered = Ok q0 ->
  let '(h, q) := run_ops ops q0 in
  (sequence <$> accepted_requests h) = terminals (received h ++ delivered_messages q) ++ submission_order q /\
  StronglySorted Z.lt (sequence <$> accepted_requests h) /\ (outstanding q <= max_outstanding q)%nat.
Proof.
  intros Hnew. pose proof (run_ops_wf any_result _ _ _ _ ops Hnew (any_all_allowed _ _)) as H.
  destruct (run_ops ops q0) as [h q]. destruct H as (H & _). split; [apply H|]. split; apply H.
Qed.

Definition demo_request (s : Z) : WorkerRequest := mkRequest s "reverse" [s; s + 1].

Definition demo_ops : list QueueOp :=
  [Ready 0; Ready 1; Submit (demo_request 10); Submit (demo_request 11); Submit (demo_request 12);
   ReportCompleted 1 (Some 11) (Ok [12; 11]); ReportProgress 10 1 (Some 2); Cancel 12;
   ReportCompleted 0 (Some 10) (Ok [11; 10]); DrainMessages].

Definition demo_queue : WorkerOperationQueue :=
  match WorkerOperationQueue_new 2 4 ["reverse"%string] with
  | Ok q => q
  | Err _ => mkQueue [] [] [] ∅ [] ∅ 0 None ∅
  end.

Lemma worker_results_ordered_witness :
  WorkerOperationQueue_new 2 4 ["reverse"%string] = Ok demo_queue /\
  received (fst (run_ops demo_ops demo_queue)) =
    [Progress 10 1 (Some 2); Complete 10 [11; 10]; Complete 11 [12; 11]; Failed 12 Cancelled] /\
  let '(h, q) := run_ops demo_ops demo_queue in
  (sequence <$> accepted_requests h) = terminals (received h ++ delivered_messages q) ++ submission_order q /\
  StronglySorted Z.lt (sequence <$> accepted_requests h) /\ (outstanding q <= max_outstanding q)%nat.
Proof.
  split; [reflexivity|]. split; [vm_compute; reflexivity|].
  exact (worker_results_ordered 2 4 ["reverse"%string] demo_queue demo_ops eq_refl).
Defined.

(** C34. The requests handed to workers are among the accepted ones, in submission order and each
    at most once; no finished result at the head of the order is held back; and no request waits
    while a worker is ready and idle. *)
Theorem worker_runs_once worker_count max registered q0 ops :
  WorkerOperationQueue_new worker_count max registered = Ok q0 ->
  let '(h, q) := run_ops ops q0 in
  run_requests (issued h) `sublist_of` accepted_requests h /\
  NoDup (sequence <$> run_requests (issued h)) /\ released q /\ conserving q.
Proof.
  intros Hnew. pose proof (run_ops_wf any_result _ _ _ _ ops Hnew (any_all_allowed _ _)) as H.
  destruct (run_ops ops q0) as [h q]. destruct H as (H & H2 & H3).
  split; [|split; [|done]].
  - etrans; [|apply (wf_runs _ h q H)]. by apply sublist_inserts_r.
  - pose proof (runs_nodup _ h q H) as Hn. rewrite fmap_app, NoDup_app in Hn. tauto.
Qed.

Lemma worker_runs_once_witness :
  WorkerOperationQueue_new 2 4 ["reverse"%string] = Ok demo_queue /\
  run_requests (issued (fst (run_ops demo_ops demo_queue))) = [demo_request 10; demo_request 11; demo_request 12] /\
  let '(h, q) := run_ops demo_ops demo_queue in
  run_requests (issued h) `sublist_of` accepted_requests h /\
  NoDup (sequence <$> run_requests (issued h)) /\ released q /\ conserving q.
Proof.
  split; [reflexivity|]. split; [vm_compute; reflexivity|].
  exact (worker_runs_once 2 4 ["reverse"%string] demo_queue demo_ops eq_refl).
Defined.

(** ** Progress *)

(** The call is a host's answer to what it was told: a worker comes up, or finishes its request. *)
Definition answers (op : QueueOp) (q : WorkerOperationQueue) : Prop :=
  match op with
  | Ready i => exists w, workers q !! i = Some w /\ failed w = false /\ ready w = false
  | ReportCompleted i reported _ => exists w s, workers q !! i = Some w /\ running w = Some s /\
      (reported = None \/ reported = Some s)
  | _ => False
  end.

Definition some_worker (q : WorkerOperationQueue) : Prop := false ∈ (failed <$> workers q).

(** A host that answers whenever an answer is due, for as long as results are outstanding. *)
Fixpoint serve (n : nat) (host : WorkerOperationQueue -> QueueOp) (q : WorkerOperationQueue) : WorkerOperationQueue :=
  match n with
  | O => q
  | S n =>
      if (outstanding q =? 0)%nat then q
      else let '(_, _, q) := perform (host q) q in serve n host q
  end.

Definition load (w : WorkerState) : nat :=
  (if bool_decide (is_Some (running w)) then 1 else 0) + (if failed w || ready w then 0 else 1).

Definition loads (ws : list WorkerState) : nat := sum_list_with load ws.

(** The answers the queue can still use. *)
Definition work_left (q : WorkerOperationQueue) : nat := 2 * length (queued q) + loads (workers q).

Lemma loads_cons w ws : loads (w :: ws) = (load w + loads ws)%nat.
Proof. done. Qed.

Lemma loads_insert ws i w w' :
  ws !! i = Some w -> (loads (<[i := w']> ws) + load w = loads ws + load w')%nat.
Proof.
  revert i. induction ws as [|x ws IH]; intros [|i] Hi; [done|done|cbn in Hi; injection Hi as ->; cbn; lia|].
  specialize (IH i Hi). unfold loads in *. change (<[S i := w']> (x :: ws)) with (x :: <[i := w']> ws).
  cbn [sum_list_with]. lia.
Qed.

Lemma dispatch_load i ws rs :
  let '(_, ws', rs') := dispatch i ws rs in (2 * length rs' + loads ws' <= 2 * length rs + loads ws)%nat.
Proof.
  revert i rs. induction ws as [|w ws IH]; intros i rs; cbn [dispatch]; [cbn; lia|].
  destruct (_ || _ || _) eqn:E; [|destruct rs as [|r rs]; [cbn; lia|]];
    specialize (IH (S i) rs); destruct (dispatch (S i) ws rs) as [[cs ws'] rs']; rewrite !loads_cons; [lia|].
  cbn [length]. assert (load (mkWorker (ready w) (failed w) (Some (sequence r))) <= 1 + load w)%nat; [|lia].
  unfold load. cbn. destruct (bool_decide _), (failed w || ready w); lia.
Qed.

Lemma dispatch_work q :
  let '(_, q') := dispatch_ready_workers q in
  (work_left q' <= work_left q)%nat /\ (failed <$> workers q') = (failed <$> workers q).
Proof.
  unfold dispatch_ready_workers. pose proof (dispatch_load 0 (workers q) (queued q)) as H.
  pose proof (dispatch_spec 0 (workers q) (queued q)) as Hd.
  destruct (dispatch _ _ _) as [[cs ws] rs]. split; [exact H|]. apply Hd.
Qed.

Lemma release_frame q : workers (release_ordered q) = workers q /\ queued (release_ordered q) = queued q.
Proof. unfold release_ordered. by destruct (release _ _ _ _) as [[[? ?] ?] ?]. Qed.

Lemma record_frame m q : workers (record_terminal m q) = workers q /\ queued (record_terminal m q) = queued q.
Proof.
  unfold record_terminal. destruct (terminal_sequence m); [|done].
  destruct (release_frame (if contains_sequence q z && negb (bool_decide (is_Some (terminal q !! z)))
    then set_terminal (<[z:=m]> (terminal q)) q else q)) as [-> ->]. by destruct (_ && _).
Qed.

Lemma answer_work op q :
  answers op q ->
  let '(_, _, q') := perform op q in
  (work_left q' < work_left q)%nat /\ (failed <$> workers q') = (failed <$> workers q).
Proof.
  destruct op as [|i| |i rep res| | |]; try done; cbn [answers perform].
  - intros (w & Hi & Hf & Hr). unfold worker_ready. rewrite Hi, Hf. cbv iota.
    set (q1 := set_workers _ _). pose proof (dispatch_work q1) as Hd.
    destruct (dispatch_ready_workers q1) as [cs q']. destruct Hd as [Hd1 Hd2].
    pose proof (loads_insert _ _ _ (mkWorker true false (running w)) Hi) as Hl.
    split.
    + unfold work_left, q1 in *. cbn [set_workers workers queued] in Hd1. unfold load in Hl. cbn [ready failed running] in Hl.
      rewrite Hf, Hr in Hl. cbn [orb] in Hl. lia.
    + rewrite Hd2. unfold q1. cbn. rewrite list_fmap_insert. cbn. apply list_insert_id.
      by rewrite list_lookup_fmap, Hi; cbn; rewrite Hf.
  - intros ([r f o] & s & Hi & Hr & Hrep). cbn in Hr. subst o. unfold worker_completed. rewrite Hi.
    assert (Hrep' : (match rep with Some s' => negb (s' =? s) | None => false end) = false).
    { destruct Hrep as [->| ->]; [done|]. by rewrite Z.eqb_refl. }
    rewrite Hrep'. set (q1 := set_workers _ _).
    match goal with |- context [dispatch_ready_workers ?x] => set (q2 := x) end.
    assert (Hq2 : workers q2 = workers q1 /\ queued q2 = queued q1).
    { unfold q2. destruct (_ && _); [apply record_frame|done]. }
    destruct Hq2 as [Hw Hq]. pose proof (dispatch_work q2) as Hd.
    destruct (dispatch_ready_workers q2) as [cs q']. destruct Hd as [Hd1 Hd2].
    pose proof (loads_insert _ _ _ (mkWorker r f None) Hi) as Hl.
    split.
    + unfold work_left in *. rewrite Hw, Hq in Hd1. unfold q1 in Hd1. cbn [set_workers workers queued] in Hd1.
      unfold load in Hl. cbn [ready failed running] in Hl.
      rewrite bool_decide_eq_true_2, bool_decide_eq_false_2 in Hl by (first [by eexists | by intros [? ?]]). lia.
    + rewrite Hd2, Hw. unfold q1. cbn. rewrite list_fmap_insert. cbn. apply list_insert_id.
      by rewrite list_lookup_fmap, Hi.
Qed.

(** While results are outstanding and a worker lives, the host owes an answer. *)
Lemma answer_due h q :
  wf any_result h q -> released q -> conserving q -> some_worker q -> outstanding q <> O ->
  exists op, answers op q.
Proof.
  intros H Hrel Hcons Hlive Hout.
  assert (Hrun : forall w s, w ∈ workers q -> running w = Some s -> exists op, answers op q).
  { intros w s [i Hi]%list_elem_of_lookup Hr. exists (ReportCompleted i None (Ok [])). exists w, s. auto. }
  unfold outstanding in Hout. destruct (submission_order q) as [|s order] eqn:Ho; [done|].
  destruct (wf_covered _ h q H s) as [[m Hm]|[Hq|(w & Hw & Hr)]]; [rewrite Ho; by left| | |by eapply Hrun].
  - assert (Hn : terminal q !! s = None) by (apply Hrel; by rewrite Ho). congruence.
  - destruct Hcons as [E|Hcons]; [rewrite E in Hq; by apply elem_of_nil in Hq|].
    apply list_elem_of_fmap in Hlive as (w & Hf & Hw). symmetry in Hf. destruct (ready w) eqn:Hr.
    + destruct (Hcons w Hw Hr Hf) as [s' Hs']. by eapply Hrun.
    + apply list_elem_of_lookup in Hw as [i Hi]. exists (Ready i), w. auto.
Qed.

(** C3. As long as one worker has not failed, every outstanding request gets its result: whatever
    state the queue has reached, a host that keeps answering (bringing workers up, finishing the
    requests they run, in any order and with any results) empties it within [work_left] answers. *)
Theorem worker_queue_drains worker_count max registered q0 ops host :
  WorkerOperationQueue_new worker_count max registered = Ok q0 ->
  (forall q, (exists op, answers op q) -> answers (host q) q) ->
  let q := snd (run_ops ops q0) in
  some_worker q -> outstanding (serve (work_left q) host q) = O.
Proof.
  intros Hnew Hhost q Hlive.
  pose proof (run_ops_wf any_result _ _ _ _ ops Hnew (any_all_allowed _ _)) as H.
  destruct (run_ops ops q0) as [h q1]. cbn in q. subst q.
  assert (Hk : (work_left q1 <= work_left q1)%nat) by lia. revert Hk.
  generalize (work_left q1) at 2 3 as k. intros k. revert h q1 H Hlive.
  induction k as [|k IH]; intros h q (Hw & Hr & Hc) Hlive Hk; cbn [serve].
  - destruct (decide (outstanding q = O)) as [|Hout]; [done|].
    destruct (answer_due h q Hw Hr Hc Hlive Hout) as [op Hop]. pose proof (answer_work op q Hop) as Ha.
    destruct (perform op q) as [[? ?] ?]. lia.
  - destruct (Nat.eqb_spec (outstanding q) 0) as [|Hout]; [done|].
    pose proof (Hhost q (answer_due h q Hw Hr Hc Hlive Hout)) as Hop.
    pose proof (answer_work _ q Hop) as Ha. pose proof (wf_step any_result h q (host q) Hw Hr Hc (any_allowed _ _)) as Hs.
    unfold step in Hs. destruct (perform (host q) q) as [[? ?] q']. destruct Ha as [Ha Hf].
    eapply IH; [exact Hs| |lia]. unfold some_worker. by rewrite Hf.
Qed.

(** A host that answers for the first worker that owes one. *)
Fixpoint find_answer (i : nat) (ws : list WorkerState) : option QueueOp :=
  match ws with
  | [] => None
  | w :: ws =>
      match running w with
      | Some s => Some (ReportCompleted i (Some s) (Ok [s]))
      | None => if negb (failed w) && negb (ready w) then Some (Ready i) else find_answer (S i) ws
      end
  end.

Definition eager_host (q : WorkerOperationQueue) : QueueOp := default DrainMessages (find_answer 0 (workers q)).

Lemma find_answer_spec q i ws :
  (forall j, workers q !! (i + j)%nat = ws !! j) ->
  match find_answer i ws with
  | Some op => answers op q
  | None => forall j w, ws !! j = Some w -> running w = None /\ (failed w = false -> ready w = true)
  end.
Proof.
  revert i. induction ws as [|w ws IH]; intros i Hws; cbn [find_answer]; [done|].
  pose proof (Hws O) as H0. rewrite Nat.add_0_r in H0. cbn in H0.
  destruct (running w) as [s|] eqn:Hr; [exists w, s; auto|].
  destruct (negb (failed w) && negb (ready w)) eqn:E.
  - apply andb_true_iff in E as [?%negb_true_iff ?%negb_true_iff]. by exists w.
  - specialize (IH (S i)). destruct (find_answer (S i) ws).
    + apply IH. intros j. specialize (Hws (S j)). by rewrite Nat.add_succ_r in Hws.
    + intros [|j] w' Hj; cbn in Hj.
      * injection Hj as <-. split; [done|]. intros Hf. rewrite Hf in E. cbn in E. by apply negb_false_iff in E.
      * apply IH in Hj; [done|]. intros j'. specialize (Hws (S j')). by rewrite Nat.add_succ_r in Hws.
Qed.

Lemma eager_host_answers q : (exists op, answers op q) -> answers (eager_host q) q.
Proof.
  intros [op Hop]. unfold eager_host. pose proof (find_answer_spec q 0 (workers q) (fun j => eq_refl)) as H.
  destruct (find_answer 0 (workers q)) as [op'|]; [done|]. exfalso. destruct op as [|i| |i rep res| | |]; try done.
  - destruct Hop as (w & Hi & Hf & Hr). apply H in Hi as [_ Hi]. rewrite Hi in Hr; done.
  - destruct Hop as (w & s & Hi & Hr & _). apply H in Hi as [Hi _]. congruence.
Qed.

Definition stalled_ops : list QueueOp :=
  [Ready 1; Submit (demo_request 1); Submit (demo_request 2); Submit (demo_request 3);
   ReportFailed 1 (HostFailure "lost"); Cancel 3; Submit (demo_request 4)].

Lemma worker_queue_drains_witness :
  WorkerOperationQueue_new 2 4 ["reverse"%string] = Ok demo_queue /\
  outstanding (snd (run_ops stalled_ops demo_queue)) = 3%nat /\
  outstanding (serve (work_left (snd (run_ops stalled_ops demo_queue))) eager_host
    (snd (run_ops stalled_ops demo_queue))) = O.
Proof.
  split; [reflexivity|]. split; [vm_compute; reflexivity|].
  apply (worker_queue_drains 2 4 ["reverse"%string] demo_queue stalled_ops eager_host eq_refl eager_host_answers).
  unfold some_worker. apply (bool_decide_eq_true_1 _). vm_compute. reflexivity.
Defined.

(** ** Loss of the last worker *)

(** A call that neither cancels the request nor speaks for a worker that ran something. *)
Definition quiet (s : Z) (op : QueueOp) : Prop :=
  match op with
  | Submit _ | Ready _ | ReportProgress _ _ _ | DrainMessages => True
  | Cancel s' => s' <> s
  | _ => False
  end.

Definition stranded (s : Z) (q : WorkerOperationQueue) : Prop :=
  forallb failed (workers q) = true /\ terminal q !! s = None /\ s ∈ submission_order q.

Lemma release_keeps s order t c d :
  s ∈ order -> t !! s = None ->
  let '(order', t', _, _) := release order t c d in s ∈ order' /\ t' !! s = None.
Proof.
  revert t c d. induction order as [|x order IH]; intros t c d Hs Ht; cbn [release]; [done|].
  destruct (t !! x) as [m|] eqn:Hx; [|done]. assert (x <> s) by congruence.
  apply IH; [apply elem_of_cons in Hs as [E|Hs]; [congruence|done]|]. by rewrite lookup_delete_ne.
Qed.

Lemma stranded_release s q : stranded s q -> stranded s (release_ordered q).
Proof.
  intros (Hf & Ht & Hs). pose proof (release_keeps s _ _ (cancelled q) (delivered_messages q) Hs Ht) as H.
  unfold release_ordered. destruct (release _ _ _ _) as [[[o t] c] d]. destruct H. by repeat split.
Qed.

Lemma dispatch_all_failed i ws rs :
  forallb failed ws = true -> dispatch i ws rs = ([], ws, rs).
Proof.
  revert i. induction ws as [|w ws IH]; intros i; [done|]. cbn. intros [-> Hw]%andb_true_iff.
  by rewrite orb_true_r, IH.
Qed.

Lemma stranded_dispatch s q : stranded s q -> stranded s (snd (dispatch_ready_workers q)).
Proof.
  intros H. unfold dispatch_ready_workers. rewrite dispatch_all_failed by apply H. exact H.
Qed.

Lemma stranded_step s h q op : stranded s q -> quiet s op -> stranded s (snd (step (h, q) op)).
Proof.
  intros H Hop. unfold step. destruct op as [r|i|s' c t| | |s'|]; try done; cbn [perform].
  - unfold submit. destruct (negb _); [exact H|].
    match goal with |- context [if ?b then _ else _] => destruct b end; [exact H|].
    destruct (_ <=? _)%nat; [exact H|].
    assert (Ha : stranded s (accept r q)).
    { destruct H as (Hf & Ht & Hs). split; [done|]. split; [done|]. cbn. apply elem_of_app. by left. }
    apply stranded_dispatch in Ha. by destruct (dispatch_ready_workers _).
  - unfold worker_ready. destruct (workers q !! i) as [w|] eqn:Hi.
    + assert (Hf : failed w = true).
      { destruct H as [Hf _]. rewrite forallb_forall in Hf. apply Hf, list_elem_of_In.
        by apply list_elem_of_lookup_2 in Hi. }
      rewrite Hf. apply stranded_dispatch in H. by destruct (dispatch_ready_workers _).
    + apply stranded_dispatch in H. by destruct (dispatch_ready_workers _).
  - unfold worker_progress. by destruct (_ && _).
  - unfold cancel. destruct (contains_sequence q s'); [|done]. cbn [negb].
    assert (Hc : stranded s (record_terminal (Failed s' Cancelled)
      (set_queued (remove_request s' (queued q)) (set_cancelled (cancelled q ∪ {[s']}) q)))).
    { unfold record_terminal. cbn [terminal_sequence]. destruct (_ && _); apply stranded_release; [|exact H].
      destruct H as (Hf & Ht & Hs). split; [done|]. split; [|done]. cbn. by rewrite lookup_insert_ne. }
    apply stranded_dispatch in Hc. cbn [queued set_cancelled]. by destruct (dispatch_ready_workers _).
Qed.

(** Once every worker has failed, a request is still accepted and then stays outstanding: no later
    submission, readiness report, progress report, cancellation of another request or drain gives
    it a result, although [Unavailable] exists for accepted work no worker can execute. *)
Theorem submit_after_loss_strands worker_count max registered q0 ops0 r commands q ops h :
  WorkerOperationQueue_new worker_count max registered = Ok q0 ->
  forallb failed (workers (snd (run_ops ops0 q0))) = true ->
  submit r (snd (run_ops ops0 q0)) = (Ok commands, q) ->
  Forall (quiet (sequence r)) ops ->
  sequence r ∈ submission_order (snd (fold_left step ops (h, q))).
Proof.
  intros Hnew Hf Hs Hops.
  pose proof (run_ops_wf any_result _ _ _ _ ops0 Hnew (any_all_allowed _ _)) as H.
  destruct (run_ops ops0 q0) as [h0 q1]. cbn [snd] in *. destruct H as (Hw & Hr & Hc).
  assert (Hq : stranded (sequence r) q).
  { unfold submit in Hs. destruct (negb _); [done|].
    match type of Hs with context [if ?b then _ else _] => destruct b eqn:Hl end; [done|].
    destruct (Nat.leb_spec (max_outstanding q1) (outstanding q1)); [done|].
    destruct (wf_accept any_result h0 q1 r Hw Hr) as [Ha _]; [|done|].
    { intros s E. rewrite E in Hl. by apply Z.leb_gt in Hl. }
    assert (Hst : stranded (sequence r) (accept r q1)).
    { split; [done|]. apply and_comm. apply (wf_queued _ _ _ Ha). cbn. apply elem_of_app. right. by left. }
    apply stranded_dispatch in Hst. destruct (dispatch_ready_workers _) as [cs q2]. by injection Hs as _ <-. }
  clear Hs. revert h q Hq. induction Hops as [|op ops Hop _ IH]; intros h q Hq; cbn [fold_left]; [apply Hq|].
  pose proof (stranded_step _ h q op Hq Hop) as Hst. destruct (step (h, q) op) as [h1 q2]. by apply IH.
Qed.

(** ** The cooperative fallback *)

Definition is_terminal (m : WorkerMessage) : bool := is_ok (ok_or (terminal_sequence m) tt).

(** A host that runs the kernels: it reports for a worker the outcome of the request it runs. *)
Definition faithful (kernels : WorkerKernelRegistry) (op : QueueOp) (hq : History * WorkerOperationQueue) : Prop :=
  match op with
  | ReportCompleted i reported res => exists w r, workers (snd hq) !! i = Some w /\
      running w = Some (sequence r) /\ r ∈ accepted_requests (fst hq) /\
      match reported with Some s => s = sequence r | None => True end /\
      message_of (sequence r) res = execute kernels r
  | ReportFailed _ _ | Cancel _ => False
  | _ => True
  end.

Fixpoint all_faithful (kernels : WorkerKernelRegistry) (ops : list QueueOp) (hq : History * WorkerOperationQueue) : Prop :=
  match ops with
  | [] => True
  | op :: ops => faithful kernels op hq /\ all_faithful kernels ops (step hq op)
  end.

(** The message is the outcome of one of the requests. *)
Definition outcome_of (kernels : WorkerKernelRegistry) (rs : list WorkerRequest) (m : WorkerMessage) : Prop :=
  exists r, r ∈ rs /\ m = execute kernels r.

Lemma execute_sequence kernels r : terminal_sequence (execute kernels r) = Some (sequence r).
Proof. unfold execute. destruct (kernels !! operation r) as [k|]; [|done]. by destruct (k _). Qed.

Lemma accepted_grow ops hq r :
  r ∈ accepted_requests (fst hq) -> r ∈ accepted_requests (fst (fold_left step ops hq)).
Proof.
  revert hq. induction ops as [|op ops IH]; intros [h q] Hr; [done|]. cbn [fold_left]. apply IH.
  unfold step. destruct (perform op q) as [[? ?] ?]. cbn. apply elem_of_app. by left.
Qed.

Lemma faithful_allowed kernels ops hq :
  all_faithful kernels ops hq ->
  all_allowed (outcome_of kernels (accepted_requests (fst (fold_left step ops hq)))) ops hq.
Proof.
  remember (accepted_requests (fst (fold_left step ops hq))) as rs eqn:E. revert hq E.
  induction ops as [|op ops IH]; intros hq -> H; [done|]. destruct H as [Hop H]. split; [|by apply IH].
  destruct op as [r|i|s c t|i rep res|i e|s|]; try done. left.
  destruct Hop as (w & r & Hi & Hr & Hin & Hrep & Hm). exists w, (sequence r).
  split; [done|]. split; [done|]. split; [done|]. exists r. split; [|done].
  by apply (accepted_grow (ReportCompleted i rep res :: ops)).
Qed.

(** Outcomes listed in submission order are determined by the requests. *)
Lemma outcomes_ordered kernels rs order ms :
  NoDup (sequence <$> rs) -> (sequence <$> rs) = terminals ms ++ order ->
  (forall m, m ∈ ms -> is_Some (terminal_sequence m) -> outcome_of kernels rs m) ->
  List.filter is_terminal ms = execute kernels <$> take (length (terminals ms)) rs.
Proof.
  revert rs. enough (H : forall rs rs0, NoDup (sequence <$> (rs0 ++ rs)) -> (sequence <$> rs) = terminals ms ++ order ->
    (forall m, m ∈ ms -> is_Some (terminal_sequence m) -> outcome_of kernels (rs0 ++ rs) m) ->
    List.filter is_terminal ms = execute kernels <$> take (length (terminals ms)) rs)
    by (intros rs; apply (H rs [])).
  induction ms as [|m ms IH]; intros rs rs0 Hn E Hm; [done|].
  assert (Htl : forall m', m' ∈ ms -> is_Some (terminal_sequence m') -> outcome_of kernels (rs0 ++ rs) m').
  { intros m' Hm'. apply Hm. by right. }
  cbn [List.filter]. unfold is_terminal at 1. destruct (terminal_sequence m) as [s|] eqn:Hs; cbn [ok_or is_ok].
  - assert (Ht : terminals (m :: ms) = s :: terminals ms) by (unfold terminals; cbn; by rewrite Hs).
    rewrite Ht in E |- *. destruct rs as [|r rs]; [done|]. cbn in E. injection E as Er E.
    cbn [length take fmap list_fmap].
    destruct (Hm m (list_elem_of_here _ _) ltac:(by eexists)) as (r' & Hr' & ->).
    rewrite execute_sequence in Hs. injection Hs as Hs.
    assert (r' = r) as ->.
    { apply list_elem_of_lookup in Hr' as [j Hj].
      assert (Hj0 : (rs0 ++ r :: rs) !! length rs0 = Some r) by (by rewrite lookup_app_r, Nat.sub_diag by lia).
      assert (j = length rs0) as ->; [|congruence].
      eapply (NoDup_lookup _ _ _ (sequence r) Hn); rewrite list_lookup_fmap.
      - rewrite Hj. cbn. congruence.
      - by rewrite Hj0. }
    f_equal. apply (IH rs (rs0 ++ [r])); rewrite <- ?app_assoc; done.
  - assert (Ht : terminals (m :: ms) = terminals ms) by (unfold terminals; cbn; by rewrite Hs).
    rewrite Ht in E |- *. by apply (IH rs rs0).
Qed.

(** The fallback after a series of submissions. *)
Definition cooperative_run (kernels : WorkerKernelRegistry) (rs : list WorkerRequest) : CooperativeExecutor :=
  fold_left (fun x r => snd (cooperative_submit r x)) rs (CooperativeExecutor_new kernels).

Lemma cooperative_run_snoc ks rs r :
  StronglySorted Z.lt (sequence <$> (rs ++ [r])) -> (forall r', r' ∈ rs ++ [r] -> is_Some (ks !! operation r')) ->
  kernels (cooperative_run ks rs) = ks -> last_sequence (cooperative_run ks rs) = last (sequence <$> rs) ->
  cooperative_run ks (rs ++ [r]) = mkCooperative ks
    (messages (cooperative_run ks rs) ++ [Progress (sequence r) 0 (Some 1)] ++ [Progress (sequence r) 1 (Some 1)]
       ++ [execute ks r]) (Some (sequence r)).
Proof.
  intros Hs Hk Hkern Hlast. unfold cooperative_run at 1. rewrite fold_left_app. cbn [fold_left].
  fold (cooperative_run ks rs). unfold cooperative_submit. rewrite Hlast, Hkern.
  unfold supports. rewrite bool_decide_eq_true_2 by (apply Hk, elem_of_app; right; by left).
  destruct (last (sequence <$> rs)) as [s|] eqn:E; [|done].
  assert (s < sequence r).
  { rewrite fmap_app in Hs. apply last_Some_elem_of in E. clear -Hs E.
    induction (sequence <$> rs) as [|x l IH]; [by apply elem_of_nil in E|]. cbn in Hs.
    apply StronglySorted_inv in Hs as [Hs Hx]. apply elem_of_cons in E as [->|E]; [|by apply IH].
    apply Forall_app in Hx as [_ Hx]. by apply Forall_inv in Hx. }
  by rewrite (proj2 (Z.leb_gt _ _)).
Qed.

Lemma cooperative_run_spec ks rs :
  StronglySorted Z.lt (sequence <$> rs) -> (forall r, r ∈ rs -> is_Some (ks !! operation r)) ->
  kernels (cooperative_run ks rs) = ks /\ last_sequence (cooperative_run ks rs) = last (sequence <$> rs) /\
  List.filter is_terminal (messages (cooperative_run ks rs)) = execute ks <$> rs.
Proof.
  induction rs as [|r rs IH] using rev_ind; [done|]. intros Hs Hk.
  destruct IH as (I1 & I2 & I3).
  { clear -Hs. rewrite fmap_app in Hs. induction (sequence <$> rs) as [|x l IH]; constructor;
      apply StronglySorted_inv in Hs as [Hs Hx]; [by apply IH|by apply Forall_app in Hx as [Hx _]]. }
  { intros r' Hr'. apply Hk, elem_of_app. by left. }
  rewrite (cooperative_run_snoc ks rs r Hs Hk I1 I2). cbn [kernels last_sequence messages].
  split; [done|]. split; [by rewrite fmap_last, last_snoc|].
  rewrite !List.filter_app, I3, fmap_app. cbn [List.filter]. unfold is_terminal.
  by rewrite execute_sequence.
Qed.

(** *** Registered operations *)

Lemma dispatch_operations q : operations (snd (dispatch_ready_workers q)) = operations q.
Proof. unfold dispatch_ready_workers. by destruct (dispatch _ _ _) as [[? ?] ?]. Qed.

Lemma release_operations q : operations (release_ordered q) = operations q.
Proof. unfold release_ordered. by destruct (release _ _ _ _) as [[[? ?] ?] ?]. Qed.

Lemma record_operations m q : operations (record_terminal m q) = operations q.
Proof.
  unfold record_terminal. destruct (terminal_sequence m) as [s|]; [|done].
  rewrite release_operations. by destruct (_ && _).
Qed.

Lemma worker_failed_operations i e q : operations (snd (worker_failed i e q)) = operations q.
Proof.
  unfold worker_failed. destruct (workers q !! i) as [w|]; [|done]. rewrite dispatch_operations.
  unfold fail_pending_if_unavailable.
  match goal with |- context [forallb failed (workers ?x)] => set (q1 := x) end.
  assert (E : operations q1 = operations q).
  { unfold q1. destruct (running w); [|done]. destruct (bool_decide _); [done|]. by rewrite record_operations. }
  destruct (forallb _ _); [|done]. by rewrite release_operations.
Qed.

Lemma step_operations h q op :
  operations (snd (step (h, q) op)) = operations q /\
  forall r, r ∈ accepts op q -> operation r ∈ operations q.
Proof.
  split.
  - unfold step. destruct op as [r|i|s c t|i rep res|i e|s|]; cbn [perform].
    + unfold submit. destruct (negb _); [done|].
      match goal with |- context [if ?b then _ else _] => destruct b end; [done|].
      destruct (_ <=? _)%nat; [done|]. pose proof (dispatch_operations (accept r q)) as H.
      by destruct (dispatch_ready_workers _).
    + unfold worker_ready. match goal with |- context [dispatch_ready_workers ?x] => set (q1 := x) end.
      pose proof (dispatch_operations q1) as H. assert (E : operations q1 = operations q).
      { unfold q1. destruct (workers q !! i) as [w|]; [|done]. by destruct (failed w). }
      destruct (dispatch_ready_workers q1). cbn in *. congruence.
    + cbn. unfold worker_progress. by destruct (_ && _).
    + pose proof (fun e => worker_failed_operations i e q) as Hf. unfold worker_completed.
      destruct (workers q !! i) as [[r f [s|]]|].
      2-3: match goal with |- context [worker_failed ?j ?e ?p] => specialize (Hf e); by destruct (worker_failed j e p) end.
      match goal with |- context [if ?b then worker_failed i ?e q else _] => destruct b;
        [specialize (Hf e); by destruct (worker_failed i e q)|] end.
      match goal with |- context [dispatch_ready_workers ?x] => set (q1 := x) end.
      pose proof (dispatch_operations q1) as H. assert (E : operations q1 = operations q).
      { unfold q1. destruct (_ && _); [by rewrite record_operations|done]. }
      destruct (dispatch_ready_workers q1). cbn in *. congruence.
    + pose proof (worker_failed_operations i e q) as H. by destruct (worker_failed i e q).
    + unfold cancel. destruct (contains_sequence q s); [|done]. cbn [negb].
      match goal with |- context [dispatch_ready_workers ?x] => set (q1 := x) end.
      pose proof (dispatch_operations q1) as H. assert (E : operations q1 = operations q) by (unfold q1; by rewrite record_operations).
      destruct (dispatch_ready_workers q1). cbn in *. congruence.
    + done.
  - destruct op as [r| | | | | |]; cbn [accepts]; try (intros *; rewrite elem_of_nil; tauto).
    unfold submit. destruct (bool_decide (operation r ∈ operations q)) eqn:E; cbn [negb].
    + apply bool_decide_eq_true in E. intros r' Hr'. enough (r' = r) as ->; [done|].
      destruct (is_ok _); [by apply list_elem_of_singleton in Hr'|by apply elem_of_nil in Hr'].
    + intros r'. cbn. by rewrite elem_of_nil.
Qed.

Lemma accepted_registered ops h q :
  (forall r, r ∈ accepted_requests h -> operation r ∈ operations q) ->
  let '(h', q') := fold_left step ops (h, q) in
  operations q' = operations q /\ forall r, r ∈ accepted_requests h' -> operation r ∈ operations q'.
Proof.
  revert h q. induction ops as [|op ops IH]; intros h q H; [done|]. cbn [fold_left].
  destruct (step_operations h q op) as [E1 E2].
  assert (Hacc : accepted_requests (fst (step (h, q) op)) = accepted_requests h ++ accepts op q).
  { unfold step. by destruct (perform op q) as [[? ?] ?]. }
  destruct (step (h, q) op) as [h1 q1]. cbn [fst snd] in *. specialize (IH h1 q1). rewrite E1, Hacc in IH.
  destruct (fold_left step ops (h1, q1)) as [h2 q2]. apply IH.
  intros r [Hr|Hr]%elem_of_app; auto.
Qed.

(** Parallel workers that run the registered kernels give the results of the cooperative
    fallback: at any moment the terminal messages released are the first of those the fallback
    produces for the accepted requests, and all of them once nothing is outstanding. *)
Theorem parallel_matches_cooperative worker_count max registered q0 ops ks :
  WorkerOperationQueue_new worker_count max registered = Ok q0 ->
  (forall op, op ∈ registered -> is_Some (ks !! op)) ->
  all_faithful ks ops (no_history, q0) ->
  let '(h, q) := run_ops ops q0 in
  List.filter is_terminal (received h ++ delivered_messages q) =
    take (length (accepted_requests h) - outstanding q)
      (List.filter is_terminal (messages (cooperative_run ks (accepted_requests h)))).
Proof.
  intros Hnew Hreg Hf. pose proof (run_ops_wf _ _ _ _ _ _ Hnew (faithful_allowed _ _ _ Hf)) as H.
  assert (Hops : operations q0 = list_to_set registered).
  { clear -Hnew. unfold WorkerOperationQueue_new in Hnew. destruct (_ =? _)%nat; [done|]. destruct (_ <? _)%nat; [done|].
    by injection Hnew as <-. }
  pose proof (accepted_registered ops no_history q0) as Ha. unfold run_ops in H |- *.
  destruct (fold_left step ops (no_history, q0)) as [h q]. cbn [fst] in H. destruct H as (H & _).
  destruct Ha as [E Ha]; [intros r; cbn; by rewrite elem_of_nil|].
  assert (Hsup : forall r, r ∈ accepted_requests h -> is_Some (ks !! operation r)).
  { intros r Hr. apply Hreg. apply Ha in Hr. rewrite E, Hops in Hr. by apply elem_of_list_to_set in Hr. }
  destruct (cooperative_run_spec ks (accepted_requests h) (wf_sorted _ _ _ H) Hsup) as (_ & _ & ->).
  rewrite (outcomes_ordered ks (accepted_requests h) (submission_order q));
    [|by eapply wf_accepted_nodup|apply H|apply H].
  rewrite <- fmap_take. do 2 f_equal.
  pose proof (f_equal length (wf_order _ _ _ H)) as Hl. rewrite length_app, length_fmap in Hl.
  unfold outstanding. lia.
Qed.

Definition demo_kernels : WorkerKernelRegistry :=
  {["reverse"%string := fun payload => Ok (rev payload)]}.

Definition faithful_ops : list QueueOp :=
  [Ready 0; Ready 1; Submit (demo_request 10); Submit (demo_request 11); Submit (demo_request 12);
   ReportCompleted 1 (Some 11) (Ok [12; 11]); ReportCompleted 0 None (Ok [11; 10])].

Lemma parallel_matches_cooperative_witness :
  WorkerOperationQueue_new 2 4 ["reverse"%string] = Ok demo_queue /\
  let '(h, q) := run_ops faithful_ops demo_queue in
  List.filter is_terminal (received h ++ delivered_messages q) =
    take (length (accepted_requests h) - outstanding q)
      (List.filter is_terminal (messages (cooperative_run demo_kernels (accepted_requests h)))).
Proof.
  split; [reflexivity|].
  apply (parallel_matches_cooperative 2 4 ["reverse"%string] demo_queue faithful_ops demo_kernels eq_refl).
  - intros op Hop. apply list_elem_of_singleton in Hop as ->. by eexists.
  - do 5 (split; [exact I|]). split; [|split; [|exact I]].
    + exists (mkWorker true false (Some 11)), (demo_request 11). split; [vm_compute; reflexivity|].
      split; [reflexivity|]. split; [apply (bool_decide_eq_true_1 _); vm_compute; reflexivity|].
      split; [reflexivity|vm_compute; reflexivity].
    + exists (mkWorker true false (Some 10)), (demo_request 10). split; [vm_compute; reflexivity|].
      split; [reflexivity|]. split; [apply (bool_decide_eq_true_1 _); vm_compute; reflexivity|].
      split; [reflexivity|vm_compute; reflexivity].
Defined.
