(* ===== verification/GraphDocument.v ===== *)
(** The graph document of the node editor: [crates/node_graph_document/src/graph.rs] with the
    records of [node.rs], [socket.rs], [connection.rs], [frame.rs] and [ids.rs].

    A JSON value is an opaque type [V]: the document keeps such values for their owners and
    never looks inside.  A call that panics or does not return is an error of type [Stop]; the
    recursion of [propagate_reroute_output] is bounded by [fuel], and [GraphRouting] shows how
    much is enough and when none is. *)

From stdpp Require Export gmap pretty sorting.
From S2P Require Import Prelude.
#[local] Open Scope Z_scope.

(** ** Records *)

Abbreviation NodeId := Z (only parsing).

(** [crates/node_graph_document/src/ids.rs:20-25] SocketDirection *)
Inductive SocketDirection := Input | Output.

#[export] Instance SocketDirection_eq_dec : EqDecision SocketDirection.
Proof. solve_decision. Defined.

(** [crates/node_graph_document/src/ids.rs:9-16] SocketId *)
Record SocketId := mkSocketId { node : NodeId; index : nat; direction : SocketDirection }.

#[export] Instance SocketId_eq_dec : EqDecision SocketId.
Proof. solve_decision. Defined.

(** [crates/node_graph_document/src/connection.rs:7-12] Connection *)
Record Connection := mkConnection { from : SocketId; to : SocketId }.

#[export] Instance Connection_eq_dec : EqDecision Connection.
Proof. solve_decision. Defined.

(** The four components of a color, each a byte.
    [crates/node_graph_document/src/presentation.rs:8-8] GraphColor *)
Record GraphColor := mkColor { red : Z; green : Z; blue : Z; alpha : Z }.

(** [crates/node_graph_document/src/presentation.rs:23-25] GraphColor::from_rgb *)
Definition from_rgb (r g b : Z) : GraphColor := mkColor r g b 255.

(** [crates/node_graph_document/src/socket.rs:11-21] SocketShape *)
Inductive SocketShape := Circle | Diamond | Square | Triangle.

(** [crates/node_graph_document/src/socket.rs:28-35] VariadicInfo *)
Record VariadicInfo := mkVariadic { base : string; group_max : nat; placeholder : bool }.

(** [crates/node_graph_document/src/node.rs:10-16] NodeKind *)
Inductive NodeKind := Regular | Reroute.

#[export] Instance NodeKind_eq_dec : EqDecision NodeKind.
Proof. solve_decision. Defined.

(** [crates/node_graph_document/src/node.rs:31-38] BadgeSeverity *)
Inductive BadgeSeverity := Info | Warning | Error.

(** [crates/node_graph_document/src/node.rs:22-27] NodeBadge *)
Record NodeBadge := mkBadge { text : string; severity : BadgeSeverity }.

(** [crates/node_graph_document/src/frame.rs:12-24] Frame *)
Record Frame := mkFrame {
  frame_id : Z;
  label : string;
  frame_color : GraphColor;
  node_ids : list NodeId;
  frame_selected : bool;
}.

(** How a call ends without a result: an index out of bounds panics, and a recursion can run
    out of the fuel it was given. *)
Inductive Stop := Panicked | Exhausted.

(** Runs a fallible step over a list. *)
Fixpoint fold_result {A S E : Type} (f : A -> S -> result E S) (l : list A) (s : S) : result E S :=
  match l with
  | [] => Ok s
  | a :: l => let? s := f a s in fold_result f l s
  end.

(** [Vec::insert] within bounds. *)
Definition insert_at {A : Type} (i : nat) (x : A) (l : list A) : list A := take i l ++ x :: drop i l.

Section Document.
Context {V : Type}.

(** [crates/node_graph_document/src/socket.rs:39-98] Socket *)
Record Socket := mkSocket {
  schema_id : string;
  name : string;
  type_name : string;
  color : GraphColor;
  shape : SocketShape;
  allowed : list string;
  resolved_type : option string;
  def_index : nat;
  variadic : option VariadicInfo;
  visible : bool;
  editor_visible : bool;
  hidden : bool;
  has_control : bool;
  extensions : gmap string V;
}.

Definition set_resolved (t : option string) (s : Socket) : Socket :=
  mkSocket (schema_id s) (name s) (type_name s) (color s) (shape s) (allowed s) t (def_index s)
    (variadic s) (visible s) (editor_visible s) (hidden s) (has_control s) (extensions s).

Definition set_name (n : string) (s : Socket) : Socket :=
  mkSocket (schema_id s) n (type_name s) (color s) (shape s) (allowed s) (resolved_type s) (def_index s)
    (variadic s) (visible s) (editor_visible s) (hidden s) (has_control s) (extensions s).

Definition set_variadic (v : option VariadicInfo) (s : Socket) : Socket :=
  mkSocket (schema_id s) (name s) (type_name s) (color s) (shape s) (allowed s) (resolved_type s)
    (def_index s) v (visible s) (editor_visible s) (hidden s) (has_control s) (extensions s).

(** [crates/node_graph_document/src/socket.rs:219-221] Socket::effective_type *)
Definition effective_type (s : Socket) : string := default (type_name s) (resolved_type s).

(** [crates/node_graph_document/src/socket.rs:229-234] Socket::accepts *)
Definition accepts (s : Socket) (incoming : string) : bool :=
  String.eqb incoming "Any" || String.eqb (type_name s) "Any" || String.eqb incoming (type_name s)
  || existsb (fun t => String.eqb t incoming) (allowed s).

(** [crates/node_graph_document/src/socket.rs:237-239] Socket::is_variadic_placeholder *)
Definition is_variadic_placeholder (s : Socket) : bool :=
  match variadic s with Some info => placeholder info | None => false end.

(** [crates/node_graph_document/src/socket.rs:242-244] Socket::is_variadic_member *)
Definition is_variadic_member (s : Socket) : bool :=
  match variadic s with Some info => negb (placeholder info) | None => false end.

(** [crates/node_graph_document/src/socket.rs:251-266] Socket::compatible *)
Definition compatible (from : Socket) (from_dir : SocketDirection) (to : Socket) (to_dir : SocketDirection) : bool :=
  if decide (from_dir = to_dir) then false
  else
    let '(output, input) := if decide (from_dir = Output) then (from, to) else (to, from) in
    accepts input (effective_type output).

(** The position is two 32-bit floats, kept as their bits.
    [crates/node_graph_document/src/node.rs:69-109] Node *)
Record Node := mkNode {
  node_id : NodeId;
  kind : NodeKind;
  title : string;
  node_type_name : string;
  header_color : GraphColor;
  pos : Z * Z;
  inputs : list Socket;
  outputs : list Socket;
  collapsed : bool;
  muted : bool;
  node_state : V;
  property_count : nat;
  badge : option NodeBadge;
  selected : bool;
}.

Definition set_inputs (l : list Socket) (n : Node) : Node :=
  mkNode (node_id n) (kind n) (title n) (node_type_name n) (header_color n) (pos n) l (outputs n)
    (collapsed n) (muted n) (node_state n) (property_count n) (badge n) (selected n).

Definition set_outputs (l : list Socket) (n : Node) : Node :=
  mkNode (node_id n) (kind n) (title n) (node_type_name n) (header_color n) (pos n) (inputs n) l
    (collapsed n) (muted n) (node_state n) (property_count n) (badge n) (selected n).

(** [crates/node_graph_document/src/node.rs:163-169] Node::def_name *)
Definition def_name (n : Node) : string :=
  if String.eqb (node_type_name n) "" then title n else node_type_name n.

(** [crates/node_graph_document/src/socket.rs:106-111] SocketReference *)
Record SocketReference := mkReference {
  reference_schema_id : string;
  definition_index : nat;
  member_index : nat;
  reference_direction : SocketDirection;
}.

(** [crates/node_graph_document/src/node.rs:175-194] Node::socket_reference *)
Definition socket_reference (n : Node) (direction : SocketDirection) (socket_index : nat)
  : option SocketReference :=
  let sockets := match direction with Input => inputs n | Output => outputs n end in
  socket ← sockets !! socket_index;
  let member_index :=
    if is_variadic_member socket then
      length (filter (fun other => def_index other = def_index socket /\ is_variadic_member other = true)
                (take socket_index sockets))
    else O in
  Some (mkReference (schema_id socket) (def_index socket) member_index direction).

(** The first input not yet claimed that accepts a type. *)
Fixpoint claim (incoming : string) (i : nat) (ins : list Socket) (used : list bool) : option nat :=
  match ins, used with
  | s :: ins, u :: used => if negb u && accepts s incoming then Some i else claim incoming (S i) ins used
  | _, _ => None
  end.

Fixpoint pass_through (out_idx : nat) (outs ins : list Socket) (used : list bool) : list (nat * nat) :=
  match outs with
  | [] => []
  | output :: outs =>
      match claim (effective_type output) 0 ins used with
      | Some in_idx => (out_idx, in_idx) :: pass_through (S out_idx) outs ins (<[in_idx := true]> used)
      | None => pass_through (S out_idx) outs ins used
      end
  end.

(** [crates/node_graph_document/src/node.rs:204-220] Node::mute_pass_through_pairs *)
Definition mute_pass_through_pairs (n : Node) : list (nat * nat) :=
  pass_through 0 (outputs n) (inputs n) (replicate (length (inputs n)) false).

(** The state of a reroute is the JSON null, an argument here.
    [crates/node_graph_document/src/node.rs:229-263] Node::new_reroute *)
Definition new_reroute (null : V) (id : NodeId) (pos : Z * Z) : Node :=
  let input := mkSocket "" "" "Any" (from_rgb 150 150 150) Circle [] None 0 None true true false false ∅ in
  mkNode id Reroute "" "" (from_rgb 80 80 80) pos [input] [input] false false null 0 None false.

(** [crates/node_graph_document/src/node.rs:269-287] Node::blank *)
Definition blank (null : V) (id : NodeId) (type_name : string) (pos : Z * Z) : Node :=
  mkNode id Regular type_name type_name (from_rgb 80 80 80) pos [] [] false false null 0 None false.

(** ** The document *)

(** [crates/node_graph_document/src/graph.rs:47-57] GraphMetadata *)
Record GraphMetadata := mkMetadata {
  metadata_next_id : Z;
  next_frame_id : Z;
  semantic_revision : Z;
  graph_extensions : gmap string V;
}.

(** [crates/node_graph_document/src/graph.rs:33-43] GraphState *)
Record GraphState := mkGraph {
  nodes : gmap NodeId Node;
  connections : list Connection;
  frames : list Frame;
  metadata : GraphMetadata;
}.

(** The empty document of [Default]. *)
Definition GraphState_default : GraphState := mkGraph ∅ [] [] (mkMetadata 0 0 0 ∅).

Definition set_nodes (ns : gmap NodeId Node) (g : GraphState) : GraphState :=
  mkGraph ns (connections g) (frames g) (metadata g).
Definition set_connections (cs : list Connection) (g : GraphState) : GraphState :=
  mkGraph (nodes g) cs (frames g) (metadata g).
Definition set_frames (fs : list Frame) (g : GraphState) : GraphState :=
  mkGraph (nodes g) (connections g) fs (metadata g).
Definition set_metadata (m : GraphMetadata) (g : GraphState) : GraphState :=
  mkGraph (nodes g) (connections g) (frames g) m.

(** Changes a node in place, when it exists. *)
Definition update_node (id : NodeId) (f : Node -> Node) (g : GraphState) : GraphState :=
  set_nodes (alter f id (nodes g)) g.

(** The socket an address names: [nodes.get(..).and_then(|node| node.inputs.get(..))]. *)
Definition input_at (g : GraphState) (to : SocketId) : option Socket :=
  n ← nodes g !! node to; inputs n !! index to.
Definition output_at (g : GraphState) (from : SocketId) : option Socket :=
  n ← nodes g !! node from; outputs n !! index from.

(** Changes an input in place, when it exists. *)
Definition update_input (to : SocketId) (f : Socket -> Socket) (g : GraphState) : GraphState :=
  update_node (node to) (fun n => set_inputs (alter f (index to) (inputs n)) n) g.

(** [crates/node_graph_document/src/graph.rs:70-72] GraphState::mark_semantic_change *)
Definition mark_semantic_change (g : GraphState) : GraphState :=
  let m := metadata g in
  set_metadata (mkMetadata (metadata_next_id m) (next_frame_id m)
    (saturating_add64 (semantic_revision m) 1) (graph_extensions m)) g.

(** [crates/node_graph_document/src/graph.rs:81-87] GraphState::mark_semantic_change_after *)
Definition mark_semantic_change_after (previous : Z) (g : GraphState) : GraphState :=
  let m := metadata g in
  set_metadata (mkMetadata (metadata_next_id m) (next_frame_id m)
    (saturating_add64 (Z.max (semantic_revision m) previous) 1) (graph_extensions m)) g.

(** ** Sockets and their types *)

(** [crates/node_graph_document/src/graph.rs:293-309] GraphState::resolve_input *)
Definition resolve_input (from to : SocketId) (g : GraphState) : GraphState :=
  let out_type := effective_type <$> output_at g from in
  update_input to (fun socket =>
    set_resolved (match out_type with
                  | Some t => if String.eqb t "Any" || String.eqb t (type_name socket) then None else Some t
                  | None => None
                  end) socket) g.

(** [crates/node_graph_document/src/graph.rs:311-319] GraphState::clear_input_resolution *)
Definition clear_input_resolution (to : SocketId) (g : GraphState) : GraphState :=
  update_input to (set_resolved None) g.

(** The first output of a reroute. *)
Definition output_of (id : NodeId) : SocketId := mkSocketId id 0 Output.

(** [crates/node_graph_document/src/graph.rs:347-352] GraphState::propagate_reroute_output (downstream) *)
Definition downstream (output : SocketId) (g : GraphState) : list SocketId :=
  map to (filter (fun c => from c = output) (connections g)).

(** [crates/node_graph_document/src/graph.rs:330-358] GraphState::propagate_reroute_output *)
Fixpoint propagate_reroute_output (fuel : nat) (id : NodeId) (g : GraphState) : result Stop GraphState :=
  match fuel with
  | O => Err Exhausted
  | S fuel =>
      match nodes g !! id with
      | None => Ok g
      | Some n =>
          if decide (kind n = Reroute) then
            match inputs n, outputs n with
            | input :: _, output :: outs =>
                let input_type := effective_type input in
                let mirrored := if String.eqb input_type "Any" then None else Some input_type in
                let g := update_node id (set_outputs (set_resolved mirrored output :: outs)) g in
                fold_result (fun to g =>
                  propagate_reroute_output fuel (node to) (resolve_input (output_of id) to g))
                  (downstream (output_of id) g) g
            | _, _ => Err Panicked
            end
          else Ok g
      end
  end.

(** The map of nodes is visited in an order of its own; [order] lists the reroutes in it.
    [crates/node_graph_document/src/graph.rs:365-375] GraphState::reconcile_reroute_outputs *)
Definition reconcile_reroute_outputs (fuel : nat) (order : list NodeId) (g : GraphState)
  : result Stop GraphState :=
  fold_result (propagate_reroute_output fuel) order g.

(** ** Inputs that come and go *)

(** An input address behind an input that is inserted, and one behind an input that is removed. *)
Definition bump (id : NodeId) (i : nat) (t : SocketId) : SocketId :=
  if decide (node t = id /\ (i <= index t)%nat)
  then mkSocketId (node t) (S (index t)) (direction t) else t.

Definition unbump (id : NodeId) (i : nat) (t : SocketId) : SocketId :=
  if decide (node t = id /\ (i < index t)%nat)
  then mkSocketId (node t) (index t - 1)%nat (direction t) else t.

(** [crates/node_graph_document/src/graph.rs:568-579] GraphState::insert_input_socket *)
Definition insert_input_socket (id : NodeId) (i : nat) (socket : Socket) (g : GraphState) : GraphState :=
  match nodes g !! id with
  | None => g
  | Some n =>
      let i := Nat.min i (length (inputs n)) in
      set_connections (map (fun c => mkConnection (from c) (bump id i (to c))) (connections g))
        (update_node id (fun n => set_inputs (insert_at i socket (inputs n)) n) g)
  end.

(** [crates/node_graph_document/src/graph.rs:584-598] GraphState::remove_input_socket *)
Definition remove_input_socket (id : NodeId) (i : nat) (g : GraphState) : option Socket * GraphState :=
  match nodes g !! id with
  | None => (None, g)
  | Some n =>
      match inputs n !! i with
      | None => (None, g)
      | Some socket =>
          let kept := filter (fun c => ~ (node (to c) = id /\ index (to c) = i)) (connections g) in
          (Some socket,
           set_connections (map (fun c => mkConnection (from c) (unbump id i (to c))) kept)
             (update_node id (fun n => set_inputs (delete i (inputs n)) n) g))
      end
  end.

(** ** Variadic groups *)

Definition member_name (base : string) (number : nat) : string := base +:+ " " +:+ pretty number.

(** The members of a group in a list of inputs. *)
Definition count_members (d : nat) (ins : list Socket) : nat :=
  length (filter (fun s => def_index s = d /\ is_variadic_member s = true) ins).

(** Names the members of a group by their position, [members] of them being behind.
    [crates/node_graph_document/src/graph.rs:493-503] GraphState::renumber_variadic_group (loop) *)
Fixpoint number_members (d : nat) (base : string) (members : nat) (ins : list Socket) : list Socket :=
  match ins with
  | [] => []
  | s :: ins =>
      if negb (def_index s =? d)%nat then s :: number_members d base members ins
      else if is_variadic_member s then
        set_name (member_name base (S members)) s :: number_members d base (S members) ins
      else s :: number_members d base members ins
  end.

(** The last index whose socket satisfies a test, as the loops leave it in a variable. *)
Fixpoint last_index {A : Type} (test : A -> bool) (i : nat) (found : option nat) (l : list A) : option nat :=
  match l with
  | [] => found
  | a :: l => last_index test (S i) (if test a then Some i else found) l
  end.

Definition in_group (d : nat) (s : Socket) : bool := (def_index s =? d)%nat.
Definition group_placeholder (d : nat) (s : Socket) : bool :=
  in_group d s && is_variadic_placeholder s.

(** A variadic input with the index of its group and what the group shares.
    [crates/node_graph_document/src/graph.rs:434-453] GraphState::insert_variadic_connection (socket) *)
Definition variadic_input (g : GraphState) (to : SocketId) : option (nat * VariadicInfo * Socket) :=
  socket ← input_at g to;
  info ← variadic socket;
  Some (def_index socket, info, socket).

(** [crates/node_graph_document/src/graph.rs:381-419] GraphState::grow_variadic_group *)
Definition grow_variadic_group (to : SocketId) (g : GraphState) : GraphState :=
  match variadic_input g to with
  | Some (d, info, template) =>
      if placeholder info then
        let members := count_members d (default [] (inputs <$> nodes g !! node to)) in
        let number := S members in
        let g := update_input to (fun s =>
          set_name (member_name (base info) number)
            (set_variadic (Some (mkVariadic (base info) (group_max info) false)) s)) g in
        if (number <? group_max info)%nat then
          insert_input_socket (node to) (S (index to)) (set_name (base info) (set_resolved None template)) g
        else g
      else g
  | None => g
  end.

(** [crates/node_graph_document/src/graph.rs:475-482] GraphState::variadic_members *)
Definition variadic_members (id : NodeId) (d : nat) (g : GraphState) : nat :=
  match nodes g !! id with Some n => count_members d (inputs n) | None => O end.

(** [crates/node_graph_document/src/graph.rs:487-509] GraphState::renumber_variadic_group *)
Definition renumber_variadic_group (id : NodeId) (d : nat) (info : VariadicInfo) (g : GraphState) : GraphState :=
  match nodes g !! id with
  | None => g
  | Some n =>
      let g := update_node id (fun n => set_inputs (number_members d (base info) 0 (inputs n)) n) g in
      match last_index (group_placeholder d) 0 None (inputs n) with
      | Some i => if (group_max info <=? count_members d (inputs n))%nat
                  then snd (remove_input_socket id i g) else g
      | None => g
      end
  end.

(** [crates/node_graph_document/src/graph.rs:514-564] GraphState::collapse_variadic_member *)
Definition collapse_variadic_member (to : SocketId) (g : GraphState) : GraphState :=
  match variadic_input g to with
  | Some (d, info, _) =>
      if placeholder info then g
      else
        match remove_input_socket (node to) (index to) g with
        | (Some removed, g) =>
            match nodes g !! node to with
            | None => g
            | Some n =>
                let g := update_node (node to)
                  (fun n => set_inputs (number_members d (base info) 0 (inputs n)) n) g in
                if negb (existsb (group_placeholder d) (inputs n))
                   && (count_members d (inputs n) <? group_max info)%nat
                then
                  insert_input_socket (node to)
                    (match last_index (in_group d) 0 None (inputs n) with
                     | Some i => S i
                     | None => index to
                     end)
                    (set_variadic (Some (mkVariadic (base info) (group_max info) true))
                       (set_name (base info) (set_resolved None removed))) g
                else g
            end
        | (None, g) => g
        end
  | None => g
  end.

(** [crates/node_graph_document/src/graph.rs:655-659] GraphState::is_input_connected *)
Definition is_input_connected (socket : SocketId) (g : GraphState) : bool :=
  existsb (fun c => bool_decide (to c = socket)) (connections g).

(** [crates/node_graph_document/src/graph.rs:665-669] GraphState::is_output_connected *)
Definition is_output_connected (socket : SocketId) (g : GraphState) : bool :=
  existsb (fun c => bool_decide (from c = socket)) (connections g).

(** ** Operations *)

(** A 32-bit counter that wraps around, as in a release build.
    [crates/node_graph_document/src/graph.rs:196-200] GraphState::next_id *)
Definition next_id (g : GraphState) : NodeId * GraphState :=
  let m := metadata g in
  (metadata_next_id m,
   set_metadata (mkMetadata ((metadata_next_id m + 1) mod 2 ^ 32) (next_frame_id m) (semantic_revision m)
     (graph_extensions m)) g).

(** [crates/node_graph_document/src/graph.rs:206-209] GraphState::add_node *)
Definition add_node (n : Node) (g : GraphState) : GraphState :=
  mark_semantic_change (set_nodes (<[node_id n := n]> (nodes g)) g).

(** [crates/node_graph_document/src/graph.rs:279-291] GraphState::on_input_disconnected *)
Definition on_input_disconnected (fuel : nat) (to : SocketId) (g : GraphState) : result Stop GraphState :=
  let is_member := match input_at g to with Some s => is_variadic_member s | None => false end in
  let g := if is_member then collapse_variadic_member to g else clear_input_resolution to g in
  propagate_reroute_output fuel (node to) g.

(** [crates/node_graph_document/src/graph.rs:272-277] GraphState::remove_connection_at *)
Definition remove_connection_at (fuel : nat) (i : nat) (g : GraphState) : result Stop (Connection * GraphState) :=
  match connections g !! i with
  | None => Err Panicked
  | Some c =>
      let? g := on_input_disconnected fuel (to c) (set_connections (delete i (connections g)) g) in
      Ok (c, mark_semantic_change g)
  end.

(** The connections that feed other inputs. *)
Definition others (socket : SocketId) (cs : list Connection) : list Connection :=
  filter (fun c => to c <> socket) cs.

(** [crates/node_graph_document/src/graph.rs:257-266] GraphState::disconnect_input *)
Definition disconnect_input (fuel : nat) (to : SocketId) (g : GraphState) : result Stop (bool * GraphState) :=
  let before := length (connections g) in
  let g := set_connections (others to (connections g)) g in
  if negb (length (connections g) =? before)%nat then
    let? g := on_input_disconnected fuel to g in
    Ok (true, mark_semantic_change g)
  else Ok (false, g).

(** [crates/node_graph_document/src/graph.rs:242-249] GraphState::add_connection *)
Definition add_connection (fuel : nat) (from to : SocketId) (g : GraphState) : result Stop GraphState :=
  let g := set_connections (others to (connections g) ++ [mkConnection from to]) g in
  let g := resolve_input from to g in
  let g := grow_variadic_group to g in
  let? g := propagate_reroute_output fuel (node to) g in
  Ok (mark_semantic_change g).

(** [crates/node_graph_document/src/graph.rs:433-473] GraphState::insert_variadic_connection *)
Definition insert_variadic_connection (fuel : nat) (from to : SocketId) (g : GraphState)
  : result Stop (bool * GraphState) :=
  match variadic_input g to with
  | None => Ok (false, g)
  | Some (d, info, template) =>
      if placeholder info then Ok (false, g)
      else if negb (is_input_connected to g) then Ok (false, g)
      else if (group_max info <=? variadic_members (node to) d g)%nat then Ok (false, g)
      else
        let g := insert_input_socket (node to) (index to) (set_resolved None template) g in
        let g := set_connections (connections g ++ [mkConnection from to]) g in
        let g := resolve_input from to g in
        let g := renumber_variadic_group (node to) d info g in
        let? g := propagate_reroute_output fuel (node to) g in
        Ok (true, mark_semantic_change g)
  end.

(** The position of the first connection from a node. *)
Fixpoint outgoing_position (id : NodeId) (i : nat) (cs : list Connection) : option nat :=
  match cs with
  | [] => None
  | c :: cs => if decide (node (from c) = id) then Some i else outgoing_position id (S i) cs
  end.

(** [turns] bounds the turns of the loop.
    [crates/node_graph_document/src/graph.rs:225-231] GraphState::remove_node (loop) *)
Fixpoint remove_outgoing (turns fuel : nat) (id : NodeId) (g : GraphState) : result Stop GraphState :=
  match outgoing_position id 0 (connections g) with
  | None => Ok g
  | Some i =>
      match turns with
      | O => Err Exhausted
      | S turns =>
          let? (_, g) := remove_connection_at fuel i g in
          remove_outgoing turns fuel id g
      end
  end.

(** [crates/node_graph_document/src/graph.rs:215-232] GraphState::remove_node *)
Definition remove_node (fuel : nat) (id : NodeId) (g : GraphState) : result Stop GraphState :=
  match nodes g !! id with
  | None => Ok g
  | Some _ =>
      let g := mark_semantic_change (set_nodes (delete id (nodes g)) g) in
      let g := set_connections (filter (fun c => node (to c) <> id) (connections g)) g in
      remove_outgoing (length (connections g)) fuel id g
  end.

(** The indices of the inputs of a node that have a connection. *)
Definition connected_indices (id : NodeId) (g : GraphState) : list nat :=
  map (fun c => index (to c)) (filter (fun c => node (to c) = id) (connections g)).

(** The first member without a connection. *)
Fixpoint victim (connected : list nat) (i : nat) (ins : list Socket) : option nat :=
  match ins with
  | [] => None
  | s :: ins => if is_variadic_member s && negb (bool_decide (i ∈ connected)) then Some i
                else victim connected (S i) ins
  end.

(** [crates/node_graph_document/src/graph.rs:611-634] GraphState::prune_unconnected_resolutions (members) *)
Fixpoint prune_members (turns : nat) (id : NodeId) (g : GraphState) : result Stop GraphState :=
  match nodes g !! id with
  | None => Ok g
  | Some n =>
      match victim (connected_indices id g) 0 (inputs n) with
      | None => Ok g
      | Some i =>
          match turns with
          | O => Err Exhausted
          | S turns => prune_members turns id (collapse_variadic_member (mkSocketId id i Input) g)
          end
      end
  end.

(** [crates/node_graph_document/src/graph.rs:636-647] GraphState::prune_unconnected_resolutions (types) *)
Definition prune_types (id : NodeId) (g : GraphState) : GraphState :=
  let connected := connected_indices id g in
  update_node id (fun n => set_inputs
    (imap (fun i s => if bool_decide (is_Some (resolved_type s)) && negb (bool_decide (i ∈ connected))
                      then set_resolved None s else s) (inputs n)) n) g.

(** [crates/node_graph_document/src/graph.rs:607-649] GraphState::prune_unconnected_resolutions *)
Definition prune_unconnected_resolutions (ids : list NodeId) (g : GraphState) : result Stop GraphState :=
  fold_result (fun id g =>
    let? g := prune_members (length (default [] (inputs <$> nodes g !! id))) id g in
    Ok (prune_types id g)) ids g.

(** [crates/node_graph_document/src/graph.rs:672-676] GraphState::sorted_node_ids *)
Definition sorted_node_ids (g : GraphState) : list NodeId :=
  merge_sort Z.le (elements (dom (nodes g))).

(** [crates/node_graph_document/src/graph.rs:684-700] GraphState::add_frame *)
Definition add_frame (label : string) (color : GraphColor) (ids : list NodeId) (g : GraphState) : Z * GraphState :=
  let m := metadata g in
  let id := next_frame_id m in
  (id,
   set_frames (frames g ++ [mkFrame id label color ids false])
     (set_metadata (mkMetadata (metadata_next_id m) ((next_frame_id m + 1) mod 2 ^ 32) (semantic_revision m)
        (graph_extensions m)) g)).

(** [crates/node_graph_document/src/graph.rs:703-709] GraphState::cleanup_frames *)
Definition cleanup_frames (g : GraphState) : GraphState :=
  let alive := dom (nodes g) in
  let kept (f : Frame) := mkFrame (frame_id f) (label f) (frame_color f)
    (filter (fun id => id ∈ alive) (node_ids f)) (frame_selected f) in
  set_frames (filter (fun f => node_ids f <> []) (map kept (frames g))) g.

Definition set_graph_extensions (e : gmap string V) (g : GraphState) : GraphState :=
  let m := metadata g in
  set_metadata (mkMetadata (metadata_next_id m) (next_frame_id m) (semantic_revision m) e) g.

(** [crates/node_graph_document/src/graph.rs:160-173] GraphState::set_semantic_extension *)
Definition set_semantic_extension `{EqDecision V} (key : string) (value : V) (g : GraphState) : bool * GraphState :=
  let e := graph_extensions (metadata g) in
  if bool_decide (e !! key = Some value) then (false, g)
  else (true, mark_semantic_change (set_graph_extensions (<[key := value]> e) g)).

(** [crates/node_graph_document/src/graph.rs:187-193] GraphState::remove_semantic_extension *)
Definition remove_semantic_extension (key : string) (g : GraphState) : bool * GraphState :=
  let e := graph_extensions (metadata g) in
  let g := set_graph_extensions (delete key e) g in
  match e !! key with
  | Some _ => (true, mark_semantic_change g)
  | None => (false, g)
  end.
End Document.
