(* ===== verification/GraphWiring.v ===== *)
(** Connections and inputs of the graph document: the source that feeds an input, inputs that
    are inserted and removed, and the invariant that connections are attached to sockets. *)

From S2P Require Import Prelude GraphDocument.
#[local] Open Scope Z_scope.

(** ** Sources *)

(** The output that feeds an input. *)
Fixpoint source_in (cs : list Connection) (t : SocketId) : option SocketId :=
  match cs with
  | [] => None
  | c :: cs => if decide (to c = t) then Some (from c) else source_in cs t
  end.

Lemma source_in_elem cs f t : source_in cs t = Some f -> mkConnection f t ∈ cs.
Proof.
  induction cs as [|[f' t'] cs IH]; cbn; [done|].
  case_decide as E; [subst; injection 1 as ->; by left|]. intros H. right. auto.
Qed.

Lemma source_in_none cs t : source_in cs t = None <-> t ∉ map to cs.
Proof.
  induction cs as [|[f' t'] cs IH]; cbn; [set_solver|].
  case_decide as E; [|rewrite IH; set_solver]. set_solver.
Qed.

Lemma source_in_unique cs f t : NoDup (map to cs) -> source_in cs t = Some f <-> mkConnection f t ∈ cs.
Proof.
  intros Hn. split; [apply source_in_elem|]. induction cs as [|[f' t'] cs IH]; [set_solver|].
  cbn in *. apply NoDup_cons in Hn as [Hni Hn]. rewrite elem_of_cons.
  intros [H|H]; [injection H as -> ->; by rewrite decide_True|].
  rewrite decide_False; [auto|]. intros ->. apply Hni. by apply (list_elem_of_fmap_2 to _ (mkConnection f t)).
Qed.

Lemma source_in_app cs cs' t :
  source_in (cs ++ cs') t = match source_in cs t with Some f => Some f | None => source_in cs' t end.
Proof. induction cs as [|c cs IH]; cbn; [done|]. by case_decide. Qed.

Lemma source_in_others u cs t :
  source_in (others u cs) t = if decide (t = u) then None else source_in cs t.
Proof.
  unfold others. induction cs as [|c cs IH]; [cbn; by case_decide|].
  rewrite filter_cons. destruct (decide (to c <> u)) as [Hc|Hc]; [|apply dec_stable in Hc];
    cbn; rewrite IH; repeat case_decide; congruence.
Qed.

Lemma source_in_push u cs f t :
  source_in (others u cs ++ [mkConnection f u]) t = if decide (t = u) then Some f else source_in cs t.
Proof.
  rewrite source_in_app, source_in_others. cbn. repeat case_decide; subst; try done.
  by destruct (source_in cs t).
Qed.

(** ** Insertion *)

Lemma bump_eq id i t t' : bump id i t = bump id i t' <-> t = t'.
Proof.
  split; [|by intros ->]. destruct t as [n k d], t' as [n' k' d']. unfold bump. cbn.
  repeat case_decide; intros [= ]; subst; f_equal; lia.
Qed.

Lemma bump_unbump id i t : ~ (node t = id /\ index t = i) -> bump id i (unbump id i t) = t.
Proof.
  destruct t as [n k d]. unfold unbump. cbn. intros H. case_decide as E; unfold bump; cbn.
  - rewrite decide_True by lia. f_equal. lia.
  - rewrite decide_False by lia. done.
Qed.

Lemma bump_not_at id i t : ~ (node (bump id i t) = id /\ index (bump id i t) = i).
Proof. destruct t as [n k d]. unfold bump. cbn. case_decide; cbn; lia. Qed.

Lemma bump_cases id i t : (node t = id /\ index t = i) \/ exists t', t = bump id i t'.
Proof.
  destruct (decide (node t = id /\ index t = i)) as [H|H]; [by left|]. right.
  exists (unbump id i t). by rewrite bump_unbump.
Qed.

Lemma node_bump id i t : node (bump id i t) = node t.
Proof. unfold bump. by case_decide. Qed.

Lemma direction_bump id i t : direction (bump id i t) = direction t.
Proof. unfold bump. by case_decide. Qed.

Definition bumped (id : NodeId) (i : nat) (cs : list Connection) : list Connection :=
  map (fun c => mkConnection (from c) (bump id i (to c))) cs.

Lemma source_in_bumped id i cs t : source_in (bumped id i cs) (bump id i t) = source_in cs t.
Proof.
  unfold bumped. induction cs as [|c cs IH]; cbn; [done|]. rewrite IH.
  repeat case_decide; try done; [by apply bump_eq in H|by subst].
Qed.

Lemma source_in_bumped_at id i cs t : node t = id -> index t = i -> source_in (bumped id i cs) t = None.
Proof.
  intros Hn Hi. unfold bumped. induction cs as [|c cs IH]; cbn; [done|]. case_decide as E; [|done].
  subst t. by destruct (bump_not_at id i (to c)).
Qed.

Lemma elem_of_bumped id i cs c :
  c ∈ bumped id i cs <-> exists c', c = mkConnection (from c') (bump id i (to c')) /\ c' ∈ cs.
Proof. apply list_elem_of_fmap. Qed.

Lemma insert_at_lookup {A} i (x : A) l k : (i <= length l)%nat ->
  insert_at i x l !! k = if decide (k < i)%nat then l !! k else if decide (k = i) then Some x else l !! (k - 1)%nat.
Proof.
  intros Hi. unfold insert_at. case_decide; [rewrite lookup_app_l, lookup_take_lt; [done|lia|rewrite length_take; lia]|].
  rewrite lookup_app_r, length_take by (rewrite length_take; lia). replace (i `min` length l)%nat with i by lia.
  case_decide; [subst; by rewrite Nat.sub_diag|].
  replace (k - i)%nat with (S (k - i - 1)) by lia. change (drop i l !! (k - i - 1)%nat = l !! (k - 1)%nat).
  rewrite lookup_drop. f_equal. lia.
Qed.

Lemma length_insert_at {A} i (x : A) l : length (insert_at i x l) = S (length l).
Proof. unfold insert_at. rewrite length_app. cbn. rewrite length_take, length_drop. lia. Qed.

Lemma insert_at_delete {A} i (x : A) l : l !! i = Some x -> insert_at i x (delete i l) = l.
Proof.
  intros H. unfold insert_at. rewrite <- (take_drop_middle l i x H) at 3.
  pose proof (lookup_lt_Some _ _ _ H).
  by rewrite delete_take_drop, take_app_length', drop_app_length' by (rewrite length_take; lia).
Qed.

Lemma delete_insert_at {A} i (x : A) l : (i <= length l)%nat -> delete i (insert_at i x l) = l.
Proof.
  intros Hi. unfold insert_at. pose proof (delete_middle (take i l) (drop i l) x) as E.
  rewrite length_take in E. replace (i `min` length l)%nat with i in E by lia. by rewrite E, take_drop.
Qed.

Lemma insert_at_set {A} i (x y : A) l : (i <= length l)%nat -> <[i := y]> (insert_at i x l) = insert_at i y l.
Proof.
  intros Hi. unfold insert_at. rewrite <- (length_take_le l i Hi) at 1. generalize (take i l).
  induction l0 as [|z l0 IH]; cbn; [done|]. f_equal. exact IH.
Qed.

Lemma alter_present {A} (f : A -> A) (m : gmap Z A) id a : m !! id = Some a -> alter f id m = <[id := f a]> m.
Proof.
  intros H. apply map_eq. intros j. destruct (decide (j = id)) as [->|Hj].
  - by rewrite lookup_alter_eq, lookup_insert_eq, H.
  - by rewrite lookup_alter_ne, lookup_insert_ne.
Qed.

Lemma filter_all {A} (P : A -> Prop) `{forall x, Decision (P x)} (l : list A) : (forall x, x ∈ l -> P x) -> filter P l = l.
Proof.
  induction l as [|x l IH]; [done|]. intros Hl. rewrite filter_cons_True by (apply Hl; by left).
  rewrite IH; [done|]. intros y Hy. apply Hl. by right.
Qed.

Section Wiring.
Context {V : Type}.
Abbreviation Graph := (@GraphState V).
Implicit Types (g : Graph) (n : @Node V) (s : @Socket V).

Definition source g (t : SocketId) : option SocketId := source_in (connections g) t.
Definition slot (id : NodeId) (i : nat) : SocketId := mkSocketId id i Input.

Definition node_inputs g (id : NodeId) : list Socket := default [] (inputs <$> nodes g !! id).

Lemma input_at_inputs g t : input_at g t = node_inputs g (node t) !! index t.
Proof. unfold input_at, node_inputs. by destruct (nodes g !! node t). Qed.

Definition is_reroute g (id : NodeId) : Prop := exists n, nodes g !! id = Some n /\ kind n = Reroute.

(** The sources of the inputs of a node, in their order. *)
Definition sources g (id : NodeId) : list (option SocketId) :=
  map (fun i => source g (slot id i)) (seq 0 (length (node_inputs g id))).

Lemma sources_lookup g id i :
  sources g id !! i = if decide (i < length (node_inputs g id))%nat then Some (source g (slot id i)) else None.
Proof.
  unfold sources. rewrite list_lookup_fmap. case_decide.
  - by rewrite lookup_seq_lt.
  - by rewrite lookup_seq_ge by lia.
Qed.

Lemma length_sources g id : length (sources g id) = length (node_inputs g id).
Proof. unfold sources. by rewrite length_map, length_seq. Qed.

(** Connections lead from outputs to inputs that exist, an input has one at most, a node is filed
    under its identity, and a reroute has one input and one output.  [loose] tells which outputs
    may be missing. *)
Record wired (loose : SocketId -> Prop) g : Prop := {
  wired_ids : forall id n, nodes g !! id = Some n -> node_id n = id;
  wired_unique : NoDup (map to (connections g));
  wired_directions : forall c, c ∈ connections g -> direction (from c) = Output /\ direction (to c) = Input;
  wired_from : forall c, c ∈ connections g -> loose (from c) \/ is_Some (output_at g (from c));
  wired_to : forall c, c ∈ connections g -> is_Some (input_at g (to c));
  wired_reroutes : forall id n, nodes g !! id = Some n -> kind n = Reroute ->
    exists input output, inputs n = [input] /\ outputs n = [output] /\ variadic input = None;
}.

Lemma source_elem loose g f t : wired loose g -> source g t = Some f <-> mkConnection f t ∈ connections g.
Proof. intros H. apply source_in_unique, H. Qed.

(** ** One input more *)

(** [g'] is [g] with the input [s] inserted at place [i] of node [id]. *)
Record inserted (id : NodeId) (i : nat) s g g' : Prop := {
  inserted_inputs : node_inputs g' id = insert_at i s (node_inputs g id);
  inserted_place : (i <= length (node_inputs g id))%nat;
  inserted_node : exists n, nodes g !! id = Some n /\ nodes g' = <[id := set_inputs (insert_at i s (inputs n)) n]> (nodes g);
  inserted_connections : connections g' = bumped id i (connections g);
}.

Lemma insert_input_socket_inserted id i s g n : nodes g !! id = Some n -> (i <= length (inputs n))%nat ->
  inserted id i s g (insert_input_socket id i s g).
Proof.
  intros Hn Hi. unfold insert_input_socket. rewrite Hn. replace (i `min` length (inputs n))%nat with i by lia.
  split; cbn.
  - unfold node_inputs. cbn. by rewrite lookup_alter_eq, Hn.
  - unfold node_inputs. by rewrite Hn.
  - exists n. split; [done|]. by apply (alter_present (fun n => _ n)).
  - done.
Qed.

Section Inserted.
Context (id : NodeId) (i : nat) (s : @Socket V) (g g' : Graph) (H : inserted id i s g g').

Lemma inserted_lookup j :
  nodes g' !! j = if decide (j = id) then (fun n => set_inputs (insert_at i s (inputs n)) n) <$> nodes g !! id
                  else nodes g !! j.
Proof.
  destruct (inserted_node _ _ _ _ _ H) as (n & Hn & ->). case_decide as E; [|by rewrite lookup_insert_ne].
  subst j. by rewrite lookup_insert_eq, Hn.
Qed.

Lemma inserted_other j : j <> id -> node_inputs g' j = node_inputs g j.
Proof. intros E. unfold node_inputs. by rewrite inserted_lookup, decide_False. Qed.

Lemma inserted_source t : source g' (bump id i t) = source g t.
Proof. unfold source. by rewrite (inserted_connections _ _ _ _ _ H), source_in_bumped. Qed.

Lemma inserted_source_at t : node t = id -> index t = i -> source g' t = None.
Proof. intros. unfold source. rewrite (inserted_connections _ _ _ _ _ H). by apply source_in_bumped_at. Qed.

Lemma inserted_input_at t : input_at g' (bump id i t) = input_at g t.
Proof.
  rewrite !input_at_inputs, node_bump. destruct (decide (node t = id)) as [E|E].
  - rewrite E, (inserted_inputs _ _ _ _ _ H), insert_at_lookup by apply H. unfold bump.
    destruct (decide (node t = id /\ i <= index t)%nat); cbn; repeat case_decide; try lia; [|done].
    f_equal. lia.
  - rewrite inserted_other by done. unfold bump. by rewrite decide_False by tauto.
Qed.

Lemma inserted_input_new t : node t = id -> index t = i -> input_at g' t = Some s.
Proof.
  intros Hn Hi. rewrite input_at_inputs, Hn, Hi, (inserted_inputs _ _ _ _ _ H), insert_at_lookup by apply H.
  by rewrite decide_False, decide_True by lia.
Qed.

Lemma inserted_output_at t : output_at g' t = output_at g t.
Proof.
  unfold output_at. rewrite inserted_lookup. case_decide as E; [|done]. rewrite E. by destruct (nodes g !! id).
Qed.

Lemma inserted_is_reroute j : is_reroute g' j <-> is_reroute g j.
Proof.
  unfold is_reroute. setoid_rewrite inserted_lookup. case_decide as E; [|done]. subst j.
  destruct (nodes g !! id) as [n|]; cbn; [|done].
  split; intros (m & [= <-] & Hm); eexists; by split.
Qed.

Lemma inserted_sources : sources g' id = insert_at i None (sources g id).
Proof.
  pose proof (inserted_place _ _ _ _ _ H) as Hi.
  apply list_eq. intros k. rewrite insert_at_lookup, !sources_lookup by (by rewrite length_sources).
  rewrite (inserted_inputs _ _ _ _ _ H), length_insert_at.
  destruct (decide (k < i)%nat); [|destruct (decide (k = i)) as [->|]].
  - rewrite !decide_True by lia. f_equal. rewrite <- (inserted_source (slot id k)). f_equal.
    unfold bump. cbn. by rewrite decide_False by lia.
  - rewrite decide_True by lia. by rewrite inserted_source_at.
  - destruct (decide (k < S _)%nat); [rewrite decide_True by lia|by rewrite decide_False by lia].
    f_equal. rewrite <- (inserted_source (slot id (k - 1))). f_equal.
    unfold bump. cbn. rewrite decide_True by lia. unfold slot. f_equal. lia.
Qed.

Lemma inserted_other_sources j : j <> id -> sources g' j = sources g j.
Proof.
  intros E. unfold sources. rewrite inserted_other by done. apply map_ext. intros k.
  rewrite <- (inserted_source (slot j k)). f_equal. unfold bump. cbn. by rewrite decide_False by tauto.
Qed.

Lemma inserted_elem c : c ∈ connections g' <->
  exists c', c = mkConnection (from c') (bump id i (to c')) /\ c' ∈ connections g.
Proof. rewrite (inserted_connections _ _ _ _ _ H). apply elem_of_bumped. Qed.

Lemma inserted_wired loose : ~ is_reroute g id -> wired loose g <-> wired loose g'.
Proof.
  intros Hr.
  assert (Hu : map to (connections g') = map (bump id i) (map to (connections g))).
  { rewrite (inserted_connections _ _ _ _ _ H). unfold bumped. by rewrite !map_map. }
  assert (Hids : (forall j n, nodes g !! j = Some n -> node_id n = j)
    <-> (forall j n, nodes g' !! j = Some n -> node_id n = j)).
  { split; intros Hi j n.
    - rewrite inserted_lookup. case_decide as E; [|apply Hi]. intros (m & Hm & ->)%fmap_Some. rewrite E. cbn. by apply Hi.
    - intros Hn. destruct (decide (j = id)) as [E|E].
      + rewrite E in *. specialize (Hi id (set_inputs (insert_at i s (inputs n)) n)).
        rewrite inserted_lookup, decide_True, Hn in Hi by done. by apply Hi.
      + apply Hi. by rewrite inserted_lookup, decide_False. }
  assert (Hrs : forall j n, nodes g !! j = Some n -> kind n = Reroute -> nodes g' !! j = Some n).
  { intros j n Hn Hk. rewrite inserted_lookup, decide_False; [done|]. intros ->. apply Hr. by exists n. }
  assert (Hrs' : forall j n, nodes g' !! j = Some n -> kind n = Reroute -> nodes g !! j = Some n).
  { intros j n Hn Hk. assert (is_reroute g' j) as Hj by (by exists n). rewrite inserted_is_reroute in Hj.
    rewrite inserted_lookup, decide_False in Hn; [done|]. by intros ->. }
  split; intros [H1 H2 H3 H4 H5 H6]; split; try tauto.
  - rewrite Hu. apply NoDup_fmap_2; [|done]. intros t t'. apply bump_eq.
  - intros c (c' & -> & Hc)%inserted_elem. cbn. rewrite direction_bump. by apply H3.
  - intros c (c' & -> & Hc)%inserted_elem. cbn. rewrite inserted_output_at. by apply H4.
  - intros c (c' & -> & Hc)%inserted_elem. cbn. rewrite inserted_input_at. by apply H5.
  - intros j n Hn Hk. by apply (H6 j n); [apply Hrs'|].
  - rewrite Hu in H2. by apply NoDup_fmap_1 in H2.
  - intros c Hc. rewrite <- (direction_bump id i (to c)). apply (H3 (mkConnection (from c) (bump id i (to c)))).
    apply inserted_elem. by exists c.
  - intros c Hc. rewrite <- inserted_output_at. apply (H4 (mkConnection (from c) (bump id i (to c)))).
    apply inserted_elem. by exists c.
  - intros c Hc. rewrite <- inserted_input_at. apply (H5 (mkConnection (from c) (bump id i (to c)))).
    apply inserted_elem. by exists c.
  - intros j n Hn Hk. by apply (H6 j n); [apply Hrs|].
Qed.
End Inserted.

(** Removing an input that nothing feeds undoes an insertion. *)
Lemma remove_inserted loose id i s g : wired loose g -> node_inputs g id !! i = Some s ->
  source g (slot id i) = None ->
  exists g', remove_input_socket id i g = (Some s, g') /\ inserted id i s g' g.
Proof.
  intros Hw Hs Hn. unfold remove_input_socket. unfold node_inputs in Hs.
  destruct (nodes g !! id) as [n|] eqn:E; [cbn in Hs|done]. rewrite Hs. eexists. split; [done|].
  assert (Hne : forall c, c ∈ connections g -> ~ (node (to c) = id /\ index (to c) = i)).
  { intros c Hc [H1 H2]. destruct (wired_directions _ _ Hw c Hc) as [_ Hd]. apply source_in_none in Hn.
    apply Hn. apply list_elem_of_fmap. exists c. split; [|done]. destruct (to c). cbn in *. by subst. }
  assert (Hk : inputs (set_inputs (delete i (inputs n)) n) = delete i (inputs n)) by done.
  split; cbn.
  - unfold node_inputs. cbn. rewrite lookup_alter_eq, E. cbn. by rewrite insert_at_delete.
  - unfold node_inputs. cbn. rewrite lookup_alter_eq, E. cbn. rewrite length_delete by done.
    apply lookup_lt_Some in Hs. lia.
  - exists (set_inputs (delete i (inputs n)) n). split; [by rewrite lookup_alter_eq, E|].
    cbn. rewrite insert_at_delete by done. rewrite (alter_present _ _ _ _ E), insert_insert_eq.
    rewrite insert_id; [done|]. rewrite E. by destruct n.
  - unfold bumped. rewrite map_map. rewrite filter_all by auto.
    symmetry. rewrite <- (map_id (connections g)) at 2. apply map_ext_in. intros c Hc%list_elem_of_In.
    cbn. rewrite bump_unbump by auto. by destruct c.
Qed.
End Wiring.
