(* ===== verification/GraphRouting.v ===== *)
(** Types that flow through the graph document: what an input and a reroute resolve to, that
    [propagate_reroute_output] restores this behind a reroute whose input changed, and when it
    returns. *)

From stdpp Require Import relations.
From S2P Require Import Prelude GraphDocument GraphWiring.
#[local] Open Scope Z_scope.

Section Routing.
Context {V : Type}.
Abbreviation Graph := (@GraphState V).
Implicit Types (g : Graph) (n : @Node V) (s : @Socket V).

(** ** Shape: a document up to resolved types *)

Definition plain s : Socket := set_resolved None s.

Definition bare n : Node := set_outputs (map plain (outputs n)) (set_inputs (map plain (inputs n)) n).

Definition shape g : Graph := set_nodes (bare <$> nodes g) g.

Lemma shape_connections g g' : shape g = shape g' -> connections g = connections g'.
Proof. intros H. exact (f_equal connections H). Qed.

Lemma shape_lookup g g' id n : shape g = shape g' -> nodes g !! id = Some n ->
  exists n', nodes g' !! id = Some n' /\ bare n = bare n'.
Proof.
  intros H Hn. apply (f_equal (fun x => nodes x !! id)) in H. cbn in H.
  rewrite !lookup_fmap, Hn in H. destruct (nodes g' !! id) as [n'|]; [|done]. exists n'. split; [done|].
  by apply (inj Some).
Qed.

Lemma bare_inputs n n' : bare n = bare n' -> map plain (inputs n) = map plain (inputs n').
Proof. intros H. exact (f_equal inputs H). Qed.

Lemma bare_outputs n n' : bare n = bare n' -> map plain (outputs n) = map plain (outputs n').
Proof. intros H. exact (f_equal outputs H). Qed.

Lemma bare_kind n n' : bare n = bare n' -> kind n = kind n'.
Proof. intros H. exact (f_equal kind H). Qed.

Lemma shape_inputs g g' id : shape g = shape g' -> map plain (node_inputs g id) = map plain (node_inputs g' id).
Proof.
  intros H. unfold node_inputs. destruct (nodes g !! id) as [n|] eqn:E.
  - destruct (shape_lookup g g' id n H E) as (n' & -> & Hb). by apply bare_inputs.
  - destruct (nodes g' !! id) as [n'|] eqn:E'; [|done].
    destruct (shape_lookup g' g id n' (eq_sym H) E') as (n & E2 & _). congruence.
Qed.

Lemma shape_source g g' t : shape g = shape g' -> source g t = source g' t.
Proof. intros H. unfold source. by rewrite (shape_connections g g' H). Qed.

Lemma shape_sources g g' id : shape g = shape g' -> sources g id = sources g' id.
Proof.
  intros H. unfold sources. rewrite <- (length_map plain), (shape_inputs g g' id H), length_map.
  apply map_ext. intros k. by apply shape_source.
Qed.

Lemma shape_is_reroute g g' id : shape g = shape g' -> is_reroute g id <-> is_reroute g' id.
Proof.
  intros H. split; intros (n & Hn & Hk).
  - destruct (shape_lookup g g' id n H Hn) as (n' & E & Hb). exists n'. split; [done|]. by rewrite <- (bare_kind n n').
  - destruct (shape_lookup g' g id n (eq_sym H) Hn) as (n' & E & Hb). exists n'. split; [done|].
    by rewrite <- (bare_kind n n').
Qed.

Lemma plain_singleton l s : map plain l = [s] -> exists s', l = [s'] /\ plain s' = s.
Proof. destruct l as [|s' [|]]; cbn; [done| |done]. intros [= <-]. by exists s'. Qed.

Lemma shape_wired loose g g' : shape g = shape g' -> wired loose g -> wired loose g'.
Proof.
  intros H [H1 H2 H3 H4 H5 H6]. rewrite (shape_connections g g' H) in *.
  assert (Hl : forall id n, nodes g' !! id = Some n -> exists n', nodes g !! id = Some n' /\ bare n = bare n')
    by (intros id n; by apply shape_lookup).
  split; try done.
  - intros id n Hn. destruct (Hl id n Hn) as (n' & E & Hb). apply (f_equal node_id) in Hb. cbn in Hb.
    rewrite Hb. by apply (H1 id).
  - intros c Hc. destruct (H4 c Hc) as [|[s Hs]]; [by left|right]. unfold output_at in *.
    apply bind_Some in Hs as (n & Hn & Hs). destruct (shape_lookup g g' _ n H Hn) as (n' & -> & Hb%bare_outputs). cbn.
    apply lookup_lt_is_Some. rewrite <- (length_map plain), <- Hb, length_map. by apply lookup_lt_Some in Hs.
  - intros c Hc. specialize (H5 c Hc). rewrite input_at_inputs in *. apply lookup_lt_is_Some.
    rewrite <- (length_map plain), <- (shape_inputs g g' _ H), length_map. by apply lookup_lt_is_Some.
  - intros id n Hn Hk. destruct (Hl id n Hn) as (n' & E & Hb). rewrite (bare_kind _ _ Hb) in Hk.
    destruct (H6 id n' E Hk) as (i & o & Hi & Ho & Hv).
    pose proof (bare_inputs _ _ Hb) as Bi. pose proof (bare_outputs _ _ Hb) as Bo. rewrite Hi in Bi. rewrite Ho in Bo.
    apply plain_singleton in Bi as (i' & -> & Ei). apply plain_singleton in Bo as (o' & -> & _).
    exists i', o'. split; [done|]. split; [done|]. apply (f_equal variadic) in Ei. cbn in Ei. congruence.
Qed.

Lemma shape_update_node id f g : (forall n, nodes g !! id = Some n -> bare (f n) = bare n) ->
  shape (update_node id f g) = shape g.
Proof.
  intros Hf. change (set_nodes (bare <$> alter f id (nodes g)) g = set_nodes (bare <$> nodes g) g).
  f_equal. apply map_eq. intros j. rewrite !lookup_fmap.
  destruct (decide (j = id)) as [->|]; [|by rewrite lookup_alter_ne]. rewrite lookup_alter_eq.
  destruct (nodes g !! id) as [n|] eqn:E; [|done]. cbn. by rewrite Hf.
Qed.

Lemma map_alter_same {A B} (h : A -> B) (f : A -> A) (l : list A) i : (forall a, h (f a) = h a) ->
  map h (alter f i l) = map h l.
Proof.
  intros Hf. revert i. induction l as [|a l IH]; intros [|i]; cbn; [done|done|by rewrite Hf|].
  f_equal. apply (IH i).
Qed.

Lemma shape_update_input t f g : (forall s, plain (f s) = plain s) -> shape (update_input t f g) = shape g.
Proof.
  intros Hf. apply shape_update_node. intros n _. unfold bare. cbn. f_equal. by rewrite map_alter_same.
Qed.

Lemma shape_resolve f t g : shape (resolve_input f t g) = shape g.
Proof. by apply shape_update_input. Qed.

Lemma node_inputs_update t f g j :
  node_inputs (update_input t f g) j = if decide (j = node t) then alter f (index t) (node_inputs g j) else node_inputs g j.
Proof.
  unfold node_inputs, update_input. cbn. case_decide as E.
  - subst. rewrite lookup_alter_eq. by destruct (nodes g !! node t).
  - by rewrite lookup_alter_ne.
Qed.

Lemma input_at_update t f g u :
  input_at (update_input t f g) u = if decide (node u = node t /\ index u = index t) then f <$> input_at g u
                                    else input_at g u.
Proof.
  rewrite !input_at_inputs, node_inputs_update. repeat case_decide; try tauto.
  - destruct H0 as [_ ->]. by rewrite list_lookup_alter_eq.
  - rewrite list_lookup_alter_ne; [done|]. intros E. apply H0. auto.
Qed.

Lemma output_at_update t f g u : output_at (update_input t f g) u = output_at g u.
Proof.
  unfold output_at, update_input. cbn. destruct (decide (node u = node t)) as [->|].
  - rewrite lookup_alter_eq. by destruct (nodes g !! node t).
  - by rewrite lookup_alter_ne.
Qed.

(** ** Types *)

(** What an input resolves to when it is fed an output of some type. *)
Definition resolution (out_type : option string) s : option string :=
  match out_type with
  | Some t => if String.eqb t "Any" || String.eqb t (type_name s) then None else Some t
  | None => None
  end.

(** What the output of a reroute resolves to. *)
Definition mirror s : option string :=
  if String.eqb (effective_type s) "Any" then None else Some (effective_type s).

Definition incoming_type g (t : SocketId) : option string := effective_type <$> (source g t ≫= output_at g).

(** Every input resolves to the type it is fed, but for the inputs [P]. *)
Definition typed_inputs (P : SocketId -> Prop) g : Prop := forall t s,
  direction t = Input -> ~ P t -> input_at g t = Some s -> resolved_type s = resolution (incoming_type g t) s.

(** Every reroute passes on the type of its input, but for the reroutes [R]. *)
Definition mirrored (R : NodeId -> Prop) g : Prop := forall id n i o,
  nodes g !! id = Some n -> kind n = Reroute -> ~ R id -> inputs n = [i] -> outputs n = [o] ->
  resolved_type o = mirror i.

Lemma typed_weaken (P P' : SocketId -> Prop) g : (forall t, direction t = Input -> P t -> P' t) ->
  typed_inputs P g -> typed_inputs P' g.
Proof. intros H Ht t s Hd Hn. apply Ht; [done|]. auto. Qed.

Lemma mirrored_weaken (R R' : NodeId -> Prop) g : (forall id, is_reroute g id -> R id -> R' id) ->
  mirrored R g -> mirrored R' g.
Proof.
  intros H Hm id n i o Hn Hk Hr. apply (Hm id n); [done|done|]. intros Hi. apply Hr. apply H; [|done]. by exists n.
Qed.

Lemma resolve_typed f t P g : source g t = Some f -> direction t = Input ->
  typed_inputs (fun u => P u \/ u = t) g -> typed_inputs P (resolve_input f t g).
Proof.
  intros Hs Ht H u s Hd Hp. unfold resolve_input. rewrite input_at_update. unfold incoming_type.
  rewrite (shape_source _ g) by apply shape_resolve.
  assert (He : (source g u ≫= output_at (resolve_input f t g)) = source g u ≫= output_at g).
  { destruct (source g u) as [f'|]; [|done]. apply output_at_update. }
  unfold resolve_input in He. rewrite He. clear He. case_decide as E.
  - assert (u = t) as -> by (destruct u, t; cbn in *; intuition congruence).
    intros (s' & _ & ->)%fmap_Some. rewrite Hs. done.
  - intros Hi. apply H; [done| |done]. intros [| ->]; tauto.
Qed.

Lemma resolve_mirrored f t R g :
  mirrored R g -> mirrored (fun j => R j \/ j = node t) (resolve_input f t g).
Proof.
  intros H id n i o Hn Hk Hr Hi Ho. unfold resolve_input, update_input in Hn. cbn in Hn.
  rewrite lookup_alter_ne in Hn by (intros E; apply Hr; auto). apply (H id n); try done. auto.
Qed.

Lemma clear_typed t P g : source g t = None -> direction t = Input ->
  typed_inputs (fun u => P u \/ u = t) g -> typed_inputs P (clear_input_resolution t g).
Proof.
  intros Hs Ht H u s Hd Hp. unfold clear_input_resolution. rewrite input_at_update. unfold incoming_type.
  rewrite (shape_source _ g) by (by apply shape_update_input).
  assert (He : (source g u ≫= output_at (update_input t (set_resolved None) g)) = source g u ≫= output_at g).
  { destruct (source g u) as [f'|]; [|done]. apply output_at_update. }
  rewrite He. clear He. case_decide as E.
  - assert (u = t) as -> by (destruct u, t; cbn in *; intuition congruence).
    intros (s' & _ & ->)%fmap_Some. by rewrite Hs.
  - intros Hi. apply H; [done| |done]. intros [| ->]; tauto.
Qed.

Lemma clear_mirrored t R g :
  mirrored R g -> mirrored (fun j => R j \/ j = node t) (clear_input_resolution t g).
Proof.
  intros H id n i o Hn Hk Hr Hi Ho. unfold clear_input_resolution, update_input in Hn. cbn in Hn.
  rewrite lookup_alter_ne in Hn by (intros E; apply Hr; auto). apply (H id n); try done. auto.
Qed.

(** ** One reroute *)

Lemma elem_of_downstream loose g f t : wired loose g -> t ∈ downstream f g <-> source g t = Some f.
Proof.
  intros Hw. rewrite (source_elem loose) by done. unfold downstream. rewrite list_elem_of_fmap. split.
  - intros (c & -> & [E Hc]%list_elem_of_filter). subst f. by destruct c.
  - intros Hc. exists (mkConnection f t). split; [done|]. by apply list_elem_of_filter.
Qed.

(** The first step of [propagate_reroute_output] at a reroute. *)
Definition refresh (id : NodeId) g : Graph :=
  update_node id (fun n => match inputs n, outputs n with
    | input :: _, output :: outs => set_outputs (set_resolved (mirror input) output :: outs) n
    | _, _ => n
    end) g.

Lemma propagate_step loose fuel id g : wired loose g ->
  propagate_reroute_output (S fuel) id g = Ok g /\ ~ is_reroute g id \/
  is_reroute g id /\ propagate_reroute_output (S fuel) id g =
    fold_result (fun t g => propagate_reroute_output fuel (node t) (resolve_input (output_of id) t g))
      (downstream (output_of id) g) (refresh id g).
Proof.
  intros Hw. cbn [propagate_reroute_output]. destruct (nodes g !! id) as [n|] eqn:En.
  - case_decide as Hk.
    + right. split; [by exists n|]. destruct (wired_reroutes _ _ Hw id n En Hk) as (i & o & Hi & Ho & _).
      rewrite Hi, Ho. unfold refresh. 
      assert (Hu : update_node id (set_outputs [set_resolved (mirror i) o]) g =
        update_node id (fun n => match inputs n, outputs n with
          | input :: _, output :: outs => set_outputs (set_resolved (mirror input) output :: outs) n
          | _, _ => n end) g).
      { unfold update_node. f_equal. rewrite !(alter_present _ _ _ _ En). by rewrite Hi, Ho. }
      rewrite <- Hu. reflexivity.
    + left. split; [done|]. intros (n' & Hn' & Hk'). congruence.
  - left. split; [done|]. intros (n' & Hn' & _). congruence.
Qed.

Lemma shape_refresh id g : shape (refresh id g) = shape g.
Proof.
  apply shape_update_node. intros n _. destruct (inputs n) eqn:Ei, (outputs n) eqn:Eo; try done.
  unfold bare. cbn. by rewrite Eo.
Qed.

Lemma refresh_lookup id g j : nodes (refresh id g) !! j = if decide (j = id) then
  (fun n => match inputs n, outputs n with
    | input :: _, output :: outs => set_outputs (set_resolved (mirror input) output :: outs) n
    | _, _ => n end) <$> nodes g !! id else nodes g !! j.
Proof.
  unfold refresh. cbn. case_decide; [subst; by rewrite lookup_alter_eq|by rewrite lookup_alter_ne].
Qed.

Lemma refresh_mirrored id R g : mirrored (fun j => R j \/ j = id) g -> mirrored R (refresh id g).
Proof.
  intros H j n i o Hn Hk Hr Hi Ho. rewrite refresh_lookup in Hn. case_decide as E.
  - apply fmap_Some in Hn as (m & Hm & ->). destruct (inputs m) as [|i' ins] eqn:Ei; [congruence|].
    destruct (outputs m) as [|o' outs] eqn:Eo; [congruence|]. cbn in Hi, Ho. rewrite Ei in Hi.
    injection Hi as -> ->. by injection Ho as <- ->.
  - apply (H j n); try done. tauto.
Qed.

Lemma refresh_typed loose id P g : wired loose g -> is_reroute g id ->
  typed_inputs P g -> typed_inputs (fun u => P u \/ source g u = Some (output_of id)) (refresh id g).
Proof.
  intros Hw (n & Hn & Hk) H u s Hd Hp Hu.
  assert (Hi : input_at g u = Some s).
  { unfold input_at in *. rewrite refresh_lookup in Hu. case_decide as E; [|done]. rewrite E, Hn in *. cbn in *.
    by destruct (inputs n) eqn:Ei, (outputs n) eqn:Eo; cbn in Hu; rewrite ?Ei in Hu. }
  rewrite (H u s Hd (fun p => Hp (or_introl p)) Hi). f_equal. unfold incoming_type. rewrite (shape_source (refresh id g) g) by apply shape_refresh.
  destruct (source g u) as [f|] eqn:Es; [|done]. cbn. f_equal. unfold output_at. rewrite refresh_lookup.
  case_decide as E; [|done]. rewrite E, Hn. cbn.
  destruct (wired_reroutes _ _ Hw id n Hn Hk) as (i & o & Hii & Ho & _). rewrite Hii, Ho. cbn.
  destruct f as [fn [|k] fd]; cbn; [|done].
  exfalso. apply Hp. right. apply (source_elem _ _ _ _ Hw), (wired_directions _ _ Hw) in Es. cbn in *.
  unfold output_of. destruct Es as [-> _]. congruence.
Qed.

(** Propagation behind a reroute whose input changed restores the types: it changes no more than
    resolved types, and afterwards every input and reroute agrees but for those that did not before. *)
Lemma propagate_typed loose fuel : forall id g g' P R, wired loose g ->
  propagate_reroute_output fuel id g = Ok g' ->
  typed_inputs (fun u => P u \/ is_reroute g id /\ source g u = Some (output_of id)) g ->
  mirrored (fun j => R j \/ j = id) g ->
  shape g' = shape g /\ typed_inputs P g' /\ mirrored R g'.
Proof.
  induction fuel as [|fuel IH]; [done|]. intros id g g' P R Hw He Ht Hm.
  destruct (propagate_step loose fuel id g Hw) as [[E Hr]|[Hr E]]; rewrite E in He; clear E.
  { injection He as <-. split; [done|]. split.
    - eapply typed_weaken; [|exact Ht]. cbn. tauto.
    - eapply mirrored_weaken; [|exact Hm]. intros j Hj [| ->]; [done|tauto]. }
  assert (Hl : forall l h, (forall t, t ∈ l -> source g t = Some (output_of id) /\ direction t = Input) ->
    shape h = shape g ->
    fold_result (fun t g => propagate_reroute_output fuel (node t) (resolve_input (output_of id) t g)) l h = Ok g' ->
    typed_inputs (fun u => P u \/ u ∈ l) h -> mirrored R h ->
    shape g' = shape g /\ typed_inputs P g' /\ mirrored R g').
  { clear He Ht Hm. induction l as [|t l IHl]; intros h Hd Hs; cbn.
    - intros [= <-] Ht Hm. split; [done|]. split; [|done]. eapply typed_weaken; [|exact Ht]. set_solver.
    - destruct (propagate_reroute_output _ _ _) as [h'|] eqn:E; [|done]. intros He Ht Hm.
      destruct (Hd t) as [Hst Hdt]; [by left|].
      assert (Hsh : shape (resolve_input (output_of id) t h) = shape g) by (by rewrite shape_resolve).
      destruct (IH _ _ _ (fun u => P u \/ u ∈ l) R (shape_wired loose _ _ (eq_sym Hsh) Hw) E) as (Hs' & Ht' & Hm').
      + eapply typed_weaken; [|apply (resolve_typed (output_of id) t (fun u => P u \/ u ∈ l))].
        * intros u _. cbn. tauto.
        * by rewrite (shape_source h g).
        * done.
        * eapply typed_weaken; [|exact Ht]. intros u _ [?|[->|?]%elem_of_cons]; auto.
      + by apply resolve_mirrored.
      + apply (IHl h'); try done; [|congruence]. intros u Hu. apply Hd. by right. }
  apply (Hl _ _) in He; [done| |by rewrite shape_refresh| |by apply refresh_mirrored].
  - intros t Ht'. apply (elem_of_downstream loose) in Ht'; [|done]. split; [done|].
    by apply (source_elem _ _ _ _ Hw), (wired_directions _ _ Hw) in Ht' as [_ ?].
  - eapply typed_weaken; [|eapply (refresh_typed loose); [done|done|exact Ht]].
    intros u _ [[?|[_ ?]]|?]; [by left|right|right]; by apply (elem_of_downstream loose).
Qed.

(** ** Termination *)

(** A connection that leads on from a reroute. *)
Definition hop g (a b : NodeId) : Prop :=
  is_reroute g a /\ exists t, source g t = Some (output_of a) /\ node t = b.

(** A loop of reroutes can be reached. *)
Definition loops g (id : NodeId) : Prop := exists c, rtc (hop g) id c /\ tc (hop g) c c.

Lemma shape_hop g g' a b : shape g = shape g' -> hop g a b <-> hop g' a b.
Proof.
  intros H. unfold hop. rewrite (shape_is_reroute g g' a H). by setoid_rewrite (shape_source g g' _ H).
Qed.

Definition long_path g (k : nat) (id : NodeId) : Prop := exists b, nsteps (hop g) k id b.

Lemma shape_long_path g g' k id : shape g = shape g' -> long_path g k id -> long_path g' k id.
Proof.
  intros H (b & Hb). exists b. induction Hb as [|k x y z Hx Hy IH]; [constructor|].
  econstructor; [by apply (shape_hop g g')|done].
Qed.

Lemma long_path_S g k id t : is_reroute g id -> source g t = Some (output_of id) ->
  long_path g k (node t) -> long_path g (S k) id.
Proof. intros Hr Hs (b & Hb). exists b. econstructor; [|exact Hb]. split; [done|]. by exists t. Qed.

(** The recursion runs out of fuel exactly when a path of reroutes is that long. *)
Lemma propagate_fuel loose fuel : forall id g, wired loose g ->
  match propagate_reroute_output fuel id g with
  | Ok g' => shape g' = shape g /\ ~ long_path g fuel id
  | Err Exhausted => long_path g fuel id
  | Err Panicked => False
  end.
Proof.
  induction fuel as [|fuel IH]; intros id g Hw.
  { exists id. constructor. }
  destruct (propagate_step loose fuel id g Hw) as [[E Hr]|[Hr E]]; rewrite E; clear E.
  { split; [done|]. intros (b & Hb). by inversion Hb as [|? ? ? ? [? _]]. }
  assert (Hl : forall l h, (forall t, t ∈ l -> source g t = Some (output_of id)) -> shape h = shape g ->
    match fold_result (fun t g => propagate_reroute_output fuel (node t) (resolve_input (output_of id) t g)) l h with
    | Ok g' => shape g' = shape g /\ (forall t, t ∈ l -> ~ long_path g fuel (node t))
    | Err Exhausted => long_path g (S fuel) id
    | Err Panicked => False
    end).
  { induction l as [|t l IHl]; intros h Hd Hs; cbn; [split; [done|set_solver]|].
    assert (Hsh : shape (resolve_input (output_of id) t h) = shape g) by (by rewrite shape_resolve).
    specialize (IH (node t) _ (shape_wired loose _ _ (eq_sym Hsh) Hw)).
    destruct (propagate_reroute_output _ _ _) as [h'|[|]]; [|done|].
    - destruct IH as [Hs' Hn]. specialize (IHl h').
      destruct (fold_result _ l h') as [g'|[|]]; [| |]; [|apply IHl; [|congruence]..]; [|intros u Hu; apply Hd; by right..].
      destruct IHl as [Hs2 Hn2]; [intros u Hu; apply Hd; by right|congruence|]. split; [done|].
      intros u [->|Hu]%elem_of_cons; [|auto]. intros Hp. apply Hn. by apply (shape_long_path g).
    - apply (long_path_S g fuel id t); [done|apply Hd; by left|]. by apply (shape_long_path _ _ _ _ Hsh). }
  specialize (Hl (downstream (output_of id) g) (refresh id g)).
  destruct (fold_result _ _ _) as [g'|[|]]; [destruct Hl as [Hs Hn]| |];
    try (by apply Hl; [intros t; apply (elem_of_downstream loose)|apply shape_refresh]);
    [intros t; by apply (elem_of_downstream loose)|apply shape_refresh|].
  split; [done|]. intros (b & Hb). inversion Hb as [|? ? y ? [_ (t & Hst & <-)] Hb']. subst.
  apply (Hn t); [by apply (elem_of_downstream loose)|by exists b].
Qed.

(** A path longer than the number of nodes runs into a loop. *)
Lemma nsteps_trace {A} (R : A -> A -> Prop) k a b : nsteps R k a b -> exists l, length l = k /\
  (forall x, x ∈ l -> (exists y, R x y) /\ rtc R a x) /\
  (forall i j x y, (i < j)%nat -> l !! i = Some x -> l !! j = Some y -> tc R x y).
Proof.
  induction 1 as [x|k x y z Hxy _ (l & Hl & Hs & Ht)]; [exists []; set_solver|].
  exists (x :: l). split; [cbn; congruence|]. split.
  - intros u [->|Hu]%elem_of_cons; [split; [by exists y|done]|]. destruct (Hs u Hu) as [? ?].
    split; [done|]. by eapply rtc_l.
  - intros [|i] [|j] u v Hij; cbn; [lia| |lia|].
    + intros [= <-] Hv%list_elem_of_lookup_2. eapply tc_rtc_r; [by apply tc_once|by apply Hs].
    + intros Hu Hv. apply (Ht i j); [lia|done..].
Qed.

Lemma not_NoDup_repeat {A} `{EqDecision A} (l : list A) : ~ NoDup l ->
  exists i j x, (i < j)%nat /\ l !! i = Some x /\ l !! j = Some x.
Proof.
  induction l as [|x l IH]; [by intros []; constructor|]. intros Hn.
  destruct (decide (x ∈ l)) as [[j Hj]%list_elem_of_lookup|Hx].
  - exists O, (S j), x. split; [lia|done].
  - destruct IH as (i & j & y & Hij & Hi & Hj); [intros H; apply Hn; by constructor|].
    exists (S i), (S j), y. split; [lia|done].
Qed.

Lemma long_path_loops g k id : (size (nodes g) < k)%nat -> long_path g k id -> loops g id.
Proof.
  intros Hk (b & (l & Hl & Hs & Ht)%nsteps_trace).
  destruct (decide (NoDup l)) as [Hn|Hn].
  - exfalso. assert (Hsub : (list_to_set l : gset Z) ⊆ dom (nodes g)).
    { intros x Hx%elem_of_list_to_set. destruct (Hs x Hx) as [(y & (n & Hn' & _) & _) _].
      apply elem_of_dom. by exists n. }
    apply subseteq_size in Hsub. rewrite size_list_to_set, size_dom in Hsub by done. lia.
  - destruct (not_NoDup_repeat l Hn) as (i & j & x & Hij & Hi & Hj). exists x.
    split; [apply Hs; by eapply list_elem_of_lookup_2|by apply (Ht i j)].
Qed.

Lemma loops_long_path g k id : loops g id -> long_path g k id.
Proof.
  intros (c & Hc & Ht). revert id Hc. induction k as [|k IH]; intros id Hc; [exists id; constructor|].
  assert (Hstep : exists y, hop g id y /\ rtc (hop g) y c).
  { inversion Hc as [|? y ? Hy Hyc]; subst; [|by exists y].
    inversion Ht as [? ? Hh|? y ? Hh Hyc]; subst; [by exists c|]. exists y. split; [done|]. by apply tc_rtc. }
  destruct Hstep as (y & Hy & Hyc). destruct (IH y Hyc) as (b & Hb). exists b. by econstructor.
Qed.

Lemma long_path_le g k k' id : (k <= k')%nat -> long_path g k' id -> long_path g k id.
Proof.
  intros Hk (b & Hb). replace k' with (k + (k' - k))%nat in Hb by lia.
  apply nsteps_add_inv in Hb as (c & Hc & _). by exists c.
Qed.

Lemma propagate_enough loose id g fuel : wired loose g -> ~ loops g id -> (size (nodes g) < fuel)%nat ->
  exists g', propagate_reroute_output fuel id g = Ok g' /\ shape g' = shape g.
Proof.
  intros Hw Hn Hf. pose proof (propagate_fuel loose fuel id g Hw) as H.
  destruct (propagate_reroute_output fuel id g) as [g'|[|]]; [|done|].
  - exists g'. split; [done|apply H].
  - destruct Hn. by apply (long_path_loops g fuel).
Qed.

Lemma fold_result_mono {A B E} (f f' : A -> B -> result E B) (l : list A) :
  (forall a (s s' : B), f a s = Ok s' -> f' a s = Ok s') ->
  forall s s' : B, fold_result f l s = Ok s' -> fold_result f' l s = Ok s'.
Proof.
  intros Hf. induction l as [|a l IH]; intros s s'; cbn; [done|].
  destruct (f a s) as [s1|] eqn:Hs; [|done]. rewrite (Hf _ _ _ Hs). auto.
Qed.

Lemma propagate_mono k : forall k' id g g', (k <= k')%nat ->
  propagate_reroute_output k id g = Ok g' -> propagate_reroute_output k' id g = Ok g'.
Proof.
  induction k as [|k IH]; [done|]. intros [|k'] id g g' Hk; [lia|]. cbn.
  destruct (nodes g !! id) as [n|]; [|done]. case_decide; [|done].
  destruct (inputs n), (outputs n); try done. apply fold_result_mono. intros t h h'. apply IH. lia.
Qed.

Lemma reconcile_typed loose fuel order : forall g g', wired loose g ->
  reconcile_reroute_outputs fuel order g = Ok g' ->
  typed_inputs (fun u => exists id, id ∈ order /\ is_reroute g id /\ source g u = Some (output_of id)) g ->
  mirrored (fun j => j ∈ order) g ->
  shape g' = shape g /\ typed_inputs (fun _ => False) g' /\ mirrored (fun _ => False) g'.
Proof.
  induction order as [|id order IH]; intros g g' Hw; unfold reconcile_reroute_outputs; cbn.
  - intros [= <-] Ht Hm. split; [done|]. split.
    + eapply typed_weaken; [|exact Ht]. intros u _ (j & Hj & _). set_solver.
    + eapply mirrored_weaken; [|exact Hm]. set_solver.
  - destruct (propagate_reroute_output fuel id g) as [h|] eqn:E; [|done]. intros He Ht Hm.
    destruct (propagate_typed loose fuel id g h
      (fun u => exists id, id ∈ order /\ is_reroute g id /\ source g u = Some (output_of id))
      (fun j => j ∈ order) Hw E) as (Hs & Ht' & Hm').
    + eapply typed_weaken; [|exact Ht]. intros u _ (j & [->|Hj]%elem_of_cons & Hr & Hu); [by right|left; by exists j].
    + eapply mirrored_weaken; [|exact Hm]. intros j _ [->|Hj]%elem_of_cons; auto.
    + destruct (IH h g' (shape_wired loose _ _ (eq_sym Hs) Hw) He) as (Hs2 & ? & ?); [|done|].
      * eapply typed_weaken; [|exact Ht']. intros u _ (j & Hj & Hr & Hu). exists j. split; [done|].
        rewrite (shape_is_reroute h g) by done. by rewrite (shape_source h g).
      * split; [congruence|done].
Qed.
End Routing.
