(* ===== verification/GraphGroups.v ===== *)
(** Variadic groups of the graph document.  A group is the inputs of one definition: its members,
    named by their position, and behind them a placeholder while there is room for more. *)

From S2P Require Import Prelude GraphDocument GraphWiring GraphRouting.

#[local] Open Scope Z_scope.

(** ** Labels *)

(** What a group shows of an input. *)
Abbreviation Label := (string * option VariadicInfo)%type.

Definition member_label (base : string) (max i : nat) : Label :=
  (member_name base (S i), Some (mkVariadic base max false)).

Definition placeholder_label (base : string) (max : nat) : Label := (base, Some (mkVariadic base max true)).

(** The labels of a group of [k] members. *)
Definition layout (base : string) (max k : nat) : list Label :=
  map (member_label base max) (seq 0 k) ++ (if (k <? max)%nat then [placeholder_label base max] else []).

(** The inputs of a definition are plain or a group. *)
Definition group_ok (ls : list Label) : Prop :=
  Forall (fun l => l.2 = None) ls \/ exists base max k, (k <= max)%nat /\ ls = layout base max k.

Definition member (l : Label) : bool := match l.2 with Some info => negb (placeholder info) | None => false end.

Definition members_of (base : string) (max : nat) (ls : list Label) : Prop :=
  Forall (fun l => l.2 = Some (mkVariadic base max false)) ls.

Lemma members_layout base max k : members_of base max (map (member_label base max) (seq 0 k)).
Proof. apply Forall_fmap, Forall_forall. intros; done. Qed.

Lemma filter_members base max ls : members_of base max ls -> filter (fun l => member l = true) ls = ls.
Proof. intros H. apply filter_all. intros l Hl. unfold members_of in H. rewrite Forall_forall in H. unfold member. by rewrite (H l Hl). Qed.

Lemma count_layout base max k : length (filter (fun l => member l = true) (layout base max k)) = k.
Proof.
  unfold layout. rewrite filter_app, (filter_members base max) by apply members_layout.
  rewrite length_app, length_map, length_seq. destruct (k <? max)%nat; rewrite ?filter_cons, filter_nil; cbn; try (rewrite decide_False by done; cbn); lia.
Qed.

Lemma layout_lookup base max k p l : layout base max k !! p = Some l ->
  (p < k)%nat /\ l = member_label base max p \/ (p = k /\ k < max)%nat /\ l = placeholder_label base max.
Proof.
  unfold layout. intros [H|[Hp H]]%lookup_app_Some.
  - left. rewrite list_lookup_fmap in H. apply fmap_Some in H as (i & [-> Hi]%lookup_seq & ->). by split.
  - right. rewrite length_map, length_seq in *. destruct (Nat.ltb_spec k max); [|done].
    destruct (p - k)%nat eqn:E; [|done]. injection H as <-. split; [lia|done].
Qed.

Lemma layout_plain base max k l : l ∈ layout base max k -> l.2 <> None.
Proof. intros (p & [[_ ->]|[_ ->]]%layout_lookup)%list_elem_of_lookup; done. Qed.

(** A variadic input belongs to a group. *)
Lemma group_ok_layout ls p l info : group_ok ls -> ls !! p = Some l -> l.2 = Some info ->
  exists k, (k <= group_max info)%nat /\ ls = layout (base info) (group_max info) k /\
    (placeholder info = false /\ (p < k)%nat /\ l = member_label (base info) (group_max info) p \/
     placeholder info = true /\ p = k /\ (k < group_max info)%nat /\ l = placeholder_label (base info) (group_max info)).
Proof.
  intros [H|(b & m & k & Hk & ->)] Hl Hi.
  - rewrite Forall_forall in H. apply list_elem_of_lookup_2, H in Hl. congruence.
  - destruct (layout_lookup _ _ _ _ _ Hl) as [[Hp ->]|[[Hp Hm] ->]]; injection Hi as <-; cbn; exists k; auto 7.
Qed.

(** Renumbering. *)
Fixpoint number_labels (base : string) (members : nat) (ls : list Label) : list Label :=
  match ls with
  | [] => []
  | l :: ls => if member l then (member_name base (S members), l.2) :: number_labels base (S members) ls
               else l :: number_labels base members ls
  end.

Lemma number_labels_members base max tail : Forall (fun l => member l = false) tail -> forall ls j,
  members_of base max ls ->
  number_labels base j (ls ++ tail) = map (member_label base max) (seq j (length ls)) ++ tail.
Proof.
  intros Ht. induction ls as [|[n v] ls IH]; intros j; cbn.
  - intros _. induction Ht as [|l tail Hl _ IH]; cbn; [done|]. by rewrite Hl, IH.
  - intros [Hv H]%Forall_cons. cbn in Hv. subst v. cbn. f_equal. by apply IH.
Qed.

Definition tail_label (base : string) (max : nat) (here : bool) : list Label :=
  if here then [placeholder_label base max] else [].

Lemma tail_no_member base max here : Forall (fun l => member l = false) (tail_label base max here).
Proof. destruct here; repeat constructor. Qed.

Definition is_placeholder (l : Label) : bool := match l.2 with Some info => placeholder info | None => false end.

(** A group in the middle of a change: members in any numbering, then the placeholder or nothing. *)
Definition in_change (base : string) (max k : nat) (here : bool) (ls : list Label) : Prop :=
  exists members, ls = members ++ tail_label base max here /\ members_of base max members /\ length members = k.

Lemma change_numbered base max k here ls : in_change base max k here ls ->
  number_labels base 0 ls = map (member_label base max) (seq 0 k) ++ tail_label base max here.
Proof.
  intros (members & -> & Hm & <-). by apply number_labels_members; [apply tail_no_member|].
Qed.

Lemma change_count base max k here ls : in_change base max k here ls ->
  length (filter (fun l => member l = true) ls) = k.
Proof.
  intros (members & -> & Hm & <-). rewrite filter_app, (filter_members base max), length_app by done.
  destruct here; [|cbn; lia]. unfold tail_label. rewrite filter_cons, decide_False by done. cbn. lia.
Qed.

Lemma change_placeholder base max k here ls : in_change base max k here ls -> existsb is_placeholder ls = here.
Proof.
  intros (members & -> & Hm & <-). rewrite existsb_app. induction Hm as [|[n v] members Hv _ IH]; cbn in *.
  - destruct here; done.
  - by subst v.
Qed.

Lemma change_delete base max k p : (p < k)%nat -> in_change base max (k - 1) (k <? max)%nat (delete p (layout base max k)).
Proof.
  intros Hp. unfold layout. rewrite delete_take_drop, take_app_le, drop_app_le
    by (rewrite length_map, length_seq; lia).
  rewrite app_assoc. eexists. split; [done|]. split.
  - apply Forall_app. split; [apply Forall_take|apply Forall_drop]; apply members_layout.
  - rewrite length_app, length_take, length_drop, length_map, length_seq. lia.
Qed.

Lemma change_insert base max k p n : (p <= k)%nat ->
  in_change base max (S k) (k <? max)%nat (insert_at p (n, Some (mkVariadic base max false)) (layout base max k)).
Proof.
  intros Hp. unfold layout, insert_at. rewrite take_app_le, drop_app_le by (rewrite length_map, length_seq; lia).
  rewrite app_comm_cons, app_assoc. eexists. split; [done|]. split.
  - apply Forall_app. split; [apply Forall_take, members_layout|].
    constructor; [done|apply Forall_drop, members_layout].
  - rewrite length_app. cbn [length]. rewrite length_take, length_drop, length_map, length_seq. lia.
Qed.

(** ** The marks of a list of inputs *)

(** The definition of an input and its label. *)
Abbreviation Mark := (nat * Label)%type.

Definition labels (d : nat) (ms : list Mark) : list Label := map snd (filter (fun m => m.1 = d) ms).

#[global] Arguments labels d ms : simpl never.

Lemma labels_app d ms ms' : labels d (ms ++ ms') = labels d ms ++ labels d ms'.
Proof. unfold labels. by rewrite filter_app, map_app. Qed.

Lemma labels_cons d m ms : labels d (m :: ms) = if decide (m.1 = d) then m.2 :: labels d ms else labels d ms.
Proof. unfold labels. rewrite filter_cons. by case_decide. Qed.

(** The place in its group of the input at place [i]. *)
Definition place (d i : nat) (ms : list Mark) : nat := length (labels d (take i ms)).

Lemma insert_at_app {A} (x : A) l l' : insert_at (length l) x (l ++ l') = l ++ x :: l'.
Proof. unfold insert_at. by rewrite take_app_length, drop_app_length. Qed.

Lemma insert_middle {A} (x y : A) l l' : <[length l := x]> (l ++ y :: l') = l ++ x :: l'.
Proof. induction l as [|z l IH]; cbn; [done|]. f_equal. exact IH. Qed.

Lemma labels_insert d i m ms : labels d (insert_at i m ms) =
  if decide (m.1 = d) then insert_at (place d i ms) m.2 (labels d ms) else labels d ms.
Proof.
  assert (E : labels d ms = labels d (take i ms) ++ labels d (drop i ms)) by (by rewrite <- labels_app, take_drop).
  rewrite E. unfold place. unfold insert_at at 1. rewrite labels_app, labels_cons. case_decide; [|done].
  by rewrite insert_at_app.
Qed.

Lemma labels_around d i m ms : ms !! i = Some m -> labels d ms =
  labels d (take i ms) ++ if decide (m.1 = d) then m.2 :: labels d (drop (S i) ms) else labels d (drop (S i) ms).
Proof. intros Hm. by rewrite <- labels_cons, <- labels_app, take_drop_middle. Qed.

Lemma labels_at d i m ms : ms !! i = Some m -> m.1 = d ->
  labels d ms = labels d (take i ms) ++ m.2 :: labels d (drop (S i) ms).
Proof.
  intros Hm Hd. rewrite (labels_around d i m ms Hm). by rewrite decide_True.
Qed.

Lemma labels_lookup d i m ms : ms !! i = Some m -> m.1 = d -> labels d ms !! place d i ms = Some m.2.
Proof.
  intros Hm Hd. rewrite (labels_at d i m ms) by done. unfold place. by rewrite list_lookup_middle.
Qed.

Lemma labels_delete d i m ms : ms !! i = Some m -> labels d (delete i ms) =
  if decide (m.1 = d) then delete (place d i ms) (labels d ms) else labels d ms.
Proof.
  intros Hm. rewrite delete_take_drop, labels_app. case_decide as E.
  - rewrite (labels_at d i m ms) by done. unfold place. by rewrite delete_middle.
  - rewrite (labels_around d i m ms Hm). by rewrite decide_False.
Qed.

Lemma labels_set d i l m ms : ms !! i = Some m -> labels d (<[i := (m.1, l)]> ms) =
  if decide (m.1 = d) then <[place d i ms := l]> (labels d ms) else labels d ms.
Proof.
  intros Hm. pose proof (lookup_lt_Some _ _ _ Hm) as Hi.
  rewrite insert_take_drop by done. rewrite labels_app, labels_cons. cbn. case_decide as E.
  - rewrite (labels_at d i m ms) by done. unfold place. by rewrite insert_middle.
  - rewrite (labels_around d i m ms Hm). by rewrite decide_False.
Qed.

Lemma labels_other d m ms i : m.1 <> d -> labels d (insert_at i m ms) = labels d ms.
Proof. intros H. rewrite labels_insert. by rewrite decide_False. Qed.

Lemma place_S d i m ms : ms !! i = Some m ->
  place d (S i) ms = (place d i ms + if decide (m.1 = d) then 1 else 0)%nat.
Proof.
  intros Hm. unfold place. rewrite (take_S_r _ _ _ Hm), labels_app, length_app, labels_cons.
  by case_decide.
Qed.

Lemma place_set d i m ms : place d i (<[i := m]> ms) = place d i ms.
Proof. unfold place. by rewrite take_insert_ge. Qed.

Fixpoint number_marks (d : nat) (base : string) (members : nat) (ms : list Mark) : list Mark :=
  match ms with
  | [] => []
  | m :: ms =>
      if negb (m.1 =? d)%nat then m :: number_marks d base members ms
      else if member m.2 then (m.1, (member_name base (S members), m.2.2)) :: number_marks d base (S members) ms
      else m :: number_marks d base members ms
  end.

Lemma labels_number d' d base ms : forall k, labels d' (number_marks d base k ms) =
  if decide (d' = d) then number_labels base k (labels d ms) else labels d' ms.
Proof.
  induction ms as [|m ms IH]; intros k; cbn; [by case_decide|].
  destruct (Nat.eqb_spec m.1 d) as [E|E]; cbn.
  - destruct (member m.2) eqn:Em; rewrite !labels_cons, IH; cbn; repeat case_decide; try congruence;
      cbn; by rewrite ?Em.
  - rewrite !labels_cons, IH. repeat case_decide; congruence.
Qed.

(** The inputs of a group's members are fed, its placeholder is not. *)
Definition attended (m : Mark) (src : option SocketId) : Prop :=
  forall info, m.2.2 = Some info -> (placeholder info = true <-> src = None).

Lemma attended_number d base ms srcs : Forall2 attended ms srcs ->
  forall k, Forall2 attended (number_marks d base k ms) srcs.
Proof.
  induction 1 as [|m src ms srcs Hm _ IH]; intros k; cbn; [constructor|].
  destruct (negb _); [by constructor|]. destruct (member _); by constructor.
Qed.

Lemma Forall2_insert_at {A B} (P : A -> B -> Prop) i x y l k : P x y -> Forall2 P l k ->
  Forall2 P (insert_at i x l) (insert_at i y k).
Proof.
  intros Hxy H. unfold insert_at. apply Forall2_app; [by apply Forall2_take|].
  constructor; [done|by apply Forall2_drop].
Qed.

Lemma Forall2_delete_both {A B} (P : A -> B -> Prop) i l k : Forall2 P l k -> Forall2 P (delete i l) (delete i k).
Proof. rewrite !delete_take_drop. intros H. apply Forall2_app; [by apply Forall2_take|by apply Forall2_drop]. Qed.

(** A node's inputs are in order. *)
Definition tidy (ms : list Mark) (srcs : list (option SocketId)) : Prop :=
  (forall d, group_ok (labels d ms)) /\ Forall2 attended ms srcs.

Definition count_marks (d : nat) (ms : list Mark) : nat := length (filter (fun l => member l = true) (labels d ms)).

Lemma group_ok_layout_ok base max k : (k <= max)%nat -> group_ok (layout base max k).
Proof. intros H. right. by exists base, max, k. Qed.

(** What a tidy list says of a variadic input. *)
Lemma tidy_group ms i m info : (forall d, group_ok (labels d ms)) -> ms !! i = Some m -> m.2.2 = Some info ->
  let k := count_marks m.1 ms in let base := base info in let max := group_max info in
  (k <= max)%nat /\ labels m.1 ms = layout base max k /\
  (placeholder info = false /\ (place m.1 i ms < k)%nat /\ m.2 = member_label base max (place m.1 i ms) \/
   placeholder info = true /\ place m.1 i ms = k /\ (k < max)%nat /\ m.2 = placeholder_label base max).
Proof.
  intros Hg Hm Hi. cbn zeta.
  destruct (group_ok_layout _ _ _ info (Hg m.1) (labels_lookup m.1 i m ms Hm eq_refl) Hi) as (k & Hk & Hl & H).
  unfold count_marks. rewrite Hl, count_layout. done.
Qed.

(** *** The three changes of a group *)

Definition grow_marks (i : nat) (m : Mark) (info : VariadicInfo) (ms : list Mark) : list Mark :=
  let k := count_marks m.1 ms in
  let ms := <[i := (m.1, (member_name (base info) (S k), Some (mkVariadic (base info) (group_max info) false)))]> ms in
  if (S k <? group_max info)%nat then insert_at (S i) (m.1, (base info, Some info)) ms else ms.

Definition grow_sources {A} (i : nat) (m : Mark) (info : VariadicInfo) (ms : list Mark) (srcs : list (option A))
  : list (option A) :=
  if (S (count_marks m.1 ms) <? group_max info)%nat then insert_at (S i) None srcs else srcs.

Lemma tidy_grow ms srcs i m info f : tidy ms srcs -> ms !! i = Some m -> m.2.2 = Some info -> placeholder info = true ->
  tidy (grow_marks i m info ms) (grow_sources i m info ms (<[i := Some f]> srcs)).
Proof.
  intros [Hg Ha] Hm Hi Hp.
  destruct (tidy_group ms i m info Hg Hm Hi) as (Hk & Hl & [[? _]|(_ & Hpl & Hlt & Hm2)]); [congruence|].
  set (k := count_marks m.1 ms) in *. unfold grow_marks, grow_sources. fold k.
  set (l := (member_name _ _, _)). set (ms1 := <[i := (m.1, l)]> ms).
  assert (Hl1 : labels m.1 ms1 = map (member_label (base info) (group_max info)) (seq 0 (S k))).
  { unfold ms1. rewrite (labels_set m.1 i l m ms Hm), decide_True, Hpl, Hl by done.
    unfold layout. rewrite (proj2 (Nat.ltb_lt _ _) Hlt).
    pose proof (insert_middle l (placeholder_label (base info) (group_max info))
      (map (member_label (base info) (group_max info)) (seq 0 k)) []) as E.
    rewrite length_map, length_seq in E. rewrite E, seq_S, map_app. done. }
  assert (Hother : forall d, d <> m.1 -> labels d ms1 = labels d ms).
  { intros d Hd. unfold ms1. rewrite (labels_set d i l m ms Hm). by rewrite decide_False. }
  assert (Ha1 : Forall2 attended ms1 (<[i := Some f]> srcs)).
  { apply Forall2_insert; [done|]. intros info' [= <-]. by split. }
  destruct (Nat.ltb_spec (S k) (group_max info)) as [Hs|Hs]; split; try done.
  - intros d. destruct (decide (d = m.1)) as [->|Hd]; [|rewrite labels_other by done; rewrite Hother by done; apply Hg].
    rewrite labels_insert, decide_True, Hl1 by done. cbn [snd].
    rewrite (place_S _ _ (m.1, l)) by (apply list_lookup_insert_eq; by eapply lookup_lt_Some).
    rewrite decide_True by done. unfold ms1. rewrite place_set, Hpl.
    pose proof (insert_at_app (base info, Some info) (map (member_label (base info) (group_max info)) (seq 0 (S k))) []) as E.
    rewrite length_map, length_seq, app_nil_r in E. replace (k + 1)%nat with (S k) by lia. rewrite E.
    replace (_ ++ _) with (layout (base info) (group_max info) (S k)); [by apply group_ok_layout_ok; lia|].
    unfold layout, placeholder_label. rewrite (proj2 (Nat.ltb_lt _ _) Hs). destruct info as [b mx p]. cbn in *. by subst p.
  - apply Forall2_insert_at; [|done]. intros info' [= <-]. by rewrite Hp.
  - intros d. destruct (decide (d = m.1)) as [->|Hd]; [|rewrite Hother by done; apply Hg]. rewrite Hl1.
    replace (map _ _) with (layout (base info) (group_max info) (S k)); [by apply group_ok_layout_ok; lia|].
    unfold layout. rewrite (proj2 (Nat.ltb_ge _ _) Hs). by rewrite app_nil_r.
Qed.

Lemma last_index_spec {A} (test : A -> bool) l : forall i found,
  (exists j a, last_index test i found l = Some (i + j)%nat /\ l !! j = Some a /\ test a = true /\
     Forall (fun a => test a = false) (drop (S j) l)) \/
  (last_index test i found l = found /\ Forall (fun a => test a = false) l).
Proof.
  induction l as [|a l IH]; intros i found; cbn; [by right|].
  destruct (IH (S i) (if test a then Some i else found)) as [(j & b & E & Hj & Hb & Hr)|[E Hr]].
  - left. exists (S j), b. split; [rewrite E; f_equal; lia|]. by split.
  - destruct (test a) eqn:Ha.
    + left. exists O, a. split; [rewrite E; f_equal; lia|]. by rewrite drop_0.
    + right. split; [done|]. by constructor.
Qed.

Lemma last_index_map {A B} (f : A -> B) (test : B -> bool) l : forall i found,
  last_index test i found (map f l) = last_index (fun a => test (f a)) i found l.
Proof. induction l as [|a l IH]; intros i found; cbn; [done|]. apply IH. Qed.

Lemma labels_none d ms : Forall (fun m : Mark => (m.1 =? d)%nat = false) ms -> labels d ms = [].
Proof.
  induction 1 as [|m ms Hm _ IH]; [done|]. rewrite labels_cons, decide_False; [done|]. by apply Nat.eqb_neq.
Qed.

Lemma length_number_labels base ls : forall k, length (number_labels base k ls) = length ls.
Proof. induction ls as [|l ls IH]; intros k; cbn; [done|]. destruct (member l); cbn; by rewrite IH. Qed.

Lemma take_number d base ms : forall k i, take i (number_marks d base k ms) = number_marks d base k (take i ms).
Proof.
  induction ms as [|m ms IH]; intros k [|i]; cbn; try done.
  destruct (negb _); [by rewrite <- IH|]. destruct (member _); by rewrite <- IH.
Qed.

Lemma place_number d' d base k i ms : place d' i (number_marks d base k ms) = place d' i ms.
Proof.
  unfold place. rewrite take_number, labels_number. case_decide as E; [|done]. subst. apply length_number_labels.
Qed.

Lemma length_number d base ms : forall k, length (number_marks d base k ms) = length ms.
Proof.
  induction ms as [|m ms IH]; intros k; cbn; [done|]. destruct (negb _); cbn; [by rewrite IH|].
  destruct (member _); cbn; by rewrite IH.
Qed.

Definition group_end (d i : nat) (ms : list Mark) : nat :=
  match last_index (fun m => (m.1 =? d)%nat) 0 None ms with Some j => S j | None => i end.

Lemma place_end d i ms : (i <= length ms)%nat ->
  place d (group_end d i ms) ms = length (labels d ms) /\ (group_end d i ms <= length ms)%nat.
Proof.
  intros Hi. unfold group_end.
  destruct (last_index_spec (fun m : Mark => (m.1 =? d)%nat) ms 0 None) as [(j & m & -> & Hj & _ & Hr)|[-> Hr]].
  - cbn. split; [|by apply lookup_lt_Some in Hj]. rewrite <- (take_drop (S j) ms) at 2.
    rewrite labels_app, (labels_none d (drop _ _)), app_nil_r by done. done.
  - split; [|done]. rewrite (labels_none d ms) by done. unfold place. rewrite labels_none; [done|by apply Forall_take].
Qed.

Definition group_has_placeholder (d : nat) (ms : list Mark) : bool :=
  existsb (fun m => (m.1 =? d)%nat && is_placeholder m.2) ms.

Lemma group_has_placeholder_labels d ms : group_has_placeholder d ms = existsb is_placeholder (labels d ms).
Proof.
  unfold group_has_placeholder. induction ms as [|m ms IH]; cbn; [done|]. rewrite IH, labels_cons.
  destruct (Nat.eqb_spec m.1 d); case_decide; try congruence; done.
Qed.

Definition collapses (i : nat) (m : Mark) (info : VariadicInfo) (ms : list Mark) : bool :=
  negb (group_has_placeholder m.1 (delete i ms)) && (count_marks m.1 (delete i ms) <? group_max info)%nat.

Definition collapse_marks (i : nat) (m : Mark) (info : VariadicInfo) (ms : list Mark) : list Mark :=
  let numbered := number_marks m.1 (base info) 0 (delete i ms) in
  if collapses i m info ms
  then insert_at (group_end m.1 i (delete i ms)) (m.1, placeholder_label (base info) (group_max info)) numbered
  else numbered.

Definition collapse_sources {A} (i : nat) (m : Mark) (info : VariadicInfo) (ms : list Mark) (srcs : list (option A))
  : list (option A) :=
  if collapses i m info ms then insert_at (group_end m.1 i (delete i ms)) None (delete i srcs) else delete i srcs.

Lemma tidy_collapse ms srcs i m info : (forall d, group_ok (labels d ms)) -> ms !! i = Some m -> m.2.2 = Some info ->
  placeholder info = false -> Forall2 attended (delete i ms) (delete i srcs) ->
  tidy (collapse_marks i m info ms) (collapse_sources i m info ms srcs).
Proof.
  intros Hg Hm Hi Hp Ha.
  destruct (tidy_group ms i m info Hg Hm Hi) as (Hk & Hl & [(_ & Hpl & Hm2)|[? _]]); [|congruence].
  set (k := count_marks m.1 ms) in *. unfold collapse_marks, collapse_sources.
  set (ms1 := delete i ms) in *.
  assert (Hlen : (i <= length ms1)%nat).
  { unfold ms1. apply lookup_lt_Some in Hm as Hlt. rewrite length_delete by done. lia. }
  assert (Hc : in_change (base info) (group_max info) (k - 1) (k <? group_max info)%nat (labels m.1 ms1)).
  { unfold ms1. rewrite (labels_delete m.1 i m ms Hm), decide_True, Hl by done. by apply change_delete. }
  assert (Hother : forall d, d <> m.1 -> labels d ms1 = labels d ms).
  { intros d Hd. unfold ms1. rewrite (labels_delete d i m ms Hm). by rewrite decide_False. }
  assert (Hn : forall d, labels d (number_marks m.1 (base info) 0 ms1) =
    if decide (d = m.1) then map (member_label (base info) (group_max info)) (seq 0 (k - 1)) ++
      tail_label (base info) (group_max info) (k <? group_max info)%nat else labels d ms).
  { intros d. rewrite labels_number. case_decide; [by apply change_numbered|by apply Hother]. }
  unfold collapses. fold ms1. rewrite group_has_placeholder_labels, (change_placeholder _ _ _ _ _ Hc).
  rewrite (change_count _ _ _ _ _ Hc : count_marks m.1 ms1 = (k - 1)%nat).
  destruct (Nat.ltb_spec k (group_max info)) as [Hlt|Hge]; cbn [negb andb].
  - split; [|by apply attended_number]. intros d. rewrite Hn. case_decide; [|apply Hg].
    replace (_ ++ _) with (layout (base info) (group_max info) (k - 1)); [apply group_ok_layout_ok; lia|].
    unfold layout, tail_label. by rewrite (proj2 (Nat.ltb_lt (k - 1) _)) by lia.
  - replace (k - 1 <? group_max info)%nat with true by (symmetry; apply Nat.ltb_lt; lia).
    destruct (place_end m.1 i ms1 Hlen) as [He _]. split.
    + intros d. rewrite labels_insert. cbn [fst snd]. case_decide as E.
      * subst d. rewrite Hn, decide_True, place_number, He by done. cbn [tail_label]. rewrite app_nil_r.
        destruct Hc as (members & E & _ & Hk1). cbn [tail_label] in E. rewrite app_nil_r in E. rewrite E, Hk1.
        pose proof (insert_at_app (placeholder_label (base info) (group_max info))
          (map (member_label (base info) (group_max info)) (seq 0 (k - 1))) []) as E2.
        rewrite length_map, length_seq, app_nil_r in E2. rewrite E2.
        replace (_ ++ _) with (layout (base info) (group_max info) (k - 1)); [apply group_ok_layout_ok; lia|].
        unfold layout. by rewrite (proj2 (Nat.ltb_lt (k - 1) _)) by lia.
      * rewrite Hn, decide_False by done. apply Hg.
    + apply Forall2_insert_at; [intros info' [= <-]; done|by apply attended_number].
Qed.

Definition full_placeholder (m : Mark) (info : VariadicInfo) (ms : list Mark) : option nat :=
  match last_index (fun m' => (m'.1 =? m.1)%nat && is_placeholder m'.2) 0 None ms with
  | Some j => if (group_max info <=? count_marks m.1 ms)%nat then Some j else None
  | None => None
  end.

Definition insert_marks (i : nat) (m : Mark) (info : VariadicInfo) (ms : list Mark) : list Mark :=
  let ms1 := insert_at i m ms in
  let numbered := number_marks m.1 (base info) 0 ms1 in
  match full_placeholder m info ms1 with Some j => delete j numbered | None => numbered end.

Definition insert_sources {A} (i : nat) (m : Mark) (info : VariadicInfo) (ms : list Mark) (srcs : list (option A))
  : list (option A) :=
  match full_placeholder m info (insert_at i m ms) with Some j => delete j srcs | None => srcs end.

Lemma length_delete_S {A} i (l : list A) x : l !! i = Some x -> length l = S (length (delete i l)).
Proof. intros H. rewrite length_delete by done. apply lookup_lt_Some in H. lia. Qed.

Lemma tidy_insert ms srcs i m info f : tidy ms srcs -> ms !! i = Some m -> m.2.2 = Some info ->
  placeholder info = false -> (count_marks m.1 ms < group_max info)%nat ->
  tidy (insert_marks i m info ms) (insert_sources i m info ms (insert_at i (Some f) srcs)).
Proof.
  intros [Hg Ha] Hm Hi Hp Hlt.
  destruct (tidy_group ms i m info Hg Hm Hi) as (Hk & Hl & [(_ & Hpl & Hm2)|[? _]]); [|congruence].
  set (k := count_marks m.1 ms) in *. unfold insert_marks, insert_sources. set (ms1 := insert_at i m ms).
  set (srcs1 := insert_at i (Some f) srcs).
  assert (Ha1 : Forall2 attended ms1 srcs1).
  { apply Forall2_insert_at; [|done]. intros info' E. replace info' with info by congruence. by rewrite Hp. }
  assert (Hc : in_change (base info) (group_max info) (S k) true (labels m.1 ms1)).
  { unfold ms1. rewrite labels_insert, decide_True, Hl, Hm2 by done. unfold member_label.
    replace true with (k <? group_max info)%nat by (by apply Nat.ltb_lt). apply change_insert. lia. }
  assert (Hother : forall d, d <> m.1 -> labels d ms1 = labels d ms) by (intros d Hd; by apply labels_other).
  assert (Hn : forall d, labels d (number_marks m.1 (base info) 0 ms1) =
    if decide (d = m.1) then map (member_label (base info) (group_max info)) (seq 0 (S k)) ++
      [placeholder_label (base info) (group_max info)] else labels d ms).
  { intros d. rewrite labels_number. case_decide; [by apply (change_numbered _ _ _ true)|by apply Hother]. }
  unfold full_placeholder. rewrite (change_count _ _ _ _ _ Hc : count_marks m.1 ms1 = S k).
  destruct (last_index_spec (fun m' : Mark => (m'.1 =? m.1)%nat && is_placeholder m'.2) ms1 0 None)
    as [(j & m' & E & Hj & [Hd Hph]%andb_true_iff & _)|[E Hr]]; rewrite E; clear E.
  2: { exfalso. assert (H : group_has_placeholder m.1 ms1 = true)
         by (by rewrite group_has_placeholder_labels, (change_placeholder _ _ _ _ _ Hc)).
       apply existsb_exists in H as (m' & Hin%list_elem_of_In & H). rewrite Forall_forall in Hr.
       rewrite (Hr m' Hin) in H. done. }
  cbn [Nat.add]. apply Nat.eqb_eq in Hd. destruct (Nat.leb_spec (group_max info) (S k)) as [Hge|Hge].
  - assert (Hat : place m.1 j ms1 = S k).
    { pose proof (labels_lookup m.1 j m' ms1 Hj Hd) as Hlk. destruct Hc as (members & E & Hmem & Hlen).
      rewrite E in Hlk. apply lookup_app_Some in Hlk as [Hlk|[Hlo Hlk]].
      - unfold members_of in Hmem. rewrite Forall_lookup in Hmem. apply Hmem in Hlk. unfold is_placeholder in Hph.
        by rewrite Hlk in Hph.
      - apply lookup_lt_Some in Hlk. cbn in Hlk. lia. }
    assert (Hj2 : exists m2, number_marks m.1 (base info) 0 ms1 !! j = Some m2 /\ m2.1 = m.1).
    { assert (Hin : (j < length (number_marks m.1 (base info) 0 ms1))%nat)
        by (rewrite length_number; by eapply lookup_lt_Some).
      apply lookup_lt_is_Some in Hin as [m2 Hm3]. exists m2. split; [done|].
      assert (Hlen : place m.1 (S j) (number_marks m.1 (base info) 0 ms1) = place m.1 (S j) ms1) by apply place_number.
      rewrite (place_S _ _ m2 _ Hm3), (place_S _ _ m' _ Hj), place_number in Hlen.
      repeat case_decide; try done; lia. }
    destruct Hj2 as (m2 & Hm3 & Hd2). split.
    + intros d. rewrite (labels_delete d j m2 _ Hm3), Hd2, Hn. case_decide as E; [|rewrite decide_False by done; apply Hg].
      subst d. rewrite decide_True, place_number, Hat by done.
      pose proof (delete_middle (map (member_label (base info) (group_max info)) (seq 0 (S k))) []
        (placeholder_label (base info) (group_max info))) as E. rewrite length_map, length_seq, app_nil_r in E. rewrite E.
      replace (map _ _) with (layout (base info) (group_max info) (S k)); [apply group_ok_layout_ok; lia|].
      unfold layout. rewrite (proj2 (Nat.ltb_ge (S k) _)) by lia. by rewrite app_nil_r.
    + apply Forall2_delete_both. by apply attended_number.
  - split; [|by apply attended_number]. intros d. rewrite Hn. case_decide; [|apply Hg].
    replace (_ ++ _) with (layout (base info) (group_max info) (S k)); [apply group_ok_layout_ok; lia|].
    unfold layout. by rewrite (proj2 (Nat.ltb_lt (S k) _)) by lia.
Qed.

(** ** The outputs that feed a variadic group, as a list, and the sources of a node's inputs when
    connections change. *)

(** ** The sources of one group *)

Fixpoint feeds_of (d : nat) (ms : list Mark) (srcs : list (option SocketId)) : list SocketId :=
  match ms, srcs with
  | m :: ms, src :: srcs => (if decide (m.1 = d) then option_list src else []) ++ feeds_of d ms srcs
  | _, _ => []
  end.

Lemma feeds_app d ms srcs ms' srcs' : length ms = length srcs ->
  feeds_of d (ms ++ ms') (srcs ++ srcs') = feeds_of d ms srcs ++ feeds_of d ms' srcs'.
Proof.
  revert srcs. induction ms as [|m ms IH]; intros [|src srcs]; cbn; try done.
  intros [= E]. by rewrite IH, app_assoc.
Qed.

(** How many of the first [i] inputs feed the group. *)
Definition fed_before (d i : nat) (ms : list Mark) (srcs : list (option SocketId)) : nat :=
  length (feeds_of d (take i ms) (take i srcs)).

Section Lists.
Context (d i : nat) (ms : list Mark) (srcs : list (option SocketId)) (Hlen : length ms = length srcs).

Lemma feeds_around m src : ms !! i = Some m -> srcs !! i = Some src ->
  feeds_of d ms srcs = feeds_of d (take i ms) (take i srcs) ++
    (if decide (m.1 = d) then option_list src else []) ++ feeds_of d (drop (S i) ms) (drop (S i) srcs).
Proof.
  intros Hm Hs. rewrite <- (take_drop_middle ms i m Hm) at 1. rewrite <- (take_drop_middle srcs i src Hs) at 1.
  rewrite feeds_app by (rewrite !length_take; lia). done.
Qed.

Lemma feeds_insert m : feeds_of d (insert_at i m ms) (insert_at i None srcs) = feeds_of d ms srcs.
Proof.
  unfold insert_at. rewrite feeds_app by (rewrite !length_take; lia). cbn.
  replace (if decide _ then [] else []) with (@nil SocketId) by (by case_decide).
  rewrite <- (take_drop i ms) at 3. rewrite <- (take_drop i srcs) at 3.
  rewrite feeds_app by (rewrite !length_take; lia). done.
Qed.

Lemma feeds_delete : srcs !! i = Some None -> feeds_of d (delete i ms) (delete i srcs) = feeds_of d ms srcs.
Proof.
  intros Hs. destruct (ms !! i) as [m|] eqn:Hm.
  - rewrite (feeds_around m None) by done. rewrite !delete_take_drop, feeds_app by (rewrite !length_take; lia).
    by case_decide.
  - apply lookup_ge_None in Hm. apply lookup_lt_Some in Hs. lia.
Qed.

Lemma feeds_number d' base : forall k, feeds_of d (number_marks d' base k ms) srcs = feeds_of d ms srcs.
Proof.
  clear Hlen. revert srcs. induction ms as [|m ms' IH]; intros [|src srcs'] k; cbn; try done.
  - destruct (negb _); [done|]. by destruct (member _).
  - destruct (negb _); cbn; [by rewrite IH|]. destruct (member _); cbn; by rewrite IH.
Qed.

Lemma feeds_label m l : ms !! i = Some m -> feeds_of d (<[i := (m.1, l)]> ms) srcs = feeds_of d ms srcs.
Proof.
  clear Hlen. revert i srcs. induction ms as [|m' ms' IH]; intros [|i'] [|src srcs']; cbn; try done.
  - by intros [= ->].
  - intros Hm. f_equal. by apply IH.
Qed.

(** A change of one source is a change of the list: it grows, changes or shrinks at the place
    of the input. *)
Lemma feeds_set m src src' : ms !! i = Some m -> srcs !! i = Some src ->
  feeds_of d ms (<[i := src']> srcs) =
  if decide (m.1 = d) then
    let p := fed_before d i ms srcs in
    let fed := feeds_of d ms srcs in
    take p fed ++ option_list src' ++ drop (p + length (option_list src)) fed
  else feeds_of d ms srcs.
Proof.
  intros Hm Hs. pose proof (lookup_lt_Some _ _ _ Hs) as Hi.
  assert (E : feeds_of d ms (<[i := src']> srcs) = feeds_of d (take i ms) (take i srcs) ++
    (if decide (m.1 = d) then option_list src' else []) ++ feeds_of d (drop (S i) ms) (drop (S i) srcs)).
  { rewrite insert_take_drop by done. rewrite <- (take_drop_middle ms i m Hm) at 1.
    rewrite feeds_app by (rewrite !length_take; lia). done. }
  rewrite E, (feeds_around m src) by done. case_decide; [|done]. unfold fed_before. cbn zeta.
  rewrite take_app_length. rewrite (app_assoc _ (option_list src)), drop_app_length' by (rewrite length_app; done). done.
Qed.

Lemma feeds_insert_fed m f : ms !! i = Some m -> feeds_of d (insert_at i m ms) (insert_at i (Some f) srcs) =
  if decide (m.1 = d) then
    take (fed_before d i ms srcs) (feeds_of d ms srcs) ++ f :: drop (fed_before d i ms srcs) (feeds_of d ms srcs)
  else feeds_of d ms srcs.
Proof.
  intros Hm. unfold insert_at, fed_before. rewrite feeds_app by (rewrite !length_take; lia). cbn.
  assert (E : feeds_of d ms srcs = feeds_of d (take i ms) (take i srcs) ++ feeds_of d (drop i ms) (drop i srcs)).
  { rewrite <- feeds_app by (rewrite !length_take; lia). by rewrite !take_drop. }
  rewrite E. case_decide; [|done]. by rewrite take_app_length, drop_app_length.
Qed.
End Lists.

Lemma feeds_all_members d ms srcs : Forall2 attended ms srcs ->
  Forall (fun l => member l = true) (labels d ms) -> length (feeds_of d ms srcs) = length (labels d ms).
Proof.
  induction 1 as [|m src ms srcs Hm _ IH]; cbn; [done|]. rewrite labels_cons. case_decide as E; [|done].
  intros [Hl Hr]%Forall_cons. rewrite length_app, IH by done. cbn. f_equal. unfold member in Hl.
  destruct (m.2.2) as [info|] eqn:Ei; [|done]. destruct src as [f|]; [done|].
  apply negb_true_iff in Hl. destruct (Hm info Ei) as [_ H]. by rewrite H in Hl.
Qed.

(** In front of a variadic input stand the members of its group, and all of them are fed. *)
Lemma fed_before_place ms srcs i m info : tidy ms srcs -> ms !! i = Some m -> m.2.2 = Some info ->
  fed_before m.1 i ms srcs = place m.1 i ms.
Proof.
  intros [Hg Ha] Hm Hi. destruct (tidy_group ms i m info Hg Hm Hi) as (_ & Hl & Hc).
  unfold fed_before, place. apply feeds_all_members; [by apply Forall2_take|].
  assert (Hp : (place m.1 i ms <= count_marks m.1 ms)%nat) by lia. unfold place in Hp.
  rewrite (labels_at m.1 i m ms Hm eq_refl) in Hl.
  apply (f_equal (take (length (labels m.1 (take i ms))))) in Hl. rewrite take_app_length in Hl. rewrite Hl.
  unfold layout. rewrite take_app_le by (by rewrite length_map, length_seq).
  apply Forall_take. apply Forall_fmap, Forall_forall. done.
Qed.

(** The whole group in front of its placeholder. *)
Lemma feeds_group ms srcs i m info : tidy ms srcs -> ms !! i = Some m -> m.2.2 = Some info ->
  length (feeds_of m.1 ms srcs) = count_marks m.1 ms.
Proof.
  intros [Hg Ha] Hm Hi. destruct (tidy_group ms i m info Hg Hm Hi) as (_ & Hl & _).
  assert (H : forall ms srcs, Forall2 attended ms srcs -> Forall (fun l => l.2 <> None) (labels m.1 ms) ->
    length (feeds_of m.1 ms srcs) = length (filter (fun l => member l = true) (labels m.1 ms))).
  { clear. induction 1 as [|m' src ms srcs Hm _ IH]; [done|]. cbn. rewrite labels_cons. case_decide; [|done].
    intros [Hl Hr]%Forall_cons. rewrite length_app, IH, filter_cons by done.
    destruct (m'.2.2) as [info|] eqn:E; [|done]. specialize (Hm info E).
    assert (Em : member m'.2 = negb (placeholder info)) by (unfold member; by rewrite E). rewrite Em.
    destruct src as [f|], (placeholder info); cbn;
      [by specialize (proj1 Hm eq_refl)|rewrite decide_True by done|rewrite decide_False by done|
       by specialize (proj2 Hm eq_refl)]; done. }
  apply H; [done|]. rewrite Hl. apply Forall_forall. intros l. apply layout_plain.
Qed.

Section Sources.
Context {V : Type}.
Abbreviation Graph := (@GraphState V).
Implicit Types (g : Graph).

(** ** Sources when connections change *)

Lemma sources_change g cs u x : direction u = Input ->
  (forall t, direction t = Input -> source_in cs t = if decide (t = u) then x else source g t) ->
  forall j, sources (set_connections cs g) j = if decide (j = node u) then <[index u := x]> (sources g j) else sources g j.
Proof.
  intros Hd Hc j. apply list_eq. intros k.
  assert (E : sources (set_connections cs g) j !! k = if decide (k < length (node_inputs g j))%nat
    then Some (source_in cs (slot j k)) else None) by exact (sources_lookup (set_connections cs g) j k).
  rewrite E, Hc by done. clear E. case_decide as Hk.
  - case_decide as Ht.
    + subst u. cbn. rewrite decide_True by done. rewrite list_lookup_insert_eq; [done|]. by rewrite length_sources.
    + case_decide as Ej.
      * rewrite list_lookup_insert_ne, sources_lookup, decide_True; [done|done|]. intros Ek. apply Ht.
        subst. destruct u; cbn in *. by subst.
      * by rewrite sources_lookup, decide_True.
  - symmetry. case_decide; apply lookup_ge_None; rewrite ?length_insert, length_sources; lia.
Qed.

End Sources.
