(* ===== verification/GraphInvariant.v ===== *)
(** The invariant of the graph document and the steps its operations are made of: wires end at
    sockets, one per input; inputs and reroutes carry the types they are fed; variadic groups are in
    order; and reroutes form no loop. *)

From stdpp Require Import relations.
From S2P Require Import Prelude GraphDocument GraphWiring GraphRouting GraphGroups.
#[local] Open Scope Z_scope.

Section Invariant.
Context {V : Type}.
Abbreviation Graph := (@GraphState V).
Implicit Types (g h : Graph) (n : @Node V) (s : @Socket V).

(** ** Marks of sockets *)

Definition mark s : Mark := (def_index s, (name s, variadic s)).

Definition marks (ins : list Socket) : list Mark := map mark ins.

Lemma marks_plain ins : marks (map plain ins) = marks ins.
Proof. unfold marks. rewrite map_map. by apply map_ext. Qed.

Lemma shape_marks g g' id : shape g = shape g' -> marks (node_inputs g id) = marks (node_inputs g' id).
Proof. intros H. rewrite <- marks_plain, (shape_inputs g g' id H). apply marks_plain. Qed.

Lemma marks_insert_at i s ins : marks (insert_at i s ins) = insert_at i (mark s) (marks ins).
Proof. unfold marks, insert_at. rewrite map_app. cbn [map]. by rewrite firstn_map, skipn_map. Qed.

Lemma marks_delete i ins : marks (delete i ins) = delete i (marks ins).
Proof. unfold marks. rewrite !delete_take_drop, map_app. by rewrite firstn_map, skipn_map. Qed.

Lemma marks_lookup i s ins : ins !! i = Some s -> marks ins !! i = Some (mark s).
Proof. intros H. unfold marks. by rewrite list_lookup_fmap, H. Qed.

Lemma marks_alter i f s ins : ins !! i = Some s -> marks (alter f i ins) = <[i := mark (f s)]> (marks ins).
Proof.
  revert i. induction ins as [|a ins IH]; intros [|i]; cbn; try done; [by intros [= ->]|].
  intros H. f_equal. by apply IH.
Qed.

Lemma member_mark s : is_variadic_member s = member (mark s).2.
Proof. done. Qed.

Lemma marks_number d base ins : forall k, marks (number_members d base k ins) = number_marks d base k (marks ins).
Proof.
  induction ins as [|s ins IH]; intros k; cbn; [done|]. rewrite member_mark.
  destruct (negb _); cbn; [by rewrite <- IH|]. destruct (member _); cbn; by rewrite <- IH.
Qed.

Lemma count_members_marks d ins : count_members d ins = count_marks d (marks ins).
Proof.
  unfold count_members, count_marks. induction ins as [|s ins IH]; [done|]. cbn [marks map].
  rewrite filter_cons, labels_cons. change (mark s).1 with (def_index s). rewrite (member_mark s).
  destruct (decide (def_index s = d)) as [Hd|Hd].
  - rewrite filter_cons. repeat case_decide; try tauto; cbn; by rewrite IH.
  - rewrite decide_False by tauto. exact IH.
Qed.

Lemma placeholder_marks d s : group_placeholder d s = ((mark s).1 =? d)%nat && is_placeholder (mark s).2.
Proof. done. Qed.

Lemma has_placeholder_marks d ins : existsb (group_placeholder d) ins = group_has_placeholder d (marks ins).
Proof. unfold group_has_placeholder. induction ins as [|s ins IH]; cbn; [done|]. by rewrite IH. Qed.

(** ** Documents *)

(** Inputs whose source is loose. *)
Definition loosely (loose : SocketId -> Prop) g (t : SocketId) : Prop := exists f, source g t = Some f /\ loose f.

(** The invariant while the reroutes [R] may be out of date and the outputs [loose] may be missing. *)
Record document_except (loose : SocketId -> Prop) (R : NodeId -> Prop) g : Prop := {
  document_wired : wired loose g;
  document_typed : typed_inputs (loosely loose g) g;
  document_mirrored : mirrored R g;
  document_tidy : forall id, tidy (marks (node_inputs g id)) (sources g id);
  document_loop_free : forall id, ~ loops g id;
}.

Definition none {A : Type} (_ : A) : Prop := False.

Definition document_ok g : Prop := document_except none none g.

Lemma loosely_shape loose g h t : shape g = shape h -> loosely loose g t -> loosely loose h t.
Proof. intros H (f & Hf & ?). exists f. split; [by rewrite <- (shape_source g h t H)|done]. Qed.

Lemma hop_loops g h id : (forall a b, hop g a b -> hop h a b) -> loops g id -> loops h id.
Proof.
  intros H (c & H1 & H2). exists c. split.
  - by apply (rtc_congruence (fun x => x) (hop h)) in H1; [|exact H].
  - apply (tc_congruence (fun x => x) (hop h)) in H2; [done|exact H].
Qed.

(** The invariant only concerns nodes and connections. *)
Lemma document_same loose R g h : nodes g = nodes h -> connections g = connections h ->
  document_except loose R g -> document_except loose R h.
Proof.
  intros Hn Hc H. assert (E : h = set_metadata (metadata h) (set_frames (frames h) g))
    by (destruct g, h; cbn in *; by subst).
  rewrite E. destruct H as [[H1 H2 H3 H4 H5 H6] H7 H8 H9 H10].
  split; [by split|exact H7|exact H8|exact H9|exact H10].
Qed.

(** Propagation completes a change behind the node [id]. *)
Lemma settle loose fuel id g : document_except loose (fun j => j = id) g -> (size (nodes g) < fuel)%nat ->
  exists g', propagate_reroute_output fuel id g = Ok g' /\ shape g' = shape g /\ document_except loose none g'.
Proof.
  intros [Hw Ht Hm Hg Hl] Hf. destruct (propagate_enough loose id g fuel Hw (Hl id) Hf) as (g' & He & Hs).
  exists g'. split; [done|]. split; [done|].
  destruct (propagate_typed loose fuel id g g' (loosely loose g) none Hw He) as (_ & Ht' & Hm').
  - eapply typed_weaken; [|exact Ht]. tauto.
  - eapply mirrored_weaken; [|exact Hm]. auto.
  - split; [by apply (shape_wired loose g)| |done| |].
    + eapply typed_weaken; [|exact Ht']. intros t _. by apply loosely_shape.
    + intros j. rewrite (shape_marks g' g), (shape_sources g' g) by done. apply Hg.
    + intros j Hj. apply (Hl j). eapply hop_loops; [|exact Hj]. intros a b. by apply shape_hop.
Qed.

(** ** Steps that keep the invariant *)

Section Insertion.
Context (id : NodeId) (i : nat) (s : @Socket V) (g g' : Graph) (H : inserted id i s g g').

Lemma inserted_incoming t : incoming_type g' (bump id i t) = incoming_type g t.
Proof.
  unfold incoming_type. rewrite (inserted_source _ _ _ _ _ H). destruct (source g t) as [f|]; [|done]. cbn.
  by rewrite (inserted_output_at _ _ _ _ _ H).
Qed.

Lemma inserted_loosely loose t : loosely loose g' (bump id i t) <-> loosely loose g t.
Proof. unfold loosely. by rewrite (inserted_source _ _ _ _ _ H). Qed.

Lemma inserted_typed loose : resolved_type s = None ->
  typed_inputs (loosely loose g) g -> typed_inputs (loosely loose g') g'.
Proof.
  intros Hs Ht u s' Hd Hp Hi. destruct (bump_cases id i u) as [[Hn Hx]|[t ->]].
  - rewrite (inserted_input_new _ _ _ _ _ H u Hn Hx) in Hi. injection Hi as <-. rewrite Hs.
    unfold incoming_type. by rewrite (inserted_source_at _ _ _ _ _ H u Hn Hx).
  - rewrite (inserted_input_at _ _ _ _ _ H) in Hi. rewrite inserted_loosely in Hp. rewrite direction_bump in Hd.
    rewrite inserted_incoming. by apply Ht.
Qed.

Lemma inserted_typed_back loose : typed_inputs (fun u => loosely loose g' u \/ node u = id /\ index u = i) g' ->
  typed_inputs (loosely loose g) g.
Proof.
  intros Ht u s' Hd Hp Hi. rewrite <- inserted_incoming. apply Ht.
  - by rewrite direction_bump.
  - rewrite inserted_loosely. intros [?|E]; [done|]. by apply bump_not_at in E.
  - by rewrite (inserted_input_at _ _ _ _ _ H).
Qed.

Lemma inserted_reroutes j n : ~ is_reroute g id -> kind n = Reroute -> nodes g !! j = Some n <-> nodes g' !! j = Some n.
Proof.
  intros Hr Hk. rewrite (inserted_lookup _ _ _ _ _ H). case_decide as E; [|done]. subst j. split.
  - intros Hn. destruct Hr. by exists n.
  - intros (m & Hm & ->)%fmap_Some. destruct Hr. by exists m.
Qed.

Lemma inserted_mirrored R : ~ is_reroute g id -> mirrored R g <-> mirrored R g'.
Proof.
  intros Hr. split; intros Hm j n a b Hn Hk; apply (Hm j n); try done;
    by apply (inserted_reroutes j n Hr Hk).
Qed.

Lemma inserted_hop a b : hop g a b <-> hop g' a b.
Proof.
  unfold hop. rewrite (inserted_is_reroute _ _ _ _ _ H). split; intros [Hr (t & Ht & Hb)]; split; try done.
  - exists (bump id i t). by rewrite (inserted_source _ _ _ _ _ H), node_bump.
  - destruct (bump_cases id i t) as [[Hn Hx]|[t' ->]].
    + by rewrite (inserted_source_at _ _ _ _ _ H t Hn Hx) in Ht.
    + exists t'. by rewrite (inserted_source _ _ _ _ _ H), node_bump in *.
Qed.

End Insertion.

(** Changing names and group flags of the inputs of a node. *)
Section Relabel.
Context (id : NodeId) (F : list (@Socket V) -> list (@Socket V)) (g : Graph).
Context (HF : forall ins, Forall2 (fun s s' => resolved_type s' = resolved_type s /\ type_name s' = type_name s) ins (F ins)).

Definition relabel : Graph := update_node id (fun n => set_inputs (F (inputs n)) n) g.

Lemma relabel_inputs j : node_inputs relabel j = if decide (j = id) then F (node_inputs g id) else node_inputs g j.
Proof.
  unfold node_inputs. cbn. case_decide as E; [subst j|by rewrite lookup_alter_ne].
  rewrite lookup_alter_eq. destruct (nodes g !! id); [done|]. cbn. by pose proof (Forall2_nil_inv_l _ _ (HF [])).
Qed.

Lemma relabel_sources j : sources relabel j = sources g j.
Proof.
  unfold sources. rewrite relabel_inputs. case_decide as E; [|done]. subst j.
  by rewrite <- (Forall2_length _ _ _ (HF (node_inputs g id))).
Qed.

Lemma relabel_output_at t : output_at relabel t = output_at g t.
Proof.
  unfold output_at. cbn. destruct (decide (node t = id)) as [->|]; [|by rewrite lookup_alter_ne].
  rewrite lookup_alter_eq. by destruct (nodes g !! id).
Qed.

Lemma relabel_input_at t s' : input_at relabel t = Some s' ->
  exists s, input_at g t = Some s /\ resolved_type s' = resolved_type s /\ type_name s' = type_name s.
Proof.
  rewrite !input_at_inputs, relabel_inputs. case_decide as E; [|intros ?; by exists s'].
  rewrite E. intros Hs. by apply (Forall2_lookup_r _ _ _ _ _ (HF (node_inputs g id))).
Qed.

Lemma relabel_input_is_Some t : is_Some (input_at g t) -> is_Some (input_at relabel t).
Proof.
  rewrite !input_at_inputs, relabel_inputs. case_decide as E; [|done]. rewrite E, !lookup_lt_is_Some.
  by rewrite <- (Forall2_length _ _ _ (HF (node_inputs g id))).
Qed.

Lemma relabel_reroutes j n : ~ is_reroute g id -> kind n = Reroute -> nodes g !! j = Some n <-> nodes relabel !! j = Some n.
Proof.
  intros Hr Hk. cbn. destruct (decide (j = id)) as [->|]; [|by rewrite lookup_alter_ne].
  rewrite lookup_alter_eq. split.
  - intros Hn. destruct Hr. by exists n.
  - intros (m & Hm & ->)%fmap_Some. destruct Hr. by exists m.
Qed.

Lemma relabel_is_reroute j : is_reroute relabel j <-> is_reroute g j.
Proof.
  unfold is_reroute. cbn. destruct (decide (j = id)) as [->|]; [|by rewrite lookup_alter_ne].
  rewrite lookup_alter_eq. destruct (nodes g !! id) as [n|]; cbn; [|done].
  split; intros (m & [= <-] & Hm); eexists; by split.
Qed.

Lemma relabel_wired loose : ~ is_reroute g id -> wired loose g -> wired loose relabel.
Proof.
  intros Hr [H1 H2 H3 H4 H5 H6]. split; try done.
  - intros j n Hn. cbn in Hn. destruct (decide (j = id)) as [->|].
    + rewrite lookup_alter_eq in Hn. apply fmap_Some in Hn as (m & Hm & ->). cbn. by apply (H1 id).
    + rewrite lookup_alter_ne in Hn by done. by apply H1.
  - intros c Hc. rewrite relabel_output_at. by apply H4.
  - intros c Hc. by apply relabel_input_is_Some, H5.
  - intros j n Hn Hk. apply (H6 j n); [by apply relabel_reroutes|done].
Qed.

Lemma relabel_typed P : typed_inputs P g -> typed_inputs P relabel.
Proof.
  intros Ht u s' Hd Hp (s & Hs & Hr & Hn)%relabel_input_at. rewrite Hr, (Ht u s Hd Hp Hs).
  assert (E : incoming_type relabel u = incoming_type g u).
  { unfold incoming_type. change (source relabel u) with (source g u). destruct (source g u); [|done]. cbn.
    by rewrite relabel_output_at. }
  rewrite E. unfold resolution. by rewrite Hn.
Qed.

Lemma relabel_mirrored R : ~ is_reroute g id -> mirrored R g -> mirrored R relabel.
Proof. intros Hr Hm j n a b Hn Hk. apply (Hm j n); [by apply relabel_reroutes|done]. Qed.

Lemma relabel_hop a b : hop relabel a b <-> hop g a b.
Proof. unfold hop. by rewrite relabel_is_reroute. Qed.
End Relabel.

Lemma number_core d base ins : forall k,
  Forall2 (fun s s' => resolved_type s' = resolved_type s /\ type_name s' = type_name s) ins (number_members d base k ins).
Proof.
  induction ins as [|s ins IH]; intros k; cbn; [constructor|].
  destruct (negb _); [by constructor|]. destruct (is_variadic_member s); by constructor.
Qed.

Lemma alter_core i nm v (ins : list (@Socket V)) :
  Forall2 (fun s s' => resolved_type s' = resolved_type s /\ type_name s' = type_name s) ins
    (alter (fun s => set_name nm (set_variadic v s)) i ins).
Proof.
  revert i. induction ins as [|s ins IH]; intros [|i]; cbn; [constructor|constructor| |].
  - constructor; [done|]. by apply Forall_Forall2_diag, Forall_forall.
  - constructor; [done|]. apply IH.
Qed.
End Invariant.
