(* ===== verification/GraphOperations.v ===== *)
(** What each operation of the graph document does to the invariant and to the lists of outputs
    that feed the variadic groups. *)

From S2P Require Import Prelude GraphDocument GraphWiring GraphRouting GraphGroups GraphInvariant.
#[local] Open Scope Z_scope.

Lemma NoDup_map_filter {A B} (f : A -> B) (P : A -> Prop) `{forall x, Decision (P x)} (l : list A) :
  NoDup (map f l) -> NoDup (map f (filter P l)).
Proof.
  induction l as [|a l IH]; [done|]. cbn [map]. intros [Hn Hl]%NoDup_cons. rewrite filter_cons.
  case_decide; [|auto]. cbn. constructor; [|auto]. intros (b & E & [_ Hb]%list_elem_of_filter)%list_elem_of_fmap.
  apply Hn. rewrite E. by apply list_elem_of_fmap_2.
Qed.

Lemma delete_insert_same {A} (i : nat) (x : A) (l : list A) : delete i (<[i := x]> l) = delete i l.
Proof. by rewrite !delete_take_drop, take_insert_ge, drop_insert_lt by lia. Qed.

Section Operations.
Context {V : Type}.
Abbreviation Graph := (@GraphState V).
Implicit Types (g h : Graph) (n : @Node V) (s : @Socket V).

Definition node_marks g (id : NodeId) : list Mark := marks (node_inputs g id).

(** The outputs that feed a group of a node, in the order of its inputs. *)
Definition feeds g (id : NodeId) (d : nat) : list SocketId := feeds_of d (node_marks g id) (sources g id).

Lemma length_marks g id : length (node_marks g id) = length (sources g id).
Proof. unfold node_marks, marks. by rewrite length_map, length_sources. Qed.

Lemma feeds_same g h id d : node_marks g id = node_marks h id -> sources g id = sources h id -> feeds g id d = feeds h id d.
Proof. unfold feeds. by intros -> ->. Qed.

Lemma shape_feeds g h id d : shape g = shape h -> feeds g id d = feeds h id d.
Proof. intros H. apply feeds_same; [by apply shape_marks|by apply shape_sources]. Qed.

Lemma shape_dom g h : shape g = shape h -> dom (nodes g) = dom (nodes h).
Proof.
  intros H. apply (f_equal (fun x => dom (nodes x))) in H. cbn in H. by rewrite !dom_fmap_L in H.
Qed.

(** What the operations leave of the rest of the document. *)
Definition kept g h : Prop := dom (nodes h) = dom (nodes g) /\ map from (connections h) = map from (connections g).

Lemma shape_kept g h : shape h = shape g -> kept g h.
Proof. intros H. split; [by apply shape_dom|]. by rewrite (shape_connections h g H). Qed.

Lemma kept_size g h : kept g h -> size (nodes h) = size (nodes g).
Proof. intros [H _]. by rewrite <- !size_dom, H. Qed.

Lemma kept_trans g h k : kept g h -> kept h k -> kept g k.
Proof. intros [? ?] [? ?]. split; congruence. Qed.

Lemma inserted_kept id i s g g' : inserted id i s g g' -> kept g g'.
Proof.
  intros H. split.
  { destruct (inserted_node _ _ _ _ _ H) as (n & Hn & ->). rewrite dom_insert_L.
    apply elem_of_dom_2 in Hn. set_solver. }
  rewrite (inserted_connections _ _ _ _ _ H). unfold bumped. by rewrite map_map.
Qed.

Lemma kept_sym g h : kept g h -> kept h g.
Proof. intros [? ?]. by split. Qed.

Lemma variadic_not_reroute loose g to s info : wired loose g -> input_at g to = Some s -> variadic s = Some info ->
  ~ is_reroute g (node to).
Proof.
  intros Hw Hs Hi (n & Hn & Hk). destruct (wired_reroutes _ _ Hw _ n Hn Hk) as (i & o & Hin & _ & Hv).
  unfold input_at in Hs. rewrite Hn in Hs. cbn in Hs. rewrite Hin in Hs.
  apply list_lookup_singleton_Some in Hs as [_ ->]. congruence.
Qed.

Lemma variadic_input_spec g to s info : input_at g to = Some s -> variadic s = Some info ->
  variadic_input g to = Some (def_index s, info, s).
Proof. intros Hs Hi. unfold variadic_input. rewrite Hs. cbn. by rewrite Hi. Qed.

(** ** Steps *)

(** The invariant without the order of the groups. *)
Record core (loose : SocketId -> Prop) (R : NodeId -> Prop) g : Prop := {
  core_wired : wired loose g;
  core_typed : typed_inputs (loosely loose g) g;
  core_mirrored : mirrored R g;
  core_loop_free : forall id, ~ loops g id;
}.

Lemma core_document loose R g : core loose R g -> (forall id, tidy (node_marks g id) (sources g id)) ->
  document_except loose R g.
Proof. by intros [] ?. Qed.

Lemma core_inserted loose R id i s g g' : inserted id i s g g' -> ~ is_reroute g id -> resolved_type s = None ->
  core loose R g -> core loose R g'.
Proof.
  intros H Hr Hs [Hw Ht Hm Hl]. split.
  - by apply (inserted_wired _ _ _ _ _ H).
  - by apply (inserted_typed _ _ _ _ _ H).
  - by apply (inserted_mirrored _ _ _ _ _ H).
  - intros j Hj. apply (Hl j). eapply hop_loops; [|exact Hj]. intros a b. by apply (inserted_hop _ _ _ _ _ H).
Qed.

Lemma core_removed loose R id i s g g' : inserted id i s g g' -> ~ is_reroute g id ->
  wired loose g' -> typed_inputs (fun u => loosely loose g' u \/ node u = id /\ index u = i) g' ->
  mirrored R g' -> (forall id, ~ loops g' id) -> core loose R g.
Proof.
  intros H Hr Hw Ht Hm Hl. split.
  - by apply (inserted_wired _ _ _ _ _ H).
  - by apply (inserted_typed_back _ _ _ _ _ H).
  - by apply (inserted_mirrored _ _ _ _ _ H).
  - intros j Hj. apply (Hl j). eapply hop_loops; [|exact Hj]. intros a b. by apply (inserted_hop _ _ _ _ _ H).
Qed.

Definition keeps_types (F : list (@Socket V) -> list (@Socket V)) : Prop := forall ins,
  Forall2 (fun s s' => resolved_type s' = resolved_type s /\ type_name s' = type_name s) ins (F ins).

Lemma core_relabel loose R id F g : keeps_types F -> ~ is_reroute g id -> core loose R g -> core loose R (relabel id F g).
Proof.
  intros HF Hr [Hw Ht Hm Hl]. split.
  - by apply relabel_wired.
  - by apply relabel_typed.
  - by apply relabel_mirrored.
  - intros j Hj. apply (Hl j). eapply hop_loops; [|exact Hj]. intros a b. apply relabel_hop.
Qed.

Lemma relabel_kept id F g : kept g (relabel id F g).
Proof. split; [apply dom_alter_L|done]. Qed.

Lemma relabel_marks id F g j : keeps_types F -> node_marks (relabel id F g) j =
  if decide (j = id) then marks (F (node_inputs g id)) else node_marks g j.
Proof. intros HF. unfold node_marks. rewrite relabel_inputs by done. by case_decide. Qed.

Lemma inserted_marks id i s g g' j : inserted id i s g g' -> node_marks g' j =
  if decide (j = id) then insert_at i (mark s) (node_marks g id) else node_marks g j.
Proof.
  intros H. unfold node_marks. case_decide as E; [subst j|by rewrite (inserted_other _ _ _ _ _ H)].
  by rewrite (inserted_inputs _ _ _ _ _ H), marks_insert_at.
Qed.

Lemma inserted_all_sources id i s g g' j : inserted id i s g g' -> sources g' j =
  if decide (j = id) then insert_at i None (sources g id) else sources g j.
Proof.
  intros H. case_decide as E; [subst j|by rewrite (inserted_other_sources _ _ _ _ _ H)].
  by rewrite (inserted_sources _ _ _ _ _ H).
Qed.

Lemma removed_marks id i s g g' j : inserted id i s g g' -> node_marks g j =
  if decide (j = id) then delete i (node_marks g' id) else node_marks g' j.
Proof.
  intros H. rewrite !(inserted_marks _ _ _ _ _ _ H). case_decide as E; [subst j|done]. rewrite decide_True by done.
  rewrite delete_insert_at; [done|]. unfold node_marks, marks. rewrite length_map. by apply H.
Qed.

Lemma removed_sources id i s g g' j : inserted id i s g g' -> sources g j =
  if decide (j = id) then delete i (sources g' id) else sources g' j.
Proof.
  intros H. rewrite !(inserted_all_sources _ _ _ _ _ _ H). case_decide as E; [subst j|done]. rewrite decide_True by done.
  rewrite delete_insert_at; [done|]. rewrite length_sources. by apply H.
Qed.

Lemma insert_exists id i s g : is_Some (nodes g !! id) -> (i <= length (node_inputs g id))%nat ->
  inserted id i s g (insert_input_socket id i s g).
Proof.
  intros [n Hn] Hi. apply (insert_input_socket_inserted _ _ _ _ n); [done|]. unfold node_inputs in Hi. by rewrite Hn in Hi.
Qed.

Lemma number_keeps_types d base : keeps_types (number_members d base 0).
Proof. intros ins. apply number_core. Qed.

(** ** Collapsing a member *)

Lemma collapse_unfold g g1 to s info : input_at g to = Some s -> variadic s = Some info -> placeholder info = false ->
  remove_input_socket (node to) (index to) g = (Some s, g1) -> inserted (node to) (index to) s g1 g ->
  collapse_variadic_member to g =
  let g2 := relabel (node to) (number_members (def_index s) (base info) 0) g1 in
  if collapses (index to) (mark s) info (node_marks g (node to))
  then insert_input_socket (node to) (group_end (def_index s) (index to) (node_marks g1 (node to)))
    (set_variadic (Some (mkVariadic (base info) (group_max info) true)) (set_name (base info) (set_resolved None s))) g2
  else g2.
Proof.
  intros Hs Hi Hp E1 H1. unfold collapse_variadic_member. rewrite (variadic_input_spec g to s info Hs Hi), Hp, E1.
  destruct (inserted_node _ _ _ _ _ H1) as (n1 & Hn1 & _). rewrite Hn1. cbn zeta.
  assert (Hrm : delete (index to) (node_marks g (node to)) = node_marks g1 (node to))
    by (symmetry; rewrite (removed_marks _ _ _ _ _ _ H1); by rewrite decide_True).
  assert (Hni : marks (inputs n1) = node_marks g1 (node to)) by (unfold node_marks, node_inputs; by rewrite Hn1).
  rewrite has_placeholder_marks, count_members_marks, Hni. unfold collapses.
  rewrite Hrm, <- Hni. unfold group_end, marks. rewrite last_index_map. done.
Qed.

Lemma collapse_spec loose g to s info : wired loose g ->
  typed_inputs (fun u => loosely loose g u \/ u = to) g -> mirrored none g -> (forall id, ~ loops g id) ->
  direction to = Input -> input_at g to = Some s -> variadic s = Some info -> placeholder info = false ->
  source g to = None ->
  (forall id, id <> node to -> tidy (node_marks g id) (sources g id)) ->
  (forall d, group_ok (labels d (node_marks g (node to)))) ->
  Forall2 attended (delete (index to) (node_marks g (node to))) (delete (index to) (sources g (node to))) ->
  let h := collapse_variadic_member to g in
  document_except loose none h /\ kept g h /\ forall id d, feeds h id d = feeds g id d.
Proof.
  intros Hw Ht Hm Hl Hd Hs Hi Hp Hsrc Htidy Hg Ha. cbn zeta.
  pose proof (variadic_not_reroute loose g to s info Hw Hs Hi) as Hr.
  assert (Hto : to = slot (node to) (index to)) by (destruct to; cbn in *; by subst).
  assert (Hin : node_inputs g (node to) !! index to = Some s) by (by rewrite input_at_inputs in Hs).
  destruct (remove_inserted loose (node to) (index to) s g Hw Hin) as (g1 & E1 & H1); [by rewrite <- Hto|].
  rewrite (collapse_unfold g g1 to s info Hs Hi Hp E1 H1). cbn zeta.
  set (id := node to) in *. set (i := index to) in *.
  assert (Hr1 : ~ is_reroute g1 id) by (by rewrite <- (inserted_is_reroute _ _ _ _ _ H1)).
  assert (Hc1 : core loose none g1).
  { apply (core_removed loose none id i s g1 g H1 Hr1); try done. eapply typed_weaken; [|exact Ht].
    intros u _ [?| ->]; [by left|right; done]. }
  set (g2 := relabel id _ g1).
  assert (Hc2 : core loose none g2) by (apply core_relabel; [apply number_keeps_types|done|done]).
  assert (Hmk : forall j, node_marks g2 j = if decide (j = id)
    then number_marks (def_index s) (base info) 0 (delete i (node_marks g id)) else node_marks g j).
  { intros j. unfold g2. rewrite (relabel_marks id _ g1 j) by apply number_keeps_types. rewrite marks_number.
    fold (node_marks g1 id). rewrite !(removed_marks _ _ _ _ _ _ H1). repeat case_decide; done. }
  assert (Hsr : forall j, sources g2 j = if decide (j = id) then delete i (sources g id) else sources g j).
  { intros j. unfold g2. rewrite relabel_sources by apply number_keeps_types. apply (removed_sources _ _ _ _ _ _ H1). }
  pose proof (tidy_collapse (node_marks g id) (sources g id) i (mark s) info Hg (marks_lookup _ _ _ Hin) Hi Hp Ha) as Htd.
  assert (Hrm : node_marks g1 id = delete i (node_marks g id))
    by (rewrite (removed_marks _ _ _ _ _ _ H1); by rewrite decide_True).
  rewrite Hrm. assert (Hsi : sources g id !! i = Some None).
  { rewrite sources_lookup, decide_True by (by apply lookup_lt_Some in Hin). by rewrite <- Hto, Hsrc. }
  assert (Hk2 : kept g g2) by (eapply kept_trans; [apply kept_sym, (inserted_kept _ _ _ _ _ H1)|apply relabel_kept]).
  unfold collapse_marks, collapse_sources in Htd. destruct (collapses i (mark s) info (node_marks g id)).
  - set (e := group_end (def_index s) i (delete i (node_marks g id))) in *.
    set (ph := set_variadic _ _).
    assert (He : (e <= length (node_inputs g2 id))%nat).
    { rewrite <- (length_map mark). fold (marks (node_inputs g2 id)). fold (node_marks g2 id).
      rewrite Hmk, decide_True, length_number by done. apply place_end. rewrite <- Hrm.
      unfold node_marks, marks. rewrite length_map. apply H1. }
    assert (Hx : is_Some (nodes g2 !! id)).
    { destruct (inserted_node _ _ _ _ _ H1) as (n1 & Hn1 & _). cbn. rewrite lookup_alter_eq, Hn1. by eexists. }
    pose proof (insert_exists id e ph g2 Hx He) as H3.
    assert (Hr2 : ~ is_reroute g2 id) by (unfold g2; by rewrite relabel_is_reroute).
    split; [|split].
    + apply core_document; [by apply (core_inserted _ _ _ _ _ _ _ H3)|]. intros j.
      rewrite (inserted_marks _ _ _ _ _ _ H3), (inserted_all_sources _ _ _ _ _ _ H3), !Hmk, !Hsr.
      destruct (decide (j = id)) as [->|Hj]; [|by apply Htidy]. rewrite !decide_True by done. exact Htd.
    + eapply kept_trans; [exact Hk2|]. by apply (inserted_kept _ _ _ _ _ H3).
    + intros j d. unfold feeds.
      rewrite (inserted_marks _ _ _ _ _ _ H3), (inserted_all_sources _ _ _ _ _ _ H3), !Hmk, !Hsr.
      destruct (decide (j = id)) as [->|Hj]; [|done]. rewrite !decide_True by done.
      rewrite feeds_insert, feeds_number, feeds_delete; try done; [by apply length_marks|].
      rewrite length_number. rewrite <- Hrm. rewrite (length_marks g1). by rewrite (removed_sources _ _ _ _ _ _ H1), decide_True.
  - split; [|split; [done|]].
    + apply core_document; [done|]. intros j. rewrite Hmk, Hsr.
      destruct (decide (j = id)) as [->|Hj]; [exact Htd|by apply Htidy].
    + intros j d. unfold feeds. rewrite Hmk, Hsr. destruct (decide (j = id)) as [->|Hj]; [|done].
      rewrite feeds_number, feeds_delete; try done. by apply length_marks.
Qed.

(** ** Disconnecting an input *)

(** The document without the connection into [to]. *)
Definition detached (to : SocketId) g : Graph := set_connections (others to (connections g)) g.

Lemma detached_source to g t : source (detached to g) t = if decide (t = to) then None else source g t.
Proof. unfold source. cbn. apply source_in_others. Qed.

Lemma wired_fewer loose g cs : (forall c, c ∈ cs -> c ∈ connections g) -> NoDup (map to cs) ->
  wired loose g -> wired loose (set_connections cs g).
Proof.
  intros Hin Hn [H1 H2 H3 H4 H5 H6]. split; try done; cbn.
  - intros c Hc. by apply H3, Hin.
  - intros c Hc. by apply H4, Hin.
  - intros c Hc. by apply H5, Hin.
Qed.

Lemma detached_wired loose to g : wired loose g -> wired loose (detached to g).
Proof.
  intros H. apply wired_fewer; [|apply NoDup_map_filter, H|done]. by intros c [_ ?]%list_elem_of_filter.
Qed.

Lemma detached_typed loose to g : typed_inputs (loosely loose g) g ->
  typed_inputs (fun u => loosely loose (detached to g) u \/ u = to) (detached to g).
Proof.
  intros Ht u s Hd Hp Hu. unfold incoming_type. rewrite detached_source, decide_False by tauto.
  apply Ht; [done| |done]. intros (f & Hf & Hl). apply Hp. left. exists f. split; [|done].
  rewrite detached_source, decide_False; tauto.
Qed.

Lemma detached_loop_free to g id : ~ loops g id -> ~ loops (detached to g) id.
Proof.
  intros H Hl. apply H. eapply hop_loops; [|exact Hl]. intros a b [Hr (t & Ht & Hb)]. split; [done|].
  exists t. split; [|done]. rewrite detached_source in Ht. by case_decide.
Qed.

Lemma detached_sources to g j : direction to = Input ->
  sources (detached to g) j = if decide (j = node to) then <[index to := None]> (sources g j) else sources g j.
Proof. intros Hd. apply sources_change; [done|]. intros t _. apply source_in_others. Qed.

Lemma source_input loose g f to : wired loose g -> source g to = Some f ->
  direction to = Input /\ exists s, input_at g to = Some s.
Proof.
  intros Hw Hs. apply (source_elem _ _ _ _ Hw) in Hs. split; [by apply (wired_directions _ _ Hw) in Hs as [_ ?]|].
  by apply (wired_to _ _ Hw) in Hs as [s ?]; exists s.
Qed.

Lemma source_slot g to : direction to = Input -> (index to < length (node_inputs g (node to)))%nat ->
  sources g (node to) !! index to = Some (source g to).
Proof. intros Hd Hi. rewrite sources_lookup, decide_True by done. do 2 f_equal. destruct to; cbn in *; by subst. Qed.

Lemma input_in_range g to s : input_at g to = Some s -> (index to < length (node_inputs g (node to)))%nat.
Proof. rewrite input_at_inputs. apply lookup_lt_Some. Qed.

Lemma input_mark g to s : input_at g to = Some s -> node_marks g (node to) !! index to = Some (mark s).
Proof. rewrite input_at_inputs. apply marks_lookup. Qed.

(** The group of a fed input loses this feed when the input is disconnected. *)
Definition feeds_without g to s (d : nat) : list SocketId :=
  if decide (def_index s = d) then delete (fed_before d (index to) (node_marks g (node to)) (sources g (node to)))
    (feeds g (node to) d)
  else feeds g (node to) d.

Lemma detached_feeds g to s f id d : direction to = Input -> input_at g to = Some s -> source g to = Some f ->
  feeds (detached to g) id d = if decide (id = node to) then feeds_without g to s d else feeds g id d.
Proof.
  intros Hd Hs Hf. unfold feeds at 1. rewrite detached_sources by done.
  change (node_marks (detached to g) id) with (node_marks g id). case_decide as E; [|done]. subst id.
  rewrite (feeds_set _ _ _ _ (length_marks _ _) (mark s) (Some f)).
  - unfold feeds_without. change (mark s).1 with (def_index s). case_decide; [|done]. cbn. rewrite delete_take_drop. by rewrite Nat.add_1_r.
  - by apply input_mark.
  - by rewrite source_slot, Hf by (done || by eapply input_in_range).
Qed.

Lemma tidy_attended g to s f : direction to = Input -> tidy (node_marks g (node to)) (sources g (node to)) ->
  input_at g to = Some s -> source g to = f -> attended (mark s) f.
Proof.
  intros Hd [_ Ha] Hs Hf. rewrite Forall2_lookup in Ha. specialize (Ha (index to)).
  rewrite (input_mark g to s Hs), source_slot, Hf in Ha by (done || by eapply input_in_range).
  by inversion Ha.
Qed.

Lemma on_input_disconnected_spec loose g to s f fuel : document_except loose none g -> source g to = Some f ->
  input_at g to = Some s -> (size (nodes g) < fuel)%nat ->
  exists g', on_input_disconnected fuel to (detached to g) = Ok g' /\ document_except loose none g' /\
    kept (detached to g) g' /\
    forall id d, feeds g' id d = if decide (id = node to) then feeds_without g to s d else feeds g id d.
Proof.
  intros [Hw Ht Hm Hg Hl] Hf Hs Hfuel. destruct (source_input _ _ _ _ Hw Hf) as [Hd _].
  pose proof (tidy_attended g to s _ Hd (Hg _) Hs Hf) as Hat.
  pose proof (fun id d => detached_feeds g to s f id d Hd Hs Hf) as Hfd.
  assert (Hnone : source (detached to g) to = None) by (by rewrite detached_source, decide_True).
  assert (Hother : forall id, id <> node to -> tidy (node_marks (detached to g) id) (sources (detached to g) id))
    by (intros id Hid; rewrite detached_sources, decide_False by done; apply Hg).
  assert (Hh : exists h, (if match input_at (detached to g) to with Some s => is_variadic_member s | None => false end
      then collapse_variadic_member to (detached to g) else clear_input_resolution to (detached to g)) = h /\
    document_except loose (fun j => j = node to) h /\ kept (detached to g) h /\
    forall id d, feeds h id d = feeds (detached to g) id d).
  { change (input_at (detached to g) to) with (input_at g to). rewrite Hs. unfold is_variadic_member.
    destruct (variadic s) as [info|] eqn:Hv; [destruct (placeholder info) eqn:Hp|]; cbn.
    - by destruct (Hat info Hv) as [Hx _]; specialize (Hx Hp).
    - destruct (collapse_spec loose (detached to g) to s info) as (Hdoc & Hk & Hfe); try done.
      + by apply detached_wired.
      + by apply detached_typed.
      + intros id. by apply detached_loop_free.
      + apply Hg.
      + rewrite detached_sources, decide_True by done. rewrite delete_insert_same. apply Forall2_delete_both, Hg.
      + eexists. split; [done|]. split; [|done]. destruct Hdoc as [? ? Hmi ? ?]. split; try done.
        eapply mirrored_weaken; [|exact Hmi]. done.
    - eexists. split; [done|].
      assert (Hsh : shape (clear_input_resolution to (detached to g)) = shape (detached to g)) by (by apply shape_update_input).
      split; [split|split; [by apply shape_kept|intros; by apply shape_feeds]].
      + by apply (shape_wired loose (detached to g)), detached_wired.
      + eapply typed_weaken; [|apply (clear_typed to (loosely loose (detached to g))); [done|done|by apply detached_typed]].
        intros u _. by apply loosely_shape.
      + eapply mirrored_weaken; [|apply (clear_mirrored to none); exact Hm]. by intros j _ [[]|].
      + intros id. rewrite (shape_marks _ (detached to g)), (shape_sources _ (detached to g)) by done.
        destruct (decide (id = node to)) as [->|Hid]; [|by apply Hother].
        rewrite detached_sources, decide_True by done. split; [apply Hg|].
        change (marks (node_inputs (detached to g) (node to))) with (node_marks g (node to)).
        rewrite <- (list_insert_id _ _ _ (input_mark g to s Hs)). apply Forall2_insert; [apply Hg|].
        intros info Hi. cbn in Hi. congruence.
      + intros id Hid. apply (detached_loop_free to g id (Hl id)). eapply hop_loops; [|exact Hid].
        intros a b. by apply shape_hop. }
  destruct Hh as (h & Eh & Hdoc & Hk & Hfe).
  destruct (settle loose fuel (node to) h Hdoc) as (g' & E & Hsh & Hdoc'); [by rewrite (kept_size _ _ Hk)|].
  exists g'. unfold on_input_disconnected. rewrite Eh. split; [done|]. split; [done|]. split.
  - eapply kept_trans; [exact Hk|by apply shape_kept].
  - intros id d. rewrite (shape_feeds g' h) by done. by rewrite Hfe, Hfd.
Qed.
End Operations.
