(* ===== verification/GraphAddition.v ===== *)
(** Operations of the graph document that add connections and nodes. *)

From stdpp Require Import relations.
From S2P Require Import Prelude GraphDocument GraphWiring GraphRouting GraphGroups GraphInvariant.
From S2P Require Import GraphOperations.

#[local] Open Scope Z_scope.

(** ** Operations of the graph document that take connections and nodes away. *)

Lemma delete_others cs i c : NoDup (map to cs) -> cs !! i = Some c -> delete i cs = others (to c) cs.
Proof.
  revert i. induction cs as [|a cs IH]; intros [|i]; [done|done| |]; cbn [map];
    intros [Hn Hd]%NoDup_cons; unfold others; rewrite filter_cons; cbn.
  - intros [= ->]. rewrite decide_False by auto. symmetry. apply filter_all. intros b Hb E. apply Hn. rewrite <- E.
    by apply list_elem_of_fmap_2.
  - intros Hc. rewrite decide_True; [f_equal; by apply IH|]. intros E. apply Hn. rewrite E.
    by apply list_elem_of_fmap_2, list_elem_of_lookup_2 with i.
Qed.

Section Removal.
Context {V : Type}.
Abbreviation Graph := (@GraphState V).
Implicit Types (g h : Graph) (n : @Node V) (s : @Socket V).

Lemma change_feeds g id d : feeds (mark_semantic_change g) id d = feeds g id d.
Proof. done. Qed.

Lemma change_document loose R g : document_except loose R g -> document_except loose R (mark_semantic_change g).
Proof. by apply document_same. Qed.

Lemma detached_unfed g to : source g to = None -> detached to g = g.
Proof.
  intros H%source_in_none. unfold detached, others. rewrite filter_all; [by destruct g|].
  intros c Hc E. apply H. rewrite <- E. by apply list_elem_of_fmap_2.
Qed.

Lemma detached_shorter g to f : source g to = Some f ->
  (length (others to (connections g)) < length (connections g))%nat.
Proof.
  intros H%source_in_elem. unfold others. apply (length_filter_lt _ _ (mkConnection f to)); [done|]. cbn. auto.
Qed.

Lemma disconnect_input_spec loose g to fuel : document_except loose none g -> (size (nodes g) < fuel)%nat ->
  match source g to with
  | None => disconnect_input fuel to g = Ok (false, g)
  | Some f => exists s g', input_at g to = Some s /\ disconnect_input fuel to g = Ok (true, g') /\
      document_except loose none g' /\ kept (detached to g) g' /\
      forall id d, feeds g' id d = if decide (id = node to) then feeds_without g to s d else feeds g id d
  end.
Proof.
  intros Hdoc Hfuel. unfold disconnect_input. fold (detached to g). destruct (source g to) as [f|] eqn:Hf.
  - destruct (source_input _ _ _ _ (document_wired _ _ _ Hdoc) Hf) as [Hd [s Hs]].
    destruct (on_input_disconnected_spec loose g to s f fuel Hdoc Hf Hs Hfuel) as (g' & E & Hdoc' & Hk & Hfe).
    exists s, (mark_semantic_change g'). split; [done|]. split; [|by split; [apply change_document|]].
    pose proof (detached_shorter g to f Hf). cbn [connections set_connections detached].
    destruct (Nat.eqb_spec (length (others to (connections g))) (length (connections g))); [lia|]. cbn [negb].
    by rewrite E.
  - rewrite detached_unfed by done. by rewrite Nat.eqb_refl.
Qed.

Lemma remove_connection_at_spec loose g i c fuel : document_except loose none g -> connections g !! i = Some c ->
  (size (nodes g) < fuel)%nat ->
  exists s g', input_at g (to c) = Some s /\ remove_connection_at fuel i g = Ok (c, g') /\
    document_except loose none g' /\ kept (detached (to c) g) g' /\
    forall id d, feeds g' id d = if decide (id = node (to c)) then feeds_without g (to c) s d else feeds g id d.
Proof.
  intros Hdoc Hc Hfuel. pose proof (document_wired _ _ _ Hdoc) as Hw.
  assert (Hf : source g (to c) = Some (from c)).
  { apply (source_elem _ _ _ _ Hw). destruct c. by apply list_elem_of_lookup_2 with i. }
  destruct (source_input _ _ _ _ Hw Hf) as [Hd [s Hs]].
  destruct (on_input_disconnected_spec loose g (to c) s _ fuel Hdoc Hf Hs Hfuel) as (g' & E & Hdoc' & Hk & Hfe).
  exists s, (mark_semantic_change g'). split; [done|]. split; [|by split; [apply change_document|]].
  unfold remove_connection_at. rewrite Hc, (delete_others _ i c) by (done || apply Hw). fold (detached (to c) g).
  by rewrite E.
Qed.

(** ** Removing a node *)

Lemma outgoing_position_spec id cs : forall i,
  match outgoing_position id i cs with
  | Some k => exists j c, k = (i + j)%nat /\ cs !! j = Some c /\ node (from c) = id
  | None => Forall (fun c => node (from c) <> id) cs
  end.
Proof.
  induction cs as [|c cs IH]; intros i; cbn; [done|]. case_decide as E.
  - exists O, c. split; [lia|done].
  - specialize (IH (S i)). destruct (outgoing_position id (S i) cs) as [k|]; [|by constructor].
    destruct IH as (j & c' & -> & ? & ?). exists (S j), c'. split; [lia|done].
Qed.

Definition from_node (id : NodeId) (f : SocketId) : Prop := node f = id.

Lemma remove_outgoing_spec id fuel turns : forall g, document_except (from_node id) none g ->
  (size (nodes g) < fuel)%nat -> (length (connections g) <= turns)%nat ->
  exists g', remove_outgoing turns fuel id g = Ok g' /\ document_except (from_node id) none g' /\
    dom (nodes g') = dom (nodes g) /\ Forall (fun c => node (from c) <> id) (connections g').
Proof.
  induction turns as [|turns IH]; intros g Hdoc Hfuel Ht;
    pose proof (outgoing_position_spec id (connections g) 0) as Ho; cbn [remove_outgoing];
    destruct (outgoing_position id 0 (connections g)) as [k|].
  - destruct Ho as (j & c & -> & Hj & _). apply lookup_lt_Some in Hj. lia.
  - by exists g.
  - destruct Ho as (j & c & -> & Hj & _). cbn [Nat.add].
    destruct (remove_connection_at_spec _ g j c fuel Hdoc Hj Hfuel) as (s & g' & _ & E & Hdoc' & Hkept & _).
    rewrite E. pose proof (kept_size _ _ Hkept) as Hsz. destruct Hkept as [Hdom Hk]. cbn in Hsz, Hdom.
    destruct (IH g') as (g2 & E2 & ? & Hs2 & ?); [done|lia| |].
    + apply (f_equal length) in Hk. rewrite !length_map in Hk. cbn in Hk.
      assert (Hf : source g (to c) = Some (from c)).
      { apply (source_elem _ _ _ _ (document_wired _ _ _ Hdoc)). destruct c. by apply list_elem_of_lookup_2 with j. }
      pose proof (detached_shorter _ _ _ Hf). lia.
    + exists g2. split; [done|]. split; [done|]. split; [congruence|done].
  - by exists g.
Qed.

(** Without its loose outputs the document is whole. *)
Lemma document_tighten id g : document_except (from_node id) none g ->
  Forall (fun c => node (from c) <> id) (connections g) -> document_ok g.
Proof.
  intros [Hw Ht Hm Hg Hl] Hc. rewrite Forall_forall in Hc. split; try done.
  - destruct Hw as [H1 H2 H3 H4 H5 H6]. split; try done. intros c Hin. destruct (H4 c Hin); [by destruct (Hc c Hin)|by right].
  - eapply typed_weaken; [|exact Ht]. intros t _ (f & Hf & Hfrom). apply source_in_elem in Hf. by destruct (Hc _ Hf).
Qed.

(** The document right after the node is taken out: its own inputs and their connections are gone,
    its outputs are loose. *)
Definition without_node (id : NodeId) g : Graph :=
  set_connections (filter (fun c => node (to c) <> id) (connections g)) (set_nodes (delete id (nodes g)) g).

Lemma without_source id g t : source (without_node id g) t = if decide (node t = id) then None else source g t.
Proof.
  unfold source. cbn. induction (connections g) as [|c cs IH]; [by case_decide|]. rewrite filter_cons. cbn [source_in].
  destruct (decide (node (to c) <> id)) as [E|E]; [|apply dec_stable in E]; cbn [source_in]; rewrite IH;
    repeat case_decide; congruence.
Qed.

Lemma without_inputs id g j : node_inputs (without_node id g) j = if decide (j = id) then [] else node_inputs g j.
Proof.
  unfold node_inputs. cbn. case_decide as E; [subst; by rewrite lookup_delete_eq|by rewrite lookup_delete_ne].
Qed.

Lemma without_sources id g j : sources (without_node id g) j = if decide (j = id) then [] else sources g j.
Proof.
  unfold sources. rewrite without_inputs. case_decide as E; [done|]. apply map_ext. intros k.
  by rewrite without_source, decide_False.
Qed.

Lemma without_lookup id g j n : nodes (without_node id g) !! j = Some n -> nodes g !! j = Some n.
Proof. cbn. by intros [_ ?]%lookup_delete_Some. Qed.

Lemma without_document id g : document_ok g -> document_except (from_node id) none (without_node id g).
Proof.
  intros [[H1 H2 H3 H4 H5 H6] Ht Hm Hg Hl]. split.
  - split.
    + intros j n Hn%without_lookup. by apply H1.
    + by apply NoDup_map_filter.
    + intros c [_ Hc]%list_elem_of_filter. by apply H3.
    + intros c [_ Hc]%list_elem_of_filter. destruct (decide (node (from c) = id)) as [E|E]; [by left|right].
      unfold output_at. cbn. rewrite lookup_delete_ne by done. by destruct (H4 c Hc).
    + intros c [E Hc]%list_elem_of_filter. unfold input_at. cbn. rewrite lookup_delete_ne by done. by apply H5.
    + intros j n Hn%without_lookup. by apply (H6 j n).
  - intros u s Hd Hp Hu. rewrite input_at_inputs, without_inputs in Hu. case_decide as E; [done|].
    rewrite (Ht u s); [|done|by intros (f & _ & [])|by rewrite input_at_inputs]. f_equal. unfold incoming_type.
    rewrite without_source, decide_False by done. destruct (source g u) as [f|] eqn:Hf; [|done]. cbn. f_equal.
    unfold output_at. cbn. rewrite lookup_delete_ne; [done|]. intros Ef. apply Hp. exists f.
    split; [by rewrite without_source, decide_False|done].
  - intros j n a b Hn%without_lookup. by apply (Hm j n).
  - intros j. rewrite without_inputs, without_sources. case_decide; [|apply Hg].
    split; [intros d; by left; constructor|constructor].
  - intros j Hj. apply (Hl j). eapply hop_loops; [|exact Hj]. intros a b [(n & Hn & Hk) (t & Hs & Hb)].
    split; [apply without_lookup in Hn; by exists n|]. exists t. split; [|done].
    rewrite without_source in Hs. by case_decide.
Qed.

Lemma remove_node_spec g id fuel : document_ok g -> (size (nodes g) < fuel)%nat ->
  exists g', remove_node fuel id g = Ok g' /\ document_ok g' /\ dom (nodes g') = dom (nodes g) ∖ {[id]}.
Proof.
  intros Hdoc Hfuel. unfold remove_node. destruct (nodes g !! id) as [n|] eqn:Hn.
  - set (g1 := set_connections _ _).
    assert (Hdoc1 : document_except (from_node id) none g1)
      by (eapply document_same; [| |by apply (without_document id g)]; done).
    assert (Hd1 : dom (nodes g1) = dom (nodes g) ∖ {[id]}) by (cbn; apply dom_delete_L).
    destruct (remove_outgoing_spec id fuel (length (connections g1)) g1 Hdoc1) as (g' & E & Hd & Hs & Hf); [|done|].
    { assert (Hsz : (size (nodes g1) <= size (nodes g))%nat)
        by (rewrite <- !size_dom, Hd1; apply subseteq_size; set_solver). lia. }
    exists g'. split; [exact E|]. split; [by apply (document_tighten id)|congruence].
  - exists g. split; [done|]. split; [done|]. apply not_elem_of_dom in Hn. set_solver.
Qed.
End Removal.

Section Addition.
Context {V : Type}.
Abbreviation Graph := (@GraphState V).
Implicit Types (g h : Graph) (n : @Node V) (s : @Socket V).

(** ** A new connection *)

(** The document with the input [to] fed by [from]. *)
Definition attached (from to : SocketId) g : Graph :=
  set_connections (others to (connections g) ++ [mkConnection from to]) g.

Lemma attached_source f t g u : source (attached f t g) u = if decide (u = t) then Some f else source g u.
Proof. unfold source. cbn. apply source_in_push. Qed.

(** The two ends of a connection exist. *)
Record joins g (f t : SocketId) : Prop := {
  joins_output : direction f = Output /\ is_Some (output_at g f);
  joins_input : direction t = Input;
}.

Lemma attached_wired f t g s : joins g f t -> input_at g t = Some s -> wired none g -> wired none (attached f t g).
Proof.
  intros [[Hf Ho] Ht] Hs [H1 H2 H3 H4 H5 H6].
  assert (Hc : forall c, c ∈ connections (attached f t g) -> c ∈ connections g \/ c = mkConnection f t).
  { cbn. intros c [[_ Hc]%list_elem_of_filter|Hc%list_elem_of_singleton]%elem_of_app; auto. }
  split; try done.
  - cbn. rewrite map_app. apply NoDup_app. split; [by apply NoDup_map_filter|]. split; [|apply NoDup_singleton].
    intros x (c & E & [Hne _]%list_elem_of_filter)%list_elem_of_fmap Hx%list_elem_of_singleton. cbn in *. congruence.
  - intros c [Hin| ->]%Hc; [by apply H3|done].
  - intros c [Hin| ->]%Hc; [by apply H4|by right].
  - intros c [Hin| ->]%Hc; [by apply H5|by exists s].
Qed.

Lemma attached_typed f t g : typed_inputs (loosely none g) g ->
  typed_inputs (fun u => loosely none (attached f t g) u \/ u = t) (attached f t g).
Proof.
  intros Ht u s Hd Hp Hu. unfold incoming_type. rewrite attached_source, decide_False by tauto.
  apply Ht; [done| |done]. by intros (f' & _ & []).
Qed.

Lemma attached_sources f t g j : direction t = Input ->
  sources (attached f t g) j = if decide (j = node t) then <[index t := Some f]> (sources g j) else sources g j.
Proof. intros Hd. apply sources_change; [done|]. intros u _. apply source_in_push. Qed.

(** After the connection and the resolution of its input only a reroute behind it is out of date. *)
Lemma resolved_core f t g s : joins g f t -> input_at g t = Some s -> wired none g ->
  typed_inputs (loosely none g) g -> mirrored none g -> (forall id, ~ loops (attached f t g) id) ->
  core none (fun j => j = node t) (resolve_input f t (attached f t g)).
Proof.
  intros Hj Hs Hw Ht Hm Hl. set (g1 := attached f t g) in *.
  assert (Hsh : shape (resolve_input f t g1) = shape g1) by apply shape_resolve. split.
  - apply (shape_wired none g1); [done|]. by apply (attached_wired f t g s).
  - eapply typed_weaken; [|apply (resolve_typed f t (loosely none g1))].
    + intros u _. by apply loosely_shape.
    + unfold g1. by rewrite attached_source, decide_True.
    + apply Hj.
    + by apply attached_typed.
  - eapply mirrored_weaken; [|apply (resolve_mirrored f t none g1); exact Hm]. by intros j _ [[]|].
  - intros id Hid. apply (Hl id). eapply hop_loops; [|exact Hid]. intros a b. by apply shape_hop.
Qed.

(** The group of an input with [from] in the place of the input's source, or new at this place. *)
Definition feeds_with g (f t : SocketId) s (d : nat) : list SocketId :=
  if decide (def_index s = d) then
    let p := fed_before d (index t) (node_marks g (node t)) (sources g (node t)) in
    take p (feeds g (node t) d) ++ f :: drop (p + length (option_list (source g t))) (feeds g (node t) d)
  else feeds g (node t) d.

Lemma feeds_push g f t s d : direction t = Input -> input_at g t = Some s ->
  feeds_of d (node_marks g (node t)) (<[index t := Some f]> (sources g (node t))) = feeds_with g f t s d.
Proof.
  intros Hd Hs. rewrite (feeds_set _ _ _ _ (length_marks _ _) (mark s) (source g t)).
  - unfold feeds_with. change (mark s).1 with (def_index s). by case_decide.
  - by apply input_mark.
  - rewrite source_slot; [done|done|]. by eapply input_in_range.
Qed.

Lemma grow_unfold g t s info : input_at g t = Some s -> variadic s = Some info -> placeholder info = true ->
  grow_variadic_group t g =
  let k := count_marks (def_index s) (node_marks g (node t)) in
  let g3 := relabel (node t) (alter (fun s => set_name (member_name (base info) (S k))
    (set_variadic (Some (mkVariadic (base info) (group_max info) false)) s)) (index t)) g in
  if (S k <? group_max info)%nat
  then insert_input_socket (node t) (S (index t)) (set_name (base info) (set_resolved None s)) g3 else g3.
Proof.
  intros Hs Hi Hp. unfold grow_variadic_group. rewrite (variadic_input_spec g t s info Hs Hi), Hp.
  by rewrite count_members_marks.
Qed.

Lemma grow_spec R g t s info : core none R g -> input_at g t = Some s -> variadic s = Some info ->
  placeholder info = true -> 
  let h := grow_variadic_group t g in
  core none R h /\ kept g h /\
  (forall id, node_marks h id = if decide (id = node t)
     then grow_marks (index t) (mark s) info (node_marks g id) else node_marks g id) /\
  (forall id, sources h id = if decide (id = node t)
     then grow_sources (index t) (mark s) info (node_marks g id) (sources g id) else sources g id).
Proof.
  intros Hc Hs Hi Hp. cbn zeta. rewrite (grow_unfold g t s info Hs Hi Hp). cbn zeta.
  pose proof (variadic_not_reroute none g t s info (core_wired _ _ _ Hc) Hs Hi) as Hr.
  set (k := count_marks (def_index s) (node_marks g (node t))).
  set (F := alter _ (index t)).
  assert (HF : keeps_types F) by (intros ins; apply alter_core).
  set (g3 := relabel (node t) F g).
  assert (Hc3 : core none R g3) by by apply core_relabel.
  assert (Hin : node_inputs g (node t) !! index t = Some s) by (by rewrite input_at_inputs in Hs).
  assert (Hm3 : forall id, node_marks g3 id = if decide (id = node t) then
    <[index t := (def_index s, (member_name (base info) (S k), Some (mkVariadic (base info) (group_max info) false)))]>
      (node_marks g id) else node_marks g id).
  { intros id. unfold g3. rewrite relabel_marks by done. case_decide as E; [|done]. rewrite E.
    unfold F. by rewrite (marks_alter _ _ _ _ Hin). }
  assert (Hs3 : forall id, sources g3 id = sources g id) by (intros id; by apply relabel_sources).
  unfold grow_marks, grow_sources. change (mark s).1 with (def_index s).
  destruct (Nat.ltb_spec (S k) (group_max info)) as [Hlt|Hge].
  - assert (Hx : is_Some (nodes g3 !! node t)).
    { unfold input_at in Hs. apply bind_Some in Hs as (n & Hn & _). cbn. rewrite lookup_alter_eq, Hn. by eexists. }
    pose proof (insert_exists (node t) (S (index t)) (set_name (base info) (set_resolved None s)) g3 Hx) as H.
    rewrite <- length_sources, Hs3, length_sources in H. specialize (H (input_in_range _ _ _ Hs)).
    split; [|split; [|split]].
    + apply (core_inserted _ _ _ _ _ _ _ H); try done. unfold g3. by rewrite relabel_is_reroute.
    + eapply kept_trans; [apply relabel_kept|apply (inserted_kept _ _ _ _ _ H)].
    + intros id. rewrite (inserted_marks _ _ _ _ _ _ H), !Hm3. repeat case_decide; try congruence. subst id.
      fold k. rewrite (proj2 (Nat.ltb_lt _ _) Hlt). unfold mark at 1. cbn. by rewrite Hi.
    + intros id. rewrite (inserted_all_sources _ _ _ _ _ _ H), !Hs3. case_decide as E; [|done]. subst id.
      fold k. by rewrite (proj2 (Nat.ltb_lt _ _) Hlt).
  - split; [done|]. split; [apply relabel_kept|]. split.
    + intros id. rewrite Hm3. case_decide as E; [|done]. subst id. fold k. by rewrite (proj2 (Nat.ltb_ge _ _) Hge).
    + intros id. rewrite Hs3. case_decide as E; [|done]. subst id. fold k. by rewrite (proj2 (Nat.ltb_ge _ _) Hge).
Qed.

Lemma resolved_input f t g s : input_at g t = Some s -> exists s', input_at (resolve_input f t (attached f t g)) t = Some s' /\
  mark s' = mark s /\ variadic s' = variadic s /\ def_index s' = def_index s.
Proof.
  intros Hs. unfold resolve_input. rewrite input_at_update, decide_True by done.
  change (input_at (attached f t g) t) with (input_at g t). rewrite Hs. by eexists.
Qed.

Lemma resolved_marks f t g id : node_marks (resolve_input f t (attached f t g)) id = node_marks g id.
Proof. unfold node_marks. by rewrite (shape_marks _ (attached f t g)) by apply shape_resolve. Qed.

Lemma resolved_sources f t g id : direction t = Input -> sources (resolve_input f t (attached f t g)) id =
  if decide (id = node t) then <[index t := Some f]> (sources g id) else sources g id.
Proof.
  intros Hd. rewrite (shape_sources _ (attached f t g)) by apply shape_resolve. by apply attached_sources.
Qed.

Lemma grow_plain g t s : input_at g t = Some s -> is_variadic_placeholder s = false -> grow_variadic_group t g = g.
Proof.
  intros Hs Hp. unfold grow_variadic_group, variadic_input. rewrite Hs. cbn. unfold is_variadic_placeholder in Hp.
  destruct (variadic s) as [info|]; [|done]. cbn. by rewrite Hp.
Qed.

(** The connection and the growth of the group it may cause. *)
Lemma connect_spec f t g s : document_ok g -> joins g f t -> input_at g t = Some s ->
  (forall id, ~ loops (attached f t g) id) ->
  let h := grow_variadic_group t (resolve_input f t (attached f t g)) in
  document_except none (fun j => j = node t) h /\ dom (nodes h) = dom (nodes g) /\
  forall id d, feeds h id d = if decide (id = node t) then feeds_with g f t s d else feeds g id d.
Proof.
  intros [Hw Ht Hm Hg Hl0] Hj Hs Hl. cbn zeta. set (g2 := resolve_input f t (attached f t g)).
  pose proof (resolved_core f t g s Hj Hs Hw Ht Hm Hl) as Hc2. fold g2 in Hc2.
  destruct (resolved_input f t g s Hs) as (s2 & Hs2 & Hmk & Hv & Hdi). fold g2 in Hs2.
  pose proof (joins_input _ _ _ Hj) as Hd.
  assert (Hm2 : forall id, node_marks g2 id = node_marks g id) by apply resolved_marks.
  assert (Hsr2 : forall id, sources g2 id = if decide (id = node t) then <[index t := Some f]> (sources g id) else sources g id)
    by (intros id; by apply resolved_sources).
  assert (Hk2 : dom (nodes g2) = dom (nodes g)) by (apply (shape_dom g2 (attached f t g)), shape_resolve).
  destruct (is_variadic_placeholder s2) eqn:Hp.
  - unfold is_variadic_placeholder in Hp. destruct (variadic s2) as [info|] eqn:Hi; [|done].
    destruct (grow_spec _ g2 t s2 info Hc2 Hs2 Hi Hp) as (Hc & [Hdom _] & Hmarks & Hsrcs).
    rewrite Hmk in Hmarks, Hsrcs. split; [|split; [congruence|]].
    + apply core_document; [done|]. intros id. rewrite Hmarks, Hsrcs, Hm2, Hsr2. case_decide as E; [|apply Hg].
      subst id. apply tidy_grow; [apply Hg|by apply input_mark|by cbn; rewrite <- Hv|done].
    + intros id d. unfold feeds at 1. rewrite Hmarks, Hsrcs, Hm2, Hsr2. case_decide as E; [|done]. subst id.
      unfold grow_marks, grow_sources. change (mark s).1 with (def_index s).
      assert (E : forall l, feeds_of d (<[index t := (def_index s, l)]> (node_marks g (node t)))
          (<[index t := Some f]> (sources g (node t))) = feeds_with g f t s d).
      { intros l. rewrite (feeds_label d (index t) (node_marks g (node t)) _ (mark s) l); [|by apply input_mark].
        by apply feeds_push. }
      destruct (_ <? _)%nat; [|apply E]. rewrite feeds_insert; [apply E|].
      rewrite !length_insert. apply length_marks.
  - rewrite (grow_plain g2 t s2 Hs2 Hp). split; [|split; [done|]].
    + apply core_document; [done|]. intros id. rewrite Hm2, Hsr2. case_decide as E; [|apply Hg]. subst id.
      split; [apply Hg|]. rewrite <- (list_insert_id _ _ _ (input_mark g t s Hs)).
      apply Forall2_insert; [apply Hg|]. intros info Hi. cbn in Hi. unfold is_variadic_placeholder in Hp.
      rewrite Hv, Hi in Hp. by rewrite Hp.
    + intros id d. unfold feeds at 1. rewrite Hm2, Hsr2. case_decide as E; [|done]. subst id. by apply feeds_push.
Qed.

Lemma add_connection_spec f t g s fuel : document_ok g -> joins g f t -> input_at g t = Some s ->
  (forall id, ~ loops (attached f t g) id) -> (size (nodes g) < fuel)%nat ->
  exists g', add_connection fuel f t g = Ok g' /\ document_ok g' /\ dom (nodes g') = dom (nodes g) /\
    forall id d, feeds g' id d = if decide (id = node t) then feeds_with g f t s d else feeds g id d.
Proof.
  intros Hdoc Hj Hs Hl Hfuel. destruct (connect_spec f t g s Hdoc Hj Hs Hl) as (Hc & Hdom & Hfe).
  destruct (settle none fuel (node t) _ Hc) as (g' & E & Hsh & Hdoc'); [by rewrite <- size_dom, Hdom, size_dom|].
  exists (mark_semantic_change g'). split; [|split; [by apply change_document|split]].
  - unfold add_connection. fold (attached f t g). by rewrite E.
  - etransitivity; [exact (shape_dom _ _ Hsh)|exact Hdom].
  - intros id d. change (feeds (mark_semantic_change g') id d) with (feeds g' id d).
    by rewrite (shape_feeds _ _ _ _ Hsh), Hfe.
Qed.

(** ** A new node *)

(** A node as it is created: no input is resolved, and the inputs of a definition are plain or an
    empty group. *)
Definition fresh_node n : Prop :=
  Forall (fun s => resolved_type s = None /\ is_variadic_member s = false) (inputs n) /\
  (forall d, group_ok (labels d (marks (inputs n)))) /\
  (kind n = Reroute -> exists i o, inputs n = [i] /\ outputs n = [o] /\ variadic i = None /\ resolved_type o = mirror i).

Lemma added_source g t : wired none g -> nodes g !! node t = None -> direction t = Input -> source g t = None.
Proof.
  intros Hw Hn _. destruct (source g t) as [f|] eqn:Hf; [|done].
  apply (source_elem _ _ _ _ Hw), (wired_to _ _ Hw) in Hf as [s Hs]. unfold input_at in Hs. cbn in Hs. by rewrite Hn in Hs.
Qed.

Lemma add_node_spec g n : document_ok g -> nodes g !! node_id n = None -> fresh_node n -> document_ok (add_node n g).
Proof.
  intros [Hw Ht Hm Hg Hl] Hn (Hf & Hgr & Hre). unfold add_node. apply change_document.
  set (g' := set_nodes _ g).
  assert (Hlk : forall j m, nodes g' !! j = Some m -> (j = node_id n /\ m = n) \/ (j <> node_id n /\ nodes g !! j = Some m)).
  { intros j m. cbn. intros [[<- <-]|[? ?]]%lookup_insert_Some; [by left|right; auto]. }
  assert (Hold : forall j, is_Some (nodes g !! j) -> nodes g' !! j = nodes g !! j).
  { intros j [m Hj]. cbn. rewrite lookup_insert_ne; [done|]. intros E. congruence. }
  assert (Hout : forall f, is_Some (output_at g f) -> output_at g' f = output_at g f).
  { intros f [s Hs]. unfold output_at in *. apply bind_Some in Hs as (m & Hm' & _). by rewrite Hold. }
  assert (Hsrc : forall t, node t = node_id n -> direction t = Input -> source g' t = None).
  { intros t E Hd. apply (added_source g); [done|by rewrite E|done]. }
  split.
  - destruct Hw as [H1 H2 H3 H4 H5 H6]. split; try done.
    + intros j m [[-> ->]|[_ Hj]]%Hlk; [done|by apply H1].
    + intros c Hc. right. destruct (H4 c Hc) as [[]|H]. by rewrite Hout.
    + intros c Hc. specialize (H5 c Hc) as [s Hs]. unfold input_at in *. apply bind_Some in Hs as (m & Hm' & Hs).
      rewrite Hold, Hm' by done. by exists s.
    + intros j m [[-> ->]|[_ Hj]]%Hlk Hk; [|by apply (H6 j m)]. destruct (Hre Hk) as (i & o & ? & ? & ? & _). by exists i, o.
  - intros t s Hd _ Hs. unfold input_at in Hs. apply bind_Some in Hs as (m & [[E ->]|[E Hm']]%Hlk & Hs).
    + unfold incoming_type. rewrite Hsrc by done. cbn. rewrite Forall_lookup in Hf. by apply Hf in Hs as [? _].
    + rewrite (Ht t s); [|done|by intros (f & _ & [])|by unfold input_at; rewrite Hm'].
      f_equal. unfold incoming_type. change (source g' t) with (source g t). destruct (source g t) as [f|] eqn:Hsf; [|done].
      cbn. rewrite Hout; [done|]. apply (source_elem _ _ _ _ Hw), (wired_from _ _ Hw) in Hsf as [[]|?]. done.
  - intros j m a b [[-> ->]|[_ Hj]]%Hlk Hk Hr Ha Hb; [|by apply (Hm j m)].
    destruct (Hre Hk) as (i & o & Hi & Ho & _ & Hmi). congruence.
  - intros j. destruct (decide (j = node_id n)) as [->|Hj].
    + assert (Hi : node_inputs g' (node_id n) = inputs n) by (unfold node_inputs; cbn; by rewrite lookup_insert_eq).
      unfold sources. rewrite Hi. split; [done|]. rewrite Forall2_lookup. intros k. unfold marks.
      rewrite !list_lookup_fmap. destruct (inputs n !! k) as [s|] eqn:Hk.
      * rewrite lookup_seq_lt by (by eapply lookup_lt_Some). change (option_Forall2 attended (Some (mark s)) (Some (source g' (slot (node_id n) (0 + k))))).
        rewrite Hsrc by done. constructor. intros info Hv.
        cbn in Hv. rewrite Forall_lookup in Hf. apply Hf in Hk as [_ Hk]. unfold is_variadic_member in Hk. rewrite Hv in Hk.
        by apply negb_false_iff in Hk; rewrite Hk.
      * rewrite lookup_seq_ge by (by apply lookup_ge_None). constructor.
    + assert (Hi : node_inputs g' j = node_inputs g j) by (unfold node_inputs; cbn; by rewrite lookup_insert_ne).
      unfold sources. rewrite Hi. apply Hg.
  - intros id Hid. apply (Hl id). eapply hop_loops; [|exact Hid].
    intros a b [(m & Hj & Hk) (t & Hs & Hb)]. split; [|by exists t]. apply Hlk in Hj as [[-> ->]|[_ Hj]]; [|by exists m].
    change (source g t = Some (output_of (node_id n))) in Hs.
    apply (source_elem _ _ _ _ Hw), (wired_from _ _ Hw) in Hs as [[]|[s Ho]]. unfold output_at in Ho. cbn in Ho.
    by rewrite Hn in Ho.
Qed.
End Addition.
