(* ===== verification/GraphInsertion.v ===== *)
(** Inserting a connection in the middle of a variadic group of the graph document. *)

From stdpp Require Import relations.
From S2P Require Import Prelude GraphDocument GraphWiring GraphRouting GraphGroups GraphInvariant.
From S2P Require Import GraphOperations GraphAddition.
#[local] Open Scope Z_scope.

Section Insertion.
Context {V : Type}.
Abbreviation Graph := (@GraphState V).
Implicit Types (g h : Graph) (n : @Node V) (s : @Socket V).

(** Connections into nodes that are no reroutes close no loop. *)
Lemma loops_beyond g h id : (forall a b, hop h a b -> hop g a b \/ ~ is_reroute h b) -> loops h id -> loops g id.
Proof.
  intros H (c & Hr & Hc).
  assert (Hcr : is_reroute h c) by (by inversion Hc as [? ? [? _]|? ? ? [? _]]).
  assert (Htc : forall x y, tc (hop h) x y -> is_reroute h y -> tc (hop g) x y).
  { induction 1 as [x y Hxy|x y z Hxy Hyz IH]; intros Hy.
    - apply tc_once. by destruct (H x y Hxy).
    - apply (tc_l _ _ y); [|by apply IH]. destruct (H x y Hxy) as [|Hn]; [done|]. destruct Hn.
      by inversion Hyz as [? ? [? _]|? ? ? [? _]]. }
  exists c. split; [|by apply Htc]. clear Hc. induction Hr as [x|x y z Hxy Hyz IH]; [done|].
  eapply rtc_l; [|by apply IH]. destruct (H x y Hxy) as [|Hn]; [done|]. destruct Hn.
  by inversion Hyz as [|? ? ? [? _]]; subst.
Qed.

Definition full_group (d : nat) (info : VariadicInfo) g (id : NodeId) : option nat :=
  match last_index (group_placeholder d) 0 None (node_inputs g id) with
  | Some j => if (group_max info <=? count_members d (node_inputs g id))%nat then Some j else None
  | None => None
  end.

Lemma renumber_unfold g id d info : is_Some (nodes g !! id) ->
  renumber_variadic_group id d info g =
  let g' := relabel id (number_members d (base info) 0) g in
  match full_group d info g id with Some j => snd (remove_input_socket id j g') | None => g' end.
Proof.
  intros [n Hn]. unfold renumber_variadic_group, full_group, node_inputs. rewrite Hn. cbn [fmap option_fmap option_map default].
  cbn zeta. destruct (last_index _ _ _ _); [|done]. by destruct (_ <=? _)%nat.
Qed.

Lemma full_group_marks g id s info :
  full_group (def_index s) info g id = full_placeholder (mark s) info (node_marks g id).
Proof.
  unfold full_group, full_placeholder, node_marks. rewrite count_members_marks. unfold marks.
  by rewrite (last_index_map mark).
Qed.

Lemma full_placeholder_at m info ms j : full_placeholder m info ms = Some j ->
  exists m', ms !! j = Some m' /\ is_placeholder m'.2 = true.
Proof.
  unfold full_placeholder.
  destruct (last_index_spec (fun m' : Mark => (m'.1 =? m.1)%nat && is_placeholder m'.2) ms 0 None)
    as [(k & m' & -> & Hk & [_ Hp]%andb_true_iff & _)|[-> _]]; [|done].
  destruct (_ <=? _)%nat; [|done]. intros [= <-]. by exists m'.
Qed.

Lemma attended_placeholder m src : attended m src -> is_placeholder m.2 = true -> src = None.
Proof.
  unfold attended, is_placeholder. intros H Hp. destruct (m.2.2) as [info|]; [|done]. by apply (H info).
Qed.

(** Renumbering after the insertion, with the retirement of the placeholder of a full group. *)
Lemma renumber_spec R g id s info : core none R g -> is_Some (nodes g !! id) -> ~ is_reroute g id ->
  Forall2 attended (node_marks g id) (sources g id) ->
  let h := renumber_variadic_group id (def_index s) info g in
  let full := full_placeholder (mark s) info (node_marks g id) in
  core none R h /\ dom (nodes h) = dom (nodes g) /\
  (forall j, node_marks h j = if decide (j = id) then
     let numbered := number_marks (def_index s) (base info) 0 (node_marks g id) in
     match full with Some k => delete k numbered | None => numbered end else node_marks g j) /\
  (forall j, sources h j = if decide (j = id) then
     match full with Some k => delete k (sources g id) | None => sources g id end else sources g j) /\
  match full with Some k => sources g id !! k = Some None | None => True end.
Proof.
  intros Hc Hx Hr Ha. cbn zeta. rewrite (renumber_unfold g id (def_index s) info Hx). cbn zeta.
  rewrite full_group_marks. set (g' := relabel id _ g).
  assert (Hc' : core none R g') by (apply core_relabel; [apply number_keeps_types|done|done]).
  assert (Hm : forall j, node_marks g' j = if decide (j = id) then
    number_marks (def_index s) (base info) 0 (node_marks g id) else node_marks g j).
  { intros j. unfold g'. rewrite relabel_marks by apply number_keeps_types. by rewrite marks_number. }
  assert (Hs : forall j, sources g' j = sources g j) by (intros j; apply relabel_sources, number_keeps_types).
  destruct (full_placeholder (mark s) info (node_marks g id)) as [k|] eqn:Ef.
  - destruct (full_placeholder_at _ _ _ _ Ef) as (m' & Hm' & Hp).
    assert (Hk : sources g id !! k = Some None).
    { rewrite Forall2_lookup in Ha. specialize (Ha k). rewrite Hm' in Ha. inversion Ha as [? src Hsrc E1 E2|].
      f_equal. by apply (attended_placeholder m'). }
    assert (Hkl : (k < length (node_inputs g' id))%nat).
    { rewrite <- length_sources, Hs. by apply lookup_lt_Some in Hk. }
    destruct (lookup_lt_is_Some_2 _ _ Hkl) as [x Hin].
    assert (Hn : source g' (slot id k) = None).
    { rewrite <- Hs, sources_lookup, decide_True in Hk by done. congruence. }
    destruct (remove_inserted none id k x g' (core_wired _ _ _ Hc') Hin Hn) as (h & E & Hi). rewrite E. cbn [snd].
    assert (Hrh : ~ is_reroute h id).
    { rewrite <- (inserted_is_reroute _ _ _ _ _ Hi). unfold g'. by rewrite relabel_is_reroute. }
    split; [|split; [|split; [|split; [|done]]]].
    + destruct Hc' as [? Ht' ? ?]. apply (core_removed none R id k x h g' Hi Hrh); try done.
      eapply typed_weaken; [|exact Ht']. by left.
    + transitivity (dom (nodes g')); [symmetry; by apply (inserted_kept _ _ _ _ _ Hi)|apply dom_alter_L].
    + intros j. rewrite (removed_marks _ _ _ _ _ _ Hi), !Hm. repeat case_decide; done.
    + intros j. rewrite (removed_sources _ _ _ _ _ _ Hi), !Hs. done.
  - split; [done|]. split; [apply dom_alter_L|]. split; [done|]. split; [|done].
    intros j. rewrite Hs. by case_decide as E; [rewrite E|].
Qed.

(** The group of an occupied member with [from] pushed in at its place. *)
Definition feeds_inserted g (f t : SocketId) s (d : nat) : list SocketId :=
  if decide (def_index s = d) then
    insert_at (fed_before d (index t) (node_marks g (node t)) (sources g (node t))) f (feeds g (node t) d)
  else feeds g (node t) d.

Lemma insert_core g f t s info : document_ok g -> joins g f t -> input_at g t = Some s -> variadic s = Some info ->
  let g1 := insert_input_socket (node t) (index t) (set_resolved None s) g in
  let g2 := set_connections (connections g1 ++ [mkConnection f t]) g1 in
  let g3 := resolve_input f t g2 in
  core none (fun j => j = node t) g3 /\ dom (nodes g3) = dom (nodes g) /\ ~ is_reroute g3 (node t) /\
  (forall j, node_marks g3 j = if decide (j = node t) then insert_at (index t) (mark s) (node_marks g j) else node_marks g j) /\
  (forall j, sources g3 j = if decide (j = node t) then insert_at (index t) (Some f) (sources g j) else sources g j).
Proof.
  intros [Hw Ht Hm Hg Hl] Hj Hs Hi. cbn zeta. set (g1 := insert_input_socket _ _ _ g).
  pose proof (variadic_not_reroute none g t s info Hw Hs Hi) as Hr.
  pose proof (input_in_range g t s Hs) as Hlt. pose proof (joins_input _ _ _ Hj) as Hd.
  assert (H1 : inserted (node t) (index t) (set_resolved None s) g g1).
  { apply insert_exists; [|lia]. unfold input_at in Hs. apply bind_Some in Hs as (n & Hn & _). by exists n. }
  assert (Hc1 : core none none g1) by (apply (core_inserted _ _ _ _ _ _ _ H1); try done; by split).
  assert (Hn1 : source g1 t = None) by (by apply (inserted_source_at _ _ _ _ _ H1)).
  assert (Hi1 : input_at g1 t = Some (set_resolved None s)) by (by apply (inserted_input_new _ _ _ _ _ H1)).
  assert (E : set_connections (connections g1 ++ [mkConnection f t]) g1 = attached f t g1).
  { unfold attached. rewrite <- (f_equal connections (detached_unfed g1 t Hn1)) at 1. done. }
  rewrite E. clear E. set (g3 := resolve_input f t _).
  assert (Hj1 : joins g1 f t).
  { destruct Hj as [[? Ho] ?]. split; [|done]. split; [done|]. by rewrite (inserted_output_at _ _ _ _ _ H1). }
  assert (Hr1 : ~ is_reroute g1 (node t)) by (by rewrite (inserted_is_reroute _ _ _ _ _ H1)).
  assert (Hl1 : forall id, ~ loops (attached f t g1) id).
  { intros id Hid. apply (core_loop_free _ _ _ Hc1 id). eapply loops_beyond; [|exact Hid].
    intros a b [Ha (u & Hu & Hb)]. rewrite attached_source in Hu. case_decide as Eu.
    - right. subst u b. exact Hr1.
    - left. split; [exact Ha|]. by exists u. }
  pose proof (resolved_core f t g1 _ Hj1 Hi1 (core_wired _ _ _ Hc1) (core_typed _ _ _ Hc1) (core_mirrored _ _ _ Hc1) Hl1)
    as Hc3. fold g3 in Hc3.
  assert (Hsh : shape g3 = shape (attached f t g1)) by apply shape_resolve.
  split; [done|]. split; [|split; [|split]].
  - transitivity (dom (nodes g1)); [exact (shape_dom _ _ Hsh)|apply (inserted_kept _ _ _ _ _ H1)].
  - rewrite (shape_is_reroute _ _ _ Hsh). exact Hr1.
  - intros j. unfold g3. rewrite resolved_marks, (inserted_marks _ _ _ _ _ _ H1). by case_decide as E; [rewrite E|].
  - intros j. unfold g3. rewrite resolved_sources, (inserted_all_sources _ _ _ _ _ _ H1) by done.
    case_decide as E; [|done]. rewrite E, insert_at_set; [done|]. rewrite length_sources. lia.
Qed.

(** When the insertion applies. *)
Definition insertable g (t : SocketId) : bool :=
  match input_at g t with
  | Some s => match variadic s with
      | Some info => negb (placeholder info) && (count_members (def_index s) (node_inputs g (node t)) <? group_max info)%nat
      | None => false
      end
  | None => false
  end.

Lemma connected_source g t : is_input_connected t g = bool_decide (is_Some (source g t)).
Proof.
  unfold is_input_connected, source. induction (connections g) as [|c cs IH]; cbn; [done|]. rewrite IH.
  repeat case_bool_decide; case_decide; naive_solver.
Qed.

Lemma member_fed g t s info : document_ok g -> direction t = Input -> input_at g t = Some s ->
  variadic s = Some info -> placeholder info = false -> is_input_connected t g = true.
Proof.
  intros [_ _ _ Hg _] Hd Hs Hi Hp. rewrite connected_source.
  pose proof (tidy_attended g t s _ Hd (Hg _) Hs eq_refl info Hi) as [_ H].
  destruct (source g t); [done|]. specialize (H eq_refl). congruence.
Qed.

Lemma variadic_members_marks g t s : input_at g t = Some s ->
  variadic_members (node t) (def_index s) g = count_members (def_index s) (node_inputs g (node t)).
Proof.
  intros Hs. unfold variadic_members, node_inputs. unfold input_at in Hs. apply bind_Some in Hs as (n & Hn & _).
  by rewrite Hn.
Qed.

Lemma insert_variadic_refused fuel f t g : document_ok g -> direction t = Input -> insertable g t = false ->
  insert_variadic_connection fuel f t g = Ok (false, g).
Proof.
  intros Hdoc Hd. unfold insertable, insert_variadic_connection, variadic_input.
  destruct (input_at g t) as [s|] eqn:Hs; [|done]. cbn. destruct (variadic s) as [info|] eqn:Hi; [|done]. cbn.
  destruct (placeholder info) eqn:Hp; [done|]. cbn. rewrite (member_fed g t s info) by done. cbn.
  rewrite (variadic_members_marks g t s Hs). intros H%Nat.ltb_ge. by rewrite (proj2 (Nat.leb_le _ _) H).
Qed.

Lemma insert_variadic_spec f t g s fuel : document_ok g -> joins g f t -> input_at g t = Some s ->
  insertable g t = true -> (size (nodes g) < fuel)%nat ->
  exists g', insert_variadic_connection fuel f t g = Ok (true, g') /\ document_ok g' /\
    dom (nodes g') = dom (nodes g) /\
    forall id d, feeds g' id d = if decide (id = node t) then feeds_inserted g f t s d else feeds g id d.
Proof.
  intros Hdoc Hj Hs Hins Hfuel. unfold insertable in Hins. rewrite Hs in Hins.
  destruct (variadic s) as [info|] eqn:Hi; [|done]. apply andb_true_iff in Hins as [Hp Hlt].
  apply negb_true_iff in Hp. apply Nat.ltb_lt in Hlt.
  pose proof (joins_input _ _ _ Hj) as Hd.
  unfold insert_variadic_connection. rewrite (variadic_input_spec g t s info Hs Hi), Hp, (member_fed g t s info) by done.
  cbn [negb]. rewrite (variadic_members_marks g t s Hs), (proj2 (Nat.leb_gt _ _) Hlt). cbn zeta.
  pose proof (document_tidy _ _ _ Hdoc (node t)) as Htidy. fold (node_marks g (node t)) in Htidy.
  rewrite count_members_marks in Hlt. fold (node_marks g (node t)) in Hlt.
  destruct (insert_core g f t s info Hdoc Hj Hs Hi) as (Hc3 & Hdom3 & Hr3 & Hm3 & Hs3).
  set (g3 := resolve_input f t _) in *.
  pose proof (input_mark g t s Hs) as Hmk.
  assert (Hx : is_Some (nodes g3 !! node t)).
  { apply elem_of_dom. rewrite Hdom3. apply elem_of_dom. unfold input_at in Hs.
    apply bind_Some in Hs as (n & Hn & _). by exists n. }
  assert (Ha3 : Forall2 attended (node_marks g3 (node t)) (sources g3 (node t))).
  { rewrite Hm3, Hs3, !decide_True by done. apply Forall2_insert_at; [|apply Htidy].
    intros info' Hi'. cbn in Hi'. replace info' with info by congruence. by rewrite Hp. }
  destruct (renumber_spec _ g3 (node t) s info Hc3 Hx Hr3 Ha3) as (Hc4 & Hdom4 & Hm4 & Hs4 & Hfull).
  cbn zeta in *. set (g4 := renumber_variadic_group _ _ _ g3) in *.
  assert (Hdoc4 : document_except none (fun j => j = node t) g4).
  { apply core_document; [done|]. intros j. rewrite Hm4, Hs4. case_decide as E.
    - subst j. rewrite !Hm3, !Hs3, !decide_True by done.
      exact (tidy_insert _ _ (index t) (mark s) info f Htidy Hmk Hi Hp Hlt).
    - rewrite Hm3, Hs3, !decide_False by done. apply Hdoc. }
  destruct (settle none fuel (node t) g4 Hdoc4) as (g' & E & Hsh & Hdoc').
  { rewrite <- size_dom, Hdom4, Hdom3, size_dom. done. }
  exists (mark_semantic_change g'). rewrite E. split; [done|]. split; [by apply change_document|]. split.
  - transitivity (dom (nodes g4)); [exact (shape_dom _ _ Hsh)|congruence].
  - intros id d. change (feeds (mark_semantic_change g') id d) with (feeds g' id d).
    rewrite (shape_feeds _ _ _ _ Hsh). unfold feeds at 1. rewrite Hm4, Hs4. case_decide as Ei.
    + subst id. assert (Hlen : length (node_marks g3 (node t)) = length (sources g3 (node t))) by apply length_marks.
      assert (Hfe : feeds_of d (node_marks g3 (node t)) (sources g3 (node t)) = feeds_inserted g f t s d).
      { rewrite Hm3, Hs3, !decide_True by done. rewrite feeds_insert_fed; [done|apply length_marks|done]. }
      destruct (full_placeholder _ _ _) as [k|].
      * rewrite feeds_delete, feeds_number; [done| |done]. by rewrite length_number.
      * by rewrite feeds_number.
    + by rewrite Hm3, Hs3, !decide_False.
Qed.
End Insertion.
