(* ===== verification/GraphProperties.v ===== *)
(** What the graph document promises: every sequence of edits keeps its invariant and returns, a
    variadic group is a list of outputs, the types of reroutes propagate, and propagation returns
    exactly when no loop of reroutes is reached. *)

From stdpp Require Import relations.
From S2P Require Import Prelude GraphDocument GraphWiring GraphRouting GraphGroups GraphInvariant.
From S2P Require Import GraphOperations GraphAddition GraphInsertion.
#[local] Open Scope Z_scope.

Section Properties.
Context {V : Type}.
Abbreviation Graph := (@GraphState V).
Implicit Types (g h : Graph) (n : @Node V) (s : @Socket V).

(** ** Edits *)

(** The edits of the document. *)
Inductive Edit :=
| AddNode (n : @Node V)
| Connect (f t : SocketId)
| InsertMember (f t : SocketId)
| Disconnect (t : SocketId)
| RemoveAt (i : nat)
| RemoveNode (id : NodeId).

Definition enough_fuel g : nat := S (size (nodes g)).

Definition perform (e : Edit) g : result Stop Graph :=
  let fuel := enough_fuel g in
  match e with
  | AddNode n => Ok (add_node n g)
  | Connect f t => add_connection fuel f t g
  | InsertMember f t => let? (_, g) := insert_variadic_connection fuel f t g in Ok g
  | Disconnect t => let? (_, g) := disconnect_input fuel t g in Ok g
  | RemoveAt i => let? (_, g) := remove_connection_at fuel i g in Ok g
  | RemoveNode id => remove_node fuel id g
  end.

(** What the caller of an edit provides: a new node has an unused identity, a connection leads from
    an output to an input that exist, and a position is in range. *)
Definition allowed g (e : Edit) : Prop :=
  match e with
  | AddNode n => nodes g !! node_id n = None /\ fresh_node n
  | Connect f t => joins g f t /\ is_Some (input_at g t)
  | InsertMember f t => joins g f t
  | Disconnect t => True
  | RemoveAt i => (i < length (connections g))%nat
  | RemoveNode id => True
  end.

(** The connection closes a loop of reroutes. *)
Definition closes_loop g (f t : SocketId) : Prop := loops (attached f t g) (node t).

Lemma attached_loop_free g f t s info : document_ok g -> input_at g t = Some s -> variadic s = Some info ->
  forall id, ~ loops (attached f t g) id.
Proof.
  intros Hdoc Hs Hi id Hid. pose proof (variadic_not_reroute none g t s info (document_wired _ _ _ Hdoc) Hs Hi) as Hr.
  apply (document_loop_free _ _ _ Hdoc id). eapply loops_beyond; [|exact Hid]. intros a b [Ha (u & Hu & Hb)].
  rewrite attached_source in Hu. case_decide as E; [subst u b; by right|left]. split; [exact Ha|by exists u].
Qed.

(** A loop of reroutes behind a new connection was there before or leads through the connection. *)
Lemma attached_loop f t g id : loops (attached f t g) id -> (exists c, tc (hop g) c c) \/ closes_loop g f t.
Proof.
  intros (c & _ & Hc). assert (Hstep : forall a b, hop (attached f t g) a b -> hop g a b \/ b = node t).
  { intros a b [Ha (u & Hu & Hb)]. rewrite attached_source in Hu. case_decide as E; [subst; by right|left].
    split; [exact Ha|by exists u]. }
  assert (Hpath : forall a b, tc (hop (attached f t g)) a b ->
    tc (hop g) a b \/ rtc (hop (attached f t g)) (node t) b).
  { induction 1 as [a b H|a b d H Hb IH]; [destruct (Hstep a b H) as [| ->]; [left; by apply tc_once|by right]|].
    destruct IH as [IH|]; [|by right]. destruct (Hstep a b H) as [Hh| ->]; [left; by eapply tc_l|right; by apply tc_rtc]. }
  destruct (Hpath c c Hc) as [Hl|Hr]; [left; by exists c|right; by exists c].
Qed.

(** A connection that closes a loop of reroutes is not refused: [add_connection] never returns. *)
Lemma connecting_a_loop_never_returns g f t s fuel : wired none g -> joins g f t -> input_at g t = Some s ->
  variadic s = None -> loops (attached f t g) (node t) -> add_connection fuel f t g = Err Exhausted.
Proof.
  intros Hw Hj Hs Hv Hl. unfold add_connection. fold (attached f t g).
  destruct (resolved_input f t g s Hs) as (s' & Hs' & _ & Hv' & _).
  rewrite (grow_plain _ t s' Hs') by (unfold is_variadic_placeholder; by rewrite Hv', Hv).
  assert (Hsh : shape (resolve_input f t (attached f t g)) = shape (attached f t g)) by apply shape_resolve.
  pose proof (propagate_fuel none fuel (node t) _ (shape_wired none _ _ (eq_sym Hsh) (attached_wired f t g s Hj Hs Hw))) as H.
  destruct (propagate_reroute_output fuel _ _) as [g'|[|]]; [|done|done].
  destruct H as [_ H]. destruct H. apply loops_long_path. eapply hop_loops; [|exact Hl]. intros a b. by apply shape_hop.
Qed.

(** A connection returns with a whole document, or closes a loop and never returns. *)
Lemma connect_cases g f t : document_ok g -> joins g f t -> is_Some (input_at g t) ->
  (exists g', add_connection (enough_fuel g) f t g = Ok g' /\ document_ok g') \/
  closes_loop g f t /\ forall fuel, add_connection fuel f t g = Err Exhausted.
Proof.
  intros Hdoc Hj [s Hs]. pose proof (document_wired _ _ _ Hdoc) as Hw.
  assert (Hf : (size (nodes g) < enough_fuel g)%nat) by (unfold enough_fuel; lia).
  assert (Hok : (forall id, ~ loops (attached f t g) id) ->
    exists g', add_connection (enough_fuel g) f t g = Ok g' /\ document_ok g').
  { intros Hl. destruct (add_connection_spec f t g s (enough_fuel g) Hdoc Hj Hs Hl Hf) as (g' & E & ? & _). by exists g'. }
  destruct (variadic s) as [info|] eqn:Hv; [left; by apply Hok, (attached_loop_free g f t s info)|].
  pose proof (attached_wired f t g s Hj Hs Hw) as Hwa.
  pose proof (propagate_fuel none (enough_fuel g) (node t) _ Hwa) as Hp.
  destruct (propagate_reroute_output _ _ _) as [g'|[|]]; [|done|].
  - left. apply Hok. intros id Hl. destruct (attached_loop f t g id Hl) as [(c & Hc)|Hl'].
    + apply (document_loop_free _ _ _ Hdoc c). by exists c.
    + apply Hp. by apply loops_long_path.
  - right. assert (Hl : closes_loop g f t) by (by apply (long_path_loops _ (enough_fuel g))).
    split; [done|]. intros fuel. by apply (connecting_a_loop_never_returns g f t s).
Qed.

Lemma perform_edit e g : document_ok g -> allowed g e ->
  (exists g', perform e g = Ok g' /\ document_ok g') \/
  exists f t, e = Connect f t /\ closes_loop g f t /\ forall fuel, add_connection fuel f t g = Err Exhausted.
Proof.
  assert (Hf : (size (nodes g) < enough_fuel g)%nat) by (unfold enough_fuel; lia).
  intros Hdoc. destruct e as [n|f t|f t|t|i|id]; cbn [perform allowed].
  2: { intros [Hj Hs]. destruct (connect_cases g f t Hdoc Hj Hs) as [H|H]; [by left|right; by exists f, t]. }
  all: intros Ha; left; revert Ha.
  - intros [Hn Hfr]. eexists. split; [done|]. by apply add_node_spec.
  - intros Hj. destruct (insertable g t) eqn:Hi.
    + pose proof Hi as Hi'. unfold insertable in Hi'. destruct (input_at g t) as [s|] eqn:Hs; [|done].
      destruct (insert_variadic_spec f t g s (enough_fuel g) Hdoc Hj Hs Hi Hf) as (g' & E & ? & _).
      exists g'. by rewrite E.
    + exists g. by rewrite insert_variadic_refused by (done || apply Hj).
  - intros _. pose proof (disconnect_input_spec none g t (enough_fuel g) Hdoc Hf) as H.
    destruct (source g t) as [f|]; [destruct H as (s & g' & _ & E & ? & _); exists g'|exists g; rename H into E]; by rewrite E.
  - intros Hi. destruct (lookup_lt_is_Some_2 _ _ Hi) as [c Hc].
    destruct (remove_connection_at_spec none g i c (enough_fuel g) Hdoc Hc Hf) as (s & g' & _ & E & ? & _).
    exists g'. by rewrite E.
  - intros _. destruct (remove_node_spec g id (enough_fuel g) Hdoc Hf) as (g' & E & ? & _). by exists g'.
Qed.

Fixpoint all_allowed (es : list Edit) g : Prop :=
  match es with
  | [] => True
  | e :: es => allowed g e /\ match perform e g with Ok g' => all_allowed es g' | Err _ => True end
  end.

Lemma document_default : document_ok (GraphState_default (V := V)).
Proof.
  split.
  - split; try (intros c Hc; by apply elem_of_nil in Hc); try done. constructor.
  - intros t s _ _ Hs. done.
  - intros id n i o Hn. done.
  - intros id. split; [intros d; by left; constructor|constructor].
  - intros id (c & _ & Hc). by inversion Hc as [? ? [(n & Hn & _) _]|? ? ? [(n & Hn & _) _]].
Qed.

(** The edits up to one that closes a loop of reroutes. *)
Definition stopped_at_loop (es : list Edit) g : Prop := exists before f t after g',
  es = before ++ Connect f t :: after /\ fold_result perform before g = Ok g' /\ document_ok g' /\
  closes_loop g' f t /\ forall fuel, add_connection fuel f t g' = Err Exhausted.

Lemma run_edits es : forall g, document_ok g -> all_allowed es g ->
  (exists g', fold_result perform es g = Ok g' /\ document_ok g') \/ stopped_at_loop es g.
Proof.
  induction es as [|e es IH]; intros g Hdoc; cbn; [left; by exists g|]. intros [Ha Hes].
  destruct (perform_edit e g Hdoc Ha) as [(g' & E & Hdoc')|(f & t & -> & H)].
  - rewrite E in *. destruct (IH g' Hdoc' Hes) as [H|(before & f & t & after & h & -> & H)]; [by left|right].
    exists (e :: before), f, t, after, h. split; [done|]. cbn. by rewrite E.
  - right. by exists [], f, t, es, g.
Qed.

Lemma all_allowed_step e es g g' : allowed g e -> perform e g = Ok g' -> all_allowed es g' -> all_allowed (e :: es) g.
Proof. intros Ha E He. cbn [all_allowed]. by rewrite E. Qed.


(** ** Variadic groups as lists *)

(** The place of an input in its group. *)
Definition members_before g (t : SocketId) s : nat :=
  count_members (def_index s) (take (index t) (node_inputs g (node t))).

Lemma members_before_fed g t s info : document_ok g -> input_at g t = Some s -> variadic s = Some info ->
  fed_before (def_index s) (index t) (node_marks g (node t)) (sources g (node t)) = members_before g t s.
Proof.
  intros Hdoc Hs Hi. pose proof (document_tidy _ _ _ Hdoc (node t)) as Ht. fold (node_marks g (node t)) in Ht.
  pose proof (input_mark g t s Hs) as Hm. change (def_index s) with (mark s).1; rewrite (fed_before_place _ _ _ (mark s) info Ht Hm Hi).
  unfold members_before. rewrite count_members_marks. unfold place, count_marks.
  replace (marks (take (index t) (node_inputs g (node t)))) with (take (index t) (node_marks g (node t)))
    by (unfold node_marks, marks; by rewrite firstn_map).
  change (mark s).1 with (def_index s). f_equal. symmetry. apply filter_all.
  destruct Ht as [Hg _]. destruct (tidy_group _ _ (mark s) info Hg Hm Hi) as (_ & Hl & Hc).
  assert (Hp : (place (def_index s) (index t) (node_marks g (node t)) <= count_marks (def_index s) (node_marks g (node t)))%nat)
    by (change (def_index s) with (mark s).1; lia).
  unfold place in Hp. change (def_index s) with (mark s).1 in *. rewrite (labels_at _ _ (mark s) _ Hm eq_refl) in Hl.
  apply (f_equal (take (length (labels (mark s).1 (take (index t) (node_marks g (node t))))))) in Hl.
  rewrite take_app_length in Hl. rewrite Hl. unfold layout.
  rewrite take_app_le by (by rewrite length_map, length_seq). apply Forall_forall, Forall_take.
  apply Forall_fmap, Forall_forall. done.
Qed.

(** One group of one node changes to the list [l], all others stay as they are. *)
Definition becomes g g' (id : NodeId) (d : nat) (l : list SocketId) : Prop := forall id' d',
  feeds g' id' d' = if decide (id' = id /\ d' = d) then l else feeds g id' d'.

Lemma becomes_intro g g' id d l : (forall id' d', feeds g' id' d' =
    if decide (id' = id) then if decide (d = d') then l else feeds g id d' else feeds g id' d') ->
  becomes g g' id d l.
Proof.
  intros H id' d'. rewrite H. destruct (decide (id' = id)) as [->|]; [|by rewrite decide_False by tauto].
  case_decide as E; [by rewrite decide_True by auto|]. rewrite decide_False; [done|]. intros [_ ?]. auto.
Qed.

Lemma members_before_bound g t s info : document_ok g -> input_at g t = Some s -> variadic s = Some info ->
  let p := members_before g t s in let fed := feeds g (node t) (def_index s) in
  if placeholder info then p = length fed /\ (p < group_max info)%nat else (p < length fed)%nat.
Proof.
  intros Hdoc Hs Hi. cbn zeta. rewrite <- (members_before_fed g t s info) by done.
  pose proof (document_tidy _ _ _ Hdoc (node t)) as Ht. fold (node_marks g (node t)) in Ht.
  pose proof (input_mark g t s Hs) as Hm. unfold feeds. change (def_index s) with (mark s).1.
  rewrite (feeds_group _ _ _ (mark s) info Ht Hm Hi), (fed_before_place _ _ _ (mark s) info Ht Hm Hi).
  destruct Ht as [Hg _]. by destruct (tidy_group _ _ (mark s) info Hg Hm Hi) as (_ & _ & [(-> & ? & _)|(-> & -> & ? & _)]).
Qed.

Lemma insertable_room g t s info : document_ok g -> input_at g t = Some s -> variadic s = Some info ->
  placeholder info = false -> (length (feeds g (node t) (def_index s)) < group_max info)%nat -> insertable g t = true.
Proof.
  intros Hdoc Hs Hi Hp Hlt. unfold insertable. rewrite Hs, Hi, Hp. cbn. apply Nat.ltb_lt.
  rewrite count_members_marks. pose proof (document_tidy _ _ _ Hdoc (node t)) as Ht.
  pose proof (input_mark g t s Hs) as Hm. change (def_index s) with (mark s).1. by rewrite <- (feeds_group _ _ _ (mark s) info Ht Hm Hi).
Qed.

(** C6. A variadic group is the list of the outputs that feed it.  Connecting to its placeholder
    appends to the list and connecting to a member replaces its element; connecting into the
    middle of a group that is not full inserts an element; disconnecting a member deletes its
    element.  All other groups of the document, of this node and of others, keep their lists
    while their inputs move. *)
Theorem variadic_group_is_list g t s info f fuel :
  document_ok g -> direction t = Input -> input_at g t = Some s -> variadic s = Some info ->
  (size (nodes g) < fuel)%nat ->
  let d := def_index s in let p := members_before g t s in let fed := feeds g (node t) d in
  (joins g f t -> exists g', add_connection fuel f t g = Ok g' /\
     becomes g g' (node t) d (if placeholder info then fed ++ [f] else <[p := f]> fed)) /\
  (joins g f t -> placeholder info = false -> (length fed < group_max info)%nat ->
   exists g', insert_variadic_connection fuel f t g = Ok (true, g') /\ becomes g g' (node t) d (insert_at p f fed)) /\
  (placeholder info = false ->
   exists g', disconnect_input fuel t g = Ok (true, g') /\ becomes g g' (node t) d (delete p fed)).
Proof.
  intros Hdoc Hd Hs Hi Hfuel. cbn zeta.
  pose proof (members_before_bound g t s info Hdoc Hs Hi) as Hb. cbn zeta in Hb.
  pose proof (members_before_fed g t s info Hdoc Hs Hi) as Hp.
  pose proof (tidy_attended g t s _ Hd (document_tidy _ _ _ Hdoc _) Hs eq_refl info Hi) as Hat.
  split; [|split].
  - intros Hj. destruct (add_connection_spec f t g s fuel Hdoc Hj Hs (attached_loop_free g f t s info Hdoc Hs Hi) Hfuel)
      as (g' & E & _ & _ & Hfe). exists g'. split; [done|]. apply becomes_intro. intros id d. rewrite Hfe. unfold feeds_with.
    case_decide; [|done]. case_decide as Ed; [|done]. subst d. rewrite Hp. cbn zeta. destruct (placeholder info).
    + destruct Hb as [-> _]. rewrite (proj1 Hat eq_refl). cbn. rewrite Nat.add_0_r, drop_all. by rewrite firstn_all.
    + destruct (source g t) as [f0|] eqn:Hf; [|by specialize (proj2 Hat eq_refl)].
      rewrite insert_take_drop by done. cbn. by rewrite Nat.add_1_r.
  - intros Hj Hpl Hlt. pose proof (insertable_room g t s info Hdoc Hs Hi Hpl Hlt) as Hins.
    destruct (insert_variadic_spec f t g s fuel Hdoc Hj Hs Hins Hfuel) as (g' & E & _ & _ & Hfe).
    exists g'. split; [done|]. apply becomes_intro. intros id d. rewrite Hfe. unfold feeds_inserted.
    case_decide; [|done]. case_decide as Ed; [|done]. subst d. by rewrite Hp.
  - intros Hpl. pose proof (disconnect_input_spec none g t fuel Hdoc Hfuel) as H.
    destruct (source g t) as [f0|]; [|rewrite Hpl in Hat; by specialize (proj2 Hat eq_refl)].
    destruct H as (s' & g' & Hs' & E & _ & _ & Hfe). replace s' with s in * by congruence.
    exists g'. split; [done|]. apply becomes_intro. intros id d. rewrite Hfe. unfold feeds_without.
    case_decide; [|done]. case_decide as Ed; [|done]. subst d. by rewrite Hp.
Qed.

(** ** Reroutes *)

(** C33. The recursion along reroutes returns exactly when it reaches no loop of reroutes: then as
    many levels as the document has nodes are enough and give the result that any greater number
    gives, which differs from the document in resolved types only; otherwise no number of levels is
    enough. *)
Theorem reroute_propagation_terminates g id :
  wired none g ->
  (loops g id -> forall fuel, propagate_reroute_output fuel id g = Err Exhausted) /\
  (~ loops g id -> exists g', shape g' = shape g /\
     forall fuel, (size (nodes g) < fuel)%nat -> propagate_reroute_output fuel id g = Ok g').
Proof.
  intros Hw. split.
  - intros Hl fuel. pose proof (propagate_fuel none fuel id g Hw) as H.
    destruct (propagate_reroute_output fuel id g) as [g'|[|]]; [|done|done].
    destruct H as [_ H]. destruct H. by apply loops_long_path.
  - intros Hn. destruct (propagate_enough none id g (enough_fuel g) Hw Hn) as (g' & E & Hs); [unfold enough_fuel; lia|].
    exists g'. split; [done|]. intros fuel Hf. apply (propagate_mono (enough_fuel g)); [unfold enough_fuel; lia|done].
Qed.

(** A document as it was saved before reroutes passed types on. *)
Definition forget g : Graph :=
  set_nodes ((fun n => if decide (kind n = Reroute) then set_outputs (map plain (outputs n)) n else n) <$> nodes g) g.

Lemma shape_forget g : shape (forget g) = shape g.
Proof.
  assert (E : bare <$> nodes (forget g) = bare <$> nodes g); [|unfold shape; by rewrite E].
  apply map_eq. intros id. unfold forget. cbn. rewrite !lookup_fmap.
  destruct (nodes g !! id) as [n|]; [|done]. cbn. f_equal. case_decide; [|done]. unfold bare. cbn. by rewrite map_map.
Qed.

Lemma forget_input g t : input_at (forget g) t = input_at g t.
Proof.
  unfold input_at, forget. cbn. rewrite lookup_fmap. destruct (nodes g !! node t) as [n|]; [|done]. cbn. by case_decide.
Qed.

Lemma forget_typed g : document_ok g ->
  typed_inputs (fun t => exists id, is_reroute (forget g) id /\ source (forget g) t = Some (output_of id)) (forget g).
Proof.
  intros Hdoc t s Hd Hp Hs. pose proof (document_wired _ _ _ Hdoc) as Hw. rewrite forget_input in Hs.
  rewrite (document_typed _ _ _ Hdoc t s); [|done|by intros (f & _ & [])|done]. f_equal. unfold incoming_type.
  change (source (forget g) t) with (source g t) in *. destruct (source g t) as [f|] eqn:Hf; [|done]. cbn. f_equal.
  apply (source_elem _ _ _ _ Hw) in Hf. destruct (wired_from _ _ Hw _ Hf) as [[]|[o Ho]].
  destruct (wired_directions _ _ Hw _ Hf) as [Hout _]. cbn in Ho, Hout. unfold output_at, forget in *. cbn.
  rewrite lookup_fmap. destruct (nodes g !! node f) as [n|] eqn:Hn; [|done]. cbn. case_decide as Hk; [|done]. exfalso.
  apply Hp. exists (node f). assert (Hr : is_reroute g (node f)) by (by exists n).
  split; [by apply (shape_is_reroute _ _ _ (shape_forget g))|].
  destruct (wired_reroutes _ _ Hw _ n Hn Hk) as (i & o' & _ & Ho' & _). cbn in Ho. rewrite Ho' in Ho.
  apply list_lookup_singleton_Some in Ho as [Hx _]. f_equal. destruct f. cbn in *. by subst.
Qed.

(** A loop that a reroute reaches is never left. *)
Lemma reconcile_loops fuel order g id : wired none g -> id ∈ order -> loops g id ->
  reconcile_reroute_outputs fuel order g = Err Exhausted.
Proof.
  intros Hw Hin Hl. unfold reconcile_reroute_outputs.
  assert (Hgen : forall h, shape h = shape g -> fold_result (propagate_reroute_output fuel) order h = Err Exhausted).
  { induction order as [|x order IH]; intros h Hs; [by apply not_elem_of_nil in Hin|]. cbn [fold_result].
    pose proof (propagate_fuel none fuel x h (shape_wired none g h (eq_sym Hs) Hw)) as Hp.
    destruct (propagate_reroute_output fuel x h) as [h'|[|]]; [|done|done]. destruct Hp as [Hs' Hn].
    apply elem_of_cons in Hin as [->|Hin]; [|apply IH; [done|congruence]].
    destruct Hn. apply (shape_long_path g); [done|]. by apply loops_long_path. }
  by apply Hgen.
Qed.

(** C40. Of a document whose connections lead from existing outputs to existing inputs, at most one
    to each, whose reroutes have one input and one output, and whose inputs resolve to the type
    they are fed unless a reroute feeds them: if reroutes form no loop, reconciling returns, in
    whatever order the reroutes are visited, and changes resolved types only; afterwards every
    input resolves to the type of the output that feeds it (or to nothing when it is not fed, or
    fed its own type), and every reroute passes on the type of its input.  If reroutes form a
    loop, reconciling never returns. *)
Theorem reconcile_restores_types g order :
  wired none g -> (forall id, is_reroute g id -> id ∈ order) ->
  typed_inputs (fun t => exists id, is_reroute g id /\ source g t = Some (output_of id)) g ->
  ((forall id, ~ loops g id) -> exists g', reconcile_reroute_outputs (enough_fuel g) order g = Ok g' /\
     shape g' = shape g /\ typed_inputs none g' /\ mirrored none g') /\
  ((exists id, loops g id) -> forall fuel, reconcile_reroute_outputs fuel order g = Err Exhausted).
Proof.
  intros Hw Ho Ht. split.
  2: { intros (id & c & _ & Hc) fuel. apply (reconcile_loops fuel order g c Hw); [|by exists c].
    apply Ho. by inversion Hc as [? ? [? _]|? ? ? [? _]]. }
  intros Hl.
  assert (Hr : forall l h, shape h = shape g -> exists g', reconcile_reroute_outputs (enough_fuel g) l h = Ok g').
  { induction l as [|id l IH]; intros h Hs; [by exists h|]. unfold reconcile_reroute_outputs. cbn [fold_result].
    destruct (propagate_enough none id h (enough_fuel g)) as (h' & E & Hs').
    - by apply (shape_wired none g).
    - intros Hlp. apply (Hl id). eapply hop_loops; [|exact Hlp]. intros a b. by apply shape_hop.
    - unfold enough_fuel. rewrite <- !size_dom, (shape_dom h g Hs). lia.
    - rewrite E. apply IH. congruence. }
  destruct (Hr order g eq_refl) as [g' E]. exists g'. split; [done|].
  apply (reconcile_typed none (enough_fuel g) order g g' Hw E).
  - eapply typed_weaken; [|exact Ht]. intros t _ (id & Hid & Hs). exists id. split; [by apply Ho|done].
  - intros id n a b Hn Hk Hi. destruct Hi. apply Ho. by exists n.
Qed.
End Properties.

(** ** A document *)

Lemma fold_result_app {A S E : Type} (f : A -> S -> result E S) (l l' : list A) (s : S) :
  fold_result f (l ++ l') s = let? s := fold_result f l s in fold_result f l' s.
Proof. revert s. induction l as [|a l IH]; intros s; cbn; [done|]. by destruct (f a s). Qed.

Lemma fold_stops {V : Type} (before : list (Edit (V := V))) f t after g0 g :
  fold_result perform before g0 = Ok g -> (forall fuel, add_connection fuel f t g = Err Exhausted) ->
  fold_result perform (before ++ Connect f t :: after) g0 = Err Exhausted.
Proof. intros Hg Hl. rewrite fold_result_app, Hg. cbn [fold_result perform]. by rewrite Hl. Qed.

Definition sample_socket (ty nm : string) (d : nat) (v : option VariadicInfo) : @Socket unit :=
  mkSocket "" nm ty (from_rgb 150 150 150) Circle [] None d v true true false false ∅.

Definition sample_source : Node := set_outputs [sample_socket "Signal" "Out" 0 None] (blank tt 0 "Source" (0, 0)).

Definition sample_sink : Node :=
  set_inputs [sample_socket "Any" "In" 0 (Some (mkVariadic "In" 3 true)); sample_socket "Signal" "Clock" 1 None]
    (blank tt 2 "Sink" (0, 0)).

Definition out (id : NodeId) : SocketId := mkSocketId id 0 Output.

(** A source, a reroute behind it, and a sink whose group is fed by both. *)
Definition sample_build : list (Edit (V := unit)) :=
  [AddNode sample_source; AddNode (new_reroute tt 1 (0, 0)); AddNode sample_sink;
   Connect (out 0) (slot 1 0); Connect (out 1) (slot 2 0); Connect (out 0) (slot 2 1)].

Definition sample_edits : list (Edit (V := unit)) :=
  sample_build ++ [InsertMember (out 1) (slot 2 1); Disconnect (slot 2 0); RemoveNode 1; RemoveAt 0].

Definition sample_graph : GraphState :=
  match fold_result perform sample_build GraphState_default with Ok g => g | Err _ => GraphState_default end.

Lemma sample_joins (g : @GraphState unit) f t :
  bool_decide (direction f = Output) && bool_decide (direction t = Input) && bool_decide (is_Some (output_at g f)) = true ->
  joins g f t.
Proof. intros [[H1%bool_decide_eq_true H2%bool_decide_eq_true]%andb_true_iff H3%bool_decide_eq_true]%andb_true_iff. by split. Qed.

Lemma fresh_plain (n : @Node unit) : Forall (fun s => resolved_type s = None /\ variadic s = None) (inputs n) ->
  kind n = Regular -> fresh_node n.
Proof.
  intros Hf Hk. split; [|split; [|by rewrite Hk]].
  - eapply Forall_impl; [exact Hf|]. intros s [? Hv]. split; [done|]. unfold is_variadic_member. by rewrite Hv.
  - intros d. left. induction Hf as [|s ins [_ Hv] _ IH]; [constructor|]. cbn [marks map].
    rewrite labels_cons. case_decide; [by constructor|done].
Qed.

Lemma fresh_reroute id : fresh_node (new_reroute tt id (0, 0)).
Proof.
  split; [by repeat constructor|]. split; [|intros _; by do 2 eexists].
  intros d. left. cbn [marks map inputs new_reroute]. rewrite labels_cons. case_decide; [by repeat constructor|constructor].
Qed.

Lemma fresh_sink : fresh_node sample_sink.
Proof.
  split; [by repeat constructor|]. split; [|done]. intros d. cbn [marks map inputs sample_sink set_inputs].
  rewrite !labels_cons. cbn. destruct (decide (0%nat = d)) as [<-|].
  - rewrite decide_False by done. right. exists "In"%string, 3%nat, 0%nat. split; [lia|done].
  - left. case_decide; by repeat constructor.
Qed.

Lemma sample_allowed : all_allowed sample_edits GraphState_default.
Proof.
  unfold sample_edits, sample_build. cbn [app].
  eapply all_allowed_step; [split; [done|by apply fresh_plain; [constructor|]]|vm_compute; reflexivity|].
  eapply all_allowed_step; [split; [done|apply fresh_reroute]|vm_compute; reflexivity|].
  eapply all_allowed_step; [split; [done|apply fresh_sink]|vm_compute; reflexivity|].
  do 3 (eapply all_allowed_step; [split; [by apply sample_joins|by eexists]|vm_compute; reflexivity|]).
  eapply all_allowed_step; [by apply sample_joins|vm_compute; reflexivity|].
  do 2 (eapply all_allowed_step; [exact I|vm_compute; reflexivity|]).
  eapply all_allowed_step; [by apply Nat.ltb_lt|vm_compute; reflexivity|]. exact I.
Qed.


Lemma sample_build_allowed : all_allowed sample_build GraphState_default.
Proof.
  assert (H : forall es es' (g : @GraphState unit), all_allowed (es ++ es') g -> all_allowed es g).
  { induction es as [|e es IH]; intros es' g; cbn; [done|]. intros [? He]. split; [done|].
    destruct (perform e g); [by apply (IH es')|done]. }
  apply (H _ _ _ sample_allowed).
Qed.

Lemma sample_document : document_ok sample_graph.
Proof.
  destruct (run_edits _ _ document_default sample_build_allowed) as [(g & E & Hdoc)|H].
  - unfold sample_graph. by rewrite E.
  - destruct H as (before & f & t & after & g & Hes & Hg & _ & _ & Hl). exfalso.
    assert (Hr : is_ok (fold_result perform sample_build GraphState_default) = true) by (vm_compute; reflexivity).
    rewrite Hes in Hr. by rewrite (fold_stops before f t after GraphState_default g Hg Hl) in Hr.
Qed.

(** The second member of the sink's group, behind the first. *)
Lemma variadic_group_is_list_witness :
  let t := slot 2 1 in
  feeds sample_graph 2 0 = [out 1; out 0] /\
  (exists g', add_connection 9 (out 1) t sample_graph = Ok g' /\ becomes sample_graph g' 2 0 [out 1; out 1]) /\
  (exists g', insert_variadic_connection 9 (out 1) t sample_graph = Ok (true, g') /\
     becomes sample_graph g' 2 0 [out 1; out 1; out 0]) /\
  (exists g', disconnect_input 9 t sample_graph = Ok (true, g') /\ becomes sample_graph g' 2 0 [out 1]).
Proof.
  split; [vm_compute; reflexivity|].
  destruct (variadic_group_is_list sample_graph (slot 2 1) (default (sample_socket "" "" 0 None) (input_at sample_graph (slot 2 1)))
    (mkVariadic "In" 3 false) (out 1) 9 sample_document eq_refl ltac:(vm_compute; reflexivity)
    ltac:(vm_compute; reflexivity) ltac:(apply Nat.ltb_lt; vm_compute; reflexivity)) as (H1 & H2 & H3).
  split; [|split].
  - apply H1. apply sample_joins. vm_compute; reflexivity.
  - apply H2; [apply sample_joins; vm_compute; reflexivity|reflexivity|apply Nat.ltb_lt; vm_compute; reflexivity].
  - apply H3. reflexivity.
Defined.

(** A reroute whose output is connected to its own input. *)
Definition looped_graph : @GraphState unit := attached (out 1) (slot 1 0) sample_graph.

Lemma looped_wired : wired none looped_graph.
Proof.
  apply (attached_wired _ _ _ (default (sample_socket "" "" 0 None) (input_at sample_graph (slot 1 0)))).
  - apply sample_joins. vm_compute; reflexivity.
  - vm_compute; reflexivity.
  - apply sample_document.
Qed.

Lemma looped_loops : loops looped_graph 1.
Proof.
  exists 1. split; [done|]. apply tc_once. split.
  - exists (default (blank tt 0 "" (0, 0)) (nodes looped_graph !! 1)). split; vm_compute; reflexivity.
  - exists (slot 1 0). split; vm_compute; reflexivity.
Qed.

Lemma reroute_propagation_terminates_witness :
  (forall fuel, propagate_reroute_output fuel 1 looped_graph = Err Exhausted) /\
  (exists g', shape g' = shape sample_graph /\
     forall fuel, (size (nodes sample_graph) < fuel)%nat -> propagate_reroute_output fuel 1 sample_graph = Ok g').
Proof.
  split.
  - apply (reroute_propagation_terminates looped_graph 1 looped_wired). exact looped_loops.
  - apply (reroute_propagation_terminates sample_graph 1); apply sample_document.
Defined.

Lemma sample_reroutes id : is_reroute sample_graph id -> id = 1.
Proof.
  assert (H : forall (m : gmap Z (@Node unit)) id n, m !! id = Some n -> kind n = Reroute ->
    forallb (fun p => bool_decide (p.2.(kind) = Reroute -> p.1 = 1)) (map_to_list m) = true -> id = 1).
  { intros m j n Hn Hk Hb. rewrite forallb_forall in Hb. specialize (Hb (j, n)).
    apply bool_decide_eq_true in Hb; [by apply Hb|]. apply list_elem_of_In, elem_of_map_to_list. exact Hn. }
  intros (n & Hn & Hk). apply (H _ _ _ Hn Hk). vm_compute. reflexivity.
Qed.

(** A reroute pasted without the connection that fed it: its input is reset, its output is not. *)
Definition pasted_reroute : @GraphState unit :=
  set_connections [] (set_nodes {[1 := default (blank tt 1 "" (0, 0)) (nodes sample_graph !! 1)]} sample_graph).

Lemma prune_leaves_reroute_output :
  match prune_unconnected_resolutions [1] pasted_reroute with
  | Ok g => input_at g (slot 1 0) = Some (sample_socket "Any" "" 0 None) /\
      output_at g (out 1) = Some (set_resolved (Some "Signal"%string) (sample_socket "Any" "" 0 None))
  | Err _ => False
  end.
Proof. vm_compute. split; reflexivity. Qed.

Lemma reconcile_restores_types_witness :
  exists g', reconcile_reroute_outputs 4 [1] (forget sample_graph) = Ok g' /\ shape g' = shape (forget sample_graph) /\
    typed_inputs none g' /\ mirrored none g'.
Proof.
  refine (proj1 (reconcile_restores_types (forget sample_graph) [1] _ _ _) _).
  - exact (shape_wired none sample_graph _ (eq_sym (shape_forget sample_graph)) (document_wired _ _ _ sample_document)).
  - intros id Hr. apply list_elem_of_singleton. apply sample_reroutes.
    exact (proj1 (shape_is_reroute (forget sample_graph) sample_graph id (shape_forget sample_graph)) Hr).
  - exact (forget_typed sample_graph sample_document).
  - intros id Hl. apply (document_loop_free _ _ _ sample_document id). refine (hop_loops _ _ id _ Hl).
    intros a b H. exact (proj1 (shape_hop (forget sample_graph) sample_graph a b (shape_forget sample_graph)) H).
Defined.
