(* ===== verification/WordFormat.v ===== *)
(** [crates/signal_derived/src/derived_word_store/format.rs]: the fixed header of an encoded word
    block and the restart entries of its seek table, as little-endian bytes. *)

From S2P Require Import Prelude Vlq.

(** [crates/signal_derived/src/derived_word_store/format.rs:4-10] BLOCK_MAGIC, flags and sizes *)
Definition BLOCK_MAGIC : list Z := [68; 87; 66; 76].
Definition BLOCK_FLAG_HAS_DURATIONS : Z := 1.
Definition BLOCK_FLAG_HAS_PAYLOADS : Z := 2.
Definition BLOCK_FLAG_GROUPED_TIMESTAMPS : Z := 4.
Definition BLOCK_HEADER_SIZE : Z := 72.
Definition RESTART_ENTRY_SIZE : Z := 16.
Definition BLOCK_CHECKSUM_OFFSET : Z := 64.

(** [crates/signal_derived/src/derived_word_store/format.rs:12-27] WordBlockHeader *)
Record WordBlockHeader := mkHeader {
  flags : Z;
  sequence : Z;
  first_timestamp_ns : Z;
  last_timestamp_ns : Z;
  word_count : Z;
  value_bytes : Z;
  record_payload_len : Z;
  restart_count : Z;
  restart_table_offset : Z;
  duration_count : Z;
  duration_table_offset : Z;
  block_len : Z;
  crc32c : Z
}.

(** [bytes[offset..offset + n].copy_from_slice(v)]; [None] is the out-of-range panic. *)
Definition put (bytes : list Z) (offset : Z) (v : list Z) : option (list Z) :=
  if (0 <=? offset) && (offset + zlen v <=? zlen bytes)
  then Some (take (Z.to_nat offset) bytes ++ v ++ drop (Z.to_nat offset + length v) bytes)
  else None.

(** [crates/signal_derived/src/derived_word_store/format.rs:126-128] put_u16 *)
Definition put_u16 (bytes : list Z) (offset value : Z) : option (list Z) :=
  put bytes offset (to_le_bytes 2 value).

(** [crates/signal_derived/src/derived_word_store/format.rs:130-132] put_u32 *)
Definition put_u32 (bytes : list Z) (offset value : Z) : option (list Z) :=
  put bytes offset (to_le_bytes 4 value).

(** [crates/signal_derived/src/derived_word_store/format.rs:134-136] put_u64 *)
Definition put_u64 (bytes : list Z) (offset value : Z) : option (list Z) :=
  put bytes offset (to_le_bytes 8 value).

(** [crates/signal_derived/src/derived_word_store/format.rs:138-145] get_u16 *)
Definition get_u16 (bytes : list Z) (offset : Z) : CodecResult Z :=
  let? value := ok_or (slice bytes offset (offset + 2)) Truncated in Ok (from_le_bytes value).

(** [crates/signal_derived/src/derived_word_store/format.rs:147-154] get_u32 *)
Definition get_u32 (bytes : list Z) (offset : Z) : CodecResult Z :=
  let? value := ok_or (slice bytes offset (offset + 4)) Truncated in Ok (from_le_bytes value).

(** [crates/signal_derived/src/derived_word_store/format.rs:156-163] get_u64 *)
Definition get_u64 (bytes : list Z) (offset : Z) : CodecResult Z :=
  let? value := ok_or (slice bytes offset (offset + 8)) Truncated in Ok (from_le_bytes value).

(** [crates/signal_derived/src/derived_word_store/format.rs:30-48] WordBlockHeader::write_to *)
Definition write_to (h : WordBlockHeader) (bytes : list Z) : option (list Z) :=
  bytes ← put bytes 0 (replicate 72 0);
  bytes ← put bytes 0 BLOCK_MAGIC;
  bytes ← put_u16 bytes 4 BLOCK_HEADER_SIZE;
  bytes ← put_u16 bytes 6 (flags h);
  bytes ← put_u64 bytes 8 (sequence h);
  bytes ← put_u64 bytes 16 (first_timestamp_ns h);
  bytes ← put_u64 bytes 24 (last_timestamp_ns h);
  bytes ← put_u32 bytes 32 (word_count h);
  bytes ← put bytes 36 [value_bytes h];
  bytes ← put_u32 bytes 40 (record_payload_len h);
  bytes ← put_u32 bytes 44 (restart_count h);
  bytes ← put_u32 bytes 48 (restart_table_offset h);
  bytes ← put_u32 bytes 52 (duration_count h);
  bytes ← put_u32 bytes 56 (duration_table_offset h);
  bytes ← put_u32 bytes 60 (block_len h);
  put_u32 bytes BLOCK_CHECKSUM_OFFSET (crc32c h).

Definition invalid (message : string) : CodecError := InvalidFormat message.

(** The slices and the index are in range after the length test, so their misses, panics in the
    source, are given as [Truncated].
    [crates/signal_derived/src/derived_word_store/format.rs:50-80] WordBlockHeader::from_bytes *)
Definition from_bytes (bytes : list Z) : CodecResult WordBlockHeader :=
  if zlen bytes <? BLOCK_HEADER_SIZE then Err Truncated
  else
    let? magic := ok_or (slice bytes 0 4) Truncated in
    if bool_decide (magic <> BLOCK_MAGIC) then Err (invalid "invalid word-block magic")
    else
      let? size := get_u16 bytes 4 in
      if negb (size =? BLOCK_HEADER_SIZE) then Err (invalid "invalid word-block header size")
      else
        let? reserved := ok_or (slice bytes 37 40) Truncated in
        let? reserved_tail := ok_or (slice bytes 68 72) Truncated in
        if existsb (fun byte => negb (byte =? 0)) reserved
           || existsb (fun byte => negb (byte =? 0)) reserved_tail
        then Err (invalid "non-zero reserved word-block header bytes")
        else
          let? flags := get_u16 bytes 6 in
          let? sequence := get_u64 bytes 8 in
          let? first_timestamp_ns := get_u64 bytes 16 in
          let? last_timestamp_ns := get_u64 bytes 24 in
          let? word_count := get_u32 bytes 32 in
          let? value_bytes := ok_or (byte_at bytes 36) Truncated in
          let? record_payload_len := get_u32 bytes 40 in
          let? restart_count := get_u32 bytes 44 in
          let? restart_table_offset := get_u32 bytes 48 in
          let? duration_count := get_u32 bytes 52 in
          let? duration_table_offset := get_u32 bytes 56 in
          let? block_len := get_u32 bytes 60 in
          let? crc32c := get_u32 bytes BLOCK_CHECKSUM_OFFSET in
          Ok (mkHeader flags sequence first_timestamp_ns last_timestamp_ns word_count value_bytes
                record_payload_len restart_count restart_table_offset duration_count
                duration_table_offset block_len crc32c).

(** [crates/signal_derived/src/derived_word_store/format.rs:84-89] RestartEntry *)
Record RestartEntry := mkRestart {
  restart_timestamp_ns : Z;
  payload_offset : Z;
  record_index : Z
}.

(** The appended bytes.
    [crates/signal_derived/src/derived_word_store/format.rs:107-111] RestartEntry::append_to *)
Definition restart_bytes (r : RestartEntry) : list Z :=
  to_le_bytes 8 (restart_timestamp_ns r) ++ to_le_bytes 4 (payload_offset r)
    ++ to_le_bytes 4 (record_index r).

(** [crates/signal_derived/src/derived_word_store/format.rs:113-119] RestartEntry::read_from *)
Definition read_restart (bytes : list Z) (offset : Z) : CodecResult RestartEntry :=
  let? timestamp_ns := get_u64 bytes offset in
  let? payload_offset := get_u32 bytes (offset + 8) in
  let? record_index := get_u32 bytes (offset + 12) in
  Ok (mkRestart timestamp_ns payload_offset record_index).

#[export] Instance WordBlockHeader_eq_dec : EqDecision WordBlockHeader.
Proof. solve_decision. Defined.
#[export] Instance RestartEntry_eq_dec : EqDecision RestartEntry.
Proof. solve_decision. Defined.

(** ** The layout *)

Definition header_head (h : WordBlockHeader) : list Z :=
  BLOCK_MAGIC ++ to_le_bytes 2 BLOCK_HEADER_SIZE ++ to_le_bytes 2 (flags h)
    ++ to_le_bytes 8 (sequence h) ++ to_le_bytes 8 (first_timestamp_ns h)
    ++ to_le_bytes 8 (last_timestamp_ns h) ++ to_le_bytes 4 (word_count h)
    ++ [value_bytes h; 0; 0; 0] ++ to_le_bytes 4 (record_payload_len h)
    ++ to_le_bytes 4 (restart_count h) ++ to_le_bytes 4 (restart_table_offset h)
    ++ to_le_bytes 4 (duration_count h) ++ to_le_bytes 4 (duration_table_offset h)
    ++ to_le_bytes 4 (block_len h).

Definition header_bytes (h : WordBlockHeader) : list Z :=
  header_head h ++ to_le_bytes 4 (crc32c h) ++ [0; 0; 0; 0].

Definition header_ok (h : WordBlockHeader) : Prop :=
  u16 (flags h) /\ u64 (sequence h) /\ u64 (first_timestamp_ns h) /\ u64 (last_timestamp_ns h) /\
  u32 (word_count h) /\ u8 (value_bytes h) /\ u32 (record_payload_len h) /\ u32 (restart_count h) /\
  u32 (restart_table_offset h) /\ u32 (duration_count h) /\ u32 (duration_table_offset h) /\
  u32 (block_len h) /\ u32 (crc32c h).

Lemma zlen_header_bytes h : zlen (header_bytes h) = 72.
Proof. reflexivity. Qed.

Lemma zlen_header_head h : zlen (header_head h) = 64.
Proof. reflexivity. Qed.

Lemma put_72 bytes rest offset v :
  0 <= offset -> offset + zlen v <= zlen bytes ->
  put (bytes ++ rest) offset v =
    Some ((take (Z.to_nat offset) bytes ++ v ++ drop (Z.to_nat offset + length v) bytes) ++ rest).
Proof.
  intros Ho Hv. unfold put. rewrite (proj2 (Z.leb_le 0 offset) Ho).
  unfold zlen in *. rewrite length_app. rewrite (proj2 (Z.leb_le _ _)) by lia. cbn [andb].
  rewrite take_app_le, drop_app_le by lia. by rewrite <- !app_assoc.
Qed.

(** Names the bytes of every little-endian field. *)
#[local] Ltac explode :=
  repeat match goal with
  | |- context [to_le_bytes ?n ?z] =>
      let l := fresh "l" in let Hl := fresh "Hl" in
      generalize (length_to_le_bytes n z); generalize (to_le_bytes n z); intros l Hl;
      repeat (destruct l as [|? l]; [discriminate Hl || clear Hl|
              first [discriminate Hl|apply (f_equal pred) in Hl; cbn [length pred] in Hl]])
  end.

#[local] Ltac put_step :=
  rewrite put_72; [|unfold BLOCK_CHECKSUM_OFFSET; lia|vm_compute; discriminate];
  match goal with
  | |- context [take ?n ?l ++ ?v ++ ?d] =>
      let l' := eval vm_compute in (take n l ++ v ++ d) in change (take n l ++ v ++ d) with l'
  end; cbn [mbind option_bind].

(** Writing the header replaces the first 72 bytes by the layout. *)
Lemma write_to_layout h bytes :
  72 <= zlen bytes -> write_to h bytes = Some (header_bytes h ++ drop 72 bytes).
Proof.
  intros Hlen. unfold write_to.
  assert (H0 : put bytes 0 (replicate 72 0) = Some (replicate 72 0 ++ drop 72 bytes)).
  { unfold put. cbn [Z.to_nat]. change (zlen (replicate 72 0)) with 72.
    rewrite (proj2 (Z.leb_le (0 + 72) _)) by lia. done. }
  rewrite H0. cbn [mbind option_bind]. generalize (drop 72 bytes). clear.
  intros rest. unfold put_u16, put_u32, put_u64, header_bytes, header_head. explode.
  repeat put_step. reflexivity.
Qed.

Lemma get_u16_at bytes cursor v post :
  at_cursor bytes cursor (to_le_bytes 2 v ++ post) -> u16 v -> get_u16 bytes cursor = Ok v.
Proof.
  intros H Hv. unfold get_u16. rewrite (at_cursor_slice _ _ _ _ _ H) by done. cbn [ok_or].
  rewrite from_to_le_bytes; [done|]. unfold u16 in Hv. simpl. lia.
Qed.

Lemma get_u32_at bytes cursor v post :
  at_cursor bytes cursor (to_le_bytes 4 v ++ post) -> u32 v -> get_u32 bytes cursor = Ok v.
Proof.
  intros H Hv. unfold get_u32. rewrite (at_cursor_slice _ _ _ _ _ H) by done. cbn [ok_or].
  rewrite from_to_le_bytes; [done|]. unfold u32 in Hv. simpl. lia.
Qed.

Lemma get_u64_at bytes cursor v post :
  at_cursor bytes cursor (to_le_bytes 8 v ++ post) -> u64 v -> get_u64 bytes cursor = Ok v.
Proof.
  intros H Hv. unfold get_u64. rewrite (at_cursor_slice _ _ _ _ _ H) by done. cbn [ok_or].
  rewrite from_to_le_bytes; [done|]. unfold u64 in Hv. simpl. lia.
Qed.

Lemma at_cursor_move {A} (l : list A) cursor s1 s2 next :
  at_cursor l cursor (s1 ++ s2) -> next = cursor + zlen s1 -> at_cursor l next s2.
Proof. intros H ->. by apply at_cursor_app. Qed.


Definition header_segments (h : WordBlockHeader) : list (list Z) :=
  [BLOCK_MAGIC; to_le_bytes 2 BLOCK_HEADER_SIZE; to_le_bytes 2 (flags h);
   to_le_bytes 8 (sequence h); to_le_bytes 8 (first_timestamp_ns h);
   to_le_bytes 8 (last_timestamp_ns h); to_le_bytes 4 (word_count h);
   [value_bytes h]; [0; 0; 0]; to_le_bytes 4 (record_payload_len h);
   to_le_bytes 4 (restart_count h); to_le_bytes 4 (restart_table_offset h);
   to_le_bytes 4 (duration_count h); to_le_bytes 4 (duration_table_offset h);
   to_le_bytes 4 (block_len h); to_le_bytes 4 (crc32c h); [0; 0; 0; 0]].

Lemma at_cursor_concat (segs : list (list Z)) i seg rest :
  segs !! i = Some seg ->
  at_cursor (concat segs ++ rest) (zlen (concat (take i segs))) (seg ++ concat (drop (S i) segs) ++ rest).
Proof.
  intros H. rewrite <- (take_drop i segs) at 1. rewrite (drop_S _ _ _ H), concat_app.
  cbn [concat]. rewrite <- !app_assoc. apply at_cursor_intro.
Qed.

(** The [i]-th segment begins at the sum of the lengths of those before it. *)
Lemma header_cursor h rest i seg cursor :
  header_segments h !! i = Some seg -> cursor = zlen (concat (take i (header_segments h))) ->
  at_cursor (header_bytes h ++ rest) cursor (seg ++ concat (drop (S i) (header_segments h)) ++ rest).
Proof. intros H ->. apply (at_cursor_concat _ _ _ _ H). Qed.

Lemma from_bytes_layout h rest :
  header_ok h -> from_bytes (header_bytes h ++ rest) = Ok h.
Proof.
  intros (H1 & H2 & H3 & H4 & H5 & H6 & H7 & H8 & H9 & H10 & H11 & H12 & H13).
  assert (Hlen : 72 <= zlen (header_bytes h ++ rest)).
  { rewrite zlen_app, zlen_header_bytes. pose proof (zlen_nonneg rest). lia. }
  pose proof (fun i seg cursor => header_cursor h rest i seg cursor) as C.
  pose proof (C 0%nat _ 0 eq_refl eq_refl) as C0. pose proof (C 1%nat _ 4 eq_refl eq_refl) as C4.
  pose proof (C 2%nat _ 6 eq_refl eq_refl) as C6. pose proof (C 3%nat _ 8 eq_refl eq_refl) as C8.
  pose proof (C 4%nat _ 16 eq_refl eq_refl) as C16. pose proof (C 5%nat _ 24 eq_refl eq_refl) as C24.
  pose proof (C 6%nat _ 32 eq_refl eq_refl) as C32. pose proof (C 7%nat _ 36 eq_refl eq_refl) as C36.
  pose proof (C 8%nat _ 37 eq_refl eq_refl) as C37. pose proof (C 9%nat _ 40 eq_refl eq_refl) as C40.
  pose proof (C 10%nat _ 44 eq_refl eq_refl) as C44. pose proof (C 11%nat _ 48 eq_refl eq_refl) as C48.
  pose proof (C 12%nat _ 52 eq_refl eq_refl) as C52. pose proof (C 13%nat _ 56 eq_refl eq_refl) as C56.
  pose proof (C 14%nat _ 60 eq_refl eq_refl) as C60. pose proof (C 15%nat _ 64 eq_refl eq_refl) as C64.
  pose proof (C 16%nat _ 68 eq_refl eq_refl) as C68. clear C.
  unfold from_bytes. rewrite (proj2 (Z.ltb_ge _ _)) by (unfold BLOCK_HEADER_SIZE; lia).
  rewrite (at_cursor_slice _ _ _ _ 4 C0) by done. cbn [ok_or].
  rewrite bool_decide_eq_false_2 by (intros Hne; by apply Hne).
  rewrite (get_u16_at _ _ _ _ C4) by (unfold BLOCK_HEADER_SIZE; ints). rewrite Z.eqb_refl. cbn [negb].
  rewrite (at_cursor_slice _ _ _ _ 40 C37), (at_cursor_slice _ _ _ _ 72 C68) by done.
  cbn [ok_or existsb Z.eqb negb orb].
  rewrite (get_u16_at _ _ _ _ C6), (get_u64_at _ _ _ _ C8), (get_u64_at _ _ _ _ C16),
    (get_u64_at _ _ _ _ C24), (get_u32_at _ _ _ _ C32) by done.
  rewrite (at_cursor_byte _ _ _ _ C36). cbn [ok_or]. unfold BLOCK_CHECKSUM_OFFSET.
  rewrite (get_u32_at _ _ _ _ C40), (get_u32_at _ _ _ _ C44), (get_u32_at _ _ _ _ C48),
    (get_u32_at _ _ _ _ C52), (get_u32_at _ _ _ _ C56), (get_u32_at _ _ _ _ C60),
    (get_u32_at _ _ _ _ C64) by done.
  by destruct h.
Qed.

Lemma restart_roundtrip bytes cursor r post :
  at_cursor bytes cursor (restart_bytes r ++ post) ->
  u64 (restart_timestamp_ns r) -> u32 (payload_offset r) -> u32 (record_index r) ->
  read_restart bytes cursor = Ok r /\ at_cursor bytes (cursor + RESTART_ENTRY_SIZE) post.
Proof.
  intros H H1 H2 H3. unfold restart_bytes in H. rewrite <- !app_assoc in H.
  pose proof (at_cursor_app _ _ _ _ H) as Ha. pose proof (at_cursor_app _ _ _ _ Ha) as Hb.
  pose proof (at_cursor_app _ _ _ _ Hb) as Hc. rewrite !zlen_to_le_bytes in *.
  change (Z.of_nat 8) with 8 in *. change (Z.of_nat 4) with 4 in *. unfold read_restart.
  rewrite (get_u64_at _ _ _ _ H), (get_u32_at _ _ _ _ Ha) by done.
  replace (cursor + 8 + 4) with (cursor + 12) in * by lia.
  rewrite (get_u32_at _ _ _ _ Hb) by done. split; [by destruct r|].
  replace (cursor + RESTART_ENTRY_SIZE) with (cursor + 12 + 4) by (unfold RESTART_ENTRY_SIZE; lia).
  done.
Qed.

(** A header written over the front of a buffer of at least 72 bytes is read back, and the
    bytes behind it are untouched. *)
Theorem header_roundtrip h bytes :
  header_ok h -> 72 <= zlen bytes ->
  exists output, write_to h bytes = Some output /\ from_bytes output = Ok h /\
    drop 72 output = drop 72 bytes /\ zlen output = zlen bytes.
Proof.
  intros Hok Hlen. exists (header_bytes h ++ drop 72 bytes). split; [by apply write_to_layout|].
  split; [by apply from_bytes_layout|]. split.
  - change 72%nat with (length (header_bytes h)) at 1. apply drop_app_length.
  - rewrite zlen_app, zlen_header_bytes. unfold zlen in *. rewrite length_drop. lia.
Qed.

Lemma header_roundtrip_witness :
  let h := mkHeader 5 7 100 200 2 1 4 1 76 0 92 96 12345 in
  exists output, write_to h (replicate 80 9) = Some output /\ from_bytes output = Ok h /\
    drop 72 output = drop 72 (replicate 80 9) /\ zlen output = zlen (replicate 80 9).
Proof.
  apply (header_roundtrip (mkHeader 5 7 100 200 2 1 4 1 76 0 92 96 12345) (replicate 80 9));
    [unfold header_ok; cbn; split_and!; ints|discriminate].
Defined.
