(* ===== verification/WordEncode.v ===== *)
(** The encoding half of [crates/signal_derived/src/derived_word_store/codec.rs]: the block builder
    with its size predictor, and the encoder with its three record layouts (variable-length
    records, dense two-byte records, and dense records grouped by restart interval with constant
    or palette-packed time steps).

    Lengths and indices of data in memory are unbounded here: a [usize] does not overflow on
    them.  Time stamps are 64-bit values and their differences wrap or saturate as in the source. *)

From S2P Require Import Prelude Events Crc32c Vlq WordFormat.

(** ** The builder *)

(** [crates/signal_derived/src/derived_word_store/config.rs:12-25] BlockCodecConfig *)
Record BlockCodecConfig := mkConfig {
  max_words : Z;
  restart_interval : Z;
  max_payload_bytes : Z;
  max_inter_word_gap_ns : Z;
  max_timestamp_span_ns : Z
}.

(** [crates/signal_derived/src/derived_word_store/config.rs:28-36] BlockCodecConfig::default *)
Definition default_config : BlockCodecConfig := mkConfig 131072 512 1048576 1000000 u64_max.

(** The size prediction of the words accepted so far. *)
Record Sizing := mkSizing {
  timestamp_bytes : Z;
  duration_bytes : Z;
  sized_durations : Z;
  last_duration_index : Z;
  payload_entry_bytes : Z;
  payload_count : Z;
  last_payload_index : Z;
  max_value : Z
}.

Definition no_sizing : Sizing := mkSizing 0 0 0 0 0 0 0 0.

(** The eight counters are grouped in [sizing].
    [crates/signal_derived/src/derived_word_store/codec.rs:23-36] WordBlockBuilder *)
Record WordBlockBuilder := mkBuilder {
  config : BlockCodecConfig;
  words : list Word;
  sizing : Sizing
}.

(** [crates/signal_derived/src/derived_word_store/codec.rs:108-139] WordBlockBuilder::new *)
Definition WordBlockBuilder_new (c : BlockCodecConfig) : CodecResult WordBlockBuilder :=
  if restart_interval c =? 0 then Err InvalidRestartInterval
  else if max_words c =? 0 then Err (InvalidConfiguration "max_words must be greater than zero")
  else if u32_max <? max_words c then Err (InvalidConfiguration "max_words must fit in u32")
  else if max_payload_bytes c =? 0
  then Err (InvalidConfiguration "max_payload_bytes must be greater than zero")
  else Ok (mkBuilder c [] no_sizing).

(** [crates/signal_derived/src/derived_word_store/codec.rs:1401-1408] value_width *)
Definition value_width (max_value : Z) : Z :=
  if max_value <=? 0xff then 1
  else if max_value <=? 0xffff then 2
  else if max_value <=? 0xffffffff then 4
  else 8.

(** [crates/signal_derived/src/derived_word_store/codec.rs:1410-1415] payload_len *)
Definition payload_len (p : WordPayload) : Z :=
  match p with Bytes bytes => zlen bytes | Text text => zlen text end.

(** The durations, payloads and maximum after accepting [w] as number [next_index].
    [crates/signal_derived/src/derived_word_store/codec.rs:232-272] extend_ordered (sizes) *)
Definition size_word (z : Sizing) (next_index : Z) (delta : Z) (w : Word) : Sizing :=
  let '(duration_bytes, duration_count, last_duration_index) :=
    if duration_ns w =? 0 then (duration_bytes z, sized_durations z, last_duration_index z)
    else
      let index_delta := if sized_durations z =? 0 then next_index
                         else next_index - last_duration_index z in
      (duration_bytes z + encoded_len index_delta + encoded_len (duration_ns w),
       sized_durations z + 1, next_index) in
  let '(payload_entry_bytes, payload_count, last_payload_index) :=
    match payload w with
    | Some p =>
        let index_delta := if payload_count z =? 0 then next_index
                           else next_index - last_payload_index z in
        (payload_entry_bytes z + encoded_len index_delta + 1 + encoded_len (payload_len p)
           + payload_len p, payload_count z + 1, next_index)
    | None => (payload_entry_bytes z, payload_count z, last_payload_index z)
    end in
  mkSizing (timestamp_bytes z + encoded_len delta) duration_bytes duration_count
    last_duration_index payload_entry_bytes payload_count last_payload_index
    (Z.max (max_value z) (value w)).

(** The encoded bytes predicted for [word_count] words.
    [crates/signal_derived/src/derived_word_store/codec.rs:273-287] extend_ordered (budget) *)
Definition predicted_bytes (c : BlockCodecConfig) (z : Sizing) (word_count : Z) : Z :=
  let record_bytes := timestamp_bytes z + word_count * value_width (max_value z) in
  let restart_count := div_ceil word_count (restart_interval c) in
  let payload_bytes := if 0 <? payload_count z
    then encoded_len (payload_count z) + payload_entry_bytes z else 0 in
  record_bytes + restart_count * RESTART_ENTRY_SIZE + duration_bytes z + payload_bytes.

(** The first word of an empty builder is accepted whatever its size.
    [crates/signal_derived/src/derived_word_store/codec.rs:297-311] extend_ordered (first word) *)
Definition size_first (z : Sizing) (w : Word) : Sizing :=
  let '(duration_bytes, duration_count, last_duration_index) :=
    if duration_ns w =? 0 then (duration_bytes z, sized_durations z, last_duration_index z)
    else (duration_bytes z + (encoded_len 0 + encoded_len (duration_ns w)), 1, 0) in
  let '(payload_entry_bytes, payload_count, last_payload_index) :=
    match payload w with
    | Some p => (encoded_len 0 + 1 + encoded_len (payload_len p) + payload_len p, 1, 0)
    | None => (payload_entry_bytes z, payload_count z, last_payload_index z)
    end in
  mkSizing (timestamp_bytes z + encoded_len 0) duration_bytes duration_count
    last_duration_index payload_entry_bytes payload_count last_payload_index (value w).

(** How many of the words are accepted, and the sizes with them.
    [crates/signal_derived/src/derived_word_store/codec.rs:218-315] extend_ordered (loop) *)
Fixpoint extend_loop (c : BlockCodecConfig) (next_index : Z) (z : Sizing)
    (previous_timestamp : option Z) (first_timestamp : Z) (ws : list Word) : nat * Sizing :=
  match ws with
  | [] => (O, z)
  | w :: ws =>
      match previous_timestamp with
      | Some previous =>
          if (max_words c <=? next_index)
             || (max_inter_word_gap_ns c <? saturating_sub64 (timestamp_ns w) previous)
             || (max_timestamp_span_ns c <? saturating_sub64 (timestamp_ns w) first_timestamp)
          then (O, z)
          else
            let next := size_word z next_index (saturating_sub64 (timestamp_ns w) previous) w in
            if max_payload_bytes c <? predicted_bytes c next (next_index + 1) then (O, z)
            else
              let '(accepted, z) :=
                extend_loop c (next_index + 1) next (Some (timestamp_ns w)) first_timestamp ws in
              (S accepted, z)
      | None =>
          let '(accepted, z) :=
            extend_loop c (next_index + 1) (size_first z w) (Some (timestamp_ns w))
              first_timestamp ws in
          (S accepted, z)
      end
  end.

(** The dense path: only the time bounds can close the block.
    [crates/signal_derived/src/derived_word_store/codec.rs:354-372] extend_duration_free (loop) *)
Fixpoint extend_dense_loop (c : BlockCodecConfig) (timestamp_bytes max_value : Z)
    (previous_timestamp : option Z) (first_timestamp : Z) (ws : list Word) : nat * Z * Z :=
  match ws with
  | [] => (O, timestamp_bytes, max_value)
  | w :: ws =>
      match previous_timestamp with
      | Some previous =>
          let delta := saturating_sub64 (timestamp_ns w) previous in
          if (max_inter_word_gap_ns c <? delta)
             || (max_timestamp_span_ns c <? saturating_sub64 (timestamp_ns w) first_timestamp)
          then (O, timestamp_bytes, max_value)
          else
            let '(accepted, t, m) :=
              extend_dense_loop c (timestamp_bytes + if delta <=? 0x7f then 1 else encoded_len delta)
                (Z.max max_value (value w)) (Some (timestamp_ns w)) first_timestamp ws in
            (S accepted, t, m)
      | None =>
          let '(accepted, t, m) :=
            extend_dense_loop c (timestamp_bytes + encoded_len 0) (Z.max max_value (value w))
              (Some (timestamp_ns w)) first_timestamp ws in
          (S accepted, t, m)
      end
  end.

Definition first_timestamp (b : WordBlockBuilder) (ws : list Word) : Z :=
  match words b, ws with
  | w :: _, _ | [], w :: _ => timestamp_ns w
  | [], [] => 0
  end.

(** [crates/signal_derived/src/derived_word_store/codec.rs:333-342] duration_free_payload_fits_at_max_words *)
Definition dense_fits (c : BlockCodecConfig) : bool :=
  let restart_bytes := saturating_mul64 (div_ceil (max_words c) (restart_interval c)) RESTART_ENTRY_SIZE in
  saturating_add64 (saturating_mul64 (max_words c) (10 + 8)) restart_bytes <=? max_payload_bytes c.

(** [crates/signal_derived/src/derived_word_store/codec.rs:344-377] extend_duration_free *)
Definition extend_duration_free (b : WordBlockBuilder) (ws : list Word) : nat * WordBlockBuilder :=
  let z := sizing b in
  let '(accepted, t, m) :=
    extend_dense_loop (config b) (timestamp_bytes z) (max_value z)
      (timestamp_ns <$> last (words b)) (first_timestamp b ws) ws in
  (accepted, mkBuilder (config b) (words b ++ take accepted ws)
     (mkSizing t (duration_bytes z) (sized_durations z) (last_duration_index z)
        (payload_entry_bytes z) (payload_count z) (last_payload_index z) m)).

(** [crates/signal_derived/src/derived_word_store/codec.rs:184-327] WordBlockBuilder::extend_ordered *)
Definition extend_ordered (b : WordBlockBuilder) (ws : list Word) : nat * WordBlockBuilder :=
  let z := sizing b in
  let available := Z.max (max_words (config b) - zlen (words b)) 0 in
  let candidates := take (Z.to_nat available) ws in
  if (sized_durations z =? 0) && (payload_count z =? 0) && dense_fits (config b)
     && forallb (fun w => (duration_ns w =? 0) && is_numeric w) candidates
  then extend_duration_free b candidates
  else
    let '(accepted, z) :=
      extend_loop (config b) (zlen (words b)) z (timestamp_ns <$> last (words b))
        (first_timestamp b ws) ws in
    (accepted, mkBuilder (config b) (words b ++ take accepted ws) z).

(** [crates/signal_derived/src/derived_word_store/codec.rs:379-382] WordBlockBuilder::clear *)
Definition clear (b : WordBlockBuilder) : WordBlockBuilder := mkBuilder (config b) [] no_sizing.

(** ** The encoder *)

(** [value as u8] *)
Definition as_u8 (z : Z) : Z := z mod 256.

(** [crates/signal_derived/src/derived_word_store/codec.rs:1417-1419] append_value *)
Definition append_value (value width : Z) : list Z := take (Z.to_nat width) (to_le_bytes 8 value).

(** [crates/signal_derived/src/derived_word_store/codec.rs:1438-1440] to_u32 *)
Definition to_u32 (value : Z) (what : string) : CodecResult Z :=
  if value <=? u32_max then Ok value else Err (InvalidFormat (what ++ " exceeds 4 GiB")).

(** [crates/signal_derived/src/derived_word_store/codec.rs:528-532] EncodedBlockMetadata *)
Record EncodedBlockMetadata := mkMetadata {
  header : WordBlockHeader;
  restarts : list RestartEntry
}.

(** The locals of the encoding loop. *)
Record Emit := mkEmit {
  records : list Z;
  emit_restarts : list RestartEntry;
  durations : list Z;
  payloads : list Z;
  previous_timestamp : Z;
  previous_duration_index : Z;
  emit_durations : Z;
  previous_payload_index : Z;
  emitted_payload_count : Z
}.

(** The kind byte, the length and the bytes of a payload.
    [crates/signal_derived/src/derived_word_store/codec.rs:688-699] encode (payload) *)
Definition payload_bytes (p : WordPayload) : list Z :=
  match p with
  | Bytes bytes => 1 :: encode_u64 (zlen bytes) ++ bytes
  | Text text => 2 :: encode_u64 (zlen text) ++ text
  end.

(** One turn of the variable-length loop.
    [crates/signal_derived/src/derived_word_store/codec.rs:652-702] encode (general records) *)
Definition emit_word (interval value_bytes : Z) (index : Z) (w : Word) (e : Emit)
  : CodecResult Emit :=
  let? restarts :=
    (if index mod interval =? 0 then
       if zlen (records e) <=? u32_max then
         Ok (emit_restarts e ++ [mkRestart (timestamp_ns w) (zlen (records e)) (as_u32 index)])
       else Err (InvalidFormat "record payload exceeds 4 GiB")
     else Ok (emit_restarts e)) in
  let delta := if index =? 0 then 0 else sub64 (timestamp_ns w) (previous_timestamp e) in
  let records := records e ++ encode_u64 delta ++ append_value (value w) value_bytes in
  let '(durations, previous_duration_index, duration_count) :=
    if duration_ns w =? 0 then (durations e, previous_duration_index e, emit_durations e)
    else
      let index_delta := if emit_durations e =? 0 then index else index - previous_duration_index e in
      (durations e ++ encode_u64 index_delta ++ encode_u64 (duration_ns w), index,
       emit_durations e + 1) in
  let '(payloads, previous_payload_index, emitted) :=
    match payload w with
    | None => (payloads e, previous_payload_index e, emitted_payload_count e)
    | Some p =>
        let index_delta := if emitted_payload_count e =? 0 then index
                           else index - previous_payload_index e in
        (payloads e ++ encode_u64 index_delta ++ payload_bytes p, index, emitted_payload_count e + 1)
    end in
  Ok (mkEmit records restarts durations payloads (timestamp_ns w) previous_duration_index
        duration_count previous_payload_index emitted).

Fixpoint emit_words (interval value_bytes index : Z) (ws : list Word) (e : Emit) : CodecResult Emit :=
  match ws with
  | [] => Ok e
  | w :: ws =>
      let? e := emit_word interval value_bytes index w e in
      emit_words interval value_bytes (index + 1) ws e
  end.

(** The dense two-byte records.
    [crates/signal_derived/src/derived_word_store/codec.rs:631-649] encode (dense records) *)
Fixpoint emit_dense (interval index : Z) (previous : option Z) (ws : list Word)
    (acc : list Z * list RestartEntry) : list Z * list RestartEntry :=
  match ws with
  | [] => acc
  | w :: ws =>
      let '(records, restarts) := acc in
      let restarts := if index mod interval =? 0
        then restarts ++ [mkRestart (timestamp_ns w) (as_u32 (index * 2)) (as_u32 index)]
        else restarts in
      let delta := match previous with None => 0 | Some p => sub64 (timestamp_ns w) p end in
      emit_dense interval (index + 1) (Some (timestamp_ns w)) ws
        (records ++ [as_u8 delta; as_u8 (value w)], restarts)
  end.

(** *** Grouped dense records *)

(** [slice.chunks(n)] *)
Fixpoint chunks_fuel {A} (fuel : nat) (n : nat) (l : list A) : list (list A) :=
  match fuel, l with
  | _, [] | O, _ => []
  | S fuel, _ :: _ => take n l :: chunks_fuel fuel n (drop n l)
  end.

Definition chunks {A} (n : nat) (l : list A) : list (list A) := chunks_fuel (length l) n l.

(** The differences of neighbours: [pair[1] - pair[0]] over [windows(2)]. *)
Fixpoint deltas (ws : list Word) : list Z :=
  match ws with
  | w :: (w' :: _) as rest => sub64 (timestamp_ns w') (timestamp_ns w) :: deltas rest
  | _ => []
  end.

(** [crates/signal_derived/src/derived_word_store/codec.rs:858-866] palette_index_bits *)
Definition palette_index_bits (palette_len : Z) : Z :=
  if palette_len <=? 1 then 0
  else if palette_len <=? 2 then 1
  else if palette_len <=? 4 then 2
  else if palette_len <=? 8 then 3
  else 4.

(** The distinct deltas in order of appearance, at most 16; whether all of them fit; and the
    length of the deltas as variable-length quantities.
    [crates/signal_derived/src/derived_word_store/codec.rs:783-799] encode_grouped (palette) *)
Fixpoint collect_palette (ds palette : list Z) (available : bool) (raw_timestamp_len : Z)
  : list Z * bool * Z :=
  match ds with
  | [] => (palette, available, raw_timestamp_len)
  | delta :: ds =>
      let raw_timestamp_len := raw_timestamp_len + encoded_len delta in
      if existsb (Z.eqb delta) palette then collect_palette ds palette available raw_timestamp_len
      else if Nat.eqb (length palette) 16 then collect_palette ds palette false raw_timestamp_len
      else collect_palette ds (palette ++ [delta]) available raw_timestamp_len
  end.

(** [crates/signal_derived/src/derived_word_store/codec.rs:868-877] write_packed_index *)
Definition write_packed_index (bytes : list Z) (index bits value : Z) : list Z :=
  let bit_offset := index * bits in
  let byte_index := bit_offset / 8 in
  let shift := bit_offset mod 8 in
  let encoded := Z.shiftl value shift mod 65536 in
  let bytes := alter (fun b => Z.lor b (as_u8 encoded)) (Z.to_nat byte_index) bytes in
  if 8 <? shift + bits
  then alter (fun b => Z.lor b (as_u8 (Z.shiftr encoded 8))) (Z.to_nat (byte_index + 1)) bytes
  else bytes.

(** [iter().position(..)], with 0 for the [expect] on a delta missing from the palette. *)
Fixpoint palette_position (palette : list Z) (delta : Z) : Z :=
  match palette with
  | [] => 0
  | p :: palette => if p =? delta then 0 else 1 + palette_position palette delta
  end.

Fixpoint pack_indices (palette : list Z) (bits index : Z) (ds : list Z) (bytes : list Z) : list Z :=
  match ds with
  | [] => bytes
  | delta :: ds =>
      pack_indices palette bits (index + 1) ds
        (write_packed_index bytes index bits (as_u8 (palette_position palette delta)))
  end.

(** The deltas and values of a group, alternating, after its first value. *)
Fixpoint raw_records (ws : list Word) (ds : list Z) : list Z :=
  match ws, ds with
  | w :: ws, delta :: ds => encode_u64 delta ++ [as_u8 (value w)] ++ raw_records ws ds
  | _, _ => []
  end.

(** The records of one group.
    [crates/signal_derived/src/derived_word_store/codec.rs:783-852] encode_grouped (group) *)
Definition group_records (group : list Word) : list Z :=
  let ds := deltas group in
  let '(palette, palette_available, raw_timestamp_len) := collect_palette ds [] true 0 in
  let palette_len := zlen palette in
  let raw_len := 1 + zlen group + raw_timestamp_len in
  let palette_bits := palette_index_bits palette_len in
  let packed_len := div_ceil (Z.max (zlen group - 1) 0 * palette_bits) 8 in
  let palette_len_bytes := if palette_available && (1 <? palette_len)
    then 2 + fold_right Z.add 0 (map encoded_len palette) + packed_len + zlen group
    else u64_max in
  let values := map (fun w => as_u8 (value w)) group in
  if palette_len =? 1 then 1 :: encode_u64 (default 0 (head palette)) ++ values
  else if palette_len_bytes <? raw_len then
    2 :: as_u8 palette_len :: concat (map encode_u64 palette)
      ++ pack_indices palette palette_bits 0 ds (replicate (Z.to_nat packed_len) 0) ++ values
  else 0 :: take 1 values ++ raw_records (tail group) ds.

Fixpoint emit_groups (interval record_index : Z) (groups : list (list Word))
    (acc : list Z * list RestartEntry) : option (list Z * list RestartEntry) :=
  match groups with
  | [] => Some acc
  | group :: groups =>
      let '(records, restarts) := acc in
      let timestamp := match group with w :: _ => timestamp_ns w | [] => 0 end in
      if zlen records <=? u32_max then
        emit_groups interval (record_index + interval) groups
          (records ++ group_records group,
           restarts ++ [mkRestart timestamp (zlen records) (as_u32 record_index)])
      else None
  end.

(** [crates/signal_derived/src/derived_word_store/codec.rs:765-856] encode_grouped_dense_records *)
Definition encode_grouped_dense_records (ws : list Word) (interval timestamp_bytes : Z)
  : option (list Z * list RestartEntry) :=
  let legacy_len := timestamp_bytes + zlen ws in
  grouped ← emit_groups interval 0 (chunks (Z.to_nat interval) ws) ([], []);
  if zlen (fst grouped) <? legacy_len then Some grouped else None.

(** The number of the words that carry a payload. *)
Definition words_with_payload (ws : list Word) : Z :=
  zlen (List.filter (fun w => negb (is_numeric w)) ws).

(** The records, restarts and tables of the block, and whether the time steps are grouped.
    [crates/signal_derived/src/derived_word_store/codec.rs:608-704] encode_validated_word_block_with_interval (records) *)
Definition emit_block (ws : list Word) (interval value_bytes timestamp_bytes : Z)
    (dense_byte_words : bool) : CodecResult (Emit * bool) :=
  let first := match ws with w :: _ => timestamp_ns w | [] => 0 end in
  let payload_count := words_with_payload ws in
  let payloads := if 0 <? payload_count then encode_u64 payload_count else [] in
  match (if dense_byte_words then encode_grouped_dense_records ws interval timestamp_bytes else None) with
  | Some (records, restarts) => Ok (mkEmit records restarts [] payloads first 0 0 0 0, true)
  | None =>
      if dense_byte_words then
        let '(records, restarts) := emit_dense interval 0 None ws ([], []) in
        Ok (mkEmit records restarts [] payloads first 0 0 0 0, false)
      else
        let? e := emit_words interval value_bytes 0 ws (mkEmit [] [] [] payloads first 0 0 0 0) in
        Ok (e, false)
  end.

(** [(n + 7) & !7] *)
Definition round_up_8 (n : Z) : Z := Z.land (n + 7) (Z.lnot 7).

(** The header with a zero checksum; the offsets of data in memory do not overflow 64 bits.
    [crates/signal_derived/src/derived_word_store/codec.rs:706-747] encode_validated_word_block_with_interval (header) *)
Definition block_header (block_sequence : Z) (ws : list Word) (value_bytes : Z) (e : Emit) (grouped : bool)
  : CodecResult WordBlockHeader :=
  let first := match ws with w :: _ => timestamp_ns w | [] => 0 end in
  let last := match last ws with Some w => timestamp_ns w | None => 0 end in
  let restart_table_offset := BLOCK_HEADER_SIZE + zlen (records e) in
  let duration_table_offset := restart_table_offset + zlen (emit_restarts e) * RESTART_ENTRY_SIZE in
  let unpadded_len := duration_table_offset + zlen (durations e) + zlen (payloads e) in
  let flags := Z.lor (Z.lor (if 0 <? emit_durations e then BLOCK_FLAG_HAS_DURATIONS else 0)
      (if 0 <? words_with_payload ws then BLOCK_FLAG_HAS_PAYLOADS else 0))
    (if grouped then BLOCK_FLAG_GROUPED_TIMESTAMPS else 0) in
  let? record_payload_len := to_u32 (zlen (records e)) "record payload" in
  let? restart_count := to_u32 (zlen (emit_restarts e)) "restart table" in
  let? restart_table_offset := to_u32 restart_table_offset "restart table offset" in
  let? duration_count := to_u32 (emit_durations e) "duration table" in
  let? duration_table_offset := to_u32 duration_table_offset "duration table offset" in
  let? block_len := to_u32 (round_up_8 unpadded_len) "word block" in
  Ok (mkHeader flags block_sequence first last (as_u32 (zlen ws)) (as_u8 value_bytes) record_payload_len
        restart_count restart_table_offset duration_count duration_table_offset block_len 0).

(** [header.crc32c = crc] *)
Definition with_crc (crc : Z) (h : WordBlockHeader) : WordBlockHeader :=
  mkHeader (flags h) (sequence h) (first_timestamp_ns h) (last_timestamp_ns h) (word_count h)
    (value_bytes h) (record_payload_len h) (restart_count h) (restart_table_offset h)
    (duration_count h) (duration_table_offset h) (block_len h) crc.

(** The output before the header is written: [resize] extends it with zeros to the block's length.
    [crates/signal_derived/src/derived_word_store/codec.rs:749-757] encode_validated_word_block_with_interval (output) *)
Definition block_output (e : Emit) (block_len : Z) : list Z :=
  let output := replicate 72 0 ++ records e ++ concat (map restart_bytes (emit_restarts e))
    ++ durations e ++ payloads e in
  take (Z.to_nat block_len) output ++ replicate (Z.to_nat block_len - length output) 0.

(** The bytes of the block and its metadata; the words are not empty (an index panic otherwise,
    given as [EmptyBlock], as are the writes of the header into an output shorter than it).
    [crates/signal_derived/src/derived_word_store/codec.rs:597-763] encode_validated_word_block_with_interval *)
Definition encode_validated (block_sequence : Z) (ws : list Word)
    (interval value_bytes timestamp_bytes : Z) (dense_byte_words : bool)
  : CodecResult (EncodedBlockMetadata * list Z) :=
  match ws with
  | [] => Err EmptyBlock
  | _ :: _ =>
      let? (e, grouped) := emit_block ws interval value_bytes timestamp_bytes dense_byte_words in
      let? header := block_header block_sequence ws value_bytes e grouped in
      let? output := ok_or (write_to header (block_output e (block_len header))) EmptyBlock in
      let? crc := ok_or (block_checksum output BLOCK_CHECKSUM_OFFSET) EmptyBlock in
      let header := with_crc crc header in
      let? output := ok_or (write_to header output) EmptyBlock in
      Ok (mkMetadata header (emit_restarts e), output)
  end.

(** [crates/signal_derived/src/derived_word_store/codec.rs:399-416] WordBlockBuilder::encode *)
Definition encode (b : WordBlockBuilder) (sequence : Z) : CodecResult (EncodedBlockMetadata * list Z) :=
  let z := sizing b in
  encode_validated sequence (words b) (restart_interval (config b)) (value_width (max_value z))
    (timestamp_bytes z)
    ((sized_durations z =? 0) && (payload_count z =? 0) && (max_value z <=? u8_max)
     && (timestamp_bytes z =? zlen (words b))).
