(* ===== verification/WordDecode.v ===== *)
(** The decoding half of [crates/signal_derived/src/derived_word_store/codec.rs]: the parser of a
    block's tables, the record decoder, whole-block decoding and the window query that starts at
    a restart point. *)

From S2P Require Import Prelude Events Crc32c Vlq WordFormat WordEncode.

(** ** Text *)

Definition continuation (b : Z) : bool := (0x80 <=? b) && (b <=? 0xbf).

Definition between (lo b hi : Z) : bool := (lo <=? b) && (b <=? hi).

(** [std::str::from_utf8] accepts the bytes. *)
Fixpoint utf8_valid (l : list Z) : bool :=
  match l with
  | [] => true
  | a :: l =>
      if a <? 0x80 then utf8_valid l
      else if between 0xc2 a 0xdf then
        match l with b :: l => continuation b && utf8_valid l | _ => false end
      else if between 0xe0 a 0xef then
        match l with
        | b :: c :: l =>
            (if a =? 0xe0 then between 0xa0 b 0xbf
             else if a =? 0xed then between 0x80 b 0x9f else continuation b)
            && continuation c && utf8_valid l
        | _ => false
        end
      else if between 0xf0 a 0xf4 then
        match l with
        | b :: c :: d :: l =>
            (if a =? 0xf0 then between 0x90 b 0xbf
             else if a =? 0xf4 then between 0x80 b 0x8f else continuation b)
            && continuation c && continuation d && utf8_valid l
        | _ => false
        end
      else false
  end.

(** ** The tables *)

(** [crates/signal_derived/src/derived_word_store/codec.rs:992-999] ParsedWordBlock *)
Record ParsedWordBlock := mkParsed {
  parsed_header : WordBlockHeader;
  parsed_restarts : list RestartEntry;
  record_end : Z;
  duration_offset : Z;
  parsed_block_len : Z;
  parsed_value_bytes : Z
}.

(** Neighbours strictly increasing in index and offset, and not decreasing in time. *)
Fixpoint restarts_ordered (l : list RestartEntry) : bool :=
  match l with
  | a :: (b :: _) as rest =>
      negb ((record_index b <=? record_index a) || (payload_offset b <=? payload_offset a)
        || (restart_timestamp_ns b <? restart_timestamp_ns a)) && restarts_ordered rest
  | _ => true
  end.

(** [crates/signal_derived/src/derived_word_store/codec.rs:1377-1399] validate_restart_order *)
Definition validate_restart_order (restarts : list RestartEntry) (word_count payload_len : Z)
  : CodecResult unit :=
  if match restarts with
     | [] => true
     | r :: _ => negb (record_index r =? 0) || negb (payload_offset r =? 0)
     end
  then Err (invalid "restart table does not begin at the first record")
  else if negb (restarts_ordered restarts) then Err (invalid "restart entries are not strictly ordered")
  else if match last restarts with
          | Some r => (word_count <=? record_index r) || (payload_len <=? payload_offset r)
          | None => false
          end
  then Err (invalid "restart entry is outside the record payload")
  else Ok tt.

Fixpoint read_restarts (n : nat) (bytes : list Z) (offset : Z) : CodecResult (list RestartEntry) :=
  match n with
  | O => Ok []
  | S n =>
      let? r := read_restart bytes offset in
      let? rest := read_restarts n bytes (offset + RESTART_ENTRY_SIZE) in
      Ok (r :: rest)
  end.

(** The checked sums of 32-bit fields cannot overflow 64 bits.
    [crates/signal_derived/src/derived_word_store/codec.rs:1207-1266] parse_word_block *)
Definition parse_word_block (bytes : list Z) : CodecResult ParsedWordBlock :=
  let? header := from_bytes bytes in
  let block_len := block_len header in
  if negb (block_len =? zlen bytes) || (block_len <? BLOCK_HEADER_SIZE)
  then Err (invalid "word-block length does not match its header")
  else
    let? actual_checksum := ok_or (block_checksum bytes BLOCK_CHECKSUM_OFFSET) Truncated in
    if negb (actual_checksum =? crc32c header)
    then Err (ChecksumMismatch (crc32c header) actual_checksum)
    else if word_count header =? 0 then Err EmptyBlock
    else
      let value_bytes := value_bytes header in
      if negb ((value_bytes =? 1) || (value_bytes =? 2) || (value_bytes =? 4) || (value_bytes =? 8))
      then Err (invalid "invalid value width")
      else if negb (Z.land (flags header) (Z.lnot 7) =? 0)
      then Err (invalid "word block contains unsupported flags")
      else
        let record_end := BLOCK_HEADER_SIZE + record_payload_len header in
        let restart_offset := restart_table_offset header in
        let restart_end := restart_offset + restart_count header * RESTART_ENTRY_SIZE in
        let duration_offset := duration_table_offset header in
        if negb (restart_offset =? record_end) || negb (duration_offset =? restart_end)
           || (block_len <? duration_offset)
        then Err (invalid "word-block table offsets are inconsistent")
        else
          let? restarts := read_restarts (Z.to_nat (restart_count header)) bytes restart_offset in
          let? _ := validate_restart_order restarts (word_count header) (record_payload_len header) in
          Ok (mkParsed header restarts record_end duration_offset block_len value_bytes).

(** ** The record decoder *)

(** [deltas] holds the palette; its length is [palette_len].
    [crates/signal_derived/src/derived_word_store/codec.rs:1001-1012] GroupTimestampDecoder *)
Inductive GroupTimestampDecoder :=
| Raw
| Constant (delta : Z)
| Palette (deltas : list Z) (bits packed_offset delta_count next_delta : Z).

(** [crates/signal_derived/src/derived_word_store/codec.rs:1015-1024] GroupTimestampDecoder::is_complete *)
Definition is_complete (g : GroupTimestampDecoder) : bool :=
  match g with
  | Raw | Constant _ => true
  | Palette _ _ _ delta_count next_delta => next_delta =? delta_count
  end.

(** The bytes and the parsed tables are arguments of the operations.
    [crates/signal_derived/src/derived_word_store/codec.rs:1027-1035] RecordDecoder *)
Record RecordDecoder := mkDecoder {
  cursor : Z;
  timestamp : Z;
  next_restart_index : nat;
  group_timestamps : GroupTimestampDecoder;
  skip_initial_legacy_delta : bool
}.

(** A restart index out of range panics; the callers only use indices of the table.
    [crates/signal_derived/src/derived_word_store/codec.rs:1038-1054] RecordDecoder::new *)
Definition RecordDecoder_new (parsed : ParsedWordBlock) (restart_index : nat) (skip : bool)
  : CodecResult RecordDecoder :=
  let? restart := ok_or (parsed_restarts parsed !! restart_index) Truncated in
  Ok (mkDecoder (BLOCK_HEADER_SIZE + payload_offset restart) (restart_timestamp_ns restart)
        restart_index Raw skip).

(** [&self.bytes[..self.parsed.record_end]] *)
Definition record_bytes (bytes : list Z) (parsed : ParsedWordBlock) : list Z :=
  take (Z.to_nat (record_end parsed)) bytes.

(** The first byte is in range (an index panic otherwise, given as [Truncated]).
    [crates/signal_derived/src/derived_word_store/codec.rs:1198-1205] read_packed_index *)
Definition read_packed_index (bytes : list Z) (packed_offset index bits : Z) : CodecResult Z :=
  let bit_offset := index * bits in
  let byte_index := packed_offset + bit_offset / 8 in
  let shift := bit_offset mod 8 in
  let? low := ok_or (byte_at bytes byte_index) Truncated in
  let high := default 0 (byte_at bytes (byte_index + 1)) in
  Ok (as_u8 (Z.land (Z.shiftr (Z.lor low (Z.shiftl high 8)) shift) (Z.shiftl 1 bits - 1))).

Fixpoint decode_u64s (n : nat) (input : list Z) (cursor : Z) : CodecResult (list Z * Z) :=
  match n with
  | O => Ok ([], cursor)
  | S n =>
      let? (v, cursor) := decode_u64 input cursor in
      let? (vs, cursor) := decode_u64s n input cursor in
      Ok (v :: vs, cursor)
  end.

(** The decoder of the group and the cursor behind its packed indices.
    [crates/signal_derived/src/derived_word_store/codec.rs:1156-1195] decode_timestamp_palette *)
Definition decode_timestamp_palette (bytes : list Z) (parsed : ParsedWordBlock)
    (next_restart_index : nat) (cursor record_index : Z) : CodecResult (GroupTimestampDecoder * Z) :=
  let? palette_len := ok_or (byte_at bytes cursor) Truncated in
  let cursor := cursor + 1 in
  if negb ((2 <=? palette_len) && (palette_len <=? 16))
  then Err (invalid "invalid timestamp palette length")
  else
    let? (deltas, cursor) :=
      decode_u64s (Z.to_nat palette_len) (record_bytes bytes parsed) cursor in
    let group_end := match parsed_restarts parsed !! S next_restart_index with
      | Some restart => WordFormat.record_index restart
      | None => word_count (parsed_header parsed)
      end in
    if group_end <? record_index + 1 then Err (invalid "timestamp restart group is invalid")
    else
      let delta_count := group_end - (record_index + 1) in
      let bits := palette_index_bits palette_len in
      let packed_len := div_ceil (delta_count * bits) 8 in
      let packed_offset := cursor in
      let cursor := cursor + packed_len in
      if record_end parsed <? cursor then Err Truncated
      else Ok (Palette deltas bits packed_offset delta_count 0, cursor).

(** [crates/signal_derived/src/derived_word_store/codec.rs:1421-1436] read_value *)
Definition read_value (bytes : list Z) (cursor record_end width : Z) : CodecResult (Z * Z) :=
  let end_ := cursor + width in
  let? encoded := ok_or (slice bytes cursor (Z.min end_ record_end)) Truncated in
  if negb (zlen encoded =? width) then Err Truncated
  else Ok (from_le_bytes encoded, end_).

(** The grouped layout: the group's mode byte at a restart, a time step otherwise.
    [crates/signal_derived/src/derived_word_store/codec.rs:1064-1118] RecordDecoder::next (grouped) *)
Definition next_grouped (bytes : list Z) (parsed : ParsedWordBlock) (record_index payload_offset_ : Z)
    (at_restart : option RestartEntry) (d : RecordDecoder) : CodecResult RecordDecoder :=
  match at_restart with
  | Some restart =>
      if negb (is_complete (group_timestamps d))
      then Err (invalid "timestamp palette extends beyond its restart group")
      else if negb (payload_offset restart =? payload_offset_)
      then Err (invalid "restart entry does not match record payload")
      else
        let? mode := ok_or (byte_at bytes (cursor d)) Truncated in
        let cursor := cursor d + 1 in
        let? (group, cursor) :=
          (if mode =? 0 then Ok (Raw, cursor)
           else if mode =? 1 then
             let? (delta, cursor) := decode_u64 (record_bytes bytes parsed) cursor in
             Ok (Constant delta, cursor)
           else if mode =? 2 then
             decode_timestamp_palette bytes parsed (next_restart_index d) cursor record_index
           else Err (invalid "invalid grouped timestamp mode")) in
        Ok (mkDecoder cursor (restart_timestamp_ns restart) (S (next_restart_index d)) group
              (skip_initial_legacy_delta d))
  | None =>
      let? (delta, cursor, group) :=
        (match group_timestamps d with
         | Raw =>
             let? (delta, cursor) := decode_u64 (record_bytes bytes parsed) (cursor d) in
             Ok (delta, cursor, Raw)
         | Constant delta => Ok (delta, cursor d, Constant delta)
         | Palette deltas bits packed_offset delta_count next_delta =>
             if delta_count <=? next_delta
             then Err (invalid "timestamp palette is shorter than its group")
             else
               let? palette_index := read_packed_index bytes packed_offset next_delta bits in
               let? delta := ok_or (byte_at deltas palette_index)
                               (invalid "timestamp palette index is out of bounds") in
               Ok (delta, cursor d, Palette deltas bits packed_offset delta_count (next_delta + 1))
         end) in
      let? timestamp := ok_or (checked_add64 (timestamp d) delta) (invalid "timestamp delta overflow") in
      Ok (mkDecoder cursor timestamp (next_restart_index d) group (skip_initial_legacy_delta d))
  end.

(** The ungrouped layout: a time step, checked against the restart entry at a restart.
    [crates/signal_derived/src/derived_word_store/codec.rs:1120-1144] RecordDecoder::next (ungrouped) *)
Definition next_legacy (bytes : list Z) (parsed : ParsedWordBlock) (record_index payload_offset_ : Z)
    (at_restart : option RestartEntry) (d : RecordDecoder) : CodecResult RecordDecoder :=
  let? (delta, cursor) := decode_u64 (record_bytes bytes parsed) (cursor d) in
  let? timestamp :=
    (if skip_initial_legacy_delta d then
       if (record_index =? 0) && negb (delta =? 0) then Err (invalid "first timestamp delta is not zero")
       else Ok (timestamp d)
     else if record_index =? 0 then
       if negb (delta =? 0) then Err (invalid "first timestamp delta is not zero")
       else Ok (timestamp d)
     else ok_or (checked_add64 (timestamp d) delta) (invalid "timestamp delta overflow")) in
  match at_restart with
  | Some restart =>
      if negb (restart_timestamp_ns restart =? timestamp) || negb (payload_offset restart =? payload_offset_)
      then Err (invalid "restart entry does not match record payload")
      else Ok (mkDecoder cursor timestamp (S (next_restart_index d)) (group_timestamps d) false)
  | None => Ok (mkDecoder cursor timestamp (next_restart_index d) (group_timestamps d) false)
  end.

(** [crates/signal_derived/src/derived_word_store/codec.rs:1056-1154] RecordDecoder::next *)
Definition next (bytes : list Z) (parsed : ParsedWordBlock) (record_index : Z) (d : RecordDecoder)
  : CodecResult (Word * RecordDecoder) :=
  let payload_offset := as_u32 (cursor d - BLOCK_HEADER_SIZE) in
  let at_restart := match parsed_restarts parsed !! next_restart_index d with
    | Some restart => if WordFormat.record_index restart =? record_index then Some restart else None
    | None => None
    end in
  let? d :=
    (if negb (Z.land (flags (parsed_header parsed)) BLOCK_FLAG_GROUPED_TIMESTAMPS =? 0)
     then next_grouped bytes parsed record_index payload_offset at_restart d
     else next_legacy bytes parsed record_index payload_offset at_restart d) in
  let? (value, cursor) :=
    read_value bytes (cursor d) (record_end parsed) (parsed_value_bytes parsed) in
  Ok (Word_new value (timestamp d),
      mkDecoder cursor (timestamp d) (next_restart_index d) (group_timestamps d)
        (skip_initial_legacy_delta d)).

Fixpoint decode_records (bytes : list Z) (parsed : ParsedWordBlock) (n : nat) (record_index : Z)
    (d : RecordDecoder) : CodecResult (list Word * RecordDecoder) :=
  match n with
  | O => Ok ([], d)
  | S n =>
      let? (w, d) := next bytes parsed record_index d in
      let? (ws, d) := decode_records bytes parsed n (record_index + 1) d in
      Ok (w :: ws, d)
  end.

(** ** Durations and payloads *)

Definition with_duration (duration : Z) (w : Word) : Word :=
  mkWord (value w) (payload w) (timestamp_ns w) duration.

Definition with_payload (p : WordPayload) (w : Word) : Word :=
  mkWord (value w) (Some p) (timestamp_ns w) (duration_ns w).

(** [record_index.checked_sub(first)] and [words.get_mut]. *)
Definition update_word (f : Word -> Word) (record_index first : Z) (ws : list Word) : list Word :=
  if first <=? record_index then alter f (Z.to_nat (record_index - first)) ws else ws.

(** [None] in [previous] at the first exception.
    [crates/signal_derived/src/derived_word_store/codec.rs:1275-1303] apply_durations (durations) *)
Fixpoint apply_duration_entries (n : nat) (bytes : list Z) (word_count first : Z)
    (previous : option Z) (cursor : Z) (ws : list Word) : CodecResult (list Word * Z) :=
  match n with
  | O => Ok (ws, cursor)
  | S n =>
      let? (index_delta, cursor) := decode_u64 bytes cursor in
      let? record_index :=
        (match previous with
         | None => Ok index_delta
         | Some previous =>
             if index_delta =? 0 then Err (invalid "duration exception indices are not increasing")
             else ok_or (checked_add64 previous index_delta) (invalid "duration index overflow")
         end) in
      let? (duration_ns, cursor) := decode_u64 bytes cursor in
      if duration_ns =? 0 then Err (invalid "zero duration stored as an exception")
      else if word_count <=? record_index then Err (invalid "duration exception index is out of bounds")
      else
        apply_duration_entries n bytes word_count first (Some record_index) cursor
          (update_word (with_duration duration_ns) record_index first ws)
  end.

(** One payload at the cursor.
    [crates/signal_derived/src/derived_word_store/codec.rs:1325-1343] apply_durations (payload) *)
Definition read_payload (bytes : list Z) (cursor : Z) : CodecResult (WordPayload * Z) :=
  let? kind := ok_or (byte_at bytes cursor) Truncated in
  let? (length, cursor) := decode_u64 bytes (cursor + 1) in
  let? end_ := ok_or (checked_add64 cursor length) (invalid "word payload length overflow") in
  let? value := ok_or (slice bytes cursor end_) Truncated in
  if kind =? 1 then Ok (Bytes value, end_)
  else if kind =? 2 then
    if utf8_valid value then Ok (Text value, end_)
    else Err (invalid "word text payload is not UTF-8")
  else Err (invalid "unknown word payload kind").

(** [crates/signal_derived/src/derived_word_store/codec.rs:1308-1351] apply_durations (payloads) *)
Fixpoint apply_payload_entries (n : nat) (bytes : list Z) (word_count first : Z)
    (previous : option Z) (cursor : Z) (ws : list Word) : CodecResult (list Word * Z) :=
  match n with
  | O => Ok (ws, cursor)
  | S n =>
      let? (index_delta, cursor) := decode_u64 bytes cursor in
      let? record_index :=
        (match previous with
         | None => Ok index_delta
         | Some previous =>
             if index_delta =? 0 then Err (invalid "word payload indices are not increasing")
             else ok_or (checked_add64 previous index_delta) (invalid "word payload index overflow")
         end) in
      if word_count <=? record_index then Err (invalid "word payload index is out of bounds")
      else
        let? (payload, cursor) := read_payload bytes cursor in
        apply_payload_entries n bytes word_count first (Some record_index) cursor
          (update_word (with_payload payload) record_index first ws)
  end.

(** [usize] is 64 bits wide, so a decoded quantity always converts.
    [crates/signal_derived/src/derived_word_store/codec.rs:1268-1361] apply_durations *)
Definition apply_durations (bytes : list Z) (parsed : ParsedWordBlock) (first : Z) (ws : list Word)
  : CodecResult (list Word) :=
  let header := parsed_header parsed in
  let? (ws, cursor) :=
    apply_duration_entries (Z.to_nat (duration_count header)) bytes (word_count header) first None
      (duration_offset parsed) ws in
  let? (ws, cursor) :=
    (if negb (Z.land (flags header) BLOCK_FLAG_HAS_PAYLOADS =? 0) then
       let? (payload_count, cursor) := decode_u64 bytes cursor in
       apply_payload_entries (Z.to_nat payload_count) bytes (word_count header) first None cursor ws
     else Ok (ws, cursor)) in
  let? padding := ok_or (slice bytes cursor (parsed_block_len parsed)) Truncated in
  if (7 <? zlen padding) || existsb (fun byte => negb (byte =? 0)) padding
  then Err (invalid "invalid word-block padding")
  else Ok ws.

(** ** Whole blocks and windows *)

(** [crates/signal_derived/src/derived_word_store/codec.rs:534-539] DecodedWordBlock *)
Record DecodedWordBlock := mkDecoded {
  decoded_header : WordBlockHeader;
  decoded_restarts : list RestartEntry;
  decoded_words : list Word
}.

(** [crates/signal_derived/src/derived_word_store/codec.rs:879-907] decode_word_block *)
Definition decode_word_block (bytes : list Z) : CodecResult DecodedWordBlock :=
  let? parsed := parse_word_block bytes in
  let header := parsed_header parsed in
  let? d := RecordDecoder_new parsed 0 false in
  let? (ws, d) := decode_records bytes parsed (Z.to_nat (word_count header)) 0 d in
  if negb (cursor d =? record_end parsed)
     || negb (Nat.eqb (next_restart_index d) (length (parsed_restarts parsed)))
     || negb (is_complete (group_timestamps d))
  then Err (invalid "record payload length is inconsistent")
  else if negb (timestamp d =? last_timestamp_ns header)
  then Err (invalid "last timestamp does not match block header")
  else
    let? ws := apply_durations bytes parsed 0 ws in
    Ok (mkDecoded header (parsed_restarts parsed) ws).

(** [crates/signal_derived/src/derived_word_store/codec.rs:541-547] DecodedWordRange *)
Record DecodedWordRange := mkRange {
  range_header : WordBlockHeader;
  range_words : list Word;
  complete : bool;
  decoded_records : Z
}.

(** The accumulators of the window loop; the two predecessors are the last words before the
    window. *)
Record Window := mkWindow {
  previous_predecessor : option (Z * Word);
  predecessor : option (Z * Word);
  window_selected : list (Z * Word);
  window_decoded : Z;
  window_complete : bool
}.

(** The predecessors enter the selection before the first selected word.
    [crates/signal_derived/src/derived_word_store/codec.rs:951-960] decode_word_block_range (predecessors) *)
Definition select_predecessors (max_context_words : Z) (win : Window) : list (Z * Word) :=
  match window_selected win with
  | [] =>
      let selected := match previous_predecessor win with Some p => [p] | None => [] end in
      match predecessor win with
      | Some p => if zlen selected <? max_context_words then selected ++ [p] else selected
      | None => selected
      end
  | _ :: _ => window_selected win
  end.

(** [crates/signal_derived/src/derived_word_store/codec.rs:942-969] decode_word_block_range (loop) *)
Fixpoint window_loop (bytes : list Z) (parsed : ParsedWordBlock) (start_ns end_ns max_context_words : Z)
    (n : nat) (record_index : Z) (d : RecordDecoder) (win : Window) : CodecResult Window :=
  match n with
  | O => Ok win
  | S n =>
      let? (w, d) := next bytes parsed record_index d in
      let decoded := window_decoded win + 1 in
      if timestamp_ns w <? start_ns then
        window_loop bytes parsed start_ns end_ns max_context_words n (record_index + 1) d
          (mkWindow (predecessor win) (Some (record_index, w)) (window_selected win) decoded
             (window_complete win))
      else
        let selected := select_predecessors max_context_words win in
        let '(previous_predecessor, predecessor) := match window_selected win with
          | [] => (None, None)
          | _ => (previous_predecessor win, predecessor win)
          end in
        if max_context_words <=? zlen selected then
          Ok (mkWindow previous_predecessor predecessor selected decoded false)
        else
          let selected := selected ++ [(record_index, w)] in
          let win := mkWindow previous_predecessor predecessor selected decoded (window_complete win) in
          if end_ns <? timestamp_ns w then Ok win
          else window_loop bytes parsed start_ns end_ns max_context_words n (record_index + 1) d win
  end.

Fixpoint restarts_before (start_ns : Z) (l : list RestartEntry) : nat :=
  match l with
  | [] => O
  | r :: l => if restart_timestamp_ns r <? start_ns then S (restarts_before start_ns l) else O
  end.

(** [crates/signal_derived/src/derived_word_store/codec.rs:913-990] decode_word_block_range *)
Definition decode_word_block_range (bytes : list Z) (start_ns end_ns max_context_words : Z)
  : CodecResult DecodedWordRange :=
  if end_ns <? start_ns then Err (invalid "range start is after range end")
  else if max_context_words =? 0
  then Err (InvalidConfiguration "max_context_words must be greater than zero")
  else
    let? parsed := parse_word_block bytes in
    let restart_index := (restarts_before start_ns (parsed_restarts parsed) - 1)%nat in
    let? restart := ok_or (parsed_restarts parsed !! restart_index) Truncated in
    let? d := RecordDecoder_new parsed restart_index true in
    let first := WordFormat.record_index restart in
    let? win :=
      window_loop bytes parsed start_ns end_ns max_context_words
        (Z.to_nat (word_count (parsed_header parsed) - first)) first d
        (mkWindow None None [] 0 true) in
    let selected := select_predecessors max_context_words win in
    let first_record_index := match selected with (index, _) :: _ => index | [] => 0 end in
    let? ws := apply_durations bytes parsed first_record_index (map snd selected) in
    Ok (mkRange (parsed_header parsed) ws (window_complete win) (window_decoded win)).
