(* ===== verification/WordIntegrity.v ===== *)
(** Damage to a stored word block: the checksum makes the parser refuse it. *)

From S2P Require Import Prelude Events Crc32c Vlq WordFormat WordEncode WordDecode.

Section Front.
Context (pre : list Z).

Lemma slice_front x a b : b <= zlen pre -> slice (pre ++ x) a b = slice pre a b.
Proof.
  intros Hb. unfold slice. rewrite (proj2 (Z.leb_le b (zlen pre)) Hb), zlen_app.
  pose proof (zlen_nonneg x). rewrite (proj2 (Z.leb_le b _)) by lia.
  destruct (Z.leb_spec 0 a), (Z.leb_spec a b); try done. cbn [andb]. f_equal.
  unfold zlen in *. rewrite drop_app_le by lia. rewrite take_app_le; [done|]. rewrite length_drop. lia.
Qed.

Lemma byte_at_front {x : list Z} i : i < zlen pre -> byte_at (pre ++ x) i = byte_at pre i.
Proof.
  intros Hi. unfold byte_at. destruct (Z.ltb_spec i 0); [done|]. apply lookup_app_l. unfold zlen in Hi. lia.
Qed.

(** The header is read from the first 72 bytes. *)
Lemma from_bytes_front x : 72 <= zlen pre -> from_bytes (pre ++ x) = from_bytes pre.
Proof.
  intros Hlen. unfold from_bytes, get_u16, get_u32, get_u64, BLOCK_CHECKSUM_OFFSET, BLOCK_HEADER_SIZE.
  rewrite !slice_front, !byte_at_front by lia. rewrite zlen_app. pose proof (zlen_nonneg x).
  by rewrite !(proj2 (Z.ltb_ge _ _)) by lia.
Qed.
End Front.

(** The checksum of a block split behind the header. *)
Lemma block_checksum_split pre mid :
  bytes_ok pre -> bytes_ok mid -> 68 <= zlen pre ->
  exists head tail, bytes_ok head /\ bytes_ok tail /\
    block_checksum (pre ++ mid) BLOCK_CHECKSUM_OFFSET = Some (checksum_parts [(head ++ [0; 0; 0; 0] ++ tail) ++ mid]) /\
    head = take 64 pre /\ tail = drop 68 pre.
Proof.
  intros Hp Hm Hlen. exists (take 64 pre), (drop 68 pre). unfold zlen in Hlen.
  assert (Hsplit : pre = take 64 pre ++ take 4 (drop 64 pre) ++ drop 68 pre).
  { change 68%nat with (64 + 4)%nat. rewrite <- drop_drop, (take_drop 4), (take_drop 64). done. }
  assert (Hok := Hp). rewrite Hsplit, !bytes_ok_app in Hok. destruct Hok as (H1 & H2 & H3).
  split_and!; try done. rewrite Hsplit at 1. rewrite <- !app_assoc.
  replace BLOCK_CHECKSUM_OFFSET with (zlen (take 64 pre)).
  2: { unfold zlen. rewrite length_take. unfold BLOCK_CHECKSUM_OFFSET. lia. }
  rewrite block_checksum_field; [done|done|done|by apply bytes_ok_app|].
  rewrite length_take, length_drop. lia.
Qed.

Lemma parse_checksum bytes p :
  parse_word_block bytes = Ok p ->
  from_bytes bytes = Ok (parsed_header p) /\
  block_checksum bytes BLOCK_CHECKSUM_OFFSET = Some (crc32c (parsed_header p)) /\
  block_len (parsed_header p) = zlen bytes /\ BLOCK_HEADER_SIZE <= block_len (parsed_header p).
Proof.
  unfold parse_word_block. destruct (from_bytes bytes) as [h|]; [|done].
  destruct (negb (block_len h =? zlen bytes) || (block_len h <? BLOCK_HEADER_SIZE)) eqn:Hl; [done|].
  apply orb_false_iff in Hl as [Hl1%negb_false_iff%Z.eqb_eq Hl2%Z.ltb_ge].
  destruct (block_checksum bytes BLOCK_CHECKSUM_OFFSET) as [actual|]; [|done]. cbn [ok_or].
  destruct (Z.eqb_spec actual (crc32c h)) as [->|]; [|done]. cbn [negb].
  repeat match goal with
  | |- (if ?c then Err _ else _) = _ -> _ => destruct c; [done|]
  end.
  destruct (read_restarts _ _ _) as [rs|]; [|done].
  destruct (validate_restart_order _ _ _); [|done]. by intros [= <-].
Qed.

(** C28. If a block is accepted, then any change confined to four consecutive bytes behind its
    header makes decoding fail with the checksum error, which reports the stored checksum. *)
Theorem corrupt_block_rejected pre burst burst' post p :
  bytes_ok pre -> bytes_ok burst -> bytes_ok burst' -> bytes_ok post -> 72 <= zlen pre ->
  length burst = length burst' -> (length burst <= 4)%nat -> burst <> burst' ->
  parse_word_block (pre ++ burst ++ post) = Ok p ->
  exists actual, actual <> crc32c (parsed_header p) /\
    decode_word_block (pre ++ burst' ++ post) = Err (ChecksumMismatch (crc32c (parsed_header p)) actual).
Proof.
  intros H1 H2 H3 H4 Hlen Heq Hle Hne Hparse. apply parse_checksum in Hparse as (Hh & Hc & Hl & Hsize).
  assert (Hbl : zlen (pre ++ burst' ++ post) = block_len (parsed_header p)).
  { rewrite Hl, !zlen_app. unfold zlen. by rewrite Heq. }
  rewrite from_bytes_front in Hh by done. set (h := parsed_header p) in *.
  destruct (block_checksum_split pre (burst ++ post)) as (head & tail & Hok1 & Hok2 & Hc1 & -> & ->);
    [done|by apply bytes_ok_app|lia|].
  destruct (block_checksum_split pre (burst' ++ post)) as (head & tail & _ & _ & Hc2 & -> & ->);
    [done|by apply bytes_ok_app|lia|].
  rewrite Hc1 in Hc. injection Hc as Hc.
  set (actual := checksum_parts [_ ++ burst' ++ post]) in Hc2. exists actual.
  assert (Hdiff : actual <> crc32c h).
  { rewrite <- Hc. intros Ha. symmetry in Ha. revert Ha. apply checksum_burst; try done.
    rewrite !bytes_ok_app. split_and!; try done. repeat (apply bytes_ok_cons; split; [ints|]); auto with ints. }
  split; [done|]. unfold decode_word_block, parse_word_block.
  rewrite from_bytes_front by done. rewrite Hh, Hbl, Z.eqb_refl. cbn [negb orb].
  rewrite (proj2 (Z.ltb_ge _ _)) by lia. rewrite Hc2. cbn [ok_or].
  by rewrite (proj2 (Z.eqb_neq _ _) Hdiff).
Qed.

(** A block of two words, seven bytes into its records. *)
Definition intact_block : list Z :=
  match encode (mkBuilder (mkConfig 64 2 65536 1000000 u64_max) [mkWord 7 None 100 0; mkWord 30 None 105 0]
    (mkSizing 2 0 0 0 0 0 0 30)) 3 with
  | Ok (_, bytes) => bytes
  | Err _ => []
  end.

Definition intact_parse : ParsedWordBlock :=
  match parse_word_block intact_block with
  | Ok p => p
  | Err _ => mkParsed (mkHeader 0 0 0 0 0 0 0 0 0 0 0 0 0) [] 0 0 0 0
  end.

Lemma corrupt_block_rejected_witness :
  exists actual, actual <> crc32c (parsed_header intact_parse) /\
    decode_word_block (take 73 intact_block ++ [8] ++ drop 74 intact_block)
      = Err (ChecksumMismatch (crc32c (parsed_header intact_parse)) actual).
Proof.
  apply (corrupt_block_rejected (take 73 intact_block) (take 1 (drop 73 intact_block)) [8] (drop 74 intact_block));
    try (apply bytes_okb_spec; vm_compute; reflexivity).
  - vm_compute. discriminate.
  - vm_compute. reflexivity.
  - vm_compute. lia.
  - vm_compute. discriminate.
  - vm_compute. reflexivity.
Defined.
