(* ===== verification/WordRecords.v ===== *)
(** The record layouts of a word block and their decoding: what the encoder's loops produce, as
    functions of the words alone, and that the record decoder reads the words back from them. *)

From S2P Require Import Prelude Vlq Events WordFormat WordEncode WordDecode.

#[global] Arguments encode_u64 value : simpl never.
#[global] Arguments decode_u64 input cursor : simpl never.
#[global] Arguments append_value value width : simpl never.

(** A word without its duration and payload, as the record decoder returns it. *)
Definition plain (w : Word) : Word := Word_new (value w) (timestamp_ns w).

(** The words of a block, from the previous time stamp: within 64 bits, not decreasing in time,
    and with values that fit the width. *)
Fixpoint records_ok (width prev : Z) (ws : list Word) : Prop :=
  match ws with
  | [] => True
  | w :: ws => 0 <= value w < 256 ^ width /\ prev <= timestamp_ns w <= u64_max /\
      records_ok width (timestamp_ns w) ws
  end.

Definition width_ok (width : Z) : Prop := width = 1 \/ width = 2 \/ width = 4 \/ width = 8.

Lemma last_app_default {A} (l1 l2 : list A) (f : A -> Z) prev :
  default prev (f <$> last (l1 ++ l2)) = default (default prev (f <$> last l1)) (f <$> last l2).
Proof. rewrite last_app. by destruct (last l2). Qed.

Lemma records_ok_app width prev l1 l2 :
  records_ok width prev (l1 ++ l2) <->
  records_ok width prev l1 /\ records_ok width (default prev (timestamp_ns <$> last l1)) l2.
Proof.
  revert prev. induction l1 as [|w l1 IH]; intros prev; [cbn; tauto|]. cbn [app records_ok].
  rewrite IH, last_cons. destruct (last l1); cbn; tauto.
Qed.

Lemma records_ok_weaken width prev prev' ws :
  prev' <= prev -> records_ok width prev ws -> records_ok width prev' ws.
Proof. intros H. destruct ws; cbn; [done|]. intros (? & ? & ?). split_and!; done || lia. Qed.

Lemma records_ok_last width prev ws :
  records_ok width prev ws -> prev <= default prev (timestamp_ns <$> last ws).
Proof.
  revert prev. induction ws as [|w ws IH]; intros prev; [cbn; lia|]. intros (Hv & Ht & Hok).
  apply IH in Hok. rewrite last_cons. destruct (last ws); cbn in *; lia.
Qed.

(** ** Variable-length records *)

Definition legacy_record (width prev : Z) (w : Word) : list Z :=
  encode_u64 (timestamp_ns w - prev) ++ append_value (value w) width.

#[global] Arguments legacy_record width prev w : simpl never.

Fixpoint legacy_records (width prev : Z) (ws : list Word) : list Z :=
  match ws with
  | [] => []
  | w :: ws => legacy_record width prev w ++ legacy_records width (timestamp_ns w) ws
  end.

(** A restart entry for every [interval]-th record, with the offset of the record. *)
Fixpoint legacy_restarts (interval width index offset prev : Z) (ws : list Word) : list RestartEntry :=
  match ws with
  | [] => []
  | w :: ws =>
      (if index mod interval =? 0 then [mkRestart (timestamp_ns w) offset index] else []) ++
      legacy_restarts interval width (index + 1) (offset + zlen (legacy_record width prev w))
        (timestamp_ns w) ws
  end.

Lemma zlen_append_value v width : width_ok width -> zlen (append_value v width) = width.
Proof.
  intros H. unfold append_value, zlen. rewrite length_take, length_to_le_bytes.
  destruct H as [->|[->|[->| ->]]]; done.
Qed.

Lemma take_to_le_bytes n m z : (n <= m)%nat -> take n (to_le_bytes m z) = to_le_bytes n z.
Proof.
  revert m z. induction n as [|n IH]; intros m z H; [done|]. destruct m as [|m]; [lia|].
  cbn [to_le_bytes]. rewrite firstn_cons, IH by lia. done.
Qed.

Lemma append_value_bytes v width :
  width_ok width -> append_value v width = to_le_bytes (Z.to_nat width) v.
Proof. intros [->|[->|[->| ->]]]; apply take_to_le_bytes; lia. Qed.

Lemma read_value_at bytes cursor width v post record_end :
  width_ok width -> 0 <= v < 256 ^ width ->
  at_cursor bytes cursor (append_value v width ++ post) -> cursor + width <= record_end ->
  read_value bytes cursor record_end width = Ok (v, cursor + width).
Proof.
  intros Hw Hv H He. unfold read_value. rewrite Z.min_l by done.
  pose proof (zlen_append_value v width Hw) as Hl.
  rewrite (at_cursor_slice _ _ _ _ _ H) by (by rewrite Hl). cbn [ok_or].
  rewrite Hl, Z.eqb_refl. cbn [negb]. rewrite append_value_bytes, from_to_le_bytes; [done| |done].
  rewrite Z2Nat.id; [done|]. destruct Hw as [->|[->|[->| ->]]]; lia.
Qed.

Lemma at_cursor_prefix {A} (l : list A) c s1 s2 :
  at_cursor l c (s1 ++ s2) -> at_cursor (take (Z.to_nat (c + zlen s1)) l) c s1.
Proof.
  intros (pre & -> & ->)%at_cursor_inv. rewrite <- zlen_app. unfold zlen at 1.
  rewrite Nat2Z.id, app_assoc, take_app_length. apply at_cursor_intro.
Qed.

(** The record bytes seen from a cursor, when the records end where [record_end] says. *)
Lemma at_cursor_records bytes parsed c s post :
  at_cursor bytes c (s ++ post) -> record_end parsed = c + zlen s ->
  at_cursor (record_bytes bytes parsed) c s.
Proof. intros H He. unfold record_bytes. rewrite He. by apply (at_cursor_prefix _ _ _ post). Qed.

Lemma legacy_records_app_len width prev w ws :
  zlen (legacy_records width prev (w :: ws)) =
    zlen (legacy_record width prev w) + zlen (legacy_records width (timestamp_ns w) ws).
Proof. apply zlen_app. Qed.

(** Every entry of the table lies at or after the index it starts from, strictly after it unless
    the index is itself a restart. *)
Lemma legacy_restarts_index interval width index offset prev ws r :
  In r (legacy_restarts interval width index offset prev ws) ->
  index <= record_index r /\ (record_index r = index -> index mod interval = 0).
Proof.
  revert index offset prev. induction ws as [|w ws IH]; intros index offset prev H; [done|].
  cbn [legacy_restarts] in H. apply in_app_or in H as [H|H].
  - destruct (Z.eqb_spec (index mod interval) 0); [|done]. destruct H as [<-|[]]. cbn. lia.
  - apply IH in H as [H1 _]. split; [lia|]. lia.
Qed.

(** A restart is recognised exactly at the indices that begin an interval. *)
Lemma legacy_at_restart interval width index offset prev w ws k restarts :
  drop k restarts = legacy_restarts interval width index offset prev (w :: ws) ->
  match restarts !! k with
  | Some restart => if record_index restart =? index then Some restart else None
  | None => None
  end = if index mod interval =? 0 then Some (mkRestart (timestamp_ns w) offset index) else None.
Proof.
  intros H. rewrite <- (Nat.add_0_r k), <- lookup_drop, H. cbn [legacy_restarts].
  destruct (Z.eqb_spec (index mod interval) 0) as [Hm|Hm]; [cbn; by rewrite Z.eqb_refl|].
  cbn [app]. set (rest := legacy_restarts _ _ _ _ _ ws).
  destruct rest as [|r rest'] eqn:Hr; [done|]. cbn.
  destruct (legacy_restarts_index interval width (index + 1)
    (offset + zlen (legacy_record width prev w)) (timestamp_ns w) ws r) as [Hle _].
  { fold rest. rewrite Hr. by left. }
  by rewrite (proj2 (Z.eqb_neq _ _)) by lia.
Qed.

Section Legacy.
Context (bytes : list Z) (parsed : ParsedWordBlock) (interval : Z) (post : list Z).
Abbreviation width := (parsed_value_bytes parsed).
Context (Hwidth : width_ok width) (Hend : record_end parsed - 72 <= u32_max).
Context (Hflag : Z.land (flags (parsed_header parsed)) BLOCK_FLAG_GROUPED_TIMESTAMPS = 0).

(** The decoder in front of the records of [ws], the first of which has number [index]. *)
Definition legacy_state (index prev : Z) (ws : list Word) (d : RecordDecoder) : Prop :=
  72 <= cursor d /\
  at_cursor bytes (cursor d) (legacy_records width prev ws ++ post) /\
  record_end parsed = cursor d + zlen (legacy_records width prev ws) /\
  timestamp d = prev /\ skip_initial_legacy_delta d = false /\ group_timestamps d = Raw /\
  drop (next_restart_index d) (parsed_restarts parsed) =
    legacy_restarts interval width index (cursor d - 72) prev ws /\
  (next_restart_index d <= length (parsed_restarts parsed))%nat.

Lemma legacy_next index prev w ws d :
  0 <= index -> u64 prev -> (index = 0 -> timestamp_ns w = prev) -> records_ok width prev (w :: ws) ->
  legacy_state index prev (w :: ws) d ->
  exists d', next bytes parsed index d = Ok (plain w, d') /\
    legacy_state (index + 1) (timestamp_ns w) ws d'.
Proof.
  intros Hi Hprev H0 (Hv & Ht & Hok) (Hc & Hat & He & Htime & Hskip & Hgroup & Hdrop & Hlen).
  assert (Hbound : cursor d <= record_end parsed).
  { pose proof (zlen_nonneg (legacy_records width prev (w :: ws))). lia. }
  destruct d as [c t k g s]. cbn in *. subst t s g.
  unfold next. cbn [next_restart_index cursor].
  rewrite (legacy_at_restart _ _ _ _ _ _ _ _ _ Hdrop), Hflag. cbn [Z.eqb negb].
  assert (Hsmall : as_u32 (c - BLOCK_HEADER_SIZE) = c - 72).
  { unfold as_u32, BLOCK_HEADER_SIZE. apply Z.mod_small. unfold u32_max in Hend. lia. }
  rewrite Hsmall. unfold next_legacy.
  cbn [cursor skip_initial_legacy_delta timestamp next_restart_index group_timestamps].
  pose proof (at_cursor_prefix _ _ _ _ Hat) as Hpre. rewrite <- He in Hpre.
  unfold legacy_record in Hpre. rewrite <- !app_assoc in Hpre.
  assert (Hdelta : u64 (timestamp_ns w - prev)) by ints.
  unfold record_bytes. rewrite (decode_encode_u64 _ _ _ _ Hdelta Hpre).
  assert (Htimestamp : (if index =? 0
      then if negb (timestamp_ns w - prev =? 0) then Err (invalid "first timestamp delta is not zero") else Ok prev
      else ok_or (checked_add64 prev (timestamp_ns w - prev)) (invalid "timestamp delta overflow"))
    = Ok (timestamp_ns w)).
  { destruct (Z.eqb_spec index 0) as [->|].
    - rewrite H0 by done. by rewrite Z.sub_diag.
    - unfold checked_add64. replace (prev + (timestamp_ns w - prev)) with (timestamp_ns w) by lia.
      by rewrite (proj2 (Z.leb_le _ _)) by lia. }
  rewrite Htimestamp. clear Htimestamp Hpre.
  set (c1 := c + zlen (encode_u64 (timestamp_ns w - prev))).
  assert (Hd1 : exists k1, (match (if index mod interval =? 0
        then Some (mkRestart (timestamp_ns w) (c - 72) index) else None) with
      | Some restart =>
          if negb (restart_timestamp_ns restart =? timestamp_ns w) || negb (payload_offset restart =? c - 72)
          then Err (invalid "restart entry does not match record payload")
          else Ok (mkDecoder c1 (timestamp_ns w) (S k) Raw false)
      | None => Ok (mkDecoder c1 (timestamp_ns w) k Raw false)
      end) = Ok (mkDecoder c1 (timestamp_ns w) k1 Raw false) /\
      drop k1 (parsed_restarts parsed) = legacy_restarts interval width (index + 1)
        (c - 72 + zlen (legacy_record width prev w)) (timestamp_ns w) ws /\
      (k1 <= length (parsed_restarts parsed))%nat).
  { cbn [legacy_restarts] in Hdrop. destruct (index mod interval =? 0).
    - exists (S k). cbn. rewrite !Z.eqb_refl. cbn. split; [done|].
      assert (Hk : drop (S k) (parsed_restarts parsed) = drop 1 (drop k (parsed_restarts parsed))).
      { rewrite drop_drop. f_equal. lia. }
      rewrite Hk, Hdrop. split; [done|].
      assert ((0 < length (drop k (parsed_restarts parsed)))%nat) by (rewrite Hdrop; cbn; lia).
      rewrite length_drop in *. lia.
    - by exists k. }
  destruct Hd1 as (k1 & -> & Hdrop1 & Hk1). cbn [cursor timestamp next_restart_index group_timestamps
    skip_initial_legacy_delta].
  cbn [legacy_records] in Hat, He. unfold legacy_record in Hat, He. rewrite <- !app_assoc in Hat.
  pose proof (at_cursor_app _ _ _ _ Hat) as Hat1. rewrite !zlen_app in He.
  pose proof (zlen_append_value (value w) width Hwidth) as Hlv.
  pose proof (zlen_nonneg (legacy_records width (timestamp_ns w) ws)).
  fold c1 in Hat1.
  rewrite (read_value_at _ _ _ _ _ (record_end parsed) Hwidth Hv Hat1) by (unfold c1; lia).
  eexists. split; [done|]. unfold legacy_state. cbn [cursor timestamp next_restart_index
    group_timestamps skip_initial_legacy_delta].
  pose proof (at_cursor_app _ _ _ _ Hat1) as Hat2. rewrite Hlv in Hat2.
  pose proof (zlen_nonneg (encode_u64 (timestamp_ns w - prev))).
  assert (0 <= width) by (rewrite <- Hlv; apply zlen_nonneg).
  split_and!; try done; [unfold c1; lia|unfold c1; lia|].
  rewrite Hdrop1. f_equal. unfold legacy_record. rewrite zlen_app. unfold c1. lia.
Qed.

Lemma legacy_decode ws : forall index prev d,
  0 <= index -> u64 prev -> (index = 0 -> match ws with w :: _ => timestamp_ns w = prev | [] => True end) ->
  records_ok width prev ws -> legacy_state index prev ws d ->
  exists d', decode_records bytes parsed (length ws) index d = Ok (map plain ws, d') /\
    legacy_state (index + zlen ws) (default prev (timestamp_ns <$> last ws)) [] d'.
Proof.
  induction ws as [|w ws IH]; intros index prev d Hi Hp H0 Hok Hst.
  { exists d. split; [done|]. by rewrite Z.add_0_r. }
  cbn [length decode_records].
  destruct (legacy_next index prev w ws d Hi Hp (fun E => H0 E) Hok Hst) as (d1 & -> & Hst1).
  destruct Hok as (Hv & Ht & Hok).
  destruct (IH (index + 1) (timestamp_ns w) d1) as (d' & -> & Hst'); try done; [lia|ints|lia|].
  exists d'. split; [done|]. rewrite zlen_cons, Z.add_assoc.
  rewrite last_cons.
  destruct (last ws); done.
Qed.
End Legacy.

Lemma decode_records_app bytes parsed n m : forall index d,
  decode_records bytes parsed (n + m) index d =
  let? (ws, d) := decode_records bytes parsed n index d in
  let? (ws', d) := decode_records bytes parsed m (index + Z.of_nat n) d in
  Ok (ws ++ ws', d).
Proof.
  induction n as [|n IH]; intros index d.
  { cbn [Nat.add decode_records Z.of_nat app]. rewrite Z.add_0_r.
    by destruct (decode_records bytes parsed m index d) as [[]|]. }
  cbn [Nat.add decode_records]. destruct (next bytes parsed index d) as [[w d1]|]; [|done].
  rewrite IH. replace (index + Z.of_nat (S n)) with (index + 1 + Z.of_nat n) by lia.
  destruct (decode_records bytes parsed n (index + 1) d1) as [[ws d2]|]; [|done].
  by destruct (decode_records bytes parsed m _ d2) as [[]|].
Qed.

(** ** The duration and payload tables of a word block: what the encoder writes, as functions of the
    words, and that [apply_durations] restores durations and payloads from them. *)

(** ** Words the encoder accepts *)

Definition payload_ok (p : WordPayload) : Prop :=
  match p with
  | Bytes bytes => bytes_ok bytes
  | Text text => bytes_ok text /\ utf8_valid text = true
  end.

Definition word_ok (w : Word) : Prop :=
  u64 (value w) /\ u64 (timestamp_ns w) /\ u64 (duration_ns w) /\
  match payload w with Some p => payload_ok p | None => True end.

(** ** The tables *)

(** The exceptions from number [index] on, [previous] being the number of the last one. *)
Fixpoint duration_table (previous : option Z) (index : Z) (ws : list Word) : list Z :=
  match ws with
  | [] => []
  | w :: ws =>
      if duration_ns w =? 0 then duration_table previous (index + 1) ws
      else encode_u64 (index - default 0 previous) ++ encode_u64 (duration_ns w) ++
        duration_table (Some index) (index + 1) ws
  end.

Fixpoint payload_table (previous : option Z) (index : Z) (ws : list Word) : list Z :=
  match ws with
  | [] => []
  | w :: ws =>
      match payload w with
      | None => payload_table previous (index + 1) ws
      | Some p => encode_u64 (index - default 0 previous) ++ payload_bytes p ++
          payload_table (Some index) (index + 1) ws
      end
  end.

Definition timed_words (ws : list Word) : list Word :=
  List.filter (fun w => negb (duration_ns w =? 0)) ws.

Definition payload_words (ws : list Word) : list Word :=
  List.filter (fun w => negb (is_numeric w)) ws.

(** A word without its payload. *)
Definition timed (w : Word) : Word := spanning (value w) (timestamp_ns w) (duration_ns w).

Lemma timed_plain w : duration_ns w = 0 -> timed w = plain w.
Proof. unfold timed, plain, spanning, Word_new. by intros ->. Qed.

Lemma timed_numeric w : payload w = None -> timed w = w.
Proof. destruct w. cbn. unfold timed, spanning. cbn. by intros ->. Qed.

(** The number of the previous exception precedes the current index. *)
Definition previous_ok (previous : option Z) (index : Z) : Prop :=
  match previous with Some p => 0 <= p < index | None => True end.

Lemma previous_next previous index : previous_ok previous index -> previous_ok previous (index + 1).
Proof. destruct previous; simpl; lia. Qed.

Lemma update_word_at f pre w ws index :
  index = zlen pre -> update_word f index 0 (pre ++ w :: ws) = pre ++ f w :: ws.
Proof.
  intros ->. unfold update_word. pose proof (zlen_nonneg pre). rewrite (proj2 (Z.leb_le _ _)) by lia.
  rewrite Z.sub_0_r. unfold zlen. rewrite Nat2Z.id, <- (Nat.add_0_r (length pre)), alter_app_r.
  done.
Qed.

(** The index step of a table entry. *)
Lemma entry_index previous index message1 message2 :
  previous_ok previous index -> u64 index ->
  (match previous with
   | None => Ok (index - default 0 previous)
   | Some p =>
       if index - default 0 previous =? 0 then Err (invalid message1)
       else ok_or (checked_add64 p (index - default 0 previous)) (invalid message2)
   end) = Ok index.
Proof.
  intros Hp Hi. destruct previous as [p|]; cbn in *; [|by rewrite Z.sub_0_r].
  rewrite (proj2 (Z.eqb_neq _ _)) by lia. unfold checked_add64.
  replace (p + (index - p)) with index by lia. rewrite (proj2 (Z.leb_le _ _)) by ints. done.
Qed.

Lemma snoc_shift {A B} (f g : A -> B) pre w ws :
  f w = g w -> map f pre ++ map g (w :: ws) = map f (pre ++ [w]) ++ map g ws.
Proof. intros H. rewrite map_app, <- app_assoc. cbn. by rewrite H. Qed.

Lemma duration_entries_decode bytes post ws : forall pre previous index cursor,
  Forall word_ok ws -> index = zlen pre -> previous_ok previous index ->
  index + zlen ws <= u32_max ->
  at_cursor bytes cursor (duration_table previous index ws ++ post) ->
  apply_duration_entries (length (timed_words ws)) bytes (index + zlen ws) 0 previous cursor
    (map timed pre ++ map plain ws)
  = Ok (map timed (pre ++ ws), cursor + zlen (duration_table previous index ws)).
Proof.
  induction ws as [|w ws IH]; intros pre previous index cursor Hok Hi Hp Hn Hat.
  { cbn. rewrite !app_nil_r. change (zlen []) with 0. by rewrite Z.add_0_r. }
  apply Forall_cons in Hok as [Hw Hok]. rewrite zlen_cons in *. unfold timed_words.
  cbn [duration_table List.filter] in *.
  pose proof (zlen_nonneg pre). pose proof (zlen_nonneg ws).
  specialize (IH (pre ++ [w])). rewrite zlen_app, <- app_assoc in IH. change (zlen [w]) with 1 in IH.
  replace (index + (1 + zlen ws)) with (index + 1 + zlen ws) in * by lia.
  destruct (Z.eqb_spec (duration_ns w) 0) as [Hz|Hz]; cbn [negb].
  - rewrite snoc_shift by by rewrite timed_plain. apply IH; try done; [lia|by apply previous_next].
  - fold (timed_words ws). cbn [length apply_duration_entries].
    rewrite <- !app_assoc in Hat.
    assert (Hd : u64 (index - default 0 previous)) by (destruct previous; cbn in *; ints).
    rewrite (decode_encode_u64 _ _ _ _ Hd Hat), entry_index by (done || ints).
    apply at_cursor_app in Hat.
    rewrite (decode_encode_u64 _ _ _ _ (proj1 (proj2 (proj2 Hw))) Hat).
    rewrite (proj2 (Z.eqb_neq _ _) Hz), (proj2 (Z.leb_gt _ _)) by lia.
    apply at_cursor_app in Hat. cbn [map]. rewrite update_word_at by (unfold zlen; by rewrite length_map).
    change (with_duration (duration_ns w) (plain w)) with (timed w).
    change (map timed pre ++ timed w :: map plain ws) with
      (map timed pre ++ [timed w] ++ map plain ws). rewrite app_assoc.
    change [timed w] with (map timed [w]). rewrite <- map_app.
    rewrite (IH (Some index) (index + 1)); try done; [|lia|cbn; lia].
    do 2 f_equal. rewrite !zlen_app. lia.
Qed.

Lemma payload_bytes_decode bytes cursor p post :
  payload_ok p -> zlen bytes <= u32_max ->
  at_cursor bytes cursor (payload_bytes p ++ post) ->
  read_payload bytes cursor = Ok (p, cursor + zlen (payload_bytes p)).
Proof.
  intros Hp Hlen Hat. unfold read_payload.
  assert (Hgen : forall kind data, payload_bytes p = kind :: encode_u64 (zlen data) ++ data ->
    byte_at bytes cursor = Some kind /\
    decode_u64 bytes (cursor + 1) = Ok (zlen data, cursor + 1 + zlen (encode_u64 (zlen data))) /\
    checked_add64 (cursor + 1 + zlen (encode_u64 (zlen data))) (zlen data)
      = Some (cursor + zlen (payload_bytes p)) /\
    slice bytes (cursor + 1 + zlen (encode_u64 (zlen data))) (cursor + zlen (payload_bytes p)) = Some data).
  { intros kind data Hb. rewrite Hb in *. cbn [app] in Hat.
    pose proof (at_cursor_byte _ _ _ _ Hat) as H1. pose proof (at_cursor_next _ _ _ _ Hat) as H2.
    rewrite <- app_assoc in H2.
    assert (Hfit : cursor + zlen (kind :: encode_u64 (zlen data) ++ data) <= zlen bytes).
    { pose proof (at_cursor_app bytes cursor (kind :: encode_u64 (zlen data) ++ data) post Hat) as [? _]. lia. }
    rewrite zlen_cons, zlen_app in *. pose proof (zlen_nonneg data).
    pose proof (zlen_nonneg (encode_u64 (zlen data))). destruct Hat as [Hc _].
    assert (Hu : u64 (zlen data)) by ints.
    split; [done|]. split; [by apply (decode_encode_u64 _ _ _ _ Hu H2)|].
    apply at_cursor_app in H2. split.
    - unfold checked_add64. rewrite (proj2 (Z.leb_le _ _)) by ints. f_equal. lia.
    - apply (at_cursor_slice _ _ _ _ _ H2). lia. }
  destruct p as [data|data]; destruct (Hgen _ data eq_refl) as (-> & -> & Hc & Hs);
    cbn [ok_or]; rewrite Hc; cbn [ok_or]; rewrite Hs; cbn [ok_or Z.eqb Pos.eqb]; [done|].
  destruct Hp as [_ Hutf]. by rewrite Hutf.
Qed.

Lemma payload_entries_decode bytes post ws : forall pre previous index cursor,
  Forall word_ok ws -> index = zlen pre -> previous_ok previous index ->
  index + zlen ws <= u32_max -> zlen bytes <= u32_max ->
  at_cursor bytes cursor (payload_table previous index ws ++ post) ->
  apply_payload_entries (length (payload_words ws)) bytes (index + zlen ws) 0 previous cursor
    (pre ++ map timed ws)
  = Ok (pre ++ ws, cursor + zlen (payload_table previous index ws)).
Proof.
  induction ws as [|w ws IH]; intros pre previous index cursor Hok Hi Hp Hn Hb Hat.
  { cbn. change (zlen []) with 0. by rewrite Z.add_0_r. }
  apply Forall_cons in Hok as [Hw Hok]. rewrite zlen_cons in *. unfold payload_words, is_numeric.
  cbn [payload_table List.filter] in *.
  pose proof (zlen_nonneg pre). pose proof (zlen_nonneg ws).
  specialize (IH (pre ++ [w])). rewrite zlen_app, <- app_assoc in IH. change (zlen [w]) with 1 in IH.
  replace (index + (1 + zlen ws)) with (index + 1 + zlen ws) in * by lia.
  destruct (payload w) as [p|] eqn:Hpay; cbn [negb].
  - fold (payload_words ws). cbn [length apply_payload_entries].
    rewrite <- !app_assoc in Hat.
    assert (Hd : u64 (index - default 0 previous)) by (destruct previous; cbn in *; ints).
    rewrite (decode_encode_u64 _ _ _ _ Hd Hat), entry_index by (done || ints).
    rewrite (proj2 (Z.leb_gt _ _)) by lia. apply at_cursor_app in Hat.
    assert (Hpok : payload_ok p) by (destruct Hw as (_ & _ & _ & Hw); by rewrite Hpay in Hw).
    rewrite (payload_bytes_decode _ _ _ _ Hpok Hb Hat). apply at_cursor_app in Hat.
    cbn [map]. rewrite update_word_at by done.
    replace (with_payload p (timed w)) with w by (destruct w; cbn in *; subst; done).
    change (pre ++ w :: map timed ws) with (pre ++ [w] ++ map timed ws).
    rewrite (IH (Some index) (index + 1)); try done; [|lia|cbn; lia].
    apply f_equal, f_equal2; [by rewrite <- app_assoc|]. rewrite !zlen_app. lia.
  - cbn [map]. rewrite (timed_numeric w Hpay).
    change (pre ++ w :: map timed ws) with (pre ++ [w] ++ map timed ws).
    change (pre ++ w :: ws) with (pre ++ [w] ++ ws). rewrite (app_assoc pre [w] ws). fold (payload_words ws).
    apply IH; try done; [lia|by apply previous_next].
Qed.
