(* ===== verification/WordResume.v ===== *)
(** Random access into the records of a word block: whatever the bytes, a decoder that starts at
    a restart entry yields the records a decoder that read the whole block yields from there. *)

From S2P Require Import Prelude Events Vlq WordFormat WordEncode WordDecode WordRecords.

(** ** The tables of a parsed block *)

Lemma restarts_ordered_lt rs : forall i j a b,
  restarts_ordered rs = true -> (i < j)%nat -> rs !! i = Some a -> rs !! j = Some b ->
  record_index a < record_index b.
Proof.
  induction rs as [|r rs IH]; intros i j a b Ho Hij Hi Hj; [done|].
  destruct j as [|j]; [lia|]. destruct rs as [|r' rs]; [done|].
  change (negb ((record_index r' <=? record_index r) || (payload_offset r' <=? payload_offset r)
    || (restart_timestamp_ns r' <? restart_timestamp_ns r)) && restarts_ordered (r' :: rs) = true) in Ho.
  apply andb_true_iff in Ho as [Hr Ho]. apply negb_true_iff, orb_false_iff in Hr as [Hr _].
  apply orb_false_iff in Hr as [Hr%Z.leb_gt _].
  destruct i as [|i].
  - injection Hi as <-. destruct j as [|j]; [by injection Hj as <-|].
    pose proof (IH 0%nat (S j) r' b Ho ltac:(lia) eq_refl Hj). lia.
  - apply (IH i j a b); [done|lia|done|done].
Qed.

Lemma get_u32_bounds bytes offset v : bytes_ok bytes -> get_u32 bytes offset = Ok v -> u32 v.
Proof.
  intros Hb. unfold get_u32, slice. destruct (_ && _) eqn:Hc; [|done]. intros [= <-].
  rewrite !andb_true_iff, !Z.leb_le in Hc.
  assert (Hok : bytes_ok (take (Z.to_nat (offset + 4 - offset)) (drop (Z.to_nat offset) bytes))).
  { by apply Forall_take, Forall_drop. }
  apply from_le_bytes_range in Hok. unfold zlen in *. rewrite length_take, length_drop in Hok.
  assert (Heq : Z.of_nat (Z.to_nat (offset + 4 - offset) `min` (length bytes - Z.to_nat offset)) = 4) by lia.
  rewrite Heq in Hok. change (256 ^ 4) with 4294967296 in Hok. ints.
Qed.

(** What the checks of [parse_word_block] establish. *)
Record parsed_ok (parsed : ParsedWordBlock) : Prop := mkParsedOk {
  parsed_end : 72 <= record_end parsed <= 72 + u32_max;
  parsed_ordered : restarts_ordered (parsed_restarts parsed) = true;
  parsed_first : exists r rs, parsed_restarts parsed = r :: rs /\ record_index r = 0 /\ payload_offset r = 0;
  parsed_within : forall k r, parsed_restarts parsed !! k = Some r ->
    record_index r < word_count (parsed_header parsed)
}.

Lemma from_bytes_payload_len bytes h : bytes_ok bytes -> from_bytes bytes = Ok h -> u32 (record_payload_len h).
Proof.
  intros Hb. unfold from_bytes.
  repeat match goal with
  | |- (if ?c then Err _ else _) = _ -> _ => destruct c; [done|]
  | |- match ok_or ?o _ with Ok _ => _ | Err _ => _ end = _ -> _ => destruct o; cbn [ok_or]; [|done]
  | |- match ?m with Ok _ => _ | Err _ => _ end = _ -> _ => destruct m eqn:?; [|done]
  end.
  intros [= <-]. cbn [record_payload_len]. by eapply get_u32_bounds.
Qed.

Lemma validate_restart_order_inv rs n len : validate_restart_order rs n len = Ok tt ->
  restarts_ordered rs = true /\ (exists r rs', rs = r :: rs' /\ record_index r = 0 /\ payload_offset r = 0) /\
  (forall k r, rs !! k = Some r -> record_index r < n).
Proof.
  unfold validate_restart_order. destruct rs as [|r rs]; [done|].
  destruct (negb (record_index r =? 0) || negb (payload_offset r =? 0)) eqn:H0; [done|].
  destruct (restarts_ordered (r :: rs)) eqn:Ho; [|done]. cbn [negb]. rewrite last_lookup.
  set (z := Nat.pred (length (r :: rs))). destruct ((r :: rs) !! z) as [l|] eqn:Hl.
  2: { apply lookup_ge_None in Hl. cbn in *. lia. }
  destruct ((n <=? record_index l) || (len <=? payload_offset l)) eqn:Hw; [done|]. intros _. split; [done|].
  apply orb_false_iff in H0 as [H1%negb_false_iff%Z.eqb_eq H2%negb_false_iff%Z.eqb_eq].
  apply orb_false_iff in Hw as [Hw%Z.leb_gt _]. split; [by exists r, rs|]. intros k r' Hk.
  destruct (decide (k = z)) as [->|Hne]; [simplify_eq; lia|].
  assert (Hkz : (k < z)%nat) by (apply lookup_lt_Some in Hk; unfold z; cbn in *; lia).
  pose proof (restarts_ordered_lt _ _ _ _ _ Ho Hkz Hk Hl). lia.
Qed.

Lemma parse_word_block_ok bytes parsed :
  bytes_ok bytes -> parse_word_block bytes = Ok parsed -> parsed_ok parsed.
Proof.
  intros Hb. unfold parse_word_block. destruct (from_bytes bytes) as [h|] eqn:Hh; [|done].
  apply from_bytes_payload_len in Hh; [|done].
  destruct (ok_or _ _); [|by destruct (_ || _)].
  repeat match goal with
  | |- (if ?c then Err _ else _) = _ -> _ => destruct c; [done|]
  end.
  destruct (read_restarts _ _ _) as [rs|]; [|done].
  destruct (validate_restart_order _ _ _) as [[]|] eqn:Hv; [|done]. intros [= <-].
  apply validate_restart_order_inv in Hv as (Ho & Hf & Hw). split; [|done..].
  cbn [record_end]. unfold BLOCK_HEADER_SIZE. ints.
Qed.

(** ** Cursors only move forwards, within the records *)

Lemma decode_loop_cursor turns : forall byte_index input cursor acc v cursor',
  decode_loop turns byte_index input cursor acc = Ok (v, cursor') -> cursor <= cursor'.
Proof.
  induction turns as [|turns IH]; intros byte_index input cursor acc v cursor'; [done|].
  cbn [decode_loop]. destruct (byte_at input cursor); cbn [ok_or]; [|done].
  destruct (_ && _); [done|]. destruct (_ =? 0); [intros [= _ <-]; lia|].
  intros H%IH. lia.
Qed.

Lemma decode_u64_cursor input cursor v cursor' : decode_u64 input cursor = Ok (v, cursor') -> cursor <= cursor'.
Proof. apply decode_loop_cursor. Qed.

Lemma decode_u64s_cursor n : forall input cursor vs cursor',
  decode_u64s n input cursor = Ok (vs, cursor') -> cursor <= cursor'.
Proof.
  induction n as [|n IH]; intros input cursor vs cursor'; cbn [decode_u64s]; [intros [= _ <-]; lia|].
  destruct (decode_u64 input cursor) as [[v c]|] eqn:Hv; [|done].
  destruct (decode_u64s n input c) as [[vs' c']|] eqn:Hvs; [|done]. intros [= _ <-].
  apply decode_u64_cursor in Hv. apply IH in Hvs. lia.
Qed.

Lemma palette_cursor bytes parsed k cursor i group cursor' :
  decode_timestamp_palette bytes parsed k cursor i = Ok (group, cursor') -> cursor <= cursor'.
Proof.
  unfold decode_timestamp_palette. destruct (byte_at bytes cursor) as [len|]; cbn [ok_or]; [|done].
  destruct (negb _); [done|].
  destruct (decode_u64s _ _ _) as [[deltas c]|] eqn:Hd; [|done]. apply decode_u64s_cursor in Hd.
  destruct (Z.ltb_spec (match parsed_restarts parsed !! S k with
    | Some restart => record_index restart | None => word_count (parsed_header parsed) end) (i + 1)) as [|Hi]; [done|].
  destruct (_ <? _); [done|]. intros [= _ <-].
  match goal with |- context [div_ceil ?x 8] => assert (0 <= div_ceil x 8) end; [|lia].
  unfold div_ceil. apply Z.div_pos; [|lia].
  assert (0 <= palette_index_bits len) by (unfold palette_index_bits; repeat case_match; lia). nia.
Qed.

Lemma read_value_cursor bytes cursor record_end width v cursor' :
  read_value bytes cursor record_end width = Ok (v, cursor') -> cursor <= cursor' <= record_end.
Proof.
  unfold read_value. destruct (slice _ _ _) as [s|] eqn:Hs; cbn [ok_or]; [|done].
  destruct (Z.eqb_spec (zlen s) width) as [Hw|]; [|done]. intros [= _ <-].
  pose proof (zlen_nonneg s). unfold slice in Hs. destruct (_ && _) eqn:Hc; [|done]. injection Hs as <-.
  rewrite !andb_true_iff, !Z.leb_le in Hc. unfold zlen in *. rewrite length_take, length_drop in *. lia.
Qed.

(** ** One record *)

Definition set_skip (b : bool) (d : RecordDecoder) : RecordDecoder :=
  mkDecoder (cursor d) (timestamp d) (next_restart_index d) (group_timestamps d) b.

Definition grouped_layout (parsed : ParsedWordBlock) : bool :=
  negb (Z.land (flags (parsed_header parsed)) BLOCK_FLAG_GROUPED_TIMESTAMPS =? 0).

(** The restart entry a decoder meets at a record. *)
Definition restart_at (parsed : ParsedWordBlock) (i : Z) (d : RecordDecoder) : option RestartEntry :=
  match parsed_restarts parsed !! next_restart_index d with
  | Some restart => if record_index restart =? i then Some restart else None
  | None => None
  end.

Section Resume.
Context (bytes : list Z) (parsed : ParsedWordBlock) (Hparsed : parsed_ok parsed).

(** Takes a successful computation apart. *)
Ltac inv_ok :=
  repeat match goal with
  | H : Err _ = Ok _ |- _ => discriminate H
  | H : Ok _ = Ok _ |- _ => injection H as H; subst
  | H : (_, _) = (_, _) |- _ => injection H as H; subst
  | H : (if ?c then _ else _) = Ok _ |- _ => destruct c eqn:?
  | H : ok_or ?o _ = Ok _ |- _ => destruct o eqn:?; cbn [ok_or] in H
  | H : match ?m with Ok _ => _ | Err _ => _ end = Ok _ |- _ => destruct m as [?|] eqn:?
  | p : (_ * _)%type |- _ => destruct p
  | H : decode_u64 _ _ = Ok _ |- _ => apply decode_u64_cursor in H
  | H : decode_timestamp_palette _ _ _ _ _ = Ok _ |- _ => apply palette_cursor in H
  end.

(** What a time step does to the decoder, in either layout. *)
Definition stepped (at_restart : option RestartEntry) (d d' : RecordDecoder) : Prop :=
  cursor d <= cursor d' /\
  match at_restart with
  | Some r => next_restart_index d' = S (next_restart_index d) /\ timestamp d' = restart_timestamp_ns r
  | None => next_restart_index d' = next_restart_index d
  end.

Lemma next_grouped_stepped i offset at_restart d d' :
  next_grouped bytes parsed i offset at_restart d = Ok d' ->
  stepped at_restart d d' /\ skip_initial_legacy_delta d' = skip_initial_legacy_delta d.
Proof.
  unfold next_grouped, stepped. intros H. destruct at_restart as [r|].
  - inv_ok; cbn; split_and!; (done || lia).
  - destruct (group_timestamps d) as [|delta|deltas bits packed count k]; inv_ok; cbn; split_and!; (done || lia).
Qed.

Lemma next_legacy_stepped i offset at_restart d d' :
  next_legacy bytes parsed i offset at_restart d = Ok d' ->
  stepped at_restart d d' /\ skip_initial_legacy_delta d' = false /\ group_timestamps d' = group_timestamps d.
Proof.
  unfold next_legacy, stepped. intros H. destruct at_restart as [r|].
  - destruct (decode_u64 _ _) as [[delta c]|] eqn:Hd; [|done]. apply decode_u64_cursor in Hd.
    match type of H with match ?m with Ok _ => _ | Err _ => _ end = _ => destruct m as [t|]; [|done] end.
    destruct (_ || _) eqn:Hc; [done|]. injection H as <-.
    apply orb_false_iff in Hc as [Hc%negb_false_iff%Z.eqb_eq _]. cbn. split_and!; (done || lia).
  - destruct (decode_u64 _ _) as [[delta c]|] eqn:Hd; [|done]. apply decode_u64_cursor in Hd.
    match type of H with match ?m with Ok _ => _ | Err _ => _ end = _ => destruct m as [t|]; [|done] end.
    injection H as <-. cbn. split_and!; (done || lia).
Qed.

Lemma next_stepped i d w d' :
  next bytes parsed i d = Ok (w, d') ->
  stepped (restart_at parsed i d) d d' /\ cursor d' <= record_end parsed /\ timestamp_ns w = timestamp d' /\
  (skip_initial_legacy_delta d = false -> skip_initial_legacy_delta d' = false) /\
  (grouped_layout parsed = false -> group_timestamps d' = group_timestamps d).
Proof.
  unfold next. fold (restart_at parsed i d). fold (grouped_layout parsed). intros H.
  match type of H with match ?m with Ok _ => _ | Err _ => _ end = _ => destruct m as [d1|] eqn:Hd; [|done] end.
  destruct (read_value _ _ _ _) as [[v c]|] eqn:Hv; [|done]. injection H as <- <-.
  apply read_value_cursor in Hv. unfold Word_new, stepped. cbn.
  destruct (grouped_layout parsed).
  - apply next_grouped_stepped in Hd as [[Hs1 Hs2] Hs]. rewrite <- Hs. split_and!; (done || lia).
  - apply next_legacy_stepped in Hd as ([Hs1 Hs2] & Hs3 & Hs4). split_and!; (done || lia).
Qed.

(** The grouped layout never looks at the flag for the first step. *)
Lemma next_set_skip b i d w d' :
  grouped_layout parsed = true -> next bytes parsed i d = Ok (w, d') ->
  next bytes parsed i (set_skip b d) = Ok (w, set_skip b d').
Proof.
  intros Hg. unfold next. fold (grouped_layout parsed). rewrite Hg. cbn [cursor next_restart_index set_skip].
  intros H. match type of H with match ?m with Ok _ => _ | Err _ => _ end = _ => destruct m as [d1|] eqn:Hd; [|done] end.
  destruct (read_value _ _ _ _) as [[v c]|] eqn:Hv; [|done]. injection H as <- <-.
  assert (Hskip : forall at_restart offset, next_grouped bytes parsed i offset at_restart d = Ok d1 ->
    next_grouped bytes parsed i offset at_restart (set_skip b d) = Ok (set_skip b d1)).
  { clear. intros at_restart offset. unfold next_grouped, set_skip. cbn.
    destruct at_restart; [|destruct (group_timestamps d)];
      repeat match goal with
      | |- (if ?c then _ else _) = _ -> _ => destruct c; [try done|try done]
      | |- match (if ?c then _ else _) with Ok _ => _ | Err _ => _ end = _ -> _ => destruct c
      | |- match ?m with Ok _ => _ | Err _ => _ end = _ -> _ => destruct m as [|]; try done
      | p : (_ * _)%type |- _ => destruct p
      end; try (by intros [= <-]); done. }
  rewrite (Hskip _ _ Hd). cbn. by rewrite Hv.
Qed.

Lemma decode_records_set_skip b n : forall i d ws d',
  grouped_layout parsed = true -> decode_records bytes parsed n i d = Ok (ws, d') ->
  decode_records bytes parsed n i (set_skip b d) = Ok (ws, set_skip b d').
Proof.
  induction n as [|n IH]; intros i d ws d' Hg; cbn [decode_records]; [by intros [= <- <-]|].
  destruct (next bytes parsed i d) as [[w d1]|] eqn:Hn; [|done].
  destruct (decode_records bytes parsed n (i + 1) d1) as [[ws1 d2]|] eqn:Hr; [|done]. intros [= <- <-].
  by rewrite (next_set_skip b _ _ _ _ Hg Hn), (IH _ _ _ _ Hg Hr).
Qed.

(** ** The decoder that reads the whole block *)

(** Its state before record [i]: the next restart entry is the first at or behind the record. *)
Record sequential (i : Z) (d : RecordDecoder) : Prop := mkSequential {
  seq_cursor : 72 <= cursor d <= record_end parsed;
  seq_skip : skip_initial_legacy_delta d = false;
  seq_raw : grouped_layout parsed = false -> group_timestamps d = Raw;
  seq_past : forall k r, parsed_restarts parsed !! k = Some r -> (k < next_restart_index d)%nat -> record_index r < i;
  seq_ahead : forall k r, parsed_restarts parsed !! k = Some r -> (next_restart_index d <= k)%nat -> i <= record_index r
}.

Lemma restart_index_nonneg k r : parsed_restarts parsed !! k = Some r -> 0 <= record_index r.
Proof.
  intros Hk. destruct (parsed_first _ Hparsed) as (r0 & rs & Hrs & Hi & _).
  pose proof (parsed_ordered _ Hparsed) as Ho. rewrite Hrs in *. destruct k as [|k].
  - injection Hk as <-. lia.
  - pose proof (restarts_ordered_lt _ 0 (S k) r0 r Ho ltac:(lia) eq_refl Hk). lia.
Qed.

Lemma sequential_start d : RecordDecoder_new parsed 0 false = Ok d -> sequential 0 d.
Proof.
  unfold RecordDecoder_new. pose proof (parsed_end _ Hparsed).
  destruct (parsed_first _ Hparsed) as (r0 & rs & Hrs & _ & Ho). rewrite Hrs. cbn [lookup list_lookup ok_or].
  intros [= <-]. split; cbn; try done.
  - rewrite Ho. unfold BLOCK_HEADER_SIZE. lia.
  - intros k r _ Hk. lia.
  - intros k r Hk _. by eapply restart_index_nonneg.
Qed.

Lemma restart_at_Some i d r :
  restart_at parsed i d = Some r <-> parsed_restarts parsed !! next_restart_index d = Some r /\ record_index r = i.
Proof.
  unfold restart_at. destruct (parsed_restarts parsed !! next_restart_index d) as [r'|]; [|naive_solver].
  destruct (Z.eqb_spec (record_index r') i); naive_solver.
Qed.

Lemma sequential_next i d w d' :
  sequential i d -> next bytes parsed i d = Ok (w, d') -> sequential (i + 1) d'.
Proof.
  intros [Hc Hs Hr Hp Ha] Hn. apply next_stepped in Hn as ([Hc1 Hstep] & Hc2 & _ & Hs' & Hr').
  pose proof (parsed_ordered _ Hparsed) as Ho.
  destruct (restart_at parsed i d) as [r0|] eqn:Hat.
  - destruct Hstep as [Hk0 _]. apply restart_at_Some in Hat as [Hr0 Hi].
    split; [lia|auto|intros Hg; rewrite (Hr' Hg); auto|..]; rewrite Hk0; intros k r Hk Hlt.
    + destruct (decide (k = next_restart_index d)) as [->|]; [simplify_eq; lia|].
      pose proof (Hp k r Hk ltac:(lia)). lia.
    + pose proof (restarts_ordered_lt _ _ _ _ _ Ho (ltac:(lia) : (next_restart_index d < k)%nat) Hr0 Hk). lia.
  - split; [lia|auto|intros Hg; rewrite (Hr' Hg); auto|..]; rewrite Hstep; intros k r Hk Hlt.
    + pose proof (Hp k r Hk Hlt). lia.
    + pose proof (Ha k r Hk Hlt). assert (record_index r <> i); [|lia]. intros Heq.
      destruct (decide (k = next_restart_index d)) as [->|Hne].
      * assert (restart_at parsed i d = Some r) by (by apply restart_at_Some). congruence.
      * destruct (parsed_restarts parsed !! next_restart_index d) as [r1|] eqn:H1.
        -- pose proof (restarts_ordered_lt _ _ _ _ _ Ho (ltac:(lia) : (next_restart_index d < k)%nat) H1 Hk).
           pose proof (Ha _ _ H1 ltac:(lia)). lia.
        -- apply lookup_ge_None in H1. apply lookup_lt_Some in Hk. lia.
Qed.

(** At the record of a restart entry the sequential decoder is about to take that entry. *)
Lemma sequential_restart i d k r :
  sequential i d -> parsed_restarts parsed !! k = Some r -> record_index r = i ->
  next_restart_index d = k /\ restart_at parsed i d = Some r.
Proof.
  intros [_ _ _ Hp Ha] Hk Hi. pose proof (parsed_ordered _ Hparsed) as Ho.
  destruct (Nat.lt_trichotomy k (next_restart_index d)) as [H|[H|H]].
  - pose proof (Hp _ _ Hk H). lia.
  - split; [done|]. apply restart_at_Some. by rewrite <- H.
  - destruct (parsed_restarts parsed !! next_restart_index d) as [r1|] eqn:H1.
    + pose proof (restarts_ordered_lt _ _ _ _ _ Ho H H1 Hk). pose proof (Ha _ _ H1 ltac:(lia)). lia.
    + apply lookup_ge_None in H1. apply lookup_lt_Some in Hk. lia.
Qed.

(** A decoder at restart entry [k]. *)
Definition decoder_at (k : nat) (r : RestartEntry) : RecordDecoder :=
  mkDecoder (BLOCK_HEADER_SIZE + payload_offset r) (restart_timestamp_ns r) k Raw true.

Lemma resume_grouped i d d' r :
  next_grouped bytes parsed i (payload_offset r) (Some r) d = Ok d' ->
  cursor d = BLOCK_HEADER_SIZE + payload_offset r ->
  next_grouped bytes parsed i (payload_offset r) (Some r) (decoder_at (next_restart_index d) r)
    = Ok (set_skip true d').
Proof.
  destruct d as [c t k g skip]. unfold next_grouped. cbn. intros H ->.
  destruct (is_complete g); [|done]. cbn [negb] in H. rewrite Z.eqb_refl in *. cbn [negb] in *.
  destruct (ok_or _ _) as [mode|]; [|done].
  match goal with |- match ?m with Ok _ => _ | Err _ => _ end = _ => destruct m as [[group c']|]; [|done] end.
  by injection H as <-.
Qed.

Lemma resume_legacy i d d' r :
  next_legacy bytes parsed i (payload_offset r) (Some r) d = Ok d' ->
  cursor d = BLOCK_HEADER_SIZE + payload_offset r -> group_timestamps d = Raw ->
  skip_initial_legacy_delta d = false ->
  next_legacy bytes parsed i (payload_offset r) (Some r) (decoder_at (next_restart_index d) r) = Ok d'.
Proof.
  destruct d as [c t k g skip]. unfold next_legacy. cbn. intros H -> -> ->.
  destruct (decode_u64 _ _) as [[delta c']|]; [|done]. destruct (Z.eqb_spec i 0); cbn [andb].
  - destruct (negb (delta =? 0)); [done|].
    destruct (Z.eqb_spec (restart_timestamp_ns r) t) as [->|]; [|done]. by rewrite !Z.eqb_refl in *.
  - destruct (ok_or _ _) as [t'|]; [|done].
    destruct (Z.eqb_spec (restart_timestamp_ns r) t') as [->|]; [|done]. by rewrite !Z.eqb_refl in *.
Qed.

Lemma resume_next i d w d' k r :
  sequential i d -> parsed_restarts parsed !! k = Some r -> record_index r = i ->
  next bytes parsed i d = Ok (w, d') ->
  next bytes parsed i (decoder_at k r) = Ok (w, set_skip (grouped_layout parsed) d').
Proof.
  intros Hseq Hk Hi Hn. destruct (sequential_restart _ _ _ _ Hseq Hk Hi) as [Hki Hat].
  destruct Hseq as [Hc Hs Hr _ _]. pose proof (parsed_end _ Hparsed) as He.
  assert (Hat' : restart_at parsed i (decoder_at k r) = Some r) by (by apply restart_at_Some).
  revert Hn. unfold next. fold (restart_at parsed i d) (restart_at parsed i (decoder_at k r)).
  fold (grouped_layout parsed). rewrite Hat, Hat'.
  assert (Hoff : as_u32 (cursor d - BLOCK_HEADER_SIZE) = cursor d - BLOCK_HEADER_SIZE).
  { unfold as_u32, BLOCK_HEADER_SIZE. apply Z.mod_small. ints. }
  rewrite Hoff. intros Hn.
  assert (Hp : payload_offset r = cursor d - BLOCK_HEADER_SIZE).
  { destruct (Z.eqb_spec (payload_offset r) (cursor d - BLOCK_HEADER_SIZE)) as [|Hp%Z.eqb_neq]; [done|].
    destruct (grouped_layout parsed).
    - unfold next_grouped in Hn. rewrite Hp in Hn. by destruct (negb (is_complete _)).
    - unfold next_legacy in Hn. rewrite Hp in Hn. destruct (decode_u64 _ _) as [[? ?]|]; [|done].
      match type of Hn with match match ?m with Ok _ => _ | Err _ => _ end with Ok _ => _ | Err _ => _ end = _ =>
        destruct m as [t|]; [|done]
      end. by rewrite orb_true_r in Hn. }
  cbn [decoder_at cursor]. rewrite Hp. replace (BLOCK_HEADER_SIZE + (cursor d - BLOCK_HEADER_SIZE)) with (cursor d) by lia.
  rewrite Hoff, <- Hp in *. rewrite <- Hki. destruct (grouped_layout parsed).
  - destruct (next_grouped _ _ _ _ _ d) as [d1|] eqn:Hd; [|done].
    rewrite (resume_grouped _ _ _ _ Hd) by lia. cbn [set_skip cursor timestamp].
    destruct (read_value _ _ _ _) as [[v c]|]; [|done]. by injection Hn as <- <-.
  - destruct (next_legacy _ _ _ _ _ d) as [d1|] eqn:Hd; [|done].
    pose proof Hd as (_ & Hskip & _)%next_legacy_stepped.
    rewrite (resume_legacy _ _ _ _ Hd) by (auto || lia).
    destruct (read_value _ _ _ _) as [[v c]|]; [|done]. injection Hn as <- <-. unfold set_skip. cbn.
    by rewrite Hskip.
Qed.

(** The records from a restart entry on, and the time of its first word. *)
Lemma decode_from_restart n k r : forall i d ws d',
  sequential i d -> decode_records bytes parsed n i d = Ok (ws, d') ->
  parsed_restarts parsed !! k = Some r -> i <= record_index r < i + Z.of_nat n ->
  let j := Z.to_nat (record_index r - i) in
  (exists d'', decode_records bytes parsed (n - j) (record_index r) (decoder_at k r) = Ok (drop j ws, d'')) /\
  (exists w, ws !! j = Some w /\ timestamp_ns w = restart_timestamp_ns r).
Proof.
  induction n as [|n IH]; intros i d ws d' Hseq Hrec Hk Hi j; [lia|]. cbn [decode_records] in Hrec.
  destruct (next bytes parsed i d) as [[w d1]|] eqn:Hn; [|done].
  destruct (decode_records bytes parsed n (i + 1) d1) as [[ws1 d2]|] eqn:Hr; [|done]. injection Hrec as <- <-.
  destruct (Z.eq_dec (record_index r) i) as [Heq|Hne].
  - assert (Hj : j = 0%nat) by lia. rewrite Hj. cbn [Nat.sub drop]. rewrite Heq. cbn [decode_records]. split.
    + rewrite (resume_next _ _ _ _ _ _ Hseq Hk Heq Hn). unfold set_skip at 1. destruct (grouped_layout parsed) eqn:Hg.
      * fold (set_skip true d1). rewrite (decode_records_set_skip true _ _ _ _ _ Hg Hr). by eexists.
      * apply next_stepped in Hn as (_ & _ & _ & Hs & _). rewrite <- (Hs (seq_skip _ _ Hseq)).
        destruct d1. cbn. rewrite Hr. by eexists.
    + exists w. split; [done|]. destruct (sequential_restart _ _ _ _ Hseq Hk Heq) as [_ Hat].
      apply next_stepped in Hn as ([_ Hst] & _ & -> & _). rewrite Hat in Hst. apply Hst.
  - pose proof (IH (i + 1) d1 ws1 d2 (sequential_next _ _ _ _ Hseq Hn) Hr Hk ltac:(lia)) as [H1 H2].
    assert (Hj : j = S (Z.to_nat (record_index r - (i + 1)))) by lia. rewrite Hj. by split.
Qed.
End Resume.
