(* ===== verification/WordWindow.v ===== *)
(** The window query of a word block: [decode_word_block_range] returns a segment of the words of
    the block, which a reference function picks from the decoded block. *)

From S2P Require Import Prelude Events Vlq WordFormat WordEncode WordDecode WordResume.

(** ** The reference *)

(** How many of the leading times lie before [start]. *)
Fixpoint times_before (start : Z) (l : list Z) : nat :=
  match l with
  | [] => O
  | t :: l => if t <? start then S (times_before start l) else O
  end.

(** How many times there are up to the first one behind [end_], which counts. *)
Fixpoint times_until (end_ : Z) (l : list Z) : nat :=
  match l with
  | [] => O
  | t :: l => if end_ <? t then 1%nat else S (times_until end_ l)
  end.

Definition times (ws : list Word) : list Z := map timestamp_ns ws.

(** The record at which decoding starts: that of the last restart entry before the window. *)
Definition start_record (start : Z) (rs : list RestartEntry) : nat :=
  match rs !! (restarts_before start rs - 1)%nat with
  | Some r => Z.to_nat (record_index r)
  | None => O
  end.

(** Up to two words before the window, if they are decoded; then the words up to the first one
    behind the window; of these the first [max]. *)
Definition window_reference (h : WordBlockHeader) (rs : list RestartEntry) (ws : list Word)
    (start end_ max : Z) : DecodedWordRange :=
  let from := start_record start rs in
  let before := times_before start (times ws) in
  let context := Nat.min 2 (before - from) in
  let inside := times_until end_ (times (drop before ws)) in
  let limit := Z.to_nat max in
  let complete := Nat.eqb inside 0 || Nat.leb (context + inside) limit in
  mkRange h (take (Nat.min (context + inside) limit) (drop (before - context) ws)) complete
    (Z.of_nat (before - from + (if complete then inside else S (limit - context)))).

(** ** The loop as a function of the decoded words *)

Section Window.
Context (start end_ max : Z).

Fixpoint window_list (ws : list Word) (i : Z) (win : Window) : Window :=
  match ws with
  | [] => win
  | w :: ws =>
      let decoded := window_decoded win + 1 in
      if timestamp_ns w <? start then
        window_list ws (i + 1)
          (mkWindow (predecessor win) (Some (i, w)) (window_selected win) decoded (window_complete win))
      else
        let selected := select_predecessors max win in
        let '(pp, p) := match window_selected win with
          | [] => (None, None)
          | _ => (previous_predecessor win, predecessor win)
          end in
        if max <=? zlen selected then mkWindow pp p selected decoded false
        else
          let win := mkWindow pp p (selected ++ [(i, w)]) decoded (window_complete win) in
          if end_ <? timestamp_ns w then win else window_list ws (i + 1) win
  end.

Lemma window_loop_list bytes parsed n : forall i d ws d' win,
  decode_records bytes parsed n i d = Ok (ws, d') ->
  window_loop bytes parsed start end_ max n i d win = Ok (window_list ws i win).
Proof.
  induction n as [|n IH]; intros i d ws d' win; cbn [decode_records window_loop]; [by intros [= <- _]|].
  destruct (next bytes parsed i d) as [[w d1]|]; [|done].
  destruct (decode_records bytes parsed n (i + 1) d1) as [[ws1 d2]|] eqn:Hr; [|done]. intros [= <- _].
  cbn [window_list]. destruct (timestamp_ns w <? start); [by eapply IH|].
  destruct (window_selected win); (destruct (max <=? _); [done|]; destruct (end_ <? timestamp_ns w); [done|]; by eapply IH).
Qed.

Fixpoint indexed (i : Z) (ws : list Word) : list (Z * Word) :=
  match ws with
  | [] => []
  | w :: ws => (i, w) :: indexed (i + 1) ws
  end.

Lemma indexed_app l1 l2 : forall i, indexed i (l1 ++ l2) = indexed i l1 ++ indexed (i + zlen l1) l2.
Proof.
  induction l1 as [|w l1 IH]; intros i; cbn [app indexed]; [f_equal; unfold zlen; cbn; lia|].
  rewrite IH, zlen_cons. do 3 f_equal. lia.
Qed.

Lemma indexed_length l : forall i, length (indexed i l) = length l.
Proof. induction l as [|w l IH]; intros i; cbn; [done|]. by rewrite IH. Qed.

Lemma indexed_take n : forall l i, take n (indexed i l) = indexed i (take n l).
Proof. induction n as [|n IH]; intros [|w l] i; cbn; try done. by rewrite IH. Qed.

Lemma indexed_drop n : forall l i, drop n (indexed i l) = indexed (i + Z.of_nat n) (drop n l).
Proof.
  induction n as [|n IH]; intros l i; [by rewrite !drop_0, Z.add_0_r|].
  destruct l as [|w l]; [done|]. cbn [indexed drop]. rewrite IH. f_equal. lia.
Qed.

Lemma indexed_snd l : forall i, map snd (indexed i l) = l.
Proof. induction l as [|w l IH]; intros i; cbn; [done|]. by rewrite IH. Qed.

(** The two predecessors after the words [seen]. *)
Definition last_pair (seen : list (Z * Word)) : option (Z * Word) * option (Z * Word) :=
  match reverse seen with
  | [] => (None, None)
  | [a] => (None, Some a)
  | a :: b :: _ => (Some b, Some a)
  end.

Lemma last_pair_snoc seen x : last_pair (seen ++ [x]) = (snd (last_pair seen), Some x).
Proof. unfold last_pair. rewrite reverse_snoc. by destruct (reverse seen) as [|a [|b l]]. Qed.

Lemma window_list_before post pre : forall seen i dec complete,
  Forall (fun w => timestamp_ns w < start) pre ->
  window_list (pre ++ post) i (mkWindow (fst (last_pair seen)) (snd (last_pair seen)) [] dec complete) =
  window_list post (i + zlen pre)
    (let seen := seen ++ indexed i pre in
     mkWindow (fst (last_pair seen)) (snd (last_pair seen)) [] (dec + zlen pre) complete).
Proof.
  induction pre as [|w pre IH]; intros seen i dec complete Hpre.
  - cbn [app indexed]. rewrite app_nil_r. change (zlen (@nil Word)) with 0. by rewrite !Z.add_0_r.
  - apply Forall_cons in Hpre as [Hw Hpre]. cbn [app window_list indexed window_decoded predecessor window_selected window_complete].
    rewrite (proj2 (Z.ltb_lt _ _) Hw).
    replace (mkWindow (snd (last_pair seen)) (Some (i, w)) [] (dec + 1) complete) with
      (mkWindow (fst (last_pair (seen ++ [(i, w)]))) (snd (last_pair (seen ++ [(i, w)]))) [] (dec + 1) complete)
      by by rewrite last_pair_snoc.
    rewrite (IH _ _ _ _ Hpre), zlen_cons, <- app_assoc. cbn [app]. f_equal; [lia|]. f_equal. lia.
Qed.

Definition last_two {A} (l : list A) : list A := drop (length l - 2) l.

Lemma select_last_two seen dec complete : 0 < max ->
  select_predecessors max (mkWindow (fst (last_pair seen)) (snd (last_pair seen)) [] dec complete) =
  take (Z.to_nat max) (last_two seen).
Proof.
  intros Hmax. unfold select_predecessors, last_pair, last_two. cbn [window_selected previous_predecessor predecessor].
  rewrite <- (reverse_involutive seen). destruct (reverse seen) as [|a [|b l]]; rewrite ?reverse_involutive.
  - by rewrite reverse_nil, drop_nil, take_nil.
  - cbn [fst snd]. change (zlen (@nil (Z * Word))) with 0. rewrite (proj2 (Z.ltb_lt 0 max) Hmax).
    change (reverse [a]) with [a]. cbn [app length Nat.sub drop].
    destruct (Z.to_nat max) as [|n] eqn:Hn; [lia|]. cbn. by rewrite take_nil.
  - rewrite !reverse_cons, <- app_assoc, !length_app, length_reverse. cbn [fst snd app length].
    replace (length l + (1 + 1) - 2)%nat with (length (reverse l)) by (rewrite length_reverse; lia).
    rewrite drop_app_length. change (zlen [b]) with 1.
    destruct (Z.ltb_spec 1 max).
    + destruct (Z.to_nat max) as [|[|n]] eqn:Hn; [lia..|]. cbn. by rewrite take_nil.
    + by replace (Z.to_nat max) with 1%nat by lia.
Qed.

Lemma window_list_inside post : forall i pp p sel dec,
  0 < max -> zlen sel <= max -> sel <> [] \/ pp = None /\ p = None -> Forall (fun w => start <= timestamp_ns w) post ->
  let n := times_until end_ (times post) in
  let k := (Z.to_nat max - length sel)%nat in
  let complete := Nat.eqb n 0 || Nat.leb n k in
  window_list post i (mkWindow pp p sel dec true) =
  mkWindow pp p (sel ++ take (Nat.min n k) (indexed i post)) (dec + Z.of_nat (if complete then n else S k)) complete.
Proof.
  induction post as [|w post IH]; intros i pp p sel dec Hmax Hsel Hnone Hpost.
  - cbn. rewrite app_nil_r. f_equal. lia.
  - apply Forall_cons in Hpost as [Hw Hpost]. cbn [window_list window_decoded window_selected previous_predecessor predecessor window_complete].
    rewrite (proj2 (Z.ltb_ge _ _) Hw).
    replace (select_predecessors max (mkWindow pp p sel dec true)) with sel
      by (destruct sel; [destruct Hnone as [|[-> ->]]; done|done]).
    replace (match sel with [] => (None, None) | _ => (pp, p) end) with (pp, p)
      by (destruct sel; [destruct Hnone as [|[-> ->]]; done|done]).
    unfold zlen in *. cbn [times map times_until indexed].
    destruct (Z.leb_spec max (Z.of_nat (length sel))).
    { replace (Z.to_nat max - length sel)%nat with 0%nat by lia.
      destruct (end_ <? timestamp_ns w); cbn; by rewrite app_nil_r. }
    destruct (Z.to_nat max - length sel)%nat as [|k] eqn:Hk; [lia|].
    destruct (end_ <? timestamp_ns w); [done|].
    rewrite (IH (i + 1) pp p (sel ++ [(i, w)]) (dec + 1)); [|done|rewrite length_app; cbn; lia|left; by destruct sel|done].
    rewrite length_app. cbn [length]. replace (Z.to_nat max - (length sel + 1))%nat with k by lia.
    fold (times post). rewrite <- app_assoc. set (n := times_until end_ (times post)).
    destruct n as [|n]; [cbn; f_equal; lia|].
    cbn [Nat.eqb orb Nat.min Nat.leb app take]. destruct k as [|k]; [cbn; f_equal; lia|].
    destruct (Nat.leb (S n) (S k)) eqn:Hn; cbn [Nat.leb] in Hn; rewrite Hn; f_equal; lia.
Qed.

Definition ordered (ws : list Word) : Prop := StronglySorted Z.le (times ws).

Lemma times_before_split ws : ordered ws ->
  let n := times_before start (times ws) in
  Forall (fun w => timestamp_ns w < start) (take n ws) /\ Forall (fun w => start <= timestamp_ns w) (drop n ws).
Proof.
  unfold ordered. induction ws as [|w ws IH]; intros Hs; [by split; constructor|].
  cbn [times map] in *. apply StronglySorted_inv in Hs as [Hs Hw]. cbn [times_before].
  destruct (Z.ltb_spec (timestamp_ns w) start); cbn [take drop].
  - destruct (IH Hs). split; [by constructor|done].
  - split; [constructor|]. constructor; [done|]. rewrite List.Forall_map in Hw.
    eapply Forall_impl; [exact Hw|]. cbn. intros; lia.
Qed.

Lemma times_before_le l : (times_before start l <= length l)%nat.
Proof. induction l as [|t l IH]; cbn; [lia|]. destruct (_ <? _); lia. Qed.

Lemma drop_split {A} (l : list A) (from before : nat) : (from <= before <= length l)%nat ->
  drop from l = drop from (take before l) ++ drop before l.
Proof.
  intros H. rewrite <- (take_drop before l) at 1. rewrite drop_app_le; [done|]. rewrite length_take. lia.
Qed.

Lemma select_done sel dec complete : select_predecessors max (mkWindow None None sel dec complete) = sel.
Proof. by destruct sel. Qed.

(** The first word inside the window fixes the predecessors. *)
Lemma window_list_select w post i pp p dec :
  start <= timestamp_ns w ->
  window_list (w :: post) i (mkWindow pp p [] dec true) =
  window_list (w :: post) i
    (mkWindow None None (select_predecessors max (mkWindow pp p [] dec true)) dec true).
Proof.
  intros Hw. cbn [window_list window_decoded]. rewrite (proj2 (Z.ltb_ge _ _) Hw), select_done.
  cbn [window_selected previous_predecessor predecessor window_complete].
  by destruct (select_predecessors max _).
Qed.

(** The window over the words from number [from] on. *)
Lemma window_run ws (from : nat) :
  ordered ws -> 0 < max -> (from <= times_before start (times ws))%nat ->
  let before := times_before start (times ws) in
  let context := Nat.min 2 (before - from) in
  let inside := times_until end_ (times (drop before ws)) in
  let limit := Z.to_nat max in
  let complete := Nat.eqb inside 0 || Nat.leb (context + inside) limit in
  let win := window_list (drop from ws) (Z.of_nat from) (mkWindow None None [] 0 true) in
  select_predecessors max win =
    indexed (Z.of_nat (before - context)) (take (Nat.min (context + inside) limit) (drop (before - context) ws)) /\
  window_complete win = complete /\
  window_decoded win = Z.of_nat (before - from + (if complete then inside else S (limit - context))).
Proof.
  intros Hs Hmax Hfrom before context inside limit complete.
  destruct (times_before_split ws Hs) as [Hpre Hpost]. fold before in Hpre, Hpost, Hfrom.
  set (pre := drop from (take before ws)). set (post := drop before ws) in *.
  assert (Hlen : (before <= length ws)%nat).
  { unfold before. rewrite <- (length_map timestamp_ns). apply times_before_le. }
  assert (Hsplit : drop from ws = pre ++ post) by (apply drop_split; lia).
  assert (Hprelen : length pre = (before - from)%nat) by (unfold pre; rewrite length_drop, length_take; lia).
  set (ctx := drop (length pre - 2) pre).
  assert (Hctx : drop (before - context) ws = ctx ++ post).
  { unfold ctx. rewrite <- drop_app_le by lia. rewrite <- Hsplit, drop_drop. f_equal. unfold context. lia. }
  assert (Hctxlen : length ctx = context) by (unfold ctx, context; rewrite length_drop; lia).
  intros win. unfold win. clear win. rewrite Hsplit.
  change (mkWindow None None [] 0 true) with
    (mkWindow (fst (last_pair [])) (snd (last_pair [])) [] 0 true).
  rewrite window_list_before by by apply Forall_drop. cbn [app].
  assert (Hsel : forall dec complete, select_predecessors max (mkWindow (fst (last_pair (indexed (Z.of_nat from) pre)))
      (snd (last_pair (indexed (Z.of_nat from) pre))) [] dec complete) =
    take limit (indexed (Z.of_nat (before - context)) ctx)).
  { intros dec ?. rewrite select_last_two by done. unfold last_two. rewrite indexed_length, indexed_drop. fold ctx.
    do 2 f_equal. unfold context. lia. }
  assert (Hpos : Z.of_nat from + zlen pre = Z.of_nat (before - context) + zlen ctx) by (unfold zlen, context in *; lia).
  rewrite Hctx, <- indexed_take, indexed_app, <- Hpos, take_app, indexed_length, Hctxlen.
  destruct post as [|w post'].
  - assert (Hin : inside = 0%nat) by done. assert (Ht : complete = true) by (unfold complete; by rewrite Hin).
    cbn [window_list window_complete window_decoded indexed]. rewrite Hsel, take_nil, app_nil_r, Ht, Hin, Nat.add_0_r.
    split_and!; [|done|unfold zlen; lia].
    destruct (Nat.le_ge_cases context limit); [by rewrite !take_ge by (rewrite indexed_length; lia)|].
    by rewrite Nat.min_r by lia.
  - rewrite window_list_select by (by apply Forall_cons in Hpost as [? _]). rewrite Hsel.
    rewrite window_list_inside; [|done| |by right|done].
    2: { unfold zlen. rewrite length_take. unfold limit. lia. }
    fold inside limit. rewrite select_done. cbn [window_complete window_decoded].
    rewrite length_take, indexed_length, Hctxlen.
    assert (Hc : Nat.eqb inside 0 || Nat.leb inside (limit - Nat.min limit context) = complete).
    { unfold complete. destruct (Nat.eqb_spec inside 0); [done|]. cbn [orb].
      destruct (Nat.leb_spec inside (limit - Nat.min limit context)), (Nat.leb_spec (context + inside) limit); lia || done. }
    rewrite Hc. split_and!; [|done|destruct complete; unfold zlen; lia].
    f_equal; [|f_equal; lia].
    destruct (Nat.le_ge_cases context limit); [by rewrite !take_ge by (rewrite indexed_length; lia)|].
    f_equal. lia.
Qed.
End Window.
