(* ===== verification/WordGroups.v ===== *)
(** The grouped record layout: the palette of time steps, its packed indices, and the decoding of
    the three kinds of groups. *)

From S2P Require Import Prelude Events Vlq WordFormat WordEncode WordDecode WordRecords.

(** ** Packed indices *)

Lemma u8_lor a b : u8 a -> u8 b -> u8 (Z.lor a b).
Proof.
  unfold u8. intros Ha Hb. assert (0 <= Z.lor a b) by (apply Z.lor_nonneg; lia). split; [done|].
  change 256 with (2 ^ 8). rewrite <- (Z.mod_small a (2 ^ 8)), <- (Z.mod_small b (2 ^ 8)) by done.
  rewrite <- !Z.land_ones, <- Z.land_lor_distr_l, Z.land_ones by lia. by apply Z.mod_pos_bound.
Qed.

(** Setting bits in one byte sets them in the number the bytes spell. *)
Lemma alter_lor bytes k x :
  bytes_ok bytes -> (k < length bytes)%nat -> u8 x ->
  bytes_ok (alter (fun b => Z.lor b x) k bytes) /\
  from_le_bytes (alter (fun b => Z.lor b x) k bytes) =
    Z.lor (from_le_bytes bytes) (Z.shiftl x (8 * Z.of_nat k)).
Proof.
  intros Hb Hk Hx.
  assert (Hok : bytes_ok (alter (fun b => Z.lor b x) k bytes)).
  { apply Forall_alter; [done|]. intros b Hlk Hu. by apply u8_lor. }
  split; [done|]. apply Z.bits_inj'. intros q Hq.
  rewrite Z.lor_spec, !testbit_from_le_bytes, Z.shiftl_spec by done.
  assert (0 <= q / 8) by (apply Z.div_pos; lia).
  pose proof (Z.div_mod q 8 ltac:(lia)) as Hdm. pose proof (Z.mod_pos_bound q 8 ltac:(lia)).
  rewrite list_lookup_alter. destruct (decide (k = Z.to_nat (q / 8))) as [->|Hne].
  - destruct (lookup_lt_is_Some_2 bytes _ Hk) as [b Hlk]. rewrite Hlk. cbn.
    rewrite Z.lor_spec. do 2 f_equal. lia.
  - replace (Z.testbit x (q - 8 * Z.of_nat k)) with false; [by rewrite orb_false_r|].
    symmetry. destruct (Z.lt_ge_cases q (8 * Z.of_nat k)).
    + apply Z.testbit_neg_r. lia.
    + apply testbit_u8; [done|]. lia.
Qed.

Lemma shiftl_mod_u8 v shift : 0 <= v -> 0 <= shift -> u8 (as_u8 (Z.shiftl v shift)).
Proof. intros. apply Z.mod_pos_bound. lia. Qed.

(** Writing an index ORs it in at its bit position. *)
Lemma write_packed_value bytes index bits v :
  bytes_ok bytes -> 0 <= index -> 0 <= bits <= 8 -> 0 <= v < 2 ^ bits -> 1 <= bits ->
  (index + 1) * bits <= 8 * zlen bytes ->
  bytes_ok (write_packed_index bytes index bits v) /\
  length (write_packed_index bytes index bits v) = length bytes /\
  from_le_bytes (write_packed_index bytes index bits v) =
    Z.lor (from_le_bytes bytes) (Z.shiftl v (index * bits)).
Proof.
  intros Hb Hi Hbits Hv H1 Hfit. unfold write_packed_index, zlen in *.
  set (k := index * bits / 8). set (shift := (index * bits) mod 8).
  assert (Hdm : index * bits = 8 * k + shift) by (apply Z.div_mod; lia).
  assert (Hshift : 0 <= shift < 8) by (apply Z.mod_pos_bound; lia).
  assert (Hk : 0 <= k) by (apply Z.div_pos; lia).
  set (encoded := Z.shiftl v shift mod 65536).
  assert (Hbound : 0 <= Z.shiftl v shift < 2 ^ (bits + shift)).
  { rewrite Z.shiftl_mul_pow2, Z.pow_add_r by lia. pose proof (Z.pow_pos_nonneg 2 shift). nia. }
  assert (Hle : 2 ^ (bits + shift) <= 2 ^ 15) by (apply Z.pow_le_mono_r; lia).
  assert (Henc : encoded = Z.shiftl v shift).
  { apply Z.mod_small. change (2 ^ 15) with 32768 in Hle. lia. }
  assert (Hlow : u8 (as_u8 encoded)) by (apply Z.mod_pos_bound; lia).
  destruct (alter_lor bytes (Z.to_nat k) (as_u8 encoded) Hb) as [Hok1 Hval1]; [nia|done|].
  assert (Hpos : Z.shiftl v (index * bits) = Z.shiftl encoded (8 * k)).
  { rewrite Henc, Z.shiftl_shiftl by lia. f_equal. lia. }
  destruct (Z.ltb_spec 8 (shift + bits)) as [Hover|Hin].
  - assert (Hhigh : as_u8 (Z.shiftr encoded 8) = Z.shiftr encoded 8).
    { apply Z.mod_small. rewrite Z.shiftr_div_pow2 by lia. change (2 ^ 8) with 256. split.
      - apply Z.div_pos; lia.
      - apply Z.div_lt_upper_bound; [lia|]. change (2 ^ 15) with 32768 in Hle. lia. }
    assert (Hhu : u8 (as_u8 (Z.shiftr encoded 8))) by (apply Z.mod_pos_bound; lia).
    destruct (alter_lor _ (Z.to_nat (k + 1)) _ Hok1 ltac:(rewrite length_alter; nia) Hhu) as [Hok2 Hval2].
    split; [done|]. split; [by rewrite !length_alter|].
    rewrite Hval2, Hval1, <- Z.lor_assoc, Hpos. f_equal.
    apply Z.bits_inj'. intros q Hq. rewrite Z.lor_spec, !Z.shiftl_spec by done. rewrite Hhigh.
    destruct (Z.lt_ge_cases q (8 * k + 8)).
    + rewrite (Z.testbit_neg_r (Z.shiftr encoded 8)), orb_false_r by lia.
      unfold as_u8. change 256 with (2 ^ 8).
      destruct (Z.lt_ge_cases (q - 8 * k) 0); [by rewrite !Z.testbit_neg_r by lia|].
      replace (8 * Z.of_nat (Z.to_nat k)) with (8 * k) by lia.
      apply Z.mod_pow2_bits_low. lia.
    + rewrite (testbit_u8 _ (q - 8 * Z.of_nat (Z.to_nat k)) Hlow) by lia. cbn [orb].
      rewrite Z.shiftr_spec by lia. f_equal. lia.
  - split; [done|]. split; [by rewrite length_alter|]. rewrite Hval1, Hpos. f_equal.
    replace (8 * Z.of_nat (Z.to_nat k)) with (8 * k) by lia. f_equal.
    apply Z.mod_small. rewrite Henc.
    assert (2 ^ (bits + shift) <= 2 ^ 8) by (apply Z.pow_le_mono_r; lia).
    change (2 ^ 8) with 256 in *. lia.
Qed.

(** The bits of the packed indices. *)
Lemma pack_indices_bits palette bits ds : forall index bytes,
  bytes_ok bytes -> 0 <= index -> 1 <= bits <= 8 ->
  (forall d, In d ds -> 0 <= palette_position palette d < 2 ^ bits) ->
  (index + zlen ds) * bits <= 8 * zlen bytes ->
  (forall q, index * bits <= q -> Z.testbit (from_le_bytes bytes) q = false) ->
  let bytes' := pack_indices palette bits index ds bytes in
  bytes_ok bytes' /\ length bytes' = length bytes /\
  (forall q, 0 <= q < index * bits -> Z.testbit (from_le_bytes bytes') q = Z.testbit (from_le_bytes bytes) q) /\
  (forall j d t, ds !! j = Some d -> 0 <= t < bits ->
    Z.testbit (from_le_bytes bytes') ((index + Z.of_nat j) * bits + t) =
    Z.testbit (palette_position palette d) t).
Proof.
  induction ds as [|d ds IH]; intros index bytes Hb Hi Hbits Hpos Hfit Hzero; [by split_and!|].
  rewrite zlen_cons in Hfit. pose proof (zlen_nonneg ds). cbn [pack_indices].
  assert (Hd : 0 <= palette_position palette d < 2 ^ bits) by (apply Hpos; by left).
  assert (Hd8 : as_u8 (palette_position palette d) = palette_position palette d).
  { apply Z.mod_small. assert (2 ^ bits <= 2 ^ 8) by (apply Z.pow_le_mono_r; lia).
    change (2 ^ 8) with 256 in *. lia. }
  rewrite Hd8. set (v := palette_position palette d) in *.
  destruct (write_packed_value bytes index bits v Hb Hi ltac:(lia) Hd ltac:(lia) ltac:(nia))
    as (Hok & Hlen & Hval).
  assert (Hbit : forall q, 0 <= q -> Z.testbit (from_le_bytes (write_packed_index bytes index bits v)) q
    = Z.testbit (from_le_bytes bytes) q || Z.testbit v (q - index * bits)).
  { intros q Hq. by rewrite Hval, Z.lor_spec, Z.shiftl_spec by done. }
  assert (Hvz : forall q, bits <= q -> Z.testbit v q = false).
  { intros q Hq. rewrite <- (Z.mod_small v (2 ^ bits)) by done. apply Z.mod_pow2_bits_high. lia. }
  destruct (IH (index + 1) (write_packed_index bytes index bits v)) as (H1 & H2 & H3 & H4);
    try done; [lia|intros x Hx; apply Hpos; by right|unfold zlen in *; rewrite Hlen; lia| |].
  { intros q Hq. rewrite Hbit by nia. rewrite Hzero, Hvz by nia. done. }
  split; [done|]. split; [congruence|]. split.
  - intros q Hq. rewrite H3, Hbit by nia. rewrite (Z.testbit_neg_r v) by lia. apply orb_false_r.
  - intros [|j] x t Hx Ht.
    + injection Hx as <-. rewrite Z.add_0_r, H3, Hbit by nia.
      rewrite Hzero by lia. cbn [orb]. f_equal. lia.
    + rewrite <- (H4 j x t) by done. do 2 f_equal. lia.
Qed.

(** Reading an index back from the block the packed bytes are a segment of. *)
Lemma read_packed_value bytes cursor packed post index bits v :
  at_cursor bytes cursor (packed ++ post) -> bytes_ok packed -> bytes_ok post ->
  0 <= index -> 1 <= bits <= 8 -> (index + 1) * bits <= 8 * zlen packed -> 0 <= v < 2 ^ bits ->
  (forall t, 0 <= t < bits -> Z.testbit (from_le_bytes packed) (index * bits + t) = Z.testbit v t) ->
  read_packed_index bytes cursor index bits = Ok v.
Proof.
  intros Hat Hb Hpost Hi Hbits Hfit Hv Hv2. unfold read_packed_index.
  set (k := index * bits / 8). set (shift := (index * bits) mod 8).
  assert (Hdm : index * bits = 8 * k + shift) by (apply Z.div_mod; lia).
  assert (Hshift : 0 <= shift < 8) by (apply Z.mod_pos_bound; lia).
  assert (Hk : 0 <= k) by (apply Z.div_pos; lia).
  destruct (at_cursor_inv _ _ _ Hat) as (pre & Hbytes & Hc). pose proof (zlen_nonneg pre) as Hpre.
  assert (Hat2 : forall i, 0 <= i -> byte_at bytes (cursor + i) = (packed ++ post) !! Z.to_nat i).
  { intros i Hi'. unfold byte_at. rewrite (proj2 (Z.ltb_ge _ _)) by lia. rewrite Hbytes, Hc.
    unfold zlen. rewrite lookup_app_r by lia. f_equal. lia. }
  unfold zlen in Hfit.
  destruct (lookup_lt_is_Some_2 packed (Z.to_nat k)) as [low Hlow]; [nia|].
  rewrite Hat2 by lia. rewrite (lookup_app_l_Some _ _ _ _ Hlow). cbn [ok_or].
  replace (cursor + k + 1) with (cursor + (k + 1)) by lia. rewrite Hat2 by lia.
  set (high := default 0 _).
  assert (Hlowu : u8 low) by (by apply (Forall_lookup_1 _ _ _ _ Hb Hlow)).
  assert (Hhighu : u8 high).
  { unfold high. destruct ((packed ++ post) !! Z.to_nat (k + 1)) as [h|] eqn:Hh; [|unfold u8; cbn; lia].
    cbn. apply lookup_app_Some in Hh as [Hh|[_ Hh]];
      [apply (Forall_lookup_1 _ _ _ _ Hb Hh)|apply (Forall_lookup_1 _ _ _ _ Hpost Hh)]. }
  assert (Hword : forall t, 0 <= t < bits ->
    Z.testbit (Z.lor low (Z.shiftl high 8)) (shift + t) = Z.testbit v t).
  { intros t Ht. rewrite <- Hv2 by done. rewrite testbit_from_le_bytes by (done || lia).
    rewrite Z.lor_spec, Z.shiftl_spec by lia. rewrite Hdm.
    destruct (Z.lt_ge_cases (shift + t) 8) as [Hin|Hout].
    - rewrite (Z.testbit_neg_r high), orb_false_r by lia.
      replace ((8 * k + shift + t) / 8) with k by (apply Z.div_unique with (shift + t); lia).
      replace ((8 * k + shift + t) mod 8) with (shift + t) by (apply Z.mod_unique with k; lia).
      by rewrite Hlow.
    - rewrite (testbit_u8 low) by done. cbn [orb].
      replace ((8 * k + shift + t) / 8) with (k + 1)
        by (apply Z.div_unique with (shift + t - 8); lia).
      replace ((8 * k + shift + t) mod 8) with (shift + t - 8) by (apply Z.mod_unique with (k + 1); lia).
      destruct (lookup_lt_is_Some_2 packed (Z.to_nat (k + 1))) as [h Hh]; [nia|].
      unfold high. by rewrite (lookup_app_l_Some _ _ _ _ Hh), Hh. }
  assert (Hres : Z.land (Z.shiftr (Z.lor low (Z.shiftl high 8)) shift) (Z.shiftl 1 bits - 1) = v).
  { replace (Z.shiftl 1 bits - 1) with (Z.ones bits) by (rewrite Z.ones_equiv, Z.shiftl_1_l; lia).
    rewrite Z.land_ones by lia. rewrite <- (Z.mod_small v (2 ^ bits)) by done.
    apply Z.bits_inj'. intros t Ht. destruct (Z.lt_ge_cases t bits).
    - rewrite !Z.mod_pow2_bits_low, Z.shiftr_spec by lia. rewrite Z.add_comm. apply Hword. lia.
    - by rewrite !Z.mod_pow2_bits_high by lia. }
  rewrite Hres. f_equal. apply Z.mod_small.
  assert (2 ^ bits <= 2 ^ 8) by (apply Z.pow_le_mono_r; lia). change (2 ^ 8) with 256 in *. lia.
Qed.

(** ** The palette *)

(** What the scan of a group's time steps leaves: the palette grows to at most 16 entries, holds
    every step when it stays available, and stays available while it has room. *)
Lemma collect_palette_spec ds : forall palette available raw palette' available' raw',
  collect_palette ds palette available raw = (palette', available', raw') ->
  (length palette <= 16)%nat ->
  (length palette' <= 16)%nat /\
  (exists more, palette' = palette ++ more /\ forall d, In d more -> In d ds) /\
  ((length palette' < 16)%nat -> available' = available) /\
  (available' = true -> available = true /\ forall d, In d ds -> In d palette') /\
  raw' = raw + fold_right Z.add 0 (map encoded_len ds).
Proof.
  induction ds as [|d ds IH]; intros palette available raw palette' available' raw' H Hlen.
  { injection H as -> -> ->. split_and!; [done|by exists []; rewrite app_nil_r|done|done|cbn; lia]. }
  cbn [collect_palette] in H. destruct (existsb (Z.eqb d) palette) eqn:Hin.
  - apply existsb_exists in Hin as (x & Hx & ->%Z.eqb_eq).
    destruct (IH _ _ _ _ _ _ H Hlen) as (H1 & (more & -> & Hm) & H2 & H3 & ->).
    split_and!; [done| |done| |cbn; lia].
    + exists more. split; [done|]. intros y Hy. right. by apply Hm.
    + intros Ha. destruct (H3 Ha) as [H4 H5]. split; [done|]. intros y [<-|Hy]; [|by apply H5].
      apply in_or_app. by left.
  - destruct (Nat.eqb_spec (length palette) 16) as [Hfull|Hroom].
    + destruct (IH _ _ _ _ _ _ H Hlen) as (H1 & (more & -> & Hm) & H2 & H3 & ->).
      split_and!; [done| | | |cbn; lia].
      * exists more. split; [done|]. intros y Hy. right. by apply Hm.
      * rewrite length_app. lia.
      * intros Ha. by destruct (H3 Ha).
    + destruct (IH _ _ _ _ _ _ H) as (H1 & (more & -> & Hm) & H2 & H3 & ->).
      { rewrite length_app. cbn. lia. }
      split_and!; [done| |done| |cbn; lia].
      * exists (d :: more). rewrite <- app_assoc. split; [done|].
        intros y [<-|Hy]; [by left|right; by apply Hm].
      * intros Ha. destruct (H3 Ha) as [H4 H5]. split; [done|]. intros y [<-|Hy]; [|by apply H5].
        apply in_or_app. left. apply in_or_app. right. by left.
Qed.

Lemma palette_position_spec palette d :
  In d palette ->
  0 <= palette_position palette d < zlen palette /\
  byte_at palette (palette_position palette d) = Some d.
Proof.
  induction palette as [|p palette IH]; intros H; [done|]. cbn [palette_position].
  rewrite zlen_cons. pose proof (zlen_nonneg palette).
  destruct (Z.eqb_spec p d) as [->|Hne]; [split; [lia|done]|].
  destruct H as [|H]; [done|]. destruct (IH H) as [H1 H2]. split; [lia|].
  unfold byte_at in *. rewrite (proj2 (Z.ltb_ge _ _)) in H2 by lia.
  rewrite (proj2 (Z.ltb_ge _ _)) by lia. rewrite Z2Nat.inj_add by lia. exact H2.
Qed.

Lemma palette_bits_fit n : 1 < n <= 16 -> n <= 2 ^ palette_index_bits n /\ 1 <= palette_index_bits n <= 4.
Proof.
  intros H. unfold palette_index_bits. rewrite (proj2 (Z.leb_gt _ _)) by lia.
  destruct (Z.leb_spec n 2); [lia|]. destruct (Z.leb_spec n 4); [lia|].
  destruct (Z.leb_spec n 8); lia.
Qed.

Lemma decode_u64s_at bytes post : forall vs cursor,
  Forall u64 vs -> at_cursor bytes cursor (concat (map encode_u64 vs) ++ post) ->
  decode_u64s (length vs) bytes cursor = Ok (vs, cursor + zlen (concat (map encode_u64 vs))).
Proof.
  induction vs as [|v vs IH]; intros cursor Hu Hat; [cbn; by rewrite Z.add_0_r|].
  apply Forall_cons in Hu as [Hv Hu]. cbn [map concat length decode_u64s] in *.
  rewrite <- app_assoc in Hat. rewrite (decode_encode_u64 _ _ _ _ Hv Hat).
  apply at_cursor_app in Hat. rewrite (IH _ Hu Hat), zlen_app. apply f_equal, f_equal2; [done|lia].
Qed.

(** ** Decoding inside a group *)

(** The time steps of the words after [prev]. *)
Fixpoint gaps (prev : Z) (ws : list Word) : list Z :=
  match ws with
  | [] => []
  | w :: ws => timestamp_ns w - prev :: gaps (timestamp_ns w) ws
  end.

(** What a group holds after its first value: the steps are interleaved with the values only in
    the raw layout. *)
Fixpoint body (g : GroupTimestampDecoder) (prev : Z) (ws : list Word) : list Z :=
  match ws with
  | [] => []
  | w :: ws => (match g with Raw => encode_u64 (timestamp_ns w - prev) | _ => [] end)
      ++ value w :: body g (timestamp_ns w) ws
  end.

(** The decoder of time steps delivers the steps of the words to come. *)
Definition serves (bytes : list Z) (g : GroupTimestampDecoder) (prev : Z) (ws : list Word) : Prop :=
  match g with
  | Raw => True
  | Constant delta => Forall (eq delta) (gaps prev ws)
  | Palette palette bits packed_offset delta_count next_delta =>
      0 <= next_delta /\ delta_count = next_delta + zlen ws /\
      forall j delta, gaps prev ws !! j = Some delta -> exists i,
        read_packed_index bytes packed_offset (next_delta + Z.of_nat j) bits = Ok i /\
        byte_at palette i = Some delta
  end.

(** The step decoder after one step. *)
Definition served (g : GroupTimestampDecoder) : GroupTimestampDecoder :=
  match g with
  | Palette palette bits packed_offset delta_count next_delta =>
      Palette palette bits packed_offset delta_count (next_delta + 1)
  | g => g
  end.

Lemma serves_next bytes g prev w ws :
  serves bytes g prev (w :: ws) -> serves bytes (served g) (timestamp_ns w) ws.
Proof.
  destruct g as [|delta|palette bits off count nd]; cbn; [done|by intros []%Forall_cons|].
  rewrite zlen_cons. intros (H1 & H2 & H3). split_and!; [lia|lia|]. intros j delta Hj.
  destruct (H3 (S j) delta Hj) as (i & Hr & Hb). exists i. split; [|done]. rewrite <- Hr. f_equal. lia.
Qed.

Lemma body_served g prev ws : body (served g) prev ws = body g prev ws.
Proof. revert prev. induction ws as [|w ws IH]; intros prev; destruct g; cbn; by rewrite ?IH. Qed.

Section Groups.
Context (bytes : list Z) (parsed : ParsedWordBlock) (post : list Z).
Context (Hwidth : parsed_value_bytes parsed = 1) (Hend : record_end parsed - 72 <= u32_max).
Context (Hflag : Z.land (flags (parsed_header parsed)) BLOCK_FLAG_GROUPED_TIMESTAMPS = 4).
Context (Hbytes : bytes_ok bytes).

(** No restart is due for the next [n] records. *)
Definition next_restart_after (k : nat) (index : Z) : Prop :=
  match parsed_restarts parsed !! k with Some r => index <= record_index r | None => True end.

(** The decoder inside a group, in front of the records of [ws] and [rest]. *)
Definition group_state (k : nat) (prev : Z) (ws : list Word) (rest : list Z) (d : RecordDecoder) : Prop :=
  72 <= cursor d /\
  at_cursor bytes (cursor d) ((body (group_timestamps d) prev ws ++ rest) ++ post) /\
  record_end parsed = cursor d + zlen (body (group_timestamps d) prev ws ++ rest) /\
  timestamp d = prev /\ serves bytes (group_timestamps d) prev ws /\ next_restart_index d = k.

(** The value behind a time step or a group's head. *)
Lemma read_byte_value cursor v rest :
  u8 v -> at_cursor bytes cursor ((v :: rest) ++ post) ->
  record_end parsed = cursor + zlen (v :: rest) ->
  read_value bytes cursor (record_end parsed) (parsed_value_bytes parsed) = Ok (v, cursor + 1) /\
  at_cursor bytes (cursor + 1) (rest ++ post).
Proof.
  intros Hv Hat He. rewrite Hwidth. rewrite zlen_cons in He.
  pose proof (zlen_nonneg rest). split; [|apply (at_cursor_next _ _ v); exact Hat].
  apply (read_value_at _ _ 1 _ (rest ++ post)); [by left|exact Hv| |lia].
  unfold append_value. cbn. rewrite Z.mod_small by exact Hv. exact Hat.
Qed.

(** The time step of the next record inside a group. *)
Lemma group_step k index prev w ws rest d :
  u64 prev -> prev <= timestamp_ns w <= u64_max ->
  group_state k prev (w :: ws) rest d ->
  exists c, next_grouped bytes parsed index (as_u32 (cursor d - BLOCK_HEADER_SIZE)) None d =
    Ok (mkDecoder c (timestamp_ns w) k (served (group_timestamps d)) (skip_initial_legacy_delta d)) /\
    72 <= c /\
    at_cursor bytes c ((value w :: body (group_timestamps d) (timestamp_ns w) ws ++ rest) ++ post) /\
    record_end parsed = c + zlen (value w :: body (group_timestamps d) (timestamp_ns w) ws ++ rest).
Proof.
  intros Hp Ht (Hc & Hat & He & Htime & Hs & Hk). destruct d as [c t k' g s]. cbn in *. subst t k'.
  assert (Hadd : forall delta, delta = timestamp_ns w - prev ->
    ok_or (checked_add64 prev delta) (invalid "timestamp delta overflow") = Ok (timestamp_ns w)).
  { intros delta ->. unfold checked_add64. replace (prev + (timestamp_ns w - prev)) with (timestamp_ns w) by lia.
    by rewrite (proj2 (Z.leb_le _ _)) by lia. }
  destruct g as [|delta|palette bits off count nd]; unfold next_grouped;
    cbn [group_timestamps cursor timestamp next_restart_index skip_initial_legacy_delta served body].
  - pose proof (at_cursor_prefix _ _ _ _ Hat) as Hpre.
    rewrite <- He, <- app_assoc in Hpre. unfold record_bytes.
    assert (Hd : u64 (timestamp_ns w - prev)) by ints.
    rewrite (decode_encode_u64 _ _ _ _ Hd Hpre), Hadd by done.
    exists (c + zlen (encode_u64 (timestamp_ns w - prev))). split; [done|].
    pose proof (zlen_nonneg (encode_u64 (timestamp_ns w - prev))). split; [lia|].
    rewrite <- !(app_assoc (encode_u64 _)) in Hat. apply at_cursor_app in Hat. split; [exact Hat|].
    rewrite <- app_assoc, zlen_app in He. cbn [app] in He. lia.
  - cbn in Hs. apply Forall_cons in Hs as [Hd _]. rewrite (Hadd delta Hd). exists c. done.
  - cbn in Hs. destruct Hs as (H1 & H2 & H3). rewrite zlen_cons in H2. pose proof (zlen_nonneg ws).
    rewrite (proj2 (Z.leb_gt _ _)) by lia.
    destruct (H3 O _ eq_refl) as (i & Hr & Hb). rewrite Z.add_0_r in Hr. rewrite Hr.
    cbn [ok_or]. rewrite Hb. cbn [ok_or]. rewrite (Hadd _ eq_refl). exists c. done.
Qed.

Lemma group_next k index prev w ws rest d :
  u64 prev -> u8 (value w) -> prev <= timestamp_ns w <= u64_max -> next_restart_after k (index + 1) ->
  group_state k prev (w :: ws) rest d ->
  exists d', next bytes parsed index d = Ok (plain w, d') /\
    group_state k (timestamp_ns w) ws rest d'.
Proof.
  intros Hp Hv Ht Hk Hst. destruct (group_step k index prev w ws rest d Hp Ht Hst)
    as (c & Hstep & Hc & Hat & He).
  destruct Hst as (_ & _ & _ & _ & Hs & Hkd). unfold next. rewrite Hkd.
  assert (Hnone : match parsed_restarts parsed !! k with
    | Some restart => if record_index restart =? index then Some restart else None
    | None => None end = None).
  { unfold next_restart_after in Hk. destruct (parsed_restarts parsed !! k); [|done].
    by rewrite (proj2 (Z.eqb_neq _ _)) by lia. }
  rewrite Hnone, Hflag. cbn [Z.eqb negb]. rewrite Hstep.
  cbn [cursor timestamp next_restart_index group_timestamps skip_initial_legacy_delta].
  destruct (read_byte_value c (value w) (body (group_timestamps d) (timestamp_ns w) ws ++ rest) Hv Hat He)
    as [-> Hat'].
  eexists. split; [done|]. unfold group_state. cbn. rewrite body_served.
  split_and!; try done; [lia| |by apply serves_next with prev].
  rewrite He, zlen_cons. lia.
Qed.

Lemma group_decode k rest ws : forall index prev d,
  u64 prev -> records_ok 1 prev ws -> next_restart_after k (index + zlen ws) ->
  group_state k prev ws rest d ->
  exists d', decode_records bytes parsed (length ws) index d = Ok (map plain ws, d') /\
    group_state k (default prev (timestamp_ns <$> last ws)) [] rest d'.
Proof.
  induction ws as [|w ws IH]; intros index prev d Hp Hok Hk Hst; [by exists d|].
  destruct Hok as (Hv & Ht & Hok). rewrite zlen_cons in Hk. pose proof (zlen_nonneg ws).
  assert (Hk1 : next_restart_after k (index + 1)).
  { unfold next_restart_after in *. destruct (parsed_restarts parsed !! k); [lia|done]. }
  destruct (group_next k index prev w ws rest d Hp Hv Ht Hk1 Hst) as (d1 & Hn & Hst1).
  cbn [length decode_records]. rewrite Hn. rewrite Z.add_assoc in Hk.
  destruct (IH (index + 1) (timestamp_ns w) d1) as (d' & -> & Hst'); try done; [ints|].
  exists d'. split; [done|]. rewrite last_cons. destruct (last ws); done.
Qed.
End Groups.
