(* ===== verification/WordGrouped.v ===== *)
(** The grouped record layout as a whole: the three kinds of groups the encoder chooses from, the
    decoder's start of each, and that it reads back a sequence of groups. *)

From S2P Require Import Prelude Events Vlq WordFormat WordEncode WordDecode WordRecords WordGroups.

Definition word_values (ws : list Word) : list Z := map value ws.

(** [body] of a group whose steps are not interleaved is its values. *)
Lemma body_values g prev ws : g <> Raw -> body g prev ws = word_values ws.
Proof.
  intros Hg. revert prev. induction ws as [|w ws IH]; intros prev; [done|].
  destruct g; [done| |]; cbn; by rewrite IH.
Qed.

Lemma deltas_gaps w ws : u64 (timestamp_ns w) -> records_ok 1 (timestamp_ns w) ws ->
  deltas (w :: ws) = gaps (timestamp_ns w) ws.
Proof.
  revert w. induction ws as [|w' ws IH]; intros w Hw Hok; [done|]. destruct Hok as (Hv & Ht & Hok).
  change (deltas (w :: w' :: ws)) with (sub64 (timestamp_ns w') (timestamp_ns w) :: deltas (w' :: ws)).
  rewrite (IH w' ltac:(ints) Hok). by rewrite sub64_small by ints.
Qed.

Lemma gaps_u64 ws : forall prev, u64 prev -> records_ok 1 prev ws -> Forall u64 (gaps prev ws).
Proof.
  induction ws as [|w ws IH]; intros prev Hp Hok; [constructor|]. destruct Hok as (Hv & Ht & Hok).
  constructor; [ints|]. apply IH; [ints|done].
Qed.

Lemma zlen_gaps prev ws : zlen (gaps prev ws) = zlen ws.
Proof. revert prev. induction ws as [|w ws IH]; intros prev; [done|]. cbn. by rewrite !zlen_cons, IH. Qed.

Lemma values_u8 ws : forall prev, records_ok 1 prev ws -> map (fun w => as_u8 (value w)) ws = word_values ws.
Proof.
  induction ws as [|w ws IH]; intros prev Hok; [done|]. destruct Hok as (Hv & Ht & Hok).
  cbn. rewrite (IH _ Hok). f_equal. apply Z.mod_small. exact Hv.
Qed.

Lemma raw_records_body ws : forall prev, records_ok 1 prev ws ->
  raw_records ws (gaps prev ws) = body Raw prev ws.
Proof.
  induction ws as [|w ws IH]; intros prev Hok; [done|]. destruct Hok as (Hv & Ht & Hok).
  cbn [raw_records gaps body]. rewrite (IH _ Hok). f_equal. cbn. f_equal. apply Z.mod_small. exact Hv.
Qed.

Lemma sum_encoded_len ds : Forall u64 ds ->
  0 <= fold_right Z.add 0 (map encoded_len ds) <= 10 * zlen ds.
Proof.
  induction 1 as [|d ds Hd _ IH]; [done|]. rewrite zlen_cons. cbn [map fold_right].
  pose proof (encoded_len_range d Hd). lia.
Qed.

(** The packed indices of a group's steps name the steps in the palette. *)
Definition packs (palette packed : list Z) (bits : Z) (ds : list Z) : Prop :=
  forall (j : nat) delta, ds !! j = Some delta -> exists i,
    byte_at palette i = Some delta /\ 0 <= i < 2 ^ bits /\
    forall t, 0 <= t < bits ->
      Z.testbit (from_le_bytes packed) (Z.of_nat j * bits + t) = Z.testbit i t.

Lemma from_le_bytes_zero n : from_le_bytes (replicate n 0) = 0.
Proof. induction n as [|n IH]; [done|]. cbn [replicate from_le_bytes]. by rewrite IH. Qed.

Lemma div_ceil_bound a b : 0 <= a -> 0 < b -> a <= b * div_ceil a b.
Proof. intros. unfold div_ceil. pose proof (Z.mul_succ_div_gt (a + b - 1) b). lia. Qed.

Lemma pack_indices_packs palette bits ds :
  1 <= bits <= 8 -> zlen palette <= 2 ^ bits -> (forall d, In d ds -> In d palette) ->
  let packed := pack_indices palette bits 0 ds (replicate (Z.to_nat (div_ceil (zlen ds * bits) 8)) 0) in
  bytes_ok packed /\ zlen packed = div_ceil (zlen ds * bits) 8 /\ packs palette packed bits ds.
Proof.
  intros Hbits Hpal Hin packed.
  pose proof (zlen_nonneg ds). assert (Hmul : 0 <= zlen ds * bits) by nia.
  pose proof (div_ceil_bound _ 8 Hmul ltac:(lia)) as Hceil.
  set (zeros := replicate (Z.to_nat (div_ceil (zlen ds * bits) 8)) 0) in *.
  assert (Hlen : zlen zeros = div_ceil (zlen ds * bits) 8).
  { unfold zeros, zlen at 1. rewrite length_replicate. lia. }
  assert (Hpos : forall d, In d ds -> 0 <= palette_position palette d < 2 ^ bits).
  { intros d Hd. pose proof (palette_position_spec palette d (Hin d Hd)). lia. }
  destruct (pack_indices_bits palette bits ds 0 zeros) as (H1 & H2 & _ & H3); try done.
  - apply Forall_replicate. unfold u8. lia.
  - rewrite Hlen. lia.
  - intros q Hq. unfold zeros. rewrite from_le_bytes_zero. apply Z.bits_0.
  - split; [done|]. fold packed in H1, H2, H3. split; [unfold zlen in *; by rewrite H2|].
    intros j delta Hj. assert (Hd : In delta ds) by (by apply list_elem_of_In, list_elem_of_lookup_2 with j).
    exists (palette_position palette delta). destruct (palette_position_spec palette delta (Hin _ Hd)).
    split_and!; [done|by apply Hpos|by apply Hpos|]. intros t Ht. by apply (H3 j).
Qed.

(** The three kinds of groups. *)
Inductive group_kind (w0 : Word) (ws : list Word) : list Z -> Prop :=
| kind_raw : group_kind w0 ws (0 :: value w0 :: body Raw (timestamp_ns w0) ws)
| kind_constant delta :
    u64 delta -> Forall (eq delta) (gaps (timestamp_ns w0) ws) ->
    group_kind w0 ws (1 :: encode_u64 delta ++ word_values (w0 :: ws))
| kind_palette palette packed :
    1 < zlen palette <= 16 -> Forall u64 palette -> bytes_ok packed ->
    zlen packed = div_ceil (zlen ws * palette_index_bits (zlen palette)) 8 ->
    packs palette packed (palette_index_bits (zlen palette)) (gaps (timestamp_ns w0) ws) ->
    group_kind w0 ws
      (2 :: zlen palette :: concat (map encode_u64 palette) ++ packed ++ word_values (w0 :: ws)).

(** The encoder's choice is one of the three. *)
Lemma group_records_kind w0 ws :
  u64 (timestamp_ns w0) -> u8 (value w0) -> records_ok 1 (timestamp_ns w0) ws -> zlen ws <= u32_max ->
  group_kind w0 ws (group_records (w0 :: ws)).
Proof.
  intros Ht Hv Hok Hlen. unfold group_records. rewrite (deltas_gaps w0 ws Ht Hok).
  pose proof (gaps_u64 ws _ Ht Hok) as Hgaps. set (ds := gaps (timestamp_ns w0) ws) in *.
  destruct (collect_palette ds [] true 0) as [[palette available] raw] eqn:Hc.
  destruct (collect_palette_spec _ _ _ _ _ _ _ Hc ltac:(cbn; lia)) as (H16 & (more & Hmore & Hin) & Hroom & Hav & ->).
  cbn [app] in Hmore. subst more.
  assert (Hpal : Forall u64 palette).
  { apply List.Forall_forall. intros d Hd. rewrite List.Forall_forall in Hgaps. by apply Hgaps, Hin. }
  replace (map (fun w => as_u8 (value w)) (w0 :: ws)) with (word_values (w0 :: ws)).
  2: { cbn. rewrite (values_u8 ws _ Hok). f_equal. symmetry. by apply Z.mod_small. }
  assert (Hm : Z.max (zlen (w0 :: ws) - 1) 0 = zlen ws).
  { rewrite zlen_cons. pose proof (zlen_nonneg ws). lia. }
  rewrite Hm. destruct (Z.eqb_spec (zlen palette) 1) as [H1|H1].
  - destruct palette as [|delta [|? l]].
    { done. }
    2: { rewrite !zlen_cons in H1. pose proof (zlen_nonneg l). lia. }
    cbn [head default]. apply kind_constant; [by apply Forall_cons in Hpal as [? _]|]. fold ds.
    apply List.Forall_forall. intros d Hd. destruct Hav as [_ Hall]; [apply Hroom; cbn; lia|].
    by destruct (Hall d Hd) as [->|[]].
  - destruct (_ <? _) eqn:Hless.
    + apply Z.ltb_lt in Hless. destruct (available && (1 <? zlen palette)) eqn:Hcond.
      * apply andb_true_iff in Hcond as [Ha Hgt%Z.ltb_lt]. destruct (Hav Ha) as [_ Hall].
        assert (Hrange : 1 < zlen palette <= 16) by (unfold zlen in *; lia).
        destruct (palette_bits_fit _ Hrange) as [Hfit Hbits].
        rewrite <- (zlen_gaps (timestamp_ns w0) ws). fold ds.
        destruct (pack_indices_packs palette (palette_index_bits (zlen palette)) ds) as (P1 & P2 & P3);
          [lia|done|done|].
        replace (as_u8 (zlen palette)) with (zlen palette) by (symmetry; apply Z.mod_small; lia).
        apply kind_palette; try done. rewrite P2. unfold ds. by rewrite zlen_gaps.
      * exfalso. pose proof (sum_encoded_len ds Hgaps) as Hsum.
        assert (Hds : zlen ds = zlen ws) by apply zlen_gaps. rewrite Hds in Hsum.
        rewrite zlen_cons in Hless. unfold u64_max, u32_max in *. lia.
    + cbn [word_values map take tail]. unfold ds. rewrite raw_records_body by done. apply kind_raw.
Qed.

(** ** Decoding a sequence of groups *)

Definition groups_records (gs : list (list Word)) : list Z := concat (map group_records gs).

Definition group_timestamp (g : list Word) : Z := match g with w :: _ => timestamp_ns w | [] => 0 end.

Fixpoint group_restarts (index offset : Z) (gs : list (list Word)) : list RestartEntry :=
  match gs with
  | [] => []
  | g :: gs => mkRestart (group_timestamp g) offset index ::
      group_restarts (index + zlen g) (offset + zlen (group_records g)) gs
  end.

Lemma drop_next {A} (l tail : list A) x k :
  drop k l = x :: tail -> l !! k = Some x /\ drop (S k) l = tail /\ (S k <= length l)%nat.
Proof.
  intros H. split_and!.
  - rewrite <- (Nat.add_0_r k), <- lookup_drop, H. done.
  - replace (S k) with (k + 1)%nat by lia. rewrite <- drop_drop, H. done.
  - assert (Hl : (0 < length (drop k l))%nat) by (rewrite H; cbn; lia). rewrite length_drop in Hl. lia.
Qed.

Lemma drop_head {A} (l tail : list A) k : drop k l = tail -> l !! k = head tail.
Proof. intros <-. rewrite <- (Nat.add_0_r k) at 1. rewrite <- lookup_drop. by destruct (drop k l). Qed.

Section Grouped.
Context (bytes : list Z) (parsed : ParsedWordBlock) (post : list Z).
Context (Hwidth : parsed_value_bytes parsed = 1) (Hend : record_end parsed - 72 <= u32_max).
Context (Hflag : Z.land (flags (parsed_header parsed)) BLOCK_FLAG_GROUPED_TIMESTAMPS = 4).
Context (Hbytes : bytes_ok bytes).
Abbreviation group_state := (group_state bytes parsed post).

(** The decoder in front of the groups [gs], the first word of which has number [index]. *)
Definition start_state (index : Z) (gs : list (list Word)) (d : RecordDecoder) : Prop :=
  72 <= cursor d /\
  at_cursor bytes (cursor d) (groups_records gs ++ post) /\
  record_end parsed = cursor d + zlen (groups_records gs) /\
  is_complete (group_timestamps d) = true /\
  drop (next_restart_index d) (parsed_restarts parsed) = group_restarts index (cursor d - 72) gs /\
  word_count (parsed_header parsed) = index + zlen (concat gs).

(** The restart behind a group is at the group's end. *)
Lemma group_end_at index offset k g gs :
  drop k (parsed_restarts parsed) = group_restarts index offset (g :: gs) ->
  word_count (parsed_header parsed) = index + zlen (concat (g :: gs)) ->
  match parsed_restarts parsed !! S k with
  | Some restart => record_index restart
  | None => word_count (parsed_header parsed)
  end = index + zlen g /\
  next_restart_after parsed (S k) (index + zlen g).
Proof.
  intros Hd Hw. apply drop_next in Hd as (_ & Hd & _). unfold next_restart_after.
  rewrite (drop_head _ _ _ Hd). destruct gs as [|g' gs]; cbn; [|lia].
  split; [|done]. rewrite Hw. cbn [concat]. by rewrite app_nil_r.
Qed.

(** The head of a group leaves the decoder in front of its first value with a step decoder for
    the rest of the group. *)
Lemma group_head index w0 ws gs d :
  u64 (timestamp_ns w0) -> u8 (value w0) -> records_ok 1 (timestamp_ns w0) ws -> zlen ws <= u32_max ->
  start_state index ((w0 :: ws) :: gs) d ->
  exists c g,
    next_grouped bytes parsed index (as_u32 (cursor d - BLOCK_HEADER_SIZE))
      (Some (mkRestart (timestamp_ns w0) (cursor d - 72) index)) d =
    Ok (mkDecoder c (timestamp_ns w0) (S (next_restart_index d)) g (skip_initial_legacy_delta d)) /\
    72 <= c /\ serves bytes g (timestamp_ns w0) ws /\
    at_cursor bytes c ((value w0 :: body g (timestamp_ns w0) ws ++ groups_records gs) ++ post) /\
    record_end parsed = c + zlen (value w0 :: body g (timestamp_ns w0) ws ++ groups_records gs).
Proof.
  intros Ht Hv Hok Hlen (Hc & Hat & He & Hcomp & Hdrop & Hcount).
  destruct (group_end_at _ _ _ _ _ Hdrop Hcount) as [Hgend _].
  rewrite zlen_cons, Z.add_assoc in Hgend.
  destruct d as [c t k g s].
  cbn [cursor group_timestamps next_restart_index] in Hc, Hat, He, Hcomp, Hdrop, Hgend.
  unfold next_grouped. cbn [group_timestamps cursor next_restart_index skip_initial_legacy_delta
    payload_offset restart_timestamp_ns]. rewrite Hcomp. cbn [negb].
  change (groups_records ((w0 :: ws) :: gs)) with (group_records (w0 :: ws) ++ groups_records gs) in Hat, He.
  pose proof (zlen_nonneg (group_records (w0 :: ws) ++ groups_records gs)).
  assert (Hsmall : as_u32 (c - BLOCK_HEADER_SIZE) = c - 72).
  { unfold as_u32, BLOCK_HEADER_SIZE. apply Z.mod_small. unfold u32_max in Hend. lia. }
  rewrite Hsmall, Z.eqb_refl. cbn [negb].
  destruct (group_records_kind w0 ws Ht Hv Hok Hlen) as [|delta Hd Hall|palette packed Hpl Hpu Hpb Hpz Hpk].
  - cbn [app] in Hat. pose proof (at_cursor_byte _ _ _ _ Hat) as Hmode. rewrite Hmode. cbn [ok_or Z.eqb].
    exists (c + 1), Raw. split; [done|]. split; [lia|]. split; [done|].
    split; [exact (at_cursor_next _ _ _ _ Hat)|]. cbn [app] in He.
    rewrite zlen_cons, Z.add_assoc in He. exact He.
  - cbn [app] in Hat. pose proof (at_cursor_byte _ _ _ _ Hat) as Hmode. rewrite Hmode. cbn [ok_or Z.eqb Pos.eqb].
    apply at_cursor_next in Hat. cbn [app] in He. rewrite zlen_cons, Z.add_assoc in He.
    rewrite <- !app_assoc in *.
    assert (Hpre : at_cursor (record_bytes bytes parsed) (c + 1)
      (encode_u64 delta ++ word_values (w0 :: ws) ++ groups_records gs)).
    { apply (at_cursor_records _ _ _ _ post); [by rewrite <- !app_assoc|done]. }
    rewrite (decode_encode_u64 _ _ _ _ Hd Hpre).
    exists (c + 1 + zlen (encode_u64 delta)), (Constant delta). split; [done|].
    pose proof (zlen_nonneg (encode_u64 delta)). split; [lia|]. split; [done|].
    rewrite body_values by done. apply at_cursor_app in Hat.
    split; [cbn [app]; rewrite <- app_assoc; exact Hat|].
    rewrite zlen_app, Z.add_assoc in He. exact He.
  - cbn [app] in Hat. pose proof (at_cursor_byte _ _ _ _ Hat) as Hmode. rewrite Hmode. cbn [ok_or Z.eqb Pos.eqb].
    apply at_cursor_next in Hat. cbn [app] in He. rewrite zlen_cons, Z.add_assoc in He.
    unfold decode_timestamp_palette. rewrite (at_cursor_byte _ _ _ _ Hat). cbn [ok_or].
    rewrite !(proj2 (Z.leb_le _ _)) by lia. cbn [andb negb].
    apply at_cursor_next in Hat. cbn [app] in He. rewrite zlen_cons, Z.add_assoc in He.
    rewrite <- !app_assoc in *.
    assert (Hpre : at_cursor (record_bytes bytes parsed) (c + 1 + 1)
      (concat (map encode_u64 palette) ++ packed ++ word_values (w0 :: ws) ++ groups_records gs)).
    { apply (at_cursor_records _ _ _ _ post); [by rewrite <- !app_assoc|done]. }
    replace (Z.to_nat (zlen palette)) with (length palette) by (unfold zlen; lia).
    rewrite (decode_u64s_at _ _ _ _ Hpu Hpre).
    rewrite Hgend. rewrite (proj2 (Z.ltb_ge _ _)) by (pose proof (zlen_nonneg ws); lia).
    replace (index + 1 + zlen ws - (index + 1)) with (zlen ws) by lia. rewrite <- Hpz.
    apply at_cursor_app in Hat. rewrite zlen_app, Z.add_assoc in He.
    pose proof (at_cursor_app _ _ _ _ Hat) as Hat2. rewrite zlen_app, Z.add_assoc in He.
    pose proof (zlen_nonneg (word_values (w0 :: ws) ++ groups_records gs)).
    rewrite (proj2 (Z.ltb_ge _ _)) by lia.
    set (off := c + 1 + 1 + zlen (concat (map encode_u64 palette))) in *.
    exists (off + zlen packed), (Palette palette (palette_index_bits (zlen palette)) off (zlen ws) 0).
    split; [done|]. pose proof (zlen_nonneg (concat (map encode_u64 palette))).
    pose proof (zlen_nonneg packed). split; [unfold off; lia|]. rewrite body_values by done.
    split; [|split; [cbn [app]; rewrite <- app_assoc; exact Hat2|exact He]].
    cbn [serves]. split_and!; [lia|lia|]. intros j delta Hj.
    destruct (Hpk j delta Hj) as (i & Hbi & Hi & Hbits). exists i. split; [|done].
    destruct (palette_bits_fit _ Hpl) as [_ Hb4]. rewrite Z.add_0_l.
    apply (read_packed_value _ _ packed _ _ _ _ Hat Hpb).
    + destruct (at_cursor_inv _ _ _ Hat) as (pre & Hsplit & _). rewrite Hsplit in Hbytes.
      by apply bytes_ok_app in Hbytes as [_ [_ Hp]%bytes_ok_app].
    + lia.
    + lia.
    + rewrite Hpz. apply lookup_lt_Some in Hj. pose proof (zlen_gaps (timestamp_ns w0) ws) as Hg.
      unfold zlen in Hg at 1. pose proof (zlen_nonneg ws).
      etransitivity; [|apply div_ceil_bound; nia].
      apply Z.mul_le_mono_nonneg_r; lia.
    + lia.
    + done.
Qed.

Lemma group_first index w0 ws gs d :
  u64 (timestamp_ns w0) -> u8 (value w0) -> records_ok 1 (timestamp_ns w0) ws -> zlen ws <= u32_max ->
  start_state index ((w0 :: ws) :: gs) d ->
  exists d', next bytes parsed index d = Ok (plain w0, d') /\
    group_state (S (next_restart_index d)) (timestamp_ns w0) ws (groups_records gs) d'.
Proof.
  intros Ht Hv Hok Hlen Hst.
  destruct (group_head index w0 ws gs d Ht Hv Hok Hlen Hst) as (c & g & Hstep & Hc & Hs & Hat & He).
  destruct Hst as (_ & _ & _ & _ & Hdrop & _). apply drop_next in Hdrop as (Hk & _).
  unfold next. rewrite Hk. cbn [record_index group_timestamp]. rewrite Z.eqb_refl, Hflag.
  cbn [Z.eqb negb]. rewrite Hstep.
  cbn [cursor timestamp next_restart_index group_timestamps skip_initial_legacy_delta].
  destruct (read_byte_value bytes parsed post Hwidth c (value w0) (body g (timestamp_ns w0) ws ++ groups_records gs)
    Hv Hat He) as [-> Hat'].
  eexists. split; [done|]. unfold WordGroups.group_state.
  cbn [cursor timestamp next_restart_index group_timestamps].
  split_and!; try done; [lia|]. rewrite He, zlen_cons. lia.
Qed.

Lemma group_whole prev index g gs d :
  0 <= prev -> g <> [] -> records_ok 1 prev g -> zlen g <= u32_max ->
  start_state index (g :: gs) d ->
  exists d', decode_records bytes parsed (length g) index d = Ok (map plain g, d') /\
    start_state (index + zlen g) gs d' /\ timestamp d' = default prev (timestamp_ns <$> last g) /\
    next_restart_index d' = S (next_restart_index d).
Proof.
  intros Hp Hg Hok Hlen Hst. destruct g as [|w0 ws]; [done|]. destruct Hok as (Hv & Ht & Hok).
  rewrite zlen_cons in *. pose proof (zlen_nonneg ws).
  destruct (group_first index w0 ws gs d ltac:(ints) Hv Hok ltac:(lia) Hst) as (d1 & Hn & Hst1).
  destruct Hst as (Hc & Hat & He & Hcomp & Hdrop & Hcount).
  destruct (group_end_at _ _ _ _ _ Hdrop Hcount) as [_ Hafter]. rewrite zlen_cons, Z.add_assoc in Hafter.
  destruct (group_decode bytes parsed post Hwidth Hflag _ _ ws (index + 1) (timestamp_ns w0) d1
    ltac:(ints) Hok Hafter Hst1) as (d' & Hdec & Hc' & Hat' & He' & Ht' & Hs' & Hk').
  cbn [body app] in Hat', He'.
  exists d'. cbn [length decode_records]. rewrite Hn, Hdec. split; [done|].
  split; [|split; [rewrite Ht', last_cons; by destruct (last ws)|done]].
  unfold start_state. rewrite Hk'. apply drop_next in Hdrop as (_ & Hdrop & _).
  change (groups_records ((w0 :: ws) :: gs)) with (group_records (w0 :: ws) ++ groups_records gs) in He.
  rewrite zlen_app in He. cbn [concat] in Hcount. rewrite zlen_app in Hcount. rewrite zlen_cons in *.
  split_and!; try done; [|rewrite Hdrop; f_equal; lia|lia].
  destruct (group_timestamps d'); cbn in Hs' |- *; [done|done|]. destruct Hs' as (_ & -> & _).
  change (zlen []) with 0. rewrite Z.add_0_r. apply Z.eqb_refl.
Qed.

Lemma grouped_decode gs : forall prev index d,
  0 <= prev -> Forall (fun g => g <> []) gs -> records_ok 1 prev (concat gs) ->
  zlen (concat gs) <= u32_max -> start_state index gs d ->
  exists d', decode_records bytes parsed (length (concat gs)) index d = Ok (map plain (concat gs), d') /\
    start_state (index + zlen (concat gs)) [] d' /\
    (gs <> [] -> timestamp d' = default prev (timestamp_ns <$> last (concat gs))) /\
    next_restart_index d' = (next_restart_index d + length gs)%nat.
Proof.
  induction gs as [|g gs IH]; intros prev index d Hp Hne Hok Hlen Hst.
  { exists d. cbn. split; [done|]. change (zlen []) with 0. rewrite Z.add_0_r.
    split; [done|]. split; [done|lia]. }
  apply Forall_cons in Hne as [Hg Hne]. cbn [concat] in *. rewrite zlen_app in Hlen.
  apply records_ok_app in Hok as [Hokg Hok]. pose proof (zlen_nonneg g). pose proof (zlen_nonneg (concat gs)).
  destruct (group_whole prev index g gs d Hp Hg Hokg ltac:(lia) Hst) as (d1 & Hdec & Hst1 & Ht1 & Hk1).
  assert (Hlast : 0 <= default prev (timestamp_ns <$> last g)).
  { apply records_ok_last in Hokg. lia. }
  destruct (IH _ (index + zlen g) d1 Hlast Hne Hok ltac:(lia) Hst1) as (d' & Hdec' & Hst' & Ht' & Hk').
  exists d'. rewrite length_app, decode_records_app, Hdec. change (Z.of_nat (length g)) with (zlen g).
  rewrite Hdec', map_app. split; [done|]. rewrite zlen_app, Z.add_assoc. split; [done|].
  split; [|rewrite Hk', Hk1; cbn; lia]. intros _. rewrite last_app_default.
  destruct gs as [|g' gs]; [|by apply Ht'].
  cbn in Hdec'. injection Hdec' as <-. exact Ht1.
Qed.
End Grouped.
