(* ===== verification/WordEmit.v ===== *)
(** What the encoder's loops write: each equals the layout of [WordRecords], [WordTables] and
    [WordGrouped] as a function of the words. *)

From S2P Require Import Prelude Events Vlq WordFormat WordEncode WordDecode WordRecords.
From S2P Require Import WordGroups WordGrouped.

#[global] Arguments group_records group : simpl never.

(** ** Groups *)

Section Chunks.
Context {A : Type}.
Implicit Types l : list A.

Lemma chunks_fuel_S fuel n l : l <> [] ->
  chunks_fuel (S fuel) n l = take n l :: chunks_fuel fuel n (drop n l).
Proof. by destruct l. Qed.

Lemma concat_chunks_fuel fuel n l :
  (0 < n)%nat -> (length l <= fuel)%nat -> concat (chunks_fuel fuel n l) = l.
Proof.
  intros Hn. revert l. induction fuel as [|fuel IH]; intros [|x l] Hf; try done; [cbn in Hf; lia|].
  rewrite chunks_fuel_S by done. cbn [concat]. rewrite IH, take_drop; [done|].
  rewrite length_drop. cbn in *. lia.
Qed.

Lemma chunks_fuel_nonempty fuel n l : (0 < n)%nat -> Forall (fun g => g <> []) (chunks_fuel fuel n l).
Proof.
  intros Hn. revert l. induction fuel as [|fuel IH]; intros [|x l]; try constructor; [|apply IH].
  destruct n; [lia|done].
Qed.

(** Every group but the last has the full length. *)
Fixpoint full_groups (n : nat) (gs : list (list A)) : Prop :=
  match gs with
  | g :: (_ :: _) as rest => length g = n /\ full_groups n rest
  | _ => True
  end.

Lemma chunks_fuel_full fuel n l : full_groups n (chunks_fuel fuel n l).
Proof.
  revert l. induction fuel as [|fuel IH]; intros [|x l]; try done.
  rewrite chunks_fuel_S by done. pose proof (IH (drop n (x :: l))) as H.
  destruct (chunks_fuel fuel n (drop n (x :: l))) as [|g gs] eqn:Hr; [done|].
  cbn [full_groups]. split; [|done]. rewrite length_take.
  destruct (drop n (x :: l)) as [|y rest] eqn:Hd; [by destruct fuel|].
  assert (Hlen : (0 < length (drop n (x :: l)))%nat) by (rewrite Hd; cbn; lia).
  rewrite length_drop in Hlen. lia.
Qed.

Lemma length_groups (gs : list (list A)) :
  Forall (fun g => g <> []) gs -> (length gs <= length (concat gs))%nat.
Proof.
  induction 1 as [|g gs Hg _ IH]; [done|]. cbn. rewrite length_app. destruct g; [done|]. cbn. lia.
Qed.

Lemma chunks_spec n l :
  (0 < n)%nat -> concat (chunks n l) = l /\ Forall (fun g => g <> []) (chunks n l) /\
  full_groups n (chunks n l) /\ (length (chunks n l) <= length l)%nat.
Proof.
  intros Hn. pose proof (concat_chunks_fuel (length l) n l Hn ltac:(lia)) as Hc.
  pose proof (chunks_fuel_nonempty (length l) n l Hn) as Hne.
  split_and!; [done|done|apply chunks_fuel_full|]. apply length_groups in Hne. by rewrite Hc in Hne.
Qed.
End Chunks.

(** ** The number of restarts *)

Lemma div_ceil_step a k : 0 < k -> div_ceil (a + k) k = div_ceil a k + 1.
Proof.
  intros. unfold div_ceil. replace (a + k + k - 1) with (a + k - 1 + 1 * k) by lia.
  by rewrite Z.div_add by lia.
Qed.

Lemma div_ceil_0 k : 0 < k -> div_ceil 0 k = 0.
Proof. intros. unfold div_ceil. apply Z.div_small. lia. Qed.

Lemma div_ceil_one a k : 0 < a <= k -> div_ceil a k = 1.
Proof. intros. unfold div_ceil. symmetry. apply Z.div_unique with (a - 1); lia. Qed.

Lemma div_ceil_succ a k : 0 < k -> 0 <= a ->
  div_ceil (a + 1) k = div_ceil a k + if a mod k =? 0 then 1 else 0.
Proof.
  intros Hk Ha. unfold div_ceil. replace (a + 1 + k - 1) with (a + 1 * k) by lia. rewrite Z.div_add by lia.
  pose proof (Z.div_mod a k ltac:(lia)) as Hd. pose proof (Z.mod_pos_bound a k Hk) as Hm.
  destruct (Z.eqb_spec (a mod k) 0) as [Hz|Hz].
  - rewrite (Z.div_unique (a + k - 1) k (a / k) (k - 1)) at 1; lia.
  - rewrite <- (Z.div_unique (a + k - 1) k (a / k + 1) (a mod k - 1)) by lia. lia.
Qed.

Lemma zlen_chunks_fuel {A} n fuel (l : list A) :
  (0 < n)%nat -> (length l <= fuel)%nat -> zlen (chunks_fuel fuel n l) = div_ceil (zlen l) (Z.of_nat n).
Proof.
  intros Hn. revert l. induction fuel as [|fuel IH]; intros [|x l] Hf.
  1,3: unfold div_ceil, zlen; cbn; symmetry; apply Z.div_small; lia.
  { cbn in Hf. lia. }
  rewrite chunks_fuel_S by done. rewrite zlen_cons, IH by (rewrite length_drop; cbn in *; lia).
  destruct (Nat.le_gt_cases (length (x :: l)) n) as [Hle|Hgt].
  - rewrite drop_ge by done. rewrite (div_ceil_one (zlen (x :: l))) by (unfold zlen; cbn in *; lia).
    unfold div_ceil. change (zlen (@nil A)) with 0. rewrite Z.div_small; lia.
  - replace (zlen (x :: l)) with (zlen (drop n (x :: l)) + Z.of_nat n).
    + rewrite div_ceil_step by lia. lia.
    + unfold zlen. rewrite length_drop. lia.
Qed.

Lemma zlen_group_restarts gs : forall index offset, zlen (group_restarts index offset gs) = zlen gs.
Proof. induction gs as [|g gs IH]; intros; [done|]. cbn. by rewrite !zlen_cons, IH. Qed.

Lemma zlen_legacy_restarts interval width ws : forall index offset prev, 0 < interval -> 0 <= index ->
  zlen (legacy_restarts interval width index offset prev ws)
    = div_ceil (index + zlen ws) interval - div_ceil index interval.
Proof.
  induction ws as [|w ws IH]; intros index offset prev Hi Hx.
  { cbn. change (zlen (@nil Word)) with 0. rewrite Z.add_0_r. change (zlen (@nil RestartEntry)) with 0. lia. }
  cbn [legacy_restarts]. rewrite zlen_app, IH, zlen_cons, Z.add_assoc, div_ceil_succ by lia.
  destruct (index mod interval =? 0); [change (zlen [_]) with 1|change (zlen (@nil RestartEntry)) with 0]; lia.
Qed.

Lemma emit_groups_spec interval gs : forall index acc_records acc_restarts records restarts,
  full_groups (Z.to_nat interval) gs -> 0 < interval -> 0 <= index ->
  index + zlen (concat gs) <= u32_max ->
  emit_groups interval index gs (acc_records, acc_restarts) = Some (records, restarts) ->
  records = acc_records ++ groups_records gs /\
  restarts = acc_restarts ++ group_restarts index (zlen acc_records) gs.
Proof.
  induction gs as [|g gs IH]; intros index acc_records acc_restarts records restarts Hfull Hint Hi Hn H.
  { injection H as <- <-. unfold groups_records. cbn. by rewrite !app_nil_r. }
  cbn [emit_groups] in H. destruct (zlen acc_records <=? u32_max); [|done].
  cbn [concat] in Hn. rewrite zlen_app in Hn. pose proof (zlen_nonneg g). pose proof (zlen_nonneg (concat gs)).
  assert (Hlen : gs <> [] -> zlen g = interval).
  { destruct gs; [done|]. intros _. destruct Hfull as [Hg _]. unfold zlen. lia. }
  assert (Hrest : full_groups (Z.to_nat interval) gs) by (destruct gs; [done|apply Hfull]).
  assert (Hindex : 0 <= index <= u32_max) by (clear -Hi Hn H0 H1; lia).
  rewrite (as_u32_small index Hindex) in H.
  change (groups_records (g :: gs)) with (group_records g ++ groups_records gs).
  change (group_restarts index (zlen acc_records) (g :: gs)) with
    (mkRestart (group_timestamp g) (zlen acc_records) index ::
      group_restarts (index + zlen g) (zlen acc_records + zlen (group_records g)) gs).
  fold (group_timestamp g) in H.
  destruct gs as [|g' gs].
  - cbn [emit_groups] in H. injection H as <- <-. unfold groups_records. cbn. by rewrite app_nil_r.
  - rewrite <- (Hlen ltac:(done)) in H at 2.
    apply IH in H as [-> ->]; [|done|done|lia|lia]. rewrite zlen_app, <- !app_assoc. done.
Qed.

(** ** Dense records *)

Lemma encode_u64_small v : 0 <= v < 128 -> encode_u64 v = [v].
Proof. intros. unfold encode_u64. rewrite encode_loop_eq by lia. by rewrite (proj2 (Z.ltb_lt _ _)) by lia. Qed.

(** Time steps that take one byte each. *)
Fixpoint small_gaps (prev : Z) (ws : list Word) : Prop :=
  match ws with
  | [] => True
  | w :: ws => timestamp_ns w - prev < 128 /\ small_gaps (timestamp_ns w) ws
  end.

Lemma dense_record prev w :
  0 <= value w < 256 -> 0 <= timestamp_ns w - prev < 128 ->
  legacy_record 1 prev w = [timestamp_ns w - prev; value w].
Proof.
  intros Hv Ht. unfold legacy_record. rewrite encode_u64_small by done.
  unfold append_value. cbn. by rewrite Z.mod_small by done.
Qed.

Lemma emit_dense_spec interval ws : forall index prev previous acc_records acc_restarts,
  0 <= index -> index * 2 + 2 * zlen ws <= u32_max -> zlen acc_records = index * 2 ->
  0 <= prev -> records_ok 1 prev ws -> small_gaps prev ws ->
  match previous with Some p => p = prev | None => match ws with w :: _ => timestamp_ns w = prev | [] => True end end ->
  emit_dense interval index previous ws (acc_records, acc_restarts) =
    (acc_records ++ legacy_records 1 prev ws,
     acc_restarts ++ legacy_restarts interval 1 index (zlen acc_records) prev ws).
Proof.
  induction ws as [|w ws IH]; intros index prev previous acc_records acc_restarts Hi Hn Hl Hp Hok Hsmall Hprev.
  { cbn. by rewrite !app_nil_r. }
  destruct Hok as (Hv & Ht & Hok). destruct Hsmall as [Hg Hsmall]. rewrite zlen_cons in Hn.
  pose proof (zlen_nonneg ws). cbn [emit_dense legacy_records legacy_restarts].
  rewrite (dense_record prev w Hv) by lia.
  assert (Hdelta : as_u8 (match previous with None => 0 | Some p => sub64 (timestamp_ns w) p end)
    = timestamp_ns w - prev).
  { destruct previous as [p|]; [subst p; rewrite sub64_small by ints|rewrite Hprev, Z.sub_diag; done].
    apply Z.mod_small. lia. }
  rewrite Hdelta. replace (as_u8 (value w)) with (value w) by (symmetry; by apply Z.mod_small).
  rewrite !as_u32_small by lia. rewrite <- Hl.
  rewrite (IH (index + 1) (timestamp_ns w)); try done; [|lia|lia| |lia].
  2: { rewrite zlen_app. change (zlen [_; _]) with 2. lia. }
  rewrite <- app_assoc. f_equal. rewrite zlen_app. destruct (index mod interval =? 0); [|done].
  by rewrite <- app_assoc.
Qed.

(** ** Variable-length records *)

(** The number of the last exception, if there was one. *)
Definition last_duration (e : Emit) : option Z :=
  if emit_durations e =? 0 then None else Some (previous_duration_index e).

Definition last_payload (e : Emit) : option Z :=
  if emitted_payload_count e =? 0 then None else Some (previous_payload_index e).

Definition emit_ok (index : Z) (e : Emit) : Prop :=
  0 <= emit_durations e /\ 0 <= emitted_payload_count e /\ 0 <= index.

(** The records, restarts and tables of [ws] behind those of [e]. *)
Definition emitted (interval width index prev : Z) (ws : list Word) (e e' : Emit) : Prop :=
  records e' = records e ++ legacy_records width prev ws /\
  emit_restarts e' = emit_restarts e ++ legacy_restarts interval width index (zlen (records e)) prev ws /\
  durations e' = durations e ++ duration_table (last_duration e) index ws /\
  payloads e' = payloads e ++ payload_table (last_payload e) index ws /\
  emit_durations e' = emit_durations e + zlen (timed_words ws).

Lemma emit_word_spec interval width index prev w e :
  0 <= index <= u32_max -> u64 (timestamp_ns w) -> 0 <= prev <= timestamp_ns w ->
  previous_timestamp e = prev -> (index = 0 -> timestamp_ns w = prev) -> emit_ok index e ->
  (exists e', emit_word interval width index w e = Ok e' /\
    emitted interval width index prev [w] e e' /\
    last_duration e' = (if duration_ns w =? 0 then last_duration e else Some index) /\
    last_payload e' = (match payload w with None => last_payload e | Some _ => Some index end) /\
    previous_timestamp e' = timestamp_ns w /\ emit_ok (index + 1) e') \/
  ((exists x, emit_word interval width index w e = Err x) /\ u32_max < zlen (records e)).
Proof.
  intros Hi Ht Hp Hprev H0 (Hd & Hpc & _). unfold emit_word.
  assert (Hdelta : (if index =? 0 then 0 else sub64 (timestamp_ns w) (previous_timestamp e))
    = timestamp_ns w - prev).
  { rewrite Hprev. destruct (Z.eqb_spec index 0) as [->|]; [rewrite H0 by done; lia|].
    by rewrite sub64_small by (done || lia). }
  rewrite Hdelta, as_u32_small by done.
  assert (Hrec : legacy_records width prev [w] =
    encode_u64 (timestamp_ns w - prev) ++ append_value (value w) width).
  { cbn [legacy_records]. unfold legacy_record. by rewrite app_nil_r. }
  assert (Hcount : zlen (timed_words [w]) = if duration_ns w =? 0 then 0 else 1).
  { unfold timed_words. cbn. by destruct (duration_ns w =? 0). }
  destruct (index mod interval =? 0) eqn:Hm.
  1: destruct (Z.leb_spec (zlen (records e)) u32_max); [|right; split; [by eexists|done]].
  all: left; destruct (duration_ns w =? 0) eqn:Hdur, (payload w) as [p|] eqn:Hpay;
    eexists; (split; [reflexivity|]).
  all: unfold emitted, last_duration, last_payload, emit_ok; rewrite Hrec, Hcount;
    cbn [duration_table payload_table legacy_restarts]; rewrite Hm, ?Hdur, ?Hpay;
    cbn [records emit_restarts durations payloads emit_durations emitted_payload_count
      previous_timestamp previous_duration_index previous_payload_index fst snd].
  all: rewrite ?app_nil_r.
  all: repeat match goal with
    | |- context [?c + 1 =? 0] => rewrite (proj2 (Z.eqb_neq (c + 1) 0)) by lia
    end.
  all: destruct (emit_durations e =? 0), (emitted_payload_count e =? 0); cbn [default];
    rewrite ?Z.sub_0_r, ?Z.add_0_r; split_and!; try reflexivity; lia.
Qed.

Lemma duration_table_cons previous index w ws :
  duration_table previous index (w :: ws) = duration_table previous index [w] ++
    duration_table (if duration_ns w =? 0 then previous else Some index) (index + 1) ws.
Proof. cbn. destruct (duration_ns w =? 0); [done|]. by rewrite !app_nil_r, <- app_assoc. Qed.

Lemma payload_table_cons previous index w ws :
  payload_table previous index (w :: ws) = payload_table previous index [w] ++
    payload_table (match payload w with None => previous | Some _ => Some index end) (index + 1) ws.
Proof. cbn. destruct (payload w); [|done]. by rewrite !app_nil_r, <- app_assoc. Qed.

Lemma legacy_records_cons width prev w ws :
  legacy_records width prev (w :: ws) =
    legacy_records width prev [w] ++ legacy_records width (timestamp_ns w) ws.
Proof. cbn. by rewrite app_nil_r. Qed.

Lemma legacy_restarts_cons interval width index offset prev w ws :
  legacy_restarts interval width index offset prev (w :: ws) =
    legacy_restarts interval width index offset prev [w] ++
    legacy_restarts interval width (index + 1) (offset + zlen (legacy_records width prev [w]))
      (timestamp_ns w) ws.
Proof. cbn. by rewrite !app_nil_r. Qed.

Lemma timed_words_cons w ws :
  zlen (timed_words (w :: ws)) = zlen (timed_words [w]) + zlen (timed_words ws).
Proof. unfold timed_words. cbn. destruct (duration_ns w =? 0); cbn; lens. Qed.

(** The loop either writes the layout, or the records exceed what a restart offset can name. *)
Lemma emit_words_spec interval width ws : forall index prev e,
  0 <= index -> index + zlen ws <= u32_max -> 0 <= prev -> records_ok width prev ws ->
  previous_timestamp e = prev -> emit_ok index e ->
  (index = 0 -> match ws with w :: _ => timestamp_ns w = prev | [] => True end) ->
  (exists e', emit_words interval width index ws e = Ok e' /\ emitted interval width index prev ws e e') \/
  ((exists x, emit_words interval width index ws e = Err x) /\
    u32_max < zlen (records e) + zlen (legacy_records width prev ws)).
Proof.
  induction ws as [|w ws IH]; intros index prev e Hi Hn Hp Hok Hprev Hinv H0.
  { left. exists e. split; [done|]. unfold emitted. cbn. rewrite !app_nil_r. split_and!; try done.
    unfold timed_words, zlen. cbn. by rewrite Z.add_0_r. }
  destruct Hok as (Hv & Ht & Hok). rewrite zlen_cons in Hn. pose proof (zlen_nonneg ws). cbn [emit_words].
  destruct (emit_word_spec interval width index prev w e) as
    [(e1 & Hw & (R1 & R2 & R3 & R4 & R5) & Hld & Hlp & Ht1 & Hinv1)|[[x Hw] Hbig]]; try done; [lia|ints|lia| |].
  2: { right. rewrite Hw. split; [by eexists|].
    pose proof (zlen_nonneg (legacy_records width prev (w :: ws))). lia. }
  rewrite Hw. rewrite legacy_records_cons.
  destruct (IH (index + 1) (timestamp_ns w) e1) as [(e' & He' & (S1 & S2 & S3 & S4 & S5))|[[x He'] Hbig]];
    try done; [lia|lia|lia|intros ?; exfalso; lia| |].
  - left. exists e'. split; [done|]. unfold emitted.
    rewrite legacy_records_cons, legacy_restarts_cons, duration_table_cons, payload_table_cons, timed_words_cons.
    rewrite S1, S2, S3, S4, S5, R1, R2, R3, R4, R5, Hld, Hlp, zlen_app, <- !app_assoc.
    by rewrite Z.add_assoc.
  - right. split; [by exists x|]. rewrite R1, zlen_app in Hbig. rewrite zlen_app. lia.
Qed.
