(* ===== verification/WordBlock.v ===== *)
(** The assembly of a word block: the header in front, the checksum over it and the padding
    behind, and that the parser accepts what the encoder assembles. *)

From S2P Require Import Prelude Events Crc32c Vlq WordFormat WordEncode WordDecode WordRecords.

(** ** The layout of the whole block *)

Definition restart_table (rs : list RestartEntry) : list Z := concat (map restart_bytes rs).

Definition block_body (e : Emit) (pad : nat) : list Z :=
  records e ++ restart_table (emit_restarts e) ++ durations e ++ payloads e ++ replicate pad 0.

Definition block_bytes (h : WordBlockHeader) (e : Emit) (pad : nat) : list Z :=
  header_bytes h ++ block_body e pad.

Lemma zlen_restart_table rs : zlen (restart_table rs) = 16 * zlen rs.
Proof.
  unfold restart_table. induction rs as [|r rs IH]; [done|]. cbn [map concat].
  rewrite zlen_app, zlen_cons, IH. change (zlen (restart_bytes r)) with 16. lia.
Qed.

Lemma restart_table_ok rs : bytes_ok (restart_table rs).
Proof.
  induction rs as [|r rs IH]; [constructor|]. apply bytes_ok_app. split; [|exact IH].
  unfold restart_bytes. rewrite !bytes_ok_app. auto with ints.
Qed.

Lemma round_up_8_bounds n : 0 <= n -> n <= round_up_8 n <= n + 7 /\ round_up_8 n mod 8 = 0.
Proof.
  intros Hn. unfold round_up_8. rewrite <- Z.ldiff_land.
  assert (H : Z.ldiff (n + 7) 7 = (n + 7) / 8 * 8).
  { change 7 with (Z.ones 3) at 2. by rewrite Z.ldiff_ones_r, Z.shiftr_div_pow2, Z.shiftl_mul_pow2 by lia. }
  rewrite H. pose proof (Z.div_mod (n + 7) 8). pose proof (Z.mod_pos_bound (n + 7) 8).
  split; [lia|]. by apply Z.mod_mul.
Qed.

(** The bytes behind the header, before the padding. *)
Definition body_len (e : Emit) : Z :=
  zlen (records e) + 16 * zlen (emit_restarts e) + zlen (durations e) + zlen (payloads e).

Lemma body_len_nonneg e : 0 <= body_len e.
Proof.
  unfold body_len. pose proof (zlen_nonneg (records e)). pose proof (zlen_nonneg (emit_restarts e)).
  pose proof (zlen_nonneg (durations e)). pose proof (zlen_nonneg (payloads e)). lia.
Qed.

Definition padding (e : Emit) : nat := Z.to_nat (round_up_8 (72 + body_len e) - (72 + body_len e)).

Lemma zlen_block_body e pad : zlen (block_body e pad) = body_len e + Z.of_nat pad.
Proof.
  unfold block_body. rewrite !zlen_app, zlen_restart_table. unfold body_len, zlen at 5.
  rewrite length_replicate. lia.
Qed.

Lemma zlen_block_bytes h e : zlen (block_bytes h e (padding e)) = round_up_8 (72 + body_len e).
Proof.
  unfold block_bytes. rewrite zlen_app, zlen_header_bytes, zlen_block_body. unfold padding.
  pose proof (body_len_nonneg e). pose proof (round_up_8_bounds (72 + body_len e)). lia.
Qed.

Lemma padding_le_7 e : (padding e <= 7)%nat.
Proof.
  unfold padding. pose proof (body_len_nonneg e). pose proof (round_up_8_bounds (72 + body_len e)). lia.
Qed.

(** The output the header is written into. *)
Lemma block_output_eq e :
  block_output e (round_up_8 (72 + body_len e)) = replicate 72 0 ++ block_body e (padding e).
Proof.
  unfold block_output. fold (restart_table (emit_restarts e)).
  set (output := replicate 72 0 ++ _).
  assert (Hlen : zlen output = 72 + body_len e).
  { unfold output. rewrite !zlen_app, zlen_restart_table. unfold body_len.
    change (zlen (replicate 72 0)) with 72. lia. }
  pose proof (body_len_nonneg e) as Hb. pose proof (round_up_8_bounds (72 + body_len e) ltac:(lia)) as [Hr _].
  rewrite take_ge by (unfold zlen in Hlen; lia).
  replace (Z.to_nat (round_up_8 (72 + body_len e)) - length output)%nat with (padding e).
  2: { unfold padding. unfold zlen in Hlen. lia. }
  unfold output, block_body. by rewrite <- !app_assoc.
Qed.

(** ** The header and its checksum *)

(** The checksum of a block with the checksum field taken as zero. *)
Definition block_crc (h : WordBlockHeader) (e : Emit) (pad : nat) : Z :=
  checksum_parts [header_head h ++ [0; 0; 0; 0] ++ [0; 0; 0; 0] ++ block_body e pad].

Definition emit_bytes_ok (e : Emit) : Prop :=
  bytes_ok (records e) /\ bytes_ok (durations e) /\ bytes_ok (payloads e).

Lemma block_body_ok e pad : emit_bytes_ok e -> bytes_ok (block_body e pad).
Proof.
  intros (H1 & H2 & H3). unfold block_body. rewrite !bytes_ok_app.
  split_and!; try done; [apply restart_table_ok|]. apply Forall_replicate. unfold u8. lia.
Qed.

Lemma header_head_ok h : u8 (value_bytes h) -> bytes_ok (header_head h).
Proof.
  intros Hv. unfold header_head. rewrite !bytes_ok_app. split_and!; auto with ints.
  all: repeat (apply bytes_ok_cons; split; [ints|]); auto with ints.
Qed.

Lemma header_head_with_crc crc h : header_head (with_crc crc h) = header_head h.
Proof. done. Qed.

(** The checksum does not depend on the checksum field. *)
Lemma block_checksum_block h e pad :
  u8 (value_bytes h) -> emit_bytes_ok e ->
  block_checksum (block_bytes h e pad) BLOCK_CHECKSUM_OFFSET = Some (block_crc h e pad).
Proof.
  intros Hv He. unfold block_bytes, header_bytes. rewrite <- !app_assoc.
  change BLOCK_CHECKSUM_OFFSET with (zlen (header_head h)).
  apply block_checksum_field; [by apply header_head_ok|auto with ints| |done].
  apply bytes_ok_app. split; [repeat (apply bytes_ok_cons; split; [ints|]); auto with ints|].
  by apply block_body_ok.
Qed.

Lemma block_crc_u32 h e pad : u8 (value_bytes h) -> emit_bytes_ok e -> u32 (block_crc h e pad).
Proof.
  intros Hv He. unfold block_crc.
  assert (Hok : bytes_ok (header_head h ++ [0; 0; 0; 0] ++ [0; 0; 0; 0] ++ block_body e pad)).
  { rewrite !bytes_ok_app. split_and!; [by apply header_head_ok| | |by apply block_body_ok];
      repeat (apply bytes_ok_cons; split; [ints|]); auto with ints. }
  rewrite checksum_serial by done. apply not32_u32, serial_u32; [apply not32_0_u32|done].
Qed.

(** Filling in the header and the checksum yields the layout. *)
Lemma fill_header h e pad :
  let crc := block_crc h e pad in
  u8 (value_bytes h) -> emit_bytes_ok e -> crc32c h = 0 ->
  (let? output := ok_or (write_to h (replicate 72 0 ++ block_body e pad)) EmptyBlock in
   let? crc := ok_or (block_checksum output BLOCK_CHECKSUM_OFFSET) EmptyBlock in
   let header := with_crc crc h in
   let? output := ok_or (write_to header output) EmptyBlock in
   Ok (mkMetadata header (emit_restarts e), output))
  = Ok (mkMetadata (with_crc crc h) (emit_restarts e), block_bytes (with_crc crc h) e pad).
Proof.
  intros crc Hv He Hzero. pose proof (zlen_nonneg (block_body e pad)).
  rewrite write_to_layout by (rewrite zlen_app; change (zlen (replicate 72 0)) with 72; lia).
  cbn [ok_or]. change (drop 72 (replicate 72 0 ++ block_body e pad)) with (block_body e pad).
  fold (block_bytes h e pad). rewrite block_checksum_block by done. cbn [ok_or]. fold crc.
  rewrite write_to_layout.
  2: { unfold block_bytes. rewrite zlen_app, zlen_header_bytes. lia. }
  cbn [ok_or]. unfold block_bytes at 1.
  replace (drop 72 (header_bytes h ++ block_body e pad)) with (block_body e pad); [done|].
  symmetry. change 72%nat with (length (header_bytes h)). apply drop_app_length.
Qed.

Definition header_flags (ws : list Word) (e : Emit) (grouped : bool) : Z :=
  Z.lor (Z.lor (if 0 <? emit_durations e then BLOCK_FLAG_HAS_DURATIONS else 0)
      (if 0 <? words_with_payload ws then BLOCK_FLAG_HAS_PAYLOADS else 0))
    (if grouped then BLOCK_FLAG_GROUPED_TIMESTAMPS else 0).

Definition header_of (block_sequence : Z) (ws : list Word) (width : Z) (e : Emit) (grouped : bool)
  : WordBlockHeader :=
  let restart_offset := 72 + zlen (records e) in
  mkHeader (header_flags ws e grouped) block_sequence
    (match ws with w :: _ => timestamp_ns w | [] => 0 end)
    (match last ws with Some w => timestamp_ns w | None => 0 end)
    (zlen ws) width (zlen (records e)) (zlen (emit_restarts e)) restart_offset (emit_durations e)
    (restart_offset + 16 * zlen (emit_restarts e)) (round_up_8 (72 + body_len e)) 0.

Definition block_fits (e : Emit) : Prop :=
  round_up_8 (72 + body_len e) <= u32_max /\ emit_durations e <= u32_max.

Lemma block_fits_parts e : block_fits e ->
  0 <= zlen (records e) /\ 0 <= zlen (emit_restarts e) /\
  72 + zlen (records e) + 16 * zlen (emit_restarts e) + zlen (durations e) + zlen (payloads e) <= u32_max.
Proof.
  intros [H _]. pose proof (body_len_nonneg e). pose proof (round_up_8_bounds (72 + body_len e) ltac:(lia)).
  pose proof (zlen_nonneg (records e)). pose proof (zlen_nonneg (emit_restarts e)).
  split_and!; try done. unfold body_len in *. lia.
Qed.

#[local] Lemma body_len_offsets e :
  BLOCK_HEADER_SIZE + zlen (records e) + zlen (emit_restarts e) * RESTART_ENTRY_SIZE
    + zlen (durations e) + zlen (payloads e) = 72 + body_len e.
Proof. unfold body_len, BLOCK_HEADER_SIZE, RESTART_ENTRY_SIZE. lia. Qed.

Lemma block_header_fits block_sequence ws width e grouped :
  zlen ws <= u32_max -> u8 width -> block_fits e ->
  block_header block_sequence ws width e grouped = Ok (header_of block_sequence ws width e grouped).
Proof.
  intros Hn Hw Hfit. pose proof (block_fits_parts e Hfit). destruct Hfit as [Hlen Hdur].
  pose proof (zlen_nonneg ws). pose proof (zlen_nonneg (durations e)). pose proof (zlen_nonneg (payloads e)).
  unfold block_header. rewrite body_len_offsets. unfold to_u32, BLOCK_HEADER_SIZE, RESTART_ENTRY_SIZE.
  rewrite !(proj2 (Z.leb_le _ _)) by lia. unfold as_u32, as_u8. rewrite !Z.mod_small by ints.
  unfold header_of, header_flags. f_equal. f_equal; lia.
Qed.

Lemma block_header_ok block_sequence ws width e grouped h :
  block_header block_sequence ws width e grouped = Ok h -> block_fits e.
Proof.
  unfold block_header. rewrite body_len_offsets. unfold to_u32. intros H.
  repeat match type of H with
  | context [if ?a <=? ?b then _ else _] => destruct (Z.leb_spec a b); [|discriminate H]
  end. split; done.
Qed.

Lemma header_of_ok block_sequence ws width e grouped crc :
  u64 block_sequence -> Forall (fun w => u64 (timestamp_ns w)) ws -> zlen ws <= u32_max -> u8 width ->
  0 <= emit_durations e -> block_fits e -> u32 crc ->
  header_ok (with_crc crc (header_of block_sequence ws width e grouped)).
Proof.
  intros Hs Hts Hn Hw Hd Hfit Hc. pose proof (block_fits_parts e Hfit). destruct Hfit as [Hlen Hdur].
  pose proof (zlen_nonneg ws). pose proof (zlen_nonneg (durations e)). pose proof (zlen_nonneg (payloads e)).
  pose proof (body_len_nonneg e). pose proof (round_up_8_bounds (72 + body_len e) ltac:(lia)).
  unfold header_ok, header_of, with_crc. cbn [flags sequence first_timestamp_ns last_timestamp_ns
    word_count value_bytes record_payload_len restart_count restart_table_offset duration_count
    duration_table_offset block_len crc32c].
  split_and!; try done; try (ints; fail).
  - unfold header_flags. destruct (0 <? emit_durations e), (0 <? words_with_payload ws), grouped; vm_compute; split; (discriminate || reflexivity).
  - destruct Hts; [cbn; ints|done].
  - destruct (last ws) as [w|] eqn:Hl; [|ints]. apply last_Some in Hl as [l ->].
    apply Forall_app in Hts as [_ Hw']. by apply Forall_cons in Hw' as [? _].
Qed.

(** ** Restart tables *)

(** Entries strictly increasing in index and offset and not decreasing in time, within a block
    of [words] records and [bytes] record bytes. *)
Fixpoint restarts_within (index offset time words bytes : Z) (rs : list RestartEntry) : Prop :=
  match rs with
  | [] => True
  | r :: rs =>
      index <= record_index r < words /\ offset <= payload_offset r < bytes /\
      time <= restart_timestamp_ns r <= u64_max /\
      restarts_within (record_index r + 1) (payload_offset r + 1) (restart_timestamp_ns r) words bytes rs
  end.

Lemma restarts_within_weaken index offset time words bytes rs index' offset' time' :
  index' <= index -> offset' <= offset -> time' <= time ->
  restarts_within index offset time words bytes rs -> restarts_within index' offset' time' words bytes rs.
Proof. intros. destruct rs as [|r rs]; [done|]. cbn in *. intuition lia. Qed.

Lemma restarts_within_ordered rs : forall index offset time words bytes,
  restarts_within index offset time words bytes rs -> restarts_ordered rs = true.
Proof.
  induction rs as [|r rs IH]; intros index offset time words bytes H; [done|].
  destruct H as (H1 & H2 & H3 & H). destruct rs as [|r' rs]; [done|].
  change (restarts_ordered (r :: r' :: rs)) with
    (negb ((record_index r' <=? record_index r) || (payload_offset r' <=? payload_offset r)
      || (restart_timestamp_ns r' <? restart_timestamp_ns r)) && restarts_ordered (r' :: rs)).
  rewrite (IH _ _ _ _ _ H). destruct H as (H4 & H5 & H6 & _).
  rewrite !(proj2 (Z.leb_gt _ _)), (proj2 (Z.ltb_ge _ _)) by lia. done.
Qed.

Lemma restarts_within_Forall rs : forall index offset time words bytes,
  0 <= index -> 0 <= offset -> 0 <= time -> restarts_within index offset time words bytes rs ->
  Forall (fun r => 0 <= record_index r < words /\ 0 <= payload_offset r < bytes /\ u64 (restart_timestamp_ns r)) rs.
Proof.
  induction rs as [|r rs IH]; intros index offset time words bytes Hi Ho Ht H; [constructor|].
  destruct H as (H1 & H2 & H3 & H). constructor; [split_and!; ints|].
  eapply IH; [..|exact H]; lia.
Qed.

Lemma validate_restarts rs words bytes :
  restarts_within 0 0 0 words bytes rs ->
  match rs with r :: _ => record_index r = 0 /\ payload_offset r = 0 | [] => False end ->
  validate_restart_order rs words bytes = Ok tt.
Proof.
  intros H Hhead. unfold validate_restart_order. rewrite (restarts_within_ordered _ _ _ _ _ _ H).
  destruct rs as [|r rs]; [done|]. destruct Hhead as [-> ->]. cbn [Z.eqb negb orb].
  destruct (last (r :: rs)) as [r'|] eqn:Hl; [|done].
  apply restarts_within_Forall in H; [|lia..]. apply last_Some in Hl as [l Hl]. rewrite Hl in H.
  apply Forall_app in H as [_ H]. apply Forall_cons in H as [H _].
  by rewrite !(proj2 (Z.leb_gt _ _)) by lia.
Qed.

Lemma read_restarts_at bytes post rs : forall cursor,
  at_cursor bytes cursor (restart_table rs ++ post) ->
  Forall (fun r => u64 (restart_timestamp_ns r) /\ u32 (payload_offset r) /\ u32 (record_index r)) rs ->
  read_restarts (length rs) bytes cursor = Ok rs.
Proof.
  induction rs as [|r rs IH]; intros cursor Hat Hok; [done|]. apply Forall_cons in Hok as [(H1 & H2 & H3) Hok].
  unfold restart_table in Hat. cbn [map concat] in Hat. rewrite <- app_assoc in Hat.
  destruct (restart_roundtrip _ _ _ _ Hat H1 H2 H3) as [Hr Hat'].
  cbn [length read_restarts]. by rewrite Hr, (IH _ Hat' Hok).
Qed.

(** ** Parsing the block *)

Section Parse.
Context (block_sequence : Z) (ws : list Word) (width : Z) (e : Emit) (grouped : bool).
Abbreviation h0 := (header_of block_sequence ws width e grouped).
Abbreviation pad := (padding e).
Abbreviation crc := (block_crc h0 e pad).
Abbreviation h := (with_crc crc h0).
Abbreviation bytes := (block_bytes h e pad).
Abbreviation record_end := (72 + zlen (records e)).
Abbreviation duration_offset := (72 + zlen (records e) + 16 * zlen (emit_restarts e)).
Context (Hseq : u64 block_sequence) (Hts : Forall (fun w => u64 (timestamp_ns w)) ws).
Context (Hn : 0 < zlen ws <= u32_max) (Hwidth : width_ok width).
Context (Hbytes : emit_bytes_ok e) (Hdur : 0 <= emit_durations e) (Hfit : block_fits e).
Context (Hrestarts : restarts_within 0 0 0 (zlen ws) (zlen (records e)) (emit_restarts e)).
Context (Hfirst : match emit_restarts e with r :: _ => record_index r = 0 /\ payload_offset r = 0 | [] => False end).

Lemma width_u8 : u8 width.
Proof. destruct Hwidth as [->|[->|[->| ->]]]; ints. Qed.

Lemma block_header_valid : header_ok h.
Proof.
  apply header_of_ok; try done; [lia|apply width_u8|]. apply block_crc_u32; [apply width_u8|done].
Qed.

Lemma block_at_records : at_cursor bytes 72 (records e ++ restart_table (emit_restarts e) ++
  durations e ++ payloads e ++ replicate pad 0).
Proof. change 72 with (zlen (header_bytes h)). apply at_cursor_intro. Qed.

Lemma block_at_restarts :
  at_cursor bytes record_end (restart_table (emit_restarts e) ++ durations e ++ payloads e ++ replicate pad 0).
Proof. apply at_cursor_app, block_at_records. Qed.

Lemma block_at_durations :
  at_cursor bytes duration_offset (durations e ++ payloads e ++ replicate pad 0).
Proof.
  pose proof (at_cursor_app _ _ _ _ block_at_restarts) as H. by rewrite zlen_restart_table in H.
Qed.

Lemma block_flags_known : Z.land (flags h) (Z.lnot 7) = 0.
Proof.
  cbn [flags with_crc header_of]. unfold header_flags.
  by destruct (0 <? emit_durations e), (0 <? words_with_payload ws), grouped.
Qed.

Lemma block_bytes_ok : bytes_ok bytes.
Proof.
  unfold block_bytes, header_bytes. rewrite !bytes_ok_app. split_and!.
  - apply header_head_ok, width_u8.
  - auto with ints.
  - repeat (apply bytes_ok_cons; split; [ints|]); auto with ints.
  - by apply block_body_ok.
Qed.

Definition parsed_block : ParsedWordBlock :=
  mkParsed h (emit_restarts e) record_end duration_offset (round_up_8 (72 + body_len e)) width.

Lemma parse_block : parse_word_block bytes = Ok parsed_block.
Proof.
  unfold parse_word_block. unfold block_bytes at 1. rewrite (from_bytes_layout _ _ block_header_valid).
  rewrite (zlen_block_bytes h e). pose proof (body_len_nonneg e).
  pose proof (round_up_8_bounds (72 + body_len e) ltac:(lia)) as [Hround _].
  cbn [block_len with_crc header_of]. rewrite Z.eqb_refl. cbn [negb orb].
  rewrite (proj2 (Z.ltb_ge _ BLOCK_HEADER_SIZE)) by (unfold BLOCK_HEADER_SIZE; lia).
  rewrite (block_checksum_block h e pad width_u8 Hbytes). cbn [ok_or].
  change (block_crc h e pad) with crc. cbn [crc32c with_crc]. rewrite Z.eqb_refl. cbn [negb].
  cbn [word_count with_crc header_of]. rewrite (proj2 (Z.eqb_neq (zlen ws) 0)) by lia.
  cbn [value_bytes with_crc header_of].
  assert (Hw : (width =? 1) || (width =? 2) || (width =? 4) || (width =? 8) = true).
  { destruct Hwidth as [->|[->|[->| ->]]]; done. }
  rewrite Hw. cbn [negb]. change (header_of block_sequence ws width e grouped) with h0.
  rewrite block_flags_known. cbn [Z.eqb negb].
  cbn [record_payload_len restart_table_offset restart_count duration_table_offset with_crc header_of].
  unfold BLOCK_HEADER_SIZE, RESTART_ENTRY_SIZE.
  rewrite (Z.mul_comm _ 16), !Z.eqb_refl. cbn [negb orb].
  rewrite (proj2 (Z.ltb_ge _ (72 + _ + _))).
  2: { unfold body_len in *. pose proof (zlen_nonneg (durations e)). pose proof (zlen_nonneg (payloads e)). lia. }
  replace (Z.to_nat (zlen (emit_restarts e))) with (length (emit_restarts e)) by (unfold zlen; lia).
  pose proof (block_fits_parts e Hfit) as (Hr & _ & Hle).
  pose proof (zlen_nonneg (durations e)). pose proof (zlen_nonneg (payloads e)). pose proof (zlen_nonneg (emit_restarts e)).
  rewrite (read_restarts_at _ _ _ _ block_at_restarts).
  2: { eapply Forall_impl; [eapply restarts_within_Forall; [..|exact Hrestarts]; lia|].
    cbn. intros r (Hr1 & Hr2 & Hr3). split_and!; [done|ints|ints]. }
  by rewrite validate_restarts.
Qed.
End Parse.
