(* ===== verification/WordCodec.v ===== *)
(** The round trip of the word-block codec: what the encoder makes of a block's words, in each of
    its layouts, the decoder turns back into the words. *)

From S2P Require Import Prelude Events Vlq WordFormat WordEncode WordDecode WordRecords.
From S2P Require Import WordGroups WordGrouped WordEmit WordBlock.

Definition first_time (ws : list Word) : Z := match ws with w :: _ => timestamp_ns w | [] => 0 end.

(** The words of one block. *)
Definition block_words (width : Z) (ws : list Word) : Prop :=
  ws <> [] /\ records_ok width (first_time ws) ws /\ Forall word_ok ws /\ zlen ws <= u32_max.

(** The records in one of the two layouts. *)
Inductive layout (interval width : Z) (ws : list Word) (e : Emit) : bool -> Prop :=
| layout_records :
    records e = legacy_records width (first_time ws) ws ->
    emit_restarts e = legacy_restarts interval width 0 0 (first_time ws) ws ->
    layout interval width ws e false
| layout_groups gs :
    width = 1 -> concat gs = ws -> Forall (fun g => g <> []) gs ->
    records e = groups_records gs -> emit_restarts e = group_restarts 0 0 gs ->
    layout interval width ws e true.

Lemma layout_inv interval width ws e grouped : layout interval width ws e grouped ->
  (grouped = false /\ records e = legacy_records width (first_time ws) ws /\
    emit_restarts e = legacy_restarts interval width 0 0 (first_time ws) ws) \/
  (exists gs, grouped = true /\ width = 1 /\ concat gs = ws /\ Forall (fun g => g <> []) gs /\
    records e = groups_records gs /\ emit_restarts e = group_restarts 0 0 gs).
Proof. intros [H1 H2|gs H1 H2 H3 H4 H5]; [by left|right; by exists gs]. Qed.

Definition tables (ws : list Word) (e : Emit) : Prop :=
  durations e = duration_table None 0 ws /\ emit_durations e = zlen (timed_words ws) /\
  payloads e = (if 0 <? words_with_payload ws then encode_u64 (words_with_payload ws) else [])
    ++ payload_table None 0 ws.

(** Words without durations and payloads, with small time steps. *)
Definition dense_words (ws : list Word) : Prop :=
  Forall (fun w => duration_ns w = 0 /\ payload w = None) ws /\ small_gaps (first_time ws) ws.

Lemma dense_tables ws previous index :
  Forall (fun w => duration_ns w = 0 /\ payload w = None) ws ->
  duration_table previous index ws = [] /\ payload_table previous index ws = [] /\
  timed_words ws = [] /\ payload_words ws = [].
Proof.
  intros H. revert index. induction H as [|w ws [Hd Hp] _ IH]; intros index; [done|].
  unfold timed_words, payload_words, is_numeric in *. cbn. rewrite Hd, Hp. cbn. apply IH.
Qed.

(** ** The encoder's records *)

Lemma zlen_emit_dense interval ws : forall index previous acc_records acc_restarts,
  zlen (fst (emit_dense interval index previous ws (acc_records, acc_restarts)))
    = zlen acc_records + 2 * zlen ws.
Proof.
  induction ws as [|w ws IH]; intros index previous acc_records acc_restarts; [cbn [emit_dense fst]; change (zlen (@nil Word)) with 0; lia|].
  cbn [emit_dense]. rewrite IH, zlen_app. change (zlen [_; _]) with 2. rewrite zlen_cons. lia.
Qed.

Lemma zlen_legacy_dense prev ws : 0 <= prev -> records_ok 1 prev ws -> small_gaps prev ws ->
  zlen (legacy_records 1 prev ws) = 2 * zlen ws.
Proof.
  revert prev. induction ws as [|w ws IH]; intros prev Hp Hok Hs; [done|].
  destruct Hok as (Hv & Ht & Hok), Hs as [Hg Hs]. cbn [legacy_records].
  rewrite zlen_app, zlen_cons, dense_record, IH by (done || lia). change (zlen [_; _]) with 2. lia.
Qed.

(** What the encoder emits for the words of a block: an error only if the records of the
    ungrouped layout are longer than 4 GiB. *)
Lemma emit_block_layout ws interval width timestamp_bytes dense :
  block_words width ws -> 0 < interval -> (dense = true -> width = 1 /\ dense_words ws /\ timestamp_bytes = zlen ws) ->
  (exists e grouped, emit_block ws interval width timestamp_bytes dense = Ok (e, grouped) /\
    tables ws e /\
    ((layout interval width ws e grouped /\ zlen (emit_restarts e) = div_ceil (zlen ws) interval) \/
      u32_max < zlen (records e)) /\
    zlen (records e) <= zlen (legacy_records width (first_time ws) ws)) \/
  ((exists x, emit_block ws interval width timestamp_bytes dense = Err x) /\
    u32_max < zlen (legacy_records width (first_time ws) ws)).
Proof.
  intros (Hne & Hok & Hwok & Hn) Hint Hdense. unfold emit_block. fold (first_time ws).
  assert (Ht0 : 0 <= first_time ws).
  { destruct Hwok as [|w ws (? & ? & ?)]; cbn; [lia|ints]. }
  pose proof (zlen_nonneg (legacy_records width (first_time ws) ws)).
  destruct dense.
  - destruct Hdense as (-> & (Hplain & Hsmall) & ->); [done|].
    pose proof (zlen_legacy_dense _ ws Ht0 Hok Hsmall) as Hleg.
    destruct (dense_tables ws None 0 Hplain) as (Hd & Hp & Htw & Hpw).
    set (counts := if 0 <? words_with_payload ws then _ else _).
    unfold tables. fold counts. rewrite Hd, Hp, Htw, app_nil_r.
    destruct (encode_grouped_dense_records ws interval (zlen ws)) as [[grouped restarts]|] eqn:Hg.
    + left. eexists _, true. split; [done|]. split; [done|]. cbn [records emit_restarts].
      unfold encode_grouped_dense_records in Hg.
      destruct (chunks_spec (Z.to_nat interval) ws ltac:(lia)) as (Hc & Hcne & Hcf & _).
      destruct (emit_groups interval 0 (chunks (Z.to_nat interval) ws) ([], [])) as [[r rs]|] eqn:He;
        [|done]. cbn [mbind option_bind fst] in Hg.
      destruct (Z.ltb_spec (zlen r) (zlen ws + zlen ws)); [|done]. injection Hg as -> ->.
      apply emit_groups_spec in He as [-> ->]; [|done|done|lia|rewrite Hc; lia].
      split; [|cbn [app] in *; lia].
      left. split; [by apply (layout_groups _ _ _ _ (chunks (Z.to_nat interval) ws))|].
      cbn [app emit_restarts]. rewrite zlen_group_restarts. unfold chunks.
      rewrite zlen_chunks_fuel by lia. by rewrite Z2Nat.id by lia.
    + left. pose proof (zlen_emit_dense interval ws 0 None [] []) as Hlen.
      pose proof (emit_dense_spec interval ws 0 (first_time ws) None [] []) as Hspec.
      destruct (emit_dense interval 0 None ws ([], [])) as [r rs].
      eexists _, false. split; [done|]. split; [done|]. cbn [records emit_restarts fst] in *.
      change (zlen []) with 0 in *. split; [|lia].
      destruct (Z.le_gt_cases (2 * zlen ws) u32_max); [|right; lia]. left.
      assert (Heq : (r, rs) = ([] ++ legacy_records 1 (first_time ws) ws,
        [] ++ legacy_restarts interval 1 0 0 (first_time ws) ws)).
      { apply Hspec; try done. by destruct ws. }
      injection Heq as -> ->. split; [by apply layout_records|].
      cbn [app emit_restarts]. by rewrite zlen_legacy_restarts, div_ceil_0, Z.sub_0_r by lia.
  - set (e0 := mkEmit _ _ _ _ _ _ _ _ _).
    destruct (emit_words_spec interval width ws 0 (first_time ws) e0) as [(e & He & R1 & R2 & R3 & R4 & R5)|[[x He] Hbig]];
      try done; [by destruct ws| |].
    + left. exists e, false. rewrite He. split; [done|].
      split; [unfold tables; by rewrite R3, R4, R5|].
      split; [left; split; [by apply layout_records|]|by rewrite R1].
      rewrite R2. cbn [app emit_restarts e0]. by rewrite zlen_legacy_restarts, div_ceil_0, Z.sub_0_r by lia.
    + right. rewrite He. split; [by eexists|]. exact Hbig.
Qed.

(** ** What the layouts guarantee *)

Lemma zlen_encode_u64_pos v : u64 v -> 1 <= zlen (encode_u64 v).
Proof. intros Hv. rewrite zlen_encode_u64 by done. pose proof (encoded_len_range v Hv). lia. Qed.

Lemma legacy_restarts_within interval width ws : forall index offset prev,
  0 <= prev -> records_ok width prev ws ->
  restarts_within index offset prev (index + zlen ws) (offset + zlen (legacy_records width prev ws))
    (legacy_restarts interval width index offset prev ws).
Proof.
  induction ws as [|w ws IH]; intros index offset prev Hp Hok; [done|].
  destruct Hok as (Hv & Ht & Hok). cbn [legacy_restarts legacy_records]. rewrite zlen_cons, zlen_app.
  pose proof (IH (index + 1) (offset + zlen (legacy_record width prev w)) (timestamp_ns w) ltac:(lia) Hok) as H.
  assert (Hpos : 1 <= zlen (legacy_record width prev w)).
  { unfold legacy_record. rewrite zlen_app. pose proof (zlen_nonneg (append_value (value w) width)).
    pose proof (zlen_encode_u64_pos (timestamp_ns w - prev) ltac:(ints)). lia. }
  pose proof (zlen_nonneg ws). pose proof (zlen_nonneg (legacy_records width (timestamp_ns w) ws)).
  rewrite !Z.add_assoc. rewrite <- (Z.add_assoc index 1). rewrite Z.add_assoc.
  destruct (index mod interval =? 0); cbn [app].
  - cbn [restarts_within record_index payload_offset restart_timestamp_ns]. split_and!; try lia.
    eapply restarts_within_weaken; [..|exact H]; lia.
  - eapply restarts_within_weaken; [..|exact H]; lia.
Qed.

Lemma group_records_pos g : 1 <= zlen (group_records g).
Proof.
  unfold group_records. destruct (collect_palette (deltas g) [] true 0) as [[palette av] raw].
  destruct (zlen palette =? 1); [|destruct (_ <? _)]; rewrite zlen_cons;
    match goal with |- 1 <= 1 + zlen ?l => pose proof (zlen_nonneg l); lia end.
Qed.

Lemma group_restarts_within gs : forall index offset prev,
  0 <= prev -> Forall (fun g => g <> []) gs -> records_ok 1 prev (concat gs) ->
  restarts_within index offset prev (index + zlen (concat gs)) (offset + zlen (groups_records gs))
    (group_restarts index offset gs).
Proof.
  induction gs as [|g gs IH]; intros index offset prev Hp Hne Hok; [done|].
  apply Forall_cons in Hne as [Hg Hne]. cbn [concat group_restarts] in *.
  apply records_ok_app in Hok as [Hokg Hok]. pose proof (records_ok_last _ _ _ Hokg).
  pose proof (IH (index + zlen g) (offset + zlen (group_records g)) _ (Z.le_trans _ _ _ Hp H) Hne Hok) as H1.
  change (groups_records (g :: gs)) with (group_records g ++ groups_records gs). rewrite !zlen_app, !Z.add_assoc.
  pose proof (group_records_pos g). destruct g as [|w g]; [done|]. destruct Hokg as (Hv & Ht & Hokg).
  pose proof (zlen_nonneg (concat gs)). pose proof (zlen_nonneg (groups_records gs)).
  assert (Hlast : timestamp_ns w <= default prev (timestamp_ns <$> last (w :: g))).
  { apply records_ok_last in Hokg. rewrite last_cons. destruct (last g); cbn in *; lia. }
  rewrite zlen_cons in *. pose proof (zlen_nonneg g).
  cbn [restarts_within record_index payload_offset restart_timestamp_ns group_timestamp].
  split_and!; try lia. eapply restarts_within_weaken; [..|exact H1]; lia.
Qed.

Lemma first_time_nonneg ws : Forall word_ok ws -> 0 <= first_time ws.
Proof. intros [|w l (? & ? & ?)]; cbn; ints. Qed.

Lemma word_times ws : Forall word_ok ws -> Forall (fun w => u64 (timestamp_ns w)) ws.
Proof. intros H. eapply Forall_impl; [exact H|]. by intros w (? & ? & ?). Qed.

Lemma layout_restarts interval width ws e grouped :
  block_words width ws -> layout interval width ws e grouped ->
  restarts_within 0 0 0 (zlen ws) (zlen (records e)) (emit_restarts e) /\
  match emit_restarts e with r :: _ => record_index r = 0 /\ payload_offset r = 0 | [] => False end.
Proof.
  intros (Hne & Hok & Hwok & Hn) Hl. pose proof (first_time_nonneg ws Hwok) as Ht0.
  destruct Hl as [Hr Hrs|gs -> Hc Hgne Hr Hrs]; rewrite Hr, Hrs.
  - split; [|by destruct ws].
    apply (restarts_within_weaken 0 0 (first_time ws)); [lia|lia|done|].
    apply (legacy_restarts_within interval width ws 0 0); done.
  - split.
    + apply (restarts_within_weaken 0 0 (first_time ws)); [lia|lia|done|]. subst ws.
      apply (group_restarts_within gs 0 0); done.
    + destruct gs; [by subst|done].
Qed.

(** ** Byte ranges *)

Lemma append_value_ok v width : width_ok width -> bytes_ok (append_value v width).
Proof. intros Hw. rewrite append_value_bytes by done. apply to_le_bytes_ok. Qed.

Lemma legacy_records_ok width prev ws : width_ok width -> records_ok width prev ws ->
  bytes_ok (legacy_records width prev ws).
Proof.
  intros Hw. revert prev. induction ws as [|w ws IH]; intros prev Hok; [constructor|].
  destruct Hok as (Hv & Ht & Hok). cbn. apply bytes_ok_app. split; [|by apply IH].
  apply bytes_ok_app. split; [apply encode_u64_ok; lia|by apply append_value_ok].
Qed.

Lemma body_ok g ws : forall prev, records_ok 1 prev ws -> bytes_ok (body g prev ws).
Proof.
  induction ws as [|w ws IH]; intros prev Hok; [constructor|]. destruct Hok as (Hv & Ht & Hok). cbn.
  apply bytes_ok_app. split; [|apply bytes_ok_cons; split; [exact Hv|by apply IH]].
  destruct g; [apply encode_u64_ok; lia|constructor|constructor].
Qed.

Lemma palette_bytes_ok palette : Forall u64 palette -> bytes_ok (concat (map encode_u64 palette)).
Proof.
  induction 1 as [|d palette Hd _ IH]; [constructor|]. apply bytes_ok_app.
  split; [apply encode_u64_ok; unfold u64 in Hd; lia|exact IH].
Qed.

Lemma group_records_ok g prev : 0 <= prev -> g <> [] -> records_ok 1 prev g -> zlen g <= u32_max ->
  bytes_ok (group_records g).
Proof.
  intros Hp Hg Hok Hn. destruct g as [|w ws]; [done|]. rewrite zlen_cons in Hn.
  destruct Hok as (Hv & Ht & Hok).
  assert (Hvals : bytes_ok (word_values (w :: ws))).
  { apply bytes_ok_cons. split; [exact Hv|]. rewrite <- (body_values (Constant 0) (timestamp_ns w)) by done.
    by apply body_ok. }
  destruct (group_records_kind w ws ltac:(ints) Hv Hok ltac:(lia)) as [|delta Hd _|palette packed Hpl Hpu Hpb _ _];
    apply bytes_ok_cons; (split; [ints|]).
  - apply bytes_ok_cons. split; [exact Hv|by apply body_ok].
  - apply bytes_ok_app. split; [apply encode_u64_ok; unfold u64 in Hd; lia|done].
  - apply bytes_ok_cons. split; [ints|]. rewrite !bytes_ok_app. split_and!; try done.
    by apply palette_bytes_ok.
Qed.

Lemma groups_records_ok gs : forall prev, 0 <= prev -> Forall (fun g => g <> []) gs ->
  records_ok 1 prev (concat gs) -> zlen (concat gs) <= u32_max -> bytes_ok (groups_records gs).
Proof.
  induction gs as [|g gs IH]; intros prev Hp Hne Hok Hn; [constructor|].
  apply Forall_cons in Hne as [Hg Hne]. cbn [concat] in *. rewrite zlen_app in Hn.
  apply records_ok_app in Hok as [Hokg Hok]. pose proof (records_ok_last _ _ _ Hokg).
  pose proof (zlen_nonneg g). pose proof (zlen_nonneg (concat gs)).
  apply bytes_ok_app. split; [apply (group_records_ok g prev); done || lia|].
  eapply IH; [|exact Hne|exact Hok|]; lia.
Qed.

Lemma duration_table_ok ws : forall previous index, previous_ok previous index -> 0 <= index ->
  Forall word_ok ws -> bytes_ok (duration_table previous index ws).
Proof.
  induction ws as [|w ws IH]; intros previous index Hp Hi Hok; [constructor|].
  apply Forall_cons in Hok as [(_ & _ & Hd & _) Hok]. cbn [duration_table].
  destruct (duration_ns w =? 0); [apply IH; [by apply previous_next|lia|done]|].
  rewrite !bytes_ok_app. split_and!; [|apply encode_u64_ok; unfold u64 in Hd; lia|apply IH; [cbn; lia|lia|done]].
  apply encode_u64_ok. destruct previous; cbn in *; lia.
Qed.

Lemma payload_bytes_ok p : payload_ok p -> bytes_ok (payload_bytes p).
Proof.
  destruct p; cbn; intros H; apply bytes_ok_cons; (split; [ints|]); apply bytes_ok_app;
    (split; [apply encode_u64_ok, zlen_nonneg|apply H]).
Qed.

Lemma payload_table_ok ws : forall previous index, previous_ok previous index -> 0 <= index ->
  Forall word_ok ws -> bytes_ok (payload_table previous index ws).
Proof.
  induction ws as [|w ws IH]; intros previous index Hp Hi Hok; [constructor|].
  apply Forall_cons in Hok as [(_ & _ & _ & Hpay) Hok]. cbn [payload_table].
  destruct (payload w); [|apply IH; [by apply previous_next|lia|done]].
  rewrite !bytes_ok_app. split_and!; [|by apply payload_bytes_ok|apply IH; [cbn; lia|lia|done]].
  apply encode_u64_ok. destruct previous; cbn in *; lia.
Qed.

Lemma layout_bytes_ok interval width ws e grouped :
  width_ok width -> block_words width ws -> layout interval width ws e grouped -> tables ws e ->
  emit_bytes_ok e.
Proof.
  intros Hw (Hne & Hok & Hwok & Hn) Hl (Hd & _ & Hp). pose proof (first_time_nonneg ws Hwok) as Ht0.
  unfold emit_bytes_ok. rewrite Hd, Hp. split_and!.
  - destruct Hl as [Hr _|gs -> Hc Hgne Hr _]; rewrite Hr; [by apply legacy_records_ok|].
    rewrite <- Hc in Hok at 2. rewrite <- Hc in Hn. by apply (groups_records_ok gs (first_time ws)).
  - apply duration_table_ok; [done|lia|done].
  - apply bytes_ok_app. split; [|apply payload_table_ok; [done|lia|done]].
    destruct (0 <? words_with_payload ws) eqn:Hpos; [|constructor].
    apply encode_u64_ok. apply Z.ltb_lt in Hpos. lia.
Qed.

(** ** Decoding the block *)

(** Without payloads the payload table is empty and every word is numeric. *)
Lemma no_payload_words ws : forall index, zlen (payload_words ws) <= 0 ->
  payload_table None index ws = [] /\ map timed ws = ws.
Proof.
  unfold payload_words, is_numeric. induction ws as [|w ws IH]; intros index Hn; [done|].
  cbn [List.filter payload_table map] in *. destruct (payload w) eqn:Hw; cbn [negb] in Hn.
  - rewrite zlen_cons in Hn. match type of Hn with 1 + zlen ?l <= 0 => pose proof (zlen_nonneg l) end. lia.
  - destruct (IH (index + 1) Hn) as [-> ->]. by rewrite timed_numeric.
Qed.

Section Decode.
Context (interval width block_sequence : Z) (ws : list Word) (e : Emit) (grouped : bool).
Context (Hseq : u64 block_sequence) (Hwidth : width_ok width) (Hws : block_words width ws).
Context (Hlayout : layout interval width ws e grouped) (Htables : tables ws e) (Hfit : block_fits e).
Abbreviation h0 := (header_of block_sequence ws width e grouped).
Abbreviation h := (with_crc (block_crc h0 e (padding e)) h0).
Abbreviation bytes := (block_bytes h e (padding e)).
Abbreviation parsed := (parsed_block block_sequence ws width e grouped).
Abbreviation post := (restart_table (emit_restarts e) ++ durations e ++ payloads e ++ replicate (padding e) 0).

Lemma record_span : 72 + zlen (records e) - 72 <= u32_max.
Proof.
  pose proof (block_fits_parts e Hfit) as (? & ? & ?).
  pose proof (zlen_nonneg (durations e)). pose proof (zlen_nonneg (payloads e)). lia.
Qed.

Lemma grouped_flag : Z.land (flags h) BLOCK_FLAG_GROUPED_TIMESTAMPS = if grouped then 4 else 0.
Proof.
  cbn [flags with_crc header_of]. unfold header_flags.
  generalize grouped. intros g. by destruct (0 <? emit_durations e), (0 <? words_with_payload ws), g.
Qed.

Lemma payload_flag :
  negb (Z.land (flags h) BLOCK_FLAG_HAS_PAYLOADS =? 0) = (0 <? words_with_payload ws).
Proof.
  cbn [flags with_crc header_of]. unfold header_flags.
  generalize grouped. intros g. by destruct (0 <? emit_durations e), (0 <? words_with_payload ws), g.
Qed.

Lemma decode_bytes_ok : bytes_ok bytes.
Proof. apply block_bytes_ok; [done|]. by apply (layout_bytes_ok interval width ws e grouped). Qed.

(** The records of either layout decode to the words without durations and payloads, and the
    decoder ends at the end of the records with every restart used. *)
Lemma decode_layout : exists d0 d,
  RecordDecoder_new parsed 0 false = Ok d0 /\
  decode_records bytes parsed (length ws) 0 d0 = Ok (map plain ws, d) /\
  cursor d = 72 + zlen (records e) /\ next_restart_index d = length (emit_restarts e) /\
  is_complete (group_timestamps d) = true /\
  timestamp d = match last ws with Some w => timestamp_ns w | None => 0 end.
Proof.
  destruct Hws as (Hne & Hok & Hwok & Hn). pose proof (first_time_nonneg ws Hwok) as Ht0.
  pose proof record_span as Hspan. pose proof grouped_flag as Hflag.
  pose proof (block_at_records block_sequence ws width e grouped) as Hat.
  destruct (layout_restarts _ _ _ _ _ Hws Hlayout) as [_ Hfirst].
  assert (Hlast : forall prev, default prev (timestamp_ns <$> last ws) =
    match last ws with Some w => timestamp_ns w | None => 0 end).
  { intros prev. destruct (last ws) eqn:Hl; [done|]. by apply last_None in Hl. }
  destruct (emit_restarts e) as [|r rs] eqn:Hrs; [done|]. destruct Hfirst as [Hri Hpo].
  exists (mkDecoder 72 (restart_timestamp_ns r) 0 Raw false).
  assert (Hnew : RecordDecoder_new parsed 0 false = Ok (mkDecoder 72 (restart_timestamp_ns r) 0 Raw false)).
  { unfold RecordDecoder_new. cbn [parsed_restarts parsed_block]. rewrite Hrs. cbn. by rewrite Hpo. }
  destruct (layout_inv _ _ _ _ _ Hlayout) as [(Hg & Hr & Hrr)|(gs & Hg & Hw & Hc & Hgne & Hr & Hrr)].
  - assert (Hflag0 : Z.land (flags h) BLOCK_FLAG_GROUPED_TIMESTAMPS = 0).
    { rewrite Hflag. by rewrite Hg. }
    assert (Hr0 : restart_timestamp_ns r = first_time ws).
    { rewrite Hrs in Hrr. destruct ws; [done|]. cbn in Hrr. by injection Hrr as -> _. }
    destruct (legacy_decode bytes parsed interval post Hwidth Hspan Hflag0 ws 0 (first_time ws)
      (mkDecoder 72 (restart_timestamp_ns r) 0 Raw false)) as (d & Hdec & Hc & Hat' & He & Ht & Hs & Hgr & Hd & Hk);
      try done; [|by destruct ws| |].
    { destruct Hwok as [|w l (? & ? & ?)]; cbn; [ints|done]. }
    { unfold legacy_state. cbn [cursor timestamp skip_initial_legacy_delta group_timestamps next_restart_index
        drop parsed_restarts record_end parsed_block parsed_value_bytes].
      rewrite Hrs, <- Hr, Hr0. split_and!; try done; try lia. by rewrite <- Hrs, Hrr. }
    exists d. split; [done|]. split; [exact Hdec|]. cbn [legacy_records] in He. change (zlen []) with 0 in He.
    cbn [record_end parsed_block parsed_restarts] in He, Hd, Hk. cbn [legacy_restarts] in Hd.
    split; [lia|]. split; [|split; [by rewrite Hgr|by rewrite Ht, Hlast]].
    rewrite Hrs in Hd, Hk. apply (f_equal length) in Hd. rewrite length_drop in Hd. cbn [length] in *. lia.
  - assert (Hflag4 : Z.land (flags h) BLOCK_FLAG_GROUPED_TIMESTAMPS = 4).
    { rewrite Hflag. by rewrite Hg. }
    destruct (grouped_decode bytes parsed post Hw Hspan Hflag4 decode_bytes_ok gs (first_time ws) 0
      (mkDecoder 72 (restart_timestamp_ns r) 0 Raw false)) as (d & Hdec & (Hc' & Hat' & He & Hcomp & Hd & Hcount) & Ht & Hk);
      try done; [by rewrite Hc, <- Hw|by rewrite Hc| |].
    { unfold start_state. cbn [cursor timestamp group_timestamps next_restart_index
        drop parsed_restarts record_end parsed_block parsed_value_bytes is_complete].
      rewrite Hrs, <- Hr, Hc. split_and!; try done; try lia. by rewrite <- Hrs, Hrr. }
    rewrite Hc in *. exists d. split; [done|]. split; [exact Hdec|].
    change (zlen (groups_records [])) with 0 in He. cbn [record_end parsed_block] in He.
    split; [lia|]. split; [|split; [done|rewrite Ht, Hlast; [done|]]].
    + rewrite Hk. cbn [next_restart_index Nat.add]. rewrite <- Hrs, Hrr. clear.
      generalize 0 at 1. generalize 0. induction gs as [|g gs IH]; intros o i; [done|]. cbn. by rewrite <- IH.
    + intros ->. by cbn in Hc; subst.
Qed.

(** The payload table, when the header says there is one. *)
Lemma decode_payload_table cursor :
  at_cursor bytes cursor (payloads e ++ replicate (padding e) 0) ->
  exists c,
    (if 0 <? words_with_payload ws then
       let? (payload_count, cursor) := decode_u64 bytes cursor in
       apply_payload_entries (Z.to_nat payload_count) bytes (zlen ws) 0 None cursor (map timed ws)
     else Ok (map timed ws, cursor))
    = Ok (ws, c) /\ at_cursor bytes c (replicate (padding e) 0).
Proof.
  destruct Hws as (Hne & Hok & Hwok & Hn). destruct Htables as (_ & _ & ->). intros Hat.
  assert (Hlen : zlen bytes <= u32_max) by (rewrite zlen_block_bytes; apply Hfit).
  rewrite <- app_assoc in Hat. change (words_with_payload ws) with (zlen (payload_words ws)) in *.
  destruct (Z.ltb_spec 0 (zlen (payload_words ws))) as [Hpos|Hnone].
  - assert (Hu : u64 (zlen (payload_words ws))).
    { unfold payload_words, zlen in *. pose proof (filter_length_le (fun w => negb (is_numeric w)) ws). ints. }
    rewrite (decode_encode_u64 _ _ _ _ Hu Hat). apply at_cursor_app in Hat.
    unfold zlen at 1. rewrite Nat2Z.id.
    pose proof (payload_entries_decode bytes (replicate (padding e) 0) ws [] None 0 _ Hwok eq_refl I
      ltac:(lia) Hlen Hat) as H1.
    rewrite Z.add_0_l in H1. cbn [app] in H1. rewrite H1. eexists. split; [done|].
    by apply at_cursor_app in Hat.
  - destruct (no_payload_words ws 0 Hnone) as [Htable Htimed]. rewrite Htable in Hat. rewrite Htimed.
    by exists cursor.
Qed.

Lemma padding_zero : existsb (fun byte => negb (byte =? 0)) (replicate (padding e) 0) = false.
Proof. induction (padding e) as [|n IH]; [done|]. cbn. by rewrite IH. Qed.

(** The tables behind the records restore durations and payloads. *)
Lemma decode_tables : apply_durations bytes parsed 0 (map plain ws) = Ok ws.
Proof.
  destruct Hws as (Hne & Hok & Hwok & Hn). destruct Htables as (Hd & Hdc & _).
  pose proof (block_at_durations block_sequence ws width e grouped) as Hat. rewrite Hd in Hat.
  unfold apply_durations. cbn [parsed_header parsed_block duration_count with_crc header_of word_count
    duration_offset parsed_block_len].
  replace (Z.to_nat (emit_durations e)) with (length (timed_words ws)) by (rewrite Hdc; unfold zlen; lia).
  pose proof (duration_entries_decode bytes (payloads e ++ replicate (padding e) 0) ws [] None 0
    (72 + zlen (records e) + 16 * zlen (emit_restarts e)) Hwok eq_refl I ltac:(lia) Hat) as Hdur.
  cbn [map app] in Hdur. rewrite Z.add_0_l in Hdur. rewrite Hdur.
  change (Z.land (flags _) BLOCK_FLAG_HAS_PAYLOADS) with (Z.land (flags h) BLOCK_FLAG_HAS_PAYLOADS).
  rewrite payload_flag. apply at_cursor_app in Hat.
  destruct (decode_payload_table _ Hat) as (c & -> & Hpad).
  assert (Hc : round_up_8 (72 + body_len e) = c + zlen (replicate (padding e) 0)).
  { rewrite <- (zlen_block_bytes h e). destruct (at_cursor_inv _ _ _ Hpad) as (pre & -> & ->). apply zlen_app. }
  rewrite <- (app_nil_r (replicate (padding e) 0)) in Hpad.
  rewrite (at_cursor_slice _ _ _ _ _ Hpad Hc). cbn [ok_or]. rewrite padding_zero.
  unfold zlen. rewrite length_replicate. pose proof (padding_le_7 e).
  by rewrite (proj2 (Z.ltb_ge _ _)) by lia.
Qed.

(** The block decodes to its header, its restarts and its words. *)
Lemma decode_block : decode_word_block bytes = Ok (mkDecoded h (emit_restarts e) ws).
Proof.
  destruct (layout_restarts _ _ _ _ _ Hws Hlayout) as [Hwithin Hfirst].
  pose proof (layout_bytes_ok _ _ _ _ _ Hwidth Hws Hlayout Htables) as Hok.
  destruct Hws as (Hne & _ & Hwok & Hn). destruct Htables as (_ & Hdc & _).
  unfold decode_word_block.
  rewrite (parse_block block_sequence ws width e grouped Hseq (word_times _ Hwok)); try done.
  2: { split; [|done]. destruct ws; [done|]. rewrite zlen_cons. pose proof (zlen_nonneg l). lia. }
  2: { rewrite Hdc. apply zlen_nonneg. }
  destruct decode_layout as (d0 & d & -> & Hdec & Hcur & Hk & Hcomp & Ht).
  cbn [parsed_header parsed_block word_count with_crc header_of].
  unfold zlen at 1. rewrite Nat2Z.id, Hdec. cbn [record_end parsed_block parsed_restarts last_timestamp_ns].
  rewrite Hcur, Hk, Hcomp, Ht, Z.eqb_refl, Nat.eqb_refl, Z.eqb_refl. cbn [negb orb].
  by rewrite decode_tables.
Qed.

End Decode.
