(* ===== verification/WordBuilder.v ===== *)
(** The block builder: its incremental size counters describe the words accepted so far exactly,
    and the prefix it accepts is the one a reference function selects that recomputes the size
    of the encoded block for every word. *)

From S2P Require Import Prelude Events Vlq WordFormat WordEncode WordDecode WordRecords.
From S2P Require Import WordGroups WordGrouped WordEmit WordBlock WordCodec.

#[global] Arguments encoded_len value : simpl never.

(** ** The sizes of a block *)

Definition max_of (ws : list Word) : Z := fold_left Z.max (map value ws) 0.

Fixpoint gaps_len (prev : Z) (ws : list Word) : Z :=
  match ws with
  | [] => 0
  | w :: ws => encoded_len (timestamp_ns w - prev) + gaps_len (timestamp_ns w) ws
  end.

(** The payload section with its count. *)
Definition payload_section (ws : list Word) : list Z :=
  (if 0 <? words_with_payload ws then encode_u64 (words_with_payload ws) else []) ++ payload_table None 0 ws.

(** The bytes behind the header of the ungrouped layout. *)
Definition payload_size (interval : Z) (ws : list Word) : Z :=
  zlen (legacy_records (value_width (max_of ws)) (first_time ws) ws)
  + div_ceil (zlen ws) interval * 16 + zlen (duration_table None 0 ws) + zlen (payload_section ws).

(** ** The reference acceptance *)

(** The time stamp of the last word. *)
Definition last_time (ws : list Word) : Z := match last ws with Some w => timestamp_ns w | None => 0 end.

(** Whether a block with the words [pre] takes the word [w] as well. *)
Definition accepts (c : BlockCodecConfig) (pre : list Word) (w : Word) : bool :=
  match pre with
  | [] => true
  | _ :: _ =>
      (zlen pre <? max_words c)
      && (timestamp_ns w - last_time pre <=? max_inter_word_gap_ns c)
      && (timestamp_ns w - first_time pre <=? max_timestamp_span_ns c)
      && (payload_size (restart_interval c) (pre ++ [w]) <=? max_payload_bytes c)
  end.

(** The number of words a block with the words [pre] takes from [ws]. *)
Fixpoint accepted_prefix (c : BlockCodecConfig) (pre ws : list Word) : nat :=
  match ws with
  | [] => O
  | w :: ws => if accepts c pre w then S (accepted_prefix c (pre ++ [w]) ws) else O
  end.

(** ** Appending a word to the tables *)

(** The number of the last word for which [exception] holds. *)
Fixpoint last_exception (exception : Word -> bool) (previous : option Z) (index : Z) (ws : list Word)
  : option Z :=
  match ws with
  | [] => previous
  | w :: ws => last_exception exception (if exception w then Some index else previous) (index + 1) ws
  end.

Definition has_duration (w : Word) : bool := negb (duration_ns w =? 0).
Definition has_payload (w : Word) : bool := negb (is_numeric w).

Lemma last_exception_snoc exception previous index ws w :
  last_exception exception previous index (ws ++ [w]) =
    if exception w then Some (index + zlen ws) else last_exception exception previous index ws.
Proof.
  revert previous index. induction ws as [|w' ws IH]; intros previous index.
  { cbn. change (zlen []) with 0. by rewrite Z.add_0_r. }
  cbn [app last_exception]. rewrite IH, zlen_cons. by rewrite Z.add_assoc.
Qed.

Lemma last_exception_ok exception previous index ws :
  previous_ok previous index -> 0 <= index ->
  previous_ok (last_exception exception previous index ws) (index + zlen ws).
Proof.
  revert previous index. induction ws as [|w ws IH]; intros previous index Hp Hi.
  { cbn. change (zlen []) with 0. by rewrite Z.add_0_r. }
  rewrite zlen_cons, Z.add_assoc. cbn [last_exception]. apply IH; [|lia].
  destruct (exception w); [cbn; lia|by apply previous_next].
Qed.

Lemma duration_table_snoc previous index ws w :
  duration_table previous index (ws ++ [w]) = duration_table previous index ws ++
    duration_table (last_exception has_duration previous index ws) (index + zlen ws) [w].
Proof.
  revert previous index. induction ws as [|w' ws IH]; intros previous index.
  { cbn [app last_exception duration_table]. change (zlen []) with 0. by rewrite Z.add_0_r. }
  cbn [app last_exception duration_table]. rewrite !IH, zlen_cons, Z.add_assoc. unfold has_duration at 2 4.
  destruct (duration_ns w' =? 0); cbn [negb]; [done|]. by rewrite <- !app_assoc.
Qed.

Lemma payload_table_snoc previous index ws w :
  payload_table previous index (ws ++ [w]) = payload_table previous index ws ++
    payload_table (last_exception has_payload previous index ws) (index + zlen ws) [w].
Proof.
  revert previous index. induction ws as [|w' ws IH]; intros previous index.
  { cbn [app last_exception payload_table]. change (zlen []) with 0. by rewrite Z.add_0_r. }
  cbn [app last_exception payload_table]. rewrite !IH, zlen_cons, Z.add_assoc. unfold has_payload at 2 4, is_numeric.
  destruct (payload w'); cbn [negb]; [|done]. by rewrite <- !app_assoc.
Qed.

Lemma gaps_len_snoc prev ws w :
  gaps_len prev (ws ++ [w]) =
    gaps_len prev ws + encoded_len (timestamp_ns w - default prev (timestamp_ns <$> last ws)).
Proof.
  revert prev. induction ws as [|w' ws IH]; intros prev; [cbn [app gaps_len last fmap option_fmap option_map default from_option]; cbn; lia|].
  cbn [app gaps_len]. rewrite IH, last_cons. destruct (last ws); cbn; lia.
Qed.

Lemma zlen_duration_entry previous index w : u64 (index - default 0 previous) -> u64 (duration_ns w) ->
  zlen (duration_table previous index [w]) =
    if duration_ns w =? 0 then 0
    else encoded_len (index - default 0 previous) + encoded_len (duration_ns w).
Proof.
  intros H1 H2. cbn [duration_table]. destruct (duration_ns w =? 0); [done|].
  by rewrite app_nil_r, zlen_app, !zlen_encode_u64.
Qed.

Lemma zlen_payload_entry previous index w : u64 (index - default 0 previous) ->
  zlen (payload_table previous index [w]) =
    match payload w with
    | None => 0
    | Some p => encoded_len (index - default 0 previous) + zlen (payload_bytes p)
    end.
Proof.
  intros H. cbn [payload_table]. destruct (payload w) as [p|]; [|done].
  by rewrite app_nil_r, zlen_app, zlen_encode_u64.
Qed.

Lemma zlen_payload_bytes p : u64 (payload_len p) ->
  zlen (payload_bytes p) = 1 + encoded_len (payload_len p) + payload_len p.
Proof.
  intros H. destruct p; cbn [payload_bytes payload_len] in *;
    rewrite zlen_cons, zlen_app, zlen_encode_u64 by done; lia.
Qed.

Lemma zlen_legacy_records width ws : forall prev,
  width_ok width -> records_ok 8 prev ws -> 0 <= prev ->
  zlen (legacy_records width prev ws) = gaps_len prev ws + zlen ws * width.
Proof.
  induction ws as [|w ws IH]; intros prev Hw Hok Hp; [done|]. destruct Hok as (Hv & Ht & Hok).
  cbn [legacy_records gaps_len]. unfold legacy_record.
  rewrite !zlen_app, zlen_cons, zlen_append_value, zlen_encode_u64, IH by (done || ints). lia.
Qed.

Lemma max_of_snoc ws w : max_of (ws ++ [w]) = Z.max (max_of ws) (value w).
Proof. unfold max_of. by rewrite map_app, fold_left_app. Qed.

Lemma timed_words_snoc ws w :
  zlen (timed_words (ws ++ [w])) = zlen (timed_words ws) + if duration_ns w =? 0 then 0 else 1.
Proof.
  unfold timed_words. rewrite List.filter_app, zlen_app. cbn. by destruct (duration_ns w =? 0).
Qed.

Lemma payload_words_snoc ws w :
  words_with_payload (ws ++ [w]) = words_with_payload ws + match payload w with None => 0 | Some _ => 1 end.
Proof.
  unfold words_with_payload, is_numeric. rewrite List.filter_app, zlen_app. cbn. by destruct (payload w).
Qed.

(** ** The counters *)

(** The counters of the builder describe the words. *)
Definition sized (ws : list Word) (z : Sizing) : Prop :=
  timestamp_bytes z = gaps_len (first_time ws) ws /\
  duration_bytes z = zlen (duration_table None 0 ws) /\
  sized_durations z = zlen (timed_words ws) /\
  (if sized_durations z =? 0 then None else Some (last_duration_index z))
    = last_exception has_duration None 0 ws /\
  payload_entry_bytes z = zlen (payload_table None 0 ws) /\
  payload_count z = words_with_payload ws /\
  (if payload_count z =? 0 then None else Some (last_payload_index z))
    = last_exception has_payload None 0 ws /\
  max_value z = max_of ws.

(** A word the builder can be given: its payload has a 64-bit length. *)
Definition entry_ok (w : Word) : Prop :=
  word_ok w /\ match payload w with Some p => u64 (payload_len p) | None => True end.

Lemma first_time_app ws w l : ws <> [] -> first_time (ws ++ w :: l) = first_time ws.
Proof. by destruct ws. Qed.

Lemma last_time_default ws prev : ws <> [] -> default prev (timestamp_ns <$> last ws) = last_time ws.
Proof. unfold last_time. intros Hne. destruct (last ws) eqn:Hl; [done|]. by apply last_None in Hl. Qed.

Lemma default_index (count index : Z) (last : Z) (previous : option Z) :
  (if count =? 0 then None else Some last) = previous ->
  (if count =? 0 then index else index - last) = index - default 0 previous.
Proof. intros <-. destruct (count =? 0); cbn; lia. Qed.

(** The tables and counters of one more word, the time steps apart. *)
Lemma size_word_tables ws z w delta :
  zlen ws < u32_max -> entry_ok w -> sized ws z ->
  let z' := size_word z (zlen ws) delta w in
  duration_bytes z' = zlen (duration_table None 0 (ws ++ [w])) /\
  sized_durations z' = zlen (timed_words (ws ++ [w])) /\
  (if sized_durations z' =? 0 then None else Some (last_duration_index z'))
    = last_exception has_duration None 0 (ws ++ [w]) /\
  payload_entry_bytes z' = zlen (payload_table None 0 (ws ++ [w])) /\
  payload_count z' = words_with_payload (ws ++ [w]) /\
  (if payload_count z' =? 0 then None else Some (last_payload_index z'))
    = last_exception has_payload None 0 (ws ++ [w]) /\
  max_value z' = max_of (ws ++ [w]).
Proof.
  intros Hn [(Hv & Ht & Hd & _) Hplen] (S1 & S2 & S3 & S4 & S5 & S6 & S7 & S8). cbn zeta.
  pose proof (zlen_nonneg ws). pose proof (zlen_nonneg (timed_words ws)).
  assert (0 <= words_with_payload ws) by apply zlen_nonneg.
  pose proof (last_exception_ok has_duration None 0 ws I ltac:(lia)) as Hpd.
  pose proof (last_exception_ok has_payload None 0 ws I ltac:(lia)) as Hpp.
  rewrite duration_table_snoc, payload_table_snoc, !last_exception_snoc, timed_words_snoc, payload_words_snoc,
    max_of_snoc, !zlen_app, !Z.add_0_l in *.
  rewrite zlen_duration_entry by (done || (destruct (last_exception has_duration None 0 ws); cbn in *; ints)).
  rewrite zlen_payload_entry by (destruct (last_exception has_payload None 0 ws); cbn in *; ints).
  unfold size_word. rewrite (default_index _ (zlen ws) _ _ S4), (default_index _ (zlen ws) _ _ S7).
  rewrite <- S2, <- S5, <- S8, <- S4, <- S7. unfold has_duration, has_payload, is_numeric.
  destruct (duration_ns w =? 0), (payload w) as [p|] eqn:Hp; cbn [negb duration_bytes sized_durations
    last_duration_index payload_entry_bytes payload_count last_payload_index max_value];
    rewrite ?zlen_payload_bytes by done;
    rewrite ?(proj2 (Z.eqb_neq (sized_durations z + 1) 0)) by lia;
    rewrite ?(proj2 (Z.eqb_neq (payload_count z + 1) 0)) by lia;
    split_and!; try done; lia.
Qed.

Lemma size_word_sized ws z w :
  ws <> [] -> zlen ws < u32_max -> entry_ok w -> sized ws z ->
  sized (ws ++ [w]) (size_word z (zlen ws) (timestamp_ns w - last_time ws) w).
Proof.
  intros Hne Hn Hw Hs. pose proof (size_word_tables ws z w (timestamp_ns w - last_time ws) Hn Hw Hs) as Ht.
  destruct Hs as (S1 & _). split; [|exact Ht]. rewrite first_time_app, gaps_len_snoc, last_time_default by done.
  rewrite <- S1. unfold size_word. by destruct (duration_ns w =? 0), (payload w).
Qed.

(** The first word of an empty builder is sized like any other. *)
Lemma size_first_word z w : sized [] z -> 0 <= value w -> size_first z w = size_word z 0 0 w.
Proof.
  intros (S1 & S2 & S3 & S4 & S5 & S6 & S7 & S8) Hv. unfold size_first, size_word.
  change (max_of []) with 0 in S8. change (zlen (timed_words [])) with 0 in S3.
  change (words_with_payload []) with 0 in S6. change (zlen (payload_table None 0 [])) with 0 in S5.
  rewrite S3, S5, S6, S8, Z.max_r by done. cbn [Z.eqb].
  destruct (duration_ns w =? 0), (payload w); f_equal; lia.
Qed.

Lemma size_first_sized z w : entry_ok w -> sized [] z -> sized [w] (size_first z w).
Proof.
  intros Hw Hs. rewrite size_first_word by (done || (destruct Hw as [(Hv & _) _]; unfold u64 in Hv; lia)).
  pose proof (size_word_tables [] z w 0 ltac:(done) Hw Hs) as Ht. destruct Hs as (S1 & _).
  split; [|exact Ht]. cbn [first_time gaps_len] in *. rewrite Z.sub_diag.
  unfold size_word. destruct (duration_ns w =? 0), (payload w); cbn [timestamp_bytes]; lia.
Qed.

(** A word without duration and payload only adds to the time steps and the maximum. *)
Lemma dense_sized ws z w :
  zlen ws < u32_max -> entry_ok w -> duration_ns w = 0 -> payload w = None -> sized ws z ->
  sized (ws ++ [w])
    (mkSizing (timestamp_bytes z + encoded_len (match ws with [] => 0 | _ => timestamp_ns w - last_time ws end))
      (duration_bytes z) (sized_durations z) (last_duration_index z) (payload_entry_bytes z)
      (payload_count z) (last_payload_index z) (Z.max (max_value z) (value w))).
Proof.
  intros Hn Hw Hd Hp Hs.
  pose proof (size_word_tables ws z w (match ws with [] => 0 | _ => timestamp_ns w - last_time ws end) Hn Hw Hs) as Ht.
  unfold size_word in Ht. rewrite Hd, Hp in Ht. split; [|exact Ht]. destruct Hs as (S1 & _). cbn [timestamp_bytes].
  destruct ws as [|w0 ws].
  - cbn [app first_time gaps_len] in *. rewrite Z.sub_diag. lia.
  - rewrite first_time_app, gaps_len_snoc, last_time_default, <- S1 by done. done.
Qed.

Lemma no_sizing_sized : sized [] no_sizing.
Proof. done. Qed.

(** ** The prediction *)

Lemma value_width_ok m : width_ok (value_width m).
Proof.
  unfold value_width, width_ok. destruct (m <=? 0xff), (m <=? 0xffff), (m <=? 0xffffffff); tauto.
Qed.

Lemma max_of_bounds ws : forall w, In w ws -> value w <= max_of ws.
Proof.
  induction ws as [|w' ws IH] using rev_ind; intros w Hin; [done|]. rewrite max_of_snoc.
  apply in_app_or in Hin as [Hin|[<-|[]]]; [specialize (IH w Hin)|]; lia.
Qed.

Lemma max_of_u64 ws : Forall (fun w => u64 (value w)) ws -> u64 (max_of ws).
Proof.
  induction ws as [|w ws IH] using rev_ind; intros H; [cbn; ints|].
  apply Forall_app in H as [H Hw]. apply Forall_cons in Hw as [Hw _]. rewrite max_of_snoc.
  specialize (IH H). ints.
Qed.

Lemma value_width_bound m v : 0 <= v <= m -> u64 m -> v < 256 ^ value_width m.
Proof.
  intros Hv Hm. unfold value_width. destruct (Z.leb_spec m 0xff); [change (256 ^ 1) with 256; lia|].
  destruct (Z.leb_spec m 0xffff); [change (256 ^ 2) with 65536; lia|].
  destruct (Z.leb_spec m 0xffffffff); [change (256 ^ 4) with 4294967296; lia|].
  change (256 ^ 8) with 18446744073709551616. ints.
Qed.

(** The words fit the width of their maximum. *)
Lemma records_ok_width ws : forall prev m,
  (forall w, In w ws -> value w <= m) -> u64 m -> records_ok 8 prev ws -> records_ok (value_width m) prev ws.
Proof.
  induction ws as [|w ws IH]; intros prev m Hm Hu Hok; [done|]. destruct Hok as (Hv & Ht & Hok).
  split_and!; try lia; [|apply IH; try done; intros x Hx; apply Hm; by right].
  apply value_width_bound; [|done]. split; [lia|]. apply Hm. by left.
Qed.

Lemma zlen_payload_section ws : zlen ws <= u32_max ->
  zlen (payload_section ws) =
    if 0 <? words_with_payload ws
    then encoded_len (words_with_payload ws) + zlen (payload_table None 0 ws) else 0.
Proof.
  intros Hn. unfold payload_section. destruct (Z.ltb_spec 0 (words_with_payload ws)) as [H|H].
  - rewrite zlen_app, zlen_encode_u64; [done|]. unfold words_with_payload, zlen in *.
    pose proof (filter_length_le (fun w => negb (is_numeric w)) ws). ints.
  - by destruct (no_payload_words ws 0 H) as [-> _].
Qed.

(** The predicted size is the size of the ungrouped layout. *)
Lemma predicted_size c ws z :
  records_ok 8 (first_time ws) ws -> 0 <= first_time ws -> zlen ws <= u32_max -> sized ws z ->
  predicted_bytes c z (zlen ws) = payload_size (restart_interval c) ws.
Proof.
  intros Hok Hp Hn (S1 & S2 & S3 & S4 & S5 & S6 & S7 & S8). unfold predicted_bytes, payload_size.
  rewrite zlen_payload_section, zlen_legacy_records by (done || apply value_width_ok).
  rewrite S1, S2, S5, S6, S8. unfold RESTART_ENTRY_SIZE. done.
Qed.

(** ** Extending the block *)

(** Words in order that the builder can be given. *)
Definition stream_ok (ws : list Word) : Prop :=
  records_ok 8 (first_time ws) ws /\ Forall entry_ok ws.

Definition config_ok (c : BlockCodecConfig) : Prop :=
  0 < restart_interval c /\ 0 < max_words c <= u32_max /\ 0 < max_payload_bytes c.

Lemma stream_ok_app_l l1 l2 : stream_ok (l1 ++ l2) -> stream_ok l1.
Proof.
  intros [Hok Hf]. apply Forall_app in Hf as [Hf _]. split; [|done]. destruct l1 as [|w l1]; [done|].
  by apply records_ok_app in Hok as [Hok _].
Qed.

Lemma stream_first_nonneg ws : stream_ok ws -> 0 <= first_time ws.
Proof. intros [_ [|w l [(_ & Ht & _) _]]]; cbn; ints. Qed.

(** The next word is not before the last and the first one. *)
Lemma stream_next pre w ws :
  pre <> [] -> stream_ok (pre ++ w :: ws) ->
  last_time pre <= timestamp_ns w /\ first_time pre <= timestamp_ns w.
Proof.
  intros Hne [Hok _]. rewrite first_time_app in Hok by done. apply records_ok_app in Hok as [Hok (_ & Ht & _)].
  pose proof (records_ok_last _ _ _ Hok). rewrite last_time_default in * by done. lia.
Qed.

Lemma app_snoc {A} (l : list A) x l' : l ++ x :: l' = (l ++ [x]) ++ l'.
Proof. by rewrite <- app_assoc. Qed.

Lemma last_snoc_time pre w : timestamp_ns <$> last (pre ++ [w]) = Some (timestamp_ns w).
Proof. by rewrite last_snoc. Qed.

Lemma last_time_Some pre : pre <> [] -> timestamp_ns <$> last pre = Some (last_time pre).
Proof. unfold last_time. intros Hne. destruct (last pre) eqn:Hl; [done|]. by apply last_None in Hl. Qed.

(** The loop's test of a further word is the reference acceptance. *)
Lemma loop_accepts c pre w ws z :
  config_ok c -> pre <> [] -> zlen pre < u32_max -> stream_ok (pre ++ w :: ws) -> sized pre z ->
  let next := size_word z (zlen pre) (saturating_sub64 (timestamp_ns w) (last_time pre)) w in
  (if (max_words c <=? zlen pre)
      || (max_inter_word_gap_ns c <? saturating_sub64 (timestamp_ns w) (last_time pre))
      || (max_timestamp_span_ns c <? saturating_sub64 (timestamp_ns w) (first_time pre))
   then false else negb (max_payload_bytes c <? predicted_bytes c next (zlen pre + 1)))
  = accepts c pre w /\ sized (pre ++ [w]) next.
Proof.
  intros Hc Hne Hn Hs Hz. destruct (stream_next _ _ _ Hne Hs) as [Hlast Hfirst].
  unfold saturating_sub64. rewrite !Z.max_l by lia. cbn zeta.
  pose proof Hs as Hs'. rewrite app_snoc in Hs'. apply stream_ok_app_l in Hs'.
  assert (Hw : entry_ok w) by (destruct Hs as [_ Hf]; apply Forall_app in Hf as [_ Hf]; by apply Forall_cons in Hf as [? _]).
  pose proof (size_word_sized pre z w Hne Hn Hw Hz) as Hsized.
  replace (zlen pre + 1) with (zlen (pre ++ [w])) by (rewrite zlen_app; done).
  rewrite (predicted_size c (pre ++ [w])); try done; [|apply Hs'|by apply stream_first_nonneg|rewrite zlen_app; change (zlen [w]) with 1; lia].
  split; [|done]. unfold accepts. destruct pre as [|w0 pre]; [done|].
  rewrite !Z.leb_antisym, !Z.ltb_antisym. rewrite !negb_involutive.
  destruct (max_words c <=? zlen (w0 :: pre)); [done|]. cbn [negb andb orb].
  by destruct (timestamp_ns w - last_time (w0 :: pre) <=? _), (timestamp_ns w - first_time (w0 :: pre) <=? _).
Qed.

Lemma extend_loop_spec c first ws : forall pre z,
  config_ok c -> zlen pre <= max_words c -> stream_ok (pre ++ ws) -> sized pre z ->
  (pre ++ ws <> [] -> first = first_time (pre ++ ws)) ->
  exists z', extend_loop c (zlen pre) z (timestamp_ns <$> last pre) first ws = (accepted_prefix c pre ws, z') /\
    sized (pre ++ take (accepted_prefix c pre ws) ws) z' /\
    zlen (pre ++ take (accepted_prefix c pre ws) ws) <= max_words c.
Proof.
  induction ws as [|w ws IH]; intros pre z Hc Hn Hs Hz Hfirst.
  { exists z. cbn. by rewrite app_nil_r. }
  assert (Hw : entry_ok w) by (destruct Hs as [_ Hf]; apply Forall_app in Hf as [_ Hf]; by apply Forall_cons in Hf as [? _]).
  assert (Hmore : forall z1, sized (pre ++ [w]) z1 -> zlen pre < max_words c -> exists z',
    extend_loop c (zlen pre + 1) z1 (Some (timestamp_ns w)) first ws = (accepted_prefix c (pre ++ [w]) ws, z') /\
    sized (pre ++ w :: take (accepted_prefix c (pre ++ [w]) ws) ws) z' /\
    zlen (pre ++ w :: take (accepted_prefix c (pre ++ [w]) ws) ws) <= max_words c).
  { intros z1 Hz1 Hlt. rewrite (app_snoc pre w (take _ ws)). rewrite <- (last_snoc_time pre w).
    replace (zlen pre + 1) with (zlen (pre ++ [w])) by (rewrite zlen_app; done).
    apply IH; try done; [rewrite zlen_app; change (zlen [w]) with 1; lia|by rewrite <- app_snoc|].
    rewrite <- app_snoc. done. }
  pose proof Hc as (_ & Hmw & _). cbn [extend_loop accepted_prefix].
  destruct (decide (pre = [])) as [->|Hne].
  - cbn [last fmap option_fmap option_map accepts].
    destruct (Hmore (size_first z w) (size_first_sized z w Hw Hz)) as (z' & He & Hz' & Hn').
    { change (zlen (@nil Word)) with 0. lia. }
    rewrite He. by exists z'.
  - rewrite last_time_Some, Hfirst, first_time_app by (done || by destruct pre).
    rewrite Hfirst, first_time_app in Hmore by (done || by destruct pre).
    destruct (Z.lt_ge_cases (zlen pre) (max_words c)) as [Hlt|Hge].
    + destruct (loop_accepts c pre w ws z Hc Hne ltac:(lia) Hs Hz) as [<- Hz1].
      destruct (_ || _); [exists z; cbn; by rewrite app_nil_r|].
      destruct (max_payload_bytes c <? _); cbn [negb]; [exists z; cbn; by rewrite app_nil_r|].
      destruct (Hmore _ Hz1 Hlt) as (z' & He & Hz' & Hn'). rewrite He. by exists z'.
    + rewrite (proj2 (Z.leb_le _ _)) by lia. cbn [orb].
      assert (Ha : accepts c pre w = false).
      { unfold accepts. destruct pre; [done|]. by rewrite (proj2 (Z.ltb_ge _ _)) by lia. }
      rewrite Ha. exists z. cbn. by rewrite app_nil_r.
Qed.

(** ** The dense path *)

Definition plain_word (w : Word) : Prop := duration_ns w = 0 /\ payload w = None.

Lemma gaps_len_bound ws : forall prev, 0 <= prev -> records_ok 8 prev ws -> 0 <= gaps_len prev ws <= 10 * zlen ws.
Proof.
  induction ws as [|w ws IH]; intros prev Hp Hok; [done|]. destruct Hok as (Hv & Ht & Hok).
  cbn [gaps_len]. rewrite zlen_cons. pose proof (IH (timestamp_ns w) ltac:(lia) Hok).
  pose proof (encoded_len_range (timestamp_ns w - prev) ltac:(ints)). lia.
Qed.

Lemma div_ceil_mono a b k : 0 < k -> a <= b -> div_ceil a k <= div_ceil b k.
Proof. intros. unfold div_ceil. apply Z.div_le_mono; lia. Qed.

Lemma div_ceil_le a k : 0 <= a -> 0 < k -> 0 <= div_ceil a k <= a.
Proof.
  intros. unfold div_ceil. split; [apply Z.div_pos; lia|].
  destruct (Z.eq_dec a 0) as [->|]; [rewrite Z.div_small; lia|]. apply Z.div_le_upper_bound; nia.
Qed.

Lemma plain_payload_size interval ws :
  stream_ok ws -> Forall plain_word ws ->
  payload_size interval ws =
    gaps_len (first_time ws) ws + zlen ws * value_width (max_of ws) + div_ceil (zlen ws) interval * 16.
Proof.
  intros Hs Hplain. pose proof (stream_first_nonneg _ Hs) as Ht0. destruct Hs as [Hok _].
  destruct (dense_tables ws None 0 Hplain) as (Hd & Hpt & _ & Hpw).
  assert (Hsection : payload_section ws = []).
  { unfold payload_section, words_with_payload. fold (payload_words ws). by rewrite Hpw, Hpt. }
  unfold payload_size. rewrite Hd, Hsection, zlen_legacy_records by (done || apply value_width_ok).
  change (zlen (@nil Z)) with 0. by rewrite !Z.add_0_r.
Qed.

(** The saturating arithmetic of the worst case does not saturate. *)
Lemma worst_case_exact m r p :
  0 < m <= u32_max -> 0 <= r <= m ->
  saturating_add64 (saturating_mul64 m (10 + 8)) (saturating_mul64 r 16) <= p -> m * 18 + r * 16 <= p.
Proof. ints. Qed.

Lemma dense_fits_bound c :
  config_ok c -> dense_fits c = true ->
  max_words c * 18 + div_ceil (max_words c) (restart_interval c) * 16 <= max_payload_bytes c.
Proof.
  intros (Hi & Hm & Hp) Hfits. apply Z.leb_le in Hfits. apply worst_case_exact; [done| |exact Hfits].
  apply div_ceil_le; lia.
Qed.

(** When the worst record fits at the word limit, no plain words are too many. *)
Lemma dense_payload_fits c ws :
  config_ok c -> dense_fits c = true -> stream_ok ws -> Forall plain_word ws -> zlen ws <= max_words c ->
  payload_size (restart_interval c) ws <= max_payload_bytes c.
Proof.
  intros Hc Hfits Hs Hplain Hn. pose proof (dense_fits_bound c Hc Hfits) as Hbound.
  pose proof (stream_first_nonneg _ Hs) as Ht0. pose proof (gaps_len_bound ws _ Ht0 (proj1 Hs)) as Hg.
  rewrite plain_payload_size by done. destruct Hc as (Hi & Hm & _).
  pose proof (zlen_nonneg ws). pose proof (div_ceil_mono (zlen ws) (max_words c) _ Hi Hn) as Hr.
  assert (Hw : value_width (max_of ws) <= 8) by (destruct (value_width_ok (max_of ws)) as [->|[->|[->| ->]]]; lia).
  assert (zlen ws * value_width (max_of ws) <= zlen ws * 8) by (apply Z.mul_le_mono_nonneg_l; lia).
  lia.
Qed.

Lemma extend_dense_spec c first ws : forall pre z,
  config_ok c -> dense_fits c = true -> zlen (pre ++ ws) <= max_words c -> stream_ok (pre ++ ws) ->
  Forall plain_word (pre ++ ws) -> sized pre z -> (pre ++ ws <> [] -> first = first_time (pre ++ ws)) ->
  exists t m,
    extend_dense_loop c (timestamp_bytes z) (max_value z) (timestamp_ns <$> last pre) first ws
      = (accepted_prefix c pre ws, t, m) /\
    sized (pre ++ take (accepted_prefix c pre ws) ws)
      (mkSizing t (duration_bytes z) (sized_durations z) (last_duration_index z) (payload_entry_bytes z)
        (payload_count z) (last_payload_index z) m).
Proof.
  induction ws as [|w ws IH]; intros pre z Hc Hfits Hn Hs Hplain Hz Hfirst.
  { exists (timestamp_bytes z), (max_value z). cbn. rewrite app_nil_r. split; [done|]. by destruct z. }
  assert (Hw : entry_ok w) by (destruct Hs as [_ Hf]; apply Forall_app in Hf as [_ Hf]; by apply Forall_cons in Hf as [? _]).
  assert (Hpw : plain_word w) by (apply Forall_app in Hplain as [_ Hf]; by apply Forall_cons in Hf as [? _]).
  pose proof Hc as (_ & Hmw & _).
  assert (Hlen : zlen pre < max_words c /\ zlen (pre ++ [w]) <= max_words c).
  { rewrite zlen_app, zlen_cons in *. change (zlen (@nil Word)) with 0. pose proof (zlen_nonneg ws). lia. }
  destruct Hlen as [Hlt Hlen1]. destruct Hpw as [Hd Hp].
  pose proof (dense_sized pre z w ltac:(lia) Hw Hd Hp Hz) as Hz1.
  set (z1 := mkSizing _ _ _ _ _ _ _ _) in Hz1.
  destruct (IH (pre ++ [w]) z1 Hc Hfits) as (t & m & He & Hz'); try done;
    try (by rewrite <- app_snoc).
  rewrite last_snoc_time in He. rewrite <- app_snoc in Hz'.
  cbn [extend_dense_loop accepted_prefix]. destruct (decide (pre = [])) as [->|Hne].
  - cbn [last fmap option_fmap option_map accepts]. unfold z1 in He. cbn [timestamp_bytes max_value] in He.
    rewrite He. by exists t, m.
  - rewrite last_time_Some, Hfirst, first_time_app by (done || by destruct pre).
    rewrite Hfirst, first_time_app in He by (done || by destruct pre).
    destruct (stream_next _ _ _ Hne Hs) as [Hlast Hfst].
    assert (Ha : accepts c pre w = negb ((max_inter_word_gap_ns c <? timestamp_ns w - last_time pre)
      || (max_timestamp_span_ns c <? timestamp_ns w - first_time pre))).
    { unfold accepts. destruct pre as [|w0 pre]; [done|]. rewrite (proj2 (Z.ltb_lt _ _) Hlt). cbn [andb].
      rewrite (proj2 (Z.leb_le (payload_size _ _) _)), andb_true_r.
      - by rewrite negb_orb, !Z.leb_antisym.
      - rewrite app_snoc in Hs, Hplain. apply stream_ok_app_l in Hs. apply Forall_app in Hplain as [Hplain _].
        by apply dense_payload_fits. }
    rewrite Ha. unfold saturating_sub64. rewrite !Z.max_l by lia.
    destruct (_ || _); cbn [negb].
    { exists (timestamp_bytes z), (max_value z). cbn. rewrite app_nil_r. split; [done|]. by destruct z. }
    assert (Hlen_delta : (if timestamp_ns w - last_time pre <=? 0x7f then 1
      else encoded_len (timestamp_ns w - last_time pre)) = encoded_len (timestamp_ns w - last_time pre)).
    { destruct (Z.leb_spec (timestamp_ns w - last_time pre) 0x7f); [|done].
      rewrite <- zlen_encode_u64, encode_u64_small by (ints || lia). done. }
    rewrite Hlen_delta. unfold z1 in He. cbn [timestamp_bytes max_value] in He.
    destruct pre as [|w0 pre]; [done|]. rewrite He. by exists t, m.
Qed.

(** ** The builder's operations *)

Definition builder_ok (b : WordBlockBuilder) : Prop :=
  config_ok (config b) /\ stream_ok (words b) /\ sized (words b) (sizing b) /\
  zlen (words b) <= max_words (config b).

(** At the word limit nothing more is accepted. *)
Lemma accepted_prefix_take c n ws : forall pre,
  0 < max_words c -> Z.of_nat n = Z.max (max_words c - zlen pre) 0 ->
  accepted_prefix c pre (take n ws) = accepted_prefix c pre ws.
Proof.
  revert n. induction ws as [|w ws IH]; intros n pre Hm Hn; [by rewrite take_nil|].
  destruct n as [|n].
  - cbn [take accepted_prefix]. unfold accepts. destruct pre as [|w0 pre].
    + change (zlen (@nil Word)) with 0 in Hn. lia.
    + by rewrite (proj2 (Z.ltb_ge _ _)) by lia.
  - rewrite firstn_cons. cbn [accepted_prefix]. destruct (accepts c pre w); [|done]. f_equal.
    apply IH; [done|]. rewrite zlen_app. change (zlen [w]) with 1. lia.
Qed.

Lemma accepted_prefix_le c ws : forall pre, (accepted_prefix c pre ws <= length ws)%nat.
Proof.
  induction ws as [|w ws IH]; intros pre; [done|]. cbn. destruct (accepts c pre w); [|lia].
  specialize (IH (pre ++ [w])). lia.
Qed.

Lemma first_timestamp_eq b ws : words b ++ ws <> [] -> first_timestamp b ws = first_time (words b ++ ws).
Proof. unfold first_timestamp. by destruct (words b), ws. Qed.

Lemma stream_ok_take l1 l2 n : stream_ok (l1 ++ l2) -> stream_ok (l1 ++ take n l2).
Proof. rewrite <- (take_drop n l2) at 1. rewrite app_assoc. apply stream_ok_app_l. Qed.

Lemma sized_plain ws z :
  sized ws z -> (sized_durations z =? 0) && (payload_count z =? 0) = true -> Forall plain_word ws.
Proof.
  intros (_ & _ & S3 & _ & _ & S6 & _) [H1%Z.eqb_eq H2%Z.eqb_eq]%andb_true_iff.
  rewrite S3 in H1. rewrite S6 in H2. clear S3 S6. revert H1 H2.
  unfold timed_words, words_with_payload, is_numeric, plain_word.
  induction ws as [|w ws IH]; [constructor|]. cbn.
  destruct (Z.eqb_spec (duration_ns w) 0) as [Hd|]; cbn [negb].
  - destruct (payload w) eqn:Hp; cbn [negb].
    + intros _. rewrite zlen_cons. match goal with |- 1 + zlen ?l = 0 -> _ => pose proof (zlen_nonneg l) end. lia.
    + intros H1 H2. constructor; [done|by apply IH].
  - rewrite zlen_cons. match goal with |- 1 + zlen ?l = 0 -> _ => pose proof (zlen_nonneg l) end. lia.
Qed.

Lemma extend_ordered_spec b ws :
  builder_ok b -> stream_ok (words b ++ ws) ->
  let n := accepted_prefix (config b) (words b) ws in
  exists b', extend_ordered b ws = (n, b') /\ words b' = words b ++ take n ws /\
    config b' = config b /\ builder_ok b'.
Proof.
  intros (Hc & Hs & Hz & Hn) Hall. cbn zeta. unfold extend_ordered.
  set (available := Z.max (max_words (config b) - zlen (words b)) 0).
  set (candidates := take (Z.to_nat available) ws).
  pose proof Hc as (_ & Hm & _).
  assert (Htake : accepted_prefix (config b) (words b) candidates = accepted_prefix (config b) (words b) ws).
  { apply accepted_prefix_take; [lia|]. unfold available. lia. }
  assert (Hcand : stream_ok (words b ++ candidates)) by (by apply stream_ok_take).
  destruct (_ && _ && dense_fits (config b) && _) eqn:Hdense.
  - apply andb_true_iff in Hdense as [[Hzero Hfits]%andb_true_iff Hplain].
    unfold extend_duration_free.
    assert (Hpl : Forall plain_word (words b ++ candidates)).
    { apply Forall_app. split; [by apply (sized_plain _ (sizing b))|].
      apply List.Forall_forall. rewrite List.forallb_forall in Hplain. intros w Hw.
      apply Hplain, andb_true_iff in Hw as [Hd%Z.eqb_eq Hp]. split; [done|].
      unfold is_numeric in Hp. by destruct (payload w). }
    assert (Hlen : zlen (words b ++ candidates) <= max_words (config b)).
    { unfold candidates, available in *. rewrite zlen_app. unfold zlen in *. rewrite length_take. lia. }
    destruct (extend_dense_spec (config b) (first_timestamp b candidates) candidates (words b) (sizing b)
      Hc Hfits Hlen Hcand Hpl Hz (first_timestamp_eq b candidates)) as (t & m & He & Hz').
    rewrite He, Htake in *. eexists. split; [done|]. cbn [words config].
    assert (Htt : take (accepted_prefix (config b) (words b) ws) candidates
      = take (accepted_prefix (config b) (words b) ws) ws).
    { rewrite <- Htake. unfold candidates. rewrite take_take. f_equal.
      pose proof (accepted_prefix_le (config b) (take (Z.to_nat available) ws) (words b)) as Hle.
      rewrite length_take in Hle. lia. }
    rewrite Htt in *. split; [done|]. split; [done|].
    unfold builder_ok. cbn [config words sizing]. split_and!; try done; [by apply stream_ok_take|].
    rewrite <- Htt. rewrite zlen_app in *. unfold zlen in *. rewrite length_take. lia.
  - destruct (extend_loop_spec (config b) (first_timestamp b ws) ws (words b) (sizing b)
      Hc Hn Hall Hz (first_timestamp_eq b ws)) as (z' & He & Hz' & Hn').
    rewrite He. eexists. split; [done|]. split; [done|]. split; [done|].
    unfold builder_ok. cbn [config words sizing]. split_and!; try done. by apply stream_ok_take.
Qed.

Lemma builder_new_ok c b : 0 <= restart_interval c -> 0 <= max_words c -> 0 <= max_payload_bytes c ->
  WordBlockBuilder_new c = Ok b -> builder_ok b /\ words b = [] /\ config b = c.
Proof.
  intros Hi Hm Hp. unfold WordBlockBuilder_new.
  destruct (Z.eqb_spec (restart_interval c) 0); [done|]. destruct (Z.eqb_spec (max_words c) 0); [done|].
  destruct (Z.ltb_spec u32_max (max_words c)); [done|]. destruct (Z.eqb_spec (max_payload_bytes c) 0); [done|].
  intros [= <-]. split; [|done]. unfold builder_ok, config_ok, stream_ok. cbn [config words sizing].
  change (zlen (@nil Word)) with 0. split_and!; try done; lia.
Qed.

Lemma clear_ok b : builder_ok b -> builder_ok (clear b) /\ words (clear b) = [].
Proof.
  intros (Hc & _). split; [|done]. unfold builder_ok, clear. cbn [config words sizing].
  split_and!; try done. change (zlen (@nil Word)) with 0. destruct Hc as (_ & Hm & _). lia.
Qed.
