(* ===== verification/WordRoundTrip.v ===== *)
(** The contract of the word-block codec as a whole: a block built from ordered words encodes
    within the predicted size, and decoding the bytes gives back the header, the restart table
    and the words. *)

From S2P Require Import Prelude Events Vlq Crc32c WordFormat WordEncode WordDecode WordRecords.
From S2P Require Import WordGroups WordGrouped WordEmit WordBlock WordCodec WordBuilder.

(** ** From the builder to the block *)

Lemma encoded_len_one v : u64 v -> encoded_len v = 1 -> v < 128.
Proof.
  intros Hv H. destruct (Z.lt_ge_cases v 128) as [|Hge]; [done|].
  rewrite <- zlen_encode_u64 in H by done. unfold encode_u64 in H.
  assert (Hq : 0 <= v / 128) by (apply Z.div_pos; unfold u64 in Hv; lia).
  rewrite !encode_loop_eq in H by (done || (unfold u64 in Hv; lia)).
  rewrite (proj2 (Z.ltb_ge _ _)) in H by done. rewrite zlen_cons in H.
  destruct (v / 128 <? 128); rewrite zlen_cons in H;
    match type of H with 1 + (1 + zlen ?l) = 1 => pose proof (zlen_nonneg l) end; lia.
Qed.

Lemma gaps_len_small ws : forall prev, 0 <= prev -> records_ok 8 prev ws ->
  zlen ws <= gaps_len prev ws /\ (gaps_len prev ws = zlen ws -> small_gaps prev ws).
Proof.
  induction ws as [|w ws IH]; intros prev Hp Hok; [done|]. destruct Hok as (Hv & Ht & Hok).
  cbn [gaps_len small_gaps]. rewrite zlen_cons. destruct (IH (timestamp_ns w) ltac:(lia) Hok) as [H1 H2].
  assert (Hu : u64 (timestamp_ns w - prev)) by ints. pose proof (encoded_len_range _ Hu).
  split; [lia|]. intros Heq. split; [apply encoded_len_one; [done|lia]|apply H2; lia].
Qed.

Lemma builder_block_words b :
  builder_ok b -> words b <> [] -> block_words (value_width (max_value (sizing b))) (words b).
Proof.
  intros ((_ & Hm & _) & [Hok Hf] & Hz & Hn) Hne. destruct Hz as (_ & _ & _ & _ & _ & _ & _ & ->).
  assert (Hword : Forall word_ok (words b)) by (eapply Forall_impl; [exact Hf|]; by intros w [Hw _]).
  split_and!; try done; [|lia].
  apply records_ok_width; [apply max_of_bounds| |done]. apply max_of_u64.
  eapply Forall_impl; [exact Hword|]. by intros w (Hv & _).
Qed.

Definition dense_flag (b : WordBlockBuilder) : bool :=
  (sized_durations (sizing b) =? 0) && (payload_count (sizing b) =? 0) && (max_value (sizing b) <=? u8_max)
  && (timestamp_bytes (sizing b) =? zlen (words b)).

Lemma builder_dense b :
  builder_ok b -> dense_flag b = true ->
  value_width (max_value (sizing b)) = 1 /\ dense_words (words b) /\
  timestamp_bytes (sizing b) = zlen (words b).
Proof.
  intros (_ & Hs & Hz & _) [[H1 H2%Z.leb_le]%andb_true_iff H3%Z.eqb_eq]%andb_true_iff.
  split; [unfold value_width; by rewrite (proj2 (Z.leb_le _ 0xff))|]. split; [|done].
  pose proof (sized_plain _ _ Hz H1) as Hplain. split; [exact Hplain|].
  destruct Hz as (S1 & _). rewrite S1 in H3. pose proof (stream_first_nonneg _ Hs) as Ht.
  by apply (gaps_len_small (words b) _ Ht (proj1 Hs)).
Qed.

(** ** Encoding and decoding *)

Lemma encode_validated_eq block_sequence ws interval width timestamp_bytes dense : ws <> [] ->
  encode_validated block_sequence ws interval width timestamp_bytes dense =
    let? (e, grouped) := emit_block ws interval width timestamp_bytes dense in
    let? h := block_header block_sequence ws width e grouped in
    let? output := ok_or (write_to h (block_output e (block_len h))) EmptyBlock in
    let? crc := ok_or (block_checksum output BLOCK_CHECKSUM_OFFSET) EmptyBlock in
    let h := with_crc crc h in
    let? output := ok_or (write_to h output) EmptyBlock in
    Ok (mkMetadata h (emit_restarts e), output).
Proof. by destruct ws. Qed.

(** What the encoder returns decodes to the words; it fails only beyond 4 GiB. *)
Lemma encode_validated_spec block_sequence ws interval width timestamp_bytes dense :
  u64 block_sequence -> block_words width ws -> width_ok width -> 0 < interval ->
  (dense = true -> width = 1 /\ dense_words ws /\ timestamp_bytes = zlen ws) ->
  let size := zlen (legacy_records width (first_time ws) ws) + div_ceil (zlen ws) interval * 16
    + zlen (duration_table None 0 ws) + zlen (payload_section ws) in
  (exists m bytes,
    encode_validated block_sequence ws interval width timestamp_bytes dense = Ok (m, bytes) /\
    decode_word_block bytes = Ok (mkDecoded (header m) (restarts m) ws) /\
    sequence (header m) = block_sequence /\ block_len (header m) = zlen bytes /\
    72 <= zlen bytes <= 72 + size + 7 /\ bytes_ok bytes) \/
  ((exists x, encode_validated block_sequence ws interval width timestamp_bytes dense = Err x) /\
    u32_max < 72 + size + 7).
Proof.
  intros Hseq Hws Hwidth Hint Hdense size. pose proof Hws as (Hne & _ & Hwok & Hn).
  pose proof (zlen_nonneg (duration_table None 0 ws)). pose proof (zlen_nonneg (payload_section ws)).
  pose proof (zlen_nonneg ws). pose proof (div_ceil_le (zlen ws) interval ltac:(lia) Hint).
  rewrite encode_validated_eq by done.
  destruct (emit_block_layout ws interval width timestamp_bytes dense Hws Hint Hdense)
    as [(e & grouped & He & Htab & Hlay & Hrec)|[[x He] Hbig]]; rewrite He.
  2: { right. split; [by exists x|]. unfold size. lia. }
  pose proof Htab as (Hd & Hdc & Hp).
  assert (Hbody : (zlen (emit_restarts e) = div_ceil (zlen ws) interval -> body_len e <= size)).
  { intros Hrs. unfold body_len, size. rewrite Hd, Hp, Hrs. fold (payload_section ws). lia. }
  pose proof (body_len_nonneg e) as Hb0. pose proof (round_up_8_bounds (72 + body_len e) ltac:(lia)) as [Hround _].
  destruct (block_header block_sequence ws width e grouped) as [h|x] eqn:Hh.
  - left. pose proof (block_header_ok _ _ _ _ _ _ Hh) as Hfit.
    pose proof (block_fits_parts e Hfit) as (Hf1 & Hf2 & Hf3).
    destruct Hlay as [[Hlay Hcount]|Hbig].
    2: { pose proof (zlen_nonneg (durations e)). pose proof (zlen_nonneg (payloads e)). lia. }
    rewrite block_header_fits in Hh by (done || by apply width_u8). injection Hh as <-.
    cbn [block_len header_of]. rewrite block_output_eq, fill_header; [| |by apply (layout_bytes_ok interval width ws e grouped)|done].
    2: { cbn [value_bytes header_of]. by apply width_u8. }
    eexists _, _. split; [reflexivity|]. cbn [header restarts].
    split; [by apply (decode_block interval)|]. split; [done|].
    rewrite zlen_block_bytes. split; [done|]. specialize (Hbody Hcount). split; [lia|].
    apply block_bytes_ok; [done|by apply (layout_bytes_ok interval width ws e grouped)].
  - right. split; [by exists x|].
    destruct Hlay as [[Hlay Hcount]|Hbig]; [|unfold size; lia]. specialize (Hbody Hcount).
    destruct (Z.le_gt_cases (round_up_8 (72 + body_len e)) u32_max) as [Hle|]; [|lia].
    rewrite block_header_fits in Hh; [done|done|by apply width_u8|]. split; [done|].
    rewrite Hdc. unfold timed_words, zlen in *. pose proof (filter_length_le (fun w => negb (duration_ns w =? 0)) ws). lia.
Qed.

Lemma encode_spec b block_sequence :
  builder_ok b -> words b <> [] -> u64 block_sequence ->
  (exists m bytes, encode b block_sequence = Ok (m, bytes) /\
    decode_word_block bytes = Ok (mkDecoded (header m) (restarts m) (words b)) /\
    sequence (header m) = block_sequence /\ block_len (header m) = zlen bytes /\
    72 <= zlen bytes <= 72 + payload_size (restart_interval (config b)) (words b) + 7 /\ bytes_ok bytes) \/
  ((exists x, encode b block_sequence = Err x) /\
    u32_max < 72 + payload_size (restart_interval (config b)) (words b) + 7).
Proof.
  intros Hb Hne Hseq. pose proof Hb as ((Hi & _ & _) & _ & Hz & _).
  pose proof (encode_validated_spec block_sequence (words b) (restart_interval (config b))
    (value_width (max_value (sizing b))) (timestamp_bytes (sizing b)) (dense_flag b) Hseq
    (builder_block_words b Hb Hne) (value_width_ok _) Hi (builder_dense b Hb)) as H.
  assert (Hmax : max_value (sizing b) = max_of (words b)) by apply Hz. unfold payload_size. rewrite <- Hmax.
  exact H.
Qed.

(** ** Builders a writer can have *)

(** A configuration of machine integers. *)
Definition config_in (c : BlockCodecConfig) : Prop :=
  0 <= restart_interval c /\ 0 <= max_words c /\ 0 <= max_payload_bytes c.

(** The builders that arise from [new] by extending with ordered words and clearing. *)
Inductive built (c : BlockCodecConfig) : WordBlockBuilder -> Prop :=
| built_new b : WordBlockBuilder_new c = Ok b -> built c b
| built_extend b ws : built c b -> stream_ok (words b ++ ws) -> built c (snd (extend_ordered b ws))
| built_clear b : built c b -> built c (clear b).

Lemma built_ok c b : config_in c -> built c b -> builder_ok b /\ config b = c.
Proof.
  intros (H1 & H2 & H3). induction 1 as [b Hnew|b ws _ [IH IHc] Hs|b _ [IH IHc]].
  - apply builder_new_ok in Hnew as (Hb & _ & Hc); done.
  - destruct (extend_ordered_spec b ws IH Hs) as (b' & -> & _ & Hc & Hb). cbn. by rewrite Hc.
  - destruct (clear_ok b IH). by split.
Qed.

(** What [encode] returned for a builder. *)
Lemma encode_result c b block_sequence m bytes :
  config_in c -> built c b -> u64 block_sequence -> encode b block_sequence = Ok (m, bytes) ->
  decode_word_block bytes = Ok (mkDecoded (header m) (restarts m) (words b)) /\ bytes_ok bytes.
Proof.
  intros Hc Hb Hseq He. destruct (built_ok c b Hc Hb) as [Hok _].
  assert (Hne : words b <> []) by (intros Hw; unfold encode, encode_validated in He; by rewrite Hw in He).
  destruct (encode_spec b block_sequence Hok Hne Hseq) as [(m' & bytes' & He' & Hdec & _ & _ & _ & Hbytes)|[[x He'] _]].
  - rewrite He in He'. injection He' as -> ->. by split.
  - by rewrite He in He'.
Qed.

(** Decidable forms of the input conditions, for concrete words. *)
Fixpoint records_okb (width prev : Z) (ws : list Word) : bool :=
  match ws with
  | [] => true
  | w :: ws => (0 <=? value w) && (value w <? 256 ^ width) && (prev <=? timestamp_ns w)
      && (timestamp_ns w <=? u64_max) && records_okb width (timestamp_ns w) ws
  end.

Definition u64b (z : Z) : bool := (0 <=? z) && (z <=? u64_max).

Definition entry_okb (w : Word) : bool :=
  u64b (value w) && u64b (timestamp_ns w) && u64b (duration_ns w) &&
  match payload w with
  | None => true
  | Some p => u64b (payload_len p) && match p with
      | Bytes bytes => bytes_okb bytes
      | Text text => bytes_okb text && utf8_valid text
      end
  end.

Definition stream_okb (ws : list Word) : bool :=
  records_okb 8 (first_time ws) ws && forallb entry_okb ws.

Lemma u64b_spec z : u64b z = true -> u64 z.
Proof. unfold u64b. rewrite andb_true_iff, !Z.leb_le. ints. Qed.

Lemma records_okb_spec width ws : forall prev, records_okb width prev ws = true -> records_ok width prev ws.
Proof.
  induction ws as [|w ws IH]; intros prev; [done|]. cbn [records_okb records_ok].
  rewrite !andb_true_iff, !Z.leb_le, Z.ltb_lt. intros [[[[H1 H2] H3] H4] H5]. split_and!; try done. by apply IH.
Qed.

Lemma entry_okb_spec w : entry_okb w = true -> entry_ok w.
Proof.
  unfold entry_okb, entry_ok, word_ok. rewrite !andb_true_iff. intros [[[H1 H2] H3] H4].
  apply u64b_spec in H1, H2, H3. destruct (payload w) as [p|]; [|done].
  apply andb_true_iff in H4 as [H4 H5]. apply u64b_spec in H4. split; [|done]. split_and!; try done.
  destruct p; cbn [payload_ok]; [by apply bytes_okb_spec|].
  apply andb_true_iff in H5 as [H5 H6]. split; [by apply bytes_okb_spec|done].
Qed.

Lemma stream_okb_spec ws : stream_okb ws = true -> stream_ok ws.
Proof.
  intros [H1 H2]%andb_true_iff. split; [by apply records_okb_spec|]. rewrite List.forallb_forall in H2.
  apply List.Forall_forall. intros w Hw. by apply entry_okb_spec, H2.
Qed.

(** ** The properties *)

(** A builder with a 64-word limit and a few words of every kind, for the witnesses. *)
Definition sample_config : BlockCodecConfig := mkConfig 64 2 65536 1000000 u64_max.

Definition sample_words : list Word :=
  [mkWord 7 None 100 0; mkWord 300 None 105 9; mkWord 8 (Some (Text [104; 105])) 105 0;
   mkWord 9 (Some (Bytes [255])) 1000 3; mkWord 9 None 2000 0].

Definition dense_sample : list Word :=
  [mkWord 7 None 100 0; mkWord 30 None 105 0; mkWord 8 None 110 0; mkWord 9 None 110 0].

Definition empty_sample : WordBlockBuilder := mkBuilder sample_config [] no_sizing.

Lemma built_sample ws : stream_okb ws = true -> built sample_config (snd (extend_ordered empty_sample ws)).
Proof.
  intros H. apply built_extend; [by apply built_new|]. by apply stream_okb_spec.
Qed.

(** C1. The bytes of a block decode to its header, its restart table and exactly the words the
    builder held, with their values, times, durations and payloads, whichever record layout the
    encoder chose. *)
Theorem word_block_roundtrip c b block_sequence m bytes :
  config_in c -> built c b -> u64 block_sequence -> encode b block_sequence = Ok (m, bytes) ->
  decode_word_block bytes = Ok (mkDecoded (header m) (restarts m) (words b)).
Proof.
  intros Hc Hb Hseq He. by destruct (encode_result _ _ _ _ _ Hc Hb Hseq He).
Qed.

Definition sample_encoding (ws : list Word) : EncodedBlockMetadata * list Z :=
  match encode (snd (extend_ordered empty_sample ws)) 3 with
  | Ok result => result
  | Err _ => (mkMetadata (mkHeader 0 0 0 0 0 0 0 0 0 0 0 0 0) [], [])
  end.

Lemma word_block_roundtrip_witness :
  decode_word_block (snd (sample_encoding sample_words)) =
    Ok (mkDecoded (header (fst (sample_encoding sample_words))) (restarts (fst (sample_encoding sample_words)))
      sample_words) /\
  decode_word_block (snd (sample_encoding dense_sample)) =
    Ok (mkDecoded (header (fst (sample_encoding dense_sample))) (restarts (fst (sample_encoding dense_sample)))
      dense_sample).
Proof.
  split.
  - apply (word_block_roundtrip sample_config (snd (extend_ordered empty_sample sample_words)) 3);
      [unfold config_in; cbn; lia|by apply built_sample|ints|vm_compute; reflexivity].
  - apply (word_block_roundtrip sample_config (snd (extend_ordered empty_sample dense_sample)) 3);
      [unfold config_in; cbn; lia|by apply built_sample|ints|vm_compute; reflexivity].
Defined.

(** C17. A non-empty block of less than 4 GiB always encodes, and takes no more bytes than the
    header, the size the builder predicted and the padding to eight bytes. *)
Theorem word_block_encodes c b block_sequence :
  config_in c -> built c b -> words b <> [] -> u64 block_sequence ->
  72 + predicted_bytes c (sizing b) (zlen (words b)) + 7 <= u32_max ->
  exists m bytes, encode b block_sequence = Ok (m, bytes) /\
    sequence (header m) = block_sequence /\ block_len (header m) = zlen bytes /\
    72 <= zlen bytes <= 72 + predicted_bytes c (sizing b) (zlen (words b)) + 7.
Proof.
  intros Hc Hb Hne Hseq. destruct (built_ok c b Hc Hb) as [Hok <-].
  pose proof Hok as ((_ & Hm & _) & Hs & Hz & Hn).
  rewrite (predicted_size _ (words b)) by (done || apply Hs || lia || by apply stream_first_nonneg).
  intros Hsize.
  destruct (encode_spec b block_sequence Hok Hne Hseq) as [(m & bytes & He & _ & H1 & H2 & H3 & _)|[_ Hbig]]; [|lia].
  by exists m, bytes.
Qed.

Lemma word_block_encodes_witness :
  exists m bytes, encode (snd (extend_ordered empty_sample sample_words)) 3 = Ok (m, bytes) /\
    sequence (header m) = 3 /\ block_len (header m) = zlen bytes /\
    72 <= zlen bytes <= 72 + predicted_bytes sample_config
      (sizing (snd (extend_ordered empty_sample sample_words)))
      (zlen (words (snd (extend_ordered empty_sample sample_words)))) + 7.
Proof.
  apply (word_block_encodes sample_config (snd (extend_ordered empty_sample sample_words)) 3);
    [unfold config_in; cbn; lia|by apply built_sample|discriminate|ints|vm_compute; discriminate].
Defined.

(** C16. Extending a block takes exactly the words that a reference function takes which
    recomputes the size of the encoded block for every word, on the dense path too, and appends
    them unchanged. *)
Theorem extend_takes_reference_prefix c b ws :
  config_in c -> built c b -> stream_ok (words b ++ ws) ->
  let n := accepted_prefix c (words b) ws in
  fst (extend_ordered b ws) = n /\ words (snd (extend_ordered b ws)) = words b ++ take n ws /\
  zlen (words (snd (extend_ordered b ws))) <= max_words c.
Proof.
  intros Hc Hb Hs. destruct (built_ok c b Hc Hb) as [Hok <-].
  destruct (extend_ordered_spec b ws Hok Hs) as (b' & -> & Hw & Hcfg & (_ & _ & _ & Hn)).
  cbn. by rewrite Hcfg in Hn.
Qed.

Lemma extend_takes_reference_prefix_witness :
  fst (extend_ordered empty_sample sample_words) = accepted_prefix sample_config [] sample_words /\
  words (snd (extend_ordered empty_sample sample_words)) =
    [] ++ take (accepted_prefix sample_config [] sample_words) sample_words /\
  zlen (words (snd (extend_ordered empty_sample sample_words))) <= max_words sample_config.
Proof.
  apply (extend_takes_reference_prefix sample_config empty_sample sample_words);
    [unfold config_in; cbn; lia|by apply built_new|by apply stream_okb_spec].
Defined.
