(* ===== verification/WordRange.v ===== *)
(** The contract of the window query: over every block a builder can have written it returns the
    window that the reference picks from the words of the block. *)

From S2P Require Import Prelude Events Vlq WordFormat WordEncode WordDecode WordRecords WordResume WordWindow.
From S2P Require Import WordGroups WordBlock WordCodec WordBuilder WordRoundTrip.

(** ** Durations and payloads of a segment *)

Lemma update_word_segment f i (j n : nat) (ws : list Word) :
  update_word f i (Z.of_nat j) (take n (drop j ws)) = take n (drop j (update_word f i 0 ws)).
Proof.
  unfold update_word. destruct (Z.leb_spec 0 i), (Z.leb_spec (Z.of_nat j) i); [|..|lia|done].
  - rewrite Z.sub_0_r. apply list_eq. intros k.
    destruct (decide (k < n)%nat) as [Hk|Hk].
    2: { rewrite (lookup_take_ge _ n) by lia. apply lookup_ge_None. rewrite length_alter, length_take. lia. }
    rewrite (lookup_take_lt (drop j (alter _ _ _))), lookup_drop by done.
    rewrite !list_lookup_alter. repeat case_decide; [|lia..|by rewrite lookup_take_lt, lookup_drop by lia].
    subst k. rewrite lookup_take_lt, lookup_drop by lia. do 2 f_equal. lia.
  - rewrite Z.sub_0_r, drop_alter_lt by lia. done.
Qed.

Lemma update_word_times f i first (ws : list Word) :
  (forall w, timestamp_ns (f w) = timestamp_ns w) -> times (update_word f i first ws) = times ws.
Proof.
  intros Hf. unfold update_word, times. destruct (_ <=? _); [|done]. generalize (Z.to_nat (i - first)) as k.
  induction ws as [|w ws IH]; intros [|k]; cbn; [done..|by rewrite Hf|]. f_equal. apply IH.
Qed.

Section Segment.
Context (bytes : list Z) (j n : nat).

Lemma duration_entries_segment words count : forall previous cursor ws ws' cursor',
  apply_duration_entries count bytes words 0 previous cursor ws = Ok (ws', cursor') ->
  apply_duration_entries count bytes words (Z.of_nat j) previous cursor (take n (drop j ws))
    = Ok (take n (drop j ws'), cursor') /\ times ws' = times ws.
Proof.
  induction count as [|count IH]; intros previous cursor ws ws' cursor'; cbn [apply_duration_entries];
    [by intros [= <- <-]|].
  repeat match goal with
  | |- match ?m with Ok _ => _ | Err _ => _ end = _ -> _ => destruct m as [[? ?]|]; [|done]
  | |- match ?m with Ok _ => _ | Err _ => _ end = _ -> _ => destruct m as [?|]; [|done]
  | |- (if ?c then _ else _) = _ -> _ => destruct c; [done|]
  end.
  intros [H1 H2]%IH. rewrite update_word_segment. split; [done|]. rewrite H2. by apply update_word_times.
Qed.

Lemma payload_entries_segment words count : forall previous cursor ws ws' cursor',
  apply_payload_entries count bytes words 0 previous cursor ws = Ok (ws', cursor') ->
  apply_payload_entries count bytes words (Z.of_nat j) previous cursor (take n (drop j ws))
    = Ok (take n (drop j ws'), cursor') /\ times ws' = times ws.
Proof.
  induction count as [|count IH]; intros previous cursor ws ws' cursor'; cbn [apply_payload_entries];
    [by intros [= <- <-]|].
  repeat match goal with
  | |- match ?m with Ok _ => _ | Err _ => _ end = _ -> _ => destruct m as [[? ?]|]; [|done]
  | |- match ?m with Ok _ => _ | Err _ => _ end = _ -> _ => destruct m as [?|]; [|done]
  | |- (if ?c then _ else _) = _ -> _ => destruct c; [done|]
  end.
  intros [H1 H2]%IH. rewrite update_word_segment. split; [done|]. rewrite H2. by apply update_word_times.
Qed.

(** Applied to a segment, the tables give the segment of the words they give as a whole. *)
Lemma apply_durations_segment parsed ws ws' :
  apply_durations bytes parsed 0 ws = Ok ws' ->
  apply_durations bytes parsed (Z.of_nat j) (take n (drop j ws)) = Ok (take n (drop j ws')) /\ times ws' = times ws.
Proof.
  unfold apply_durations. destruct (apply_duration_entries _ _ _ 0 _ _ ws) as [[ws1 c]|] eqn:Hd; [|done].
  apply duration_entries_segment in Hd as [-> Ht]. destruct (negb _).
  - destruct (decode_u64 bytes c) as [[count c1]|]; [|done].
    destruct (apply_payload_entries _ _ _ 0 _ _ ws1) as [[ws2 c2]|] eqn:Hp; [|done].
    apply payload_entries_segment in Hp as [-> Ht2].
    destruct (ok_or _ _); [|done]. destruct (_ || _); [done|]. intros [= <-]. split; [done|congruence].
  - destruct (ok_or _ _); [|done]. destruct (_ || _); [done|]. intros [= <-]. by split.
Qed.
End Segment.

(** ** The window of a decoded block *)

Lemma restarts_before_spec start rs k r :
  rs !! k = Some r -> (restarts_before start rs - 1)%nat = k ->
  k = 0%nat /\ start <= restart_timestamp_ns r \/ restart_timestamp_ns r < start.
Proof.
  revert k. induction rs as [|r' rs IH]; intros k Hk; [done|]. cbn [restarts_before].
  destruct (Z.ltb_spec (restart_timestamp_ns r') start).
  - destruct k as [|k]; [injection Hk as ->; auto|]. intros Hn.
    destruct (IH k Hk ltac:(lia)) as [[-> H1]|]; [|auto]. destruct rs as [|r1 rs]; [done|].
    injection Hk as ->. cbn [restarts_before] in Hn. rewrite (proj2 (Z.ltb_ge _ _) H1) in Hn. lia.
  - cbn [Nat.sub]. intros <-. injection Hk as ->. auto.
Qed.

Lemma restarts_before_bound start rs : rs <> [] -> (restarts_before start rs - 1 < length rs)%nat.
Proof.
  intros Hne. assert (restarts_before start rs <= length rs)%nat.
  { clear. induction rs as [|r rs IH]; cbn; [lia|]. destruct (_ <? _); lia. }
  destruct rs; [done|cbn in *; lia].
Qed.

Lemma times_length ws : length (times ws) = length ws.
Proof. apply length_map. Qed.

(** Decoding starts before the window, unless the whole block lies behind its start. *)
Lemma start_before start ws (from : nat) w t :
  ordered ws -> ws !! from = Some w -> timestamp_ns w = t ->
  from = 0%nat /\ start <= t \/ t < start ->
  (from <= times_before start (times ws))%nat /\
  ((0 < times_before start (times ws))%nat -> (from < times_before start (times ws))%nat).
Proof.
  intros Ho Hw Ht Hcase. destruct (times_before_split start ws Ho) as [Hpre Hpost].
  set (before := times_before start (times ws)) in *. destruct Hcase as [[-> Hs]|Hs].
  - split; [lia|]. intros Hb. rewrite Forall_lookup in Hpre.
    pose proof (Hpre 0%nat w ltac:(by rewrite lookup_take_lt by lia)) as H. cbn in H. lia.
  - assert (from < before)%nat; [|lia]. destruct (Nat.lt_ge_cases from before) as [|Hge]; [done|].
    rewrite Forall_lookup in Hpost.
    assert (Hl : drop before ws !! (from - before)%nat = Some w) by (rewrite lookup_drop, <- Hw; f_equal; lia).
    pose proof (Hpost _ _ Hl) as H. cbn in H. lia.
Qed.

Lemma decode_word_block_inv bytes h rs ws :
  bytes_ok bytes -> decode_word_block bytes = Ok (mkDecoded h rs ws) ->
  exists parsed raw d d',
    parse_word_block bytes = Ok parsed /\ parsed_ok parsed /\ sequential parsed 0 d /\
    decode_records bytes parsed (Z.to_nat (word_count h)) 0 d = Ok (raw, d') /\
    apply_durations bytes parsed 0 raw = Ok ws /\ parsed_header parsed = h /\ parsed_restarts parsed = rs.
Proof.
  intros Hb. unfold decode_word_block. destruct (parse_word_block bytes) as [parsed|] eqn:Hp; [|done].
  pose proof (parse_word_block_ok _ _ Hb Hp) as Hok.
  destruct (RecordDecoder_new parsed 0 false) as [d|] eqn:Hd; [|done].
  destruct (decode_records _ _ _ _ _) as [[raw d']|] eqn:Hr; [|done].
  destruct (_ || _); [done|]. destruct (negb _); [done|].
  destruct (apply_durations _ _ _ _) as [ws'|] eqn:Ha; [|done]. intros [= <- <- <-].
  exists parsed, raw, d, d'. split_and!; try done. by apply sequential_start.
Qed.

Lemma take_nil_inv {A} (n : nat) (l l' : list A) : length l = length l' -> take n l = [] -> take n l' = [].
Proof. destruct n, l, l'; done. Qed.

(** The durations of a selection, whose first record number the code reads off the selection. *)
Lemma apply_durations_selected bytes parsed raw ws (j n : nat) :
  apply_durations bytes parsed 0 raw = Ok ws ->
  apply_durations bytes parsed
    (match indexed (Z.of_nat j) (take n (drop j raw)) with (i, _) :: _ => i | [] => 0 end) (take n (drop j raw))
  = Ok (take n (drop j ws)).
Proof.
  intros Ha. destruct (apply_durations_segment bytes j n parsed raw ws Ha) as [Hseg Ht].
  destruct (take n (drop j raw)) as [|w l] eqn:Htake; cbn [indexed]; [|done].
  destruct (apply_durations_segment bytes 0 0 parsed raw ws Ha) as [Hnil _]. rewrite !take_0 in Hnil.
  change (Z.of_nat 0) with 0 in Hnil. rewrite Hnil. f_equal. symmetry. eapply take_nil_inv; [|exact Htake].
  rewrite !length_drop, <- !times_length, Ht. done.
Qed.

Lemma times_drop n ws : times (drop n ws) = drop n (times ws).
Proof. symmetry. apply List.skipn_map. Qed.

(** The range query of any block that decodes to words in order of their times. *)
Lemma range_of_block bytes h rs ws start end_ max :
  bytes_ok bytes -> decode_word_block bytes = Ok (mkDecoded h rs ws) -> ordered ws ->
  start <= end_ -> 0 < max ->
  decode_word_block_range bytes start end_ max = Ok (window_reference h rs ws start end_ max) /\
  let before := times_before start (times ws) in
  (start_record start rs <= before)%nat /\ ((0 < before)%nat -> (start_record start rs < before)%nat).
Proof.
  intros Hb Hdec Ho Hse Hmax.
  destruct (decode_word_block_inv _ _ _ _ Hb Hdec) as (parsed & raw & d & d' & Hp & Hok & Hseq & Hrec & Happ & <- & <-).
  pose proof (proj2 (apply_durations_segment bytes 0 0 parsed raw ws Happ)) as Ht.
  assert (Horaw : ordered raw) by (unfold ordered; by rewrite <- Ht).
  destruct (lookup_lt_is_Some_2 (parsed_restarts parsed) (restarts_before start (parsed_restarts parsed) - 1)) as [r Hr].
  { apply restarts_before_bound. destruct (parsed_first _ Hok) as (? & ? & -> & _). done. }
  pose proof (restart_index_nonneg _ Hok _ _ Hr). pose proof (parsed_within _ Hok _ _ Hr).
  destruct (decode_from_restart bytes parsed Hok _ _ _ 0 d raw d' Hseq Hrec Hr ltac:(lia)) as [[d'' Hfrom] (w & Hw & Hwt)].
  rewrite Z.sub_0_r in *. set (from := Z.to_nat (record_index r)) in *.
  assert (Hstart : start_record start (parsed_restarts parsed) = from) by (unfold start_record; by rewrite Hr).
  destruct (start_before start raw from w _ Horaw Hw Hwt) as [Hle Hlt].
  { destruct (restarts_before_spec start _ _ _ Hr eq_refl) as [[Hk Hs]|]; [|by right]. left. split; [|done].
    destruct (parsed_first _ Hok) as (r0 & rs0 & Hrs & Hi0 & _). rewrite Hk, Hrs in Hr. injection Hr as ->. lia. }
  rewrite Ht, Hstart. split; [|done].
  unfold decode_word_block_range. rewrite (proj2 (Z.ltb_ge _ _) Hse), (proj2 (Z.eqb_neq max 0)) by lia.
  rewrite Hp. unfold RecordDecoder_new. rewrite Hr. cbn [ok_or].
  fold (decoder_at (restarts_before start (parsed_restarts parsed) - 1) r).
  replace (Z.to_nat (word_count (parsed_header parsed) - record_index r)) with
    (Z.to_nat (word_count (parsed_header parsed)) - from)%nat by lia.
  rewrite (window_loop_list _ _ _ _ _ _ _ _ _ _ _ Hfrom).
  destruct (window_run start end_ max raw from Horaw Hmax Hle) as (Hsel & Hcomp & Hcount).
  replace (Z.of_nat from) with (record_index r) in * by lia.
  rewrite Hsel, indexed_snd, Hcomp, Hcount. rewrite (apply_durations_selected _ _ _ _ _ _ Happ).
  unfold window_reference. rewrite !times_drop, Ht, Hstart. done.
Qed.

(** ** Blocks a builder wrote *)

Lemma records_ordered width ws : forall prev, records_ok width prev ws ->
  Forall (Z.le prev) (times ws) /\ ordered ws.
Proof.
  unfold ordered. induction ws as [|w ws IH]; intros prev Hok; [by split; constructor|].
  destruct Hok as (_ & Ht & Hok). destruct (IH _ Hok) as [Hle Hs]. cbn [times map]. split.
  - constructor; [lia|]. eapply Forall_impl; [exact Hle|]. cbn. lia.
  - by constructor.
Qed.

Lemma built_ordered c b : config_in c -> built c b -> ordered (words b).
Proof.
  intros Hc Hb. destruct (built_ok c b Hc Hb) as [(_ & [Hs _] & _) _]. exact (proj2 (records_ordered 8 _ _ Hs)).
Qed.

(** The last of the words up to the first one behind [end_] is that word, if others follow. *)
Lemma times_until_spec end_ ws : ordered ws ->
  let n := times_until end_ (times ws) in
  (n <= length ws)%nat /\ Forall (fun w => end_ < timestamp_ns w) (drop n ws) /\
  (drop n ws <> [] -> exists w, last (take n ws) = Some w /\ end_ < timestamp_ns w).
Proof.
  unfold ordered. induction ws as [|w ws IH]; intros Hs; [by cbn; split_and!; [lia|constructor|]|].
  cbn [times map] in *. apply StronglySorted_inv in Hs as [Hs Hw]. cbn [times_until].
  destruct (Z.ltb_spec end_ (timestamp_ns w)) as [Hlt|].
  - cbn [length drop take]. split_and!; [lia| |by exists w]. rewrite List.Forall_map in Hw.
    eapply Forall_impl; [exact Hw|]. intros w' Hw'. cbn beta in *. lia.
  - fold (times ws) in *. destruct (IH Hs) as (H1 & H2 & H3). cbn [length drop take]. split_and!; [lia|done|].
    intros Hne. destruct (H3 Hne) as (w' & Hl & Hend). exists w'. by rewrite last_cons, Hl.
Qed.

Lemma ordered_drop n ws : ordered ws -> ordered (drop n ws).
Proof.
  unfold ordered. revert ws. induction n as [|n IH]; intros [|w ws] Hs; cbn [drop]; [done..|].
  apply IH. by apply StronglySorted_inv in Hs as [Hs _].
Qed.

(** A complete window leaves out nothing but words before it, of which the nearest is kept, and
    words behind it, of which the first is kept. *)
Lemma reference_covers h rs ws start end_ max :
  ordered ws -> 2 <= max ->
  let before := times_before start (times ws) in
  (start_record start rs <= before)%nat -> ((0 < before)%nat -> (start_record start rs < before)%nat) ->
  let r := window_reference h rs ws start end_ max in
  complete r = true ->
  exists pre post, ws = pre ++ range_words r ++ post /\
    Forall (fun w => timestamp_ns w < start) pre /\ Forall (fun w => end_ < timestamp_ns w) post /\
    (pre <> [] -> exists w, head (range_words r) = Some w /\ timestamp_ns w < start) /\
    (post <> [] -> exists w, last (range_words r) = Some w /\ end_ < timestamp_ns w).
Proof.
  intros Ho Hmax before Hle Hlt r. unfold r, window_reference. cbn [complete range_words]. fold before.
  set (context := Nat.min 2 (before - start_record start rs)).
  destruct (times_before_split start ws Ho) as [Hpre _]. fold before in Hpre.
  destruct (times_until_spec end_ _ (ordered_drop before ws Ho)) as (Hin & Hpost & Hlast).
  set (inside := times_until end_ (times (drop before ws))) in *. intros Hc.
  assert (Hmin : Nat.min (context + inside) (Z.to_nat max) = (context + inside)%nat).
  { apply orb_true_iff in Hc as [Hc%Nat.eqb_eq|Hc%Nat.leb_le]; lia. }
  assert (Hlen : (before <= length ws)%nat) by (rewrite <- times_length; apply times_before_le).
  set (ctx := drop (before - context) (take before ws)).
  assert (Hctx : drop (before - context) ws = ctx ++ drop before ws) by (apply drop_split; lia).
  assert (Hctxlen : length ctx = context) by (unfold ctx; rewrite length_drop, length_take; lia).
  rewrite Hmin, Hctx, take_app_add' by by rewrite Hctxlen.
  exists (take (before - context) ws), (drop inside (drop before ws)). split_and!; [| |done|..].
  - by rewrite <- app_assoc, take_drop, <- Hctx, take_drop.
  - replace (before - context)%nat with (Nat.min (before - context) before) by lia.
    rewrite <- take_take. by apply Forall_take.
  - intros Hne. destruct ctx as [|w ctx'] eqn:Hw.
    + destruct Hne. assert (Hc0 : (before - start_record start rs = 0)%nat) by (change (length (@nil Word)) with 0%nat in Hctxlen; lia).
      destruct (Nat.eq_0_gt_0_cases before) as [Hb|Hb]; [by rewrite Hb|]. pose proof (Hlt Hb). lia.
    + exists w. split; [done|]. assert (Hall : Forall (fun w => timestamp_ns w < start) ctx) by by apply Forall_drop.
      rewrite Hw in Hall. by apply Forall_cons in Hall as [? _].
  - intros Hne. destruct (Hlast Hne) as (w & Hl & Hend). exists w. by rewrite last_app, Hl.
Qed.

(** Seven words with a restart entry every four records, and a window behind the first five. *)
Definition window_config : BlockCodecConfig := mkConfig 64 4 65536 1000000 u64_max.

Definition window_words : list Word :=
  [mkWord 1 None 0 0; mkWord 2 None 10 0; mkWord 3 None 20 5; mkWord 4 None 30 0; mkWord 5 None 40 0;
   mkWord 6 (Some (Text [104; 105])) 100 0; mkWord 7 None 200 0].

Definition window_builder : WordBlockBuilder :=
  snd (extend_ordered (mkBuilder window_config [] no_sizing) window_words).

Lemma window_built : built window_config window_builder.
Proof. apply built_extend; [by apply built_new|]. by apply stream_okb_spec. Qed.

Definition window_encoding : EncodedBlockMetadata * list Z :=
  match encode window_builder 3 with
  | Ok result => result
  | Err _ => (mkMetadata (mkHeader 0 0 0 0 0 0 0 0 0 0 0 0 0) [], [])
  end.

(** ** The properties *)

(** C19. The window query of a block, which decodes only from the last restart entry before the
    window, returns what a reference function picks from all words of the block: up to two of
    the decoded words before the window, those in it and the first behind it, within the given
    limit, with their durations and payloads. *)
Theorem window_query_exact c b block_sequence m bytes start end_ max :
  config_in c -> built c b -> u64 block_sequence -> encode b block_sequence = Ok (m, bytes) ->
  start <= end_ -> 0 < max ->
  decode_word_block_range bytes start end_ max =
    Ok (window_reference (header m) (restarts m) (words b) start end_ max).
Proof.
  intros Hc Hb Hseq He Hse Hmax. destruct (encode_result _ _ _ _ _ Hc Hb Hseq He) as [Hdec Hbytes].
  by apply (range_of_block _ _ _ _ _ _ _ Hbytes Hdec (built_ordered _ _ Hc Hb) Hse Hmax).
Qed.

(** Five words lie before the window, but the restart entry is at the fifth: the query returns
    one of them, the word in the window and the word behind it. *)
Lemma window_query_exact_witness :
  decode_word_block_range (snd window_encoding) 50 150 64 =
    Ok (window_reference (header (fst window_encoding)) (restarts (fst window_encoding)) window_words 50 150 64) /\
  window_reference (header (fst window_encoding)) (restarts (fst window_encoding)) window_words 50 150 64 =
    mkRange (header (fst window_encoding))
      [mkWord 5 None 40 0; mkWord 6 (Some (Text [104; 105])) 100 0; mkWord 7 None 200 0] true 3.
Proof.
  split; [|vm_compute; reflexivity].
  apply (window_query_exact window_config window_builder 3);
    [unfold config_in; cbn; lia|apply window_built|ints|vm_compute; reflexivity|lia|lia].
Defined.

(** If the window query reports a complete window, the words it returns are a gapless piece
    of the block: all words left out in front lie before the window, all words left out at the
    end lie behind it, the nearest word before the window is among those returned if the block
    has one, and so is the first word behind it. *)
Theorem window_query_covers c b block_sequence m bytes start end_ max r :
  config_in c -> built c b -> u64 block_sequence -> encode b block_sequence = Ok (m, bytes) ->
  start <= end_ -> 2 <= max ->
  decode_word_block_range bytes start end_ max = Ok r -> complete r = true ->
  exists pre post, words b = pre ++ range_words r ++ post /\
    Forall (fun w => timestamp_ns w < start) pre /\ Forall (fun w => end_ < timestamp_ns w) post /\
    (pre <> [] -> exists w, head (range_words r) = Some w /\ timestamp_ns w < start) /\
    (post <> [] -> exists w, last (range_words r) = Some w /\ end_ < timestamp_ns w).
Proof.
  intros Hc Hb Hseq He Hse Hmax Hr Hcomplete.
  destruct (encode_result _ _ _ _ _ Hc Hb Hseq He) as [Hdec Hbytes].
  destruct (range_of_block _ _ _ _ start end_ max Hbytes Hdec (built_ordered _ _ Hc Hb) Hse ltac:(lia))
    as (Hrange & Hle & Hlt).
  rewrite Hrange in Hr. injection Hr as <-. apply reference_covers; try done. by apply (built_ordered c).
Qed.

Lemma window_query_covers_witness :
  exists pre post, window_words =
      pre ++ [mkWord 5 None 40 0; mkWord 6 (Some (Text [104; 105])) 100 0; mkWord 7 None 200 0] ++ post /\
    Forall (fun w => timestamp_ns w < 50) pre /\ Forall (fun w => 150 < timestamp_ns w) post /\
    (pre <> [] -> exists w, Some (mkWord 5 None 40 0) = Some w /\ timestamp_ns w < 50) /\
    (post <> [] -> exists w, Some (mkWord 7 None 200 0) = Some w /\ 150 < timestamp_ns w).
Proof.
  apply (window_query_covers window_config window_builder 3 (fst window_encoding) (snd window_encoding) 50 150 64
    (mkRange (header (fst window_encoding))
      [mkWord 5 None 40 0; mkWord 6 (Some (Text [104; 105])) 100 0; mkWord 7 None 200 0] true 3));
    [unfold config_in; cbn; lia|apply window_built|ints|vm_compute; reflexivity|lia|lia|vm_compute; reflexivity|reflexivity].
Defined.
