(* ===== verification/DerivedIndex.v ===== *)
(** The summary index of derived lanes: an append-only multi-resolution index in memory, the
    chunked index built on it, and the rules by which the lanes of the program summarise their
    entries. *)

From S2P Require Import Prelude Events.

(** ** Records and folds *)

(** [crates/signal_derived/src/derived_index.rs:26-36] MipmapRecord *)
Record MipmapRecord := mkRecord {
  record_start : Z;
  record_end_ns : Z;
  record_count : Z;
  level_hint : option (bool * bool)
}.

#[export] Instance MipmapRecord_eq_dec : EqDecision MipmapRecord.
Proof. solve_decision. Defined.

(** [combine] indexes its slice: [None] is its panic on an empty one.
    [crates/signal_derived/src/derived_index.rs:42-58] LaneFold *)
Class LaneFold (F T : Type) := {
  leaf : T -> MipmapRecord;
  combine : list MipmapRecord -> option MipmapRecord
}.
Arguments leaf F {T _} entry.
Arguments combine F T {_} records.

(** The sum of [u32] counts as a release build computes it. *)
Definition sum_counts (records : list MipmapRecord) : Z :=
  as_u32 (fold_right Z.add 0 (map record_count records)).

(** [records.iter().map(|record| record.end_ns).max()] *)
Fixpoint max_end (records : list MipmapRecord) : option Z :=
  match records with
  | [] => None
  | r :: rest => Some (match max_end rest with Some e => Z.max (record_end_ns r) e | None => record_end_ns r end)
  end.

Definition join_hints (first last : option (bool * bool)) : option (bool * bool) :=
  match first, last with
  | Some (a, _), Some (_, b) => Some (a, b)
  | _, _ => None
  end.

(** The folds are unit types that select an instance.
    [crates/signal_derived/src/derived_data_collector/digital.rs:170-177] DigitalFold::leaf *)
Definition digital_leaf (entry : Sample) : MipmapRecord :=
  mkRecord (start_time_ns entry) (start_time_ns entry) 1 (Some (level entry, level entry)).

(** [crates/signal_derived/src/derived_data_collector/digital.rs:178-190] DigitalFold::combine *)
Definition digital_combine (records : list MipmapRecord) : option MipmapRecord :=
  first ← head records;
  last ← last records;
  Some (mkRecord (record_start first) (record_end_ns last) (sum_counts records)
    (join_hints (level_hint first) (level_hint last))).

Inductive DigitalFold := digital_fold.

#[export] Instance digital_lane : LaneFold DigitalFold Sample :=
  { leaf := digital_leaf; combine := digital_combine }.

(** [crates/signal_derived/src/derived_data_collector/number.rs:147-154] NumberFold::leaf *)
Definition number_leaf (entry : NumberSample) : MipmapRecord :=
  mkRecord (number_start_ns entry) (number_start_ns entry) 1 None.

(** The rule the number, text and marker lanes share.
    [crates/signal_derived/src/derived_data_collector/number.rs:156-163] NumberFold::combine *)
Definition combine_points (records : list MipmapRecord) : option MipmapRecord :=
  first ← head records;
  last ← last records;
  Some (mkRecord (record_start first) (record_end_ns last) (sum_counts records) None).

Inductive NumberFold := number_fold.

#[export] Instance number_lane : LaneFold NumberFold NumberSample :=
  { leaf := number_leaf; combine := combine_points }.

(** [crates/signal_derived/src/derived_data_collector/text.rs:180-187] TextFold::leaf *)
Definition text_leaf (entry : TextSample) : MipmapRecord :=
  mkRecord (text_start_ns entry) (text_start_ns entry) 1 None.

Inductive TextFold := text_fold.

#[export] Instance text_lane : LaneFold TextFold TextSample :=
  { leaf := text_leaf; combine := combine_points }.

(** [crates/signal_derived/src/derived_data_collector/timestamp_event.rs:141-148] MarkerFold::leaf *)
Definition marker_leaf (entry : Z) : MipmapRecord := mkRecord entry entry 1 None.

Inductive MarkerFold := marker_fold.

#[export] Instance marker_lane : LaneFold MarkerFold Z :=
  { leaf := marker_leaf; combine := combine_points }.

(** [crates/signal_derived/src/events.rs:211-224] Annotation *)
Record Annotation := mkAnnotation {
  annotation_start_ns : Z;
  annotation_end_ns : Z;
  annotation_value : Z;
  annotation_payload : option WordPayload
}.

(** [crates/signal_derived/src/derived_data_collector/word.rs:476-483] AnnotationFold::leaf *)
Definition annotation_leaf (entry : Annotation) : MipmapRecord :=
  mkRecord (annotation_start_ns entry) (annotation_end_ns entry) 1 None.

(** [crates/signal_derived/src/derived_data_collector/word.rs:484-493] AnnotationFold::combine *)
Definition annotation_combine (records : list MipmapRecord) : option MipmapRecord :=
  first ← head records;
  end_ ← max_end records;
  Some (mkRecord (record_start first) end_ (sum_counts records) None).

Inductive AnnotationFold := annotation_fold.

#[export] Instance annotation_lane : LaneFold AnnotationFold Annotation :=
  { leaf := annotation_leaf; combine := annotation_combine }.

(** [crates/signal_derived/src/derived_index.rs:239-257] SummaryRecordFold *)
Definition combine_summaries (records : list MipmapRecord) : option MipmapRecord :=
  first ← head records;
  last ← last records;
  end_ ← max_end records;
  Some (mkRecord (record_start first) end_ (sum_counts records)
    (join_hints (level_hint first) (level_hint last))).

Inductive SummaryRecordFold := summary_fold.

#[export] Instance summary_lane : LaneFold SummaryRecordFold MipmapRecord :=
  { leaf entry := entry; combine := combine_summaries }.

(** ** The append-only index *)

(** [crates/signal_derived/src/derived_index.rs:65-65] FAN_OUT *)
Definition FAN_OUT : nat := 64.

(** [crates/signal_derived/src/derived_index.rs:66-66] CHUNK_SIZE *)
Definition CHUNK_SIZE : nat := 4096.

(** [slice::partition_point]: the number of leading elements the predicate holds of; the library
    promises it where the predicate holds of a prefix only. *)
Fixpoint partition_point {A} (p : A -> bool) (l : list A) : nat :=
  match l with
  | [] => O
  | x :: l => if p x then S (partition_point p l) else O
  end.

(** [crates/signal_derived/src/derived_index.rs:80-85] AppendOnlyMipmap *)
Record AppendOnlyMipmap := mkMipmap {
  tiers : list (list MipmapRecord);
  mipmap_len : nat
}.

Section Mipmap.
Context (F T : Type) `{LaneFold F T}.

(** [crates/signal_derived/src/derived_index.rs:88-95] AppendOnlyMipmap::new *)
Definition AppendOnlyMipmap_new : AppendOnlyMipmap := mkMipmap [[]] 0.

(** The tiers from the one the record is pushed to; a tier that is created gets a single record,
    which completes no group.  [None] is a panic of [combine].
    [crates/signal_derived/src/derived_index.rs:135-145] AppendOnlyMipmap::push_record *)
Fixpoint push_record (tiers : list (list MipmapRecord)) (record : MipmapRecord)
  : option (list (list MipmapRecord)) :=
  match tiers with
  | [] => Some [[record]]
  | tier :: rest =>
      let tier := tier ++ [record] in
      if Nat.eqb (length tier mod FAN_OUT) 0 then
        combined ← combine F T (drop (length tier - FAN_OUT) tier);
        rest ← push_record rest combined;
        Some (tier :: rest)
      else Some (tier :: rest)
  end.

(** [crates/signal_derived/src/derived_index.rs:111-119] AppendOnlyMipmap::push *)
Definition push (m : AppendOnlyMipmap) (entry : T) : option AppendOnlyMipmap :=
  tiers ← push_record (tiers m) (leaf F entry);
  Some (mkMipmap tiers (S (mipmap_len m))).

(** [crates/signal_derived/src/derived_index.rs:121-133] AppendOnlyMipmap::extend *)
Fixpoint extend (m : AppendOnlyMipmap) (entries : list T) : option AppendOnlyMipmap :=
  match entries with
  | [] => Some m
  | entry :: entries => m ← push m entry; extend m entries
  end.

(** [crates/signal_derived/src/derived_index.rs:107-109] AppendOnlyMipmap::resident_records *)
Definition resident_records (m : AppendOnlyMipmap) : nat :=
  fold_right Nat.add O (map length (tiers m)).

(** [crates/signal_derived/src/derived_index.rs:223-227] AppendOnlyMipmap::window_range *)
Definition window_range (tier : list MipmapRecord) (start_ns end_ns : Z) : nat * nat :=
  let first := partition_point (fun r => record_end_ns r <? start_ns) tier in
  (first, (first + partition_point (fun r => (record_start r <=? end_ns)%Z) (drop first tier))%nat).

(** The record of the entries behind the tier's last group, if any.
    [crates/signal_derived/src/derived_index.rs:193-221] AppendOnlyMipmap::append_uncovered_tail *)
Definition append_uncovered_tail (m : AppendOnlyMipmap) (tier_index : nat) (start_ns end_ns : Z)
    (out : list MipmapRecord) : option (list MipmapRecord) :=
  match tier_index with
  | O => Some out
  | S _ =>
      tier ← tiers m !! tier_index;
      tier0 ← tiers m !! 0%nat;
      let group_size := (FAN_OUT ^ tier_index)%nat in
      let covered := (length tier * group_size)%nat in
      if Nat.leb (mipmap_len m) covered then Some out
      else
        let raw := drop covered tier0 in
        let '(first, last) := window_range raw start_ns end_ns in
        if Nat.ltb first last then
          tail ← combine F T (take (last - first) (drop first raw));
          Some (out ++ [tail])
        else Some out
  end.

(** The tiers below the argument, coarsest first.
    [crates/signal_derived/src/derived_index.rs:175-190] AppendOnlyMipmap::sampled_window (loop) *)
Fixpoint sample_tiers (m : AppendOnlyMipmap) (start_ns end_ns budget : Z) (below : nat)
  : option (list MipmapRecord) :=
  match below with
  | O => Some []
  | S tier_index =>
      tier ← tiers m !! tier_index;
      let '(first, last) := window_range tier start_ns end_ns in
      if (Z.of_nat (last - first) <=? budget) || Nat.eqb tier_index 0 then
        let first := (first - 1)%nat in
        let last := Nat.min (last + 1) (length tier) in
        append_uncovered_tail m tier_index start_ns end_ns (take (last - first) (drop first tier))
      else sample_tiers m start_ns end_ns budget tier_index
  end.

Definition point_budget (target_points : Z) : Z := saturating_mul64 (Z.max target_points 1) 4.

(** [crates/signal_derived/src/derived_index.rs:168-191] AppendOnlyMipmap::sampled_window *)
Definition sampled_window (m : AppendOnlyMipmap) (start_ns end_ns target_points : Z)
  : option (list MipmapRecord) :=
  sample_tiers m start_ns end_ns (point_budget target_points) (length (tiers m)).
End Mipmap.

(** ** The chunked index *)

(** [crates/signal_derived/src/derived_index.rs:264-270] ChunkedMipmap *)
Record ChunkedMipmap := mkChunked {
  completed : AppendOnlyMipmap;
  active : list MipmapRecord;
  chunked_len : nat
}.

Section Chunked.
Context (F T : Type) `{LaneFold F T}.

(** [crates/signal_derived/src/derived_index.rs:273-281] ChunkedMipmap::new *)
Definition ChunkedMipmap_new : ChunkedMipmap := mkChunked AppendOnlyMipmap_new [] 0.

(** [crates/signal_derived/src/derived_index.rs:293-295] ChunkedMipmap::resident_records *)
Definition chunked_resident_records (c : ChunkedMipmap) : nat :=
  (resident_records (completed c) + length (active c))%nat.

(** [crates/signal_derived/src/derived_index.rs:297-309] ChunkedMipmap::push *)
Definition chunked_push (c : ChunkedMipmap) (entry : T) : option ChunkedMipmap :=
  let active := active c ++ [leaf F entry] in
  let len := S (chunked_len c) in
  if Nat.eqb (length active) CHUNK_SIZE then
    summary ← combine F T active;
    completed ← push SummaryRecordFold MipmapRecord (completed c) summary;
    Some (mkChunked completed [] len)
  else Some (mkChunked (completed c) active len).

(** [crates/signal_derived/src/derived_index.rs:311-323] ChunkedMipmap::extend *)
Fixpoint chunked_extend (c : ChunkedMipmap) (entries : list T) : option ChunkedMipmap :=
  match entries with
  | [] => Some c
  | entry :: entries => c ← chunked_push c entry; chunked_extend c entries
  end.

(** [crates/signal_derived/src/derived_index.rs:325-361] ChunkedMipmap::sampled_window *)
Definition chunked_sampled_window (c : ChunkedMipmap) (start_ns end_ns target_points : Z)
  : option (list MipmapRecord) :=
  result ← sampled_window SummaryRecordFold MipmapRecord (completed c) start_ns end_ns target_points;
  let '(first, last) := window_range (active c) start_ns end_ns in
  match active c with
  | [] => Some result
  | _ =>
      let first := (first - 1)%nat in
      let last := Nat.min (last + 1) (length (active c)) in
      let active := take (last - first) (drop first (active c)) in
      if Z.of_nat (length result) + zlen active <=? point_budget target_points
      then Some (result ++ active)
      else combined ← combine F T active; Some (result ++ [combined])
  end.
End Chunked.
