(* ===== verification/DerivedIndexProofs.v ===== *)
(** The contract of the summary index: every tier holds the summaries of consecutive groups of
    entries, and a query answers with summaries of disjoint runs of entries that together hold
    every entry of the window. *)

From S2P Require Import Prelude Events DerivedIndex.

(** ** Summaries *)

(** A record whose hint is there exactly if [hinted]. *)
Definition record_ok (hinted : bool) (r : MipmapRecord) : Prop :=
  u32 (record_count r) /\ match level_hint r with Some _ => hinted = true | None => hinted = false end.

Definition join (a b : MipmapRecord) : MipmapRecord :=
  mkRecord (record_start a) (Z.max (record_end_ns a) (record_end_ns b))
    (as_u32 (record_count a + record_count b)) (join_hints (level_hint a) (level_hint b)).

Lemma as_u32_add_r a b : as_u32 (a + as_u32 b) = as_u32 (a + b).
Proof. unfold as_u32. apply Z.add_mod_idemp_r. lia. Qed.

Lemma as_u32_add_l a b : as_u32 (as_u32 a + b) = as_u32 (a + b).
Proof. unfold as_u32. apply Z.add_mod_idemp_l. lia. Qed.

Section Summaries.
Context (hinted : bool).
Abbreviation ok := (record_ok hinted).

Lemma join_ok a b : ok a -> ok b -> ok (join a b).
Proof.
  intros [_ Ha] [_ Hb]. split; [apply as_u32_range|]. cbn.
  destruct (level_hint a) as [[]|], (level_hint b) as [[]|]; cbn; congruence.
Qed.

Lemma join_assoc a b c : ok a -> ok b -> ok c -> join a (join b c) = join (join a b) c.
Proof.
  intros [_ Ha] [_ Hb] [_ Hc]. unfold join. cbn. f_equal; [lia| |].
  - rewrite as_u32_add_r, as_u32_add_l. f_equal. lia.
  - destruct (level_hint a) as [[]|], (level_hint b) as [[]|], (level_hint c) as [[]|]; cbn; congruence.
Qed.

Lemma summary_single r : ok r -> combine_summaries [r] = Some r.
Proof.
  intros [Hc Hh]. unfold combine_summaries, sum_counts. cbn. rewrite Z.add_0_r, as_u32_small by ints.
  destruct r as [s e c [[]|]]; done.
Qed.

Lemma summary_cons r rs s : ok r -> Forall ok rs -> combine_summaries rs = Some s ->
  combine_summaries (r :: rs) = Some (join r s) /\ ok s.
Proof.
  intros [Hc Hh] Hrs. unfold combine_summaries. destruct rs as [|r' rs]; [done|]. cbn [head mbind option_bind].
  destruct (last (r' :: rs)) as [l|] eqn:Hl; [|by apply last_None in Hl].
  assert (Hlok : ok l). { apply last_Some in Hl as [l0 Hl]. rewrite Hl in Hrs. apply Forall_app in Hrs as [_ Hrs]. by apply Forall_cons in Hrs as [? _]. }
  rewrite last_cons, Hl. cbn [mbind option_bind max_end]. intros [= <-].
  apply Forall_cons in Hrs as [[_ Hr'] _]. destruct Hlok as [_ Hlh]. unfold join, sum_counts. cbn. split.
  - do 2 f_equal.
    + by rewrite as_u32_add_r.
    + destruct (level_hint r) as [[]|], (level_hint r') as [[]|], (level_hint l) as [[]|]; cbn; congruence.
  - split; [apply as_u32_range|]. cbn.
    destruct (level_hint r') as [[]|], (level_hint l) as [[]|]; cbn; congruence.
Qed.

Lemma summary_some rs : Forall ok rs -> rs <> [] -> exists s, combine_summaries rs = Some s /\ ok s.
Proof.
  induction 1 as [|r rs Hr Hrs IH]; intros Hne; [done|]. destruct rs as [|r' rs].
  - exists r. by rewrite summary_single.
  - destruct (IH ltac:(done)) as (s & Hs & Hok). destruct (summary_cons _ _ _ Hr Hrs Hs) as [-> _].
    exists (join r s). split; [done|]. by apply join_ok.
Qed.

Lemma summary_app l1 l2 s1 s2 : Forall ok l1 -> Forall ok l2 ->
  combine_summaries l1 = Some s1 -> combine_summaries l2 = Some s2 ->
  combine_summaries (l1 ++ l2) = Some (join s1 s2).
Proof.
  intros H1 H2 Hs1 Hs2. revert s1 Hs1. induction H1 as [|r l1 Hr H1 IH]; intros s1 Hs1; [done|].
  assert (Hok2 : ok s2). { destruct (summary_some l2 H2) as (s & Hs & ?); [by intros ->|]. by simplify_eq. }
  destruct l1 as [|r' l1].
  - rewrite summary_single in Hs1 by done. injection Hs1 as <-. cbn [app]. by apply summary_cons.
  - destruct (summary_some _ H1 ltac:(done)) as (s & Hs & Hok).
    destruct (summary_cons _ _ _ Hr H1 Hs) as [Hc _]. rewrite Hc in Hs1. injection Hs1 as <-.
    rewrite <- join_assoc by done. cbn [app]. apply (summary_cons r (r' :: l1 ++ l2)); [done| |by apply IH].
    change (Forall ok ((r' :: l1) ++ l2)). by apply Forall_app.
Qed.

(** The summary of summaries of groups is the summary of the groups together. *)
Lemma summary_concat gss rs :
  Forall2 (fun g r => combine_summaries g = Some r) gss rs -> Forall ok (concat gss) -> gss <> [] ->
  combine_summaries rs = combine_summaries (concat gss) /\ Forall ok rs.
Proof.
  induction 1 as [|g r gss rs Hg Hrest IH]; intros Hok Hne; [done|]. cbn [concat] in *.
  apply Forall_app in Hok as [Hg1 Hok]. assert (Hgne : g <> []) by by intros ->.
  destruct (summary_some g Hg1 Hgne) as (s & Hs & Hsok). assert (s = r) as -> by congruence.
  destruct gss as [|g' gss].
  - inversion Hrest; subst. cbn [concat]. rewrite app_nil_r, summary_single by done. split; [by rewrite Hs|by constructor].
  - destruct (IH Hok ltac:(done)) as [Heq Hrs].
    assert (Hcne : concat (g' :: gss) <> []).
    { cbn. inversion Hrest; subst. by destruct g'. }
    destruct (summary_some _ Hok Hcne) as (s & Hsum & Hsok').
    rewrite (summary_app _ _ _ _ Hg1 Hok Hg Hsum). split; [|by constructor].
    apply summary_cons; [done|done|congruence].
Qed.
End Summaries.

(** ** Timelines *)

(** Records of one lane, neither starting nor ending before those in front of them. *)
Record timeline (hinted : bool) (l : list MipmapRecord) : Prop := mkTimeline {
  timeline_ok : Forall (record_ok hinted) l;
  timeline_order : forall i j a b, (i <= j)%nat -> l !! i = Some a -> l !! j = Some b ->
    record_start a <= record_start b /\ record_end_ns a <= record_end_ns b
}.

(** The fold of a lane, on the records of such a lane, is the summary.  [lane_hints] says which
    lanes the fold serves. *)
Class LaneFoldLaws (F T : Type) `{LaneFold F T} := {
  lane_hints : bool -> Prop;
  combine_summary hinted l : lane_hints hinted -> timeline hinted l -> combine F T l = combine_summaries l
}.

(** The records from number [a] on, [n] of them. *)
Definition run {A} (l : list A) (a n : nat) : list A := take n (drop a l).

Lemma run_length {A} (l : list A) a n : (a + n <= length l)%nat -> length (run l a n) = n.
Proof. intros H. unfold run. rewrite length_take, length_drop. lia. Qed.

Lemma run_lookup {A} (l : list A) a n i : (i < n)%nat -> run l a n !! i = l !! (a + i)%nat.
Proof. intros H. unfold run. by rewrite lookup_take_lt, lookup_drop by done. Qed.

Lemma run_add {A} (l : list A) a n m : run l a (n + m) = run l a n ++ run l (a + n) m.
Proof. unfold run. rewrite <- (drop_drop l), <- take_take_drop. done. Qed.

Lemma run_app_l {A} (l k : list A) a n : (a + n <= length l)%nat -> run (l ++ k) a n = run l a n.
Proof. intros H. unfold run. rewrite drop_app_le by lia. apply take_app_le. rewrite length_drop. lia. Qed.

Lemma run_nonempty {A} (l : list A) a n : (0 < n)%nat -> (a + n <= length l)%nat -> run l a n <> [].
Proof. intros Hn H Hr. apply (f_equal length) in Hr. rewrite run_length in Hr by done. cbn in Hr. lia. Qed.

Section Timelines.
Context (hinted : bool).
Implicit Types l : list MipmapRecord.

Lemma timeline_drop l a : timeline hinted l -> timeline hinted (drop a l).
Proof.
  intros [Hok Hord]. split; [by apply Forall_drop|]. intros i j x y Hij. rewrite !lookup_drop.
  apply Hord. lia.
Qed.

Lemma timeline_take l n : timeline hinted l -> timeline hinted (take n l).
Proof.
  intros [Hok Hord]. split; [by apply Forall_take|]. intros i j x y Hij Hi Hj.
  apply lookup_take_Some in Hi as [Hi _]. apply lookup_take_Some in Hj as [Hj _]. by apply (Hord i j).
Qed.

Lemma timeline_run l a n : timeline hinted l -> timeline hinted (run l a n).
Proof. intros H. by apply timeline_take, timeline_drop. Qed.

Lemma timeline_prefix l k : timeline hinted (l ++ k) -> timeline hinted l.
Proof. intros H. rewrite <- (take_app_length l k). by apply timeline_take. Qed.

(** On a timeline the latest end is the last one. *)
Lemma timeline_max_end l x : timeline hinted (l ++ [x]) -> max_end (l ++ [x]) = Some (record_end_ns x).
Proof.
  induction l as [|r l IH]; intros Ht; [done|]. cbn [app max_end].
  rewrite IH by (apply (timeline_drop _ 1) in Ht; exact Ht). f_equal. apply Z.max_r.
  apply (timeline_order _ _ Ht 0 (length (r :: l)) r x); [lia|done|].
  change (r :: l ++ [x]) with ((r :: l) ++ [x]). by rewrite lookup_app_r, Nat.sub_diag.
Qed.

(** The summary of a run starts with its first record and ends with its last. *)
Lemma run_summary l a n : timeline hinted l -> (0 < n)%nat -> (a + n <= length l)%nat ->
  exists s x y, combine_summaries (run l a n) = Some s /\ record_ok hinted s /\
    l !! a = Some x /\ l !! (a + n - 1)%nat = Some y /\
    record_start s = record_start x /\ record_end_ns s = record_end_ns y.
Proof.
  intros Ht Hn Hlen. pose proof (timeline_run l a n Ht) as Htr. pose proof (run_length l a n Hlen) as Hrl.
  destruct (summary_some hinted _ (timeline_ok _ _ Htr) (run_nonempty l a n Hn Hlen)) as (s & Hs & Hok).
  assert (Hx : head (run l a n) = l !! a) by (rewrite head_lookup, run_lookup, Nat.add_0_r by lia; done).
  assert (Hy : last (run l a n) = l !! (a + n - 1)%nat).
  { rewrite last_lookup, Hrl, run_lookup by lia. f_equal. lia. }
  destruct (lookup_lt_is_Some_2 l a ltac:(lia)) as [x Hlx].
  destruct (lookup_lt_is_Some_2 l (a + n - 1) ltac:(lia)) as [y Hly].
  rewrite Hlx in Hx. rewrite Hly in Hy. exists s, x, y. split; [done|]. split; [done|]. split; [done|]. split; [done|].
  unfold combine_summaries in Hs. rewrite Hx, Hy in Hs. cbn [mbind option_bind] in Hs.
  destruct (max_end (run l a n)) as [e|] eqn:He; [|done]. injection Hs as <-. split; [done|].
  apply last_Some in Hy as [l' Hl']. rewrite Hl' in He, Htr. rewrite timeline_max_end in He by done. by injection He.
Qed.
End Timelines.

(** ** Groups *)

Section Groups.
Context (hinted : bool).

(** [t] holds the summaries of the complete groups of [g] records of [l]. *)
Definition grouped (l : list MipmapRecord) (g : nat) (t : list MipmapRecord) : Prop :=
  length t = (length l / g)%nat /\
  forall i r, t !! i = Some r -> combine_summaries (run l (i * g) g) = Some r.

Lemma grouped_bound l g t i : (0 < g)%nat -> grouped l g t -> (i < length t)%nat -> (i * g + g <= length l)%nat.
Proof. intros Hg [Hlen _] Hi. pose proof (Nat.Div0.mul_div_le (length l) g). nia. Qed.

Lemma grouped_self l : timeline hinted l -> grouped l 1 l.
Proof.
  intros [Hok _]. split; [by rewrite Nat.div_1_r|]. intros i r Hi. rewrite Nat.mul_1_r. unfold run.
  rewrite (drop_S _ _ _ Hi). cbn [take]. rewrite take_0. apply (summary_single hinted).
  by apply (Forall_lookup_1 _ _ _ _ Hok Hi).
Qed.

(** Group summaries lie on a timeline again. *)
Lemma grouped_timeline l g t : (0 < g)%nat -> timeline hinted l -> grouped l g t -> timeline hinted t.
Proof.
  intros Hg Ht Hgr. pose proof Hgr as [Hlen Hsum].
  assert (Hrec : forall i r, t !! i = Some r -> exists x y, record_ok hinted r /\
    l !! (i * g)%nat = Some x /\ l !! (i * g + g - 1)%nat = Some y /\
    record_start r = record_start x /\ record_end_ns r = record_end_ns y).
  { intros i r Hi. pose proof (lookup_lt_Some _ _ _ Hi) as Hlt.
    destruct (run_summary hinted l (i * g) g Ht Hg (grouped_bound _ _ _ _ Hg Hgr Hlt)) as (s & x & y & Hs & Hrest).
    rewrite (Hsum _ _ Hi) in Hs. injection Hs as <-. by exists x, y. }
  split.
  - apply Forall_lookup. intros i r Hi. by destruct (Hrec _ _ Hi) as (x & y & ? & _).
  - intros i j a b Hij Ha Hb. destruct (Hrec _ _ Ha) as (x & y & _ & Hx & Hy & -> & ->).
    destruct (Hrec _ _ Hb) as (x' & y' & _ & Hx' & Hy' & -> & ->). split.
    + apply (timeline_order _ _ Ht (i * g) (j * g) x x'); [nia|done|done].
    + apply (timeline_order _ _ Ht (i * g + g - 1) (j * g + g - 1) y y'); [nia|done|done].
Qed.

(** The summary of consecutive group summaries is that of the records of these groups. *)
Lemma grouped_run l g t p n : (0 < g)%nat -> (0 < n)%nat -> timeline hinted l -> grouped l g t ->
  (p + n <= length t)%nat -> combine_summaries (run t p n) = combine_summaries (run l (p * g) (n * g)).
Proof.
  intros Hg Hn Ht Hgr Hlen.
  assert (Hcon : forall n, (p + n <= length t)%nat ->
    run l (p * g) (n * g) = concat (map (fun i => run l ((p + i) * g) g) (seq 0 n)) /\
    Forall2 (fun s r => combine_summaries s = Some r) (map (fun i => run l ((p + i) * g) g) (seq 0 n)) (run t p n)).
  { clear n Hn Hlen. induction n as [|n IH]; intros Hlen.
    - cbn. unfold run. rewrite !take_0. split; [done|constructor].
    - destruct (IH ltac:(lia)) as [IH1 IH2]. rewrite seq_S, map_app, concat_app. cbn [Nat.add map concat].
      replace (S n * g)%nat with (n * g + g)%nat by lia. rewrite run_add, <- IH1, app_nil_r. split.
      + do 2 f_equal. lia.
      + replace (S n) with (n + 1)%nat by lia. rewrite run_add. apply Forall2_app; [done|].
        destruct (lookup_lt_is_Some_2 t (p + n) ltac:(lia)) as [r Hr].
        assert (Hone : run t (p + n) 1 = [r]) by (unfold run; by rewrite (drop_S _ _ _ Hr); cbn; rewrite take_0).
        rewrite Hone. constructor; [|constructor]. by apply Hgr. }
  destruct (Hcon n Hlen) as [Heq HF]. rewrite Heq. apply (summary_concat hinted); [done| |].
  - rewrite <- Heq. apply (timeline_ok hinted). by apply timeline_run.
  - destruct n; [lia|done].
Qed.
End Groups.

(** ** The tiers *)

(** From groups of [g] entries on, every tier is grouped and the one above the last would have
    no group. *)
Fixpoint tiers_ok (l : list MipmapRecord) (g : nat) (ts : list (list MipmapRecord)) : Prop :=
  match ts with
  | [] => (length l < g)%nat
  | t :: ts => grouped l g t /\ tiers_ok l (g * FAN_OUT) ts
  end.

Lemma grouped_grow l x g t : (0 < g)%nat -> ((length l + 1) mod g <> 0)%nat ->
  grouped l g t -> grouped (l ++ [x]) g t.
Proof.
  intros Hg Hmod Hgr. pose proof Hgr as [Hlen Hsum]. split.
  - rewrite Hlen, length_app. cbn [length]. symmetry.
    pose proof (Nat.div_mod_eq (length l) g). pose proof (Nat.mod_upper_bound (length l) g ltac:(lia)).
    assert (length l mod g + 1 < g)%nat.
    { destruct (Nat.eq_dec (length l mod g + 1)%nat g) as [He|]; [|lia]. destruct Hmod.
      rewrite (Nat.div_mod_eq (length l) g), <- Nat.add_assoc, He.
      replace (g * (length l / g) + g)%nat with ((length l / g + 1) * g)%nat by lia. apply Nat.Div0.mod_mul. }
    symmetry. apply (Nat.div_unique _ _ _ (length l mod g + 1)%nat); lia.
  - intros i r Hi. rewrite run_app_l; [by apply Hsum|].
    apply (grouped_bound l g t i Hg Hgr). by apply lookup_lt_Some in Hi.
Qed.

Lemma tiers_grow l x ts : forall g, (0 < g)%nat -> ((length l + 1) mod g <> 0)%nat ->
  tiers_ok l g ts -> tiers_ok (l ++ [x]) g ts.
Proof.
  induction ts as [|t ts IH]; intros g Hg Hmod Hok; cbn [tiers_ok] in *.
  - rewrite length_app. cbn [length]. destruct (Nat.eq_dec (length l + 1)%nat g) as [He|]; [|lia].
    destruct Hmod. rewrite He. apply Nat.Div0.mod_same.
  - destruct Hok as [Hgr Hok]. split; [by apply grouped_grow|]. apply IH; [unfold FAN_OUT; lia| |done].
    intros H0. apply Hmod. apply Nat.Lcm0.mod_divide in H0 as [q Hq]. apply Nat.Lcm0.mod_divide.
    exists (q * FAN_OUT)%nat. lia.
Qed.

Lemma grouped_push l x g t r : (0 < g)%nat -> ((length l + 1) mod g = 0)%nat -> grouped l g t ->
  combine_summaries (run (l ++ [x]) (length l + 1 - g) g) = Some r -> grouped (l ++ [x]) g (t ++ [r]).
Proof.
  intros Hg Hmod Hgr Hr. pose proof Hgr as [Hlen Hsum].
  apply Nat.Lcm0.mod_divide in Hmod as [q Hq].
  assert (Hq0 : (0 < q)%nat) by (destruct q; lia).
  assert (Hdiv : (length l / g = q - 1)%nat).
  { symmetry. apply (Nat.div_unique _ _ _ (g - 1)%nat); [lia|]. nia. }
  split.
  - rewrite !length_app. cbn [length]. rewrite Hq, Nat.div_mul by lia. lia.
  - intros i r' Hi. apply lookup_snoc_Some in Hi as [[Hlt Hi]|[Heq ->]].
    + rewrite run_app_l; [by apply Hsum|]. by apply (grouped_bound l g t).
    + rewrite <- Hr. replace (i * g)%nat with (length l + 1 - g)%nat by nia. done.
Qed.

Section Push.
Context {F T : Type} `{LaneFoldLaws F T}.
Context (hinted : bool) (Hlane : lane_hints hinted).

Lemma push_record_ok l x ts : forall g r,
  (0 < g)%nat -> ((length l + 1) mod g = 0)%nat -> timeline hinted (l ++ [x]) ->
  tiers_ok l g ts -> combine_summaries (run (l ++ [x]) (length l + 1 - g) g) = Some r ->
  exists ts', push_record F T ts r = Some ts' /\ tiers_ok (l ++ [x]) g ts'.
Proof.
  induction ts as [|t ts IH]; intros g r Hg Hmod Ht Hok Hr; cbn [tiers_ok push_record] in *.
  - assert (Hgl : (length l + 1 = g)%nat).
    { apply Nat.Lcm0.mod_divide in Hmod as [q Hq]. destruct q as [|[|q]]; lia. }
    exists [[r]]. split; [done|]. cbn [tiers_ok]. rewrite length_app. cbn [length]. split; [|unfold FAN_OUT; lia].
    apply (grouped_push l x g [] r); [done|done| |done]. split; [|done]. rewrite Nat.div_small; [done|lia].
  - destruct Hok as [Hgr Hok]. pose proof (grouped_push _ _ _ _ _ Hg Hmod Hgr Hr) as Hgr'.
    set (t' := t ++ [r]) in *. pose proof Hgr' as [Hlen' _].
    assert (Hpos : (0 < length t')%nat) by (unfold t'; rewrite length_app; cbn; lia).
    apply Nat.Lcm0.mod_divide in Hmod as [q Hq].
    assert (Hq' : length t' = q) by (rewrite Hlen', length_app; cbn [length]; rewrite Hq; apply Nat.div_mul; lia).
    destruct (Nat.eqb_spec (length t' mod FAN_OUT) 0) as [Hm|Hm].
    + apply Nat.Lcm0.mod_divide in Hm as [p Hp]. assert (Hp0 : (0 < p)%nat) by (destruct p; lia).
      pose proof (grouped_timeline hinted _ _ _ Hg Ht Hgr') as Htt.
      assert (Hrun : drop (length t' - FAN_OUT) t' = run t' (length t' - FAN_OUT) FAN_OUT).
      { unfold run. rewrite take_ge; [done|]. rewrite length_drop. lia. }
      rewrite Hrun, (combine_summary hinted) by (done || by apply timeline_run).
      rewrite (grouped_run hinted (l ++ [x]) g); [|done|unfold FAN_OUT; lia|done|done|unfold FAN_OUT in *; lia].
      replace ((length t' - FAN_OUT) * g)%nat with (length l + 1 - g * FAN_OUT)%nat by (rewrite Hq'; nia).
      rewrite (Nat.mul_comm FAN_OUT g).
      destruct (run_summary hinted (l ++ [x]) (length l + 1 - g * FAN_OUT) (g * FAN_OUT) Ht) as (s & _ & _ & Hs & _).
      { unfold FAN_OUT. lia. }
      { rewrite length_app. cbn [length]. unfold FAN_OUT in *. nia. }
      rewrite Hs. cbn [mbind option_bind].
      destruct (IH (g * FAN_OUT)%nat s) as (ts' & -> & Hts'); [unfold FAN_OUT; lia| |done|done|done|].
      { apply Nat.Lcm0.mod_divide. exists p. nia. }
      cbn [mbind option_bind]. by exists (t' :: ts').
    + exists (t' :: ts). split; [done|]. split; [done|]. apply tiers_grow; [unfold FAN_OUT; lia| |done].
      intros Hz. apply Hm. apply Nat.Lcm0.mod_divide in Hz as [p Hp]. apply Nat.Lcm0.mod_divide. exists p. nia.
Qed.
End Push.

(** The index of the entries with leaves [l]. *)
Definition mipmap_ok (l : list MipmapRecord) (m : AppendOnlyMipmap) : Prop :=
  mipmap_len m = length l /\ exists ts, tiers m = l :: ts /\ tiers_ok l 1 (tiers m).

Lemma new_ok : mipmap_ok [] AppendOnlyMipmap_new.
Proof. split; [done|]. exists []. split; [done|]. cbn. split; [|unfold FAN_OUT; lia]. by split. Qed.

Lemma tiers_ok_lookup l ts : forall g k t, tiers_ok l g ts -> ts !! k = Some t ->
  grouped l (g * FAN_OUT ^ k) t /\ (ts !! S k = None -> (length l < g * FAN_OUT ^ k * FAN_OUT)%nat).
Proof.
  induction ts as [|t ts IH]; intros g k t' Hok Hk; [done|]. destruct Hok as [Hgr Hok]. destruct k as [|k].
  - injection Hk as <-. rewrite Nat.mul_1_r. split; [done|]. intros Hnone. by destruct ts.
  - destruct (IH (g * FAN_OUT)%nat k t' Hok Hk) as [H1 H2]. rewrite Nat.pow_succ_r', Nat.mul_assoc. split; [done|].
    exact H2.
Qed.

Lemma fan_pow_pos k : (0 < FAN_OUT ^ k)%nat.
Proof. apply Nat.neq_0_lt_0, Nat.pow_nonzero. done. Qed.

Lemma mipmap_tier l m k t : mipmap_ok l m -> tiers m !! k = Some t ->
  grouped l (FAN_OUT ^ k) t /\ (tiers m !! S k = None -> (length t < FAN_OUT)%nat).
Proof.
  intros (_ & ts & _ & Hok) Hk. destruct (tiers_ok_lookup _ _ _ _ _ Hok Hk) as [Hgr Htop].
  rewrite Nat.mul_1_l in *. split; [done|]. intros Hnone. destruct Hgr as [-> _].
  apply Nat.Div0.div_lt_upper_bound. by apply Htop.
Qed.

Section Extend.
Context {F T : Type} `{LaneFoldLaws F T}.
Context (hinted : bool) (Hlane : lane_hints hinted).

Lemma push_ok l m entry : timeline hinted (l ++ [leaf F entry]) -> mipmap_ok l m ->
  exists m', push F T m entry = Some m' /\ mipmap_ok (l ++ [leaf F entry]) m'.
Proof.
  intros Ht (Hlen & ts & Hts & Hok). unfold push.
  assert (Hleaf : combine_summaries (run (l ++ [leaf F entry]) (length l + 1 - 1) 1) = Some (leaf F entry)).
  { rewrite Nat.add_sub. unfold run. rewrite drop_app_length. cbn [take]. apply (summary_single hinted).
    pose proof (timeline_ok _ _ Ht) as Ho. apply Forall_app in Ho as [_ Ho]. by apply Forall_cons in Ho as [? _]. }
  destruct (push_record_ok hinted Hlane l (leaf F entry) (tiers m) 1 (leaf F entry)) as (ts' & Hp & Hok');
    [lia|apply Nat.mod_1_r|done|done|done|].
  rewrite Hp. cbn [mbind option_bind]. eexists. split; [done|]. split; [cbn; rewrite Hlen, length_app; cbn; lia|].
  cbn [tiers]. rewrite Hts in Hp. cbn [push_record] in Hp.
  destruct (Nat.eqb _ 0).
  - destruct (combine F T _); [|done]. cbn [mbind option_bind] in Hp.
    destruct (push_record F T ts _) as [ts''|]; [|done]. injection Hp as <-. by exists ts''.
  - injection Hp as <-. by exists ts.
Qed.

Lemma extend_ok entries : forall l m, timeline hinted (l ++ map (leaf F) entries) -> mipmap_ok l m ->
  exists m', extend F T m entries = Some m' /\ mipmap_ok (l ++ map (leaf F) entries) m'.
Proof.
  induction entries as [|entry entries IH]; intros l m Ht Hm; cbn [map extend] in *.
  - exists m. by rewrite app_nil_r.
  - rewrite cons_middle, app_assoc in Ht.
    destruct (push_ok l m entry (timeline_prefix _ _ _ Ht) Hm) as (m1 & -> & Hm1). cbn [mbind option_bind].
    destruct (IH _ _ Ht Hm1) as (m' & He & Hm'). exists m'. by rewrite cons_middle, app_assoc.
Qed.
End Extend.

(** ** Windows *)

Lemma partition_point_le {A} (p : A -> bool) l : (partition_point p l <= length l)%nat.
Proof. induction l as [|x l IH]; cbn; [lia|]. destruct (p x); lia. Qed.

Lemma partition_point_gt {A} (p : A -> bool) l i : (forall k x, (k <= i)%nat -> l !! k = Some x -> p x = true) ->
  (i < length l)%nat -> (i < partition_point p l)%nat.
Proof.
  revert i. induction l as [|x l IH]; intros i Hp Hi; [cbn in Hi; lia|]. cbn [partition_point].
  rewrite (Hp 0%nat x); [|lia|done]. destruct i as [|i]; [lia|]. cbn in Hi.
  assert (i < partition_point p l)%nat; [|lia]. apply IH; [|lia]. intros k y Hk Hy. apply (Hp (S k)); [lia|done].
Qed.

Lemma partition_point_true {A} (p : A -> bool) l i x :
  (i < partition_point p l)%nat -> l !! i = Some x -> p x = true.
Proof.
  revert i. induction l as [|y l IH]; intros i Hi Hx; [done|]. cbn [partition_point] in Hi.
  destruct (p y) eqn:Hy; [|lia]. destruct i as [|i]; [by injection Hx as <-|]. apply (IH i); [lia|done].
Qed.

Lemma window_range_bounds t s e : let '(first, last) := window_range t s e in (first <= last <= length t)%nat.
Proof.
  unfold window_range. set (first := partition_point _ t).
  pose proof (partition_point_le (fun r => record_start r <=? e) (drop first t)) as H.
  rewrite length_drop in H. pose proof (partition_point_le (fun r => record_end_ns r <? s) t). fold first in H0. lia.
Qed.

(** A record that meets the window is in the range. *)
Lemma window_range_meets hinted t s e i r :
  timeline hinted t -> t !! i = Some r -> s <= record_end_ns r -> record_start r <= e ->
  let '(first, last) := window_range t s e in (first <= i < last)%nat.
Proof.
  intros Ht Hi Hs He. unfold window_range. set (first := partition_point _ t).
  assert (Hfirst : (first <= i)%nat).
  { destruct (Nat.le_gt_cases first i) as [|Hlt]; [done|]. apply partition_point_true with (x := r) in Hlt; [|done].
    apply Z.ltb_lt in Hlt. lia. }
  split; [done|]. assert (i - first < partition_point (fun r => (record_start r <=? e)%Z) (drop first t))%nat; [|lia].
  apply partition_point_gt.
  - intros k x Hk Hx. rewrite lookup_drop in Hx. apply Z.leb_le.
    pose proof (timeline_order _ _ Ht (first + k) i x r ltac:(lia) Hx Hi). lia.
  - rewrite length_drop. apply lookup_lt_Some in Hi. lia.
Qed.

(** The records [rs] are the summaries of runs of [l], disjoint and in order, from [lo] on. *)
Fixpoint summarises (l : list MipmapRecord) (lo : nat) (runs : list (nat * nat)) (rs : list MipmapRecord) : Prop :=
  match runs, rs with
  | [], [] => True
  | (a, n) :: runs, r :: rs =>
      (lo <= a /\ 0 < n /\ a + n <= length l)%nat /\ combine_summaries (run l a n) = Some r /\
      summarises l (a + n) runs rs
  | _, _ => False
  end.

(** Record number [i] is in one of the runs. *)
Definition in_runs (runs : list (nat * nat)) (i : nat) : Prop :=
  exists a n, (a, n) ∈ runs /\ (a <= i < a + n)%nat.

Definition meets (s e : Z) (r : MipmapRecord) : Prop := s <= record_end_ns r /\ record_start r <= e.

Lemma summarises_le l runs rs lo lo' : (lo' <= lo)%nat -> summarises l lo runs rs -> summarises l lo' runs rs.
Proof. intros Hle. destruct runs as [|[a n] runs], rs as [|r rs]; try done. cbn. intuition lia. Qed.

Lemma summarises_app l runs1 rs1 runs2 rs2 : forall lo hi,
  summarises l lo runs1 rs1 -> Forall (fun '(a, n) => (a + n <= hi)%nat) runs1 -> (lo <= hi)%nat ->
  summarises l hi runs2 rs2 -> summarises l lo (runs1 ++ runs2) (rs1 ++ rs2).
Proof.
  revert rs1. induction runs1 as [|[a n] runs1 IH]; intros [|r rs1] lo hi H1 Hall Hle H2; try done.
  - by apply (summarises_le _ _ _ hi).
  - destruct H1 as (Hr & Hsum & H1). apply Forall_cons in Hall as [Ha Hall]. cbn [app summarises].
    split; [done|]. split; [done|]. by apply (IH _ _ hi).
Qed.

Lemma in_runs_app runs1 runs2 i : in_runs runs1 i \/ in_runs runs2 i -> in_runs (runs1 ++ runs2) i.
Proof. intros [(a & n & Hin & Hi)|(a & n & Hin & Hi)]; exists a, n; (split; [|done]); apply elem_of_app; auto. Qed.

(** The runs of the groups from number [p] on, [n] of them. *)
Definition group_runs (g p n : nat) : list (nat * nat) := map (fun i => (i * g, g)%nat) (seq p n).

Lemma group_runs_summarise l g t n : forall p, (0 < g)%nat -> grouped l g t -> (p + n <= length t)%nat ->
  summarises l (p * g) (group_runs g p n) (run t p n).
Proof.
  induction n as [|n IH]; intros p Hg Hgr Hlen.
  - unfold run. by rewrite take_0.
  - destruct (lookup_lt_is_Some_2 t p ltac:(lia)) as [r Hr].
    replace (S n) with (1 + n)%nat by lia. rewrite run_add.
    assert (Hone : run t p 1 = [r]) by (unfold run; by rewrite (drop_S _ _ _ Hr); cbn; rewrite take_0).
    rewrite Hone. cbn [app group_runs seq map summarises Nat.add]. split_and!; [lia|lia| |by apply Hgr|].
    + apply (grouped_bound l g t); [done|done|lia].
    + replace (p * g + g)%nat with ((p + 1) * g)%nat by lia. replace (S p) with (p + 1)%nat by lia.
      apply IH; [done|done|lia].
Qed.

Lemma group_runs_in g p n i : (0 < g)%nat -> (p <= i / g < p + n)%nat -> in_runs (group_runs g p n) i.
Proof.
  intros Hg Hi. exists (i / g * g)%nat, g. split.
  - unfold group_runs. apply (list_elem_of_fmap_2' (fun i => (i * g, g)%nat) (seq p n) (i / g)%nat); [|done]. apply elem_of_seq. lia.
  - pose proof (Nat.div_mod_eq i g). pose proof (Nat.mod_upper_bound i g ltac:(lia)). nia.
Qed.

Lemma group_runs_bound g p n hi : ((p + n) * g <= hi)%nat ->
  Forall (fun '(a, m) => (a + m <= hi)%nat) (group_runs g p n).
Proof.
  intros Hhi. apply Forall_forall. intros [a m] Hin. unfold group_runs in Hin.
  apply list_elem_of_fmap in Hin as (i & Heq & Hi). injection Heq as -> ->. apply elem_of_seq in Hi. nia.
Qed.

(** The group of a record that meets the window meets it. *)
Lemma group_record_meets hinted l g t i r s e : (0 < g)%nat -> timeline hinted l -> grouped l g t ->
  l !! i = Some r -> meets s e r -> (i / g < length t)%nat ->
  exists rj, t !! (i / g)%nat = Some rj /\ meets s e rj.
Proof.
  intros Hg Ht Hgr Hi [Hs He] Hlt. destruct (lookup_lt_is_Some_2 t (i / g)%nat Hlt) as [rj Hj].
  destruct (run_summary hinted l (i / g * g) g Ht Hg (grouped_bound _ _ _ _ Hg Hgr Hlt)) as (sj & x & y & Hsum & _ & Hx & Hy & Hstart & Hend).
  rewrite (proj2 Hgr _ _ Hj) in Hsum. injection Hsum as <-. exists rj. split; [done|].
  pose proof (Nat.div_mod_eq i g). pose proof (Nat.mod_upper_bound i g ltac:(lia)).
  pose proof (timeline_order _ _ Ht (i / g * g) i x r ltac:(nia) Hx Hi).
  pose proof (timeline_order _ _ Ht i (i / g * g + g - 1) r y ltac:(nia) Hi Hy). unfold meets. lia.
Qed.

Lemma group_meets hinted l g t i r s e : (0 < g)%nat -> timeline hinted l -> grouped l g t ->
  l !! i = Some r -> meets s e r -> (i / g < length t)%nat ->
  let '(first, last) := window_range t s e in (first <= i / g < last)%nat.
Proof.
  intros Hg Ht Hgr Hi Hm Hlt. destruct (group_record_meets hinted _ _ _ _ _ _ _ Hg Ht Hgr Hi Hm Hlt) as (rj & Hj & Hs & He).
  apply (window_range_meets hinted _ _ _ _ rj); [by apply (grouped_timeline hinted l g)|done..].
Qed.

(** The records of a tier around a range, padded by one on each side. *)
Definition padded (t : list MipmapRecord) (range : nat * nat) : list MipmapRecord :=
  run t (fst range - 1) (Nat.min (snd range + 1) (length t) - (fst range - 1)).

Lemma padded_answer hinted l g t s e : (0 < g)%nat -> timeline hinted l -> grouped l g t ->
  exists runs, summarises l 0 runs (padded t (window_range t s e)) /\
    Forall (fun '(a, n) => (a + n <= length t * g)%nat) runs /\
    (forall i r, l !! i = Some r -> meets s e r -> (i < length t * g)%nat -> in_runs runs i) /\
    (length (padded t (window_range t s e)) <= snd (window_range t s e) - fst (window_range t s e) + 2)%nat.
Proof.
  intros Hg Ht Hgr. pose proof (window_range_bounds t s e) as Hb.
  assert (Hmeet : forall i r, l !! i = Some r -> meets s e r -> (i < length t * g)%nat ->
    (fst (window_range t s e) <= i / g < snd (window_range t s e))%nat).
  { intros i r Hi Hm Hlt. pose proof (group_meets hinted l g t i r s e Hg Ht Hgr Hi Hm) as H.
    destruct (window_range t s e). apply H. apply Nat.Div0.div_lt_upper_bound. lia. }
  destruct (window_range t s e) as [first last]. unfold padded. cbn [fst snd] in *.
  set (a := (first - 1)%nat). set (n := (Nat.min (last + 1) (length t) - a)%nat).
  exists (group_runs g a n). split_and!.
  - apply (summarises_le _ _ _ (a * g)); [lia|]. apply group_runs_summarise; [done|done|lia].
  - apply group_runs_bound. apply Nat.mul_le_mono_r. lia.
  - intros i r Hi Hm Hlt. apply group_runs_in; [done|]. pose proof (Hmeet i r Hi Hm Hlt). lia.
  - rewrite run_length; lia.
Qed.

Section Sampled.
Context {F T : Type} `{LaneFoldLaws F T}.
Context (hinted : bool) (Hlane : lane_hints hinted).
Context (l : list MipmapRecord) (m : AppendOnlyMipmap) (Ht : timeline hinted l) (Hm : mipmap_ok l m).

Lemma tier_zero : tiers m !! 0%nat = Some l.
Proof. by destruct Hm as (_ & ts & -> & _). Qed.

(** What a tier answers, with the entries behind its last group. *)
Lemma tier_answer k t s e : tiers m !! k = Some t ->
  exists rs runs, append_uncovered_tail F T m k s e (padded t (window_range t s e)) = Some rs /\
    summarises l 0 runs rs /\ (forall i r, l !! i = Some r -> meets s e r -> in_runs runs i) /\
    (length rs <= snd (window_range t s e) - fst (window_range t s e) + 3)%nat.
Proof.
  intros Hk. destruct (mipmap_tier _ _ _ _ Hm Hk) as [Hgr _]. set (g := (FAN_OUT ^ k)%nat) in *.
  pose proof (fan_pow_pos k) as Hg. fold g in Hg.
  destruct (padded_answer hinted l g t s e Hg Ht Hgr) as (runs & Hsum & Hbound & Hin & Hlen).
  set (out := padded t (window_range t s e)) in *.
  assert (Hdone : (length l <= length t * g)%nat -> exists rs runs, Some out = Some rs /\ summarises l 0 runs rs /\
    (forall i r, l !! i = Some r -> meets s e r -> in_runs runs i) /\
    (length rs <= snd (window_range t s e) - fst (window_range t s e) + 3)%nat).
  { intros Hle. exists out, runs. split_and!; [done|done| |lia]. intros i r Hi Hmi. apply (Hin i r Hi Hmi).
    apply lookup_lt_Some in Hi. lia. }
  unfold append_uncovered_tail. destruct k as [|k].
  { apply Hdone. pose proof tier_zero as Hz. rewrite Hk in Hz. injection Hz as ->. cbn in g. lia. }
  rewrite Hk, tier_zero. cbn [mbind option_bind]. fold g. rewrite (proj1 Hm).
  destruct (Nat.leb_spec (length l) (length t * g)) as [Hle|Hlt]; [by apply Hdone|]. clear Hdone.
  set (c := (length t * g)%nat) in *. pose proof (window_range_bounds (drop c l) s e) as Hb.
  assert (Htail : forall i r, l !! i = Some r -> meets s e r -> (c <= i)%nat ->
    (fst (window_range (drop c l) s e) <= i - c < snd (window_range (drop c l) s e))%nat).
  { intros i r Hi [Hs He] Hci.
    pose proof (window_range_meets hinted (drop c l) s e (i - c) r (timeline_drop hinted l c Ht)) as Hr.
    rewrite lookup_drop in Hr. replace (c + (i - c))%nat with i in Hr by lia. specialize (Hr Hi Hs He).
    by destruct (window_range (drop c l) s e). }
  destruct (window_range (drop c l) s e) as [first last]. cbn [fst snd] in Htail. rewrite length_drop in Hb.
  destruct (Nat.ltb_spec first last) as [Hfl|Hfl].
  - assert (Hrun : take (last - first) (drop first (drop c l)) = run l (c + first) (last - first)) by (unfold run; by rewrite drop_drop).
    rewrite Hrun, (combine_summary hinted) by (done || by apply timeline_run).
    destruct (run_summary hinted l (c + first) (last - first) Ht) as (tail & _ & _ & Hs & _); [lia|lia|].
    rewrite Hs. cbn [mbind option_bind]. exists (out ++ [tail]), (runs ++ [(c + first, last - first)%nat]). split_and!; [done|..].
    + apply (summarises_app _ _ _ _ _ 0 c); [done|done|lia|]. cbn [summarises]. split_and!; (done || lia).
    + intros i r Hi Hmi. apply in_runs_app. destruct (Nat.lt_ge_cases i c) as [Hic|Hic]; [left; by apply (Hin i r)|].
      right. exists (c + first)%nat, (last - first)%nat. split; [by apply list_elem_of_singleton|].
      pose proof (Htail i r Hi Hmi Hic). lia.
    + rewrite length_app. cbn [length]. lia.
  - exists out, runs. split_and!; [done|done| |lia]. intros i r Hi Hmi. apply (Hin i r Hi Hmi).
    destruct (Nat.lt_ge_cases i c) as [|Hic]; [done|]. pose proof (Htail i r Hi Hmi Hic). lia.
Qed.

Lemma sample_tiers_ok s e budget below : (0 < below <= length (tiers m))%nat ->
  exists rs runs, sample_tiers F T m s e budget below = Some rs /\
    summarises l 0 runs rs /\ (forall i r, l !! i = Some r -> meets s e r -> in_runs runs i).
Proof.
  induction below as [|k IH]; intros Hb; [lia|]. cbn [sample_tiers].
  destruct (lookup_lt_is_Some_2 (tiers m) k ltac:(lia)) as [t Hk]. rewrite Hk. cbn [mbind option_bind].
  destruct (tier_answer k t s e Hk) as (rs & runs & Hrs & Hsum & Hin & _). unfold padded, run in Hrs.
  destruct (window_range t s e) as [first last]. cbn [fst snd] in Hrs.
  destruct (_ || _) eqn:Hc; [by exists rs, runs|]. apply orb_false_iff in Hc as [_ Hc%Nat.eqb_neq].
  apply IH. lia.
Qed.

(** A budget of 63 records is enough for the coarsest tier. *)
Lemma sample_tiers_coarsest s e budget : 63 <= budget ->
  exists t, tiers m !! (length (tiers m) - 1)%nat = Some t /\ (length t < FAN_OUT)%nat /\
  sample_tiers F T m s e budget (length (tiers m)) =
    append_uncovered_tail F T m (length (tiers m) - 1) s e (padded t (window_range t s e)).
Proof.
  intros Hb. destruct Hm as (_ & ts & Hts & _). assert (Hlen : (0 < length (tiers m))%nat) by (rewrite Hts; cbn; lia).
  destruct (length (tiers m)) as [|k] eqn:Hk; [lia|]. cbn [sample_tiers]. replace (S k - 1)%nat with k by lia.
  destruct (lookup_lt_is_Some_2 (tiers m) k ltac:(lia)) as [t Ht']. rewrite Ht'. cbn [mbind option_bind].
  exists t. split; [done|]. destruct (mipmap_tier _ _ _ _ Hm Ht') as [_ Htop].
  assert (Hlt : (length t < FAN_OUT)%nat) by (apply Htop, lookup_ge_None; lia). split; [done|].
  pose proof (window_range_bounds t s e) as Hr. unfold padded, run.
  destruct (window_range t s e) as [first last]. cbn [fst snd].
  rewrite (proj2 (Z.leb_le _ _)) by (unfold FAN_OUT in *; lia). done.
Qed.
End Sampled.

(** ** The lanes of the program *)

Lemma combine_last hinted l : timeline hinted l ->
  max_end l = record_end_ns <$> last l.
Proof.
  intros Ht. destruct (last l) as [x|] eqn:Hl; [|by apply last_None in Hl as ->].
  apply last_Some in Hl as [l' ->]. by apply (timeline_max_end hinted).
Qed.

Lemma timeline_hints hinted l r : timeline hinted l -> r ∈ l ->
  match level_hint r with Some _ => hinted = true | None => hinted = false end.
Proof. intros [Hok _] Hr. rewrite Forall_forall in Hok. by destruct (Hok _ Hr). Qed.

#[export] Instance summary_laws : LaneFoldLaws SummaryRecordFold MipmapRecord.
Proof. by refine {| lane_hints := fun _ => True |}. Defined.

#[export] Instance digital_laws : LaneFoldLaws DigitalFold Sample.
Proof.
  refine {| lane_hints := fun _ => True |}. intros hinted l _ Ht. cbn [combine digital_lane].
  unfold digital_combine, combine_summaries. rewrite (combine_last _ _ Ht). by destruct (head l), (last l).
Defined.

Lemma combine_points_summary l : timeline false l -> combine_points l = combine_summaries l.
Proof.
  intros Ht. unfold combine_points, combine_summaries. rewrite (combine_last _ _ Ht).
  destruct (head l) as [x|] eqn:Hx; [|done]. destruct (last l); [|done]. cbn.
  assert (Hn : level_hint x = None).
  { pose proof (timeline_hints _ _ x Ht (head_Some_elem_of _ _ Hx)) as Hh. by destruct (level_hint x). }
  by rewrite Hn.
Qed.

#[export] Instance number_laws : LaneFoldLaws NumberFold NumberSample.
Proof. refine {| lane_hints := fun hinted => hinted = false |}. intros ? l ->. apply combine_points_summary. Defined.

#[export] Instance text_laws : LaneFoldLaws TextFold TextSample.
Proof. refine {| lane_hints := fun hinted => hinted = false |}. intros ? l ->. apply combine_points_summary. Defined.

#[export] Instance marker_laws : LaneFoldLaws MarkerFold Z.
Proof. refine {| lane_hints := fun hinted => hinted = false |}. intros ? l ->. apply combine_points_summary. Defined.

#[export] Instance annotation_laws : LaneFoldLaws AnnotationFold Annotation.
Proof.
  refine {| lane_hints := fun hinted => hinted = false |}. intros ? l -> Ht. cbn [combine annotation_lane].
  rewrite <- combine_points_summary by done. unfold annotation_combine, combine_points.
  rewrite (combine_last _ _ Ht). by destruct (head l), (last l).
Defined.
