(* ===== verification/DerivedIndexProperties.v ===== *)
(** The contract of the append-only and of the chunked index over a lane's entries. *)

From S2P Require Import Prelude Events DerivedIndex DerivedIndexProofs.

(** ** The chunked index *)

Lemma summary_any hinted : lane_hints (F := SummaryRecordFold) (T := MipmapRecord) hinted.
Proof. exact I. Qed.

Lemma chunk_pos : (0 < CHUNK_SIZE)%nat.
Proof. apply Nat.ltb_lt. vm_compute. reflexivity. Qed.

#[local] Opaque CHUNK_SIZE.

(** The runs of [g] times as many records. *)
Definition scale_runs (g : nat) (runs : list (nat * nat)) : list (nat * nat) :=
  map (fun '(a, n) => (a * g, n * g)%nat) runs.

Definition shift_runs (c : nat) (runs : list (nat * nat)) : list (nat * nat) :=
  map (fun '(a, n) => (c + a, n)%nat) runs.

Lemma summarises_scale hinted l g t runs : forall rs lo, (0 < g)%nat -> timeline hinted l -> grouped l g t ->
  summarises t lo runs rs -> summarises l (lo * g) (scale_runs g runs) rs.
Proof.
  induction runs as [|[a n] runs IH]; intros [|r rs] lo Hg Ht Hgr Hs; try done.
  destruct Hs as ((Ha & Hn & Hlen) & Hsum & Hs). cbn [scale_runs map summarises].
  pose proof (grouped_bound l g t (a + n - 1) Hg Hgr ltac:(lia)). split_and!; [nia|nia|nia| |].
  - by rewrite <- (grouped_run hinted l g t).
  - replace (a * g + n * g)%nat with ((a + n) * g)%nat by lia. by apply IH.
Qed.

Lemma summarises_shift l c runs : forall rs lo,
  summarises (drop c l) lo runs rs -> summarises l (c + lo) (shift_runs c runs) rs.
Proof.
  induction runs as [|[a n] runs IH]; intros [|r rs] lo Hs; try done.
  destruct Hs as ((Ha & Hn & Hlen) & Hsum & Hs). rewrite length_drop in Hlen. cbn [shift_runs map summarises].
  split_and!; [lia|lia|lia| |].
  - unfold run in *. by rewrite drop_drop in Hsum.
  - rewrite <- Nat.add_assoc. by apply IH.
Qed.

Lemma summarises_bound l runs : forall rs lo,
  summarises l lo runs rs -> Forall (fun '(a, n) => (a + n <= length l)%nat) runs.
Proof.
  induction runs as [|[a n] runs IH]; intros [|r rs] lo Hs; try done.
  destruct Hs as ((_ & _ & Hlen) & _ & Hs). constructor; [done|]. by apply (IH rs (a + n)%nat).
Qed.

Lemma in_runs_scale g runs i : (0 < g)%nat -> in_runs runs (i / g) -> in_runs (scale_runs g runs) i.
Proof.
  intros Hg (a & n & Hin & Hi). exists (a * g)%nat, (n * g)%nat. split.
  - by apply (list_elem_of_fmap_2' (fun '(a, n) => (a * g, n * g)%nat) runs (a, n)).
  - pose proof (Nat.div_mod_eq i g). pose proof (Nat.mod_upper_bound i g ltac:(lia)). nia.
Qed.

Lemma in_runs_shift c runs i : (c <= i)%nat -> in_runs runs (i - c) -> in_runs (shift_runs c runs) i.
Proof.
  intros Hc (a & n & Hin & Hi). exists (c + a)%nat, n. split; [|lia].
  by apply (list_elem_of_fmap_2' (fun '(a, n) => (c + a, n)%nat) runs (a, n)).
Qed.

(** The chunked index of the entries with leaves [l]: completed chunks and an active rest. *)
Definition chunked_ok (l : list MipmapRecord) (c : ChunkedMipmap) : Prop :=
  chunked_len c = length l /\ exists chunks, grouped l CHUNK_SIZE chunks /\ mipmap_ok chunks (completed c) /\
    active c = drop (length chunks * CHUNK_SIZE) l /\
    (length chunks * CHUNK_SIZE <= length l < length chunks * CHUNK_SIZE + CHUNK_SIZE)%nat.

Lemma chunked_new_ok : chunked_ok [] ChunkedMipmap_new.
Proof.
  pose proof chunk_pos. split; [done|]. exists []. split_and!; [|apply new_ok|done|cbn; lia|cbn; lia].
  split; [|done]. cbn. apply (eq_sym (Nat.Div0.div_0_l _)).
Qed.

Section Chunks.
Context {F T : Type} `{LaneFoldLaws F T}.
Context (hinted : bool) (Hlane : lane_hints hinted).

Lemma chunked_push_ok l c entry : timeline hinted (l ++ [leaf F entry]) -> chunked_ok l c ->
  exists c', chunked_push F T c entry = Some c' /\ chunked_ok (l ++ [leaf F entry]) c'.
Proof.
  intros Ht (Hlen & chunks & Hgr & Hm & Hact & Hb). pose proof chunk_pos as Hpos. unfold chunked_push.
  set (l' := l ++ [leaf F entry]) in *. set (q := (length chunks * CHUNK_SIZE)%nat) in *.
  assert (Hl' : length l' = S (length l)) by (unfold l'; rewrite length_app; cbn; lia).
  assert (Hact' : active c ++ [leaf F entry] = drop q l') by (rewrite Hact; unfold l'; by rewrite drop_app_le by lia).
  rewrite Hact', length_drop, Hl'. destruct (Nat.eqb_spec (S (length l) - q) CHUNK_SIZE) as [Heq|Hne].
  - assert (Hmod : ((length l + 1) mod CHUNK_SIZE = 0)%nat).
    { apply Nat.Lcm0.mod_divide. exists (S (length chunks)). unfold q in *. lia. }
    assert (Hrun : drop q l' = run l' (length l + 1 - CHUNK_SIZE) CHUNK_SIZE).
    { unfold run. rewrite take_ge by (rewrite length_drop; lia). f_equal. lia. }
    destruct (run_summary hinted l' (length l + 1 - CHUNK_SIZE) CHUNK_SIZE Ht Hpos) as (r & _ & _ & Hs & _); [lia|].
    rewrite Hrun, (combine_summary hinted) by (done || by apply timeline_run). rewrite Hs. cbn [mbind option_bind].
    pose proof (grouped_push _ _ _ _ _ Hpos Hmod Hgr Hs) as Hgr'.
    destruct (push_ok hinted (summary_any hinted) chunks (completed c) r) as (m' & Hp & Hm').
    { by apply (grouped_timeline hinted l' CHUNK_SIZE). }
    { done. }
    cbn [leaf summary_lane] in *. rewrite Hp. cbn [mbind option_bind]. eexists. split; [done|].
    split; [cbn; lia|]. exists (chunks ++ [r]). cbn [completed active]. rewrite length_app. cbn [length].
    split_and!; [done|done|symmetry; apply drop_ge; lia|lia|lia].
  - eexists. split; [done|]. split; [cbn; lia|]. exists chunks. cbn [completed active].
    split_and!; [|done|done|lia|lia]. apply grouped_grow; [done| |done]. intros Hz.
    apply Nat.Lcm0.mod_divide in Hz as [p Hp]. unfold q in *. assert (length chunks < p <= S (length chunks))%nat by (split; nia). assert (p = S (length chunks)) as -> by lia. lia.
Qed.

Lemma chunked_extend_ok entries : forall l c, timeline hinted (l ++ map (leaf F) entries) -> chunked_ok l c ->
  exists c', chunked_extend F T c entries = Some c' /\ chunked_ok (l ++ map (leaf F) entries) c'.
Proof.
  induction entries as [|entry entries IH]; intros l c Ht Hc; cbn [map chunked_extend] in *.
  - exists c. by rewrite app_nil_r.
  - rewrite cons_middle, app_assoc in Ht.
    destruct (chunked_push_ok l c entry (timeline_prefix _ _ _ Ht) Hc) as (c1 & -> & Hc1). cbn [mbind option_bind].
    destruct (IH _ _ Ht Hc1) as (c' & He & Hc'). exists c'. by rewrite cons_middle, app_assoc.
Qed.

(** What the completed chunks answer. *)
Lemma completed_answer l chunks m s e target : timeline hinted l -> grouped l CHUNK_SIZE chunks -> mipmap_ok chunks m ->
  exists rs runs, sampled_window SummaryRecordFold MipmapRecord m s e target = Some rs /\
    summarises l 0 runs rs /\ Forall (fun '(a, n) => (a + n <= length chunks * CHUNK_SIZE)%nat) runs /\
    (forall i r, l !! i = Some r -> meets s e r -> (i < length chunks * CHUNK_SIZE)%nat -> in_runs runs i).
Proof.
  intros Ht Hgr Hm. pose proof chunk_pos as Hpos. pose proof (grouped_timeline hinted _ _ _ Hpos Ht Hgr) as Htc.
  destruct (sample_tiers_ok hinted (summary_any hinted) chunks m Htc Hm s e (point_budget target) (length (tiers m)))
    as (rs & runs & Hrs & Hsum & Hin).
  { destruct Hm as (_ & ts & -> & _). cbn. lia. }
  exists rs, (scale_runs CHUNK_SIZE runs). split; [done|]. split; [|split].
  - apply (summarises_scale hinted l CHUNK_SIZE chunks runs rs 0); done.
  - apply summarises_bound in Hsum. apply Forall_forall. intros [a n] Hx.
    apply list_elem_of_fmap in Hx as ([a' n'] & Heq & Hx). injection Heq as -> ->.
    rewrite Forall_forall in Hsum. pose proof (Hsum _ Hx) as Hle. cbn in Hle. nia.
  - intros i r Hi Hmi Hlt. apply in_runs_scale; [done|].
    destruct (group_record_meets hinted l CHUNK_SIZE chunks i r s e) as (rj & Hj & Hmj); try done.
    { apply Nat.Div0.div_lt_upper_bound. lia. }
    by apply (Hin _ rj).
Qed.

(** What the active chunk adds: its padded records, or one for all of them. *)
Lemma active_answer l q s e : timeline hinted l -> (q < length l)%nat ->
  let out := padded (drop q l) (window_range (drop q l) s e) in
  exists runs, summarises l q runs out /\
    (forall i r, l !! i = Some r -> meets s e r -> (q <= i)%nat -> in_runs runs i) /\
    exists r, combine F T out = Some r /\
      exists a n, summarises l q [(a, n)] [r] /\
      (forall i r, l !! i = Some r -> meets s e r -> (q <= i)%nat -> in_runs [(a, n)] i).
Proof.
  intros Ht Hq out. pose proof (timeline_drop hinted l q Ht) as Htd.
  destruct (padded_answer hinted (drop q l) 1 (drop q l) s e) as (runs & Hsum & _ & Hin & _);
    [lia|done|by apply (grouped_self hinted)|].
  exists (shift_runs q runs). split; [|split].
  - pose proof (summarises_shift l q runs out 0 Hsum) as Hs. by rewrite Nat.add_0_r in Hs.
  - intros i r Hi Hmi Hqi. apply in_runs_shift; [done|]. apply (Hin _ r); [|done|].
    + rewrite lookup_drop. rewrite <- Hi. f_equal. lia.
    + apply lookup_lt_Some in Hi. rewrite length_drop. lia.
  - pose proof (window_range_bounds (drop q l) s e) as Hb. rewrite length_drop in Hb.
    assert (Hmeets : forall i r, l !! i = Some r -> meets s e r -> (q <= i)%nat ->
      (fst (window_range (drop q l) s e) <= i - q < snd (window_range (drop q l) s e))%nat).
    { intros i r Hi [Hs He] Hqi. pose proof (window_range_meets hinted (drop q l) s e (i - q) r Htd) as Hr.
      rewrite lookup_drop in Hr. replace (q + (i - q))%nat with i in Hr by lia. specialize (Hr Hi Hs He).
      by destruct (window_range (drop q l) s e). }
    unfold out, padded. destruct (window_range (drop q l) s e) as [first last]. cbn [fst snd] in *. rewrite length_drop.
    set (a := (first - 1)%nat). set (n := (Nat.min (last + 1) (length l - q) - a)%nat).
    assert (Hrun : run (drop q l) a n = run l (q + a) n) by (unfold run; by rewrite drop_drop).
    destruct (run_summary hinted l (q + a) n Ht) as (r & _ & _ & Hs & _); [lia|lia|].
    exists r. rewrite Hrun, (combine_summary hinted) by (done || by apply timeline_run). split; [done|].
    exists (q + a)%nat, n. split; [cbn; split_and!; (done || lia)|].
    intros i r' Hi Hmi Hqi. exists (q + a)%nat, n. split; [by apply list_elem_of_singleton|].
    pose proof (Hmeets i r' Hi Hmi Hqi). lia.
Qed.

Lemma chunked_window_ok l c s e target : timeline hinted l -> chunked_ok l c ->
  exists rs runs, chunked_sampled_window F T c s e target = Some rs /\
    summarises l 0 runs rs /\ (forall i r, l !! i = Some r -> meets s e r -> in_runs runs i).
Proof.
  intros Ht (_ & chunks & Hgr & Hm & Hact & Hb).
  destruct (completed_answer l chunks (completed c) s e target Ht Hgr Hm) as (rs & runs & Hrs & Hsum & Hall & Hin).
  unfold chunked_sampled_window. rewrite Hrs. cbn [mbind option_bind]. rewrite Hact.
  set (q := (length chunks * CHUNK_SIZE)%nat) in *.
  assert (Hsplit : forall runs', (forall i r, l !! i = Some r -> meets s e r -> (q <= i)%nat -> in_runs runs' i) ->
    forall i r, l !! i = Some r -> meets s e r -> in_runs (runs ++ runs') i).
  { intros runs' Hr' i r Hi Hmi. apply in_runs_app. destruct (Nat.lt_ge_cases i q); [left; by apply (Hin i r)|right].
    by apply (Hr' i r). }
  destruct (Nat.eq_dec q (length l)) as [Heq|Hne].
  { assert (Hnil : drop q l = []) by (apply drop_ge; lia). rewrite Hnil. cbn [window_range].
    exists rs, (runs ++ []). split; [done|]. split; [by rewrite app_nil_r|]. apply Hsplit.
    intros i r Hi _ Hqi. apply lookup_lt_Some in Hi. lia. }
  destruct (active_answer l q s e Ht ltac:(lia)) as (runs' & Hsum' & Hin' & r & Hr & a & n & Hsum1 & Hin1).
  unfold padded, run in Hsum', Hr. destruct (window_range (drop q l) s e) as [first last]. cbn [fst snd] in *.
  set (out := take _ _) in *. destruct (drop q l) as [|x rest] eqn:Hd.
  { apply (f_equal length) in Hd. rewrite length_drop in Hd. cbn in Hd. lia. }
  destruct (_ <=? _).
  - exists (rs ++ out), (runs ++ runs'). split; [done|]. split; [|by apply Hsplit].
    apply (summarises_app _ _ _ _ _ 0 q); [done|done|lia|done].
  - rewrite Hr. cbn [mbind option_bind]. exists (rs ++ [r]), (runs ++ [(a, n)]). split; [done|]. split; [|by apply Hsplit].
    apply (summarises_app _ _ _ _ _ 0 q); [done|done|lia|done].
Qed.
End Chunks.

(** ** The properties *)

(** The markers at 0, 1, ... and their records. *)
Definition markers (n : nat) : list Z := map Z.of_nat (seq 0 n).

Lemma markers_timeline n : timeline false (map (leaf MarkerFold) (markers n)).
Proof.
  split.
  - apply Forall_forall. intros r Hr. unfold markers in Hr. rewrite List.map_map in Hr.
    apply list_elem_of_fmap in Hr as (i & -> & _). split; [cbn; ints|done].
  - intros i j a b Hij Ha Hb. unfold markers in *. rewrite List.map_map in *.
    apply list_lookup_fmap_Some in Ha as (x & -> & Hx). apply list_lookup_fmap_Some in Hb as (y & -> & Hy).
    apply lookup_seq in Hx as [-> _]. apply lookup_seq in Hy as [-> _]. cbn. lia.
Qed.

(** C29. Appending entries in the order of their times never panics. Tier 0 then holds the entries'
    own records, tier [k] one record for each complete group of [64 ^ k] entries, which is what the
    lane's fold makes of the group's own records at once, and the last tier fewer than 64. *)
Theorem mipmap_tiers F T `{LaneFoldLaws F T} hinted entries :
  lane_hints hinted -> timeline hinted (map (leaf F) entries) ->
  exists m, extend F T AppendOnlyMipmap_new entries = Some m /\ mipmap_len m = length entries /\
    tiers m !! 0%nat = Some (map (leaf F) entries) /\
    forall k t, tiers m !! k = Some t ->
      length t = (length entries / FAN_OUT ^ k)%nat /\
      (forall i r, t !! i = Some r ->
        combine F T (run (map (leaf F) entries) (i * FAN_OUT ^ k) (FAN_OUT ^ k)) = Some r) /\
      (tiers m !! S k = None -> (length t < FAN_OUT)%nat).
Proof.
  intros Hlane Ht. destruct (extend_ok hinted Hlane entries [] _ Ht new_ok) as (m & He & Hm). cbn [app] in Hm.
  exists m. split; [done|]. split; [by rewrite (proj1 Hm), length_map|]. split; [exact (tier_zero _ _ Hm)|].
  intros k t Hk. destruct (mipmap_tier _ _ _ _ Hm Hk) as [[Hlen Hsum] Htop]. rewrite length_map in Hlen.
  split; [done|]. split; [|done]. intros i r Hi.
  rewrite (combine_summary hinted) by (done || by apply timeline_run). by apply Hsum.
Qed.

Definition sample_mipmap (n : nat) : AppendOnlyMipmap :=
  default AppendOnlyMipmap_new (extend MarkerFold Z AppendOnlyMipmap_new (markers n)).

Lemma mipmap_tiers_witness :
  exists m, extend MarkerFold Z AppendOnlyMipmap_new (markers 130) = Some m /\ mipmap_len m = length (markers 130) /\
    tiers m !! 0%nat = Some (map (leaf MarkerFold) (markers 130)) /\
    forall k t, tiers m !! k = Some t ->
      length t = (length (markers 130) / FAN_OUT ^ k)%nat /\
      (forall i r, t !! i = Some r ->
        combine MarkerFold Z (run (map (leaf MarkerFold) (markers 130)) (i * FAN_OUT ^ k) (FAN_OUT ^ k)) = Some r) /\
      (tiers m !! S k = None -> (length t < FAN_OUT)%nat).
Proof. apply (mipmap_tiers MarkerFold Z false (markers 130)); [reflexivity|apply markers_timeline]. Defined.

(** A window query of the index never panics.  Its answer consists of the summaries of disjoint
    runs of entries in the order of time, every entry that meets the window is in one of the runs,
    and so no entry is lost, repeated or counted twice, the most recent ones included. *)
Theorem sampled_window_covers F T `{LaneFoldLaws F T} hinted entries s e target_points :
  lane_hints hinted -> timeline hinted (map (leaf F) entries) ->
  exists m rs runs, extend F T AppendOnlyMipmap_new entries = Some m /\
    sampled_window F T m s e target_points = Some rs /\
    summarises (map (leaf F) entries) 0 runs rs /\
    forall i r, map (leaf F) entries !! i = Some r -> meets s e r -> in_runs runs i.
Proof.
  intros Hlane Ht. destruct (extend_ok hinted Hlane entries [] _ Ht new_ok) as (m & He & Hm). cbn [app] in Hm.
  destruct (sample_tiers_ok hinted Hlane _ m Ht Hm s e (point_budget target_points) (length (tiers m)))
    as (rs & runs & Hrs & Hsum & Hin).
  { destruct Hm as (_ & ts & -> & _). cbn. lia. }
  by exists m, rs, runs.
Qed.

Lemma sampled_window_covers_witness :
  exists m rs runs, extend MarkerFold Z AppendOnlyMipmap_new (markers 130) = Some m /\
    sampled_window MarkerFold Z m 50 129 1 = Some rs /\
    summarises (map (leaf MarkerFold) (markers 130)) 0 runs rs /\
    forall i r, map (leaf MarkerFold) (markers 130) !! i = Some r -> meets 50 129 r -> in_runs runs i.
Proof.
  apply (sampled_window_covers MarkerFold Z false (markers 130) 50 129 1); [reflexivity|apply markers_timeline].
Defined.

(** From 16 target points on, the answer to a window query has at most 66 records and does not
    depend on the number of points: it always comes from the last tier, which holds fewer than 64
    records and so fits every such budget. *)
Theorem sampled_window_resolution F T `{LaneFoldLaws F T} hinted entries s e target_points target_points' :
  lane_hints hinted -> timeline hinted (map (leaf F) entries) -> 16 <= target_points -> 16 <= target_points' ->
  exists m rs, extend F T AppendOnlyMipmap_new entries = Some m /\ (length rs <= 66)%nat /\
    sampled_window F T m s e target_points = Some rs /\ sampled_window F T m s e target_points' = Some rs.
Proof.
  intros Hlane Ht H1 H2. destruct (extend_ok hinted Hlane entries [] _ Ht new_ok) as (m & He & Hm). cbn [app] in Hm.
  assert (Hb : forall n, 16 <= n -> 63 <= point_budget n).
  { intros n Hn. unfold point_budget, saturating_mul64. ints. }
  destruct (sample_tiers_coarsest (F := F) (T := T) _ m Hm s e _ (Hb _ H1)) as (t & Hk & Hlt & Heq1).
  destruct (sample_tiers_coarsest (F := F) (T := T) _ m Hm s e _ (Hb _ H2)) as (t' & Hk' & _ & Heq2).
  rewrite Hk in Hk'. injection Hk' as <-.
  destruct (tier_answer hinted Hlane _ m Ht Hm _ t s e Hk) as (rs & _ & Hrs & _ & _ & Hlen).
  exists m, rs. unfold sampled_window. rewrite Heq1, Heq2, Hrs. split_and!; try done.
  pose proof (window_range_bounds t s e) as Hr.
  destruct (window_range t s e) as [first last]. cbn [fst snd] in Hlen. unfold FAN_OUT in Hlt. lia.
Qed.

(** 200 markers, a window over all of them: four records, however many points are asked for. *)
Lemma sampled_window_resolution_witness :
  (exists m rs, extend MarkerFold Z AppendOnlyMipmap_new (markers 200) = Some m /\ (length rs <= 66)%nat /\
    sampled_window MarkerFold Z m 0 199 16 = Some rs /\ sampled_window MarkerFold Z m 0 199 1000 = Some rs) /\
  length <$> sampled_window MarkerFold Z (sample_mipmap 200) 0 199 1000 = Some 4%nat.
Proof.
  split; [|vm_compute; reflexivity].
  apply (sampled_window_resolution MarkerFold Z false (markers 200) 0 199 16 1000);
    [reflexivity|apply markers_timeline|lia|lia].
Defined.

(** C30. The chunked index promises the same: appending and queries never panic, and an answer
    consists of summaries of disjoint runs of entries that hold every entry of the window, across
    the completed chunks of 4096 entries and the active one. *)
Theorem chunked_window_covers F T `{LaneFoldLaws F T} hinted entries s e target_points :
  lane_hints hinted -> timeline hinted (map (leaf F) entries) ->
  exists c rs runs, chunked_extend F T ChunkedMipmap_new entries = Some c /\ chunked_len c = length entries /\
    chunked_sampled_window F T c s e target_points = Some rs /\
    summarises (map (leaf F) entries) 0 runs rs /\
    forall i r, map (leaf F) entries !! i = Some r -> meets s e r -> in_runs runs i.
Proof.
  intros Hlane Ht.
  destruct (chunked_extend_ok hinted Hlane entries [] _ Ht chunked_new_ok) as (c & He & Hc). cbn [app] in Hc.
  destruct (chunked_window_ok hinted Hlane _ c s e target_points Ht Hc) as (rs & runs & Hrs & Hsum & Hin).
  exists c, rs, runs. split_and!; try done. by rewrite (proj1 Hc), length_map.
Qed.

Lemma chunked_window_covers_witness :
  exists c rs runs, chunked_extend MarkerFold Z ChunkedMipmap_new (markers 4100) = Some c /\
    chunked_len c = length (markers 4100) /\
    chunked_sampled_window MarkerFold Z c 0 4099 1 = Some rs /\
    summarises (map (leaf MarkerFold) (markers 4100)) 0 runs rs /\
    forall i r, map (leaf MarkerFold) (markers 4100) !! i = Some r -> meets 0 4099 r -> in_runs runs i.
Proof.
  apply (chunked_window_covers MarkerFold Z false (markers 4100) 0 4099 1); [reflexivity|apply markers_timeline].
Defined.
