(* ===== verification/WordPresence.v ===== *)
(** Presence summaries of stored words: the occupied runs of a block, and the index over the runs
    of all blocks that answers overview queries. *)

From S2P Require Import Prelude Events.

(** ** Sorting and slices *)

Section Sort.
Context {A : Type} (le : A -> A -> bool).

Fixpoint insert_by (x : A) (l : list A) : list A :=
  match l with
  | [] => [x]
  | y :: l => if le x y then x :: y :: l else y :: insert_by x l
  end.

Fixpoint sort_by (l : list A) : list A :=
  match l with
  | [] => []
  | x :: l => insert_by x (sort_by l)
  end.
End Sort.

(** [slice::partition_point] on a slice that the predicate splits. *)
Fixpoint leading {A} (p : A -> bool) (l : list A) : nat :=
  match l with
  | [] => O
  | x :: l => if p x then S (leading p l) else O
  end.

#[export] Instance Word_inhabited : Inhabited Word := populate (mkWord 0 None 0 0).

(** ** Runs of a block *)

(** [crates/signal_derived/src/derived_word_store/presence.rs:7-7] FAN_OUT *)
Definition FAN_OUT : nat := 64.

(** [crates/signal_derived/src/derived_word_store/presence.rs:8-8] MAX_PRESENCE_RUNS_PER_BLOCK *)
Definition MAX_PRESENCE_RUNS_PER_BLOCK : nat := 256.

(** [crates/signal_derived/src/derived_word_store/presence.rs:9-9] MAX_PRESENCE_CADENCE_NS *)
Definition MAX_PRESENCE_CADENCE_NS : Z := 1000000.

(** [crates/signal_derived/src/derived_word_store/presence.rs:11-18] WordSummaryRecord *)
Record WordSummaryRecord := mkSummary {
  summary_start : Z;
  summary_end : Z;
  summary_words : Z;
  first_block : Z;
  block_count : Z
}.

#[export] Instance WordSummaryRecord_eq_dec : EqDecision WordSummaryRecord.
Proof. solve_decision. Defined.

(** The start of the word in front of the one at [index]. *)
Definition previous_start (words : list Word) (index : nat) : option Z :=
  match index with
  | O => None
  | S previous => Some (timestamp_ns (words !!! previous))
  end.

(** Indices are in range wherever the function is called.
    [crates/signal_derived/src/derived_word_store/presence.rs:93-116] duration_free_presence_word_end_ns *)
Definition duration_free_presence_word_end_ns (words : list Word) (index : nat) : Z :=
  let word := words !!! index in
  match words !! S index with
  | Some next =>
      instantaneous_word_end_ns_with_limit (previous_start words index) (timestamp_ns word)
        (timestamp_ns next) MAX_PRESENCE_CADENCE_NS
  | None =>
      let period := match previous_start words index with
        | Some previous =>
            let period := saturating_sub64 (timestamp_ns word) previous in
            if 0 <? period then period else 0
        | None => 0
        end in
      saturating_add64 (timestamp_ns word) (Z.min period MAX_PRESENCE_CADENCE_NS)
  end.

(** [crates/signal_derived/src/derived_word_store/presence.rs:179-204] presence_word_end_ns *)
Definition presence_word_end_ns (words : list Word) (index : nat) : Z :=
  let word := words !!! index in
  if negb (duration_ns word =? 0) then saturating_add64 (timestamp_ns word) (duration_ns word)
  else
    match words !! S index with
    | Some next =>
        instantaneous_word_end_ns_with_limit (previous_start words index) (timestamp_ns word)
          (timestamp_ns next) MAX_PRESENCE_CADENCE_NS
    | None =>
        let period := match previous_start words index with
          | Some previous =>
              let period := saturating_sub64 (timestamp_ns word) previous in
              if 0 <? period then period else 0
          | None => 0
          end in
        saturating_add64 (timestamp_ns word) (Z.min period MAX_PRESENCE_CADENCE_NS)
    end.

(** The length of a gap between runs, its number, and the index of the word behind it. *)
Definition Gap : Type := Z * nat * nat.

Definition gap_size (g : Gap) : Z := fst (fst g).
Definition gap_run (g : Gap) : nat := snd (fst g).
Definition gap_word (g : Gap) : nat := snd g.

(** The order of the triples. *)
Definition gap_leb (a b : Gap) : bool :=
  (gap_size a <? gap_size b)
  || (gap_size a =? gap_size b) && (Nat.ltb (gap_run a) (gap_run b)
      || Nat.eqb (gap_run a) (gap_run b) && Nat.leb (gap_word a) (gap_word b)).

Definition kept_gap_count : nat := MAX_PRESENCE_RUNS_PER_BLOCK - 1.

(** The heap of reversed triples is its ascending sequence: [peek] is the first element, [pop]
    removes it.
    [crates/signal_derived/src/derived_word_store/presence.rs:62-67] duration_free_word_presence_summaries (heap) *)
Definition keep_gap (heap : list Gap) (gap : Gap) : list Gap :=
  if Nat.ltb (length heap) kept_gap_count then insert_by gap_leb gap heap
  else
    match heap with
    | smallest :: rest => if gap_leb gap smallest then heap else insert_by gap_leb gap rest
    | [] => heap
    end.

(** [crates/signal_derived/src/derived_word_store/presence.rs:50-68] duration_free_word_presence_summaries (gaps) *)
Definition free_gap_step (words : list Word) (state : nat * list Gap) (word_index : nat) : nat * list Gap :=
  let '(run_index, largest_gaps) := state in
  let previous_end_ns := duration_free_presence_word_end_ns words (word_index - 1) in
  let word := words !!! word_index in
  if timestamp_ns word <=? previous_end_ns then state
  else
    let gap := (saturating_sub64 (timestamp_ns word) previous_end_ns, run_index, word_index) in
    (S run_index, keep_gap largest_gaps gap).

(** [crates/signal_derived/src/derived_word_store/presence.rs:77-88] duration_free_word_presence_summaries (runs) *)
Definition free_run_step (block : Z) (words : list Word) (state : nat * list WordSummaryRecord) (end_index : nat)
  : nat * list WordSummaryRecord :=
  let '(start_index, summaries) := state in
  let last_index := (end_index - 1)%nat in
  (end_index,
   summaries ++ [mkSummary (timestamp_ns (words !!! start_index))
     (duration_free_presence_word_end_ns words last_index) (Z.of_nat (end_index - start_index)) block 1]).

(** [crates/signal_derived/src/derived_word_store/presence.rs:42-91] duration_free_word_presence_summaries *)
Definition duration_free_word_presence_summaries (block : Z) (words : list Word) : list WordSummaryRecord :=
  match words with
  | [] => []
  | _ :: _ =>
      let '(_, largest_gaps) := fold_left (free_gap_step words) (seq 1 (length words - 1)) (0%nat, []) in
      let boundaries := sort_by Nat.leb (map gap_word largest_gaps) in
      snd (fold_left (free_run_step block words) (boundaries ++ [length words]) (0%nat, []))
  end.

(** [crates/signal_derived/src/derived_word_store/presence.rs:122-138] general_word_presence_summaries (gaps) *)
Definition general_gap_step (words : list Word) (state : Z * nat * list Gap) (word_index : nat)
  : Z * nat * list Gap :=
  let '(current_end_ns, run_index, gaps) := state in
  let word := words !!! word_index in
  let end_ns := presence_word_end_ns words word_index in
  if timestamp_ns word <=? current_end_ns then (Z.max current_end_ns end_ns, run_index, gaps)
  else
    (end_ns, S run_index,
     gaps ++ [(saturating_sub64 (timestamp_ns word) current_end_ns, run_index, word_index)]).

(** Length and number in descending order. *)
Definition gap_above (a b : Gap) : bool :=
  (gap_size b <? gap_size a) || (gap_size a =? gap_size b) && Nat.leb (gap_run b) (gap_run a).

(** The selection of the library puts the largest gaps in front, in an order it leaves open; here
    they are sorted.
    [crates/signal_derived/src/derived_word_store/presence.rs:140-147] general_word_presence_summaries (selection) *)
Definition retained_gaps (gaps : list Gap) : list Gap :=
  let gaps :=
    if Nat.ltb kept_gap_count (length gaps) then take kept_gap_count (sort_by gap_above gaps) else gaps in
  sort_by (fun a b => Nat.leb (gap_word a) (gap_word b)) gaps.

(** [summaries.last_mut()] *)
Definition update_last (f : WordSummaryRecord -> WordSummaryRecord) (l : list WordSummaryRecord)
  : list WordSummaryRecord :=
  alter f (length l - 1)%nat l.

(** [crates/signal_derived/src/derived_word_store/presence.rs:149-171] general_word_presence_summaries (runs) *)
Definition general_run_step (block : Z) (words : list Word) (gaps : list Gap)
    (state : nat * list WordSummaryRecord) (word_index : nat) : nat * list WordSummaryRecord :=
  let '(next_boundary, summaries) := state in
  let word := words !!! word_index in
  let starts_retained_run := match gaps !! next_boundary with
    | Some gap => Nat.eqb (gap_word gap) word_index
    | None => false
    end in
  let next_boundary := if starts_retained_run then S next_boundary else next_boundary in
  let end_ns := presence_word_end_ns words word_index in
  if negb starts_retained_run && negb (Nat.eqb (length summaries) 0) then
    (next_boundary,
     update_last (fun current => mkSummary (summary_start current) (Z.max (summary_end current) end_ns)
       (saturating_add64 (summary_words current) 1) (first_block current) (block_count current)) summaries)
  else (next_boundary, summaries ++ [mkSummary (timestamp_ns word) end_ns 1 block 1]).

(** [crates/signal_derived/src/derived_word_store/presence.rs:118-177] general_word_presence_summaries *)
Definition general_word_presence_summaries (block : Z) (words : list Word) : list WordSummaryRecord :=
  match words with
  | [] => []
  | _ :: _ =>
      let '(_, _, gaps) :=
        fold_left (general_gap_step words) (seq 1 (length words - 1)) (presence_word_end_ns words 0, 0%nat, []) in
      snd (fold_left (general_run_step block words (retained_gaps gaps)) (seq 0 (length words)) (0%nat, []))
  end.

(** [crates/signal_derived/src/derived_word_store/presence.rs:29-40] word_presence_summaries *)
Definition word_presence_summaries (block : Z) (words : list Word) (duration_free : bool)
  : list WordSummaryRecord :=
  if duration_free then duration_free_word_presence_summaries block words
  else general_word_presence_summaries block words.
