(* ===== verification/WordPresenceIndex.v ===== *)
(** The presence index: the runs of all blocks in levels of 64-way groups, with running maxima and
    counts, and the overview query over it. *)

From S2P Require Import Prelude Events WordPresence.

#[export] Instance WordSummaryRecord_inhabited : Inhabited WordSummaryRecord :=
  populate (mkSummary 0 0 0 0 0).

(** [crates/signal_derived/src/derived_word_store/presence.rs:20-27] WordPresenceIndex *)
Record WordPresenceIndex := mkPresence {
  levels : list (list WordSummaryRecord);
  extent_end_ns : option Z;
  prefix_max_end_ns : list Z;
  prefix_word_counts : list Z
}.

(** [crates/signal_derived/src/derived_word_store/presence.rs:213-220] WordPresenceIndex::new *)
Definition WordPresenceIndex_new : WordPresenceIndex := mkPresence [[]] None [] [0].

(** [crates/signal_derived/src/derived_word_store/presence.rs:226-228] WordPresenceIndex::leaves *)
Definition leaves (p : WordPresenceIndex) : list WordSummaryRecord := levels p !!! 0%nat.

(** Sums of 64-bit numbers wrap in a release build.  The slice is never empty.
    [crates/signal_derived/src/derived_word_store/presence.rs:385-397] combine *)
Definition combine (records : list WordSummaryRecord) : WordSummaryRecord :=
  let first := records !!! 0%nat in
  mkSummary (summary_start first)
    (fold_right Z.max (summary_end first) (map summary_end records))
    (fold_right add64 0 (map summary_words records))
    (first_block first)
    (Z.min (fold_right add64 0 (map block_count records)) u32_max).

(** The levels from the one the record is pushed to.
    [crates/signal_derived/src/derived_word_store/presence.rs:256-265] WordPresenceIndex::push (levels) *)
Fixpoint push_level (levels : list (list WordSummaryRecord)) (record : WordSummaryRecord)
  : list (list WordSummaryRecord) :=
  match levels with
  | [] => [[record]]
  | records :: rest =>
      let records := records ++ [record] in
      if Nat.eqb (length records mod FAN_OUT) 0
      then records :: push_level rest (combine (drop (length records - FAN_OUT) records))
      else records :: rest
  end.

(** [crates/signal_derived/src/derived_word_store/presence.rs:234-266] WordPresenceIndex::push *)
Definition push (p : WordPresenceIndex) (record : WordSummaryRecord) : WordPresenceIndex :=
  let end_ns := summary_end record in
  mkPresence (push_level (levels p) record)
    (Some (match extent_end_ns p with Some e => Z.max e end_ns | None => end_ns end))
    (prefix_max_end_ns p ++
      [match last (prefix_max_end_ns p) with Some e => Z.max e end_ns | None => end_ns end])
    (prefix_word_counts p ++
      [saturating_add64 (default 0 (last (prefix_word_counts p))) (summary_words record)]).

(** Pushing records one after the other. *)
Definition push_all (p : WordPresenceIndex) (records : list WordSummaryRecord) : WordPresenceIndex :=
  fold_left push records p.

(** [crates/signal_derived/src/derived_word_store/presence.rs:322-338] WordPresenceIndex::partition_start *)
Definition partition_start (p : WordPresenceIndex) (timestamp : Z) : nat :=
  let before record := summary_start record <? timestamp in
  match levels p !! 1%nat with
  | None | Some [] => leading before (leaves p)
  | Some groups =>
      let group := leading before groups in
      if Nat.eqb group 0 then 0%nat
      else
        let start := ((group - 1) * FAN_OUT)%nat in
        let end_ := if Nat.ltb group (length groups) then (group * FAN_OUT)%nat else length (leaves p) in
        (start + leading before (take (end_ - start) (drop start (leaves p))))%nat
  end.

(** The product in 64 bits, if it fits, is the product in 128 bits.
    [crates/signal_derived/src/derived_word_store/presence.rs:399-423] estimate_partial *)
Definition estimate_partial (record : WordSummaryRecord) (bucket_start bucket_end_exclusive : Z) : Z :=
  let record_end_exclusive := saturating_add64 (summary_end record) 1 in
  let overlap_start := Z.max (summary_start record) bucket_start in
  let overlap_end := Z.min record_end_exclusive bucket_end_exclusive in
  if overlap_end <=? overlap_start then 0
  else
    let record_span := Z.max (saturating_sub64 record_end_exclusive (summary_start record)) 1 in
    let overlap := overlap_end - overlap_start in
    Z.min (div_ceil (summary_words record * overlap) record_span) (summary_words record).

(** The leaves at the front of the range that the bucket does not hold as a whole.
    [crates/signal_derived/src/derived_word_store/presence.rs:351-363] WordPresenceIndex::count_bucket (front) *)
Fixpoint count_front (leaves : list WordSummaryRecord) (bucket_start bucket_end_exclusive : Z)
    (n full_start : nat) (count : Z) : nat * Z :=
  match n with
  | O => (full_start, count)
  | S n =>
      let leaf := leaves !!! full_start in
      if (summary_start leaf <? bucket_start) || (bucket_end_exclusive <=? summary_end leaf) then
        count_front leaves bucket_start bucket_end_exclusive n (S full_start)
          (saturating_add64 count (estimate_partial leaf bucket_start bucket_end_exclusive))
      else (full_start, count)
  end.

(** Those at the back of the [n] leaves from [full_start] on; the number of leaves left.
    [crates/signal_derived/src/derived_word_store/presence.rs:365-373] WordPresenceIndex::count_bucket (back) *)
Fixpoint count_back (leaves : list WordSummaryRecord) (bucket_start bucket_end_exclusive : Z)
    (n full_start : nat) (count : Z) : nat * Z :=
  match n with
  | O => (full_start, count)
  | S n' =>
      let leaf := leaves !!! (full_start + n')%nat in
      if bucket_end_exclusive <=? summary_end leaf then
        count_back leaves bucket_start bucket_end_exclusive n' full_start
          (saturating_add64 count (estimate_partial leaf bucket_start bucket_end_exclusive))
      else ((full_start + n)%nat, count)
  end.

(** [crates/signal_derived/src/derived_word_store/presence.rs:340-377] WordPresenceIndex::count_bucket *)
Definition count_bucket (p : WordPresenceIndex) (first end_ : nat) (bucket_start bucket_end_exclusive : Z) : Z :=
  if Nat.leb end_ first then 0
  else
    let '(full_start, count) :=
      count_front (leaves p) bucket_start bucket_end_exclusive (end_ - first) first 0 in
    let '(full_end, count) :=
      count_back (leaves p) bucket_start bucket_end_exclusive (end_ - full_start) full_start count in
    saturating_add64 count
      (saturating_sub64 (prefix_word_counts p !!! full_end) (prefix_word_counts p !!! full_start)).

(** [crates/signal_derived/src/derived_word_store/query.rs:32-39] WordPresenceBucket *)
Record WordPresenceBucket := mkBucket {
  bucket_start_ns : Z;
  bucket_end_ns : Z;
  bucket_words : Z
}.

#[export] Instance WordPresenceBucket_eq_dec : EqDecision WordPresenceBucket.
Proof. solve_decision. Defined.

(** [crates/signal_derived/src/derived_word_store/presence.rs:306-309] WordPresenceIndex::presence_window_all (first leaf) *)
Fixpoint step_back (leaves : list WordSummaryRecord) (bucket_start : Z) (first : nat) : nat :=
  match first with
  | O => O
  | S before =>
      if bucket_start <=? summary_end (leaves !!! before) then step_back leaves bucket_start before
      else first
  end.

(** The bounds of the buckets from the offset on; the last one ends with the window.
    [crates/signal_derived/src/derived_word_store/presence.rs:283-303] WordPresenceIndex::presence_window_all (bounds) *)
Fixpoint bucket_bounds (start_ns end_ns bucket_width bucket_remainder bucket_count : Z) (n : nat)
    (bucket_offset remainder_accumulator : Z) : list (Z * Z) :=
  match n with
  | O => []
  | S n =>
      let bucket_start := saturating_add64 start_ns bucket_offset in
      let bucket_offset := saturating_add64 bucket_offset bucket_width in
      let '(remainder_accumulator, bucket_offset) :=
        if bucket_count - bucket_remainder <=? remainder_accumulator
        then (remainder_accumulator - (bucket_count - bucket_remainder), saturating_add64 bucket_offset 1)
        else (remainder_accumulator + bucket_remainder, bucket_offset) in
      let bucket_end_exclusive :=
        if Nat.eqb n 0 then saturating_add64 end_ns 1 else saturating_add64 start_ns bucket_offset in
      let bucket_end_exclusive := Z.max bucket_end_exclusive (saturating_add64 bucket_start 1) in
      (bucket_start, bucket_end_exclusive) ::
        bucket_bounds start_ns end_ns bucket_width bucket_remainder bucket_count n bucket_offset
          remainder_accumulator
  end.

(** [crates/signal_derived/src/derived_word_store/presence.rs:305-317] WordPresenceIndex::presence_window_all (bucket) *)
Definition presence_bucket (p : WordPresenceIndex) (bounds : Z * Z) : WordPresenceBucket :=
  let '(bucket_start, bucket_end_exclusive) := bounds in
  let first := step_back (leaves p) bucket_start (partition_start p bucket_start - 1) in
  let end_ := partition_start p bucket_end_exclusive in
  mkBucket bucket_start (saturating_sub64 bucket_end_exclusive 1)
    (count_bucket p (Nat.min first end_) end_ bucket_start bucket_end_exclusive).

(** [crates/signal_derived/src/derived_word_store/presence.rs:268-320] WordPresenceIndex::presence_window_all *)
Definition presence_window_all (p : WordPresenceIndex) (start_ns end_ns target_buckets : Z)
  : list WordPresenceBucket :=
  if (target_buckets =? 0) || (end_ns <? start_ns) then []
  else
    let span := saturating_add64 (saturating_sub64 end_ns start_ns) 1 in
    let bucket_count := Z.max (Z.min target_buckets span) 1 in
    map (presence_bucket p)
      (bucket_bounds start_ns end_ns (span / bucket_count) (span mod bucket_count) bucket_count
        (Z.to_nat bucket_count) 0 0).
