(* ===== verification/WordPresenceProofs.v ===== *)
(** The overview query of the presence index gives, for every bucket of an exact partition of the
    window, the sum of what each run of words contributes to it. *)

From S2P Require Import Prelude Events WordPresence WordPresenceIndex.

(** ** Leading elements *)

Section Leading.
Context {A : Type} (p : A -> bool).
Implicit Types l : list A.

Lemma leading_le l : (leading p l <= length l)%nat.
Proof. induction l as [|x l IH]; cbn; [lia|]. destruct (p x); lia. Qed.

Lemma leading_true l i x : (i < leading p l)%nat -> l !! i = Some x -> p x = true.
Proof.
  revert i. induction l as [|y l IH]; intros i Hi Hx; [done|]. cbn in Hi.
  destruct (p y) eqn:Hy; [|lia]. destruct i as [|i]; [by injection Hx as <-|]. apply (IH i); [lia|done].
Qed.

Lemma leading_stop l x : l !! leading p l = Some x -> p x = false.
Proof. induction l as [|y l IH]; cbn; [done|]. destruct (p y) eqn:Hy; [done|]. cbn. by intros [= <-]. Qed.

Lemma leading_take n l : leading p (take n l) = Nat.min n (leading p l).
Proof.
  revert n. induction l as [|x l IH]; intros [|n]; cbn; [done..|]. destruct (p x); [|done]. by rewrite IH.
Qed.

Lemma leading_drop n l : (n <= leading p l)%nat -> leading p (drop n l) = (leading p l - n)%nat.
Proof.
  revert n. induction l as [|x l IH]; intros n Hn; [by rewrite drop_nil|].
  destruct n as [|n]; [cbn; lia|]. cbn in *. destruct (p x); [|lia]. rewrite IH; lia.
Qed.

(** The search may be confined to a range that holds the answer. *)
Lemma leading_range l a e : (a <= leading p l <= e)%nat ->
  leading p l = (a + leading p (take (e - a) (drop a l)))%nat.
Proof. intros H. rewrite leading_take, leading_drop by lia. lia. Qed.

Lemma leading_ge l n : (n <= length l)%nat -> (forall i x, (i < n)%nat -> l !! i = Some x -> p x = true) ->
  (n <= leading p l)%nat.
Proof.
  intros Hn Hp. destruct (Nat.le_gt_cases n (leading p l)) as [|Hlt]; [done|].
  destruct (lookup_lt_is_Some_2 l (leading p l) ltac:(lia)) as [x Hx].
  pose proof (leading_stop l x Hx). rewrite (Hp _ _ Hlt Hx) in *. done.
Qed.
End Leading.

(** ** The state of the index *)

Definition total (rs : list WordSummaryRecord) : Z := fold_right Z.add 0 (map summary_words rs).

Lemma total_app rs1 rs2 : total (rs1 ++ rs2) = total rs1 + total rs2.
Proof. unfold total. induction rs1 as [|r rs1 IH]; cbn in *; [done|]. rewrite IH. lia. Qed.

(** A record as a block produces it. *)
Definition run_ok (r : WordSummaryRecord) : Prop :=
  0 <= summary_words r /\ 0 <= summary_start r <= summary_end r /\ summary_end r < u64_max.

Lemma total_nonneg rs : Forall run_ok rs -> 0 <= total rs.
Proof. unfold total. induction 1 as [|r rs [Hr _] _ IH]; cbn; lia. Qed.

(** Level 1 starts a group at every 64th leaf. *)
Definition groups_ok (rs : list WordSummaryRecord) (rest : list (list WordSummaryRecord)) : Prop :=
  match rest with
  | [] => (length rs < FAN_OUT)%nat
  | groups :: _ => length groups = (length rs / FAN_OUT)%nat /\ (FAN_OUT <= length rs)%nat /\
      forall i g, groups !! i = Some g ->
        summary_start <$> rs !! (i * FAN_OUT)%nat = Some (summary_start g)
  end.

Definition running_max (rs : list WordSummaryRecord) : option Z :=
  match rs with
  | [] => None
  | r :: rs => Some (fold_left Z.max (map summary_end rs) (summary_end r))
  end.

Record presence_ok (rs : list WordSummaryRecord) (p : WordPresenceIndex) : Prop := mkPresenceOk {
  presence_levels : exists rest, levels p = rs :: rest /\ groups_ok rs rest;
  presence_counts : length (prefix_word_counts p) = S (length rs) /\
    forall i, (i <= length rs)%nat -> prefix_word_counts p !!! i = Z.min (total (take i rs)) u64_max;
  presence_max : length (prefix_max_end_ns p) = length rs /\
    forall i, (i < length rs)%nat -> Some (prefix_max_end_ns p !!! i) = running_max (take (S i) rs);
  presence_extent : extent_end_ns p = running_max rs
}.

Lemma new_presence_ok : presence_ok [] WordPresenceIndex_new.
Proof.
  split; [by exists []; split; [done|unfold groups_ok, FAN_OUT; cbn; lia]| | |done].
  - split; [done|]. intros i Hi. by assert (i = 0%nat) as -> by (cbn in Hi; lia).
  - split; [done|]. intros i Hi. cbn in Hi. lia.
Qed.

Lemma running_max_snoc rs r : running_max (rs ++ [r]) =
  Some (match running_max rs with Some e => Z.max e (summary_end r) | None => summary_end r end).
Proof. destruct rs as [|r' rs]; [done|]. cbn. by rewrite map_app, fold_left_app. Qed.

Lemma combine_start records r : records !! 0%nat = Some r -> summary_start (combine records) = summary_start r.
Proof. intros H. unfold combine. cbn. by rewrite (list_lookup_total_correct _ _ _ H). Qed.

Lemma push_level_ok rs rest r : groups_ok rs rest ->
  exists rest', push_level (rs :: rest) r = (rs ++ [r]) :: rest' /\ groups_ok (rs ++ [r]) rest'.
Proof.
  intros Hg. cbn [push_level]. rewrite length_app. cbn [length].
  set (n := length rs) in *. assert (Hn : length rs = n) by done.
  pose proof (Nat.div_mod_eq (n + 1) FAN_OUT) as Hdm. pose proof (Nat.mod_upper_bound (n + 1) FAN_OUT ltac:(done)) as Hub.
  destruct (Nat.eqb_spec ((n + 1) mod FAN_OUT) 0) as [Hm|Hm].
  - set (k := ((n + 1) / FAN_OUT)%nat) in *. assert (Hk : (n + 1 = FAN_OUT * k)%nat) by lia.
    assert (Hk0 : (0 < k)%nat) by (destruct k; lia).
    assert (Hdiv : (n / FAN_OUT = k - 1)%nat).
    { symmetry. apply (Nat.div_unique _ _ _ (FAN_OUT - 1)%nat); unfold FAN_OUT in *; lia. }
    set (c := combine (drop (n + 1 - FAN_OUT) (rs ++ [r]))).
    assert (Hc : summary_start <$> (rs ++ [r]) !! ((k - 1) * FAN_OUT)%nat = Some (summary_start c)).
    { destruct (lookup_lt_is_Some_2 (rs ++ [r]) ((k - 1) * FAN_OUT)) as [x Hx].
      { rewrite length_app. cbn [length]. fold n. revert Hk Hk0. clear. unfold FAN_OUT. lia. }
      rewrite Hx. cbn. f_equal. symmetry. apply combine_start. rewrite lookup_drop, <- Hx. f_equal.
      unfold FAN_OUT in *. lia. }
    exists (push_level rest c). split; [done|].
    assert (Hcons : forall groups, length groups = (k - 1)%nat ->
      (forall i g, groups !! i = Some g -> summary_start <$> rs !! (i * FAN_OUT)%nat = Some (summary_start g)) ->
      length (groups ++ [c]) = (length (rs ++ [r]) / FAN_OUT)%nat /\ (FAN_OUT <= length (rs ++ [r]))%nat /\
      forall i g, (groups ++ [c]) !! i = Some g ->
        summary_start <$> (rs ++ [r]) !! (i * FAN_OUT)%nat = Some (summary_start g)).
    { intros groups Hl Hgs. rewrite !length_app. cbn [length]. fold n. fold k. split; [lia|]. split; [unfold FAN_OUT in *; lia|].
      intros i g Hi. apply lookup_snoc_Some in Hi as [[Hlt Hi]|[Heq ->]].
      - rewrite lookup_app_l; [by apply Hgs|]. fold n. unfold FAN_OUT in *. lia.
      - replace i with (k - 1)%nat by lia. done. }
    destruct rest as [|groups rest]; cbn [groups_ok push_level] in *.
    + apply (Hcons []); [|done]. cbn [length]. rewrite Hn in Hg. revert Hk Hk0 Hg. clear. clearbody n k. unfold FAN_OUT. lia.
    + destruct Hg as (Hgl & _ & Hgs). rewrite Hn, Hdiv in Hgl. destruct (Nat.eqb _ 0); by apply Hcons.
  - exists rest. split; [done|]. destruct rest as [|groups rest]; cbn [groups_ok] in *.
    + rewrite length_app. cbn [length]. fold n in Hg |- *. destruct (Nat.eq_dec (n + 1)%nat FAN_OUT) as [He|]; [|lia].
      rewrite He, Nat.Div0.mod_same in Hm. done.
    + destruct Hg as (Hgl & Hge & Hgs). rewrite !length_app. cbn [length]. fold n in Hgl, Hge |- *.
      assert (Hdiv : (n / FAN_OUT = (n + 1) / FAN_OUT)%nat).
      { symmetry. apply (Nat.div_unique _ _ _ ((n + 1) mod FAN_OUT - 1)%nat); lia. }
      split; [lia|]. split; [lia|]. intros i g Hi. rewrite lookup_app_l; [by apply Hgs|].
      apply lookup_lt_Some in Hi. rewrite Hgl in Hi. pose proof (Nat.Div0.mul_div_le n FAN_OUT). fold n. nia.
Qed.

Lemma presence_push_ok rs p r : presence_ok rs p -> Forall run_ok rs -> run_ok r ->
  presence_ok (rs ++ [r]) (push p r).
Proof.
  intros [(rest & Hl & Hg) [Hc1 Hc2] [Hm1 Hm2] He] Hrs Hr. split; unfold push; cbn.
  - rewrite Hl. by apply push_level_ok.
  - rewrite !length_app, Hc1. cbn [length]. split; [lia|]. intros i Hi.
    destruct (Nat.eq_dec i (S (length rs))) as [->|].
    + rewrite list_lookup_total_alt, lookup_app_r, Hc1, Nat.sub_diag by lia. cbn.
      rewrite take_ge by (rewrite length_app; cbn; lia). rewrite total_app.
      pose proof (Hc2 (length rs) ltac:(lia)) as Hlast. rewrite firstn_all, list_lookup_total_alt in Hlast.
      rewrite last_lookup, Hc1. cbn [pred]. unfold default.
      destruct (prefix_word_counts p !! length rs) as [e|] eqn:Hle; [|apply lookup_ge_None in Hle; lia].
      cbn in Hlast |- *. subst e. pose proof (total_nonneg _ Hrs). destruct Hr as [Hr _].
      replace (total [r]) with (summary_words r) by (cbn; lia). ints.
    + rewrite take_app_le by lia. rewrite <- Hc2 by lia.
      rewrite !list_lookup_total_alt, lookup_app_l by lia. done.
  - rewrite !length_app, Hm1. cbn [length]. split; [lia|]. intros i Hi.
    destruct (Nat.eq_dec i (length rs)) as [->|].
    + rewrite list_lookup_total_alt, lookup_app_r, Hm1, Nat.sub_diag by lia. cbn.
      rewrite take_ge by (rewrite length_app; cbn; lia). rewrite running_max_snoc. f_equal.
      destruct rs as [|r0 rs0] eqn:E; [by destruct (prefix_max_end_ns p)|].
      rewrite <- E in *. pose proof (Hm2 (length rs - 1)%nat ltac:(subst; cbn; lia)) as Hlast.
      rewrite take_ge in Hlast by lia. rewrite <- Hlast, last_lookup, Hm1.
      rewrite list_lookup_total_alt. replace (pred (length rs)) with (length rs - 1)%nat by lia.
      destruct (prefix_max_end_ns p !! _) eqn:Hle; [done|]. apply lookup_ge_None in Hle. subst rs. cbn in *. lia.
    + rewrite take_app_le by lia. rewrite <- Hm2 by lia.
      rewrite !list_lookup_total_alt, lookup_app_l by lia. done.
  - rewrite running_max_snoc, He. done.
Qed.

Lemma push_all_ok rs : Forall run_ok rs -> presence_ok rs (push_all WordPresenceIndex_new rs).
Proof.
  intros H. unfold push_all. induction rs as [|r rs IH] using rev_ind; [apply new_presence_ok|].
  apply Forall_app in H as [H Hr]. apply Forall_cons in Hr as [Hr _].
  rewrite fold_left_app. cbn [fold_left]. apply presence_push_ok; auto.
Qed.

(** A word with times of 64 bits. *)
Definition times_ok (w : Word) : Prop := u64 (timestamp_ns w) /\ 0 <= duration_ns w.

Lemma instantaneous_end_range previous start next limit : u64 start -> 0 <= limit ->
  start <= instantaneous_word_end_ns_with_limit previous start next limit <= u64_max.
Proof.
  intros Hs Hl. unfold instantaneous_word_end_ns_with_limit. cbv zeta.
  set (interval := match previous with Some _ => _ | None => _ end).
  assert (Hi : 0 <= Z.min (default limit interval) limit).
  { unfold interval. destruct previous as [p|]; cbn; [|lia]. destruct (Z.ltb_spec 0 (saturating_sub64 start p)); cbn; lia. }
  revert Hi. generalize (Z.min (default limit interval) limit). intros z Hz. ints.
Qed.

(** ** Positions *)

Lemma ascending_lookup {A} (key : A -> Z) l i j a b : ascending key l -> (i <= j)%nat ->
  l !! i = Some a -> l !! j = Some b -> key a <= key b.
Proof.
  intros Hs. revert i j. induction l as [|x l IH]; intros i j Hij Ha Hb; [done|].
  apply ascending_cons in Hs as [Hx Hs]. destruct i as [|i], j as [|j]; cbn in *; [|..|lia|].
  - replace b with a by congruence. lia.
  - injection Ha as <-. apply Hx. by apply list_elem_of_In, list_elem_of_lookup_2 with j.
  - apply (IH Hs i j); [lia|done|done].
Qed.

Section Partition.
Context (rs : list WordSummaryRecord) (p : WordPresenceIndex).
Hypothesis (Hp : presence_ok rs p) (Hsorted : ascending summary_start rs).

Lemma leaves_eq : leaves p = rs.
Proof. destruct Hp as [(rest & Hl & _) _ _ _]. unfold leaves. by rewrite Hl. Qed.

(** On sorted starts the search through the groups finds what the search of all leaves finds. *)
Lemma partition_start_eq t : partition_start p t = leading (fun r => summary_start r <? t) rs.
Proof.
  unfold partition_start. rewrite leaves_eq. destruct Hp as [(rest & Hl & Hg) _ _ _]. rewrite Hl. cbn [lookup].
  set (before := fun r => summary_start r <? t).
  destruct rest as [|groups rest]; [done|]. cbn -[Nat.ltb Nat.mul FAN_OUT]. destruct Hg as (Hgl & Hge & Hgs).
  destruct groups as [|g0 groups0] eqn:E; [done|]. rewrite <- E in *. set (g := leading before groups).
  pose proof (leading_le before groups) as Hle. fold g in Hle.
  assert (Hfan : (FAN_OUT * length groups <= length rs)%nat) by (rewrite Hgl; apply Nat.Div0.mul_div_le).
  assert (Hhead : forall i x, groups !! i = Some x -> exists r, rs !! (i * FAN_OUT)%nat = Some r /\ before r = before x).
  { intros i x Hx. specialize (Hgs i x Hx). destruct (rs !! _) as [r|]; [|done]. injection Hgs as Hgs.
    exists r. unfold before. by rewrite Hgs. }
  assert (Hup : forall i, (i < length groups)%nat -> g = i -> (leading before rs <= i * FAN_OUT)%nat).
  { intros i Hi Hgi. destruct (lookup_lt_is_Some_2 groups i Hi) as [x Hx].
    pose proof (leading_stop before groups x) as Hst. fold g in Hst. rewrite Hgi in Hst. specialize (Hst Hx).
    destruct (Hhead i x Hx) as (r & Hr & Hbr). destruct (Nat.le_gt_cases (leading before rs) (i * FAN_OUT)) as [|Hlt]; [done|].
    pose proof (leading_true before rs _ _ Hlt Hr). congruence. }
  destruct (Nat.eqb_spec g 0) as [Hg0|Hg0].
  { specialize (Hup 0%nat). rewrite E in Hup at 1. cbn [length] in Hup. lia. }
  assert (Hlow : ((g - 1) * FAN_OUT <= leading before rs)%nat).
  { destruct (lookup_lt_is_Some_2 groups (g - 1) ltac:(lia)) as [x Hx].
    pose proof (leading_true before groups (g - 1) x ltac:(lia) Hx) as Hbx.
    destruct (Hhead _ x Hx) as (r & Hr & Hbr). apply leading_ge; [apply lookup_lt_Some in Hr; lia|].
    intros i y Hi Hy. pose proof (ascending_lookup _ _ _ _ _ _ Hsorted (Nat.lt_le_incl _ _ Hi) Hy Hr).
    unfold before in *. lia. }
  symmetry. apply leading_range. split; [done|]. destruct (Nat.ltb_spec g (length groups)); [by apply Hup|].
  apply leading_le.
Qed.
End Partition.

(** ** The overview query over the presence index *)

(** ** Contributions *)

Definition contribution (rs : list WordSummaryRecord) (bucket_start bucket_end_exclusive : Z) : Z :=
  fold_right Z.add 0 (map (fun r => estimate_partial r bucket_start bucket_end_exclusive) rs).

Lemma contribution_app rs1 rs2 s e : contribution (rs1 ++ rs2) s e = contribution rs1 s e + contribution rs2 s e.
Proof. unfold contribution. induction rs1 as [|r rs1 IH]; cbn in *; [done|]. rewrite IH. lia. Qed.

Lemma contribution_cons r rs s e : contribution (r :: rs) s e = estimate_partial r s e + contribution rs s e.
Proof. done. Qed.

Lemma contribution_one r s e : contribution [r] s e = estimate_partial r s e.
Proof. unfold contribution. cbn. lia. Qed.

Lemma div_ceil_mul_le w o s : 0 <= w -> 0 <= o -> 0 < s -> 0 <= div_ceil (w * o) s.
Proof. intros. unfold div_ceil. apply Z.div_pos; nia. Qed.

Lemma estimate_range r s e : run_ok r -> 0 <= estimate_partial r s e <= summary_words r.
Proof.
  intros (Hw & Hs & He). unfold estimate_partial. destruct (Z.leb_spec (Z.min (saturating_add64 (summary_end r) 1) e)
    (Z.max (summary_start r) s)); [lia|].
  pose proof (div_ceil_mul_le (summary_words r)
    (Z.min (saturating_add64 (summary_end r) 1) e - Z.max (summary_start r) s)
    (Z.max (saturating_sub64 (saturating_add64 (summary_end r) 1) (summary_start r)) 1)). lia.
Qed.

Lemma contribution_range rs s e : Forall run_ok rs -> 0 <= contribution rs s e <= total rs.
Proof.
  unfold contribution, total. induction 1 as [|r rs Hr _ IH]; cbn; [lia|].
  pose proof (estimate_range r s e Hr). lia.
Qed.

(** A run inside the bucket contributes all its words. *)
Lemma estimate_inside r s e : run_ok r -> s <= summary_start r -> summary_end r < e ->
  estimate_partial r s e = summary_words r.
Proof.
  intros (Hw & Hs & He) Hse Hee. unfold estimate_partial. unfold saturating_sub64, saturating_add64.
  rewrite !(Z.min_l _ u64_max) by (unfold u64_max in *; lia). rewrite !(Z.max_l _ 0), !(Z.max_l _ 1), !(Z.max_l _ s), !(Z.min_l _ e) by lia.
  destruct (Z.leb_spec (summary_end r + 1) (summary_start r)); [lia|]. unfold div_ceil.
  set (n := summary_end r + 1 - summary_start r). replace (summary_words r * n + n - 1) with (n - 1 + summary_words r * n) by lia.
  rewrite Z.div_add, Z.div_small by (unfold n; lia). lia.
Qed.

(** A run beside it contributes nothing. *)
Lemma estimate_outside r s e : run_ok r -> summary_end r < s \/ e <= summary_start r -> estimate_partial r s e = 0.
Proof.
  intros (Hw & Hs & He) Ho. unfold estimate_partial.
  assert (Hle : Z.min (saturating_add64 (summary_end r) 1) e <= Z.max (summary_start r) s) by ints.
  apply Z.leb_le in Hle. by rewrite Hle.
Qed.

Lemma contribution_outside rs s e : Forall run_ok rs ->
  (forall r, In r rs -> summary_end r < s \/ e <= summary_start r) -> contribution rs s e = 0.
Proof.
  induction 1 as [|r rs Hr _ IH]; intros Ho; [done|]. rewrite contribution_cons, IH, (estimate_outside r); [done|done| |].
  - apply Ho. by left.
  - intros x Hx. apply Ho. by right.
Qed.

Lemma contribution_inside rs s e : Forall run_ok rs ->
  (forall r, In r rs -> s <= summary_start r /\ summary_end r < e) -> contribution rs s e = total rs.
Proof.
  induction 1 as [|r rs Hr _ IH]; intros Ho; [done|]. unfold total in *. cbn [map fold_right].
  destruct (Ho r (or_introl eq_refl)). rewrite contribution_cons, IH, (estimate_inside r); [done|done..|].
  intros x Hx. apply Ho. by right.
Qed.

(** ** Counting *)

(** Leaves [a] to [b - 1]. *)
Definition range (rs : list WordSummaryRecord) (a b : nat) : list WordSummaryRecord := take (b - a) (drop a rs).

Lemma range_split rs a m b : (a <= m <= b)%nat -> range rs a b = range rs a m ++ range rs m b.
Proof.
  intros H. unfold range. replace (drop m rs) with (drop (m - a) (drop a rs)) by (rewrite drop_drop; f_equal; lia).
  rewrite <- (take_drop (m - a) (take (b - a) (drop a rs))).
  rewrite take_take, skipn_firstn_comm. f_equal; f_equal; lia.
Qed.

Lemma range_all rs : range rs 0 (length rs) = rs.
Proof. unfold range. rewrite drop_0, Nat.sub_0_r. apply firstn_all. Qed.

Lemma range_one rs a : (a < length rs)%nat -> range rs a (S a) = [rs !!! a].
Proof.
  intros H. unfold range. replace (S a - a)%nat with 1%nat by lia. destruct (lookup_lt_is_Some_2 rs a H) as [x Hx].
  rewrite (drop_S _ _ _ Hx). cbn. by rewrite (list_lookup_total_correct _ _ _ Hx).
Qed.

Lemma range_nil rs a b : (b <= a)%nat -> range rs a b = [].
Proof. intros H. unfold range. by replace (b - a)%nat with 0%nat by lia. Qed.

Lemma range_in rs a b r : In r (range rs a b) -> exists i, (a <= i < b)%nat /\ rs !! i = Some r.
Proof.
  intros H. apply list_elem_of_In, list_elem_of_lookup in H as [i Hi]. unfold range in Hi.
  apply lookup_take_Some in Hi as [Hi Hlt]. rewrite lookup_drop in Hi. exists (a + i)%nat. split; [lia|done].
Qed.

Lemma range_prefix_total rs a b : (a <= b <= length rs)%nat -> total (range rs a b) = total (take b rs) - total (take a rs).
Proof.
  intros H. assert (Hz : forall n, take n rs = range rs 0 n) by (intros n; unfold range; by rewrite drop_0, Nat.sub_0_r).
  rewrite !Hz, (range_split rs 0 a b) by lia. rewrite total_app. lia.
Qed.

Lemma range_ok rs a b : Forall run_ok rs -> Forall run_ok (range rs a b).
Proof. intros H. by apply Forall_take, Forall_drop. Qed.

Section Count.
Context (rs : list WordSummaryRecord) (s e : Z).
Hypothesis (Hok : Forall run_ok rs) (Htotal : total rs <= u64_max).

Lemma range_bounds a b : 0 <= contribution (range rs a b) s e <= u64_max.
Proof.
  pose proof (contribution_range _ s e (range_ok rs a b Hok)).
  enough (total (range rs a b) <= total rs) by lia.
  assert (total rs = total (take a rs) + (total (range rs a b) + total (drop (b - a) (drop a rs)))) as ->
    by (unfold range; by rewrite <- !total_app, !take_drop).
  pose proof (total_nonneg _ (Forall_take _ a _ Hok)).
  pose proof (total_nonneg _ (Forall_drop _ (b - a) _ (Forall_drop _ a _ Hok))). lia.
Qed.

Lemma count_front_ok n : forall full_start count, (full_start + n <= length rs)%nat -> 0 <= count ->
  count + contribution (range rs full_start (full_start + n)) s e <= u64_max ->
  exists m, (m <= n)%nat /\
    count_front rs s e n full_start count =
      ((full_start + m)%nat, count + contribution (range rs full_start (full_start + m)) s e) /\
    ((m < n)%nat -> s <= summary_start (rs !!! (full_start + m)%nat)).
Proof.
  induction n as [|n IH]; intros a count Ha Hc Hb; cbn [count_front].
  - exists 0%nat. rewrite Nat.add_0_r, range_nil by lia. cbn. split; [lia|]. split; [f_equal; lia|lia].
  - rewrite (range_split rs a (S a)), range_one, contribution_app in Hb by lia. cbn [app] in Hb.
    rewrite contribution_one in Hb.
    pose proof (range_bounds (S a) (a + S n)).
    assert (Hr : 0 <= estimate_partial (rs !!! a) s e).
    { apply estimate_range. rewrite Forall_forall in Hok. apply Hok, list_elem_of_lookup_total_2. lia. }
    destruct ((summary_start (rs !!! a) <? s) || (e <=? summary_end (rs !!! a))) eqn:Hd.
    + unfold saturating_add64. rewrite Z.min_l by lia. replace (a + S n)%nat with (S a + n)%nat in * by lia.
      destruct (IH (S a) (count + estimate_partial (rs !!! a) s e)) as (m & Hm & Heq & Hst); [lia..|].
      exists (S m). replace (a + S m)%nat with (S a + m)%nat by lia. split; [lia|]. split; [|intros; apply Hst; lia].
      rewrite Heq, (range_split rs a (S a) (S a + m)), range_one, contribution_app by lia. cbn [app].
      rewrite contribution_one. f_equal. lia.
    + apply orb_false_iff in Hd as [Hd _]. exists 0%nat. rewrite Nat.add_0_r, range_nil by lia. cbn.
      split; [lia|]. split; [f_equal; lia|]. lia.
Qed.

Lemma count_back_ok n : forall full_start count, (full_start + n <= length rs)%nat -> 0 <= count ->
  count + contribution (range rs full_start (full_start + n)) s e <= u64_max ->
  exists m, (m <= n)%nat /\
    count_back rs s e n full_start count =
      ((full_start + m)%nat, count + contribution (range rs (full_start + m) (full_start + n)) s e) /\
    ((0 < m)%nat -> summary_end (rs !!! (full_start + m - 1)%nat) < e).
Proof.
  induction n as [|n IH]; intros a count Ha Hc Hb; cbn [count_back].
  - exists 0%nat. rewrite Nat.add_0_r, range_nil by lia. cbn. split; [lia|]. split; [f_equal; lia|lia].
  - rewrite (range_split rs a (a + n)), contribution_app in Hb by lia.
    replace (a + S n)%nat with (S (a + n)) in Hb by lia. rewrite range_one in Hb by lia.
    rewrite contribution_one in Hb.
    pose proof (range_bounds a (a + n)) as Hrb.
    assert (Hr : 0 <= estimate_partial (rs !!! (a + n)%nat) s e).
    { apply estimate_range. rewrite Forall_forall in Hok. apply Hok, list_elem_of_lookup_total_2. lia. }
    destruct (Z.leb_spec e (summary_end (rs !!! (a + n)%nat))) as [Hd|Hd].
    + unfold saturating_add64. rewrite Z.min_l by lia.
      destruct (IH a (count + estimate_partial (rs !!! (a + n)%nat) s e)) as (m & Hm & Heq & Hst); [lia..|].
      exists m. split; [lia|]. split; [|done].
      rewrite Heq, (range_split rs (a + m) (a + n) (a + S n)), contribution_app by lia.
      replace (a + S n)%nat with (S (a + n)) by lia. rewrite range_one by lia.
      rewrite contribution_one. f_equal. lia.
    + exists (S n). rewrite range_nil by lia. cbn. split; [lia|]. split; [f_equal; lia|].
      intros _. by replace (a + S n - 1)%nat with (a + n)%nat by lia.
Qed.
End Count.

(** ** Buckets *)

Lemma bucket_bounds_eq start_ns end_ns span n k i :
  0 <= start_ns -> end_ns < u64_max -> span = end_ns - start_ns + 1 -> 0 < n <= span -> 0 <= i -> i + Z.of_nat k = n ->
  bucket_bounds start_ns end_ns (span / n) (span mod n) n k (span * i / n) ((span * i) mod n) =
  map (fun j => (start_ns + span * Z.of_nat j / n, start_ns + span * (Z.of_nat j + 1) / n)) (seq (Z.to_nat i) k).
Proof.
  intros Hs He Hspan Hn. revert i. induction k as [|k IH]; intros i Hi Hk; [done|]. cbn [bucket_bounds seq map].
  rewrite Z2Nat.id by lia.
  pose proof (Z.div_mod span n ltac:(lia)) as Hd. pose proof (Z.mod_pos_bound span n ltac:(lia)) as Hm.
  pose proof (Z.div_mod (span * i) n ltac:(lia)) as Hdi. pose proof (Z.mod_pos_bound (span * i) n ltac:(lia)) as Hmi.
  set (w := span / n) in *. set (r := span mod n) in *.
  assert (Hq0 : 0 <= span * i / n) by (apply Z.div_pos; nia).
  assert (Hqi : span * i / n <= span - w).
  { apply Z.div_le_upper_bound; [lia|]. rewrite Z.mul_sub_distr_l. nia. }
  assert (Hw1 : 1 <= w) by (apply Z.div_le_lower_bound; lia).
  set (q := span * i / n) in *. set (a := (span * i) mod n) in *.
  assert (Hnext : exists q' a',
    (if n - r <=? a then (a - (n - r), saturating_add64 (saturating_add64 q w) 1) else (a + r, saturating_add64 q w)) = (a', q') /\
    q' = span * (i + 1) / n /\ a' = (span * (i + 1)) mod n /\ q + w <= q' <= span).
  { assert (Hub : span * (i + 1) / n <= span) by (apply Z.div_le_upper_bound; nia).
    destruct (Z.leb_spec (n - r) a).
    - assert (Hq' : span * (i + 1) / n = q + w + 1) by (symmetry; apply (Z.div_unique_pos _ _ _ (a - (n - r))); lia).
      exists (q + w + 1), (a - (n - r)). split; [|split; [done|split; [|lia]]].
      + rewrite (saturating_add64_small q w) by lia. by rewrite saturating_add64_small by lia.
      + apply (Z.mod_unique_pos _ _ (q + w + 1)); lia.
    - assert (Hq' : span * (i + 1) / n = q + w) by (symmetry; apply (Z.div_unique_pos _ _ _ (a + r)); lia).
      exists (q + w), (a + r). split; [|split; [done|split; [|lia]]].
      + by rewrite saturating_add64_small by lia.
      + apply (Z.mod_unique_pos _ _ (q + w)); lia. }
  destruct Hnext as (q' & a' & Heq & Hq' & Ha' & Hqq). fold q a. rewrite Heq. f_equal.
  - rewrite (saturating_add64_small start_ns q), <- Hq' by lia. f_equal.
    assert (He' : (if Nat.eqb k 0 then saturating_add64 end_ns 1 else saturating_add64 start_ns q') = start_ns + q').
    { destruct (Nat.eqb_spec k 0) as [->|Hk0]; [|apply saturating_add64_small; lia].
      assert (i + 1 = n) as Hin by lia. rewrite Hin, Z.div_mul in Hq' by lia.
      rewrite saturating_add64_small by lia. lia. }
    rewrite He', saturating_add64_small by lia. lia.
  - rewrite Hq', Ha', IH by lia. by replace (Z.to_nat (i + 1)) with (S (Z.to_nat i)) by lia.
Qed.

Section Bucket.
Context (rs : list WordSummaryRecord) (p : WordPresenceIndex).
Hypothesis (Hp : presence_ok rs p) (Hok : Forall run_ok rs) (Htotal : total rs <= u64_max).
Hypothesis (Hstarts : ascending summary_start rs) (Hends : ascending summary_end rs).

Lemma step_back_ok t n : (n < length rs)%nat -> (step_back rs t n <= n)%nat /\
  forall i r, (i < step_back rs t n)%nat -> rs !! i = Some r -> summary_end r < t.
Proof.
  induction n as [|n IH]; intros Hn; cbn [step_back]; [split; [lia|lia]|].
  destruct (Z.leb_spec t (summary_end (rs !!! n))) as [|Hlt].
  - destruct (IH ltac:(lia)). split; [lia|done].
  - split; [lia|]. intros i r Hi Hr. destruct (lookup_lt_is_Some_2 rs n ltac:(lia)) as [x Hx].
    rewrite (list_lookup_total_correct _ _ _ Hx) in Hlt.
    pose proof (ascending_lookup _ _ i n r x Hends ltac:(lia) Hr Hx). lia.
Qed.

Lemma drop_after t i r : Nat.le (leading (fun r => summary_start r <? t) rs) i -> rs !! i = Some r -> t <= summary_start r.
Proof.
  intros Hi Hr. set (n := leading _ rs) in *. pose proof (lookup_lt_Some _ _ _ Hr).
  destruct (lookup_lt_is_Some_2 rs n ltac:(lia)) as [x Hx]. pose proof (leading_stop _ _ _ Hx) as Hst.
  pose proof (ascending_lookup _ _ n i x r Hstarts Hi Hx Hr). cbn beta in Hst. lia.
Qed.

(** What is counted as a whole and what is estimated add up to what every leaf contributes, if the
    leaves in front of the range end before the bucket and those behind start after it. *)
Lemma count_bucket_eq first end_ s e : (end_ <= length rs)%nat -> (first <= end_)%nat ->
  (forall i r, (i < first)%nat -> rs !! i = Some r -> summary_end r < s) ->
  (forall i r, (end_ <= i)%nat -> rs !! i = Some r -> e <= summary_start r) ->
  count_bucket p first end_ s e = contribution rs s e.
Proof.
  intros Hend Hfe Hfront Hback.
  assert (Hall : contribution rs s e = contribution (range rs first end_) s e).
  { rewrite <- (range_all rs) at 1. rewrite (range_split rs 0 first), (range_split rs first end_), !contribution_app by lia.
    rewrite (contribution_outside (range rs 0 first)), (contribution_outside (range rs end_ _)); [lia|by apply range_ok| |by apply range_ok|].
    - intros r (i & Hi & Hr)%range_in. right. apply (Hback i); [lia|done].
    - intros r (i & Hi & Hr)%range_in. left. apply (Hfront i); [lia|done]. }
  pose proof (range_bounds rs s e Hok Htotal) as Hrb. rewrite Hall. unfold count_bucket.
  destruct (Nat.leb_spec end_ first); [by rewrite range_nil by lia|]. rewrite (leaves_eq _ _ Hp).
  destruct (count_front_ok rs s e Hok Htotal (end_ - first) first 0) as (m & Hm & -> & Hin); [lia..|apply Hrb|].
  set (a := (first + m)%nat) in *.
  assert (Hsplit : contribution (range rs first end_) s e = contribution (range rs first a) s e + contribution (range rs a end_) s e)
    by (rewrite (range_split rs first a) by lia; apply contribution_app).
  pose proof (Hrb first end_). pose proof (Hrb first a). pose proof (Hrb a end_).
  destruct (count_back_ok rs s e Hok Htotal (end_ - a) a (0 + contribution (range rs first a) s e)) as (m' & Hm' & -> & Hin');
    [lia..| |]. { replace (a + (end_ - a))%nat with end_ by lia. lia. }
  replace (a + (end_ - a))%nat with end_ by lia. set (b := (a + m')%nat) in *.
  assert (Hmid : contribution (range rs a b) s e = total (range rs a b)).
  { apply contribution_inside; [by apply range_ok|]. intros r (i & Hi & Hr)%range_in. split.
    - assert (s <= summary_start (rs !!! a)) by (apply Hin; lia).
      destruct (lookup_lt_is_Some_2 rs a ltac:(lia)) as [x Hx]. rewrite (list_lookup_total_correct _ _ _ Hx) in *.
      pose proof (ascending_lookup _ _ a i x r Hstarts ltac:(lia) Hx Hr). lia.
    - assert (summary_end (rs !!! (b - 1)%nat) < e) by (apply Hin'; lia).
      destruct (lookup_lt_is_Some_2 rs (b - 1) ltac:(lia)) as [x Hx]. rewrite (list_lookup_total_correct _ _ _ Hx) in *.
      pose proof (ascending_lookup _ _ i (b - 1) r x Hends ltac:(lia) Hr Hx). lia. }
  assert (Hsplit' : contribution (range rs a end_) s e = contribution (range rs a b) s e + contribution (range rs b end_) s e)
    by (rewrite (range_split rs a b) by lia; apply contribution_app).
  destruct Hp as [_ [_ Hc] _ _]. rewrite !Hc by lia.
  assert (Htake : forall n, total (take n rs) <= u64_max).
  { intros n. pose proof (total_nonneg _ (Forall_drop _ n _ Hok)).
    rewrite <- (take_drop n rs), total_app in Htotal. lia. }
  rewrite !Z.min_l by apply Htake. rewrite range_prefix_total in Hmid by lia.
  pose proof (Hrb b end_). pose proof (Hrb a b). ints.
Qed.

Lemma presence_bucket_eq s e : s < e -> presence_bucket p (s, e) =
  mkBucket s (saturating_sub64 e 1) (contribution rs s e).
Proof.
  intros Hse. unfold presence_bucket. rewrite (leaves_eq _ _ Hp), !(partition_start_eq rs p Hp Hstarts). f_equal.
  set (n := leading (fun r => summary_start r <? s) rs). set (end_ := leading (fun r => summary_start r <? e) rs).
  assert (Hend : (end_ <= length rs)%nat) by apply leading_le.
  apply count_bucket_eq; [done|lia| |].
  - intros i r Hi Hr. pose proof (lookup_lt_Some _ _ _ Hr). pose proof (leading_le _ _ : Nat.le n (length rs)).
    destruct (step_back_ok s (n - 1)) as [_ Hb]; [lia|]. apply (Hb i); [lia|done].
  - intros i r Hi Hr. by apply (drop_after e i).
Qed.
End Bucket.
