(* ===== verification/WordPresenceRuns.v ===== *)
(** The runs of one block: which gaps separate them, and that the two ways to compute them cut the
    words at the same places. *)

From stdpp Require sorting.
From S2P Require Import Prelude Events WordPresence WordPresenceProofs.

(** ** Sorting *)

Section Sorting.
Context {A : Type} (le : A -> A -> bool).
Hypothesis le_total : forall a b, le a b = false -> le b a = true.
Hypothesis le_trans : forall a b c, le a b = true -> le b c = true -> le a c = true.
Implicit Types l : list A.

Definition sorted l : Prop := StronglySorted (fun a b => le a b = true) l.

Lemma insert_perm x l : insert_by le x l ≡ₚ x :: l.
Proof.
  induction l as [|y l IH]; cbn; [done|]. destruct (le x y); [done|]. rewrite IH. apply Permutation_swap.
Qed.

Lemma sort_perm l : sort_by le l ≡ₚ l.
Proof. induction l as [|x l IH]; cbn; [done|]. by rewrite insert_perm, IH. Qed.

Lemma insert_sorted x l : sorted l -> sorted (insert_by le x l).
Proof.
  induction l as [|y l IH]; cbn; intros H; [constructor; constructor|].
  apply StronglySorted_inv in H as [Hl Hy]. destruct (le x y) eqn:Hxy.
  - constructor; [by constructor|]. constructor; [done|].
    eapply Forall_impl; [exact Hy|]. intros z Hz. by eapply le_trans.
  - constructor; [by apply IH|]. rewrite Forall_forall in *. intros z Hz.
    rewrite insert_perm in Hz. apply elem_of_cons in Hz as [->|Hz]; [by apply le_total|by apply Hy].
Qed.

Lemma sort_sorted l : sorted (sort_by le l).
Proof. induction l as [|x l IH]; cbn; [constructor|by apply insert_sorted]. Qed.

(** An element that is not above one behind the first [n] leaves those behind as they are. *)
Lemma insert_front x l n y rest : sorted l -> drop n l = y :: rest -> le x y = true ->
  drop (S n) (insert_by le x l) = drop n l.
Proof.
  revert n. induction l as [|z l IH]; intros n Hs Hd Hxy; [by rewrite drop_nil in Hd|].
  cbn [insert_by]. destruct (le x z) eqn:Hxz; [done|]. destruct n as [|n]; cbn in Hd |- *; [congruence|].
  apply StronglySorted_inv in Hs as [Hs _]. by apply IH.
Qed.

(** One that is above it is inserted behind it. *)
Lemma insert_back x l n y rest : sorted l -> drop n l = y :: rest -> le x y = false ->
  drop (S n) (insert_by le x l) = insert_by le x rest.
Proof.
  revert n. induction l as [|z l IH]; intros n Hs Hd Hxy; [by rewrite drop_nil in Hd|].
  apply StronglySorted_inv in Hs as [Hs Hz]. destruct n as [|n]; cbn [drop] in Hd.
  - injection Hd as -> ->. cbn [insert_by]. by rewrite Hxy.
  - cbn [insert_by]. destruct (le x z) eqn:Hxz; [|by apply IH].
    assert (le z y = true).
    { rewrite Forall_forall in Hz. apply Hz, (list_elem_of_lookup_2 _ n).
      rewrite <- (Nat.add_0_r n), <- lookup_drop, Hd. done. }
    rewrite (le_trans x z y) in Hxy by done. done.
Qed.
End Sorting.

(** ** Orders *)

Lemma gap_leb_iff a b : gap_leb a b = true <->
  gap_size a < gap_size b \/ gap_size a = gap_size b /\
    (lt (gap_run a) (gap_run b) \/ gap_run a = gap_run b /\ le (gap_word a) (gap_word b)).
Proof.
  unfold gap_leb. rewrite !orb_true_iff, !andb_true_iff, !orb_true_iff, !andb_true_iff.
  by rewrite Z.ltb_lt, Z.eqb_eq, Nat.ltb_lt, Nat.eqb_eq, Nat.leb_le.
Qed.

Lemma gap_leb_total a b : gap_leb a b = false -> gap_leb b a = true.
Proof. rewrite <- not_true_iff_false, !gap_leb_iff. lia. Qed.

Lemma gap_leb_trans a b c : gap_leb a b = true -> gap_leb b c = true -> gap_leb a c = true.
Proof. rewrite !gap_leb_iff. lia. Qed.

Lemma gap_above_iff a b : gap_above a b = true <->
  gap_size b < gap_size a \/ gap_size a = gap_size b /\ le (gap_run b) (gap_run a).
Proof. unfold gap_above. by rewrite orb_true_iff, andb_true_iff, Z.ltb_lt, Z.eqb_eq, Nat.leb_le. Qed.

Lemma gap_above_total a b : gap_above a b = false -> gap_above b a = true.
Proof. rewrite <- not_true_iff_false, !gap_above_iff. lia. Qed.

Lemma gap_above_trans a b c : gap_above a b = true -> gap_above b c = true -> gap_above a c = true.
Proof. rewrite !gap_above_iff. lia. Qed.

(** ** The heap keeps the largest gaps *)

Lemma keep_gap_step s gap : sorted gap_leb s ->
  keep_gap (drop (length s - kept_gap_count) s) gap =
  drop (length (insert_by gap_leb gap s) - kept_gap_count) (insert_by gap_leb gap s).
Proof.
  intros Hs. assert (Hlen : length (insert_by gap_leb gap s) = S (length s)).
  { by rewrite (Permutation_length (insert_perm gap_leb gap s)). }
  unfold keep_gap. rewrite Hlen, length_drop.
  destruct (Nat.ltb_spec (length s - (length s - kept_gap_count)) kept_gap_count).
  - replace (length s - kept_gap_count)%nat with 0%nat by lia. by replace (S (length s) - kept_gap_count)%nat with 0%nat by lia.
  - assert (Hk : (0 < kept_gap_count)%nat) by (unfold kept_gap_count, MAX_PRESENCE_RUNS_PER_BLOCK; lia).
    replace (S (length s) - kept_gap_count)%nat with (S (length s - kept_gap_count)) by lia.
    destruct (drop (length s - kept_gap_count) s) as [|h rest] eqn:Hd.
    { apply (f_equal length) in Hd. rewrite length_drop in Hd. cbn in Hd. lia. }
    destruct (gap_leb gap h) eqn:Hg.
    + by rewrite (insert_front gap_leb gap s _ h rest).
    + symmetry. apply (insert_back gap_leb gap_leb_trans _ _ _ h); done.
Qed.

Lemma keep_gaps gaps : exists s, sorted gap_leb s /\ s ≡ₚ gaps /\
  fold_left keep_gap gaps [] = drop (length s - kept_gap_count) s.
Proof.
  induction gaps as [|g gaps (s & Hs & Hp & Hk)] using rev_ind; [exists []; by repeat split; constructor|].
  exists (insert_by gap_leb g s). split; [apply insert_sorted; [apply gap_leb_total|apply gap_leb_trans|done]|]. split.
  - rewrite insert_perm, Hp. apply Permutation_cons_append.
  - rewrite fold_left_app, Hk. cbn [fold_left]. by apply keep_gap_step.
Qed.

(** The gaps that the selection keeps, before they are put in the order of the words. *)
Definition selected_gaps (gaps : list Gap) : list Gap :=
  if Nat.ltb kept_gap_count (length gaps) then take kept_gap_count (sort_by gap_above gaps) else gaps.

Lemma sorted_rev {A} (R : A -> A -> Prop) l : StronglySorted R l -> StronglySorted (flip R) (rev l).
Proof.
  induction 1 as [|x l Hl IH Hx]; cbn; [constructor|]. apply sorting.StronglySorted_app. split; [|split; [done|repeat constructor]].
  intros y z Hy Hz. apply list_elem_of_singleton in Hz as ->. rewrite Forall_forall in Hx. apply Hx.
  by rewrite <- Permutation_rev in Hy.
Qed.

(** The heap and the selection keep the same gaps. *)
Lemma keep_gaps_selected gaps : (forall a b, In a gaps -> In b gaps -> gap_run a = gap_run b -> a = b) ->
  fold_left keep_gap gaps [] ≡ₚ selected_gaps gaps.
Proof.
  intros Hinj. destruct (keep_gaps gaps) as (s & Hs & Hp & ->). unfold selected_gaps.
  pose proof (Permutation_length Hp) as Hlen.
  destruct (Nat.ltb_spec kept_gap_count (length gaps)) as [Hlt|Hge].
  - assert (sort_by gap_above gaps = rev s) as ->.
    { apply (sorting.StronglySorted_unique_strong (fun a b => gap_above a b = true)).
      - intros a b Ha Hb Hab Hba. rewrite sort_perm in Ha. rewrite <- Permutation_rev, Hp in Hb.
        apply list_elem_of_In in Ha, Hb. apply Hinj; [done..|]. apply gap_above_iff in Hab, Hba. lia.
      - apply sort_sorted; [apply gap_above_total|apply gap_above_trans].
      - eapply Sorted.StronglySorted_ind; [| |exact (sorted_rev _ _ Hs)]; [constructor|].
        intros a l Hl IH Ha. constructor; [done|]. eapply Forall_impl; [exact Ha|]. intros b Hb.
        apply gap_above_iff. apply gap_leb_iff in Hb. lia.
      - by rewrite sort_perm, <- Permutation_rev, Hp. }
    rewrite firstn_rev. apply Permutation_rev.
  - replace (length s - kept_gap_count)%nat with 0%nat by lia. by rewrite drop_0.
Qed.

(** A gap that is not kept is not longer than one that is kept. *)
Lemma selected_largest gaps a b : In a (selected_gaps gaps) -> In b gaps -> ~ In b (selected_gaps gaps) ->
  gap_size b <= gap_size a.
Proof.
  unfold selected_gaps. destruct (Nat.ltb_spec kept_gap_count (length gaps)); [|done]. intros Ha Hb Hnb.
  pose proof (sort_sorted gap_above gap_above_total gap_above_trans gaps) as Hs. unfold sorted in Hs.
  assert (Hb' : b ∈ sort_by gap_above gaps) by (rewrite sort_perm; by apply list_elem_of_In).
  rewrite <- (take_drop kept_gap_count (sort_by gap_above gaps)) in Hs, Hb'.
  apply sorting.StronglySorted_app in Hs as [Hs _]. apply elem_of_app in Hb' as [Hb'|Hb'].
  - apply list_elem_of_In in Hb'. done.
  - apply list_elem_of_In in Ha. specialize (Hs a b Ha Hb'). apply gap_above_iff in Hs. lia.
Qed.

Lemma selected_subset gaps a : In a (selected_gaps gaps) -> In a gaps.
Proof.
  unfold selected_gaps. destruct (Nat.ltb_spec kept_gap_count (length gaps)); [|done].
  rewrite <- !list_elem_of_In. intros Ha. apply (subseteq_take kept_gap_count) in Ha. by rewrite sort_perm in Ha.
Qed.

Lemma selected_length gaps : (length (selected_gaps gaps) <= kept_gap_count)%nat.
Proof.
  unfold selected_gaps. destruct (Nat.ltb_spec kept_gap_count (length gaps)); [|done]. rewrite length_take. lia.
Qed.

(** ** Boundaries *)

Definition boundaries (gaps : list Gap) : list nat := map gap_word (retained_gaps gaps).

Lemma retained_gaps_perm gaps : retained_gaps gaps ≡ₚ selected_gaps gaps.
Proof. apply sort_perm. Qed.

Lemma map_sorted {A} (key : A -> nat) l :
  sorted (fun a b => Nat.leb (key a) (key b)) l -> sorted Nat.leb (map key l).
Proof.
  unfold sorted. induction 1 as [|x l Hl IH Hx]; cbn; [constructor|]. constructor; [done|]. by apply Forall_map.
Qed.

Lemma boundaries_sorted gaps : sorted Nat.leb (boundaries gaps).
Proof.
  apply map_sorted, sort_sorted; intros *; rewrite ?Nat.leb_le, ?Nat.leb_gt; lia.
Qed.

Lemma free_boundaries gaps : (forall a b, In a gaps -> In b gaps -> gap_run a = gap_run b -> a = b) ->
  sort_by Nat.leb (map gap_word (fold_left keep_gap gaps [])) = boundaries gaps.
Proof.
  intros Hinj. apply (sorting.StronglySorted_unique_strong (fun a b => Nat.leb a b = true)).
  - intros a b _ _. rewrite !Nat.leb_le. lia.
  - apply sort_sorted; intros *; rewrite ?Nat.leb_le, ?Nat.leb_gt; lia.
  - apply boundaries_sorted.
  - unfold boundaries. by rewrite sort_perm, keep_gaps_selected, retained_gaps_perm.
Qed.

(** ** The passes over the words of a block, against the gaps and the cuts between runs in closed form. *)

(** ** Cutting a block at given boundaries *)

Section Cut.
Context (run : nat -> nat -> WordSummaryRecord).

Fixpoint cut (start : nat) (bs : list nat) (n : nat) : list WordSummaryRecord :=
  match bs with
  | [] => [run start n]
  | b :: bs => run start b :: cut b bs n
  end.

Lemma cut_snoc start bs b n : cut start (bs ++ [b]) n = cut start bs b ++ [run b n].
Proof. revert start. induction bs as [|b' bs IH]; intros start; cbn; [done|]. by rewrite IH. Qed.

Lemma cut_last start bs n : cut start bs n =
  take (length bs) (cut start bs n) ++ [run (List.last bs start) n].
Proof.
  induction bs as [|b bs _] using rev_ind; [done|]. rewrite cut_snoc, length_app, last_last. cbn [length].
  assert (Hl : length (cut start bs b) = (length bs + 1)%nat).
  { clear. revert start. induction bs as [|b' bs IH]; intros start; cbn; [done|]. by rewrite IH. }
  by rewrite take_app_length'.
Qed.

Lemma cut_length start bs n : length (cut start bs n) = S (length bs).
Proof. revert start. induction bs as [|b bs IH]; intros start; cbn; [done|]. by rewrite IH. Qed.

(** All but the last run do not depend on where the last one ends. *)
Lemma cut_init start bs n m : take (length bs) (cut start bs n) = take (length bs) (cut start bs m).
Proof. revert start. induction bs as [|b bs IH]; intros start; cbn; [done|]. f_equal. apply IH. Qed.
End Cut.

Lemma length_pos {A} (l : list A) : l <> [] -> (0 < length l)%nat.
Proof. destruct l; [done|cbn; lia]. Qed.

Lemma general_unfold block words : words <> [] -> general_word_presence_summaries block words =
  let '(_, _, gaps) :=
    fold_left (general_gap_step words) (seq 1 (length words - 1)) (presence_word_end_ns words 0, 0%nat, []) in
  snd (fold_left (general_run_step block words (retained_gaps gaps)) (seq 0 (length words)) (0%nat, [])).
Proof. by destruct words. Qed.

Lemma free_unfold block words : words <> [] -> duration_free_word_presence_summaries block words =
  let '(_, largest_gaps) := fold_left (free_gap_step words) (seq 1 (length words - 1)) (0%nat, []) in
  snd (fold_left (free_run_step block words) (sort_by Nat.leb (map gap_word largest_gaps) ++ [length words]) (0%nat, [])).
Proof. by destruct words. Qed.

(** ** Ends of words *)

Section Block.
Context (block : Z) (words : list Word).
Hypothesis (Hok : Forall times_ok words) (Hsorted : ascending timestamp_ns words).
Hypothesis (Hlen : zlen words < u64_max).

Definition start_at (i : nat) : Z := timestamp_ns (words !!! i).
Definition end_at (i : nat) : Z := presence_word_end_ns words i.

(** The latest end of the words from [a] to [b - 1]. *)
Definition latest (a b : nat) : Z := fold_right Z.max 0 (map end_at (seq a (b - a))).

Definition run_of (a b : nat) : WordSummaryRecord :=
  mkSummary (start_at a) (latest a b) (Z.of_nat (b - a)) block 1.

Lemma nth_times_ok i : (i < length words)%nat -> times_ok (words !!! i).
Proof. intros Hi. rewrite Forall_forall in Hok. by apply Hok, list_elem_of_lookup_total_2. Qed.

Lemma start_at_mono i j : (i <= j < length words)%nat -> start_at i <= start_at j.
Proof.
  intros Hij. unfold start_at. destruct (lookup_lt_is_Some_2 words i ltac:(lia)) as [a Ha].
  destruct (lookup_lt_is_Some_2 words j ltac:(lia)) as [b Hb].
  rewrite (list_lookup_total_correct _ _ _ Ha), (list_lookup_total_correct _ _ _ Hb).
  apply (ascending_lookup timestamp_ns words i j); [done|lia|done|done].
Qed.

Lemma end_at_range i : (i < length words)%nat -> start_at i <= end_at i <= u64_max.
Proof.
  intros Hi. destruct (nth_times_ok i Hi) as [Ht Hd]. unfold end_at, presence_word_end_ns, start_at. cbv zeta.
  destruct (Z.eqb_spec (duration_ns (words !!! i)) 0); cbn [negb]; [|ints].
  destruct (words !! S i) as [next|]; [by apply instantaneous_end_range|].
  destruct (previous_start words i) as [p|]; [destruct (Z.ltb_spec 0 (saturating_sub64 (timestamp_ns (words !!! i)) p))|];
    unfold MAX_PRESENCE_CADENCE_NS; ints.
Qed.

Lemma latest_one a : (a < length words)%nat -> latest a (S a) = end_at a.
Proof.
  intros Ha. unfold latest. replace (S a - a)%nat with 1%nat by lia. cbn.
  destruct (end_at_range a Ha), (nth_times_ok a Ha) as [Ht _]. unfold start_at, u64 in *. lia.
Qed.

Lemma fold_max_app l1 l2 : fold_right Z.max 0 (l1 ++ l2) = Z.max (fold_right Z.max 0 l1) (fold_right Z.max 0 l2).
Proof. induction l1 as [|x l1 IH]; cbn; [|lia]. induction l2 as [|y l2 IH]; cbn in *; lia. Qed.

Lemma latest_split a m b : (a <= m <= b)%nat -> latest a b = Z.max (latest a m) (latest m b).
Proof.
  intros H. unfold latest. replace (b - a)%nat with ((m - a) + (b - m))%nat by lia.
  rewrite seq_app, map_app, fold_max_app. by replace (a + (m - a))%nat with m by lia.
Qed.

Lemma latest_snoc a b : (a <= b < length words)%nat -> latest a (S b) = Z.max (latest a b) (end_at b).
Proof. intros H. rewrite (latest_split a b) by lia. by rewrite latest_one by lia. Qed.

Lemma latest_end a b i : (a <= i < b)%nat -> (b <= length words)%nat -> end_at i <= latest a b.
Proof.
  intros Hi Hb. rewrite (latest_split a i), (latest_split i (S i)), latest_one by lia. lia.
Qed.

(** ** Gaps *)

Definition gap_indices (n : nat) : list nat :=
  filter (fun j => latest 0 j < start_at j) (seq 1 (n - 1)).

Definition gap_at (k j : nat) : Gap := (start_at j - latest 0 j, k, j).

Definition gaps_of (n : nat) : list Gap := imap gap_at (gap_indices n).

Lemma gap_indices_snoc n : (0 < n)%nat -> gap_indices (S n) =
  gap_indices n ++ if decide (latest 0 n < start_at n) then [n] else [].
Proof.
  intros Hn. unfold gap_indices. replace (S n - 1)%nat with (n - 1 + 1)%nat by lia.
  rewrite seq_app, filter_app. replace (1 + (n - 1))%nat with n by lia. f_equal.
Qed.

Lemma gaps_of_run n a b : In a (gaps_of n) -> In b (gaps_of n) -> gap_run a = gap_run b -> a = b.
Proof.
  unfold gaps_of. rewrite <- !list_elem_of_In, !list_elem_of_lookup. intros [i Hi] [j Hj] Hr.
  rewrite list_lookup_imap in Hi, Hj. apply fmap_Some in Hi as (x & Hx & ->). apply fmap_Some in Hj as (y & Hy & ->).
  cbn in Hr. subst j. congruence.
Qed.

Lemma general_gaps n : (0 < n <= length words)%nat ->
  fold_left (general_gap_step words) (seq 1 (n - 1)) (presence_word_end_ns words 0, 0%nat, []) =
  (latest 0 n, length (gap_indices n), gaps_of n).
Proof.
  induction n as [|n IH]; intros Hn; [lia|]. destruct (Nat.eq_dec n O) as [->|Hn0].
  { by rewrite latest_one by lia. }
  replace (S n - 1)%nat with (n - 1 + 1)%nat by lia. rewrite seq_app, fold_left_app, IH by lia.
  replace (1 + (n - 1))%nat with n by lia. cbn [seq fold_left general_gap_step].
  fold (end_at n) (start_at n). unfold gaps_of. rewrite gap_indices_snoc, latest_snoc by lia.
  pose proof (end_at_range n ltac:(lia)). destruct (Z.leb_spec (start_at n) (latest 0 n)) as [Hle|Hgt].
  - rewrite decide_False, !app_nil_r by lia. done.
  - rewrite decide_True, length_app, imap_app by lia. cbn [length imap]. unfold gap_at at 3.
    rewrite saturating_sub64_small, Nat.add_0_r, Nat.add_1_r by lia. f_equal. f_equal. lia.
Qed.

Lemma gap_indices_spec n j : In j (gap_indices n) <-> (0 < j < n)%nat /\ latest 0 j < start_at j.
Proof.
  unfold gap_indices. rewrite <- list_elem_of_In, list_elem_of_filter, elem_of_seq. split; intros; split; (done || lia).
Qed.

Lemma gaps_of_words n : map gap_word (gaps_of n) = gap_indices n.
Proof.
  unfold gaps_of. change (map gap_word (imap gap_at (gap_indices n))) with (gap_word <$> imap gap_at (gap_indices n)).
  rewrite fmap_imap. apply list_eq. intros i. rewrite list_lookup_imap. cbn. by destruct (gap_indices n !! i).
Qed.

(** ** Runs *)

(** Boundaries in strictly ascending order, each inside the block. *)
Definition boundaries_ok (bs : list nat) (n : nat) : Prop :=
  StronglySorted lt bs /\ Forall (fun b => 0 < b < n)%nat bs.

Lemma update_last_snoc f l x : update_last f (l ++ [x]) = l ++ [f x].
Proof.
  unfold update_last. rewrite length_app. cbn [length]. replace (length l + 1 - 1)%nat with (length l + 0)%nat by lia.
  by rewrite alter_app_r.
Qed.

Lemma run_of_snoc a n : (a < n < length words)%nat ->
  (fun current => mkSummary (summary_start current) (Z.max (summary_end current) (end_at n))
     (saturating_add64 (summary_words current) 1) (first_block current) (block_count current)) (run_of a n) =
  run_of a (S n).
Proof.
  intros H. unfold run_of. cbn [summary_start summary_end summary_words first_block block_count].
  rewrite latest_snoc by lia. f_equal. unfold zlen in Hlen. rewrite saturating_add64_small by lia. lia.
Qed.

Lemma last_in (bs : list nat) start : In (List.last bs start) (start :: bs).
Proof.
  induction bs as [|b bs _] using rev_ind; [by left|]. rewrite last_last. right. apply in_or_app. right. by left.
Qed.

(** A word that starts no run extends the last one. *)
Lemma extend_last bs n : (0 < n < length words)%nat -> Forall (fun b => 0 < b < n)%nat bs ->
  update_last (fun current => mkSummary (summary_start current) (Z.max (summary_end current) (end_at n))
     (saturating_add64 (summary_words current) 1) (first_block current) (block_count current))
    (cut run_of 0 bs n) = cut run_of 0 bs (S n).
Proof.
  intros Hn Hb. rewrite (cut_last _ _ _ n), update_last_snoc, run_of_snoc, (cut_init _ _ _ n (S n)).
  - symmetry. apply cut_last.
  - destruct (last_in bs 0) as [<-|Hin]; [lia|]. rewrite List.Forall_forall in Hb. specialize (Hb _ Hin). lia.
Qed.

Lemma general_runs gaps bs n : map gap_word gaps = bs -> boundaries_ok bs (length words) ->
  (0 < n <= length words)%nat ->
  exists bs1 bs2, bs = bs1 ++ bs2 /\ Forall (fun b => 0 < b < n)%nat bs1 /\ Forall (fun b => n <= b)%nat bs2 /\
    fold_left (general_run_step block words gaps) (seq 0 n) (0%nat, []) = (length bs1, cut run_of 0 bs1 n).
Proof.
  intros Hg [Hs Hb] Hn. induction n as [|n IH]; [lia|].
  assert (Hstart : forall k, match gaps !! k with Some gap => Nat.eqb (gap_word gap) n | None => false end =
    match bs !! k with Some b => Nat.eqb b n | None => false end).
  { intros k. rewrite <- Hg. change (map gap_word gaps) with (gap_word <$> gaps). rewrite list_lookup_fmap.
    by destruct (gaps !! k). }
  rewrite seq_S, fold_left_app. cbn [fold_left plus]. destruct (Nat.eq_dec n O) as [->|Hn0].
  - exists [], bs. split; [done|]. split; [constructor|]. split; [eapply Forall_impl; [exact Hb|cbn; lia]|].
    cbn [seq fold_left general_run_step length]. rewrite Hstart. destruct bs as [|b bs]; cbn [lookup list_lookup].
    + cbn. unfold run_of. by rewrite latest_one by lia.
    + apply Forall_cons in Hb as [Hb _]. destruct (Nat.eqb_spec b 0); [lia|]. cbn. unfold run_of. by rewrite latest_one by lia.
  - destruct IH as (bs1 & bs2 & Heq & H1 & H2 & ->); [lia|]. cbn [general_run_step]. rewrite Hstart.
    fold (end_at n) (start_at n). rewrite Heq, lookup_app_r, Nat.sub_diag, cut_length by lia.
    destruct bs2 as [|b bs2]; cbn [lookup list_lookup].
    + exists bs1, []. split; [done|]. split; [eapply Forall_impl; [exact H1|cbn; lia]|]. split; [constructor|].
      cbn [negb andb Nat.eqb]. f_equal. apply extend_last; [lia|done].
    + apply Forall_cons in H2 as [H2 H2']. rewrite Heq in Hs. apply sorting.StronglySorted_app in Hs as (_ & _ & Hs).
      apply StronglySorted_inv in Hs as [_ Hs]. destruct (Nat.eqb_spec b n) as [->|Hne].
      * exists (bs1 ++ [n]), bs2. split; [by rewrite <- app_assoc|]. split; [|split].
        -- apply Forall_app. split; [eapply Forall_impl; [exact H1|cbn; lia]|]. repeat constructor; lia.
        -- eapply Forall_impl; [exact Hs|cbn; lia].
        -- cbn [negb andb]. rewrite cut_snoc, length_app. cbn [length]. f_equal; [lia|]. f_equal.
           unfold run_of. rewrite latest_one by lia. by replace (S n - n)%nat with 1%nat by lia.
      * exists bs1, (b :: bs2). split; [done|]. split; [eapply Forall_impl; [exact H1|cbn; lia]|].
        split; [constructor; [lia|eapply Forall_impl; [exact Hs|cbn; lia]]|].
        cbn [negb andb Nat.eqb]. f_equal. apply extend_last; [lia|done].
Qed.

(** The boundaries that the gaps of the block give. *)
Definition block_boundaries : list nat := boundaries (gaps_of (length words)).

Lemma block_boundaries_in b : In b block_boundaries -> In b (gap_indices (length words)).
Proof.
  intros Hb. rewrite <- gaps_of_words. unfold block_boundaries, boundaries in Hb.
  apply in_map_iff in Hb as (g & <- & Hg). apply in_map, selected_subset.
  apply list_elem_of_In. apply list_elem_of_In in Hg. by rewrite retained_gaps_perm in Hg.
Qed.

Lemma NoDup_sorted_lt (l : list nat) : NoDup l -> sorted Nat.leb l -> StronglySorted lt l.
Proof.
  intros Hn Hs. induction Hs as [|x l Hl IH Hx]; [constructor|]. apply NoDup_cons in Hn as [Hx' Hn].
  constructor; [by apply IH|]. rewrite Forall_forall in *. intros y Hy. specialize (Hx y Hy). apply Nat.leb_le in Hx.
  destruct (decide (x = y)) as [->|]; [done|lia].
Qed.

Lemma NoDup_take_sub {A} (l : list A) n : NoDup l -> NoDup (take n l).
Proof. intros H. rewrite <- (take_drop n l) in H. by apply NoDup_app in H as [H _]. Qed.

Lemma block_boundaries_ok : boundaries_ok block_boundaries (length words).
Proof.
  split.
  - apply NoDup_sorted_lt; [|apply boundaries_sorted]. unfold block_boundaries, boundaries.
    rewrite (Permutation_map gap_word (retained_gaps_perm _)). unfold selected_gaps.
    assert (Hnd : NoDup (map gap_word (gaps_of (length words)))).
    { rewrite gaps_of_words. apply NoDup_filter, NoDup_seq. }
    destruct (Nat.ltb _ _); [|done]. change (NoDup (gap_word <$> take kept_gap_count (sort_by gap_above (gaps_of (length words))))).
    rewrite fmap_take. apply NoDup_take_sub. change (NoDup (map gap_word (sort_by gap_above (gaps_of (length words))))).
    by rewrite (Permutation_map gap_word (sort_perm _ _)).
  - apply List.Forall_forall. intros b Hb. apply block_boundaries_in, gap_indices_spec in Hb. lia.
Qed.

Lemma general_summaries_cut : words <> [] ->
  general_word_presence_summaries block words = cut run_of 0 block_boundaries (length words).
Proof.
  intros Hne. rewrite general_unfold by done.
  assert (0 < length words)%nat by (by apply length_pos). rewrite general_gaps by lia.
  destruct (general_runs (retained_gaps (gaps_of (length words))) block_boundaries (length words)) as (bs1 & bs2 & Heq & H1 & H2 & ->);
    [done|apply block_boundaries_ok|lia|]. cbn [snd]. rewrite Heq.
  destruct bs2 as [|b bs2]; [by rewrite app_nil_r|]. exfalso.
  apply Forall_cons in H2 as [H2 _]. destruct block_boundaries_ok as [_ Hb]. rewrite Heq in Hb.
  apply Forall_app in Hb as [_ Hb]. apply Forall_cons in Hb as [Hb _]. lia.
Qed.

(** ** Words without durations *)

Hypothesis Hfree : Forall (fun w => duration_ns w = 0) words.

Lemma free_end_eq i : (i < length words)%nat -> duration_free_presence_word_end_ns words i = end_at i.
Proof.
  intros Hi. unfold end_at, presence_word_end_ns, duration_free_presence_word_end_ns. cbv zeta.
  rewrite Forall_forall in Hfree. by rewrite (Hfree (words !!! i)) by (by apply list_elem_of_lookup_total_2).
Qed.

(** A word without a duration ends no later than the next one starts. *)
Lemma free_end_next i : (S i < length words)%nat -> end_at i <= start_at (S i).
Proof.
  intros Hi. rewrite <- free_end_eq by lia. unfold duration_free_presence_word_end_ns, start_at. cbv zeta.
  destruct (lookup_lt_is_Some_2 words (S i) Hi) as [next Hn]. rewrite Hn, (list_lookup_total_correct _ _ _ Hn).
  pose proof (start_at_mono i (S i) ltac:(lia)) as Hm. unfold start_at in Hm. rewrite (list_lookup_total_correct _ _ _ Hn) in Hm.
  unfold instantaneous_word_end_ns_with_limit. cbv zeta. rewrite saturating_sub64_small by lia.
  generalize (Z.min (default MAX_PRESENCE_CADENCE_NS (match previous_start words i with
    | Some previous => let interval := saturating_sub64 (timestamp_ns (words !!! i)) previous in
        if 0 <? interval then Some interval else None | None => None end)) MAX_PRESENCE_CADENCE_NS).
  intros z. unfold saturating_add64. lia.
Qed.

Lemma free_latest a b : (a < b <= length words)%nat -> latest a b = end_at (b - 1).
Proof.
  intros Hab. induction b as [|b IH]; [lia|]. replace (S b - 1)%nat with b by lia.
  destruct (decide (a = b)) as [->|Hne]; [by rewrite latest_one by lia|].
  rewrite latest_snoc, IH by lia. pose proof (free_end_next (b - 1) ltac:(lia)) as Hn.
  replace (S (b - 1)) with b in Hn by lia. pose proof (end_at_range b ltac:(lia)). lia.
Qed.

Lemma free_gaps n : (0 < n <= length words)%nat ->
  fold_left (free_gap_step words) (seq 1 (n - 1)) (0%nat, []) =
  (length (gap_indices n), fold_left keep_gap (gaps_of n) []).
Proof.
  induction n as [|n IH]; intros Hn; [lia|]. destruct (Nat.eq_dec n O) as [->|Hn0]; [done|].
  replace (S n - 1)%nat with (n - 1 + 1)%nat by lia. rewrite seq_app, fold_left_app, IH by lia.
  replace (1 + (n - 1))%nat with n by lia. cbn [seq fold_left free_gap_step].
  rewrite free_end_eq, <- (free_latest 0 n) by lia. fold (start_at n).
  unfold gaps_of. rewrite gap_indices_snoc by lia.
  destruct (Z.leb_spec (start_at n) (latest 0 n)) as [Hle|Hgt].
  - by rewrite decide_False, !app_nil_r by lia.
  - rewrite decide_True, length_app, imap_app, fold_left_app by lia. cbn [length imap fold_left]. unfold gap_at at 3.
    rewrite saturating_sub64_small, Nat.add_0_r, Nat.add_1_r by lia. done.
Qed.

Lemma free_runs bs start acc n : StronglySorted lt (start :: bs ++ [n]) -> (n <= length words)%nat ->
  snd (fold_left (free_run_step block words) (bs ++ [n]) (start, acc)) = acc ++ cut run_of start bs n.
Proof.
  revert start acc. induction bs as [|b bs IH]; intros start acc Hs Hn; cbn [app fold_left free_run_step] in *.
  - apply StronglySorted_inv in Hs as [_ Hs]. apply Forall_cons in Hs as [Hs _]. cbn [snd cut]. unfold run_of.
    by rewrite free_end_eq, <- (free_latest start) by lia.
  - apply StronglySorted_inv in Hs as [Hs Hb]. apply Forall_cons in Hb as [Hb _].
    assert (b < n)%nat. { apply StronglySorted_inv in Hs as [_ Hs]. apply Forall_app in Hs as [_ Hs]. by apply Forall_cons in Hs as [Hs _]. }
    rewrite IH by done. rewrite <- app_assoc. cbn [app cut]. unfold run_of at 2.
    by rewrite free_end_eq, <- (free_latest start) by lia.
Qed.

Lemma free_summaries_cut : words <> [] ->
  duration_free_word_presence_summaries block words = cut run_of 0 block_boundaries (length words).
Proof.
  intros Hne. rewrite free_unfold by done. assert (0 < length words)%nat by (by apply length_pos).
  rewrite free_gaps by lia. rewrite free_boundaries by apply gaps_of_run. fold block_boundaries.
  destruct block_boundaries_ok as [Hs Hb]. rewrite free_runs; [done| |lia].
  constructor; [|apply Forall_app; split; [eapply Forall_impl; [exact Hb|cbn; lia]|by repeat constructor]].
  apply sorting.StronglySorted_app. split; [|split; [done|repeat constructor]].
  intros x y Hx Hy. apply list_elem_of_singleton in Hy as ->. rewrite Forall_forall in Hb. by apply Hb.
Qed.
End Block.
