(* ===== verification/WordPresenceProperties.v ===== *)
(** What the presence index promises: the runs of a block are disjoint and hold all its words, both
    ways to compute them agree, and the overview query counts what each run contributes. *)

From stdpp Require sorting.
From S2P Require Import Prelude Events WordPresence WordPresenceIndex WordPresenceProofs.
From S2P Require Import WordPresenceRuns.

(** ** The runs of a block *)

Lemma cut_zip run start bs n : cut run start bs n = zip_with run (start :: bs) (bs ++ [n]).
Proof. revert start. induction bs as [|b bs IH]; intros start; cbn; [done|]. by rewrite IH. Qed.

Lemma cut_lookup run start bs n i r : cut run start bs n !! i = Some r ->
  exists a b, (start :: bs) !! i = Some a /\ (bs ++ [n]) !! i = Some b /\ r = run a b.
Proof.
  rewrite cut_zip. intros H. apply lookup_zip_with_Some in H as (a & b & -> & Ha & Hb). by exists a, b.
Qed.

Lemma cut_total block words start bs n : StronglySorted lt (start :: bs ++ [n]) ->
  total (cut (run_of block words) start bs n) = Z.of_nat (n - start).
Proof.
  revert start. induction bs as [|b bs IH]; intros start Hs; cbn [cut app] in *; [unfold total; cbn; lia|].
  apply StronglySorted_inv in Hs as [Hs Hb]. apply Forall_cons in Hb as [Hb _].
  assert (b < n)%nat by (apply StronglySorted_inv in Hs as [_ Hs]; apply Forall_app in Hs as [_ Hs]; by apply Forall_cons in Hs as [Hs _]).
  change (total (?r :: ?l)) with (summary_words r + total l). rewrite IH by done. cbn. lia.
Qed.

(** Every position is between two cuts. *)
Lemma cut_covers run start bs n i : (start <= i < n)%nat ->
  exists a b, (a <= i < b)%nat /\ In (run a b) (cut run start bs n) /\ In a (start :: bs) /\ In b (bs ++ [n]).
Proof.
  revert start. induction bs as [|b bs IH]; intros start Hi; cbn [cut app].
  - exists start, n. split; [done|]. split; [by left|]. split; [by left|by left].
  - destruct (Nat.lt_ge_cases i b).
    + exists start, b. split; [lia|]. split; [by left|]. split; [by left|by left].
    + destruct (IH b ltac:(lia)) as (a & c & Hac & Hin & Ha & Hc). exists a, c.
      split; [done|]. split; [by right|]. split; [by right|by right].
Qed.

Section Runs.
Context (block : Z) (words : list Word).
Hypothesis (Hok : Forall times_ok words) (Hsorted : ascending timestamp_ns words) (Hne : words <> []).

Let runs := cut (run_of block words) 0 (block_boundaries words) (length words).

Lemma cuts_sorted : StronglySorted lt (0%nat :: block_boundaries words ++ [length words]).
Proof.
  destruct (block_boundaries_ok words) as [Hs Hb]. pose proof (length_pos words Hne).
  constructor; [|apply Forall_app; split; [eapply Forall_impl; [exact Hb|cbn; lia]|by repeat constructor]].
  apply sorting.StronglySorted_app. split; [|split; [done|repeat constructor]].
  intros x y Hx Hy. apply list_elem_of_singleton in Hy as ->. rewrite Forall_forall in Hb. by apply Hb.
Qed.

Lemma cut_bounds i a b : (0%nat :: block_boundaries words) !! i = Some a ->
  (block_boundaries words ++ [length words]) !! i = Some b -> (a < b <= length words)%nat.
Proof.
  intros Ha Hb. pose proof cuts_sorted as Hs. apply list_elem_of_lookup_2 in Hb as Hin.
  split.
  - change (0%nat :: block_boundaries words ++ [length words]) with ((0%nat :: block_boundaries words) ++ [length words]) in Hs.
    assert (Hall : forall l : list nat, StronglySorted lt l -> forall i x y, l !! i = Some x -> l !! S i = Some y -> (x < y)%nat).
    { clear. induction 1 as [|x l Hl IH Hx]; intros i y z Hy Hz; [done|]. destruct i as [|i]; [|by apply (IH i)].
      injection Hy as ->. rewrite Forall_forall in Hx. by apply Hx, (list_elem_of_lookup_2 _ 0). }
    apply (Hall _ Hs i); [|done]. rewrite lookup_app_l; [done|by apply lookup_lt_Some in Ha].
  - apply elem_of_app in Hin as [Hin|Hin]; [|by apply list_elem_of_singleton in Hin as ->].
    destruct (block_boundaries_ok words) as [_ Hf]. rewrite Forall_forall in Hf. specialize (Hf b Hin). lia.
Qed.

Lemma runs_covers i : (i < length words)%nat ->
  exists r, In r runs /\ summary_start r <= start_at words i /\ end_at words i <= summary_end r.
Proof.
  intros Hi. destruct (cut_covers (run_of block words) 0 (block_boundaries words) (length words) i) as (a & b & Hab & Hin & Ha & Hb); [lia|].
  exists (run_of block words a b). split; [done|]. cbn. split.
  - apply start_at_mono; [done|lia].
  - apply latest_end; [done|done|]. destruct (block_boundaries_ok words) as [_ Hf]. rewrite List.Forall_forall in Hf.
    apply in_app_or in Hb as [Hb|[<-|[]]]; [specialize (Hf b Hb)|]; lia.
Qed.

Lemma runs_gap i r r' : runs !! i = Some r -> runs !! S i = Some r' ->
  exists b, In b (block_boundaries words) /\ summary_start r' = start_at words b /\
    summary_end r = latest words 0 b /\ latest words 0 b < start_at words b.
Proof.
  intros Hr Hr'. apply cut_lookup in Hr as (a & b & Ha & Hb & ->). apply cut_lookup in Hr' as (b' & c & Hb' & Hc & ->).
  pose proof (cut_bounds i a b Ha Hb) as Hab. pose proof (cut_bounds (S i) b' c Hb' Hc) as Hbc.
  change (block_boundaries words !! i = Some b') in Hb'.
  rewrite lookup_app_l in Hb by (by apply lookup_lt_Some in Hb'). assert (b' = b) as -> by congruence.
  assert (Hin : In b (block_boundaries words)) by (apply list_elem_of_In; by apply list_elem_of_lookup_2 in Hb).
  exists b. split; [done|]. split; [done|]. cbn [run_of summary_end].
  pose proof (block_boundaries_in words b Hin) as Hg. apply gap_indices_spec in Hg as [_ Hg]. split; [|done].
  rewrite (latest_split words 0 a b) by lia. destruct i as [|i].
  - injection Ha as <-. replace (latest words 0 0) with 0 by done.
    rewrite (latest_split words 0 0 b) by lia. replace (latest words 0 0) with 0 by done. lia.
  - change (block_boundaries words !! i = Some a) in Ha. assert (Hina : In a (block_boundaries words)) by (apply list_elem_of_In; by apply list_elem_of_lookup_2 in Ha).
    pose proof (block_boundaries_in words a Hina) as Hga. apply gap_indices_spec in Hga as [_ Hga].
    pose proof (end_at_range words Hok a ltac:(lia)). pose proof (latest_end words Hok a b a ltac:(lia) ltac:(lia)). lia.
Qed.

Lemma runs_in r : In r runs -> exists a b, (a < b <= length words)%nat /\ r = run_of block words a b.
Proof.
  intros [i Hi]%list_elem_of_In%list_elem_of_lookup. apply cut_lookup in Hi as (a & b & Ha & Hb & ->).
  exists a, b. split; [|done]. by apply (cut_bounds i).
Qed.

Lemma runs_ascending : ascending summary_start runs.
Proof.
  unfold runs. pose proof cuts_sorted as Hs. revert Hs. generalize 0%nat as start. generalize (block_boundaries words) as bs.
  assert (Hlater : forall bs start r, StronglySorted lt (start :: bs ++ [length words]) ->
    In r (cut (run_of block words) start bs (length words)) -> exists a, (start <= a < length words)%nat /\ summary_start r = start_at words a).
  { induction bs as [|b bs IH]; intros start r Hss Hr; cbn [cut app] in *; apply StronglySorted_inv in Hss as [Hss Hb].
    - destruct Hr as [<-|[]]. apply Forall_cons in Hb as [Hb _]. by exists start.
    - apply Forall_cons in Hb as [Hb Hall]. destruct Hr as [<-|Hr].
      + exists start. split; [|done]. apply Forall_app in Hall as [_ Hall]. apply Forall_cons in Hall as [Hall _]. lia.
      + destruct (IH b r Hss Hr) as (a & Ha & ?). exists a. split; [lia|done]. }
  induction bs as [|b bs IH]; intros start Hss; cbn [cut]; [by repeat constructor|].
  apply ascending_cons. split; [|apply IH; by apply StronglySorted_inv in Hss as [Hss _]].
  intros r Hr. apply StronglySorted_inv in Hss as [Hss Hb]. destruct (Hlater bs b r Hss Hr) as (a & Ha & ->).
  apply Forall_cons in Hb as [Hb _]. cbn. apply start_at_mono; [done|lia].
Qed.

(** A run of words that end before the end of time is one the index takes. *)
Lemma runs_ok : Forall (fun w => timestamp_ns w + duration_ns w + MAX_PRESENCE_CADENCE_NS < u64_max) words ->
  Forall run_ok runs.
Proof.
  intros Hends.
  assert (Hend : forall i, (i < length words)%nat -> end_at words i < u64_max).
  { intros i Hi. destruct (nth_times_ok words Hok i Hi) as [Hti Hdi].
    assert (Hw : timestamp_ns (words !!! i) + duration_ns (words !!! i) + MAX_PRESENCE_CADENCE_NS < u64_max).
    { rewrite Forall_forall in Hends. by apply Hends, list_elem_of_lookup_total_2. }
    unfold end_at, presence_word_end_ns, instantaneous_word_end_ns_with_limit, MAX_PRESENCE_CADENCE_NS in *. cbv zeta.
    destruct (negb _); [ints|]. destruct (words !! S i) as [next|].
    - match goal with |- context [Z.min (default ?m ?o) ?m] => generalize (default m o) end. intros z. ints.
    - match goal with |- context [Z.min ?x 1000000] => generalize x end. intros z. ints. }
  apply List.Forall_forall. intros r Hr. destruct (runs_in r Hr) as (a & b & Hab & ->).
  destruct (end_at_range words Hok a ltac:(lia)) as [H1 _]. destruct (nth_times_ok words Hok a ltac:(lia)) as [Ht _].
  pose proof (latest_end words Hok a b a ltac:(lia) ltac:(lia)) as H2. unfold start_at in *.
  split; [cbn; lia|]. cbn. split; [unfold start_at; ints|].
  unfold latest. assert (Hseq : forall j, In j (seq a (b - a)) -> (j < length words)%nat) by (intros j [? ?]%in_seq; lia).
  induction (seq a (b - a)) as [|j l IH]; cbn; [ints|]. pose proof (Hend j (Hseq j ltac:(by left))).
  specialize (IH ltac:(intros k Hk; apply Hseq; by right)). lia.
Qed.

(** The gap in front of a cut is at least as long as one inside a run. *)
Lemma kept_gaps_longer b k : In b (block_boundaries words) -> In k (gap_indices words (length words)) ->
  ~ In k (block_boundaries words) ->
  start_at words k - latest words 0 k <= start_at words b - latest words 0 b.
Proof.
  intros Hb Hk Hnk. rewrite <- gaps_of_words in Hk. apply in_map_iff in Hk as (gk & <- & Hgk).
  unfold block_boundaries, boundaries in Hb, Hnk. apply in_map_iff in Hb as (gb & <- & Hgb).
  rewrite <- list_elem_of_In, retained_gaps_perm, list_elem_of_In in Hgb.
  assert (Hnsel : ~ In gk (selected_gaps (gaps_of words (length words)))).
  { intros Hsel. apply Hnk, in_map. by rewrite <- list_elem_of_In, retained_gaps_perm, list_elem_of_In. }
  pose proof (selected_largest _ gb gk Hgb Hgk Hnsel) as Hle.
  assert (Hsize : forall g, In g (gaps_of words (length words)) ->
    gap_size g = start_at words (gap_word g) - latest words 0 (gap_word g)).
  { intros g Hg. apply list_elem_of_In, list_elem_of_lookup in Hg as [i Hi]. unfold gaps_of in Hi.
    rewrite list_lookup_imap in Hi. by apply fmap_Some in Hi as (x & _ & ->). }
  rewrite <- !Hsize; [done|by apply selected_subset|done].
Qed.
End Runs.

(** C22.  The summaries of a block in time order are at most 256 runs of words: they count every
    word once, consecutive runs are apart, every word from its start to the end inferred for it is
    inside a run, and a gap between two runs is at least as long as any gap left inside a run. *)
Theorem block_summaries_runs (block : Z) (words : list Word) :
  Forall times_ok words -> ascending timestamp_ns words -> words <> [] -> zlen words < u64_max ->
  let runs := word_presence_summaries block words false in
  (length runs <= MAX_PRESENCE_RUNS_PER_BLOCK)%nat /\ total runs = zlen words /\
  (forall i, lt i (length words) -> exists r, In r runs /\
  summary_start r <= start_at words i /\ presence_word_end_ns words i <= summary_end r) /\
  forall i r r', runs !! i = Some r -> runs !! S i = Some r' -> summary_end r < summary_start r' /\
  forall k, lt 0 k -> lt k (length words) -> (forall r, In r runs -> summary_start r <> start_at words k) ->
      start_at words k - latest words 0 k <= summary_start r' - summary_end r.
Proof.
  intros Hok Hs Hne Hlen. cbv zeta. change (word_presence_summaries block words false) with (general_word_presence_summaries block words).
  rewrite general_summaries_cut by done. split; [|split; [|split]].
  - rewrite cut_length. unfold block_boundaries, boundaries. rewrite length_map, (Permutation_length (retained_gaps_perm _)).
    pose proof (selected_length (gaps_of words (length words))). unfold kept_gap_count, MAX_PRESENCE_RUNS_PER_BLOCK in *. lia.
  - rewrite cut_total by (by apply cuts_sorted). unfold zlen. lia.
  - intros i Hi. by apply runs_covers.
  - intros i r r' Hr Hr'. pose proof (runs_gap block words Hok Hne i r r' Hr Hr') as (b & Hb & -> & -> & Hlt).
    split; [done|]. intros k Hk0 Hk Hno.
    destruct (Z.le_gt_cases (start_at words k) (latest words 0 k)); [lia|].
    apply kept_gaps_longer; [done|apply gap_indices_spec; lia|]. intros Hin.
    apply list_elem_of_In, list_elem_of_lookup in Hin as [j Hj].
    destruct (lookup_lt_is_Some_2 (cut (run_of block words) 0 (block_boundaries words) (length words)) (S j)) as [x Hx].
    { rewrite cut_length. apply lookup_lt_Some in Hj. lia. }
    apply (Hno x); [apply list_elem_of_In; by apply list_elem_of_lookup_2 in Hx|].
    apply cut_lookup in Hx as (a & c & Ha & _ & ->).
    change (block_boundaries words !! j = Some a) in Ha. cbn [run_of summary_start]. congruence.
Qed.

(**  For words without durations in time order the summaries that keep a bounded heap of gaps
    are those of the routine that collects all gaps and selects among them. *)
Theorem duration_free_summaries_agree (block : Z) (words : list Word) :
  Forall times_ok words -> ascending timestamp_ns words -> zlen words < u64_max ->
  Forall (fun w => duration_ns w = 0) words ->
  word_presence_summaries block words true = word_presence_summaries block words false.
Proof.
  intros Hok Hs Hlen Hfree. destruct words as [|w ws] eqn:E; [done|]. rewrite <- E in *.
  assert (Hne : words <> []) by (by subst). unfold word_presence_summaries.
  by rewrite free_summaries_cut, general_summaries_cut.
Qed.

(** ** The overview query *)

(** How many instants two closed intervals have in common. *)
Definition common_instants (start end_ start' end_' : Z) : Z :=
  Z.max 0 (Z.min end_ end_' - Z.max start start' + 1).

(** The quotient, rounded up. *)
Definition rounded_up (a b : Z) : Z := if a mod b =? 0 then a / b else a / b + 1.

(** The words of a run that fall on an interval if they are spread evenly over the run. *)
Definition share (r : WordSummaryRecord) (start end_ : Z) : Z :=
  rounded_up (summary_words r * common_instants (summary_start r) (summary_end r) start end_)
    (common_instants (summary_start r) (summary_end r) (summary_start r) (summary_end r)).

Lemma rounded_up_div_ceil a b : 0 < b -> div_ceil a b = rounded_up a b.
Proof.
  intros Hb. unfold div_ceil, rounded_up. pose proof (Z.div_mod a b ltac:(lia)) as Ha.
  pose proof (Z.mod_pos_bound a b Hb) as Hm. set (q := a / b) in *. set (m := a mod b) in *.
  destruct (Z.eqb_spec m 0) as [H0|H0].
  - replace (a + b - 1) with (b - 1 + q * b) by lia. rewrite Z.div_add, Z.div_small by lia. lia.
  - replace (a + b - 1) with (m - 1 + (q + 1) * b) by lia. rewrite Z.div_add, Z.div_small by lia. lia.
Qed.

Lemma estimate_share r start end_exclusive :
  run_ok r -> start < end_exclusive -> estimate_partial r start end_exclusive = share r start (end_exclusive - 1).
Proof.
  intros (Hw & Hs & He) Hlt. unfold estimate_partial, share, common_instants.
  rewrite (saturating_add64_small (summary_end r)) by lia. unfold saturating_sub64.
  rewrite (Z.max_l (_ - _) 0), (Z.max_l _ 1) by lia.
  rewrite (Z.max_id (summary_start r)), (Z.min_id (summary_end r)), (Z.max_r 0 (summary_end r - _ + 1)) by lia.
  set (common := Z.max 0 _). set (n := summary_end r - summary_start r + 1).
  destruct (Z.leb_spec (Z.min (summary_end r + 1) end_exclusive) (Z.max (summary_start r) start)) as [Hd|Hd].
  - replace common with 0 by lia. rewrite Z.mul_0_r. unfold rounded_up. by rewrite Z.mod_0_l, Z.div_0_l by lia.
  - replace (Z.min (summary_end r + 1) end_exclusive - Z.max (summary_start r) start) with common by lia.
    replace (summary_end r + 1 - summary_start r) with n by lia. rewrite rounded_up_div_ceil by lia.
    apply Z.min_l. rewrite <- rounded_up_div_ceil by lia. unfold div_ceil. apply Z.lt_succ_r, Z.div_lt_upper_bound; [lia|].
    assert (summary_words r * common <= summary_words r * n) by (apply Z.mul_le_mono_nonneg_l; lia). lia.
Qed.

(** A bucket of an exact partition of the window into [n] parts, with the shares of all runs. *)
Definition reference_bucket (rs : list WordSummaryRecord) (start_ns span n i : Z) : WordPresenceBucket :=
  let bucket_start := start_ns + span * i / n in
  let bucket_end := start_ns + span * (i + 1) / n - 1 in
  mkBucket bucket_start bucket_end
    (fold_right Z.add 0 (map (fun r => share r bucket_start bucket_end) rs)).

Lemma contribution_shares rs start end_exclusive : Forall run_ok rs -> start < end_exclusive ->
  contribution rs start end_exclusive =
    fold_right Z.add 0 (map (fun r => share r start (end_exclusive - 1)) rs).
Proof.
  intros Hok Hlt. unfold contribution. f_equal. apply map_ext_in. intros r Hr.
  rewrite List.Forall_forall in Hok. by apply estimate_share; [apply Hok|].
Qed.

(** C23.  The overview query over pushed runs whose starts and whose ends do not decrease answers with
    the buckets of an exact partition of the window, each with the sum of the shares of all runs:
    the words of a run in proportion to the instants it has in common with the bucket, rounded up.
    The groups, the prefix sums and the search are only a shortcut.  (Where a run ends before an
    earlier one the search stops too soon: lemma [covered_run_not_counted].) *)
Theorem presence_window_reference (rs : list WordSummaryRecord) (start_ns end_ns target_buckets : Z) :
  Forall run_ok rs -> total rs <= u64_max -> ascending summary_start rs -> ascending summary_end rs ->
  0 <= start_ns <= end_ns -> end_ns < u64_max -> 0 < target_buckets ->
  let span := end_ns - start_ns + 1 in
  let n := Z.min target_buckets span in
  presence_window_all (push_all WordPresenceIndex_new rs) start_ns end_ns target_buckets =
  map (fun i => reference_bucket rs start_ns span n (Z.of_nat i)) (seq 0 (Z.to_nat n)).
Proof.
  intros Hok Ht Hs He Hw Hmax Htarget. cbv zeta. unfold presence_window_all.
  replace (target_buckets =? 0) with false by lia. replace (end_ns <? start_ns) with false by lia. cbn [orb].
  rewrite (saturating_sub64_small end_ns), saturating_add64_small by lia.
  set (span := end_ns - start_ns + 1). rewrite (Z.max_l _ 1) by lia. set (n := Z.min target_buckets span).
  pose proof (bucket_bounds_eq start_ns end_ns span n (Z.to_nat n) 0) as Hb.
  rewrite Z.mul_0_r, Z.div_0_l, Z.mod_0_l in Hb by lia. rewrite Hb by lia. rewrite map_map.
  apply map_ext_in. intros i Hi. apply in_seq in Hi.
  assert (Hstep : span * Z.of_nat i / n < span * (Z.of_nat i + 1) / n).
  { apply Z.lt_le_trans with (span * Z.of_nat i / n + 1); [lia|]. rewrite <- (Z.div_add _ 1) by lia.
    apply Z.div_le_mono; lia. }
  rewrite (presence_bucket_eq rs); [|by apply push_all_ok|done..|lia].
  unfold reference_bucket. rewrite contribution_shares by (done || lia). by rewrite saturating_sub64_small by (assert (0 <= span * Z.of_nat i / n) by (apply Z.div_pos; [apply Z.mul_nonneg_nonneg|]; lia); lia).
Qed.

(** ** Witnesses *)

Definition witness_runs : list WordSummaryRecord :=
  [mkSummary 10 19 4 0 1; mkSummary 30 49 10 0 1; mkSummary 100 100 1 1 1].

Definition witness_words : list Word :=
  [mkWord 1 None 10 0; mkWord 2 None 12 0; mkWord 3 None 14 0; mkWord 4 None 40 0; mkWord 5 None 41 0].

Lemma witness_times_ok : Forall times_ok witness_words.
Proof. repeat constructor; unfold u64; cbn; lia. Qed.

Lemma presence_window_reference_witness :
  presence_window_all (push_all WordPresenceIndex_new witness_runs) 0 127 4 =
  [mkBucket 0 31 5; mkBucket 32 63 9; mkBucket 64 95 0; mkBucket 96 127 1].
Proof.
  rewrite (presence_window_reference witness_runs 0 127 4); [reflexivity| | | | |lia|done|done].
  - repeat constructor; cbn; unfold u64_max; lia.
  - vm_compute. discriminate.
  - by apply ascendingb_spec.
  - by apply ascendingb_spec.
Defined.

(** Runs behind one that outlasts them hide it from the buckets behind them. *)
Lemma covered_run_not_counted :
  let rs := [mkSummary 10 10000 5 0 1; mkSummary 20 20 1 1 1; mkSummary 30 30 1 2 1] in
  bucket_words <$> presence_window_all (push_all WordPresenceIndex_new rs) 0 999 2 = [3; 0] /\
  bucket_words (reference_bucket rs 0 1000 2 1) = 1.
Proof. split; vm_compute; reflexivity. Qed.

Lemma block_summaries_runs_witness :
  zlen witness_words < u64_max /\ total (word_presence_summaries 7 witness_words false) = 5.
Proof.
  split; [reflexivity|].
  destruct (block_summaries_runs 7 witness_words) as (_ & Ht & _);
    [apply witness_times_ok|by apply ascendingb_spec|done|reflexivity|]. exact Ht.
Defined.

Lemma duration_free_summaries_agree_witness :
  word_presence_summaries 7 witness_words true = [mkSummary 10 16 3 7 1; mkSummary 40 42 2 7 1].
Proof.
  rewrite (duration_free_summaries_agree 7 witness_words); [vm_compute; reflexivity|apply witness_times_ok|by apply ascendingb_spec|reflexivity|].
  by repeat constructor.
Defined.
