(* ===== verification/AnnotationQuery.v ===== *)
(** Queries for annotations: which blocks can hold words of a window, the annotations of words in
    order with the ends inferred for them, the nearest boundary, and the words a query collects
    from the blocks it reads. *)

From S2P Require Import Prelude Events WordPresence WordPresenceIndex.
From S2P Require Import DerivedIndex.

(** [crates/signal_derived/src/derived_word_store/format.rs:92-104] BlockDirectoryEntry *)
Record BlockDirectoryEntry := mkEntry {
  entry_sequence : Z;
  entry_first_timestamp_ns : Z;
  entry_last_timestamp_ns : Z;
  entry_data_offset : Z;
  entry_segment_sequence : Z;
  entry_segment_offset : Z;
  entry_block_len : Z;
  entry_word_count : Z;
  entry_value_bytes : Z;
  entry_flags : Z
}.

#[export] Instance BlockDirectoryEntry_eq_dec : EqDecision BlockDirectoryEntry.
Proof. solve_decision. Defined.

#[export] Instance BlockDirectoryEntry_inhabited : Inhabited BlockDirectoryEntry :=
  populate (mkEntry 0 0 0 0 0 0 0 0 0 0).

(** [crates/signal_derived/src/derived_word_store/query.rs:22-29] ExactAnnotationWindow *)
Record ExactAnnotationWindow := mkWindow {
  annotations : list Annotation;
  complete : bool;
  window_generation : Z
}.

(** The texts of store errors are left out.
    [crates/signal_derived/src/derived_word_store/query.rs:42-57] AnnotationQueryError *)
Inductive AnnotationQueryError :=
| InvalidWindow (start_ns end_ns : Z)
| ZeroWordLimit
| ZeroBucketLimit
| PresenceUnavailable
| Store.

(** ** Blocks *)

(** [sort_unstable] and [dedup] of indices. *)
Fixpoint dedup {A} `{EqDecision A} (l : list A) : list A :=
  match l with
  | [] => []
  | x :: l =>
      match l with
      | y :: _ => if decide (x = y) then dedup l else x :: dedup l
      | [] => [x]
      end
  end.

Definition sort_dedup (l : list nat) : list nat := dedup (sort_by Nat.leb l).

(** The blocks of a run; a number that is no index is left out.
    [crates/signal_derived/src/derived_word_store/query.rs:124-131] intersecting_block_indices (blocks) *)
Definition record_blocks (record : WordSummaryRecord) : list nat :=
  let last := saturating_add64 (first_block record) (block_count record) in
  seq (Z.to_nat (first_block record)) (Z.to_nat (last - first_block record)).

(** [crates/signal_derived/src/derived_word_store/query.rs:109-136] intersecting_block_indices *)
Definition intersecting_block_indices (presence : WordPresenceIndex) (start_ns end_ns : Z) : list nat :=
  if end_ns <? start_ns then []
  else
    let leaves := leaves presence in
    let first := leading (fun prefix_end_ns => prefix_end_ns <? start_ns) (prefix_max_end_ns presence) in
    let end_ := leading (fun record => summary_start record <=? end_ns) leaves in
    let first := Nat.min first end_ in
    sort_dedup (concat (map record_blocks
      (List.filter (fun record => start_ns <=? summary_end record) (take (end_ - first) (drop first leaves))))).

(** [crates/signal_derived/src/derived_word_store/query.rs:89-107] select_block_indices *)
Definition select_block_indices (directory : list BlockDirectoryEntry) (presence : WordPresenceIndex)
    (start_ns end_ns : Z) : list nat :=
  let first_by_start := leading (fun entry => entry_last_timestamp_ns entry <? start_ns) directory in
  let predecessor := if Nat.leb 1 first_by_start then [(first_by_start - 1)%nat] else [] in
  let previous_predecessor := if Nat.leb 2 first_by_start then [(first_by_start - 2)%nat] else [] in
  let after_end := leading (fun entry => entry_first_timestamp_ns entry <=? end_ns) directory in
  let successor := if Nat.ltb after_end (length directory) then [after_end] else [] in
  let indices := intersecting_block_indices presence start_ns end_ns in
  sort_dedup (((indices ++ previous_predecessor) ++ predecessor) ++ successor).

(** [crates/signal_derived/src/derived_word_store/query.rs:64-71] exact_block_indices *)
Definition exact_block_indices (directory : list BlockDirectoryEntry) (presence : WordPresenceIndex)
    (start_ns end_ns : Z) : list nat :=
  select_block_indices directory presence start_ns end_ns.

(** [crates/signal_derived/src/derived_word_store/query.rs:75-87] boundary_block_indices *)
Definition boundary_block_indices (directory : list BlockDirectoryEntry) (presence : WordPresenceIndex)
    (timestamp_ns max_distance_ns : Z) : list nat :=
  select_block_indices directory presence (saturating_sub64 timestamp_ns max_distance_ns)
    (saturating_add64 timestamp_ns max_distance_ns).

(** The selected entries; the indices are in range.
    [crates/signal_derived/src/derived_word_store/store.rs:367-370] IndexedAnnotationStore::exact_context (entries) *)
Definition entries_at (directory : list BlockDirectoryEntry) (indices : list nat) : list BlockDirectoryEntry :=
  map (fun index => directory !!! index) indices.

(** ** Words in order *)

(** [crates/signal_derived/src/derived_word_store/query.rs:191-205] word_end_ns *)
Definition word_end_ns (words : list Word) (index : nat) : Z :=
  let word := words !!! index in
  if negb (duration_ns word =? 0) then saturating_add64 (timestamp_ns word) (duration_ns word)
  else
    match words !! S index with
    | None => timestamp_ns word
    | Some next =>
        instantaneous_word_end_ns (previous_start words index) (timestamp_ns word) (timestamp_ns next)
    end.

(** [crates/signal_derived/src/derived_word_store/query.rs:150-163] annotation_window_from_ordered_words (loop) *)
Fixpoint annotation_loop (words : list Word) (start_ns end_ns : Z) (max_words : nat) (rest : list Word)
    (index : nat) (annotations : list Annotation) : list Annotation * bool :=
  match rest with
  | [] => (annotations, false)
  | word :: rest =>
      let annotation_end_ns := word_end_ns words index in
      if (timestamp_ns word <=? end_ns) && (start_ns <=? annotation_end_ns) then
        if Nat.eqb (length annotations) max_words then (annotations, true)
        else
          annotation_loop words start_ns end_ns max_words rest (S index)
            (annotations ++ [mkAnnotation (timestamp_ns word) annotation_end_ns (value word) (payload word)])
      else annotation_loop words start_ns end_ns max_words rest (S index) annotations
  end.

(** [crates/signal_derived/src/derived_word_store/query.rs:143-165] annotation_window_from_ordered_words *)
Definition annotation_window_from_ordered_words (words : list Word) (start_ns end_ns : Z) (max_words : nat)
  : list Annotation * bool :=
  annotation_loop words start_ns end_ns max_words words 0 [].

(** [crates/signal_derived/src/derived_word_store/query.rs:207-222] consider_boundary *)
Definition consider_boundary (boundary target max_distance : Z) (nearest : option (Z * Z)) : option (Z * Z) :=
  let distance := Z.abs (boundary - target) in
  if max_distance <? distance then nearest
  else
    match nearest with
    | None => Some (boundary, distance)
    | Some (best_boundary, best_distance) =>
        if (distance <? best_distance) || (distance =? best_distance) && (boundary <? best_boundary)
        then Some (boundary, distance) else nearest
    end.

(** [crates/signal_derived/src/derived_word_store/query.rs:168-189] nearest_boundary_from_ordered_words *)
Definition nearest_boundary_from_ordered_words (words : list Word) (timestamp max_distance_ns : Z) : option Z :=
  fst <$> fold_left
    (fun nearest index =>
       consider_boundary (word_end_ns words index) timestamp max_distance_ns
         (consider_boundary (timestamp_ns (words !!! index)) timestamp max_distance_ns nearest))
    (seq 0 (length words)) None.

(** ** Collecting the words of a query *)

(** [crates/signal_derived/src/derived_word_store/store.rs:695-702] ExactQueryCandidates *)
Record ExactQueryCandidates := mkCandidates {
  candidate_words : list Word;
  previous_predecessor : option Word;
  predecessor : option Word;
  successor : option Word;
  truncated : bool;
  limit : nat
}.

(** [crates/signal_derived/src/derived_word_store/store.rs:705-714] ExactQueryCandidates::new *)
Definition ExactQueryCandidates_new (limit : nat) : ExactQueryCandidates :=
  mkCandidates [] None None None false limit.

(** [crates/signal_derived/src/derived_word_store/store.rs:722-729] ExactQueryCandidates::collect (predecessors) *)
Definition note_predecessor (c : ExactQueryCandidates) (word : Word) : ExactQueryCandidates :=
  if match predecessor c with Some current => timestamp_ns current <=? timestamp_ns word | None => true end
  then mkCandidates (candidate_words c) (predecessor c) (Some word) (successor c) (truncated c) (limit c)
  else c.

(** [crates/signal_derived/src/derived_word_store/store.rs:740-744] ExactQueryCandidates::collect (limit) *)
Definition keep_word (c : ExactQueryCandidates) (word : Word) : ExactQueryCandidates * bool :=
  if Nat.eqb (length (candidate_words c)) (limit c) then
    (mkCandidates (candidate_words c) (previous_predecessor c) (predecessor c) (successor c) true (limit c), false)
  else
    (mkCandidates (candidate_words c ++ [word]) (previous_predecessor c) (predecessor c) (successor c)
       (truncated c) (limit c), true).

(** One turn of the loop, and whether the loop goes on.
    [crates/signal_derived/src/derived_word_store/store.rs:720-745] ExactQueryCandidates::collect (loop) *)
Definition collect_word (start_ns end_ns : Z) (c : ExactQueryCandidates) (word : Word)
  : ExactQueryCandidates * bool :=
  if timestamp_ns word <? start_ns then
    let c := note_predecessor c word in
    if (duration_ns word =? 0) || (saturating_add64 (timestamp_ns word) (duration_ns word) <? start_ns)
    then (c, true) else keep_word c word
  else if end_ns <? timestamp_ns word then
    (mkCandidates (candidate_words c) (previous_predecessor c) (predecessor c) (Some word) (truncated c) (limit c), false)
  else keep_word c word.

Fixpoint collect_words (start_ns end_ns : Z) (c : ExactQueryCandidates) (words : list Word)
  : ExactQueryCandidates :=
  match words with
  | [] => c
  | word :: words =>
      let '(c, more) := collect_word start_ns end_ns c word in
      if more then collect_words start_ns end_ns c words else c
  end.

Definition is_some {A} (o : option A) : bool := match o with Some _ => true | None => false end.

(** [crates/signal_derived/src/derived_word_store/store.rs:716-746] ExactQueryCandidates::collect *)
Definition collect (c : ExactQueryCandidates) (words : list Word) (start_ns end_ns : Z) : ExactQueryCandidates :=
  if Nat.eqb (length words) 0 || truncated c || is_some (successor c) then c
  else collect_words start_ns end_ns c words.

(** Adds a word the context does not hold.
    [crates/signal_derived/src/derived_word_store/store.rs:508-517] IndexedAnnotationStore::exact_window (context) *)
Definition push_missing (context : list Word) (word : option Word) : list Word :=
  match word with
  | Some word => if decide (word ∈ context) then context else context ++ [word]
  | None => context
  end.

(** A stable sort.
    [crates/signal_derived/src/derived_word_store/store.rs:507-521] IndexedAnnotationStore::exact_window (order) *)
Definition query_context (c : ExactQueryCandidates) : list Word :=
  let context := push_missing (push_missing (candidate_words c) (previous_predecessor c)) (predecessor c) in
  let context := match successor c with Some successor => context ++ [successor] | None => context end in
  sort_by (fun a b => timestamp_ns a <=? timestamp_ns b) context.

(** ** Reading blocks *)

(** Queries read the selected blocks in order.  A read takes the block's entry, the window and a
    number of words to keep around it, and gives words with the flag that none are missing. *)
Section Read.
Context {S : Type}.
Context (query_entry_words : BlockDirectoryEntry -> Z -> Z -> Z -> S ->
  result AnnotationQueryError (list Word * bool) * S).

Definition set_truncated (c : ExactQueryCandidates) : ExactQueryCandidates :=
  mkCandidates (candidate_words c) (previous_predecessor c) (predecessor c) (successor c) true (limit c).

(** [crates/signal_derived/src/derived_word_store/store.rs:487-502] IndexedAnnotationStore::exact_window (blocks) *)
Fixpoint collect_entries (start_ns end_ns : Z) (max_words : nat) (entries : list BlockDirectoryEntry)
    (c : ExactQueryCandidates) (s : S) : result AnnotationQueryError ExactQueryCandidates * S :=
  match entries with
  | [] => (Ok c, s)
  | entry :: entries =>
      let remaining := Z.max (saturating_add64 (Z.of_nat (max_words - length (candidate_words c))) 3) 3 in
      match query_entry_words entry start_ns end_ns remaining s with
      | (Err e, s) => (Err e, s)
      | (Ok (words, complete), s) =>
          let c := collect c words start_ns end_ns in
          let c := if complete then c else set_truncated c in
          if truncated c || is_some (successor c) then (Ok c, s)
          else collect_entries start_ns end_ns max_words entries c s
      end
  end.

(** The first argument is what [exact_context] reads from the state under its lock.
    [crates/signal_derived/src/derived_word_store/store.rs:472-532] IndexedAnnotationStore::exact_window *)
Definition exact_window (context : Z * list BlockDirectoryEntry * list Word) (start_ns end_ns : Z)
    (max_words : nat) (s : S) : result AnnotationQueryError ExactAnnotationWindow * S :=
  if end_ns <? start_ns then (Err (InvalidWindow start_ns end_ns), s)
  else if Nat.eqb max_words 0 then (Err ZeroWordLimit, s)
  else
    let '(generation, entries, hot_tail) := context in
    match collect_entries start_ns end_ns max_words entries (ExactQueryCandidates_new max_words) s with
    | (Err e, s) => (Err e, s)
    | (Ok c, s) =>
        let c := if negb (truncated c) && negb (is_some (successor c)) then collect c hot_tail start_ns end_ns else c in
        let '(annotations, truncated') :=
          annotation_window_from_ordered_words (query_context c) start_ns end_ns max_words in
        (Ok (mkWindow annotations (negb (truncated c || truncated')) generation), s)
    end.

(** [words.iter().filter(..).max_by_key(|word| word.timestamp_ns)]: the last of the greatest.
    [crates/signal_derived/src/derived_word_store/store.rs:536-540] IndexedAnnotationStore::latest_word_at_or_before (latest) *)
Definition latest_of (words : list Word) (timestamp : Z) : option Word :=
  fold_left (fun latest word =>
    if timestamp_ns word <=? timestamp then
      match latest with
      | Some current => if timestamp_ns current <=? timestamp_ns word then Some word else latest
      | None => Some word
      end
    else latest) words None.

(** [crates/signal_derived/src/derived_word_store/store.rs:541-556] IndexedAnnotationStore::latest_word_at_or_before (blocks) *)
Fixpoint latest_in_entries (timestamp : Z) (entries : list BlockDirectoryEntry) (latest : option Word) (s : S)
  : result AnnotationQueryError (option Word) * S :=
  match entries with
  | [] => (Ok latest, s)
  | entry :: entries =>
      match query_entry_words entry timestamp timestamp 3 s with
      | (Err e, s) => (Err e, s)
      | (Ok (words, _), s) =>
          let latest :=
            match latest_of words timestamp with
            | Some word =>
                match latest with
                | Some current => if timestamp_ns current <=? timestamp_ns word then Some word else latest
                | None => Some word
                end
            | None => latest
            end in
          latest_in_entries timestamp entries latest s
      end
  end.

(** [crates/signal_derived/src/derived_word_store/store.rs:534-558] IndexedAnnotationStore::latest_word_at_or_before *)
Definition latest_word_at_or_before (context : Z * list BlockDirectoryEntry * list Word) (timestamp : Z) (s : S)
  : result AnnotationQueryError (option Word) * S :=
  let '(_, entries, hot_tail) := context in
  latest_in_entries timestamp entries (latest_of hot_tail timestamp) s.

(** [crates/signal_derived/src/derived_word_store/store.rs:568-575] IndexedAnnotationStore::nearest_boundary (blocks) *)
Fixpoint boundary_words (lower upper : Z) (entries : list BlockDirectoryEntry) (context : list Word) (s : S)
  : result AnnotationQueryError (list Word) * S :=
  match entries with
  | [] => (Ok context, s)
  | entry :: entries =>
      match query_entry_words entry lower upper (entry_word_count entry + 2) s with
      | (Err e, s) => (Err e, s)
      | (Ok (words, _), s) => boundary_words lower upper entries (context ++ words) s
      end
  end.

(** [crates/signal_derived/src/derived_word_store/store.rs:560-584] IndexedAnnotationStore::nearest_boundary *)
Definition nearest_boundary (context : list BlockDirectoryEntry * list Word) (timestamp max_distance_ns : Z) (s : S)
  : result AnnotationQueryError (option Z) * S :=
  let '(entries, hot_tail) := context in
  let lower := saturating_sub64 timestamp max_distance_ns in
  let upper := saturating_add64 timestamp max_distance_ns in
  match boundary_words lower upper entries [] s with
  | (Err e, s) => (Err e, s)
  | (Ok words, s) =>
      let words := dedup (sort_by (fun a b => timestamp_ns a <=? timestamp_ns b) (words ++ hot_tail)) in
      (Ok (nearest_boundary_from_ordered_words words timestamp max_distance_ns), s)
  end.
End Read.
