(* ===== verification/AnnotationSelection.v ===== *)
(** Which blocks a query selects. *)

From stdpp Require sorting.
From S2P Require Import Prelude Events DerivedIndex WordPresence WordPresenceIndex WordPresenceProofs.
From S2P Require Import WordPresenceRuns AnnotationQuery.

(** ** Indices *)

Lemma dedup_in {A} `{EqDecision A} (l : list A) x : In x (dedup l) <-> In x l.
Proof.
  induction l as [|y l IH]; [done|]. cbn [dedup]. destruct l as [|z l]; [done|].
  destruct (decide (y = z)) as [->|Hne].
  - rewrite IH. cbn. tauto.
  - cbn [In] in *. rewrite IH. done.
Qed.

Lemma sort_dedup_in l i : In i (sort_dedup l) <-> In i l.
Proof. unfold sort_dedup. by rewrite dedup_in, <- !list_elem_of_In, sort_perm. Qed.

Lemma dedup_sorted l : sorted Nat.leb l -> StronglySorted lt (dedup l).
Proof.
  induction l as [|x l IH]; intros Hs; [constructor|]. apply StronglySorted_inv in Hs as [Hs Hx].
  specialize (IH Hs). cbn [dedup]. destruct l as [|y l]; [by repeat constructor|].
  destruct (decide (x = y)) as [|Hne]; [done|]. constructor; [done|]. apply List.Forall_forall. intros z Hz.
  rewrite dedup_in in Hz. apply Forall_cons in Hx as [Hy _]. apply Nat.leb_le in Hy.
  apply StronglySorted_inv in Hs as [_ Hs]. rewrite List.Forall_forall in Hs.
  destruct Hz as [<-|Hz]; [lia|]. specialize (Hs z Hz). apply Nat.leb_le in Hs. lia.
Qed.

Lemma sort_dedup_sorted l : StronglySorted lt (sort_dedup l).
Proof.
  apply dedup_sorted, sort_sorted; intros *; rewrite ?Nat.leb_le, ?Nat.leb_gt; lia.
Qed.

(** ** Runs *)

Definition blocks_ok (r : WordSummaryRecord) : Prop :=
  0 <= first_block r /\ 0 <= block_count r /\ first_block r + block_count r <= u64_max.

Lemma record_blocks_in r i : blocks_ok r ->
  In i (record_blocks r) <-> first_block r <= Z.of_nat i < first_block r + block_count r.
Proof. intros (H1 & H2 & H3). unfold record_blocks. rewrite in_seq, saturating_add64_small by lia. lia. Qed.

Lemma running_max_ge rs m r : running_max rs = Some m -> In r rs -> summary_end r <= m.
Proof.
  destruct rs as [|r0 rs]; [done|]. cbn. intros [= <-].
  assert (Hacc : forall l e, e <= fold_left Z.max l e /\ forall x, In x l -> x <= fold_left Z.max l e).
  { induction l as [|x l IH]; intros e; cbn; [split; [lia|done]|]. destruct (IH (Z.max e x)) as [H1 H2].
    split; [lia|]. intros y [<-|Hy]; [lia|by apply H2]. }
  intros [<-|Hin]; [apply (proj1 (Hacc _ _))|].
  destruct (Hacc (map summary_end rs) (summary_end r0)) as [_ Hmax]. by apply Hmax, in_map.
Qed.

(** A run of the block meets the window. *)
Definition run_meets (rs : list WordSummaryRecord) (start_ns end_ns : Z) (i : nat) : Prop :=
  exists r, In r rs /\ summary_start r <= end_ns /\ start_ns <= summary_end r /\
    first_block r <= Z.of_nat i < first_block r + block_count r.

Section Select.
Context (rs : list WordSummaryRecord) (p : WordPresenceIndex).
Hypothesis (Hp : presence_ok rs p) (Hstarts : ascending summary_start rs) (Hblocks : Forall blocks_ok rs).

Lemma intersecting_iff start_ns end_ns i : start_ns <= end_ns ->
  In i (intersecting_block_indices p start_ns end_ns) <-> run_meets rs start_ns end_ns i.
Proof.
  intros Hse. unfold intersecting_block_indices. rewrite (leaves_eq _ _ Hp). destruct (Z.ltb_spec end_ns start_ns); [lia|].
  set (first := leading _ (prefix_max_end_ns p)). set (end_ := leading _ rs).
  rewrite sort_dedup_in, in_concat. destruct Hp as [_ _ [Hm1 Hm2] _]. rewrite Forall_forall in Hblocks. split.
  - intros (l & Hl & Hi). apply in_map_iff in Hl as (r & <- & Hr). apply List.filter_In in Hr as [Hr Hend].
    apply list_elem_of_In, list_elem_of_lookup in Hr as [k Hk]. apply lookup_take_Some in Hk as [Hk Hlt].
    rewrite lookup_drop in Hk. exists r.
    assert (Hin : r ∈ rs) by (by apply list_elem_of_lookup_2 in Hk). split; [by apply list_elem_of_In|].
    pose proof (leading_true (fun r => summary_start r <=? end_ns) rs (Nat.min first end_ + k) r ltac:(fold end_; lia) Hk) as Hst.
    cbn beta in Hst. split; [lia|]. split; [lia|]. apply record_blocks_in in Hi; [done|by apply Hblocks].
  - intros (r & Hr & H1 & H2 & H3). exists (record_blocks r). split; [|apply record_blocks_in; [by apply Hblocks, list_elem_of_In|done]].
    apply in_map, List.filter_In. split; [|lia]. apply list_elem_of_In, list_elem_of_lookup in Hr as [j Hj].
    assert (Hje : lt j end_).
    { destruct (Nat.lt_ge_cases j end_) as [|Hge]; [done|]. exfalso. pose proof (lookup_lt_Some _ _ _ Hj).
      destruct (lookup_lt_is_Some_2 rs end_ ltac:(lia)) as [x Hx].
      pose proof (leading_stop _ _ _ Hx) as Hst. cbn beta in Hst.
      pose proof (ascending_lookup _ _ end_ j x r Hstarts Hge Hx Hj). lia. }
    assert (Hjf : le first j).
    { destruct (Nat.le_gt_cases first j) as [|Hlt]; [done|]. exfalso. pose proof (lookup_lt_Some _ _ _ Hj).
      destruct (lookup_lt_is_Some_2 (prefix_max_end_ns p) j ltac:(lia)) as [m Hm].
      pose proof (leading_true _ _ _ _ Hlt Hm) as Hst. cbn beta in Hst. specialize (Hm2 j ltac:(lia)).
      rewrite (list_lookup_total_correct _ _ _ Hm) in Hm2. pose proof (running_max_ge _ m r (eq_sym Hm2)) as Hge.
      assert (In r (take (S j) rs)); [|specialize (Hge ltac:(done)); lia].
      apply list_elem_of_In, (list_elem_of_lookup_2 _ j). by rewrite lookup_take_lt by lia. }
    apply list_elem_of_In, (list_elem_of_lookup_2 _ (j - Nat.min first end_)).
    rewrite lookup_take_lt by lia. rewrite lookup_drop. by replace (Nat.min first end_ + (j - Nat.min first end_))%nat with j by lia.
Qed.

(** The blocks that end before the time, the blocks that start no later than the time. *)
Definition blocks_before (directory : list BlockDirectoryEntry) (start_ns : Z) : nat :=
  leading (fun entry => entry_last_timestamp_ns entry <? start_ns) directory.
Definition blocks_until (directory : list BlockDirectoryEntry) (end_ns : Z) : nat :=
  leading (fun entry => entry_first_timestamp_ns entry <=? end_ns) directory.

Lemma select_iff directory start_ns end_ns i : start_ns <= end_ns ->
  In i (select_block_indices directory p start_ns end_ns) <->
  run_meets rs start_ns end_ns i \/ S i = blocks_before directory start_ns \/
  S (S i) = blocks_before directory start_ns \/ i = blocks_until directory end_ns /\ lt i (length directory).
Proof.
  intros Hse. unfold select_block_indices. rewrite sort_dedup_in, !in_app_iff, intersecting_iff by done.
  fold (blocks_before directory start_ns) (blocks_until directory end_ns).
  set (f := blocks_before directory start_ns). set (a := blocks_until directory end_ns).
  destruct (Nat.leb_spec 1 f), (Nat.leb_spec 2 f), (Nat.ltb_spec a (length directory)); cbn [In]; (split; [intros [[[?|?]|?]|?]|intros [?|[?|[?|?]]]]);
    try tauto; try lia;
    repeat match goal with H : _ \/ False |- _ => destruct H as [H|[]] end; try lia; auto;
    try (left; left; left; done); try (right; left; lia); try (right; right; left; lia); try (right; right; right; lia);
    try (left; left; right; left; lia); try (left; right; left; lia).
Qed.
End Select.

(** ** The annotations of a window *)

(** ** The annotations of words in order *)

Definition end_in (previous : option Z) (w : Word) (next : option Word) : Z :=
  if negb (duration_ns w =? 0) then saturating_add64 (timestamp_ns w) (duration_ns w)
  else
    match next with
    | None => timestamp_ns w
    | Some next => instantaneous_word_end_ns previous (timestamp_ns w) (timestamp_ns next)
    end.

Definition annotation_of (w : Word) (end_ns : Z) : Annotation :=
  mkAnnotation (timestamp_ns w) end_ns (value w) (payload w).

Fixpoint annotate (previous : option Z) (ws : list Word) : list Annotation :=
  match ws with
  | [] => []
  | w :: rest => annotation_of w (end_in previous w (head rest)) :: annotate (Some (timestamp_ns w)) rest
  end.

Definition meets (start_ns end_ns : Z) (a : Annotation) : bool :=
  (annotation_start_ns a <=? end_ns) && (start_ns <=? annotation_end_ns a).

(** What a query promises: the annotations of all words that meet the window. *)
Definition annotations_in (start_ns end_ns : Z) (ws : list Word) : list Annotation :=
  List.filter (meets start_ns end_ns) (annotate None ws).

Lemma annotation_loop_eq words s e max_words rest : forall index acc,
  drop index words = rest -> (length acc <= max_words)%nat ->
  annotation_loop words s e max_words rest index acc =
  let found := List.filter (meets s e) (annotate (previous_start words index) rest) in
  (acc ++ take (max_words - length acc) found, Nat.ltb (max_words - length acc) (length found)).
Proof.
  induction rest as [|w rest IH]; intros index acc Hd Hl; cbn [annotation_loop annotate List.filter]; cbv zeta.
  { cbn. by rewrite take_nil, app_nil_r. }
  assert (Hw : words !! index = Some w) by (rewrite <- (Nat.add_0_r index), <- lookup_drop, Hd; done).
  assert (Hrest : drop (S index) words = rest).
  { replace (S index) with (index + 1)%nat by lia. rewrite <- drop_drop, Hd. cbn. by rewrite drop_0. }
  assert (Hnext : words !! S index = head rest).
  { rewrite <- Hrest. replace (S index) with (S index + 0)%nat at 1 by lia. rewrite <- lookup_drop. by destruct (drop (S index) words). }
  assert (Hend : word_end_ns words index = end_in (previous_start words index) w (head rest)).
  { unfold word_end_ns, end_in. cbv zeta. by rewrite Hnext, (list_lookup_total_correct _ _ _ Hw). }
  rewrite Hend. set (a := annotation_of w (end_in (previous_start words index) w (head rest))).
  change ((timestamp_ns w <=? e) && (s <=? end_in (previous_start words index) w (head rest))) with (meets s e a).
  assert (Hprev : previous_start words (S index) = Some (timestamp_ns w)).
  { cbn. by rewrite (list_lookup_total_correct _ _ _ Hw). }
  destruct (meets s e a).
  - destruct (Nat.eqb_spec (length acc) max_words) as [->|Hne].
    + by rewrite Nat.sub_diag, app_nil_r.
    + rewrite IH by (done || rewrite length_app; cbn; lia). cbv zeta. rewrite Hprev, length_app. cbn [length].
      destruct (max_words - length acc)%nat as [|n] eqn:Hn; [lia|].
      replace (max_words - (length acc + 1))%nat with n by lia. cbn [take]. rewrite <- app_assoc. done.
  - rewrite IH by done. cbv zeta. by rewrite Hprev.
Qed.

Lemma annotation_window_eq words s e max_words :
  annotation_window_from_ordered_words words s e max_words =
  (take max_words (annotations_in s e words), Nat.ltb max_words (length (annotations_in s e words))).
Proof.
  unfold annotation_window_from_ordered_words. rewrite annotation_loop_eq by (done || cbn; lia).
  cbn [length app]. by rewrite Nat.sub_0_r.
Qed.

Lemma filter_idem {A} (f : A -> bool) l : List.filter f (List.filter f l) = List.filter f l.
Proof. induction l as [|x l IH]; cbn; [done|]. destruct (f x) eqn:E; cbn; [rewrite E|]; by rewrite IH. Qed.

(** ** What matters for a window *)

(** Time strictly ascends. *)
Definition strict (ws : list Word) : Prop := StronglySorted (fun a b => timestamp_ns a < timestamp_ns b) ws.

Lemma strict_app l1 l2 : strict (l1 ++ l2) <->
  (forall a b, a ∈ l1 -> b ∈ l2 -> timestamp_ns a < timestamp_ns b) /\ strict l1 /\ strict l2.
Proof. apply sorting.StronglySorted_app. Qed.

Lemma instantaneous_end_le previous start next : start <= next -> instantaneous_word_end_ns previous start next <= next.
Proof.
  intros H. unfold instantaneous_word_end_ns, instantaneous_word_end_ns_with_limit. cbv zeta.
  rewrite saturating_sub64_small by lia. generalize (Z.min (default MAX_ANNOTATION_NS (match previous with
    | Some p => let interval := saturating_sub64 start p in if 0 <? interval then Some interval else None | None => None end)) MAX_ANNOTATION_NS).
  intros z. unfold saturating_add64. lia.
Qed.

Section Window.
Context (start_ns end_ns : Z).
Hypothesis Hwindow : start_ns <= end_ns.

Definition before (w : Word) : bool := timestamp_ns w <? start_ns.
Definition behind (w : Word) : bool := end_ns <? timestamp_ns w.
Definition inside (w : Word) : bool := (start_ns <=? timestamp_ns w) && (timestamp_ns w <=? end_ns).

(** A word in front of the window that reaches into it by its own duration. *)
Definition long (w : Word) : bool :=
  negb (duration_ns w =? 0) && (start_ns <=? saturating_add64 (timestamp_ns w) (duration_ns w)).

Definition long_annotation (w : Word) : Annotation :=
  annotation_of w (saturating_add64 (timestamp_ns w) (duration_ns w)).

Lemma annotate_before P r rest : forall previous,
  Forall (fun w => timestamp_ns w < start_ns) (P ++ [r]) -> strict (P ++ r :: rest) ->
  List.filter (meets start_ns end_ns) (annotate previous (P ++ r :: rest)) =
  map long_annotation (List.filter long P) ++
  List.filter (meets start_ns end_ns)
    (annotate (match last P with Some w => Some (timestamp_ns w) | None => previous end) (r :: rest)).
Proof.
  induction P as [|w P IH]; intros previous Hb Hs; [done|]. cbn [app] in Hb, Hs. apply Forall_cons in Hb as [Hw Hb].
  apply StronglySorted_inv in Hs as [Hs Hlt]. cbn [app annotate List.filter].
  rewrite IH by done.
  assert (Hl : long w = negb (duration_ns w =? 0) && (start_ns <=? saturating_add64 (timestamp_ns w) (duration_ns w))) by done.
  rewrite Hl. unfold meets at 1. cbn [annotation_of annotation_start_ns annotation_end_ns].
  assert (Hnext : exists n, head (P ++ r :: rest) = Some n /\ timestamp_ns n < start_ns /\ timestamp_ns w < timestamp_ns n).
  { destruct P as [|n P]; cbn in *.
    - apply Forall_cons in Hb as [Hb _]. apply Forall_cons in Hlt as [Hlt _]. by exists r.
    - apply Forall_cons in Hb as [Hb _]. apply Forall_cons in Hlt as [Hlt _]. by exists n. }
  destruct Hnext as (n & Hn & Hns & Hwn). rewrite Hn. unfold end_in.
  replace (timestamp_ns w <=? end_ns) with true by lia. cbn [andb].
  assert (Hlast : match last (w :: P) with Some w' => Some (timestamp_ns w') | None => previous end =
    match last P with Some w' => Some (timestamp_ns w') | None => Some (timestamp_ns w) end).
  { rewrite last_cons. by destruct (last P). }
  rewrite Hlast. destruct (Z.eqb_spec (duration_ns w) 0); cbn [negb andb].
  - pose proof (instantaneous_end_le previous (timestamp_ns w) (timestamp_ns n) ltac:(lia)).
    destruct (Z.leb_spec start_ns (instantaneous_word_end_ns previous (timestamp_ns w) (timestamp_ns n))); [lia|done].
  - by destruct (start_ns <=? _).
Qed.

Lemma annotate_behind X N : forall previous, Forall (fun w => end_ns < timestamp_ns w) N ->
  List.filter (meets start_ns end_ns) (annotate previous (X ++ N)) =
  List.filter (meets start_ns end_ns) (annotate previous (X ++ take 1 N)).
Proof.
  assert (Hnone : forall N previous, Forall (fun w => end_ns < timestamp_ns w) N ->
    List.filter (meets start_ns end_ns) (annotate previous N) = []).
  { clear. induction N as [|n N IH]; intros previous H; [done|]. apply Forall_cons in H as [Hn H]. cbn [annotate List.filter].
    unfold meets at 1. cbn [annotation_of annotation_start_ns]. replace (timestamp_ns n <=? end_ns) with false by lia. by apply IH. }
  intros previous HN. revert previous. induction X as [|x X IH]; intros previous; cbn [app].
  - rewrite !Hnone; [done|by apply Forall_take|done].
  - cbn [annotate List.filter]. rewrite IH. assert (head (X ++ take 1 N) = head (X ++ N)) as ->; [|done].
    destruct X; [by destruct N|done].
Qed.

(** Two lists of words around the same words of the window give the same annotations. *)
Lemma annotations_core P T M N : strict ((P ++ T) ++ M ++ N) -> (length T <= 2)%nat -> (P <> [] -> length T = 2%nat) ->
  Forall (fun w => timestamp_ns w < start_ns) (P ++ T) -> Forall (fun w => end_ns < timestamp_ns w) N ->
  annotations_in start_ns end_ns ((P ++ T) ++ M ++ N) =
  annotations_in start_ns end_ns ((List.filter long P ++ T) ++ M ++ take 1 N).
Proof.
  intros Hs HT HP Hb HN. unfold annotations_in.
  destruct T as [|q T]; [destruct P as [|w P]; [|specialize (HP ltac:(done)); cbn in HP; lia]|].
  { exact (annotate_behind M N None HN). }
  destruct T as [|p T]; [destruct P as [|w P]; [|specialize (HP ltac:(done)); cbn in HP; lia]|].
  { exact (annotate_behind (q :: M) N None HN). }
  destruct T; [|cbn in HT; lia]. rewrite <- !app_assoc in *. cbn [app] in *.
  apply Forall_app in Hb as [HbP Hb]. apply Forall_cons in Hb as [Hbq Hb]. apply Forall_cons in Hb as [Hbp _].
  assert (Hfp : Forall (fun w => timestamp_ns w < start_ns) (List.filter long P)).
  { rewrite List.Forall_forall in *. intros w Hw. apply List.filter_In in Hw as [Hw _]. by apply HbP. }
  assert (Hqp : forall P', Forall (fun w => timestamp_ns w < start_ns) P' -> Forall (fun w => timestamp_ns w < start_ns) ((P' ++ [q]) ++ [p])).
  { intros P' HP'. rewrite <- app_assoc. apply Forall_app. split; [done|]. by repeat constructor. }
  assert (Hfs : strict (List.filter long P ++ q :: p :: M ++ N)).
  { apply strict_app in Hs as (H1 & H2 & H3). apply strict_app. split; [|split; [|done]].
    - intros a b Ha Hb'. apply H1; [|done]. apply list_elem_of_In in Ha. apply List.filter_In in Ha as [Ha _]. by apply list_elem_of_In.
    - clear - H2. induction H2 as [|w l Hl IH Hw]; cbn; [constructor|]. destruct (long w); [|done]. constructor; [done|].
      rewrite List.Forall_forall in *. intros x Hx. apply List.filter_In in Hx as [Hx _]. by apply Hw. }
  change (q :: p :: M ++ N) with ([q] ++ p :: M ++ N) in Hs, Hfs |- *.
  change (q :: p :: M ++ take 1 N) with ([q] ++ p :: M ++ take 1 N).
  rewrite !app_assoc in *. rewrite (annotate_before (P ++ [q]) p) by (done || by apply Hqp).
  change (p :: M ++ take 1 N) with ((p :: M) ++ take 1 N). rewrite (app_assoc _ (p :: M)), <- annotate_behind by done.
  rewrite <- (app_assoc _ (p :: M)). cbn [app]. rewrite (annotate_before (List.filter long P ++ [q]) p) by (done || by apply Hqp).
  rewrite !last_snoc, !List.filter_app. f_equal. f_equal. f_equal.
  by rewrite filter_idem.
Qed.
End Window.
