(* ===== verification/AnnotationCollect.v ===== *)
(** What a query has collected after it has gone over words in order. *)

From stdpp Require sorting.
From S2P Require Import Prelude Events DerivedIndex WordPresence WordPresenceProofs WordPresenceRuns.
From S2P Require Import AnnotationQuery AnnotationSelection.

Section Collect.
Context (start_ns end_ns : Z).
Hypothesis Hwindow : start_ns <= end_ns.

Abbreviation before := (before start_ns).
Abbreviation behind := (behind end_ns).
Abbreviation inside := (inside start_ns end_ns).
Abbreviation long := (long start_ns).

(** Words of the answer: the long ones in front of the window and those inside it. *)
Definition kept (ws : list Word) : list Word :=
  List.filter long (List.filter before ws) ++ List.filter inside ws.

Definition shift (p : option Word * option Word) (w : Word) : option Word * option Word := (snd p, Some w).

(** The last two words in front of the window. *)
Definition predecessors (ws : list Word) : option Word * option Word :=
  fold_left shift (List.filter before ws) (None, None).

Definition collected (limit : nat) (ws : list Word) : ExactQueryCandidates :=
  mkCandidates (kept ws) (fst (predecessors ws)) (snd (predecessors ws)) (head (List.filter behind ws)) false limit.

(** The candidates took what they could. *)
Definition full (limit : nat) (ws : list Word) (c : ExactQueryCandidates) : Prop :=
  truncated c = true /\ successor c = None /\ candidate_words c = take limit ws.

Definition state (words : list Word) (p : option Word * option Word) (limit : nat) : ExactQueryCandidates :=
  mkCandidates words (fst p) (snd p) None false limit.

Lemma collect_before P rest : forall words p limit,
  Forall (fun w => timestamp_ns w < start_ns) P -> strict P ->
  (forall w x, snd p = Some x -> w ∈ P -> timestamp_ns x <= timestamp_ns w) -> (length words <= limit)%nat ->
  let words' := words ++ List.filter long P in
  if Nat.leb (length words') limit
  then collect_words start_ns end_ns (state words p limit) (P ++ rest) =
       collect_words start_ns end_ns (state words' (fold_left shift P p) limit) rest
  else full limit words' (collect_words start_ns end_ns (state words p limit) (P ++ rest)).
Proof.
  induction P as [|w P IH]; intros words p limit Hb Hs Hp Hl; cbv zeta; cbn [app List.filter fold_left].
  { rewrite app_nil_r. by destruct (Nat.leb_spec (length words) limit); [|lia]. }
  apply Forall_cons in Hb as [Hw Hb]. apply StronglySorted_inv in Hs as [Hs Hlt].
  assert (Hp' : forall x y, snd (shift p w) = Some y -> x ∈ P -> timestamp_ns y <= timestamp_ns x).
  { intros x y [= <-] Hx. rewrite Forall_forall in Hlt. specialize (Hlt x Hx). lia. }
  assert (Hstep : collect_word start_ns end_ns (state words p limit) w =
    if long w then
      if Nat.eqb (length words) limit
      then (mkCandidates words (fst (shift p w)) (snd (shift p w)) None true limit, false)
      else (state (words ++ [w]) (shift p w) limit, true)
    else (state words (shift p w) limit, true)).
  { unfold collect_word, note_predecessor, keep_word, state. cbn [candidate_words previous_predecessor AnnotationQuery.predecessor successor truncated AnnotationQuery.limit].
    replace (timestamp_ns w <? start_ns) with true by lia.
    assert (Hcur : match snd p with Some current => timestamp_ns current <=? timestamp_ns w | None => true end = true).
    { destruct (snd p) as [x|] eqn:E; [|done]. apply Z.leb_le, Hp; [done|left]. }
    rewrite Hcur. unfold AnnotationSelection.long. rewrite Z.leb_antisym.
    destruct (duration_ns w =? 0), (saturating_add64 (timestamp_ns w) (duration_ns w) <? start_ns); cbn; try done.
  }
  cbn [collect_words]. rewrite Hstep. destruct (long w) eqn:Hlong.
  - destruct (Nat.eqb_spec (length words) limit) as [Heq|Hne].
    + rewrite length_app. cbn [length]. destruct (Nat.leb_spec (length words + S (length (List.filter long P))) limit); [lia|].
      split; [done|]. split; [done|]. cbn. by rewrite take_app_length'.
    + specialize (IH (words ++ [w]) (shift p w) limit Hb Hs Hp'). rewrite length_app in IH. cbn [length] in IH.
      specialize (IH ltac:(lia)). cbv zeta in IH. rewrite <- app_assoc in IH. cbn [app] in IH. exact IH.
  - exact (IH words (shift p w) limit Hb Hs Hp' Hl).
Qed.

Lemma collect_inside M rest p limit : forall words,
  Forall (fun w => start_ns <= timestamp_ns w <= end_ns) M -> (length words <= limit)%nat ->
  if Nat.leb (length (words ++ M)) limit
  then collect_words start_ns end_ns (state words p limit) (M ++ rest) =
       collect_words start_ns end_ns (state (words ++ M) p limit) rest
  else full limit (words ++ M) (collect_words start_ns end_ns (state words p limit) (M ++ rest)).
Proof.
  induction M as [|w M IH]; intros words Hm Hl; cbn [app].
  { rewrite app_nil_r. by destruct (Nat.leb_spec (length words) limit); [|lia]. }
  apply Forall_cons in Hm as [Hw Hm].
  assert (Hstep : collect_word start_ns end_ns (state words p limit) w =
    if Nat.eqb (length words) limit
      then (mkCandidates words (fst p) (snd p) None true limit, false)
      else (state (words ++ [w]) p limit, true)).
  { unfold collect_word, note_predecessor, keep_word, state. cbn [candidate_words previous_predecessor AnnotationQuery.predecessor successor truncated AnnotationQuery.limit].
    replace (timestamp_ns w <? start_ns) with false by lia. by replace (end_ns <? timestamp_ns w) with false by lia. }
  cbn [collect_words]. rewrite Hstep. destruct (Nat.eqb_spec (length words) limit) as [Heq|Hne].
  - rewrite length_app. cbn [length]. destruct (Nat.leb_spec (length words + S (length M)) limit); [lia|].
    split; [done|]. split; [done|]. cbn. by rewrite take_app_length'.
  - specialize (IH (words ++ [w]) Hm). rewrite length_app in IH. cbn [length] in IH. specialize (IH ltac:(lia)).
    rewrite <- app_assoc in IH. cbn [app] in IH. exact IH.
Qed.

Lemma collect_behind N words p limit : Forall (fun w => end_ns < timestamp_ns w) N ->
  collect_words start_ns end_ns (state words p limit) N =
  mkCandidates words (fst p) (snd p) (head N) false limit.
Proof.
  destruct N as [|w N]; [done|]. intros H. apply Forall_cons in H as [Hw _]. cbn [collect_words head]. unfold collect_word, note_predecessor, keep_word, state.
  cbn [candidate_words previous_predecessor AnnotationQuery.predecessor successor truncated AnnotationQuery.limit].
  replace (timestamp_ns w <? start_ns) with false by lia. by replace (end_ns <? timestamp_ns w) with true by lia.
Qed.

Lemma filter_none {A} (f : A -> bool) l : (forall x, In x l -> f x = false) -> List.filter f l = [].
Proof.
  induction l as [|x l IH]; intros H; [done|]. cbn. rewrite (H x) by (by left). apply IH. intros y Hy. apply H. by right.
Qed.

(** Words in strict order are those in front of the window, those inside and those behind. *)
Lemma strict_split ws : strict ws -> ws = List.filter before ws ++ List.filter inside ws ++ List.filter behind ws.
Proof.
  induction ws as [|w ws IH]; intros Hs; [done|]. apply StronglySorted_inv in Hs as [Hs Hlt]. rewrite List.Forall_forall in Hlt.
  specialize (IH Hs). cbn [List.filter].
  destruct (Z.lt_ge_cases (timestamp_ns w) start_ns) as [H1|H1]; [|destruct (Z.le_gt_cases (timestamp_ns w) end_ns) as [H2|H2]].
  - assert (before w = true /\ inside w = false /\ behind w = false) as (-> & -> & ->)
      by (unfold AnnotationSelection.before, AnnotationSelection.inside, AnnotationSelection.behind; lia).
    cbn [app]. by rewrite <- IH.
  - assert (before w = false /\ inside w = true /\ behind w = false) as (-> & -> & ->)
      by (unfold AnnotationSelection.before, AnnotationSelection.inside, AnnotationSelection.behind; lia).
    rewrite (filter_none before) in IH |- * by (intros x Hx; specialize (Hlt x Hx); unfold AnnotationSelection.before; lia).
    cbn [app] in *. by rewrite <- IH.
  - assert (before w = false /\ inside w = false /\ behind w = true) as (-> & -> & ->)
      by (unfold AnnotationSelection.before, AnnotationSelection.inside, AnnotationSelection.behind; lia).
    rewrite (filter_none before) in IH |- * by (intros x Hx; specialize (Hlt x Hx); unfold AnnotationSelection.before; lia).
    rewrite (filter_none inside) in IH |- * by (intros x Hx; specialize (Hlt x Hx); unfold AnnotationSelection.inside; lia).
    cbn [app] in *. by rewrite <- IH.
Qed.

Lemma filter_forall {A} (f : A -> bool) (P : A -> Prop) l : (forall x, f x = true -> P x) -> Forall P (List.filter f l).
Proof. intros H. apply List.Forall_forall. intros x Hx. apply List.filter_In in Hx as [_ Hx]. by apply H. Qed.

(** Going over words in strict order collects the words of the answer, up to the limit, with the
    two words in front of the window and the one behind it. *)
Lemma collect_eq ws limit : strict ws ->
  let c := collect (ExactQueryCandidates_new limit) ws start_ns end_ns in
  if Nat.leb (length (kept ws)) limit then c = collected limit ws else full limit (kept ws) c.
Proof.
  intros Hs. cbv zeta. unfold collect. cbn [truncated successor ExactQueryCandidates_new is_some].
  rewrite !orb_false_r. destruct (Nat.eqb_spec (length ws) 0) as [H0|_].
  { by apply length_zero_iff_nil in H0 as ->. }
  change (ExactQueryCandidates_new limit) with (state [] (None, None) limit).
  assert (Hsplit := strict_split ws Hs). rewrite Hsplit in Hs. apply strict_app in Hs as (_ & Hsb & _).
  unfold collected, predecessors, kept.
  assert (Hcw : collect_words start_ns end_ns (state [] (None, None) limit) ws =
    collect_words start_ns end_ns (state [] (None, None) limit)
      (List.filter before ws ++ List.filter inside ws ++ List.filter behind ws)) by (by rewrite <- Hsplit).
  rewrite Hcw. clear Hcw.
  pose proof (collect_before (List.filter before ws) (List.filter inside ws ++ List.filter behind ws) [] (None, None) limit) as Hb.
  assert (Forall (fun w => timestamp_ns w < start_ns) (List.filter before ws))
    by (apply filter_forall; unfold AnnotationSelection.before; lia).
  assert (Forall (fun w => start_ns <= timestamp_ns w <= end_ns) (List.filter inside ws))
    by (apply filter_forall; unfold AnnotationSelection.inside; lia).
  assert (Forall (fun w => end_ns < timestamp_ns w) (List.filter behind ws))
    by (apply filter_forall; unfold AnnotationSelection.behind; lia).
  specialize (Hb ltac:(done) Hsb ltac:(done) ltac:(cbn; lia)). cbv zeta in Hb. cbn [app] in Hb.
  set (L := List.filter long (List.filter before ws)) in *. set (M := List.filter inside ws) in *.
  rewrite length_app. destruct (Nat.leb_spec (length L) limit) as [HL|HL].
  - rewrite Hb. pose proof (collect_inside M (List.filter behind ws) (fold_left shift (List.filter before ws) (None, None)) limit L ltac:(done) HL) as Hi.
    rewrite length_app in Hi. destruct (Nat.leb_spec (length L + length M) limit); [|done].
    rewrite Hi. by apply collect_behind.
  - destruct (Nat.leb_spec (length L + length M) limit); [lia|]. destruct Hb as (H1' & H2' & H3'). split; [done|]. split; [done|].
    rewrite H3', take_app_le by lia. done.
Qed.
End Collect.

(** ** The words a query puts together *)

Lemma filter_sublist {A} (f : A -> bool) l : sublist (List.filter f l) l.
Proof. induction l as [|x l IH]; cbn; [constructor|]. by destruct (f x); constructor. Qed.

Lemma strict_sublist l1 l2 : sublist l1 l2 -> strict l2 -> strict l1.
Proof.
  induction 1 as [|x l1 l2 Hl IH|x l1 l2 Hl IH]; intros Hs; [done| |]; apply StronglySorted_inv in Hs as [Hs Hx].
  - constructor; [by apply IH|]. rewrite Forall_forall in *. intros y Hy. apply Hx.
    by eapply elem_of_submseteq, sublist_submseteq.
  - by apply IH.
Qed.

Lemma strict_NoDup ws : strict ws -> NoDup ws.
Proof.
  induction 1 as [|w ws Hs IH Hw]; constructor; [|done]. intros Hin. rewrite Forall_forall in Hw. specialize (Hw w Hin). lia.
Qed.

Lemma push_missing_in context word x : x ∈ push_missing context word <-> x ∈ context \/ word = Some x.
Proof.
  destruct word as [w|]; cbn; [|naive_solver]. destruct (decide (w ∈ context)) as [Hin|Hin].
  - naive_solver.
  - rewrite elem_of_app, list_elem_of_singleton. naive_solver.
Qed.

Lemma push_missing_NoDup context word : NoDup context -> NoDup (push_missing context word).
Proof.
  intros H. destruct word as [w|]; cbn; [|done]. destruct (decide (w ∈ context)) as [Hin|Hin]; [done|].
  apply NoDup_app. split; [done|]. split; [|apply NoDup_singleton]. intros x Hx Hw. apply list_elem_of_singleton in Hw as ->. done.
Qed.

Lemma time_sort_sorted ws : StronglySorted (fun a b => timestamp_ns a <= timestamp_ns b) (sort_by (fun a b => timestamp_ns a <=? timestamp_ns b) ws).
Proof.
  pose proof (sort_sorted (fun a b => timestamp_ns a <=? timestamp_ns b) ltac:(cbn; intros; lia) ltac:(cbn; intros; lia) ws) as Hs.
  clear -Hs. induction Hs as [|w l Hl IH Hw]; constructor; [done|]. eapply Forall_impl; [exact Hw|]. cbn. intros; lia.
Qed.

(** The sort puts words in strict order back. *)
Lemma time_sort_unique ws l : strict l -> ws ≡ₚ l -> sort_by (fun a b => timestamp_ns a <=? timestamp_ns b) ws = l.
Proof.
  intros Hs Hp. apply (sorting.StronglySorted_unique_strong (fun a b => timestamp_ns a <= timestamp_ns b)).
  - intros a b Ha Hb Hab Hba. rewrite sort_perm, Hp in Ha.
    apply list_elem_of_lookup in Ha as [i Hi]. apply list_elem_of_lookup in Hb as [j Hj].
    assert (Hlt : forall i j a b, l !! i = Some a -> l !! j = Some b -> lt i j -> timestamp_ns a < timestamp_ns b).
    { clear -Hs. induction Hs as [|w l Hl IH Hw]; intros i j a b Ha Hb Hij; [done|]. destruct i as [|i], j as [|j]; [lia| |lia|].
      - injection Ha as <-. rewrite Forall_forall in Hw. by apply Hw, (list_elem_of_lookup_2 _ j).
      - by apply (IH i j a b); [..|lia]. }
    destruct (Nat.lt_trichotomy i j) as [H|[->|H]]; [|congruence|].
    + specialize (Hlt i j a b Hi Hj H). lia.
    + specialize (Hlt j i b a Hj Hi H). lia.
  - apply time_sort_sorted.
  - clear Hp. induction Hs as [|w l Hl IH Hw]; constructor; [done|]. eapply Forall_impl; [exact Hw|]. cbn. intros; lia.
  - by rewrite sort_perm.
Qed.

Section Context.
Context (start_ns end_ns : Z).
Hypothesis Hwindow : start_ns <= end_ns.

Abbreviation before := (before start_ns).
Abbreviation behind := (behind end_ns).
Abbreviation inside := (inside start_ns end_ns).
Abbreviation long := (long start_ns).

Definition in_front (ws : list Word) : list Word :=
  take (length (List.filter before ws) - 2) (List.filter before ws).
Definition nearest_two (ws : list Word) : list Word :=
  drop (length (List.filter before ws) - 2) (List.filter before ws).

Definition core (ws : list Word) : list Word :=
  (List.filter long (in_front ws) ++ nearest_two ws) ++ List.filter inside ws ++ take 1 (List.filter behind ws).

Lemma front_eq ws : List.filter before ws = in_front ws ++ nearest_two ws.
Proof. symmetry. apply take_drop. Qed.

Lemma nearest_two_length ws : (length (nearest_two ws) <= 2)%nat /\ (in_front ws <> [] -> length (nearest_two ws) = 2%nat).
Proof.
  unfold nearest_two, in_front. rewrite length_drop. split; [lia|]. intros H.
  destruct (Nat.le_gt_cases (length (List.filter before ws)) 2) as [Hle|]; [|lia].
  replace (length (List.filter before ws) - 2)%nat with 0%nat in H by lia. done.
Qed.

Lemma predecessors_eq ws : predecessors start_ns ws =
  match nearest_two ws with [] => (None, None) | [p] => (None, Some p) | q :: p :: _ => (Some q, Some p) end.
Proof.
  unfold predecessors. rewrite front_eq, fold_left_app. destruct (nearest_two_length ws) as [H1 H2].
  destruct (nearest_two ws) as [|q [|p [|]]]; [..|cbn in H1; lia]; cbn [fold_left shift snd].
  - destruct (in_front ws) eqn:E; [done|]. specialize (H2 ltac:(done)). done.
  - destruct (in_front ws) eqn:E; [done|]. specialize (H2 ltac:(done)). done.
  - done.
Qed.

Lemma words_parts ws : strict ws -> ws = (in_front ws ++ nearest_two ws) ++ List.filter inside ws ++ List.filter behind ws.
Proof. intros Hs. rewrite <- front_eq. by apply (strict_split _ _ Hwindow). Qed.

Lemma core_strict ws : strict ws -> strict (core ws).
Proof.
  intros Hs. eapply strict_sublist; [|exact Hs]. rewrite (words_parts ws Hs) at 2. unfold core.
  apply sublist_app; apply sublist_app; [apply filter_sublist|done|done|apply sublist_take].
Qed.

(** The context of complete candidates is the core of the words. *)
Lemma context_core ws limit : strict ws -> query_context (collected start_ns end_ns limit ws) = core ws.
Proof.
  intros Hs. pose proof (core_strict ws Hs) as Hcore. unfold query_context, collected. cbn [candidate_words previous_predecessor AnnotationQuery.predecessor successor].
  apply time_sort_unique; [done|]. apply NoDup_Permutation.
  - assert (Hk : NoDup (push_missing (push_missing (kept start_ns end_ns ws) (fst (predecessors start_ns ws))) (snd (predecessors start_ns ws)))).
    { apply push_missing_NoDup, push_missing_NoDup, strict_NoDup. eapply strict_sublist; [|exact Hs].
      rewrite (words_parts ws Hs) at 2. unfold kept. rewrite <- front_eq. apply sublist_app; [apply filter_sublist|].
      apply sublist_inserts_r. done. }
    destruct (head (List.filter behind ws)) as [x|] eqn:Hx; [|done]. apply NoDup_app. split; [done|]. split; [|apply NoDup_singleton].
    intros y Hy Hyx. apply list_elem_of_singleton in Hyx as ->.
    assert (Hb : behind x = true).
    { destruct (List.filter behind ws) as [|z l] eqn:E; [done|]. injection Hx as ->.
      assert (Hin : In x (List.filter behind ws)) by (rewrite E; by left). by apply List.filter_In in Hin as [_ Hin]. }
    assert (Hbe : forall z, z ∈ List.filter before ws -> behind z = false).
    { intros z Hz. apply list_elem_of_In, List.filter_In in Hz as [_ Hz]. unfold AnnotationSelection.before, AnnotationSelection.behind in *. lia. }
    rewrite !push_missing_in, predecessors_eq in Hy. unfold kept in Hy. rewrite elem_of_app in Hy.
    assert (Hnear : forall z, z ∈ nearest_two ws -> z ∈ List.filter before ws).
    { intros z Hz. rewrite front_eq, elem_of_app. by right. }
    destruct Hy as [[[Hy|Hy]|Hy]|Hy].
    + apply list_elem_of_In, List.filter_In in Hy as [Hy _]. apply list_elem_of_In in Hy. rewrite Hbe in Hb; done.
    + apply list_elem_of_In, List.filter_In in Hy as [_ Hy]. unfold AnnotationSelection.inside, AnnotationSelection.behind in *. lia.
    + destruct (nearest_two ws) as [|q [|p l]]; cbn in Hy; [done..|]. injection Hy as ->. rewrite Hbe in Hb; [done|]. apply Hnear. by left.
    + destruct (nearest_two ws) as [|q [|p l]]; cbn in Hy; [done|..]; injection Hy as ->; (rewrite Hbe in Hb; [done|]); apply Hnear; [by left|by right; left].
  - by apply strict_NoDup.
  - intros x.
    assert (Hlong : forall z, z ∈ List.filter long (nearest_two ws) -> z ∈ nearest_two ws).
    { intros z Hz. apply list_elem_of_In, List.filter_In in Hz as [Hz _]. by apply list_elem_of_In. }
    assert (Hctx : forall c, x ∈ match head (List.filter behind ws) with Some s => c ++ [s] | None => c end <->
      x ∈ c \/ x ∈ take 1 (List.filter behind ws)).
    { intros c. destruct (List.filter behind ws) as [|s l]; cbn; [by rewrite elem_of_nil; tauto|]. by rewrite elem_of_app, take_0. }
    rewrite Hctx, !push_missing_in, predecessors_eq. unfold kept, core. rewrite (front_eq ws), List.filter_app, !elem_of_app.
    destruct (nearest_two_length ws) as [H1 _]. specialize (Hlong x).
    destruct (nearest_two ws) as [|q [|p [|]]]; [..|cbn in H1; lia]; cbn [fst snd];
      rewrite ?elem_of_cons, ?elem_of_nil in *; naive_solver.
Qed.
End Context.

(** ** The answer *)

Section Answer.
Context (start_ns end_ns : Z).
Hypothesis Hwindow : start_ns <= end_ns.

(** Words that meet the window whatever stands around them. *)
Definition keeps (w : Word) : bool :=
  before start_ns w && long start_ns w || inside start_ns end_ns w.

Lemma end_in_ge previous w next : times_ok w -> timestamp_ns w <= end_in previous w next.
Proof.
  intros [Ht Hd]. unfold end_in. destruct (negb (duration_ns w =? 0)); [ints|]. destruct next as [n|]; [|lia].
  by apply instantaneous_end_range.
Qed.

Lemma keeps_meets previous w next : times_ok w -> keeps w = true ->
  meets start_ns end_ns (annotation_of w (end_in previous w next)) = true.
Proof.
  intros Hok Hk. unfold keeps, before, long, inside in Hk. unfold meets. cbn [annotation_of annotation_start_ns annotation_end_ns].
  pose proof (end_in_ge previous w next Hok) as Hge.
  destruct (Z.ltb_spec (timestamp_ns w) start_ns); cbn [andb orb] in Hk.
  - apply orb_true_iff in Hk as [Hk|Hk]; [|lia]. apply andb_true_iff in Hk as [H1 H2]. unfold end_in. rewrite H1. lia.
  - lia.
Qed.

Lemma keeps_count ws : forall previous, Forall times_ok ws ->
  (length (List.filter keeps ws) <= length (List.filter (meets start_ns end_ns) (annotate previous ws)))%nat.
Proof.
  induction ws as [|w ws IH]; intros previous Hok; [done|]. apply Forall_cons in Hok as [Hw Hok].
  cbn [List.filter annotate]. specialize (IH (Some (timestamp_ns w)) Hok). destruct (keeps w) eqn:Hk.
  - rewrite keeps_meets by done. cbn [length]. lia.
  - destruct (meets start_ns end_ns _); cbn [length]; lia.
Qed.

Lemma kept_keeps ws : strict ws -> length (kept start_ns end_ns ws) = length (List.filter keeps ws).
Proof.
  intros Hs. unfold kept. rewrite length_app.
  clear Hs. induction ws as [|w ws IH]; [done|]. cbn [List.filter]. unfold keeps at 1.
  destruct (before start_ns w) eqn:Hb; cbn [List.filter andb].
  - assert (inside start_ns end_ns w = false) as -> by (unfold before, inside in *; lia).
    destruct (long start_ns w); cbn [orb length]; lia.
  - cbn [orb]. destruct (inside start_ns end_ns w); cbn [length]; lia.
Qed.

(** Complete candidates give all annotations of the words, cut at the limit. *)
Lemma window_collected ws limit : strict ws ->
  annotation_window_from_ordered_words (query_context (collected start_ns end_ns limit ws)) start_ns end_ns limit =
  (take limit (annotations_in start_ns end_ns ws), Nat.ltb limit (length (annotations_in start_ns end_ns ws))).
Proof.
  intros Hs. rewrite (context_core start_ns end_ns Hwindow) by done. rewrite annotation_window_eq.
  assert (annotations_in start_ns end_ns (core start_ns end_ns ws) = annotations_in start_ns end_ns ws) as ->; [|done].
  rewrite (words_parts start_ns end_ns Hwindow ws Hs) at 2. unfold core. symmetry.
  destruct (nearest_two_length start_ns ws). apply annotations_core; [done| |done|done| |].
  - by rewrite <- words_parts.
  - rewrite <- front_eq. apply filter_forall. unfold before. lia.
  - apply filter_forall. unfold behind. lia.
Qed.

(** Candidates that stopped at the limit give as many annotations, and there are more. *)
Lemma window_full ws limit c : strict ws -> Forall times_ok ws -> full limit (kept start_ns end_ns ws) c ->
  (limit < length (kept start_ns end_ns ws))%nat -> (forall w, previous_predecessor c = Some w -> times_ok w) ->
  (forall w, AnnotationQuery.predecessor c = Some w -> times_ok w) ->
  length (fst (annotation_window_from_ordered_words (query_context c) start_ns end_ns limit)) = limit /\
  (limit < length (annotations_in start_ns end_ns ws))%nat.
Proof.
  intros Hs Hok (Ht & Hsucc & Hwords) Hlt Hq Hp. split.
  - rewrite annotation_window_eq. cbn [fst]. rewrite length_take. apply Nat.min_l. unfold annotations_in.
    unfold query_context. rewrite Hsucc, Hwords.
    set (pre := take limit (kept start_ns end_ns ws)).
    set (l := push_missing (push_missing pre (previous_predecessor c)) (AnnotationQuery.predecessor c)).
    assert (Hkeep : Forall (fun w => keeps w = true /\ times_ok w) pre).
    { apply Forall_take. unfold kept. apply Forall_app. rewrite List.Forall_forall in Hok. split; apply List.Forall_forall; intros w Hw.
      - apply List.filter_In in Hw as [Hw Hl]. apply List.filter_In in Hw as [Hw Hb]. split; [unfold keeps; by rewrite Hb, Hl|by apply Hok].
      - apply List.filter_In in Hw as [Hw Hi]. split; [unfold keeps; rewrite Hi; apply orb_true_r|by apply Hok]. }
    assert (Hpre : exists rest, l = pre ++ rest).
    { assert (Hone : forall k o, exists rest, push_missing k o = k ++ rest).
      { intros k [w|]; cbn; [|exists []; by rewrite app_nil_r]. destruct (decide (w ∈ k)); [exists []; by rewrite app_nil_r|by exists [w]]. }
      unfold l. destruct (Hone pre (previous_predecessor c)) as [r1 ->].
      destruct (Hone (pre ++ r1) (AnnotationQuery.predecessor c)) as [r2 ->]. exists (r1 ++ r2). by rewrite app_assoc. }
    assert (Hlok : Forall times_ok l).
    { apply Forall_forall. intros w Hw. unfold l in Hw. rewrite !push_missing_in in Hw. rewrite Forall_forall in Hkeep.
      destruct Hw as [[Hw|Hw]|Hw]; [by apply Hkeep|by apply Hq|by apply Hp]. }
    eapply Nat.le_trans; [|apply keeps_count; by rewrite sort_perm].
    assert (Hperm : forall a b, a ≡ₚ b -> length (List.filter keeps a) = length (List.filter keeps b)).
    { intros a b. induction 1 as [|x a b _ IH|x y a|a b d _ IH1 _ IH2]; cbn; [done| | |lia].
      - destruct (keeps x); cbn; lia.
      - destruct (keeps x), (keeps y); cbn; lia. }
    rewrite (Hperm _ _ (sort_perm _ _)). destruct Hpre as [rest ->]. rewrite List.filter_app, length_app.
    assert (List.filter keeps pre = pre) as ->.
    { clear -Hkeep. induction Hkeep as [|w pre [Hw _] _ IH]; [done|]. cbn. by rewrite Hw, IH. }
    unfold pre. rewrite length_take. lia.
  - rewrite (kept_keeps ws Hs) in Hlt. pose proof (keeps_count ws None Hok). unfold annotations_in. lia.
Qed.
End Answer.
