(* ===== verification/AnnotationExact.v ===== *)
(** An exact window query answers with the annotations of all stored words that meet the window,
    although it reads only the blocks it selects. *)

From stdpp Require sorting.
From S2P Require Import Prelude Events WordPresence WordPresenceIndex WordPresenceProofs.
From S2P Require Import WordPresenceRuns DerivedIndex AnnotationQuery AnnotationSelection.
From S2P Require Import AnnotationCollect.

(** ** Collecting block by block *)

Section Blocks.
Context (start_ns end_ns : Z).

Definition stopped (c : ExactQueryCandidates) : bool := truncated c || is_some (successor c).

Lemma note_stopped c w : stopped (note_predecessor c w) = stopped c.
Proof.
  unfold note_predecessor. destruct (AnnotationQuery.predecessor c) as [x|]; [destruct (timestamp_ns x <=? timestamp_ns w)|]; done.
Qed.

Lemma keep_stops c w : stopped c = false -> stopped (fst (keep_word c w)) = negb (snd (keep_word c w)).
Proof. unfold stopped, keep_word. intros H. by destruct (Nat.eqb _ _). Qed.

Lemma collect_word_stops c w : stopped c = false ->
  stopped (fst (collect_word start_ns end_ns c w)) = negb (snd (collect_word start_ns end_ns c w)).
Proof.
  intros Hc. unfold collect_word. cbv zeta. destruct (timestamp_ns w <? start_ns).
  - destruct ((duration_ns w =? 0) || _); [cbn; by rewrite note_stopped|]. apply keep_stops. by rewrite note_stopped.
  - destruct (end_ns <? timestamp_ns w); [unfold stopped; cbn; by rewrite orb_true_r|]. by apply keep_stops.
Qed.

Lemma collect_words_app l1 l2 : forall c, stopped c = false ->
  collect_words start_ns end_ns c (l1 ++ l2) =
  let c1 := collect_words start_ns end_ns c l1 in
  if stopped c1 then c1 else collect_words start_ns end_ns c1 l2.
Proof.
  induction l1 as [|w l1 IH]; intros c Hc; cbn [app collect_words]; [by rewrite Hc|].
  pose proof (collect_word_stops c w Hc) as Hw. destruct (collect_word start_ns end_ns c w) as [c' more]. cbn [fst snd] in Hw.
  destruct more; cbn in Hw; [by apply IH|]. cbv zeta. by rewrite Hw.
Qed.

Lemma collect_stopped c l : stopped c = true -> collect c l start_ns end_ns = c.
Proof. intros H. unfold collect. rewrite <- orb_assoc. fold (stopped c). by rewrite H, orb_true_r. Qed.

Lemma collect_live c l : stopped c = false -> collect c l start_ns end_ns = collect_words start_ns end_ns c l.
Proof.
  intros H. unfold collect. rewrite <- orb_assoc. fold (stopped c). rewrite H, orb_false_r. by destruct l.
Qed.

Lemma collect_app c l1 l2 :
  collect c (l1 ++ l2) start_ns end_ns = collect (collect c l1 start_ns end_ns) l2 start_ns end_ns.
Proof.
  destruct (stopped c) eqn:Hc; [by rewrite !(collect_stopped c) by done|]. rewrite !(collect_live c) by done.
  rewrite collect_words_app by done. cbv zeta. destruct (stopped (collect_words start_ns end_ns c l1)) eqn:H1.
  - by rewrite collect_stopped.
  - by rewrite collect_live.
Qed.

(** The remembered words in front of the window are words that were collected from. *)
Lemma collect_predecessors (P : Word -> Prop) l : forall c, Forall P l ->
  (forall w, previous_predecessor c = Some w -> P w) -> (forall w, AnnotationQuery.predecessor c = Some w -> P w) ->
  let c' := collect_words start_ns end_ns c l in
  (forall w, previous_predecessor c' = Some w -> P w) /\ (forall w, AnnotationQuery.predecessor c' = Some w -> P w).
Proof.
  induction l as [|x l IH]; intros c Hl Hq Hp; [done|]. apply Forall_cons in Hl as [Hx Hl]. cbn [collect_words].
  assert (Hstep : let c' := fst (collect_word start_ns end_ns c x) in
    (forall w, previous_predecessor c' = Some w -> P w) /\ (forall w, AnnotationQuery.predecessor c' = Some w -> P w)).
  { unfold collect_word. cbv zeta. destruct (timestamp_ns x <? start_ns).
    - assert (Hn : (forall w, previous_predecessor (note_predecessor c x) = Some w -> P w) /\
        (forall w, AnnotationQuery.predecessor (note_predecessor c x) = Some w -> P w)).
      { unfold note_predecessor.
        destruct (match AnnotationQuery.predecessor c with Some current => timestamp_ns current <=? timestamp_ns x | None => true end); [|done].
        cbn. split; [done|]. by intros w [= <-]. }
      destruct ((duration_ns x =? 0) || _); [done|]. unfold keep_word. by destruct (Nat.eqb _ _).
    - destruct (end_ns <? timestamp_ns x); [done|]. unfold keep_word. by destruct (Nat.eqb _ _). }
  destruct (collect_word start_ns end_ns c x) as [c' more]. cbn [fst] in Hstep. destruct Hstep as [Hq' Hp'].
  destruct more; [by apply IH|done].
Qed.
End Blocks.

(** ** The selected blocks *)

Lemma skip_empty {A} (mem : nat -> bool) (g : nat -> list A) l : (forall i, In i l -> mem i = false -> g i = []) ->
  concat (map g (List.filter mem l)) = concat (map g l).
Proof.
  induction l as [|i l IH]; intros H; [done|]. cbn [List.filter map concat].
  rewrite <- IH by (intros j Hj; apply H; by right). destruct (mem i) eqn:Hm; [done|].
  by rewrite (H i) by (by left || done).
Qed.

Lemma filter_filter {A} (f g : A -> bool) l : List.filter f (List.filter g l) = List.filter (fun x => g x && f x) l.
Proof. induction l as [|x l IH]; cbn; [done|]. destruct (g x); cbn; [|done]. by destruct (f x); rewrite IH. Qed.

Lemma shift_two l1 l2 p : (2 <= length l2)%nat -> fold_left shift (l1 ++ l2) p = fold_left shift l2 (None, None).
Proof.
  intros H. rewrite fold_left_app. generalize (fold_left shift l1 p). intros [a b].
  destruct l2 as [|x [|y l2]]; cbn in H; [lia..|]. done.
Qed.

(** The directory and the runs describe the words of the blocks; the hot tail follows them. *)
Record stored (blocks : list (list Word)) (hot_tail : list Word) (directory : list BlockDirectoryEntry)
    (rs : list WordSummaryRecord) : Prop := mkStored {
  stored_order : strict (concat blocks ++ hot_tail);
  stored_times : Forall times_ok (concat blocks ++ hot_tail);
  stored_directory : length directory = length blocks /\
    forall i entry ws, directory !! i = Some entry -> blocks !! i = Some ws ->
      timestamp_ns <$> head ws = Some (entry_first_timestamp_ns entry) /\
      timestamp_ns <$> last ws = Some (entry_last_timestamp_ns entry);
  stored_runs : ascending summary_start rs /\ Forall blocks_ok rs;
  stored_within : Forall (fun r => first_block r + block_count r <= Z.of_nat (length blocks)) rs;
  stored_covered : forall i ws w, blocks !! i = Some ws -> In w ws -> exists r, In r rs /\
    summary_start r <= timestamp_ns w /\ timestamp_ns w <= summary_end r /\
    saturating_add64 (timestamp_ns w) (duration_ns w) <= summary_end r /\
    first_block r <= Z.of_nat i < first_block r + block_count r
}.

Section Selected.
Context (blocks : list (list Word)) (hot_tail : list Word) (directory : list BlockDirectoryEntry)
  (rs : list WordSummaryRecord) (p : WordPresenceIndex) (start_ns end_ns : Z).
Hypothesis (Hstored : stored blocks hot_tail directory rs) (Hp : presence_ok rs p) (Hwindow : start_ns <= end_ns).

(** A block that starts before the window and ends behind it has a run in the window. *)
Definition no_hidden_gap : Prop := forall i entry, directory !! i = Some entry ->
  entry_first_timestamp_ns entry < start_ns -> end_ns < entry_last_timestamp_ns entry -> run_meets rs start_ns end_ns i.
Hypothesis Hgap : no_hidden_gap.

Let n := length blocks.
Definition selected : list nat := exact_block_indices directory p start_ns end_ns.
Definition mem (i : nat) : bool := existsb (Nat.eqb i) selected.
Definition blk (i : nat) : list Word := blocks !!! i.

Lemma mem_iff i : mem i = true <-> In i selected.
Proof.
  unfold mem. rewrite existsb_exists. split; [|intros H; exists i; split; [done|apply Nat.eqb_refl]].
  intros (x & Hx & He). by apply Nat.eqb_eq in He as ->.
Qed.

Lemma blk_lookup i : lt i n -> blocks !! i = Some (blk i).
Proof. intros Hi. by apply list_lookup_lookup_total_lt. Qed.

Lemma blocks_ordered i j a b : lt i j -> lt j n -> In a (blk i) -> In b (blk j) -> timestamp_ns a < timestamp_ns b.
Proof.
  intros Hij Hj Ha Hb. destruct Hstored as [Hs _ _ _ _ _]. apply strict_app in Hs as (_ & Hs & _).
  rewrite <- (take_drop j blocks), concat_app in Hs. apply strict_app in Hs as (Hs & _). apply Hs.
  - apply list_elem_of_In, in_concat. exists (blk i). split; [|done]. apply list_elem_of_In, (list_elem_of_lookup_2 _ i).
    rewrite lookup_take_lt by done. apply blk_lookup. lia.
  - apply list_elem_of_In, in_concat. exists (blk j). split; [|done]. apply list_elem_of_In, (list_elem_of_lookup_2 _ 0).
    rewrite lookup_drop, Nat.add_0_r. by apply blk_lookup.
Qed.

(** The first and the last word of a block bound its words. *)
Lemma block_bounds i : lt i n -> exists entry a b, directory !! i = Some entry /\ In a (blk i) /\ In b (blk i) /\
  timestamp_ns a = entry_first_timestamp_ns entry /\ timestamp_ns b = entry_last_timestamp_ns entry /\
  forall w, In w (blk i) -> entry_first_timestamp_ns entry <= timestamp_ns w <= entry_last_timestamp_ns entry.
Proof.
  intros Hi. destruct Hstored as [Hs _ [Hl Hd] _ _ _].
  destruct (lookup_lt_is_Some_2 directory i ltac:(lia)) as [entry He].
  destruct (Hd i entry (blk i) He (blk_lookup i Hi)) as [Hf Hlast].
  apply fmap_Some in Hf as (a & Ha & Hfa). apply fmap_Some in Hlast as (b & Hb & Hlb).
  exists entry, a, b. split; [done|]. assert (Hin : In b (blk i)) by (apply list_elem_of_In; by apply last_Some_elem_of).
  destruct (blk i) as [|a' l] eqn:E; [done|]. injection Ha as ->. split; [by left|]. split; [done|]. split; [done|]. split; [done|].
  assert (Hsb : strict (a :: l)).
  { apply strict_app in Hs as (_ & Hs & _). eapply strict_sublist; [|exact Hs]. rewrite <- E.
    rewrite <- (take_drop i blocks), concat_app. apply sublist_inserts_l.
    rewrite (drop_S _ _ _ (blk_lookup i Hi)). cbn. by apply sublist_inserts_r. }
  intros w Hw. split.
  - destruct Hw as [<-|Hw]; [lia|]. apply StronglySorted_inv in Hsb as [_ Hx]. rewrite List.Forall_forall in Hx. specialize (Hx w Hw). lia.
  - apply last_Some in Hb as [l' Hl']. rewrite Hl' in Hsb, Hw. apply strict_app in Hsb as (Hx & _).
    apply in_app_or in Hw as [Hw|[<-|[]]]; [|lia]. specialize (Hx w b ltac:(by apply list_elem_of_In) ltac:(left)). lia.
Qed.

Lemma selected_iff i : mem i = true <-> run_meets rs start_ns end_ns i \/ S i = blocks_before directory start_ns \/
  S (S i) = blocks_before directory start_ns \/ i = blocks_until directory end_ns /\ lt i n.
Proof.
  destruct Hstored as [_ _ [Hl _] [Hr Hb] _ _]. rewrite mem_iff. unfold selected, exact_block_indices, n. rewrite <- Hl.
  by apply (select_iff rs p Hp Hr Hb).
Qed.

(** A word that is sure to meet the window is in a selected block. *)
Lemma keeps_selected i w : lt i n -> In w (blk i) -> keeps start_ns end_ns w = true -> mem i = true.
Proof.
  intros Hi Hw Hk. apply selected_iff. left. destruct Hstored as [_ _ _ _ _ Hc].
  destruct (Hc i (blk i) w (blk_lookup i Hi) Hw) as (r & Hr & H1 & H2 & H3 & H4). exists r. split; [done|].
  unfold keeps, before, long, inside in Hk.
  destruct (Z.ltb_spec (timestamp_ns w) start_ns); cbn [andb orb] in Hk.
  - apply orb_true_iff in Hk as [Hk|Hk]; [|lia]. apply andb_true_iff in Hk as [_ Hk]. split; [lia|]. split; [lia|done].
  - split; [lia|]. split; [lia|done].
Qed.

(** So is a block around an edge of the window. *)
Lemma straddling_selected i a b : lt i n -> In a (blk i) -> In b (blk i) ->
  timestamp_ns a < start_ns -> start_ns <= timestamp_ns b -> mem i = true.
Proof.
  intros Hi Ha Hb Has Hbs. destruct (Z.le_gt_cases (timestamp_ns b) end_ns) as [Hle|Hgt].
  - apply (keeps_selected i b); [done|done|]. unfold keeps, inside. replace (start_ns <=? timestamp_ns b) with true by lia.
    replace (timestamp_ns b <=? end_ns) with true by lia. apply orb_true_r.
  - destruct (block_bounds i Hi) as (entry & x & y & He & _ & _ & _ & _ & Hbd). apply selected_iff. left.
    pose proof (Hbd a Ha). pose proof (Hbd b Hb). apply (Hgap i entry He); lia.
Qed.

Lemma end_straddling_selected i a b : lt i n -> In a (blk i) -> In b (blk i) ->
  timestamp_ns a <= end_ns -> end_ns < timestamp_ns b -> mem i = true.
Proof.
  intros Hi Ha Hb Hae Hbe. destruct (Z.lt_ge_cases (timestamp_ns a) start_ns) as [Hlt|Hge].
  - apply (straddling_selected i a b); [done..|lia].
  - apply (keeps_selected i a); [done|done|]. unfold keeps, inside. replace (start_ns <=? timestamp_ns a) with true by lia.
    replace (timestamp_ns a <=? end_ns) with true by lia. apply orb_true_r.
Qed.

(** The words that the query reads. *)
Definition read_words : list Word := concat (map blk selected) ++ hot_tail.
Definition all_words : list Word := concat blocks ++ hot_tail.

Lemma selected_within i : In i selected -> lt i n.
Proof.
  rewrite <- mem_iff, selected_iff. destruct Hstored as [_ _ [Hl _] _ Hw _]. intros [(r & Hr & _ & _ & _ & H)|[H|[H|[_ H]]]]; [| | |done].
  - rewrite List.Forall_forall in Hw. specialize (Hw r Hr). unfold n. lia.
  - pose proof (leading_le (fun entry => entry_last_timestamp_ns entry <? start_ns) directory) as Hle.
    fold (blocks_before directory start_ns) in Hle. unfold n. lia.
  - pose proof (leading_le (fun entry => entry_last_timestamp_ns entry <? start_ns) directory) as Hle.
    fold (blocks_before directory start_ns) in Hle. unfold n. lia.
Qed.

Lemma selected_filter : selected = List.filter mem (seq 0 n).
Proof.
  apply (sorting.StronglySorted_unique_strong lt).
  - intros a b _ _ H1 H2. lia.
  - apply sort_dedup_sorted.
  - assert (Hseq : forall a k, StronglySorted lt (seq a k)).
    { intros a k. revert a. induction k as [|k IH]; intros a; cbn; constructor; [done|]. apply List.Forall_forall.
      intros x Hx. apply in_seq in Hx. lia. }
    specialize (Hseq 0%nat n). induction Hseq as [|x l Hl IH Hx]; cbn; [constructor|]. destruct (mem x); [|done].
    constructor; [done|]. rewrite List.Forall_forall in *. intros y Hy. apply List.filter_In in Hy as [Hy _]. by apply Hx.
  - apply NoDup_Permutation.
    + assert (Hs : StronglySorted lt selected) by apply sort_dedup_sorted.
      clear -Hs. induction Hs as [|x l Hl IH Hx]; constructor; [|done]. intros Hin. rewrite Forall_forall in Hx. specialize (Hx x Hin). lia.
    + apply NoDup_ListNoDup, List.NoDup_filter, seq_NoDup.
    + intros x. rewrite !list_elem_of_In, List.filter_In, in_seq, mem_iff. split; [|tauto].
      intros H. split; [|done]. split; [lia|]. by apply selected_within.
Qed.

Lemma blk_all : concat blocks = concat (map blk (seq 0 n)).
Proof.
  f_equal. apply list_eq. intros i. change (map blk (seq 0 n)) with (blk <$> seq 0 n). rewrite list_lookup_fmap.
  destruct (Nat.lt_ge_cases i n) as [Hi|Hi].
  - rewrite lookup_seq_lt by done. cbn. by apply blk_lookup.
  - rewrite !(proj2 (lookup_ge_None _ _)); [done|by rewrite length_seq|done].
Qed.

Lemma map_filter_concat f l : List.filter f (concat (map blk l)) = concat (map (fun i => List.filter f (blk i)) l).
Proof. induction l as [|i l IH]; cbn; [done|]. by rewrite List.filter_app, IH. Qed.

(** A filter that only keeps words of selected blocks does not see which blocks are read. *)
Lemma filter_read f : (forall i w, lt i n -> In w (blk i) -> f w = true -> mem i = true) ->
  List.filter f read_words = List.filter f all_words.
Proof.
  intros Hf. unfold read_words, all_words. rewrite !List.filter_app. f_equal.
  rewrite blk_all, selected_filter, !map_filter_concat. apply skip_empty. intros i Hi Hm. apply in_seq in Hi.
  apply filter_none. intros w Hw. destruct (f w) eqn:Hfw; [|done]. by rewrite (Hf i w) in Hm by (done || lia).
Qed.

Lemma read_strict : strict read_words.
Proof.
  destruct Hstored as [Hs _ _ _ _ _]. eapply strict_sublist; [|exact Hs]. unfold read_words. apply sublist_app; [|done].
  rewrite blk_all, selected_filter. generalize (seq 0 n). intros l. induction l as [|i l IH]; cbn; [constructor|].
  destruct (mem i); cbn; [by apply sublist_app|by apply sublist_inserts_l].
Qed.

Lemma read_times : Forall times_ok read_words.
Proof.
  destruct Hstored as [_ Ht _ _ _ _]. apply Forall_app in Ht as [Hb Hh]. apply Forall_app. split; [|done].
  rewrite blk_all in Hb. rewrite List.Forall_forall in *. intros w Hw. apply Hb. apply in_concat in Hw as (l & Hl & Hw).
  apply in_concat. exists l. split; [|done]. apply in_map_iff in Hl as (i & <- & Hi). apply in_map, in_seq.
  apply selected_within in Hi. lia.
Qed.

Lemma kept_read : kept start_ns end_ns read_words = kept start_ns end_ns all_words.
Proof.
  unfold kept. rewrite !filter_filter. f_equal; apply filter_read; intros i w Hi Hw Hf; apply (keeps_selected i w); try done;
    unfold keeps; rewrite Hf; [done|apply orb_true_r].
Qed.

(** *** Around the window *)

Abbreviation f := (blocks_before directory start_ns).
Abbreviation a := (blocks_until directory end_ns).

Lemma before_le : le f n.
Proof. destruct Hstored as [_ _ [Hl _] _ _ _]. unfold n. rewrite <- Hl. apply leading_le. Qed.

Lemma until_le : le a n.
Proof. destruct Hstored as [_ _ [Hl _] _ _ _]. unfold n. rewrite <- Hl. apply leading_le. Qed.

Lemma block_before i w : lt i f -> In w (blk i) -> timestamp_ns w < start_ns.
Proof.
  intros Hi Hw. pose proof before_le. destruct (block_bounds i) as (entry & x & y & He & _ & _ & _ & _ & Hb); [lia|].
  pose proof (leading_true _ _ _ _ Hi He) as Ht. cbn beta in Ht. specialize (Hb w Hw). lia.
Qed.

Lemma block_at_start : lt f n -> exists w, In w (blk f) /\ start_ns <= timestamp_ns w.
Proof.
  intros Hf. destruct (block_bounds f Hf) as (entry & x & y & He & _ & Hy & _ & Hly & _).
  pose proof (leading_stop _ _ _ He) as Ht. cbn beta in Ht. exists y. split; [done|lia].
Qed.

Lemma block_until i : lt i a -> exists w, In w (blk i) /\ timestamp_ns w <= end_ns.
Proof.
  intros Hi. pose proof until_le. destruct (block_bounds i) as (entry & x & y & He & Hx & _ & Hfx & _); [lia|].
  pose proof (leading_true _ _ _ _ Hi He) as Ht. cbn beta in Ht. exists x. split; [done|lia].
Qed.

Lemma block_behind i w : le a i -> lt i n -> In w (blk i) -> end_ns < timestamp_ns w.
Proof.
  intros Hai Hi Hw. destruct (block_bounds a) as (entry & x & y & He & Hx & _ & Hfx & _ & Hb); [lia|].
  pose proof (leading_stop _ _ _ He) as Ht. cbn beta in Ht.
  destruct (Nat.eq_dec a i) as [<-|Hne]; [specialize (Hb w Hw); lia|].
  pose proof (blocks_ordered a i x w ltac:(lia) Hi Hx Hw). lia.
Qed.

(** A block that is not read, from the last two before the window on, has no word in front of it. *)
Lemma unread_before i : le (f - 2) i -> lt i n -> mem i = false -> List.filter (before start_ns) (blk i) = [].
Proof.
  intros Hfi Hi Hm. apply filter_none. intros w Hw. unfold before. apply Z.ltb_ge.
  destruct (Nat.lt_ge_cases i f) as [Hlt|Hge].
  - exfalso. assert (mem i = true); [|congruence]. apply selected_iff. destruct (Nat.eq_dec (S i) f) as [|]; [auto|].
    right. right. left. lia.
  - destruct (block_at_start ltac:(lia)) as (x & Hx & Hxs). destruct (Nat.eq_dec i f) as [->|Hne].
    + destruct (Z.le_gt_cases start_ns (timestamp_ns w)) as [|Hlt]; [done|]. exfalso.
      rewrite (straddling_selected f w x) in Hm by done. done.
    + pose proof (blocks_ordered f i x w ltac:(lia) Hi Hx Hw). lia.
Qed.

Lemma predecessors_read : predecessors start_ns read_words = predecessors start_ns all_words.
Proof.
  unfold predecessors, read_words, all_words. rewrite !List.filter_app, blk_all, selected_filter, !map_filter_concat.
  pose proof before_le. assert (Hsplit : seq 0 n = seq 0 (f - 2) ++ seq (f - 2) (n - (f - 2))).
  { rewrite <- (Nat.add_0_l (f - 2)) at 2. rewrite <- seq_app. f_equal. lia. }
  rewrite Hsplit, List.filter_app, !map_app, !concat_app, <- !app_assoc.
  rewrite (skip_empty mem _ (seq (f - 2) (n - (f - 2)))).
  2: { intros i Hi Hm. apply in_seq in Hi. apply unread_before; [lia|lia|done]. }
  destruct (Nat.le_gt_cases 2 f) as [Hf|Hf].
  - assert (Hlen : (2 <= length (concat (map (fun i => List.filter (before start_ns) (blk i)) (seq (f - 2) (n - (f - 2)))) ++
      List.filter (before start_ns) hot_tail))%nat).
    { replace (n - (f - 2))%nat with (S (S (n - f))) by lia. cbn [seq map concat]. rewrite !length_app.
      assert (Hone : forall i, lt i f -> (1 <= length (List.filter (before start_ns) (blk i)))%nat).
      { intros i Hi. destruct (block_bounds i) as (entry & x & y & _ & Hx & _); [lia|].
        assert (Hin : In x (List.filter (before start_ns) (blk i))).
        { apply List.filter_In. split; [done|]. pose proof (block_before i x Hi Hx). unfold before. lia. }
        destruct (List.filter _ (blk i)); [done|cbn; lia]. }
      pose proof (Hone (f - 2)%nat ltac:(lia)). pose proof (Hone (S (f - 2)) ltac:(lia)). lia. }
    by rewrite !(shift_two (concat (map _ _)) (concat (map _ (seq (f - 2) _)) ++ _)).
  - replace (f - 2)%nat with 0%nat by lia. done.
Qed.

Lemma successor_read : head (List.filter (behind end_ns) read_words) = head (List.filter (behind end_ns) all_words).
Proof.
  unfold read_words, all_words. rewrite !List.filter_app, blk_all, selected_filter, !map_filter_concat.
  pose proof until_le. assert (Hsplit : seq 0 n = seq 0 a ++ seq a (n - a)).
  { rewrite <- (Nat.add_0_l a) at 2. rewrite <- seq_app. f_equal. lia. }
  rewrite Hsplit, List.filter_app, !map_app, !concat_app, <- !app_assoc.
  rewrite (skip_empty mem _ (seq 0 a)).
  2: { intros i Hi Hm. apply in_seq in Hi. apply filter_none. intros w Hw. unfold behind. apply Z.ltb_ge.
    destruct (block_until i ltac:(lia)) as (x & Hx & Hxe). destruct (Nat.eq_dec (S i) a) as [Heq|Hne].
    - destruct (Z.le_gt_cases (timestamp_ns w) end_ns) as [|Hgt]; [done|]. exfalso.
      rewrite (end_straddling_selected i x w) in Hm by (done || lia). done.
    - destruct (block_until (S i) ltac:(lia)) as (y & Hy & Hye).
      pose proof (blocks_ordered i (S i) w y ltac:(lia) ltac:(lia) Hw Hy). lia. }
  destruct (concat (map (fun i => List.filter (behind end_ns) (blk i)) (seq 0 a))) as [|x l]; [|done]. cbn [app].
  destruct (Nat.lt_ge_cases a n) as [Ha|Ha]; [|by replace (n - a)%nat with 0%nat by lia].
  replace (n - a)%nat with (S (n - S a)) by lia. cbn [seq List.filter].
  assert (mem a = true) as -> by (apply selected_iff; auto). cbn [map concat].
  destruct (block_bounds a Ha) as (entry & x & y & _ & Hx & _).
  assert (Hin : In x (List.filter (behind end_ns) (blk a))).
  { apply List.filter_In. split; [done|]. pose proof (block_behind a x ltac:(lia) Ha Hx). unfold behind. lia. }
  by destruct (List.filter _ (blk a)).
Qed.

Lemma collected_read limit : collected start_ns end_ns limit read_words = collected start_ns end_ns limit all_words.
Proof. unfold collected. by rewrite kept_read, predecessors_read, successor_read. Qed.
End Selected.
