(* ===== verification/AnnotationProperties.v ===== *)
(** What annotation queries promise, against classes of what they rely on when they read a block,
    and the cases the promises leave out. *)

From S2P Require Import Prelude Events WordPresence WordPresenceIndex WordPresenceProofs.
From S2P Require Import WordPresenceRuns DerivedIndex AnnotationQuery AnnotationSelection.
From S2P Require Import AnnotationCollect AnnotationExact.

(** ** Reading whole blocks *)

(** What a query relies on when it reads a block: all words of the block come back, and what the
    reader keeps stays in order. *)
Class BlockReader {S : Type}
    (query_entry_words : BlockDirectoryEntry -> Z -> Z -> Z -> S -> result AnnotationQueryError (list Word * bool) * S)
    (Inv : S -> Prop) (directory : list BlockDirectoryEntry) (blocks : list (list Word)) : Prop := {
  reads_block i entry ws s start_ns end_ns max : directory !! i = Some entry -> blocks !! i = Some ws -> Inv s ->
    exists s', query_entry_words entry start_ns end_ns max s = (Ok (ws, true), s') /\ Inv s'
}.

(** The words read stand for those of a block up to the time: they are words of the block, and no
    word of the block up to the time is later than all of them up to the time. *)
Definition reaches (t : Z) (block found : list Word) : Prop :=
  (forall w, In w found -> In w block) /\
  forall w, In w block -> timestamp_ns w <= t -> exists r, In r found /\ timestamp_ns w <= timestamp_ns r <= t.

(** What the latest word up to a time relies on: less than whole blocks. *)
Class LatestReader {S : Type}
    (query_entry_words : BlockDirectoryEntry -> Z -> Z -> Z -> S -> result AnnotationQueryError (list Word * bool) * S)
    (Inv : S -> Prop) (directory : list BlockDirectoryEntry) (blocks : list (list Word)) (t : Z) : Prop := {
  reads_latest i entry ws s : directory !! i = Some entry -> blocks !! i = Some ws -> Inv s ->
    exists found complete s', query_entry_words entry t t 3 s = (Ok (found, complete), s') /\ Inv s' /\ reaches t ws found
}.

Section Reading.
Context {S : Type}
  {query_entry_words : BlockDirectoryEntry -> Z -> Z -> Z -> S -> result AnnotationQueryError (list Word * bool) * S}
  {Inv : S -> Prop} {directory : list BlockDirectoryEntry} {blocks : list (list Word)}
  `{!BlockReader query_entry_words Inv directory blocks}.
Hypothesis Hlength : length directory = length blocks.

Lemma read_index i s start_ns end_ns max : lt i (length blocks) -> Inv s ->
  exists s', query_entry_words (directory !!! i) start_ns end_ns max s = (Ok (blk blocks i, true), s') /\ Inv s'.
Proof.
  intros Hi Hs. apply (reads_block i); [|by apply blk_lookup|done]. apply list_lookup_lookup_total_lt. lia.
Qed.

Lemma collect_entries_eq start_ns end_ns max_words idx : forall c s,
  (forall i, In i idx -> lt i (length blocks)) -> Inv s ->
  exists s', collect_entries query_entry_words start_ns end_ns max_words (entries_at directory idx) c s =
    (Ok (collect c (concat (map (blk blocks) idx)) start_ns end_ns), s') /\ Inv s'.
Proof.
  induction idx as [|i idx IH]; intros c s Hidx Hs; cbn [entries_at map collect_entries concat].
  { exists s. split; [|done]. unfold collect. cbn. done. }
  destruct (read_index i s start_ns end_ns (Z.max (saturating_add64 (Z.of_nat (max_words - length (candidate_words c))) 3) 3))
    as (s1 & -> & Hs1); [apply Hidx; by left|done|].
  fold (stopped (collect c (blk blocks i) start_ns end_ns)). rewrite collect_app.
  destruct (stopped (collect c (blk blocks i) start_ns end_ns)) eqn:Hst.
  - exists s1. by rewrite (collect_stopped _ _ _ _ Hst).
  - apply IH; [|done]. intros j Hj. apply Hidx. by right.
Qed.

(** The window comes from the candidates of all the words that the query reads. *)
Lemma exact_window_candidates hot_tail rs p generation start_ns end_ns max_words s :
  stored blocks hot_tail directory rs -> presence_ok rs p -> start_ns <= end_ns -> (0 < max_words)%nat -> Inv s ->
  let c := collect (ExactQueryCandidates_new max_words) (read_words blocks hot_tail directory p start_ns end_ns) start_ns end_ns in
  let '(found, more) := annotation_window_from_ordered_words (query_context c) start_ns end_ns max_words in
  exists s', exact_window query_entry_words
      (generation, entries_at directory (exact_block_indices directory p start_ns end_ns), hot_tail)
      start_ns end_ns max_words s = (Ok (mkWindow found (negb (truncated c || more)) generation), s') /\ Inv s'.
Proof.
  intros Hstored Hp Hwindow Hmax Hs. cbv zeta. unfold exact_window. replace (end_ns <? start_ns) with false by lia.
  replace (Nat.eqb max_words 0) with false by (symmetry; apply Nat.eqb_neq; lia).
  destruct (collect_entries_eq start_ns end_ns max_words (exact_block_indices directory p start_ns end_ns)
    (ExactQueryCandidates_new max_words) s) as (s' & -> & Hs'); [|done|].
  { intros i. by apply (selected_within blocks hot_tail directory rs p start_ns end_ns). }
  set (c1 := collect (ExactQueryCandidates_new max_words) (concat _) start_ns end_ns).
  assert (Hc : (if negb (truncated c1) && negb (is_some (successor c1)) then collect c1 hot_tail start_ns end_ns else c1) =
    collect (ExactQueryCandidates_new max_words) (read_words blocks hot_tail directory p start_ns end_ns) start_ns end_ns).
  { unfold read_words, selected. rewrite collect_app. fold c1. rewrite <- negb_orb. fold (stopped c1).
    destruct (stopped c1) eqn:Hst; [|done]. symmetry. by apply collect_stopped. }
  cbv zeta. rewrite Hc. destruct (annotation_window_from_ordered_words _ _ _ _) as [found more]. by exists s'.
Qed.

Lemma latest_of_snoc ws w t : latest_of (ws ++ [w]) t =
  if timestamp_ns w <=? t then
    match latest_of ws t with
    | Some current => if timestamp_ns current <=? timestamp_ns w then Some w else latest_of ws t
    | None => Some w
    end
  else latest_of ws t.
Proof. unfold latest_of. by rewrite fold_left_app. Qed.

Definition later (latest found : option Word) : option Word :=
  match found with
  | Some word =>
      match latest with
      | Some current => if timestamp_ns current <=? timestamp_ns word then Some word else latest
      | None => Some word
      end
  | None => latest
  end.

End Reading.

#[export] Instance whole_blocks_reach {S : Type}
    (query_entry_words : BlockDirectoryEntry -> Z -> Z -> Z -> S -> result AnnotationQueryError (list Word * bool) * S)
    Inv directory blocks t : BlockReader query_entry_words Inv directory blocks ->
  LatestReader query_entry_words Inv directory blocks t.
Proof.
  intros H. split. intros i entry ws s He Hw Hs. destruct (reads_block i entry ws s t t 3 He Hw Hs) as (s' & Hq & Hs').
  exists ws, true, s'. split; [done|]. split; [done|]. split; [done|]. intros w Hin Ht. exists w. split; [done|lia].
Qed.

(** [R] is the latest of the words up to the time. *)
Definition is_latest (t : Z) (ws : list Word) (R : option Word) : Prop :=
  match R with
  | None => forall w, In w ws -> t < timestamp_ns w
  | Some r => In r ws /\ timestamp_ns r <= t /\ forall w, In w ws -> timestamp_ns w <= t -> timestamp_ns w <= timestamp_ns r
  end.

Lemma is_latest_app t l1 l2 R1 R2 : is_latest t l1 R1 -> is_latest t l2 R2 -> is_latest t (l1 ++ l2) (later R1 R2).
Proof.
  unfold later. destruct R1 as [r1|], R2 as [r2|]; cbn; intros H1 H2; try destruct (Z.leb_spec (timestamp_ns r1) (timestamp_ns r2)); cbn.
  - destruct H1 as (I1 & T1 & M1), H2 as (I2 & T2 & M2). split; [apply in_or_app; by right|]. split; [done|].
    intros w [Hw|Hw]%in_app_or Ht; [specialize (M1 w Hw Ht); lia|by apply M2].
  - destruct H1 as (I1 & T1 & M1), H2 as (I2 & T2 & M2). split; [apply in_or_app; by left|]. split; [done|].
    intros w [Hw|Hw]%in_app_or Ht; [by apply M1|specialize (M2 w Hw Ht); lia].
  - destruct H1 as (I1 & T1 & M1). split; [apply in_or_app; by left|]. split; [done|].
    intros w [Hw|Hw]%in_app_or Ht; [by apply M1|specialize (H2 w Hw); lia].
  - destruct H2 as (I2 & T2 & M2). split; [apply in_or_app; by right|]. split; [done|].
    intros w [Hw|Hw]%in_app_or Ht; [specialize (H1 w Hw); lia|by apply M2].
  - intros w [Hw|Hw]%in_app_or; [by apply H1|by apply H2].
Qed.

Lemma latest_of_latest t ws : is_latest t ws (latest_of ws t).
Proof.
  induction ws as [|w ws IH] using rev_ind; [by intros w []|].
  assert (Heq : latest_of (ws ++ [w]) t = later (latest_of ws t) (if timestamp_ns w <=? t then Some w else None)).
  { rewrite latest_of_snoc. by destruct (timestamp_ns w <=? t). }
  rewrite Heq. apply is_latest_app; [done|]. destruct (Z.leb_spec (timestamp_ns w) t); cbn.
  - split; [by left|]. split; [done|]. intros w' [<-|[]] _. lia.
  - intros w' [<-|[]]. done.
Qed.

Lemma is_latest_unique t ws R : strict ws -> is_latest t ws R -> R = last (List.filter (fun w => timestamp_ns w <=? t) ws).
Proof.
  intros Hs HR. set (up := fun w => timestamp_ns w <=? t). destruct (last (List.filter up ws)) as [x|] eqn:Hx.
  - assert (Hin : In x (List.filter up ws)) by (apply list_elem_of_In; by apply last_Some_elem_of).
    apply List.filter_In in Hin as [Hin Hup]. unfold up in Hup. destruct R as [r|]; cbn in HR; [|specialize (HR x Hin); lia].
    destruct HR as (Hr & Hrt & Hmax). specialize (Hmax x Hin ltac:(lia)). f_equal.
    apply last_Some in Hx as [l Hl]. assert (Hrl : In r (List.filter up ws)) by (apply List.filter_In; split; [done|unfold up; lia]).
    assert (Hsf : strict (List.filter up ws)) by (eapply strict_sublist; [apply filter_sublist|done]).
    rewrite Hl in Hrl, Hsf. apply in_app_or in Hrl as [Hrl|[<-|[]]]; [|done].
    apply strict_app in Hsf as (Hsf & _). specialize (Hsf r x ltac:(by apply list_elem_of_In) ltac:(left)). lia.
  - apply last_None in Hx. destruct R as [r|]; [|done]. destruct HR as (Hr & Hrt & _).
    assert (Hrl : In r (List.filter up ws)) by (apply List.filter_In; split; [done|unfold up; lia]). by rewrite Hx in Hrl.
Qed.

Lemma shift_last l p : snd (fold_left shift l p) = match last l with Some w => Some w | None => snd p end.
Proof. induction l as [|w l _] using rev_ind; [done|]. by rewrite fold_left_app, last_snoc. Qed.

(** Every word up to the time is no later than one that is read. *)
Lemma read_reaches blocks hot_tail directory rs p t w :
  stored blocks hot_tail directory rs -> presence_ok rs p -> no_hidden_gap directory rs t t ->
  In w (all_words blocks hot_tail) -> timestamp_ns w <= t ->
  exists r, In r (read_words blocks hot_tail directory p t t) /\ timestamp_ns w <= timestamp_ns r <= t.
Proof.
  intros Hstored Hp Hgap Hw Ht. destruct (Z.eq_dec (timestamp_ns w) t) as [He|Hne].
  - exists w. split; [|lia]. assert (Hin : In w (List.filter (inside t t) (read_words blocks hot_tail directory p t t))).
    { rewrite (filter_read blocks hot_tail directory rs p t t Hstored Hp (Z.le_refl t)).
      - apply List.filter_In. split; [done|]. unfold inside. lia.
      - intros i x Hi Hx Hf. apply (keeps_selected blocks hot_tail directory rs p t t Hstored Hp (Z.le_refl t) i x); [done|done|].
        unfold keeps. rewrite Hf. apply orb_true_r. }
    by apply List.filter_In in Hin as [Hin _].
  - pose proof (predecessors_read blocks hot_tail directory rs p t t Hstored Hp (Z.le_refl t) Hgap) as Hpred.
    apply (f_equal snd) in Hpred. unfold predecessors in Hpred. rewrite !shift_last in Hpred.
    assert (Hwb : In w (List.filter (before t) (all_words blocks hot_tail))).
    { apply List.filter_In. split; [done|]. unfold before. lia. }
    destruct (last (List.filter (before t) (all_words blocks hot_tail))) as [x|] eqn:Hx.
    2: { apply last_None in Hx. by rewrite Hx in Hwb. }
    destruct (last (List.filter (before t) (read_words blocks hot_tail directory p t t))) as [y|] eqn:Hy; [|done].
    injection Hpred as ->. exists x. apply last_Some_elem_of, list_elem_of_In, List.filter_In in Hy as [Hy Hyb].
    split; [done|]. unfold before in Hyb. split; [|lia]. apply last_Some in Hx as [l Hl].
    assert (Hsf : strict (List.filter (before t) (all_words blocks hot_tail))).
    { eapply strict_sublist; [apply filter_sublist|]. apply Hstored. }
    rewrite Hl in Hwb, Hsf. apply in_app_or in Hwb as [Hwb|[<-|[]]]; [|lia].
    apply strict_app in Hsf as (Hsf & _). specialize (Hsf w x ltac:(by apply list_elem_of_In) ltac:(left)). lia.
Qed.

Lemma read_in_all blocks hot_tail directory rs p t w : stored blocks hot_tail directory rs -> presence_ok rs p ->
  In w (read_words blocks hot_tail directory p t t) -> In w (all_words blocks hot_tail).
Proof.
  intros Hstored Hp. unfold read_words, all_words. intros [Hw|Hw]%in_app_or; apply in_or_app; [left|by right].
  apply in_concat in Hw as (l & Hl & Hw). apply in_map_iff in Hl as (i & <- & Hi).
  apply in_concat. exists (blk blocks i). split; [|done].
  apply (selected_within blocks hot_tail directory rs p t t Hstored Hp (Z.le_refl t)) in Hi.
  apply list_elem_of_In, (list_elem_of_lookup_2 _ i). by apply blk_lookup.
Qed.

(** The annotations found among the words that are read, and whether they are all. *)
Lemma read_window blocks hot_tail directory rs p start_ns end_ns max_words :
  stored blocks hot_tail directory rs -> presence_ok rs p -> no_hidden_gap directory rs start_ns end_ns ->
  start_ns <= end_ns ->
  let c := collect (ExactQueryCandidates_new max_words) (read_words blocks hot_tail directory p start_ns end_ns) start_ns end_ns in
  let all := annotations_in start_ns end_ns (all_words blocks hot_tail) in
  let '(found, more) := annotation_window_from_ordered_words (query_context c) start_ns end_ns max_words in
  negb (truncated c || more) = Nat.leb (length all) max_words /\
  (if Nat.leb (length all) max_words then found = all else length found = max_words).
Proof.
  intros Hstored Hp Hgap Hwindow. cbv zeta.
  pose proof (read_strict blocks hot_tail directory rs p start_ns end_ns Hstored Hp Hwindow) as Hrs.
  pose proof (read_times blocks hot_tail directory rs p start_ns end_ns Hstored Hp Hwindow) as Hrt.
  pose proof (kept_read blocks hot_tail directory rs p start_ns end_ns Hstored Hp Hwindow) as Hkept.
  pose proof (collected_read blocks hot_tail directory rs p start_ns end_ns Hstored Hp Hwindow Hgap max_words) as Hcol.
  pose proof (collect_eq start_ns end_ns Hwindow (read_words blocks hot_tail directory p start_ns end_ns) max_words Hrs) as Heq.
  destruct Hstored as [Hall Htimes _ _ _ _]. fold (all_words blocks hot_tail) in Hall, Htimes.
  set (all := annotations_in start_ns end_ns (all_words blocks hot_tail)).
  cbv zeta in Heq. rewrite Hkept in Heq. set (c := collect _ _ _ _) in *.
  destruct (Nat.leb_spec (length (kept start_ns end_ns (all_words blocks hot_tail))) max_words) as [Hle|Hgt].
  - rewrite Heq, Hcol, (window_collected start_ns end_ns Hwindow _ _ Hall). fold all. cbn [collected truncated orb].
    rewrite <- Nat.leb_antisym. split; [done|].
    destruct (Nat.leb_spec (length all) max_words); [by apply firstn_all2|]. rewrite length_take. lia.
  - rewrite <- Hkept in Heq.
    pose proof (collect_predecessors start_ns end_ns times_ok (read_words blocks hot_tail directory p start_ns end_ns)
      (ExactQueryCandidates_new max_words) Hrt ltac:(done) ltac:(done)) as Hpred. cbv zeta in Hpred.
    rewrite <- (collect_live start_ns end_ns (ExactQueryCandidates_new max_words)) in Hpred by done. fold c in Hpred.
    destruct (window_full start_ns end_ns Hwindow _ max_words c Hrs Hrt Heq) as [Hn _]; [by rewrite Hkept|apply Hpred|apply Hpred|].
    assert (Hmore : (max_words < length all)%nat).
    { rewrite (kept_keeps start_ns end_ns _ Hall) in Hgt. pose proof (keeps_count start_ns end_ns Hwindow (all_words blocks hot_tail) None Htimes).
      unfold all, annotations_in. lia. }
    destruct (annotation_window_from_ordered_words (query_context c) start_ns end_ns max_words) as [found more].
    destruct Heq as (Htr & _ & _). rewrite Htr. cbn [orb negb]. apply Nat.leb_gt in Hmore. by rewrite Hmore.
Qed.

(** With reads of whole blocks an exact window query answers with the annotations of all stored
    words that meet the window, with the ends their neighbours give them, although it reads only the
    blocks it selects; past the limit it reports an incomplete window of as many. *)
Lemma exact_window_answers {S : Type}
    (query_entry_words : BlockDirectoryEntry -> Z -> Z -> Z -> S -> result AnnotationQueryError (list Word * bool) * S)
    (Inv : S -> Prop) (blocks : list (list Word)) (hot_tail : list Word) (directory : list BlockDirectoryEntry)
    (rs : list WordSummaryRecord) (generation start_ns end_ns : Z) (max_words : nat) (s : S) :
  BlockReader query_entry_words Inv directory blocks -> stored blocks hot_tail directory rs -> Forall run_ok rs ->
  no_hidden_gap directory rs start_ns end_ns -> start_ns <= end_ns -> (0 < max_words)%nat -> Inv s ->
  let p := push_all WordPresenceIndex_new rs in
  let all := annotations_in start_ns end_ns (concat blocks ++ hot_tail) in
  exists answer s',
    exact_window query_entry_words
      (generation, entries_at directory (exact_block_indices directory p start_ns end_ns), hot_tail)
      start_ns end_ns max_words s = (Ok answer, s') /\ Inv s' /\
    window_generation answer = generation /\
    complete answer = Nat.leb (length all) max_words /\
    (if complete answer then annotations answer = all else length (annotations answer) = max_words).
Proof.
  intros Hreader Hstored Hruns Hgap Hwindow Hmax Hs. cbv zeta. pose proof (push_all_ok rs Hruns) as Hp.
  assert (Hlen : length directory = length blocks) by apply Hstored.
  pose proof (exact_window_candidates Hlen hot_tail rs _ generation start_ns end_ns max_words s Hstored Hp Hwindow Hmax Hs) as Hw.
  pose proof (read_window blocks hot_tail directory rs _ start_ns end_ns max_words Hstored Hp Hgap Hwindow) as Hr.
  cbv zeta in Hw, Hr. destruct (annotation_window_from_ordered_words _ _ _ _) as [found more].
  destruct Hw as (s' & Hw & Hs'). destruct Hr as [H1 H2]. do 2 eexists. split; [exact Hw|]. split; [done|]. split; [done|].
  cbn [complete annotations]. rewrite H1. done.
Qed.

(** ** The latest word *)

Section Latest.
Context {S : Type}
  {query_entry_words : BlockDirectoryEntry -> Z -> Z -> Z -> S -> result AnnotationQueryError (list Word * bool) * S}
  {Inv : S -> Prop} {directory : list BlockDirectoryEntry} {blocks : list (list Word)} {t : Z}
  `{!LatestReader query_entry_words Inv directory blocks t}.
Hypothesis Hlength : length directory = length blocks.

(** The words read from the selected blocks, and the latest of them and of those before. *)
Lemma latest_in_entries_reads idx : forall before latest s, (forall i, In i idx -> lt i (length blocks)) -> Inv s ->
  is_latest t before latest ->
  exists found R s', latest_in_entries query_entry_words t (entries_at directory idx) latest s = (Ok R, s') /\ Inv s' /\
    is_latest t (before ++ found) R /\ reaches t (concat (map (blk blocks) idx)) found.
Proof.
  induction idx as [|i idx IH]; intros before latest s Hidx Hs HL; cbn [entries_at map latest_in_entries concat].
  { exists [], latest, s. rewrite app_nil_r. do 3 (split; [done|]). split; [done|by intros w []]. }
  assert (Hi : lt i (length blocks)) by (apply Hidx; by left).
  destruct (reads_latest i (directory !!! i) (blk blocks i) s) as (found & complete & s1 & -> & Hs1 & Hin & Hreach);
    [apply list_lookup_lookup_total_lt; lia|by apply blk_lookup|done|].
  fold (later latest (latest_of found t)). fold (entries_at directory idx).
  destruct (IH (before ++ found) (later latest (latest_of found t)) s1) as (more & R & s2 & Hq & Hs2 & HR & Hin2 & Hreach2);
    [by intros j Hj; apply Hidx; right|done|by apply is_latest_app, latest_of_latest|].
  exists (found ++ more), R, s2. split; [exact Hq|]. split; [done|]. rewrite app_assoc. split; [done|]. split.
  - intros w. rewrite !in_app_iff. intros [Hw|Hw]; [left; by apply Hin|right; by apply Hin2].
  - intros w Hw Ht. apply in_app_or in Hw as [Hw|Hw].
    + destruct (Hreach w Hw Ht) as (r & Hr & ?). exists r. split; [apply in_or_app; by left|done].
    + destruct (Hreach2 w Hw Ht) as (r & Hr & ?). exists r. split; [apply in_or_app; by right|done].
Qed.

(** The latest word found in the selected blocks and the hot tail is the latest of all words. *)
Lemma latest_word_found hot_tail rs generation s :
  stored blocks hot_tail directory rs -> Forall run_ok rs -> no_hidden_gap directory rs t t -> Inv s ->
  exists s', latest_word_at_or_before query_entry_words
      (generation, entries_at directory (exact_block_indices directory (push_all WordPresenceIndex_new rs) t t), hot_tail) t s =
    (Ok (last (List.filter (fun w => timestamp_ns w <=? t) (concat blocks ++ hot_tail))), s') /\ Inv s'.
Proof.
  intros Hstored Hruns Hgap Hs. pose proof (push_all_ok rs Hruns) as Hp. set (p := push_all _ rs) in *.
  unfold latest_word_at_or_before.
  destruct (latest_in_entries_reads (exact_block_indices directory p t t) hot_tail (latest_of hot_tail t) s)
    as (found & R & s' & -> & Hs' & HR & Hin & Hreach);
    [intros i; by apply (selected_within blocks hot_tail directory rs p t t Hstored Hp (Z.le_refl t))|done|apply latest_of_latest|].
  exists s'. split; [|done]. f_equal. f_equal. apply is_latest_unique; [apply Hstored|]. fold (all_words blocks hot_tail).
  assert (Hall : forall w, In w (hot_tail ++ found) -> In w (all_words blocks hot_tail)).
  { intros w Hw. apply (read_in_all blocks hot_tail directory rs p t); [done|done|].
    unfold read_words, selected. apply in_app_iff in Hw as [Hw|Hw]; apply in_app_iff; [by right|left; by apply Hin]. }
  assert (Hup : forall w, In w (all_words blocks hot_tail) -> timestamp_ns w <= t ->
    exists r, In r (hot_tail ++ found) /\ timestamp_ns w <= timestamp_ns r <= t).
  { intros w Hw Ht. destruct (read_reaches blocks hot_tail directory rs p t w Hstored Hp Hgap Hw Ht) as (x & Hx & Hxt).
    unfold read_words, selected in Hx. apply in_app_or in Hx as [Hx|Hx].
    - destruct (Hreach x Hx ltac:(lia)) as (r & Hr & ?). exists r. split; [apply in_or_app; by right|lia].
    - exists x. split; [apply in_or_app; by left|done]. }
  destruct R as [r|]; cbn in HR |- *.
  - destruct HR as (Hr & Hrt & Hmax). split; [by apply Hall|]. split; [done|]. intros w Hw Ht.
    destruct (Hup w Hw Ht) as (x & Hx & ?). specialize (Hmax x Hx ltac:(lia)). lia.
  - intros w Hw. destruct (Z.le_gt_cases (timestamp_ns w) t) as [Ht|]; [|done]. exfalso.
    destruct (Hup w Hw Ht) as (x & Hx & ?). specialize (HR x Hx). lia.
Qed.
End Latest.

(** ** The nearest boundary *)

Definition boundaries_of (words : list Word) (index : nat) : list Z :=
  [timestamp_ns (words !!! index); word_end_ns words index].

(** The nearest of the boundaries within the distance, the smaller of two as near. *)
Definition nearest_of (bs : list Z) (target max_distance : Z) (nearest : option (Z * Z)) : Prop :=
  match nearest with
  | None => forall b, In b bs -> max_distance < Z.abs (b - target)
  | Some (b, d) => In b bs /\ d = Z.abs (b - target) /\ d <= max_distance /\
      forall b', In b' bs -> d < Z.abs (b' - target) \/ d = Z.abs (b' - target) /\ b <= b'
  end.

Lemma consider_nearest bs b target max_distance nearest : nearest_of bs target max_distance nearest ->
  nearest_of (bs ++ [b]) target max_distance (consider_boundary b target max_distance nearest).
Proof.
  intros H. unfold consider_boundary. cbv zeta. destruct (Z.ltb_spec max_distance (Z.abs (b - target))) as [Hd|Hd].
  - destruct nearest as [[b0 d0]|]; cbn in *.
    + destruct H as (H1 & H2 & H3 & H4). split; [apply in_or_app; by left|]. split; [done|]. split; [done|].
      intros b' [Hb|[<-|[]]]%in_app_or; [by apply H4|lia].
    + intros b' [Hb|[<-|[]]]%in_app_or; [by apply H|done].
  - destruct nearest as [[b0 d0]|]; cbn in H |- *.
    + destruct H as (H1 & H2 & H3 & H4).
      destruct ((Z.abs (b - target) <? d0) || (Z.abs (b - target) =? d0) && (b <? b0)) eqn:Hc.
      * apply orb_true_iff in Hc. rewrite andb_true_iff in Hc. split; [apply in_or_app; right; by left|]. split; [done|]. split; [done|].
        intros b' [Hb|[<-|[]]]%in_app_or; [specialize (H4 b' Hb)|]; lia.
      * apply orb_false_iff in Hc. rewrite andb_false_iff in Hc. split; [apply in_or_app; by left|]. split; [done|]. split; [done|].
        intros b' [Hb|[<-|[]]]%in_app_or; [by apply H4|lia].
    + split; [apply in_or_app; right; by left|]. split; [done|]. split; [done|].
      intros b' [Hb|[<-|[]]]%in_app_or; [specialize (H b' Hb)|]; lia.
Qed.

(** The nearest boundary among words in order is the start or end of a word within the
    distance that no other start or end is nearer than, the smaller of two as near; there is none
    exactly if all are farther away. *)
Theorem nearest_boundary_nearest (words : list Word) (target max_distance : Z) :
  let bs := concat (map (boundaries_of words) (seq 0 (length words))) in
  match nearest_boundary_from_ordered_words words target max_distance with
  | None => forall b, In b bs -> max_distance < Z.abs (b - target)
  | Some b => In b bs /\ Z.abs (b - target) <= max_distance /\
      forall b', In b' bs -> Z.abs (b - target) < Z.abs (b' - target) \/
        Z.abs (b - target) = Z.abs (b' - target) /\ b <= b'
  end.
Proof.
  cbv zeta. unfold nearest_boundary_from_ordered_words. generalize (seq 0 (length words)). intros idx.
  set (step := fun nearest index => _).
  assert (Hgen : nearest_of (concat (map (boundaries_of words) idx)) target max_distance (fold_left step idx None)).
  { induction idx as [|i idx IH] using rev_ind; [by intros b []|].
    rewrite fold_left_app, map_app, concat_app. cbn [map concat fold_left]. rewrite app_nil_r. unfold step at 1, boundaries_of at 2.
    change (?l ++ [?x; ?y]) with (l ++ ([x] ++ [y])). rewrite app_assoc. by apply consider_nearest, consider_nearest. }
  destruct (fold_left step idx None) as [[b d]|]; cbn in Hgen |- *; [|done].
  destruct Hgen as (H1 & -> & H2 & H3). done.
Qed.

(** ** Witnesses *)

Definition witness_blocks : list (list Word) :=
  [[mkWord 1 None 0 0; mkWord 2 None 10 0; mkWord 3 None 20 100]; [mkWord 4 None 130 0; mkWord 5 None 140 0]].

Definition witness_tail : list Word := [mkWord 6 None 200 0].

Definition witness_directory : list BlockDirectoryEntry :=
  [mkEntry 0 0 20 0 0 0 100 3 1 1; mkEntry 1 130 140 100 0 100 90 2 1 0].

Definition witness_block_runs : list WordSummaryRecord :=
  word_presence_summaries 0 (witness_blocks !!! 0%nat) false ++ word_presence_summaries 1 (witness_blocks !!! 1%nat) true.

Definition witness_reader (entry : BlockDirectoryEntry) (_ _ _ : Z) (s : unit)
  : result AnnotationQueryError (list Word * bool) * unit :=
  (Ok (witness_blocks !!! Z.to_nat (entry_sequence entry), true), s).

#[export] Instance witness_reads : BlockReader witness_reader (fun _ => True) witness_directory witness_blocks.
Proof.
  split. intros i entry ws s start_ns end_ns max He Hw _. exists s. split; [|done].
  destruct i as [|[|i]]; [| |done]; injection He as <-; injection Hw as <-; done.
Qed.

Lemma witness_stored : stored witness_blocks witness_tail witness_directory witness_block_runs.
Proof.
  split.
  - repeat constructor.
  - repeat constructor; unfold u64; cbn; lia.
  - split; [done|]. intros i entry ws He Hw. destruct i as [|[|i]]; [| |done]; injection He as <-; injection Hw as <-; done.
  - split; [by apply ascendingb_spec|]. repeat constructor; vm_compute; discriminate.
  - repeat constructor; vm_compute; discriminate.
  - intros i ws w Hi Hw. destruct i as [|[|i]]; [| |done]; injection Hi as <-.
    + exists (mkSummary 0 120 3 0 1). split; [by left|]. destruct Hw as [<-|[<-|[<-|[]]]]; vm_compute; intuition discriminate.
    + exists (mkSummary 130 150 2 1 1). split; [right; by left|]. destruct Hw as [<-|[<-|[]]]; vm_compute; intuition discriminate.
Qed.

Lemma witness_runs_ok : Forall run_ok witness_block_runs.
Proof. repeat constructor; vm_compute; discriminate. Qed.

(** Without the condition on gaps the answer can be missing: a block of the default configuration
    holds words at 0, 10 and 500000 ns; the latest word at 100000 ns is not found, nor would any
    word that is shown there be. *)
Definition gap_block : list Word := [mkWord 1 None 0 0; mkWord 2 None 10 0; mkWord 3 None 500000 0].

Lemma latest_word_in_gap : latest_word_at_or_before
    (fun _ _ _ _ s => (Ok (gap_block, true), s))
    (1, entries_at [mkEntry 0 0 500000 0 0 0 90 3 1 0] (exact_block_indices [mkEntry 0 0 500000 0 0 0 90 3 1 0]
      (push_all WordPresenceIndex_new (word_presence_summaries 0 gap_block true)) 100000 100000), []) 100000 tt = (Ok None, tt) /\
  last (List.filter (fun w => timestamp_ns w <=? 100000) gap_block) = Some (mkWord 2 None 10 0).
Proof. split; vm_compute; reflexivity. Qed.

(** Worse, an annotation can be shown that is not there: of three blocks the query reads the first
    and the last and takes their words for neighbours. *)
Definition gap_blocks : list (list Word) :=
  [[mkWord 1 None 0 0]; [mkWord 2 None 5000000 0; mkWord 3 None 5000010 0; mkWord 4 None 5500000 0]; [mkWord 5 None 20000000 0]].

Lemma annotation_in_gap :
  let directory := [mkEntry 0 0 0 0 0 0 90 1 1 0; mkEntry 1 5000000 5500000 90 0 90 90 3 1 0; mkEntry 2 20000000 20000000 180 0 180 90 1 1 0] in
  let rs := word_presence_summaries 0 (gap_blocks !!! 0%nat) true ++ word_presence_summaries 1 (gap_blocks !!! 1%nat) true
    ++ word_presence_summaries 2 (gap_blocks !!! 2%nat) true in
  exact_window (fun entry _ _ _ s => (Ok (gap_blocks !!! Z.to_nat (entry_sequence entry), true), s))
    (1, entries_at directory (exact_block_indices directory (push_all WordPresenceIndex_new rs) 5200000 5300000), [])
    5200000 5300000 10 tt = (Ok (mkWindow [mkAnnotation 0 20000000 1 None] true 1), tt) /\
  annotations_in 5200000 5300000 (concat gap_blocks) = [].
Proof. split; vm_compute; reflexivity. Qed.

(** ** Words at equal times *)

(** The store takes words at equal times; the queries are exact only without.  The words in front
    of the window are put behind those that reach into it: of three words at the same time the
    second, of no duration, is shown as lasting to the next word. *)
Definition equal_words : list Word := [mkWord 1 None 0 0; mkWord 2 None 0 0; mkWord 3 None 0 25; mkWord 4 None 10 0].

Definition equal_entry : BlockDirectoryEntry := mkEntry 0 0 10 0 0 0 90 4 1 1.

Definition equal_runs : list WordSummaryRecord := word_presence_summaries 0 equal_words false.

Lemma equal_times_window :
  exact_window (fun _ _ _ _ s => (Ok (equal_words, true), s)) (1, entries_at [equal_entry]
    (exact_block_indices [equal_entry] (push_all WordPresenceIndex_new equal_runs) 10 40), []) 10 40 10 tt =
    (Ok (mkWindow [mkAnnotation 0 25 3 None; mkAnnotation 0 10 2 None; mkAnnotation 10 10 4 None] true 1), tt) /\
  annotations_in 10 40 equal_words = [mkAnnotation 0 25 3 None; mkAnnotation 10 10 4 None].
Proof. split; vm_compute; reflexivity. Qed.

(** The latest word up to a time is then an older one than the last: the hot tail comes first. *)
Lemma equal_times_latest :
  latest_word_at_or_before (fun _ _ _ _ s => (Ok ([mkWord 1 None 5 0], true), s)) (1, [mkEntry 0 5 5 0 0 0 90 1 1 0], [mkWord 2 None 5 0]) 5 tt
    = (Ok (Some (mkWord 1 None 5 0)), tt) /\
  last (List.filter (fun w => timestamp_ns w <=? 5) ([mkWord 1 None 5 0] ++ [mkWord 2 None 5 0])) = Some (mkWord 2 None 5 0).
Proof. split; vm_compute; reflexivity. Qed.
