(* ===== verification/AnnotationPresence.v ===== *)
(** Overview buckets: from exact annotations by a difference array, and the words of the hot tail
    merged into the buckets of the index. *)

From S2P Require Import Prelude Events WordPresence WordPresenceIndex DerivedIndex AnnotationQuery.

#[export] Instance WordPresenceBucket_inhabited : Inhabited WordPresenceBucket := populate (mkBucket 0 0 0).

(** ** Buckets of annotations *)

(** The index of the bucket that a time of the window is counted in.
    [crates/signal_derived/src/derived_word_store/store.rs:608-613] annotation_presence_buckets (index) *)
Definition bucket_index (start_ns span bucket_count time : Z) : Z :=
  Z.min ((time - start_ns) * bucket_count / span) (bucket_count - 1).

(** [crates/signal_derived/src/derived_word_store/store.rs:603-615] annotation_presence_buckets (annotations) *)
Definition count_annotation (start_ns end_ns span bucket_count : Z) (state : list Z * list Z) (annotation : Annotation)
  : list Z * list Z :=
  let '(starts, ends) := state in
  let overlap_start := Z.max (annotation_start_ns annotation) start_ns in
  let overlap_end := Z.min (annotation_end_ns annotation) end_ns in
  if overlap_end <? overlap_start then state
  else
    let first := Z.to_nat (bucket_index start_ns span bucket_count overlap_start) in
    let last := Z.to_nat (bucket_index start_ns span bucket_count overlap_end) in
    (alter (fun c => saturating_add64 c 1) first starts, alter (fun c => saturating_add64 c 1) (S last) ends).

(** The bounds of a bucket of the window.
    [crates/signal_derived/src/derived_word_store/store.rs:629-641] annotation_presence_buckets (bucket) *)
Definition annotation_bucket (start_ns end_ns span bucket_count index word_count : Z) : WordPresenceBucket :=
  let bucket_start := saturating_add64 start_ns (span * index / bucket_count) in
  let bucket_end_exclusive := saturating_add64 start_ns (span * (index + 1) / bucket_count) in
  mkBucket bucket_start
    (Z.min (saturating_sub64 (Z.max bucket_end_exclusive (saturating_add64 bucket_start 1)) 1) end_ns) word_count.

(** [crates/signal_derived/src/derived_word_store/store.rs:619-643] annotation_presence_buckets (buckets) *)
Fixpoint running_buckets (start_ns end_ns span bucket_count : Z) (ends : list Z) (starts : list Z) (index : nat)
    (running_count : Z) : list WordPresenceBucket :=
  match starts with
  | [] => []
  | starting :: starts =>
      let running_count := saturating_sub64 running_count (ends !!! index) in
      let running_count := saturating_add64 running_count starting in
      let rest := running_buckets start_ns end_ns span bucket_count ends starts (S index) running_count in
      if running_count =? 0 then rest
      else annotation_bucket start_ns end_ns span bucket_count (Z.of_nat index) running_count :: rest
  end.

(** [crates/signal_derived/src/derived_word_store/store.rs:587-644] annotation_presence_buckets *)
Definition annotation_presence_buckets (annotations : list Annotation) (start_ns end_ns target_buckets : Z)
  : list WordPresenceBucket :=
  if Nat.eqb (length annotations) 0 || (target_buckets =? 0) || (end_ns <? start_ns) then []
  else
    let span := saturating_add64 (saturating_sub64 end_ns start_ns) 1 in
    let bucket_count := Z.max (Z.min target_buckets span) 1 in
    let n := Z.to_nat bucket_count in
    let '(starts, ends) :=
      fold_left (count_annotation start_ns end_ns span bucket_count) annotations (repeat 0 n, repeat 0 (S n)) in
    running_buckets start_ns end_ns span bucket_count ends starts 0 0.

(** ** The hot tail *)

(** [for bucket in &mut buckets[first.min(end)..end]] *)
Definition bump_range (first end_ : nat) (buckets : list WordPresenceBucket) : list WordPresenceBucket :=
  imap (fun i bucket =>
    if Nat.leb (Nat.min first end_) i && Nat.ltb i end_
    then mkBucket (bucket_start_ns bucket) (bucket_end_ns bucket) (saturating_add64 (bucket_words bucket) 1)
    else bucket) buckets.

(** [crates/signal_derived/src/derived_word_store/store.rs:652-660] merge_hot_tail_presence *)
Definition merge_hot_tail_presence (buckets : list WordPresenceBucket) (words : list Word) : list WordPresenceBucket :=
  fold_left (fun buckets word =>
    let word_end := saturating_add64 (timestamp_ns word) (duration_ns word) in
    let first := leading (fun bucket => bucket_end_ns bucket <? timestamp_ns word) buckets in
    let end_ := leading (fun bucket => bucket_start_ns bucket <=? word_end) buckets in
    bump_range first end_ buckets) words buckets.

(** [crates/signal_derived/src/derived_word_store/store.rs:448-470] IndexedAnnotationStore::coarse_presence_window *)
Definition coarse_presence_window (presence : WordPresenceIndex) (hot_tail : list Word)
    (start_ns end_ns target_buckets : Z) : result AnnotationQueryError (list WordPresenceBucket) :=
  if end_ns <? start_ns then Err (InvalidWindow start_ns end_ns)
  else if target_buckets =? 0 then Err ZeroBucketLimit
  else
    let buckets := merge_hot_tail_presence (presence_window_all presence start_ns end_ns target_buckets) hot_tail in
    Ok (List.filter (fun bucket => 0 <? bucket_words bucket) buckets).

(** ** Counting *)

Section Buckets.
Context (start_ns end_ns n : Z).
Hypothesis (Hwindow : start_ns <= end_ns) (Hn : 0 < n).
Let span := end_ns - start_ns + 1.

(** The buckets that an annotation is counted in. *)
Definition first_bucket (a : Annotation) : nat :=
  Z.to_nat (bucket_index start_ns span n (Z.max (annotation_start_ns a) start_ns)).
Definition last_bucket (a : Annotation) : nat :=
  Z.to_nat (bucket_index start_ns span n (Z.min (annotation_end_ns a) end_ns)).

Definition shown (a : Annotation) : bool :=
  Z.max (annotation_start_ns a) start_ns <=? Z.min (annotation_end_ns a) end_ns.

Definition count_if (f : Annotation -> bool) (l : list Annotation) : Z := zlen (List.filter (fun a => shown a && f a) l).

Lemma count_if_snoc f l a : count_if f (l ++ [a]) = count_if f l + b2z (shown a && f a).
Proof. unfold count_if. rewrite List.filter_app, zlen_app. cbn. by destruct (shown a && f a). Qed.

Lemma count_if_range f l : 0 <= count_if f l <= zlen l.
Proof. unfold count_if, zlen. pose proof (List.filter_length_le (fun a => shown a && f a) l). lia. Qed.

Lemma index_range time : start_ns <= time <= end_ns -> 0 <= bucket_index start_ns span n time < n.
Proof.
  intros Ht. unfold bucket_index. assert (0 <= (time - start_ns) * n / span) by (apply Z.div_pos; [nia|unfold span; lia]). lia.
Qed.

Lemma index_mono t1 t2 : start_ns <= t1 <= t2 -> bucket_index start_ns span n t1 <= bucket_index start_ns span n t2.
Proof.
  intros Ht. unfold bucket_index. assert ((t1 - start_ns) * n / span <= (t2 - start_ns) * n / span); [|lia].
  apply Z.div_le_mono; [unfold span; lia|]. nia.
Qed.

Lemma bucket_order a : shown a = true -> (first_bucket a <= last_bucket a)%nat /\ (last_bucket a < Z.to_nat n)%nat.
Proof.
  unfold shown, first_bucket, last_bucket. intros H. apply Z.leb_le in H.
  pose proof (index_mono (Z.max (annotation_start_ns a) start_ns) (Z.min (annotation_end_ns a) end_ns) ltac:(lia)).
  pose proof (index_range (Z.max (annotation_start_ns a) start_ns) ltac:(lia)).
  pose proof (index_range (Z.min (annotation_end_ns a) end_ns) ltac:(lia)). lia.
Qed.

Lemma alter_total (l : list Z) i j f : (j < length l)%nat ->
  alter f i l !!! j = if Nat.eqb i j then f (l !!! j) else l !!! j.
Proof.
  intros Hj. destruct (lookup_lt_is_Some_2 l j Hj) as [x Hx]. rewrite !list_lookup_total_alt.
  destruct (Nat.eqb_spec i j) as [->|Hne].
  - by rewrite list_lookup_alter_eq, Hx.
  - by rewrite list_lookup_alter_ne.
Qed.

(** The arrays hold how many annotations start in a bucket and end before it. *)
Lemma counted l : zlen l <= u64_max ->
  let '(starts, ends) := fold_left (count_annotation start_ns end_ns span n) l (repeat 0 (Z.to_nat n), repeat 0 (S (Z.to_nat n))) in
  length starts = Z.to_nat n /\ length ends = S (Z.to_nat n) /\
  (forall i, (i < Z.to_nat n)%nat -> starts !!! i = count_if (fun a => Nat.eqb (first_bucket a) i) l) /\
  (forall i, (i <= Z.to_nat n)%nat -> ends !!! i = count_if (fun a => Nat.eqb (S (last_bucket a)) i) l).
Proof.
  assert (Hrep : forall k i, (i < k)%nat -> repeat 0 k !!! i = 0).
  { induction k as [|k IH]; intros [|i] Hi; [lia|lia|done|]. apply (IH i). lia. }
  induction l as [|a l IH] using rev_ind; intros Hl.
  - cbn. rewrite !List.repeat_length. split; [done|]. split; [done|]. split; intros i Hi; [by apply Hrep|by apply (Hrep (S _)); lia].
  - rewrite zlen_app in Hl. change (zlen [a]) with 1 in Hl. specialize (IH ltac:(lia)).
    rewrite fold_left_app. cbn [fold_left]. destruct (fold_left _ l _) as [starts ends].
    destruct IH as (H1 & H2 & H3 & H4). unfold count_annotation.
    destruct (Z.ltb_spec (Z.min (annotation_end_ns a) end_ns) (Z.max (annotation_start_ns a) start_ns)) as [Hd|Hd].
    + assert (Hns : shown a = false) by (unfold shown; lia). split; [done|]. split; [done|].
      split; intros i Hi; rewrite count_if_snoc, Hns; cbn [andb b2z]; rewrite Z.add_0_r; auto.
    + assert (Hsh : shown a = true) by (unfold shown; lia). fold (first_bucket a) (last_bucket a).
      rewrite !length_alter. split; [done|]. split; [done|].
      split; intros i Hi; rewrite count_if_snoc, Hsh, alter_total by lia; cbn [andb].
      * rewrite H3 by lia. pose proof (count_if_range (fun a => Nat.eqb (first_bucket a) i) l).
        destruct (Nat.eqb (first_bucket a) i); cbn [b2z]; [|lia]. by rewrite saturating_add64_small by lia.
      * rewrite H4 by lia. pose proof (count_if_range (fun a => Nat.eqb (S (last_bucket a)) i) l).
        destruct (Nat.eqb (S (last_bucket a)) i); cbn [b2z]; [|lia]. by rewrite saturating_add64_small by lia.
Qed.

(** Those counted in a bucket, from those in the bucket before it. *)
Definition counted_in (l : list Annotation) (i : nat) : Z :=
  count_if (fun a => Nat.leb (first_bucket a) i && Nat.leb i (last_bucket a)) l.

Lemma counted_step l i :
  counted_in l (S i) = counted_in l i - count_if (fun a => Nat.eqb (S (last_bucket a)) (S i)) l
    + count_if (fun a => Nat.eqb (first_bucket a) (S i)) l /\
  count_if (fun a => Nat.eqb (S (last_bucket a)) (S i)) l <= counted_in l i.
Proof.
  unfold counted_in. induction l as [|a l [IH1 IH2]] using rev_ind; [done|]. rewrite !count_if_snoc.
  destruct (shown a) eqn:Hs; cbn [andb b2z]; [|lia]. destruct (bucket_order a Hs).
  destruct (Nat.leb_spec (first_bucket a) (S i)), (Nat.leb_spec (S i) (last_bucket a)), (Nat.leb_spec (first_bucket a) i),
    (Nat.leb_spec i (last_bucket a)), (Nat.eqb_spec (S (last_bucket a)) (S i)), (Nat.eqb_spec (first_bucket a) (S i));
    cbn [andb b2z]; lia.
Qed.

Lemma counted_first l : counted_in l 0 = count_if (fun a => Nat.eqb (first_bucket a) 0) l.
Proof.
  unfold counted_in, count_if. f_equal. apply List.filter_ext. intros a. destruct (shown a); [|done]. cbn [andb].
  destruct (first_bucket a); [|done]. by destruct (last_bucket a).
Qed.

Lemma count_end_zero l : count_if (fun a => Nat.eqb (S (last_bucket a)) 0) l = 0.
Proof.
  induction l as [|a l IH] using rev_ind; [done|]. rewrite count_if_snoc, IH. cbn. by rewrite andb_false_r.
Qed.

Lemma running_eq l ends starts : zlen l <= u64_max -> forall i,
  length starts = (Z.to_nat n - i)%nat -> (i <= Z.to_nat n)%nat ->
  (forall k, (k < length starts)%nat -> starts !!! k = count_if (fun a => Nat.eqb (first_bucket a) (i + k)) l) ->
  (forall k, (k <= Z.to_nat n)%nat -> ends !!! k = count_if (fun a => Nat.eqb (S (last_bucket a)) k) l) ->
  running_buckets start_ns end_ns span n ends starts i (match i with O => 0 | S i => counted_in l i end) =
  map (fun j => annotation_bucket start_ns end_ns span n (Z.of_nat j) (counted_in l j))
    (List.filter (fun j => negb (counted_in l j =? 0)) (seq i (length starts))).
Proof.
  intros Hl. induction starts as [|c starts IH]; intros i Hlen Hi Hstarts Hends; [done|]. cbn [running_buckets length seq List.filter].
  assert (Hcount : saturating_add64 (saturating_sub64 (match i with O => 0 | S i => counted_in l i end) (ends !!! i)) c = counted_in l i).
  { pose proof (Hstarts 0%nat ltac:(cbn; lia)) as Hc. cbn in Hc. rewrite Nat.add_0_r in Hc. rewrite Hc, Hends by lia.
    pose proof (count_if_range (fun a => Nat.eqb (first_bucket a) i) l).
    destruct i as [|i].
    - rewrite count_end_zero, saturating_sub64_small, saturating_add64_small by lia. rewrite counted_first. lia.
    - destruct (counted_step l i) as [Hs Hle]. rewrite saturating_sub64_small by lia.
      pose proof (count_if_range (fun a => Nat.leb (first_bucket a) (S i) && Nat.leb (S i) (last_bucket a)) l) as Hr. fold (counted_in l (S i)) in Hr.
      rewrite saturating_add64_small by lia. lia. }
  rewrite Hcount. specialize (IH (S i)). cbn in Hlen. rewrite IH; [|lia|lia| |done].
  - destruct (Z.eqb_spec (counted_in l i) 0); done.
  - intros k Hk. pose proof (Hstarts (S k) ltac:(cbn; lia)) as Hk'. change ((c :: starts) !!! S k) with (starts !!! k) in Hk'.
    rewrite Hk'. by replace (i + S k)%nat with (S i + k)%nat by lia.
Qed.

Hypothesis Hfit : n <= span.

(** The instants from one to another. *)
Definition instants (from to : Z) : list Z :=
  map (fun k => from + Z.of_nat k) (seq 0 (Z.to_nat (to - from + 1))).

Lemma instants_In from to t : In t (instants from to) <-> from <= t <= to.
Proof.
  unfold instants. rewrite in_map_iff. setoid_rewrite in_seq. split.
  - intros (k & <- & Hk). lia.
  - intros Ht. exists (Z.to_nat (t - from)). lia.
Qed.

(** The instant lies in the [i]-th of [n] equal parts of the window. *)
Definition in_part (i t : Z) : bool :=
  (span * i <=? (t - start_ns) * n) && ((t - start_ns) * n <? span * (i + 1)).

(** The annotation has an instant of the window in the part. *)
Definition touches (i : nat) (a : Annotation) : bool :=
  existsb (in_part (Z.of_nat i))
    (instants (Z.max (annotation_start_ns a) start_ns) (Z.min (annotation_end_ns a) end_ns)).

Definition touching (l : list Annotation) (i : nat) : Z := zlen (List.filter (touches i) l).

Lemma index_part t i : start_ns <= t <= end_ns -> in_part i t = (bucket_index start_ns span n t =? i).
Proof.
  intros Ht. unfold in_part, bucket_index. set (x := (t - start_ns) * n). assert (Hspan : 0 < span) by (unfold span; lia).
  assert (Hx : 0 <= x < span * n) by (unfold x, span; nia).
  assert (Hd : 0 <= x / span < n) by (split; [apply Z.div_pos|apply Z.div_lt_upper_bound]; lia).
  rewrite Z.min_l by lia. pose proof (Z.div_mod x span ltac:(lia)) as Hm. pose proof (Z.mod_pos_bound x span Hspan).
  destruct (Z.eqb_spec (x / span) i) as [<-|Hne]; [nia|].
  destruct (Z.leb_spec (span * i) x), (Z.ltb_spec x (span * (i + 1))); try done. destruct Hne. nia.
Qed.

(** The parts an annotation touches are those from its first to its last instant's: every part
    holds an instant. *)
Lemma touches_between i a : (i < Z.to_nat n)%nat ->
  touches i a = shown a && (Nat.leb (first_bucket a) i && Nat.leb i (last_bucket a)).
Proof.
  intros Hi. unfold touches, shown, first_bucket, last_bucket.
  set (lo := Z.max _ start_ns). set (hi := Z.min _ end_ns). assert (Hspan : 0 < span) by (unfold span; lia).
  assert (Hlow : start_ns <= lo) by (unfold lo; lia). assert (Hhigh : hi <= end_ns) by (unfold hi; lia).
  clearbody lo hi. apply eq_iff_eq_true. rewrite existsb_exists. setoid_rewrite instants_In. split.
  - intros (t & Ht & Hp). rewrite index_part in Hp by lia. apply Z.eqb_eq in Hp.
    pose proof (index_mono lo t ltac:(lia)). pose proof (index_mono t hi ltac:(lia)).
    pose proof (index_range lo ltac:(lia)). pose proof (index_range hi ltac:(lia)).
    rewrite !andb_true_iff, Z.leb_le, !Nat.leb_le. lia.
  - rewrite !andb_true_iff, Z.leb_le, !Nat.leb_le. intros Hb. assert (Hlo : lo <= hi) by lia.
    pose proof (index_range lo ltac:(lia)) as H1. pose proof (index_range hi ltac:(lia)) as H2.
    assert (H3 : bucket_index start_ns span n lo <= Z.of_nat i <= bucket_index start_ns span n hi) by lia.
    set (first := start_ns + div_ceil (span * Z.of_nat i) n).
    assert (Hf : span * Z.of_nat i <= (first - start_ns) * n < span * Z.of_nat i + n).
    { unfold first, div_ceil. replace (start_ns + _ - start_ns) with ((span * Z.of_nat i + n - 1) / n) by lia.
      pose proof (Z.div_mod (span * Z.of_nat i + n - 1) n ltac:(lia)).
      pose proof (Z.mod_pos_bound (span * Z.of_nat i + n - 1) n Hn). nia. }
    assert (Hhi : span * Z.of_nat i <= (hi - start_ns) * n).
    { assert (Hp : in_part (bucket_index start_ns span n hi) hi = true) by (rewrite index_part by lia; apply Z.eqb_refl).
      unfold in_part in Hp. nia. }
    assert (Hlo' : (lo - start_ns) * n < span * (Z.of_nat i + 1)).
    { assert (Hp : in_part (bucket_index start_ns span n lo) lo = true) by (rewrite index_part by lia; apply Z.eqb_refl).
      unfold in_part in Hp. nia. }
    exists (Z.max lo first). split; [split; [lia|]|].
    + apply Z.max_lub; [lia|]. nia.
    + unfold in_part. destruct (Z.max_spec lo first) as [[? ->]|[? ->]]; nia.
Qed.

Lemma touching_counted l i : (i < Z.to_nat n)%nat -> counted_in l i = touching l i.
Proof.
  intros Hi. unfold counted_in, count_if, touching. f_equal. apply List.filter_ext. intros a. by rewrite touches_between.
Qed.
End Buckets.

(** The bounds shown lie in the window, and no saturation shows. *)
Lemma bucket_bounds_shown start_ns end_ns n i count :
  0 <= start_ns <= end_ns -> end_ns < u64_max -> let span := end_ns - start_ns + 1 in
  0 < n <= span -> 0 <= i < n ->
  annotation_bucket start_ns end_ns span n i count =
    mkBucket (start_ns + span * i / n) (start_ns + span * (i + 1) / n - 1) count.
Proof.
  intros Hw Hmax span Hn Hi. assert (Hstep : span * i / n + 1 <= span * (i + 1) / n).
  { rewrite <- Z.div_add by lia. apply Z.div_le_mono; lia. }
  assert (H0 : 0 <= span * i / n) by (apply Z.div_pos; [apply Z.mul_nonneg_nonneg|]; lia).
  assert (H1 : span * (i + 1) / n <= span) by (apply Z.div_le_upper_bound; nia).
  unfold annotation_bucket. unfold span in *. rewrite !saturating_add64_small by lia.
  rewrite Z.max_l, saturating_sub64_small, Z.min_l by lia. done.
Qed.

(** C27.  The overview of a window from its annotations, counted with one addition where each begins
    and one where it has ended, has a bucket for each of the equal parts of the window that an
    annotation has an instant in, with the number of annotations that do.  (The bounds a bucket
    shows are those of its part rounded down, so an annotation that begins with a shown bound can
    belong to the bucket in front: lemma [bucket_beside_its_bounds].) *)
Theorem annotation_buckets_count (l : list Annotation) (start_ns end_ns target_buckets : Z) :
  0 <= start_ns <= end_ns -> end_ns < u64_max -> 0 < target_buckets -> zlen l <= u64_max ->
  let span := end_ns - start_ns + 1 in
  let n := Z.min target_buckets span in
  let bucket i := mkBucket (start_ns + span * i / n) (start_ns + span * (i + 1) / n - 1) in
  annotation_presence_buckets l start_ns end_ns target_buckets =
  map (fun i => bucket (Z.of_nat i) (touching start_ns end_ns n l i))
    (List.filter (fun i => negb (touching start_ns end_ns n l i =? 0)) (seq 0 (Z.to_nat n))).
Proof.
  intros Hw Hmax Ht Hl. cbv zeta. unfold annotation_presence_buckets. replace (target_buckets =? 0) with false by lia.
  replace (end_ns <? start_ns) with false by lia. rewrite !orb_false_r.
  rewrite (saturating_sub64_small end_ns), saturating_add64_small by lia. rewrite (Z.max_l _ 1) by lia.
  set (span := end_ns - start_ns + 1). set (n := Z.min target_buckets span).
  assert (Hn : 0 < n) by (unfold n, span; lia). assert (Hfit : n <= span) by (unfold n; lia).
  assert (Hse : start_ns <= end_ns) by lia.
  destruct (Nat.eqb_spec (length l) 0) as [H0|_].
  { apply length_zero_iff_nil in H0 as ->. symmetry. generalize (seq 0 (Z.to_nat n)). intros s. by induction s. }
  pose proof (counted start_ns end_ns n Hn l Hl) as Hc. cbv zeta. fold span in Hc.
  destruct (fold_left _ l _) as [starts ends]. destruct Hc as (H1 & H2 & H3 & H4).
  transitivity (map (fun j => annotation_bucket start_ns end_ns span n (Z.of_nat j) (counted_in start_ns end_ns n l j))
    (List.filter (fun j => negb (counted_in start_ns end_ns n l j =? 0)) (seq 0 (length starts)))).
  { apply (running_eq start_ns end_ns n Hse Hn l ends starts Hl 0%nat); [lia|lia| |done].
    intros k Hk. apply H3. lia. }
  rewrite H1. rewrite (filter_ext_in _ (fun i => negb (touching start_ns end_ns n l i =? 0))).
  2: { intros i Hi%in_seq. by rewrite touching_counted by lia. }
  apply map_ext_in. intros i [Hi%in_seq _]%filter_In. rewrite touching_counted by lia.
  apply bucket_bounds_shown; unfold span in *; lia.
Qed.

Lemma annotation_buckets_count_witness :
  annotation_presence_buckets [mkAnnotation 5 12 1 None; mkAnnotation 11 11 2 None; mkAnnotation 30 90 3 None] 0 39 4 =
  [mkBucket 0 9 1; mkBucket 10 19 2; mkBucket 30 39 1].
Proof. rewrite annotation_buckets_count by (unfold u64_max, zlen; cbn; lia). vm_compute. reflexivity. Defined.

(** An annotation at 3 alone is counted in a bucket from 0 to 2. *)
Lemma bucket_beside_its_bounds :
  annotation_presence_buckets [mkAnnotation 3 3 1 None] 0 9 3 = [mkBucket 0 2 1].
Proof. vm_compute. reflexivity. Qed.
