(* ===== verification/DecodedBlockCache.v ===== *)
(** [crates/signal_derived/src/derived_word_store/cache.rs]: the cache of decoded blocks within a
    budget of bytes, and its meaning as a list of blocks, the most recently used first. *)

From stdpp Require Import gmap.
From stdpp Require sorting.
From S2P Require Import Prelude.

#[local] Open Scope Z_scope.

(** The store and the block's sequence number.
    [crates/signal_derived/src/derived_word_store/cache.rs:112-116] CacheKey *)
Definition CacheKey : Type := Z * Z.

(** The blocks are shared and immutable.  How many bytes one takes depends on the layout of its
    vectors in memory. *)
Section Cache.
Context {Block : Type} (decoded_block_bytes : Block -> Z).

(** [crates/signal_derived/src/derived_word_store/cache.rs:118-122] CacheEntry *)
Record CacheEntry := mkCacheEntry {
  cache_block_of : Block;
  entry_bytes : Z;
  last_access : Z
}.

(** [crates/signal_derived/src/derived_word_store/cache.rs:124-131] DecodedBlockCache *)
Record DecodedBlockCache := mkCache {
  entries : gmap CacheKey CacheEntry;
  memory_bytes : Z;
  budget_bytes : Z;
  access_clock : Z;
  hits : Z;
  misses : Z
}.

(** [crates/signal_derived/src/derived_word_store/cache.rs:134-143] DecodedBlockCache::new *)
Definition cache_new (budget : Z) : DecodedBlockCache := mkCache ∅ 0 budget 0 0 0.

(** [crates/signal_derived/src/derived_word_store/cache.rs:145-154] DecodedBlockCache::get *)
Definition cache_get (key : CacheKey) (c : DecodedBlockCache) : option Block * DecodedBlockCache :=
  let clock := add64 (access_clock c) 1 in
  match entries c !! key with
  | None => (None, mkCache (entries c) (memory_bytes c) (budget_bytes c) clock (hits c) (add64 (misses c) 1))
  | Some entry =>
      (Some (cache_block_of entry),
       mkCache (<[key := mkCacheEntry (cache_block_of entry) (entry_bytes entry) clock]> (entries c))
         (memory_bytes c) (budget_bytes c) clock (add64 (hits c) 1) (misses c))
  end.

(** [entries.iter().min_by_key(|(_, entry)| entry.last_access)]: the first of the least. *)
Definition oldest (l : list (CacheKey * CacheEntry)) : option (CacheKey * CacheEntry) :=
  fold_left (fun least x =>
    match least with
    | Some y => if last_access (snd x) <? last_access (snd y) then Some x else least
    | None => Some x
    end) l None.

(** Every turn removes an entry, so one turn more than there are entries is enough.
    [crates/signal_derived/src/derived_word_store/cache.rs:177-190] DecodedBlockCache::evict_to_budget *)
Fixpoint evict_loop (fuel : nat) (c : DecodedBlockCache) : option DecodedBlockCache :=
  if budget_bytes c <? memory_bytes c then
    match fuel with
    | O => None
    | S fuel =>
        match oldest (map_to_list (entries c)) with
        | None => Some c
        | Some (oldest_key, removed) =>
            evict_loop fuel
              (mkCache (delete oldest_key (entries c)) (sub64 (memory_bytes c) (entry_bytes removed))
                 (budget_bytes c) (access_clock c) (hits c) (misses c))
        end
    end
  else Some c.

(** [crates/signal_derived/src/derived_word_store/cache.rs:177-190] DecodedBlockCache::evict_to_budget *)
Definition evict_to_budget (c : DecodedBlockCache) : option DecodedBlockCache := evict_loop (S (size (entries c))) c.

(** [crates/signal_derived/src/derived_word_store/cache.rs:156-175] DecodedBlockCache::insert *)
Definition cache_insert (key : CacheKey) (block : Block) (c : DecodedBlockCache) : option DecodedBlockCache :=
  let bytes := decoded_block_bytes block in
  if budget_bytes c <? bytes then Some c
  else
    let clock := add64 (access_clock c) 1 in
    let '(rest, memory) := match entries c !! key with
      | Some previous => (delete key (entries c), sub64 (memory_bytes c) (entry_bytes previous))
      | None => (entries c, memory_bytes c)
      end in
    evict_to_budget
      (mkCache (<[key := mkCacheEntry block bytes clock]> rest) (add64 memory bytes) (budget_bytes c) clock
         (hits c) (misses c)).

(** [crates/signal_derived/src/derived_word_store/cache.rs:62-66] DecodedBlockCacheHandle::clear *)
Definition cache_clear (c : DecodedBlockCache) : DecodedBlockCache :=
  mkCache ∅ 0 (budget_bytes c) (access_clock c) (hits c) (misses c).

(** [crates/signal_derived/src/derived_word_store/cache.rs:55-59] DecodedBlockCacheHandle::reset_stats *)
Definition cache_reset_stats (c : DecodedBlockCache) : DecodedBlockCache :=
  mkCache (entries c) (memory_bytes c) (budget_bytes c) (access_clock c) 0 0.

(** [crates/signal_derived/src/derived_word_store/cache.rs:11-23] DecodedBlockCacheStats *)
Record DecodedBlockCacheStats := mkStats {
  stat_hits : Z;
  stat_misses : Z;
  stat_entries : nat;
  stat_memory_bytes : Z;
  stat_budget_bytes : Z
}.

(** [crates/signal_derived/src/derived_word_store/cache.rs:192-200] DecodedBlockCache::stats *)
Definition cache_stats (c : DecodedBlockCache) : DecodedBlockCacheStats :=
  mkStats (hits c) (misses c) (size (entries c)) (memory_bytes c) (budget_bytes c).

(** The locked operations of a shared cache; each leaves the lock with a result.
    [crates/signal_derived/src/derived_word_store/cache.rs:54-85] DecodedBlockCacheHandle *)
Inductive CacheOp :=
| Lookup (key : CacheKey)
| Insert (key : CacheKey) (block : Block)
| Clear
| ResetStats.

Definition cache_step (op : CacheOp) (c : DecodedBlockCache) : option (option Block * DecodedBlockCache) :=
  match op with
  | Lookup key => Some (cache_get key c)
  | Insert key block => (fun c => (None, c)) <$> cache_insert key block c
  | Clear => Some (None, cache_clear c)
  | ResetStats => Some (None, cache_reset_stats c)
  end.

Fixpoint cache_run (ops : list CacheOp) (c : DecodedBlockCache) : option (list (option Block) * DecodedBlockCache) :=
  match ops with
  | [] => Some ([], c)
  | op :: ops =>
      match cache_step op c with
      | None => None
      | Some (found, c) =>
          match cache_run ops c with
          | None => None
          | Some (answers, c) => Some (found :: answers, c)
          end
      end
  end.

(** ** The specification: blocks in the order of their use *)

Definition without (key : CacheKey) (l : list (CacheKey * Block)) : list (CacheKey * Block) :=
  List.filter (fun x => negb (bool_decide (fst x = key))) l.

Definition recent_get (key : CacheKey) (l : list (CacheKey * Block)) : option Block * list (CacheKey * Block) :=
  match List.find (fun x => bool_decide (fst x = key)) l with
  | Some x => (Some (snd x), (key, snd x) :: without key l)
  | None => (None, l)
  end.

(** The most recent blocks that fit. *)
Fixpoint fitting (budget : Z) (l : list (CacheKey * Block)) : list (CacheKey * Block) :=
  match l with
  | [] => []
  | x :: l =>
      if decoded_block_bytes (snd x) <=? budget
      then x :: fitting (budget - decoded_block_bytes (snd x)) l else []
  end.

Definition recent_insert (budget : Z) (key : CacheKey) (block : Block) (l : list (CacheKey * Block))
  : list (CacheKey * Block) :=
  if budget <? decoded_block_bytes block then l else fitting budget ((key, block) :: without key l).

Definition recent_step (budget : Z) (op : CacheOp) (l : list (CacheKey * Block))
  : option Block * list (CacheKey * Block) :=
  match op with
  | Lookup key => recent_get key l
  | Insert key block => (None, recent_insert budget key block l)
  | Clear => (None, [])
  | ResetStats => (None, l)
  end.

Fixpoint recent_run (budget : Z) (ops : list CacheOp) (l : list (CacheKey * Block))
  : list (option Block) * list (CacheKey * Block) :=
  match ops with
  | [] => ([], l)
  | op :: ops =>
      let '(found, l) := recent_step budget op l in
      let '(answers, l) := recent_run budget ops l in
      (found :: answers, l)
  end.
End Cache.
Arguments CacheOp Block : clear implicits.
Arguments CacheEntry Block : clear implicits.
Arguments DecodedBlockCache Block : clear implicits.

(** ** What the cache holds, whatever its counters are *)

Section Held.
Context {Block : Type} (decoded_block_bytes : Block -> Z).
Implicit Types (c : DecodedBlockCache Block) (key : CacheKey).

Definition held c key : option Block := cache_block_of <$> entries c !! key.

Lemma get_held key c : let '(found, c') := cache_get key c in
  found = held c key /\ forall k, held c' k = held c k.
Proof.
  unfold cache_get, held. destruct (entries c !! key) as [e|] eqn:Hk; [|done]. cbn. split; [done|]. intros k.
  destruct (decide (k = key)) as [->|]; [by rewrite lookup_insert_eq, Hk|by rewrite lookup_insert_ne].
Qed.

Lemma oldest_in (l : list (CacheKey * CacheEntry Block)) x : oldest l = Some x -> x ∈ l.
Proof.
  revert x. induction l as [|y l IH] using rev_ind; intros x; [done|]. unfold oldest in *. rewrite fold_left_app. cbn.
  rewrite elem_of_app, list_elem_of_singleton. destruct (fold_left _ l None) as [z|]; [|intros [= ->]; auto].
  destruct (_ <? _); intros [= ->]; auto.
Qed.

(** Eviction ends, and removes only. *)
Lemma evict_returns fuel : forall c, (size (entries c) < fuel)%nat ->
  exists c', evict_loop fuel c = Some c' /\ entries c' ⊆ entries c.
Proof.
  induction fuel as [|fuel IH]; intros c Hf; [lia|]. cbn [evict_loop].
  destruct (budget_bytes c <? memory_bytes c); [|by exists c].
  destruct (oldest (map_to_list (entries c))) as [[k e]|] eqn:Ho; [|by exists c].
  apply oldest_in, elem_of_map_to_list in Ho.
  destruct (IH (mkCache (delete k (entries c)) (sub64 (memory_bytes c) (entry_bytes e)) (budget_bytes c) (access_clock c)
    (hits c) (misses c))) as (c' & H1 & H2).
  - cbn. pose proof (map_size_delete_Some k (entries c) ltac:(by exists e)).
    assert (size (entries c) <> 0%nat) by (apply map_size_ne_0_lookup_2 with k; by exists e). lia.
  - exists c'. split; [done|]. cbn in H2. etrans; [exact H2|apply delete_subseteq].
Qed.

Lemma insert_held key block c : exists c', cache_insert decoded_block_bytes key block c = Some c' /\
  forall k b, held c' k = Some b -> k = key /\ b = block \/ held c k = Some b.
Proof.
  unfold cache_insert. destruct (_ <? _); [exists c; by auto|]. destruct (match entries c !! key with Some _ => _ | None => _ end) as [rest memory] eqn:Hr.
  assert (Hrest : rest ⊆ entries c) by (destruct (entries c !! key); injection Hr as <- _; [apply delete_subseteq|done]).
  unfold evict_to_budget. match goal with |- context [evict_loop _ ?c1] => destruct (evict_returns (S (size (entries c1))) c1) as (c' & H1 & H2); [lia|] end.
  exists c'. split; [exact H1|]. cbn in H2. intros k b Hb. unfold held in *. destruct (entries c' !! k) as [e|] eqn:He; [|done].
  injection Hb as <-. pose proof (lookup_weaken _ _ _ _ He H2) as Hin. destruct (decide (k = key)) as [->|Hne].
  - rewrite lookup_insert_eq in Hin. injection Hin as <-. by left.
  - rewrite lookup_insert_ne in Hin by done. right. by rewrite (lookup_weaken _ _ _ _ Hin Hrest).
Qed.
End Held.

(** ** The cache as a recency list *)

Section Cache.
Context {Block : Type} (decoded_block_bytes : Block -> Z).
Hypothesis bytes_nonneg : forall b, 0 <= decoded_block_bytes b.

Abbreviation entry := (CacheKey * CacheEntry Block)%type.
Implicit Types (la : list entry) (l : list (CacheKey * Block)).

Definition plain la : list (CacheKey * Block) := map (fun x => (fst x, cache_block_of (snd x))) la.
Definition drop_key (key : CacheKey) la : list entry := List.filter (fun x => negb (bool_decide (fst x = key))) la.
Definition bytes_of la : Z := fold_right Z.add 0 (map (fun x => entry_bytes (snd x)) la).
Definition block_bytes_of l : Z := fold_right Z.add 0 (map (fun x => decoded_block_bytes (snd x)) l).

(** The entries in the order of their last access, the latest first. *)
Record recency (c : DecodedBlockCache Block) la : Prop := mkRecency {
  recency_entries : entries c = list_to_map la;
  recency_nodup : NoDup la.*1;
  recency_sorted : StronglySorted (fun a b => last_access (snd b) < last_access (snd a)) la;
  recency_clock : 0 <= access_clock c /\ Forall (fun x => last_access (snd x) <= access_clock c) la;
  recency_bytes : Forall (fun x => entry_bytes (snd x) = decoded_block_bytes (cache_block_of (snd x))) la;
  recency_memory : memory_bytes c = bytes_of la
}.

(** ** Lists *)

Lemma plain_drop key la : plain (drop_key key la) = without key (plain la).
Proof.
  unfold plain, drop_key, without. induction la as [|x la IH]; cbn; [done|].
  destruct (bool_decide (fst x = key)); cbn; [done|by rewrite IH].
Qed.

Lemma drop_key_in key la x : x ∈ drop_key key la <-> x ∈ la /\ fst x <> key.
Proof.
  unfold drop_key. rewrite !list_elem_of_In, List.filter_In, negb_true_iff, bool_decide_eq_false. done.
Qed.

Lemma drop_key_map key la : (list_to_map (drop_key key la) : gmap CacheKey (CacheEntry Block)) = delete key (list_to_map la).
Proof.
  unfold drop_key. induction la as [|[k e] la IH]; cbn; [by rewrite delete_empty|].
  destruct (bool_decide_reflect (k = key)) as [->|Hne]; cbn.
  - by rewrite delete_insert_eq.
  - by rewrite delete_insert_ne, IH.
Qed.

Lemma drop_key_nodup key la : NoDup la.*1 -> NoDup (drop_key key la).*1.
Proof.
  induction la as [|[k e] la IH]; cbn; [done|]. rewrite NoDup_cons. intros [Hk Hn].
  destruct (bool_decide (k = key)); cbn; [by apply IH|]. rewrite NoDup_cons. split; [|by apply IH].
  intros Hin. apply Hk. apply list_elem_of_fmap in Hin as (x & -> & Hx). apply drop_key_in in Hx as [Hx _]. by apply list_elem_of_fmap_2.
Qed.

Lemma drop_key_forall P key la : Forall P la -> Forall P (drop_key key la).
Proof. rewrite !Forall_forall. intros H x [Hx _]%drop_key_in. by apply H. Qed.

Lemma drop_key_sorted (R : entry -> entry -> Prop) key la : StronglySorted R la -> StronglySorted R (drop_key key la).
Proof.
  induction 1 as [|x la Hl IH Hx]; cbn; [constructor|]. destruct (negb _); [|done]. constructor; [done|].
  by apply drop_key_forall.
Qed.

Lemma drop_key_absent key la : key ∉ la.*1 -> drop_key key la = la.
Proof.
  induction la as [|[k e] la IH]; cbn; [done|]. rewrite not_elem_of_cons. intros [Hk Hn].
  rewrite bool_decide_eq_false_2 by done. cbn. f_equal. by apply IH.
Qed.

Lemma bytes_drop key e la : NoDup la.*1 -> (key, e) ∈ la -> bytes_of (drop_key key la) = bytes_of la - entry_bytes e.
Proof.
  unfold bytes_of. induction la as [|[k e'] la IH]; cbn; [by rewrite elem_of_nil|]. rewrite NoDup_cons, elem_of_cons.
  intros [Hk Hn] [[= <- <-]|Hin].
  - rewrite bool_decide_eq_true_2 by done. cbn. fold (drop_key key la). rewrite drop_key_absent by done. lia.
  - rewrite bool_decide_eq_false_2. { cbn. fold (drop_key key la). rewrite IH by done. lia. }
    intros ->. apply Hk. by apply (list_elem_of_fmap_2' fst) with (key, e).
Qed.

Lemma plain_snoc la x : plain (la ++ [x]) = plain la ++ [(fst x, cache_block_of (snd x))].
Proof. apply map_app. Qed.

Lemma bytes_snoc la x : bytes_of (la ++ [x]) = bytes_of la + entry_bytes (snd x).
Proof. unfold bytes_of. induction la as [|y la IH]; cbn in *; [lia|]. rewrite IH. lia. Qed.

Lemma bytes_plain la : Forall (fun x => entry_bytes (snd x) = decoded_block_bytes (cache_block_of (snd x))) la ->
  bytes_of la = block_bytes_of (plain la).
Proof. unfold bytes_of, block_bytes_of. induction 1 as [|x la Hx _ IH]; cbn in *; [done|]. by rewrite Hx, IH. Qed.

Lemma block_bytes_nonneg l : 0 <= block_bytes_of l.
Proof. unfold block_bytes_of. induction l as [|x l IH]; cbn; [lia|]. pose proof (bytes_nonneg (snd x)). lia. Qed.

Lemma fitting_all budget l : block_bytes_of l <= budget -> fitting decoded_block_bytes budget l = l.
Proof.
  unfold block_bytes_of. revert budget. induction l as [|x l IH]; intros budget H; cbn in *; [done|].
  pose proof (block_bytes_nonneg l) as Hn. unfold block_bytes_of in Hn.
  destruct (Z.leb_spec (decoded_block_bytes (snd x)) budget); [|lia]. by rewrite IH by lia.
Qed.

Lemma fitting_last budget l x : budget < block_bytes_of (l ++ [x]) ->
  fitting decoded_block_bytes budget (l ++ [x]) = fitting decoded_block_bytes budget l.
Proof.
  unfold block_bytes_of. revert budget. induction l as [|y l IH]; intros budget H; cbn in *.
  - by destruct (Z.leb_spec (decoded_block_bytes (snd x)) budget); [lia|].
  - destruct (Z.leb_spec (decoded_block_bytes (snd y)) budget); [|done]. by rewrite IH by lia.
Qed.

Lemma fitting_bytes l : forall budget, 0 <= budget -> block_bytes_of (fitting decoded_block_bytes budget l) <= budget.
Proof.
  unfold block_bytes_of. induction l as [|x l IH]; intros budget H; cbn; [done|].
  destruct (Z.leb_spec (decoded_block_bytes (snd x)) budget); cbn; [|done].
  specialize (IH (budget - decoded_block_bytes (snd x)) ltac:(lia)). lia.
Qed.

(** ** The oldest entry *)

Lemma oldest_snoc (l : list entry) x : oldest (l ++ [x]) =
  match oldest l with Some y => if last_access (snd x) <? last_access (snd y) then Some x else Some y | None => Some x end.
Proof. unfold oldest. rewrite fold_left_app. cbn. by destruct (fold_left _ l None). Qed.

Lemma oldest_least (l : list entry) : match oldest l with
  | Some x => x ∈ l /\ forall y, y ∈ l -> last_access (snd x) <= last_access (snd y)
  | None => l = []
  end.
Proof.
  induction l as [|x l IH] using rev_ind; [done|]. rewrite oldest_snoc. destruct (oldest l) as [y|].
  - destruct IH as [Hy Hle]. destruct (Z.ltb_spec (last_access (snd x)) (last_access (snd y))).
    + split; [apply elem_of_app; right; by left|]. intros z [Hz| ->%list_elem_of_singleton]%elem_of_app; [specialize (Hle z Hz)|]; lia.
    + split; [apply elem_of_app; by left|]. intros z [Hz| ->%list_elem_of_singleton]%elem_of_app; [by apply Hle|lia].
  - subst l. split; [by left|]. intros z Hz. apply list_elem_of_singleton in Hz as ->. lia.
Qed.

Lemma oldest_last c la x : recency c (la ++ [x]) -> oldest (map_to_list (entries c)) = Some x.
Proof.
  intros [He Hn Hs _ _ _]. rewrite He. pose proof (oldest_least (map_to_list (list_to_map (la ++ [x]) : gmap CacheKey (CacheEntry Block)))) as Ho.
  pose proof (map_to_list_to_map (M := gmap CacheKey) _ Hn) as Hp.
  destruct (oldest _) as [y|]; [|by rewrite Ho in Hp; apply Permutation_nil_l in Hp; destruct la].
  destruct Ho as [Hy Hle]. rewrite Hp in Hy. apply elem_of_app in Hy as [Hy|Hy%list_elem_of_singleton]; [|by rewrite Hy].
  assert (Hx : x ∈ map_to_list (list_to_map (la ++ [x]) : gmap CacheKey (CacheEntry Block))).
  { rewrite Hp. apply elem_of_app. right. by left. }
  specialize (Hle x Hx). apply sorting.StronglySorted_app in Hs as (Hs & _). specialize (Hs y x Hy ltac:(by left)). lia.
Qed.

Lemma recency_pop c la x memory : recency c (la ++ [x]) -> memory = bytes_of la ->
  recency (mkCache (delete (fst x) (entries c)) memory (budget_bytes c) (access_clock c) (hits c) (misses c)) la.
Proof.
  intros [He Hn Hs [Hc Hcl] Hb Hm] ->. rewrite fmap_app in Hn. apply NoDup_app in Hn as (Hn & Hdis & _).
  assert (Hx : fst x ∉ la.*1) by (intros Hx; apply (Hdis _ Hx); by left).
  apply sorting.StronglySorted_app in Hs as (_ & Hs & _). apply Forall_app in Hcl as [Hcl _]. apply Forall_app in Hb as [Hb _].
  split; cbn; try done. rewrite He, <- drop_key_map. f_equal. unfold drop_key. rewrite List.filter_app. cbn.
  rewrite bool_decide_eq_true_2 by done. cbn. rewrite app_nil_r. by apply drop_key_absent.
Qed.

(** Eviction ends and leaves what fits. *)
Lemma evict_fitting la : forall c fuel, recency c la -> (length la <= fuel)%nat -> 0 <= budget_bytes c -> memory_bytes c <= u64_max ->
  exists c' la', evict_loop fuel c = Some c' /\ recency c' la' /\
    plain la' = fitting decoded_block_bytes (budget_bytes c) (plain la) /\ memory_bytes c' <= budget_bytes c /\
    budget_bytes c' = budget_bytes c /\ access_clock c' = access_clock c.
Proof.
  induction la as [|x la IH] using rev_ind; intros c fuel Hr Hfuel Hbud Hu.
  - exists c, []. assert (Hm : memory_bytes c = 0) by (by destruct Hr).
    split; [|split; [done|split; [done|split; [lia|done]]]].
    destruct fuel; cbn; by replace (budget_bytes c <? memory_bytes c) with false by lia.
  - destruct (Z.ltb_spec (budget_bytes c) (memory_bytes c)) as [Hlt|Hge].
    + rewrite length_app in Hfuel. cbn in Hfuel. destruct fuel as [|fuel]; [lia|]. cbn [evict_loop].
      replace (budget_bytes c <? memory_bytes c) with true by lia. rewrite (oldest_last c la x Hr).
      destruct x as [k e]. assert (Hb : bytes_of (la ++ [(k, e)]) = bytes_of la + entry_bytes e).
      { apply bytes_snoc. }
      pose proof (recency_memory _ _ Hr) as Hm. pose proof (recency_bytes _ _ Hr) as Hbs.
      assert (Hbl : block_bytes_of (plain (la ++ [(k, e)])) = memory_bytes c) by (by rewrite <- bytes_plain, Hm).
      apply Forall_app in Hbs as [Hbs Hbe]. apply Forall_cons in Hbe as [Hbe _]. cbn in Hbe.
      pose proof (bytes_nonneg (cache_block_of e)). pose proof (block_bytes_nonneg (plain la)) as Hn0. rewrite <- bytes_plain in Hn0 by done.
      rewrite sub64_small by ints.
      destruct (IH _ fuel (recency_pop c la (k, e) (memory_bytes c - entry_bytes e) Hr ltac:(lia))) as (c' & la' & H1 & H2 & H3 & H4 & H5 & H6);
        [lia|done|cbn; lia|]. exists c', la'. split; [exact H1|]. split; [done|]. split; [|done]. rewrite H3. cbn.
      rewrite plain_snoc in Hbl |- *. symmetry. apply fitting_last. rewrite Hbl. lia.
    + exists c, (la ++ [x]). split; [|split; [done|split; [|split; [lia|done]]]].
      * destruct fuel; cbn [evict_loop]; by replace (budget_bytes c <? memory_bytes c) with false by lia.
      * symmetry. apply fitting_all. rewrite <- bytes_plain by apply Hr. by rewrite <- (recency_memory _ _ Hr).
Qed.

(** ** Operations *)

Lemma lookup_recency c la key e : recency c la -> entries c !! key = Some e <-> (key, e) ∈ la.
Proof. intros [He Hn _ _ _ _]. rewrite He. symmetry. by apply elem_of_list_to_map. Qed.

Lemma find_plain c la key : recency c la ->
  List.find (fun x => bool_decide (fst x = key)) (plain la) = (fun e => (key, cache_block_of e)) <$> entries c !! key.
Proof.
  intros [He _ _ _ _ _]. rewrite He. clear. unfold plain. induction la as [|[k e] la IH]; cbn; [by rewrite lookup_empty|].
  destruct (bool_decide_reflect (k = key)) as [->|Hne].
  - by rewrite lookup_insert_eq.
  - by rewrite lookup_insert_ne, IH.
Qed.

(** Putting a block in front of the others. *)
Lemma recency_push c la key e clock memory hit miss : recency c la -> last_access e = clock -> access_clock c < clock ->
  entry_bytes e = decoded_block_bytes (cache_block_of e) -> memory = bytes_of (drop_key key la) + entry_bytes e ->
  recency (mkCache (<[key := e]> (entries c)) memory (budget_bytes c) clock hit miss) ((key, e) :: drop_key key la).
Proof.
  intros [He Hn Hs [Hc Hcl] Hb Hm] Hl Hlt Hbe ->. split; cbn.
  - by rewrite He, drop_key_map, insert_delete_eq.
  - rewrite NoDup_cons. split; [|by apply drop_key_nodup]. intros Hin. apply list_elem_of_fmap in Hin as (x & Hk & Hx).
    apply drop_key_in in Hx as [_ Hx]. by rewrite <- Hk in Hx.
  - constructor; [by apply drop_key_sorted|]. apply drop_key_forall. eapply Forall_impl; [exact Hcl|]. cbn. intros x Hx. lia.
  - split; [lia|]. constructor; [cbn; lia|]. apply drop_key_forall. eapply Forall_impl; [exact Hcl|]. cbn. intros x Hx. lia.
  - constructor; [done|]. by apply drop_key_forall.
  - fold (bytes_of (drop_key key la)). lia.
Qed.

(** The state of the cache between operations. *)
Definition cache_ok (c : DecodedBlockCache Block) (l : list (CacheKey * Block)) : Prop :=
  exists la, recency c la /\ plain la = l /\ memory_bytes c <= budget_bytes c /\ 0 <= budget_bytes c /\ 2 * budget_bytes c <= u64_max.

Lemma get_step c l key : cache_ok c l -> access_clock c < u64_max ->
  let '(found, c') := cache_get key c in
  cache_ok c' (snd (recent_get key l)) /\ found = fst (recent_get key l) /\
    budget_bytes c' = budget_bytes c /\ access_clock c' = access_clock c + 1.
Proof.
  intros (la & Hr & <- & Hm & Hb1 & Hb2) Hc. pose proof (recency_clock _ _ Hr) as [Hc0 Hcl].
  unfold cache_get, recent_get. rewrite (find_plain c la key Hr).
  assert (Hadd : add64 (access_clock c) 1 = access_clock c + 1) by (apply add64_small; lia).
  destruct (entries c !! key) as [e|] eqn:Hk; cbn [fmap option_fmap option_map fst snd]; rewrite Hadd.
  - assert (Hin : (key, e) ∈ la) by (by apply (lookup_recency c la)).
    assert (Heb : entry_bytes e = decoded_block_bytes (cache_block_of e)).
    { pose proof (recency_bytes _ _ Hr) as Hf. rewrite Forall_forall in Hf. by apply (Hf (key, e)). }
    split; [|done]. exists ((key, mkCacheEntry (cache_block_of e) (entry_bytes e) (access_clock c + 1)) :: drop_key key la).
    split; [|split; [cbn; by rewrite plain_drop|done]]. apply recency_push; [done|done|lia|done|].
    rewrite (bytes_drop key e) by (done || apply Hr). cbn. rewrite (recency_memory _ _ Hr). lia.
  - split; [|done]. exists la. split; [|done]. destruct Hr as [He Hn Hs _ Hbs Hmm]. split; cbn; try done. split; [lia|].
    eapply Forall_impl; [exact Hcl|]. cbn. intros x Hx. lia.
Qed.

Lemma insert_step c l key block : cache_ok c l -> access_clock c < u64_max ->
  exists c', cache_insert decoded_block_bytes key block c = Some c' /\
    cache_ok c' (recent_insert decoded_block_bytes (budget_bytes c) key block l) /\
    budget_bytes c' = budget_bytes c /\ access_clock c' <= access_clock c + 1.
Proof.
  intros (la & Hr & <- & Hm & Hb1 & Hb2) Hc. pose proof (recency_clock _ _ Hr) as [Hc0 _].
  unfold cache_insert, recent_insert. destruct (Z.ltb_spec (budget_bytes c) (decoded_block_bytes block)) as [Hbig|Hfit].
  { exists c. split; [done|]. split; [by exists la|]. split; [done|lia]. }
  pose proof (bytes_nonneg block). set (e := mkCacheEntry block (decoded_block_bytes block) (add64 (access_clock c) 1)).
  assert (Hadd : add64 (access_clock c) 1 = access_clock c + 1) by (apply add64_small; lia).
  assert (Hdrop : bytes_of (drop_key key la) = match entries c !! key with Some previous => memory_bytes c - entry_bytes previous | None => memory_bytes c end).
  { rewrite (recency_memory _ _ Hr). destruct (entries c !! key) as [previous|] eqn:Hk.
    - apply (lookup_recency c la) in Hk; [|done]. apply bytes_drop; [apply Hr|done].
    - rewrite drop_key_absent; [done|]. rewrite (recency_entries _ _ Hr) in Hk. by apply not_elem_of_list_to_map_2. }
  assert (Hnn : 0 <= bytes_of (drop_key key la)).
  { rewrite bytes_plain; [apply block_bytes_nonneg|]. apply drop_key_forall, Hr. }
  assert (Hprev : match entries c !! key with Some previous => 0 <= entry_bytes previous | None => True end).
  { destruct (entries c !! key) as [previous|] eqn:Hk; [|done]. apply (lookup_recency c la) in Hk; [|done].
    pose proof (recency_bytes _ _ Hr) as Hf. rewrite Forall_forall in Hf. specialize (Hf _ Hk). cbn in Hf. rewrite Hf. apply bytes_nonneg. }
  assert (Hmem : bytes_of (drop_key key la) <= memory_bytes c) by (destruct (entries c !! key); lia).
  set (memory := bytes_of (drop_key key la) + decoded_block_bytes block).
  assert (Hstate : (let '(rest, memory) := match entries c !! key with
      | Some previous => (delete key (entries c), sub64 (memory_bytes c) (entry_bytes previous))
      | None => (entries c, memory_bytes c) end in
      mkCache (<[key := e]> rest) (add64 memory (decoded_block_bytes block)) (budget_bytes c) (add64 (access_clock c) 1) (hits c) (misses c)) =
    mkCache (<[key := e]> (entries c)) memory (budget_bytes c) (access_clock c + 1) (hits c) (misses c)).
  { rewrite Hadd. unfold memory. rewrite Hdrop. destruct (entries c !! key) as [previous|].
    - rewrite insert_delete_eq, sub64_small, add64_small by ints. done.
    - rewrite add64_small by ints. done. }
  assert (Hpush : recency (mkCache (<[key := e]> (entries c)) memory (budget_bytes c) (access_clock c + 1) (hits c) (misses c)) ((key, e) :: drop_key key la)).
  { apply recency_push; [done|done|lia|done|done]. }
  destruct (evict_fitting _ _ (S (size (<[key := e]> (entries c)))) Hpush) as (c' & la' & H1 & H2 & H3 & H4 & H5 & H6); [|done|cbn; lia|].
  { rewrite <- (map_size_list_to_map (M := gmap CacheKey) _ (recency_nodup _ _ Hpush)), <- (recency_entries _ _ Hpush). cbn. lia. }
  exists c'. split; [|split; [|split; [done|rewrite H6; cbn; lia]]].
  - destruct (entries c !! key); cbv zeta in Hstate; unfold evict_to_budget; rewrite Hstate; exact H1.
  - exists la'. split; [done|]. cbn in H4, H5. split; [|rewrite H5; done]. rewrite H3. cbn. by rewrite plain_drop.
Qed.

Lemma cache_step_ok c l op : cache_ok c l -> access_clock c < u64_max ->
  exists c', cache_step decoded_block_bytes op c = Some (fst (recent_step decoded_block_bytes (budget_bytes c) op l), c') /\
    cache_ok c' (snd (recent_step decoded_block_bytes (budget_bytes c) op l)) /\
    budget_bytes c' = budget_bytes c /\ access_clock c' <= access_clock c + 1.
Proof.
  intros Hok Hc. destruct op as [key|key block| |]; cbn [cache_step recent_step fst snd].
  - pose proof (get_step c l key Hok Hc) as Hg. destruct (cache_get key c) as [found c']. destruct Hg as (H1 & -> & H2 & H3).
    exists c'. split; [done|]. split; [done|]. split; [done|lia].
  - destruct (insert_step c l key block Hok Hc) as (c' & -> & H). by exists c'.
  - eexists. split; [reflexivity|]. destruct Hok as (la & Hr & <- & Hm & Hb). pose proof (recency_clock _ _ Hr) as [Hc0 _].
    split; [|split; [done|cbn; lia]]. exists []. split; [split; cbn; try done; constructor|]. split; [done|]. split; [cbn; lia|done].
  - eexists. split; [reflexivity|]. destruct Hok as (la & [He Hn Hs Hcl Hbs Hmm] & <- & Hm & Hb).
    split; [|split; [done|cbn; lia]]. by exists la.
Qed.

Lemma cache_run_ok ops : forall c l, cache_ok c l -> access_clock c + zlen ops <= u64_max ->
  exists c', cache_run decoded_block_bytes ops c = Some (fst (recent_run decoded_block_bytes (budget_bytes c) ops l), c') /\
    cache_ok c' (snd (recent_run decoded_block_bytes (budget_bytes c) ops l)) /\ budget_bytes c' = budget_bytes c.
Proof.
  induction ops as [|op ops IH]; intros c l Hok Hc; [by exists c|]. rewrite zlen_cons in Hc. pose proof (zlen_nonneg ops).
  destruct (cache_step_ok c l op Hok ltac:(lia)) as (c1 & Hs & Hok1 & Hb1 & Hc1). cbn [cache_run recent_run]. rewrite Hs.
  destruct (recent_step decoded_block_bytes (budget_bytes c) op l) as [found l1]. cbn [fst snd] in *.
  destruct (IH c1 l1 Hok1 ltac:(lia)) as (c2 & -> & Hok2 & Hb2). rewrite Hb1 in *.
  destruct (recent_run decoded_block_bytes (budget_bytes c) ops l1) as [answers l2]. exists c2. split; [done|]. split; [done|]. by rewrite Hb2.
Qed.
End Cache.

(** C26.  The cache answers every sequence of lookups, insertions and clearings like a list of blocks
    in the order of their use that is cut to the most recent ones that fit the budget: eviction
    ends, the entries are the blocks of that list, and the bytes it accounts for are theirs and
    within the budget. *)
Theorem cache_is_recency_list {Block : Type} (decoded_block_bytes : Block -> Z) (ops : list (CacheOp Block)) (budget : Z) :
  (forall b, 0 <= decoded_block_bytes b) -> 0 <= budget -> 2 * budget <= u64_max -> zlen ops <= u64_max ->
  exists c, cache_run decoded_block_bytes ops (cache_new budget) =
      Some (fst (recent_run decoded_block_bytes budget ops []), c) /\
    let l := snd (recent_run decoded_block_bytes budget ops []) in
    memory_bytes c = block_bytes_of decoded_block_bytes l /\ memory_bytes c <= budget /\
    stat_entries (cache_stats c) = length l.
Proof.
  intros Hbytes H0 H2 Hops. assert (Hnew : cache_ok decoded_block_bytes (cache_new budget) []).
  { exists []. split; [split; cbn; try done; constructor|]. split; [done|]. cbn. lia. }
  destruct (cache_run_ok decoded_block_bytes Hbytes ops _ _ Hnew ltac:(cbn; lia)) as (c & Hrun & (la & Hr & Hl & Hm & _) & Hb).
  cbn in Hrun, Hb, Hl. exists c. split; [done|]. cbv zeta. rewrite <- Hl, Hb in *. split; [|split; [done|]].
  - rewrite (recency_memory _ _ _ Hr). apply bytes_plain, Hr.
  - cbn. rewrite (recency_entries _ _ _ Hr), (map_size_list_to_map _ (recency_nodup _ _ _ Hr)). unfold plain. by rewrite length_map.
Qed.

Lemma cache_is_recency_list_witness : exists c,
  cache_run (fun b => b) [Insert (1, 0) 40; Insert (1, 1) 50; Lookup (1, 0); Insert (1, 2) 30; Lookup (1, 1); Lookup (1, 0)] (cache_new 100) =
    Some ([None; None; Some 40; None; None; Some 40], c) /\ memory_bytes c = 70.
Proof.
  destruct (cache_is_recency_list (fun b => Z.abs b)
    [Insert (1, 0) 40; Insert (1, 1) 50; Lookup (1, 0); Insert (1, 2) 30; Lookup (1, 1); Lookup (1, 0)] 100)
    as (c & Hrun & Hm & _); [lia|lia|done|done|]. exists c. split; [exact Hrun|exact Hm].
Defined.
