(* ===== verification/WordStore.v ===== *)
(** [crates/signal_derived/src/derived_word_store/store.rs]: the live store of derived words.  The
    writer cuts the words into blocks, has them encoded by the executor, commits the encoded blocks
    in order whatever order they are completed in, and appends them to segments of the repository.

    The executor and the repository are other components.  The repository accepts or refuses each
    operation; the executor completes the tasks it runs in an order that the schedule gives.  The
    texts of errors are left out, and a function that waits for ever has no result ([None]). *)

From stdpp Require Import gmap.
From S2P Require Import Prelude Vlq Events WordFormat WordEncode WordDecode WordPresence WordPresenceIndex.
From S2P Require Import AnnotationQuery DecodedBlockCache.

#[local] Open Scope Z_scope.

(** ** Data *)

(** [crates/signal_derived/src/derived_word_store/state.rs:5-11] StoreStatus *)
Inductive StoreStatus := Live | Finished | Cancelled | Failed.

#[export] Instance StoreStatus_eq_dec : EqDecision StoreStatus.
Proof. solve_decision. Defined.

(** [crates/signal_derived/src/derived_word_store/store.rs:48-75] StoreError *)
Inductive StoreError :=
| Repository
| Executor
| Background (error : StoreError)
| Codec (error : CodecError)
| NotLive (status : StoreStatus)
| BlockOutOfBounds (index block_count : Z)
| DirectoryMismatch (sequence : Z)
| Persistent.

(** [crates/signal_derived/src/derived_word_store/store.rs:79-89] LiveState *)
Record LiveState := mkLive {
  directory : list BlockDirectoryEntry;
  presence : WordPresenceIndex;
  generation : Z;
  committed_word_count : Z;
  committed_data_len : Z;
  committed_first_timestamp_ns : option Z;
  committed_last_timestamp_ns : option Z;
  hot_tail : list Word;
  status : StoreStatus
}.

(** The published segments stand for the repository's artifacts of the store.
    [crates/signal_derived/src/derived_word_store/store.rs:91-100] StoreShared *)
Record StoreShared := mkShared {
  state : LiveState;
  pending_blocks : gmap Z (list Z);
  published : gmap Z (list Z);
  remove_on_drop : bool;
  persistent_cache : bool
}.

(** [crates/signal_derived/src/derived_word_store/store.rs:753-757] PreparedBlock *)
Record PreparedBlock := mkPrepared {
  prepared_builder : WordBlockBuilder;
  prepared_encoded : list Z;
  prepared_result : CodecResult (EncodedBlockMetadata * list WordSummaryRecord)
}.

(** The writer of the artifact holds the bytes written so far.
    [crates/signal_derived/src/derived_word_store/store.rs:764-769] ActiveSegment *)
Record ActiveSegment := mkSegment {
  segment_number : Z;
  segment_bytes : list Z;
  segment_length : Z;
  block_sequences : list Z
}.

(** Tasks that run, the completions to come, and the blocks completed out of order. *)
Record Pipeline := mkPipeline {
  running : list (Z * WordBlockBuilder);
  schedule : list nat;
  prepared_blocks : gmap Z PreparedBlock;
  in_flight_blocks : nat;
  next_dispatch_sequence : Z;
  next_sequence : Z
}.

(** Builders and buffers that are kept for reuse are empty and left out.
    [crates/signal_derived/src/derived_word_store/store.rs:792-818] IndexedAnnotationWriter *)
Record IndexedAnnotationWriter := mkWriter {
  shared : StoreShared;
  builder : WordBlockBuilder;
  pipeline : Pipeline;
  max_outstanding_blocks : nat;
  next_data_offset : Z;
  last_timestamp_ns : option Z;
  words_since_tail_publish : Z;
  terminal : bool;
  active_segment : option ActiveSegment;
  next_segment_sequence : Z;
  target_segment_bytes : Z
}.

(** [crates/signal_derived/src/derived_word_store/store.rs:37-37] TARGET_SEGMENT_BYTES *)
Definition TARGET_SEGMENT_BYTES : Z := 8 * 1024 * 1024.

(** [crates/signal_derived/src/derived_word_store/store.rs:36-36] MAX_BLOCK_ENCODERS_PER_STORE *)
Definition MAX_BLOCK_ENCODERS_PER_STORE : Z := 4.

(** [crates/signal_derived/src/derived_word_store/store.rs:41-46] block_encoder_count *)
Definition block_encoder_count (available_workers : Z) : Z :=
  if available_workers <=? 2 then 1
  else Z.min (Z.max (div_ceil available_workers 4) 2) MAX_BLOCK_ENCODERS_PER_STORE.

(** ** Updates of a part of the state *)

Definition with_shared (f : StoreShared -> StoreShared) (w : IndexedAnnotationWriter) : IndexedAnnotationWriter :=
  mkWriter (f (shared w)) (builder w) (pipeline w) (max_outstanding_blocks w) (next_data_offset w)
    (last_timestamp_ns w) (words_since_tail_publish w) (terminal w) (active_segment w) (next_segment_sequence w)
    (target_segment_bytes w).

Definition with_state (f : LiveState -> LiveState) : IndexedAnnotationWriter -> IndexedAnnotationWriter :=
  with_shared (fun s => mkShared (f (state s)) (pending_blocks s) (published s) (remove_on_drop s) (persistent_cache s)).

Definition with_builder (b : WordBlockBuilder) (w : IndexedAnnotationWriter) : IndexedAnnotationWriter :=
  mkWriter (shared w) b (pipeline w) (max_outstanding_blocks w) (next_data_offset w)
    (last_timestamp_ns w) (words_since_tail_publish w) (terminal w) (active_segment w) (next_segment_sequence w)
    (target_segment_bytes w).

Definition with_pipeline (q : Pipeline) (w : IndexedAnnotationWriter) : IndexedAnnotationWriter :=
  mkWriter (shared w) (builder w) q (max_outstanding_blocks w) (next_data_offset w)
    (last_timestamp_ns w) (words_since_tail_publish w) (terminal w) (active_segment w) (next_segment_sequence w)
    (target_segment_bytes w).

Definition with_tail_words (n : Z) (w : IndexedAnnotationWriter) : IndexedAnnotationWriter :=
  mkWriter (shared w) (builder w) (pipeline w) (max_outstanding_blocks w) (next_data_offset w)
    (last_timestamp_ns w) n (terminal w) (active_segment w) (next_segment_sequence w) (target_segment_bytes w).

Definition with_last_timestamp (t : option Z) (w : IndexedAnnotationWriter) : IndexedAnnotationWriter :=
  mkWriter (shared w) (builder w) (pipeline w) (max_outstanding_blocks w) (next_data_offset w)
    t (words_since_tail_publish w) (terminal w) (active_segment w) (next_segment_sequence w) (target_segment_bytes w).

Definition with_segment (a : option ActiveSegment) (w : IndexedAnnotationWriter) : IndexedAnnotationWriter :=
  mkWriter (shared w) (builder w) (pipeline w) (max_outstanding_blocks w) (next_data_offset w)
    (last_timestamp_ns w) (words_since_tail_publish w) (terminal w) a (next_segment_sequence w) (target_segment_bytes w).

Definition with_next_segment (n : Z) (w : IndexedAnnotationWriter) : IndexedAnnotationWriter :=
  mkWriter (shared w) (builder w) (pipeline w) (max_outstanding_blocks w) (next_data_offset w)
    (last_timestamp_ns w) (words_since_tail_publish w) (terminal w) (active_segment w) n (target_segment_bytes w).

Definition with_data_offset (n : Z) (w : IndexedAnnotationWriter) : IndexedAnnotationWriter :=
  mkWriter (shared w) (builder w) (pipeline w) (max_outstanding_blocks w) n
    (last_timestamp_ns w) (words_since_tail_publish w) (terminal w) (active_segment w) (next_segment_sequence w)
    (target_segment_bytes w).

Definition set_terminal (w : IndexedAnnotationWriter) : IndexedAnnotationWriter :=
  mkWriter (shared w) (builder w) (pipeline w) (max_outstanding_blocks w) (next_data_offset w)
    (last_timestamp_ns w) (words_since_tail_publish w) true (active_segment w) (next_segment_sequence w)
    (target_segment_bytes w).

(** ** Computations of the writer *)

(** A computation that may fail, and may wait for ever. *)
Definition M (A : Type) : Type := IndexedAnnotationWriter -> option (result StoreError A * IndexedAnnotationWriter).

Definition ret {A} (x : A) : M A := fun w => Some (Ok x, w).
Definition throw {A} (e : StoreError) : M A := fun w => Some (Err e, w).
Definition bind {A B} (m : M A) (k : A -> M B) : M B := fun w =>
  match m w with
  | None => None
  | Some (Ok x, w) => k x w
  | Some (Err e, w) => Some (Err e, w)
  end.
Definition modify (f : IndexedAnnotationWriter -> IndexedAnnotationWriter) : M unit := fun w => Some (Ok tt, f w).

Declare Scope store_scope.
Delimit Scope store_scope with store.
Notation "'do' x <- m ; k" := (bind m (fun x => k))
  (at level 10, x pattern, m at level 100, k at level 200) : store_scope.
Notation "m ;; k" := (bind m (fun _ => k)) (at level 100, right associativity) : store_scope.

(** ** The environment *)

(** What the writer asks of the repository. *)
Inductive RepositoryOp :=
| BeginWrite (segment : Z)
| WriteAt (segment offset : Z) (bytes : list Z)
| Truncate (segment length : Z)
| Publish (segment : Z)
| ReadSegment (segment : Z).

Section Writer.
Context (repository_accepts : RepositoryOp -> bool) (executor_accepts : Z -> bool).
Context (persistence : bool) (publish_index : LiveState -> bool) (hot_tail_publish_words : Z).

Open Scope store_scope.

Definition ask (op : RepositoryOp) : M unit := if repository_accepts op then ret tt else throw Repository.

(** ** Encoding *)

(** [crates/signal_derived/src/derived_word_store/store.rs:771-790] prepare_encoded_block *)
Definition prepare_encoded_block (sequence : Z) (builder : WordBlockBuilder) : PreparedBlock :=
  let duration_free := sized_durations (sizing builder) =? 0 in
  let summaries := word_presence_summaries sequence (words builder) duration_free in
  match encode builder sequence with
  | Ok (metadata, encoded) => mkPrepared (clear builder) encoded (Ok (metadata, summaries))
  | Err e => mkPrepared (clear builder) [] (Err e)
  end.

(** ** Segments *)

(** The encoded blocks of a published or discarded segment are no longer kept aside. *)
Definition forget_blocks (sequences : list Z) (w : IndexedAnnotationWriter) : IndexedAnnotationWriter :=
  with_shared (fun s => mkShared (state s) (fold_left (fun pending sequence => delete sequence pending) sequences (pending_blocks s))
    (published s) (remove_on_drop s) (persistent_cache s)) w.

(** [crates/signal_derived/src/derived_word_store/store.rs:1243-1260] IndexedAnnotationWriter::publish_active_segment *)
Definition publish_active_segment : M unit := fun w =>
  match active_segment w with
  | None => Some (Ok tt, w)
  | Some segment =>
      (modify (with_segment None) ;;
       ask (Truncate (segment_number segment) (segment_length segment)) ;;
       ask (Publish (segment_number segment)) ;;
       modify (with_shared (fun s => mkShared (state s) (pending_blocks s)
         (<[segment_number segment := take (Z.to_nat (segment_length segment)) (segment_bytes segment)]> (published s))
         (remove_on_drop s) (persistent_cache s))) ;;
       modify (forget_blocks (block_sequences segment))) w
  end.

(** [crates/signal_derived/src/derived_word_store/store.rs:1262-1273] IndexedAnnotationWriter::discard_active_segment *)
Definition discard_active_segment (w : IndexedAnnotationWriter) : IndexedAnnotationWriter :=
  match active_segment w with
  | None => w
  | Some segment => forget_blocks (block_sequences segment) (with_segment None w)
  end.

(** [crates/signal_derived/src/derived_word_store/store.rs:1217-1241] IndexedAnnotationWriter::prepare_active_segment *)
Definition prepare_active_segment (block_len : Z) : M unit := fun w =>
  let full := match active_segment w with
    | Some segment => (0 <? segment_length segment)
        && (target_segment_bytes w <? saturating_add64 (segment_length segment) block_len)
    | None => false
    end in
  ((if full then publish_active_segment else ret tt) ;;
   fun w =>
     match active_segment w with
     | Some _ => Some (Ok tt, w)
     | None =>
         let sequence := next_segment_sequence w in
         (ask (BeginWrite sequence) ;;
          modify (with_segment (Some (mkSegment sequence [] 0 []))) ;;
          modify (with_next_segment (saturating_add64 (next_segment_sequence w) 1))) w
     end) w.

(** [write_at] of bytes at an offset of the artifact. *)
Definition write_bytes (content : list Z) (offset : Z) (bytes : list Z) : list Z :=
  take (Z.to_nat offset) content ++ bytes ++ drop (Z.to_nat offset + length bytes) content.

(** ** Committing *)

(** [crates/signal_derived/src/derived_word_store/store.rs:1177-1188] IndexedAnnotationWriter::commit_prepared_block (entry) *)
Definition entry_of (header : WordBlockHeader) (data_offset segment offset : Z) : BlockDirectoryEntry :=
  mkEntry (sequence header) (first_timestamp_ns header) (WordFormat.last_timestamp_ns header) data_offset
    segment offset (block_len header) (word_count header) (value_bytes header) (as_u8 (flags header)).

(** [crates/signal_derived/src/derived_word_store/store.rs:1196-1207] IndexedAnnotationWriter::commit_prepared_block (state) *)
Definition commit_entry (entry : BlockDirectoryEntry) (summaries : list WordSummaryRecord) (s : LiveState) : LiveState :=
  mkLive (directory s ++ [entry]) (push_all (presence s) summaries) (add64 (generation s) 1)
    (add64 (committed_word_count s) (entry_word_count entry))
    (add64 (entry_data_offset entry) (entry_block_len entry))
    (Some (default (entry_first_timestamp_ns entry) (committed_first_timestamp_ns s)))
    (Some (entry_last_timestamp_ns entry)) [] (status s).

(** The writer's numbers behind a committed block. *)
Definition next_block (w : IndexedAnnotationWriter) (len : Z) : IndexedAnnotationWriter :=
  let q := pipeline w in
  with_data_offset (add64 (next_data_offset w) len)
    (with_pipeline (mkPipeline (running q) (schedule q) (prepared_blocks q) (in_flight_blocks q)
       (next_dispatch_sequence q) (next_sequence q + 1)) w).

(** [crates/signal_derived/src/derived_word_store/store.rs:1160-1215] IndexedAnnotationWriter::commit_prepared_block *)
Definition commit_prepared_block (block : PreparedBlock) : M unit :=
  match prepared_result block with
  | Err e => throw (Codec e)
  | Ok (metadata, summaries) =>
      let header := header metadata in
      let encoded := prepared_encoded block in
      prepare_active_segment (zlen encoded) ;;
      fun w =>
        match active_segment w with
        | None => None
        | Some active =>
            (ask (WriteAt (segment_number active) (segment_length active) encoded) ;;
             match checked_add64 (segment_length active) (zlen encoded) with
             | None => throw Persistent
             | Some length =>
                 let entry := entry_of header (next_data_offset w) (segment_number active) (segment_length active) in
                 modify (with_segment (Some (mkSegment (segment_number active)
                   (write_bytes (segment_bytes active) (segment_length active) encoded) length
                   (block_sequences active ++ [sequence header])))) ;;
                 modify (with_shared (fun s => mkShared (state s) (<[sequence header := encoded]> (pending_blocks s))
                   (published s) (remove_on_drop s) (persistent_cache s))) ;;
                 modify (with_state (commit_entry entry summaries)) ;;
                 modify (fun w => next_block w (entry_block_len entry))
             end) w
        end
  end.

(** ** Completions *)

(** A completed task is received while a block is in flight; the channel never closes, because the
    writer itself holds a sender, and no encoder panics.
    [crates/signal_derived/src/derived_word_store/store.rs:1123-1139] IndexedAnnotationWriter::accept_completed_block *)
Definition accept_completed_block (task : Z * WordBlockBuilder) : M unit := fun w =>
  let q := pipeline w in
  match in_flight_blocks q with
  | O => Some (Err Persistent, w)
  | S in_flight =>
      let block := prepare_encoded_block (fst task) (snd task) in
      let w' := with_pipeline (mkPipeline (running q) (schedule q) (<[fst task := block]> (prepared_blocks q))
        in_flight (next_dispatch_sequence q) (next_sequence q)) w in
      match prepared_blocks q !! fst task with
      | Some _ => Some (Err Persistent, w')
      | None => Some (Ok tt, w')
      end
  end.

(** [Receiver::try_recv]: the schedule says which of the running tasks has completed, if any. *)
Definition try_recv (q : Pipeline) : option (Z * WordBlockBuilder) * Pipeline :=
  match schedule q with
  | [] => (None, q)
  | k :: rest =>
      match running q !! k with
      | Some task => (Some task, mkPipeline (delete k (running q)) rest (prepared_blocks q) (in_flight_blocks q)
          (next_dispatch_sequence q) (next_sequence q))
      | None => (None, mkPipeline (running q) rest (prepared_blocks q) (in_flight_blocks q)
          (next_dispatch_sequence q) (next_sequence q))
      end
  end.

(** [Receiver::recv]: waits for one of the running tasks. *)
Definition recv (q : Pipeline) : option ((Z * WordBlockBuilder) * Pipeline) :=
  let '(k, rest) := match schedule q with [] => (0%nat, []) | k :: rest => (k, rest) end in
  let k := (k mod length (running q))%nat in
  match running q !! k with
  | Some task => Some (task, mkPipeline (delete k (running q)) rest (prepared_blocks q) (in_flight_blocks q)
      (next_dispatch_sequence q) (next_sequence q))
  | None => None
  end.

(** [crates/signal_derived/src/derived_word_store/store.rs:1141-1146] IndexedAnnotationWriter::commit_ordered_blocks *)
Fixpoint commit_loop (fuel : nat) : M unit := fun w =>
  let q := pipeline w in
  match prepared_blocks q !! next_sequence q with
  | None => Some (Ok tt, w)
  | Some block =>
      match fuel with
      | O => None
      | S fuel =>
          (commit_prepared_block block ;; commit_loop fuel)
            (with_pipeline (mkPipeline (running q) (schedule q) (delete (next_sequence q) (prepared_blocks q))
              (in_flight_blocks q) (next_dispatch_sequence q) (next_sequence q)) w)
      end
  end.

Definition commit_ordered_blocks : M unit := fun w => commit_loop (size (prepared_blocks (pipeline w))) w.

(** [crates/signal_derived/src/derived_word_store/store.rs:1101-1114] IndexedAnnotationWriter::drain_completed_blocks (loop) *)
Fixpoint drain_loop (fuel : nat) : M unit := fun w =>
  match try_recv (pipeline w) with
  | (None, q) => Some (Ok tt, with_pipeline q w)
  | (Some task, q) =>
      match fuel with
      | O => None
      | S fuel => (accept_completed_block task ;; drain_loop fuel) (with_pipeline q w)
      end
  end.

(** [crates/signal_derived/src/derived_word_store/store.rs:1101-1114] IndexedAnnotationWriter::drain_completed_blocks *)
Definition drain_completed_blocks : M unit := fun w =>
  (drain_loop (length (schedule (pipeline w))) ;; commit_ordered_blocks) w.

(** [crates/signal_derived/src/derived_word_store/store.rs:1116-1121] IndexedAnnotationWriter::receive_completed_block *)
Definition receive_completed_block : M unit := fun w =>
  match recv (pipeline w) with
  | None => None
  | Some (task, q) => accept_completed_block task (with_pipeline q w)
  end.

(** [crates/signal_derived/src/derived_word_store/store.rs:1058-1060] IndexedAnnotationWriter::outstanding_blocks *)
Definition outstanding_blocks (w : IndexedAnnotationWriter) : nat :=
  (in_flight_blocks (pipeline w) + size (prepared_blocks (pipeline w)))%nat.

(** Waits until fewer than the given number of blocks are outstanding.
    [crates/signal_derived/src/derived_word_store/store.rs:1067-1070] IndexedAnnotationWriter::dispatch_current_block (wait) *)
Fixpoint wait_loop (fuel : nat) : M unit := fun w =>
  if Nat.leb (max_outstanding_blocks w) (outstanding_blocks w) then
    match fuel with
    | O => None
    | S fuel => (receive_completed_block ;; commit_ordered_blocks ;; wait_loop fuel) w
    end
  else Some (Ok tt, w).

(** [crates/signal_derived/src/derived_word_store/store.rs:1148-1158] IndexedAnnotationWriter::flush_dispatched_blocks *)
Fixpoint flush_loop (fuel : nat) : M unit := fun w =>
  if Nat.eqb (outstanding_blocks w) 0 then Some (Ok tt, w)
  else
    match fuel with
    | O => None
    | S fuel =>
        match prepared_blocks (pipeline w) !! next_sequence (pipeline w) with
        | Some _ => (commit_ordered_blocks ;; flush_loop fuel) w
        | None => (receive_completed_block ;; commit_ordered_blocks ;; flush_loop fuel) w
        end
    end.

Definition flush_dispatched_blocks : M unit := fun w => flush_loop (outstanding_blocks w) w.

(** The current block becomes a task of the executor.
    [crates/signal_derived/src/derived_word_store/store.rs:1072-1098] IndexedAnnotationWriter::dispatch_current_block (submit) *)
Definition submit_block : M unit := fun w =>
  let q := pipeline w in
  let sequence := next_dispatch_sequence q in
  let current := builder w in
  let w := with_builder (clear current) w in
  if executor_accepts sequence then
    Some (Ok tt, with_tail_words 0
      (with_pipeline (mkPipeline (running q ++ [(sequence, current)]) (schedule q) (prepared_blocks q)
        (S (in_flight_blocks q)) (sequence + 1) (next_sequence q)) w))
  else Some (Err Persistent, w).

(** [crates/signal_derived/src/derived_word_store/store.rs:1062-1099] IndexedAnnotationWriter::dispatch_current_block *)
Definition dispatch_current_block : M unit := fun w =>
  if Nat.eqb (length (words (builder w))) 0 then Some (Ok tt, w)
  else
    (drain_completed_blocks ;;
     (fun w => wait_loop (outstanding_blocks w) w) ;;
     submit_block) w.

(** ** Appending *)

(** [crates/signal_derived/src/derived_word_store/store.rs:979-990] IndexedAnnotationWriter::append_batch_inner (order) *)
Fixpoint check_order (ws : list Word) : M unit := fun w =>
  match ws with
  | [] => Some (Ok tt, w)
  | word :: ws =>
      match last_timestamp_ns w with
      | Some previous =>
          if timestamp_ns word <? previous
          then Some (Err (Codec (OutOfOrder (zlen (words (builder w))) previous (timestamp_ns word))), w)
          else check_order ws (with_last_timestamp (Some (timestamp_ns word)) w)
      | None => check_order ws (with_last_timestamp (Some (timestamp_ns word)) w)
      end
  end.

(** [crates/signal_derived/src/derived_word_store/codec.rs:149-151] WordBlockBuilder::is_at_word_limit *)
Definition is_at_word_limit (b : WordBlockBuilder) : bool := max_words (config b) <=? zlen (words b).

(** Two turns accept at least one word: a full block is dispatched and the empty one takes a word.
    [crates/signal_derived/src/derived_word_store/store.rs:992-1000] IndexedAnnotationWriter::append_batch_inner (loop) *)
Fixpoint append_loop (fuel : nat) (remaining : list Word) : M unit := fun w =>
  match remaining with
  | [] => Some (Ok tt, w)
  | _ :: _ =>
      match fuel with
      | O => None
      | S fuel =>
          let '(accepted, b) := extend_ordered (builder w) remaining in
          let w := with_tail_words (words_since_tail_publish w + Z.of_nat accepted) (with_builder b w) in
          let remaining := drop accepted remaining in
          ((if negb (Nat.eqb (length remaining) 0) || is_at_word_limit b then dispatch_current_block else ret tt) ;;
           append_loop fuel remaining) w
      end
  end.

(** [crates/signal_derived/src/derived_word_store/store.rs:977-1004] IndexedAnnotationWriter::append_batch_inner *)
Definition append_batch_inner (ws : list Word) : M unit :=
  drain_completed_blocks ;;
  check_order ws ;;
  append_loop (2 * length ws) ws ;;
  drain_completed_blocks.

(** [crates/signal_derived/src/derived_word_store/store.rs:1275-1282] IndexedAnnotationWriter::publish_hot_tail_inner *)
Definition publish_hot_tail_inner (w : IndexedAnnotationWriter) : IndexedAnnotationWriter :=
  with_tail_words 0 (with_state (fun s => mkLive (directory s) (presence s) (add64 (generation s) 1)
    (committed_word_count s) (committed_data_len s) (committed_first_timestamp_ns s) (committed_last_timestamp_ns s)
    (words (builder w)) (status s)) w).

(** Whether the publication interval has elapsed is given.
    [crates/signal_derived/src/derived_word_store/store.rs:1006-1019] IndexedAnnotationWriter::publish_appended_prefix *)
Definition publish_appended_prefix (elapsed : bool) : M unit :=
  drain_completed_blocks ;;
  fun w => Some (Ok tt,
    if Nat.eqb (outstanding_blocks w) 0 && negb (Nat.eqb (length (words (builder w))) 0)
      && ((hot_tail_publish_words <=? words_since_tail_publish w) || elapsed)
    then publish_hot_tail_inner w else w).

(** ** Status *)

(** [crates/signal_derived/src/derived_word_store/store.rs:1284-1291] IndexedAnnotationWriter::ensure_live *)
Definition ensure_live : M unit := fun w =>
  match status (state (shared w)) with
  | Live => Some (Ok tt, w)
  | other => Some (Err (NotLive other), w)
  end.

(** The store's status, without the hot tail. *)
Definition end_state (new : StoreStatus) (s : LiveState) : LiveState :=
  mkLive (directory s) (presence s) (add64 (generation s) 1) (committed_word_count s) (committed_data_len s)
    (committed_first_timestamp_ns s) (committed_last_timestamp_ns s) [] new.

(** [crates/signal_derived/src/derived_word_store/store.rs:121-128] StoreShared::mark_failed *)
Definition mark_failed (s : LiveState) : LiveState :=
  match status s with
  | Live | Finished => end_state Failed s
  | Cancelled | Failed => s
  end.

(** [crates/signal_derived/src/derived_word_store/store.rs:1293-1296] IndexedAnnotationWriter::fail *)
Definition fail (w : IndexedAnnotationWriter) : IndexedAnnotationWriter := set_terminal (with_state mark_failed w).

(** [if let Err(error) = &result { self.fail(error); }] *)
Definition failing {A} (m : M A) : M A := fun w =>
  match m w with
  | Some (Err e, w) => Some (Err e, fail w)
  | r => r
  end.

(** ** Operations *)

(** [crates/signal_derived/src/derived_word_store/store.rs:933-942] IndexedAnnotationWriter::append_batch *)
Definition append_batch (ws : list Word) (elapsed : bool) : M unit :=
  ensure_live ;; failing (append_batch_inner ws ;; publish_appended_prefix elapsed).

(** [crates/signal_derived/src/derived_word_store/store.rs:1021-1024] IndexedAnnotationWriter::append_batches_inner (batches) *)
Fixpoint append_each (batches : list (list Word)) : M unit :=
  match batches with
  | [] => ret tt
  | batch :: batches => append_batch_inner batch ;; append_each batches
  end.

(** [crates/signal_derived/src/derived_word_store/store.rs:1310-1317] IndexedAnnotationWriter::append_batches *)
Definition append_batches (batches : list (list Word)) (elapsed : bool) : M unit :=
  ensure_live ;; failing (append_each batches ;; publish_appended_prefix elapsed).

(** [crates/signal_derived/src/derived_word_store/store.rs:945-950] IndexedAnnotationWriter::publish_hot_tail *)
Definition publish_hot_tail : M unit :=
  ensure_live ;; flush_dispatched_blocks ;; modify publish_hot_tail_inner.

(** The flags of a finished persistent store. *)
Definition keep_artifacts (w : IndexedAnnotationWriter) : IndexedAnnotationWriter :=
  with_shared (fun s => mkShared (state s) (pending_blocks s) (published s) false true) w.

(** Finishing leaves the hot tail as it is: it is empty, or all its blocks would be committed.
    [crates/signal_derived/src/derived_word_store/store.rs:1028-1056] IndexedAnnotationWriter::finish_inner *)
Definition finish_inner : M unit :=
  dispatch_current_block ;;
  flush_dispatched_blocks ;;
  publish_active_segment ;;
  (if persistence then
     fun w => if publish_index (state (shared w)) then Some (Ok tt, keep_artifacts w) else Some (Err Persistent, w)
   else ret tt) ;;
  modify (fun w => set_terminal (with_state (fun s => mkLive (directory s) (presence s) (add64 (generation s) 1)
    (committed_word_count s) (committed_data_len s) (committed_first_timestamp_ns s) (committed_last_timestamp_ns s)
    (hot_tail s) Finished) w)).

(** [crates/signal_derived/src/derived_word_store/store.rs:953-960] IndexedAnnotationWriter::finish *)
Definition finish : M unit := ensure_live ;; failing finish_inner.

(** [crates/signal_derived/src/derived_word_store/store.rs:964-975] IndexedAnnotationWriter::cancel *)
Definition cancel : M unit :=
  ensure_live ;;
  modify (fun w => set_terminal (with_state (end_state Cancelled)
    (discard_active_segment (with_tail_words 0 (with_builder (clear (builder w)) w))))).

(** [crates/signal_derived/src/derived_word_store/store.rs:1325-1336] IndexedAnnotationWriter::drop *)
Definition drop_writer (w : IndexedAnnotationWriter) : IndexedAnnotationWriter :=
  if terminal w then w
  else
    with_state (fun s => match status s with Live => end_state Cancelled s | _ => s end) (discard_active_segment w).

(** ** Reading *)

(** [crates/signal_derived/src/derived_word_store/store.rs:302-330] IndexedAnnotationStore::read_entry_bytes *)
Definition read_entry_bytes (s : StoreShared) (entry : BlockDirectoryEntry) : result StoreError (list Z) :=
  match pending_blocks s !! entry_sequence entry with
  | Some bytes => Ok bytes
  | None =>
      if repository_accepts (ReadSegment (entry_segment_sequence entry)) then
        match published s !! entry_segment_sequence entry with
        | None => Err Persistent
        | Some content =>
            match checked_add64 (entry_segment_offset entry) (entry_block_len entry) with
            | None => Err (DirectoryMismatch (entry_sequence entry))
            | Some end_ =>
                if zlen content <? end_ then Err (DirectoryMismatch (entry_sequence entry))
                else
                  match slice content (entry_segment_offset entry) end_ with
                  | Some bytes => Ok bytes
                  | None => Err Repository
                  end
            end
        end
      else Err Repository
  end.

(** [crates/signal_derived/src/derived_word_store/store.rs:678-693] validate_directory_header *)
Definition validate_directory_header (header : WordBlockHeader) (entry : BlockDirectoryEntry) : result StoreError unit :=
  if negb (sequence header =? entry_sequence entry)
    || negb (first_timestamp_ns header =? entry_first_timestamp_ns entry)
    || negb (WordFormat.last_timestamp_ns header =? entry_last_timestamp_ns entry)
    || negb (block_len header =? entry_block_len entry)
    || negb (word_count header =? entry_word_count entry)
    || negb (value_bytes header =? entry_value_bytes entry)
    || negb (as_u8 (flags header) =? entry_flags entry)
  then Err (DirectoryMismatch (entry_sequence entry)) else Ok tt.

(** A block that is not in the cache.
    [crates/signal_derived/src/derived_word_store/store.rs:292-299] IndexedAnnotationStore::read_cached_entry (decode) *)
Definition read_entry (s : StoreShared) (entry : BlockDirectoryEntry) : result StoreError DecodedWordBlock :=
  let? bytes := read_entry_bytes s entry in
  let? decoded := (match decode_word_block bytes with Ok d => Ok d | Err e => Err (Codec e) end) in
  let? _ := validate_directory_header (decoded_header decoded) entry in
  Ok decoded.
End Writer.

(** A writer of a new store.
    [crates/signal_derived/src/derived_word_store/store.rs:826-911] IndexedAnnotationWriter::create *)
Definition writer_new (c : BlockCodecConfig) (hot_tail_publish_words : Z) (workers : Z) (schedule : list nat)
  : result StoreError IndexedAnnotationWriter :=
  if hot_tail_publish_words =? 0
  then Err (Codec (InvalidConfiguration "hot_tail_publish_words must be greater than zero"))
  else
    let? builder := (match WordBlockBuilder_new c with Ok b => Ok b | Err e => Err (Codec e) end) in
    Ok (mkWriter
      (mkShared (mkLive [] WordPresenceIndex_new 0 0 0 None None [] Live) ∅ ∅ true false)
      builder (mkPipeline [] schedule ∅ 0 0 0) (Z.to_nat (block_encoder_count workers)) 0 None 0 false None 0
      TARGET_SEGMENT_BYTES).

(** ** Reading for queries *)

Section Query.
Context (repository_accepts : RepositoryOp -> bool) (decoded_block_bytes : DecodedWordBlock -> Z).
Context (store : StoreShared) (store_id : Z).

(** A block that was read is cached; [None] is an eviction that does not end.
    [crates/signal_derived/src/derived_word_store/store.rs:284-300] IndexedAnnotationStore::read_cached_entry *)
Definition read_cached_entry (entry : BlockDirectoryEntry) (cache : DecodedBlockCache DecodedWordBlock)
  : option (result StoreError DecodedWordBlock * DecodedBlockCache DecodedWordBlock) :=
  match cache_get (store_id, entry_sequence entry) cache with
  | (Some block, cache) => Some (Ok block, cache)
  | (None, cache) =>
      match read_entry repository_accepts store entry with
      | Err e => Some (Err e, cache)
      | Ok decoded =>
          cache ← cache_insert decoded_block_bytes (store_id, sequence (decoded_header decoded)) decoded cache;
          Some (Ok decoded, cache)
      end
  end.

(** The words of a block for a query, with the flag that none are missing.
    [crates/signal_derived/src/derived_word_store/store.rs:332-360] IndexedAnnotationStore::query_entry_words *)
Definition query_entry_words (entry : BlockDirectoryEntry) (start_ns end_ns max_context_words : Z)
    (cache : DecodedBlockCache DecodedWordBlock)
  : option (result StoreError (list Word * bool) * DecodedBlockCache DecodedWordBlock) :=
  match cache_get (store_id, entry_sequence entry) cache with
  | (Some block, cache) => Some (Ok (decoded_words block, true), cache)
  | (None, cache) =>
      if negb (Z.land (entry_flags entry) (as_u8 BLOCK_FLAG_HAS_DURATIONS) =? 0)
        || (start_ns <=? entry_first_timestamp_ns entry) && (entry_last_timestamp_ns entry <=? end_ns)
      then
        '(r, cache) ← read_cached_entry entry cache;
        Some (match r with Ok block => Ok (decoded_words block, true) | Err e => Err e end, cache)
      else
        Some (let? bytes := read_entry_bytes repository_accepts store entry in
              let? range := (match decode_word_block_range bytes start_ns end_ns max_context_words with
                             | Ok r => Ok r | Err e => Err (Codec e) end) in
              let? _ := validate_directory_header (range_header range) entry in
              Ok (range_words range, WordDecode.complete range), cache)
  end.
End Query.

(** ** Reasoning about the writer's computations: what holds of the writer when a computation
    returns, and when it fails; a computation that waits for ever satisfies nothing. *)

Abbreviation Writer := IndexedAnnotationWriter.

(** The computation returns: with a result and a writer in [Q], or with an error and a writer in [E]. *)
Definition runs {A} (m : M A) (w : Writer) (Q : A -> Writer -> Prop) (E : Writer -> Prop) : Prop :=
  match m w with
  | Some (Ok x, w') => Q x w'
  | Some (Err _, w') => E w'
  | None => False
  end.

Section Rules.
Context {A B : Type}.
Implicit Types (m : M A) (k : A -> M B) (w : Writer) (E : Writer -> Prop).

Lemma runs_bind m k w Q E :
  runs m w (fun x w' => runs (k x) w' Q E) E -> runs (bind m k) w Q E.
Proof. unfold runs, bind. by destruct (m w) as [[[x|e] w']|]. Qed.

Lemma runs_mono m w (Q Q' : A -> Writer -> Prop) E E' :
  runs m w Q E -> (forall x w', Q x w' -> Q' x w') -> (forall w', E w' -> E' w') -> runs m w Q' E'.
Proof. unfold runs. destruct (m w) as [[[x|e] w']|]; auto. Qed.

Lemma runs_ret (x : A) w (Q : A -> Writer -> Prop) E : Q x w -> runs (ret x) w Q E.
Proof. done. Qed.

Lemma runs_throw e w (Q : A -> Writer -> Prop) E : E w -> runs (throw e) w Q E.
Proof. done. Qed.

(** A sequence whose first part is known to keep [Q'] on success. *)
Lemma runs_seq m k w (Q' : A -> Writer -> Prop) Q E :
  runs m w Q' E -> (forall x w', Q' x w' -> runs (k x) w' Q E) -> runs (bind m k) w Q E.
Proof. intros Hm Hk. apply runs_bind. by eapply runs_mono; [exact Hm|exact Hk|]. Qed.

Lemma runs_eval m w x w' (Q : A -> Writer -> Prop) E : m w = Some (Ok x, w') -> Q x w' -> runs m w Q E.
Proof. unfold runs. by intros ->. Qed.

Lemma runs_error m w e w' (Q : A -> Writer -> Prop) E : m w = Some (Err e, w') -> E w' -> runs m w Q E.
Proof. unfold runs. by intros ->. Qed.

(** A computation that returns and has no reason to fail has a result. *)
Lemma runs_result m w Q E : runs m w Q E -> (forall w', ~ E w') -> exists x w', m w = Some (Ok x, w') /\ Q x w'.
Proof.
  unfold runs. intros H HE. destruct (m w) as [[[x|e] w']|]; [by exists x, w'|by destruct (HE w')|done].
Qed.

Lemma runs_returns m w Q E : runs m w Q E -> exists r w', m w = Some (r, w').
Proof. unfold runs. intros H. destruct (m w) as [[r w']|]; [by exists r, w'|done]. Qed.
End Rules.

Lemma runs_modify f w (Q : unit -> Writer -> Prop) E : Q tt (f w) -> runs (modify f) w Q E.
Proof. done. Qed.

Lemma runs_ask repository_accepts op w (Q : unit -> Writer -> Prop) E :
  (repository_accepts op = true -> Q tt w) -> (repository_accepts op = false -> E w) ->
  runs (ask repository_accepts op) w Q E.
Proof. unfold ask. destruct (repository_accepts op); intros HQ HE; [by apply HQ|by apply HE]. Qed.

Ltac step :=
  match goal with
  | |- runs (bind _ _) _ _ _ => apply runs_bind; cbv beta
  | |- runs (modify _) _ _ _ => apply runs_modify; cbv beta
  | |- runs (ret _) _ _ _ => apply runs_ret
  | |- runs (throw _) _ _ _ => apply runs_throw
  | |- runs (ask _ _) _ _ _ => apply runs_ask; [intros _|intros ?Hrefused]
  end.

(** Names the conditions of a goal, and folds a computation that was unfolded at a writer. *)
Ltac name_runs :=
  match goal with |- runs _ _ ?q ?e => let Q := fresh "Q" in let E := fresh "E" in set (Q := q); set (E := e) end.

Ltac into_runs w :=
  match goal with
  | Q := _ : _ -> Writer -> Prop, E := _ : Writer -> Prop |- match ?m w with _ => _ end => change (runs m w Q E)
  end.
