(* ===== verification/WordStoreBlocks.v ===== *)
(** Committed blocks: what the encoder's header says of the words, where the bytes of a block are
    kept, and that committing a block keeps every committed block readable. *)

From stdpp Require Import gmap.
From S2P Require Import Prelude Events Vlq Crc32c WordFormat WordEncode WordDecode WordRecords.
From S2P Require Import WordGroups WordGrouped WordEmit WordBlock WordCodec WordBuilder.
From S2P Require Import WordRoundTrip WordPresence WordPresenceIndex AnnotationQuery WordStore.

#[local] Open Scope Z_scope.

(** ** Encoded blocks *)

(** The header of an encoded block. *)
Lemma encode_header b block_sequence m bytes : encode b block_sequence = Ok (m, bytes) ->
  words b <> [] /\ sequence (header m) = block_sequence /\
  first_timestamp_ns (header m) = first_time (words b) /\
  WordFormat.last_timestamp_ns (header m) = last_time (words b) /\
  word_count (header m) = as_u32 (zlen (words b)) /\ block_len (header m) <= u32_max.
Proof.
  unfold encode. intros H. assert (Hne : words b <> []) by (intros Hw; by rewrite Hw in H).
  split; [done|]. rewrite encode_validated_eq in H by done.
  destruct (emit_block _ _ _ _ _) as [[e grouped]|]; [|done].
  destruct (block_header _ _ _ _ _) as [h|] eqn:Hh; [|done].
  destruct (write_to h _); [|done]. cbn [ok_or] in H.
  destruct (block_checksum _ _); [|done]. cbn [ok_or] in H.
  destruct (write_to _ _); [|done]. cbn [ok_or] in H. injection H as <- _.
  unfold block_header, to_u32 in Hh.
  repeat match type of Hh with
  | context [if ?a <=? ?b then _ else _] => destruct (Z.leb_spec a b); [|discriminate Hh]
  end.
  injection Hh as <-. cbn. split_and!; try done.
Qed.

(** ** Bytes at an offset *)

Definition at_offset (content : list Z) (offset : Z) (bytes : list Z) : Prop :=
  slice content offset (offset + zlen bytes) = Some bytes.

Lemma at_offset_app content offset bytes more :
  at_offset content offset bytes -> at_offset (content ++ more) offset bytes.
Proof.
  unfold at_offset, slice. rewrite zlen_app. pose proof (zlen_nonneg more).
  destruct ((0 <=? offset) && (offset <=? offset + zlen bytes) && (offset + zlen bytes <=? zlen content)) eqn:Hb; [|done].
  apply andb_true_iff in Hb as [Hb1 Hb2]. rewrite Hb1. replace (offset + zlen bytes <=? zlen content + zlen more) with true by lia.
  cbn [andb]. intros [= Heq]. f_equal. rewrite <- Heq at 2. apply andb_true_iff in Hb1 as [Hb0 Hb1].
  unfold zlen in *. rewrite drop_app_le, take_app_le by (rewrite ?length_drop; lia). done.
Qed.

Lemma at_offset_end content bytes : at_offset (content ++ bytes) (zlen content) bytes.
Proof. unfold at_offset. rewrite <- (app_nil_r bytes) at 1. by apply slice_segment. Qed.

Lemma write_bytes_end content bytes : write_bytes content (zlen content) bytes = content ++ bytes.
Proof.
  unfold write_bytes, zlen. rewrite Nat2Z.id, take_ge by lia. rewrite drop_ge by lia. by rewrite app_nil_r.
Qed.

(** ** Where committed blocks are *)

Section Committed.
Context (c : BlockCodecConfig).
Implicit Types (w : Writer) (s : StoreShared) (bs : list (list Word)).

(** The bytes and metadata of the words as the block of a number. *)
Definition encodes (i : nat) (ws : list Word) (m : EncodedBlockMetadata) (bytes : list Z) : Prop :=
  exists b, builder_ok b /\ config b = c /\ words b = ws /\ encode b (Z.of_nat i) = Ok (m, bytes).

Lemma encodes_facts i ws m bytes : encodes i ws m bytes -> u64 (Z.of_nat i) ->
  ws <> [] /\ decode_word_block bytes = Ok (mkDecoded (header m) (restarts m) ws) /\
  sequence (header m) = Z.of_nat i /\ first_timestamp_ns (header m) = first_time ws /\
  WordFormat.last_timestamp_ns (header m) = last_time ws /\ word_count (header m) = zlen ws /\
  block_len (header m) = zlen bytes /\ 0 < zlen bytes <= u32_max /\ bytes_ok bytes.
Proof.
  intros (b & Hb & Hc & <- & He) Hi. destruct (encode_header b _ m bytes He) as (Hne & H1 & H2 & H3 & H4 & H5).
  destruct (encode_spec b (Z.of_nat i) Hb Hne Hi) as [(m' & bytes' & He' & Hdec & _ & H6 & H7 & H8)|[[x He'] _]].
  2: { by rewrite He in He'. }
  rewrite He in He'. injection He' as <- <-. destruct Hb as ((_ & Hm & _) & _ & _ & Hlen). pose proof (zlen_nonneg (words b)).
  rewrite H4, as_u32_small by lia. split_and!; try done; lia.
Qed.

(** The entry of the directory for a block. *)
Definition describes (entry : BlockDirectoryEntry) (m : EncodedBlockMetadata) : Prop :=
  entry = entry_of (header m) (entry_data_offset entry) (entry_segment_sequence entry) (entry_segment_offset entry) /\
  entry_segment_offset entry + block_len (header m) <= u64_max.

(** The bytes of a block can be read: they are kept aside or lie in a published segment. *)
Definition available s (i : nat) (entry : BlockDirectoryEntry) (bytes : list Z) : Prop :=
  pending_blocks s !! Z.of_nat i = Some bytes \/
  pending_blocks s !! Z.of_nat i = None /\ exists content, published s !! entry_segment_sequence entry = Some content /\
    at_offset content (entry_segment_offset entry) bytes.

(** The directory has the blocks, and the bytes of each can be read. *)
Definition readable s bs : Prop :=
  length (directory (state s)) = length bs /\
  forall i entry ws, directory (state s) !! i = Some entry -> bs !! i = Some ws ->
    exists m bytes, encodes i ws m bytes /\ describes entry m /\ available s i entry bytes.

(** The blocks of the active segment are kept aside, those of published ones are not. *)
Definition placed w (i : nat) (entry : BlockDirectoryEntry) (bytes : list Z) : Prop :=
  (exists a, active_segment w = Some a /\ entry_segment_sequence entry = segment_number a /\
    Z.of_nat i ∈ block_sequences a /\ pending_blocks (shared w) !! Z.of_nat i = Some bytes /\
    at_offset (segment_bytes a) (entry_segment_offset entry) bytes) \/
  (pending_blocks (shared w) !! Z.of_nat i = None /\ exists content,
    published (shared w) !! entry_segment_sequence entry = Some content /\
    at_offset content (entry_segment_offset entry) bytes /\
    entry_segment_sequence entry < match active_segment w with Some a => segment_number a | None => next_segment_sequence w end).

Record segments w bs : Prop := mkSegments {
  segments_directory : length (directory (state (shared w))) = length bs;
  segments_blocks i entry ws : directory (state (shared w)) !! i = Some entry -> bs !! i = Some ws ->
    exists m bytes, encodes i ws m bytes /\ describes entry m /\ placed w i entry bytes;
  segments_active a : active_segment w = Some a ->
    segment_number a + 1 = next_segment_sequence w /\ segment_length a = zlen (segment_bytes a);
  segments_next : 0 <= next_segment_sequence w
}.

Lemma segments_readable w bs : segments w bs -> readable (shared w) bs.
Proof.
  intros [Hlen Hblocks _ _]. split; [done|]. intros i entry ws He Hw.
  destruct (Hblocks i entry ws He Hw) as (m & bytes & Hm & Hd & [(a & _ & _ & _ & Hp & _)|(Hp & content & Hc & Ho & _)]);
    exists m, bytes; (split; [done|]; split; [done|]); [by left|right]. split; [done|]. by exists content.
Qed.

(** What the work on segments leaves alone. *)
Definition core w := (builder w, pipeline w, max_outstanding_blocks w, next_data_offset w, last_timestamp_ns w,
  words_since_tail_publish w, terminal w, state (shared w), target_segment_bytes w).

Lemma core_state w w' : core w' = core w -> state (shared w') = state (shared w).
Proof. by injection 1. Qed.

Lemma forget_none sequences (pending : gmap Z (list Z)) k :
  pending !! k = None -> fold_left (fun p sequence => delete sequence p) sequences pending !! k = None.
Proof.
  revert pending. induction sequences as [|x sequences IH]; intros pending Hk; [done|]. apply IH.
  by apply lookup_delete_None; right.
Qed.

Lemma forget_in sequences (pending : gmap Z (list Z)) k :
  k ∈ sequences -> fold_left (fun p sequence => delete sequence p) sequences pending !! k = None.
Proof.
  revert pending. induction sequences as [|x sequences IH]; intros pending Hk; [by apply not_elem_of_nil in Hk|]. cbn [fold_left].
  apply elem_of_cons in Hk as [->|Hk]; [|by apply IH]. apply forget_none. by apply lookup_delete_None; left.
Qed.

(** ** Segments *)

Context (repository_accepts : RepositoryOp -> bool).

Definition refused : Prop := exists op, repository_accepts op = false.

(** What a refused request leaves: the blocks can still be read. *)
Definition damaged w bs w' : Prop :=
  refused /\ readable (shared w') bs /\ state (shared w') = state (shared w).

(** Blocks stay readable while nothing is done but to forget the active segment. *)
Lemma readable_without_segment w bs : segments w bs -> readable (shared (with_segment None w)) bs.
Proof. apply segments_readable. Qed.

Lemma publish_placed w a i entry bytes : active_segment w = Some a -> segment_length a = zlen (segment_bytes a) ->
  segment_number a + 1 = next_segment_sequence w -> placed w i entry bytes ->
  placed (forget_blocks (block_sequences a) (with_shared (fun s => mkShared (state s) (pending_blocks s)
    (<[segment_number a := take (Z.to_nat (segment_length a)) (segment_bytes a)]> (published s))
    (remove_on_drop s) (persistent_cache s)) (with_segment None w))) i entry bytes.
Proof.
  intros Ha Hlen Hnext Hp. right. cbn [shared forget_blocks with_shared with_segment pending_blocks published active_segment next_segment_sequence].
  rewrite Hlen. unfold zlen. rewrite Nat2Z.id, firstn_all.
  destruct Hp as [(a' & Ha' & Hseg & Hin & _ & Ho)|(Hnone & content & Hc & Ho & Hlt)].
  - rewrite Ha in Ha'. injection Ha' as <-. split; [by apply forget_in|]. exists (segment_bytes a).
    rewrite Hseg, lookup_insert_eq. split; [done|]. split; [done|]. lia.
  - rewrite Ha in Hlt. split; [by apply forget_none|]. exists content. rewrite lookup_insert_ne by lia.
    split; [done|]. split; [done|]. lia.
Qed.

Lemma publish_segments w bs : segments w bs ->
  runs (publish_active_segment repository_accepts) w
    (fun _ w' => segments w' bs /\ active_segment w' = None /\ core w' = core w /\
       next_segment_sequence w' = next_segment_sequence w)
    (damaged w bs).
Proof.
  intros Hs. destruct (active_segment w) as [a|] eqn:Ha.
  2: { by apply (runs_eval _ _ tt w); [unfold publish_active_segment; rewrite Ha|]. }
  destruct Hs as [Hlen Hblocks Hactive Hnext] eqn:Hseg. clear Hseg. destruct (Hactive a Ha) as [Hnum Hbytes].
  name_runs. unfold publish_active_segment, runs. rewrite Ha. into_runs w.
  step. step. step. step; [|split; [by eexists|split; [by apply readable_without_segment|done]]].
  step. step; [|split; [by eexists|split; [by apply readable_without_segment|done]]].
  step. step. step. split; [|done]. split.
  - done.
  - intros i entry ws He Hw. destruct (Hblocks i entry ws He Hw) as (m & bytes & Hm & Hd & Hp).
    exists m, bytes. split; [done|]. split; [done|]. by apply publish_placed.
  - by intros a'.
  - done.
Qed.

(** A segment with room for a block. *)
Definition roomy (a : ActiveSegment) (target len : Z) : Prop :=
  segment_length a = 0 \/ saturating_add64 (segment_length a) len <= target.

Lemma open_segment w bs : segments w bs -> active_segment w = None -> next_segment_sequence w < u64_max ->
  segments (with_next_segment (saturating_add64 (next_segment_sequence w) 1)
    (with_segment (Some (mkSegment (next_segment_sequence w) [] 0 [])) w)) bs.
Proof.
  intros [Hlen Hblocks Hactive Hnext] Ha Hmax. split.
  - done.
  - intros i entry ws He Hw. destruct (Hblocks i entry ws He Hw) as (m & bytes & Hm & Hd & Hp).
    exists m, bytes. split; [done|]. split; [done|].
    destruct Hp as [(a & Ha' & _)|(Hnone & content & Hc & Ho & Hlt)]; [by rewrite Ha in Ha'|right].
    split; [done|]. exists content. rewrite Ha in Hlt. done.
  - intros a [= <-]. cbn. rewrite saturating_add64_small by lia. done.
  - cbn. rewrite saturating_add64_small by lia. lia.
Qed.

Lemma prepare_segments w bs len : segments w bs -> next_segment_sequence w < u64_max ->
  runs (prepare_active_segment repository_accepts len) w
    (fun _ w' => segments w' bs /\ core w' = core w /\
       next_segment_sequence w' <= next_segment_sequence w + 1 /\
       exists a, active_segment w' = Some a /\ roomy a (target_segment_bytes w) len)
    (damaged w bs).
Proof.
  intros Hs Hmax. unfold prepare_active_segment. name_runs.
  set (full := match active_segment w with
    | Some a => (0 <? segment_length a) && (target_segment_bytes w <? saturating_add64 (segment_length a) len)
    | None => false
    end).
  change (runs (bind (if full then publish_active_segment repository_accepts else ret tt)
    (fun _ w1 => match active_segment w1 with
      | Some _ => Some (Ok tt, w1)
      | None =>
          (bind (ask repository_accepts (BeginWrite (next_segment_sequence w1))) (fun _ =>
           bind (modify (with_segment (Some (mkSegment (next_segment_sequence w1) [] 0 [])))) (fun _ =>
           modify (with_next_segment (saturating_add64 (next_segment_sequence w1) 1))))) w1
      end)) w Q E).
  apply (runs_seq _ _ _ (fun _ w1 => segments w1 bs /\ core w1 = core w /\
    next_segment_sequence w1 = next_segment_sequence w /\
    match active_segment w1 with Some a => roomy a (target_segment_bytes w) len | None => True end)).
  - destruct full eqn:Hfull.
    + eapply runs_mono; [by apply publish_segments| |done]. intros _ w' (H1 & H2 & H3 & H4). by rewrite H2.
    + apply runs_ret. split; [done|]. split; [done|]. split; [done|]. unfold full in Hfull.
      destruct (active_segment w) as [a|] eqn:Ha; [|done].
      destruct (segments_active _ _ Hs a Ha) as [_ Hlen]. pose proof (zlen_nonneg (segment_bytes a)).
      apply andb_false_iff in Hfull as [H0|H0]; [left|right]; lia.
  - intros _ w1 (Hs1 & Hcore & Hnext & Hroom). destruct (active_segment w1) as [a|] eqn:Ha.
    { apply (runs_eval _ _ tt w1); [by rewrite Ha|]. split; [done|]. split; [done|]. split; [lia|]. by exists a. }
    unfold runs. rewrite Ha. into_runs w1.
    step. step. 2: { split; [by eexists|]. split; [by apply segments_readable|by apply core_state]. }
    step. step. step. split; [apply open_segment; (done || lia)|]. split; [done|]. split.
    + cbn. pose proof (segments_next _ _ Hs1). rewrite saturating_add64_small by lia. lia.
    + eexists. split; [done|]. by left.
Qed.

(** ** Committing a block *)

(** A block of the writer: not empty, and small enough for the format. *)
Definition block_ready (b : WordBlockBuilder) : Prop :=
  builder_ok b /\ config b = c /\ words b <> [] /\ 72 + payload_size (restart_interval c) (words b) + 7 <= u32_max.

Lemma prepare_ready (i : nat) b : block_ready b -> u64 (Z.of_nat i) ->
  exists m bytes, encodes i (words b) m bytes /\
    prepare_encoded_block (Z.of_nat i) b = mkPrepared (clear b) bytes
      (Ok (m, word_presence_summaries (Z.of_nat i) (words b) (sized_durations (sizing b) =? 0))).
Proof.
  intros (Hb & Hc & Hne & Hsize) Hi.
  destruct (encode_spec b (Z.of_nat i) Hb Hne Hi) as [(m & bytes & He & _)|[_ Hbig]]; [|rewrite Hc in Hbig; lia].
  exists m, bytes. split; [by exists b|]. unfold prepare_encoded_block. by rewrite He.
Qed.

Lemma roomy_fits a target len : roomy a target len -> 0 <= segment_length a -> target < u64_max -> 0 < len <= u32_max ->
  checked_add64 (segment_length a) len = Some (segment_length a + len).
Proof.
  intros H H0 Ht Hlen. unfold checked_add64. assert (segment_length a + len <= u64_max).
  { destruct H as [->|H]; [ints|]. unfold saturating_add64 in H. lia. }
  by rewrite (proj2 (Z.leb_le _ _)).
Qed.

(** The writer after a block is written behind the active segment. *)
Definition written w a m bytes summaries :=
  let entry := entry_of (header m) (next_data_offset w) (segment_number a) (segment_length a) in
  next_block (with_state (commit_entry entry summaries)
    (with_shared (fun s => mkShared (state s) (<[sequence (header m) := bytes]> (pending_blocks s))
       (published s) (remove_on_drop s) (persistent_cache s))
    (with_segment (Some (mkSegment (segment_number a) (write_bytes (segment_bytes a) (segment_length a) bytes)
       (segment_length a + zlen bytes) (block_sequences a ++ [sequence (header m)]))) w))) (block_len (header m)).

Lemma written_segments w bs a m bytes ws summaries : segments w bs -> active_segment w = Some a ->
  encodes (length bs) ws m bytes -> u64 (Z.of_nat (length bs)) -> segment_length a + block_len (header m) <= u64_max ->
  segments (written w a m bytes summaries) (bs ++ [ws]).
Proof.
  intros [Hlen Hblocks Hactive Hnext] Ha Hm Hi Hend. destruct (encodes_facts _ _ _ _ Hm Hi) as (_ & _ & Hseq & _).
  destruct (Hactive a Ha) as [Hnum Hbytes]. unfold written. split.
  - cbn. rewrite !length_app, Hlen. done.
  - cbn [written next_block with_data_offset with_pipeline with_state with_shared with_segment shared state directory commit_entry].
    intros i entry ws' He Hw. apply lookup_app_Some in He as [He|[Hge He]].
    + pose proof (lookup_lt_Some _ _ _ He) as Hi'. rewrite lookup_app_l in Hw by lia.
      destruct (Hblocks i entry ws' He Hw) as (m' & bytes' & Hm' & Hd & Hp). exists m', bytes'. split; [done|]. split; [done|].
      rewrite Hseq, Hbytes, write_bytes_end. destruct Hp as [(a' & Ha' & H1 & H2 & H3 & H4)|(Hnone & content & Hct & Ho & Hlt)].
      * rewrite Ha in Ha'. injection Ha' as <-. left. eexists. split; [done|]. split; [done|].
        split; [cbn; apply elem_of_app; by left|]. split; [cbn; by rewrite lookup_insert_ne by lia|]. by apply at_offset_app.
      * right. rewrite Ha in Hlt. split; [cbn; by rewrite lookup_insert_ne by lia|]. by exists content.
    + rewrite Hlen in *. rewrite lookup_app_r in Hw by lia. replace i with (length bs) in *.
      2: { apply lookup_lt_Some in He. cbn in He. lia. }
      rewrite Nat.sub_diag in *. injection He as <-. injection Hw as <-. exists m, bytes. split; [done|]. split; [by split|].
      rewrite Hbytes, write_bytes_end, Hseq. left. eexists. split; [done|]. split; [done|].
      split; [cbn; apply elem_of_app; right; by left|]. split; [cbn; by rewrite lookup_insert_eq|]. apply at_offset_end.
  - intros a' [= <-]. cbn. split; [done|]. rewrite Hbytes, write_bytes_end, zlen_app. done.
  - done.
Qed.

Lemma commit_block w bs b : segments w bs -> block_ready b ->
  next_segment_sequence w <= Z.of_nat (length bs) < u64_max -> target_segment_bytes w < u64_max ->
  runs (commit_prepared_block repository_accepts (prepare_encoded_block (Z.of_nat (length bs)) b)) w
    (fun _ w' => segments w' (bs ++ [words b]) /\ next_segment_sequence w' <= Z.of_nat (length bs) + 1 /\
       exists m bytes segment offset, encodes (length bs) (words b) m bytes /\
         let entry := entry_of (header m) (next_data_offset w) segment offset in
         core w' = core (next_block (with_state (commit_entry entry
           (word_presence_summaries (Z.of_nat (length bs)) (words b) (sized_durations (sizing b) =? 0))) w) (block_len (header m))))
    (damaged w bs).
Proof.
  intros Hs Hb Hnext Htarget. assert (Hi : u64 (Z.of_nat (length bs))) by ints.
  destruct (prepare_ready (length bs) b Hb Hi) as (m & bytes & Hm & ->). unfold commit_prepared_block. cbn [prepared_result prepared_encoded].
  destruct (encodes_facts _ _ _ _ Hm Hi) as (_ & _ & Hseq & _ & _ & _ & Hblen & Hzlen & _). name_runs.
  eapply runs_seq; [apply prepare_segments; [done|lia]|].
  intros _ w1 (Hs1 & Hcore & Hn1 & a & Ha & Hroom). destruct (segments_active _ _ Hs1 a Ha) as [_ Hla].
  unfold runs. rewrite Ha. into_runs w1.
  step. step. 2: { split; [by eexists|]. split; [by apply segments_readable|by apply core_state]. }
  pose proof (roomy_fits a _ _ Hroom ltac:(rewrite Hla; auto with ints) Htarget Hzlen) as Hfits. rewrite Hfits.
  unfold checked_add64 in Hfits. destruct (Z.leb_spec (segment_length a + zlen bytes) u64_max) as [Hend|]; [|done]. step. step. step. step. step. step. step.
  unfold Q. match goal with |- segments ?w' _ /\ _ => change w' with
    (written w1 a m bytes (word_presence_summaries (Z.of_nat (length bs)) (words b) (sized_durations (sizing b) =? 0))) end.
  split; [apply written_segments; try done; lia|]. split; [cbn; lia|].
  exists m, bytes, (segment_number a), (segment_length a). split; [done|]. cbv zeta. unfold core in Hcore. injection Hcore as Hc1 Hc2 Hc3 Hc4 Hc5 Hc6 Hc7 Hc8 Hc9.
  unfold core. cbn. by rewrite Hc1, Hc2, Hc3, Hc4, Hc5, Hc6, Hc7, Hc8, Hc9.
Qed.
End Committed.
