(* ===== verification/WordStorePipeline.v ===== *)
(** Blocks on their way: the tasks of the executor and the completed blocks together are the
    blocks dispatched and not yet committed, whatever order they are completed in. *)

From stdpp Require Import gmap.
From S2P Require Import Prelude Events WordFormat WordEncode WordDecode WordStore.

#[local] Open Scope Z_scope.

(** ** Tasks *)

(** Blocks with the numbers they are dispatched under. *)
Fixpoint tasks (n : Z) (blocks : list WordBlockBuilder) : list (Z * WordBlockBuilder) :=
  match blocks with
  | [] => []
  | b :: blocks => (n, b) :: tasks (n + 1) blocks
  end.

Lemma tasks_snoc n blocks b : tasks n (blocks ++ [b]) = tasks n blocks ++ [(n + Z.of_nat (length blocks), b)].
Proof.
  revert n. induction blocks as [|b' blocks IH]; intros n; cbn [tasks app length].
  - by rewrite Z.add_0_r.
  - rewrite IH. by replace (n + 1 + Z.of_nat (length blocks)) with (n + Z.of_nat (S (length blocks))) by lia.
Qed.

Lemma tasks_length n blocks : length (tasks n blocks) = length blocks.
Proof. revert n. induction blocks as [|b blocks IH]; intros n; cbn; [done|]. by rewrite IH. Qed.

Lemma tasks_range n blocks t : t ∈ tasks n blocks -> n <= fst t < n + Z.of_nat (length blocks).
Proof.
  revert n. induction blocks as [|b blocks IH]; intros n; cbn [tasks length]; [by intros ?%not_elem_of_nil|].
  intros [->|H]%elem_of_cons; [cbn; lia|]. specialize (IH _ H). lia.
Qed.

Lemma tasks_NoDup n blocks : NoDup (map fst (tasks n blocks)).
Proof.
  revert n. induction blocks as [|b blocks IH]; intros n; cbn [tasks map]; constructor; [|apply IH].
  intros Hin. apply list_elem_of_In, in_map_iff in Hin as (t & Ht & Hin). apply list_elem_of_In, tasks_range in Hin.
  cbn [fst] in Ht. lia.
Qed.

Definition prepared_of (completed : list (Z * WordBlockBuilder)) : gmap Z PreparedBlock :=
  list_to_map (map (fun t => (fst t, prepare_encoded_block (fst t) (snd t))) completed).

Lemma prepared_keys completed :
  map fst (map (fun t : Z * WordBlockBuilder => (fst t, prepare_encoded_block (fst t) (snd t))) completed) = map fst completed.
Proof. by rewrite map_map. Qed.

Lemma prepared_none completed k : ~ k ∈ map fst completed -> prepared_of completed !! k = None.
Proof. intros H. apply not_elem_of_list_to_map_1. unfold fmap. by rewrite prepared_keys. Qed.

Lemma prepared_some completed k block : prepared_of completed !! k = Some block ->
  exists b, (k, b) ∈ completed /\ block = prepare_encoded_block k b.
Proof.
  intros H. apply elem_of_list_to_map_2, list_elem_of_In, in_map_iff in H as ((k' & b) & [= <- <-] & Hin).
  exists b. by rewrite list_elem_of_In.
Qed.

Lemma prepared_size completed : NoDup (map fst completed) -> size (prepared_of completed) = length completed.
Proof.
  intros H. unfold prepared_of. rewrite map_size_list_to_map by (unfold fmap; by rewrite prepared_keys). by rewrite length_map.
Qed.

Lemma prepared_perm completed completed' : NoDup (map fst completed) -> completed ≡ₚ completed' ->
  prepared_of completed = prepared_of completed'.
Proof.
  intros Hn Hp. apply list_to_map_proper; [unfold fmap; by rewrite prepared_keys|]. by apply Permutation_map.
Qed.

(** ** The state of the pipeline *)

Record pipe_ok (q : Pipeline) (n : nat) (blocks : list WordBlockBuilder) : Prop := mkPipeOk {
  pipe_next : next_sequence q = Z.of_nat n;
  pipe_dispatched : next_dispatch_sequence q = Z.of_nat n + Z.of_nat (length blocks);
  pipe_in_flight : in_flight_blocks q = length (running q);
  pipe_tasks : exists completed, running q ++ completed ≡ₚ tasks (Z.of_nat n) blocks /\
    prepared_blocks q = prepared_of completed
}.

Lemma perm_NoDup (l completed : list (Z * WordBlockBuilder)) n blocks : l ++ completed ≡ₚ tasks n blocks ->
  NoDup (map fst (l ++ completed)).
Proof. intros H. rewrite (Permutation_map fst H). apply tasks_NoDup. Qed.

Lemma perm_NoDup_completed (l completed : list (Z * WordBlockBuilder)) n blocks :
  l ++ completed ≡ₚ tasks n blocks -> NoDup (map fst completed).
Proof. intros H%perm_NoDup. rewrite map_app in H. by apply NoDup_app in H as (_ & _ & H). Qed.

(** Running and completed blocks are the dispatched ones. *)
Lemma pipe_outstanding q n blocks : pipe_ok q n blocks ->
  (in_flight_blocks q + size (prepared_blocks q))%nat = length blocks.
Proof.
  intros [_ _ -> (completed & Hp & ->)]. rewrite prepared_size by (by eapply perm_NoDup_completed).
  rewrite <- (tasks_length (Z.of_nat n)), <- (Permutation_length Hp). by rewrite length_app.
Qed.

(** The block to commit next has been completed or still runs. *)
Lemma pipe_head q n b blocks : pipe_ok q n (b :: blocks) ->
  prepared_blocks q !! next_sequence q = None -> running q <> [].
Proof.
  intros [Hn _ _ (completed & Hp & Hprep)] Hnone Hrun. rewrite Hrun in Hp. cbn [app] in Hp.
  rewrite Hn, Hprep in Hnone. apply (not_elem_of_list_to_map_2 (M := gmap Z)) in Hnone. apply Hnone. unfold fmap. rewrite prepared_keys.
  rewrite Hp. cbn. by left.
Qed.

Lemma pipe_empty q n : pipe_ok q n [] -> prepared_blocks q = ∅ /\ running q = [].
Proof.
  intros [_ _ _ (completed & Hp & ->)]. apply Permutation_sym, Permutation_nil in Hp. by apply app_eq_nil in Hp as [-> ->].
Qed.

(** The completed block with the next number is the first dispatched one. *)
Lemma pipe_take q n blocks block : pipe_ok q n blocks -> prepared_blocks q !! next_sequence q = Some block ->
  exists b rest, blocks = b :: rest /\ block = prepare_encoded_block (Z.of_nat n) b /\
    pipe_ok (mkPipeline (running q) (schedule q) (delete (next_sequence q) (prepared_blocks q)) (in_flight_blocks q)
      (next_dispatch_sequence q) (next_sequence q + 1)) (S n) rest.
Proof.
  intros [Hn Hd Hf (completed & Hp & Hprep)] Hb. rewrite Hn, Hprep in *. apply prepared_some in Hb as (b & Hin & ->).
  assert (Htask : (Z.of_nat n, b) ∈ tasks (Z.of_nat n) blocks) by (rewrite <- Hp; apply elem_of_app; by right).
  destruct blocks as [|b' rest]; [by apply not_elem_of_nil in Htask|]. cbn [tasks] in Htask.
  apply elem_of_cons in Htask as [[= ->]|Htask]; [|apply tasks_range in Htask; cbn [fst] in Htask; lia].
  exists b', rest. split; [done|]. split; [done|]. apply list_elem_of_split in Hin as (l1 & l2 & ->).
  split; cbn [next_sequence next_dispatch_sequence in_flight_blocks running prepared_blocks].
  - lia.
  - rewrite Hd. cbn [length]. lia.
  - done.
  - exists (l1 ++ l2). cbn [tasks] in Hp. assert (Hmid : running q ++ l1 ++ (Z.of_nat n, b') :: l2 ≡ₚ (Z.of_nat n, b') :: running q ++ l1 ++ l2).
    { rewrite !app_assoc. symmetry. apply Permutation_middle. }
    rewrite Hmid in Hp. apply Permutation_cons_inv in Hp. replace (Z.of_nat (S n)) with (Z.of_nat n + 1) by lia. split; [done|].
    assert (Hnd : NoDup (map fst (l1 ++ (Z.of_nat n, b') :: l2))).
    { eapply (perm_NoDup_completed (running q) _ (Z.of_nat n) (b' :: rest)). cbn [tasks]. rewrite Hmid. by constructor. }
    rewrite (prepared_perm _ ((Z.of_nat n, b') :: l1 ++ l2)) by (done || (symmetry; apply Permutation_middle)).
    unfold prepared_of at 1. cbn [map list_to_map fst snd]. apply delete_insert_id. apply prepared_none.
    rewrite <- Permutation_middle in Hnd. by apply NoDup_cons in Hnd as [Hnd _].
Qed.

(** A task taken from those that run. *)
Definition taken (t : Z * WordBlockBuilder) (q : Pipeline) : Pipeline :=
  mkPipeline (t :: running q) (schedule q) (prepared_blocks q) (in_flight_blocks q) (next_dispatch_sequence q) (next_sequence q).

Lemma pipe_perm q n blocks l : pipe_ok q n blocks -> l ≡ₚ running q ->
  pipe_ok (mkPipeline l (schedule q) (prepared_blocks q) (in_flight_blocks q) (next_dispatch_sequence q) (next_sequence q)) n blocks.
Proof.
  intros [Hn Hd Hf (completed & Hp & Hprep)] Hl. split; cbn; try done; [by rewrite (Permutation_length Hl)|].
  exists completed. by rewrite Hl.
Qed.

Lemma pipe_schedule q n blocks sch : pipe_ok q n blocks ->
  pipe_ok (mkPipeline (running q) sch (prepared_blocks q) (in_flight_blocks q) (next_dispatch_sequence q) (next_sequence q)) n blocks.
Proof. by intros [Hn Hd Hf Hc]. Qed.

Lemma take_task q n blocks k t sch : pipe_ok q n blocks -> running q !! k = Some t ->
  pipe_ok (taken t (mkPipeline (delete k (running q)) sch (prepared_blocks q) (in_flight_blocks q)
    (next_dispatch_sequence q) (next_sequence q))) n blocks.
Proof.
  intros Hq Hk. apply (pipe_schedule _ _ _ sch) in Hq. apply (pipe_perm _ _ _ (t :: delete k (running q))) in Hq; [done|].
  cbn. symmetry. by apply delete_Permutation.
Qed.

(** A completion is accepted. *)
Lemma accept_task w n blocks t : pipe_ok (taken t (pipeline w)) n blocks ->
  let q := pipeline w in
  let q' := mkPipeline (running q) (schedule q) (<[fst t := prepare_encoded_block (fst t) (snd t)]> (prepared_blocks q))
    (length (running q)) (next_dispatch_sequence q) (next_sequence q) in
  accept_completed_block t w = Some (Ok tt, with_pipeline q' w) /\ pipe_ok q' n blocks.
Proof.
  intros [Hn Hd Hf (completed & Hp & Hprep)]. cbn in *.
  assert (Hnd : NoDup (map fst (t :: running (pipeline w) ++ completed))) by (by apply (perm_NoDup (t :: running (pipeline w)) completed (Z.of_nat n) blocks Hp)).
  change (NoDup (fst t :: map fst (running (pipeline w) ++ completed))) in Hnd.
  apply NoDup_cons in Hnd as [Hnot Hnd]. rewrite map_app, elem_of_app in Hnot.
  assert (Hnone : prepared_blocks (pipeline w) !! fst t = None) by (rewrite Hprep; apply prepared_none; tauto).
  unfold accept_completed_block. rewrite Hf, Hnone. split; [done|]. split; cbn; try done.
  exists (t :: completed). split; [|by rewrite Hprep]. rewrite <- Hp. symmetry. apply Permutation_middle.
Qed.

(** The current block becomes a task. *)
Lemma submit_task q n blocks b : pipe_ok q n blocks ->
  pipe_ok (mkPipeline (running q ++ [(next_dispatch_sequence q, b)]) (schedule q) (prepared_blocks q)
    (S (in_flight_blocks q)) (next_dispatch_sequence q + 1) (next_sequence q)) n (blocks ++ [b]).
Proof.
  intros [Hn Hd Hf (completed & Hp & Hprep)]. split; cbn; try done.
  - rewrite Hd, length_app. cbn. lia.
  - rewrite length_app, Hf. cbn. lia.
  - exists completed. split; [|done]. rewrite tasks_snoc, <- Hd, <- Hp, <- !app_assoc. apply Permutation_app_head. apply Permutation_app_comm.
Qed.

(** What arrives without waiting. *)
Lemma try_recv_ok q n blocks : pipe_ok q n blocks ->
  match try_recv q with
  | (None, q') => pipe_ok q' n blocks
  | (Some t, q') => pipe_ok (taken t q') n blocks /\ S (length (schedule q')) = length (schedule q)
  end.
Proof.
  intros Hq. unfold try_recv. destruct (schedule q) as [|k sch] eqn:Hs; [done|].
  destruct (running q !! k) as [t|] eqn:Hk; [|by apply pipe_schedule]. split; [by apply take_task|done].
Qed.

Lemma try_recv_none q : schedule q = [] -> fst (try_recv q) = None.
Proof. unfold try_recv. by intros ->. Qed.

(** A wait ends while a task runs. *)
Lemma recv_ok q n blocks : pipe_ok q n blocks -> running q <> [] ->
  exists t q', recv q = Some (t, q') /\ pipe_ok (taken t q') n blocks /\
    S (length (running q')) = length (running q) /\ prepared_blocks q' = prepared_blocks q /\ next_sequence q' = next_sequence q.
Proof.
  intros Hq Hrun. unfold recv. destruct (match schedule q with [] => _ | _ => _ end) as [k sch].
  assert (Hlen : length (running q) <> 0%nat) by (by destruct (running q)).
  destruct (lookup_lt_is_Some_2 (running q) (k mod length (running q))) as [t Ht]; [by apply Nat.mod_upper_bound|].
  rewrite Ht. eexists t, _. split; [done|]. split; [by apply take_task|]. cbn. split; [|done].
  rewrite length_delete by (by eexists). lia.
Qed.
