(* ===== verification/WordStoreInvariant.v ===== *)
(** The writer's invariant and its steps: receiving completions, committing in order, and
    dispatching the current block keep the words of the store. *)

From stdpp Require Import gmap.
From S2P Require Import Prelude Events Vlq WordFormat WordEncode WordDecode WordRecords WordCodec WordBuilder.
From S2P Require Import WordRoundTrip WordPresence WordPresenceIndex WordPresenceProofs AnnotationQuery WordPresenceRuns.
From S2P Require Import WordStore WordStoreBlocks WordStorePipeline.

#[local] Open Scope Z_scope.

(** ** Words in order *)

Lemma records_times width prev ws : 0 <= prev -> records_ok width prev ws ->
  Forall (fun w => prev <= timestamp_ns w <= u64_max) ws /\ ascending timestamp_ns ws.
Proof.
  revert prev. induction ws as [|w ws IH]; intros prev Hp Hok; [by repeat constructor|]. destruct Hok as (_ & Ht & Hok).
  destruct (IH (timestamp_ns w) ltac:(lia) Hok) as [H1 H2]. split.
  - constructor; [lia|]. eapply Forall_impl; [exact H1|]. cbn. intros x Hx. lia.
  - constructor; [done|]. eapply Forall_impl; [exact H1|]. cbn. intros x Hx. lia.
Qed.

Lemma stream_times ws : stream_ok ws -> Forall times_ok ws /\ ascending timestamp_ns ws.
Proof.
  intros Hs. pose proof (stream_first_nonneg ws Hs) as H0. destruct Hs as [Hr He].
  destruct (records_times 8 _ ws H0 Hr) as [Ht Ha]. split; [|done].
  rewrite Forall_forall in *. intros w Hw. specialize (Ht w Hw). destruct (He w Hw) as [(_ & H1 & H2 & _) _]. unfold times_ok. ints.
Qed.

Lemma untimed ws : zlen (timed_words ws) = 0 -> Forall (fun w => duration_ns w = 0) ws.
Proof.
  unfold timed_words. induction ws as [|w ws IH]; [constructor|]. cbn. destruct (Z.eqb_spec (duration_ns w) 0); cbn [negb].
  - intros H. constructor; [done|by apply IH].
  - rewrite zlen_cons. pose proof (zlen_nonneg (List.filter (fun w => negb (duration_ns w =? 0)) ws)). lia.
Qed.

(** The summaries of a block do not depend on the flag that the writer derives. *)
Lemma builder_summaries b i : builder_ok b -> words b <> [] ->
  word_presence_summaries i (words b) (sized_durations (sizing b) =? 0) = general_word_presence_summaries i (words b).
Proof.
  intros ((_ & Hm & _) & Hs & (_ & _ & Hd & _) & Hlen) Hne. unfold word_presence_summaries.
  destruct (Z.eqb_spec (sized_durations (sizing b)) 0) as [H0|]; [|done].
  destruct (stream_times _ Hs) as [Ht Ha]. assert (zlen (words b) < u64_max) by ints. assert (Forall (fun w => duration_ns w = 0) (words b)) by (apply untimed; congruence).
  by rewrite free_summaries_cut, general_summaries_cut.
Qed.

(** ** What the store says of its blocks *)

(** The runs of all blocks. *)
Definition block_runs (bs : list (list Word)) : list WordSummaryRecord :=
  concat (imap (fun i ws => general_word_presence_summaries (Z.of_nat i) ws) bs).

Lemma block_runs_snoc bs ws : block_runs (bs ++ [ws]) = block_runs bs ++ general_word_presence_summaries (Z.of_nat (length bs)) ws.
Proof. unfold block_runs. rewrite imap_app, concat_app. cbn. by rewrite Nat.add_0_r, app_nil_r. Qed.

Record catalogued (s : LiveState) (bs : list (list Word)) : Prop := mkCatalogued {
  catalogued_presence : presence s = push_all WordPresenceIndex_new (block_runs bs);
  catalogued_words : committed_word_count s = zlen (concat bs);
  catalogued_first : committed_first_timestamp_ns s = timestamp_ns <$> head (concat bs);
  catalogued_last : committed_last_timestamp_ns s = timestamp_ns <$> last (concat bs)
}.

Lemma commit_catalogued s bs ws m bytes data_offset segment offset c :
  catalogued s bs -> encodes c (length bs) ws m bytes -> u64 (Z.of_nat (length bs)) -> zlen (concat (bs ++ [ws])) <= u64_max ->
  catalogued (commit_entry (entry_of (header m) data_offset segment offset)
    (general_word_presence_summaries (Z.of_nat (length bs)) ws) s) (bs ++ [ws]).
Proof.
  intros [Hp Hc Hf Hl] Hm Hi Hmax. destruct (encodes_facts _ _ _ _ _ Hm Hi) as (Hne & _ & _ & Hfirst & Hlast & Hcount & _).
  assert (Heq : concat (bs ++ [ws]) = concat bs ++ ws) by (rewrite concat_app; cbn; by rewrite app_nil_r).
  rewrite Heq in Hmax. destruct ws as [|w ws]; [done|]. split; rewrite ?Heq.
  - cbn. rewrite Hp, block_runs_snoc. unfold push_all. by rewrite fold_left_app.
  - cbn. rewrite Hc, Hcount. rewrite zlen_app in *. pose proof (zlen_nonneg (concat bs)). pose proof (zlen_nonneg (w :: ws)).
    by apply add64_small.
  - cbn. rewrite Hf, Hfirst. destruct (concat bs); done.
  - cbn. rewrite Hlast. unfold last_time. rewrite last_app. destruct (last (w :: ws)) eqn:Hw; [done|]. by apply last_None in Hw.
Qed.

(** ** The invariant *)

(** All words of the store, in committed blocks, dispatched blocks and the current block. *)
Definition words_of (bs : list (list Word)) (dispatched : list WordBlockBuilder) (current : list Word) : list Word :=
  concat bs ++ concat (map words dispatched) ++ current.

Section Invariant.
Context (c : BlockCodecConfig) (latest : option Z).

(** Whether a block of these words fits the format. *)
Definition block_small (ws : list Word) : Prop := 72 + payload_size (restart_interval c) ws + 7 <= u32_max.

Record inv (w : Writer) (bs : list (list Word)) (dispatched : list WordBlockBuilder) (current : list Word) : Prop := mkInv {
  inv_segments : segments c w bs;
  inv_next_segment : next_segment_sequence w <= Z.of_nat (length bs);
  inv_target : target_segment_bytes w = TARGET_SEGMENT_BYTES;
  inv_pipe : pipe_ok (pipeline w) (length bs) dispatched;
  inv_ready : Forall (block_ready c) dispatched;
  inv_bounded : (length dispatched <= max_outstanding_blocks w /\ 0 < max_outstanding_blocks w)%nat;
  inv_builder : builder_ok (builder w) /\ config (builder w) = c /\ words (builder w) = current;
  inv_small : current <> [] -> block_small current;
  inv_live : status (state (shared w)) = Live;
  inv_catalogued : catalogued (state (shared w)) bs;
  inv_nonempty : Forall (fun ws => ws <> []) bs;
  inv_tail : hot_tail (state (shared w)) `prefix_of` concat (map words dispatched) ++ current;
  inv_last : last_timestamp_ns w = latest;
  inv_count : zlen (words_of bs dispatched current) < u64_max
}.

(** What an error leaves: the committed blocks can be read, and their words are the first ones. *)
Definition failed (F : Prop) (ws : list Word) (w' : Writer) : Prop :=
  F /\ status (state (shared w')) = Live /\
  exists bs rest, readable c (shared w') bs /\ catalogued (state (shared w')) bs /\ ws = concat bs ++ rest.

Lemma failed_mono (F F' : Prop) ws ws' w' : (F -> F') -> ws `prefix_of` ws' -> failed F ws w' -> failed F' ws' w'.
Proof.
  intros HF [more ->] (H1 & H2 & bs & rest & H3 & H4 & ->). split; [by apply HF|]. split; [done|].
  exists bs, (rest ++ more). by rewrite app_assoc.
Qed.

Lemma inv_failed (F : Prop) w bs dispatched current : F -> inv w bs dispatched current -> failed F (words_of bs dispatched current) w.
Proof.
  intros HF [Hs _ _ _ _ _ _ _ Hl Hc _ _ _ _]. split; [done|]. split; [done|]. eexists bs, _. split; [by apply segments_readable|done].
Qed.

Lemma damaged_failed repository_accepts w bs dispatched current w' : inv w bs dispatched current ->
  damaged c repository_accepts w bs w' -> failed (refused repository_accepts) (words_of bs dispatched current) w'.
Proof.
  intros [_ _ _ _ _ _ _ _ Hl Hc _ _ _ _] (Hr & Hread & Hst). split; [done|]. rewrite Hst. split; [done|].
  by eexists bs, _.
Qed.

(** Every block holds a word. *)
Lemma inv_blocks w bs dispatched current : inv w bs dispatched current -> Z.of_nat (length bs) < u64_max.
Proof.
  intros [_ _ _ _ _ _ _ _ _ _ Hne _ _ Hcount]. unfold words_of in Hcount. rewrite zlen_app in Hcount.
  pose proof (zlen_nonneg (concat (map words dispatched) ++ current)). enough (Z.of_nat (length bs) <= zlen (concat bs)) by lia.
  clear -Hne. unfold zlen. induction Hne as [|ws bs Hw _ IH]; [done|]. cbn [concat length]. rewrite length_app.
  destruct ws; [done|]. cbn [length]. lia.
Qed.

Lemma segments_with_pipeline w bs q : segments c w bs -> segments c (with_pipeline q w) bs.
Proof. by intros [H1 H2 H3 H4]. Qed.

Lemma words_of_commit bs b rest current : words_of (bs ++ [words b]) rest current = words_of bs (b :: rest) current.
Proof. unfold words_of. rewrite concat_app. cbn. by rewrite app_nil_r, <- !app_assoc. Qed.

Context (repository_accepts : RepositoryOp -> bool).

(** The pipeline without the block that is committed next. *)
Definition without_next (q : Pipeline) : Pipeline :=
  mkPipeline (running q) (schedule q) (delete (next_sequence q) (prepared_blocks q)) (in_flight_blocks q)
    (next_dispatch_sequence q) (next_sequence q).

Lemma commit_next w bs dispatched current block : inv w bs dispatched current ->
  prepared_blocks (pipeline w) !! next_sequence (pipeline w) = Some block ->
  runs (commit_prepared_block repository_accepts block) (with_pipeline (without_next (pipeline w)) w)
    (fun _ w' => exists b rest, dispatched = b :: rest /\ inv w' (bs ++ [words b]) rest current /\
       running (pipeline w') = running (pipeline w) /\
       prepared_blocks (pipeline w') = delete (next_sequence (pipeline w)) (prepared_blocks (pipeline w)))
    (failed (refused repository_accepts) (words_of bs dispatched current)).
Proof.
  intros Hinv Hblock. pose proof (inv_blocks _ _ _ _ Hinv) as Hbs. pose proof Hinv as [Hs Hn Ht Hp Hr [Hb1 Hb2] Hb Hsm Hl Hc Hne Htail Hlast Hcount].
  destruct (pipe_take _ _ _ _ Hp Hblock) as (b & rest & -> & -> & Hp').
  apply Forall_cons in Hr as [Hready Hr]. pose proof Hready as (Hbok & _ & Hbne & _).
  eapply runs_mono; [apply (commit_block c repository_accepts); [by apply segments_with_pipeline|done|cbn; lia|cbn; rewrite Ht; done]| |].
  2: { intros w' Hd. by apply (damaged_failed repository_accepts w). }
  intros _ w' (Hs' & Hn' & m & bytes & segment & offset & Hm & Hcore). exists b, rest. split; [done|].
  rewrite builder_summaries in Hcore by done. cbv zeta in Hcore. unfold core in Hcore.
  injection Hcore as Hc1 Hc2 Hc3 Hc4 Hc5 Hc6 Hc7 Hc8 Hc9. cbn in Hc1, Hc2, Hc3, Hc4, Hc5, Hc6, Hc7, Hc8, Hc9.
  split; [|by rewrite Hc2]. pose proof Hcount as Hcount'. unfold words_of in Hcount'. cbn [map concat] in Hcount', Htail.
  split; rewrite ?Hc1, ?Hc2, ?Hc3, ?Hc5, ?Hc8, ?Hc9, ?words_of_commit, ?length_app; cbn [length]; try done.
  - lia.
  - by rewrite Nat.add_1_r.
  - cbn in Hb1. lia.
  - eapply commit_catalogued; [done|done|ints|]. rewrite concat_app. cbn [concat]. rewrite app_nil_r, zlen_app.
    rewrite !zlen_app in Hcount'. pose proof (zlen_nonneg (concat (map words rest))). pose proof (zlen_nonneg current). lia.
  - apply Forall_app. by split; [|repeat constructor].
  - cbn. apply prefix_nil.
Qed.

(** ** Committing in order *)

(** The blocks closed so far, committed or not, and the words of the current one. *)
Definition holds (w : Writer) (closed : list (list Word)) (current : list Word) : Prop :=
  exists bs dispatched, closed = bs ++ map words dispatched /\ inv w bs dispatched current.

(** Nothing completed waits to be committed. *)
Definition idle (w : Writer) : Prop := prepared_blocks (pipeline w) !! next_sequence (pipeline w) = None.

(** The reasons an operation may have to fail include a refused request. *)
Context (F : Prop) (refused_fault : refused repository_accepts -> F).

Abbreviation broken closed current := (failed F (concat closed ++ current)).

Lemma words_of_closed bs dispatched current :
  words_of bs dispatched current = concat (bs ++ map words dispatched) ++ current.
Proof. unfold words_of. by rewrite concat_app, app_assoc. Qed.

Lemma commit_loop_holds fuel : forall w closed current, holds w closed current ->
  (size (prepared_blocks (pipeline w)) <= fuel)%nat ->
  runs (commit_loop repository_accepts fuel) w
    (fun _ w' => holds w' closed current /\ idle w' /\ running (pipeline w') = running (pipeline w))
    (broken closed current).
Proof.
  induction fuel as [|fuel IH]; intros w closed current Hw Hfuel; name_runs; unfold runs; cbn [commit_loop];
    destruct (prepared_blocks (pipeline w) !! next_sequence (pipeline w)) as [block|] eqn:Hblock; try by split.
  { assert (size (prepared_blocks (pipeline w)) <> 0%nat) by (apply (map_size_ne_0_lookup_2 _ (next_sequence (pipeline w))); by eexists). lia. }
  change (runs (bind (commit_prepared_block repository_accepts block) (fun _ => commit_loop repository_accepts fuel))
    (with_pipeline (without_next (pipeline w)) w) Q E).
  destruct Hw as (bs & dispatched & -> & Hinv). unfold E. rewrite <- words_of_closed.
  eapply runs_seq; [eapply runs_mono; [by apply commit_next|done|intros w'; by apply failed_mono]|]. intros _ w' (b & rest & -> & Hinv' & Hrun & Hprep).
  rewrite words_of_closed. unfold Q. rewrite <- Hrun. apply IH.
  - exists (bs ++ [words b]), rest. by rewrite <- app_assoc.
  - rewrite Hprep, map_size_delete_Some by (by eexists). lia.
Qed.

Lemma commit_ordered_holds w closed current : holds w closed current ->
  runs (commit_ordered_blocks repository_accepts) w
    (fun _ w' => holds w' closed current /\ idle w' /\ running (pipeline w') = running (pipeline w)) (broken closed current).
Proof. intros Hw. by apply commit_loop_holds. Qed.

(** ** Completions *)

Lemma inv_with_pipeline w bs dispatched current q : inv w bs dispatched current -> pipe_ok q (length bs) dispatched ->
  inv (with_pipeline q w) bs dispatched current.
Proof. intros [Hs Hn Ht Hp Hr Hb Hbu Hsm Hl Hc Hne Htail Hlast Hcount] Hq. split; try done. by apply segments_with_pipeline. Qed.

Lemma inv_outstanding w bs dispatched current : inv w bs dispatched current -> outstanding_blocks w = length dispatched.
Proof. intros [_ _ _ Hp _ _ _ _ _ _ _ _ _ _]. by eapply pipe_outstanding. Qed.

(** A task that has ended becomes a completed block. *)
Lemma accept_holds w q t closed current bs dispatched : closed = bs ++ map words dispatched ->
  inv w bs dispatched current -> pipe_ok (taken t q) (length bs) dispatched ->
  exists w', accept_completed_block t (with_pipeline q w) = Some (Ok tt, w') /\ holds w' closed current /\
    running (pipeline w') = running q /\ schedule (pipeline w') = schedule q.
Proof.
  intros -> Hinv Hq. destruct (accept_task (with_pipeline q w) _ _ _ Hq) as [Heq Hok]. eexists. split; [exact Heq|].
  split; [|done]. exists bs, dispatched. split; [done|].
  by apply (inv_with_pipeline w _ _ _ _ Hinv) in Hok.
Qed.

Lemma drain_loop_holds fuel : forall w closed current, holds w closed current -> (length (schedule (pipeline w)) <= fuel)%nat ->
  runs (drain_loop fuel) w (fun _ w' => holds w' closed current) (broken closed current).
Proof.
  induction fuel as [|fuel IH]; intros w closed current Hw Hfuel; destruct Hw as (bs & dispatched & Heq & Hinv);
    pose proof (try_recv_ok _ _ _ (inv_pipe _ _ _ _ Hinv)) as Hrecv; name_runs; unfold runs; cbn [drain_loop];
    destruct (try_recv (pipeline w)) as [[t|] q] eqn:Ht; try (exists bs, dispatched; split; [done|by apply inv_with_pipeline]).
  - destruct (schedule (pipeline w)) eqn:Hs; [|cbn in Hfuel; lia]. pose proof (try_recv_none _ Hs) as Hnone. by rewrite Ht in Hnone.
  - destruct Hrecv as [Hq Hsch]. into_runs (with_pipeline q w). step.
    destruct (accept_holds w q t closed current bs dispatched Heq Hinv Hq) as (w' & Ha & Hw' & _ & Hs').
    eapply runs_eval; [exact Ha|]. apply IH; [done|]. rewrite Hs'. lia.
Qed.

Lemma drain_holds w closed current : holds w closed current ->
  runs (drain_completed_blocks repository_accepts) w (fun _ w' => holds w' closed current /\ idle w') (broken closed current).
Proof.
  intros Hw. unfold drain_completed_blocks. name_runs. unfold runs. into_runs w.
  eapply runs_seq; [by apply drain_loop_holds|]. intros ? w' Hw'. cbv beta in Hw'.
  eapply runs_mono; [by apply (commit_ordered_holds w' closed current)| |done]. intros ? w2 (H1 & H2 & _). by split.
Qed.

(** A wait for a completion ends while a task runs. *)
Lemma receive_holds w closed current : holds w closed current -> running (pipeline w) <> [] ->
  runs receive_completed_block w
    (fun _ w' => holds w' closed current /\ S (length (running (pipeline w'))) = length (running (pipeline w)))
    (broken closed current).
Proof.
  intros (bs & dispatched & Heq & Hinv) Hrun.
  destruct (recv_ok _ _ _ (inv_pipe _ _ _ _ Hinv) Hrun) as (t & q & Hrecv & Hq & Hlen & _).
  destruct (accept_holds w q t closed current bs dispatched Heq Hinv Hq) as (w' & Ha & Hw' & Hr & _).
  apply (runs_eval _ _ tt w'); [by unfold receive_completed_block; rewrite Hrecv|]. split; [done|]. by rewrite Hr.
Qed.

(** An idle writer with dispatched blocks has a task that runs. *)
Lemma idle_running w closed current : holds w closed current -> idle w -> outstanding_blocks w <> 0%nat ->
  running (pipeline w) <> [].
Proof.
  intros (bs & dispatched & Heq & Hinv) Hidle. rewrite (inv_outstanding _ _ _ _ Hinv). destruct dispatched as [|b rest]; [done|].
  intros _. by eapply pipe_head; [apply Hinv|].
Qed.

Lemma outstanding_running w closed current : holds w closed current -> (length (running (pipeline w)) <= outstanding_blocks w)%nat.
Proof. intros (bs & dispatched & Heq & Hinv). unfold outstanding_blocks. rewrite (pipe_in_flight _ _ _ (inv_pipe _ _ _ _ Hinv)). lia. Qed.

Lemma wait_loop_holds fuel : forall w closed current, holds w closed current -> idle w ->
  (length (running (pipeline w)) <= fuel)%nat ->
  runs (wait_loop repository_accepts fuel) w
    (fun _ w' => holds w' closed current /\ (outstanding_blocks w' < max_outstanding_blocks w')%nat) (broken closed current).
Proof.
  induction fuel as [|fuel IH]; intros w closed current Hw Hidle Hfuel; name_runs; unfold runs; cbn [wait_loop];
    destruct (Nat.leb_spec (max_outstanding_blocks w) (outstanding_blocks w)) as [Hmax|Hmax]; try by split.
  all: assert (Hrun : running (pipeline w) <> []).
  1, 3: eapply idle_running; [done..|]; destruct Hw as (bs & dispatched & _ & [_ _ _ _ _ [_ Hpos] _ _ _ _ _ _ _ _]); lia.
  { destruct (running (pipeline w)); [done|]. cbn in Hfuel. lia. }
  into_runs w. eapply runs_seq; [by apply receive_holds|]. intros _ w1 [Hw1 Hlen1].
  eapply runs_seq; [by apply commit_ordered_holds|]. intros _ w2 (Hw2 & Hidle2 & Hrun2). apply IH; [done|done|]. rewrite Hrun2. lia.
Qed.

(** Flushing commits every dispatched block. *)
Lemma flush_loop_holds fuel : forall w closed current, holds w closed current ->
  (length (running (pipeline w)) + (if prepared_blocks (pipeline w) !! next_sequence (pipeline w) is Some _ then 1 else 0) <= fuel)%nat ->
  runs (flush_loop repository_accepts fuel) w (fun _ w' => inv w' closed [] current) (broken closed current).
Proof.
  assert (Hend : forall w closed current, holds w closed current -> outstanding_blocks w = 0%nat -> inv w closed [] current).
  { intros w closed current (bs & dispatched & -> & Hinv) H0. rewrite (inv_outstanding _ _ _ _ Hinv) in H0.
    apply length_zero_iff_nil in H0 as ->. by rewrite app_nil_r. }
  induction fuel as [|fuel IH]; intros w closed current Hw Hfuel; name_runs; unfold runs; cbn [flush_loop];
    destruct (Nat.eqb_spec (outstanding_blocks w) 0) as [H0|H0]; try by apply Hend.
  - pose proof (idle_running w closed current Hw) as Hrun. unfold idle in Hrun.
    destruct (prepared_blocks (pipeline w) !! next_sequence (pipeline w)) eqn:Hp; [lia|]. specialize (Hrun eq_refl H0).
    destruct (running (pipeline w)); [done|]. cbn in Hfuel. lia.
  - assert (Hnext : forall w1, holds w1 closed current -> (length (running (pipeline w1)) <= fuel)%nat ->
      runs (bind (commit_ordered_blocks repository_accepts) (fun _ => flush_loop repository_accepts fuel)) w1 Q E).
    { intros w1 Hw1 Hlen. eapply runs_seq; [by apply commit_ordered_holds|]. intros _ w2 (Hw2 & Hidle2 & Hrun2).
      apply IH; [done|]. unfold idle in Hidle2. rewrite Hidle2, Hrun2. lia. }
    destruct (prepared_blocks (pipeline w) !! next_sequence (pipeline w)) eqn:Hp.
    + into_runs w. apply Hnext; [done|]. lia.
    + into_runs w. eapply runs_seq; [apply receive_holds; [done|by apply (idle_running w closed current)]|].
      intros _ w1 [Hw1 Hlen1]. apply Hnext; [done|]. lia.
Qed.

Lemma flush_holds w closed current : holds w closed current ->
  runs (flush_dispatched_blocks repository_accepts) w (fun _ w' => inv w' closed [] current) (broken closed current).
Proof.
  intros Hw. unfold flush_dispatched_blocks. name_runs. unfold runs. into_runs w. apply flush_loop_holds; [done|].
  destruct Hw as (bs & dispatched & Heq & Hinv). unfold outstanding_blocks. rewrite (pipe_in_flight _ _ _ (inv_pipe _ _ _ _ Hinv)).
  destruct (prepared_blocks (pipeline w) !! next_sequence (pipeline w)) as [block|] eqn:Hb; [|lia].
  assert (size (prepared_blocks (pipeline w)) <> 0%nat) by (apply (map_size_ne_0_lookup_2 _ (next_sequence (pipeline w))); by eexists).
  lia.
Qed.
End Invariant.
