(* ===== verification/WordStoreAppend.v ===== *)
(** Appending words: the writer cuts them into the same blocks whatever batches they come in. *)

From stdpp Require Import gmap.
From S2P Require Import Prelude Events Vlq WordFormat WordEncode WordDecode WordRecords WordCodec WordBuilder.
From S2P Require Import WordRoundTrip WordPresence WordPresenceIndex WordPresenceProofs AnnotationQuery.
From S2P Require Import WordStore WordStoreBlocks WordStorePipeline WordStoreInvariant.

#[local] Open Scope Z_scope.

(** ** The blocks of a sequence of words *)

Section Blocks.
Context (c : BlockCodecConfig).

(** A word joins the current block if the block accepts it, and else starts the next one; a block
    at the word limit is closed at once. *)
Definition place (state : list (list Word) * list Word) (w : Word) : list (list Word) * list Word :=
  let '(closed, current) := state in
  let '(closed, current) := if accepts c current w then (closed, current) else (closed ++ [current], []) in
  if max_words c <=? zlen (current ++ [w]) then (closed ++ [current ++ [w]], []) else (closed, current ++ [w]).

Definition close (state : list (list Word) * list Word) : list (list Word) :=
  match snd state with [] => fst state | _ :: _ => fst state ++ [snd state] end.

(** The blocks that hold the words. *)
Definition blocks_of (ws : list Word) : list (list Word) := close (fold_left place ws ([], [])).

Lemma place_words state w : concat (fst (place state w)) ++ snd (place state w) = concat (fst state) ++ snd state ++ [w].
Proof.
  destruct state as [closed current]. unfold place. destruct (accepts c current w);
    destruct (max_words c <=? _); cbn [fst snd]; rewrite ?concat_app; cbn [concat]; by rewrite ?app_nil_r, <- ?app_assoc.
Qed.

Lemma places_words ws state : concat (fst (fold_left place ws state)) ++ snd (fold_left place ws state) = concat (fst state) ++ snd state ++ ws.
Proof.
  revert state. induction ws as [|w ws IH]; intros state; cbn [fold_left]; [by rewrite app_nil_r|].
  rewrite IH, app_assoc, place_words. by rewrite <- !app_assoc.
Qed.

Lemma close_words state : concat (close state) = concat (fst state) ++ snd state.
Proof.
  destruct state as [closed [|w current]]; cbn; [by rewrite app_nil_r|]. rewrite concat_app. cbn. by rewrite app_nil_r.
Qed.

Lemma blocks_of_words ws : concat (blocks_of ws) = ws.
Proof. unfold blocks_of. by rewrite close_words, places_words. Qed.

Hypothesis Hmax : 0 < max_words c.

Lemma place_below state w : zlen (snd state) < max_words c -> zlen (snd (place state w)) < max_words c.
Proof.
  destruct state as [closed current]. unfold place. destruct (accepts c current w); cbn [fst snd];
    match goal with |- context [?a <=? ?b] => destruct (Z.leb_spec a b) end; cbn [fst snd]; try done.
Qed.

Lemma places_below ws state : zlen (snd state) < max_words c -> zlen (snd (fold_left place ws state)) < max_words c.
Proof. revert state. induction ws as [|w ws IH]; intros state H; [done|]. by apply IH, place_below. Qed.

(** What a block accepts from the words goes into it; at the limit the block is closed. *)
Lemma place_accepted ws : forall closed current, zlen current < max_words c ->
  let n := accepted_prefix c current ws in
  fold_left place (take n ws) (closed, current) =
    (if max_words c <=? zlen (current ++ take n ws) then (closed ++ [current ++ take n ws], []) else (closed, current ++ take n ws)) /\
  zlen (current ++ take n ws) <= max_words c.
Proof.
  induction ws as [|w ws IH]; intros closed current Hcur; cbv zeta; cbn [accepted_prefix].
  - rewrite take_nil, app_nil_r. cbn [fold_left]. rewrite (proj2 (Z.leb_gt _ _)) by lia. split; [done|lia].
  - destruct (accepts c current w) eqn:Ha; cbn [take].
    2: { rewrite app_nil_r. cbn [fold_left]. rewrite (proj2 (Z.leb_gt _ _)) by lia. split; [done|lia]. }
    cbn [fold_left]. unfold place at 2. rewrite Ha. destruct (Z.leb_spec (max_words c) (zlen (current ++ [w]))) as [Hfull|Hroom].
    + assert (Hlen : zlen (current ++ [w]) = max_words c) by (rewrite zlen_app in *; change (zlen [w]) with 1 in *; lia).
      assert (H0 : accepted_prefix c (current ++ [w]) ws = 0%nat).
      { destruct ws as [|w' ws]; [done|]. cbn [accepted_prefix]. assert (Hno : accepts c (current ++ [w]) w' = false); [|by rewrite Hno].
        unfold accepts. destruct (current ++ [w]) eqn:He; [by destruct current|]. by rewrite Hlen, Z.ltb_irrefl. }
      rewrite H0, firstn_O. cbn [fold_left]. rewrite Hlen, Z.leb_refl. split; [done|lia].
    + destruct (IH closed (current ++ [w]) Hroom) as [H1 H2]. by rewrite H1, <- app_assoc in *.
Qed.

(** A word that does not fit closes the block before it. *)
Lemma place_refused w ws closed current : accepts c current w = false ->
  fold_left place (w :: ws) (closed, current) = fold_left place (w :: ws) (closed ++ [current], []).
Proof. intros Ha. cbn [fold_left]. f_equal. unfold place. by rewrite Ha. Qed.

Lemma accepted_stops ws : forall current w rest, drop (accepted_prefix c current ws) ws = w :: rest ->
  accepts c (current ++ take (accepted_prefix c current ws) ws) w = false.
Proof.
  induction ws as [|x ws IH]; intros current w rest; cbn [accepted_prefix]; [done|].
  destruct (accepts c current x) eqn:Hx; cbn [drop take].
  - intros H. change (x :: take _ ws) with ([x] ++ take (accepted_prefix c (current ++ [x]) ws) ws). rewrite app_assoc. by apply IH with rest.
  - intros [= <- <-]. by rewrite app_nil_r.
Qed.
End Blocks.

(** ** The size of blocks *)

(** Every word fits a block of its own, and the limit of the configuration keeps blocks below 4 GiB. *)
Definition words_small (c : BlockCodecConfig) (ws : list Word) : Prop :=
  max_payload_bytes c + 79 <= u32_max /\ Forall (fun w => block_small c [w]) ws.

Lemma accepted_small c ws : forall current, words_small c ws -> (current <> [] -> block_small c current) ->
  current ++ take (accepted_prefix c current ws) ws <> [] ->
  block_small c (current ++ take (accepted_prefix c current ws) ws).
Proof.
  induction ws as [|w ws IH]; intros current [Hlimit Hws] Hcur Hne; cbn [accepted_prefix] in *.
  { rewrite take_nil, app_nil_r in *. by apply Hcur. }
  apply Forall_cons in Hws as [Hw Hws]. destruct (accepts c current w) eqn:Ha; cbn [take] in *.
  2: { rewrite app_nil_r in *. by apply Hcur. }
  change (w :: take ?n ws) with ([w] ++ take n ws) in *. rewrite app_assoc in *. apply IH; [by split| |done]. intros _.
  unfold accepts in Ha. destruct current as [|w0 current]; [done|].
  apply andb_true_iff in Ha as [_ Ha%Z.leb_le]. unfold block_small. lia.
Qed.

Lemma words_small_drop c n ws : words_small c ws -> words_small c (drop n ws).
Proof. intros [H1 H2]. split; [done|]. by apply Forall_drop. Qed.

Lemma stream_ok_app_r l1 l2 : stream_ok (l1 ++ l2) -> stream_ok l2.
Proof.
  intros Hs. pose proof (stream_first_nonneg _ Hs). destruct Hs as [Hr He]. apply Forall_app in He as [_ He]. split; [|done].
  apply records_ok_app in Hr as [_ Hr]. destruct l2 as [|w l2]; [done|]. destruct Hr as (Hv & Ht & Hr). cbn. split; [done|]. split; [lia|done].
Qed.

(** ** The writer *)

Section Append.
Context (c : BlockCodecConfig) (repository_accepts : RepositoryOp -> bool) (executor_accepts : Z -> bool).
Context (F : Prop) (refused_fault : refused repository_accepts -> F).
Context (executor_fault : (exists sequence, executor_accepts sequence = false) -> F).

Lemma segments_same w w' bs : shared w' = shared w -> active_segment w' = active_segment w ->
  next_segment_sequence w' = next_segment_sequence w -> segments c w bs -> segments c w' bs.
Proof. destruct w, w'. cbn. intros -> -> ->. by intros [H1 H2 H3 H4]. Qed.

Lemma submit_holds latest w bs dispatched current : inv c latest w bs dispatched current -> current <> [] ->
  (length dispatched < max_outstanding_blocks w)%nat ->
  runs (submit_block executor_accepts) w (fun _ w' => inv c latest w' bs (dispatched ++ [builder w]) [])
    (failed c F (words_of bs dispatched current)).
Proof.
  intros Hinv Hne Hroom. pose proof Hinv as [Hs Hn Ht Hp Hr [Hb1 Hb2] (Hb & Hbc & Hbw) Hsm Hl Hc Hnb Htail Hlast Hcount].
  unfold submit_block. name_runs. unfold runs.
  destruct (executor_accepts (next_dispatch_sequence (pipeline w))) eqn:He.
  - assert (Hwords : words_of bs (dispatched ++ [builder w]) [] = words_of bs dispatched current).
    { unfold words_of. rewrite map_app, concat_app. cbn. by rewrite Hbw, !app_nil_r. }
    assert (Htail' : concat (map words (dispatched ++ [builder w])) ++ [] = concat (map words dispatched) ++ current).
    { rewrite map_app, concat_app. cbn. by rewrite Hbw, !app_nil_r. }
    split; rewrite ?Hwords, ?Htail'; try done.
    + by apply (segments_same w).
    + by apply submit_task.
    + apply Forall_app. split; [done|]. constructor; [|constructor]. split; [done|]. split; [done|]. rewrite Hbw. split; [done|]. by apply Hsm.
    + cbn. rewrite length_app. cbn. lia.
    + destruct (clear_ok _ Hb) as [H1 H2]. by split.
  - split; [apply executor_fault; by eexists|]. split; [done|]. eexists bs, _. split; [|done].
    change (readable c (shared w) bs). by apply segments_readable.
Qed.

Lemma dispatch_holds latest w closed current : holds c latest w closed current ->
  runs (dispatch_current_block repository_accepts executor_accepts) w
    (fun _ w' => holds c latest w' (close (closed, current)) []) (failed c F (concat closed ++ current)).
Proof.
  intros Hw. unfold dispatch_current_block. name_runs. unfold runs.
  assert (Hcur : words (builder w) = current) by (destruct Hw as (? & ? & _ & Hinv); apply Hinv). rewrite Hcur.
  destruct current as [|x current]; [done|]. cbn [length Nat.eqb]. into_runs w.
  eapply runs_seq; [by eapply drain_holds|]. intros _ w1 [Hw1 Hidle1].
  eapply runs_seq.
  { name_runs. unfold runs. into_runs w1. eapply wait_loop_holds; [done|done|done|]. by eapply outstanding_running. }
  intros _ w2 [Hw2 Hroom]. destruct Hw2 as (bs & dispatched & -> & Hinv). unfold E. rewrite <- words_of_closed.
  rewrite (inv_outstanding _ _ _ _ _ _ Hinv) in Hroom.
  eapply runs_mono; [by apply submit_holds| |done]. intros y w3 Hinv3. exists bs, (dispatched ++ [builder w2]).
  split; [|done]. cbn. rewrite map_app, app_assoc. cbn. do 2 f_equal. symmetry. f_equal. apply Hinv.
Qed.

(** A block is extended. *)
Lemma extend_holds latest w closed current remaining : holds c latest w closed current ->
  stream_ok (current ++ remaining) -> words_small c remaining ->
  zlen (concat closed ++ current ++ remaining) < u64_max ->
  let n := accepted_prefix c current remaining in
  exists b, extend_ordered (builder w) remaining = (n, b) /\ words b = current ++ take n remaining /\ config b = c /\
    forall k, holds c latest (with_tail_words k (with_builder b w)) closed (current ++ take n remaining).
Proof.
  intros (bs & dispatched & -> & Hinv) Hs Hsmall Hcount. cbv zeta.
  pose proof Hinv as [Hseg Hn Ht Hp Hr Hbd (Hb & Hbc & Hbw) Hsm Hl Hc Hnb Htail Hlast _]. rewrite <- Hbw in Hs.
  destruct (extend_ordered_spec _ _ Hb Hs) as (b & Heq & Hw & Hcb & Hbok). rewrite Hbc, Hbw in *. exists b. split; [done|]. split; [done|].
  split; [done|]. intros k. exists bs, dispatched. split; [done|]. split; try done.
  - by apply (segments_same w).
  - intros Hne. by apply accepted_small.
  - destruct Htail as [more Hmore]. exists (more ++ take (accepted_prefix c current remaining) remaining).
    cbn. by rewrite !app_assoc, Hmore.
  - eapply Z.le_lt_trans; [|exact Hcount]. rewrite words_of_closed, !zlen_app.
    assert (zlen (take (accepted_prefix c current remaining) remaining) <= zlen remaining).
    { unfold zlen. rewrite length_take. lia. }
    lia.
Qed.

Lemma append_loop_nil fuel w : append_loop repository_accepts executor_accepts fuel [] w = Some (Ok tt, w).
Proof. by destruct fuel. Qed.

Lemma accepted_first ws w : exists n, accepted_prefix c [] (w :: ws) = S n.
Proof. cbn. by eexists. Qed.

(** Taking words from a non-empty block is progress: either a word is taken or the block is closed. *)
Definition turns (current remaining : list Word) : nat :=
  match remaining with [] => 0 | _ :: _ => length remaining + match current with [] => 0 | _ :: _ => 1 end end.

Lemma turns_next current w ws : let n := accepted_prefix c current (w :: ws) in
  (turns [] (drop n (w :: ws)) < turns current (w :: ws))%nat.
Proof.
  cbv zeta. unfold turns. pose proof (accepted_prefix_le c (w :: ws) current) as Hle.
  destruct (drop _ (w :: ws)) as [|x rest] eqn:Hd; [cbn; lia|]. apply (f_equal length) in Hd. rewrite length_drop in Hd. cbn [length] in *.
  destruct current; [destruct (accepted_first ws w) as [n Hn]; rewrite Hn in *|]; lia.
Qed.

Lemma append_loop_holds latest fuel : forall remaining w closed current,
  holds c latest w closed current -> zlen current < max_words c -> stream_ok (current ++ remaining) ->
  words_small c remaining -> zlen (concat closed ++ current ++ remaining) < u64_max ->
  (turns current remaining <= fuel)%nat ->
  runs (append_loop repository_accepts executor_accepts fuel remaining) w
    (fun _ w' => holds c latest w' (fst (fold_left (place c) remaining (closed, current))) (snd (fold_left (place c) remaining (closed, current))))
    (failed c F (concat closed ++ current ++ remaining)).
Proof.
  induction fuel as [|fuel IH]; intros remaining w closed current Hw Hcur Hs Hsmall Hcount Hfuel;
    (destruct remaining as [|x ws]; [by apply (runs_eval _ _ tt w); [apply append_loop_nil|]|]); [cbn in Hfuel; lia|].
  destruct (extend_holds latest w closed current (x :: ws) Hw Hs Hsmall Hcount) as (b & Hext & Hwords & Hcb & Hnext).
  pose proof (turns_next current x ws) as Hturn. pose proof (place_accepted c (x :: ws) closed current Hcur) as Hplace.
  pose proof (accepted_stops c (x :: ws) current) as Hstop. cbv zeta in Hturn, Hplace. set (n := accepted_prefix c current (x :: ws)) in *.
  assert (Htake : take n (x :: ws) ++ drop n (x :: ws) = x :: ws) by apply take_drop. set (taken := take n (x :: ws)) in *.
  set (rest := drop n (x :: ws)) in *. destruct Hplace as [Hplace Hlen].
  assert (Hfold : fold_left (place c) (x :: ws) (closed, current) = fold_left (place c) rest (fold_left (place c) taken (closed, current))).
  { by rewrite <- Htake, fold_left_app. }
  assert (Hall : concat closed ++ current ++ x :: ws = concat closed ++ (current ++ taken) ++ rest) by (by rewrite <- app_assoc, Htake).
  rewrite Hfold, Hplace, Hall. rewrite <- Htake, app_assoc in Hs. rewrite Hall in Hcount.
  specialize (Hnext (words_since_tail_publish w + Z.of_nat n)).
  name_runs. unfold runs. cbn [append_loop]. rewrite Hext. fold rest. into_runs (with_tail_words (words_since_tail_publish w + Z.of_nat n) (with_builder b w)).
  unfold is_at_word_limit. rewrite Hcb, Hwords. fold taken.
  assert (Hgo : negb (Nat.eqb (length rest) 0) || (max_words c <=? zlen (current ++ taken)) = true ->
    forall w1, holds c latest w1 (close (closed, current ++ taken)) [] -> runs (append_loop repository_accepts executor_accepts fuel rest) w1 Q E).
  { intros Hclose w1 Hw1. assert (Hne : current ++ taken <> []).
    { intros Hnil. apply app_eq_nil in Hnil as [-> Hnil]. destruct (accepted_first ws x) as [k Hk]. unfold taken, n in Hnil. by rewrite Hk in Hnil. }
    assert (Hc : close (closed, current ++ taken) = closed ++ [current ++ taken]) by (unfold close; cbn [fst snd]; by destruct (current ++ taken)).
    rewrite Hc in Hw1. assert (Hwords1 : concat (closed ++ [current ++ taken]) ++ [] ++ rest = concat closed ++ (current ++ taken) ++ rest).
    { rewrite concat_app. cbn. by rewrite app_nil_r, <- !app_assoc. }
    eapply runs_mono; [apply (IH rest w1 (closed ++ [current ++ taken]) [] Hw1)| |].
    - change (zlen (@nil Word)) with 0. pose proof (zlen_nonneg current). lia.
    - cbn [app]. by apply stream_ok_app_r in Hs.
    - by apply words_small_drop.
    - by rewrite Hwords1.
    - lia.
    - intros y w2. unfold Q. destruct (Z.leb_spec (max_words c) (zlen (current ++ taken))) as [Hfull|Hfull]; [done|].
      destruct rest as [|z rest'] eqn:Hr; [by rewrite orb_false_r in Hclose|].
      rewrite (place_refused c z rest' closed (current ++ taken)); [done|]. by apply (Hstop z rest').
    - intros w2. by rewrite Hwords1. }
  destruct (negb (Nat.eqb (length rest) 0) || (max_words c <=? zlen (current ++ taken))) eqn:Hclose.
  - eapply runs_seq.
    + eapply runs_mono; [by apply dispatch_holds|intros ? ? H; exact H|]. intros w'. apply failed_mono; [done|].
      exists rest. by rewrite <- !app_assoc.
    + intros y w1 Hw1. by apply Hgo.
  - apply orb_false_iff in Hclose as [H0 Hfull]. apply negb_false_iff, Nat.eqb_eq, length_zero_iff_nil in H0.
    step. step. rewrite H0. apply (runs_eval _ _ tt (with_tail_words (words_since_tail_publish w + Z.of_nat n) (with_builder b w))); [apply append_loop_nil|].
    unfold Q. by rewrite Hfull, H0.
Qed.
End Append.
