(* ===== verification/WordStoreOperations.v ===== *)
(** The writer's operations: each keeps the words appended so far, or fails and leaves the first
    of them readable. *)

From stdpp Require Import gmap.
From S2P Require Import Prelude Events Vlq WordFormat WordEncode WordDecode WordRecords WordCodec WordBuilder.
From S2P Require Import WordRoundTrip WordPresence WordPresenceIndex WordPresenceProofs AnnotationQuery.
From S2P Require Import WordStore WordStoreBlocks WordStorePipeline WordStoreInvariant WordStoreAppend.

#[local] Open Scope Z_scope.

(** ** The order of words *)

Fixpoint in_order (previous : option Z) (ws : list Word) : bool :=
  match ws with
  | [] => true
  | w :: ws => (match previous with Some p => p <=? timestamp_ns w | None => true end) && in_order (Some (timestamp_ns w)) ws
  end.

Lemma in_order_records p ws : in_order (Some p) ws = true -> Forall entry_ok ws -> records_ok 8 p ws.
Proof.
  revert p. induction ws as [|w ws IH]; intros p Ho He; [done|]. cbn in Ho. apply andb_true_iff in Ho as [Hp Ho].
  apply Forall_cons in He as [[(Hv & Ht & _) _] He]. cbn. split; [unfold u64 in Hv; change (256 ^ 8) with 18446744073709551616; ints|].
  split; [ints|]. by apply IH.
Qed.

Lemma in_order_stream ws more : stream_ok ws -> Forall entry_ok more -> in_order (timestamp_ns <$> last ws) more = true ->
  stream_ok (ws ++ more).
Proof.
  intros [Hr He] Hm Ho. split; [|by apply Forall_app]. destruct more as [|x more]; [by rewrite app_nil_r|].
  destruct ws as [|w ws]; cbn [app].
  - apply in_order_records; [|done]. cbn in *. by rewrite Z.leb_refl.
  - apply (records_ok_app 8 (first_time (w :: ws)) (w :: ws)). split; [done|]. destruct (last (w :: ws)) as [y|] eqn:Hl; [|by apply last_None in Hl].
    by apply in_order_records.
Qed.

(** The time of the last word, among new ones or before. *)
Definition latest_after (latest : option Z) (ws : list Word) : option Z :=
  match last ws with Some w => Some (timestamp_ns w) | None => latest end.

Lemma latest_after_app ws more : latest_after (timestamp_ns <$> last ws) more = timestamp_ns <$> last (ws ++ more).
Proof. unfold latest_after. rewrite last_app. by destruct (last more). Qed.

Lemma check_order_eq ws : forall w,
  if in_order (last_timestamp_ns w) ws
  then check_order ws w = Some (Ok tt, with_last_timestamp (latest_after (last_timestamp_ns w) ws) w)
  else exists n previous t latest, check_order ws w = Some (Err (Codec (OutOfOrder n previous t)), with_last_timestamp latest w).
Proof.
  induction ws as [|x ws IH]; intros w; [by destruct w|]. cbn [in_order check_order].
  specialize (IH (with_last_timestamp (Some (timestamp_ns x)) w)). cbn [last_timestamp_ns with_last_timestamp] in IH.
  assert (Hlatest : forall l, latest_after l (x :: ws) = latest_after (Some (timestamp_ns x)) ws).
  { intros l. unfold latest_after. change (x :: ws) with ([x] ++ ws). rewrite last_app. by destruct (last ws). }
  rewrite Hlatest. destruct (last_timestamp_ns w) as [p|] eqn:Hp; cbn [andb].
  2: { destruct (in_order (Some (timestamp_ns x)) ws); [|destruct IH as (n & previous & t & l & IH); by eexists n, previous, t, l].
       by destruct w. }
  destruct (Z.leb_spec p (timestamp_ns x)) as [Hle|Hlt]; cbn [andb].
  - rewrite (proj2 (Z.ltb_ge _ _)) by lia.
    destruct (in_order (Some (timestamp_ns x)) ws); [|destruct IH as (n & previous & t & l & IH); by eexists n, previous, t, l].
    by destruct w.
  - rewrite (proj2 (Z.ltb_lt _ _)) by lia. exists (zlen (words (builder w))), p, (timestamp_ns x), (last_timestamp_ns w). by destruct w.
Qed.

Lemma in_order_app l1 l2 : forall previous, in_order previous (l1 ++ l2) = in_order previous l1 && in_order (latest_after previous l1) l2.
Proof.
  induction l1 as [|w l1 IH]; intros previous; [done|]. cbn [app in_order]. rewrite IH, andb_assoc. do 2 f_equal.
  unfold latest_after. change (w :: l1) with ([w] ++ l1). rewrite last_app. by destruct (last l1).
Qed.

(** ** The words of the store *)

Section Operations.
Context (c : BlockCodecConfig) (repository_accepts : RepositoryOp -> bool) (executor_accepts : Z -> bool).
Context (F : Prop) (refused_fault : refused repository_accepts -> F).
Context (executor_fault : (exists sequence, executor_accepts sequence = false) -> F).

(** A live writer that was given these words. *)
Definition writing (w : Writer) (ws : list Word) : Prop :=
  stream_ok ws /\ exists closed current, fold_left (place c) ws ([], []) = (closed, current) /\
    holds c (timestamp_ns <$> last ws) w closed current.

Lemma writing_words ws closed current : fold_left (place c) ws ([], []) = (closed, current) -> ws = concat closed ++ current.
Proof. intros H. pose proof (places_words c ws ([], [])) as Hw. rewrite H in Hw. by cbn in Hw. Qed.

Lemma writing_config w ws : writing w ws -> 0 < max_words c.
Proof.
  intros (_ & closed & current & _ & bs & dispatched & _ & Hinv). destruct (inv_builder _ _ _ _ _ _ Hinv) as (((_ & Hm & _) & _) & <- & _). lia.
Qed.

Lemma holds_latest latest latest' w closed current : holds c latest w closed current ->
  holds c latest' (with_last_timestamp latest' w) closed current.
Proof.
  intros (bs & dispatched & Heq & [Hs Hn Ht Hp Hr Hb Hbu Hsm Hl Hc Hne Htail Hlast Hcount]). exists bs, dispatched.
  split; [done|]. split; try done. by apply (segments_same c w).
Qed.

(** Words that the writer can be given. *)
Definition givable (ws more : list Word) : Prop :=
  Forall entry_ok more /\ words_small c more /\ zlen (ws ++ more) < u64_max /\
  (in_order (timestamp_ns <$> last ws) more = false -> F).

Lemma append_batch_inner_writing w ws more : writing w ws -> givable ws more ->
  runs (append_batch_inner repository_accepts executor_accepts more) w (fun _ w' => writing w' (ws ++ more)) (failed c F (ws ++ more)).
Proof.
  intros Hw (Hentry & Hsmall & Hcount & Hdisorder). pose proof (writing_config w ws Hw) as Hmax.
  destruct Hw as (Hs & closed & current & Hfold & Hw). pose proof (writing_words ws closed current Hfold) as Hwords.
  set (latest := timestamp_ns <$> last ws) in *. unfold append_batch_inner.
  assert (Hprefix : concat closed ++ current `prefix_of` ws ++ more) by (rewrite <- Hwords; by exists more).
  eapply runs_seq.
  { eapply runs_mono; [by apply (drain_holds c latest repository_accepts F)|intros ? ? H; exact H|]. intros w'. by apply failed_mono. }
  intros _ w1 [Hw1 _]. pose proof (check_order_eq more w1) as Hcheck.
  assert (Hlatest : last_timestamp_ns w1 = latest) by (destruct Hw1 as (? & ? & _ & Hinv); apply Hinv). rewrite Hlatest in Hcheck.
  destruct (in_order latest more) eqn:Horder.
  2: { destruct Hcheck as (n & previous & t & l & Hcheck). step. eapply runs_error; [exact Hcheck|].
       apply (holds_latest _ l) in Hw1. destruct Hw1 as (bs & dispatched & -> & Hinv).
       apply (inv_failed c l F) in Hinv; [|by apply Hdisorder]. rewrite words_of_closed in Hinv. revert Hinv. by apply failed_mono. }
  step. eapply runs_eval; [exact Hcheck|]. apply (holds_latest _ (latest_after latest more)) in Hw1.
  assert (Hstream : stream_ok (ws ++ more)) by (by apply in_order_stream).
  pose proof (places_below c Hmax ws ([], [])) as Hbelow. rewrite Hfold in Hbelow. specialize (Hbelow Hmax). cbn [snd] in Hbelow.
  assert (Hall : concat closed ++ current ++ more = ws ++ more) by (by rewrite app_assoc, <- Hwords).
  eapply runs_seq.
  { eapply runs_mono; [apply (append_loop_holds c repository_accepts executor_accepts F refused_fault executor_fault
      (latest_after latest more) _ more _ closed current); try done|intros ? ? H; exact H|].
    - rewrite Hwords, <- app_assoc in Hstream. by apply stream_ok_app_r in Hstream.
    - by rewrite Hall.
    - unfold turns. destruct more, current; cbn [length]; lia.
    - intros w'. by rewrite Hall. }
  intros y w2 Hw2. cbv beta in Hw2. destruct (fold_left (place c) more (closed, current)) as [closed' current'] eqn:Hfold'. cbn [fst snd] in Hw2.
  assert (Hfold2 : fold_left (place c) (ws ++ more) ([], []) = (closed', current')) by (by rewrite fold_left_app, Hfold).
  eapply runs_mono; [by apply (drain_holds c (latest_after latest more) repository_accepts F)| |].
  - intros z w3 [Hw3 _]. split; [done|]. exists closed', current'. unfold latest in Hw3. by rewrite latest_after_app in Hw3.
  - intros w3. by rewrite <- (writing_words _ _ _ Hfold2).
Qed.

Lemma givable_app ws l1 l2 : givable ws (l1 ++ l2) -> givable ws l1 /\ givable (ws ++ l1) l2.
Proof.
  intros (He & [Hlimit Hs] & Hn & Ho). apply Forall_app in He as [He1 He2]. apply Forall_app in Hs as [Hs1 Hs2].
  rewrite in_order_app, latest_after_app in Ho. rewrite app_assoc in Hn. split; (split; [done|]; split; [by split|]).
  - split; [rewrite zlen_app in Hn; pose proof (zlen_nonneg l2); lia|]. intros H. apply Ho. by rewrite H.
  - split; [done|]. intros H. apply Ho. rewrite H. by rewrite andb_false_r.
Qed.

Lemma append_each_writing batches : forall w ws, writing w ws -> givable ws (concat batches) ->
  runs (append_each repository_accepts executor_accepts batches) w (fun _ w' => writing w' (ws ++ concat batches))
    (failed c F (ws ++ concat batches)).
Proof.
  induction batches as [|batch batches IH]; intros w ws Hw Hg; cbn [append_each concat] in *.
  { step. by rewrite app_nil_r. }
  apply givable_app in Hg as [Hg1 Hg2]. eapply runs_seq.
  { eapply runs_mono; [by apply append_batch_inner_writing|intros ? ? H; exact H|]. intros w'. apply failed_mono; [done|].
    exists (concat batches). by rewrite app_assoc. }
  intros y w1 Hw1. rewrite app_assoc. by apply IH.
Qed.

Lemma drain_writing w ws : writing w ws ->
  runs (drain_completed_blocks repository_accepts) w (fun _ w' => writing w' ws) (failed c F ws).
Proof.
  intros (Hs & closed & current & Hfold & Hw). pose proof (writing_words ws closed current Hfold) as Hwords.
  eapply runs_mono; [by apply (drain_holds c (timestamp_ns <$> last ws) repository_accepts F refused_fault)| |].
  - intros z w3 [Hw3 _]. split; [done|]. by exists closed, current.
  - intros w'. by rewrite Hwords.
Qed.

(** The words of the current block become visible. *)
Lemma publish_tail_holds latest w bs current : inv c latest w bs [] current -> inv c latest (publish_hot_tail_inner w) bs [] current.
Proof.
  intros [Hs Hn Ht Hp Hr Hb Hbu Hsm Hl Hc Hne Htail Hlast Hcount]. split; try done.
  - by destruct Hs.
  - by destruct Hc.
  - destruct Hbu as (_ & _ & Hw). cbn. by rewrite Hw.
Qed.

Lemma publish_prefix_writing hot_tail_publish_words elapsed w ws : writing w ws ->
  runs (publish_appended_prefix repository_accepts hot_tail_publish_words elapsed) w (fun _ w' => writing w' ws) (failed c F ws).
Proof.
  intros Hw. unfold publish_appended_prefix. eapply runs_seq; [by apply drain_writing|]. intros y w1 Hw1. cbv beta in Hw1.
  unfold runs. destruct (Nat.eqb_spec (outstanding_blocks w1) 0) as [H0|]; cbn [andb]; [|exact Hw1].
  destruct (_ && _); [|done]. destruct Hw1 as (Hs & closed & current & Hfold & bs & dispatched & -> & Hinv).
  rewrite (inv_outstanding _ _ _ _ _ _ Hinv) in H0. apply length_zero_iff_nil in H0 as ->.
  split; [done|]. exists (bs ++ map words []), current. split; [done|]. exists bs, []. split; [done|]. by apply publish_tail_holds.
Qed.

(** ** Operations *)

(** What a failed operation leaves: the store has failed, the hot tail is gone, and the committed
    blocks, the first of the words given, can still be read. *)
Definition salvaged (ws : list Word) (w : Writer) : Prop :=
  F /\ status (state (shared w)) = Failed /\ terminal w = true /\ hot_tail (state (shared w)) = [] /\
  exists bs rest, readable c (shared w) bs /\ catalogued (state (shared w)) bs /\ ws = concat bs ++ rest.

Lemma failed_salvaged ws w : failed c F ws w -> salvaged ws (fail w).
Proof.
  intros (HF & Hl & bs & rest & Hr & Hc & ->). unfold salvaged, fail. cbn. unfold mark_failed. rewrite Hl. cbn.
  split_and!; try done. exists bs, rest. split; [done|]. split; [|done]. by destruct Hc.
Qed.

Lemma runs_failing {A} (m : M A) w Q ws : runs m w Q (failed c F ws) -> runs (failing m) w Q (salvaged ws).
Proof.
  unfold runs, failing. destruct (m w) as [[[x|e] w']|]; [done|apply failed_salvaged|done].
Qed.

Lemma writing_live w ws : writing w ws -> status (state (shared w)) = Live.
Proof. intros (_ & closed & current & _ & bs & dispatched & _ & Hinv). apply Hinv. Qed.

Lemma ensure_live_writing w ws : writing w ws -> ensure_live w = Some (Ok tt, w).
Proof. intros H%writing_live. unfold ensure_live. by rewrite H. Qed.

Lemma append_batches_writing hot_tail_publish_words batches elapsed w ws : writing w ws -> givable ws (concat batches) ->
  runs (append_batches repository_accepts executor_accepts hot_tail_publish_words batches elapsed) w
    (fun _ w' => writing w' (ws ++ concat batches)) (salvaged (ws ++ concat batches)).
Proof.
  intros Hw Hg. unfold append_batches. step. eapply runs_eval; [by eapply ensure_live_writing|].
  apply runs_failing. eapply runs_seq; [by apply append_each_writing|]. intros y w1 Hw1. by apply publish_prefix_writing.
Qed.

Lemma append_batch_writing hot_tail_publish_words batch elapsed w ws : writing w ws -> givable ws batch ->
  runs (append_batch repository_accepts executor_accepts hot_tail_publish_words batch elapsed) w
    (fun _ w' => writing w' (ws ++ batch)) (salvaged (ws ++ batch)).
Proof.
  intros Hw Hg. unfold append_batch. step. eapply runs_eval; [by eapply ensure_live_writing|].
  apply runs_failing. eapply runs_seq; [by apply append_batch_inner_writing|]. intros y w1 Hw1. by apply publish_prefix_writing.
Qed.

(** Publishing the tail does not mark a store whose blocks could not be written as failed. *)
Lemma publish_hot_tail_writing w ws : writing w ws ->
  runs (publish_hot_tail repository_accepts) w
    (fun _ w' => writing w' ws /\ exists bs, readable c (shared w') bs /\ concat bs ++ hot_tail (state (shared w')) = ws)
    (failed c F ws).
Proof.
  intros Hw. unfold publish_hot_tail. step. eapply runs_eval; [by eapply ensure_live_writing|].
  destruct Hw as (Hs & closed & current & Hfold & Hw). pose proof (writing_words ws closed current Hfold) as Hwords.
  step. eapply runs_mono; [by apply (flush_holds c (timestamp_ns <$> last ws) repository_accepts F refused_fault)| |intros w'; by rewrite Hwords].
  intros y w1 Hinv. step. pose proof (publish_tail_holds _ _ _ _ Hinv) as Hinv'. split.
  - split; [done|]. exists closed, current. split; [done|]. exists closed, []. by rewrite app_nil_r.
  - exists closed. split; [by apply segments_readable, Hinv'|]. rewrite Hwords. cbn. f_equal. apply Hinv.
Qed.

(** A finished store. *)
Definition finished (ws : list Word) (w : Writer) : Prop :=
  stream_ok ws /\ status (state (shared w)) = Finished /\ terminal w = true /\ active_segment w = None /\
  segments c w (blocks_of c ws) /\ catalogued (state (shared w)) (blocks_of c ws) /\ hot_tail (state (shared w)) = [].

Lemma finish_writing persistence publish_index w ws :
  (persistence = true -> (exists s, publish_index s = false) -> F) -> writing w ws ->
  runs (finish repository_accepts executor_accepts persistence publish_index) w (fun _ w' => finished ws w') (salvaged ws).
Proof.
  intros Hindex Hw. unfold finish. step. eapply runs_eval; [by eapply ensure_live_writing|]. apply runs_failing.
  destruct Hw as (Hs & closed & current & Hfold & Hw). pose proof (writing_words ws closed current Hfold) as Hwords.
  unfold finish_inner. eapply runs_seq.
  { eapply runs_mono; [by apply (dispatch_holds c repository_accepts executor_accepts F refused_fault executor_fault (timestamp_ns <$> last ws))|intros ? ? H; exact H|].
    intros w'. by rewrite Hwords. }
  intros y1 w1 Hw1. assert (Hclose : concat (close (closed, current)) ++ [] = ws) by (rewrite close_words, app_nil_r, Hwords; done).
  eapply runs_seq.
  { cbv beta in Hw1. eapply runs_mono; [apply (flush_holds c (timestamp_ns <$> last ws) repository_accepts F refused_fault w1 _ _ Hw1)|intros ? ? H; exact H|].
    intros w'. by rewrite Hclose. }
  intros y2 w2 Hw2. cbv beta in Hw2. pose proof Hw2 as [Hseg Hn Ht Hp Hr Hb Hbu Hsm Hl Hc Hne Htail Hlast Hcount].
  eapply runs_seq.
  { eapply runs_mono; [by apply (publish_segments c repository_accepts)|intros ? ? H; exact H|].
    intros w' Hd. apply (failed_mono c (refused repository_accepts) F ws ws); [done|done|].
    rewrite <- Hclose. by apply (damaged_failed _ _ _ _ _ [] _ _ Hw2) in Hd. }
  intros y3 w3 (Hseg3 & Ha3 & Hcore3 & _). apply core_state in Hcore3. rewrite <- Hcore3 in Hl, Hc, Htail.
  assert (Hblocks : close (closed, current) = blocks_of c ws) by (unfold blocks_of; by rewrite Hfold).
  rewrite Hblocks in *. assert (Hnil : hot_tail (state (shared w3)) = []).
  { destruct Htail as [more Htail]. by destruct (hot_tail (state (shared w3))). }
  assert (Hdone : forall w4, segments c w4 (blocks_of c ws) -> active_segment w4 = None -> state (shared w4) = state (shared w3) ->
    finished ws (set_terminal (with_state (fun s => mkLive (directory s) (presence s) (add64 (generation s) 1)
      (committed_word_count s) (committed_data_len s) (committed_first_timestamp_ns s) (committed_last_timestamp_ns s)
      (hot_tail s) Finished) w4))).
  { intros w4 [G1 G2 G3 G4] Ha4 Hst. unfold finished. cbn. rewrite Hst. split_and!; try done.
    by destruct Hc. }
  destruct persistence; [|by apply Hdone].
  eapply runs_seq with (Q' := fun _ w4 => segments c w4 (blocks_of c ws) /\ active_segment w4 = None /\ state (shared w4) = state (shared w3)).
  - unfold runs. destruct (publish_index (state (shared w3))) eqn:Hpub.
    + split; [|done]. by destruct Hseg3.
    + split; [apply Hindex; [done|by eexists]|]. split; [done|]. exists (blocks_of c ws), []. split; [by apply segments_readable|].
      split; [done|]. by rewrite app_nil_r, blocks_of_words.
  - intros y4 w4 (G1 & G2 & G3). by apply Hdone.
Qed.
End Operations.
