(* ===== verification/WordStoreProperties.v ===== *)
(** What the store of derived words promises: a finished store holds the words it was given, cut
    into blocks in one way; what is visible before is a prefix of them; every operation returns; and
    queries that read its blocks through the cache answer as if they read all its words. *)

From stdpp Require Import gmap.
From S2P Require Import Prelude Events Vlq WordFormat WordEncode WordDecode WordRecords WordCodec WordBuilder.
From S2P Require Import WordRoundTrip WordPresence WordPresenceIndex WordPresenceProofs DerivedIndex AnnotationQuery DecodedBlockCache.
From S2P Require Import WordStore WordStoreBlocks WordStorePipeline WordStoreInvariant WordStoreAppend.
From S2P Require Import WordStoreOperations WordWindow WordRange WordPresenceRuns WordPresenceProperties.
From S2P Require Import AnnotationSelection AnnotationExact AnnotationProperties.

#[local] Open Scope Z_scope.

(** ** Reading back *)

(** The directory lists the blocks, and each of them can be read and decoded. *)
Definition reads_back (repository_accepts : RepositoryOp -> bool) (s : StoreShared) (bs : list (list Word)) : Prop :=
  length (directory (state s)) = length bs /\
  forall i ws, bs !! i = Some ws -> exists entry decoded, directory (state s) !! i = Some entry /\
    read_entry repository_accepts s entry = Ok decoded /\ decoded_words decoded = ws.

Section Read.
Context (c : BlockCodecConfig) (repository_accepts : RepositoryOp -> bool).
Hypothesis reads_accepted : forall segment, repository_accepts (ReadSegment segment) = true.

Lemma read_available s i entry ws m bytes : encodes c i ws m bytes -> u64 (Z.of_nat i) -> describes entry m ->
  available s i entry bytes -> read_entry_bytes repository_accepts s entry = Ok bytes.
Proof.
  intros Hm Hi [Hd Hend] Ha. destruct (encodes_facts _ _ _ _ _ Hm Hi) as (_ & _ & Hseq & _ & _ & _ & Hlen & _).
  assert (Hes : entry_sequence entry = Z.of_nat i) by (rewrite Hd; done).
  assert (Heb : entry_block_len entry = zlen bytes) by (rewrite Hd; done).
  unfold read_entry_bytes. rewrite Hes, Heb. destruct Ha as [->|(-> & content & Hc & Ho)]; [done|].
  rewrite reads_accepted, Hc. unfold checked_add64. rewrite (proj2 (Z.leb_le _ _)) by lia.
  unfold at_offset in Ho. rewrite Ho. unfold slice in Ho.
  destruct (_ && (entry_segment_offset entry + zlen bytes <=? zlen content)) eqn:Hb; [|done].
  apply andb_true_iff in Hb as [_ Hb%Z.leb_le]. by rewrite (proj2 (Z.ltb_ge _ _)) by lia.
Qed.

Lemma read_encoded s i entry ws m bytes : encodes c i ws m bytes -> u64 (Z.of_nat i) -> describes entry m ->
  available s i entry bytes -> read_entry repository_accepts s entry = Ok (mkDecoded (header m) (restarts m) ws).
Proof.
  intros Hm Hi Hd Ha. unfold read_entry. rewrite (read_available s i entry ws m bytes) by done.
  destruct (encodes_facts _ _ _ _ _ Hm Hi) as (_ & -> & _). cbn [decoded_header]. destruct Hd as [-> _].
  unfold validate_directory_header. cbn. by rewrite !Z.eqb_refl.
Qed.

(** A block holds a word. *)
Lemma readable_nonempty s bs : readable c s bs -> Forall (fun ws => ws <> []) bs.
Proof.
  intros [Hlen Hblocks]. apply Forall_lookup. intros i ws Hw. destruct (lookup_lt_is_Some_2 (directory (state s)) i) as [entry He].
    { apply lookup_lt_Some in Hw. lia. }
  destruct (Hblocks i entry ws He Hw) as (m & bytes & (b & _ & _ & <- & Henc) & _). by apply (encode_header b (Z.of_nat i) m bytes).
Qed.

Lemma blocks_count (bs : list (list Word)) : Forall (fun ws => ws <> []) bs -> (length bs <= length (concat bs))%nat.
Proof.
  induction 1 as [|ws bs Hw _ IH]; [done|]. cbn [concat length]. rewrite length_app. destruct ws; [done|]. cbn [length]. lia.
Qed.

Lemma readable_count s bs : readable c s bs -> (length bs <= length (concat bs))%nat.
Proof. intros Hread. by apply blocks_count, readable_nonempty with s. Qed.

Lemma readable_reads_back s bs rest : readable c s bs -> zlen (concat bs ++ rest) < u64_max -> reads_back repository_accepts s bs.
Proof.
  intros Hread Hmax. pose proof (readable_count s bs Hread) as Hcount. destruct Hread as [Hlen Hblocks]. split; [done|]. intros i ws Hw. pose proof (lookup_lt_Some _ _ _ Hw) as Hi.
  destruct (lookup_lt_is_Some_2 (directory (state s)) i) as [entry He]; [lia|].
  destruct (Hblocks i entry ws He Hw) as (m & bytes & Hm & Hd & Ha).
  exists entry, (mkDecoded (header m) (restarts m) ws). split; [done|]. split; [|done]. apply (read_encoded s i entry ws m bytes); try done.
  unfold zlen in Hmax. rewrite length_app in Hmax. ints.
Qed.
End Read.

(** ** Sessions *)

(** A call of the writer's owner; the flag tells whether the publication interval has elapsed. *)
Inductive StoreOp :=
| AppendBatch (words : list Word) (elapsed : bool)
| AppendBatches (batches : list (list Word)) (elapsed : bool)
| PublishTail.

Definition op_words (op : StoreOp) : list Word :=
  match op with AppendBatch ws _ => ws | AppendBatches batches _ => concat batches | PublishTail => [] end.

Definition session_words (ops : list StoreOp) : list Word := concat (map op_words ops).

Section Session.
Context (repository_accepts : RepositoryOp -> bool) (executor_accepts : Z -> bool).
Context (persistence : bool) (publish_index : LiveState -> bool) (hot_tail_publish_words : Z).

Definition run_op (op : StoreOp) : M unit :=
  match op with
  | AppendBatch ws elapsed => append_batch repository_accepts executor_accepts hot_tail_publish_words ws elapsed
  | AppendBatches batches elapsed => append_batches repository_accepts executor_accepts hot_tail_publish_words batches elapsed
  | PublishTail => publish_hot_tail repository_accepts
  end.

Fixpoint run_ops (ops : list StoreOp) : M unit :=
  match ops with
  | [] => ret tt
  | op :: ops => bind (run_op op) (fun _ => run_ops ops)
  end.

Definition run_session (ops : list StoreOp) : M unit :=
  bind (run_ops ops) (fun _ => finish repository_accepts executor_accepts persistence publish_index).
End Session.

(** ** The start *)

Lemma workers_positive workers : 0 < block_encoder_count workers.
Proof. unfold block_encoder_count, MAX_BLOCK_ENCODERS_PER_STORE. destruct (workers <=? 2); lia. Qed.

Lemma new_writing c hot_tail_publish_words workers schedule w0 : config_in c ->
  writer_new c hot_tail_publish_words workers schedule = Ok w0 -> writing c w0 [].
Proof.
  intros (H1 & H2 & H3) Hnew. unfold writer_new in Hnew. destruct (hot_tail_publish_words =? 0); [done|].
  destruct (WordBlockBuilder_new c) as [b|] eqn:Hb; [|done]. injection Hnew as <-.
  apply builder_new_ok in Hb as (Hok & Hw & Hc); [|done..]. split; [by split; [|constructor]|].
  exists [], []. split; [done|]. exists [], []. split; [done|]. pose proof (workers_positive workers).
  split; cbn; try done; try lia.
  - split; cbn; try done. by exists [].
Qed.

(** ** Running a session *)

Section Run.
Context (c : BlockCodecConfig) (repository_accepts : RepositoryOp -> bool) (executor_accepts : Z -> bool).
Context (persistence : bool) (publish_index : LiveState -> bool) (hot_tail_publish_words : Z).
Context (F : Prop) (refused_fault : refused repository_accepts -> F).
Context (executor_fault : (exists sequence, executor_accepts sequence = false) -> F).
Context (index_fault : persistence = true -> (exists s, publish_index s = false) -> F).

Abbreviation run_op' := (run_op repository_accepts executor_accepts hot_tail_publish_words).
Abbreviation run_ops' := (run_ops repository_accepts executor_accepts hot_tail_publish_words).
Abbreviation run_session' := (run_session repository_accepts executor_accepts persistence publish_index hot_tail_publish_words).

(** What a session that fails leaves; only publishing the tail leaves the store live. *)
Definition left_over (ops : list StoreOp) (ws : list Word) (w : Writer) : Prop :=
  salvaged c F ws w \/ PublishTail ∈ ops /\ failed c F ws w.

Lemma salvaged_mono ws ws' w : ws `prefix_of` ws' -> salvaged c F ws w -> salvaged c F ws' w.
Proof.
  intros [more ->] (H1 & H2 & H3 & H4 & bs & rest & H5 & H6 & ->). split_and!; try done.
  exists bs, (rest ++ more). by rewrite app_assoc.
Qed.

Lemma run_op_writing op w ws : writing c w ws -> givable c F ws (op_words op) ->
  runs (run_op' op) w (fun _ w' => writing c w' (ws ++ op_words op)) (left_over [op] (ws ++ op_words op)).
Proof.
  intros Hw Hg. destruct op as [batch elapsed|batches elapsed|]; cbn [run_op op_words] in *.
  - eapply runs_mono; [by apply (append_batch_writing c repository_accepts executor_accepts F)|done|]. intros w' H. by left.
  - eapply runs_mono; [by apply (append_batches_writing c repository_accepts executor_accepts F)|done|]. intros w' H. by left.
  - rewrite app_nil_r. eapply runs_mono; [by apply (publish_hot_tail_writing c repository_accepts F)| |].
    + intros y w' [H _]. done.
    + intros w' H. right. split; [by left|done].
Qed.

Lemma run_ops_writing ops : forall w ws, writing c w ws -> givable c F ws (session_words ops) ->
  runs (run_ops' ops) w (fun _ w' => writing c w' (ws ++ session_words ops)) (left_over ops (ws ++ session_words ops)).
Proof.
  induction ops as [|op ops IH]; intros w ws Hw Hg; cbn [run_ops]; unfold session_words in *; cbn [map concat] in *.
  { step. by rewrite app_nil_r. }
  apply givable_app in Hg as [Hg1 Hg2]. rewrite app_assoc. eapply runs_seq.
  - eapply runs_mono; [by apply run_op_writing|intros ? ? H; exact H|]. intros w' [H|[Hin H]]; [left|right; split].
    + revert H. apply salvaged_mono. by eexists.
    + apply list_elem_of_singleton in Hin as <-. by left.
    + revert H. apply failed_mono; [done|]. by eexists.
  - intros y w1 Hw1. eapply runs_mono; [exact (IH w1 (ws ++ op_words op) Hw1 Hg2)|done|]. intros w' [H|[Hin H]]; [by left|right]. split; [by right|done].
Qed.

Lemma run_session_writing ops w ws : writing c w ws -> givable c F ws (session_words ops) ->
  runs (run_session' ops) w (fun _ w' => finished c (ws ++ session_words ops) w') (left_over ops (ws ++ session_words ops)).
Proof.
  intros Hw Hg. unfold run_session. eapply runs_seq; [by apply run_ops_writing|]. intros y w1 Hw1.
  eapply runs_mono; [exact (finish_writing c repository_accepts executor_accepts F refused_fault executor_fault persistence publish_index w1 _ index_fault Hw1)|done|]. intros w' H. by left.
Qed.
End Run.

Lemma stream_in_order previous ws : records_ok 8 previous ws -> in_order (Some previous) ws = true.
Proof.
  revert previous. induction ws as [|w ws IH]; intros previous Hr; [done|]. destruct Hr as (_ & Ht & Hr). cbn.
  rewrite (proj2 (Z.leb_le _ _)) by lia. by apply IH.
Qed.

Lemma stream_in_order_new ws : stream_ok ws -> in_order None ws = true.
Proof. intros [Hr _]. destruct ws as [|w ws]; [done|]. cbn. apply stream_in_order. apply Hr. Qed.

Lemma givable_stream c F ws : stream_ok ws -> words_small c ws -> zlen ws < u64_max -> givable c F [] ws.
Proof.
  intros Hs Hsmall Hn. split; [apply Hs|]. split; [done|]. split; [done|]. cbn. intros H. by rewrite stream_in_order_new in H.
Qed.

(** ** Queries through the store *)

(** What the directory and the index say of the blocks is what a query relies on. *)
Lemma in_block_runs bs r : In r (block_runs bs) <->
  exists i ws, bs !! i = Some ws /\ In r (general_word_presence_summaries (Z.of_nat i) ws).
Proof.
  unfold block_runs. rewrite in_concat. split.
  - intros (l & Hl & Hr). apply list_elem_of_In, list_elem_of_lookup in Hl as [i Hi]. rewrite list_lookup_imap in Hi.
    apply fmap_Some in Hi as (ws & Hw & ->). by exists i, ws.
  - intros (i & ws & Hw & Hr). exists (general_word_presence_summaries (Z.of_nat i) ws). split; [|done].
    apply list_elem_of_In, list_elem_of_lookup. exists i. by rewrite list_lookup_imap, Hw.
Qed.

Lemma strict_ascending ws : strict ws -> ascending timestamp_ns ws.
Proof.
  induction 1 as [|w ws _ IH Hw]; [constructor|]. constructor; [done|]. eapply Forall_impl; [exact Hw|]. cbn. lia.
Qed.

(** A word ends, with the end inferred for one of no duration, before the end of time. *)
Definition ends_in_time (w : Word) : Prop := timestamp_ns w + duration_ns w + MAX_PRESENCE_CADENCE_NS < u64_max.

Section Described.
Context (bs : list (list Word)).
Hypothesis (Hne : Forall (fun ws => ws <> []) bs) (Hstrict : strict (concat bs)) (Htimes : Forall times_ok (concat bs)).
Hypothesis (Hcount : zlen (concat bs) < u64_max).

Lemma block_facts i ws : bs !! i = Some ws ->
  ws <> [] /\ strict ws /\ Forall times_ok ws /\ ascending timestamp_ns ws /\ zlen ws < u64_max /\
  general_word_presence_summaries (Z.of_nat i) ws = cut (run_of (Z.of_nat i) ws) 0 (block_boundaries ws) (length ws).
Proof.
  intros Hw. pose proof (take_drop_middle bs i ws Hw) as Heq. rewrite <- Heq, concat_app in Hstrict, Htimes, Hcount. cbn in Hstrict, Htimes, Hcount.
  apply strict_app in Hstrict as (_ & _ & Hs). apply strict_app in Hs as (_ & Hs & _).
  apply Forall_app in Htimes as [_ Ht]. apply Forall_app in Ht as [Ht _].
  assert (Hlen : zlen ws < u64_max).
  { rewrite !zlen_app in Hcount. pose proof (zlen_nonneg (concat (take i bs))). pose proof (zlen_nonneg (concat (drop (S i) bs))). lia. }
  assert (Ha : ascending timestamp_ns ws) by by apply strict_ascending.
  rewrite Forall_forall in Hne. pose proof (Hne ws ltac:(by eapply list_elem_of_lookup_2)).
  split_and!; try done. by apply general_summaries_cut.
Qed.

Lemma block_runs_in r : In r (block_runs bs) -> exists i ws a b, bs !! i = Some ws /\ (a < b <= length ws)%nat /\
  r = run_of (Z.of_nat i) ws a b.
Proof.
  intros (i & ws & Hw & Hr)%in_block_runs. destruct (block_facts i ws Hw) as (Hn & _ & _ & _ & _ & Heq). rewrite Heq in Hr.
  apply runs_in in Hr as (a & b & Hab & ->); [|done]. by exists i, ws, a, b.
Qed.

Lemma block_runs_ok : Forall ends_in_time (concat bs) -> Forall run_ok (block_runs bs).
Proof.
  intros Hends. apply List.Forall_forall. intros r (i & ws & Hw & Hr)%in_block_runs.
  destruct (block_facts i ws Hw) as (Hn & _ & Ht & Ha & _ & Heq). rewrite Heq in Hr.
  assert (He : Forall ends_in_time ws).
  { rewrite List.Forall_forall in Hends |- *. intros w Hin. apply Hends, in_concat. exists ws. split; [|done].
    apply list_elem_of_In. by eapply list_elem_of_lookup_2. }
  pose proof (runs_ok (Z.of_nat i) ws Ht Hn He) as Hok. rewrite List.Forall_forall in Hok. by apply Hok.
Qed.

End Described.

Lemma snoc_words (bs : list (list Word)) ws : concat (bs ++ [ws]) = concat bs ++ ws.
Proof. rewrite concat_app. cbn. by rewrite app_nil_r. Qed.

Lemma block_runs_ascending bs : Forall (fun ws => ws <> []) bs -> strict (concat bs) -> Forall times_ok (concat bs) ->
  zlen (concat bs) < u64_max -> ascending summary_start (block_runs bs).
Proof.
  induction bs as [|ws bs IH] using rev_ind; intros Hne Hs Ht Hc; [constructor|].
  destruct (block_facts _ Hne Hs Ht Hc (length bs) ws) as (Hn & _ & Hwt & Hwa & _ & Heq); [by apply list_lookup_middle|].
  rewrite snoc_words in Hs, Ht, Hc. apply Forall_app in Hne as [Hne _]. apply strict_app in Hs as (Hcross & Hs & _).
  apply Forall_app in Ht as [Ht _]. rewrite zlen_app in Hc. pose proof (zlen_nonneg ws).
  assert (Hc' : zlen (concat bs) < u64_max) by lia.
  rewrite block_runs_snoc. apply sorting.StronglySorted_app. split; [|split].
  - intros x y Hx%list_elem_of_In Hy%list_elem_of_In. apply block_runs_in in Hx as (i & ws' & a & b & Hw' & Hab & ->); [|done..].
    rewrite Heq in Hy. apply runs_in in Hy as (a' & b' & Hab' & ->); [|done]. cbn. unfold start_at.
    apply Z.lt_le_incl, Hcross; [|apply list_elem_of_lookup_total_2; lia].
    apply list_elem_of_In, in_concat. exists ws'. split; apply list_elem_of_In; [by eapply list_elem_of_lookup_2|].
    apply list_elem_of_lookup_total_2; lia.
  - by apply IH.
  - rewrite Heq. by apply runs_ascending.
Qed.

(** The directory and the index of a store describe its words as queries need it. *)
Lemma blocks_stored c s bs tail : readable c s bs -> strict (concat bs ++ tail) -> Forall times_ok (concat bs ++ tail) ->
  zlen (concat bs) < u64_max -> stored bs tail (directory (state s)) (block_runs bs).
Proof.
  intros Hread Hs Ht Hc. pose proof (proj1 (proj1 (Forall_app _ _ _) Ht)) as Htb.
  pose proof (proj1 (proj2 (proj1 (strict_app _ _) Hs))) as Hsb.
  assert (Hne : Forall (fun ws => ws <> []) bs) by exact (readable_nonempty c s bs Hread).
  pose proof (blocks_count bs Hne) as Hcount. assert (Hz : Z.of_nat (length bs) < u64_max) by (unfold zlen in Hc; lia).
  destruct Hread as [Hlen Hblocks]. split.
  - done.
  - done.
  - split; [done|]. intros i entry ws He Hw. destruct (Hblocks i entry ws He Hw) as (m & bytes & Hm & [Hd _] & _).
    pose proof (lookup_lt_Some _ _ _ Hw). destruct (encodes_facts _ _ _ _ _ Hm ltac:(ints)) as (Hn & _ & _ & Hf & Hl & _).
    rewrite Hd. cbn. rewrite Hf, Hl. unfold first_time, last_time. destruct ws as [|w ws]; [done|]. split; [done|].
    by destruct (last (w :: ws)) eqn:He'; [|apply last_None in He'].
  - split; [by apply block_runs_ascending|]. apply List.Forall_forall. intros r Hr.
    apply block_runs_in in Hr as (i & ws & a & b & Hw & _ & ->); [|done..]. apply lookup_lt_Some in Hw. unfold blocks_ok. cbn. ints.
  - apply List.Forall_forall. intros r Hr. apply block_runs_in in Hr as (i & ws & a & b & Hw & _ & ->); [|done..].
    apply lookup_lt_Some in Hw. cbn. lia.
  - intros i ws w Hw Hin. destruct (block_facts bs Hne Hsb Htb Hc i ws Hw) as (Hn & _ & Hwt & Hwa & _ & Heq).
    apply list_elem_of_In, list_elem_of_lookup in Hin as [j Hj]. pose proof (lookup_lt_Some _ _ _ Hj) as Hjl.
    destruct (runs_covers (Z.of_nat i) ws Hwt Hwa j Hjl) as (r & Hr & H1 & H2). exists r.
    split; [apply in_block_runs; exists i, ws; by rewrite Heq|]. apply runs_in in Hr as (a & b & _ & ->); [|done].
    pose proof (end_at_range ws Hwt j Hjl) as H3. unfold end_at, presence_word_end_ns, start_at in *.
    apply list_lookup_total_correct in Hj. rewrite Hj in *. cbv zeta in *.
    split; [done|]. split; [lia|]. split; [|cbn; lia]. destruct (Z.eqb_spec (duration_ns w) 0) as [H0|]; [|done].
    rewrite H0. destruct H3 as [H3 H4]. transitivity (timestamp_ns w); [unfold saturating_add64; lia|]. eapply Z.le_trans; [exact H3|exact H2].
Qed.

(** *** Reading a block that need not be cached *)

Lemma ordered_lookup ws i j a b : ordered ws -> (i <= j)%nat -> ws !! i = Some a -> ws !! j = Some b -> timestamp_ns a <= timestamp_ns b.
Proof.
  intros Ho Hij Ha Hb. assert (Hasc : ascending (fun t => t) (times ws)) by exact Ho.
  apply (ascending_lookup (fun t => t) (times ws) i j); [done|done| |]; unfold times; by rewrite list_lookup_fmap, ?Ha, ?Hb.
Qed.

(** The partial window of one instant, with three words: it has the last word up to that time. *)
Lemma range_reaches h rs ws t : ordered ws ->
  let before := times_before t (times ws) in
  (start_record t rs <= before)%nat -> ((0 < before)%nat -> (start_record t rs < before)%nat) ->
  reaches t ws (range_words (window_reference h rs ws t t 3)).
Proof.
  intros Ho before Hle Hlt. unfold window_reference. cbn [range_words]. fold before.
  set (context := Nat.min 2 (before - start_record t rs)). set (inside := times_until t (times (drop before ws))).
  destruct (times_before_split t ws Ho) as [Hpre Hpost]. fold before in Hpre, Hpost.
  assert (Hb : (before <= length ws)%nat) by (rewrite <- times_length; apply times_before_le).
  assert (Hfound : forall k x, (k < Nat.min (context + inside) 3)%nat -> ws !! (before - context + k)%nat = Some x ->
    In x (take (Nat.min (context + inside) 3) (drop (before - context) ws))).
  { intros k x Hk Hx. apply list_elem_of_In, list_elem_of_lookup. exists k. by rewrite lookup_take_lt, lookup_drop. }
  assert (last_before : forall i w, (i < before)%nat -> ws !! i = Some w -> exists r,
    In r (take (Nat.min (context + inside) 3) (drop (before - context) ws)) /\ timestamp_ns w <= timestamp_ns r <= t).
  { intros i w Hi Hw. destruct (lookup_lt_is_Some_2 ws (before - 1) ltac:(lia)) as [r Hr]. exists r.
    split; [apply (Hfound (context - 1)%nat); [lia|]; by replace (before - context + (context - 1))%nat with (before - 1)%nat by lia|].
    split; [by apply (ordered_lookup ws i (before - 1)); [|lia|..]|].
    rewrite Forall_lookup in Hpre. apply Z.lt_le_incl, (Hpre (before - 1)%nat). by rewrite lookup_take_lt by lia. }
  split.
  { intros w Hw. apply list_elem_of_In in Hw. apply list_elem_of_In. apply subseteq_take, subseteq_drop in Hw. exact Hw. }
  intros w Hw Ht. apply list_elem_of_In, list_elem_of_lookup in Hw as [i Hi].
  destruct (ws !! before) as [x|] eqn:Hx; [destruct (Z.le_gt_cases (timestamp_ns x) t) as [Hxt|Hxt]|].
  - exists x. assert (Hin : (0 < inside)%nat).
    { unfold inside. assert (Hd : drop before ws = x :: drop (S before) ws) by (by apply drop_S).
      rewrite Hd. cbn. destruct (_ <? _); lia. }
    split; [apply (Hfound context); [lia|]; by replace (before - context + context)%nat with before by lia|].
    assert (Hge : t <= timestamp_ns x).
    { rewrite Forall_lookup in Hpost. apply (Hpost 0%nat). by rewrite lookup_drop, Nat.add_0_r. }
    lia.
  - assert (Hib : (i < before)%nat).
    { destruct (Nat.lt_ge_cases i before); [done|]. pose proof (ordered_lookup ws before i x w Ho ltac:(lia) Hx Hi). lia. }
    by apply (last_before i w).
  - assert (Hib : (i < before)%nat) by (apply lookup_ge_None in Hx; apply lookup_lt_Some in Hi; lia).
    by apply (last_before i w).
Qed.

Section Reader.
Context (c : BlockCodecConfig) (repository_accepts : RepositoryOp -> bool) (decoded_block_bytes : DecodedWordBlock -> Z).
Context (store : StoreShared) (store_id : Z) (bs : list (list Word)).

(** A read of the store as queries use it; a read always ends ([read_block]). *)
Definition store_reader (entry : BlockDirectoryEntry) (start_ns end_ns max : Z) (cache : DecodedBlockCache DecodedWordBlock)
  : result AnnotationQueryError (list Word * bool) * DecodedBlockCache DecodedWordBlock :=
  match query_entry_words repository_accepts decoded_block_bytes store store_id entry start_ns end_ns max cache with
  | Some (Ok r, cache) => (Ok r, cache)
  | Some (Err _, cache) => (Err Store, cache)
  | None => (Err Store, cache)
  end.

(** The cached blocks of the store hold its words. *)
Definition cache_right (cache : DecodedBlockCache DecodedWordBlock) : Prop :=
  forall i ws block, bs !! i = Some ws -> held cache (store_id, Z.of_nat i) = Some block -> decoded_words block = ws.

Hypothesis reads_accepted : forall segment, repository_accepts (ReadSegment segment) = true.
Hypothesis (Hread : readable c store bs) (Hcount : zlen (concat bs) < u64_max).

Lemma entry_facts i entry ws : directory (state store) !! i = Some entry -> bs !! i = Some ws ->
  entry_sequence entry = Z.of_nat i /\ u64 (Z.of_nat i) /\ exists m bytes, encodes c i ws m bytes /\ describes entry m /\ available store i entry bytes.
Proof.
  intros He Hw. pose proof (readable_count c store bs Hread) as Hl. destruct Hread as [_ Hblocks].
  destruct (Hblocks i entry ws He Hw) as (m & bytes & Hm & Hd & Ha). pose proof (lookup_lt_Some _ _ _ Hw).
  assert (Hi : u64 (Z.of_nat i)) by (unfold zlen in Hcount; ints).
  destruct (encodes_facts _ _ _ _ _ Hm Hi) as (_ & _ & Hseq & _). split; [|by eauto]. destruct Hd as [-> _]. done.
Qed.

Lemma read_cached_right i entry ws cache : directory (state store) !! i = Some entry -> bs !! i = Some ws -> cache_right cache ->
  exists block cache', read_cached_entry repository_accepts decoded_block_bytes store store_id entry cache = Some (Ok block, cache') /\
    decoded_words block = ws /\ cache_right cache'.
Proof.
  intros He Hw Hcache. destruct (entry_facts i entry ws He Hw) as (Hs & Hi & m & bytes & Hm & Hd & Ha). unfold read_cached_entry.
  pose proof (get_held (store_id, entry_sequence entry) cache) as Hget. destruct (cache_get _ cache) as [found cache1].
  destruct Hget as [-> Hsame]. assert (Hright : cache_right cache1) by (intros j ws' block Hj; rewrite Hsame; by apply Hcache).
  destruct (held cache (store_id, entry_sequence entry)) as [block|] eqn:Hheld.
  { exists block, cache1. split; [done|]. split; [|done]. rewrite Hs in Hheld. by apply (Hcache i). }
  rewrite (read_encoded c repository_accepts reads_accepted store i entry ws m bytes) by done.
  destruct (encodes_facts _ _ _ _ _ Hm Hi) as (_ & _ & Hseq & _).
  set (decoded := mkDecoded _ _ _). cbn [decoded_header] in *.
  destruct (insert_held decoded_block_bytes (store_id, sequence (decoded_header decoded)) decoded cache1) as (cache2 & Hins & Hkept).
  rewrite Hins. exists decoded, cache2. split; [done|]. split; [done|]. intros j ws' block Hj Hb.
  destruct (Hkept _ _ Hb) as [[[= Hk] ->]|Hb1]; [|by apply (Hright j)].
  unfold decoded in Hk. cbn in Hk. rewrite Hseq in Hk. assert (j = i) as -> by lia. cbn. congruence.
Qed.

(** What a read gives: the whole block, or the words around the window from an uncached block. *)
Lemma read_block i entry ws start_ns end_ns max cache : directory (state store) !! i = Some entry -> bs !! i = Some ws ->
  start_ns <= end_ns -> 0 < max -> cache_right cache ->
  exists found complete cache', store_reader entry start_ns end_ns max cache = (Ok (found, complete), cache') /\ cache_right cache' /\
    (found = ws /\ complete = true \/
     Z.land (entry_flags entry) (as_u8 BLOCK_FLAG_HAS_DURATIONS) = 0 /\ held cache (store_id, Z.of_nat i) = None /\
     exists m bytes, encodes c i ws m bytes /\ decode_word_block_range bytes start_ns end_ns max =
       Ok (window_reference (header m) (restarts m) ws start_ns end_ns max) /\
     found = range_words (window_reference (header m) (restarts m) ws start_ns end_ns max)).
Proof.
  intros He Hw Hwin Hmax Hcache. destruct (entry_facts i entry ws He Hw) as (Hs & Hi & m & bytes & Hm & Hd & Ha).
  unfold store_reader, query_entry_words. pose proof (get_held (store_id, entry_sequence entry) cache) as Hget.
  destruct (cache_get _ cache) as [found cache1]. destruct Hget as [-> Hsame].
  assert (Hright : cache_right cache1) by (intros j ws' block Hj; rewrite Hsame; by apply Hcache).
  rewrite Hs in *. destruct (held cache (store_id, Z.of_nat i)) as [block|] eqn:Hheld.
  { exists (decoded_words block), true, cache1. split; [done|]. split; [done|]. left. split; [|done]. by apply (Hcache i). }
  destruct (negb (Z.land _ _ =? 0) || _) eqn:Hwhole.
  { destruct (read_cached_right i entry ws cache1 He Hw Hright) as (block & cache2 & -> & <- & Hright2).
    exists (decoded_words block), true, cache2. split; [done|]. split; [done|]. by left. }
  rewrite (read_available c repository_accepts reads_accepted store i entry ws m bytes) by done.
  destruct (encodes_facts _ _ _ _ _ Hm Hi) as (_ & Hdec & _ & _ & _ & _ & _ & _ & Hb).
  assert (Ho : ordered ws).
  { destruct Hm as (b & ((_ & _ & _) & [Hr _] & _) & _ & <- & _). exact (proj2 (records_ordered 8 _ _ Hr)). }
  destruct (range_of_block bytes (header m) (restarts m) ws start_ns end_ns max Hb Hdec Ho Hwin Hmax) as [Hrange _].
  rewrite Hrange. pose proof Hd as [Hd' _].
  assert (Hval : validate_directory_header (range_header (window_reference (header m) (restarts m) ws start_ns end_ns max)) entry = Ok tt).
  { rewrite Hd'. unfold validate_directory_header. cbn. by rewrite !Z.eqb_refl. }
  rewrite Hval. eexists _, _, cache1. split; [reflexivity|]. split; [done|]. right.
  apply orb_false_iff in Hwhole as [Hflag _]. apply negb_false_iff, Z.eqb_eq in Hflag. split; [done|]. split; [done|]. by exists m, bytes.
Qed.

(** Every read keeps what the lookup of the latest word needs. *)
#[export] Instance store_reads_latest t : LatestReader store_reader cache_right (directory (state store)) bs t.
Proof.
  split. intros i entry ws cache He Hw Hcache.
  destruct (read_block i entry ws t t 3 cache He Hw ltac:(lia) ltac:(lia) Hcache) as (found & complete & cache' & Hq & Hright & Hfound).
  exists found, complete, cache'. split; [done|]. split; [done|]. destruct Hfound as [[-> _]|(_ & _ & m & bytes & Hm & _ & ->)].
  - split; [done|]. intros w Hin Ht. exists w. split; [done|lia].
  - destruct (entry_facts i entry ws He Hw) as (_ & Hi & _). destruct (encodes_facts _ _ _ _ _ Hm Hi) as (_ & Hdec & _ & _ & _ & _ & _ & _ & Hb).
    assert (Ho : ordered ws).
    { destruct Hm as (b & ((_ & _ & _) & [Hr _] & _) & _ & <- & _). exact (proj2 (records_ordered 8 _ _ Hr)). }
    destruct (range_of_block bytes (header m) (restarts m) ws t t 3 Hb Hdec Ho ltac:(lia) ltac:(lia)) as (_ & H1 & H2).
    by apply range_reaches.
Qed.


End Reader.

(** ** The properties *)

(** C4.  A store that is given words in order, in any batches and with any publications between
    them, and then finished, holds exactly these words: cut into blocks by a rule that does not
    depend on the batches, on the number of encoders or on the order in which blocks are encoded,
    each block can be read back, and the directory and the presence index describe them. *)
Theorem finished_store_holds_words (c : BlockCodecConfig) (hot_tail_publish_words workers : Z) (schedule : list nat)
    (repository_accepts : RepositoryOp -> bool) (executor_accepts : Z -> bool) (persistence : bool)
    (publish_index : LiveState -> bool) (ops : list StoreOp) (w0 : Writer) :
  config_in c -> writer_new c hot_tail_publish_words workers schedule = Ok w0 ->
  (forall op, repository_accepts op = true) -> (forall sequence, executor_accepts sequence = true) ->
  (forall s, publish_index s = true) ->
  let ws := session_words ops in
  stream_ok ws -> words_small c ws -> zlen ws < u64_max ->
  exists w, run_session repository_accepts executor_accepts persistence publish_index hot_tail_publish_words ops w0 = Some (Ok tt, w) /\
    status (state (shared w)) = Finished /\ hot_tail (state (shared w)) = [] /\ concat (blocks_of c ws) = ws /\
    reads_back repository_accepts (shared w) (blocks_of c ws) /\ catalogued (state (shared w)) (blocks_of c ws).
Proof.
  intros Hc Hnew Hr He Hi ws Hs Hsmall Hn. pose proof (new_writing _ _ _ _ _ Hc Hnew) as Hw0.
  assert (Hrun : runs (run_session repository_accepts executor_accepts persistence publish_index hot_tail_publish_words ops) w0
    (fun _ w' => finished c ws w') (left_over c False ops ws)).
  { apply (run_session_writing c repository_accepts executor_accepts persistence publish_index hot_tail_publish_words False) with (ws := []);
      [intros [op Hop]; by rewrite Hr in Hop|intros [n Hop]; by rewrite He in Hop|intros _ [s Hop]; by rewrite Hi in Hop|done|].
    by apply (givable_stream c). }
  apply runs_result in Hrun as ([] & w & Heq & _ & H1 & _ & _ & H2 & H3 & H4); [|by intros w' [[[] _]|[_ [[] _]]]].
  exists w. split; [done|]. split; [done|]. split; [done|]. split; [apply blocks_of_words|]. split; [|done].
  apply (readable_reads_back c _ ltac:(by intros segment) _ _ []); [by apply segments_readable|]. by rewrite app_nil_r, blocks_of_words.
Qed.

(** C20.  Whatever the repository, the executor or the index refuse and whenever words go back in
    time, a session of appends that is finished returns.  If it succeeds, the words were in order
    and the store holds them.  If it fails, the store has failed, it shows no hot tail, the blocks
    committed before can be read and hold the first of the words.  Every later call reports that
    the store is not live and changes nothing. *)
Theorem session_returns (c : BlockCodecConfig) (hot_tail_publish_words workers : Z) (schedule : list nat)
    (repository_accepts : RepositoryOp -> bool) (executor_accepts : Z -> bool) (persistence : bool)
    (publish_index : LiveState -> bool) (ops : list StoreOp) (w0 : Writer) :
  config_in c -> writer_new c hot_tail_publish_words workers schedule = Ok w0 ->
  (forall segment, repository_accepts (ReadSegment segment) = true) ->
  let ws := session_words ops in
  Forall entry_ok ws -> words_small c ws -> zlen ws < u64_max -> PublishTail ∉ ops ->
  exists r w, run_session repository_accepts executor_accepts persistence publish_index hot_tail_publish_words ops w0 = Some (r, w) /\
    match r with
    | Ok _ => status (state (shared w)) = Finished /\ stream_ok ws /\ reads_back repository_accepts (shared w) (blocks_of c ws)
    | Err _ => status (state (shared w)) = Failed /\ hot_tail (state (shared w)) = [] /\
        exists bs rest, reads_back repository_accepts (shared w) bs /\ ws = concat bs ++ rest
    end /\
    forall op, run_op repository_accepts executor_accepts hot_tail_publish_words op w =
      Some (Err (NotLive (status (state (shared w)))), w).
Proof.
  intros Hc Hnew Hr ws He Hsmall Hn Htails. pose proof (new_writing _ _ _ _ _ Hc Hnew) as Hw0.
  assert (Hrun : runs (run_session repository_accepts executor_accepts persistence publish_index hot_tail_publish_words ops) w0
    (fun _ w' => finished c ws w') (left_over c True ops ws)) by (by apply (run_session_writing c) with (ws := [])).
  assert (Hclosed : forall w, status (state (shared w)) <> Live -> forall op,
    run_op repository_accepts executor_accepts hot_tail_publish_words op w = Some (Err (NotLive (status (state (shared w)))), w)).
  { intros w Hl op. destruct op; cbn; unfold append_batch, append_batches, publish_hot_tail, bind, ensure_live;
      by destruct (status (state (shared w))). }
  unfold runs in Hrun. destruct (run_session _ _ _ _ _ ops w0) as [[[u|e] w]|]; [| |done]; eexists _, w; (split; [done|]).
  - destruct Hrun as (Hs & H1 & _ & _ & H2 & _). split; [|apply Hclosed; by rewrite H1]. split; [done|]. split; [done|].
    apply (readable_reads_back c _ Hr _ _ []); [by apply segments_readable|]. by rewrite app_nil_r, blocks_of_words.
  - destruct Hrun as [(_ & H1 & _ & H2 & bs & rest & Hread & _ & Heq)|[Hin _]]; [|done].
    split; [|apply Hclosed; by rewrite H1]. split; [done|]. split; [done|]. exists bs, rest. split; [|done].
    apply (readable_reads_back c _ Hr _ _ rest); [done|]. by rewrite <- Heq.
Qed.

Lemma writing_shows c w ws : writing c w ws -> stream_ok ws /\
  exists bs rest, readable c (shared w) bs /\ catalogued (state (shared w)) bs /\ ws = concat bs ++ hot_tail (state (shared w)) ++ rest.
Proof.
  intros (Hs & closed & current & Hfold & bs & dispatched & -> & Hinv). split; [done|]. apply writing_words in Hfold.
  destruct (inv_tail _ _ _ _ _ _ Hinv) as [more Hmore]. exists bs, more.
  split; [apply segments_readable, Hinv|]. split; [apply Hinv|]. by rewrite Hfold, concat_app, <- app_assoc, Hmore.
Qed.

(** C21.  As long as every call so far has returned without an error, what a live store shows is a
    prefix of the words it was given: the committed blocks, which can be read back and which the
    directory and the presence index describe, followed by the hot tail.  No more blocks are under
    way than the writer allows.  (After a publication of the tail that failed it is no prefix:
    [failed_publication_skips_words].) *)
Theorem visible_words_prefix (c : BlockCodecConfig) (hot_tail_publish_words workers : Z) (schedule : list nat)
    (repository_accepts : RepositoryOp -> bool) (executor_accepts : Z -> bool) (ops : list StoreOp) (w0 w : Writer) :
  config_in c -> writer_new c hot_tail_publish_words workers schedule = Ok w0 ->
  (forall segment, repository_accepts (ReadSegment segment) = true) ->
  let ws := session_words ops in
  Forall entry_ok ws -> words_small c ws -> zlen ws < u64_max ->
  run_ops repository_accepts executor_accepts hot_tail_publish_words ops w0 = Some (Ok tt, w) ->
  status (state (shared w)) = Live /\ (outstanding_blocks w <= max_outstanding_blocks w)%nat /\
  exists bs rest, reads_back repository_accepts (shared w) bs /\ catalogued (state (shared w)) bs /\
    ws = concat bs ++ hot_tail (state (shared w)) ++ rest.
Proof.
  intros Hc Hnew Hr ws He Hsmall Hn Hrun. pose proof (new_writing _ _ _ _ _ Hc Hnew) as Hw0.
  assert (Hops : runs (run_ops repository_accepts executor_accepts hot_tail_publish_words ops) w0
    (fun _ w' => writing c w' ws) (left_over c True ops ws)) by (by apply (run_ops_writing c) with (ws := [])).
  unfold runs in Hops. rewrite Hrun in Hops. destruct Hops as (_ & closed & current & Hfold & bs & dispatched & -> & Hinv).
  apply writing_words in Hfold. rewrite (inv_outstanding _ _ _ _ _ _ Hinv).
  split; [apply Hinv|]. split; [apply Hinv|]. destruct (inv_tail _ _ _ _ _ _ Hinv) as [more Hmore].
  assert (Hws : ws = concat bs ++ hot_tail (state (shared w)) ++ more) by (by rewrite Hfold, concat_app, <- app_assoc, Hmore).
  exists bs, more. split; [|split; [apply Hinv|done]].
  eapply (readable_reads_back c); [done|apply segments_readable, Hinv|]. by rewrite <- Hws.
Qed.

(** A store that has taken words without an error, finished or not, shows the first of them. *)
Lemma store_shows c hot_tail_publish_words workers schedule repository_accepts executor_accepts persistence publish_index ops w0 w :
  config_in c -> writer_new c hot_tail_publish_words workers schedule = Ok w0 ->
  let ws := session_words ops in
  Forall entry_ok ws -> words_small c ws -> zlen ws < u64_max -> strict ws ->
  run_ops repository_accepts executor_accepts hot_tail_publish_words ops w0 = Some (Ok tt, w) \/
  run_session repository_accepts executor_accepts persistence publish_index hot_tail_publish_words ops w0 = Some (Ok tt, w) ->
  exists bs rest, readable c (shared w) bs /\ catalogued (state (shared w)) bs /\
    ws = concat bs ++ hot_tail (state (shared w)) ++ rest /\ zlen (concat bs) < u64_max /\
    strict (concat bs ++ hot_tail (state (shared w))) /\ Forall times_ok (concat bs ++ hot_tail (state (shared w))).
Proof.
  intros Hc Hnew ws He Hsmall Hn Hs Hrun. pose proof (new_writing _ _ _ _ _ Hc Hnew) as Hw0.
  assert (Hshows : stream_ok ws /\ exists bs rest, readable c (shared w) bs /\ catalogued (state (shared w)) bs /\
    ws = concat bs ++ hot_tail (state (shared w)) ++ rest).
  { destruct Hrun as [Hrun|Hrun].
    - assert (Hops : runs (run_ops repository_accepts executor_accepts hot_tail_publish_words ops) w0
        (fun _ w' => writing c w' ws) (left_over c True ops ws)) by (by apply (run_ops_writing c) with (ws := [])).
      unfold runs in Hops. rewrite Hrun in Hops. by apply writing_shows.
    - assert (Hops : runs (run_session repository_accepts executor_accepts persistence publish_index hot_tail_publish_words ops) w0
        (fun _ w' => finished c ws w') (left_over c True ops ws)) by (by apply (run_session_writing c) with (ws := [])).
      unfold runs in Hops. rewrite Hrun in Hops. destruct Hops as (Hstream & _ & _ & _ & H2 & H3 & H4).
      split; [done|]. exists (blocks_of c ws), []. split; [by apply segments_readable|].
      split; [done|]. by rewrite H4, !app_nil_r, blocks_of_words. }
  destruct Hshows as (Hstream & bs & rest & Hread & Hcat & Hws). exists bs, rest.
  pose proof (proj1 (stream_times ws Hstream)) as Ht. split; [done|]. split; [done|]. split; [done|].
  rewrite app_assoc in Hws. rewrite Hws in Hs, Ht, Hn. apply strict_app in Hs as (_ & Hs & _). apply Forall_app in Ht as [Ht _].
  rewrite !zlen_app in Hn. pose proof (zlen_nonneg (hot_tail (state (shared w)))). pose proof (zlen_nonneg rest). split; [lia|done].
Qed.


(** C25.  A store is given words that the format can hold, at strictly increasing times at least a
    millisecond before the end of time; every call has returned without an error, and the repository
    answers reads; the store may have been finished.  Then the lookup of the latest word at or before
    a time, which reads only the blocks it selects and of an uncached block only the part from the
    last restart entry before the time, gives the latest of all words up to that time in the
    committed blocks and the hot tail, whatever blocks of the store are cached, unless the time is in
    a gap between the runs of a block ([latest_word_in_gap]; words at equal times:
    [equal_times_latest]). *)
Theorem latest_word_exact (c : BlockCodecConfig) (hot_tail_publish_words workers : Z) (schedule : list nat)
    (repository_accepts : RepositoryOp -> bool) (executor_accepts : Z -> bool) (persistence : bool)
    (publish_index : LiveState -> bool) (decoded_block_bytes : DecodedWordBlock -> Z) (store_id : Z)
    (ops : list StoreOp) (w0 w : Writer) :
  config_in c -> writer_new c hot_tail_publish_words workers schedule = Ok w0 ->
  (forall segment, repository_accepts (ReadSegment segment) = true) ->
  let ws := session_words ops in
  Forall entry_ok ws -> words_small c ws -> zlen ws < u64_max -> strict ws -> Forall ends_in_time ws ->
  run_ops repository_accepts executor_accepts hot_tail_publish_words ops w0 = Some (Ok tt, w) \/
  run_session repository_accepts executor_accepts persistence publish_index hot_tail_publish_words ops w0 = Some (Ok tt, w) ->
  let s := state (shared w) in
  exists bs rest, reads_back repository_accepts (shared w) bs /\ ws = concat bs ++ hot_tail s ++ rest /\
    forall t cache, cache_right store_id bs cache -> no_hidden_gap (directory s) (block_runs bs) t t ->
      exists cache', latest_word_at_or_before (store_reader repository_accepts decoded_block_bytes (shared w) store_id)
          (generation s, entries_at (directory s) (exact_block_indices (directory s) (presence s) t t), hot_tail s) t cache
        = (Ok (last (List.filter (fun w => timestamp_ns w <=? t) (concat bs ++ hot_tail s))), cache') /\
        cache_right store_id bs cache'.
Proof.
  intros Hc Hnew Hr ws He Hsmall Hn Hs Hends Hrun s.
  destruct (store_shows c _ _ _ _ _ _ _ _ _ _ Hc Hnew He Hsmall Hn Hs Hrun) as (bs & rest & Hread & Hcat & Hws & Hcount & Hbs & Ht).
  exists bs, rest. split; [eapply (readable_reads_back c _ Hr _ _ (hot_tail s ++ rest)); [done|unfold s; by rewrite <- Hws]|]. split; [done|].
  assert (Hends' : Forall ends_in_time (concat bs)) by (fold ws in Hws; rewrite Hws in Hends; by apply Forall_app in Hends as [Hends _]).
  pose proof (block_runs_ok bs (readable_nonempty c _ bs Hread) (proj1 (proj2 (proj1 (strict_app _ _) Hbs)))
    (proj1 (proj1 (Forall_app _ _ _) Ht)) Hcount Hends') as Hruns.
  pose proof (blocks_stored c (shared w) bs (hot_tail s) Hread Hbs Ht Hcount) as Hstored. pose proof (catalogued_presence _ _ Hcat) as Hp.
  intros t cache Hcache Hgap. unfold s. rewrite Hp. fold s.
  pose proof (store_reads_latest c repository_accepts decoded_block_bytes (shared w) store_id bs Hr Hread Hcount t) as Hreader.
  apply latest_word_found; [apply Hread|done..].
Qed.

(** ** Examples *)

(** Blocks of at most two words with a restart entry for every word. *)
Definition store_config : BlockCodecConfig := mkConfig 2 1 65536 1000000 u64_max.

Definition store_words : list Word :=
  [mkWord 1 None 0 0; mkWord 2 None 10 0; mkWord 3 (Some (Text [104])) 500 0; mkWord 4 None 600 5; mkWord 5 None 700 0].

Definition store_ops : list StoreOp :=
  [AppendBatch (take 3 store_words) true; PublishTail; AppendBatches [[mkWord 4 None 600 5]; [mkWord 5 None 700 0]] false].

Definition append_ops : list StoreOp := [AppendBatch (take 3 store_words) true; AppendBatch (drop 3 store_words) false].

Definition store_writer : Writer :=
  mkWriter (mkShared (mkLive [] WordPresenceIndex_new 0 0 0 None None [] Live) ∅ ∅ true false)
    (mkBuilder store_config [] no_sizing) (mkPipeline [] [1; 0; 2]%nat ∅ 0 0 0) 2 0 None 0 false None 0 TARGET_SEGMENT_BYTES.

Lemma store_words_small : words_small store_config store_words.
Proof. split; [vm_compute; discriminate|]. repeat constructor; vm_compute; discriminate. Qed.

Lemma store_words_stream : stream_ok store_words.
Proof. apply stream_okb_spec. by vm_compute. Qed.

Lemma finished_store_holds_words_witness :
  exists w, run_session (fun _ => true) (fun _ => true) true (fun _ => true) 2 store_ops store_writer = Some (Ok tt, w) /\
    reads_back (fun _ => true) (shared w) [take 2 store_words; take 2 (drop 2 store_words); drop 4 store_words].
Proof.
  destruct (finished_store_holds_words store_config 2 5 [1; 0; 2]%nat (fun _ => true) (fun _ => true) true (fun _ => true)
    store_ops store_writer) as (w & H1 & _ & _ & _ & H2 & _);
    [unfold config_in; cbn; lia|reflexivity|done|done|done|apply store_words_stream|apply store_words_small|reflexivity|].
  exists w. split; [exact H1|exact H2].
Defined.

(** The repository does not take the second block. *)
Definition refuses_second (op : RepositoryOp) : bool :=
  match op with WriteAt _ offset _ => offset =? 0 | _ => true end.

Lemma session_returns_witness : exists w,
  run_session refuses_second (fun _ => true) false (fun _ => true) 2 append_ops store_writer = Some (Err Repository, w) /\
  status (state (shared w)) = Failed /\ exists bs rest, reads_back refuses_second (shared w) bs /\ store_words = concat bs ++ rest.
Proof.
  destruct (session_returns store_config 2 5 [1; 0; 2]%nat refuses_second (fun _ => true) false (fun _ => true)
    append_ops store_writer) as (r & w & H1 & H2 & _);
    [unfold config_in; cbn; lia|reflexivity|done|apply store_words_stream|apply store_words_small|reflexivity| |].
  { intros H. apply list_elem_of_In in H. cbn in H. intuition discriminate. }
  assert (Hr : option_map fst (run_session refuses_second (fun _ => true) false (fun _ => true) 2 append_ops store_writer) = Some (Err Repository))
    by (vm_compute; reflexivity).
  rewrite H1 in Hr. injection Hr as ->. exists w. split; [exact H1|]. destruct H2 as (H2 & _ & H3). split; [exact H2|exact H3].
Defined.

Definition store_live : Writer :=
  match run_ops (fun _ => true) (fun _ => true) 2 store_ops store_writer with Some (_, w) => w | None => store_writer end.

Lemma visible_words_prefix_witness :
  exists bs rest, reads_back (fun _ => true) (shared store_live) bs /\ store_words = concat bs ++ hot_tail (state (shared store_live)) ++ rest.
Proof.
  destruct (visible_words_prefix store_config 2 5 [1; 0; 2]%nat (fun _ => true) (fun _ => true) store_ops store_writer store_live)
    as (_ & _ & bs & rest & H1 & _ & H2);
    [unfold config_in; cbn; lia|reflexivity|done|apply store_words_stream|apply store_words_small|reflexivity|vm_compute; reflexivity|].
  exists bs, rest. split; [exact H1|exact H2].
Defined.

Lemma store_words_strict : strict store_words.
Proof. repeat constructor. Qed.

(** The store above has committed one block. *)
Lemma live_blocks bs : reads_back (fun _ => true) (shared store_live) bs -> bs = [take 2 store_words].
Proof.
  intros H1. destruct H1 as [Hlen Hblocks]. assert (Hl : length (directory (state (shared store_live))) = 1%nat) by (vm_compute; reflexivity).
  rewrite Hl in Hlen. destruct bs as [|b [|b' bs]]; [discriminate Hlen| |discriminate Hlen].
  destruct (Hblocks 0%nat b eq_refl) as (entry & decoded & He & Hr & Hb).
  assert (Hread : option_map (fun e => read_entry (fun _ => true) (shared store_live) e) (directory (state (shared store_live)) !! 0%nat) =
    Some (Ok (mkDecoded (decoded_header decoded) (decoded_restarts decoded) b))).
  { rewrite He. cbn [option_map]. rewrite Hr, <- Hb. by destruct decoded. }
  vm_compute in Hread. injection Hread as _ _ Hread. by rewrite <- Hread.
Qed.





(** The store above has committed a block with words at 0 and 10 ns.  The latest word at 5 ns is
    the first, which is read from a part of the block. *)
Lemma latest_word_exact_witness : exists cache',
  latest_word_at_or_before (store_reader (fun _ => true) (fun _ => 100) (shared store_live) 1)
    (generation (state (shared store_live)), entries_at (directory (state (shared store_live)))
      (exact_block_indices (directory (state (shared store_live))) (presence (state (shared store_live))) 5 5),
      hot_tail (state (shared store_live))) 5 (cache_new 1000) = (Ok (Some (mkWord 1 None 0 0)), cache').
Proof.
  destruct (latest_word_exact store_config 2 5 [1; 0; 2]%nat (fun _ => true) (fun _ => true) true (fun _ => true) (fun _ => 100) 1
    store_ops store_writer store_live) as (bs & rest & H1 & H2 & H3);
    [unfold config_in; cbn; lia|reflexivity|done|apply store_words_stream|apply store_words_small|reflexivity|apply store_words_strict
    |repeat constructor|left; vm_compute; reflexivity|].
  assert (bs = [take 2 store_words]) as -> by by apply live_blocks.
  destruct (H3 5 (cache_new 1000)) as (cache' & H4 & _).
  - intros i ws block _ Hb. done.
  - intros i entry He _ _. destruct i as [|i]; [|by vm_compute in He]. exists (mkSummary 0 20 2 0 1).
    split; [by left|]. vm_compute. intuition discriminate.
  - exists cache'. exact H4.
Defined.

(** ** A publication that fails *)

(** The condition on publications of the tail is needed: one that fails drops a block and leaves
    the store live, and a later call waits for that block for ever. *)
Definition refuses_first (op : RepositoryOp) : bool := match op with WriteAt 0 0 _ => false | _ => true end.

Definition writer_after (r : option (result StoreError unit * Writer)) : Writer :=
  match r with Some (_, w) => w | None => store_writer end.

Definition after_append : Writer := writer_after (run_op refuses_first (fun _ => true) 2 (AppendBatch (take 2 store_words) false) store_writer).
Definition after_publication : Writer := writer_after (run_op refuses_first (fun _ => true) 2 PublishTail after_append).

Lemma failed_publication_blocks :
  option_map fst (run_op refuses_first (fun _ => true) 2 (AppendBatch (take 2 store_words) false) store_writer) = Some (Ok tt) /\
  option_map fst (run_op refuses_first (fun _ => true) 2 PublishTail after_append) = Some (Err Repository) /\
  status (state (shared after_publication)) = Live /\
  bind (run_op refuses_first (fun _ => true) 2 (AppendBatch (drop 2 store_words) false))
    (fun _ => finish refuses_first (fun _ => true) false (fun _ => true)) after_publication = None.
Proof. split_and!; vm_compute; reflexivity. Qed.

(** The words behind the block that is missing are shown all the same: after the refused publication
    a further word is taken, the store is live and shows it as its hot tail, without the two words
    before it. *)
Definition after_third : Writer :=
  writer_after (run_op refuses_first (fun _ => true) 1 (AppendBatch [mkWord 3 None 500 0] true) after_publication).

Lemma failed_publication_skips_words :
  option_map fst (run_op refuses_first (fun _ => true) 1 (AppendBatch [mkWord 3 None 500 0] true) after_publication) = Some (Ok tt) /\
  status (state (shared after_third)) = Live /\ directory (state (shared after_third)) = [] /\
  hot_tail (state (shared after_third)) = [mkWord 3 None 500 0].
Proof. split_and!; vm_compute; reflexivity. Qed.

(** ** Windows and the cache *)

(** A window query through the store, of a block that may be cached: the writer's words above, in
    one block. *)
Definition cached_store : StoreShared :=
  match run_session (fun _ => true) (fun _ => true) false (fun _ => true) 100
    [AppendBatch [mkWord 1 None 0 0; mkWord 2 None 10 0; mkWord 3 None 500 0; mkWord 4 None 600 0] false]
    (with_builder (mkBuilder (mkConfig 64 1 65536 1000000 u64_max) [] no_sizing) store_writer) with
  | Some (_, w) => shared w
  | None => shared store_writer
  end.

Abbreviation demo_reader := (store_reader (fun _ => true) (fun _ => 100) cached_store 1).

Definition cached_window (start_ns end_ns : Z) (cache : DecodedBlockCache DecodedWordBlock) : list (Z * Z) :=
  match exact_window demo_reader (1, entries_at (directory (state cached_store))
      (exact_block_indices (directory (state cached_store)) (presence (state cached_store)) start_ns end_ns), [])
    start_ns end_ns 10 cache with
  | (Ok answer, _) => map (fun a => (annotation_start_ns a, annotation_end_ns a)) (annotations answer)
  | (Err _, _) => []
  end.

(** The same window has different annotations when its block has been read before: a block that
    is not cached is decoded from the restart entry in front of the window on, the word before
    that one is missing, and the cadence of the instantaneous word with it. *)
Lemma window_depends_on_cache :
  cached_window 12 13 (cache_new 1000) = [(10, 500)] /\
  cached_window 12 13 (snd (demo_reader (directory (state cached_store) !!! 0%nat) 0 600 10 (cache_new 1000))) = [(10, 20)].
Proof. split; vm_compute; reflexivity. Qed.
