(* ===== verification/CaptureBits.v ===== *)
(** Words of sixty-four samples: the bit operations that the capture index kernel
    ([crates/signal_capture/src/capture_index_kernel.rs]) and the waveform index
    ([crates/signal_capture/src/waveform_index]) share, and their meaning bit by bit.

    A word is a [Z] below [2^64]; bit [i] of packed data is bit [i mod 8] of byte [i / 8]. *)

From S2P Require Import Prelude.

(** [crates/signal_capture/src/waveform_index/types.rs:73-73] SAMPLES_PER_L1_BIT *)
Definition SAMPLES_PER_L1_BIT : Z := 64.

(** [crates/signal_capture/src/waveform_index/types.rs:74-74] SAMPLES_PER_L2_BIT *)
Definition SAMPLES_PER_L2_BIT : Z := 4096.

(** [crates/signal_capture/src/waveform_index/types.rs:75-75] SAMPLES_PER_L3_BIT *)
Definition SAMPLES_PER_L3_BIT : Z := 262144.

(** [crates/signal_capture/src/waveform_index/types.rs:76-76] L1_WORDS *)
Definition L1_WORDS : Z := 4096.

(** [crates/signal_capture/src/waveform_index/types.rs:77-77] L2_WORDS *)
Definition L2_WORDS : Z := 64.

(** [crates/signal_capture/src/waveform_index/types.rs:82-84] bit *)
Definition bit (word index : Z) : bool :=
  (index <? 64) && negb (Z.land (Z.shiftr word index) 1 =? 0).

(** [crates/signal_capture/src/waveform_index/types.rs:86-90] set_bit *)
Definition set_bit (word index : Z) : Z :=
  if index <? 64 then Z.lor word (Z.shiftl 1 index) else word.

(** [crates/signal_capture/src/capture/contracts.rs:568-573] packed_bit *)
Definition packed_bit (data : list Z) (bit_index : Z) : bool :=
  match data !! Z.to_nat (bit_index / 8) with
  | Some byte => negb (Z.land byte (Z.shiftl 1 (bit_index mod 8)) =? 0)
  | None => false
  end.

(** [u64] operators whose result needs its width. *)
Definition not64 (word : Z) : Z := Z.lxor word u64_max.
Definition shl64 (word index : Z) : Z := Z.land (Z.shiftl word index) u64_max.

(** [word.trailing_zeros()] of a non-zero word. *)
Fixpoint lowest_bit (width : nat) (index word : Z) : Z :=
  match width with
  | O => index
  | S width => if Z.testbit word index then index else lowest_bit width (index + 1) word
  end.

Definition trailing_zeros (word : Z) : Z := lowest_bit 64 0 word.

(** [crates/signal_capture/src/waveform_index/reader.rs:1373-1375] nonzero_trailing_bit *)
Definition nonzero_trailing_bit (word : Z) : option Z :=
  if negb (word =? 0) then Some (trailing_zeros word) else None.

(** [crates/signal_capture/src/waveform_index/reader.rs:1276-1283] range_mask *)
Definition range_mask (lo hi : Z) : Z :=
  let upper := if hi =? 64 then u64_max else Z.shiftl 1 hi - 1 in
  Z.land upper (not64 (Z.shiftl 1 lo - 1)).

(** The eight bytes at [byte_start], padded with zeros at the end of the data. *)
Definition padded_word (data : list Z) (byte_start : Z) : Z :=
  let available := Z.min (saturating_sub64 (zlen data) byte_start) 8 in
  let bytes := take (Z.to_nat available) (drop (Z.to_nat byte_start) data) in
  from_le_bytes (bytes ++ replicate (Z.to_nat (8 - available)) 0).

(** [crates/signal_capture/src/waveform_index/reader.rs:1263-1273] load_le_word *)
Definition load_le_word (data : list Z) (word_index : Z) : Z :=
  let byte_start := word_index * 8 in
  match slice data byte_start (byte_start + 8) with
  | Some chunk => from_le_bytes chunk
  | None => padded_word data byte_start
  end.

(** The test of one word of [bit_range_any]. *)
Definition range_word (words : list Z) (first_bit last_bit word_index : Z) : option Z :=
  match byte_at words word_index with
  | None => None
  | Some word =>
      let word := if word_index =? first_bit / 64 then Z.land word (shl64 u64_max (first_bit mod 64)) else word in
      let end_bit := last_bit mod 64 in
      let mask := if end_bit =? 63 then u64_max else Z.shiftl 1 (end_bit + 1) - 1 in
      Some (if word_index =? last_bit / 64 then Z.land word mask else word)
  end.

(** The words from [word_index] on, [count] of them. *)
Fixpoint range_any_loop (count : nat) (words : list Z) (first_bit last_bit word_index : Z) : bool :=
  match count with
  | O => false
  | S count =>
      match range_word words first_bit last_bit word_index with
      | None => false
      | Some word =>
          if negb (word =? 0) then true
          else range_any_loop count words first_bit last_bit (word_index + 1)
      end
  end.

(** [crates/signal_capture/src/waveform_index/reader.rs:1302-1330] bit_range_any *)
Definition bit_range_any (words : list Z) (first_bit last_bit : Z) : bool :=
  if last_bit <? first_bit then false
  else
    let first_word := first_bit / 64 in
    let last_word := last_bit / 64 in
    range_any_loop (Z.to_nat (last_word - first_word + 1)) words first_bit last_bit first_word.

(** ** Bits of words *)

(** Bit [i] of the words seen as one row of bits. *)
Definition bit_at (words : list Z) (i : Z) : bool :=
  match words !! Z.to_nat (i / 64) with
  | Some word => Z.testbit word (i mod 64)
  | None => false
  end.

Definition words_ok (words : list Z) : Prop := Forall u64 words.

Lemma bit_testbit word index : u64 word -> 0 <= index -> bit word index = Z.testbit word index.
Proof.
  intros Hw Hi. unfold bit. change 1 with (Z.shiftl 1 0). rewrite land_bit by lia.
  rewrite Z.shiftr_spec, Z.add_0_l by lia. destruct (Z.ltb_spec index 64); [done|].
  by rewrite testbit_u64.
Qed.

Lemma testbit_one_shifted index j : 0 <= index -> Z.testbit (Z.shiftl 1 index) j = (index =? j).
Proof. intros Hi. rewrite Z.shiftl_1_l. by apply Z.pow2_bits_eqb. Qed.

Lemma testbit_mask n j : 0 <= n -> 0 <= j -> Z.testbit (Z.shiftl 1 n - 1) j = (j <? n).
Proof.
  intros Hn Hj. rewrite Z.shiftl_1_l. replace (2 ^ n - 1) with (Z.ones n) by (rewrite Z.ones_equiv; lia).
  destruct (Z.ltb_spec j n); [apply Z.ones_spec_low|apply Z.ones_spec_high]; lia.
Qed.

Lemma testbit_u64_max j : 0 <= j -> Z.testbit u64_max j = (j <? 64).
Proof. intros Hj. by apply (testbit_mask 64). Qed.

Lemma testbit_set_bit word index j :
  0 <= index < 64 -> Z.testbit (set_bit word index) j = Z.testbit word j || (index =? j).
Proof.
  intros Hi. unfold set_bit. rewrite (proj2 (Z.ltb_lt _ _)) by lia.
  by rewrite Z.lor_spec, testbit_one_shifted by lia.
Qed.

(** A word whose bits from the sixty-fourth on are clear. *)
Lemma u64_bits word : 0 <= word -> (forall j, 64 <= j -> Z.testbit word j = false) -> u64 word.
Proof.
  intros Hw Hb. unfold u64. split; [done|].
  destruct (Z.eq_dec word 0) as [->|]; [lia|].
  change 18446744073709551616 with (2 ^ 64). apply Z.log2_lt_pow2; [lia|].
  destruct (Z.lt_ge_cases (Z.log2 word) 64) as [|H]; [done|].
  specialize (Hb (Z.log2 word) H). rewrite Z.bit_log2 in Hb by lia. done.
Qed.

Lemma set_bit_u64 word index : u64 word -> 0 <= index -> u64 (set_bit word index).
Proof.
  intros Hw Hi. unfold set_bit. destruct (Z.ltb_spec index 64); [|done]. apply u64_bits.
  - apply Z.lor_nonneg. rewrite Z.shiftl_nonneg. ints.
  - intros j Hj. rewrite Z.lor_spec, testbit_one_shifted, (testbit_u64 word) by (done || lia). lia.
Qed.

Lemma land_u64 a b : u64 a -> 0 <= b -> u64 (Z.land a b).
Proof.
  intros Ha Hb. apply u64_bits; [apply Z.land_nonneg; ints|].
  intros j Hj. by rewrite Z.land_spec, (testbit_u64 a).
Qed.

(** A non-zero word has a bit. *)
Lemma nonzero_bit word : 0 <= word -> negb (word =? 0) = true <-> exists j, 0 <= j /\ Z.testbit word j = true.
Proof.
  intros Hw. rewrite negb_true_iff, Z.eqb_neq. split.
  - intros Hne. exists (Z.log2 word). split; [apply Z.log2_nonneg|]. apply Z.bit_log2. lia.
  - intros (j & Hj & Hb) ->. by rewrite Z.bits_0 in Hb.
Qed.

Lemma testbit_range_mask lo hi j :
  0 <= lo < 64 -> 0 <= hi <= 64 -> 0 <= j ->
  Z.testbit (range_mask lo hi) j = (lo <=? j) && (j <? hi).
Proof.
  intros Hlo Hhi Hj. unfold range_mask, not64. rewrite Z.land_spec, Z.lxor_spec.
  rewrite testbit_mask, testbit_u64_max by lia.
  destruct (Z.eqb_spec hi 64) as [->|]; [rewrite testbit_u64_max by done|rewrite testbit_mask by lia];
    bcase; lia || done.
Qed.

Lemma testbit_shl64 word index j :
  0 <= index -> 0 <= j -> Z.testbit (shl64 word index) j = Z.testbit word (j - index) && (j <? 64).
Proof.
  intros Hi Hj. unfold shl64. by rewrite Z.land_spec, Z.shiftl_spec, testbit_u64_max by done.
Qed.

(** ** The lowest bit of a word *)

Lemma lowest_bit_spec width index word :
  (exists j, index <= j < index + Z.of_nat width /\ Z.testbit word j = true) ->
  index <= lowest_bit width index word < index + Z.of_nat width /\
  Z.testbit word (lowest_bit width index word) = true /\
  (forall j, index <= j < lowest_bit width index word -> Z.testbit word j = false).
Proof.
  revert index. induction width as [|width IH]; intros index (j & Hj & Hb); [lia|]. cbn [lowest_bit].
  destruct (Z.testbit word index) eqn:Hi; [split; [lia|split; [done|lia]]|].
  destruct (IH (index + 1)) as (H1 & H2 & H3).
  { exists j. split; [|done]. destruct (Z.eq_dec j index) as [->|]; [congruence|lia]. }
  split; [lia|]. split; [done|]. intros k Hk.
  destruct (Z.eq_dec k index) as [->|]; [done|]. apply H3. lia.
Qed.

Lemma trailing_zeros_spec word :
  u64 word -> word <> 0 ->
  0 <= trailing_zeros word < 64 /\ Z.testbit word (trailing_zeros word) = true /\
  (forall j, 0 <= j < trailing_zeros word -> Z.testbit word j = false).
Proof.
  intros Hw Hne. apply (lowest_bit_spec 64 0).
  destruct (proj1 (nonzero_bit word ltac:(ints))) as (j & Hj & Hb).
  { by rewrite negb_true_iff, Z.eqb_neq. }
  exists j. split; [|done]. destruct (Z.lt_ge_cases j 64); [lia|]. by rewrite testbit_u64 in Hb.
Qed.

(** [word & (word - 1)] clears the lowest bit. *)
Lemma testbit_clear_lowest word k j :
  0 <= k -> Z.testbit word k = true -> (forall i, 0 <= i < k -> Z.testbit word i = false) -> 0 <= j ->
  Z.testbit (Z.land word (word - 1)) j = Z.testbit word j && negb (j =? k).
Proof.
  intros Hk Hb Hlow Hj.
  assert (Hq : word = 2 ^ k * (2 * (word / 2 ^ (k + 1)) + 1)).
  { assert (H0 : word mod 2 ^ k = 0).
    { apply Z.bits_inj_0. intros i. destruct (Z.neg_nonneg_cases i); [by apply Z.testbit_neg_r|].
      destruct (Z.lt_ge_cases i k).
      - rewrite Z.mod_pow2_bits_low by lia. apply Hlow. lia.
      - by apply Z.mod_pow2_bits_high. }
    pose proof (Z.div_mod word (2 ^ k)) as Hd. rewrite H0 in Hd.
    rewrite Z.pow_add_r, <- Z.div_div by lia. change (2 ^ 1) with 2.
    pose proof (Z.testbit_spec' word k Hk) as Ht. rewrite Hb in Ht. cbn [Z.b2z] in Ht.
    pose proof (Z.div_mod (word / 2 ^ k) 2). rewrite <- Ht in *. rewrite Z.add_0_r in Hd. lia. }
  set (q := word / 2 ^ (k + 1)) in *.
  assert (Hpred : word - 1 = 2 ^ k * (2 * q) + (2 ^ k - 1)) by lia.
  rewrite Z.land_spec. destruct (Z.eqb_spec j k) as [->|Hne].
  - rewrite andb_false_r, andb_false_iff. right. rewrite Hpred.
    apply Z.testbit_false; [done|].
    rewrite Z.mul_comm, Z.div_add_l, Z.div_small by lia. rewrite Z.add_0_r, Z.mul_comm. apply Z_mod_mult.
  - rewrite andb_true_r. destruct (Z.lt_ge_cases j k); [rewrite Hlow by lia; done|].
    enough (Z.testbit (word - 1) j = Z.testbit word j) as -> by apply andb_diag.
    replace j with (j - (k + 1) + (k + 1)) by lia. rewrite <- !Z.div_pow2_bits by lia. f_equal.
    fold q. symmetry. apply Z.div_unique with (2 ^ k - 1 + 2 ^ k * 0).
    + rewrite Z.pow_add_r by lia. lia.
    + rewrite Z.pow_add_r by lia. change (2 ^ 1) with 2. lia.
Qed.

(** ** Words of packed data *)

Lemma packed_bit_testbit data i :
  bytes_ok data -> 0 <= i -> packed_bit data i = Z.testbit (from_le_bytes data) i.
Proof.
  intros Hd Hi. unfold packed_bit. rewrite testbit_from_le_bytes by done.
  destruct (data !! Z.to_nat (i / 8)); [|done]. apply land_bit. apply Z.mod_pos_bound. lia.
Qed.

Lemma packed_bit_beyond data i : 8 * zlen data <= i -> packed_bit data i = false.
Proof.
  intros Hi. unfold packed_bit. rewrite lookup_ge_None_2; [done|].
  pose proof (Z.div_le_lower_bound i 8 (zlen data)). lens.
Qed.

Lemma bytes_ok_take_drop n m data : bytes_ok data -> bytes_ok (take n (drop m data)).
Proof. intros. by apply Forall_take, Forall_drop. Qed.

(** The bits of the eight bytes from [8 * w] on. *)
Lemma testbit_chunk data w j :
  bytes_ok data -> 0 <= w -> 0 <= j < 64 ->
  Z.testbit (from_le_bytes (take 8 (drop (Z.to_nat (8 * w)) data))) j = packed_bit data (64 * w + j).
Proof.
  intros Hd Hw Hj. rewrite testbit_from_le_bytes by (try apply bytes_ok_take_drop; done || lia).
  unfold packed_bit.
  assert (Hdiv : (64 * w + j) / 8 = 8 * w + j / 8 /\ (64 * w + j) mod 8 = j mod 8).
  { replace (64 * w + j) with (j + (8 * w) * 8) by lia. rewrite Z.div_add, Z.mod_add by lia. lia. }
  destruct Hdiv as [-> ->].
  assert (0 <= j / 8 < 8) by (split; [apply Z.div_pos|apply Z.div_lt_upper_bound]; lia).
  rewrite lookup_take, lookup_drop by lia. rewrite decide_True by lia.
  replace (Z.to_nat (8 * w + j / 8)) with (Z.to_nat (8 * w) + Z.to_nat (j / 8))%nat by lia.
  destruct (data !! _); [|done]. symmetry. apply land_bit. apply Z.mod_pos_bound. lia.
Qed.

Lemma from_le_bytes_zeros l n : from_le_bytes (l ++ replicate n 0) = from_le_bytes l.
Proof.
  rewrite from_le_bytes_app.
  assert (Hz : from_le_bytes (replicate n 0) = 0) by (induction n as [|n IH]; cbn; lia). lia.
Qed.

Lemma padded_word_chunk data byte_start :
  0 <= byte_start -> padded_word data byte_start = from_le_bytes (take 8 (drop (Z.to_nat byte_start) data)).
Proof.
  intros Hs. unfold padded_word. rewrite from_le_bytes_zeros. f_equal.
  unfold saturating_sub64. destruct (Z.le_ge_cases 8 (zlen data - byte_start)).
  - do 2 f_equal. lens.
  - rewrite !take_ge; [done| |]; rewrite length_drop; lens.
Qed.

Lemma load_le_word_chunk data w :
  0 <= w -> load_le_word data w = from_le_bytes (take 8 (drop (Z.to_nat (8 * w)) data)).
Proof.
  intros Hw. unfold load_le_word, slice. rewrite (Z.mul_comm w).
  destruct (_ && _); [|apply padded_word_chunk; lia]. do 2 f_equal. lia.
Qed.

Lemma testbit_load data w j :
  bytes_ok data -> 0 <= w -> 0 <= j < 64 -> Z.testbit (load_le_word data w) j = packed_bit data (64 * w + j).
Proof. intros. rewrite load_le_word_chunk by done. by apply testbit_chunk. Qed.

Lemma testbit_padded data w j :
  bytes_ok data -> 0 <= w -> 0 <= j < 64 -> Z.testbit (padded_word data (w * 8)) j = packed_bit data (64 * w + j).
Proof. intros. rewrite padded_word_chunk, (Z.mul_comm w) by lia. by apply testbit_chunk. Qed.

Lemma chunk_u64 data n : bytes_ok data -> u64 (from_le_bytes (take 8 (drop n data))).
Proof.
  intros Hd. pose proof (from_le_bytes_range _ (bytes_ok_take_drop 8 n data Hd)) as Hr.
  assert (256 ^ zlen (take 8 (drop n data)) <= 256 ^ 8).
  { apply Z.pow_le_mono_r; [lia|]. unfold zlen. rewrite length_take. lia. }
  change (256 ^ 8) with 18446744073709551616 in *. ints.
Qed.

Lemma load_le_word_u64 data w : bytes_ok data -> 0 <= w -> u64 (load_le_word data w).
Proof. intros. rewrite load_le_word_chunk by done. by apply chunk_u64. Qed.

Lemma padded_word_u64 data s : bytes_ok data -> 0 <= s -> u64 (padded_word data s).
Proof. intros. rewrite padded_word_chunk by done. by apply chunk_u64. Qed.

(** ** Rows of words *)

Lemma bit_at_words words i : words_ok words -> 0 <= i ->
  bit_at words i = match byte_at words (i / 64) with Some w => bit w (i mod 64) | None => false end.
Proof.
  intros Hw Hi. unfold bit_at, byte_at.
  assert (0 <= i / 64) by (apply Z.div_pos; lia). rewrite (proj2 (Z.ltb_ge _ _)) by lia.
  destruct (words !! _) as [w|] eqn:Hl; [|done]. symmetry. apply bit_testbit.
  - eapply Forall_lookup_1; [exact Hw|exact Hl].
  - apply Z.mod_pos_bound. lia.
Qed.

Lemma bit_at_insert words w i j :
  0 <= i -> 0 <= j -> words !! Z.to_nat (i / 64) = Some w ->
  bit_at (<[Z.to_nat (i / 64) := set_bit w (i mod 64)]> words) j = bit_at words j || (i =? j).
Proof.
  intros Hi Hj Hw. unfold bit_at.
  pose proof (Z.mod_pos_bound i 64). pose proof (Z.mod_pos_bound j 64).
  pose proof (Z.div_mod i 64). pose proof (Z.div_mod j 64).
  assert (0 <= i / 64 /\ 0 <= j / 64) as [? ?] by (split; apply Z.div_pos; lia).
  destruct (Z.eq_dec (i / 64) (j / 64)) as [He|Hne].
  - rewrite <- He, Hw, list_lookup_insert_eq by (by eapply lookup_lt_Some).
    rewrite testbit_set_bit by lia. f_equal. bcase; lia || done.
  - rewrite list_lookup_insert_ne by lia. destruct (Z.eqb_spec i j); [lia|]. by rewrite orb_false_r.
Qed.

Lemma words_ok_insert words n w : words_ok words -> u64 w -> words_ok (<[n := w]> words).
Proof. intros. by apply Forall_insert. Qed.

Lemma bit_at_zeros n i : bit_at (replicate n 0) i = false.
Proof.
  unfold bit_at. destruct (replicate n 0 !! Z.to_nat (i / 64)) as [w|] eqn:H; [|done].
  apply lookup_replicate in H as [-> _]. apply Z.bits_0.
Qed.

(** A row is zero in a word when none of that word's bits is set. *)
Lemma word_nonzero words k w :
  words_ok words -> 0 <= k -> words !! Z.to_nat k = Some w ->
  negb (w =? 0) = true <-> exists i, 64 * k <= i < 64 * (k + 1) /\ bit_at words i = true.
Proof.
  intros Hok Hk Hw. assert (Hu : u64 w) by (eapply Forall_lookup_1; [exact Hok|exact Hw]).
  rewrite nonzero_bit by ints. split.
  - intros (j & Hj & Hb).
    destruct (Z.lt_ge_cases j 64); [|by rewrite testbit_u64 in Hb].
    exists (64 * k + j). split; [lia|]. unfold bit_at.
    replace ((64 * k + j) / 64) with k by (apply Z.div_unique with j; lia).
    replace ((64 * k + j) mod 64) with j by (apply Z.mod_unique with k; lia). by rewrite Hw.
  - intros (i & Hi & Hb). exists (i mod 64). pose proof (Z.mod_pos_bound i 64). split; [lia|].
    unfold bit_at in Hb. replace (i / 64) with k in Hb by (apply Z.div_unique with (i - 64 * k); lia).
    by rewrite Hw in Hb.
Qed.

Lemma bit_at_split words k j : 0 <= k -> 0 <= j < 64 ->
  bit_at words (64 * k + j) = match words !! Z.to_nat k with Some w => Z.testbit w j | None => false end.
Proof.
  intros Hk Hj. unfold bit_at.
  replace ((64 * k + j) / 64) with k by (apply Z.div_unique with j; lia).
  by replace ((64 * k + j) mod 64) with j by (apply Z.mod_unique with k; lia).
Qed.

Lemma range_word_spec words first last k w :
  words_ok words -> 0 <= first -> 0 <= last -> first / 64 <= k <= last / 64 ->
  range_word words first last k = Some w ->
  u64 w /\ forall j, 0 <= j < 64 ->
    Z.testbit w j = bit_at words (64 * k + j) && (first <=? 64 * k + j) && (64 * k + j <=? last).
Proof.
  intros Hok Hf Hl Hk. assert (0 <= first / 64) by (apply Z.div_pos; lia).
  pose proof (Z.div_mod first 64). pose proof (Z.div_mod last 64).
  pose proof (Z.mod_pos_bound first 64). pose proof (Z.mod_pos_bound last 64).
  unfold range_word, byte_at. rewrite (proj2 (Z.ltb_ge k 0)) by lia.
  destruct (words !! Z.to_nat k) as [v|] eqn:Hv; [|done]. cbv zeta.
  assert (Hu : u64 v) by (eapply Forall_lookup_1; [exact Hok|exact Hv]).
  intros Heq. injection Heq as <-. split.
  - assert (0 <= shl64 u64_max (first mod 64)) by (apply Z.land_nonneg; right; ints).
    assert (0 <= (if last mod 64 =? 63 then u64_max else Z.shiftl 1 (last mod 64 + 1) - 1)).
    { destruct (last mod 64 =? 63); [ints|]. rewrite Z.shiftl_1_l. lia. }
    destruct (k =? first / 64), (k =? last / 64); repeat (apply land_u64; [|done]); done.
  - intros j Hj. rewrite (bit_at_split words k j), Hv by lia.
    assert (Hlow : Z.testbit (if k =? first / 64 then Z.land v (shl64 u64_max (first mod 64)) else v) j
                   = Z.testbit v j && (first <=? 64 * k + j)).
    { destruct (Z.eqb_spec k (first / 64)).
      - rewrite Z.land_spec, testbit_shl64 by lia. f_equal.
        destruct (Z.leb_spec first (64 * k + j)).
        + rewrite testbit_u64_max by lia. bcase; lia || done.
        + rewrite Z.testbit_neg_r by lia. done.
      - rewrite (proj2 (Z.leb_le _ _)) by lia. by rewrite andb_true_r. }
    destruct (Z.eqb_spec k (last / 64)).
    + rewrite Z.land_spec, Hlow. f_equal. destruct (Z.eqb_spec (last mod 64) 63).
      * rewrite testbit_u64_max by lia. bcase; lia || done.
      * rewrite testbit_mask by lia. bcase; lia || done.
    + rewrite Hlow, (proj2 (Z.leb_le (64 * k + j) last)) by lia. by rewrite andb_true_r.
Qed.

Lemma range_any_loop_spec words first last count k :
  words_ok words -> 0 <= first -> first / 64 <= k -> k + Z.of_nat count = last / 64 + 1 -> 0 <= last ->
  range_any_loop count words first last k = true <->
  exists i, first <= i <= last /\ 64 * k <= i /\ bit_at words i = true.
Proof.
  intros Hok Hf. revert k. induction count as [|count IH]; intros k Hk Hc Hl; cbn [range_any_loop].
  - split; [done|]. intros (i & Hi & Hki & _). pose proof (Z.div_mod last 64).
    pose proof (Z.mod_pos_bound last 64). lia.
  - assert (0 <= first / 64) by (apply Z.div_pos; lia).
    destruct (range_word words first last k) as [w|] eqn:Hw.
    + assert (Hkl : first / 64 <= k <= last / 64) by lia.
      destruct (range_word_spec _ _ _ _ _ Hok Hf Hl Hkl Hw) as [Hu Hb].
      destruct (negb (w =? 0)) eqn:Hz.
      * split; [|done]. intros _. apply nonzero_bit in Hz as (j & Hj & Hj'); [|ints].
        destruct (Z.lt_ge_cases j 64); [|by rewrite testbit_u64 in Hj'].
        rewrite Hb in Hj' by lia. rewrite !andb_true_iff, !Z.leb_le in Hj'.
        exists (64 * k + j). split_and!; tauto || lia.
      * rewrite IH by lia. split; intros (i & Hi & Hki & Hbit); exists i; split_and!; try lia; try done.
        destruct (Z.le_gt_cases (64 * (k + 1)) i); [done|exfalso].
        assert (Hn : negb (w =? 0) = true); [|congruence]. apply nonzero_bit; [ints|].
        exists (i - 64 * k). split; [lia|]. rewrite Hb by lia.
        replace (64 * k + (i - 64 * k)) with i by lia. rewrite Hbit. bcase; lia || done.
    + split; [done|]. intros (i & Hi & Hki & Hbit). unfold range_word, byte_at in Hw.
      rewrite (proj2 (Z.ltb_ge k 0)) in Hw by lia.
      destruct (words !! Z.to_nat k) eqn:Hn; [done|]. apply lookup_ge_None in Hn.
      unfold bit_at in Hbit. rewrite lookup_ge_None_2 in Hbit; [done|].
      assert (k <= i / 64) by (apply Z.div_le_lower_bound; lia). lia.
Qed.

Lemma bit_range_any_spec words first last :
  words_ok words -> 0 <= first ->
  bit_range_any words first last = true <-> exists i, first <= i <= last /\ bit_at words i = true.
Proof.
  intros Hok Hf. unfold bit_range_any. destruct (Z.ltb_spec last first).
  - split; [done|]. intros (i & ? & _). lia.
  - assert (first / 64 <= last / 64) by (apply Z.div_le_mono; lia).
    assert (0 <= first / 64) by (apply Z.div_pos; lia).
    rewrite range_any_loop_spec by (done || lia). pose proof (Z.div_mod first 64).
    pose proof (Z.mod_pos_bound first 64).
    split; intros (i & Hi & Hr); exists i; [tauto|]. split_and!; try tauto; lia.
Qed.

(** ** Bits of a word in order *)

(** The set bits of [word] from [k] on. *)
Definition bits_from (word k : Z) : list Z := List.filter (Z.testbit word) (seqZ k (64 - k)).

Lemma filter_all_false {A} (p : A -> bool) l : (forall x, In x l -> p x = false) -> List.filter p l = [].
Proof.
  induction l as [|x l IH]; intros H; [done|]. cbn. rewrite H by (by left). apply IH.
  intros y Hy. apply H. by right.
Qed.

Lemma bits_from_zero : bits_from 0 0 = [].
Proof. apply filter_all_false. intros. apply Z.bits_0. Qed.

Lemma in_seqZ_range m n x : In x (seqZ m n) <-> m <= x < m + n.
Proof. rewrite <- list_elem_of_In. apply elem_of_seqZ. Qed.

(** Draining the lowest bit takes the first of the set bits. *)
Lemma bits_from_lowest word :
  u64 word -> word <> 0 ->
  bits_from word 0 = trailing_zeros word :: bits_from (Z.land word (word - 1)) 0.
Proof.
  intros Hw Hne. destruct (trailing_zeros_spec word Hw Hne) as (Ht & Hb & Hlow).
  set (t := trailing_zeros word) in *. unfold bits_from. change (64 - 0) with 64.
  assert (Hs : seqZ 0 64 = seqZ 0 t ++ t :: seqZ (t + 1) (63 - t)).
  { replace 64 with (t + (64 - t)) at 1 by lia. rewrite (seqZ_app 0 t (64 - t)) by lia.
    rewrite Z.add_0_l, (seqZ_cons t) by lia. do 3 f_equal. lia. }
  rewrite Hs, !List.filter_app.
  rewrite (filter_all_false _ (seqZ 0 t)) by (intros x ?%in_seqZ_range; apply Hlow; lia).
  rewrite (filter_all_false _ (seqZ 0 t)).
  2: { intros x ?%in_seqZ_range. rewrite (testbit_clear_lowest _ t) by (done || lia).
       rewrite Hlow by lia. done. }
  cbn [List.filter app]. rewrite Hb.
  rewrite (testbit_clear_lowest _ t), Hb, Z.eqb_refl by (done || lia). cbn [andb negb]. f_equal.
  apply List.filter_ext_in. intros x ?%in_seqZ_range. rewrite (testbit_clear_lowest _ t) by (done || lia).
  destruct (Z.eqb_spec x t); [lia|]. by rewrite andb_true_r.
Qed.
