(* ===== verification/CaptureKernel.v ===== *)
(** [crates/signal_capture/src/capture_index_kernel.rs]: the summary of one block of packed samples.

    For every group of 64, 4096 and 262144 samples the summary has one bit that tells whether the
    level changes in the group (the change into its first sample counts), and one bit with the
    level the group ends on.  The bytes of a request and of a result are those that workers
    exchange.  A function stops with [Panic] where the code indexes out of bounds. *)

From S2P Require Import Prelude CaptureBits.

(** Why a function has no value: an error value, an index out of bounds, a loop that does not end. *)
Inductive failure (E : Type) := Returned (e : E) | Panic | Diverges.
Arguments Returned {E} e.
Arguments Panic {E}.
Arguments Diverges {E}.

(** [crates/signal_capture/src/capture_index_kernel.rs:57-73] CaptureIndexKernelError *)
Inductive CaptureIndexKernelError :=
| ValidSamplesExceedPayload (declared available : Z)
| LeafSampleLimit
| ByteLengthExceedsAddressSpace
| PayloadLengthOverflow
| TruncatedPayload
| TrailingBytes.

(** [crates/signal_capture/src/capture_index_kernel.rs:26-32] CaptureIndexBlockRequest *)
Record CaptureIndexBlockRequest := mkRequest {
  req_sequence : Z;
  req_channel : Z;
  req_block : Z;
  req_valid_samples : Z;
  packed_samples : list Z
}.

(** [crates/signal_capture/src/capture_index_kernel.rs:36-43] CaptureIndexBlockLevels *)
Record CaptureIndexBlockLevels := mkLevels {
  l1_toggle : list Z;
  l1_last : list Z;
  l2_toggle : list Z;
  l2_last : list Z;
  l3_toggle : Z;
  l3_last : Z
}.

(** [crates/signal_capture/src/capture_index_kernel.rs:47-55] CaptureIndexBlockResult *)
Record CaptureIndexBlockResult := mkResult {
  res_sequence : Z;
  res_channel : Z;
  res_block : Z;
  res_valid_samples : Z;
  res_first : bool;
  res_last : bool;
  res_levels : option CaptureIndexBlockLevels
}.

(** ** Building *)

(** [words[i]]. *)
Definition get_word {E} (words : list Z) (i : Z) : result (failure E) Z := ok_or (byte_at words i) Panic.

(** [set_bit(&mut words[group / 64], group % 64)]. *)
Definition set_word_bit {E} (words : list Z) (group : Z) : result (failure E) (list Z) :=
  let? word := get_word words (group / 64) in
  Ok (<[Z.to_nat (group / 64) := set_bit word (group mod 64)]> words).

Definition set_word_bit_if {E} (condition : bool) (words : list Z) (group : Z) : result (failure E) (list Z) :=
  if condition then set_word_bit words group else Ok words.

(** [for group in group..group + count]. *)
Fixpoint for_groups {S E} (f : Z -> S -> result E S) (count : nat) (group : Z) (s : S) : result E S :=
  match count with
  | O => Ok s
  | Datatypes.S count => let? s := f group s in for_groups f count (group + 1) s
  end.

(** [crates/signal_capture/src/capture_index_kernel.rs:307-318] l1_word_has_internal_toggle *)
Definition l1_word_has_internal_toggle (word valid_bits : Z) : bool :=
  if valid_bits <=? 1 then false
  else
    let valid_mask := if valid_bits =? 64 then u64_max else Z.shiftl 1 valid_bits - 1 in
    let internal_mask := Z.land valid_mask (not64 1) in
    negb (Z.land (Z.lxor word (shl64 word 1)) internal_mask =? 0).

(** The two rows of a level and the level that enters the next group. *)
Definition L1State : Type := list Z * list Z * bool.

(** [crates/signal_capture/src/capture_index_kernel.rs:272-289] record_l1_group *)
Definition record_l1_group {E} (group word valid_bits : Z) (s : L1State) : result (failure E) L1State :=
  let '(l1_toggle, l1_last, entering) := s in
  let first_bit := negb (Z.land word 1 =? 0) in
  let? l1_toggle :=
    set_word_bit_if (xorb first_bit entering || l1_word_has_internal_toggle word valid_bits) l1_toggle group in
  let entering := bit word (valid_bits - 1) in
  let? l1_last := set_word_bit_if entering l1_last group in
  Ok (l1_toggle, l1_last, entering).

(** [crates/signal_capture/src/capture_index_kernel.rs:291-305] partial_l1_word *)
Definition partial_l1_word (data : list Z) (group valid_samples : Z) : Z * Z :=
  let valid_bits := Z.min (valid_samples - group * 64) 64 in
  let word := padded_word data (group * 8) in
  (if valid_bits <? 64 then Z.land word (Z.shiftl 1 valid_bits - 1) else word, valid_bits).

(** [crates/signal_capture/src/capture_index_kernel.rs:127-151] build_capture_index_block_from_packed *)
Definition build_l1 {E} (valid_samples : Z) (packed : list Z) (first : bool) : result (failure E) L1State :=
  let l1_groups := div_ceil valid_samples 64 in
  let full_l1_groups := valid_samples / 64 in
  let? full_l1_chunks := ok_or (slice packed 0 (full_l1_groups * 8)) Panic in
  let? s :=
    for_groups (fun group s =>
      let chunk := take 8 (drop (Z.to_nat (8 * group)) full_l1_chunks) in
      record_l1_group group (from_le_bytes chunk) 64 s)
    (Z.to_nat full_l1_groups) 0
    (replicate (Z.to_nat L1_WORDS) 0, replicate (Z.to_nat L1_WORDS) 0, first) in
  if full_l1_groups <? l1_groups then
    let '(word, valid_bits) := partial_l1_word packed full_l1_groups valid_samples in
    record_l1_group full_l1_groups word valid_bits s
  else Ok s.

(** One group of a level from the rows of the level below.
    [crates/signal_capture/src/capture_index_kernel.rs:154-162] build_capture_index_block_from_packed *)
Definition record_l2_group {E} (l1_toggle l1_last : list Z) (l1_groups group : Z) (s : list Z * list Z)
  : result (failure E) (list Z * list Z) :=
  let '(l2_toggle, l2_last) := s in
  let? word := get_word l1_toggle group in
  let? l2_toggle := set_word_bit_if (negb (word =? 0)) l2_toggle group in
  let last_l1_group := saturating_sub64 (Z.min ((group + 1) * 64) l1_groups) 1 in
  let? word := get_word l1_last (last_l1_group / 64) in
  let? l2_last := set_word_bit_if (bit word (last_l1_group mod 64)) l2_last group in
  Ok (l2_toggle, l2_last).

(** [crates/signal_capture/src/capture_index_kernel.rs:165-173] build_capture_index_block_from_packed *)
Definition record_l3_group {E} (l2_toggle l2_last : list Z) (l2_groups group : Z) (s : Z * Z)
  : result (failure E) (Z * Z) :=
  let '(l3_toggle, l3_last) := s in
  let? word := get_word l2_toggle group in
  let l3_toggle := if negb (word =? 0) then set_bit l3_toggle group else l3_toggle in
  let last_l2_group := saturating_sub64 (Z.min ((group + 1) * 64) l2_groups) 1 in
  let? word := get_word l2_last (last_l2_group / 64) in
  let l3_last := if bit word (last_l2_group mod 64) then set_bit l3_last group else l3_last in
  Ok (l3_toggle, l3_last).

(** [crates/signal_capture/src/capture_index_kernel.rs:118-173] build_capture_index_block_from_packed *)
Definition build_levels {E} (valid_samples : Z) (packed : list Z) (first : bool)
  : result (failure E) CaptureIndexBlockLevels :=
  let? s1 := build_l1 valid_samples packed first in
  let '(l1_toggle, l1_last, _) := s1 in
  let l1_groups := div_ceil valid_samples 64 in
  let l2_groups := div_ceil l1_groups 64 in
  let? s2 :=
    for_groups (record_l2_group l1_toggle l1_last l1_groups) (Z.to_nat l2_groups) 0
      (replicate (Z.to_nat L2_WORDS) 0, replicate (Z.to_nat L2_WORDS) 0) in
  let '(l2_toggle, l2_last) := s2 in
  let l3_groups := div_ceil l2_groups 64 in
  let? s3 := for_groups (record_l3_group l2_toggle l2_last l2_groups) (Z.to_nat l3_groups) 0 (0, 0) in
  Ok (mkLevels l1_toggle l1_last l2_toggle l2_last (fst s3) (snd s3)).

(** [crates/signal_capture/src/capture_index_kernel.rs:87-184] build_capture_index_block_from_packed *)
Definition build_capture_index_block_from_packed (sequence channel block requested_valid_samples : Z)
  (packed : list Z) : result (failure CaptureIndexKernelError) CaptureIndexBlockResult :=
  let available_samples := saturating_mul64 (zlen packed) 8 in
  if available_samples <? requested_valid_samples
  then Err (Returned (ValidSamplesExceedPayload requested_valid_samples available_samples))
  else if u32_max <? requested_valid_samples then Err (Returned LeafSampleLimit)
  else
    let valid_samples := requested_valid_samples in
    if valid_samples =? 0 then Ok (mkResult sequence channel block valid_samples false false None)
    else
      let first := packed_bit packed 0 in
      let last := packed_bit packed (valid_samples - 1) in
      let? levels := build_levels valid_samples packed first in
      Ok (mkResult sequence channel block valid_samples first last
            (if negb (l3_toggle levels =? 0) then Some levels else None)).

(** [crates/signal_capture/src/capture_index_kernel.rs:75-85] build_capture_index_block *)
Definition build_capture_index_block (request : CaptureIndexBlockRequest)
  : result (failure CaptureIndexKernelError) CaptureIndexBlockResult :=
  build_capture_index_block_from_packed (req_sequence request) (req_channel request) (req_block request)
    (req_valid_samples request) (packed_samples request).

(** ** The bytes that workers exchange *)

(** [crates/signal_capture/src/capture_index_kernel.rs:230-233] PayloadReader *)
Record PayloadReader := mkReader { payload : list Z; cursor : Z }.

(** [crates/signal_capture/src/capture_index_kernel.rs:250-261] PayloadReader::take *)
Definition reader_take (reader : PayloadReader) (length : Z)
  : result CaptureIndexKernelError (list Z * PayloadReader) :=
  match checked_add64 (cursor reader) length with
  | None => Err PayloadLengthOverflow
  | Some e =>
      match slice (payload reader) (cursor reader) e with
      | None => Err TruncatedPayload
      | Some bytes => Ok (bytes, mkReader (payload reader) e)
      end
  end.

(** [crates/signal_capture/src/capture_index_kernel.rs:240-242] PayloadReader::u64 *)
Definition reader_u64 (reader : PayloadReader) : result CaptureIndexKernelError (Z * PayloadReader) :=
  let? (bytes, reader) := reader_take reader 8 in
  Ok (from_le_bytes bytes, reader).

(** The address space has 64 bits, so no length exceeds it.
    [crates/signal_capture/src/capture_index_kernel.rs:244-248] PayloadReader::bytes *)
Definition reader_bytes (reader : PayloadReader) : result CaptureIndexKernelError (list Z * PayloadReader) :=
  let? (length, reader) := reader_u64 reader in
  reader_take reader length.

(** [crates/signal_capture/src/capture_index_kernel.rs:263-269] PayloadReader::finish *)
Definition reader_finish (reader : PayloadReader) : result CaptureIndexKernelError unit :=
  if cursor reader =? zlen (payload reader) then Ok tt else Err TrailingBytes.

(** [crates/signal_capture/src/capture_index_kernel.rs:186-199] decode_capture_index_request *)
Definition decode_capture_index_request (bytes : list Z)
  : result CaptureIndexKernelError CaptureIndexBlockRequest :=
  let reader := mkReader bytes 0 in
  let? (sequence, reader) := reader_u64 reader in
  let? (channel, reader) := reader_u64 reader in
  let? (block, reader) := reader_u64 reader in
  let? (valid_samples, reader) := reader_u64 reader in
  let? (packed, reader) := reader_bytes reader in
  let? _ := reader_finish reader in
  Ok (mkRequest sequence channel block valid_samples packed).

(** [crates/signal_capture/src/capture_index_kernel.rs:226-228] put_u64 *)
Definition put_u64 (bytes : list Z) (value : Z) : list Z := bytes ++ to_le_bytes 8 value.

(** [crates/signal_capture/src/capture_index_kernel.rs:201-224] encode_capture_index_result *)
Definition encode_capture_index_result (r : CaptureIndexBlockResult) : list Z :=
  let bytes := put_u64 (put_u64 (put_u64 [] (res_sequence r)) (res_channel r)) (res_block r) in
  let bytes := bytes ++ to_le_bytes 4 (res_valid_samples r) in
  let bytes := bytes ++ [b2z (res_first r)] ++ [b2z (res_last r)]
                 ++ [b2z (match res_levels r with Some _ => true | None => false end)] in
  match res_levels r with
  | None => bytes
  | Some levels =>
      let bytes := fold_left put_u64
        (l1_toggle levels ++ l1_last levels ++ l2_toggle levels ++ l2_last levels) bytes in
      put_u64 (put_u64 bytes (l3_toggle levels)) (l3_last levels)
  end.

(** The operation as the registry runs it.
    [crates/signal_capture/src/capture_index_kernel.rs:9-19] register_capture_worker_kernel *)
Definition run_capture_kernel (bytes : list Z) : result (failure CaptureIndexKernelError) (list Z) :=
  match decode_capture_index_request bytes with
  | Err e => Err (Returned e)
  | Ok request =>
      let? r := build_capture_index_block request in
      Ok (encode_capture_index_result r)
  end.

(** ** What the summary of a block says: the specification of its rows over the samples, and the proof
    that the kernel builds it. *)

(** ** The specification *)

Section Samples.
Context (s : Z -> bool) (n : Z) (entering : bool).

(** Whether the level changes into sample [i]; [entering] is the level before the first sample. *)
Definition toggles (i : Z) : bool := xorb (s i) (if i =? 0 then entering else s (i - 1)).

(** Some sample of [lo..hi] changes the level. *)
Definition active (lo hi : Z) : Prop := exists i, lo <= i < hi /\ i < n /\ toggles i = true.

(** The level of the last sample before [hi]. *)
Definition exit_level (hi : Z) : bool := s (Z.min hi n - 1).

(** The bits of a row are those below [limit] with the property [P]. *)
Definition row_marks (P : Z -> Prop) (limit : Z) (row : list Z) : Prop :=
  words_ok row /\ forall i, 0 <= i -> bit_at row i = true <-> i < limit /\ P i.

Definition toggle_row (r : Z) : Z -> list Z -> Prop := row_marks (fun g => active (r * g) (r * (g + 1))).
Definition last_row (r : Z) : Z -> list Z -> Prop := row_marks (fun g => exit_level (r * (g + 1)) = true).

(** The rows of a level whose groups have [r] samples. *)
Definition level_exact (r words : Z) (toggle last : list Z) : Prop :=
  zlen toggle = words /\ zlen last = words /\
  toggle_row r (div_ceil n r) toggle /\ last_row r (div_ceil n r) last.
End Samples.

Definition levels_exact (s : Z -> bool) (n : Z) (entering : bool) (l : CaptureIndexBlockLevels) : Prop :=
  level_exact s n entering SAMPLES_PER_L1_BIT L1_WORDS (l1_toggle l) (l1_last l) /\
  level_exact s n entering SAMPLES_PER_L2_BIT L2_WORDS (l2_toggle l) (l2_last l) /\
  level_exact s n entering SAMPLES_PER_L3_BIT 1 [l3_toggle l] [l3_last l].

(** The samples that a leaf can hold. *)
Definition MAX_LEAF_SAMPLES : Z := 16777216.

(** ** Rows *)

Lemma div_ceil_covers n r k : 0 < r -> div_ceil n r <= k <-> n <= r * k.
Proof.
  intros Hr. unfold div_ceil. split; intros H.
  - pose proof (Z.div_mod (n + r - 1) r). pose proof (Z.mod_pos_bound (n + r - 1) r). nia.
  - apply Z.lt_succ_r, Z.div_lt_upper_bound; [done|]. rewrite Z.mul_succ_r. lia.
Qed.

Lemma div_ceil_lt n r k : 0 < r -> k < div_ceil n r <-> r * k < n.
Proof. intros Hr. pose proof (div_ceil_covers n r k Hr). lia. Qed.

Lemma div_ceil_nonneg n r : 0 < r -> 0 <= n -> 0 <= div_ceil n r.
Proof. intros. unfold div_ceil. apply Z.div_pos; lia. Qed.

Lemma div_ceil_mul n a b : 0 < a -> 0 < b -> div_ceil (div_ceil n a) b = div_ceil n (a * b).
Proof.
  intros Ha Hb. assert (Hab : 0 < a * b) by nia. apply Z.le_antisymm.
  - apply (div_ceil_covers _ b _ Hb), (div_ceil_covers n a _ Ha).
    rewrite Z.mul_assoc. by apply (div_ceil_covers n (a * b) _ Hab).
  - apply (div_ceil_covers n (a * b) _ Hab). rewrite <- Z.mul_assoc.
    apply (div_ceil_covers n a _ Ha). by apply (div_ceil_covers _ b _ Hb).
Qed.

Lemma get_word_ok {E} words i w :
  0 <= i -> words !! Z.to_nat i = Some w -> @get_word E words i = Ok w.
Proof. intros Hi Hw. unfold get_word, byte_at. rewrite (proj2 (Z.ltb_ge _ _)) by lia. by rewrite Hw. Qed.

Lemma row_lookup (words : list Z) i : 0 <= i < zlen words -> exists w, words !! Z.to_nat i = Some w.
Proof. intros Hi. apply lookup_lt_is_Some_2. unfold zlen in Hi. lia. Qed.

(** One more group of a row. *)
Lemma row_marks_step {E} P g row condition :
  0 <= g < 64 * zlen row -> row_marks P g row -> (condition = true <-> P g) ->
  exists row', @set_word_bit_if E condition row g = Ok row' /\ zlen row' = zlen row /\ row_marks P (g + 1) row'.
Proof.
  intros Hg [Hok Hb] Hc.
  assert (Hdiv : 0 <= g / 64 < zlen row) by (split; [apply Z.div_pos|apply Z.div_lt_upper_bound]; lia).
  unfold set_word_bit_if. destruct condition.
  - destruct (row_lookup row (g / 64) Hdiv) as [w Hw].
    unfold set_word_bit. rewrite (get_word_ok _ _ w) by (done || lia).
    eexists. split; [done|]. split; [unfold zlen; by rewrite length_insert|]. split.
    + apply words_ok_insert; [done|]. apply set_bit_u64; [eapply Forall_lookup_1; [exact Hok|exact Hw]|].
      apply Z.mod_pos_bound. lia.
    + intros i Hi. rewrite bit_at_insert, orb_true_iff, Hb, Z.eqb_eq by (done || lia).
      split; [intros [[? ?]| <-]; split; try lia; tauto|].
      intros [Hlt HP]. destruct (Z.eq_dec g i); [by right|left]. split; [lia|done].
  - exists row. split; [done|]. split; [done|]. split; [done|]. intros i Hi. rewrite Hb by done.
    split; [intros [? ?]; split; [lia|done]|]. intros [Hlt HP]. split; [|done].
    destruct (Z.eq_dec i g) as [->|]; [|lia]. destruct Hc as [_ Hc]. by specialize (Hc HP).
Qed.

Lemma row_marks_zero P n : row_marks P 0 (replicate n 0).
Proof.
  split; [apply Forall_replicate; ints|]. intros i Hi. rewrite bit_at_zeros. split; [done|]. intros [? _]. lia.
Qed.

Lemma for_groups_inv {S E} (f : Z -> S -> result E S) (P : Z -> S -> Prop) count g s0 :
  P g s0 ->
  (forall i s0, g <= i < g + Z.of_nat count -> P i s0 -> exists s', f i s0 = Ok s' /\ P (i + 1) s') ->
  exists s', for_groups f count g s0 = Ok s' /\ P (g + Z.of_nat count) s'.
Proof.
  revert g s0. induction count as [|count IH]; intros g s0 H0 Hstep; cbn [for_groups].
  - exists s0. rewrite Z.add_0_r. done.
  - destruct (Hstep g s0) as (s1 & -> & H1); [lia|done|].
    destruct (IH (g + 1) s1 H1) as (s2 & -> & H2).
    + intros i si Hi. apply Hstep. lia.
    + exists s2. split; [done|]. by replace (g + Z.of_nat (Datatypes.S count)) with (g + 1 + Z.of_nat count) by lia.
Qed.

(** ** The first level *)

Lemma internal_toggle_spec word valid_bits :
  u64 word -> 1 <= valid_bits <= 64 ->
  l1_word_has_internal_toggle word valid_bits = true <->
  exists k, 1 <= k < valid_bits /\ xorb (Z.testbit word k) (Z.testbit word (k - 1)) = true.
Proof.
  intros Hw Hv. unfold l1_word_has_internal_toggle.
  destruct (Z.leb_spec valid_bits 1); [split; [done|intros (k & ? & _); lia]|]. cbv zeta.
  assert (Hbit : forall k, 0 <= k ->
    Z.testbit (Z.land (Z.lxor word (shl64 word 1))
      (Z.land (if valid_bits =? 64 then u64_max else Z.shiftl 1 valid_bits - 1) (not64 1))) k
    = xorb (Z.testbit word k) (Z.testbit word (k - 1)) && (1 <=? k) && (k <? valid_bits)).
  { intros k Hk. unfold not64. rewrite !Z.land_spec, !Z.lxor_spec, testbit_shl64, testbit_u64_max by lia.
    change (Z.testbit 1 k) with (Z.testbit (Z.shiftl 1 0) k). rewrite testbit_one_shifted by lia.
    assert (Hm : Z.testbit (if valid_bits =? 64 then u64_max else Z.shiftl 1 valid_bits - 1) k
                 = (k <? valid_bits)).
    { destruct (Z.eqb_spec valid_bits 64) as [->|]; [by apply testbit_u64_max|apply testbit_mask; lia]. }
    rewrite Hm. bcase; try lia; rewrite ?andb_true_r, ?andb_false_r; done. }
  rewrite nonzero_bit.
  - split.
    + intros (k & Hk & Hb). exists k. rewrite Hbit, !andb_true_iff, Z.leb_le, Z.ltb_lt in Hb by done.
      split; [lia|tauto].
    + intros (k & Hk & Hb). exists k. split; [lia|].
      rewrite Hbit, !andb_true_iff, Z.leb_le, Z.ltb_lt by lia. split_and!; done || lia.
  - apply Z.land_nonneg. right. apply Z.land_nonneg. right. unfold not64. rewrite Z.lxor_nonneg. ints.
Qed.

Section Block.
Context (s : Z -> bool) (n : Z) (entering : bool) (Hn : 0 < n <= MAX_LEAF_SAMPLES).

(** The state of the first level when its first [g] groups are recorded. *)
Definition l1_state_ok (g : Z) (st : L1State) : Prop :=
  let '(toggle, last, e) := st in
  zlen toggle = L1_WORDS /\ zlen last = L1_WORDS /\
  toggle_row s n entering SAMPLES_PER_L1_BIT g toggle /\ last_row s n SAMPLES_PER_L1_BIT g last /\
  e = if g =? 0 then entering else exit_level s n (64 * g).

Lemma first_bit_land word : negb (Z.land word 1 =? 0) = Z.testbit word 0.
Proof. change 1 with (Z.shiftl 1 0). apply land_bit. lia. Qed.

Lemma record_l1_group_ok {E} g word valid_bits st :
  0 <= g -> 64 * g < n -> valid_bits = Z.min (n - 64 * g) 64 -> u64 word ->
  (forall j, 0 <= j < valid_bits -> Z.testbit word j = s (64 * g + j)) ->
  l1_state_ok g st ->
  exists st', @record_l1_group E g word valid_bits st = Ok st' /\ l1_state_ok (g + 1) st'.
Proof.
  intros Hg Hgn Hv Hw Hbits. destruct st as [[toggle last] e].
  intros (Ht & Hl & Htr & Hlr & He). unfold record_l1_group. rewrite first_bit_land.
  unfold MAX_LEAF_SAMPLES, L1_WORDS, SAMPLES_PER_L1_BIT in *.
  assert (Hb0 : Z.testbit word 0 = s (64 * g)) by (rewrite Hbits by lia; f_equal; lia).
  assert (Hent : e = if 64 * g =? 0 then entering else s (64 * g - 1)).
  { subst e. unfold exit_level. bcase; try lia; [done|]. f_equal. lia. }
  destruct (@row_marks_step E (fun g => active s n entering (64 * g) (64 * (g + 1))) g toggle
    (xorb (Z.testbit word 0) e || l1_word_has_internal_toggle word valid_bits))
    as (toggle' & -> & Ht' & Htr'); [lia|done| |].
  { rewrite orb_true_iff, internal_toggle_spec by (done || lia). split.
    - intros [Hf|(k & Hk & Hx)].
      + exists (64 * g). split; [lia|]. split; [done|]. unfold toggles. by rewrite <- Hent, <- Hb0.
      + exists (64 * g + k). split; [lia|]. split; [lia|]. unfold toggles.
        rewrite (proj2 (Z.eqb_neq _ _)) by lia. rewrite !Hbits in Hx by lia.
        by replace (64 * g + k - 1) with (64 * g + (k - 1)) by lia.
    - intros (i & Hi & Hin & Hx). unfold toggles in Hx. destruct (Z.eq_dec i (64 * g)) as [->|].
      + left. by rewrite Hb0, Hent.
      + right. exists (i - 64 * g). split; [lia|]. rewrite (proj2 (Z.eqb_neq i 0)) in Hx by lia.
        rewrite !Hbits by lia. replace (64 * g + (i - 64 * g)) with i by lia.
        by replace (64 * g + (i - 64 * g - 1)) with (i - 1) by lia. }
  assert (Hexit : bit word (valid_bits - 1) = exit_level s n (64 * (g + 1))).
  { rewrite bit_testbit, Hbits by (done || lia). unfold exit_level. f_equal. lia. }
  destruct (@row_marks_step E (fun g => exit_level s n (64 * (g + 1)) = true) g last (bit word (valid_bits - 1)))
    as (last' & -> & Hl' & Hlr'); [lia|done|by rewrite Hexit|].
  eexists. split; [done|]. split_and!; [by rewrite Ht'|by rewrite Hl'|done|done|].
  rewrite Hexit, (proj2 (Z.eqb_neq _ _)) by lia. done.
Qed.

(** ** The levels above *)

(** A word of the row below is non-zero when some sample of its groups changes the level. *)
Lemma group_toggle_word {E} r lower g :
  0 < r -> toggle_row s n entering r (div_ceil n r) lower -> 0 <= g < zlen lower ->
  exists w, @get_word E lower g = Ok w /\
    (negb (w =? 0) = true <-> active s n entering (64 * r * g) (64 * r * (g + 1))).
Proof.
  intros Hr [Hok Hb] Hg. destruct (row_lookup lower g Hg) as [w Hw]. exists w.
  split; [apply get_word_ok; [lia|done]|]. rewrite (word_nonzero lower g w) by (done || lia). split.
  - intros (i & Hi & Hbit). apply Hb in Hbit as (_ & j & Hj & Hjn & Ht); [|lia].
    exists j. split; [nia|done].
  - intros (j & Hj & Hjn & Ht). exists (j / r).
    assert (Hjr : r * (j / r) <= j < r * (j / r + 1)).
    { pose proof (Z.div_mod j r). pose proof (Z.mod_pos_bound j r). lia. }
    assert (64 * g <= j / r < 64 * (g + 1)).
    { split; [apply Z.div_le_lower_bound; nia|apply Z.div_lt_upper_bound; nia]. }
    split; [done|]. apply Hb; [lia|]. split; [apply div_ceil_lt; lia|]. by exists j.
Qed.

(** The last group below gives the level a group ends on. *)
Lemma group_last_bit {E} r lower g :
  0 < r -> last_row s n r (div_ceil n r) lower -> div_ceil n r <= 64 * zlen lower -> 0 <= g ->
  64 * r * g < n ->
  let last := saturating_sub64 (Z.min ((g + 1) * 64) (div_ceil n r)) 1 in
  exists w, @get_word E lower (last / 64) = Ok w /\
    bit w (last mod 64) = exit_level s n (64 * r * (g + 1)).
Proof.
  intros Hr [Hok Hb] Hlen Hg Hgn last.
  assert (Hlt : 64 * g < div_ceil n r) by (apply div_ceil_lt; lia).
  assert (Hlast : 0 <= last < div_ceil n r /\ 64 * g <= last) by (unfold last, saturating_sub64; lia).
  assert (Hd : 0 <= last / 64 < zlen lower) by (split; [apply Z.div_pos|apply Z.div_lt_upper_bound]; lia).
  destruct (row_lookup lower (last / 64) Hd) as [w Hw]. exists w.
  split; [apply get_word_ok; [lia|done]|].
  assert (Hbit : bit w (last mod 64) = bit_at lower last).
  { rewrite bit_testbit.
    - unfold bit_at. by rewrite Hw.
    - eapply Forall_lookup_1; [exact Hok|exact Hw].
    - apply Z.mod_pos_bound. lia. }
  assert (Hx : exit_level s n (r * (last + 1)) = exit_level s n (64 * r * (g + 1))).
  { unfold exit_level. f_equal. f_equal.
    destruct (Z.le_ge_cases ((g + 1) * 64) (div_ceil n r)).
    - replace (last + 1) with ((g + 1) * 64) by (unfold last, saturating_sub64; lia). f_equal. lia.
    - replace (last + 1) with (div_ceil n r) by (unfold last, saturating_sub64; lia).
      pose proof (proj1 (div_ceil_covers n r (div_ceil n r) Hr) (Z.le_refl _)).
      assert (n <= 64 * r * (g + 1)).
      { replace (64 * r * (g + 1)) with (r * ((g + 1) * 64)) by lia. apply div_ceil_covers; [done|lia]. }
      lia. }
  rewrite Hbit, <- Hx. specialize (Hb last ltac:(lia)). simpl in Hb.
  destruct (bit_at lower last), (exit_level s n (r * (last + 1))); try done.
  - symmetry. tauto.
  - apply Hb. split; [lia|done].
Qed.

(** The rows of a level when their first [g] groups are recorded. *)
Definition level_state_ok (r words g : Z) (toggle last : list Z) : Prop :=
  zlen toggle = words /\ zlen last = words /\
  toggle_row s n entering r g toggle /\ last_row s n r g last.

Lemma level_state_exact r words toggle last :
  level_state_ok r words (div_ceil n r) toggle last <-> level_exact s n entering r words toggle last.
Proof. done. Qed.

Lemma level_state_zero r words :
  0 <= words -> level_state_ok r words 0 (replicate (Z.to_nat words) 0) (replicate (Z.to_nat words) 0).
Proof.
  intros Hw.
  assert (Hz : zlen (replicate (Z.to_nat words) 0) = words) by (unfold zlen; rewrite length_replicate; lia).
  repeat (split; [done|]). split; apply row_marks_zero.
Qed.

Lemma record_l2_group_ok {E} t1 l1 g st :
  level_exact s n entering 64 4096 t1 l1 -> 0 <= g -> 4096 * g < n ->
  level_state_ok 4096 64 g (fst st) (snd st) ->
  exists st', @record_l2_group E t1 l1 (div_ceil n 64) g st = Ok st' /\
    level_state_ok 4096 64 (g + 1) (fst st') (snd st').
Proof.
  intros (Hl1 & Hl1' & Ht1 & Hla1) Hg Hgn (Hz & Hz' & Ht & Hla). unfold MAX_LEAF_SAMPLES in Hn.
  destruct st as [t2 l2]. unfold record_l2_group. cbn [fst snd] in *.
  destruct (@group_toggle_word E 64 t1 g) as (w & -> & Hw); [lia|done|lia|].
  destruct (@row_marks_step E _ g t2 (negb (w =? 0)) ltac:(lia) Ht Hw) as (t' & -> & Hlt & Ht').
  destruct (@group_last_bit E 64 l1 g) as (w' & -> & Hw');
    [lia|done|rewrite Hl1'; apply div_ceil_covers; lia|done|lia|].
  destruct (@row_marks_step E (fun g => exit_level s n (4096 * (g + 1)) = true) g l2 (bit w'
    (saturating_sub64 (Z.min ((g + 1) * 64) (div_ceil n 64)) 1 mod 64))) as (l' & -> & Hll & Hl');
    [lia|done|by rewrite Hw'|].
  eexists. split; [done|]. cbn [fst snd]. split_and!; [by rewrite Hlt|by rewrite Hll|done|done].
Qed.

Lemma set_single_word {E} condition w g :
  0 <= g < 64 -> @set_word_bit_if E condition [w] g = Ok [if condition then set_bit w g else w].
Proof.
  intros Hg. unfold set_word_bit_if, set_word_bit. destruct condition; [|done].
  rewrite Z.div_small, Z.mod_small by lia. done.
Qed.

Lemma record_l3_group_ok {E} t2 l2 g st :
  level_exact s n entering 4096 64 t2 l2 -> 0 <= g -> 262144 * g < n ->
  level_state_ok 262144 1 g [fst st] [snd st] ->
  exists st', @record_l3_group E t2 l2 (div_ceil n 4096) g st = Ok st' /\
    level_state_ok 262144 1 (g + 1) [fst st'] [snd st'].
Proof.
  intros (Hl1 & Hl1' & Ht1 & Hla1) Hg Hgn (Hz & Hz' & Ht & Hla). unfold MAX_LEAF_SAMPLES in Hn.
  destruct st as [t3 l3]. unfold record_l3_group. cbn [fst snd] in *.
  destruct (@group_toggle_word E 4096 t2 g) as (w & -> & Hw); [lia|done|lia|].
  destruct (@row_marks_step E _ g [t3] (negb (w =? 0)) ltac:(lia) Ht Hw) as (t' & Heq & Hlt & Ht').
  destruct (@group_last_bit E 4096 l2 g) as (w' & -> & Hw');
    [lia|done|rewrite Hl1'; apply div_ceil_covers; lia|done|lia|].
  destruct (@row_marks_step E (fun g => exit_level s n (262144 * (g + 1)) = true) g [l3] (bit w'
    (saturating_sub64 (Z.min ((g + 1) * 64) (div_ceil n 4096)) 1 mod 64))) as (l' & Heq' & Hll & Hl');
    [lia|done|by rewrite Hw'|].
  rewrite set_single_word in Heq, Heq' by lia. injection Heq as <-. injection Heq' as <-.
  eexists. split; [done|]. cbn [fst snd]. split_and!; done.
Qed.
End Block.

(** ** The whole summary *)

Section Build.
Context (data : list Z) (n : Z) (Hd : bytes_ok data) (Hn : 0 < n <= MAX_LEAF_SAMPLES) (Hlen : n <= 8 * zlen data).

Lemma slice_full : slice data 0 (n / 64 * 8) = Some (take (Z.to_nat (n / 64 * 8)) data).
Proof using Hn Hlen.
  unfold slice. pose proof (Z.div_mod n 64). pose proof (Z.mod_pos_bound n 64).
  assert (0 <= n / 64) by (apply Z.div_pos; lia).
  rewrite !(proj2 (Z.leb_le _ _)) by lia. cbn [andb]. f_equal. rewrite Z.sub_0_r. by rewrite drop_0.
Qed.

Lemma chunk_of_prefix k g :
  0 <= g < k -> take 8 (drop (Z.to_nat (8 * g)) (take (Z.to_nat (k * 8)) data))
                = take 8 (drop (Z.to_nat (8 * g)) data).
Proof.
  intros Hg. rewrite skipn_firstn_comm, take_take. f_equal. lia.
Qed.

Lemma build_l1_ok {E} first :
  exists t l e, @build_l1 E n data first = Ok (t, l, e) /\
    level_exact (packed_bit data) n first SAMPLES_PER_L1_BIT L1_WORDS t l.
Proof using Hd Hn Hlen.
  unfold build_l1. rewrite slice_full. cbn [ok_or].
  pose proof (Z.div_mod n 64). pose proof (Z.mod_pos_bound n 64).
  assert (Hq : 0 <= n / 64) by (apply Z.div_pos; lia).
  destruct (for_groups_inv (fun group s =>
      record_l1_group (E := E) group
        (from_le_bytes (take 8 (drop (Z.to_nat (8 * group)) (take (Z.to_nat (n / 64 * 8)) data)))) 64 s)
    (l1_state_ok (packed_bit data) n first) (Z.to_nat (n / 64)) 0
    (replicate (Z.to_nat L1_WORDS) 0, replicate (Z.to_nat L1_WORDS) 0, first)) as (st & -> & Hst).
  { destruct (level_state_zero (packed_bit data) n first SAMPLES_PER_L1_BIT L1_WORDS) as (? & ? & ? & ?);
      [done|]. by repeat (split; [done|]). }
  { intros i st Hi Hst. rewrite chunk_of_prefix by lia.
    apply (record_l1_group_ok (packed_bit data) n first Hn); try done; try lia.
    - by apply chunk_u64.
    - intros j Hj. apply testbit_chunk; done || lia. }
  rewrite Z.add_0_l, Z2Nat.id in Hst by lia.
  assert (Hout : forall st, l1_state_ok (packed_bit data) n first (div_ceil n 64) st ->
    exists t l e, @Ok (failure E) _ st = Ok (t, l, e) /\
      level_exact (packed_bit data) n first SAMPLES_PER_L1_BIT L1_WORDS t l).
  { intros [[t l] e] (H1 & H2 & H3 & H4 & _). exists t, l, e. done. }
  destruct (Z.ltb_spec (n / 64) (div_ceil n 64)) as [Hp|Hp].
  - apply div_ceil_lt in Hp; [|lia].
    destruct (partial_l1_word data (n / 64) n) as [word vb] eqn:Hw. unfold partial_l1_word in Hw.
    injection Hw as Hword Hvb. rewrite (proj2 (Z.ltb_lt _ _)) in Hword by lia.
    assert (Hw : u64 word /\ forall j, 0 <= j < vb -> Z.testbit word j = packed_bit data (64 * (n / 64) + j)).
    { subst word. split.
      - apply land_u64; [apply padded_word_u64; done || lia|]. rewrite Z.shiftl_1_l. lia.
      - intros j Hj. rewrite Z.land_spec, testbit_mask, testbit_padded by (done || lia).
        rewrite (proj2 (Z.ltb_lt _ _)) by lia. apply andb_true_r. }
    destruct Hw as [Hu Hb].
    destruct (record_l1_group_ok (packed_bit data) n first Hn (E := E) (n / 64) word vb st)
      as (st' & -> & Hst'); [lia|lia|lia|done|done|done|].
    apply Hout. replace (div_ceil n 64) with (n / 64 + 1); [done|].
    apply Z.le_antisymm; [|apply div_ceil_covers; lia]. apply Z.le_succ_l, div_ceil_lt; lia.
  - apply Hout. replace (div_ceil n 64) with (n / 64); [done|].
    apply Z.le_antisymm; [|done]. destruct (Z.eq_dec (n / 64) 0) as [->|]; [by apply div_ceil_nonneg; lia|].
    enough (n / 64 - 1 < div_ceil n 64) by lia. apply div_ceil_lt; lia.
Qed.

Lemma build_levels_ok {E} first :
  exists levels, @build_levels E n data first = Ok levels /\ levels_exact (packed_bit data) n first levels.
Proof using Hd Hn Hlen.
  unfold build_levels. destruct (@build_l1_ok E first) as (t1 & l1 & e & -> & H1).
  rewrite !div_ceil_mul by lia. change (64 * 64) with 4096. change (4096 * 64) with 262144.
  pose proof (div_ceil_nonneg n 4096). pose proof (div_ceil_nonneg n 262144).
  destruct (for_groups_inv (record_l2_group (E := E) t1 l1 (div_ceil n 64))
    (fun g st => level_state_ok (packed_bit data) n first 4096 64 g (fst st) (snd st))
    (Z.to_nat (div_ceil n 4096)) 0
    (replicate (Z.to_nat L2_WORDS) 0, replicate (Z.to_nat L2_WORDS) 0)) as ([t2 l2] & -> & H2).
  { by apply (level_state_zero _ _ _ 4096 L2_WORDS). }
  { intros g st Hg Hst. apply record_l2_group_ok; try done; try lia.
    apply (div_ceil_lt n 4096); lia. }
  rewrite Z.add_0_l, Z2Nat.id in H2 by lia. cbn [fst snd] in H2.
  destruct (for_groups_inv (record_l3_group (E := E) t2 l2 (div_ceil n 4096))
    (fun g st => level_state_ok (packed_bit data) n first 262144 1 g [fst st] [snd st])
    (Z.to_nat (div_ceil n 262144)) 0 (0, 0)) as ([t3 l3] & -> & H3).
  { by apply (level_state_zero _ _ _ 262144 1). }
  { intros g st Hg Hst. apply record_l3_group_ok; try done; try lia.
    apply (div_ceil_lt n 262144); lia. }
  rewrite Z.add_0_l, Z2Nat.id in H3 by lia.
  eexists. split; [done|]. split_and!; done.
Qed.
End Build.

Lemma l3_toggle_active s n entering levels :
  0 <= n <= MAX_LEAF_SAMPLES -> levels_exact s n entering levels ->
  negb (l3_toggle levels =? 0) = true <-> active s n entering 0 n.
Proof.
  unfold MAX_LEAF_SAMPLES, SAMPLES_PER_L3_BIT. intros Hn (_ & _ & _ & _ & [Hok Hb] & _).
  rewrite (word_nonzero [l3_toggle levels] 0) by done. split.
  - intros (i & Hi & Hbit). apply Hb in Hbit as (_ & j & Hj & Hjn & Ht); [|lia].
    exists j. unfold SAMPLES_PER_L3_BIT in *. split; [lia|done].
  - intros (j & Hj & Hjn & Ht). exists (j / 262144).
    assert (Hjr : 262144 * (j / 262144) <= j < 262144 * (j / 262144 + 1)).
    { pose proof (Z.div_mod j 262144). pose proof (Z.mod_pos_bound j 262144). lia. }
    unfold SAMPLES_PER_L3_BIT in *. split; [lia|]. apply Hb; [lia|]. split; [apply div_ceil_lt; lia|]. by exists j.
Qed.

Lemma not_active_constant s n entering :
  ~ active s n entering 0 n -> forall i, 0 <= i < n -> s i = entering.
Proof.
  intros Hna i Hi. destruct (Z_lt_le_dec i 0); [lia|]. revert Hi.
  apply (natlike_ind (fun i => 0 <= i < n -> s i = entering)); [| |done]; clear i l.
  - intros Hi. destruct (xorb (s 0) entering) eqn:Hx.
    + destruct Hna. exists 0. split; [lia|]. split; [lia|done].
    + by apply xorb_eq.
  - intros i Hi0 IH Hi. rewrite <- IH by lia. destruct (xorb (s (Z.succ i)) (s i)) eqn:Hx.
    + destruct Hna. exists (Z.succ i). split; [lia|]. split; [lia|]. unfold toggles.
      rewrite (proj2 (Z.eqb_neq _ _)) by lia. by replace (Z.succ i - 1) with i by lia.
    + by apply xorb_eq.
Qed.

(** The levels of a block, or their absence, over the samples of the block. *)
Definition summary_exact (s : Z -> bool) (n : Z) (entering : bool) (levels : option CaptureIndexBlockLevels) : Prop :=
  match levels with
  | Some levels => levels_exact s n entering levels /\ active s n entering 0 n
  | None => forall i, 0 <= i < n -> s i = entering
  end.

Lemma build_block_ok sequence channel block n data :
  bytes_ok data -> 0 <= n <= MAX_LEAF_SAMPLES -> n <= 8 * zlen data -> u64 (8 * zlen data) ->
  exists levels,
    build_capture_index_block_from_packed sequence channel block n data =
      Ok (mkResult sequence channel block n
            (negb (n =? 0) && packed_bit data 0) (negb (n =? 0) && packed_bit data (n - 1)) levels) /\
    summary_exact (packed_bit data) n (packed_bit data 0) levels.
Proof.
  intros Hd Hn Hlen Hsize. unfold build_capture_index_block_from_packed. cbv zeta.
  assert (Hmul : saturating_mul64 (zlen data) 8 = 8 * zlen data) by (unfold saturating_mul64; ints).
  rewrite Hmul, (proj2 (Z.ltb_ge _ _)) by lia.
  rewrite (proj2 (Z.ltb_ge u32_max n)) by (unfold MAX_LEAF_SAMPLES in *; ints).
  destruct (Z.eqb_spec n 0) as [->|Hne]; [exists None; split; [done|]; intros i Hi; lia|].
  destruct (@build_levels_ok data n Hd ltac:(lia) Hlen CaptureIndexKernelError (packed_bit data 0))
    as (levels & -> & Hl).
  eexists. split; [done|]. pose proof (l3_toggle_active _ _ _ _ Hn Hl) as Ha.
  destruct (negb (l3_toggle levels =? 0)); [split; [done|tauto]|].
  cbn [summary_exact]. apply not_active_constant. intros ?%Ha. done.
Qed.
