(* ===== verification/CaptureLeaf.v ===== *)
(** [crates/signal_capture/src/waveform_index/builder.rs] and [storage.rs]: the leaf of a block in
    the waveform index.  It is the kernel's summary, completed with the change of level into the
    block's first sample; in a segment it is a header of eight bytes followed by its rows. *)

From S2P Require Import Prelude CaptureBits CaptureKernel.

(** What a parse error reports; other errors that it quotes are values, not texts. *)
Inductive ParseCause :=
| Text (message : string)
| KernelError (e : CaptureIndexKernelError)
| RepositoryError.

(** [crates/signal_capture/src/errors.rs:5-30] Error *)
Inductive Error :=
| Io
| ParseError (cause : ParseCause)
| InvalidProbe (channel : Z)
| InvalidBlock (block : Z)
| OutOfBounds (position : Z)
| Cancelled
| CaptureQueryPending
| CaptureQuery.

Definition parse_error {A} (message : string) : result (failure Error) A :=
  Err (Returned (ParseError (Text message))).

(** The rows of the kernel with their fixed lengths.
    [crates/signal_capture/src/waveform_index/types.rs:35-42] BlockLevels *)
Definition BlockLevels : Type := CaptureIndexBlockLevels.

(** [crates/signal_capture/src/waveform_index/types.rs:26-32] BlockIndex *)
Record BlockIndex := mkLeaf {
  valid_samples : Z;
  first : bool;
  last : bool;
  levels : option BlockLevels
}.

(** [crates/signal_capture/src/waveform_index/builder.rs:25-29] BuildJob *)
Record BuildJob := mkJob { job_sequence : Z; job_channel : Z; job_block : Z }.

(** [crates/signal_capture/src/waveform_index/types.rs:45-49] BlockLevels::zeroed *)
Definition zeroed : BlockLevels :=
  mkLevels (replicate (Z.to_nat L1_WORDS) 0) (replicate (Z.to_nat L1_WORDS) 0)
    (replicate (Z.to_nat L2_WORDS) 0) (replicate (Z.to_nat L2_WORDS) 0) 0 0.

(** [usize] has 64 bits, so the channel of a result is in its range.
    [crates/signal_capture/src/waveform_index/builder.rs:470-509] IndexBuilder::finish_block_result *)
Definition finish_block_result (r : CaptureIndexBlockResult) : result (failure Error) (BuildJob * BlockIndex) :=
  let? levels :=
    match res_levels r with
    | None => Ok None
    | Some source =>
        if negb (zlen (l1_toggle source) =? L1_WORDS) || negb (zlen (l1_last source) =? L1_WORDS)
           || negb (zlen (l2_toggle source) =? L2_WORDS) || negb (zlen (l2_last source) =? L2_WORDS)
        then parse_error "capture-index worker returned malformed hierarchy lengths"
        else
          Ok (Some (mkLevels (l1_toggle source) (l1_last source) (l2_toggle source) (l2_last source)
                      (l3_toggle source) (l3_last source)))
    end in
  Ok (mkJob (res_sequence r) (res_channel r) (res_block r),
      mkLeaf (res_valid_samples r) (res_first r) (res_last r) levels).

(** [.map_err(|error| Error::ParseError(error.to_string()))] on a result of the kernel. *)
Definition kernel_error {A} (r : result (failure CaptureIndexKernelError) A) : result (failure Error) A :=
  match r with
  | Ok a => Ok a
  | Err (Returned e) => Err (Returned (ParseError (KernelError e)))
  | Err Panic => Err Panic
  | Err Diverges => Err Diverges
  end.

(** [crates/signal_capture/src/waveform_index/builder.rs:516-520] IndexBuilder::build_leaf *)
Definition build_leaf (data : list Z) (valid_samples : Z) : result (failure Error) BlockIndex :=
  let? r := kernel_error (build_capture_index_block_from_packed 0 0 0 valid_samples data) in
  let? (_, leaf) := finish_block_result r in
  Ok leaf.

(** [crates/signal_capture/src/waveform_index/builder.rs:542-561] IndexBuilder::fill_constant_last_summaries_into *)
Definition fill_constant_last_summaries_into (lvl : BlockLevels) (first : bool) (valid_samples : Z)
  : result (failure Error) BlockLevels :=
  if negb first || (valid_samples =? 0) then Ok lvl
  else
    let l1_groups := div_ceil valid_samples SAMPLES_PER_L1_BIT in
    let? l1 := for_groups (fun g row => set_word_bit row g) (Z.to_nat l1_groups) 0 (l1_last lvl) in
    let l2_groups := div_ceil l1_groups 64 in
    let? l2 := for_groups (fun g row => set_word_bit row g) (Z.to_nat l2_groups) 0 (l2_last lvl) in
    let l3_groups := div_ceil l2_groups 64 in
    let? l3 := for_groups (fun g word => Ok (set_bit word g)) (Z.to_nat l3_groups) 0 (l3_last lvl) in
    Ok (mkLevels (l1_toggle lvl) l1 (l2_toggle lvl) l2 (l3_toggle lvl) l3).

(** [crates/signal_capture/src/waveform_index/builder.rs:522-540] IndexBuilder::apply_boundary_transition *)
Definition apply_boundary_transition (leaf : BlockIndex) (previous_last : option bool)
  : result (failure Error) BlockIndex :=
  match previous_last with
  | None => Ok leaf
  | Some previous_last =>
      if (valid_samples leaf =? 0) || Bool.eqb previous_last (first leaf) then Ok leaf
      else
        let? lvl :=
          match levels leaf with
          | Some lvl => Ok lvl
          | None => fill_constant_last_summaries_into zeroed (first leaf) (valid_samples leaf)
          end in
        let? l1 := set_word_bit (l1_toggle lvl) 0 in
        let? l2 := set_word_bit (l2_toggle lvl) 0 in
        let l3 := set_bit (l3_toggle lvl) 0 in
        Ok (mkLeaf (valid_samples leaf) (first leaf) (last leaf)
              (Some (mkLevels l1 (l1_last lvl) l2 (l2_last lvl) l3 (l3_last lvl))))
  end.

(** ** The bytes of a leaf *)

(** [crates/signal_capture/src/waveform_index/storage.rs:634-638] push_u64_slice *)
Definition push_u64_slice (out values : list Z) : list Z :=
  fold_left (fun out value => out ++ to_le_bytes 8 value) values out.

(** [crates/signal_capture/src/waveform_index/storage.rs:562-577] serialize_leaf *)
Definition serialize_leaf (leaf : BlockIndex) : list Z :=
  let active := match levels leaf with Some _ => true | None => false end in
  let out := to_le_bytes 4 (valid_samples leaf) in
  let out := out ++ [Z.lor (Z.lor (b2z (first leaf)) (Z.shiftl (b2z (last leaf)) 1)) (Z.shiftl (b2z active) 2)] in
  let out := out ++ [0; 0; 0] in
  match levels leaf with
  | None => out
  | Some levels =>
      let out := push_u64_slice out (l1_toggle levels) in
      let out := push_u64_slice out (l1_last levels) in
      let out := push_u64_slice out (l2_toggle levels) in
      let out := push_u64_slice out (l2_last levels) in
      let out := out ++ to_le_bytes 8 (l3_toggle levels) in
      out ++ to_le_bytes 8 (l3_last levels)
  end.

(** [crates/signal_capture/src/waveform_index/storage.rs:219-225] LevelsView *)
Record LevelsView := mkLevelsView {
  view_l1_toggle : list Z;
  view_l1_last : list Z;
  view_l2_toggle : list Z;
  view_l2_last : list Z;
  view_l3_toggle : Z
}.

(** [crates/signal_capture/src/waveform_index/storage.rs:211-216] LeafView *)
Record LeafView := mkLeafView {
  view_valid_samples : Z;
  view_first : bool;
  view_last : bool;
  view_levels : option LevelsView
}.

(** [payload.as_chunks::<8>().0] as words. *)
Fixpoint le_words (count : nat) (bytes : list Z) : list Z :=
  match count with
  | O => []
  | S count => from_le_bytes (take 8 bytes) :: le_words count (drop 8 bytes)
  end.

(** [crates/signal_capture/src/waveform_index/storage.rs:591-591] LEVEL_WORDS *)
Definition LEVEL_WORDS : Z := 2 * L1_WORDS + 2 * L2_WORDS + 2.

(** [words.split_at(n)] within bounds. *)
Definition split_words (n : Z) (words : list Z) : list Z * list Z :=
  (take (Z.to_nat n) words, drop (Z.to_nat n) words).

(** [crates/signal_capture/src/waveform_index/storage.rs:580-620] leaf_view *)
Definition leaf_view (data : list Z) : result (failure Error) LeafView :=
  if zlen data <? 8 then parse_error "truncated waveform-index leaf"
  else
    let chunk_header := take 8 data in
    let payload := drop 8 data in
    let valid_samples := from_le_bytes (take 4 chunk_header) in
    let? flags := get_word chunk_header 4 in
    let? levels :=
      if negb (Z.land flags 4 =? 0) then
        match slice payload 0 (LEVEL_WORDS * 8) with
        | None => parse_error "truncated waveform-index leaf"
        | Some payload =>
            let words := le_words (Z.to_nat (zlen payload / 8)) payload in
            let '(l1_toggle, rest) := split_words L1_WORDS words in
            let '(l1_last, rest) := split_words L1_WORDS rest in
            let '(l2_toggle, rest) := split_words L2_WORDS rest in
            let '(l2_last, rest) := split_words L2_WORDS rest in
            let? l3_toggle := get_word rest 0 in
            Ok (Some (mkLevelsView l1_toggle l1_last l2_toggle l2_last l3_toggle))
        end
      else Ok None in
    Ok (mkLeafView valid_samples (negb (Z.land flags 1 =? 0)) (negb (Z.land flags 2 =? 0)) levels).

(** ** Leaves of the waveform index: they are exact over the samples of the block and the level before
    it, and their bytes read back. *)

(** A leaf over the samples [s] of a block of [n], entered at level [entering]. *)
Definition leaf_exact (s : Z -> bool) (n : Z) (entering : bool) (leaf : BlockIndex) : Prop :=
  valid_samples leaf = n /\
  first leaf = negb (n =? 0) && s 0 /\
  last leaf = negb (n =? 0) && s (n - 1) /\
  summary_exact s n entering (levels leaf).

Lemma build_leaf_exact data n :
  bytes_ok data -> 0 <= n <= MAX_LEAF_SAMPLES -> n <= 8 * zlen data -> u64 (8 * zlen data) ->
  exists leaf, build_leaf data n = Ok leaf /\ leaf_exact (packed_bit data) n (packed_bit data 0) leaf.
Proof.
  intros Hd Hn Hlen Hsize. unfold build_leaf.
  destruct (build_block_ok 0 0 0 n data Hd Hn Hlen Hsize) as (levels & -> & Hl). cbn [kernel_error].
  unfold finish_block_result. cbn [res_levels res_sequence res_channel res_block res_valid_samples res_first res_last].
  destruct levels as [lvl|].
  - pose proof Hl as [((H1 & H2 & _) & (H3 & H4 & _) & _) _].
    rewrite H1, H2, H3, H4. rewrite !Z.eqb_refl. cbn [negb orb]. eexists. split; [done|].
    by destruct lvl.
  - eexists. split; [done|]. done.
Qed.

(** ** The change of level into a block *)

Lemma active_entering s n p lo hi :
  0 <= lo -> 0 < n -> p <> s 0 ->
  active s n p lo hi <-> active s n (s 0) lo hi \/ lo = 0 /\ 0 < hi.
Proof.
  intros Hlo Hn Hp. unfold active, toggles. split.
  - intros (i & Hi & Hin & Ht). destruct (Z.eqb_spec i 0) as [->|Hne].
    + right. lia.
    + left. exists i. rewrite (proj2 (Z.eqb_neq _ _)) by done. done.
  - intros [(i & Hi & Hin & Ht)|[-> Hhi]].
    + exists i. split; [done|]. split; [done|]. destruct (Z.eqb_spec i 0) as [->|]; [|done].
      by rewrite xorb_nilpotent in Ht.
    + exists 0. split; [lia|]. split; [done|]. cbn. by destruct p, (s 0).
Qed.

Lemma toggle_row_entering {E} s n p r limit row :
  0 < r -> 0 < n -> 0 < limit -> p <> s 0 -> 0 < zlen row ->
  toggle_row s n (s 0) r limit row ->
  exists row', @set_word_bit E row 0 = Ok row' /\ zlen row' = zlen row /\ toggle_row s n p r limit row'.
Proof.
  intros Hr Hn Hlim Hp Hlen [Hok Hb]. destruct (row_lookup row 0 ltac:(lia)) as [w Hw].
  unfold set_word_bit. rewrite (get_word_ok row (0 / 64) w) by done.
  eexists. split; [done|]. split; [unfold zlen; by rewrite length_insert|]. split.
  - apply words_ok_insert; [done|]. apply set_bit_u64; [|done]. eapply Forall_lookup_1; [exact Hok|exact Hw].
  - intros i Hi. rewrite (bit_at_insert row w 0 i) by done.
    rewrite orb_true_iff, Hb, Z.eqb_eq, (active_entering s n p) by (done || nia). split.
    + intros [[? ?]| <-]; split; try tauto; try lia.
    + intros [? [?|[H0 _]]]; [tauto|]. right. nia.
Qed.

Lemma set_bit_single w : @set_word_bit Error [w] 0 = Ok [set_bit w 0].
Proof. done. Qed.

(** The rows of a block that is constantly high. *)
Lemma fill_row s n r words :
  0 <= n -> 0 < r -> n <= r * (64 * words) -> (forall i, 0 <= i < n -> s i = true) ->
  exists row, for_groups (fun g row => @set_word_bit Error row g) (Z.to_nat (div_ceil n r)) 0
    (replicate (Z.to_nat words) 0) = Ok row /\ zlen row = zlen (replicate (Z.to_nat words) 0) /\
    last_row s n r (div_ceil n r) row.
Proof.
  intros Hn Hr Hw Hs. pose proof (div_ceil_nonneg n r Hr Hn).
  destruct (for_groups_inv (fun g row => @set_word_bit Error row g)
    (fun g row => zlen row = zlen (replicate (Z.to_nat words) 0) /\ last_row s n r g row)
    (Z.to_nat (div_ceil n r)) 0 (replicate (Z.to_nat words) 0)) as (row & -> & Hrow).
  - split; [done|]. apply row_marks_zero.
  - intros g row Hg [Hlen Hrow].
    assert (Hlt : r * g < n) by (apply div_ceil_lt; lia).
    assert (Hwords : zlen (replicate (Z.to_nat words) 0) = words) by (unfold zlen; rewrite length_replicate; nia).
    destruct (@row_marks_step Error (fun g => exit_level s n (r * (g + 1)) = true) g row true) as (row' & Heq & Hl & Hm);
      [nia|done| |].
    + split; [|done]. intros _. apply Hs. nia.
    + exists row'. split; [exact Heq|]. split; [congruence|done].
  - exists row. rewrite Z.add_0_l, Z2Nat.id in Hrow by lia. done.
Qed.

Lemma zero_row P limit count :
  (forall i, 0 <= i < limit -> ~ P i) -> row_marks P limit (replicate count 0).
Proof.
  intros HP. split; [apply Forall_replicate; ints|]. intros i Hi. rewrite bit_at_zeros. split; [done|].
  intros [Hl Hp]. by destruct (HP i).
Qed.

Lemma constant_inactive s n lo hi : 0 <= lo -> (forall i, 0 <= i < n -> s i = s 0) -> ~ active s n (s 0) lo hi.
Proof.
  intros Hlo Hs (i & Hi & Hin & Ht). unfold toggles in Ht. destruct (Z.eqb_spec i 0) as [->|].
  - by rewrite xorb_nilpotent in Ht.
  - rewrite (Hs i), (Hs (i - 1)), xorb_nilpotent in Ht by lia. done.
Qed.

Lemma constant_toggle_row s n r limit count :
  0 < r -> (forall i, 0 <= i < n -> s i = s 0) -> toggle_row s n (s 0) r limit (replicate count 0).
Proof. intros Hr Hs. apply zero_row. intros i Hi. apply constant_inactive; [nia|done]. Qed.

Lemma low_last_row s n r count :
  0 < r -> 0 < n -> (forall i, 0 <= i < n -> s i = false) -> last_row s n r (div_ceil n r) (replicate count 0).
Proof. intros Hr Hn Hs. apply zero_row. intros i Hi. unfold exit_level. rewrite Hs; [done|]. nia. Qed.

Lemma for_groups_single {E} count g row word out :
  0 <= g -> g + Z.of_nat count <= 64 -> row = [word] ->
  for_groups (fun g row => @set_word_bit E row g) count g row = Ok out ->
  exists word', out = [word'] /\ for_groups (fun g word => @Ok (failure E) _ (set_bit word g)) count g word = Ok word'.
Proof.
  revert g row word. induction count as [|count IH]; intros g row word Hg Hc -> Hrun; cbn [for_groups] in *.
  - injection Hrun as <-. by exists word.
  - pose proof (@set_single_word E true word g ltac:(lia)) as Hset. unfold set_word_bit_if in Hset.
    rewrite Hset in Hrun. by apply (IH (g + 1) [set_bit word g]); [lia|lia|done|].
Qed.

Lemma fill_exact s n :
  0 < n <= MAX_LEAF_SAMPLES -> (forall i, 0 <= i < n -> s i = s 0) ->
  exists lvl, fill_constant_last_summaries_into zeroed (s 0) n = Ok lvl /\ levels_exact s n (s 0) lvl.
Proof.
  intros Hn Hs. unfold MAX_LEAF_SAMPLES in Hn. unfold fill_constant_last_summaries_into.
  rewrite (proj2 (Z.eqb_neq n 0)), orb_false_r by lia. destruct (s 0) eqn:H0; cbn [negb].
  - unfold SAMPLES_PER_L1_BIT. rewrite !div_ceil_mul by lia.
    change (64 * 64) with 4096. change (4096 * 64) with 262144. cbn [l1_last l2_last l3_last zeroed].
    destruct (fill_row s n 64 L1_WORDS) as (l1 & -> & Hl1 & Hr1); [lia|done|unfold L1_WORDS; lia|done|].
    destruct (fill_row s n 4096 L2_WORDS) as (l2 & -> & Hl2 & Hr2); [lia|done|unfold L2_WORDS; lia|done|].
    destruct (fill_row s n 262144 1) as (l3 & Hrun & Hl3 & Hr3); [lia|done|lia|done|].
    assert (Hc : 0 + Z.of_nat (Z.to_nat (div_ceil n 262144)) <= 64).
    { rewrite Z2Nat.id by (apply div_ceil_nonneg; lia). apply div_ceil_covers; lia. }
    destruct (for_groups_single (E := Error) _ 0 _ 0 l3 ltac:(lia) Hc eq_refl Hrun) as (w3 & -> & ->).
    eexists. split; [done|].
    split; [|split]; (split; [done|]); (split; [done|]); (split; [|done]).
    + rewrite <- H0. by apply constant_toggle_row; rewrite ?H0.
    + rewrite <- H0. by apply constant_toggle_row; rewrite ?H0.
    + rewrite <- H0. by apply (constant_toggle_row _ _ _ _ 1); rewrite ?H0.
  - eexists. split; [done|]. split; [|split]; (split; [done|]); (split; [done|]); split.
    + rewrite <- H0. by apply constant_toggle_row; rewrite ?H0.
    + apply low_last_row; done || lia.
    + rewrite <- H0. by apply constant_toggle_row; rewrite ?H0.
    + apply low_last_row; done || lia.
    + rewrite <- H0. by apply (constant_toggle_row _ _ _ _ 1); rewrite ?H0.
    + apply (low_last_row _ _ _ 1); done || lia.
Qed.

(** The level that enters a block, when the channel has a block before it. *)
Definition entering_level (s : Z -> bool) (previous_last : option bool) : bool := default (s 0) previous_last.

Lemma apply_boundary_exact s n previous_last leaf :
  0 <= n <= MAX_LEAF_SAMPLES -> leaf_exact s n (s 0) leaf ->
  exists leaf', apply_boundary_transition leaf previous_last = Ok leaf' /\
    leaf_exact s n (entering_level s previous_last) leaf'.
Proof.
  intros Hn (Hv & Hf & Hl & Hs). unfold apply_boundary_transition, entering_level.
  destruct previous_last as [p|]; [|by exists leaf]. cbn [default from_option id].
  rewrite Hv. destruct (Z.eqb_spec n 0) as [->|Hne].
  { exists leaf. cbn [orb]. split; [done|]. split_and!; [done..|].
    destruct (levels leaf); [|intros i Hi; lia]. destruct Hs as [_ (i & Hi & _)]. lia. }
  rewrite Hf. cbn [negb andb orb]. destruct (Bool.eqb_spec p (s 0)) as [->|Hp].
  { exists leaf. split; [done|]. unfold leaf_exact. rewrite (proj2 (Z.eqb_neq n 0) Hne). by repeat (split; [done|]). }
  assert (Hlvl : exists lvl, (match levels leaf with
      | Some lvl => Ok lvl
      | None => fill_constant_last_summaries_into zeroed (s 0) n
      end) = Ok lvl /\ levels_exact s n (s 0) lvl).
  { destruct (levels leaf) as [lvl|]; [exists lvl; split; [done|apply Hs]|]. apply fill_exact; [lia|done]. }
  destruct Hlvl as (lvl & -> & (H1 & H1' & Ht1 & Hl1) & (H2 & H2' & Ht2 & Hl2) & (H3 & H3' & Ht3 & Hl3)).
  assert (Hlim : forall r, 0 < r -> 0 < div_ceil n r) by (intros r Hr; apply div_ceil_lt; lia).
  assert (Hset : forall r row, 0 < r -> 0 < zlen row -> toggle_row s n (s 0) r (div_ceil n r) row ->
    exists row', @set_word_bit Error row 0 = Ok row' /\ zlen row' = zlen row /\ toggle_row s n p r (div_ceil n r) row').
  { intros r row Hr Hlen Hrow. by apply (toggle_row_entering s n p r); auto with lia. }
  destruct (Hset SAMPLES_PER_L1_BIT (l1_toggle lvl)) with (3 := Ht1) as (t1 & -> & Hz1 & Hr1); [done|by rewrite H1|].
  destruct (Hset SAMPLES_PER_L2_BIT (l2_toggle lvl)) with (3 := Ht2) as (t2 & -> & Hz2 & Hr2); [done|by rewrite H2|].
  destruct (Hset SAMPLES_PER_L3_BIT [l3_toggle lvl]) with (3 := Ht3) as (t3 & Ht3' & Hz3 & Hr3); [done..|].
  rewrite set_bit_single in Ht3'. injection Ht3' as <-.
  eexists. split; [done|]. unfold leaf_exact. rewrite (proj2 (Z.eqb_neq n 0) Hne).
  repeat (split; [done|]).
  assert (Hx : toggles s p 0 = true).
  { unfold toggles. cbn. destruct (xorb (s 0) p) eqn:Hx; [done|]. apply xorb_eq in Hx. congruence. }
  split; [|exists 0; split; [lia|]; split; [lia|done]].
  split; [|split]; (split; [first [exact (eq_trans Hz1 H1)|exact (eq_trans Hz2 H2)|done]|]); (split; [assumption|]); (split; assumption).
Qed.

(** ** The bytes of a leaf *)

Definition words_bytes (words : list Z) : list Z := concat (map (to_le_bytes 8) words).

Lemma push_u64_slice_bytes out words : push_u64_slice out words = out ++ words_bytes words.
Proof.
  unfold push_u64_slice, words_bytes. revert out. induction words as [|w words IH]; intros out; cbn [fold_left map concat].
  - by rewrite app_nil_r.
  - by rewrite IH, <- app_assoc.
Qed.

Lemma words_bytes_app w1 w2 : words_bytes (w1 ++ w2) = words_bytes w1 ++ words_bytes w2.
Proof. unfold words_bytes. by rewrite map_app, concat_app. Qed.

Lemma zlen_words_bytes words : zlen (words_bytes words) = 8 * zlen words.
Proof.
  induction words as [|w words IH]; [done|]. change (words_bytes (w :: words)) with (to_le_bytes 8 w ++ words_bytes words).
  rewrite zlen_app, zlen_cons, IH, zlen_to_le_bytes. lia.
Qed.

Lemma words_bytes_ok words : bytes_ok (words_bytes words).
Proof.
  induction words as [|w words IH]; [constructor|]. apply bytes_ok_app. split; [apply to_le_bytes_ok|done].
Qed.

Lemma le_words_bytes words : words_ok words -> le_words (length words) (words_bytes words) = words.
Proof.
  induction 1 as [|w words Hw _ IH]; [done|].
  change (words_bytes (w :: words)) with (to_le_bytes 8 w ++ words_bytes words). cbn [length le_words].
  rewrite (take_app_le _ _ 8), (drop_app_le _ _ 8) by (rewrite length_to_le_bytes; lia).
  rewrite take_ge, drop_ge by (rewrite length_to_le_bytes; lia). rewrite app_nil_l.
  by rewrite from_to_le_bytes, IH by (change (256 ^ Z.of_nat 8) with 18446744073709551616; ints).
Qed.

(** Rows of the lengths of an index, and counts that fit their fields. *)
Definition levels_fit (l : BlockLevels) : Prop :=
  zlen (l1_toggle l) = L1_WORDS /\ zlen (l1_last l) = L1_WORDS /\
  zlen (l2_toggle l) = L2_WORDS /\ zlen (l2_last l) = L2_WORDS /\
  words_ok (l1_toggle l ++ l1_last l ++ l2_toggle l ++ l2_last l ++ [l3_toggle l; l3_last l]).

Definition leaf_fits (leaf : BlockIndex) : Prop :=
  u32 (valid_samples leaf) /\ match levels leaf with Some l => levels_fit l | None => True end.

Definition levels_view (l : BlockLevels) : LevelsView :=
  mkLevelsView (l1_toggle l) (l1_last l) (l2_toggle l) (l2_last l) (l3_toggle l).

Definition view_of (leaf : BlockIndex) : LeafView :=
  mkLeafView (valid_samples leaf) (first leaf) (last leaf) (levels_view <$> levels leaf).

Definition leaf_flags (leaf : BlockIndex) : Z :=
  Z.lor (Z.lor (b2z (first leaf)) (Z.shiftl (b2z (last leaf)) 1))
    (Z.shiftl (b2z (match levels leaf with Some _ => true | None => false end)) 2).

Definition leaf_payload (leaf : BlockIndex) : list Z :=
  match levels leaf with
  | Some l => words_bytes (l1_toggle l ++ l1_last l ++ l2_toggle l ++ l2_last l ++ [l3_toggle l; l3_last l])
  | None => []
  end.

Lemma serialize_leaf_layout leaf :
  serialize_leaf leaf = (to_le_bytes 4 (valid_samples leaf) ++ [leaf_flags leaf; 0; 0; 0]) ++ leaf_payload leaf.
Proof.
  assert (Hh : forall l f, (l ++ [f]) ++ [0; 0; 0] = l ++ [f; 0; 0; 0]) by (intros; by rewrite <- app_assoc).
  unfold serialize_leaf, leaf_payload, leaf_flags. destruct (levels leaf) as [l|].
  - rewrite !push_u64_slice_bytes, !words_bytes_app, Hh.
    replace (words_bytes [l3_toggle l; l3_last l]) with (to_le_bytes 8 (l3_toggle l) ++ to_le_bytes 8 (l3_last l))
      by (unfold words_bytes; cbn [map concat]; by rewrite app_nil_r).
    by rewrite !app_assoc.
  - by rewrite Hh, app_nil_r.
Qed.

Lemma leaf_flags_bits leaf :
  negb (Z.land (leaf_flags leaf) 4 =? 0) = (match levels leaf with Some _ => true | None => false end) /\
  negb (Z.land (leaf_flags leaf) 1 =? 0) = first leaf /\
  negb (Z.land (leaf_flags leaf) 2 =? 0) = last leaf.
Proof. unfold leaf_flags. by destruct (first leaf), (last leaf), (levels leaf). Qed.

Lemma leaf_flags_u8 leaf : u8 (leaf_flags leaf).
Proof. unfold leaf_flags, u8. by destruct (first leaf), (last leaf), (levels leaf). Qed.

Lemma serialize_leaf_ok leaf : bytes_ok (serialize_leaf leaf).
Proof.
  rewrite serialize_leaf_layout. apply bytes_ok_app. split; [apply bytes_ok_app; split|].
  - apply to_le_bytes_ok.
  - repeat constructor; try (cbn; lia). all: apply leaf_flags_u8.
  - unfold leaf_payload. destruct (levels leaf); [apply words_bytes_ok|constructor].
Qed.

Lemma split_words_app n (l1 l2 : list Z) : zlen l1 = n -> split_words n (l1 ++ l2) = (l1, l2).
Proof.
  intros <-. unfold split_words, zlen. rewrite Nat2Z.id.
  f_equal; [apply take_app_length|apply drop_app_length].
Qed.

Lemma leaf_view_levels l rest :
  levels_fit l ->
  slice (words_bytes (l1_toggle l ++ l1_last l ++ l2_toggle l ++ l2_last l ++ [l3_toggle l; l3_last l]) ++ rest) 0
    (LEVEL_WORDS * 8) =
    Some (words_bytes (l1_toggle l ++ l1_last l ++ l2_toggle l ++ l2_last l ++ [l3_toggle l; l3_last l])).
Proof.
  intros (H1 & H2 & H3 & H4 & Hok).
  replace (LEVEL_WORDS * 8) with
    (zlen (words_bytes (l1_toggle l ++ l1_last l ++ l2_toggle l ++ l2_last l ++ [l3_toggle l; l3_last l]))).
  - apply slice_prefix.
  - rewrite zlen_words_bytes, !zlen_app, H1, H2, H3, H4. done.
Qed.

Lemma leaf_view_serialize leaf : leaf_fits leaf -> leaf_view (serialize_leaf leaf) = Ok (view_of leaf).
Proof.
  intros [Hv Hl]. rewrite serialize_leaf_layout. unfold leaf_view.
  destruct (leaf_flags_bits leaf) as (Hf4 & Hf1 & Hf2).
  set (header := to_le_bytes 4 (valid_samples leaf) ++ [leaf_flags leaf; 0; 0; 0]).
  assert (Hh : length header = 8%nat) by (unfold header; rewrite length_app, length_to_le_bytes; done).
  rewrite (proj2 (Z.ltb_ge _ _)) by (rewrite zlen_app; unfold zlen at 1; rewrite Hh; pose proof (zlen_nonneg (leaf_payload leaf)); lia).
  rewrite (take_app_le _ _ 8), (drop_app_le _ _ 8), take_ge, drop_ge by lia. rewrite app_nil_l.
  assert (H4 : take 4 header = to_le_bytes 4 (valid_samples leaf)).
  { unfold header. rewrite take_app_le, take_ge by (rewrite length_to_le_bytes; lia). done. }
  assert (Hflag : get_word (E := Error) header 4 = Ok (leaf_flags leaf)).
  { apply get_word_ok; [lia|]. unfold header. change (Z.to_nat 4) with (length (to_le_bytes 4 (valid_samples leaf)) + 0)%nat at 1.
    by rewrite lookup_app_r, Nat.add_sub' by lia. }
  cbv zeta. rewrite H4, Hflag, Hf4, Hf1, Hf2, from_to_le_bytes by (change (256 ^ Z.of_nat 4) with 4294967296; ints).
  unfold view_of, leaf_payload. destruct (levels leaf) as [l|]; [|done].
  pose proof (leaf_view_levels l [] Hl) as Hslice. rewrite app_nil_r in Hslice. rewrite Hslice.
  destruct Hl as (H1 & H2 & H3 & H5 & Hok).
  rewrite zlen_words_bytes, Z.mul_comm, Z.div_mul by done. unfold zlen at 1. rewrite Nat2Z.id, le_words_bytes by done.
  rewrite (split_words_app _ _ _ H1), (split_words_app _ _ _ H2), (split_words_app _ _ _ H3), (split_words_app _ _ _ H5).
  done.
Qed.

Lemma leaf_exact_fits s n e leaf : 0 <= n <= MAX_LEAF_SAMPLES -> leaf_exact s n e leaf -> leaf_fits leaf.
Proof.
  intros Hn (Hv & _ & _ & Hs). split; [rewrite Hv; unfold MAX_LEAF_SAMPLES in Hn; ints|].
  destruct (levels leaf) as [l|]; [|done].
  destruct Hs as [((H1 & H2 & [Ho1 _] & [Ho2 _]) & (H3 & H4 & [Ho3 _] & [Ho4 _]) & (_ & _ & [Ho5 _] & [Ho6 _])) _].
  do 4 (split; [done|]). unfold words_ok in *. rewrite !Forall_app. do 4 (split; [done|]).
  rewrite Forall_singleton in Ho5, Ho6. apply Forall_cons. split; [done|]. by apply Forall_singleton.
Qed.
