(* ===== verification/CaptureCache.v ===== *)
(** The bounded caches of the waveform index, in [crates/signal_capture/src/waveform_index]: entries
    by key and the keys in the order of their last use, the oldest first.  The caches of leaves, of
    segments and of raw blocks differ in capacity and in how they move a key to the back. *)

From stdpp Require Import gmap.
From S2P Require Import Prelude.

#[local] Open Scope Z_scope.

Section Cache.
Context {K V : Type} `{Countable K}.

(** [crates/signal_capture/src/waveform_index/storage.rs:237-240] LeafCache *)
Record RecencyCache := mkCache { entries : gmap K V; recency : list K }.

Definition empty_cache : RecencyCache := mkCache ∅ [].

(** [recency.remove(index)] at the first position of the key. *)
Fixpoint remove_first (key : K) (l : list K) : list K :=
  match l with
  | [] => []
  | k :: l => if decide (k = key) then l else k :: remove_first key l
  end.

(** [crates/signal_capture/src/waveform_index/storage.rs:294-299] LeafCache::touch *)
Definition touch (key : K) (c : RecencyCache) : RecencyCache :=
  mkCache (entries c) (remove_first key (recency c) ++ [key]).

(** [crates/signal_capture/src/waveform_index/reader.rs:51-61] RawBlockCache::touch *)
Definition touch_raw (key : K) (c : RecencyCache) : RecencyCache :=
  if match list.last (recency c) with Some candidate => bool_decide (candidate = key) | None => false end then c
  else mkCache (entries c) (List.filter (fun candidate => negb (bool_decide (candidate = key))) (recency c) ++ [key]).

(** The loop ends without a result when more entries remain than keys can name.
    [crates/signal_capture/src/waveform_index/storage.rs:287-291] LeafCache::insert *)
Fixpoint evict (capacity : nat) (entries : gmap K V) (recency : list K) : option RecencyCache :=
  if (size entries <=? capacity)%nat then Some (mkCache entries recency)
  else
    match recency with
    | [] => None
    | oldest :: recency => evict capacity (delete oldest entries) recency
    end.

(** [crates/signal_capture/src/waveform_index/storage.rs:278-282] LeafCache::get *)
Definition get (touch : K -> RecencyCache -> RecencyCache) (key : K) (c : RecencyCache) : option V * RecencyCache :=
  match entries c !! key with
  | None => (None, c)
  | Some value => (Some value, touch key c)
  end.

(** [crates/signal_capture/src/waveform_index/storage.rs:284-292] LeafCache::insert *)
Definition insert (touch : K -> RecencyCache -> RecencyCache) (capacity : nat) (key : K) (value : V)
  (c : RecencyCache) : option RecencyCache :=
  let c := touch key (mkCache (<[key := value]> (entries c)) (recency c)) in
  evict capacity (entries c) (recency c).

(** ** The invariant *)

(** The keys in order of use are those of the entries, and every entry has the property [P]. *)
Definition cache_ok (P : K -> V -> Prop) (c : RecencyCache) : Prop :=
  NoDup (recency c) /\ (forall key, key ∈ recency c <-> is_Some (entries c !! key)) /\
  map_Forall P (entries c).

(** What both ways to touch a key do to the order. *)
Definition moves_to_back (touch : K -> RecencyCache -> RecencyCache) : Prop :=
  forall key c, entries (touch key c) = entries c /\
    (NoDup (recency c) -> NoDup (recency (touch key c))) /\
    (forall k, k ∈ recency (touch key c) <-> k ∈ recency c \/ k = key).

Lemma elem_of_remove_first key k l : NoDup l -> k ∈ remove_first key l <-> k ∈ l /\ k <> key.
Proof.
  induction 1 as [|x l Hx Hl IH]; cbn [remove_first]; [set_solver|].
  destruct (decide (x = key)) as [->|]; [|set_solver]. rewrite elem_of_cons.
  split; [intros Hk; split; [by right|intros ->; done]|]. intros [[->|?] ?]; done.
Qed.

Lemma NoDup_remove_first key l : NoDup l -> NoDup (remove_first key l).
Proof.
  induction 1 as [|x l Hx Hl IH]; cbn [remove_first]; [constructor|].
  destruct (decide (x = key)) as [->|]; [done|]. constructor; [|done].
  rewrite elem_of_remove_first by done. tauto.
Qed.

Lemma remove_first_elem key k l : k ∈ remove_first key l -> k ∈ l.
Proof.
  induction l as [|x l IH]; cbn [remove_first]; [done|]. destruct (decide (x = key)); set_solver.
Qed.

Lemma remove_first_keeps key k l : k ∈ l -> k <> key -> k ∈ remove_first key l.
Proof.
  induction l as [|x l IH]; cbn [remove_first]; [done|]. destruct (decide (x = key)); set_solver.
Qed.

Lemma touch_moves : moves_to_back touch.
Proof.
  intros key c. split; [done|]. cbn. split.
  - intros Hd. apply NoDup_app. split; [by apply NoDup_remove_first|]. split; [|apply NoDup_singleton].
    intros k Hk%elem_of_remove_first; [|done]. rewrite list_elem_of_singleton. tauto.
  - intros k. rewrite elem_of_app, list_elem_of_singleton. destruct (decide (k = key)) as [->|]; [tauto|].
    split; [intros [?%remove_first_elem|]; tauto|]. intros [?|?]; [|tauto]. left. by apply remove_first_keeps.
Qed.

Lemma elem_of_other key k (l : list K) :
  k ∈ List.filter (fun candidate => negb (bool_decide (candidate = key))) l <-> k ∈ l /\ k <> key.
Proof.
  rewrite !list_elem_of_In, List.filter_In, negb_true_iff, bool_decide_eq_false. done.
Qed.

Lemma touch_raw_moves : moves_to_back touch_raw.
Proof.
  intros key c. unfold touch_raw.
  destruct (match list.last (recency c) with Some candidate => bool_decide (candidate = key) | None => false end) eqn:Hl.
  - split; [done|]. split; [done|]. intros k. split; [tauto|]. intros [?| ->]; [done|].
    destruct (list.last (recency c)) as [x|] eqn:Hx; [|done]. apply bool_decide_eq_true in Hl as ->.
    apply last_Some in Hx as [l' ->]. set_solver.
  - cbn. split; [done|]. split.
    + intros Hd. apply NoDup_app. split; [|split; [|apply NoDup_singleton]].
      * apply NoDup_ListNoDup. apply List.NoDup_filter. by apply NoDup_ListNoDup.
      * intros k [_ Hk]%elem_of_other. by rewrite list_elem_of_singleton.
    + intros k. rewrite elem_of_app, list_elem_of_singleton, elem_of_other.
      destruct (decide (k = key)); tauto.
Qed.

Lemma empty_cache_ok P : cache_ok P empty_cache.
Proof.
  split; [constructor|]. split; [|apply map_Forall_empty]. intros key. cbn. rewrite lookup_empty.
  split; [set_solver|]. intros []; done.
Qed.

Lemma get_ok touch P key c :
  moves_to_back touch -> cache_ok P c ->
  cache_ok P (snd (get touch key c)) /\
  match fst (get touch key c) with Some v => P key v | None => True end.
Proof.
  intros Ht (Hd & Hk & HP). unfold get. destruct (entries c !! key) as [v|] eqn:Hv; cbn [fst snd]; [|done].
  destruct (Ht key c) as (He & Hnd & Hel). split; [|by apply (HP key)].
  split; [by apply Hnd|]. rewrite He. split; [|done]. intros k. rewrite Hel, Hk.
  split; [intros [?| ->]; [done|by exists v]|by left].
Qed.

Lemma size_le_recency (P : K -> V -> Prop) c : cache_ok P c -> (size (entries c) <= length (recency c))%nat.
Proof.
  intros (Hd & Hk & _). rewrite <- size_dom.
  rewrite <- (size_list_to_set (C := gset K) (recency c)) by done.
  apply subseteq_size. intros k. rewrite elem_of_dom, elem_of_list_to_set. by rewrite Hk.
Qed.

Lemma evict_ok P capacity entries recency :
  cache_ok P (mkCache entries recency) ->
  exists c, evict capacity entries recency = Some c /\ cache_ok P c.
Proof.
  revert entries. induction recency as [|oldest recency IH]; intros entries Hc; cbn [evict];
    destruct (Nat.leb_spec (size entries) capacity) as [|Hsize]; try by eexists.
  - apply size_le_recency in Hc. cbn in Hc. lia.
  - apply IH. destruct Hc as (Hd & Hk & HP). cbn in *. apply NoDup_cons in Hd as [Hno Hd].
    split; [done|]. cbn. split; [|by apply map_Forall_delete]. intros k. specialize (Hk k).
    rewrite elem_of_cons in Hk. destruct (decide (k = oldest)) as [->|Hne].
    + rewrite lookup_delete_eq. split; [done|]. intros []; done.
    + rewrite lookup_delete_ne by done. rewrite <- Hk. tauto.
Qed.

Lemma insert_ok touch P capacity key value c :
  moves_to_back touch -> cache_ok P c -> P key value ->
  exists c', insert touch capacity key value c = Some c' /\ cache_ok P c'.
Proof.
  intros Ht (Hd & Hk & HP) Hv. unfold insert.
  destruct (Ht key (mkCache (<[key := value]> (entries c)) (recency c))) as (He & Hnd & Hel).
  apply evict_ok. split; [by apply Hnd|]. cbn. rewrite He. cbn. split.
  - intros k. rewrite Hel. cbn. rewrite Hk. destruct (decide (k = key)) as [->|].
    + rewrite lookup_insert_eq. split; [by eexists|by right].
    + rewrite lookup_insert_ne by done. tauto.
  - by apply map_Forall_insert_2.
Qed.
End Cache.

Arguments RecencyCache K V {_ _}.
