(* ===== verification/CaptureStorage.v ===== *)
(** [crates/signal_capture/src/waveform_index/storage.rs]: the artifacts of a waveform index.

    The writer puts the leaves of a capture, channel by channel, into segments of sixty-four and
    publishes the root with the directory last.  The reader opens a root, checks that it belongs to
    the capture, and decodes leaves from their segments through two caches.

    The repository of artifacts is another component and a parameter; so is the hash of the keys. *)

From stdpp Require Import gmap.
From S2P Require Import Prelude CaptureBits CaptureKernel CaptureLeaf CaptureCache.

#[local] Open Scope Z_scope.

(** ** The repository *)

(** A namespace and the identity of the artifact in it. *)
Definition ArtifactKey : Type := string * list Z.

(** An open artifact: its length, a region of all its bytes where the repository has one, and reads
    of some of the bytes wanted at an offset. *)
Record ArtifactReader := mkArtifactReader {
  reader_len : result unit Z;
  reader_region : Z -> result unit (option (list Z));
  reader_read_at : Z -> Z -> result unit (list Z)
}.

(** Publication stands for the private write, its truncation and flush, and its publication. *)
Class ArtifactRepository (R : Type) := {
  open_artifact : R -> ArtifactKey -> result unit (option ArtifactReader);
  publish_artifact : R -> ArtifactKey -> list Z -> result unit unit * R
}.

(** The reader delivers the bytes [c], in portions of its choice. *)
Definition reader_serves (reader : ArtifactReader) (c : list Z) : Prop :=
  reader_len reader = Ok (zlen c) /\
  (reader_region reader (zlen c) = Ok None \/ reader_region reader (zlen c) = Ok (Some c)) /\
  forall offset wanted, 0 <= offset < zlen c -> 0 < wanted -> offset + wanted <= zlen c ->
    exists count, (0 < count)%nat /\ Z.of_nat count <= wanted /\
      reader_read_at reader offset wanted = Ok (take count (drop (Z.to_nat offset) c)).

(** A repository that keeps what is published: every operation succeeds. *)
Class RepositoryLaws (R : Type) `{ArtifactRepository R} := {
  contents : R -> ArtifactKey -> option (list Z);
  open_contents : forall r key,
    match contents r key with
    | None => open_artifact r key = Ok None
    | Some c => exists reader, open_artifact r key = Ok (Some reader) /\ reader_serves reader c
    end;
  publish_contents : forall r key c, exists r',
    publish_artifact r key c = (Ok tt, r') /\
    forall key', contents r' key' = if decide (key' = key) then Some c else contents r key'
}.

Definition repository_error {A} : result (failure Error) A := Err (Returned (ParseError RepositoryError)).

(** ** Data *)

(** What the index uses of the capture's metadata; the rate is given by its bits.
    [crates/signal_capture/src/capture/contracts.rs:15-37] CaptureMetadata *)
Record CaptureMetadata := mkMetadata {
  total_probes : Z;
  samplerate_bits : Z;
  total_samples : Z;
  total_blocks : Z;
  samples_per_block : Z;
  probe_names : list string
}.

(** [crates/signal_capture/src/waveform_index/types.rs:2-12] IndexHeader *)
Record IndexHeader := mkIndexHeader {
  h_source_revision : Z;
  h_total_samples : Z;
  h_total_blocks : Z;
  h_samples_per_block : Z;
  h_samplerate_bits : Z;
  h_total_channels : Z;
  h_blocks_per_channel : Z;
  h_dir_offset : Z;
  h_payload_offset : Z
}.

(** [crates/signal_capture/src/waveform_index/types.rs:15-23] RootDirEntry *)
Record RootDirEntry := mkEntry {
  entry_offset : Z;
  entry_len : Z;
  entry_toggle : bool;
  entry_first : bool;
  entry_last : bool;
  entry_l3_toggle : Z;
  entry_l3_last : Z
}.

Definition entry_default : RootDirEntry := mkEntry 0 0 false false false 0 0.

(** [crates/signal_capture/src/waveform_index/types.rs:78-78] MAGIC *)
Definition MAGIC : list Z := [67; 65; 80; 73; 68; 88; 48; 55].
(** [crates/signal_capture/src/waveform_index/types.rs:79-79] HEADER_SIZE *)
Definition HEADER_SIZE : Z := 96.
(** [crates/signal_capture/src/waveform_index/types.rs:80-80] DIR_ENTRY_SIZE *)
Definition DIR_ENTRY_SIZE : Z := 40.
(** [crates/signal_capture/src/waveform_index/storage.rs:26-26] ROOT_FORMAT_VERSION *)
Definition ROOT_FORMAT_VERSION : Z := 8.
(** [crates/signal_capture/src/waveform_index/storage.rs:27-27] LEAVES_PER_SEGMENT *)
Definition LEAVES_PER_SEGMENT : Z := 64.
(** [crates/signal_capture/src/waveform_index/storage.rs:28-28] SEGMENT_CACHE_CAPACITY *)
Definition SEGMENT_CACHE_CAPACITY : nat := 4.
(** [crates/signal_capture/src/waveform_index/storage.rs:207-207] LEAF_CACHE_CAPACITY *)
Definition LEAF_CACHE_CAPACITY : nat := 128.
(** [crates/signal_capture/src/waveform_index/storage.rs:29-29] ROOT_NAMESPACE *)
Definition ROOT_NAMESPACE : string := "waveform-index-root-v1".
(** [crates/signal_capture/src/waveform_index/storage.rs:30-30] SEGMENT_NAMESPACE *)
Definition SEGMENT_NAMESPACE : string := "waveform-index-segment-v1".

Definition string_bytes (s : string) : list Z :=
  map (fun c => Z.of_nat (nat_of_ascii c)) (list_ascii_of_string s).

(** [None] is a position outside the directory. *)
Definition dir_get (directory : list (list RootDirEntry)) (channel block : Z) : option RootDirEntry :=
  match byte_at directory channel with
  | Some blocks => byte_at blocks block
  | None => None
  end.

Definition dir_set (directory : list (list RootDirEntry)) (channel block : Z) (entry : RootDirEntry)
  : option (list (list RootDirEntry)) :=
  match byte_at directory channel with
  | Some blocks =>
      match byte_at blocks block with
      | Some _ => Some (<[Z.to_nat channel := <[Z.to_nat block := entry]> blocks]> directory)
      | None => None
      end
  | None => None
  end.

(** ** Bytes of the root *)

(** [crates/signal_capture/src/waveform_index/storage.rs:173-189] IndexWriter::write_header *)
Definition write_header (h : IndexHeader) : list Z :=
  let written := 8 + 4 + 4 + 8 * 9 in
  MAGIC ++ to_le_bytes 4 ROOT_FORMAT_VERSION ++ to_le_bytes 4 HEADER_SIZE ++
  to_le_bytes 8 (h_source_revision h) ++ to_le_bytes 8 (h_total_samples h) ++
  to_le_bytes 8 (h_total_blocks h) ++ to_le_bytes 8 (h_samples_per_block h) ++
  to_le_bytes 8 (h_samplerate_bits h) ++ to_le_bytes 8 (h_total_channels h) ++
  to_le_bytes 8 (h_blocks_per_channel h) ++ to_le_bytes 8 (h_dir_offset h) ++
  to_le_bytes 8 (h_payload_offset h) ++ replicate (Z.to_nat (HEADER_SIZE - written)) 0.

(** [crates/signal_capture/src/waveform_index/storage.rs:191-200] IndexWriter::write_dir_entry *)
Definition write_dir_entry (e : RootDirEntry) : list Z :=
  let flags := Z.lor (Z.lor (b2z (entry_toggle e)) (Z.shiftl (b2z (entry_first e)) 1))
                 (Z.shiftl (b2z (entry_last e)) 2) in
  to_le_bytes 8 (entry_offset e) ++ to_le_bytes 8 (entry_len e) ++ [flags; 0; 0; 0; 0; 0; 0; 0] ++
  to_le_bytes 8 (entry_l3_toggle e) ++ to_le_bytes 8 (entry_l3_last e).

(** [file.read_exact] of [n] bytes: the bytes and what follows them. *)
Definition read_exact (n : nat) (file : list Z) : result (failure Error) (list Z * list Z) :=
  if (length file <? n)%nat then Err (Returned Io) else Ok (take n file, drop n file).

(** [crates/signal_capture/src/waveform_index/storage.rs:640-644] read_u32 *)
Definition read_u32 (file : list Z) : result (failure Error) (Z * list Z) :=
  let? (buf, file) := read_exact 4 file in Ok (from_le_bytes buf, file).

(** [crates/signal_capture/src/waveform_index/storage.rs:646-650] read_u64 *)
Definition read_u64 (file : list Z) : result (failure Error) (Z * list Z) :=
  let? (buf, file) := read_exact 8 file in Ok (from_le_bytes buf, file).

(** [crates/signal_capture/src/waveform_index/storage.rs:488-520] IndexReader::read_header *)
Definition read_header (file : list Z) : result (failure Error) IndexHeader :=
  let? (magic, file) := read_exact 8 file in
  if negb (bool_decide (magic = MAGIC)) then parse_error "invalid waveform-index root magic"
  else
    let? (version, file) := read_u32 file in
    if negb (version =? ROOT_FORMAT_VERSION) then parse_error "unsupported waveform-index root version"
    else
      let? (header_size, file) := read_u32 file in
      if negb (header_size =? HEADER_SIZE) then parse_error "unsupported waveform-index root header size"
      else
        let? (source_revision, file) := read_u64 file in
        let? (total_samples, file) := read_u64 file in
        let? (total_blocks, file) := read_u64 file in
        let? (samples_per_block, file) := read_u64 file in
        let? (samplerate_bits, file) := read_u64 file in
        let? (total_channels, file) := read_u64 file in
        let? (blocks_per_channel, file) := read_u64 file in
        let? (dir_offset, file) := read_u64 file in
        let? (payload_offset, _) := read_u64 file in
        Ok (mkIndexHeader source_revision total_samples total_blocks samples_per_block samplerate_bits
              total_channels blocks_per_channel dir_offset payload_offset).

(** [crates/signal_capture/src/waveform_index/storage.rs:538-555] IndexReader::read_dir_entry *)
Definition read_dir_entry (file : list Z) : result (failure Error) (RootDirEntry * list Z) :=
  let? (offset, file) := read_u64 file in
  let? (len, file) := read_u64 file in
  let? (flags_buf, file) := read_exact 8 file in
  let? flags := get_word flags_buf 0 in
  let? (l3_toggle, file) := read_u64 file in
  let? (l3_last, file) := read_u64 file in
  Ok (mkEntry offset len (negb (Z.land flags 1 =? 0)) (negb (Z.land flags 2 =? 0)) (negb (Z.land flags 4 =? 0))
        l3_toggle l3_last, file).

(** [count] items, one after the other. *)
Fixpoint read_many {A} (read : list Z -> result (failure Error) (A * list Z)) (count : nat) (file : list Z)
  : result (failure Error) (list A * list Z) :=
  match count with
  | O => Ok ([], file)
  | S count =>
      let? (item, file) := read file in
      let? (items, file) := read_many read count file in
      Ok (item :: items, file)
  end.

(** [crates/signal_capture/src/waveform_index/storage.rs:522-536] IndexReader::read_directory *)
Definition read_directory (file : list Z) (header : IndexHeader) (channels blocks_per_channel : Z)
  : result (failure Error) (list (list RootDirEntry)) :=
  let file := drop (Z.to_nat (h_dir_offset header)) file in
  let? (directory, _) :=
    read_many (read_many read_dir_entry (Z.to_nat blocks_per_channel)) (Z.to_nat channels) file in
  Ok directory.

(** [crates/signal_capture/src/waveform_index/storage.rs:468-486] IndexReader::validate_header *)
Definition validate_header (index_header : IndexHeader) (header : CaptureMetadata) (source_revision : Z)
  : result (failure Error) unit :=
  if negb (h_source_revision index_header =? source_revision)
     || negb (h_total_samples index_header =? total_samples header)
     || negb (h_total_blocks index_header =? total_blocks header)
     || negb (h_samples_per_block index_header =? samples_per_block header)
     || negb (h_samplerate_bits index_header =? samplerate_bits header)
     || negb (h_total_channels index_header =? total_probes header)
     || negb (h_blocks_per_channel index_header =? total_blocks header)
  then parse_error "waveform index is stale" else Ok tt.

(** ** The writer and the reader *)

(** The hash of keys and the repository. *)
Section Storage.
Context (hash : list Z -> list Z) {R : Type} `{ArtifactRepository R}.

Definition optional_bytes (value : option Z) : list Z :=
  match value with Some v => to_le_bytes 8 v | None => [] end.

(** The namespaces are valid, so making one succeeds.
    [crates/signal_capture/src/waveform_index/storage.rs:670-690] artifact_key *)
Definition artifact_key (namespace : string) (identity : list Z) (channel block : option Z) : ArtifactKey :=
  (namespace, hash (string_bytes namespace ++ identity ++ optional_bytes channel ++ optional_bytes block)).

(** [crates/signal_capture/src/waveform_index/storage.rs:662-664] root_key *)
Definition root_key (identity : list Z) : ArtifactKey := artifact_key ROOT_NAMESPACE identity None None.

(** [crates/signal_capture/src/waveform_index/storage.rs:666-668] segment_key *)
Definition segment_key (identity : list Z) (segment : Z) : ArtifactKey :=
  artifact_key SEGMENT_NAMESPACE identity (Some segment) None.

(** A repository's error is an error of the index. *)
Definition repository_result {A} (r : result unit A) : result (failure Error) A :=
  match r with Ok a => Ok a | Err _ => repository_error end.

(** [crates/signal_capture/src/waveform_index/storage.rs:692-700] publish *)
Definition publish (r : R) (key : ArtifactKey) (bytes : list Z) : result (failure Error) unit * R :=
  let '(out, r) := publish_artifact r key bytes in
  (repository_result out, r).

(** The loop that fills a buffer of [length] bytes; [truncated] is its error when a read delivers
    nothing.  Every turn copies a byte, so that the fuel [length] is enough.
    [crates/signal_capture/src/waveform_index/storage.rs:711-721] read *)
Fixpoint copy_loop (fuel : nat) (truncated : ParseCause) (reader : ArtifactReader) (length : Z) (bytes : list Z)
  : result (failure Error) (list Z) :=
  if zlen bytes <? length then
    match fuel with
    | O => Err Diverges
    | S fuel =>
        let? chunk := repository_result (reader_read_at reader (zlen bytes) (length - zlen bytes)) in
        if zlen chunk =? 0 then Err (Returned (ParseError truncated))
        else copy_loop fuel truncated reader length (bytes ++ chunk)
    end
  else Ok bytes.

(** [crates/signal_capture/src/waveform_index/storage.rs:702-723] read *)
Definition read (r : R) (key : ArtifactKey) : result (failure Error) (option (list Z)) :=
  let? reader := repository_result (open_artifact r key) in
  match reader with
  | None => Ok None
  | Some reader =>
      let? length := repository_result (reader_len reader) in
      let? bytes := copy_loop (Z.to_nat length) (Text "waveform index artifact is truncated") reader length [] in
      Ok (Some bytes)
  end.

(** [crates/signal_capture/src/waveform_index/storage.rs:41-49] IndexWriter *)
Record IndexWriter := mkWriter {
  w_identity : list Z;
  w_directory : list (list RootDirEntry);
  w_index_header : IndexHeader;
  blocks_per_channel : Z;
  next_ordinal : Z;
  segment_bytes : list Z
}.

(** [crates/signal_capture/src/waveform_index/storage.rs:53-96] IndexWriter::create *)
Definition create (identity : list Z) (capture_header : CaptureMetadata) (source_revision : Z)
  : result (failure Error) IndexWriter :=
  let channels := total_probes capture_header in
  let blocks := total_blocks capture_header in
  match checked_mul64 channels blocks with
  | None => parse_error "waveform-index directory entry count overflows usize"
  | Some directory_entries =>
      let dir_offset := HEADER_SIZE in
      match (match checked_mul64 directory_entries DIR_ENTRY_SIZE with
             | Some directory_bytes => checked_add64 dir_offset directory_bytes
             | None => None
             end) with
      | None => parse_error "waveform-index directory size overflow"
      | Some payload_offset =>
          let index_header :=
            mkIndexHeader source_revision (total_samples capture_header) blocks
              (samples_per_block capture_header) (samplerate_bits capture_header) channels blocks
              dir_offset payload_offset in
          Ok (mkWriter identity (replicate (Z.to_nat channels) (replicate (Z.to_nat blocks) entry_default))
                index_header blocks 0 [])
      end
  end.

(** [crates/signal_capture/src/waveform_index/storage.rs:160-171] IndexWriter::publish_segment *)
Definition publish_segment (w : IndexWriter) (r : R) : result (failure Error) unit * (IndexWriter * R) :=
  if (length (segment_bytes w) =? 0)%nat then (Ok tt, (w, r))
  else
    let segment := sub64 (next_ordinal w) 1 / LEAVES_PER_SEGMENT in
    let w' := mkWriter (w_identity w) (w_directory w) (w_index_header w) (blocks_per_channel w) (next_ordinal w) [] in
    let '(out, r) := publish r (segment_key (w_identity w) segment) (segment_bytes w) in
    (out, (w', r)).

(** The entry of a leaf whose bytes start at [offset].
    [crates/signal_capture/src/waveform_index/storage.rs:122-130] IndexWriter::write_block *)
Definition leaf_entry (offset : Z) (leaf : BlockIndex) : RootDirEntry :=
  mkEntry offset (zlen (serialize_leaf leaf))
    (match levels leaf with Some _ => true | None => false end) (first leaf) (last leaf)
    (match levels leaf with Some l => l3_toggle l | None => 0 end)
    (match levels leaf with Some l => l3_last l | None => 0 end).

(** [crates/signal_capture/src/waveform_index/storage.rs:99-133] IndexWriter::write_block *)
Definition write_block (channel block : Z) (leaf : BlockIndex) (s : IndexWriter * R)
  : result (failure Error) unit * (IndexWriter * R) :=
  let '(w, r) := s in
  let payload := serialize_leaf leaf in
  match (match checked_mul64 channel (blocks_per_channel w) with
         | Some base => checked_add64 base block
         | None => None
         end) with
  | None => (parse_error "waveform-index leaf ordinal overflow", s)
  | Some ordinal =>
      if negb (ordinal =? next_ordinal w)
      then (parse_error "waveform-index leaves must be written in channel-major order", s)
      else
        let '(out, (w, r)) :=
          if (0 <? ordinal) && (ordinal mod LEAVES_PER_SEGMENT =? 0) then publish_segment w r
          else (Ok tt, (w, r)) in
        match out with
        | Err e => (Err e, (w, r))
        | Ok _ =>
            let offset := zlen (segment_bytes w) in
            let bytes := segment_bytes w ++ payload in
            match dir_set (w_directory w) channel block (leaf_entry offset leaf) with
            | None =>
                (Err Panic, (mkWriter (w_identity w) (w_directory w) (w_index_header w) (blocks_per_channel w)
                               (next_ordinal w) bytes, r))
            | Some directory =>
                (Ok tt, (mkWriter (w_identity w) directory (w_index_header w) (blocks_per_channel w)
                           (saturating_add64 (next_ordinal w) 1) bytes, r))
            end
        end
  end.

(** [crates/signal_capture/src/waveform_index/storage.rs:136-158] IndexWriter::finish *)
Definition finish (s : IndexWriter * R) : result (failure Error) unit * R :=
  let '(w, r) := s in
  match checked_mul64 (zlen (w_directory w)) (blocks_per_channel w) with
  | None => (parse_error "waveform-index leaf count overflow", r)
  | Some expected_leaves =>
      if negb (next_ordinal w =? expected_leaves) then (parse_error "waveform index is incomplete", r)
      else
        let '(out, (w, r)) := publish_segment w r in
        match out with
        | Err e => (Err e, r)
        | Ok _ =>
            let bytes := write_header (w_index_header w) ++
                         concat (map (fun channel_dir => concat (map write_dir_entry channel_dir)) (w_directory w)) in
            publish r (root_key (w_identity w)) bytes
        end
  end.

(** The repository is shared with the rest of the sampler and given to the operations.
    [crates/signal_capture/src/waveform_index/storage.rs:227-234] IndexReader *)
Record IndexReader := mkIndexReader {
  identity : list Z;
  header : CaptureMetadata;
  directory : list (list RootDirEntry);
  leaf_cache : RecencyCache (Z * Z) LeafView;
  segment_cache : RecencyCache Z (list Z)
}.

(** [crates/signal_capture/src/waveform_index/storage.rs:303-317] IndexReader::is_valid *)
Definition is_valid (r : R) (identity : list Z) (header : CaptureMetadata) (source_revision : Z) : bool :=
  match read r (root_key identity) with
  | Ok (Some bytes) =>
      match read_header bytes with
      | Ok index_header => is_ok (validate_header index_header header source_revision)
      | Err _ => false
      end
  | _ => false
  end.

(** [crates/signal_capture/src/waveform_index/storage.rs:319-348] IndexReader::open *)
Definition open_index (r : R) (identity : list Z) (header : CaptureMetadata) (source_revision : Z)
  : result (failure Error) IndexReader :=
  let? found := read r (root_key identity) in
  match found with
  | None => parse_error "waveform index is missing"
  | Some bytes =>
      let? index_header := read_header bytes in
      let? _ := validate_header index_header header source_revision in
      let? directory := read_directory bytes index_header (total_probes header) (h_blocks_per_channel index_header) in
      Ok (mkIndexReader identity header directory empty_cache empty_cache)
  end.

(** [crates/signal_capture/src/waveform_index/storage.rs:460-466] IndexReader::load_root_summary *)
Definition load_root_summary (ir : IndexReader) (channel block : Z) : result (failure Error) RootDirEntry :=
  match dir_get (directory ir) channel block with
  | Some entry => Ok entry
  | None => parse_error "block index out of bounds"
  end.

Definition with_leaf_cache (ir : IndexReader) (c : RecencyCache (Z * Z) LeafView) : IndexReader :=
  mkIndexReader (identity ir) (header ir) (directory ir) c (segment_cache ir).
Definition with_segment_cache (ir : IndexReader) (c : RecencyCache Z (list Z)) : IndexReader :=
  mkIndexReader (identity ir) (header ir) (directory ir) (leaf_cache ir) c.

(** The bytes of a segment that is not in the cache.
    [crates/signal_capture/src/waveform_index/storage.rs:422-452] IndexReader::load_segment *)
Definition fetch_segment (r : R) (identity : list Z) (segment : Z) : result (failure Error) (list Z) :=
  let? reader := repository_result (open_artifact r (segment_key identity segment)) in
  match reader with
  | None => parse_error "waveform index segment is missing"
  | Some reader =>
      let? length := repository_result (reader_len reader) in
      let? region := repository_result (reader_region reader length) in
      match region with
      | Some bytes => Ok bytes
      | None => copy_loop (Z.to_nat length) (Text "waveform index segment is truncated") reader length []
      end
  end.

(** [crates/signal_capture/src/waveform_index/storage.rs:413-458] IndexReader::load_segment *)
Definition load_segment (r : R) (segment : Z) (ir : IndexReader) : result (failure Error) (list Z) * IndexReader :=
  let '(found, cache) := get touch segment (segment_cache ir) in
  let ir := with_segment_cache ir cache in
  match found with
  | Some region => (Ok region, ir)
  | None =>
      match fetch_segment r (identity ir) segment with
      | Err e => (Err e, ir)
      | Ok region =>
          match insert touch SEGMENT_CACHE_CAPACITY segment region (segment_cache ir) with
          | None => (Err Diverges, ir)
          | Some cache => (Ok region, with_segment_cache ir cache)
          end
      end
  end.

(** The number of samples of a block.
    [crates/signal_capture/src/waveform_index/storage.rs:394-400] IndexReader::load_leaf *)
Definition expected_samples (h : CaptureMetadata) (block : Z) : Z :=
  let block_start := mul64 block (samples_per_block h) in
  Z.min (Z.min (saturating_sub64 (total_samples h) block_start) (samples_per_block h)) u32_max.

(** The leaf of an entry in the bytes of its segment.
    [crates/signal_capture/src/waveform_index/storage.rs:382-405] IndexReader::load_leaf *)
Definition decode_leaf (h : CaptureMetadata) (entry : RootDirEntry) (block : Z) (region : list Z)
  : result (failure Error) LeafView :=
  match checked_add64 (entry_offset entry) (entry_len entry) with
  | None => parse_error "waveform-index leaf range overflow"
  | Some e =>
      match slice region (entry_offset entry) e with
      | None => parse_error "waveform index leaf is truncated"
      | Some data =>
          let? leaf := leaf_view data in
          if negb (view_valid_samples leaf =? expected_samples h block)
          then parse_error "invalid waveform-index leaf length" else Ok leaf
      end
  end.

(** [crates/signal_capture/src/waveform_index/storage.rs:358-411] IndexReader::load_leaf *)
Definition load_leaf (r : R) (channel block : Z) (ir : IndexReader) : result (failure Error) LeafView * IndexReader :=
  let key := (channel, block) in
  let '(found, cache) := get touch key (leaf_cache ir) in
  let ir := with_leaf_cache ir cache in
  match found with
  | Some leaf => (Ok leaf, ir)
  | None =>
      match dir_get (directory ir) channel block with
      | None => (parse_error "block index out of bounds", ir)
      | Some entry =>
          let blocks := match directory ir with [] => 0 | row :: _ => zlen row end in
          match (match checked_mul64 channel blocks with
                 | Some base => checked_add64 base block
                 | None => None
                 end) with
          | None => (parse_error "waveform-index leaf ordinal overflow", ir)
          | Some ordinal =>
              let! region, ir := load_segment r (ordinal / LEAVES_PER_SEGMENT) ir in
              match decode_leaf (header ir) entry block region with
              | Err e => (Err e, ir)
              | Ok leaf =>
                  match insert touch LEAF_CACHE_CAPACITY key leaf (leaf_cache ir) with
                  | None => (Err Diverges, ir)
                  | Some cache => (Ok leaf, with_leaf_cache ir cache)
                  end
              end
          end
      end
  end.
End Storage.
