(* ===== verification/CaptureStorageProofs.v ===== *)
(** The artifacts of a waveform index hold its leaves: the root's bytes read back, the writer puts
    every leaf where its directory entry says, and the reader finds it there. *)

From stdpp Require Import gmap.
From S2P Require Import Prelude CaptureBits CaptureKernel CaptureLeaf CaptureCache CaptureStorage.

#[local] Open Scope Z_scope.

(** ** Bytes of the root *)

Lemma read_exact_app n l rest : length l = n -> read_exact n (l ++ rest) = Ok (l, rest).
Proof.
  intros <-. unfold read_exact. rewrite (proj2 (Nat.ltb_ge _ _)) by (rewrite length_app; lia).
  by rewrite take_app_length, drop_app_length.
Qed.

Lemma read_u64_app v rest : u64 v -> read_u64 (to_le_bytes 8 v ++ rest) = Ok (v, rest).
Proof.
  intros Hv. unfold read_u64. rewrite read_exact_app by apply length_to_le_bytes.
  by rewrite from_to_le_bytes by (change (256 ^ Z.of_nat 8) with 18446744073709551616; ints).
Qed.

Lemma read_u32_app v rest : u32 v -> read_u32 (to_le_bytes 4 v ++ rest) = Ok (v, rest).
Proof.
  intros Hv. unfold read_u32. rewrite read_exact_app by apply length_to_le_bytes.
  by rewrite from_to_le_bytes by (change (256 ^ Z.of_nat 4) with 4294967296; ints).
Qed.

Definition index_header_ok (h : IndexHeader) : Prop :=
  u64 (h_source_revision h) /\ u64 (h_total_samples h) /\ u64 (h_total_blocks h) /\ u64 (h_samples_per_block h) /\
  u64 (h_samplerate_bits h) /\ u64 (h_total_channels h) /\ u64 (h_blocks_per_channel h) /\
  u64 (h_dir_offset h) /\ u64 (h_payload_offset h).

Lemma read_header_write h rest : index_header_ok h -> read_header (write_header h ++ rest) = Ok h.
Proof.
  intros (? & ? & ? & ? & ? & ? & ? & ? & ?). unfold read_header, write_header. rewrite <- !app_assoc.
  rewrite read_exact_app by done. rewrite bool_decide_eq_true_2 by done. cbn [negb].
  rewrite read_u32_app by done. rewrite Z.eqb_refl. cbn [negb].
  rewrite read_u32_app by done. rewrite Z.eqb_refl. cbn [negb].
  do 9 (rewrite read_u64_app by done). by destruct h.
Qed.

Lemma zlen_write_header h : zlen (write_header h) = HEADER_SIZE.
Proof.
  unfold write_header. rewrite !zlen_app, !zlen_to_le_bytes. unfold zlen at 2. by rewrite length_replicate.
Qed.

Definition entry_ok (e : RootDirEntry) : Prop :=
  u64 (entry_offset e) /\ u64 (entry_len e) /\ u64 (entry_l3_toggle e) /\ u64 (entry_l3_last e).

Lemma read_dir_entry_write e rest : entry_ok e -> read_dir_entry (write_dir_entry e ++ rest) = Ok (e, rest).
Proof.
  intros (? & ? & ? & ?). unfold read_dir_entry, write_dir_entry. rewrite <- !app_assoc.
  do 2 (rewrite read_u64_app by done). rewrite read_exact_app by done.
  unfold get_word, byte_at. cbn [lookup list_lookup Z.ltb ok_or Z.to_nat]. cbn [Z.compare].
  do 2 (rewrite read_u64_app by done).
  destruct e as [o l t f la tt ll]. cbn. by destruct t, f, la.
Qed.

Lemma read_many_concat {A} (read : list Z -> result (failure Error) (A * list Z)) (write : A -> list Z) items rest :
  Forall (fun x => forall rest, read (write x ++ rest) = Ok (x, rest)) items ->
  read_many read (length items) (concat (map write items) ++ rest) = Ok (items, rest).
Proof.
  induction 1 as [|x items Hx _ IH]; [done|]. cbn [length read_many map concat].
  by rewrite <- app_assoc, Hx, IH.
Qed.

Definition directory_bytes (directory : list (list RootDirEntry)) : list Z :=
  concat (map (fun channel_dir => concat (map write_dir_entry channel_dir)) directory).

Lemma read_directory_write h directory blocks :
  h_dir_offset h = HEADER_SIZE ->
  Forall (fun row => zlen row = blocks /\ Forall entry_ok row) directory ->
  read_directory (write_header h ++ directory_bytes directory) h (zlen directory) blocks = Ok directory.
Proof.
  intros Ho Hd. unfold read_directory. rewrite Ho, <- (zlen_write_header h). unfold zlen at 1 2.
  rewrite !Nat2Z.id, drop_app_length. unfold directory_bytes.
  rewrite <- (app_nil_r (concat _)).
  rewrite (read_many_concat _ (fun channel_dir => concat (map write_dir_entry channel_dir)) directory []); [done|].
  eapply Forall_impl; [exact Hd|]. intros row [Hrow He] rest. cbv beta.
  replace (Z.to_nat blocks) with (length row) by (unfold zlen in Hrow; lia).
  apply read_many_concat. eapply Forall_impl; [exact He|]. intros e Hok rest'. by apply read_dir_entry_write.
Qed.

(** ** Reading artifacts *)

Section Proofs.
Context (hash : list Z -> list Z) (Hinj : Inj (=) (=) hash) {R : Type} `{RepositoryLaws R}.

Lemma copy_loop_ok reader c t fuel n :
  reader_serves reader c -> (n <= length c)%nat -> (length c - n <= fuel)%nat ->
  copy_loop fuel t reader (zlen c) (take n c) = Ok c.
Proof.
  intros (_ & _ & Hread). revert n. induction fuel as [|fuel IH]; intros n Hn Hf; cbn [copy_loop].
  - rewrite take_ge by lia. by rewrite Z.ltb_irrefl.
  - assert (Hlen : zlen (take n c) = Z.of_nat n) by (unfold zlen; rewrite length_take; lia).
    rewrite Hlen. destruct (Z.ltb_spec (Z.of_nat n) (zlen c)) as [Hlt|Hge].
    + destruct (Hread (Z.of_nat n) (zlen c - Z.of_nat n)) as (count & Hc & Hw & ->); [lia..|].
      rewrite Nat2Z.id. cbn [repository_result].
      assert (Hz : zlen (take count (drop n c)) = Z.of_nat count).
      { unfold zlen in *. rewrite length_take, length_drop. lia. }
      rewrite Hz, (proj2 (Z.eqb_neq _ _)) by lia.
      rewrite take_take_drop. apply IH; unfold zlen in *; lia.
    + rewrite take_ge; [done|]. unfold zlen in Hge. lia.
Qed.

Lemma copy_all reader c t : reader_serves reader c -> copy_loop (Z.to_nat (zlen c)) t reader (zlen c) [] = Ok c.
Proof. intros Hs. apply (copy_loop_ok reader c t _ 0 Hs); unfold zlen; lia. Qed.

Lemma read_contents (r : R) key : read r key = Ok (contents r key).
Proof.
  unfold read. pose proof (open_contents r key) as Ho. destruct (contents r key) as [c|]; [|by rewrite Ho].
  destruct Ho as (reader & -> & Hs). cbn [repository_result]. pose proof Hs as (Hl & _).
  rewrite Hl. cbn [repository_result]. by rewrite copy_all.
Qed.

Lemma fetch_segment_contents (r : R) identity segment c :
  contents r (segment_key hash identity segment) = Some c -> fetch_segment hash r identity segment = Ok c.
Proof.
  intros Hc. unfold fetch_segment. pose proof (open_contents r (segment_key hash identity segment)) as Ho.
  rewrite Hc in Ho. destruct Ho as (reader & -> & Hs). cbn [repository_result].
  pose proof Hs as (Hl & Hregion & _). rewrite Hl. cbn [repository_result].
  destruct Hregion as [-> | ->]; cbn [repository_result]; [by rewrite copy_all|done].
Qed.

Lemma publish_ok (r : R) key c : exists r', publish r key c = (Ok tt, r') /\
  forall key', contents r' key' = if decide (key' = key) then Some c else contents r key'.
Proof.
  unfold publish. destruct (publish_contents r key c) as (r' & -> & Hc). exists r'. done.
Qed.

Lemma segment_key_inj identity s1 s2 :
  u64 s1 -> u64 s2 -> segment_key hash identity s1 = segment_key hash identity s2 -> s1 = s2.
Proof.
  intros H1 H2 Heq. apply (f_equal snd) in Heq. unfold segment_key, artifact_key in Heq. cbn [snd] in Heq.
  apply Hinj in Heq. apply app_inv_head, app_inv_head in Heq. cbn [optional_bytes] in Heq.
  rewrite !app_nil_r in Heq.
  rewrite <- (from_to_le_bytes 8 s1), <- (from_to_le_bytes 8 s2), Heq; [done|..];
    change (256 ^ Z.of_nat 8) with 18446744073709551616; ints.
Qed.

Lemma segment_key_root identity segment : segment_key hash identity segment <> root_key hash identity.
Proof. intros Heq. by apply (f_equal fst) in Heq. Qed.

(** ** Where the leaves are *)

Definition serialize_all (leaves : list BlockIndex) : list Z := concat (map serialize_leaf leaves).

(** The leaves of segment [k] out of all leaves in order. *)
Definition segment_leaves (leaves : list BlockIndex) (k : Z) : list BlockIndex :=
  take 64 (drop (Z.to_nat (64 * k)) leaves).

(** The directory entry of leaf [i]. *)
Definition entry_at (leaves : list BlockIndex) (i : Z) : RootDirEntry :=
  match byte_at leaves i with
  | Some leaf =>
      leaf_entry (zlen (serialize_all (take (Z.to_nat (i mod 64)) (drop (Z.to_nat (64 * (i / 64))) leaves)))) leaf
  | None => entry_default
  end.

Lemma serialize_all_app l1 l2 : serialize_all (l1 ++ l2) = serialize_all l1 ++ serialize_all l2.
Proof. unfold serialize_all. by rewrite map_app, concat_app. Qed.

Lemma byte_at_app_l {A} (l1 l2 : list A) i : i < zlen l1 -> byte_at (l1 ++ l2) i = byte_at l1 i.
Proof.
  intros Hi. unfold byte_at. destruct (Z.ltb_spec i 0); [done|]. apply lookup_app_l. unfold zlen in Hi. lia.
Qed.

Lemma byte_at_app_r {A} (l1 : list A) x : byte_at (l1 ++ [x]) (zlen l1) = Some x.
Proof.
  unfold byte_at, zlen. rewrite (proj2 (Z.ltb_ge _ _)), Nat2Z.id by lia.
  rewrite lookup_app_r, Nat.sub_diag by lia. done.
Qed.

Lemma byte_at_ge {A} (l : list A) i : zlen l <= i -> byte_at l i = None.
Proof.
  intros Hi. unfold byte_at. destruct (i <? 0); [done|]. apply lookup_ge_None_2. unfold zlen in Hi. lia.
Qed.

Lemma segment_leaves_app leaves x k :
  0 <= k -> 64 * k + 64 <= zlen leaves -> segment_leaves (leaves ++ [x]) k = segment_leaves leaves k.
Proof.
  intros Hk0 Hk. unfold segment_leaves. rewrite drop_app_le, take_app_le; [done| |]; lens.
  rewrite length_drop. lia.
Qed.

(** A new leaf leaves the entries of the others as they are. *)
Lemma entry_at_app leaves x i :
  0 <= i -> i <> zlen leaves -> entry_at (leaves ++ [x]) i = entry_at leaves i.
Proof.
  intros Hi Hne. unfold entry_at. destruct (Z.lt_ge_cases i (zlen leaves)) as [Hlt|Hge].
  - rewrite byte_at_app_l by done. destruct (byte_at leaves i); [|done]. do 3 f_equal.
    pose proof (Z.div_mod i 64). pose proof (Z.mod_pos_bound i 64). assert (0 <= i / 64) by (apply Z.div_pos; lia).
    rewrite drop_app_le, take_app_le; [done| |]; lens. rewrite length_drop. lia.
  - rewrite !byte_at_ge by (rewrite ?zlen_app; lens). done.
Qed.

Lemma entry_at_new leaves x :
  entry_at (leaves ++ [x]) (zlen leaves) =
    leaf_entry (zlen (serialize_all (drop (Z.to_nat (64 * (zlen leaves / 64))) leaves))) x.
Proof.
  unfold entry_at. rewrite byte_at_app_r. do 3 f_equal.
  pose proof (zlen_nonneg leaves). pose proof (Z.div_mod (zlen leaves) 64). pose proof (Z.mod_pos_bound (zlen leaves) 64).
  assert (0 <= zlen leaves / 64) by (apply Z.div_pos; lia). unfold zlen in *.
  rewrite drop_app_le, take_app_le by (rewrite ?length_drop; lia). apply take_ge. rewrite length_drop. lia.
Qed.

Lemma serialize_leaf_nonempty leaf : serialize_leaf leaf <> [].
Proof. rewrite serialize_leaf_layout. by destruct (to_le_bytes 4 (valid_samples leaf)). Qed.

Lemma serialize_all_nil leaves : serialize_all leaves = [] -> leaves = [].
Proof.
  destruct leaves as [|x leaves]; [done|]. unfold serialize_all. cbn [map concat].
  intros Happ. apply app_eq_nil in Happ as [Hx _]. by apply serialize_leaf_nonempty in Hx.
Qed.

(** ** Directories *)

Lemma byte_at_insert {A} (l : list A) i j x :
  0 <= i < zlen l -> byte_at (<[Z.to_nat i := x]> l) j = if i =? j then Some x else byte_at l j.
Proof.
  intros Hi. unfold byte_at. destruct (Z.ltb_spec j 0); [destruct (Z.eqb_spec i j); [lia|done]|].
  unfold zlen in Hi. destruct (Z.eqb_spec i j) as [->|].
  - rewrite list_lookup_insert_eq; [done|lia].
  - apply list_lookup_insert_ne. lia.
Qed.

Lemma byte_at_nat {A} (l : list A) i : byte_at l (Z.of_nat i) = l !! i.
Proof. unfold byte_at. by rewrite (proj2 (Z.ltb_ge _ _)), Nat2Z.id by lia. Qed.

Lemma byte_at_replicate {A} (x : A) n i : 0 <= i < n -> byte_at (replicate (Z.to_nat n) x) i = Some x.
Proof. intros Hi. unfold byte_at. rewrite (proj2 (Z.ltb_ge _ _)) by lia. apply lookup_replicate_2. lia. Qed.

Lemma byte_at_some {A} (l : list A) i : 0 <= i < zlen l -> exists x, byte_at l i = Some x.
Proof.
  intros Hi. unfold byte_at. rewrite (proj2 (Z.ltb_ge _ _)) by lia. apply lookup_lt_is_Some_2. unfold zlen in Hi. lia.
Qed.

Lemma dir_set_ok directory channel block entry channels blocks :
  zlen directory = channels -> Forall (fun row => zlen row = blocks) directory ->
  0 <= channel < channels -> 0 <= block < blocks ->
  exists directory', dir_set directory channel block entry = Some directory' /\
    zlen directory' = channels /\ Forall (fun row => zlen row = blocks) directory' /\
    forall ch bl, dir_get directory' ch bl = if (channel =? ch) && (block =? bl) then Some entry else dir_get directory ch bl.
Proof.
  intros Hd Hrows Hc Hb. destruct (byte_at_some directory channel ltac:(lia)) as [row Hrow].
  assert (Hlen : zlen row = blocks).
  { unfold byte_at in Hrow. destruct (channel <? 0); [done|]. eapply Forall_lookup_1 in Hrows; [|exact Hrow]. done. }
  destruct (byte_at_some row block ltac:(lia)) as [old Hold].
  unfold dir_set. rewrite Hrow, Hold. eexists. split; [done|].
  split; [unfold zlen in *; by rewrite length_insert|].
  split; [apply Forall_insert; [done|]; unfold zlen in *; by rewrite length_insert|].
  intros ch bl. unfold dir_get. rewrite byte_at_insert by lia. destruct (Z.eqb_spec channel ch) as [<-|]; cbn [andb].
  - rewrite byte_at_insert by lia. by rewrite Hrow.
  - done.
Qed.

(** ** The writer *)

Section Writer.
Context (identity : list Z) (hdr : IndexHeader) (channels blocks : Z) (r0 : R).
Context (Hchannels : 0 <= channels) (Hblocks : 0 <= blocks) (Htotal : channels * blocks <= u64_max).

(** Artifacts of other namespaces are as they were. *)
Definition others_kept (r : R) : Prop :=
  forall key, fst key <> SEGMENT_NAMESPACE -> fst key <> ROOT_NAMESPACE -> contents r key = contents r0 key.

(** The writer after the leaves [written], the last segment of which is not yet published. *)
Definition writer_ok (written : list BlockIndex) (s : IndexWriter * R) : Prop :=
  let '(w, r) := s in
  w_identity w = identity /\ w_index_header w = hdr /\ CaptureStorage.blocks_per_channel w = blocks /\
  next_ordinal w = zlen written /\
  (zlen (w_directory w) = channels /\ Forall (fun row => zlen row = blocks) (w_directory w) /\
   forall ch bl, 0 <= ch < channels -> 0 <= bl < blocks ->
     dir_get (w_directory w) ch bl = Some (entry_at written (ch * blocks + bl))) /\
  others_kept r /\
  exists b, 0 <= b /\ 64 * b <= zlen written <= 64 * b + 64 /\ (zlen written = 64 * b -> zlen written = 0) /\
    segment_bytes w = serialize_all (drop (Z.to_nat (64 * b)) written) /\
    forall k, 0 <= k < b -> contents r (segment_key hash identity k) = Some (serialize_all (segment_leaves written k)).

Lemma create_ok meta source_revision :
  hdr = mkIndexHeader source_revision (total_samples meta) blocks (samples_per_block meta) (samplerate_bits meta)
          channels blocks HEADER_SIZE (HEADER_SIZE + channels * blocks * DIR_ENTRY_SIZE) ->
  total_probes meta = channels -> total_blocks meta = blocks ->
  HEADER_SIZE + channels * blocks * DIR_ENTRY_SIZE <= u64_max ->
  exists w, create identity meta source_revision = Ok w /\ writer_ok [] (w, r0).
Proof.
  intros -> Hc Hb Hs. unfold create. rewrite Hc, Hb. unfold checked_mul64, checked_add64.
  rewrite (proj2 (Z.leb_le _ _)) by lia.
  rewrite (proj2 (Z.leb_le (channels * blocks * DIR_ENTRY_SIZE) _)) by (unfold HEADER_SIZE in Hs; lia).
  rewrite (proj2 (Z.leb_le _ _)) by lia. eexists. split; [done|]. cbn [writer_ok w_identity w_index_header w_directory
    CaptureStorage.blocks_per_channel next_ordinal segment_bytes].
  split; [done|]. split; [done|]. split; [done|]. split; [done|]. split.
  - assert (Hrow : zlen (replicate (Z.to_nat blocks) entry_default) = blocks) by (unfold zlen; rewrite length_replicate; lia).
    split; [unfold zlen; rewrite length_replicate; lia|]. split; [by apply Forall_replicate|].
    intros ch bl Hch Hbl. unfold dir_get. rewrite !byte_at_replicate by lia.
    unfold entry_at. rewrite byte_at_ge; [done|]. change (zlen []) with 0. nia.
  - split; [by intros key|]. exists 0. cbn. split_and!; try lia; try done.
Qed.

(** The pending segment is published under the number that its leaves have. *)
Lemma publish_segment_ok written w r :
  writer_ok written (w, r) -> u64 (zlen written) ->
  exists w' r', publish_segment hash w r = (Ok tt, (w', r')) /\
    w_identity w' = identity /\ w_index_header w' = hdr /\ CaptureStorage.blocks_per_channel w' = blocks /\
    next_ordinal w' = zlen written /\ w_directory w' = w_directory w /\ segment_bytes w' = [] /\
    others_kept r' /\
    forall k, 0 <= k -> 64 * k < zlen written ->
      contents r' (segment_key hash identity k) = Some (serialize_all (segment_leaves written k)).
Proof.
  intros (Hi & Hh & Hb & Hn & _ & Ho & b & Hb0 & Hb1 & Hb2 & Hs & Hk) Hu. unfold publish_segment.
  destruct (Nat.eqb_spec (length (segment_bytes w)) 0) as [Hz|Hz].
  - apply nil_length_inv in Hz. exists w, r. split; [done|].
    split_and!; try done. intros k Hk0 Hkn. rewrite Hs in Hz. apply serialize_all_nil in Hz.
    assert (Hlen : length (drop (Z.to_nat (64 * b)) written) = 0%nat) by (by rewrite Hz).
    rewrite length_drop in Hlen. unfold zlen in *. lia.
  - assert (Hne : 64 * b < zlen written).
    { destruct (Z.eq_dec (zlen written) (64 * b)) as [He|]; [|lia]. destruct Hz. rewrite Hs, drop_ge; [done|].
      unfold zlen in He. lia. }
    rewrite Hi, Hn, sub64_small by (unfold u64 in *; lia).
    assert (Hseg : (zlen written - 1) / LEAVES_PER_SEGMENT = b).
    { symmetry. apply Z.div_unique with (zlen written - 1 - 64 * b); unfold LEAVES_PER_SEGMENT; lia. }
    rewrite Hseg. destruct (publish_ok r (segment_key hash identity b) (segment_bytes w)) as (r' & -> & Hc).
    eexists _, r'. split; [done|]. cbn. split_and!; try done.
    + intros key Hk1 Hk2. rewrite Hc, decide_False by (intros ->; done). by apply Ho.
    + intros k Hk0 Hkn. rewrite Hc. destruct (Z.eq_dec k b) as [->|Hkb].
      * rewrite decide_True by done. f_equal. rewrite Hs. f_equal. unfold segment_leaves. rewrite take_ge; [done|]. rewrite length_drop. unfold zlen in *. lia.
      * rewrite decide_False; [apply Hk; lia|]. intros He. destruct Hkb.
        apply (segment_key_inj identity); [unfold u64 in *; lia..|done].
Qed.

(** Before a leaf is added, a full segment is published. *)
Lemma roll_segment_ok written w r :
  writer_ok written (w, r) -> u64 (zlen written) ->
  exists w' r',
    (if (0 <? zlen written) && (zlen written mod LEAVES_PER_SEGMENT =? 0) then publish_segment hash w r
     else (Ok tt, (w, r))) = (Ok tt, (w', r')) /\
    w_identity w' = identity /\ w_index_header w' = hdr /\ CaptureStorage.blocks_per_channel w' = blocks /\
    next_ordinal w' = zlen written /\ w_directory w' = w_directory w /\ others_kept r' /\
    segment_bytes w' = serialize_all (drop (Z.to_nat (64 * (zlen written / 64))) written) /\
    forall k, 0 <= k < zlen written / 64 ->
      contents r' (segment_key hash identity k) = Some (serialize_all (segment_leaves written k)).
Proof.
  intros Hw Hu. unfold LEAVES_PER_SEGMENT. pose proof (zlen_nonneg written) as Hn0.
  pose proof (Z.div_mod (zlen written) 64) as Hdm. pose proof (Z.mod_pos_bound (zlen written) 64) as Hmb.
  destruct (Z.ltb_spec 0 (zlen written)) as [Hpos|Hpos], (Z.eqb_spec (zlen written mod 64) 0) as [Hm|Hm]; cbn [andb].
  - destruct (publish_segment_ok written w r Hw Hu) as (w' & r' & -> & H1 & H2 & H3 & H4 & H5 & H6 & H7 & H8).
    exists w', r'. split; [done|]. split_and!; try done.
    + rewrite H6, drop_ge; [done|]. unfold zlen in *. lia.
    + intros k Hk. apply H8; lia.
  - destruct Hw as (Hi & Hh & Hb & Hn & _ & Ho & b & Hb0 & Hb1 & Hb2 & Hs & Hk).
    assert (Hq : zlen written / 64 = b) by lia. rewrite Hq. exists w, r. split; [done|]. split_and!; done.
  - destruct Hw as (Hi & Hh & Hb & Hn & _ & Ho & b & Hb0 & Hb1 & Hb2 & Hs & Hk).
    assert (Hq : zlen written / 64 = b) by lia. rewrite Hq. exists w, r. split; [done|]. split_and!; done.
  - destruct Hw as (Hi & Hh & Hb & Hn & _ & Ho & b & Hb0 & Hb1 & Hb2 & Hs & Hk). lia.
Qed.

Lemma write_block_ok written channel block leaf s :
  writer_ok written s -> 0 <= channel < channels -> 0 <= block < blocks ->
  channel * blocks + block = zlen written ->
  exists s', write_block hash channel block leaf s = (Ok tt, s') /\ writer_ok (written ++ [leaf]) s'.
Proof.
  intros Hw Hc Hb Hord. destruct s as [w r].
  assert (Hu : zlen written < u64_max /\ 0 <= zlen written) by nia.
  assert (Hu64 : u64 (zlen written)) by ints.
  pose proof Hw as (Hi & Hh & Hbpc & Hn & (Hd1 & Hd2 & Hd3) & _). unfold write_block. rewrite Hbpc, Hn.
  unfold checked_mul64 at 1, checked_add64 at 1.
  rewrite (proj2 (Z.leb_le _ _)), Hord, (proj2 (Z.leb_le _ _)), Z.eqb_refl by nia. cbn [negb].
  destruct (roll_segment_ok written w r Hw Hu64) as (w' & r' & -> & H1 & H2 & H3 & H4 & H5 & H6 & H7 & H8).
  rewrite H5, H7. destruct (dir_set_ok (w_directory w) channel block
    (leaf_entry (zlen (serialize_all (drop (Z.to_nat (64 * (zlen written / 64))) written))) leaf) channels blocks
    Hd1 Hd2 Hc Hb) as (directory & -> & Hd1' & Hd2' & Hd3').
  eexists. split; [done|]. cbn [writer_ok w_identity w_index_header w_directory CaptureStorage.blocks_per_channel
    next_ordinal segment_bytes].
  pose proof (Z.div_mod (zlen written) 64). pose proof (Z.mod_pos_bound (zlen written) 64).
  assert (Hz : zlen (written ++ [leaf]) = zlen written + 1) by (rewrite zlen_app; done).
  split; [done|]. split; [done|]. split; [done|].
  split; [rewrite H4, saturating_add64_small by lia; lia|].
  split; [split; [done|split; [done|]]|split; [done|]].
  - intros ch bl Hch Hbl. rewrite Hd3'. destruct (Z.eqb_spec channel ch) as [<-|Hne]; cbn [andb].
    + destruct (Z.eqb_spec block bl) as [<-|Hne].
      * by rewrite Hord, entry_at_new.
      * rewrite Hd3, entry_at_app by (done || lia). done.
    + rewrite Hd3, entry_at_app by (done || nia). done.
  - exists (zlen written / 64). rewrite Hz. split; [apply Z.div_pos; lia|]. split; [lia|]. split; [lia|]. split.
    + rewrite drop_app_le by (unfold zlen in *; lia). rewrite serialize_all_app. do 2 f_equal.
      unfold serialize_all. cbn. by rewrite app_nil_r.
    + intros k Hk. rewrite segment_leaves_app by lia. by apply H8.
Qed.

(** A published index: the root with its directory, and the segments. *)
Definition published (leaves : list BlockIndex) (r : R) : Prop :=
  (exists directory, contents r (root_key hash identity) = Some (write_header hdr ++ directory_bytes directory) /\
    zlen directory = channels /\ Forall (fun row => zlen row = blocks) directory /\
    forall ch bl, 0 <= ch < channels -> 0 <= bl < blocks ->
      dir_get directory ch bl = Some (entry_at leaves (ch * blocks + bl))) /\
  others_kept r /\
  forall k, 0 <= k -> 64 * k < zlen leaves ->
    contents r (segment_key hash identity k) = Some (serialize_all (segment_leaves leaves k)).

Lemma finish_ok leaves s :
  writer_ok leaves s -> zlen leaves = channels * blocks ->
  exists r', finish hash s = (Ok tt, r') /\ published leaves r'.
Proof.
  intros Hw Hall. destruct s as [w r]. pose proof Hw as (Hi & Hh & Hb & Hn & (Hd1 & Hd2 & Hd3) & _).
  unfold finish. rewrite Hd1, Hb. unfold checked_mul64. rewrite (proj2 (Z.leb_le _ _)) by done.
  rewrite Hn, Hall, Z.eqb_refl. cbn [negb].
  destruct (publish_segment_ok leaves w r Hw) as (w' & r' & -> & H1 & H2 & H3 & H4 & H5 & H6 & H7 & H8).
  { pose proof (zlen_nonneg leaves). ints. }
  rewrite H1, H2, H5.
  destruct (publish_ok r' (root_key hash identity) (write_header hdr ++ directory_bytes (w_directory w)))
    as (r'' & Hp & Hc).
  exists r''. split; [exact Hp|]. split; [|split].
  - exists (w_directory w). rewrite Hc, decide_True by done. done.
  - intros key Hk1 Hk2. rewrite Hc, decide_False by (intros ->; done). by apply H7.
  - intros k Hk0 Hkn. rewrite Hc, decide_False by apply segment_key_root. by apply H8.
Qed.
End Writer.

(** ** The reader *)

Section Reader.
Context (identity : list Z) (meta : CaptureMetadata) (source_revision : Z) (leaves : list BlockIndex) (r0 : R).

Local Abbreviation channels := (total_probes meta).
Local Abbreviation blocks := (total_blocks meta).

(** The header of the root of this capture. *)
Definition root_header : IndexHeader :=
  mkIndexHeader source_revision (total_samples meta) blocks (samples_per_block meta) (samplerate_bits meta)
    channels blocks HEADER_SIZE (HEADER_SIZE + channels * blocks * DIR_ENTRY_SIZE).

(** The metadata fits the fields of the root. *)
Definition metadata_ok : Prop :=
  0 <= channels /\ 0 <= blocks /\ HEADER_SIZE + channels * blocks * DIR_ENTRY_SIZE <= u64_max /\
  u64 source_revision /\ u64 (total_samples meta) /\ u64 blocks /\ u64 (samples_per_block meta) /\
  u64 (samplerate_bits meta) /\ u64 channels.

Definition leaves_ok : Prop :=
  zlen leaves = channels * blocks /\
  forall ch bl leaf, 0 <= ch < channels -> 0 <= bl < blocks -> byte_at leaves (ch * blocks + bl) = Some leaf ->
    leaf_fits leaf /\ valid_samples leaf = expected_samples meta bl.

Context (Hmeta : metadata_ok) (Hleaves : leaves_ok).

Lemma leaf_index ch bl : 0 <= ch < channels -> 0 <= bl < blocks -> 0 <= ch * blocks + bl < zlen leaves.
Proof. intros. destruct Hleaves as [-> _]. nia. Qed.

Lemma leaf_at ch bl : 0 <= ch < channels -> 0 <= bl < blocks -> exists leaf,
  byte_at leaves (ch * blocks + bl) = Some leaf /\ leaf_fits leaf /\ valid_samples leaf = expected_samples meta bl.
Proof.
  intros Hc Hb. destruct (byte_at_some leaves (ch * blocks + bl) (leaf_index ch bl Hc Hb)) as [leaf Hl].
  exists leaf. split; [done|]. destruct Hleaves as [_ Hok]. by apply (Hok ch bl).
Qed.

Lemma zlen_serialize_leaf leaf : leaf_fits leaf -> 8 <= zlen (serialize_leaf leaf) <= 66584.
Proof.
  intros [_ Hl]. rewrite serialize_leaf_layout, !zlen_app, zlen_to_le_bytes. unfold leaf_payload.
  destruct (levels leaf) as [l|]; [|done]. destruct Hl as (H1 & H2 & H3 & H4 & _).
  rewrite zlen_words_bytes, !zlen_app, H1, H2, H3, H4. done.
Qed.

Lemma serialize_all_bound l : Forall leaf_fits l -> 0 <= zlen (serialize_all l) <= 66584 * zlen l.
Proof.
  induction 1 as [|x l Hx _ IH]; [done|]. change (serialize_all (x :: l)) with (serialize_leaf x ++ serialize_all l).
  rewrite zlen_app, zlen_cons. pose proof (zlen_serialize_leaf x Hx). lia.
Qed.

Lemma all_leaves_fit : Forall leaf_fits leaves.
Proof.
  apply Forall_lookup_2. intros i leaf Hi. destruct Hleaves as [Hz Hok].
  assert (Hlt : Z.of_nat i < channels * blocks) by (apply lookup_lt_Some in Hi; unfold zlen in Hz; lia).
  destruct Hmeta as (Hc & Hb & _). assert (Hb0 : 0 < blocks) by nia.
  pose proof (Z.div_mod (Z.of_nat i) blocks). pose proof (Z.mod_pos_bound (Z.of_nat i) blocks).
  apply (Hok (Z.of_nat i / blocks) (Z.of_nat i mod blocks)).
  - split; [apply Z.div_pos; lia|apply Z.div_lt_upper_bound; lia].
  - lia.
  - unfold byte_at. rewrite (proj2 (Z.ltb_ge _ _)) by lia.
    replace (Z.to_nat _) with i by lia. done.
Qed.

Lemma prefix_bound i :
  0 <= i -> 0 <= zlen (serialize_all (take (Z.to_nat (i mod 64)) (drop (Z.to_nat (64 * (i / 64))) leaves))) <= 66584 * 64.
Proof.
  intros Hi. pose proof (Z.mod_pos_bound i 64).
  pose proof (serialize_all_bound (take (Z.to_nat (i mod 64)) (drop (Z.to_nat (64 * (i / 64))) leaves))) as Hbound.
  assert (Hlen : zlen (take (Z.to_nat (i mod 64)) (drop (Z.to_nat (64 * (i / 64))) leaves)) <= 64)
    by (unfold zlen; rewrite length_take; lia).
  specialize (Hbound ltac:(apply Forall_take, Forall_drop, all_leaves_fit)). lia.
Qed.

Lemma entry_at_ok i : 0 <= i -> entry_ok (entry_at leaves i).
Proof.
  intros Hi. unfold entry_at. destruct (byte_at leaves i) as [leaf|] eqn:Hl; [|repeat split; done].
  assert (Hfit : leaf_fits leaf).
  { unfold byte_at in Hl. destruct (i <? 0); [done|]. eapply Forall_lookup_1; [apply all_leaves_fit|exact Hl]. }
  pose proof (zlen_serialize_leaf leaf Hfit). pose proof (prefix_bound i Hi).
  unfold leaf_entry. split; [cbn; ints|]. split; [cbn; ints|]. cbn.
  destruct Hfit as [_ Hfit]. destruct (levels leaf) as [l|]; [|done].
  destruct Hfit as (_ & _ & _ & _ & Hok). unfold words_ok in Hok. rewrite !Forall_app in Hok.
  destruct Hok as (_ & _ & _ & _ & Hok). by rewrite Forall_cons, Forall_singleton in Hok.
Qed.

(** The bytes of a leaf are where its entry says. *)
Lemma decode_leaf_ok ch bl :
  0 <= ch < channels -> 0 <= bl < blocks -> exists leaf,
  byte_at leaves (ch * blocks + bl) = Some leaf /\
  decode_leaf meta (entry_at leaves (ch * blocks + bl)) bl
    (serialize_all (segment_leaves leaves ((ch * blocks + bl) / LEAVES_PER_SEGMENT))) = Ok (view_of leaf).
Proof.
  intros Hc Hb. destruct (leaf_at ch bl Hc Hb) as (leaf & Hl & Hfit & Hv). exists leaf. split; [done|].
  pose proof (leaf_index ch bl Hc Hb) as Hi. set (i := ch * blocks + bl) in *.
  unfold decode_leaf, entry_at. rewrite Hl. cbn [leaf_entry entry_offset entry_len].
  pose proof (prefix_bound i ltac:(lia)). pose proof (zlen_serialize_leaf leaf Hfit).
  unfold checked_add64. rewrite (proj2 (Z.leb_le _ _)) by ints.
  pose proof (Z.div_mod i 64). pose proof (Z.mod_pos_bound i 64). assert (0 <= i / 64) by (apply Z.div_pos; lia).
  assert (Hmid : segment_leaves leaves (i / LEAVES_PER_SEGMENT) =
    take (Z.to_nat (i mod 64)) (drop (Z.to_nat (64 * (i / 64))) leaves) ++ leaf ::
    drop (S (Z.to_nat (i mod 64))) (segment_leaves leaves (i / 64))).
  { unfold LEAVES_PER_SEGMENT. symmetry.
    replace (take (Z.to_nat (i mod 64)) (drop (Z.to_nat (64 * (i / 64))) leaves))
      with (take (Z.to_nat (i mod 64)) (segment_leaves leaves (i / 64)))
      by (unfold segment_leaves; rewrite take_take; f_equal; lia).
    apply take_drop_middle. unfold segment_leaves. rewrite lookup_take_lt, lookup_drop by lia.
    unfold byte_at in Hl. rewrite (proj2 (Z.ltb_ge _ _)) in Hl by lia.
    replace (Z.to_nat (64 * (i / 64)) + Z.to_nat (i mod 64))%nat with (Z.to_nat i) by lia. done. }
  rewrite Hmid, serialize_all_app. change (serialize_all (leaf :: ?l)) with (serialize_leaf leaf ++ serialize_all l).
  rewrite (slice_segment _ (serialize_leaf leaf)) by done. rewrite leaf_view_serialize by done.
  cbn [view_of view_valid_samples]. by rewrite Hv, Z.eqb_refl.
Qed.

(** What the caches may hold. *)
Definition cached_leaf_ok (key : Z * Z) (v : LeafView) : Prop :=
  exists leaf, byte_at leaves (fst key * blocks + snd key) = Some leaf /\ v = view_of leaf.

Definition cached_segment_ok (k : Z) (c : list Z) : Prop := c = serialize_all (segment_leaves leaves k).

(** A reader of this index in any state of its caches. *)
Definition reader_ok (ir : IndexReader) : Prop :=
  CaptureStorage.identity ir = identity /\ header ir = meta /\
  (zlen (directory ir) = channels /\ Forall (fun row => zlen row = blocks) (directory ir) /\
   forall ch bl, 0 <= ch < channels -> 0 <= bl < blocks ->
     dir_get (directory ir) ch bl = Some (entry_at leaves (ch * blocks + bl))) /\
  cache_ok cached_leaf_ok (leaf_cache ir) /\ cache_ok cached_segment_ok (segment_cache ir).

Definition is_published (r : R) : Prop := published identity root_header channels blocks r0 leaves r.

Lemma load_segment_ok r ir k :
  is_published r -> reader_ok ir -> 0 <= k -> 64 * k < zlen leaves ->
  exists ir', load_segment hash r k ir = (Ok (serialize_all (segment_leaves leaves k)), ir') /\ reader_ok ir'.
Proof.
  intros (_ & _ & Hseg) (Hi & Hh & Hd & Hlc & Hsc) Hk Hkn. unfold load_segment.
  destruct (get_ok touch cached_segment_ok k (segment_cache ir) touch_moves Hsc) as [Hsc' Hfound].
  destruct (get touch k (segment_cache ir)) as [[c|] cache]; cbn [fst snd] in *.
  - rewrite Hfound. eexists. split; [done|]. by repeat (split; [done|]).
  - cbn [CaptureStorage.identity with_segment_cache segment_cache]. rewrite Hi.
    rewrite (fetch_segment_contents r identity k _ (Hseg k Hk Hkn)).
    destruct (insert_ok touch cached_segment_ok SEGMENT_CACHE_CAPACITY k (serialize_all (segment_leaves leaves k)) cache)
      as (cache' & -> & Hc'); [apply touch_moves|done|done|].
    eexists. split; [done|]. by repeat (split; [done|]).
Qed.

Lemma load_leaf_ok r ir ch bl :
  is_published r -> reader_ok ir -> 0 <= ch < channels -> 0 <= bl < blocks ->
  exists leaf ir', byte_at leaves (ch * blocks + bl) = Some leaf /\
    load_leaf hash r ch bl ir = (Ok (view_of leaf), ir') /\ reader_ok ir'.
Proof.
  intros Hp (Hi & Hh & Hd & Hlc & Hsc) Hc Hb. unfold load_leaf.
  destruct (get_ok touch cached_leaf_ok (ch, bl) (leaf_cache ir) touch_moves Hlc) as [Hlc' Hfound].
  destruct (decode_leaf_ok ch bl Hc Hb) as (leaf & Hl & Hdec). exists leaf.
  destruct (get touch (ch, bl) (leaf_cache ir)) as [[v|] cache]; cbn [fst snd] in *.
  - destruct Hfound as (leaf' & Hl' & ->). cbn [fst snd] in Hl'. rewrite Hl in Hl'. injection Hl' as <-.
    eexists. split; [done|]. split; [done|]. by repeat (split; [done|]).
  - pose proof Hd as (Hd1 & Hd2 & Hd3). cbn [directory with_leaf_cache]. rewrite (Hd3 ch bl) by done.
    assert (Hrow : match directory ir with [] => 0 | row :: _ => zlen row end = blocks).
    { destruct (directory ir) as [|row rows]; [unfold zlen in Hd1; cbn in Hd1; lia|].
      by apply Forall_cons in Hd2 as [? _]. }
    rewrite Hrow. pose proof (leaf_index ch bl Hc Hb) as Hidx. destruct Hleaves as [Hz _].
    destruct Hmeta as (_ & _ & Hm & _). unfold HEADER_SIZE, DIR_ENTRY_SIZE in Hm. unfold checked_mul64, checked_add64.
    rewrite (proj2 (Z.leb_le (ch * blocks) _)) by lia. rewrite (proj2 (Z.leb_le _ _)) by lia.
    pose proof (Z.div_mod (ch * blocks + bl) 64). pose proof (Z.mod_pos_bound (ch * blocks + bl) 64).
    destruct (load_segment_ok r (with_leaf_cache ir cache) ((ch * blocks + bl) / LEAVES_PER_SEGMENT)) as (ir' & -> & Hir');
      [done|by repeat (split; [done|])|apply Z.div_pos; unfold LEAVES_PER_SEGMENT; lia|unfold LEAVES_PER_SEGMENT; lia|].
    pose proof Hir' as (Hi' & Hh' & Hd' & Hlc'' & Hsc'). rewrite Hh', Hdec.
    destruct (insert_ok touch cached_leaf_ok LEAF_CACHE_CAPACITY (ch, bl) (view_of leaf) (leaf_cache ir'))
      as (cache' & -> & Hc'); [apply touch_moves|done|by exists leaf|].
    eexists. split; [done|]. split; [done|]. by repeat (split; [done|]).
Qed.

Lemma load_root_summary_ok ir ch bl :
  reader_ok ir -> 0 <= ch < channels -> 0 <= bl < blocks ->
  exists leaf entry, byte_at leaves (ch * blocks + bl) = Some leaf /\
    load_root_summary ir ch bl = Ok entry /\
    entry_toggle entry = (match levels leaf with Some _ => true | None => false end) /\
    entry_first entry = first leaf /\ entry_last entry = last leaf /\
    entry_l3_toggle entry = (match levels leaf with Some l => l3_toggle l | None => 0 end) /\
    entry_l3_last entry = (match levels leaf with Some l => l3_last l | None => 0 end).
Proof.
  intros (_ & _ & (_ & _ & Hd) & _) Hc Hb. destruct (leaf_at ch bl Hc Hb) as (leaf & Hl & _).
  exists leaf. unfold load_root_summary. rewrite Hd by done. exists (entry_at leaves (ch * blocks + bl)). split; [done|]. split; [done|].
  unfold entry_at. rewrite Hl. unfold leaf_entry. cbn. by repeat split.
Qed.

Lemma root_header_ok : index_header_ok root_header.
Proof.
  destruct Hmeta as (? & ? & ? & ? & ? & ? & ? & ? & ?). repeat (split; [assumption|]). split; [done|].
  cbn. unfold HEADER_SIZE, DIR_ENTRY_SIZE in *. ints.
Qed.

Lemma validate_root_header : validate_header root_header meta source_revision = Ok tt.
Proof. unfold validate_header. cbn. by rewrite !Z.eqb_refl. Qed.

Lemma open_index_ok r :
  is_published r ->
  is_valid hash r identity meta source_revision = true /\
  exists ir, open_index hash r identity meta source_revision = Ok ir /\ reader_ok ir.
Proof.
  intros ((dir & Hroot & Hd1 & Hd2 & Hd3) & _). unfold is_valid, open_index. rewrite read_contents, Hroot.
  rewrite read_header_write by apply root_header_ok. rewrite validate_root_header. split; [done|].
  pose proof Hmeta as (Hc & Hb & _).
  assert (Hrows : Forall (fun row => zlen row = blocks /\ Forall entry_ok row) dir).
  { apply Forall_lookup_2. intros ch row Hrow. pose proof Hd2 as Hd2'. eapply Forall_lookup_1 in Hd2'; [|exact Hrow].
    split; [done|]. apply Forall_lookup_2. intros bl e He.
    assert (Hch : Z.of_nat ch < channels) by (apply lookup_lt_Some in Hrow; unfold zlen in Hd1; lia).
    assert (Hbl : Z.of_nat bl < blocks) by (apply lookup_lt_Some in He; unfold zlen in Hd2'; lia).
    specialize (Hd3 (Z.of_nat ch) (Z.of_nat bl) ltac:(lia) ltac:(lia)).
    unfold dir_get in Hd3. rewrite byte_at_nat, Hrow, byte_at_nat, He in Hd3. injection Hd3 as ->.
    apply entry_at_ok. nia. }
  cbn [h_blocks_per_channel root_header].
  pose proof (read_directory_write root_header dir blocks eq_refl Hrows) as Hdir. rewrite Hd1 in Hdir. rewrite Hdir.
  eexists. split; [done|]. split; [done|]. split; [done|]. split; [done|].
  split; apply empty_cache_ok.
Qed.
End Reader.
End Proofs.
