(* ===== verification/CaptureBuild.v ===== *)
(** [crates/signal_capture/src/waveform_index/builder.rs] and the incremental task of [reader.rs]:
    three ways to build the waveform index of a capture.

    The sequential build makes one leaf after the other.  The parallel build has workers summarise
    blocks and collects their results in whatever order they arrive; a schedule chooses, at every
    turn, which of the jobs in flight completes next.  The incremental build makes one leaf per step.
    Times and profiles are left out. *)

From stdpp Require Import gmap.
From S2P Require Import Prelude CaptureBits CaptureKernel CaptureLeaf CaptureCache CaptureStorage.

#[local] Open Scope Z_scope.

(** [crates/signal_capture/src/waveform_index/types.rs:53-58] CaptureIndexProgress *)
Record CaptureIndexProgress := mkProgress { completed_roots : Z; total_roots : Z }.

(** [crates/signal_capture/src/waveform_index/builder.rs:22-22] MAX_INDEX_WORKERS *)
Definition MAX_INDEX_WORKERS : Z := 12.

(** [crates/signal_capture/src/waveform_index/builder.rs:583-588] index_worker_count *)
Definition index_worker_count (available_parallelism total_jobs : Z) : Z :=
  Z.max (Z.min (Z.min available_parallelism MAX_INDEX_WORKERS) total_jobs) 1.

(** [crates/signal_capture/src/waveform_index/builder.rs:95-106] IndexBuilder::build *)
Definition build_jobs (channels blocks : Z) : list BuildJob :=
  concat (map (fun channel => map (fun block => mkJob (channel * blocks + block) channel block) (seqZ 0 blocks))
            (seqZ 0 channels)).

(** The capture's packed blocks; every reader of the source sees the same ones. *)
Section Build.
Context (read_packed_block : Z -> Z -> result (failure Error) (list Z)).
Context (hash : list Z -> list Z) {R : Type} `{ArtifactRepository R}.
(** The caller's answer to a report of progress. *)
Context {P : Type} (progress : P -> CaptureIndexProgress -> bool * P).

(** The samples of a block of [data] that are part of the capture.
    [crates/signal_capture/src/waveform_index/builder.rs:438-440] IndexBuilder::read_block_request *)
Definition block_valid_samples (meta : CaptureMetadata) (block : Z) (data : list Z) : Z :=
  let block_start := mul64 block (samples_per_block meta) in
  let remaining := saturating_sub64 (total_samples meta) block_start in
  Z.min (mul64 (zlen data) 8) remaining.

(** [crates/signal_capture/src/waveform_index/builder.rs:426-449] IndexBuilder::read_block_request *)
Definition read_block_request (meta : CaptureMetadata) (job : BuildJob)
  : result (failure Error) CaptureIndexBlockRequest :=
  let? data := read_packed_block (job_channel job) (job_block job) in
  Ok (mkRequest (job_sequence job) (job_channel job) (job_block job)
        (block_valid_samples meta (job_block job) data) data).

(** [crates/signal_capture/src/waveform_index/builder.rs:451-468] IndexBuilder::build_block_request *)
Definition build_block_request (request : CaptureIndexBlockRequest)
  : result (failure Error) CaptureIndexBlockResult :=
  kernel_error (build_capture_index_block_from_packed (req_sequence request) (req_channel request)
                  (req_block request) (req_valid_samples request) (packed_samples request)).

(** The work of one job.
    [crates/signal_capture/src/waveform_index/builder.rs:210-212] IndexBuilder::build_parallel_streaming *)
Definition run_job (meta : CaptureMetadata) (job : BuildJob) : result (failure Error) CaptureIndexBlockResult :=
  let? request := read_block_request meta job in build_block_request request.

(** The last level of each channel's preceding block, the writer and the repository. *)
Definition Sink : Type := list (option bool) * (IndexWriter * R).

(** The leaf with the change of level into it, and the level it leaves to the next block.
    [crates/signal_capture/src/waveform_index/builder.rs:284-286] IndexBuilder::build_parallel_streaming *)
Definition enter_leaf (channel : Z) (leaf : BlockIndex) (previous_last : list (option bool))
  : result (failure Error) (BlockIndex * list (option bool)) :=
  let? previous := ok_or (byte_at previous_last channel) Panic in
  let? leaf := apply_boundary_transition leaf previous in
  Ok (leaf, <[Z.to_nat channel := Some (last leaf)]> previous_last).

(** [crates/signal_capture/src/waveform_index/builder.rs:284-305] IndexBuilder::build_parallel_streaming *)
Definition write_leaf (job : BuildJob) (leaf : BlockIndex) (s : Sink) : result (failure Error) unit * Sink :=
  let '(previous_last, ws) := s in
  match enter_leaf (job_channel job) leaf previous_last with
  | Err e => (Err e, s)
  | Ok (leaf, previous_last) =>
      let '(out, ws) := write_block hash (job_channel job) (job_block job) leaf ws in
      (out, (previous_last, ws))
  end.

Definition cancelled {A} : result (failure Error) A := Err (Returned Cancelled).

(** [crates/signal_capture/src/waveform_index/builder.rs:392-416] IndexBuilder::build_sequential_streaming *)
Fixpoint sequential_loop (meta : CaptureMetadata) (total_roots completed : Z) (jobs : list BuildJob)
  (p : P) (s : Sink) : result (failure Error) unit * (P * Sink) :=
  match jobs with
  | [] => (Ok tt, (p, s))
  | job :: jobs =>
      match (let? r := run_job meta job in finish_block_result r) with
      | Err e => (Err e, (p, s))
      | Ok (_, leaf) =>
          match write_leaf job leaf s with
          | (Err e, s) => (Err e, (p, s))
          | (Ok _, s) =>
              let '(continue, p) := progress p (mkProgress (completed + 1) total_roots) in
              if negb continue then (cancelled, (p, s))
              else sequential_loop meta total_roots (completed + 1) jobs p s
          end
      end
  end.

(** [crates/signal_capture/src/waveform_index/builder.rs:379-424] IndexBuilder::build_sequential_streaming *)
Definition build_sequential_streaming (meta : CaptureMetadata) (jobs : list BuildJob) (p : P)
  (ws : IndexWriter * R) : result (failure Error) unit * (P * R) :=
  let total_roots := zlen jobs in
  let previous_last := replicate (Z.to_nat (total_probes meta)) None in
  let '(out, (p, (_, ws))) := sequential_loop meta total_roots 0 jobs p (previous_last, ws) in
  match out with
  | Err e => (Err e, (p, snd ws))
  | Ok _ => let '(out, r) := finish hash ws in (out, (p, r))
  end.

(** ** The parallel build *)

(** [crates/signal_capture/src/waveform_index/builder.rs:239-246] IndexBuilder::build_parallel_streaming *)
Record Collector := mkCollector {
  waiting : list BuildJob;
  in_flight : list BuildJob;
  pending : gmap Z (BuildJob * BlockIndex);
  next_sequence : Z;
  received : Z;
  sink : Sink
}.

(** [crates/signal_capture/src/waveform_index/builder.rs:248-264] IndexBuilder::build_parallel_streaming *)
Definition dispatch_initial (worker_count : Z) (jobs : list BuildJob) (s : Sink) : Collector :=
  let started := Z.to_nat worker_count in
  mkCollector (drop started jobs) (take started jobs) ∅ 0 0 s.

(** A job goes to the workers while fewer than [max_outstanding] are in flight or pending.
    [crates/signal_capture/src/waveform_index/builder.rs:332-349] IndexBuilder::build_parallel_streaming *)
Fixpoint dispatch_more (max_outstanding pending_len : Z) (waiting in_flight : list BuildJob)
  : list BuildJob * list BuildJob :=
  match waiting with
  | [] => ([], in_flight)
  | job :: rest =>
      if saturating_add64 pending_len (zlen in_flight) <? max_outstanding
      then dispatch_more max_outstanding pending_len rest (in_flight ++ [job])
      else (waiting, in_flight)
  end.

(** Leaves leave the reorder buffer in the order of their sequence.  Every turn takes one out.
    [crates/signal_capture/src/waveform_index/builder.rs:283-307] IndexBuilder::build_parallel_streaming *)
Fixpoint release_pending (fuel : nat) (pending : gmap Z (BuildJob * BlockIndex)) (next_sequence : Z) (s : Sink)
  : result (failure Error) unit * (gmap Z (BuildJob * BlockIndex) * Z * Sink) :=
  match pending !! next_sequence with
  | None => (Ok tt, (pending, next_sequence, s))
  | Some (job, leaf) =>
      match fuel with
      | O => (Err Diverges, (pending, next_sequence, s))
      | S fuel =>
          let pending := delete next_sequence pending in
          match write_leaf job leaf s with
          | (Err e, s) => (Err e, (pending, next_sequence, s))
          | (Ok _, s) => release_pending fuel pending (saturating_add64 next_sequence 1) s
          end
      end
  end.

(** One result arrives: that of the job at position [choice] of those in flight.
    [crates/signal_capture/src/waveform_index/builder.rs:269-353] IndexBuilder::build_parallel_streaming *)
Definition receive_result (meta : CaptureMetadata) (total_roots max_outstanding : Z) (choice : nat) (p : P)
  (c : Collector) : result (failure Error) unit * (P * Collector) :=
  match in_flight c !! choice with
  | None => (Err Diverges, (p, c))
  | Some job =>
      let flying := delete choice (in_flight c) in
      match (let? r := run_job meta job in finish_block_result r) with
      | Err e => (Err e, (p, c))
      | Ok (job, leaf) =>
          let pending := <[job_sequence job := (job, leaf)]> (pending c) in
          let '(out, (pending, next_sequence, s)) :=
            release_pending (size pending) pending (next_sequence c) (sink c) in
          let received := received c + 1 in
          match out with
          | Err e => (Err e, (p, mkCollector (waiting c) flying pending next_sequence received s))
          | Ok _ =>
              let '(continue, p) := progress p (mkProgress received total_roots) in
              if negb continue
              then (cancelled, (p, mkCollector (waiting c) flying pending next_sequence received s))
              else
                let '(waiting, flying) :=
                  dispatch_more max_outstanding (Z.of_nat (size pending)) (waiting c) flying in
                (Ok tt, (p, mkCollector waiting flying pending next_sequence received s))
          end
      end
  end.

(** The schedule gives a choice per turn; the fuel bounds the turns.
    [crates/signal_capture/src/waveform_index/builder.rs:269-353] IndexBuilder::build_parallel_streaming *)
Fixpoint collect_loop (fuel : nat) (meta : CaptureMetadata) (total_roots max_outstanding : Z) (schedule : nat -> nat)
  (p : P) (c : Collector) : result (failure Error) unit * (P * Collector) :=
  match in_flight c with
  | [] => (Ok tt, (p, c))
  | _ =>
      match fuel with
      | O => (Err Diverges, (p, c))
      | S fuel =>
          let choice := (schedule fuel mod length (in_flight c))%nat in
          match receive_result meta total_roots max_outstanding choice p c with
          | (Err e, s) => (Err e, s)
          | (Ok _, (p, c)) => collect_loop fuel meta total_roots max_outstanding schedule p c
          end
      end
  end.

(** [crates/signal_capture/src/waveform_index/builder.rs:147-377] IndexBuilder::build_parallel_streaming *)
Definition build_parallel_streaming (meta : CaptureMetadata) (available_parallelism : Z) (schedule : nat -> nat)
  (jobs : list BuildJob) (p : P) (ws : IndexWriter * R) : result (failure Error) unit * (P * R) :=
  let total_jobs := zlen jobs in
  if total_jobs =? 0 then let '(out, r) := finish hash ws in (out, (p, r))
  else
    let worker_count := index_worker_count available_parallelism total_jobs in
    if worker_count =? 1 then build_sequential_streaming meta jobs p ws
    else
      let previous_last := replicate (Z.to_nat (total_probes meta)) None in
      let c := dispatch_initial worker_count jobs (previous_last, ws) in
      let '(out, (p, c)) :=
        collect_loop (length jobs) meta total_jobs (saturating_mul64 worker_count 2) schedule p c in
      let ws := snd (sink c) in
      match out with
      | Err e => (Err e, (p, snd ws))
      | Ok _ =>
          if negb (received c =? total_jobs)
          then (parse_error "waveform index build did not complete", (p, snd ws))
          else let '(out, r) := finish hash ws in (out, (p, r))
      end.

(** [crates/signal_capture/src/waveform_index/builder.rs:76-139] IndexBuilder::build *)
Definition build (identity : list Z) (meta : CaptureMetadata) (source_revision available_parallelism : Z)
  (schedule : nat -> nat) (p : P) (r : R) : result (failure Error) unit * (P * R) :=
  match checked_mul64 (total_probes meta) (total_blocks meta) with
  | None => (parse_error "capture-index job count overflow", (p, r))
  | Some job_count =>
      let jobs := build_jobs (total_probes meta) (total_blocks meta) in
      let '(continue, p) := progress p (mkProgress 0 job_count) in
      if negb continue then (cancelled, (p, r))
      else
        match create identity meta source_revision with
        | Err e => (Err e, (p, r))
        | Ok w => build_parallel_streaming meta available_parallelism schedule jobs p (w, r)
        end
  end.

(** ** The incremental build *)

(** The writer is there until the index is published; [task_ready] is an index found complete.
    [crates/signal_capture/src/waveform_index/reader.rs:1091-1108] IncrementalIndexSamplerTask *)
Record IncrementalTask := mkTask {
  task_previous : list (option bool);
  task_writer : option IndexWriter;
  task_repository : R;
  task_channel : Z;
  task_block : Z;
  task_completed : Z;
  task_total : Z;
  task_ready : bool
}.

(** What a step reports: progress, or that the index is complete and can be opened. *)
Inductive OpenStep := Progress (completed total : Z) | Complete.

(** [crates/signal_capture/src/waveform_index/reader.rs:1114-1181] IncrementalIndexSamplerTask::new *)
Definition task_new (identity : list Z) (meta : CaptureMetadata) (source_revision : Z) (r : R)
  : result (failure Error) IncrementalTask :=
  match checked_mul64 (total_probes meta) (total_blocks meta) with
  | None => parse_error "capture-index job count overflow"
  | Some total =>
      if is_valid hash r identity meta source_revision then Ok (mkTask [] None r 0 0 total total true)
      else
        let? w := create identity meta source_revision in
        Ok (mkTask (replicate (Z.to_nat (total_probes meta)) None) (Some w) r 0 0 0 total false)
  end.

(** [crates/signal_capture/src/waveform_index/reader.rs:1183-1208] IncrementalIndexSamplerTask::finish *)
Definition task_finish (t : IncrementalTask) : result (failure Error) OpenStep * IncrementalTask :=
  match task_writer t with
  | None => (parse_error "capture-index writer is unavailable", t)
  | Some w =>
      let '(out, r) := finish hash (w, task_repository t) in
      ((let? _ := out in Ok Complete),
       mkTask (task_previous t) None r (task_channel t) (task_block t) (task_completed t) (task_total t) false)
  end.

(** The samples that a step takes from a block.
    [crates/signal_capture/src/waveform_index/reader.rs:1232-1236] IncrementalIndexSamplerTask::step *)
Definition step_valid_samples (meta : CaptureMetadata) (block : Z) (data : list Z) : Z :=
  let block_start := saturating_mul64 block (samples_per_block meta) in
  Z.min (saturating_mul64 (zlen data) 8) (saturating_sub64 (total_samples meta) block_start).

(** [crates/signal_capture/src/waveform_index/reader.rs:1219-1258] IncrementalIndexSamplerTask::step *)
Definition step (meta : CaptureMetadata) (t : IncrementalTask) : result (failure Error) OpenStep * IncrementalTask :=
  if task_ready t then
    (Ok Complete, mkTask (task_previous t) (task_writer t) (task_repository t) (task_channel t) (task_block t)
                    (task_completed t) (task_total t) false)
  else if task_total t <=? task_completed t then task_finish t
  else
    match (let? data := read_packed_block (task_channel t) (task_block t) in
           let? leaf := build_leaf data (step_valid_samples meta (task_block t) data) in
           enter_leaf (task_channel t) leaf (task_previous t)) with
    | Err e => (Err e, t)
    | Ok (leaf, previous) =>
        match task_writer t with
        | None =>
            (parse_error "capture-index writer is unavailable",
             mkTask previous None (task_repository t) (task_channel t) (task_block t) (task_completed t) (task_total t) false)
        | Some w =>
            match write_block hash (task_channel t) (task_block t) leaf (w, task_repository t) with
            | (Err e, (w, r)) =>
                (Err e, mkTask previous (Some w) r (task_channel t) (task_block t) (task_completed t) (task_total t) false)
            | (Ok _, (w, r)) =>
                let completed := saturating_add64 (task_completed t) 1 in
                let block := saturating_add64 (task_block t) 1 in
                let '(channel, block) :=
                  if total_blocks meta <=? block then (task_channel t + 1, 0) else (task_channel t, block) in
                (Ok (Progress completed (task_total t)),
                 mkTask previous (Some w) r channel block completed (task_total t) false)
            end
        end
    end.

(** The host calls the task until it is complete, at most [fuel] times. *)
Fixpoint run_task (fuel : nat) (meta : CaptureMetadata) (t : IncrementalTask)
  : result (failure Error) unit * IncrementalTask :=
  match fuel with
  | O => (Err Diverges, t)
  | S fuel =>
      match step meta t with
      | (Err e, t) => (Err e, t)
      | (Ok Complete, t) => (Ok tt, t)
      | (Ok (Progress _ _), t) => run_task fuel meta t
      end
  end.
End Build.
