(* ===== verification/CaptureBuildProofs.v ===== *)
(** Every way to build the waveform index of a capture publishes the same leaves, exact over the
    samples of their blocks. *)

From stdpp Require Import gmap.
From S2P Require Import Prelude CaptureBits CaptureKernel CaptureLeaf CaptureCache.
From S2P Require Import CaptureStorage CaptureStorageProofs CaptureBuild.

#[local] Open Scope Z_scope.

Lemma mul64_small a b : u64 (a * b) -> mul64 a b = a * b.
Proof. apply Z.mod_small. Qed.

Lemma saturating_mul64_small a b : u64 (a * b) -> saturating_mul64 a b = a * b.
Proof. intros. unfold saturating_mul64. ints. Qed.

(** ** Captures *)

Section Capture.
Context (meta : CaptureMetadata) (data : Z -> Z -> list Z).

Local Abbreviation channels := (total_probes meta).
Local Abbreviation blocks := (total_blocks meta).
Local Abbreviation spb := (samples_per_block meta).

(** The samples of a block. *)
Definition block_samples (bl : Z) : Z := Z.min (total_samples meta - bl * spb) spb.

(** Sample [i] of a channel. *)
Definition level_at (ch i : Z) : bool := packed_bit (data ch (i / spb)) (i mod spb).

(** The blocks hold the samples of the capture; all but the last of a channel are full. *)
Definition capture_ok : Prop :=
  0 < spb <= MAX_LEAF_SAMPLES /\ u64 (total_samples meta) /\ 0 <= channels /\
  blocks = div_ceil (total_samples meta) spb /\
  forall ch bl, 0 <= ch < channels -> 0 <= bl < blocks ->
    bytes_ok (data ch bl) /\ u64 (8 * zlen (data ch bl)) /\
    Z.min (8 * zlen (data ch bl)) (total_samples meta - bl * spb) = block_samples bl.

Context (Hcap : capture_ok).

Lemma block_range bl : 0 <= bl < blocks -> 0 <= bl * spb < total_samples meta.
Proof.
  intros Hb. destruct Hcap as (Hs & Ht & _ & Hbl & _). rewrite Hbl in Hb.
  pose proof (proj1 (div_ceil_lt (total_samples meta) spb bl ltac:(lia)) ltac:(lia)). nia.
Qed.

Lemma block_samples_range bl : 0 <= bl < blocks -> 0 < block_samples bl <= MAX_LEAF_SAMPLES.
Proof. intros Hb. pose proof (block_range bl Hb). destruct Hcap as (Hs & _). unfold block_samples. lia. Qed.

Lemma full_block bl : 0 <= bl -> bl + 1 < blocks -> block_samples bl = spb.
Proof.
  intros H0 Hb. pose proof (block_range (bl + 1) ltac:(lia)). unfold block_samples. lia.
Qed.

Lemma sample_local ch bl j : 0 <= j < spb -> level_at ch (bl * spb + j) = packed_bit (data ch bl) j.
Proof.
  intros Hj. unfold level_at. rewrite Z.add_comm, Z.div_add, Z.mod_add, Z.div_small, Z.mod_small by lia.
  by rewrite Z.add_0_l.
Qed.

(** The level before the first sample of a block; before the first block it is that of sample zero. *)
Definition entering (ch bl : Z) : bool := if bl =? 0 then level_at ch 0 else level_at ch (bl * spb - 1).

(** The last level of the block before. *)
Definition previous_of (ch bl : Z) : option bool := if bl =? 0 then None else Some (level_at ch (bl * spb - 1)).

Lemma build_block_of ch bl : 0 <= ch < channels -> 0 <= bl < blocks ->
  exists leaf, build_leaf (data ch bl) (block_samples bl) = Ok leaf /\
    leaf_exact (packed_bit (data ch bl)) (block_samples bl) (packed_bit (data ch bl) 0) leaf.
Proof.
  intros Hc Hb. pose proof (block_samples_range bl Hb). destruct Hcap as (_ & _ & _ & _ & Hd).
  destruct (Hd ch bl Hc Hb) as (Hok & Hu & Hmin).
  apply build_leaf_exact; [done|lia|lia|done].
Qed.

(** The leaf of a block before and after it is entered. *)
Definition raw_leaf (ch bl : Z) : BlockIndex :=
  match build_leaf (data ch bl) (block_samples bl) with Ok leaf => leaf | Err _ => mkLeaf 0 false false None end.

Definition leaf_of (ch bl : Z) : BlockIndex :=
  match apply_boundary_transition (raw_leaf ch bl) (previous_of ch bl) with
  | Ok leaf => leaf
  | Err _ => raw_leaf ch bl
  end.

Lemma raw_leaf_ok ch bl : 0 <= ch < channels -> 0 <= bl < blocks ->
  build_leaf (data ch bl) (block_samples bl) = Ok (raw_leaf ch bl) /\
  leaf_exact (packed_bit (data ch bl)) (block_samples bl) (packed_bit (data ch bl) 0) (raw_leaf ch bl).
Proof. intros Hc Hb. unfold raw_leaf. by destruct (build_block_of ch bl Hc Hb) as (leaf & -> & Hl). Qed.

Lemma leaf_of_ok ch bl : 0 <= ch < channels -> 0 <= bl < blocks ->
  apply_boundary_transition (raw_leaf ch bl) (previous_of ch bl) = Ok (leaf_of ch bl) /\
  leaf_exact (packed_bit (data ch bl)) (block_samples bl) (entering ch bl) (leaf_of ch bl).
Proof.
  intros Hc Hb. destruct (raw_leaf_ok ch bl Hc Hb) as [_ Hraw]. pose proof (block_samples_range bl Hb) as Hn.
  destruct (fun H => apply_boundary_exact _ (block_samples bl) (previous_of ch bl) _ H Hraw) as (leaf & Ha & Hl); [lia|].
  unfold leaf_of. rewrite Ha. split; [done|].
  replace (entering ch bl) with (entering_level (packed_bit (data ch bl)) (previous_of ch bl)); [done|].
  unfold entering, entering_level, previous_of. destruct (Z.eqb_spec bl 0) as [->|]; [|done]. cbn [default from_option].
  destruct Hcap as ((Hs & _) & _). symmetry. apply (sample_local ch 0 0). lia.
Qed.

(** The last level of a block is what the next block is entered with. *)
Lemma leaf_of_last ch bl : 0 <= ch < channels -> 0 <= bl < blocks ->
  last (leaf_of ch bl) = level_at ch (bl * spb + block_samples bl - 1).
Proof.
  intros Hc Hb. pose proof (block_samples_range bl Hb). destruct (leaf_of_ok ch bl Hc Hb) as [_ (_ & _ & -> & _)].
  rewrite (proj2 (Z.eqb_neq _ _)) by lia. cbn [negb andb].
  replace (bl * spb + block_samples bl - 1) with (bl * spb + (block_samples bl - 1)) by lia.
  symmetry. apply sample_local. unfold block_samples in *. lia.
Qed.

(** ** The jobs *)

Definition job_at (m : Z) : BuildJob := mkJob m (m / blocks) (m mod blocks).

Lemma build_jobs_at : 0 <= blocks -> 0 <= channels -> build_jobs channels blocks = map job_at (seqZ 0 (channels * blocks)).
Proof.
  intros Hb Hc. unfold build_jobs, job_at. destruct (Z.eq_dec blocks 0) as [H0|H0].
  { rewrite H0, Z.mul_0_r. cbn [map]. change (seqZ 0 0) with (@nil Z). cbn [map].
    induction (seqZ 0 channels) as [|x l IH]; [done|]. cbn. exact IH. }
  revert Hc. generalize channels as c. apply natlike_ind; [done|]. intros c Hc IH.
  unfold Z.succ. rewrite (seqZ_app 0 c 1), map_app, concat_app, IH by lia.
  rewrite Z.mul_add_distr_r, Z.mul_1_l, (seqZ_app 0 (c * blocks) blocks), map_app by nia. f_equal.
  change (seqZ (0 + c) 1) with [0 + c]. cbn [map concat]. rewrite app_nil_r, !Z.add_0_l.
  apply list_eq. intros i. destruct (decide (Z.of_nat i < blocks)) as [Hi|Hi].
  - rewrite !list_lookup_fmap, !lookup_seqZ_lt by lia. cbn. do 2 f_equal.
    + apply Z.div_unique with (Z.of_nat i); lia.
    + apply Z.mod_unique with c; lia.
  - by rewrite !list_lookup_fmap, !lookup_seqZ_ge by lia.
Qed.

Lemma job_at_index ch bl : 0 <= bl < blocks -> job_at (ch * blocks + bl) = mkJob (ch * blocks + bl) ch bl.
Proof.
  intros Hb. unfold job_at. f_equal.
  - symmetry. apply Z.div_unique with bl; lia.
  - symmetry. apply Z.mod_unique with ch; lia.
Qed.

Lemma job_index m : 0 <= m < channels * blocks ->
  0 <= m / blocks < channels /\ 0 <= m mod blocks < blocks /\ m / blocks * blocks + m mod blocks = m.
Proof.
  intros Hm. assert (0 < blocks).
  { destruct Hcap as (Hs & Ht & Hc & Hb & _). pose proof (div_ceil_nonneg (total_samples meta) spb ltac:(lia)).
    unfold u64 in Ht. nia. }
  pose proof (Z.div_mod m blocks). pose proof (Z.mod_pos_bound m blocks).
  split; [|lia]. split; [apply Z.div_pos; lia|apply Z.div_lt_upper_bound; lia].
Qed.

(** All leaves, channel by channel. *)
Definition leaves : list BlockIndex :=
  map (fun m => leaf_of (m / blocks) (m mod blocks)) (seqZ 0 (channels * blocks)).

Lemma zlen_leaves : 0 <= channels * blocks -> zlen leaves = channels * blocks.
Proof. intros. unfold leaves, zlen. rewrite length_map, length_seqZ. lia. Qed.

Lemma leaves_at m : 0 <= m < channels * blocks ->
  leaves !! Z.to_nat m = Some (leaf_of (m / blocks) (m mod blocks)).
Proof.
  intros Hm. unfold leaves. rewrite list_lookup_fmap, lookup_seqZ_lt by lia. cbn. rewrite Z2Nat.id by lia. done.
Qed.

Lemma leaves_byte_at ch bl : 0 <= ch < channels -> 0 <= bl < blocks ->
  byte_at leaves (ch * blocks + bl) = Some (leaf_of ch bl).
Proof.
  intros Hc Hb. unfold byte_at. rewrite (proj2 (Z.ltb_ge _ _)) by nia. rewrite leaves_at by nia.
  pose proof (job_at_index ch bl Hb) as Hj. unfold job_at in Hj. injection Hj as -> ->. done.
Qed.

(** ** One leaf *)

Section Leaves.
Context (read_packed_block : Z -> Z -> result (failure Error) (list Z)).
Context (Hread : forall ch bl, 0 <= ch < channels -> 0 <= bl < blocks -> read_packed_block ch bl = Ok (data ch bl)).
Context (identity : list Z) (source_revision : Z) (Hmeta : metadata_ok meta source_revision).
Context (hash : list Z -> list Z) (Hinj : Inj (=) (=) hash) {R : Type} `{RepositoryLaws R} (r0 : R).

Lemma blocks_bound : 0 <= channels /\ 0 <= blocks /\ channels * blocks <= u64_max.
Proof. destruct Hmeta as (? & ? & Hs & _). unfold HEADER_SIZE, DIR_ENTRY_SIZE in Hs. lia. Qed.

Lemma block_valid_samples_ok ch bl : 0 <= ch < channels -> 0 <= bl < blocks ->
  block_valid_samples meta bl (data ch bl) = block_samples bl /\
  step_valid_samples meta bl (data ch bl) = block_samples bl.
Proof.
  intros Hc Hb. pose proof (block_range bl Hb) as Hr. destruct Hcap as (_ & Ht & _ & _ & Hd).
  destruct (Hd ch bl Hc Hb) as (_ & Hu & Hmin). rewrite (Z.mul_comm 8) in Hu, Hmin.
  assert (Hb64 : u64 (bl * spb)) by (clear - Hr Ht; ints).
  unfold block_valid_samples, step_valid_samples. cbv zeta.
  rewrite !mul64_small, !saturating_mul64_small, saturating_sub64_small by (done || lia).
  split; exact Hmin.
Qed.

(** The kernel copies the coordinates of a block into its result. *)
Lemma kernel_coordinates sequence channel block n packed :
  build_capture_index_block_from_packed sequence channel block n packed =
    match build_capture_index_block_from_packed 0 0 0 n packed with
    | Ok r => Ok (mkResult sequence channel block (res_valid_samples r) (res_first r) (res_last r) (res_levels r))
    | Err e => Err e
    end.
Proof.
  unfold build_capture_index_block_from_packed. cbv zeta. destruct (_ <? n); [done|].
  destruct (u32_max <? n); [done|]. destruct (n =? 0); [done|]. by destruct (build_levels _ _ _).
Qed.

Lemma run_job_ok m : 0 <= m < channels * blocks ->
  (let? r := run_job read_packed_block meta (job_at m) in finish_block_result r) =
    Ok (job_at m, raw_leaf (m / blocks) (m mod blocks)).
Proof.
  intros Hm. destruct (job_index m Hm) as (Hc & Hb & _). unfold run_job, read_block_request, build_block_request.
  cbn [job_at job_sequence job_channel job_block]. rewrite Hread by done.
  cbn [req_sequence req_channel req_block req_valid_samples packed_samples].
  rewrite (proj1 (block_valid_samples_ok _ _ Hc Hb)), kernel_coordinates.
  destruct (raw_leaf_ok (m / blocks) (m mod blocks) Hc Hb) as [Hraw _]. unfold build_leaf in Hraw.
  destruct (build_capture_index_block_from_packed 0 0 0 _ _) as [r|[]]; cbn [kernel_error] in *; try done.
  unfold finish_block_result in *. cbn [res_levels res_sequence res_channel res_block res_valid_samples res_first res_last].
  destruct (match res_levels r with None => _ | Some _ => _ end) as [lvl|e]; [|done].
  injection Hraw as <-. done.
Qed.

(** The level that a channel's next block is entered with when [m] blocks are done and the channel
    has a block left. *)
Definition level_after (m c : Z) : option bool :=
  if m <=? c * blocks then None else previous_of c (m - c * blocks).

Definition previous_ok (m : Z) (previous_last : list (option bool)) : Prop :=
  zlen previous_last = channels /\
  forall c, 0 <= c < channels -> m < (c + 1) * blocks -> byte_at previous_last c = Some (level_after m c).

Lemma previous_ok_start : previous_ok 0 (replicate (Z.to_nat channels) None).
Proof.
  pose proof blocks_bound. split; [unfold zlen; rewrite length_replicate; lia|]. intros c Hc _.
  rewrite byte_at_replicate by lia. unfold level_after. by rewrite (proj2 (Z.leb_le _ _)) by nia.
Qed.

Lemma enter_leaf_ok m previous_last : 0 <= m < channels * blocks -> previous_ok m previous_last ->
  exists previous_last',
    enter_leaf (m / blocks) (raw_leaf (m / blocks) (m mod blocks)) previous_last =
      Ok (leaf_of (m / blocks) (m mod blocks), previous_last') /\
    previous_ok (m + 1) previous_last'.
Proof.
  intros Hm [Hl Hp]. destruct (job_index m Hm) as (Hc & Hb & Hsum).
  set (ch := m / blocks) in *. set (bl := m mod blocks) in *. unfold enter_leaf. rewrite Hp by (done || lia). cbn [ok_or].
  assert (Hlev : level_after m ch = previous_of ch bl).
  { unfold level_after. destruct (Z.leb_spec m (ch * blocks)).
    - unfold previous_of. by rewrite (proj2 (Z.eqb_eq bl 0)) by lia.
    - f_equal. lia. }
  rewrite Hlev. destruct (leaf_of_ok ch bl Hc Hb) as [-> _]. eexists. split; [done|].
  split; [unfold zlen in *; by rewrite length_insert|]. intros c Hcc Hm1. rewrite byte_at_insert by lia.
  unfold level_after. destruct (Z.eqb_spec ch c) as [<-|Hne].
  - rewrite (proj2 (Z.leb_gt _ _)) by lia.
    replace (m + 1 - ch * blocks) with (bl + 1) by lia.
    unfold previous_of. rewrite (proj2 (Z.eqb_neq _ _)) by lia. do 2 f_equal. rewrite leaf_of_last by done.
    rewrite full_block by lia. f_equal. lia.
  - assert (Hlt : ch < c) by nia. assert (ch * blocks + blocks <= c * blocks) by nia.
    rewrite Hp by (done || lia). unfold level_after. by rewrite !(proj2 (Z.leb_le _ _)) by lia.
Qed.

(** ** Leaves in order *)

Definition sink_ok (m : Z) (s : Sink) : Prop :=
  previous_ok m (fst s) /\
  writer_ok hash identity (root_header meta source_revision) channels blocks r0 (take (Z.to_nat m) leaves) (snd s).

Lemma take_leaves m : 0 <= m < channels * blocks ->
  take (Z.to_nat (m + 1)) leaves = take (Z.to_nat m) leaves ++ [leaf_of (m / blocks) (m mod blocks)] /\
  zlen (take (Z.to_nat m) leaves) = m.
Proof.
  intros Hm. pose proof (zlen_leaves ltac:(lia)) as Hz. split.
  - replace (Z.to_nat (m + 1)) with (S (Z.to_nat m)) by lia. apply take_S_r. by apply leaves_at.
  - unfold zlen in *. rewrite length_take. lia.
Qed.

Lemma write_leaf_ok m s sequence : 0 <= m < channels * blocks -> sink_ok m s ->
  exists s', write_leaf hash (mkJob sequence (m / blocks) (m mod blocks)) (raw_leaf (m / blocks) (m mod blocks)) s = (Ok tt, s') /\
    sink_ok (m + 1) s'.
Proof.
  intros Hm [Hp Hw]. destruct s as [previous ws]. cbn [fst snd] in *. unfold write_leaf.
  cbn [job_channel job_block]. destruct (enter_leaf_ok m previous Hm Hp) as (previous' & -> & Hp').
  destruct (take_leaves m Hm) as [Htake Hz]. destruct (job_index m Hm) as (Hc & Hb & Hsum).
  destruct blocks_bound as (Hc0 & Hb0 & Ht).
  destruct (write_block_ok hash Hinj identity _ channels blocks r0 Hc0 Hb0 Ht _ (m / blocks) (m mod blocks)
    (leaf_of (m / blocks) (m mod blocks)) ws Hw Hc Hb) as (ws' & -> & Hw'); [lia|].
  eexists. split; [done|]. split; [done|]. cbn [snd]. by rewrite Htake.
Qed.

Lemma create_sink : exists w, create identity meta source_revision = Ok w /\
  forall previous, previous_ok 0 previous -> sink_ok 0 (previous, (w, r0)).
Proof.
  destruct blocks_bound as (Hc0 & Hb0 & Ht). pose proof Hmeta as (_ & _ & Hsize & _).
  destruct (create_ok hash identity (root_header meta source_revision) channels blocks r0 Hc0 Hb0 Ht meta
    source_revision) as (w & Hw & Hok); [done..|]. exists w. split; [done|]. intros previous Hp. by split.
Qed.

Definition index_published (r : R) : Prop :=
  is_published hash identity meta source_revision leaves r0 r.

Lemma finish_sink s : sink_ok (channels * blocks) s ->
  exists r, finish hash (snd s) = (Ok tt, r) /\ index_published r.
Proof.
  intros [_ Hw]. destruct blocks_bound as (Hc0 & Hb0 & Ht).
  pose proof (zlen_leaves ltac:(lia)) as Hz. rewrite take_ge in Hw by (unfold zlen in Hz; lia).
  by apply (finish_ok hash Hinj identity _ channels blocks r0 Ht leaves).
Qed.

(** ** The sequential build *)

Context {P : Type} (progress : P -> CaptureIndexProgress -> bool * P).
Context (Hprogress : forall p x, fst (progress p x) = true).

Lemma progress_continues p x : exists p', progress p x = (true, p').
Proof. specialize (Hprogress p x). destruct (progress p x) as [b p']. exists p'. by rewrite <- Hprogress. Qed.

Lemma sequential_loop_ok total completed count m p s :
  0 <= m -> m + Z.of_nat count = channels * blocks -> sink_ok m s ->
  exists p' s', sequential_loop read_packed_block hash progress meta total completed
    (map job_at (seqZ m (Z.of_nat count))) p s = (Ok tt, (p', s')) /\ sink_ok (channels * blocks) s'.
Proof.
  revert completed m p s. induction count as [|count IH]; intros completed m p s Hm Hc Hs.
  - exists p, s. split; [done|]. by replace (channels * blocks) with m by lia.
  - rewrite seqZ_cons by lia. cbn [map sequential_loop]. rewrite run_job_ok by lia.
    destruct (write_leaf_ok m s m ltac:(lia) Hs) as (s' & Hw & Hs').
    unfold job_at. rewrite Hw. destruct (progress_continues p (mkProgress (completed + 1) total)) as [p' ->].
    cbn [negb]. replace (Z.pred (Z.of_nat (S count))) with (Z.of_nat count) by lia.
    apply IH; [lia|lia|done].
Qed.

Lemma build_jobs_length : zlen (build_jobs channels blocks) = channels * blocks.
Proof.
  destruct blocks_bound as (Hc0 & Hb0 & Ht). rewrite build_jobs_at by done.
  unfold zlen. rewrite length_map, length_seqZ. nia.
Qed.

Lemma build_sequential_ok p w : (forall previous, previous_ok 0 previous -> sink_ok 0 (previous, (w, r0))) ->
  exists p' r, build_sequential_streaming read_packed_block hash progress meta (build_jobs channels blocks) p (w, r0) =
    (Ok tt, (p', r)) /\ index_published r.
Proof.
  intros Hw. destruct blocks_bound as (Hc0 & Hb0 & Ht). unfold build_sequential_streaming.
  rewrite build_jobs_length, build_jobs_at by done.
  destruct (sequential_loop_ok (channels * blocks) 0 (Z.to_nat (channels * blocks)) 0 p
    (replicate (Z.to_nat channels) None, (w, r0))) as (p' & [previous ws] & Hl & Hs); [lia|lia| |].
  { apply Hw, previous_ok_start. }
  rewrite Z2Nat.id in Hl by lia. rewrite Hl. destruct (finish_sink _ Hs) as (r & Hf & Hr). cbn [snd] in Hf.
  rewrite Hf. by exists p', r.
Qed.

(** ** The incremental build *)

(** The task after [m] blocks. *)
Definition task_at (m : Z) (t : IncrementalTask) : Prop :=
  task_ready t = false /\ task_total t = channels * blocks /\ task_completed t = m /\
  (m < channels * blocks -> task_channel t = m / blocks /\ task_block t = m mod blocks) /\
  exists w, task_writer t = Some w /\ sink_ok m (task_previous t, (w, task_repository t)).

Lemma next_block_index m : 0 <= m -> m + 1 < channels * blocks ->
  if blocks <=? m mod blocks + 1 then (m + 1) / blocks = m / blocks + 1 /\ (m + 1) mod blocks = 0
  else (m + 1) / blocks = m / blocks /\ (m + 1) mod blocks = m mod blocks + 1.
Proof.
  intros Hm Hm1. destruct (job_index m ltac:(lia)) as (_ & Hb & Hsum).
  destruct (Z.leb_spec blocks (m mod blocks + 1)).
  - split; symmetry; [apply Z.div_unique with 0|apply Z.mod_unique with (m / blocks + 1)]; lia.
  - split; symmetry; [apply Z.div_unique with (m mod blocks + 1)|apply Z.mod_unique with (m / blocks)]; lia.
Qed.

Lemma step_ok m t : 0 <= m < channels * blocks -> task_at m t ->
  exists t', step read_packed_block hash meta t = (Ok (Progress (m + 1) (channels * blocks)), t') /\ task_at (m + 1) t'.
Proof.
  intros Hm (Hr & Ht & Hc & Hpos & w & Hw & Hs). destruct (Hpos ltac:(lia)) as [Hch Hbl].
  destruct (job_index m Hm) as (Hcr & Hbr & Hsum). destruct blocks_bound as (Hc0 & Hb0 & Htot).
  unfold step. rewrite Hr, Ht, Hc, Hch, Hbl, Hw. rewrite (proj2 (Z.leb_gt _ _)) by lia.
  rewrite Hread by done. rewrite (proj2 (block_valid_samples_ok _ _ Hcr Hbr)).
  rewrite (proj1 (raw_leaf_ok _ _ Hcr Hbr)).
  destruct (write_leaf_ok m _ 0 Hm Hs) as ([previous' [w' r']] & Hwl & Hs'). unfold write_leaf in Hwl.
  cbn [job_channel job_block] in Hwl.
  destruct (enter_leaf (m / blocks) (raw_leaf (m / blocks) (m mod blocks)) (task_previous t)) as [[leaf previous]|e]; [|done].
  destruct (write_block hash (m / blocks) (m mod blocks) leaf (w, task_repository t)) as [out [w'' r'']] eqn:Hwb.
  injection Hwl as -> -> -> ->.
  rewrite !saturating_add64_small by ints.
  pose proof (next_block_index m ltac:(lia)) as Hnext.
  destruct (blocks <=? m mod blocks + 1); (eexists; split; [done|]); (split; [done|]); (split; [done|]);
    (split; [done|]); (split; [cbn; intros; destruct Hnext; [done|split; congruence]|exists w'; done]).
Qed.

Lemma run_task_ok count m t : 0 <= m -> m + Z.of_nat count = channels * blocks -> task_at m t ->
  exists t', run_task read_packed_block hash (S count) meta t = (Ok tt, t') /\ index_published (task_repository t').
Proof.
  revert m t. induction count as [|count IH]; intros m t Hm Hc Ht.
  - destruct Ht as (Hr & Htot & Hcomp & _ & w & Hw & Hs). cbn [run_task]. unfold step.
    rewrite Hr, Htot, Hcomp, (proj2 (Z.leb_le _ _)) by lia. unfold task_finish. rewrite Hw.
    replace m with (channels * blocks) in Hs by lia. destruct (finish_sink _ Hs) as (r & Hf & Hpub).
    cbn [snd] in Hf. rewrite Hf. eexists. split; [done|]. done.
  - destruct (step_ok m t ltac:(lia) Ht) as (t' & Hst & Ht'). change (run_task read_packed_block hash (S (S count)) meta t)
      with (match step read_packed_block hash meta t with
            | (Err e, t) => (Err e, t)
            | (Ok Complete, t) => (Ok tt, t)
            | (Ok (Progress _ _), t) => run_task read_packed_block hash (S count) meta t
            end). rewrite Hst. apply (IH (m + 1)); [lia|lia|done].
Qed.

(** ** The parallel build *)

(** The leaf that job [k] yields. *)
Definition job_leaf (k : Z) : BuildJob * BlockIndex := (job_at k, raw_leaf (k / blocks) (k mod blocks)).

(** Of the jobs [next..d], those in [flying] are with the workers and the others are pending. *)
Definition pending_ok (d next : Z) (flying : list Z) (pending : gmap Z (BuildJob * BlockIndex)) : Prop :=
  (forall k v, pending !! k = Some v -> next <= k < d /\ (k ∉ flying) /\ v = job_leaf k) /\
  (forall k, next <= k < d -> k ∉ flying -> is_Some (pending !! k)) /\
  NoDup flying /\ (forall k, k ∈ flying -> next <= k < d) /\
  Z.of_nat (size pending) + zlen flying = d - next.

Lemma release_pending_ok fuel d next flying pending s :
  0 <= next -> d <= channels * blocks -> pending_ok d next flying pending -> sink_ok next s ->
  (size pending <= fuel)%nat ->
  exists pending' next' s', release_pending hash fuel pending next s = (Ok tt, (pending', next', s')) /\
    next <= next' <= d /\ pending_ok d next' flying pending' /\ sink_ok next' s' /\ (next' < d -> next' ∈ flying).
Proof.
  revert next pending s. induction fuel as [|fuel IH]; intros next pending s Hz0 Hd Hp Hs Hfuel;
    pose proof Hp as (Hin & Hall & Hnd & Hrange & Hsize).
  - assert (Hempty : pending = ∅) by (apply map_size_empty_inv; lia). subst pending. cbn [release_pending].
    rewrite lookup_empty. exists ∅, next, s. split; [done|]. rewrite map_size_empty in Hsize.
    pose proof (zlen_nonneg flying). split; [lia|]. split; [done|]. split; [done|].
    intros Hlt. destruct (decide (next ∈ flying)) as [|Hno]; [done|].
    destruct (Hall next ltac:(lia) Hno) as [v Hv]. by rewrite lookup_empty in Hv.
  - cbn [release_pending]. destruct (pending !! next) as [[job leaf]|] eqn:Hn.
    + destruct (Hin _ _ Hn) as (Hr & Hno & Hv). injection Hv as -> ->.
      destruct (write_leaf_ok next s next ltac:(lia) Hs) as (s' & Hw & Hs'). unfold job_at. rewrite Hw.
      rewrite saturating_add64_small by (destruct blocks_bound; lia).
      assert (Hsz : size (delete next pending) = Nat.pred (size pending)) by (apply map_size_delete_Some; by eexists).
      assert (Hpos : size pending <> 0%nat).
      { intros Hz%map_size_empty_inv. by rewrite Hz, lookup_empty in Hn. }
      destruct (IH (next + 1) (delete next pending) s') as (p' & n' & s'' & Hrel & Hn' & Hrest); [lia|done| |done|lia|].
      * split; [|split; [|split; [done|split; [|lia]]]].
        -- intros k v Hk. destruct (decide (k = next)) as [->|Hne]; [by rewrite lookup_delete_eq in Hk|].
           rewrite lookup_delete_ne in Hk by done. destruct (Hin k v Hk) as (? & ? & ?). split_and!; done || lia.
        -- intros k Hk Hkf. rewrite lookup_delete_ne by lia. apply Hall; [lia|done].
        -- intros k Hk. pose proof (Hrange k Hk). destruct (decide (k = next)) as [->|]; [done|lia].
      * exists p', n', s''. split; [done|]. split; [lia|done].
    + exists pending, next, s. split; [done|]. pose proof (zlen_nonneg flying).
      split; [lia|]. split; [done|]. split; [done|]. intros Hlt.
      destruct (decide (next ∈ flying)) as [|Hno]; [done|].
      destruct (Hall next ltac:(lia) Hno) as [v Hv]. congruence.
Qed.

(** The result of a flying job becomes pending. *)
Lemma pending_arrives d next flying pending choice k :
  pending_ok d next flying pending -> flying !! choice = Some k ->
  pending_ok d next (delete choice flying) (<[k := job_leaf k]> pending) /\
  zlen (delete choice flying) = zlen flying - 1.
Proof.
  intros (Hin & Hall & Hnd & Hrange & Hsize) Hk.
  pose proof (delete_Permutation flying choice k Hk) as Hperm.
  assert (Hlen : zlen (delete choice flying) = zlen flying - 1).
  { apply Permutation_length in Hperm. unfold zlen. cbn [length] in Hperm. lia. }
  assert (Hkf : k ∈ flying) by (by eapply list_elem_of_lookup_2).
  pose proof Hnd as Hnd'. rewrite Hperm in Hnd'. apply NoDup_cons in Hnd' as [Hno Hnd'].
  assert (Hmem : forall x, x ∈ flying <-> x = k \/ (x ∈ delete choice flying)).
  { intros x. rewrite Hperm at 1. apply elem_of_cons. }
  assert (Hfresh : pending !! k = None).
  { destruct (pending !! k) as [v|] eqn:Hv; [|done]. by destruct (Hin _ _ Hv) as (_ & ? & _). }
  split; [|done]. split; [|split; [|split; [done|split]]].
  - intros x v Hx. destruct (decide (x = k)) as [->|Hne].
    + rewrite lookup_insert_eq in Hx. injection Hx as <-. split; [by apply Hrange|done].
    + rewrite lookup_insert_ne in Hx by done. destruct (Hin x v Hx) as (? & Hx' & ?). rewrite Hmem in Hx'.
      split; [done|]. split; [tauto|done].
  - intros x Hx Hxf. destruct (decide (x = k)) as [->|Hne]; [rewrite lookup_insert_eq; by eexists|].
    rewrite lookup_insert_ne by done. apply Hall; [done|]. rewrite Hmem. tauto.
  - intros x Hx. apply Hrange. rewrite Hmem. by right.
  - rewrite map_size_insert_None by done. lia.
Qed.

(** More jobs go to the workers, in order. *)
Lemma dispatch_more_ok max_outstanding pending_len count d flying :
  0 <= pending_len -> 0 < max_outstanding <= u64_max -> d + Z.of_nat count = channels * blocks ->
  exists d', d <= d' <= channels * blocks /\
    dispatch_more max_outstanding pending_len (map job_at (seqZ d (Z.of_nat count))) (map job_at flying) =
      (map job_at (seqZ d' (channels * blocks - d')), map job_at (flying ++ seqZ d (d' - d))) /\
    (d' < channels * blocks -> 0 < pending_len + zlen (flying ++ seqZ d (d' - d))).
Proof.
  intros Hp Hmax. revert d flying. induction count as [|count IH]; intros d flying Hd.
  - exists d. split; [lia|]. rewrite !Z.sub_diag, app_nil_r. cbn. replace (channels * blocks - d) with 0 by lia.
    split; [done|lia].
  - rewrite seqZ_cons by lia. cbn [map dispatch_more]. replace (Z.pred (Z.of_nat (S count))) with (Z.of_nat count) by lia.
    assert (Hml : zlen (map job_at flying) = zlen flying) by (unfold zlen; by rewrite length_map). rewrite Hml.
    destruct (Z.ltb_spec (saturating_add64 pending_len (zlen flying)) max_outstanding) as [Hlt|Hge].
    + destruct (IH (d + 1) (flying ++ [d]) ltac:(lia)) as (d' & Hd' & Heq & Hmore). rewrite map_app in Heq.
      unfold Z.succ. cbn [map] in Heq. rewrite Heq. exists d'. split; [lia|].
      assert (Hseq : (flying ++ [d]) ++ seqZ (d + 1) (d' - (d + 1)) = flying ++ seqZ d (d' - d)).
      { rewrite <- app_assoc, (seqZ_cons d (d' - d)) by lia. cbn [app]. do 4 f_equal; lia. }
      rewrite Hseq in *. done.
    + exists d. split; [lia|]. rewrite Z.sub_diag, app_nil_r. split.
      * f_equal. rewrite (seqZ_cons d (channels * blocks - d)) by lia. cbn [map]. do 3 f_equal. lia.
      * intros _. unfold saturating_add64 in Hge. pose proof (zlen_nonneg flying). lia.
Qed.

Lemma pending_dispatched d d' next flying pending :
  next <= d <= d' -> pending_ok d next flying pending ->
  pending_ok d' next (flying ++ seqZ d (d' - d)) pending.
Proof.
  intros Hd (Hin & Hall & Hnd & Hrange & Hsize). split; [|split; [|split; [|split]]].
  - intros k v Hk. destruct (Hin k v Hk) as (? & ? & ?). split; [lia|]. split; [|done].
    rewrite elem_of_app, elem_of_seqZ. intros [?|?]; [done|lia].
  - intros k Hk Hno. rewrite elem_of_app, elem_of_seqZ in Hno. apply Hall; [|tauto].
    destruct (Z.lt_ge_cases k d); [lia|]. destruct Hno. right. lia.
  - apply NoDup_app. split; [done|]. split; [|apply NoDup_seqZ].
    intros k Hk%Hrange. rewrite elem_of_seqZ. lia.
  - intros k. rewrite elem_of_app, elem_of_seqZ. intros [Hk%Hrange|Hk]; lia.
  - rewrite zlen_app. unfold zlen at 2. rewrite length_seqZ. lia.
Qed.

(** The collector when [d] jobs have been given out and [next] leaves are written. *)
Definition collector_ok (d next : Z) (flying : list Z) (c : Collector) : Prop :=
  0 <= next <= d /\ d <= channels * blocks /\
  waiting c = map job_at (seqZ d (channels * blocks - d)) /\ in_flight c = map job_at flying /\
  pending_ok d next flying (pending c) /\ next_sequence c = next /\ received c = d - zlen flying /\
  sink_ok next (sink c) /\ (next < d -> next ∈ flying) /\ (d < channels * blocks -> flying <> []).

Lemma receive_result_ok total max_outstanding choice p d next flying c :
  0 < max_outstanding <= u64_max -> collector_ok d next flying c -> (choice < length flying)%nat ->
  exists p' c' d' next' flying',
    receive_result read_packed_block hash progress meta total max_outstanding choice p c = (Ok tt, (p', c')) /\
    collector_ok d' next' flying' c' /\ received c' = received c + 1.
Proof.
  intros Hmax (Hnd & Hd & Hwait & Hfly & Hp & Hnext & Hrec & Hs & _ & _) Hchoice.
  destruct (lookup_lt_is_Some_2 flying choice Hchoice) as [k Hk]. unfold receive_result.
  rewrite Hfly, list_lookup_fmap, Hk. cbn [fmap option_fmap option_map].
  assert (Hkr : next <= k < d) by (destruct Hp as (_ & _ & _ & Hr & _); apply Hr; by eapply list_elem_of_lookup_2).
  rewrite run_job_ok by lia. cbn [job_at job_sequence]. change (job_at k, ?x) with (job_leaf k).
  destruct (pending_arrives d next flying (pending c) choice k Hp Hk) as [Hp1 Hlen1].
  rewrite Hnext. destruct (release_pending_ok (size (<[k := job_leaf k]> (pending c))) d next (delete choice flying)
    (<[k := job_leaf k]> (pending c)) (sink c)) as (pending' & next' & s' & Hrel & Hn' & Hp' & Hs' & Hin'); [lia|done..|].
  change (mkJob k (k / blocks) (k mod blocks), raw_leaf (k / blocks) (k mod blocks)) with (job_leaf k).
  rewrite Hrel. destruct (progress_continues p (mkProgress (received c + 1) total)) as [p' ->]. cbn [negb].
  rewrite Hwait. assert (Hdel : delete choice (map job_at flying) = map job_at (delete choice flying)).
  { by rewrite !delete_take_drop, map_app, firstn_map, skipn_map. }
  rewrite Hdel. destruct (dispatch_more_ok max_outstanding (Z.of_nat (size pending')) (Z.to_nat (channels * blocks - d)) d
    (delete choice flying)) as (d' & Hd' & Heq & Hmore); [lia|done|lia|].
  rewrite Z2Nat.id in Heq by lia. rewrite Heq.
  eexists p', _, d', next', _. split; [reflexivity|]. split; [|done].
  assert (Hp'' : pending_ok d' next' (delete choice flying ++ seqZ d (d' - d)) pending')
    by (apply pending_dispatched; [lia|done]).
  split; [lia|]. split; [lia|]. split; [done|]. split; [done|]. split; [done|]. split; [done|].
  split; [cbn [received]; rewrite Hrec, zlen_app, Hlen1; unfold zlen at 3; rewrite length_seqZ; lia|].
  split; [done|]. split.
  - intros Hlt. apply elem_of_app. destruct (Z.lt_ge_cases next' d); [left; by apply Hin'|].
    right. apply elem_of_seqZ. lia.
  - intros Hlt Hnil. specialize (Hmore Hlt). rewrite Hnil in Hmore, Hp''. change (zlen []) with 0 in Hmore.
    destruct Hp'' as (Hpin & _ & _ & _ & Hsz). change (zlen []) with 0 in Hsz.
    apply app_eq_nil in Hnil as [Hnil Hseq]. rewrite Hnil in Hin'.
    assert (Hdd : d' = d).
    { destruct (Z.eq_dec d' d) as [|Hne]; [done|]. rewrite seqZ_cons in Hseq by lia. done. }
    destruct (Z.lt_ge_cases next' d) as [Hlt'|]; [|lia]. specialize (Hin' Hlt'). set_solver.
Qed.

Lemma collect_loop_ok total max_outstanding schedule fuel p d next flying c :
  0 < max_outstanding <= u64_max -> collector_ok d next flying c -> channels * blocks - received c <= Z.of_nat fuel ->
  exists p' c', collect_loop read_packed_block hash progress fuel meta total max_outstanding schedule p c = (Ok tt, (p', c')) /\
    received c' = channels * blocks /\ sink_ok (channels * blocks) (sink c').
Proof.
  intros Hmax. revert p d next flying c. induction fuel as [|fuel IH]; intros p d next flying c Hc Hfuel;
    pose proof Hc as (Hnd & Hd & Hwait & Hfly & Hp & Hnext & Hrec & Hs & Hin & Hlive);
    (destruct flying as [|k flying]; [|]); cbn [collect_loop]; rewrite Hfly; cbn [map].
  1, 3: exists p, c; split; [done|]; change (zlen []) with 0 in Hrec;
    assert (d = channels * blocks) by (destruct (Z.eq_dec d (channels * blocks)); [done|]; destruct Hlive; [lia|done]);
    assert (next = d) by (destruct (Z.eq_dec next d); [done|]; specialize (Hin ltac:(lia)); by apply elem_of_nil in Hin);
    (split; [lia|]); replace (channels * blocks) with next by lia; exact Hs.
  - rewrite zlen_cons in Hrec. pose proof (zlen_nonneg flying). lia.
  - change (job_at k :: map job_at flying) with (map job_at (k :: flying)). rewrite length_map.
    destruct (receive_result_ok total max_outstanding (schedule fuel mod length (k :: flying)) p d next (k :: flying) c
      Hmax Hc) as (p' & c' & d' & next' & flying' & -> & Hc' & Hrec').
    { apply Nat.mod_upper_bound. done. }
    apply (IH p' d' next' flying' c' Hc'). lia.
Qed.

Lemma dispatch_initial_ok workers s : 0 < workers <= channels * blocks -> sink_ok 0 s ->
  collector_ok workers 0 (seqZ 0 workers) (dispatch_initial workers (map job_at (seqZ 0 (channels * blocks))) s).
Proof.
  intros Hw Hs. unfold dispatch_initial.
  assert (Hsplit : seqZ 0 (channels * blocks) = seqZ 0 workers ++ seqZ workers (channels * blocks - workers)).
  { replace (channels * blocks) with (workers + (channels * blocks - workers)) at 1 by lia.
    by rewrite (seqZ_app 0 workers (channels * blocks - workers)), Z.add_0_l by lia. }
  assert (Hlen : length (map job_at (seqZ 0 workers)) = Z.to_nat workers) by (by rewrite length_map, length_seqZ).
  split; [lia|]. split; [lia|]. cbn [waiting in_flight pending next_sequence received sink].
  rewrite Hsplit, map_app, drop_app_le, take_app_le, drop_ge, take_ge by lia. rewrite app_nil_l.
  split; [done|]. split; [done|]. split; [|split; [done|]].
  - split; [by intros k v; rewrite lookup_empty|]. split; [|split; [apply NoDup_seqZ|split]].
    + intros k Hk Hno. destruct Hno. by apply elem_of_seqZ.
    + intros k Hk%elem_of_seqZ. lia.
    + rewrite map_size_empty. unfold zlen. rewrite length_seqZ. lia.
  - split; [unfold zlen; rewrite length_seqZ; lia|]. split; [done|]. split; [intros; apply elem_of_seqZ; lia|].
    intros _ Hnil. rewrite seqZ_cons in Hnil by lia. done.
Qed.

Lemma build_parallel_ok parallelism schedule p w :
  (forall previous, previous_ok 0 previous -> sink_ok 0 (previous, (w, r0))) ->
  exists p' r, build_parallel_streaming read_packed_block hash progress meta parallelism schedule
      (build_jobs channels blocks) p (w, r0) = (Ok tt, (p', r)) /\ index_published r.
Proof.
  intros Hw. destruct blocks_bound as (Hc0 & Hb0 & Ht). unfold build_parallel_streaming. rewrite build_jobs_length.
  pose proof (Hw _ previous_ok_start) as Hs0. destruct (Z.eqb_spec (channels * blocks) 0) as [Hz|Hz].
  { rewrite Hz in *. destruct (finish_sink _ ltac:(by rewrite Hz)) as (r & Hf & Hr).
    cbn [snd] in Hf. rewrite Hf. by exists p, r. }
  destruct (Z.eqb_spec (index_worker_count parallelism (channels * blocks)) 1) as [|Hwc]; [by apply build_sequential_ok|].
  set (workers := index_worker_count parallelism (channels * blocks)) in *.
  assert (Hworkers : 0 < workers <= 12 /\ workers <= channels * blocks) by (unfold workers, index_worker_count, MAX_INDEX_WORKERS; nia).
  rewrite build_jobs_at by done.
  pose proof (dispatch_initial_ok workers _ ltac:(lia) Hs0) as Hc.
  destruct (collect_loop_ok (channels * blocks) (saturating_mul64 workers 2) schedule
    (length (map job_at (seqZ 0 (channels * blocks)))) p _ _ _ _ ltac:(unfold saturating_mul64; ints) Hc) as (p' & c' & -> & Hrec & Hs).
  { rewrite length_map, length_seqZ. destruct Hc as (_ & _ & _ & _ & _ & _ & Hrec & _). rewrite Hrec.
    unfold zlen. rewrite length_seqZ. lia. }
  rewrite Hrec, Z.eqb_refl. cbn [negb]. destruct (finish_sink _ Hs) as (r & -> & Hr). by exists p', r.
Qed.

Lemma build_ok parallelism schedule p :
  exists p' r, build read_packed_block hash progress identity meta source_revision parallelism schedule p r0 = (Ok tt, (p', r)) /\
    index_published r.
Proof.
  destruct blocks_bound as (Hc0 & Hb0 & Ht). unfold build, checked_mul64. rewrite (proj2 (Z.leb_le _ _)) by done.
  destruct (progress_continues p (mkProgress 0 (channels * blocks))) as [p' ->]. cbn [negb].
  destruct create_sink as (w & -> & Hw). by apply build_parallel_ok.
Qed.

Lemma task_ok t : is_valid hash r0 identity meta source_revision = false ->
  task_new hash identity meta source_revision r0 = Ok t ->
  exists t', run_task read_packed_block hash (S (Z.to_nat (channels * blocks))) meta t = (Ok tt, t') /\
    index_published (task_repository t').
Proof.
  intros Hv Hn. destruct blocks_bound as (Hc0 & Hb0 & Ht). unfold task_new, checked_mul64 in Hn.
  rewrite (proj2 (Z.leb_le _ _)), Hv in Hn by done. destruct create_sink as (w & Hcr & Hw). rewrite Hcr in Hn.
  injection Hn as <-. apply (run_task_ok _ 0); [lia|lia|]. split; [done|]. split; [done|]. split; [done|]. split.
  - intros Hpos. cbn [task_channel task_block]. rewrite Z.div_0_l, Z.mod_0_l by nia. done.
  - exists w. split; [done|]. apply Hw, previous_ok_start.
Qed.
End Leaves.
End Capture.
