(* ===== verification/CaptureSampler.v ===== *)
(** [crates/signal_capture/src/waveform_index/reader.rs] with [query.rs], [resolution.rs] and
    [exact.rs]: queries of an indexed capture.

    A search descends the levels of the index to a group of sixty-four samples and decides in the
    packed samples; a window is either scanned sample by sample or projected from the summaries.
    The repository is a parameter, as is the source that reads raw blocks.  Texts of errors that
    quote other errors are values. *)

From stdpp Require Import gmap pretty.
From S2P Require Import Prelude RecordedQuery CaptureBits CaptureKernel CaptureLeaf CaptureCache.
From S2P Require Import CaptureStorage CaptureBuild.

#[local] Open Scope Z_scope.

(** Division by a size of blocks. *)
Definition div_blocks {E} (a b : Z) : result (failure E) Z := if b =? 0 then Err Panic else Ok (a / b).

(** ** Searching the levels *)

(** [l2_toggle] bits in order: [Some found] is the return of the caller, [None] the end of the loop.  A
    word has at most sixty-four bits.
    [crates/signal_capture/src/waveform_index/reader.rs:1355-1368] next_indexed_l1_group *)
Fixpoint l2_loop (fuel : nat) (levels : LevelsView) (start end_ l3_first_l2 l2_bits : Z) : option (option Z) :=
  match fuel with
  | O => None
  | S fuel =>
      match nonzero_trailing_bit l2_bits with
      | None => None
      | Some l2_offset =>
          let l2_bits := Z.land l2_bits (l2_bits - 1) in
          let l2 := l3_first_l2 + l2_offset in
          let l2_first_l1 := l2 * 64 in
          let l2_last_l1 := l2_first_l1 + 64 in
          let first_l1 := Z.max (start / SAMPLES_PER_L1_BIT) l2_first_l1 in
          let last_l1 := (end_ - 1) / SAMPLES_PER_L1_BIT in
          let l1_end := Z.min (last_l1 + 1) l2_last_l1 in
          match byte_at (view_l1_toggle levels) l2 with
          | None => Some None
          | Some l1_bits =>
              let l1_bits := Z.land l1_bits (range_mask (first_l1 - l2_first_l1) (l1_end - l2_first_l1)) in
              match nonzero_trailing_bit l1_bits with
              | Some l1_offset => Some (Some (l2_first_l1 + l1_offset))
              | None => l2_loop fuel levels start end_ l3_first_l2 l2_bits
              end
          end
      end
  end.

(** [crates/signal_capture/src/waveform_index/reader.rs:1342-1369] next_indexed_l1_group *)
Fixpoint l3_loop (count : nat) (levels : LevelsView) (start end_ l3 : Z) : option Z :=
  match count with
  | O => None
  | S count =>
      if negb (bit (view_l3_toggle levels) l3) then l3_loop count levels start end_ (l3 + 1)
      else
        let l3_first_l2 := l3 * 64 in
        let l3_last_l2 := l3_first_l2 + 64 in
        let first_l2 := Z.max (start / SAMPLES_PER_L2_BIT) l3_first_l2 in
        let last_l2 := (end_ - 1) / SAMPLES_PER_L2_BIT in
        let l2_end := Z.min (last_l2 + 1) l3_last_l2 in
        match byte_at (view_l2_toggle levels) l3 with
        | None => None
        | Some l2_bits =>
            let l2_bits := Z.land l2_bits (range_mask (first_l2 - l3_first_l2) (l2_end - l3_first_l2)) in
            match l2_loop 64 levels start end_ l3_first_l2 l2_bits with
            | Some found => found
            | None => l3_loop count levels start end_ (l3 + 1)
            end
        end
  end.

(** [crates/signal_capture/src/waveform_index/reader.rs:1335-1371] next_indexed_l1_group *)
Definition next_indexed_l1_group (levels : LevelsView) (start end_ : Z) : option Z :=
  if end_ <=? start then None
  else
    let first_l3 := start / SAMPLES_PER_L3_BIT in
    let last_l3 := Z.min ((end_ - 1) / SAMPLES_PER_L3_BIT) 63 in
    l3_loop (Z.to_nat (last_l3 - first_l3 + 1)) levels start end_ first_l3.

(** The changes of level in a word entered at level [entering], from bit [lo] to [hi].
    [crates/signal_capture/src/waveform_index/reader.rs:653-654] IndexSampler::next_raw_transition *)
Definition word_toggles (word : Z) (entering : bool) (lo hi : Z) : Z :=
  Z.land (Z.lxor word (Z.lor (shl64 word 1) (b2z entering))) (range_mask lo hi).

(** [crates/signal_capture/src/waveform_index/reader.rs:1404-1413] append_raw_transitions *)
Fixpoint append_bits (fuel : nat) (word base toggles : Z) (max_transitions : Z) (output : list CaptureTransition)
  : list CaptureTransition :=
  match fuel with
  | O => output
  | S fuel =>
      if zlen output <? max_transitions then
        match nonzero_trailing_bit toggles with
        | None => output
        | Some bit_index =>
            append_bits fuel word base (Z.land toggles (toggles - 1)) max_transitions
              (output ++ [mkTransition (base + bit_index) (bit word bit_index)])
        end
      else output
  end.

(** A word has at most sixty-four changes.
    [crates/signal_capture/src/waveform_index/reader.rs:1378-1414] append_raw_transitions *)
Definition append_raw_transitions (data : list Z) (block_start local_start local_end : Z)
  (previous_block_last : option bool) (max_transitions : Z) (output : list CaptureTransition)
  : list CaptureTransition :=
  if (local_end <=? local_start) || (max_transitions <=? zlen output) then output
  else
    let word_index := local_start / 64 in
    let word_start := word_index * 64 in
    let word := load_le_word data word_index in
    let entering :=
      if 0 <? word_start then packed_bit data (word_start - 1)
      else default (negb (Z.land word 1 =? 0)) previous_block_last in
    let lo := local_start - word_start in
    let hi := local_end - word_start in
    append_bits 64 word (block_start + word_start) (word_toggles word entering lo hi) max_transitions output.

(** ** Summaries for drawing *)

(** [crates/signal_capture/src/waveform_index/query.rs:5-9] WaveformSummary *)
Record WaveformSummary := mkSummary { sum_first : bool; sum_toggle : bool; sum_last : bool }.

(** [crates/signal_capture/src/waveform_index/query.rs:13-18] WaveformSummaryGrid *)
Record WaveformSummaryGrid := mkGrid {
  grid_start_sample : Z;
  available_end_sample : Z;
  grid_end_sample : Z;
  grid_target_points : Z
}.

(** [crates/signal_capture/src/capture/contracts.rs:55-85] CaptureWaveformSegment *)
Inductive CaptureWaveformSegment :=
| Level (start_sample end_sample : Z) (value : bool)
| Edge (at_sample : Z) (before after : bool)
| Activity (start_sample end_sample : Z) (first last : bool).

(** [crates/signal_capture/src/capture/contracts.rs:88-99] CaptureSampledChannel *)
Record CaptureSampledChannel := mkSampledChannel {
  sc_channel : Z;
  sc_name : string;
  sc_initial : bool;
  sc_transitions : list CaptureTransition;
  sc_waveform : list CaptureWaveformSegment
}.

(** [crates/signal_capture/src/capture/contracts.rs:102-111] CaptureSampledWindow *)
Record CaptureSampledWindow := mkSampledWindow {
  sw_start_sample : Z;
  sw_end_sample : Z;
  sw_sample_step : Z;
  sw_channels : list CaptureSampledChannel
}.

(** The last segment of a waveform and what is in front of it. *)
Definition split_last {A} (l : list A) : option (list A * A) :=
  match list.last l with
  | Some x => Some (take (length l - 1) l, x)
  | None => None
  end.

(** [crates/signal_capture/src/waveform_index/query.rs:112-139] push_level *)
Definition push_level (waveform : list CaptureWaveformSegment) (start_sample end_sample : Z) (value : bool)
  : list CaptureWaveformSegment :=
  if end_sample <=? start_sample then waveform
  else
    match split_last waveform with
    | Some (front, Level previous_start previous_end previous_value) =>
        if (previous_end =? start_sample) && Bool.eqb previous_value value
        then front ++ [Level previous_start end_sample previous_value]
        else waveform ++ [Level start_sample end_sample value]
    | _ => waveform ++ [Level start_sample end_sample value]
    end.

(** [crates/signal_capture/src/waveform_index/query.rs:141-166] push_activity *)
Definition push_activity (waveform : list CaptureWaveformSegment) (start_sample end_sample : Z) (first last : bool)
  : list CaptureWaveformSegment :=
  match split_last waveform with
  | Some (front, Activity previous_start previous_end previous_first previous_last) =>
      if previous_end =? start_sample
      then front ++ [Activity previous_start end_sample previous_first last]
      else waveform ++ [Activity start_sample end_sample first last]
  | _ => waveform ++ [Activity start_sample end_sample first last]
  end.

(** The new [previous_value] and waveform.
    [crates/signal_capture/src/waveform_index/query.rs:74-110] append_pixel_waveform *)
Definition append_pixel_waveform (start_sample end_sample : Z) (summary : WaveformSummary)
  (previous_value : bool) (waveform : list CaptureWaveformSegment) : bool * list CaptureWaveformSegment :=
  if end_sample <=? start_sample then (previous_value, waveform)
  else if sum_toggle summary then
    (sum_last summary, push_activity waveform start_sample end_sample previous_value (sum_last summary))
  else if Bool.eqb (sum_first summary) previous_value then
    (sum_last summary, push_level waveform start_sample end_sample (sum_first summary))
  else
    let waveform := waveform ++ [Edge start_sample previous_value (sum_first summary)] in
    (sum_last summary, push_level waveform start_sample end_sample (sum_first summary)).

(** The samples of a point of the grid.
    [crates/signal_capture/src/waveform_index/query.rs:38-47] sample_waveform_summary_channel *)
Definition point_start (grid : WaveformSummaryGrid) (target_points point : Z) : Z :=
  let grid_samples := saturating_sub64 (grid_end_sample grid) (grid_start_sample grid) in
  add64 (grid_start_sample grid) (saturating_mul64 grid_samples point / target_points).

Definition point_end (grid : WaveformSummaryGrid) (target_points point : Z) : Z :=
  Z.min (if point + 1 =? target_points then grid_end_sample grid else point_start grid target_points (point + 1))
    (available_end_sample grid).

Section Summaries.
Context {St : Type} (summarize : Z -> Z -> bool -> St -> result (failure Error) WaveformSummary * St).

(** [crates/signal_capture/src/waveform_index/query.rs:37-61] sample_waveform_summary_channel *)
Fixpoint point_loop (count : nat) (grid : WaveformSummaryGrid) (target_points point previous_end : Z)
  (previous_value : bool) (waveform : list CaptureWaveformSegment) (s : St)
  : result (failure Error) (list CaptureWaveformSegment) * St :=
  match count with
  | O => (Ok waveform, s)
  | S count =>
      let visible_start := point_start grid target_points point in
      if available_end_sample grid <=? visible_start then (Ok waveform, s)
      else
        let visible_end := point_end grid target_points point in
        if (visible_end <=? visible_start) || (visible_start <? previous_end)
        then point_loop count grid target_points (point + 1) previous_end previous_value waveform s
        else
          let! summary, s := summarize visible_start visible_end previous_value s in
          let '(previous_value, waveform) :=
            append_pixel_waveform visible_start visible_end summary previous_value waveform in
          point_loop count grid target_points (point + 1) visible_end previous_value waveform s
  end.

(** [crates/signal_capture/src/waveform_index/query.rs:24-70] sample_waveform_summary_channel *)
Definition sample_waveform_summary_channel (channel : Z) (name : string) (initial : bool)
  (grid : WaveformSummaryGrid) (s : St) : result (failure Error) CaptureSampledChannel * St :=
  let target_points := Z.max (grid_target_points grid) 1 in
  let! waveform, s := point_loop (Z.to_nat target_points) grid target_points 0 (grid_start_sample grid) initial [] s in
  (Ok (mkSampledChannel channel name initial [] waveform), s).
End Summaries.

(** The resolutions in ascending order, each once.
    [crates/signal_capture/src/waveform_index/resolution.rs:10-12] select_waveform_summary_resolution *)
Fixpoint insert_resolution (r : Z) (l : list Z) : list Z :=
  match l with
  | [] => [r]
  | x :: l' => if r <? x then r :: l else if r =? x then l else x :: insert_resolution r l'
  end.

Definition sorted_resolutions (available : list Z) : list Z := fold_right insert_resolution [] available.

(** [crates/signal_capture/src/waveform_index/resolution.rs:13-21] select_waveform_summary_resolution *)
Fixpoint select_loop (desired : Z) (available : list Z) (selected : option Z) : option Z :=
  match available with
  | [] => selected
  | resolution :: available =>
      let selected :=
        match selected with
        | None => Some resolution
        | Some _ => if resolution <=? desired then Some resolution else selected
        end in
      if desired <? resolution then selected else select_loop desired available selected
  end.

(** [crates/signal_capture/src/waveform_index/resolution.rs:4-23] select_waveform_summary_resolution *)
Definition select_waveform_summary_resolution (window_samples target_points : Z) (available_resolutions : list Z)
  : option Z :=
  let desired := Z.max (div_ceil window_samples (Z.max target_points 1)) 1 in
  select_loop desired (sorted_resolutions available_resolutions) None.

(** [crates/signal_capture/src/waveform_index/exact.rs:3-3] EXACT_SCAN_BASE_MAX_SAMPLES *)
Definition EXACT_SCAN_BASE_MAX_SAMPLES : Z := 4096.

(** [crates/signal_capture/src/waveform_index/exact.rs:16-19] exact_window_sample_limit *)
Definition exact_window_sample_limit (target_points : Z) : Z :=
  let target_points := Z.max target_points 1 in
  Z.max EXACT_SCAN_BASE_MAX_SAMPLES (saturating_mul64 target_points SAMPLES_PER_L1_BIT).

(** ** The sampler *)

(** [crates/signal_capture/src/waveform_index/reader.rs:26-26] RAW_BLOCK_CACHE_CAPACITY *)
Definition RAW_BLOCK_CACHE_CAPACITY : nat := 16.

Definition RAW_BLOCK_NAMESPACE : string := "capture-raw-block-v1".

(** Fails with the first failure; the state goes through all of them. *)
Fixpoint map_state {E A B S} (f : A -> S -> result E B * S) (l : list A) (s : S) : result E (list B) * S :=
  match l with
  | [] => (Ok [], s)
  | x :: l =>
      let! y, s := f x s in
      let! ys, s := map_state f l s in
      (Ok (y :: ys), s)
  end.

Section Sampler.
Context (read_packed_block : Z -> Z -> result (failure Error) (list Z)).
Context (hash : list Z -> list Z) {R : Type} `{ArtifactRepository R}.

(** The name and the build's profile are left out.
    [crates/signal_capture/src/waveform_index/reader.rs:67-76] IndexSampler *)
Record IndexSampler := mkSampler {
  storage : IndexReader;
  repository : R;
  sampler_identity : list Z;
  raw_block_cache : RecencyCache (Z * Z) (list Z)
}.

Definition sampler_new (ir : IndexReader) (r : R) : IndexSampler := mkSampler ir r (identity ir) empty_cache.

Definition with_storage (s : IndexSampler) (ir : IndexReader) : IndexSampler :=
  mkSampler ir (repository s) (sampler_identity s) (raw_block_cache s).
Definition with_repository (s : IndexSampler) (r : R) : IndexSampler :=
  mkSampler (storage s) r (sampler_identity s) (raw_block_cache s).
Definition with_raw_cache (s : IndexSampler) (c : RecencyCache (Z * Z) (list Z)) : IndexSampler :=
  mkSampler (storage s) (repository s) (sampler_identity s) c.

Definition header_of (s : IndexSampler) : CaptureMetadata := header (storage s).

(** A computation of the sampler. *)
Definition Sampling (A : Type) : Type := IndexSampler -> result (failure Error) A * IndexSampler.

Definition root_summary (channel block : Z) : Sampling RootDirEntry :=
  fun s => (load_root_summary (storage s) channel block, s).

Definition leaf_summary (channel block : Z) : Sampling LeafView :=
  fun s => let '(out, ir) := load_leaf hash (repository s) channel block (storage s) in (out, with_storage s ir).

(** [crates/signal_capture/src/waveform_index/reader.rs:1285-1296] raw_block_key *)
Definition raw_block_key (identity : list Z) (channel block : Z) : ArtifactKey :=
  artifact_key hash RAW_BLOCK_NAMESPACE identity (Some channel) (Some block).

(** The whole of an artifact.
    [crates/platform_artifacts/src/repository_source.rs:54-94] read_artifact_region *)
Definition read_artifact_region (reader : ArtifactReader) (length : Z) : result (failure Error) (list Z) :=
  let? region := repository_result (reader_region reader length) in
  match region with
  | Some bytes => Ok bytes
  | None => copy_loop (Z.to_nat length) RepositoryError reader length []
  end.

(** [crates/signal_capture/src/waveform_index/reader.rs:859-870] IndexSampler::cached_raw_block *)
Definition cached_raw_block (s : IndexSampler) (channel block : Z) : result (failure Error) (option (list Z)) :=
  let? reader := repository_result (open_artifact (repository s) (raw_block_key (sampler_identity s) channel block)) in
  match reader with
  | None => Ok None
  | Some reader =>
      let? length := repository_result (reader_len reader) in
      let? bytes := read_artifact_region reader length in
      Ok (Some bytes)
  end.

(** [crates/signal_capture/src/waveform_index/reader.rs:872-885] IndexSampler::publish_raw_block *)
Definition publish_raw_block (channel block : Z) (data : list Z) : Sampling unit := fun s =>
  let '(out, r) := publish (repository s) (raw_block_key (sampler_identity s) channel block) data in
  (out, with_repository s r).

(** [crates/signal_capture/src/waveform_index/reader.rs:825-839] IndexSampler::cached_packed_block *)
Definition cached_packed_block (channel block : Z) : Sampling (list Z) := fun s =>
  let '(found, cache) := get touch_raw (channel, block) (raw_block_cache s) in
  let s := with_raw_cache s cache in
  match found with
  | Some data => (Ok data, s)
  | None =>
      let! data, s :=
        match cached_raw_block s channel block with
        | Err e => (Err e, s)
        | Ok (Some data) => (Ok data, s)
        | Ok None =>
            match read_packed_block channel block with
            | Err e => (Err e, s)
            | Ok data => let! _, s := publish_raw_block channel block data s in (Ok data, s)
            end
        end in
      match insert touch_raw RAW_BLOCK_CACHE_CAPACITY (channel, block) data (raw_block_cache s) with
      | None => (Err Diverges, s)
      | Some cache => (Ok data, with_raw_cache s cache)
      end
  end.

(** [crates/signal_capture/src/waveform_index/reader.rs:852-857] IndexSampler::packed_block *)
Definition packed_block (channel block : Z) : Sampling (list Z) := fun s =>
  match cached_raw_block s channel block with
  | Err e => (Err e, s)
  | Ok (Some data) => (Ok data, s)
  | Ok None => (read_packed_block channel block, s)
  end.

Definition invalid_probe {A} (channel : Z) : result (failure Error) A := Err (Returned (InvalidProbe channel)).
Definition out_of_bounds {A} (position : Z) : result (failure Error) A := Err (Returned (OutOfBounds position)).

(** ** Opening *)

(** Where the repository has no index of the capture, one is built.  The raw reader is opened with it.
    [crates/signal_capture/src/waveform_index/reader.rs:164-216] IndexSampler::open_data_source_with_executor_and_progress *)
Definition open_data_source {P} (progress : P -> CaptureIndexProgress -> bool * P) (index_identity : option (list Z))
  (meta : CaptureMetadata) (revision available_parallelism : Z) (schedule : nat -> nat) (p : P) (r : R)
  : result (failure Error) IndexSampler * (P * R) :=
  match index_identity with
  | None => (parse_error "capture source is not indexable", (p, r))
  | Some identity =>
      let '(out, (p, r)) :=
        if negb (is_valid hash r identity meta revision)
        then build read_packed_block hash progress identity meta revision available_parallelism schedule p r
        else (Ok tt, (p, r)) in
      match out with
      | Err e => (Err e, (p, r))
      | Ok _ =>
          match open_index hash r identity meta revision with
          | Err e => (Err e, (p, r))
          | Ok ir => (Ok (sampler_new ir r), (p, r))
          end
      end
  end.

(** [crates/signal_capture/src/waveform_index/reader.rs:242-275] IndexSampler::open_existing_data_source_for_purpose *)
Definition open_existing_data_source (index_identity : option (list Z)) (meta : CaptureMetadata) (revision : Z) (r : R)
  : result (failure Error) (option IndexSampler) :=
  match index_identity with
  | None => parse_error "capture source is not indexable"
  | Some identity =>
      if negb (is_valid hash r identity meta revision) then Ok None
      else let? ir := open_index hash r identity meta revision in Ok (Some (sampler_new ir r))
  end.

(** ** Values *)

(** [crates/signal_capture/src/waveform_index/reader.rs:403-414] IndexSampler::value_at *)
Definition value_at (channel position : Z) : Sampling bool := fun s =>
  if total_probes (header_of s) <=? channel then (invalid_probe channel, s)
  else if total_samples (header_of s) <=? position then (out_of_bounds position, s)
  else
    let spb := samples_per_block (header_of s) in
    let! block, s := (div_blocks position spb, s) in
    let! data, s := cached_packed_block channel block s in
    (Ok (packed_bit data (position mod spb)), s).

(** The values at the positions in [block] and the positions from the first outside of it.
    [crates/signal_capture/src/waveform_index/reader.rs:607-617] IndexSampler::values_at *)
Fixpoint values_in_block (total spb block : Z) (data : list Z) (positions : list Z) (output : list bool)
  : result (failure Error) (list Z * list bool) :=
  match positions with
  | [] => Ok ([], output)
  | position :: rest =>
      if total <=? position then out_of_bounds position
      else if negb (position / spb =? block) then Ok (positions, output)
      else values_in_block total spb block data rest (output ++ [packed_bit data (position mod spb)])
  end.

(** [crates/signal_capture/src/waveform_index/reader.rs:600-618] IndexSampler::values_at *)
Fixpoint values_loop (fuel : nat) (channel : Z) (positions : list Z) (output : list bool) (s : IndexSampler)
  : result (failure Error) (list bool) * IndexSampler :=
  match positions with
  | [] => (Ok output, s)
  | position :: _ =>
      match fuel with
      | O => (Err Diverges, s)
      | S fuel =>
          if total_samples (header_of s) <=? position then (out_of_bounds position, s)
          else
            let spb := samples_per_block (header_of s) in
            let! block, s := (div_blocks position spb, s) in
            let! data, s := cached_packed_block channel block s in
            match values_in_block (total_samples (header_of s)) spb block data positions output with
            | Err e => (Err e, s)
            | Ok (positions, output) => values_loop fuel channel positions output s
            end
      end
  end.

(** The output vector; what it holds after an error is left open.  Every turn reads a position, so that
    their number is enough fuel.
    [crates/signal_capture/src/waveform_index/reader.rs:586-620] IndexSampler::values_at *)
Definition values_at (channel : Z) (positions : list Z) : Sampling (list bool) := fun s =>
  if total_probes (header_of s) <=? channel then (invalid_probe channel, s)
  else values_loop (length positions) channel positions [] s.

(** ** Transitions *)

(** [crates/signal_capture/src/waveform_index/reader.rs:622-663] IndexSampler::next_raw_transition *)
Definition next_raw_transition (channel block local_start local_end : Z) : Sampling (option CaptureTransition) :=
  fun s =>
  if local_end <=? local_start then (Ok None, s)
  else
    let block_start := mul64 block (samples_per_block (header_of s)) in
    let! data, s := cached_packed_block channel block s in
    let word_index := local_start / 64 in
    let word_start := word_index * 64 in
    let word := load_le_word data word_index in
    let! entering, s :=
      if 0 <? word_start then (Ok (packed_bit data (word_start - 1)), s)
      else if 0 <? block then
        let! entry, s := root_summary channel (block - 1) s in (Ok (entry_last entry), s)
      else (Ok (negb (Z.land word 1 =? 0)), s) in
    let lo := local_start - word_start in
    let hi := local_end - word_start in
    match nonzero_trailing_bit (word_toggles word entering lo hi) with
    | None => (Ok None, s)
    | Some bit_index =>
        (Ok (Some (mkTransition (add64 block_start (word_start + bit_index)) (bit word bit_index))), s)
    end.

(** [crates/signal_capture/src/waveform_index/reader.rs:442-479] IndexSampler::next_transition *)
Fixpoint next_transition_loop (fuel : nat) (channel limit search : Z) (s : IndexSampler)
  : result (failure Error) (option CaptureTransition) * IndexSampler :=
  if limit <=? search then (Ok None, s)
  else
    match fuel with
    | O => (Err Diverges, s)
    | S fuel =>
        let spb := samples_per_block (header_of s) in
        let! block, s := (div_blocks search spb, s) in
        let block_start := mul64 block spb in
        let block_limit := Z.min (saturating_add64 block_start spb) limit in
        let local_limit := sub64 block_limit block_start in
        let! root, s := root_summary channel block s in
        if negb (entry_toggle root) then next_transition_loop fuel channel limit block_limit s
        else
          let local_search := sub64 search block_start in
          let! leaf, s := leaf_summary channel block s in
          match (match view_levels leaf with
                 | Some levels => next_indexed_l1_group levels local_search local_limit
                 | None => None
                 end) with
          | None => next_transition_loop fuel channel limit block_limit s
          | Some l1_group =>
              let group_start := mul64 l1_group SAMPLES_PER_L1_BIT in
              let scan_start := Z.max local_search group_start in
              let scan_end := Z.min local_limit (add64 group_start SAMPLES_PER_L1_BIT) in
              let! found, s := next_raw_transition channel block scan_start scan_end s in
              match found with
              | Some transition => (Ok (Some transition), s)
              | None => next_transition_loop fuel channel limit (add64 block_start scan_end) s
              end
          end
    end.

(** Every turn moves the search on, so that the samples before the limit are enough fuel.
    [crates/signal_capture/src/waveform_index/reader.rs:423-482] IndexSampler::next_transition *)
Definition next_transition (channel position limit : Z) : Sampling (option CaptureTransition) := fun s =>
  if total_probes (header_of s) <=? channel then (invalid_probe channel, s)
  else
    let limit := Z.min limit (total_samples (header_of s)) in
    match checked_add64 position 1 with
    | None => (Ok None, s)
    | Some search =>
        if limit <=? search then (Ok None, s)
        else next_transition_loop (Z.to_nat (limit - search)) channel limit search s
    end.

(** The transitions of the active groups of a block; the search position reached.
    [crates/signal_capture/src/waveform_index/reader.rs:549-568] IndexSampler::next_transitions *)
Fixpoint groups_loop (fuel : nat) (levels : LevelsView) (data : list Z) (block_start : Z)
  (previous_block_last : option bool) (max_transitions local_limit local_search : Z) (output : list CaptureTransition)
  : result (failure Error) (Z * list CaptureTransition) :=
  if (local_search <? local_limit) && (zlen output <? max_transitions) then
    match fuel with
    | O => Err Diverges
    | S fuel =>
        match next_indexed_l1_group levels local_search local_limit with
        | None => Ok (local_search, output)
        | Some l1_group =>
            let group_start := mul64 l1_group SAMPLES_PER_L1_BIT in
            let scan_start := Z.max local_search group_start in
            let scan_end := Z.min local_limit (add64 group_start SAMPLES_PER_L1_BIT) in
            groups_loop fuel levels data block_start previous_block_last max_transitions local_limit scan_end
              (append_raw_transitions data block_start scan_start scan_end previous_block_last max_transitions output)
        end
    end
  else Ok (local_search, output).

(** [crates/signal_capture/src/waveform_index/reader.rs:519-576] IndexSampler::next_transitions *)
Fixpoint transitions_loop (fuel : nat) (channel limit max_transitions search : Z) (output : list CaptureTransition)
  (s : IndexSampler) : result (failure Error) (list CaptureTransition) * IndexSampler :=
  if (search <? limit) && (zlen output <? max_transitions) then
    match fuel with
    | O => (Err Diverges, s)
    | S fuel =>
        let spb := samples_per_block (header_of s) in
        let! block, s := (div_blocks search spb, s) in
        let block_start := mul64 block spb in
        let block_limit := Z.min (saturating_add64 block_start spb) limit in
        let local_limit := sub64 block_limit block_start in
        let! root, s := root_summary channel block s in
        if negb (entry_toggle root) then transitions_loop fuel channel limit max_transitions block_limit output s
        else
          let! data, s := cached_packed_block channel block s in
          let! leaf, s := leaf_summary channel block s in
          match view_levels leaf with
          | None => transitions_loop fuel channel limit max_transitions block_limit output s
          | Some levels =>
              let! previous_block_last, s :=
                if 0 <? block then
                  let! entry, s := root_summary channel (block - 1) s in (Ok (Some (entry_last entry)), s)
                else (Ok None, s) in
              match groups_loop (Z.to_nat local_limit) levels data block_start previous_block_last max_transitions
                      local_limit (sub64 search block_start) output with
              | Err e => (Err e, s)
              | Ok (local_search, output) =>
                  let search :=
                    if (local_limit <=? local_search)
                       || match next_indexed_l1_group levels local_search local_limit with
                          | None => true
                          | Some _ => false
                          end
                    then block_limit else add64 block_start local_search in
                  transitions_loop fuel channel limit max_transitions search output s
              end
          end
    end
  else (Ok output, s).

(** The output vector; what it holds after an error is left open.
    [crates/signal_capture/src/waveform_index/reader.rs:493-577] IndexSampler::next_transitions *)
Definition next_transitions (channel position limit max_transitions : Z) : Sampling (list CaptureTransition) := fun s =>
  if total_probes (header_of s) <=? channel then (invalid_probe channel, s)
  else if max_transitions =? 0 then (Ok [], s)
  else
    let limit := Z.min limit (total_samples (header_of s)) in
    match checked_add64 position 1 with
    | None => (Ok [], s)
    | Some search =>
        if limit <=? search then (Ok [], s)
        else transitions_loop (Z.to_nat (limit - search)) channel limit max_transitions search [] s
    end.

(** ** Exact windows *)

(** [crates/signal_capture/src/waveform_index/reader.rs:800-808] IndexSampler::exact_sampled_channel *)
Fixpoint push_loop (fuel : nat) (word base toggles : Z) (transitions : list CaptureTransition)
  : list CaptureTransition :=
  match fuel with
  | O => transitions
  | S fuel =>
      if toggles =? 0 then transitions
      else
        let bit_index := trailing_zeros toggles in
        let value := negb (Z.land (Z.shiftr word bit_index) 1 =? 0) in
        push_loop fuel word base (Z.land toggles (toggles - 1))
          (transitions ++ [mkTransition (base + bit_index) value])
  end.

(** One word of a block: its last scanned level and its transitions.
    [crates/signal_capture/src/waveform_index/reader.rs:782-809] IndexSampler::exact_sampled_channel *)
Definition scan_word (data : list Z) (block_start lo_local hi_local word_index : Z)
  (current : bool) (transitions : list CaptureTransition) : bool * list CaptureTransition :=
  let first_word := lo_local / 64 in
  let last_word := (hi_local - 1) / 64 in
  let word := load_le_word data word_index in
  let lo := if word_index =? first_word then lo_local mod 64 else 0 in
  let hi := if word_index =? last_word then hi_local - word_index * 64 else 64 in
  let toggles := word_toggles word current lo hi in
  let transitions := push_loop 64 word (block_start + word_index * 64) toggles transitions in
  (negb (Z.land (Z.shiftr word (hi - 1)) 1 =? 0), transitions).

(** The words of a block from [word_index] on.
    [crates/signal_capture/src/waveform_index/reader.rs:779-810] IndexSampler::exact_sampled_channel *)
Fixpoint words_loop (count : nat) (data : list Z) (block_start lo_local hi_local word_index : Z)
  (current : bool) (transitions : list CaptureTransition) : bool * list CaptureTransition :=
  match count with
  | O => (current, transitions)
  | S count =>
      let '(current, transitions) := scan_word data block_start lo_local hi_local word_index current transitions in
      words_loop count data block_start lo_local hi_local (word_index + 1) current transitions
  end.

(** [crates/signal_capture/src/waveform_index/reader.rs:765-811] IndexSampler::exact_sampled_channel *)
Fixpoint blocks_loop (count : nat) (channel start_sample end_sample block : Z)
  (current : bool) (transitions : list CaptureTransition) (s : IndexSampler)
  : result (failure Error) (list CaptureTransition) * IndexSampler :=
  match count with
  | O => (Ok transitions, s)
  | S count =>
      let spb := samples_per_block (header_of s) in
      let! data, s := cached_packed_block channel block s in
      let block_start := mul64 block spb in
      let block_end := Z.min (saturating_add64 block_start spb) end_sample in
      let scan_start := Z.max block_start (add64 start_sample 1) in
      if block_end <=? scan_start
      then blocks_loop count channel start_sample end_sample (block + 1) current transitions s
      else
        let lo_local := scan_start - block_start in
        let hi_local := block_end - block_start in
        let '(current, transitions) :=
          words_loop (Z.to_nat ((hi_local - 1) / 64 - lo_local / 64 + 1)) data block_start lo_local hi_local
            (lo_local / 64) current transitions in
        blocks_loop count channel start_sample end_sample (block + 1) current transitions s
  end.

(** [crates/signal_capture/src/waveform_index/reader.rs:749-754] IndexSampler::exact_sampled_channel *)
Definition probe_name (s : IndexSampler) (channel : Z) : string :=
  default ("Probe" +:+ pretty channel) (byte_at (probe_names (header_of s)) channel).

(** [crates/signal_capture/src/waveform_index/reader.rs:739-820] IndexSampler::exact_sampled_channel *)
Definition exact_sampled_channel (start_sample end_sample channel : Z) : Sampling CaptureSampledChannel := fun s =>
  if total_probes (header_of s) <=? channel then (invalid_probe channel, s)
  else
    let name := probe_name s channel in
    let spb := samples_per_block (header_of s) in
    let! first_block, s := (div_blocks start_sample spb, s) in
    let! last_block, s := (div_blocks (sub64 end_sample 1) spb, s) in
    let! data, s := cached_packed_block channel first_block s in
    let initial := packed_bit data (start_sample mod spb) in
    let! transitions, s :=
      blocks_loop (Z.to_nat (last_block - first_block + 1)) channel start_sample end_sample first_block initial [] s in
    (Ok (mkSampledChannel channel name initial transitions []), s).

(** [crates/signal_capture/src/waveform_index/reader.rs:720-737] IndexSampler::exact_sampled_window *)
Definition exact_sampled_window (channels : list Z) (start_sample end_sample : Z) : Sampling CaptureSampledWindow :=
  fun s =>
  let! sampled, s := map_state (exact_sampled_channel start_sample end_sample) channels s in
  (Ok (mkSampledWindow start_sample end_sample 1 sampled), s).

(** ** Windows from the index *)

(** The summary of the groups [first_group] to [last_group] of a level of a leaf.
    [crates/signal_capture/src/waveform_index/reader.rs:1052-1065] IndexSampler::block_local_display_summary *)
Definition level_summary (toggle last : list Z) (first : bool) (first_group last_group : Z)
  : result (failure Error) WaveformSummary :=
  let? first :=
    if first_group =? 0 then Ok first
    else let? word := get_word last ((first_group - 1) / 64) in Ok (bit word ((first_group - 1) mod 64)) in
  let? word := get_word last (last_group / 64) in
  let last := bit word (last_group mod 64) in
  Ok (mkSummary first (bit_range_any toggle first_group last_group || negb (Bool.eqb first last)) last).

(** [crates/signal_capture/src/waveform_index/reader.rs:989-1084] IndexSampler::block_local_display_summary *)
Definition block_local_display_summary (channel block local_start local_end group_samples : Z)
  : Sampling WaveformSummary := fun s =>
  let spb := samples_per_block (header_of s) in
  let block_start := mul64 block spb in
  let valid_end := Z.min (saturating_sub64 (total_samples (header_of s)) block_start) spb in
  if (local_start =? 0) && (valid_end <=? local_end) then
    let! entry, s := root_summary channel block s in
    (Ok (mkSummary (entry_first entry) (entry_toggle entry) (entry_last entry)), s)
  else if SAMPLES_PER_L3_BIT <=? group_samples then
    let! entry, s := root_summary channel block s in
    if negb (entry_toggle entry) then (Ok (mkSummary (entry_first entry) false (entry_last entry)), s)
    else
      let first_group := Z.min (local_start / SAMPLES_PER_L3_BIT) 63 in
      let last_group := Z.min (sub64 local_end 1 / SAMPLES_PER_L3_BIT) 63 in
      let first := if first_group =? 0 then entry_first entry else bit (entry_l3_last entry) (first_group - 1) in
      let last := bit (entry_l3_last entry) last_group in
      (Ok (mkSummary first (bit_range_any [entry_l3_toggle entry] first_group last_group || negb (Bool.eqb first last)) last), s)
  else
    let! leaf, s := leaf_summary channel block s in
    match view_levels leaf with
    | None => (Ok (mkSummary (view_first leaf) false (view_last leaf)), s)
    | Some levels =>
        if SAMPLES_PER_L2_BIT <=? group_samples then
          let first_group := Z.min (local_start / SAMPLES_PER_L2_BIT) 4095 in
          let last_group := Z.min (sub64 local_end 1 / SAMPLES_PER_L2_BIT) 4095 in
          (level_summary (view_l2_toggle levels) (view_l2_last levels) (view_first leaf) first_group last_group, s)
        else
          let first_group := Z.min (local_start / SAMPLES_PER_L1_BIT) 262143 in
          let last_group := Z.min (sub64 local_end 1 / SAMPLES_PER_L1_BIT) 262143 in
          (level_summary (view_l1_toggle levels) (view_l1_last levels) (view_first leaf) first_group last_group, s)
    end.

(** The level the range starts with, whether it changes and the last level seen, from [block] on.
    [crates/signal_capture/src/waveform_index/reader.rs:960-980] IndexSampler::indexed_display_range_summary *)
Fixpoint range_summary_loop (count : nat) (channel start_sample end_sample group_samples block : Z)
  (first : option bool) (last toggle : bool) (s : IndexSampler)
  : result (failure Error) (option bool * bool * bool) * IndexSampler :=
  match count with
  | O => (Ok (first, last, toggle), s)
  | S count =>
      let spb := samples_per_block (header_of s) in
      let block_start := mul64 block spb in
      let local_start := saturating_sub64 start_sample block_start in
      let local_end := Z.min (saturating_sub64 end_sample block_start) spb in
      if local_end <=? local_start
      then range_summary_loop count channel start_sample end_sample group_samples (block + 1) first last toggle s
      else
        let! summary, s := block_local_display_summary channel block local_start local_end group_samples s in
        let range_first := default (sum_first summary) first in
        let toggle := toggle || (sum_toggle summary || negb (Bool.eqb (sum_first summary) last)
                                 || negb (Bool.eqb range_first (sum_last summary))) in
        range_summary_loop count channel start_sample end_sample group_samples (block + 1)
          (Some range_first) (sum_last summary) toggle s
  end.

(** [crates/signal_capture/src/waveform_index/reader.rs:945-987] IndexSampler::indexed_display_range_summary *)
Definition indexed_display_range_summary (channel group_samples start_sample end_sample : Z) (fallback_first : bool)
  : Sampling WaveformSummary := fun s =>
  let spb := samples_per_block (header_of s) in
  let! first_block, s := (div_blocks start_sample spb, s) in
  let! last_block, s := (div_blocks (saturating_sub64 end_sample 1) spb, s) in
  let! range, s :=
    range_summary_loop (Z.to_nat (last_block - first_block + 1)) channel start_sample end_sample group_samples
      first_block None fallback_first false s in
  let '(first, last, toggle) := range in
  (Ok (mkSummary (default fallback_first first) toggle last), s).

(** [crates/signal_capture/src/waveform_index/reader.rs:932-943] IndexSampler::indexed_initial_value *)
Definition indexed_initial_value (channel sample group_samples : Z) : Sampling bool := fun s =>
  let spb := samples_per_block (header_of s) in
  let! block, s := (div_blocks sample spb, s) in
  let local := sample mod spb in
  let! summary, s := block_local_display_summary channel block local (add64 local 1) group_samples s in
  (Ok (sum_first summary), s).

(** [crates/signal_capture/src/waveform_index/reader.rs:887-926] IndexSampler::sample_indexed_channel *)
Definition sample_indexed_channel (start_sample end_sample target_points group_samples channel : Z)
  : Sampling CaptureSampledChannel := fun s =>
  if total_probes (header_of s) <=? channel then (invalid_probe channel, s)
  else
    let name := probe_name s channel in
    let! initial, s := indexed_initial_value channel start_sample group_samples s in
    sample_waveform_summary_channel (indexed_display_range_summary channel group_samples) channel name initial
      (mkGrid start_sample end_sample end_sample target_points) s.

(** [Ord::clamp], which panics when the bounds are crossed. *)
Definition clamp {E} (value min max : Z) : result (failure E) Z :=
  if max <? min then Err Panic else Ok (Z.min (Z.max value min) max).

(** [crates/signal_capture/src/waveform_index/reader.rs:672-718] IndexSampler::sampled_window *)
Definition sampled_window (channels : list Z) (start_sample end_sample target_points : Z)
  : Sampling CaptureSampledWindow := fun s =>
  let total := total_samples (header_of s) in
  let start_sample := Z.min start_sample (saturating_sub64 total 1) in
  let! end_sample, s := (clamp end_sample (add64 start_sample 1) total, s) in
  let samples := sub64 end_sample start_sample in
  let target_points := Z.max target_points 1 in
  if samples <=? exact_window_sample_limit target_points
  then exact_sampled_window channels start_sample end_sample s
  else
    let! group_samples, s :=
      (ok_or (select_waveform_summary_resolution samples target_points
                [SAMPLES_PER_L1_BIT; SAMPLES_PER_L2_BIT; SAMPLES_PER_L3_BIT; samples_per_block (header_of s)]) Panic, s) in
    let! sampled, s :=
      map_state (sample_indexed_channel start_sample end_sample target_points group_samples) channels s in
    (Ok (mkSampledWindow start_sample end_sample group_samples sampled), s).
End Sampler.
