(* ===== verification/CaptureSamplerProofs.v ===== *)
(** Queries of an indexed capture agree with its samples: the descent through the levels finds the
    first active group, the search of a group its changes of level, and the summaries are constant
    only over constant samples. *)

From stdpp Require Import gmap pretty.
From S2P Require Import Prelude RecordedQuery CaptureBits CaptureKernel CaptureLeaf CaptureCache.
From S2P Require Import CaptureStorage CaptureStorageProofs CaptureBuild CaptureBuildProofs CaptureSampler.

#[local] Open Scope Z_scope.

(** [lia] with the equations of quotients and remainders. *)
Ltac dlia := Z.div_mod_to_equations; lia.

(** ** Searching ranges *)

(** [r] is the first place of [lo..hi] with the property. *)
Definition least_in (P : Z -> bool) (lo hi : Z) (r : option Z) : Prop :=
  match r with
  | Some g => lo <= g < hi /\ P g = true /\ forall k, lo <= k < g -> P k = false
  | None => forall k, lo <= k < hi -> P k = false
  end.

Lemma least_in_skip P lo mid hi r :
  (forall k, lo <= k < mid -> P k = false) -> least_in P (Z.max lo mid) hi r -> least_in P lo hi r.
Proof.
  intros Hno Hr. destruct r as [g|]; cbn in *.
  - destruct Hr as (Hg & HP & Hlow). split; [lia|]. split; [done|]. intros k Hk.
    destruct (Z.lt_ge_cases k mid); [apply Hno; lia|apply Hlow; lia].
  - intros k Hk. destruct (Z.lt_ge_cases k mid); [apply Hno; lia|apply Hr; lia].
Qed.

(** The first result of a search at each of the places. *)
Fixpoint first_some {A B} (f : A -> option B) (l : list A) : option B :=
  match l with
  | [] => None
  | x :: l => match f x with Some y => Some y | None => first_some f l end
  end.

Lemma first_some_cons {A B} (f : A -> option B) x l :
  first_some f (x :: l) = match f x with Some y => Some y | None => first_some f l end.
Proof. done. Qed.

(** A search over groups of [r] places, of which those without [p] hold none. *)
Lemma search_groups P p f r lo hi n a :
  0 < r -> 0 <= n ->
  (forall j, a <= j < a + n -> p j = true -> least_in P (Z.max lo (r * j)) (Z.min hi (r * j + r)) (f j)) ->
  (forall j k, a <= j < a + n -> p j = false -> r * j <= k < r * j + r -> P k = false) ->
  least_in P (Z.max lo (r * a)) (Z.min hi (r * (a + n))) (first_some f (List.filter p (seqZ a n))).
Proof.
  intros Hr Hn. revert a. pattern n. apply natlike_ind; [| |done]; clear n Hn.
  - intros a _ _. cbn. intros k Hk. lia.
  - intros n Hn IH a Hf Hp. rewrite seqZ_cons by lia. replace (Z.pred (Z.succ n)) with n by lia.
    replace (Z.succ a) with (a + 1) by lia.
    specialize (IH (a + 1) ltac:(intros j Hj; apply Hf; lia) ltac:(intros j k Hj; apply Hp; lia)).
    replace (r * (a + 1 + n)) with (r * (a + Z.succ n)) in IH by lia.
    replace (r * (a + 1)) with (r * a + r) in IH by lia.
    assert (Hstep : r * a + r <= r * (a + Z.succ n)) by nia.
    cbn [List.filter]. destruct (p a) eqn:Hpa.
    + specialize (Hf a ltac:(lia) Hpa). cbn [first_some]. destruct (f a) as [g|]; cbn in Hf.
      * destruct Hf as (Hg & HP & Hlow). split; [lia|]. split; [done|]. intros k Hk. apply Hlow. lia.
      * eapply (least_in_skip _ _ (Z.min hi (r * a + r))); [intros k Hk; apply Hf; lia|].
        destruct (first_some _ _) as [g|]; cbn in *; [destruct IH as (? & ? & IH); split; [lia|]; split; [done|]|];
          intros k Hk; apply IH; lia.
    + eapply (least_in_skip _ _ (r * a + r)); [intros k Hk; apply (Hp a); [lia|done|lia]|].
      destruct (first_some _ _) as [g|]; cbn in *; [destruct IH as (? & ? & IH); split; [lia|]; split; [done|]|];
        intros k Hk; apply IH; lia.
Qed.

(** ** Words *)

Lemma range_mask_nonneg lo hi : 0 <= lo < 64 -> 0 <= hi <= 64 -> 0 <= range_mask lo hi.
Proof.
  intros Hlo Hhi. unfold range_mask. apply Z.land_nonneg. left.
  destruct (hi =? 64); [done|]. pose proof (Z.pow_pos_nonneg 2 hi). rewrite Z.shiftl_1_l. lia.
Qed.

Lemma masked_u64 word lo hi : u64 word -> 0 <= lo < 64 -> 0 <= hi <= 64 -> u64 (Z.land word (range_mask lo hi)).
Proof. intros. apply land_u64; [done|]. by apply range_mask_nonneg. Qed.

Lemma masked_bits word lo hi :
  0 <= lo < 64 -> lo <= hi <= 64 ->
  bits_from (Z.land word (range_mask lo hi)) 0 = List.filter (Z.testbit word) (seqZ lo (hi - lo)).
Proof.
  intros Hlo Hhi. unfold bits_from. change (64 - 0) with 64.
  replace (seqZ 0 64) with (seqZ 0 lo ++ seqZ lo (hi - lo) ++ seqZ hi (64 - hi)).
  2: { transitivity (seqZ 0 (lo + (hi - lo + (64 - hi)))); [|f_equal; lia].
       rewrite (seqZ_app 0 lo), (seqZ_app (0 + lo)) by lia. do 3 f_equal; lia. }
  rewrite !List.filter_app, (filter_all_false _ (seqZ 0 lo)), (filter_all_false _ (seqZ hi _)), app_nil_r.
  - cbn [app]. apply List.filter_ext_in. intros j ?%in_seqZ_range.
    rewrite Z.land_spec, testbit_range_mask by lia. destruct (Z.testbit word j); bcase; lia || done.
  - intros j ?%in_seqZ_range. rewrite Z.land_spec, testbit_range_mask by lia.
    destruct (Z.testbit word j); bcase; lia || done.
  - intros j ?%in_seqZ_range. rewrite Z.land_spec, testbit_range_mask by lia.
    destruct (Z.testbit word j); bcase; lia || done.
Qed.

Lemma length_bits_from word : (length (bits_from word 0) <= 64)%nat.
Proof. unfold bits_from. etransitivity; [apply List.filter_length_le|]. rewrite length_seqZ. done. Qed.

Lemma trailing_bit_first word : u64 word -> nonzero_trailing_bit word = head (bits_from word 0).
Proof.
  intros Hw. unfold nonzero_trailing_bit. destruct (Z.eqb_spec word 0) as [->|]; [by rewrite bits_from_zero|].
  by rewrite bits_from_lowest.
Qed.

Lemma clear_lowest_u64 word : u64 word -> word <> 0 -> u64 (Z.land word (word - 1)).
Proof. intros Hw Hne. apply land_u64; [done|]. ints. Qed.

Lemma head_filter_least P lo n : 0 <= n -> least_in P lo (lo + n) (head (List.filter P (seqZ lo n))).
Proof.
  intros Hn. pose proof (search_groups P P Some 1 lo (lo + n) n lo ltac:(lia) Hn) as Hs.
  replace (Z.max lo (1 * lo)) with lo in Hs by lia. replace (Z.min (lo + n) (1 * (lo + n))) with (lo + n) in Hs by lia.
  replace (head (List.filter P (seqZ lo n))) with (first_some Some (List.filter P (seqZ lo n))).
  2: { by destruct (List.filter P (seqZ lo n)). }
  apply Hs.
  - intros j Hj HP. cbn. split; [lia|]. split; [done|]. intros k Hk. lia.
  - intros j k Hj HP Hk. by replace k with j by lia.
Qed.

Lemma masked_least word lo hi :
  u64 word -> 0 <= lo < 64 -> lo <= hi <= 64 ->
  least_in (Z.testbit word) lo hi (nonzero_trailing_bit (Z.land word (range_mask lo hi))).
Proof.
  intros Hw Hlo Hhi. rewrite trailing_bit_first by (apply masked_u64; done || lia). rewrite masked_bits by done.
  pose proof (head_filter_least (Z.testbit word) lo (hi - lo) ltac:(lia)) as Hl.
  by replace (lo + (hi - lo)) with hi in Hl by lia.
Qed.

(** ** The descent *)

Lemma first_some_shift {B} (f : Z -> option B) p b a n : 0 <= n ->
  first_some (fun j => f (b + j)) (List.filter p (seqZ a n)) =
  first_some f (List.filter (fun j => p (j - b)) (seqZ (b + a) n)).
Proof.
  intros Hn. revert a. pattern n. apply natlike_ind; [done| |done]; clear n Hn. intros n Hn IH a.
  rewrite (seqZ_cons a), (seqZ_cons (b + a)) by lia. cbn [List.filter]. replace (b + a - b) with a by lia.
  replace (Z.pred (Z.succ n)) with n by lia. replace (Z.succ (b + a)) with (b + Z.succ a) by lia.
  destruct (p a); cbn [first_some]; [|apply IH]. destruct (f (b + a)); [done|apply IH].
Qed.

Section Descent.
Context (lv : LevelsView) (start end_ : Z).

(** A group with an active part is active. *)
Definition view_nested : Prop :=
  (words_ok (view_l1_toggle lv) /\ zlen (view_l1_toggle lv) = L1_WORDS) /\
  (words_ok (view_l2_toggle lv) /\ zlen (view_l2_toggle lv) = L2_WORDS) /\ u64 (view_l3_toggle lv) /\
  (forall g, 0 <= g -> bit_at (view_l1_toggle lv) g = true -> bit_at (view_l2_toggle lv) (g / 64) = true) /\
  (forall g, 0 <= g -> bit_at (view_l2_toggle lv) g = true -> Z.testbit (view_l3_toggle lv) (g / 64) = true).

Context (Hnested : view_nested) (Hrange : 0 <= start < end_) (Hend : end_ <= MAX_LEAF_SAMPLES).

Local Abbreviation A := (start / SAMPLES_PER_L1_BIT).
Local Abbreviation B := ((end_ - 1) / SAMPLES_PER_L1_BIT + 1).

(** The groups of a group of the second level. *)
Definition l1_in (l2 : Z) : option Z :=
  match byte_at (view_l1_toggle lv) l2 with
  | None => None
  | Some l1_bits =>
      let first_l1 := Z.max A (l2 * 64) in
      let l1_end := Z.min B (l2 * 64 + 64) in
      match nonzero_trailing_bit (Z.land l1_bits (range_mask (first_l1 - l2 * 64) (l1_end - l2 * 64))) with
      | Some l1_offset => Some (l2 * 64 + l1_offset)
      | None => None
      end
  end.

Definition l2_in (l3 : Z) : option Z :=
  match byte_at (view_l2_toggle lv) l3 with
  | None => None
  | Some l2_bits =>
      let first_l2 := Z.max (start / SAMPLES_PER_L2_BIT) (l3 * 64) in
      let l2_end := Z.min ((end_ - 1) / SAMPLES_PER_L2_BIT + 1) (l3 * 64 + 64) in
      first_some (fun j => l1_in (l3 * 64 + j))
        (bits_from (Z.land l2_bits (range_mask (first_l2 - l3 * 64) (l2_end - l3 * 64))) 0)
  end.

Lemma byte_at_row (words : list Z) i n : zlen words = n -> 0 <= i < n -> exists w, byte_at words i = Some w /\ words !! Z.to_nat i = Some w.
Proof.
  intros Hz Hi. destruct (row_lookup words i ltac:(lia)) as [w Hw]. exists w. split; [|done].
  unfold byte_at. by rewrite (proj2 (Z.ltb_ge _ _)) by lia.
Qed.

Lemma l1_in_least l2 :
  start / SAMPLES_PER_L2_BIT <= l2 <= (end_ - 1) / SAMPLES_PER_L2_BIT ->
  least_in (bit_at (view_l1_toggle lv)) (Z.max A (64 * l2)) (Z.min B (64 * l2 + 64)) (l1_in l2).
Proof.
  intros Hl2. destruct Hnested as ((Hok & Hz) & _). unfold l1_in, SAMPLES_PER_L1_BIT, SAMPLES_PER_L2_BIT, MAX_LEAF_SAMPLES in *.
  assert (Hr : 0 <= l2 < 4096) by dlia.
  destruct (byte_at_row _ l2 4096 Hz Hr) as (w & -> & Hw).
  assert (Hu : u64 w) by (eapply Forall_lookup_1; [exact Hok|exact Hw]).
  pose proof (masked_least w (Z.max (start / 64) (l2 * 64) - l2 * 64) (Z.min ((end_ - 1) / 64 + 1) (l2 * 64 + 64) - l2 * 64)
    Hu ltac:(dlia) ltac:(dlia)) as Hm.
  assert (Hbit : forall k, 64 * l2 <= k < 64 * l2 + 64 -> bit_at (view_l1_toggle lv) k = Z.testbit w (k - 64 * l2)).
  { intros k Hk. replace k with (64 * l2 + (k - 64 * l2)) at 1 by dlia. rewrite bit_at_split by dlia. by rewrite Hw. }
  destruct (nonzero_trailing_bit _) as [j|]; cbn in *.
  - destruct Hm as (Hj & Hb & Hlow). split; [dlia|]. rewrite Hbit by dlia.
    split; [by replace (l2 * 64 + j - 64 * l2) with j by dlia|]. intros k Hk. rewrite Hbit by dlia. apply Hlow. dlia.
  - intros k Hk. rewrite Hbit by dlia. apply Hm. dlia.
Qed.

Lemma l2_loop_step fuel base bits t :
  nonzero_trailing_bit bits = Some t -> is_Some (byte_at (view_l1_toggle lv) (base + t)) ->
  l2_loop (S fuel) lv start end_ base bits =
    match l1_in (base + t) with
    | Some g => Some (Some g)
    | None => l2_loop fuel lv start end_ base (Z.land bits (bits - 1))
    end.
Proof.
  intros Ht [w Hw]. cbn [l2_loop]. rewrite Ht. unfold l1_in. rewrite Hw. cbv zeta.
  by destruct (nonzero_trailing_bit (Z.land w _)).
Qed.

Lemma l2_loop_first fuel base bits :
  u64 bits -> (length (bits_from bits 0) <= fuel)%nat -> 0 <= base -> base + 64 <= 4096 ->
  l2_loop fuel lv start end_ base bits = Some <$> first_some (fun j => l1_in (base + j)) (bits_from bits 0).
Proof.
  intros Hu Hlen Hb0 Hb. revert bits Hu Hlen. induction fuel as [|fuel IH]; intros bits Hu Hlen.
  { destruct (bits_from bits 0) as [|b l]; [done|]. apply Nat.nle_succ_0 in Hlen. done. }
  destruct (Z.eq_dec bits 0) as [->|Hne].
  { rewrite bits_from_zero. done. }
  destruct (trailing_zeros_spec bits Hu Hne) as (Ht & _).
  assert (Hnz : nonzero_trailing_bit bits = Some (trailing_zeros bits)).
  { unfold nonzero_trailing_bit. by rewrite (proj2 (Z.eqb_neq _ _)) by done. }
  destruct Hnested as ((_ & Hz) & _).
  destruct (byte_at_row _ (base + trailing_zeros bits) 4096 Hz ltac:(lia)) as (w & Hw & _).
  rewrite (l2_loop_step fuel base bits _ Hnz (mk_is_Some _ _ Hw)).
  rewrite (bits_from_lowest bits) in Hlen |- * by done. apply le_S_n in Hlen. rewrite first_some_cons.
  destruct (l1_in (base + trailing_zeros bits)); [done|]. apply IH; [by apply clear_lowest_u64|done].
Qed.

Lemma l2_in_least l3 :
  start / SAMPLES_PER_L3_BIT <= l3 <= (end_ - 1) / SAMPLES_PER_L3_BIT ->
  least_in (bit_at (view_l1_toggle lv)) (Z.max A (4096 * l3)) (Z.min B (4096 * l3 + 4096)) (l2_in l3).
Proof.
  intros Hl3. pose proof Hnested as (_ & (Hok & Hz) & _ & Hn12 & _).
  pose proof l1_in_least as Hl1. unfold l2_in, SAMPLES_PER_L1_BIT, SAMPLES_PER_L2_BIT, SAMPLES_PER_L3_BIT, MAX_LEAF_SAMPLES in *.
  assert (Hr : 0 <= l3 < 64) by dlia. destruct (byte_at_row _ l3 64 Hz Hr) as (w & -> & Hw).
  assert (Hu : u64 w) by (eapply Forall_lookup_1; [exact Hok|exact Hw]). cbv zeta.
  set (lo := Z.max (start / 4096) (l3 * 64)). set (hi := Z.min ((end_ - 1) / 4096 + 1) (l3 * 64 + 64)).
  rewrite masked_bits by dlia. replace (hi - l3 * 64 - (lo - l3 * 64)) with (hi - lo) by dlia.
  rewrite first_some_shift by dlia. replace (l3 * 64 + (lo - l3 * 64)) with lo by dlia.
  replace (Z.max (start / 64) (4096 * l3)) with (Z.max (start / 64) (64 * lo)) by dlia.
  replace (Z.min ((end_ - 1) / 64 + 1) (4096 * l3 + 4096)) with (Z.min ((end_ - 1) / 64 + 1) (64 * (lo + (hi - lo)))) by dlia.
  apply search_groups; [dlia|dlia| |].
  - intros j Hj _. apply Hl1. dlia.
  - intros j k Hj Hp Hk. destruct (bit_at (view_l1_toggle lv) k) eqn:Hbit; [|done].
    specialize (Hn12 k ltac:(dlia) Hbit). replace (k / 64) with (64 * l3 + (j - l3 * 64)) in Hn12 by dlia.
    rewrite bit_at_split in Hn12 by dlia. rewrite Hw in Hn12. congruence.
Qed.

Lemma l3_loop_first count l3 :
  start / SAMPLES_PER_L3_BIT <= l3 -> l3 + Z.of_nat count <= (end_ - 1) / SAMPLES_PER_L3_BIT + 1 ->
  l3_loop count lv start end_ l3 =
  first_some l2_in (List.filter (Z.testbit (view_l3_toggle lv)) (seqZ l3 (Z.of_nat count))).
Proof.
  pose proof Hnested as (_ & (Hok & Hz) & Hu3 & _).
  revert l3. induction count as [|count IH]; intros l3 Hl3 Hc; [done|]. cbn [l3_loop].
  rewrite seqZ_cons by dlia. replace (Z.pred (Z.of_nat (S count))) with (Z.of_nat count) by dlia.
  replace (Z.succ l3) with (l3 + 1) by dlia. cbn [List.filter].
  specialize (IH (l3 + 1) ltac:(dlia) ltac:(dlia)).
  assert (H0 : 0 <= start / SAMPLES_PER_L3_BIT) by (unfold SAMPLES_PER_L3_BIT; dlia).
  rewrite bit_testbit by (done || dlia). destruct (Z.testbit (view_l3_toggle lv) l3); cbn [negb]; [|done].
  unfold SAMPLES_PER_L2_BIT, SAMPLES_PER_L3_BIT, MAX_LEAF_SAMPLES in *.
  assert (Hr : 0 <= l3 < 64) by dlia. destruct (byte_at_row _ l3 64 Hz Hr) as (w & Hb & Hw).
  cbn [first_some]. unfold l2_in at 1. rewrite Hb. cbv zeta.
  assert (Hu : u64 w) by (eapply Forall_lookup_1; [exact Hok|exact Hw]).
  rewrite l2_loop_first; [|apply masked_u64; [done|dlia|dlia]|apply length_bits_from|dlia|dlia].
  destruct (first_some _ (bits_from _ 0)); [done|exact IH].
Qed.

(** The descent finds the first active group of the range. *)
Lemma next_group_least : least_in (bit_at (view_l1_toggle lv)) A B (next_indexed_l1_group lv start end_).
Proof.
  pose proof l2_in_least as Hl2. pose proof Hnested as (_ & _ & Hu3 & Hn12 & Hn23).
  unfold next_indexed_l1_group. rewrite (proj2 (Z.leb_gt _ _)) by dlia. cbv zeta.
  assert (Hd : 0 <= start / SAMPLES_PER_L3_BIT <= (end_ - 1) / SAMPLES_PER_L3_BIT /\ (end_ - 1) / SAMPLES_PER_L3_BIT < 64).
  { unfold SAMPLES_PER_L3_BIT, MAX_LEAF_SAMPLES in *. dlia. }
  rewrite Z.min_l by lia.
  rewrite l3_loop_first by lia. rewrite Z2Nat.id by lia.
  unfold SAMPLES_PER_L1_BIT, SAMPLES_PER_L3_BIT in *. set (lo := start / 262144) in *. set (hi := (end_ - 1) / 262144) in *.
  assert (Hlo : 4096 * lo <= start / 64) by (subst lo; dlia).
  assert (Hhi : (end_ - 1) / 64 + 1 <= 4096 * (hi + 1)) by (subst hi; dlia).
  replace (start / 64) with (Z.max (start / 64) (4096 * lo)) by lia.
  replace ((end_ - 1) / 64 + 1) with (Z.min ((end_ - 1) / 64 + 1) (4096 * (lo + (hi - lo + 1)))) by lia.
  apply search_groups; [lia|lia| |].
  - intros j Hj _. apply Hl2. lia.
  - intros j k Hj Hp Hk. destruct (bit_at (view_l1_toggle lv) k) eqn:Hbit; [|done].
    specialize (Hn23 (k / 64) ltac:(dlia) (Hn12 k ltac:(dlia) Hbit)).
    replace (k / 64 / 64) with j in Hn23 by dlia. congruence.
Qed.
End Descent.

(** ** The state of a sampler *)

Section Capture.
Context (meta : CaptureMetadata) (data : Z -> Z -> list Z) (Hcap : capture_ok meta data).

Local Abbreviation channels := (total_probes meta).
Local Abbreviation blocks := (total_blocks meta).
Local Abbreviation spb := (samples_per_block meta).
Local Abbreviation total := (total_samples meta).
Local Abbreviation all_leaves := (leaves meta data).
Local Abbreviation L := (level_at meta data).

Lemma leaves_all_ok : leaves_ok meta all_leaves.
Proof.
  pose proof Hcap as (Hs & Ht & Hc0 & Hbl & _). assert (Hb0 : 0 <= blocks) by (rewrite Hbl; apply div_ceil_nonneg; ints).
  split; [apply zlen_leaves; nia|]. intros ch bl leaf Hc Hb Hl. rewrite leaves_byte_at in Hl by done. injection Hl as <-.
  pose proof (block_samples_range meta data Hcap bl Hb) as Hn. destruct (leaf_of_ok meta data Hcap ch bl Hc Hb) as [_ Hle].
  split; [eapply leaf_exact_fits; [|exact Hle]; lia|]. destruct Hle as (-> & _).
  pose proof (block_range meta data Hcap bl Hb) as Hr. unfold expected_samples, block_samples, MAX_LEAF_SAMPLES in *. cbv zeta.
  assert (Hu : u64 (bl * spb)) by (clear - Hr Ht; ints).
  rewrite mul64_small, saturating_sub64_small by (done || lia). unfold u32_max. lia.
Qed.

(** ** Changes of level *)

Definition edge (ch i : Z) : bool := xorb (L ch i) (L ch (i - 1)).

(** The transitions of a channel from sample [lo] to [hi]. *)
Definition edges (ch lo hi : Z) : list CaptureTransition :=
  map (fun i => mkTransition i (L ch i)) (List.filter (edge ch) (seqZ lo (hi - lo))).

Lemma edges_split ch lo mid hi : lo <= mid <= hi -> edges ch lo hi = edges ch lo mid ++ edges ch mid hi.
Proof.
  intros Hm. unfold edges. replace (hi - lo) with ((mid - lo) + (hi - mid)) by lia.
  rewrite seqZ_app, List.filter_app, map_app by lia. by replace (lo + (mid - lo)) with mid by lia.
Qed.

Lemma edges_none ch lo hi : (forall i, lo <= i < hi -> edge ch i = false) -> edges ch lo hi = [].
Proof.
  intros Hno. unfold edges. rewrite filter_all_false; [done|]. intros i ?%in_seqZ_range. apply Hno. lia.
Qed.

Lemma edges_skip ch lo mid hi : lo <= mid <= hi -> (forall i, lo <= i < mid -> edge ch i = false) ->
  edges ch lo hi = edges ch mid hi.
Proof. intros Hm Hno. rewrite (edges_split ch lo mid hi Hm), edges_none by done. done. Qed.

Lemma edges_empty ch lo hi : hi <= lo -> edges ch lo hi = [].
Proof. intros Hm. apply edges_none. intros i Hi. lia. Qed.

(** Blocks start at multiples of their size and are full up to the capture's last. *)
Lemma block_of_sample i : 0 <= i < total ->
  0 <= i / spb < blocks /\ 0 <= i - i / spb * spb < block_samples meta (i / spb) /\ i / spb * spb <= i.
Proof.
  intros Hi. destruct Hcap as (Hs & Ht & _ & Hbl & _). unfold block_samples.
  pose proof (Z.div_mod i spb). pose proof (Z.mod_pos_bound i spb).
  assert (0 <= i / spb) by (apply Z.div_pos; lia).
  split; [split; [done|]; rewrite Hbl; apply div_ceil_lt; lia|]. lia.
Qed.

Lemma toggles_edge ch bl i :
  0 <= i < block_samples meta bl -> 0 < bl * spb + i ->
  toggles (packed_bit (data ch bl)) (entering meta data ch bl) i = edge ch (bl * spb + i).
Proof.
  intros Hi Hpos. unfold block_samples in Hi. unfold toggles, edge. rewrite sample_local by (done || lia). f_equal.
  destruct (Z.eqb_spec i 0) as [->|].
  - unfold entering. destruct (Z.eqb_spec bl 0) as [->|]; [lia|]. by rewrite Z.add_0_r.
  - replace (bl * spb + i - 1) with (bl * spb + (i - 1)) by lia. rewrite sample_local; [done|lia].
Qed.

(** A change of level is marked in the leaf of its block. *)
Lemma edge_marked ch bl i :
  0 <= ch < channels -> 0 <= bl < blocks -> 0 <= i < block_samples meta bl -> 0 < bl * spb + i ->
  edge ch (bl * spb + i) = true ->
  exists l, levels (leaf_of meta data ch bl) = Some l /\ bit_at (l1_toggle l) (i / 64) = true.
Proof.
  intros Hc Hb Hi Hpos He. destruct (leaf_of_ok meta data Hcap ch bl Hc Hb) as [_ (_ & _ & _ & Hsum)].
  rewrite <- toggles_edge in He by done. unfold summary_exact in Hsum. destruct (levels _) as [l|].
  - exists l. split; [done|]. destruct Hsum as [((_ & _ & [_ Hbit] & _) & _) _]. apply Hbit; [dlia|].
    unfold SAMPLES_PER_L1_BIT in *. split; [apply div_ceil_lt; dlia|]. exists i. split; [dlia|]. split; [lia|done].
  - unfold toggles in He. destruct (Z.eqb_spec i 0) as [->|]; rewrite !Hsum, xorb_nilpotent in He by lia; done.
Qed.

Lemma unmarked_block ch bl i :
  0 <= ch < channels -> 0 <= bl < blocks -> levels (leaf_of meta data ch bl) = None ->
  0 <= i < block_samples meta bl -> 0 < bl * spb + i -> edge ch (bl * spb + i) = false.
Proof.
  intros Hc Hb Hn Hi Hpos. destruct (edge ch (bl * spb + i)) eqn:He; [|done].
  destruct (edge_marked ch bl i Hc Hb Hi Hpos He) as (l & Hl & _). congruence.
Qed.

(** The levels of a leaf are nested. *)
Lemma leaf_view_nested ch bl l :
  0 <= ch < channels -> 0 <= bl < blocks -> levels (leaf_of meta data ch bl) = Some l -> view_nested (levels_view l).
Proof.
  intros Hc Hb Hl. destruct (leaf_of_ok meta data Hcap ch bl Hc Hb) as [_ (_ & _ & _ & Hsum)]. rewrite Hl in Hsum.
  destruct Hsum as [((Hz1 & _ & [Ho1 Hb1] & _) & (Hz2 & _ & [Ho2 Hb2] & _) & (_ & _ & [Ho3 Hb3] & _)) _].
  unfold view_nested, SAMPLES_PER_L1_BIT, SAMPLES_PER_L2_BIT, SAMPLES_PER_L3_BIT in *. cbn [levels_view view_l1_toggle view_l2_toggle view_l3_toggle].
  assert (Hu3 : u64 (l3_toggle l)) by exact (Forall_inv Ho3).
  split; [done|]. split; [done|]. split; [done|]. split.
  - intros g Hg Hbit. apply Hb1 in Hbit as (Hlim & i & Hi & Hin & Ht); [|done]. apply Hb2; [dlia|].
    split; [apply div_ceil_lt; dlia|]. exists i. split; [dlia|done].
  - intros g Hg Hbit. apply Hb2 in Hbit as (Hlim & i & Hi & Hin & Ht); [|done].
    assert (Hbit3 : bit_at [l3_toggle l] (g / 64) = true).
    { apply Hb3; [dlia|]. split; [apply div_ceil_lt; dlia|]. exists i. split; [dlia|done]. }
    pose proof (block_samples_range meta data Hcap bl Hb) as Hn. unfold MAX_LEAF_SAMPLES in Hn.
    replace (g / 64) with (64 * 0 + g / 64) in Hbit3 by lia. rewrite bit_at_split in Hbit3 by dlia. done.
Qed.

(** ** Words of a block *)

Lemma word_toggles_u64 word e lo hi : u64 word -> 0 <= lo < 64 -> lo <= hi <= 64 -> u64 (word_toggles word e lo hi).
Proof.
  intros Hw Hlo Hhi. apply masked_u64; [|lia|lia]. apply u64_bits.
  - assert (Hs : 0 <= shl64 word 1) by (apply Z.land_nonneg; right; unfold u64_max; lia).
    assert (Hw0 : 0 <= word) by ints.
    apply Z.lxor_nonneg. split; intros _; [|done]. apply Z.lor_nonneg. split; [done|by destruct e].
  - intros j Hj. rewrite Z.lxor_spec, Z.lor_spec, testbit_shl64, testbit_u64 by (done || lia).
    rewrite (proj2 (Z.ltb_ge _ _)), andb_false_r by lia.
    destruct e; cbn [b2z]; [|by rewrite Z.bits_0]. by rewrite (testbit_u64 1) by (done || lia).
Qed.

(** The bits of a word that differ from the bit before, which for the first is the entering level. *)
Lemma word_toggles_bits word e lo hi : u64 word -> 0 <= lo < 64 -> lo <= hi <= 64 ->
  bits_from (word_toggles word e lo hi) 0 =
  List.filter (fun j => xorb (Z.testbit word j) (if j =? 0 then e else Z.testbit word (j - 1))) (seqZ lo (hi - lo)).
Proof.
  intros Hw Hlo Hhi. unfold word_toggles. rewrite masked_bits by done. apply List.filter_ext_in.
  intros j ?%in_seqZ_range. rewrite Z.lxor_spec, Z.lor_spec, testbit_shl64 by lia. f_equal.
  rewrite (proj2 (Z.ltb_lt j 64)), andb_true_r by lia.
  destruct (Z.eqb_spec j 0) as [->|]; [by destruct e|].
  replace (Z.testbit (b2z e) j) with false; [by rewrite orb_false_r|].
  symmetry. destruct e; cbn [b2z]; [|apply Z.bits_0]. destruct j; try lia. by destruct p.
Qed.

Lemma word_toggles_below word e lo hi j :
  0 <= lo < 64 -> 0 <= hi <= 64 -> 0 <= j -> Z.testbit (word_toggles word e lo hi) j = true -> j < hi.
Proof.
  intros Hlo Hhi Hj Hb. unfold word_toggles in Hb. rewrite Z.land_spec, testbit_range_mask in Hb by done.
  apply andb_true_iff in Hb as [_ Hb]. apply andb_true_iff in Hb as [_ Hb]. lia.
Qed.

Lemma filter_map {A B} (p : B -> bool) (f : A -> B) l :
  List.filter p (map f l) = map f (List.filter (fun x => p (f x)) l).
Proof. induction l as [|x l IH]; [done|]. cbn. destruct (p (f x)); cbn; by rewrite IH. Qed.

Lemma block_data ch bl : 0 <= ch < channels -> 0 <= bl < blocks -> bytes_ok (data ch bl).
Proof. intros Hc Hb. destruct Hcap as (_ & _ & _ & _ & Hd). by apply Hd. Qed.

(** The level before a word of a block. *)
Definition word_entering (ch bl w : Z) (e : bool) : Prop := 0 < bl * spb + 64 * w -> e = L ch (bl * spb + 64 * w - 1).

Definition transition_at (word base j : Z) : CaptureTransition := mkTransition (base + j) (Z.testbit word j).

(** The changes in a word are the transitions of its samples. *)
Lemma word_edges ch bl w e lo hi :
  0 <= ch < channels -> 0 <= bl < blocks -> 0 <= w -> (lo = 0 -> word_entering ch bl w e) ->
  0 <= lo < 64 -> lo <= hi <= 64 -> 0 < bl * spb + 64 * w + lo -> 64 * w + hi <= spb ->
  map (transition_at (load_le_word (data ch bl) w) (bl * spb + 64 * w))
    (bits_from (word_toggles (load_le_word (data ch bl) w) e lo hi) 0) =
  edges ch (bl * spb + 64 * w + lo) (bl * spb + 64 * w + hi).
Proof.
  intros Hc Hb Hw He Hlo Hhi Hpos Hend. pose proof (block_data ch bl Hc Hb) as Hd.
  set (base := bl * spb + 64 * w) in *. rewrite word_toggles_bits by (done || by apply load_le_word_u64).
  assert (Hbit : forall j, 0 <= j < 64 -> 64 * w + j < spb -> Z.testbit (load_le_word (data ch bl) w) j = L ch (base + j)).
  { intros j Hj Hjs. rewrite testbit_load by done. rewrite <- (sample_local meta data ch bl) by lia. f_equal. lia. }
  unfold edges. replace (base + hi - (base + lo)) with (hi - lo) by lia.
  replace (seqZ (base + lo) (hi - lo)) with (map (Z.add base) (seqZ lo (hi - lo))).
  2: { apply fmap_add_seqZ. }
  rewrite filter_map, map_map.
  rewrite (List.filter_ext_in _ (fun x => edge ch (base + x)) (seqZ lo (hi - lo))).
  - apply map_ext_in. intros j [Hj%in_seqZ_range _]%List.filter_In. unfold transition_at. by rewrite Hbit by lia.
  - intros j Hj%in_seqZ_range. rewrite Hbit by lia. unfold edge. f_equal.
    destruct (Z.eqb_spec j 0) as [->|]; [rewrite He by lia; f_equal; lia|]. rewrite Hbit by lia. f_equal. lia.
Qed.

Lemma take_one_more {A} (x : A) l n : (0 < n)%nat -> take n (x :: l) = x :: take (n - 1) l.
Proof. intros Hn. destruct n as [|n]; [lia|]. cbn. by rewrite Nat.sub_0_r. Qed.

(** Draining a word appends its changes, up to the bound. *)
Lemma append_bits_ok fuel word base toggles max output :
  u64 word -> u64 toggles -> (length (bits_from toggles 0) <= fuel)%nat ->
  append_bits fuel word base toggles max output =
  output ++ take (Z.to_nat (max - zlen output)) (map (transition_at word base) (bits_from toggles 0)).
Proof.
  intros Hw. revert toggles output. induction fuel as [|fuel IH]; intros toggles output Hu Hlen; cbn [append_bits].
  { destruct (bits_from toggles 0); [|cbn in Hlen; lia]. cbn [map]. by rewrite take_nil, app_nil_r. }
  destruct (Z.ltb_spec (zlen output) max) as [Hlt|Hge].
  2: { replace (Z.to_nat (max - zlen output)) with 0%nat by lia. by rewrite app_nil_r. }
  unfold nonzero_trailing_bit. destruct (Z.eqb_spec toggles 0) as [->|Hne]; cbn [negb].
  { rewrite bits_from_zero. cbn [map]. by rewrite take_nil, app_nil_r. }
  destruct (trailing_zeros_spec toggles Hu Hne) as (Ht & _). rewrite bits_from_lowest in Hlen |- * by done.
  apply le_S_n in Hlen. rewrite IH by (done || by apply clear_lowest_u64). rewrite map_cons, take_one_more by lia.
  rewrite <- app_assoc. cbn [app]. unfold transition_at at 3. rewrite bit_testbit by (done || lia). do 3 f_equal.
  rewrite zlen_app, zlen_cons. change (zlen []) with 0. lia.
Qed.

Lemma push_loop_bits fuel word base toggles out :
  u64 word -> u64 toggles -> (length (bits_from toggles 0) <= fuel)%nat ->
  push_loop fuel word base toggles out = out ++ map (transition_at word base) (bits_from toggles 0).
Proof.
  intros Hw. revert toggles out. induction fuel as [|fuel IH]; intros toggles out Hu Hlen; cbn [push_loop].
  { destruct (bits_from toggles 0); [|cbn in Hlen; lia]. by rewrite app_nil_r. }
  destruct (Z.eqb_spec toggles 0) as [->|Hne]; [by rewrite bits_from_zero, app_nil_r|].
  destruct (trailing_zeros_spec toggles Hu Hne) as (Ht & _). rewrite bits_from_lowest in Hlen |- * by done.
  apply le_S_n in Hlen. rewrite IH by (done || by apply clear_lowest_u64). rewrite map_cons, <- app_assoc. cbn [app].
  unfold transition_at at 3. do 3 f_equal. change 1 with (Z.shiftl 1 0). rewrite land_bit by lia.
  by rewrite Z.shiftr_spec, Z.add_0_l by lia.
Qed.

Section Sampling.
Context (read_packed_block : Z -> Z -> result (failure Error) (list Z)).
Context (Hread : forall ch bl, 0 <= ch < channels -> 0 <= bl < blocks -> read_packed_block ch bl = Ok (data ch bl)).
Context (identity : list Z) (source_revision : Z) (Hmeta : metadata_ok meta source_revision).
Context (hash : list Z -> list Z) (Hinj : Inj (=) (=) hash) {R : Type} `{RepositoryLaws R}.

Definition index_in (r : R) : Prop := exists r0, index_published meta data identity source_revision hash r0 r.

(** Raw blocks in the repository are those of the capture. *)
Definition raw_blocks_ok (r : R) : Prop := forall ch bl c, 0 <= ch < channels -> 0 <= bl < blocks ->
  contents r (raw_block_key hash identity ch bl) = Some c -> c = data ch bl.

Definition raw_ok (key : Z * Z) (c : list Z) : Prop := c = data (fst key) (snd key).

Definition sampler_ok (s : IndexSampler) : Prop :=
  reader_ok identity meta all_leaves (storage s) /\ index_in (repository s) /\ raw_blocks_ok (repository s) /\
  sampler_identity s = identity /\ cache_ok raw_ok (raw_block_cache s).

(** A computation that succeeds with [v] in any state of the sampler. *)
Definition returns {A} (m : @Sampling R A) (v : A) : Prop :=
  forall s, sampler_ok s -> exists s', m s = (Ok v, s') /\ sampler_ok s'.

Lemma header_ok s : sampler_ok s -> header_of s = meta.
Proof. intros ((_ & Hh & _) & _). exact Hh. Qed.

Lemma raw_key_namespace ch bl : fst (raw_block_key hash identity ch bl) = RAW_BLOCK_NAMESPACE.
Proof. done. Qed.

Lemma raw_key_inj ch bl ch' bl' : u64 ch -> u64 bl -> u64 ch' -> u64 bl' ->
  raw_block_key hash identity ch bl = raw_block_key hash identity ch' bl' -> ch = ch' /\ bl = bl'.
Proof.
  intros H1 H2 H3 H4 Hk. apply (f_equal snd) in Hk. unfold raw_block_key, artifact_key in Hk. cbn [snd] in Hk. apply Hinj in Hk.
  apply app_inv_head, app_inv_head in Hk. cbn [optional_bytes] in Hk.
  apply app_inj_1 in Hk as [Hc Hb]; [|by rewrite !length_to_le_bytes].
  split.
  - rewrite <- (from_to_le_bytes 8 ch), <- (from_to_le_bytes 8 ch'), Hc; [done|..];
      change (256 ^ Z.of_nat 8) with 18446744073709551616; ints.
  - rewrite <- (from_to_le_bytes 8 bl), <- (from_to_le_bytes 8 bl'), Hb; [done|..];
      change (256 ^ Z.of_nat 8) with 18446744073709551616; ints.
Qed.

(** Publishing a raw block leaves the index as it is. *)
Lemma publish_raw_index r r' ch bl c :
  (forall key, contents r' key = if decide (key = raw_block_key hash identity ch bl) then Some c else contents r key) ->
  index_in r -> index_in r'.
Proof.
  intros Hr' (r0 & (dir & Hroot & Hd) & Hkept & Hseg). exists r'.
  split.
  - exists dir. split; [|exact Hd]. rewrite Hr'. destruct (decide _) as [Hk|]; [discriminate Hk|exact Hroot].
  - split; [done|]. intros k Hk Hlt. rewrite Hr'. destruct (decide _) as [He|]; [discriminate He|]. by apply Hseg.
Qed.

Lemma channel_u64 ch bl : 0 <= ch < channels -> 0 <= bl < blocks -> u64 ch /\ u64 bl.
Proof. intros Hc Hb. destruct Hmeta as (_ & _ & _ & _ & _ & Hub & _ & _ & Huc). clear - Hc Hb Hub Huc. split; ints. Qed.

Lemma publish_raw_blocks r r' ch bl :
  0 <= ch < channels -> 0 <= bl < blocks ->
  (forall key, contents r' key = if decide (key = raw_block_key hash identity ch bl) then Some (data ch bl) else contents r key) ->
  raw_blocks_ok r -> raw_blocks_ok r'.
Proof.
  intros Hc Hb Hr' Hr ch' bl' c Hc' Hb'. rewrite Hr'. destruct (decide _) as [He|]; [|by apply Hr].
  destruct (channel_u64 ch bl Hc Hb) as [U1 U2]. destruct (channel_u64 ch' bl' Hc' Hb') as [U3 U4].
  destruct (raw_key_inj _ _ _ _ U3 U4 U1 U2 He) as [-> ->]. congruence.
Qed.

Lemma read_region_ok (reader : ArtifactReader) c : reader_serves reader c -> read_artifact_region reader (zlen c) = Ok c.
Proof.
  intros Hs. pose proof Hs as (_ & Hreg & _). unfold read_artifact_region.
  destruct Hreg as [-> | ->]; cbn [repository_result]; [by apply copy_all|done].
Qed.

Lemma cached_raw_contents s ch bl : sampler_ok s ->
  cached_raw_block hash s ch bl = Ok (contents (repository s) (raw_block_key hash identity ch bl)).
Proof.
  intros (_ & _ & _ & Hi & _). unfold cached_raw_block. rewrite Hi.
  pose proof (open_contents (repository s) (raw_block_key hash identity ch bl)) as Ho.
  destruct (contents _ _) as [c|]; [|by rewrite Ho]. destruct Ho as (reader & -> & Hs). cbn [repository_result].
  pose proof Hs as (Hlen & _). rewrite Hlen. cbn [repository_result]. by rewrite read_region_ok.
Qed.

Lemma cached_packed_block_ok ch bl : 0 <= ch < channels -> 0 <= bl < blocks ->
  returns (cached_packed_block read_packed_block hash ch bl) (data ch bl).
Proof.
  intros Hc Hb s Hs. pose proof Hs as (Hr & Hi & Hraw & Hid & Hca). unfold cached_packed_block.
  destruct (get_ok touch_raw raw_ok (ch, bl) (raw_block_cache s) touch_raw_moves Hca) as [Hca' Hfound].
  destruct (get touch_raw (ch, bl) (raw_block_cache s)) as [[c|] cache]; cbn [fst snd] in *.
  { rewrite Hfound. eexists. split; [done|]. by repeat (split; [done|]). }
  set (s1 := with_raw_cache s cache). assert (Hs1 : sampler_ok s1) by by repeat (split; [done|]).
  rewrite (cached_raw_contents s1 ch bl Hs1).
  assert (Hinsert : forall s2, sampler_ok s2 -> exists s',
    match insert touch_raw RAW_BLOCK_CACHE_CAPACITY (ch, bl) (data ch bl) (raw_block_cache s2) with
    | Some cache => (Ok (data ch bl), with_raw_cache s2 cache)
    | None => (@Err (failure Error) (list Z) Diverges, s2)
    end = (Ok (data ch bl), s') /\ sampler_ok s').
  { intros s2 (H1 & H2 & H3 & H4 & H5).
    destruct (insert_ok touch_raw raw_ok RAW_BLOCK_CACHE_CAPACITY (ch, bl) (data ch bl) (raw_block_cache s2)
      touch_raw_moves H5 eq_refl) as (cache' & -> & Hc'). eexists. split; [done|]. by repeat (split; [done|]). }
  destruct (contents (repository s1) _) as [c|] eqn:Hcont.
  { apply (Hraw ch bl c Hc Hb) in Hcont as ->. by apply Hinsert. }
  rewrite Hread by done. unfold publish_raw_block.
  change (sampler_identity s1) with (sampler_identity s). change (repository s1) with (repository s). rewrite Hid.
  destruct (publish_ok (repository s) (raw_block_key hash identity ch bl) (data ch bl)) as (r' & -> & Hr').
  apply Hinsert. split; [done|]. split; [by eapply publish_raw_index|]. split; [by eapply publish_raw_blocks|]. done.
Qed.

Lemma root_summary_ok ch bl : 0 <= ch < channels -> 0 <= bl < blocks -> exists entry,
  returns (root_summary ch bl) entry /\
  entry_toggle entry = (match levels (leaf_of meta data ch bl) with Some _ => true | None => false end) /\
  entry_first entry = first (leaf_of meta data ch bl) /\ entry_last entry = last (leaf_of meta data ch bl) /\
  entry_l3_toggle entry = (match levels (leaf_of meta data ch bl) with Some l => l3_toggle l | None => 0 end) /\
  entry_l3_last entry = (match levels (leaf_of meta data ch bl) with Some l => l3_last l | None => 0 end).
Proof.
  intros Hc Hb. set (leaf := leaf_of meta data ch bl).
  assert (Hload : forall ir, reader_ok identity meta all_leaves ir ->
    load_root_summary ir ch bl = Ok (entry_at all_leaves (ch * blocks + bl)) ).
  { intros ir Hir. unfold load_root_summary. destruct Hir as (_ & _ & (_ & _ & ->) & _); done. }
  exists (entry_at all_leaves (ch * blocks + bl)). split.
  { intros s Hs. exists s. split; [|done]. unfold root_summary. by rewrite Hload by apply Hs. }
  unfold entry_at. rewrite leaves_byte_at by done. done.
Qed.

Lemma leaf_summary_ok ch bl : 0 <= ch < channels -> 0 <= bl < blocks ->
  returns (leaf_summary hash ch bl) (view_of (leaf_of meta data ch bl)).
Proof.
  intros Hc Hb s Hs. pose proof Hs as (Hr & (r0 & Hi) & Hrest). unfold leaf_summary.
  destruct (load_leaf_ok hash identity meta source_revision all_leaves r0 Hmeta leaves_all_ok
    (repository s) (storage s) ch bl Hi Hr Hc Hb) as (leaf & ir' & Hl & -> & Hr').
  rewrite leaves_byte_at in Hl by done. injection Hl as <-. eexists. split; [done|].
  split; [done|]. split; [by exists r0|exact Hrest].
Qed.

(** ** Values *)

Lemma div_spb {E} i : @div_blocks E i spb = Ok (i / spb).
Proof. destruct Hcap as ((Hs & _) & _). unfold div_blocks. by rewrite (proj2 (Z.eqb_neq _ _)) by lia. Qed.

Lemma read_sample ch i : 0 <= i < total -> packed_bit (data ch (i / spb)) (i mod spb) = L ch i.
Proof. done. Qed.

Lemma sampler_value_ok ch i : 0 <= ch < channels -> 0 <= i < total ->
  returns (value_at read_packed_block hash ch i) (L ch i).
Proof.
  intros Hc Hi s Hs. unfold value_at. rewrite header_ok by done.
  rewrite !(proj2 (Z.leb_gt _ _)), div_spb by lia. destruct (block_of_sample i Hi) as (Hb & _).
  destruct (cached_packed_block_ok ch _ Hc Hb s Hs) as (s' & -> & Hs'). by exists s'.
Qed.

(** The first position outside of the capture. *)
Definition first_outside (positions : list Z) : option Z := List.find (fun i => total <=? i) positions.

Lemma values_in_block_ok ch bl positions output :
  Forall (fun i => 0 <= i) positions ->
  (exists i, first_outside positions = Some i /\
     values_in_block total spb bl (data ch bl) positions output = out_of_bounds i) \/
  (exists now later, positions = now ++ later /\ first_outside positions = first_outside later /\
    values_in_block total spb bl (data ch bl) positions output = Ok (later, output ++ map (L ch) now) /\
    match positions with i :: _ => i / spb = bl -> (length later < length positions)%nat | [] => True end).
Proof.
  intros Hall. revert output. induction Hall as [|i positions Hi Hall IH]; intros output.
  { right. exists [], []. cbn. by rewrite app_nil_r. }
  unfold first_outside. cbn [values_in_block List.find]. destruct (Z.leb_spec total i) as [|Hlt].
  { left. by exists i. }
  destruct (Z.eqb_spec (i / spb) bl) as [He|]; cbn [negb].
  - destruct (IH (output ++ [packed_bit (data ch bl) (i mod spb)])) as [(j & Hj & ->)|(now & later & -> & Hf & -> & _)].
    { left. by exists j. }
    right. exists (i :: now), later. split; [done|]. split; [exact Hf|]. split.
    + rewrite <- app_assoc. cbn [map app]. unfold level_at at 2. by rewrite He.
    + intros _. cbn [length]. rewrite length_app. lia.
  - right. exists [], (i :: positions). split; [done|]. split.
    + unfold first_outside. cbn [List.find]. by rewrite (proj2 (Z.leb_gt _ _)) by lia.
    + split; [by rewrite app_nil_r|]. done.
Qed.

(** The values at the positions, or the first position that has none. *)
Definition values_answer (ch : Z) (output : list bool) (positions : list Z) : result (failure Error) (list bool) :=
  match first_outside positions with
  | Some i => out_of_bounds i
  | None => Ok (output ++ map (L ch) positions)
  end.

Lemma values_loop_ok fuel ch positions output s :
  0 <= ch < channels -> Forall (fun i => 0 <= i) positions -> (length positions <= fuel)%nat -> sampler_ok s ->
  exists s', values_loop read_packed_block hash fuel ch positions output s = (values_answer ch output positions, s') /\
    sampler_ok s'.
Proof.
  intros Hc. revert positions output s. induction fuel as [|fuel IH]; intros positions output s Hall Hf Hs.
  { destruct positions; [|cbn in Hf; lia]. exists s. cbn. by rewrite app_nil_r. }
  destruct positions as [|i rest]; [exists s; cbn; by rewrite app_nil_r|]. cbn [values_loop].
  pose proof (Forall_inv Hall) as Hi. cbn beta in Hi. rewrite header_ok by done.
  destruct (Z.leb_spec total i) as [Hout|Hin].
  { exists s. split; [|done]. unfold values_answer, first_outside. cbn [List.find]. by rewrite (proj2 (Z.leb_le _ _)). }
  rewrite div_spb. destruct (block_of_sample i ltac:(lia)) as (Hb & _).
  destruct (cached_packed_block_ok ch _ Hc Hb s Hs) as (s' & -> & Hs'). rewrite header_ok by done.
  destruct (values_in_block_ok ch (i / spb) (i :: rest) output Hall) as [(j & Hj & ->)|(now & later & He & Hfo & -> & Hless)].
  { exists s'. unfold values_answer. by rewrite Hj. }
  specialize (Hless eq_refl). unfold values_answer. rewrite Hfo, He in *. apply Forall_app in Hall as [_ Hlater].
  destruct (IH later (output ++ map (L ch) now) s') as (s'' & -> & Hs''); [done|lia|done|].
  exists s''. unfold values_answer. by rewrite map_app, app_assoc.
Qed.

Lemma values_at_ok ch positions s : 0 <= ch < channels -> Forall (fun i => 0 <= i) positions -> sampler_ok s ->
  exists s', values_at read_packed_block hash ch positions s = (values_answer ch [] positions, s') /\ sampler_ok s'.
Proof.
  intros Hc Hall Hs. unfold values_at. rewrite header_ok, (proj2 (Z.leb_gt _ _)) by (done || lia).
  by apply (values_loop_ok _ ch positions []).
Qed.

(** ** Searches *)

(** A search position within its block. *)
Lemma search_in_block search limit : 0 <= search < limit -> limit <= total ->
  let bl := search / spb in
  let bs := bl * spb in
  let block_limit := Z.min (bs + spb) limit in
  0 <= bl < blocks /\ 0 <= bs <= search /\ mul64 bl spb = bs /\
  Z.min (saturating_add64 bs spb) limit = block_limit /\
  sub64 block_limit bs = block_limit - bs /\ sub64 search bs = search - bs /\
  search < block_limit <= limit /\ block_limit - bs <= block_samples meta bl.
Proof.
  intros Hs Hl bl bs block_limit. destruct (block_of_sample search ltac:(lia)) as (Hb & Hloc & Hle).
  fold bl bs in Hb, Hloc, Hle. pose proof (block_range meta data Hcap bl Hb) as Hr. fold bs in Hr.
  destruct Hcap as (Hspb & Ht & _). unfold block_samples, MAX_LEAF_SAMPLES in *.
  assert (Hbs : u64 bs) by (clear - Hr Ht; ints). subst block_limit. fold bs in Hloc |- *.
  split; [done|]. split; [lia|]. split; [by apply mul64_small|]. split; [clear - Hl Ht Hspb Hr; ints|].
  split; [apply sub64_small; clear - Hs Hl Ht Hspb Hr Hloc; ints|].
  split; [apply sub64_small; clear - Hs Hl Ht Hspb Hr Hloc; ints|]. lia.
Qed.

(** What the descent says of the samples of a block from [ls] to [ll]. *)
Lemma group_search ch bl l ls ll :
  0 <= ch < channels -> 0 <= bl < blocks -> levels (leaf_of meta data ch bl) = Some l ->
  0 <= ls < ll -> ll <= block_samples meta bl -> 0 < bl * spb + ls ->
  match next_indexed_l1_group (levels_view l) ls ll with
  | Some g =>
      let scan_start := Z.max ls (64 * g) in
      let scan_end := Z.min ll (64 * g + 64) in
      0 <= g < 262144 /\ ls <= scan_start < scan_end /\ scan_end <= ll /\
      mul64 g SAMPLES_PER_L1_BIT = 64 * g /\ add64 (64 * g) SAMPLES_PER_L1_BIT = 64 * g + 64 /\
      forall i, bl * spb + ls <= i < bl * spb + scan_start -> edge ch i = false
  | None => forall i, bl * spb + ls <= i < bl * spb + ll -> edge ch i = false
  end.
Proof.
  intros Hc Hb Hl Hls Hll Hpos. pose proof (block_samples_range meta data Hcap bl Hb) as Hn.
  assert (Hunmarked : forall i, ls <= i < ll -> bit_at (l1_toggle l) (i / 64) = false -> edge ch (bl * spb + i) = false).
  { intros i Hi Hbit. destruct (edge ch (bl * spb + i)) eqn:He; [|done].
    destruct (edge_marked ch bl i Hc Hb ltac:(lia) ltac:(lia) He) as (l' & Hl' & Hbit'). congruence. }
  pose proof (next_group_least (levels_view l) ls ll (leaf_view_nested ch bl l Hc Hb Hl) Hls ltac:(lia)) as Hleast.
  unfold SAMPLES_PER_L1_BIT, MAX_LEAF_SAMPLES in *. cbn [levels_view view_l1_toggle] in Hleast.
  destruct (next_indexed_l1_group _ ls ll) as [g|]; cbn [least_in] in Hleast.
  - destruct Hleast as (Hg & _ & Hlow). cbv zeta.
    assert (Hg0 : 0 <= g < 262144) by dlia. assert (Hss : ls <= Z.max ls (64 * g) < Z.min ll (64 * g + 64)) by dlia.
    split; [done|]. split; [done|]. split; [lia|]. split; [rewrite mul64_small; [lia|ints]|].
    split; [rewrite add64_small; [lia|ints..]|]. intros i Hi. replace i with (bl * spb + (i - bl * spb)) by lia.
    apply Hunmarked; [lia|]. apply Hlow. dlia.
  - intros i Hi. replace i with (bl * spb + (i - bl * spb)) by lia. apply Hunmarked; [lia|]. apply Hleast. dlia.
Qed.

(** The level before the scanned word. *)
Lemma block_entering ch bl : 0 <= ch < channels -> 0 < bl < blocks -> exists entry,
  returns (root_summary ch (bl - 1)) entry /\ entry_last entry = L ch (bl * spb - 1).
Proof.
  intros Hc Hb. destruct (root_summary_ok ch (bl - 1) Hc ltac:(lia)) as (entry & Hr & _ & _ & Hlast & _).
  exists entry. split; [done|]. rewrite Hlast, (leaf_of_last meta data Hcap), (full_block meta data Hcap) by (done || lia). f_equal. lia.
Qed.

Lemma word_entering_inner ch bl w : 0 < w -> 0 < spb -> 64 * w <= spb -> 0 <= bl ->
  word_entering ch bl w (packed_bit (data ch bl) (64 * w - 1)).
Proof.
  intros Hw Hs Hend Hb _. replace (bl * spb + 64 * w - 1) with (bl * spb + (64 * w - 1)) by lia.
  by rewrite sample_local by lia.
Qed.

Lemma word_entering_first ch : word_entering ch 0 0 (negb (Z.land (load_le_word (data ch 0) 0) 1 =? 0)).
Proof. intros Hpos. lia. Qed.

Lemma head_map {A B} (f : A -> B) l : head (map f l) = f <$> head l.
Proof. by destruct l. Qed.

Lemma group_word ls le g : 64 * g <= ls < le -> le <= 64 * g + 64 -> ls / 64 = g /\ ls / 64 * 64 = 64 * g.
Proof. intros. dlia. Qed.

Lemma next_raw_transition_ok ch bl ls le g :
  0 <= ch < channels -> 0 <= bl < blocks -> 0 <= g -> 64 * g <= ls < le -> le <= 64 * g + 64 ->
  le <= block_samples meta bl -> 0 < bl * spb + ls ->
  returns (next_raw_transition read_packed_block hash ch bl ls le) (head (edges ch (bl * spb + ls) (bl * spb + le))).
Proof.
  intros Hc Hb Hg Hls Hle Hn Hpos s Hs. pose proof (block_range meta data Hcap bl Hb) as Hr.
  pose proof Hcap as (Hspb & Ht & _). unfold block_samples, MAX_LEAF_SAMPLES in *.
  assert (Hbs : u64 (bl * spb)) by (clear - Hr Ht; ints).
  unfold next_raw_transition. rewrite (proj2 (Z.leb_gt _ _)), header_ok, mul64_small by (done || lia).
  destruct (group_word ls le g Hls Hle) as [-> Hw]. rewrite (Z.mul_comm g 64) in *.
  destruct (cached_packed_block_ok ch bl Hc Hb s Hs) as (s1 & -> & Hs1).
  assert (Hscan : forall e s2, sampler_ok s2 -> word_entering ch bl g e -> exists s',
    match nonzero_trailing_bit (word_toggles (load_le_word (data ch bl) g) e (ls - 64 * g) (le - 64 * g)) with
    | None => (Ok None, s2)
    | Some bit_index => (@Ok (failure Error) _ (Some (mkTransition (add64 (bl * spb) (64 * g + bit_index))
        (bit (load_le_word (data ch bl) g) bit_index))), s2)
    end = (Ok (head (edges ch (bl * spb + ls) (bl * spb + le))), s') /\ sampler_ok s').
  { intros e s2 Hs2 He. exists s2. split; [|done]. pose proof (block_data ch bl Hc Hb) as Hd.
    pose proof (load_le_word_u64 (data ch bl) g Hd Hg) as Hword.
    pose proof (word_edges ch bl g e (ls - 64 * g) (le - 64 * g) Hc Hb Hg (fun _ => He) ltac:(lia) ltac:(lia) ltac:(lia) ltac:(lia)) as Hedges.
    replace (bl * spb + 64 * g + (ls - 64 * g)) with (bl * spb + ls) in Hedges by lia.
    replace (bl * spb + 64 * g + (le - 64 * g)) with (bl * spb + le) in Hedges by lia.
    rewrite <- Hedges, head_map, <- trailing_bit_first by (apply word_toggles_u64; done || lia).
    set (tg := word_toggles _ _ _ _) in *.
    assert (Htg : u64 tg) by (subst tg; apply word_toggles_u64; done || lia).
    pose proof (fun j => word_toggles_below (load_le_word (data ch bl) g) e (ls - 64 * g) (le - 64 * g) j ltac:(lia) ltac:(lia)) as Hbelow.
    fold tg in Hbelow. clearbody tg. clear Hedges.
    unfold nonzero_trailing_bit. destruct (Z.eqb_spec tg 0) as [|Hne]; cbn [negb fmap option_fmap option_map]; [done|].
    destruct (trailing_zeros_spec tg Htg Hne) as (Hz & Hzb & _).
    specialize (Hbelow (trailing_zeros tg) ltac:(lia) Hzb).
    unfold transition_at. rewrite bit_testbit by (done || lia). do 4 f_equal.
    rewrite add64_small by (clear - Hr Ht Hn Hls Hle Hz Hbs Hspb Hg Hbelow; ints). lia. }
  destruct (Z.ltb_spec 0 (64 * g)) as [Hg0|Hg0].
  { apply Hscan; [done|]. apply word_entering_inner; lia. }
  assert (g = 0) as -> by lia. destruct (Z.ltb_spec 0 bl) as [Hb0|Hb0].
  - destruct (block_entering ch bl Hc ltac:(lia)) as (entry & Hroot & Hlast).
    destruct (Hroot s1 Hs1) as (s2 & -> & Hs2). apply Hscan; [done|]. intros _. rewrite Hlast. f_equal. lia.
  - assert (bl = 0) as -> by lia. apply Hscan; [done|]. apply word_entering_first.
Qed.

(** A block with no active level. *)
Lemma quiet_block ch search limit :
  0 <= ch < channels -> 1 <= search < limit -> limit <= total ->
  levels (leaf_of meta data ch (search / spb)) = None ->
  forall i, search <= i < Z.min (search / spb * spb + spb) limit -> edge ch i = false.
Proof.
  intros Hc Hs Hl Hnone i Hi. destruct (search_in_block search limit ltac:(lia) Hl) as (Hb & Hbs & _ & _ & _ & _ & _ & Hn).
  replace i with (search / spb * spb + (i - search / spb * spb)) by lia.
  apply (unmarked_block ch _ _ Hc Hb Hnone); lia.
Qed.

Lemma next_transition_loop_ok fuel ch limit search s :
  0 <= ch < channels -> 1 <= search -> limit <= total -> limit - search <= Z.of_nat fuel -> sampler_ok s ->
  exists s', next_transition_loop read_packed_block hash fuel ch limit search s = (Ok (head (edges ch search limit)), s') /\
    sampler_ok s'.
Proof.
  intros Hc. revert search s. induction fuel as [|fuel IH]; intros search s Hs1 Hl Hf Hs; cbn [next_transition_loop].
  { rewrite (proj2 (Z.leb_le _ _)), edges_empty by lia. by exists s. }
  destruct (Z.leb_spec limit search) as [|Hlt]; [rewrite edges_empty by lia; by exists s|].
  destruct (search_in_block search limit ltac:(lia) Hl) as (Hb & Hbs & Hmul & Hmin & Hll & Hls & Hrange & Hn).
  rewrite header_ok, div_spb by done. cbv zeta. rewrite Hmul, Hmin, Hll, Hls.
  destruct (root_summary_ok ch _ Hc Hb) as (entry & Hroot & Htog & _). destruct (Hroot s Hs) as (s1 & -> & Hs1').
  set (bl := search / spb) in *. set (blim := Z.min (bl * spb + spb) limit) in *.
  assert (Hskip : (forall i, search <= i < blim -> edge ch i = false) -> forall s2, sampler_ok s2 -> exists s',
    next_transition_loop read_packed_block hash fuel ch limit blim s2 = (Ok (head (edges ch search limit)), s') /\ sampler_ok s').
  { intros Hno s2 Hs2. rewrite (edges_skip ch search blim limit) by (done || lia). apply IH; done || lia. }
  rewrite Htog. destruct (levels (leaf_of meta data ch bl)) as [l|] eqn:Hlev; cbn [negb].
  2: { apply Hskip; [|done]. by apply quiet_block. }
  destruct (leaf_summary_ok ch bl Hc Hb s1 Hs1') as (s2 & -> & Hs2).
  unfold view_of. rewrite Hlev. cbn [view_levels fmap option_fmap option_map].
  pose proof (group_search ch bl l (search - bl * spb) (blim - bl * spb) Hc Hb Hlev ltac:(lia) Hn ltac:(lia)) as Hg.
  destruct (next_indexed_l1_group _ _ _) as [g|]; [|apply Hskip; [|done]; intros i Hi; apply Hg; lia].
  cbv zeta in Hg. destruct Hg as (Hg0 & Hss & Hse & -> & -> & Hno).
  set (ss := Z.max (search - bl * spb) (64 * g)) in *. set (se := Z.min (blim - bl * spb) (64 * g + 64)) in *.
  destruct (next_raw_transition_ok ch bl ss se g Hc Hb ltac:(lia) ltac:(lia) ltac:(lia) ltac:(lia) ltac:(lia) s2 Hs2)
    as (s3 & -> & Hs3).
  rewrite (edges_skip ch search (bl * spb + ss) limit) by (lia || (intros i Hi; apply Hno; lia)).
  rewrite (edges_split ch (bl * spb + ss) (bl * spb + se) limit) by lia.
  destruct (edges ch (bl * spb + ss) (bl * spb + se)) as [|x rest]; [|by exists s3]. cbn [head app].
  destruct Hcap as (Hspb & Ht & _).
  assert (Hadd : add64 (bl * spb) se = bl * spb + se) by (apply add64_small; [lia|lia|clear - Ht Hse Hrange Hl; ints]).
  rewrite Hadd. apply IH; done || lia.
Qed.

Lemma next_transition_ok ch position limit : 0 <= ch < channels -> u64 position ->
  returns (next_transition read_packed_block hash ch position limit) (head (edges ch (position + 1) (Z.min limit total))).
Proof.
  intros Hc Hp s Hs. unfold next_transition. rewrite header_ok, (proj2 (Z.leb_gt _ _)) by (done || lia).
  destruct Hcap as (_ & Ht & _). unfold checked_add64.
  assert (Hp0 : 0 <= position /\ total <= u64_max) by (clear - Hp Ht; ints).
  destruct (Z.leb_spec (position + 1) u64_max).
  - destruct (Z.leb_spec (Z.min limit total) (position + 1)); [rewrite edges_empty by lia; by exists s|].
    apply next_transition_loop_ok; done || lia.
  - rewrite edges_empty by lia. by exists s.
Qed.

(** ** Batches of transitions *)

Lemma append_raw_transitions_ok ch bl ls le g entering max output :
  0 <= ch < channels -> 0 <= bl < blocks -> 0 <= g -> 64 * g <= ls < le -> le <= 64 * g + 64 ->
  le <= block_samples meta bl -> 0 < bl * spb + ls ->
  entering = (if 0 <? bl then Some (L ch (bl * spb - 1)) else None) ->
  append_raw_transitions (data ch bl) (bl * spb) ls le entering max output =
    output ++ take (Z.to_nat (max - zlen output)) (edges ch (bl * spb + ls) (bl * spb + le)).
Proof.
  intros Hc Hb Hg Hls Hle Hn Hpos Hent. pose proof Hcap as (Hspb & _). unfold block_samples in Hn.
  unfold append_raw_transitions. rewrite (proj2 (Z.leb_gt le ls)) by lia. cbn [orb].
  destruct (Z.leb_spec max (zlen output)).
  { replace (Z.to_nat (max - zlen output)) with 0%nat by lia. by rewrite app_nil_r. }
  destruct (group_word ls le g Hls Hle) as [-> Hw]. cbv zeta. rewrite (Z.mul_comm g 64) in *.
  pose proof (block_data ch bl Hc Hb) as Hd. pose proof (load_le_word_u64 (data ch bl) g Hd Hg) as Hword.
  set (e := if 0 <? 64 * g then _ else _).
  assert (He : word_entering ch bl g e).
  { subst e. destruct (Z.ltb_spec 0 (64 * g)); [apply word_entering_inner; lia|]. intros Hp.
    rewrite Hent, (proj2 (Z.ltb_lt 0 bl)) by nia. cbn. f_equal. lia. }
  clearbody e. rewrite append_bits_ok;
    [|done|apply word_toggles_u64; done || lia|apply length_bits_from].
  rewrite word_edges by (done || lia). do 3 f_equal; lia.
Qed.

Lemma take_app_take {A} (a b : list A) n : take n (take n a ++ b) = take n (a ++ b).
Proof.
  destruct (Nat.le_gt_cases n (length a)).
  - rewrite !take_app_le; [|done|rewrite length_take; lia]. by rewrite take_take, Nat.min_id.
  - by rewrite (take_ge a) by lia.
Qed.

Lemma take_more {A} (a b : list A) max : 0 <= max ->
  take (Z.to_nat max) a ++ take (Z.to_nat (max - zlen (take (Z.to_nat max) a))) b = take (Z.to_nat max) (a ++ b).
Proof.
  intros Hm. rewrite take_app. f_equal. f_equal. unfold zlen. rewrite length_take. lia.
Qed.

Lemma groups_loop_ok fuel ch bl l entering max start ll ls :
  0 <= ch < channels -> 0 <= bl < blocks -> levels (leaf_of meta data ch bl) = Some l ->
  entering = (if 0 <? bl then Some (L ch (bl * spb - 1)) else None) -> 0 <= max ->
  1 <= start <= bl * spb + ls -> 0 <= ls <= ll -> ll <= block_samples meta bl -> ll - ls <= Z.of_nat fuel ->
  exists ls', ls <= ls' <= ll /\
    groups_loop fuel (levels_view l) (data ch bl) (bl * spb) entering max ll ls
      (take (Z.to_nat max) (edges ch start (bl * spb + ls))) =
      Ok (ls', take (Z.to_nat max) (edges ch start (bl * spb + ls'))) /\
    (take (Z.to_nat max) (edges ch start (bl * spb + ls')) = take (Z.to_nat max) (edges ch start (bl * spb + ll)) \/
     max <= zlen (take (Z.to_nat max) (edges ch start (bl * spb + ls')))) /\
    (ls' = ll \/ next_indexed_l1_group (levels_view l) ls' ll = None \/
     max <= zlen (take (Z.to_nat max) (edges ch start (bl * spb + ls')))).
Proof.
  intros Hc Hb Hlev Hent Hmax. revert ls. induction fuel as [|fuel IH]; intros ls Hstart Hls Hn Hf; cbn [groups_loop].
  { assert (ls = ll) as -> by lia. rewrite Z.ltb_irrefl. exists ll. split; [lia|]. split; [done|]. split; by left. }
  destruct (Z.ltb_spec ls ll) as [Hlt|]; cbn [andb].
  2: { assert (ls = ll) as -> by lia. exists ll. split; [lia|]. split; [done|]. split; by left. }
  destruct (Z.ltb_spec (zlen (take (Z.to_nat max) (edges ch start (bl * spb + ls)))) max) as [Hroom|Hfull].
  2: { exists ls. split; [lia|]. split; [done|]. split; [by right|right; by right]. }
  pose proof (group_search ch bl l ls ll Hc Hb Hlev ltac:(lia) Hn ltac:(lia)) as Hg.
  destruct (next_indexed_l1_group (levels_view l) ls ll) as [g|] eqn:Hnext.
  2: { exists ls. split; [lia|]. split; [done|]. split; [|right; by left]. left.
    by rewrite (edges_split ch start (bl * spb + ls) (bl * spb + ll)), (edges_none ch (bl * spb + ls)), app_nil_r by (done || lia). }
  cbv zeta in Hg. destruct Hg as (Hg0 & Hss & Hse & -> & -> & Hno). cbv zeta.
  set (ss := Z.max ls (64 * g)) in *. set (se := Z.min ll (64 * g + 64)) in *.
  rewrite (append_raw_transitions_ok ch bl ss se g) by (done || lia).
  rewrite take_more by done.
  assert (Hjoin : edges ch start (bl * spb + ls) ++ edges ch (bl * spb + ss) (bl * spb + se) = edges ch start (bl * spb + se)).
  { rewrite (edges_split ch start (bl * spb + ls) (bl * spb + se)) by lia. f_equal.
    symmetry. apply edges_skip; [lia|exact Hno]. }
  rewrite Hjoin. destruct (IH se ltac:(lia) ltac:(lia) Hn ltac:(lia)) as (ls' & Hls' & Heq & Hor1 & Hor2).
  exists ls'. split; [lia|]. by split.
Qed.

Lemma full_prefix {A} (a b : list A) max :
  0 <= max -> max <= zlen (take (Z.to_nat max) a) -> take (Z.to_nat max) (a ++ b) = take (Z.to_nat max) a.
Proof. intros Hm Hz. unfold zlen in Hz. rewrite length_take in Hz. rewrite take_app_le; [done|lia]. Qed.

Lemma transitions_loop_ok fuel ch limit max start search s :
  0 <= ch < channels -> 1 <= start <= search -> search <= limit -> limit <= total -> 0 <= max ->
  limit - search <= Z.of_nat fuel -> sampler_ok s ->
  exists s', transitions_loop read_packed_block hash fuel ch limit max search (take (Z.to_nat max) (edges ch start search)) s =
    (Ok (take (Z.to_nat max) (edges ch start limit)), s') /\ sampler_ok s'.
Proof.
  intros Hc. revert search s. induction fuel as [|fuel IH]; intros search s Hs1 Hsl Hl Hmax Hf Hs; cbn [transitions_loop].
  { assert (search = limit) as -> by lia. rewrite Z.ltb_irrefl. by exists s. }
  destruct (Z.ltb_spec search limit) as [Hlt|]; cbn [andb]; [|replace search with limit by lia; by exists s].
  destruct (Z.ltb_spec (zlen (take (Z.to_nat max) (edges ch start search))) max) as [Hroom|Hfull].
  2: { exists s. split; [|done]. do 2 f_equal. rewrite (edges_split ch start search limit) by lia. by rewrite full_prefix. }
  destruct (search_in_block search limit ltac:(lia) Hl) as (Hb & Hbs & Hmul & Hmin & Hll & Hls & Hrange & Hn).
  rewrite header_ok, div_spb by done. cbv zeta. rewrite Hmul, Hmin, Hll, Hls.
  destruct (root_summary_ok ch _ Hc Hb) as (entry & Hroot & Htog & _). destruct (Hroot s Hs) as (s1 & -> & Hs1').
  pose proof (quiet_block ch search limit Hc ltac:(lia) Hl) as Hquiet.
  set (bl := search / spb) in *. set (blim := Z.min (bl * spb + spb) limit) in *.
  assert (Hskip : (forall i, search <= i < blim -> edge ch i = false) -> forall s2, sampler_ok s2 -> exists s',
    transitions_loop read_packed_block hash fuel ch limit max blim (take (Z.to_nat max) (edges ch start search)) s2 =
    (Ok (take (Z.to_nat max) (edges ch start limit)), s') /\ sampler_ok s').
  { intros Hno s2 Hs2. replace (edges ch start search) with (edges ch start blim); [apply IH; done || lia|].
    by rewrite (edges_split ch start search blim), (edges_none ch search), app_nil_r by (done || lia). }
  rewrite Htog. destruct (levels (leaf_of meta data ch bl)) as [l|] eqn:Hlev; cbn [negb].
  2: { apply Hskip; [by apply Hquiet|done]. }
  destruct (cached_packed_block_ok ch bl Hc Hb s1 Hs1') as (s2 & -> & Hs2).
  destruct (leaf_summary_ok ch bl Hc Hb s2 Hs2) as (s3 & -> & Hs3).
  unfold view_of. rewrite Hlev. cbn [view_levels fmap option_fmap option_map].
  set (previous := if 0 <? bl then _ else _).
  assert (Hprev : exists s4, previous = (Ok (if 0 <? bl then Some (L ch (bl * spb - 1)) else None), s4) /\ sampler_ok s4).
  { subst previous. destruct (Z.ltb_spec 0 bl); [|by exists s3].
    destruct (block_entering ch bl Hc ltac:(lia)) as (e & He & Hlast). destruct (He s3 Hs3) as (s4 & -> & Hs4).
    exists s4. by rewrite Hlast. }
  destruct Hprev as (s4 & -> & Hs4).
  destruct (groups_loop_ok (Z.to_nat (blim - bl * spb)) ch bl l _ max start (blim - bl * spb) (search - bl * spb)
    Hc Hb Hlev eq_refl Hmax ltac:(lia) ltac:(lia) Hn ltac:(lia)) as (ls' & Hls' & Hloop & Hdone & Hstop).
  replace (bl * spb + (search - bl * spb)) with search in Hloop by lia. rewrite Hloop. clear Hloop.
  replace (bl * spb + (blim - bl * spb)) with blim in Hdone by lia.
  destruct Hcap as (_ & Ht & _).
  assert (Hadd : add64 (bl * spb) ls' = bl * spb + ls').
  { apply add64_small; [lia|lia|]. clear - Ht Hls' Hrange Hl Hbs. ints. }
  rewrite Hadd. set (stop := (_ <=? _) || _).
  assert (Hnext : take (Z.to_nat max) (edges ch start (bl * spb + ls')) = take (Z.to_nat max) (edges ch start blim) ->
    exists s', transitions_loop read_packed_block hash fuel ch limit max blim
      (take (Z.to_nat max) (edges ch start (bl * spb + ls'))) s4 =
      (Ok (take (Z.to_nat max) (edges ch start limit)), s') /\ sampler_ok s').
  { intros ->. apply IH; done || lia. }
  assert (Hfullcase : max <= zlen (take (Z.to_nat max) (edges ch start (bl * spb + ls'))) ->
    take (Z.to_nat max) (edges ch start (bl * spb + ls')) = take (Z.to_nat max) (edges ch start blim)).
  { intros Hfull. rewrite (edges_split ch start (bl * spb + ls') blim) by lia. by rewrite full_prefix. }
  destruct stop eqn:Hstopb; [apply Hnext; tauto|].
  subst stop. apply orb_false_iff in Hstopb as [Hlt' Hnone]. apply Z.leb_gt in Hlt'.
  destruct Hstop as [->|[Hn'|Hfull]]; [lia|by rewrite Hn' in Hnone|].
  assert (ls' <> search - bl * spb).
  { intros ->. replace (bl * spb + (search - bl * spb)) with search in Hfull by lia. lia. }
  apply IH; done || lia.
Qed.

Lemma next_transitions_ok ch position limit max : 0 <= ch < channels -> u64 position -> 0 <= max ->
  returns (next_transitions read_packed_block hash ch position limit max)
    (take (Z.to_nat max) (edges ch (position + 1) (Z.min limit total))).
Proof.
  intros Hc Hp Hmax s Hs. unfold next_transitions. rewrite header_ok, (proj2 (Z.leb_gt _ _)) by (done || lia).
  destruct (Z.eqb_spec max 0) as [->|]; [by exists s|].
  destruct Hcap as (_ & Ht & _). unfold checked_add64.
  assert (Hp0 : 0 <= position /\ total <= u64_max) by (clear - Hp Ht; ints).
  destruct (Z.leb_spec (position + 1) u64_max).
  - destruct (Z.leb_spec (Z.min limit total) (position + 1)); [rewrite edges_empty, take_nil by lia; by exists s|].
    pose proof (transitions_loop_ok (Z.to_nat (Z.min limit total - (position + 1))) ch (Z.min limit total) max
      (position + 1) (position + 1) s Hc ltac:(lia) ltac:(lia) ltac:(lia) Hmax ltac:(lia) Hs) as Hloop.
    by rewrite (edges_empty ch (position + 1) (position + 1)), take_nil in Hloop by lia.
  - rewrite edges_empty, take_nil by lia. by exists s.
Qed.

(** ** Exact windows *)

Lemma shifted_bit word j : 0 <= j -> negb (Z.land (Z.shiftr word j) 1 =? 0) = Z.testbit word j.
Proof. intros Hj. change 1 with (Z.shiftl 1 0). rewrite land_bit by lia. by rewrite Z.shiftr_spec, Z.add_0_l by lia. Qed.

Lemma scan_word_ok ch bl lo hi w current out :
  0 <= ch < channels -> 0 <= bl < blocks -> 0 <= lo < hi -> hi <= block_samples meta bl -> 0 < bl * spb + lo ->
  lo / 64 <= w <= (hi - 1) / 64 -> (lo <= 64 * w -> word_entering ch bl w current) ->
  scan_word (data ch bl) (bl * spb) lo hi w current out =
    (L ch (bl * spb + Z.min hi (64 * w + 64) - 1),
     out ++ edges ch (bl * spb + Z.max lo (64 * w)) (bl * spb + Z.min hi (64 * w + 64))).
Proof.
  intros Hc Hb Hlo Hn Hpos Hw Hent. pose proof (block_data ch bl Hc Hb) as Hd. unfold block_samples in Hn.
  unfold scan_word. set (wlo := if w =? lo / 64 then lo mod 64 else 0). set (whi := if w =? (hi - 1) / 64 then _ else _).
  assert (Hwlo : wlo = Z.max lo (64 * w) - 64 * w) by (subst wlo; destruct (Z.eqb_spec w (lo / 64)); dlia).
  assert (Hwhi : whi = Z.min hi (64 * w + 64) - 64 * w) by (subst whi; destruct (Z.eqb_spec w ((hi - 1) / 64)); dlia).
  clearbody wlo whi. assert (Hw0 : 0 <= w) by dlia.
  assert (Hwr : 0 <= wlo < 64 /\ wlo < whi <= 64) by dlia.
  pose proof (load_le_word_u64 (data ch bl) w Hd Hw0) as Hword.
  rewrite push_loop_bits; [|done|apply word_toggles_u64; done || lia|apply length_bits_from].
  replace (w * 64) with (64 * w) by lia.
  rewrite word_edges by (done || lia || (intros Hz; apply Hent; lia)).
  rewrite shifted_bit by lia. rewrite testbit_load by (done || lia). f_equal.
  - rewrite <- (sample_local meta data ch bl) by lia. f_equal. lia.
  - do 2 f_equal; lia.
Qed.

Lemma words_loop_ok count ch bl lo hi w current out :
  0 <= ch < channels -> 0 <= bl < blocks -> 0 <= lo < hi -> hi <= block_samples meta bl -> 0 < bl * spb + lo ->
  lo / 64 <= w -> w + Z.of_nat count = (hi - 1) / 64 + 1 ->
  (count <> 0%nat -> lo <= 64 * w -> word_entering ch bl w current) ->
  (count = 0%nat -> current = L ch (bl * spb + hi - 1)) ->
  words_loop count (data ch bl) (bl * spb) lo hi w current out =
    (L ch (bl * spb + hi - 1), out ++ edges ch (bl * spb + Z.max lo (64 * w)) (bl * spb + hi)).
Proof.
  intros Hc Hb Hlo Hn Hpos. revert w current out. induction count as [|count IH]; intros w current out Hw Hcount Hent Hend; cbn [words_loop].
  { rewrite Hend, edges_empty, app_nil_r by (done || dlia). done. }
  rewrite (scan_word_ok ch bl lo hi w) by (done || lia || by apply Hent). rewrite IH; [|dlia|lia| |].
  - f_equal. rewrite <- app_assoc. f_equal.
    rewrite (edges_split ch (bl * spb + Z.max lo (64 * w)) (bl * spb + Z.min hi (64 * w + 64)) (bl * spb + hi)) by dlia.
    f_equal. destruct (Z.le_gt_cases hi (64 * w + 64)); [rewrite !edges_empty by lia; done|]. f_equal. dlia.
  - intros Hne _ _. f_equal. dlia.
  - intros ->. f_equal. dlia.
Qed.

Lemma blocks_loop_ok count ch start end_ bl current out s :
  0 <= ch < channels -> 0 <= start < end_ -> end_ <= total -> start / spb <= bl ->
  bl + Z.of_nat count = (end_ - 1) / spb + 1 ->
  (count <> 0%nat -> current = L ch (Z.max (start + 1) (bl * spb) - 1)) -> sampler_ok s ->
  exists s', blocks_loop read_packed_block hash count ch start end_ bl current out s =
    (Ok (out ++ edges ch (Z.max (start + 1) (bl * spb)) end_), s') /\ sampler_ok s'.
Proof.
  intros Hc Hse Het. pose proof Hcap as (Hspb & Ht & _).
  revert bl current out s. induction count as [|count IH]; intros bl current out s Hbl Hcount Hcur Hs; cbn [blocks_loop].
  { rewrite edges_empty, app_nil_r; [by exists s|]. pose proof (Z.div_mod (end_ - 1) spb).
    pose proof (Z.mod_pos_bound (end_ - 1) spb). nia. }
  assert (Hb : 0 <= bl < blocks).
  { destruct (block_of_sample (end_ - 1) ltac:(lia)) as (He & _). assert (0 <= start / spb) by (apply Z.div_pos; lia). lia. }
  destruct (cached_packed_block_ok ch bl Hc Hb s Hs) as (s1 & -> & Hs1). rewrite header_ok by done. cbv zeta.
  pose proof (block_range meta data Hcap bl Hb) as Hr.
  assert (Hbs : u64 (bl * spb)) by (clear - Hr Ht; ints). rewrite mul64_small by done.
  assert (Hmin : Z.min (saturating_add64 (bl * spb) spb) end_ = Z.min (bl * spb + spb) end_) by (clear - Hse Het Ht Hspb Hr; ints).
  assert (Hadd : add64 start 1 = start + 1) by (clear - Hse Het Ht; apply add64_small; ints). rewrite Hmin, Hadd.
  assert (Hend : bl * spb <= end_ - 1) by (pose proof (Z.div_mod (end_ - 1) spb); pose proof (Z.mod_pos_bound (end_ - 1) spb); nia).
  assert (Hstart : start < bl * spb + spb) by (pose proof (Z.div_mod start spb); pose proof (Z.mod_pos_bound start spb); nia).
  specialize (Hcur ltac:(done)).
  assert (Hnext : count <> 0%nat -> bl * spb + spb <= end_ - 1).
  { intros Hne. pose proof (Z.div_mod (end_ - 1) spb). pose proof (Z.mod_pos_bound (end_ - 1) spb).
    assert (bl + 1 <= (end_ - 1) / spb) by lia. nia. }
  destruct (Z.leb_spec (Z.min (bl * spb + spb) end_) (Z.max (bl * spb) (start + 1))) as [Hskip|Hscan].
  - destruct (IH (bl + 1) current out s1) as (s2 & -> & Hs2); [lia|lia| |done|].
    { intros Hne. specialize (Hnext Hne). rewrite Hcur. f_equal. lia. }
    exists s2. split; [|done]. do 3 f_equal. destruct (Z.le_gt_cases end_ (start + 1)).
    + rewrite !edges_empty by lia. done.
    + f_equal. lia.
  - set (lo := Z.max (bl * spb) (start + 1) - bl * spb). set (hi := Z.min (bl * spb + spb) end_ - bl * spb).
    assert (Hlh : 0 <= lo < hi /\ hi <= block_samples meta bl) by (unfold block_samples; lia).
    assert (Hw : lo / 64 <= (hi - 1) / 64) by (apply Z.div_le_mono; lia).
    rewrite words_loop_ok; [|done|done|lia|lia|lia|lia|lia| |].
    + destruct (IH (bl + 1) (L ch (bl * spb + hi - 1)) (out ++ edges ch (bl * spb + Z.max lo (64 * (lo / 64))) (bl * spb + hi)) s1)
        as (s2 & -> & Hs2); [lia|lia| |done|].
      { intros Hne. specialize (Hnext Hne). f_equal. lia. }
      exists s2. split; [|done]. rewrite <- app_assoc. do 3 f_equal.
      rewrite Z.max_l by (clear; dlia).
      rewrite (edges_split ch (Z.max (start + 1) (bl * spb)) (bl * spb + hi) end_) by lia.
      f_equal; [f_equal; lia|]. destruct (Z.le_gt_cases end_ (bl * spb + spb)); [rewrite !edges_empty by lia; done|].
      f_equal. lia.
    + intros _ Hz Hp. rewrite Hcur. f_equal. assert (64 * (lo / 64) <= lo) by (clear; dlia). lia.
    + lia.
Qed.

Lemma exact_sampled_channel_ok ch start end_ name :
  0 <= ch < channels -> 0 <= start < end_ -> end_ <= total ->
  name = default ("Probe" +:+ pretty ch)%string (byte_at (probe_names meta) ch) ->
  returns (exact_sampled_channel read_packed_block hash start end_ ch)
    (mkSampledChannel ch name (L ch start) (edges ch (start + 1) end_) []).
Proof.
  intros Hc Hse Het -> s Hs. unfold exact_sampled_channel, probe_name. rewrite header_ok by done.
  rewrite (proj2 (Z.leb_gt _ _)) by lia. pose proof Hcap as (Hspb & Ht & _).
  assert (Hsub : sub64 end_ 1 = end_ - 1) by (apply sub64_small; [clear - Hse Het Ht; ints|lia]).
  rewrite Hsub, !div_spb. destruct (block_of_sample start ltac:(lia)) as (Hb & Hloc & Hle).
  destruct (cached_packed_block_ok ch _ Hc Hb s Hs) as (s1 & -> & Hs1). cbv zeta.
  assert (Hdiv : start / spb <= (end_ - 1) / spb) by (apply Z.div_le_mono; lia).
  destruct (blocks_loop_ok (Z.to_nat ((end_ - 1) / spb - start / spb + 1)) ch start end_ (start / spb)
    (packed_bit (data ch (start / spb)) (start mod spb)) [] s1 Hc Hse Het) as (s2 & -> & Hs2); [lia|lia| |done|].
  - intros _. change (L ch start = L ch (Z.max (start + 1) (start / spb * spb) - 1)). f_equal. lia.
  - exists s2. split; [|done]. cbn [app]. by replace (Z.max (start + 1) (start / spb * spb)) with (start + 1) by lia.
Qed.

(** ** Summaries *)

(** No sample from [lo] to [hi] leaves level [v] or changes it. *)
Definition constant_at (ch lo hi : Z) (v : bool) : Prop :=
  forall i, lo <= i < hi -> L ch i = v /\ (0 < i -> edge ch i = false).

(** A summary that shows no change is that of constant samples. *)
Definition quiet (ch lo hi : Z) (sm : WaveformSummary) : Prop :=
  sum_toggle sm = false -> sum_first sm = sum_last sm /\ constant_at ch lo hi (sum_last sm).

Lemma untoggled_constant (s : Z -> bool) e i j : 0 <= i -> i <= j ->
  (forall k, i < k <= j -> toggles s e k = false) -> s i = s j.
Proof.
  intros Hi Hij. pattern j. apply (Zlt_lower_bound_ind _ i); [|done]. clear j Hij.
  intros j IH Hij Ht. destruct (Z.eq_dec i j) as [->|]; [done|].
  rewrite (IH (j - 1)) by (lia || (intros k Hk; apply Ht; lia)).
  specialize (Ht j ltac:(lia)). unfold toggles in Ht. rewrite (proj2 (Z.eqb_neq _ _)) in Ht by lia.
  symmetry. by apply xorb_eq.
Qed.

(** The summary of the groups of a pair of rows. *)
Definition rows_summary (toggle last : list Z) (first : bool) (fg lg : Z) : WaveformSummary :=
  let f := if fg =? 0 then first else bit_at last (fg - 1) in
  let l := bit_at last lg in
  mkSummary f (bit_range_any toggle fg lg || negb (Bool.eqb f l)) l.

Lemma rows_summary_quiet ch bl r words toggle last first ls le :
  0 <= ch < channels -> 0 <= bl < blocks -> 0 < r ->
  level_exact (packed_bit (data ch bl)) (block_samples meta bl) (entering meta data ch bl) r words toggle last ->
  0 <= ls < le -> le <= block_samples meta bl ->
  quiet ch (bl * spb + ls) (bl * spb + le) (rows_summary toggle last first (ls / r) ((le - 1) / r)).
Proof.
  intros Hc Hb Hr (_ & _ & [Hot Ht] & [Hol Hl]) Hls Hle Hq. unfold rows_summary in *. cbn [sum_toggle sum_first sum_last] in *.
  apply orb_false_iff in Hq as [Hany Heq]. apply negb_false_iff, eqb_prop in Heq. split; [exact Heq|]. clear Heq first.
  set (n := block_samples meta bl) in *. set (s := packed_bit (data ch bl)) in *. set (e := entering meta data ch bl) in *.
  pose proof (Z.div_mod ls r). pose proof (Z.mod_pos_bound ls r Hr).
  pose proof (Z.div_mod (le - 1) r). pose proof (Z.mod_pos_bound (le - 1) r Hr).
  set (fg := ls / r) in *. set (lg := (le - 1) / r) in *.
  assert (Hfg : 0 <= fg) by (apply Z.div_pos; lia). assert (Hfl : fg <= lg) by (apply Z.div_le_mono; lia).
  assert (Hno : forall k, r * fg <= k < r * (lg + 1) -> k < n -> toggles s e k = false).
  { intros k Hk Hkn. destruct (toggles s e k) eqn:Htk; [|done]. exfalso.
    assert (Hg : r * (k / r) <= k < r * (k / r + 1)).
    { pose proof (Z.div_mod k r). pose proof (Z.mod_pos_bound k r Hr). lia. }
    assert (Hgr : fg <= k / r <= lg) by (split; nia).
    assert (Hbit : bit_at toggle (k / r) = true).
    { apply Ht; [lia|]. split; [apply div_ceil_lt; lia|]. exists k. split; [lia|done]. }
    enough (bit_range_any toggle fg lg = true) by congruence.
    apply bit_range_any_spec; [done|lia|]. by exists (k / r). }
  assert (Hlast : bit_at last lg = s (Z.min (r * (lg + 1)) n - 1)).
  { destruct (s _) eqn:Hs.
    - apply Hl; [lia|]. split; [apply div_ceil_lt; lia|]. exact Hs.
    - destruct (bit_at last lg) eqn:Hbit; [|done]. apply Hl in Hbit as [_ Hbit]; [|lia]. unfold exit_level in Hbit. congruence. }
  rewrite Hlast. intros i Hi. set (j := i - bl * spb). assert (Hj : ls <= j < le) by lia.
  assert (Hn : n <= spb) by (unfold n, block_samples; lia).
  replace i with (bl * spb + j) by lia. split.
  - rewrite sample_local by lia. apply (untoggled_constant s e); [lia|lia|]. intros k Hk. apply Hno; lia.
  - intros Hpos. rewrite <- toggles_edge by lia. apply Hno; lia.
Qed.

Lemma bit_row words i : words_ok words -> 0 <= i < 64 * zlen words ->
  exists w, @get_word Error words (i / 64) = Ok w /\ bit w (i mod 64) = bit_at words i.
Proof.
  intros Hok Hi. destruct (row_lookup words (i / 64) ltac:(dlia)) as [w Hw]. exists w.
  split; [apply get_word_ok; [dlia|done]|]. rewrite bit_testbit; [|by eapply Forall_lookup_1|dlia].
  unfold bit_at. by rewrite Hw.
Qed.

Lemma level_summary_rows toggle last first fg lg :
  words_ok last -> 0 <= fg <= lg -> lg < 64 * zlen last ->
  level_summary toggle last first fg lg = Ok (rows_summary toggle last first fg lg).
Proof.
  intros Hok Hfg Hlg. unfold level_summary, rows_summary.
  destruct (bit_row last lg Hok ltac:(lia)) as (wl & Hwl & Hbl).
  destruct (Z.eqb_spec fg 0); [by rewrite Hwl, Hbl|].
  destruct (bit_row last (fg - 1) Hok ltac:(lia)) as (wf & Hwf & Hbf). by rewrite Hwf, Hbf, Hwl, Hbl.
Qed.

(** A block without levels is constant. *)
Lemma constant_block ch bl :
  0 <= ch < channels -> 0 <= bl < blocks -> levels (leaf_of meta data ch bl) = None ->
  first (leaf_of meta data ch bl) = last (leaf_of meta data ch bl) /\
  constant_at ch (bl * spb) (bl * spb + block_samples meta bl) (last (leaf_of meta data ch bl)).
Proof.
  intros Hc Hb Hnone. pose proof (block_samples_range meta data Hcap bl Hb) as Hn.
  destruct (leaf_of_ok meta data Hcap ch bl Hc Hb) as [_ (_ & Hf & Hl & Hsum)].
  rewrite Hnone in Hsum. cbn [summary_exact] in Hsum. rewrite (proj2 (Z.eqb_neq _ _)) in Hf, Hl by lia. cbn [negb andb] in Hf, Hl.
  rewrite Hf, Hl, !Hsum by lia. split; [done|]. intros i Hi. replace i with (bl * spb + (i - bl * spb)) by lia.
  assert (block_samples meta bl <= spb) by (unfold block_samples; lia).
  split; [rewrite sample_local by lia; apply Hsum; lia|]. intros Hpos. apply unmarked_block; done || lia.
Qed.

Lemma constant_at_inner ch lo hi lo' hi' v : lo <= lo' -> hi' <= hi -> constant_at ch lo hi v -> constant_at ch lo' hi' v.
Proof. intros Hlo Hhi Hc i Hi. apply Hc. lia. Qed.

(** A range within a block. *)
Section Local.
Context (ch bl ls le : Z) (Hc : 0 <= ch < channels) (Hb : 0 <= bl < blocks).
Context (Hls : 0 <= ls < le) (Hle : le <= block_samples meta bl).

Local Abbreviation leaf := (leaf_of meta data ch bl).
Local Abbreviation whole := ((ls =? 0) && (block_samples meta bl <=? le)).

(** The checks of the summary of a range, in any state. *)
Lemma local_bounds :
  mul64 bl spb = bl * spb /\ Z.min (saturating_sub64 total (bl * spb)) spb = block_samples meta bl /\
  sub64 le 1 = le - 1 /\ le <= MAX_LEAF_SAMPLES.
Proof.
  pose proof (block_samples_range meta data Hcap bl Hb) as Hn. pose proof (block_range meta data Hcap bl Hb) as Hr.
  pose proof Hcap as (Hspb & Ht & _). assert (Hbs : u64 (bl * spb)) by (clear - Hr Ht; ints).
  split; [by apply mul64_small|]. split; [by rewrite saturating_sub64_small by lia|]. split; [|lia].
  apply sub64_small; [|lia]. clear - Hls Hle Hn. unfold MAX_LEAF_SAMPLES in *. ints.
Qed.

Ltac open_local s Hs :=
  let Hm := fresh in let Hv := fresh in let Hsub := fresh in
  destruct local_bounds as (Hm & Hv & Hsub & _);
  unfold block_local_display_summary; rewrite (header_ok s Hs), Hm, Hv, Hsub; clear Hm Hv Hsub.

Lemma local_constant : levels leaf = None ->
  quiet ch (bl * spb + ls) (bl * spb + le) (mkSummary (first leaf) false (last leaf)).
Proof.
  intros Hnone _. cbn. destruct (constant_block ch bl Hc Hb Hnone) as [Hfl Hcon]. split; [done|].
  eapply constant_at_inner; [| |exact Hcon]; lia.
Qed.

Lemma local_whole group : whole = true ->
  exists sm, returns (block_local_display_summary hash ch bl ls le group) sm /\ quiet ch (bl * spb + ls) (bl * spb + le) sm.
Proof.
  intros Hw. destruct (root_summary_ok ch bl Hc Hb) as (entry & Hroot & Htog & Hef & Hel & _).
  exists (mkSummary (entry_first entry) (entry_toggle entry) (entry_last entry)). split.
  - intros s Hs. open_local s Hs. rewrite Hw. destruct (Hroot s Hs) as (s1 & -> & Hs1). by exists s1.
  - rewrite Hef, Hel, Htog. destruct (levels leaf) eqn:Hlev; [by intros ?|by apply local_constant].
Qed.

Lemma local_coarse group : whole = false -> SAMPLES_PER_L3_BIT <= group ->
  exists sm, returns (block_local_display_summary hash ch bl ls le group) sm /\ quiet ch (bl * spb + ls) (bl * spb + le) sm.
Proof.
  intros Hw Hg. destruct (root_summary_ok ch bl Hc Hb) as (entry & Hroot & Htog & Hef & Hel & Hl3t & Hl3l).
  destruct (leaf_of_ok meta data Hcap ch bl Hc Hb) as [_ (_ & _ & _ & Hsum)].
  destruct local_bounds as (_ & _ & _ & Hmax). destruct (levels leaf) as [l|] eqn:Hlev.
  - destruct Hsum as [(_ & _ & H3) _].
    exists (rows_summary [l3_toggle l] [l3_last l] (first leaf) (ls / SAMPLES_PER_L3_BIT) ((le - 1) / SAMPLES_PER_L3_BIT)).
    split; [|by eapply rows_summary_quiet; [..|exact H3|done|done]].
    intros s Hs. open_local s Hs. rewrite Hw, (proj2 (Z.leb_le _ _) Hg). destruct (Hroot s Hs) as (s1 & -> & Hs1).
    rewrite Htog. cbn [negb]. exists s1. split; [|done]. unfold SAMPLES_PER_L3_BIT, MAX_LEAF_SAMPLES in *.
    rewrite !Z.min_l, Hef, Hl3t, Hl3l by dlia. destruct H3 as (_ & _ & _ & [Hol _]). unfold rows_summary.
    assert (Hbit : forall i, 0 <= i < 64 -> bit (l3_last l) i = bit_at [l3_last l] i).
    { intros i Hi. rewrite bit_testbit; [|exact (Forall_inv Hol)|lia]. replace i with (64 * 0 + i) at 2 by lia.
      by rewrite bit_at_split by lia. }
    rewrite (Hbit ((le - 1) / 262144)) by dlia. destruct (Z.eqb_spec (ls / 262144) 0); [done|]. by rewrite Hbit by dlia.
  - eexists. split; [|by apply local_constant]. intros s Hs. open_local s Hs. rewrite Hw, (proj2 (Z.leb_le _ _) Hg).
    destruct (Hroot s Hs) as (s1 & -> & Hs1). rewrite Htog. cbn [negb]. exists s1. by rewrite Hef, Hel.
Qed.

Lemma local_fine group : whole = false -> group < SAMPLES_PER_L3_BIT ->
  exists sm, returns (block_local_display_summary hash ch bl ls le group) sm /\ quiet ch (bl * spb + ls) (bl * spb + le) sm.
Proof.
  intros Hw Hg. destruct (leaf_of_ok meta data Hcap ch bl Hc Hb) as [_ (_ & _ & _ & Hsum)].
  destruct local_bounds as (_ & _ & _ & Hmax).
  assert (Hopen : forall s, sampler_ok s -> exists s', sampler_ok s' /\
    block_local_display_summary hash ch bl ls le group s =
      match levels leaf with
      | None => (Ok (mkSummary (first leaf) false (last leaf)), s')
      | Some l =>
          (if SAMPLES_PER_L2_BIT <=? group
           then level_summary (l2_toggle l) (l2_last l) (first leaf) (Z.min (ls / SAMPLES_PER_L2_BIT) 4095)
                  (Z.min ((le - 1) / SAMPLES_PER_L2_BIT) 4095)
           else level_summary (l1_toggle l) (l1_last l) (first leaf) (Z.min (ls / SAMPLES_PER_L1_BIT) 262143)
                  (Z.min ((le - 1) / SAMPLES_PER_L1_BIT) 262143), s')
      end).
  { intros s Hs. open_local s Hs. rewrite Hw, (proj2 (Z.leb_gt _ _) Hg).
    destruct (leaf_summary_ok ch bl Hc Hb s Hs) as (s1 & -> & Hs1). exists s1. split; [done|].
    unfold view_of. destruct (levels leaf); [|done]. by destruct (SAMPLES_PER_L2_BIT <=? group). }
  destruct (levels leaf) as [l|] eqn:Hlev.
  2: { eexists. split; [|by apply local_constant]. intros s Hs. destruct (Hopen s Hs) as (s' & Hs' & ->). by exists s'. }
  destruct Hsum as [(H1 & H2 & _) _]. destruct (SAMPLES_PER_L2_BIT <=? group) eqn:Hg2.
  - eexists (rows_summary (l2_toggle l) (l2_last l) (first leaf) (ls / SAMPLES_PER_L2_BIT) ((le - 1) / SAMPLES_PER_L2_BIT)).
    split; [|by eapply rows_summary_quiet; [..|exact H2|done|done]].
    intros s Hs. destruct (Hopen s Hs) as (s' & Hs' & ->). exists s'. split; [|done].
    destruct H2 as (_ & Hz & _ & [Hol _]). unfold SAMPLES_PER_L2_BIT, MAX_LEAF_SAMPLES, L2_WORDS in *.
    rewrite !Z.min_l, level_summary_rows; [done|done|dlia|rewrite Hz; dlia|dlia|dlia].
  - eexists (rows_summary (l1_toggle l) (l1_last l) (first leaf) (ls / SAMPLES_PER_L1_BIT) ((le - 1) / SAMPLES_PER_L1_BIT)).
    split; [|by eapply rows_summary_quiet; [..|exact H1|done|done]].
    intros s Hs. destruct (Hopen s Hs) as (s' & Hs' & ->). exists s'. split; [|done].
    destruct H1 as (_ & Hz & _ & [Hol _]). unfold SAMPLES_PER_L1_BIT, MAX_LEAF_SAMPLES, L1_WORDS in *.
    rewrite !Z.min_l, level_summary_rows; [done|done|dlia|rewrite Hz; dlia|dlia|dlia].
Qed.

Lemma block_local_ok group :
  exists sm, returns (block_local_display_summary hash ch bl ls le group) sm /\ quiet ch (bl * spb + ls) (bl * spb + le) sm.
Proof.
  destruct whole eqn:Hw; [by apply local_whole|].
  destruct (Z.le_gt_cases SAMPLES_PER_L3_BIT group); [by apply local_coarse|by apply local_fine].
Qed.
End Local.

(** A range of blocks that shows no change is constant at the level before it. *)
Lemma range_summary_loop_ok count ch a b group bl first0 last0 toggle0 s :
  0 <= ch < channels -> 0 <= a < b -> b <= total -> a / spb <= bl -> bl + Z.of_nat count = (b - 1) / spb + 1 ->
  sampler_ok s ->
  exists first1 last1 toggle1 s',
    range_summary_loop hash count ch a b group bl first0 last0 toggle0 s = (Ok (first1, last1, toggle1), s') /\
    sampler_ok s' /\
    (toggle1 = false -> toggle0 = false /\ last1 = last0 /\ (first1 = first0 \/ first1 = Some last0) /\
       constant_at ch (Z.max a (bl * spb)) b last0).
Proof.
  intros Hc Hab Hbt. pose proof Hcap as (Hspb & Ht & _).
  revert bl first0 last0 toggle0 s. induction count as [|count IH]; intros bl first0 last0 toggle0 s Hbl Hcount Hs;
    cbn [range_summary_loop].
  { exists first0, last0, toggle0, s. split; [done|]. split; [done|]. intros ->. split; [done|]. split; [done|].
    split; [by left|]. intros i Hi. pose proof (Z.div_mod (b - 1) spb). pose proof (Z.mod_pos_bound (b - 1) spb). nia. }
  assert (Hb : 0 <= bl < blocks).
  { destruct (block_of_sample (b - 1) ltac:(lia)) as (He & _). assert (0 <= a / spb) by (apply Z.div_pos; lia). lia. }
  assert (Hstart : a < bl * spb + spb) by (pose proof (Z.div_mod a spb); pose proof (Z.mod_pos_bound a spb); nia).
  assert (Hend : bl * spb <= b - 1) by (pose proof (Z.div_mod (b - 1) spb); pose proof (Z.mod_pos_bound (b - 1) spb); nia).
  pose proof (block_range meta data Hcap bl Hb) as Hr. assert (Hbs : u64 (bl * spb)) by (clear - Hr Ht; ints).
  rewrite header_ok, mul64_small by done. cbv zeta.
  assert (Hsub : saturating_sub64 a (bl * spb) = Z.max a (bl * spb) - bl * spb /\
    Z.min (saturating_sub64 b (bl * spb)) spb = Z.min b (bl * spb + spb) - bl * spb).
  { unfold saturating_sub64. lia. }
  destruct Hsub as [-> ->]. rewrite (proj2 (Z.leb_gt _ _)) by lia.
  destruct (block_local_ok ch bl (Z.max a (bl * spb) - bl * spb) (Z.min b (bl * spb + spb) - bl * spb) Hc Hb
    ltac:(lia) ltac:(unfold block_samples; lia) group) as (sm & Hsm & Hquiet).
  destruct (Hsm s Hs) as (s1 & -> & Hs1).
  edestruct (IH (bl + 1)) as (first1 & last1 & toggle1 & s2 & -> & Hs2 & Hcon); [lia|lia|exact Hs1|].
  exists first1, last1, toggle1, s2. split; [done|]. split; [done|]. intros Htog.
  destruct (Hcon Htog) as (Hor & -> & Hfirst & Hrest). apply orb_false_iff in Hor as [-> Hor].
  apply orb_false_iff in Hor as [Hor Heq2]. apply orb_false_iff in Hor as [Hst Heq1].
  apply negb_false_iff, eqb_prop in Heq1, Heq2. destruct (Hquiet Hst) as [Hfl Hblk].
  rewrite <- Hfl, Heq1 in *. split; [done|]. split; [done|]. split.
  - destruct first0 as [f|]; cbn in Heq2, Hfirst |- *; [destruct Hfirst as [-> | ->]; [by left|by right]|].
    right. by destruct Hfirst as [-> | ->].
  - intros i Hi. destruct (Z.lt_ge_cases i (bl * spb + spb)); [apply Hblk; lia|apply Hrest; lia].
Qed.

Lemma range_summary_ok ch group a b fallback s :
  0 <= ch < channels -> 0 <= a < b -> b <= total -> sampler_ok s ->
  exists sm s', indexed_display_range_summary hash ch group a b fallback s = (Ok sm, s') /\ sampler_ok s' /\
    (sum_toggle sm = false -> sum_first sm = fallback /\ sum_last sm = fallback /\ constant_at ch a b fallback).
Proof.
  intros Hc Hab Hbt Hs. unfold indexed_display_range_summary. rewrite header_ok by done.
  destruct Hcap as (Hspb & _). rewrite saturating_sub64_small, !div_spb by lia. cbv zeta.
  assert (Hdiv : a / spb <= (b - 1) / spb) by (apply Z.div_le_mono; lia).
  destruct (range_summary_loop_ok (Z.to_nat ((b - 1) / spb - a / spb + 1)) ch a b group (a / spb) None fallback false s)
    as (first1 & last1 & toggle1 & s' & -> & Hs' & Hcon); [done|done|done|lia|lia|done|].
  eexists _, s'. split; [done|]. split; [done|]. cbn. intros Htog. destruct (Hcon Htog) as (_ & -> & Hfirst & Hrest).
  split; [by destruct Hfirst as [-> | ->]|]. split; [done|].
  pose proof (Z.div_mod a spb). pose proof (Z.mod_pos_bound a spb).
  by replace (Z.max a (a / spb * spb)) with a in Hrest by nia.
Qed.

(** ** Waveforms *)

(** Segments without gap from [lo] to [hi], of which the levels show what the samples hold. *)
Fixpoint tiles (ch : Z) (wave : list CaptureWaveformSegment) (lo hi : Z) : Prop :=
  match wave with
  | [] => lo = hi
  | Level a b v :: wave => a = lo /\ a < b /\ constant_at ch a b v /\ tiles ch wave b hi
  | Activity a b _ _ :: wave => a = lo /\ a < b /\ tiles ch wave b hi
  | Edge _ _ _ :: _ => False
  end.

Lemma tiles_app ch w1 w2 lo hi : tiles ch (w1 ++ w2) lo hi <-> exists mid, tiles ch w1 lo mid /\ tiles ch w2 mid hi.
Proof.
  revert lo. induction w1 as [|[a b v|x y z|a b f l] w1 IH]; intros lo; cbn [tiles app].
  - split; [intros Ht; by exists lo|by intros (mid & -> & Ht)].
  - rewrite IH. naive_solver.
  - naive_solver.
  - rewrite IH. naive_solver.
Qed.

Lemma split_last_some {A} (l front : list A) x : split_last l = Some (front, x) -> l = front ++ [x].
Proof.
  unfold split_last. destruct l as [|y l _] using rev_ind; [done|]. rewrite last_snoc. intros [= <- ->].
  rewrite length_app. cbn [length]. by rewrite Nat.add_sub, take_app_length.
Qed.

Lemma constant_at_join ch a b c v : constant_at ch a b v -> constant_at ch b c v -> constant_at ch a c v.
Proof. intros H1 H2 i Hi. destruct (Z.lt_ge_cases i b); [apply H1; lia|apply H2; lia]. Qed.

Lemma push_level_tiles ch wave lo a b v :
  tiles ch wave lo a -> a < b -> constant_at ch a b v -> tiles ch (push_level wave a b v) lo b.
Proof.
  intros Ht Hab Hc. assert (Hplain : tiles ch (wave ++ [Level a b v]) lo b).
  { apply tiles_app. exists a. split; [done|]. by cbn. }
  unfold push_level. rewrite (proj2 (Z.leb_gt _ _)) by done.
  destruct (split_last wave) as [[front [s e pv|x y z|s e f l]]|] eqn:Hsp; [|done..].
  destruct (Z.eqb_spec e a) as [->|]; cbn [andb]; [|done]. destruct (Bool.eqb pv v) eqn:Hv; [|done].
  apply eqb_prop in Hv as ->. apply split_last_some in Hsp as ->. apply tiles_app in Ht as (mid & H1 & H2).
  cbn in H2. destruct H2 as (-> & Hse & Hcs & _). apply tiles_app. exists mid. split; [done|]. cbn.
  split; [done|]. split; [lia|]. split; [by eapply constant_at_join|done].
Qed.

Lemma push_activity_tiles ch wave lo a b f l :
  tiles ch wave lo a -> a < b -> tiles ch (push_activity wave a b f l) lo b.
Proof.
  intros Ht Hab. assert (Hplain : tiles ch (wave ++ [Activity a b f l]) lo b).
  { apply tiles_app. exists a. split; [done|]. by cbn. }
  unfold push_activity. destruct (split_last wave) as [[front [s e pv|x y z|s e pf pl]]|] eqn:Hsp; [done..| |done].
  destruct (Z.eqb_spec e a) as [->|]; [|done]. apply split_last_some in Hsp as ->.
  apply tiles_app in Ht as (mid & H1 & H2). cbn in H2. destruct H2 as (-> & Hse & _).
  apply tiles_app. exists mid. split; [done|]. cbn. split; [done|]. by split; [lia|].
Qed.

Lemma append_pixel_tiles ch wave lo a b sm previous :
  tiles ch wave lo a -> a < b ->
  (sum_toggle sm = false -> sum_first sm = previous /\ sum_last sm = previous /\ constant_at ch a b previous) ->
  exists previous' wave', append_pixel_waveform a b sm previous wave = (previous', wave') /\ tiles ch wave' lo b.
Proof.
  intros Ht Hab Hq. unfold append_pixel_waveform. rewrite (proj2 (Z.leb_gt _ _)) by done.
  destruct (sum_toggle sm); [by eexists _, _; split; [done|apply push_activity_tiles]|].
  destruct (Hq eq_refl) as (-> & _ & Hc). rewrite eqb_reflx. eexists _, _. split; [done|]. by apply push_level_tiles.
Qed.

Section Points.
Context (ch group start end_ points : Z) (Hc : 0 <= ch < channels) (Hse : 0 <= start < end_) (Het : end_ <= total).
Context (Hpoints : 0 < points <= end_ - start) (Hfit : (end_ - start) * points <= u64_max).

Local Abbreviation grid := (mkGrid start end_ end_ points).

Lemma point_start_eq p : 0 <= p <= points -> point_start grid points p = start + (end_ - start) * p / points.
Proof.
  intros Hp. unfold point_start. cbn [grid_start_sample grid_end_sample]. destruct Hcap as (_ & Ht & _).
  rewrite saturating_sub64_small by lia.
  rewrite saturating_mul64_small by (clear - Hse Hp Hfit Hpoints; unfold u64, u64_max in *; nia).
  assert ((end_ - start) * p / points <= end_ - start) by (apply Z.div_le_upper_bound; nia).
  assert (0 <= (end_ - start) * p / points) by (apply Z.div_pos; nia).
  apply add64_small; [lia|lia|]. assert (total <= u64_max) by (clear - Ht; ints). lia.
Qed.

Lemma point_next p : 0 <= p < points ->
  point_start grid points p < point_end grid points p <= end_ /\ point_end grid points p = point_start grid points (p + 1).
Proof.
  intros Hp. unfold point_end. cbn [grid_end_sample available_end_sample]. rewrite !point_start_eq by lia.
  assert (Hlt : (end_ - start) * p / points < (end_ - start) * (p + 1) / points).
  { apply Z.lt_le_trans with ((end_ - start) * p / points + 1); [lia|]. rewrite <- Z.div_add by lia.
    apply Z.div_le_mono; lia. }
  assert (Hle : (end_ - start) * (p + 1) / points <= end_ - start) by (apply Z.div_le_upper_bound; nia).
  destruct (Z.eqb_spec (p + 1) points) as [->|]; [|lia]. rewrite Z.div_mul in * by lia. lia.
Qed.

Lemma point_loop_ok count p previous wave s :
  0 <= p -> p + Z.of_nat count = points -> tiles ch wave start (point_start grid points p) -> sampler_ok s ->
  exists wave' s', point_loop (indexed_display_range_summary hash ch group) count grid points p
      (point_start grid points p) previous wave s = (Ok wave', s') /\ tiles ch wave' start end_ /\ sampler_ok s'.
Proof.
  revert p previous wave s. induction count as [|count IH]; intros p previous wave s Hp Hcount Ht Hs; cbn [point_loop].
  { exists wave, s. split; [done|]. split; [|done]. rewrite point_start_eq in Ht by lia.
    replace p with points in Ht by lia. rewrite Z.div_mul in Ht by lia. by replace (start + (end_ - start)) with end_ in Ht by lia. }
  destruct (point_next p ltac:(lia)) as [Hlt Hnext]. cbn [available_end_sample].
  rewrite (proj2 (Z.leb_gt _ _)), (proj2 (Z.leb_gt _ _)), Z.ltb_irrefl by lia. cbn [orb].
  assert (Hp0 : start <= point_start grid points p).
  { rewrite point_start_eq by lia. assert (0 <= (end_ - start) * p / points) by (apply Z.div_pos; nia). lia. }
  destruct (range_summary_ok ch group (point_start grid points p) (point_end grid points p) previous s)
    as (sm & s1 & -> & Hs1 & Hq); [done|lia|lia|done|].
  destruct (append_pixel_tiles ch wave start _ _ sm previous Ht (proj1 Hlt) Hq) as (previous' & wave' & -> & Ht').
  rewrite Hnext in Ht' |- *. apply IH; done || lia.
Qed.

Lemma sample_indexed_channel_ok s : sampler_ok s ->
  exists sampled s', sample_indexed_channel hash start end_ points group ch s = (Ok sampled, s') /\
    sc_channel sampled = ch /\ tiles ch (sc_waveform sampled) start end_ /\ sc_transitions sampled = [] /\ sampler_ok s'.
Proof.
  intros Hs. unfold sample_indexed_channel. rewrite (header_ok s Hs), (proj2 (Z.leb_gt _ _)) by lia.
  unfold indexed_initial_value. rewrite (header_ok s Hs), div_spb.
  destruct (block_of_sample start ltac:(lia)) as (Hb & Hloc & Hle).
  assert (Hmod : start mod spb = start - start / spb * spb) by (rewrite Z.mod_eq; [|destruct Hcap; lia]; lia).
  assert (Hadd : add64 (start mod spb) 1 = start mod spb + 1).
  { destruct Hcap as ((Hspb & _) & Ht & _). pose proof (Z.mod_le start spb ltac:(lia) Hspb).
    pose proof (Z.mod_pos_bound start spb Hspb). apply add64_small; [lia|lia|].
    assert (total <= u64_max) by (clear - Ht; ints). lia. }
  cbv zeta. rewrite Hadd, Hmod.
  destruct (block_local_ok ch (start / spb) (start - start / spb * spb) (start - start / spb * spb + 1) Hc Hb
    ltac:(lia) ltac:(lia) group) as (sm & Hsm & _). destruct (Hsm s Hs) as (s1 & -> & Hs1).
  unfold sample_waveform_summary_channel. cbn [grid_target_points grid_start_sample]. rewrite Z.max_l by lia.
  assert (Hzero : point_start grid points 0 = start) by (rewrite point_start_eq, Z.mul_0_r, Z.div_0_l by lia; lia).
  destruct (point_loop_ok (Z.to_nat points) 0 (sum_first sm) [] s1) as (wave & s2 & Hloop & Hwave & Hs2);
    [lia|lia|by rewrite Hzero|done|].
  rewrite Hzero in Hloop. rewrite Hloop. eexists _, s2. split; [done|]. by repeat (split; [done|]).
Qed.
End Points.

(** ** Windows *)

Lemma map_state_ok {A B} (f : A -> @Sampling R B) (P : A -> B -> Prop) l s :
  (forall x s, In x l -> sampler_ok s -> exists y s', f x s = (Ok y, s') /\ P x y /\ sampler_ok s') -> sampler_ok s ->
  exists ys s', map_state f l s = (Ok ys, s') /\ Forall2 P l ys /\ sampler_ok s'.
Proof.
  revert s. induction l as [|x l IH]; intros s Hf Hs; cbn [map_state]; [by exists [], s|].
  destruct (Hf x s ltac:(by left) Hs) as (y & s1 & -> & Hy & Hs1).
  destruct (IH s1 (fun x' s' Hx => Hf x' s' (or_intror Hx)) Hs1) as (ys & s2 & -> & Hys & Hs2).
  exists (y :: ys), s2. split; [done|]. split; [by constructor|done].
Qed.

Lemma select_some w points x l : exists r, select_waveform_summary_resolution w points (x :: l) = Some r.
Proof.
  unfold select_waveform_summary_resolution. set (desired := Z.max _ 1). clearbody desired.
  assert (Hkeep : forall l selected, is_Some selected -> is_Some (select_loop desired l selected)).
  { clear. induction l as [|y l IH]; intros [v|] Hv; cbn [select_loop]; [done|by destruct Hv| |by destruct Hv].
    destruct (desired <? y); [by destruct (y <=? desired)|]. apply IH. by destruct (y <=? desired). }
  unfold sorted_resolutions. cbn [fold_right]. destruct (insert_resolution x _) as [|y l'] eqn:Hi.
  { destruct (fold_right insert_resolution [] l) as [|z l']; cbn in Hi; [done|]. by destruct (x <? z), (x =? z). }
  cbn [select_loop]. destruct (desired <? y); [by exists y|]. apply Hkeep. by exists y.
Qed.

(** What a window shows of a channel. *)
Definition window_channel (start end_ : Z) (exact : bool) (ch : Z) (sampled : CaptureSampledChannel) : Prop :=
  sc_channel sampled = ch /\
  if exact
  then sc_initial sampled = L ch start /\ sc_transitions sampled = edges ch (start + 1) end_ /\ sc_waveform sampled = []
  else tiles ch (sc_waveform sampled) start end_ /\ sc_transitions sampled = [].

Lemma sampled_window_ok chans start end_ points s :
  Forall (fun ch => 0 <= ch < channels) chans -> 0 < total -> 0 <= start -> 0 <= points ->
  total * Z.max points 1 <= u64_max -> sampler_ok s ->
  let st := Z.min start (total - 1) in
  let en := Z.min (Z.max end_ (st + 1)) total in
  exists w s', sampled_window read_packed_block hash chans start end_ points s = (Ok w, s') /\
    sw_start_sample w = st /\ sw_end_sample w = en /\
    Forall2 (window_channel st en (en - st <=? exact_window_sample_limit points)) chans (sw_channels w) /\ sampler_ok s'.
Proof.
  intros Hch Htot Hst Hp Hfit Hs st en. unfold sampled_window. rewrite (header_ok s Hs).
  rewrite saturating_sub64_small by lia. fold st. destruct Hcap as (_ & Ht & _).
  assert (Hmax : total <= u64_max) by (clear - Ht; ints).
  assert (Hadd : add64 st 1 = st + 1) by (apply add64_small; lia).
  unfold clamp. rewrite Hadd, (proj2 (Z.ltb_ge _ _)) by lia. fold en. cbv zeta.
  assert (Hsub : sub64 en st = en - st) by (apply sub64_small; [clear - Ht Htot Hst st en; ints|lia]). rewrite Hsub.
  assert (Hlimit : exact_window_sample_limit (Z.max points 1) = exact_window_sample_limit points).
  { unfold exact_window_sample_limit. by rewrite (Z.max_l (Z.max points 1) 1) by lia. }
  rewrite Hlimit. destruct (Z.leb_spec (en - st) (exact_window_sample_limit points)) as [Hex|Hidx].
  - unfold exact_sampled_window.
    destruct (map_state_ok (exact_sampled_channel read_packed_block hash st en) (window_channel st en true) chans s)
      as (ys & s1 & -> & Hys & Hs1); [|done|].
    + intros ch s0 Hin Hs0. rewrite Forall_forall in Hch. specialize (Hch ch ltac:(by apply list_elem_of_In)).
      destruct (exact_sampled_channel_ok ch st en _ Hch ltac:(lia) ltac:(lia) eq_refl s0 Hs0) as (s1 & -> & Hs1).
      eexists _, s1. split; [done|]. by repeat (split; [done|]).
    + eexists _, s1. split; [done|]. by repeat (split; [done|]).
  - destruct (select_some (en - st) (Z.max points 1) SAMPLES_PER_L1_BIT [SAMPLES_PER_L2_BIT; SAMPLES_PER_L3_BIT; spb])
      as [r Hr]. rewrite Hr. cbn [ok_or].
    assert (Hroom : Z.max points 1 <= en - st).
    { unfold exact_window_sample_limit, saturating_mul64, SAMPLES_PER_L1_BIT in Hidx. lia. }
    destruct (map_state_ok (sample_indexed_channel hash st en (Z.max points 1) r) (window_channel st en false) chans s)
      as (ys & s1 & -> & Hys & Hs1); [|done|].
    + intros ch s0 Hin Hs0. rewrite Forall_forall in Hch. specialize (Hch ch ltac:(by apply list_elem_of_In)).
      destruct (sample_indexed_channel_ok ch r st en (Z.max points 1) Hch ltac:(lia) ltac:(lia) ltac:(lia) ltac:(nia) s0 Hs0)
        as (sampled & s1 & -> & Hsc & Htiles & Htr & Hs1).
      exists sampled, s1. by repeat (split; [done|]).
    + eexists _, s1. split; [done|]. by repeat (split; [done|]).
Qed.

(** ** Opening *)

Section Opening.
Context {P : Type} (progress : P -> CaptureIndexProgress -> bool * P).
Context (Hprogress : forall p x, fst (progress p x) = true).

(** An index of the capture and the raw blocks of the repository serve a new sampler. *)
Lemma sampler_new_ok r : index_in r -> raw_blocks_ok r ->
  is_valid hash r identity meta source_revision = true /\
  exists ir, open_index hash r identity meta source_revision = Ok ir /\ sampler_ok (sampler_new ir r).
Proof.
  intros (r0 & Hr) Hraw.
  destruct (open_index_ok hash identity meta source_revision all_leaves r0 Hmeta leaves_all_ok r Hr)
    as (Hv & ir & Hir & Hok). split; [exact Hv|]. exists ir. split; [done|].
  split; [done|]. split; [by exists r0|]. split; [done|]. split; [apply Hok|apply empty_cache_ok].
Qed.

Lemma open_data_source_ok r0 parallelism schedule p :
  is_valid hash r0 identity meta source_revision = false \/ index_in r0 -> raw_blocks_ok r0 ->
  exists s p' r, open_data_source read_packed_block hash progress (Some identity) meta source_revision parallelism schedule p r0
    = (Ok s, (p', r)) /\ sampler_ok s /\ repository s = r.
Proof.
  intros Hr0 Hraw. unfold open_data_source. destruct (is_valid hash r0 identity meta source_revision) eqn:Hv; cbn [negb].
  - destruct Hr0 as [|Hidx]; [done|]. destruct (sampler_new_ok r0 Hidx Hraw) as (_ & ir & -> & Hs).
    by exists (sampler_new ir r0), p, r0.
  - destruct (build_ok meta data Hcap read_packed_block Hread identity source_revision Hmeta hash Hinj r0 progress
      Hprogress parallelism schedule p) as (p' & r & -> & Hr).
    destruct (sampler_new_ok r) as (_ & ir & -> & Hs).
    + by exists r0.
    + destruct Hr as (_ & Hkept & _). intros ch bl c Hc Hb Hcont. rewrite Hkept in Hcont by done. by apply (Hraw ch bl).
    + by exists (sampler_new ir r), p', r.
Qed.
End Opening.
End Sampling.
End Capture.
