(* ===== verification/CaptureProperties.v ===== *)
(** What an indexed capture promises: its leaves are exact and read back, every way to build it
    publishes the same bytes, and queries answer from the samples alone. *)

From stdpp Require Import gmap.
From S2P Require Import Prelude RecordedQuery CaptureBits CaptureKernel CaptureLeaf CaptureCache.
From S2P Require Import CaptureStorage CaptureStorageProofs CaptureBuild CaptureBuildProofs.
From S2P Require Import CaptureSampler CaptureSamplerProofs.

#[local] Open Scope Z_scope.

(** ** Directories *)

Lemma rows_ext {A} (l1 l2 : list A) n :
  zlen l1 = n -> zlen l2 = n -> (forall i, 0 <= i < n -> byte_at l1 i = byte_at l2 i) -> l1 = l2.
Proof.
  intros H1 H2 Heq. apply list_eq. intros i. destruct (Z.lt_ge_cases (Z.of_nat i) n).
  - rewrite <- !byte_at_nat. apply Heq. lia.
  - unfold zlen in *. rewrite !lookup_ge_None_2 by lia. done.
Qed.

Lemma directory_ext d1 d2 channels blocks :
  zlen d1 = channels -> zlen d2 = channels ->
  Forall (fun row => zlen row = blocks) d1 -> Forall (fun row => zlen row = blocks) d2 ->
  (forall ch bl, 0 <= ch < channels -> 0 <= bl < blocks -> dir_get d1 ch bl = dir_get d2 ch bl) -> d1 = d2.
Proof.
  intros H1 H2 R1 R2 Heq. apply (rows_ext _ _ channels H1 H2). intros ch Hc.
  destruct (byte_at_some d1 ch ltac:(lia)) as [row1 Hr1]. destruct (byte_at_some d2 ch ltac:(lia)) as [row2 Hr2].
  rewrite Hr1, Hr2. f_equal.
  assert (Hrow : forall (d : list (list RootDirEntry)) row, byte_at d ch = Some row ->
    Forall (fun row => zlen row = blocks) d -> zlen row = blocks).
  { intros d row Hd Hall. unfold byte_at in Hd. destruct (ch <? 0); [done|]. by eapply (Forall_lookup_1 _ _ _ _ Hall). }
  apply (rows_ext _ _ blocks); [by eapply Hrow|by eapply Hrow|]. intros bl Hb.
  specialize (Heq ch bl Hc Hb). unfold dir_get in Heq. by rewrite Hr1, Hr2 in Heq.
Qed.

(** ** Queries and their answers *)

Inductive Query :=
| ValueAt (channel position : Z)
| ValuesAt (channel : Z) (positions : list Z)
| NextTransition (channel position limit : Z)
| NextTransitions (channel position limit max_transitions : Z)
| PackedBlock (channel block : Z).

Inductive Reply :=
| Value (value : bool)
| Values (values : list bool)
| Transition (transition : option CaptureTransition)
| Transitions (transitions : list CaptureTransition)
| Packed (bytes : list Z).

Definition reply {A} (f : A -> Reply) (r : result (failure Error) A) : result (failure Error) Reply :=
  match r with Ok a => Ok (f a) | Err e => Err e end.

Section Queries.
Context (read_packed_block : Z -> Z -> result (failure Error) (list Z)).
Context (hash : list Z -> list Z) {R : Type} `{ArtifactRepository R}.

(** The sampler's answer to a query. *)
Definition ask (q : Query) (s : @IndexSampler R) : result (failure Error) Reply * @IndexSampler R :=
  match q with
  | ValueAt ch i => let '(out, s) := value_at read_packed_block hash ch i s in (reply Value out, s)
  | ValuesAt ch positions => let '(out, s) := values_at read_packed_block hash ch positions s in (reply Values out, s)
  | NextTransition ch i limit =>
      let '(out, s) := next_transition read_packed_block hash ch i limit s in (reply Transition out, s)
  | NextTransitions ch i limit max =>
      let '(out, s) := next_transitions read_packed_block hash ch i limit max s in (reply Transitions out, s)
  | PackedBlock ch bl => let '(out, s) := packed_block read_packed_block hash ch bl s in (reply Packed out, s)
  end.

(** The answers to queries in a row; an error ends none but its own. *)
Fixpoint ask_all (qs : list Query) (s : @IndexSampler R) : list (result (failure Error) Reply) * @IndexSampler R :=
  match qs with
  | [] => ([], s)
  | q :: qs =>
      let '(a, s) := ask q s in
      let '(rest, s) := ask_all qs s in
      (a :: rest, s)
  end.
End Queries.

Section Specification.
Context (meta : CaptureMetadata) (data : Z -> Z -> list Z).

(** The answer to a query from the samples of the capture. *)
Definition answer (q : Query) : result (failure Error) Reply :=
  let channel := match q with ValueAt ch _ | ValuesAt ch _ | NextTransition ch _ _ | NextTransitions ch _ _ _ | PackedBlock ch _ => ch end in
  if total_probes meta <=? channel then invalid_probe channel
  else
    match q with
    | ValueAt ch i => if total_samples meta <=? i then out_of_bounds i else Ok (Value (level_at meta data ch i))
    | ValuesAt ch positions => reply Values (values_answer meta data ch [] positions)
    | NextTransition ch i limit =>
        Ok (Transition (head (edges meta data ch (i + 1) (Z.min limit (total_samples meta)))))
    | NextTransitions ch i limit max =>
        Ok (Transitions (take (Z.to_nat max) (edges meta data ch (i + 1) (Z.min limit (total_samples meta)))))
    | PackedBlock ch bl => Ok (Packed (data ch bl))
    end.

(** Arguments are unsigned; a packed block is one of the capture's. *)
Definition query_ok (q : Query) : Prop :=
  match q with
  | ValueAt ch i => 0 <= ch /\ 0 <= i
  | ValuesAt ch positions => 0 <= ch /\ Forall (fun i => 0 <= i) positions
  | NextTransition ch i limit => 0 <= ch /\ u64 i /\ 0 <= limit
  | NextTransitions ch i limit max => 0 <= ch /\ u64 i /\ 0 <= limit /\ 0 <= max
  | PackedBlock ch bl => 0 <= ch < total_probes meta /\ 0 <= bl < total_blocks meta
  end.
End Specification.

(** ** Repositories and captures *)

Section Indexed.
Context (meta : CaptureMetadata) (data : Z -> Z -> list Z).
Context (read_packed_block : Z -> Z -> result (failure Error) (list Z)).
Context (identity : list Z) (source_revision : Z) (hash : list Z -> list Z) {R : Type} `{RepositoryLaws R}.

(** What the index of a capture relies on: the blocks of the capture and their reader, metadata that
    fits the root, keys without collisions. *)
Record indexable : Prop := {
  indexable_capture : capture_ok meta data;
  indexable_read : forall ch bl, 0 <= ch < total_probes meta -> 0 <= bl < total_blocks meta ->
    read_packed_block ch bl = Ok (data ch bl);
  indexable_metadata : metadata_ok meta source_revision;
  indexable_hash : Inj (=) (=) hash
}.

(** A repository that has no valid index of the capture or the right one, and no wrong raw blocks. *)
Definition repository_ok (r : R) : Prop :=
  (is_valid hash r identity meta source_revision = false \/ index_in meta data identity source_revision hash r) /\
  raw_blocks_ok meta data identity hash r.

Local Abbreviation s_ok := (sampler_ok meta data identity source_revision hash).

Lemma packed_block_ok s ch bl : indexable -> s_ok s -> 0 <= ch < total_probes meta -> 0 <= bl < total_blocks meta ->
  packed_block read_packed_block hash ch bl s = (Ok (data ch bl), s).
Proof.
  intros [Hcap Hread Hmeta Hinj] Hs Hc Hb. unfold packed_block.
  rewrite (cached_raw_contents meta data identity source_revision hash s ch bl Hs).
  destruct (contents _ _) as [c|] eqn:Hcont; [|by rewrite Hread].
  destruct Hs as (_ & _ & Hraw & _). by rewrite (Hraw ch bl c Hc Hb Hcont).
Qed.

Lemma ask_ok q s : indexable -> query_ok meta q -> s_ok s ->
  exists s', ask read_packed_block hash q s = (answer meta data q, s') /\ s_ok s'.
Proof.
  intros Hidx Hq Hs. pose proof Hidx as [Hcap Hread Hmeta Hinj]. pose proof (header_ok _ _ _ _ _ s Hs) as Hh.
  unfold ask, answer. destruct q as [ch i|ch ps|ch i limit|ch i limit max|ch bl]; cbn in Hq.
  - destruct Hq as [Hc Hi]. destruct (Z.leb_spec (total_probes meta) ch) as [Hbad|Hch].
    { exists s. unfold value_at. rewrite Hh, (proj2 (Z.leb_le _ _)) by done. done. }
    destruct (Z.leb_spec (total_samples meta) i) as [Hout|Hin].
    { exists s. unfold value_at. rewrite Hh, (proj2 (Z.leb_gt _ _)), (proj2 (Z.leb_le _ _)) by lia. done. }
    destruct (sampler_value_ok meta data Hcap read_packed_block Hread identity source_revision Hmeta hash Hinj
      ch i (conj Hc Hch) (conj Hi Hin) s Hs) as (s' & -> & Hs'). by exists s'.
  - destruct Hq as [Hc Hi]. destruct (Z.leb_spec (total_probes meta) ch) as [Hbad|Hch].
    { exists s. unfold values_at. rewrite Hh, (proj2 (Z.leb_le _ _)) by done. done. }
    destruct (values_at_ok meta data Hcap read_packed_block Hread identity source_revision Hmeta hash Hinj
      ch ps s (conj Hc Hch) Hi Hs) as (s' & -> & Hs'). by exists s'.
  - destruct Hq as (Hc & Hi & Hl). destruct (Z.leb_spec (total_probes meta) ch) as [Hbad|Hch].
    { exists s. unfold next_transition. rewrite Hh, (proj2 (Z.leb_le _ _)) by done. done. }
    destruct (next_transition_ok meta data Hcap read_packed_block Hread identity source_revision Hmeta hash Hinj
      ch i limit (conj Hc Hch) Hi s Hs) as (s' & -> & Hs'). by exists s'.
  - destruct Hq as (Hc & Hi & Hl & Hm). destruct (Z.leb_spec (total_probes meta) ch) as [Hbad|Hch].
    { exists s. unfold next_transitions. rewrite Hh, (proj2 (Z.leb_le _ _)) by done. done. }
    destruct (next_transitions_ok meta data Hcap read_packed_block Hread identity source_revision Hmeta hash Hinj
      ch i limit max (conj Hc Hch) Hi Hm s Hs) as (s' & -> & Hs'). by exists s'.
  - destruct Hq as [Hc Hb]. rewrite (proj2 (Z.leb_gt _ _)), packed_block_ok by (done || lia). by exists s.
Qed.

Lemma ask_all_ok qs s : indexable -> Forall (query_ok meta) qs -> s_ok s ->
  exists s', ask_all read_packed_block hash qs s = (map (answer meta data) qs, s') /\ s_ok s'.
Proof.
  intros Hidx Hqs. revert s. induction Hqs as [|q qs Hq _ IH]; intros s Hs; [by exists s|]. cbn [ask_all map].
  destruct (ask_ok q s Hidx Hq Hs) as (s1 & -> & Hs1). destruct (IH s1 Hs1) as (s2 & -> & Hs2). by exists s2.
Qed.

(** Two published indexes of a capture hold the same bytes. *)
Lemma published_same r0 r1 r2 :
  index_published meta data identity source_revision hash r0 r1 ->
  index_published meta data identity source_revision hash r0 r2 ->
  contents r1 (root_key hash identity) = contents r2 (root_key hash identity) /\
  forall k, 0 <= k -> 64 * k < zlen (leaves meta data) ->
    contents r1 (segment_key hash identity k) = contents r2 (segment_key hash identity k).
Proof.
  intros ((d1 & Hr1 & Hz1 & Hrow1 & Hd1) & _ & Hs1) ((d2 & Hr2 & Hz2 & Hrow2 & Hd2) & _ & Hs2). split.
  - rewrite Hr1, Hr2. do 3 f_equal. apply (directory_ext d1 d2 _ _ Hz1 Hz2 Hrow1 Hrow2).
    intros ch bl Hc Hb. by rewrite Hd1, Hd2.
  - intros k Hk Hlt. by rewrite Hs1, Hs2.
Qed.

(** A leaf of the index, as its reader sees it. *)
Definition serves_leaves (r : R) : Prop :=
  exists ir, open_index hash r identity meta source_revision = Ok ir /\
  forall ch bl, 0 <= ch < total_probes meta -> 0 <= bl < total_blocks meta -> exists leaf ir',
    load_leaf hash r ch bl ir = (Ok (view_of leaf), ir') /\
    leaf_exact (packed_bit (data ch bl)) (block_samples meta bl) (entering meta data ch bl) leaf.

Lemma published_serves r0 r : indexable -> index_published meta data identity source_revision hash r0 r -> serves_leaves r.
Proof.
  intros [Hcap Hread Hmeta Hinj] Hr.
  destruct (open_index_ok hash identity meta source_revision _ r0 Hmeta (leaves_all_ok meta data Hcap) r Hr) as (_ & ir & Hir & Hok).
  exists ir. split; [done|]. intros ch bl Hc Hb.
  destruct (load_leaf_ok hash identity meta source_revision _ r0 Hmeta (leaves_all_ok meta data Hcap) r ir ch bl Hr Hok Hc Hb)
    as (leaf & ir' & Hl & Hload & _). exists leaf, ir'. split; [done|].
  rewrite leaves_byte_at in Hl by done. injection Hl as <-. by apply leaf_of_ok.
Qed.

(** Every change of level in a tiled range is in an activity. *)
Lemma tiles_edge ch wave lo hi i : tiles meta data ch wave lo hi -> lo <= i < hi -> 0 < i -> edge meta data ch i = true ->
  exists a b f l, In (Activity a b f l) wave /\ a <= i < b.
Proof.
  revert lo. induction wave as [|[a b v|x y z|a b f l] wave IH]; intros lo Ht Hi Hpos He; cbn in Ht; [lia| |done|].
  - destruct Ht as (-> & Hab & Hc & Ht). destruct (Z.lt_ge_cases i b) as [Hlt|Hge].
    + destruct (Hc i ltac:(lia)) as [_ Hno]. rewrite Hno in He by done. done.
    + destruct (IH b Ht ltac:(lia) Hpos He) as (a' & b' & f & l & Hin & Hr). exists a', b', f, l. split; [by right|done].
  - destruct Ht as (-> & Hab & Ht). destruct (Z.lt_ge_cases i b) as [Hlt|Hge].
    + exists lo, b, f, l. split; [by left|lia].
    + destruct (IH b Ht ltac:(lia) Hpos He) as (a' & b' & f' & l' & Hin & Hr). exists a', b', f', l'. split; [by right|done].
Qed.

Lemma tiles_level ch wave lo hi a b v : tiles meta data ch wave lo hi -> In (Level a b v) wave ->
  forall i, a <= i < b -> level_at meta data ch i = v.
Proof.
  revert lo. induction wave as [|[a' b' v'|x y z|a' b' f l] wave IH]; intros lo Ht Hin; cbn in Ht, Hin; [done| |done|].
  - destruct Ht as (-> & Hab & Hc & Ht). destruct Hin as [[= -> -> ->]|Hin]; [|by apply (IH b')].
    intros i Hi. by apply Hc.
  - destruct Ht as (-> & Hab & Ht). destruct Hin as [?|Hin]; [done|by apply (IH b')].
Qed.

Lemma edges_in ch lo hi i : lo <= i < hi -> edge meta data ch i = true ->
  In (mkTransition i (level_at meta data ch i)) (edges meta data ch lo hi).
Proof.
  intros Hi He. unfold edges. apply in_map_iff. exists i. split; [done|]. apply List.filter_In.
  split; [apply in_seqZ_range; lia|done].
Qed.
End Indexed.

(** A window over a capture without samples panics, as the bounds to clamp its end to are crossed. *)
Lemma empty_capture_window_panics read_packed_block hash {R} `{ArtifactRepository R} chans start end_ points (s : @IndexSampler R) :
  total_samples (header_of s) = 0 -> 0 <= start ->
  sampled_window read_packed_block hash chans start end_ points s = (Err Panic, s).
Proof. intros Ht Hs. unfold sampled_window. rewrite Ht. by rewrite Z.min_r by (unfold saturating_sub64; lia). Qed.

(** ** Properties *)

(** C18. The leaf of a block, built from its packed samples and entered with the last level of the block
    before, is exact: at each of the three resolutions a toggle bit is set just when a sample of its
    group changes the level (the group's first sample compared with the level before it), and a last
    bit is the level of the group's last sample; a leaf without levels is that of a constant block.
    Its bytes read back as the same leaf. *)
Theorem leaf_exact_and_reads_back packed n previous_last :
  bytes_ok packed -> 0 <= n <= MAX_LEAF_SAMPLES -> n <= 8 * zlen packed -> u64 (8 * zlen packed) ->
  exists raw leaf,
    build_leaf packed n = Ok raw /\ apply_boundary_transition raw previous_last = Ok leaf /\
    leaf_exact (packed_bit packed) n (entering_level (packed_bit packed) previous_last) leaf /\
    leaf_view (serialize_leaf leaf) = Ok (view_of leaf).
Proof.
  intros Hd Hn Hlen Hsize. destruct (build_leaf_exact packed n Hd Hn Hlen Hsize) as (raw & Hraw & Hex).
  destruct (apply_boundary_exact _ n previous_last raw Hn Hex) as (leaf & Hleaf & Hexact).
  exists raw, leaf. split; [done|]. split; [done|]. split; [done|].
  apply leaf_view_serialize. by eapply leaf_exact_fits.
Qed.

Section Properties.
Context (meta : CaptureMetadata) (data : Z -> Z -> list Z).
Context (read_packed_block : Z -> Z -> result (failure Error) (list Z)).
Context (identity : list Z) (source_revision : Z) (hash : list Z -> list Z) {R : Type} `{RepositoryLaws R}.
Context {P : Type} (progress : P -> CaptureIndexProgress -> bool * P).

Local Abbreviation open p parallelism schedule r :=
  (open_data_source read_packed_block hash progress (Some identity) meta source_revision parallelism schedule p r).

(** C9. Whatever the number of workers and the order in which their results arrive, and whether the
    index is built in one go or block by block, the same root and the same segments are published; the
    index opens, and every leaf it serves is exact over the samples of its block and the level the
    block before it ends with. *)
Theorem index_builds_agree parallelism schedule p r0 t :
  indexable meta data read_packed_block source_revision hash ->
  (forall p x, fst (progress p x) = true) ->
  is_valid hash r0 identity meta source_revision = false ->
  task_new hash identity meta source_revision r0 = Ok t ->
  exists p' r t',
    build read_packed_block hash progress identity meta source_revision parallelism schedule p r0 = (Ok tt, (p', r)) /\
    run_task read_packed_block hash (S (Z.to_nat (total_probes meta * total_blocks meta))) meta t = (Ok tt, t') /\
    contents r (root_key hash identity) = contents (task_repository t') (root_key hash identity) /\
    (forall k, 0 <= k -> 64 * k < total_probes meta * total_blocks meta ->
       contents r (segment_key hash identity k) = contents (task_repository t') (segment_key hash identity k)) /\
    serves_leaves meta data identity source_revision hash r /\
    serves_leaves meta data identity source_revision hash (task_repository t').
Proof.
  intros Hidx Hp Hv Ht. pose proof Hidx as [Hcap Hread Hmeta Hinj].
  destruct (build_ok meta data Hcap read_packed_block Hread identity source_revision Hmeta hash Hinj r0 progress Hp
    parallelism schedule p) as (p' & r & Hb & Hr).
  destruct (task_ok meta data Hcap read_packed_block Hread identity source_revision Hmeta hash Hinj r0 t Hv Ht)
    as (t' & Hrun & Hr').
  destruct (published_same meta data identity source_revision hash r0 r _ Hr Hr') as [Hroot Hseg].
  rewrite zlen_leaves in Hseg by (destruct Hmeta; nia).
  exists p', r, t'. do 4 (split; [done|]). split; by eapply published_serves.
Qed.

(** C7. A capture that is opened, from a new or from a published index, answers every sequence of queries
    as its samples do, whatever its caches and the repository hold by then: the value at a position,
    the values at a batch of positions or the first position outside, the first change of level after
    a position and before a limit, the first changes up to a number, the packed block; a channel that
    does not exist is refused. *)
Theorem sampler_answers_from_samples parallelism schedule p r0 qs :
  indexable meta data read_packed_block source_revision hash ->
  repository_ok meta data identity source_revision hash r0 ->
  (forall p x, fst (progress p x) = true) -> Forall (query_ok meta) qs ->
  exists s p' r s',
    open p parallelism schedule r0 = (Ok s, (p', r)) /\
    ask_all read_packed_block hash qs s = (map (answer meta data) qs, s').
Proof.
  intros Hidx [Hr0 Hraw] Hp Hqs. pose proof Hidx as [Hcap Hread Hmeta Hinj].
  destruct (open_data_source_ok meta data Hcap read_packed_block Hread identity source_revision Hmeta hash Hinj
    progress Hp r0 parallelism schedule p Hr0 Hraw) as (s & p' & r & Hopen & Hs & _).
  destruct (ask_all_ok meta data read_packed_block identity source_revision hash qs s Hidx Hqs Hs) as (s' & Hask & _).
  by exists s, p', r, s'.
Qed.

(** C8. A window shows every change of level.  After any queries, a window over valid channels of a capture
    that is not empty has the bounds clamped to the capture.  A small window lists exactly the changes
    after its first sample.  In a larger one segments follow each other without gaps from the start to
    the end, a level segment shows the level of all its samples, and every change of level is in an
    activity segment. *)
Theorem window_hides_no_transition parallelism schedule p r0 qs chans start end_ points :
  indexable meta data read_packed_block source_revision hash ->
  repository_ok meta data identity source_revision hash r0 ->
  (forall p x, fst (progress p x) = true) -> Forall (query_ok meta) qs ->
  Forall (fun ch => 0 <= ch < total_probes meta) chans -> 0 < total_samples meta -> 0 <= start -> 0 <= points ->
  total_samples meta * Z.max points 1 <= u64_max ->
  let st := Z.min start (total_samples meta - 1) in
  let en := Z.min (Z.max end_ (st + 1)) (total_samples meta) in
  exists s p' r answers s' w s'',
    open p parallelism schedule r0 = (Ok s, (p', r)) /\ ask_all read_packed_block hash qs s = (answers, s') /\
    sampled_window read_packed_block hash chans start end_ points s' = (Ok w, s'') /\
    sw_start_sample w = st /\ sw_end_sample w = en /\ map sc_channel (sw_channels w) = chans /\
    forall sampled, In sampled (sw_channels w) -> let ch := sc_channel sampled in
      if en - st <=? exact_window_sample_limit points
      then sc_initial sampled = level_at meta data ch st /\
           sc_transitions sampled = edges meta data ch (st + 1) en
      else tiles meta data ch (sc_waveform sampled) st en /\
           (forall a b v i, In (Level a b v) (sc_waveform sampled) -> a <= i < b -> level_at meta data ch i = v) /\
           (forall i, st <= i < en -> 0 < i -> edge meta data ch i = true ->
              exists a b f l, In (Activity a b f l) (sc_waveform sampled) /\ a <= i < b).
Proof.
  intros Hidx [Hr0 Hraw] Hp Hqs Hch Ht Hst Hpts Hfit st en. pose proof Hidx as [Hcap Hread Hmeta Hinj].
  destruct (open_data_source_ok meta data Hcap read_packed_block Hread identity source_revision Hmeta hash Hinj
    progress Hp r0 parallelism schedule p Hr0 Hraw) as (s & p' & r & Hopen & Hs & _).
  destruct (ask_all_ok meta data read_packed_block identity source_revision hash qs s Hidx Hqs Hs) as (s' & Hask & Hs').
  destruct (sampled_window_ok meta data Hcap read_packed_block Hread identity source_revision Hmeta hash Hinj
    chans start end_ points s' Hch Ht Hst Hpts Hfit Hs') as (w & s'' & Hw & Hws & Hwe & Hall & _).
  exists s, p', r, (map (answer meta data) qs), s', w, s''. do 5 (split; [done|]). fold st en in Hall. split.
  - clear - Hall. induction Hall as [|ch sampled chans channels [Hc _] _ IH]; [done|]. cbn. by rewrite Hc, IH.
  - intros sampled Hin. apply list_elem_of_In, list_elem_of_lookup in Hin as [i Hi].
    destruct (Forall2_lookup_r _ _ _ _ _ Hall Hi) as (ch & _ & Hc & Hshow). rewrite Hc.
    destruct (_ <=? _); [by destruct Hshow as (? & ? & _)|]. destruct Hshow as [Htiles _].
    split; [exact Htiles|]. split; [intros a b v j Hl; by eapply tiles_level|]. intros j Hj Hpos He. by eapply tiles_edge.
Qed.
End Properties.

(** ** Witnesses *)

(** A repository in memory that delivers artifacts as regions. *)
Definition memory_repository : Type := gmap ArtifactKey (list Z).

Definition memory_reader (c : list Z) : ArtifactReader :=
  mkArtifactReader (Ok (zlen c)) (fun length => Ok (if length =? zlen c then Some c else None))
    (fun offset wanted => Ok (take (Z.to_nat wanted) (drop (Z.to_nat offset) c))).

#[export] Instance memory_artifacts : ArtifactRepository memory_repository := {
  open_artifact r key := Ok (memory_reader <$> r !! key);
  publish_artifact r key c := (Ok tt, <[key := c]> r)
}.

#[export] Program Instance memory_laws : RepositoryLaws memory_repository := {
  contents r key := r !! key
}.
Next Obligation.
  intros r key. cbn. destruct (r !! key) as [c|]; [|done]. exists (memory_reader c). split; [done|].
  split; [done|]. split; [right; cbn; by rewrite Z.eqb_refl|]. intros offset wanted Ho Hw Hend.
  exists (Z.to_nat wanted). split; [lia|]. split; [lia|done].
Qed.
Next Obligation.
  intros r key c. eexists. split; [done|]. intros key'. destruct (decide (key' = key)) as [->|Hne].
  - apply lookup_insert_eq.
  - by apply lookup_insert_ne.
Qed.

(** Twenty samples of one channel in blocks of eight. *)
Definition witness_meta : CaptureMetadata := mkMetadata 1 0 20 3 8 ["clk"%string].
Definition witness_data (ch bl : Z) : list Z := [nth (Z.to_nat bl) [14; 0; 15] 0].

(** One block of 8192 samples that are all low. *)
Definition witness_large : CaptureMetadata := mkMetadata 1 0 8192 1 8192 [].
Definition witness_low (ch bl : Z) : list Z := replicate (Z.to_nat 1024) 0.

Definition witness_progress (p : nat) (x : CaptureIndexProgress) : bool * nat := (true, S p).

Lemma witness_indexable : indexable witness_meta witness_data (fun ch bl => Ok (witness_data ch bl)) 7 id.
Proof.
  split; [|done| |by intros x y].
  - split; [done|]. split; [done|]. split; [done|]. split; [done|]. intros ch bl Hc Hb. cbn in Hc, Hb.
    assert (Hcases : bl = 0 \/ bl = 1 \/ bl = 2) by lia.
    destruct Hcases as [->|[->| ->]]; (split; [by repeat constructor|done]).
  - by repeat split.
Qed.

Lemma witness_large_indexable : indexable witness_large witness_low (fun ch bl => Ok (witness_low ch bl)) 7 id.
Proof.
  split; [|done| |by intros x y].
  - split; [done|]. split; [done|]. split; [done|]. split; [done|]. intros ch bl Hc Hb. cbn in Hc, Hb.
    assert (bl = 0) as -> by lia. unfold witness_low, block_samples, zlen. rewrite length_replicate.
    split; [|done]. by apply Forall_replicate.
  - by repeat split.
Qed.

Lemma witness_repository_ok meta data : repository_ok meta data [1; 2] 7 id (∅ : memory_repository).
Proof.
  split; [left; reflexivity|]. intros ch bl c _ _ Hcont. discriminate Hcont.
Qed.

Lemma leaf_exact_and_reads_back_witness :
  exists raw leaf, build_leaf [14] 8 = Ok raw /\ apply_boundary_transition raw (Some true) = Ok leaf /\
    leaf_exact (packed_bit [14]) 8 true leaf /\ leaf_view (serialize_leaf leaf) = Ok (view_of leaf).
Proof. by apply (leaf_exact_and_reads_back [14] 8 (Some true)); [repeat constructor|..]. Defined.

Lemma index_builds_agree_witness :
  exists t p' r t',
    task_new id [1; 2] witness_meta 7 (∅ : memory_repository) = Ok t /\
    build (fun ch bl => Ok (witness_data ch bl)) id witness_progress [1; 2] witness_meta 7 4 (fun n => n) 0%nat
      (∅ : memory_repository) = (Ok tt, (p', r)) /\
    run_task (fun ch bl => Ok (witness_data ch bl)) id 4 witness_meta t = (Ok tt, t') /\
    contents r (segment_key id [1; 2] 0) = contents (task_repository t') (segment_key id [1; 2] 0).
Proof.
  assert (Hv : is_valid id (∅ : memory_repository) [1; 2] witness_meta 7 = false) by reflexivity.
  destruct (task_new id [1; 2] witness_meta 7 (∅ : memory_repository)) as [t|] eqn:Ht; [|discriminate].
  destruct (index_builds_agree witness_meta witness_data (fun ch bl => Ok (witness_data ch bl)) [1; 2] 7 id
    witness_progress 4 (fun n => n) 0%nat (∅ : memory_repository) t witness_indexable (fun p x => eq_refl) Hv Ht)
    as (p' & r & t' & Hb & Hrun & _ & Hseg & _).
  exists t, p', r, t'. split; [reflexivity|]. split; [exact Hb|]. split; [exact Hrun|].
  apply Hseg; cbn; lia.
Defined.

Lemma sampler_answers_from_samples_witness :
  exists s p' r s',
    open_data_source (fun ch bl => Ok (witness_data ch bl)) id witness_progress (Some [1; 2]) witness_meta 7 2 (fun n => 1%nat)
      0%nat (∅ : memory_repository) = (Ok s, (p', r)) /\
    ask_all (fun ch bl => Ok (witness_data ch bl)) id
      [NextTransition 0 1 20; NextTransitions 0 0 20 2; ValueAt 0 17; ValueAt 0 20; NextTransition 1 0 20; ValuesAt 0 [0; 3; 9; 19]] s =
    ([Ok (Transition (Some (mkTransition 4 false)));
      Ok (Transitions [mkTransition 1 true; mkTransition 4 false]);
      Ok (Value true); Err (Returned (OutOfBounds 20)); Err (Returned (InvalidProbe 1));
      Ok (Values [false; true; false; true])], s').
Proof.
  destruct (sampler_answers_from_samples witness_meta witness_data (fun ch bl => Ok (witness_data ch bl)) [1; 2] 7 id
    witness_progress 2 (fun n => 1%nat) 0%nat (∅ : memory_repository)
    [NextTransition 0 1 20; NextTransitions 0 0 20 2; ValueAt 0 17; ValueAt 0 20; NextTransition 1 0 20; ValuesAt 0 [0; 3; 9; 19]]
    witness_indexable (witness_repository_ok _ _) (fun p x => eq_refl)) as (s & p' & r & s' & Ho & Ha).
  - repeat constructor; cbn; lia.
  - exists s, p', r, s'. split; [exact Ho|exact Ha].
Defined.

Lemma window_hides_no_transition_witness :
  exists s w s'',
    sampled_window (fun ch bl => Ok (witness_low ch bl)) id [0] 0 8192 1 s = (Ok w, s'') /\
    sw_start_sample w = 0 /\ sw_end_sample w = 8192 /\ map sc_channel (sw_channels w) = [0].
Proof.
  destruct (window_hides_no_transition witness_large witness_low (fun ch bl => Ok (witness_low ch bl)) [1; 2] 7 id
    witness_progress 1 (fun n => n) 0%nat (∅ : memory_repository) [] [0] 0 8192 1 witness_large_indexable
    (witness_repository_ok _ _) (fun p x => eq_refl))
    as (s & p' & r & answers & s' & w & s'' & _ & _ & Hw & Hs & He & Hc & _); [constructor|by repeat constructor|done..|].
  by exists s', w, s''.
Defined.
